(* ===== verification/_CoqProject ===== *)
-Q . S2P
Prelude.v
RustFloat.v
RenderModel.v
RenderSource.v
RenderSourceFacts.v
RenderReplicaFacts.v
RenderCommit.v
RenderCommitFacts.v
RenderBridge.v
RendererBroker.v
RenderBridgeFacts.v
SyncRenderer.v
SyncRendererFacts.v
RustStr.v
SessionHistory.v
SessionHistoryFacts.v
CookieDate.v
Cookie.v
CookieFacts.v
StructuredClone.v
StructuredCloneFacts.v
MessagePort.v
RustUtf8.v
Accessibility.v
RustMap.v
Json.v
RenderWire.v
UrlSearchParams.v
Store.v
StoreFacts.v
StoreTheorems.v
WebStorage.v
WebStorageFacts.v
NetUrl.v
HttpCache.v
HttpCacheFacts.v
Csp.v
Mime.v
Headers.v
HeadersFacts.v
Cors.v
CorsFacts.v
Network.v
NetworkFacts.v
FetchPolicy.v
ProfileCookies.v
Fetch.v
FetchPolicyFacts.v
FetchFacts.v
Traversal.v
TraversalFacts.v
Range.v
ClassList.v
MutationObserver.v
EmbedderPolicy.v
SecFetchFacts.v
PermissionPolicy.v
PermissionPolicyFacts.v
Forms.v
FormEncodingFacts.v
EventPath.v
ImportMap.v
ImportMapFacts.v
BrowserApi.v
BrowserChannel.v
BrowserProtocol.v
ExternalResource.v
ExternalResourceFacts.v
BrowserCore.v
BrowserWork.v
BrowserCommands.v
BrowserLoop.v
BrowserCoreFacts.v
BrowserNavFacts.v
BrowserHandlerFacts.v
BrowserLoopFacts.v
Controller.v
CommandWire.v
CAbi.v
CAbiFacts.v
