(* ===== verification/Prelude.v ===== *)
(** * Vixen: a verified model of the browser's own logic

    Vixen ([src/flutter/crates/]) is a browser in Rust: a core thread that owns contexts,
    documents and script runtimes ([vixen-engine]), a renderer in another process reached
    through a bounded broker ([vixen-ffi], with the protocol in [vixen-api]), a network stack
    with the policies of the web platform ([vixen-net]) and a profile store ([vixen-store]).
    This development translates the code of these crates that decides something into
    executable definitions, keeps their names, and proves what makes them correct.

    ** How the code is read

    A function that cannot fail is a function; one that returns [Result] is in the [result]
    monad of this file; a method with [&mut self] that may fail is in [M], where the state
    reached so far survives an error, as it does in the source.  A machine integer is an [N] or
    [Z] with its saturation, wrap-around or bound written out; a string is a list of code points
    ([RustStr], with UTF-8 in [RustUtf8]); a [BTreeMap] whose order matters is a sorted list
    ([RustMap]), other maps and sets are [gmap] and [gset]; [f64] is binary64 ([RustFloat]).
    A panic is an outcome of its own where code can panic.  What is not the program's own code
    (crates.io, the network, disks, clocks, the page and script engines) is a class or an
    argument; what the code relies on of it is stated as laws, and a concrete instance of
    them is given for every theorem that assumes them.

    ** The parts

    - The renderer protocol, [vixen-api/src/render/]: [RenderModel] (identifiers, limits, error
      codes, geometry), [RenderSource] (source snapshots, mutation batches, the replica that
      applies them), [RenderCommit] (commits, presentation, queries, input and semantic
      actions, and the acceptance state with its replay ledgers), [RenderBridge] (requests and
      responses).  [vixen-ffi/src/]: [RendererBroker] (every method as the atomic pieces between
      its lock regions, and the interleaving of the threads that call them), [SyncRenderer] (the
      bridge by which the core publishes its sources and waits for a layout), [RenderWire] (the
      JSON of all that crosses to the renderer, over [Json], which is [serde_json]).
    - The browser core, [vixen-engine/src/browser.rs]: [BrowserApi] (what it exchanges with the
      front ends), [BrowserChannel] (identifiers and the event channel), [ExternalResource] (the
      load of a script, stylesheet or image), [BrowserCore] (state, start and end of a
      navigation), [BrowserWork] (from the loaded source to the settled document),
      [BrowserCommands] (actions of script, lifecycle, all commands), [Accessibility] (the
      snapshots of the semantic tree), [BrowserLoop] (the thread with its mailbox, its clients
      and the loads as a step relation).  [BrowserProtocol] is the
      contract with the consumers of events: a monitor that sees the events only.
    - The boundary to the front end, [vixen-ffi/src/]: [Controller] ([lib.rs]: every command of a
      front end, and when a press and a release are a click), [CommandWire] (the JSON of commands,
      answers and events in [c_abi.rs]), [CAbi] ([c_abi.rs] and [c_renderer.rs]: the exported
      functions over the registries of handles and output buffers).  The three layers and the
      core meet in classes: [EngineBrowserHandle] is what the controller asks of the core's
      thread, [AbiBoundary] what the exported functions ask of the rest of the process.
    - The network, [vixen-net/src/] and [vixen-engine/src/script/webapi.rs]: [NetUrl] (URL
      policy), [CookieDate] and [Cookie] (the jar, [Set-Cookie], sites), [Headers], [Cors] (with
      the preflight), [Csp], [FetchPolicy] (referrer, mixed content, integrity),
      [EmbedderPolicy] (COOP, COEP, CORP, request metadata, nosniff), [PermissionPolicy]
      (sandboxing, permissions policy, trusted types, HSTS), [HttpCache], [Network] (requests,
      redirects, bodies), [ProfileCookies], and [Fetch], which puts them together.
    - The profile, [vixen-store/src/lib.rs]: [Store]; [WebStorage] runs on it.
    - Helpers of the page, [vixen-engine/src/]: [SessionHistory], [StructuredClone],
      [MessagePort], [UrlSearchParams], [Mime], [Traversal], [Range], [ClassList],
      [MutationObserver] (with abort signals), [Forms], [EventPath], [ImportMap].

    A file with a name in [Facts], [Theorems], [Instance] or [Aliases] holds the theorems of the
    file whose name it begins with; the small components have theirs in the same file.

    ** What the theorems show

    - The browser core as a whole ([BrowserLoopFacts], over [BrowserCoreFacts],
      [BrowserNavFacts] and [BrowserHandlerFacts]): for every order in which commands, loads and
      work interleave, no handler panics, the monitor accepts the events and knows from them the
      state of the core, each navigation ends once, the registry of contexts, runtimes and
      identifiers is consistent, and no work is lost or done twice.
    - Renderer: validation is a declarative predicate; batches and snapshots reach the same
      state; the renderer that applies the queue converges to the core's mirror; handles are
      released once; every request of the broker is answered at most once, and all of them on
      shutdown.
    - Boundary: what the renderer and a front end write is read as it was meant, and what is
      read is within the bounds, but for two counts of a text query result that only the check
      of the broker bounds; a click goes only to the node that the primary button was pressed
      and released on, with no cancel, no mouse event elsewhere and no change of the view or the
      zoom between (keys, text and navigations do not count); output buffers are neither lost nor shared whatever threads do,
      at most 64 are outstanding and tokens never repeat; a call adds to the registries exactly
      what it returns and touches no other handle; events of a handle are numbered without gaps,
      and the one way in which an event is lost without a gap is stated exactly.
    - Network: what may leave (URL, content, mixed-content policies, preflight), with which
      cookies, what script sees of what was received, that redirect loops end and bodies are
      bounded, and when a stored response may be used; what a content security policy permits,
      with the source lists for which the code fails open.
    - Storage: origins are isolated, but for the rows of the two cache tables, which all origins
      share and which other origins can evict; quotas hold, Web Storage over the database is the
      map of the specification, the jar keeps its invariant, and a delta is merged exactly where
      the jar has room and otherwise loses the oldest cookies.
    - Codecs and trees: round trips of queries, MIME types and forms; exactness of the parsers
      and policies against declarative definitions; traversals against the preorder; the
      selection, history and import maps against their abstract states.

    ** Bounds and fuel

    A loop that the source bounds itself runs on that bound: the 257 ancestors of the renderer
    source, [MAX_RECOVERY_ATTEMPTS] of the synchronous renderer, the redirects of [Network] and
    [ExternalResource] ([max_redirects + 1] turns, proved enough).  A loop over a list or a
    string runs on its length (MIME parameters, multipart reader, evictions).  A loop over the
    tree takes a number above the number of its nodes ([Traversal]) or its depth ([EventPath]),
    proved enough for trees without cycles.  The evaluation of script may ask the core to
    evaluate again: fuel, where running out is divergence, which makes no step of [BrowserLoop].

    ** Not modelled

    Poisoned locks, a [RefCell] that is borrowed twice, the text of [Debug] and [Display], failures of the disk, the inspector's
    events and [blockedReason]; the methods compiled only for tests; CDP with its sockets; the
    raw pointers of the C interface (an output is where they point to) and its events of
    downloads and diagnostics, which the core does not send; the JavaScript sources of the Web
    IDL hosts and the glue to the script engine; the adapters to the HTML parser and the style
    engine; the start of the host with its profile directory.  [step_mismatch] of a form
    control in [f64] is left out because the rounding of division is not in the float model. *)

From stdpp Require Import base decidable gmap sets list list_numbers strings fin_maps sorting pretty.
From Stdlib Require Import Lia.

Declare Scope vixen_scope.
Delimit Scope vixen_scope with vixen.
Open Scope vixen_scope.

(** ** The error monad: Rust's [Result] and the question-mark operator *)

Inductive result (E A : Type) : Type :=
| Ok (a : A)
| Err (e : E).
Arguments Ok {E A} a.
Arguments Err {E A} e.

#[export] Instance result_ret E : MRet (result E) := λ A a, Ok a.
#[export] Instance result_bind E : MBind (result E) :=
  λ A B f m, match m with Ok a => f a | Err e => Err e end.
#[export] Instance result_eq_dec E A `{EqDecision E, EqDecision A} :
  EqDecision (result E A).
Proof. solve_decision. Defined.

Definition is_ok {E A} (m : result E A) : bool :=
  match m with Ok _ => true | Err _ => false end.

(** [if b { return Err(e) }] as the guard of the rest of a body. *)
Definition throw_if {E} (b : bool) (e : E) : result E unit :=
  if b then Err e else Ok tt.

(** [o.ok_or(e)?] *)
Definition ok_or {E A} (o : option A) (e : E) : result E A :=
  match o with Some a => Ok a | None => Err e end.

(** [r.map_err(f)] *)
Definition map_err {E F A} (f : E → F) (m : result E A) : result F A :=
  match m with Ok a => Ok a | Err e => Err (f e) end.

(** [for x in xs { .. ? }] with the loop's local variables as the state [s]. *)
Fixpoint for_each {E A S} (f : S → A → result E S) (s : S) (xs : list A) : result E S :=
  match xs with
  | [] => Ok s
  | x :: xs => s' ← f s x; for_each f s' xs
  end.

(** [.map(f).collect::<Result<Vec<_>, _>>()]: the first error ends it. *)
Definition collect {E A B} (f : A → result E B) : list A → result E (list B) :=
  fix collect xs :=
    match xs with
    | [] => Ok []
    | x :: xs => match f x with
                 | Ok y => match collect xs with Ok ys => Ok (y :: ys) | Err e => Err e end
                 | Err e => Err e
                 end
    end.

(** ** Explicit state with errors: a method taking [&mut self] and returning [Result].
    The state reached so far survives an error, as it does in the source. *)

Definition M (S E A : Type) : Type := S → S * result E A.

#[export] Instance M_ret S E : MRet (M S E) := λ A a s, (s, Ok a).
#[export] Instance M_bind S E : MBind (M S E) :=
  λ A B f m s, match m s with
               | (s', Ok a) => f a s'
               | (s', Err e) => (s', Err e)
               end.

Definition get {S E} : M S E S := λ s, (s, Ok s).
Definition put {S E} (s : S) : M S E unit := λ _, (s, Ok tt).
Definition modify {S E} (f : S → S) : M S E unit := λ s, (f s, Ok tt).
Definition lift {S E A} (m : result E A) : M S E A := λ s, (s, m).
Definition fail {S E A} (e : E) : M S E A := λ s, (s, Err e).

(** ** Lemmas on the monads *)

Section result_lemmas.
Context {E : Type}.

Lemma bind_Ok {A B} (m : result E A) (f : A → result E B) b :
  (m ≫= f) = Ok b ↔ ∃ a, m = Ok a ∧ f a = Ok b.
Proof. destruct m; cbn; naive_solver. Qed.

Lemma bind_Err {A B} (m : result E A) (f : A → result E B) e :
  (m ≫= f) = Err e ↔ m = Err e ∨ ∃ a, m = Ok a ∧ f a = Err e.
Proof. destruct m; cbn; naive_solver. Qed.

Lemma Ok_inj_iff {A} (a b : A) : Ok (E:=E) a = Ok b ↔ a = b.
Proof. naive_solver. Qed.

Lemma Err_Ok_iff {A} (e : E) (b : A) : Err e = Ok b ↔ False.
Proof. naive_solver. Qed.

Lemma throw_if_Ok (b : bool) (e : E) u : throw_if b e = Ok u ↔ b = false.
Proof. destruct b, u; cbn; naive_solver. Qed.

Lemma throw_if_Err (b : bool) (e e' : E) : throw_if b e = Err e' ↔ b = true ∧ e' = e.
Proof. destruct b; cbn; naive_solver. Qed.

Lemma ok_or_Ok {A} (o : option A) (e : E) a : ok_or o e = Ok a ↔ o = Some a.
Proof. destruct o; cbn; naive_solver. Qed.

Lemma ok_or_Err {A} (o : option A) (e e' : E) : ok_or o e = Err e' ↔ o = None ∧ e' = e.
Proof. destruct o; cbn; naive_solver. Qed.

Lemma map_err_Ok {F A} (f : E → F) (m : result E A) a : map_err f m = Ok a ↔ m = Ok a.
Proof. destruct m; cbn; naive_solver. Qed.

Lemma is_ok_true {A} (m : result E A) : is_ok m = true ↔ ∃ a, m = Ok a.
Proof. destruct m; cbn; naive_solver. Qed.

Lemma for_each_app {A S} (f : S → A → result E S) s xs ys :
  for_each f s (xs ++ ys) = s' ← for_each f s xs; for_each f s' ys.
Proof.
  revert s. induction xs as [|x xs IH]; intros s; cbn; [done|].
  destruct (f s x); cbn; [apply IH | done].
Qed.

(** A loop that only checks: it succeeds exactly when every iteration does. *)
Lemma for_each_unit_Ok {A} (f : unit → A → result E unit) xs u :
  for_each f tt xs = Ok u ↔ Forall (λ x, f tt x = Ok tt) xs.
Proof.
  destruct u. induction xs as [|x xs IH]; cbn; [by split|].
  rewrite bind_Ok, Forall_cons, <-IH. split.
  - intros ([] & ? & ?). by split.
  - intros [? ?]. by exists tt.
Qed.

Lemma collect_Ok {A B} (f : A → result E B) xs ys :
  collect f xs = Ok ys ↔ Forall2 (λ x y, f x = Ok y) xs ys.
Proof.
  revert ys. induction xs as [|x xs IH]; intros ys; cbn [collect].
  - split; [intros [= <-]; constructor|inversion 1; done].
  - destruct (f x) as [y|e] eqn:Hy.
    + destruct (collect f xs) as [zs|e] eqn:Hc.
      * split; [intros [= <-]; constructor; [done|by apply IH]|].
        inversion 1 as [|? y' ? ys' Hy' Hys]; subst. rewrite Hy in Hy'. injection Hy' as <-.
        apply IH in Hys. by injection Hys as <-.
      * split; [done|]. inversion 1 as [|? y' ? ys' Hy' Hys]; subst. by apply IH in Hys.
    + split; [done|]. inversion 1 as [|? y' ? ys' Hy' Hys]; subst. congruence.
Qed.

(** Invariant rule for loops. *)
Lemma for_each_ind {A S} (P : S → Prop) (f : S → A → result E S) xs s s' :
  (∀ s x s', x ∈ xs → P s → f s x = Ok s' → P s') →
  P s → for_each f s xs = Ok s' → P s'.
Proof.
  revert s. induction xs as [|x xs IH]; intros s Hf Hs; cbn.
  - by intros [= <-].
  - rewrite bind_Ok. intros (s1 & H1 & H2).
    eapply IH; [|eapply Hf; [|exact Hs|exact H1]|exact H2].
    + intros ????. eapply Hf. by constructor.
    + by constructor.
Qed.
End result_lemmas.

Section state_lemmas.
Context {S E : Type}.

Lemma lift_bind_Ok {A B} (m : result E A) (k : A → M S E B) s s' b :
  (lift m ≫= k) s = (s', Ok b) ↔ ∃ a, m = Ok a ∧ k a s = (s', Ok b).
Proof. unfold mbind, M_bind, lift. destruct m; naive_solver. Qed.

Lemma lift_bind_unit_Ok {B} (m : result E unit) (k : unit → M S E B) s s' b :
  (lift m ≫= k) s = (s', Ok b) ↔ m = Ok tt ∧ k tt s = (s', Ok b).
Proof. rewrite lift_bind_Ok. split; [intros ([] & ?); done | by exists tt]. Qed.

Lemma get_bind {B} (k : S → M S E B) s : (get ≫= k) s = k s s.
Proof. done. Qed.

Lemma modify_Ok (f : S → S) s s' u : modify f s = (s', Ok (E:=E) u) ↔ s' = f s.
Proof. destruct u. unfold modify. naive_solver. Qed.

(** A computation that fails without having changed the state. *)
Definition atomic {A} (m : M S E A) : Prop := ∀ s s' e, m s = (s', Err e) → s' = s.

Lemma atomic_lift {A B} (m : result E A) (k : A → M S E B) :
  (∀ a, m = Ok a → atomic (k a)) → atomic (lift m ≫= k).
Proof.
  intros Hk s s' e. unfold mbind, M_bind, lift. destruct m; [|naive_solver].
  by apply Hk.
Qed.

Lemma atomic_get {B} (k : S → M S E B) : (∀ s, atomic (k s)) → atomic (get ≫= k).
Proof. intros Hk s s' e. rewrite get_bind. apply Hk. Qed.

Lemma atomic_modify (f : S → S) : atomic (modify f).
Proof. by intros s s' e. Qed.
End state_lemmas.

Ltac atomic_tac :=
  repeat match goal with
  | |- atomic (modify _) => apply atomic_modify
  | |- atomic (lift _ ≫= _) => apply atomic_lift; intros ? ?
  | |- atomic (get ≫= _) => apply atomic_get; let self := fresh "self" in intros self
  end.

Lemma bind_unit_Ok {E B} (m : result E unit) (f : unit → result E B) b :
  (m ≫= f) = Ok b ↔ m = Ok tt ∧ f tt = Ok b.
Proof. rewrite bind_Ok. split; [intros ([] & ?); done | by exists tt]. Qed.

(** ** Machine integers
    [u16], [u32], [u64] and [usize] values are [N]; [usize] is 64 bits wide on the
    targets of the project.  Arithmetic that may leave the width is written out. *)

Definition usize_max : N := 18446744073709551615.
Definition u64_max : N := 18446744073709551615.
Definition u16_max : N := 65535.

(** [usize::checked_add] *)
Definition checked_add (a b : N) : option N :=
  if bool_decide (a + b ≤ usize_max)%N then Some (a + b)%N else None.

(** [u16::saturating_add] *)
Definition u16_saturating_add (a b : N) : N := N.min (a + b) u16_max.

(** [usize::saturating_add] *)
Definition usize_saturating_add (a b : N) : N := N.min (a + b) usize_max.

(** [Vec::len], [BTreeMap::len], ... *)
Definition len {A} (l : list A) : N := N.of_nat (length l).

Lemma checked_add_Some a b c : checked_add a b = Some c ↔ (c = a + b ∧ a + b ≤ usize_max)%N.
Proof. unfold checked_add. case_bool_decide; naive_solver. Qed.

Lemma checked_add_None a b : checked_add a b = None ↔ (usize_max < a + b)%N.
Proof. unfold checked_add. case_bool_decide; naive_solver lia. Qed.

(** ** Strings
    A Rust [String] is a list of Unicode scalar values; [len] counts UTF-8 bytes and
    [encode_utf16().count()] UTF-16 code units. *)

Abbreviation rchar := N (only parsing).
Abbreviation rstr := (list N) (only parsing).

Fixpoint lit (s : string) : rstr :=
  match s with
  | EmptyString => []
  | String c s => Ascii.N_of_ascii c :: lit s
  end.
Arguments lit s%_string.

(** [char::len_utf8] and [char::len_utf16] *)
Definition len_utf8 (c : rchar) : N :=
  if (c <? 128)%N then 1 else if (c <? 2048)%N then 2 else if (c <? 65536)%N then 3 else 4.
Definition len_utf16 (c : rchar) : N := if (c <? 65536)%N then 1 else 2.

Definition sumN {A} (f : A → N) (l : list A) : N := foldr (λ x n, f x + n)%N 0%N l.

Definition str_len (s : rstr) : N := sumN len_utf8 s.
Definition utf16_len (s : rstr) : N := sumN len_utf16 s.

(** [format!] of an integer *)
Definition dec (n : N) : rstr := lit (pretty n).

Lemma sumN_app {A} (f : A → N) l k : sumN f (l ++ k) = (sumN f l + sumN f k)%N.
Proof. unfold sumN. induction l; cbn; lia. Qed.

Lemma sumN_Permutation {A} (f : A → N) l k : l ≡ₚ k → sumN f l = sumN f k.
Proof. unfold sumN. induction 1; cbn; lia. Qed.

Lemma sumN_cons {A} (f : A → N) x l : sumN f (x :: l) = (f x + sumN f l)%N.
Proof. done. Qed.

Lemma len_cons {A} (x : A) l : len (x :: l) = (1 + len l)%N.
Proof. unfold len. cbn. lia. Qed.

Lemma len_app {A} (l k : list A) : len (l ++ k) = (len l + len k)%N.
Proof. unfold len. rewrite length_app. lia. Qed.

Lemma len_Permutation {A} (l k : list A) : l ≡ₚ k → len l = len k.
Proof. unfold len. by intros ->. Qed.

(** ** Rust's [PartialEq]
    A structure that holds floats has an equality that is symmetric and transitive but
    neither reflexive nor Leibniz.  Types that derive [Eq] are compared with
    [bool_decide (x = y)]. *)

Class PartialEq (A : Type) := partial_eq : A → A → bool.
Infix "==?" := partial_eq (at level 70, no associativity) : vixen_scope.

Class PartialEqLaws (A : Type) `{PartialEq A} : Prop := {
  eqb_sym (x y : A) : (x ==? y) = true → (y ==? x) = true;
  eqb_trans (x y z : A) : (x ==? y) = true → (y ==? z) = true → (x ==? z) = true;
}.

(** [Option<T>::eq] and the element-wise equality of vectors and maps. *)
#[export] Instance option_partial_eq `{PartialEq A} : PartialEq (option A) := λ x y,
  match x, y with
  | Some x, Some y => x ==? y
  | None, None => true
  | _, _ => false
  end.

Fixpoint list_eqb {A} (f : A → A → bool) (l k : list A) : bool :=
  match l, k with
  | [], [] => true
  | x :: l, y :: k => f x y && list_eqb f l k
  | _, _ => false
  end.
#[export] Instance list_partial_eq `{PartialEq A} : PartialEq (list A) := list_eqb partial_eq.

Lemma list_eqb_Forall2 {A} (f : A → A → bool) l k :
  list_eqb f l k = true ↔ Forall2 (λ x y, f x y = true) l k.
Proof.
  revert k. induction l as [|x l IH]; intros [|y k]; cbn.
  - split; [constructor | done].
  - split; [done | inversion 1].
  - split; [done | inversion 1].
  - rewrite andb_true_iff, IH, Forall2_cons. done.
Qed.

(** ** Ordered maps
    [BTreeMap<Id, V>] is a [gmap] from non-zero identifiers; iteration is in key order. *)

Definition key_le {V} (a b : positive * V) : Prop := (a.1 ≤ b.1)%positive.
#[export] Instance key_le_dec {V} : RelDecision (@key_le V) :=
  λ a b, decide (a.1 ≤ b.1)%positive.

Definition btree_to_list {V} (m : gmap positive V) : list (positive * V) :=
  merge_sort key_le (map_to_list m).
Definition btree_values {V} (m : gmap positive V) : list V := (btree_to_list m).*2.
Definition btree_keys {V} (m : gmap positive V) : list positive := (btree_to_list m).*1.

(** [BTreeMap::contains_key] *)
Definition contains_key {V} (m : gmap positive V) (k : positive) : bool :=
  bool_decide (is_Some (m !! k)).

(** A value that carries its own identifier. *)
Class Keyed (A : Type) := key_of : A → positive.

(** [xs.into_iter().map(|x| (x.id, x)).collect::<BTreeMap<_, _>>()]: a later entry wins. *)
Definition index_by `{Keyed A} (xs : list A) : gmap positive A :=
  foldl (λ m x, <[key_of x := x]> m) ∅ xs.

Lemma btree_to_list_Permutation {V} (m : gmap positive V) :
  btree_to_list m ≡ₚ map_to_list m.
Proof. apply merge_sort_Permutation. Qed.

Lemma elem_of_btree_to_list {V} (m : gmap positive V) k v :
  (k, v) ∈ btree_to_list m ↔ m !! k = Some v.
Proof. by rewrite btree_to_list_Permutation, elem_of_map_to_list. Qed.

Lemma elem_of_btree_values {V} (m : gmap positive V) v :
  v ∈ btree_values m ↔ ∃ k, m !! k = Some v.
Proof.
  unfold btree_values. rewrite list_elem_of_fmap. split.
  - intros ([k v'] & -> & ?%elem_of_btree_to_list). eauto.
  - intros (k & ?). exists (k, v). by rewrite elem_of_btree_to_list.
Qed.

Lemma elem_of_btree_keys {V} (m : gmap positive V) k :
  k ∈ btree_keys m ↔ is_Some (m !! k).
Proof.
  unfold btree_keys. rewrite list_elem_of_fmap. split.
  - intros ([k' v'] & -> & ?%elem_of_btree_to_list). eauto.
  - intros (v & ?). exists (k, v). by rewrite elem_of_btree_to_list.
Qed.

Lemma NoDup_btree_keys {V} (m : gmap positive V) : NoDup (btree_keys m).
Proof.
  unfold btree_keys. rewrite btree_to_list_Permutation. apply NoDup_fst_map_to_list.
Qed.

Lemma contains_key_true {V} (m : gmap positive V) k :
  contains_key m k = true ↔ is_Some (m !! k).
Proof. unfold contains_key. by rewrite bool_decide_eq_true. Qed.

Lemma contains_key_false {V} (m : gmap positive V) k :
  contains_key m k = false ↔ m !! k = None.
Proof. unfold contains_key. rewrite bool_decide_eq_false, eq_None_not_Some. done. Qed.

(** A map indexed by the identifiers of its values. *)
Definition map_keyed `{Keyed A} (m : gmap positive A) : Prop :=
  ∀ k x, m !! k = Some x → key_of x = k.

Section index_by.
Context `{Keyed A}.
Implicit Types (xs : list A) (m : gmap positive A).

Lemma foldl_index_lookup xs m k :
  NoDup (key_of <$> xs) →
  foldl (λ m x, <[key_of x := x]> m) m xs !! k =
  match list_find (λ x, key_of x = k) xs with Some (_, x) => Some x | None => m !! k end.
Proof.
  revert m. induction xs as [|x xs IH]; intros m; cbn; [done|].
  rewrite NoDup_cons. intros [Hx Hnd]. rewrite IH by done.
  destruct (decide (key_of x = k)) as [<-|Hne].
  - destruct (list_find _ xs) as [[i y]|] eqn:Hf; [|by rewrite lookup_insert_eq].
    apply list_find_Some in Hf as (Hl & Hk & _).
    exfalso. apply Hx. rewrite <-Hk. apply list_elem_of_fmap_2.
    by eapply list_elem_of_lookup_2.
  - destruct (list_find _ xs) as [[i y]|] eqn:Hf; [done|]. cbn. by rewrite lookup_insert_ne.
Qed.

Lemma lookup_index_by xs k x :
  NoDup (key_of <$> xs) → index_by xs !! k = Some x ↔ x ∈ xs ∧ key_of x = k.
Proof.
  intros Hnd. unfold index_by. rewrite foldl_index_lookup by done.
  destruct (list_find _ xs) as [[i y]|] eqn:Hf.
  - apply list_find_Some in Hf as (Hl & Hk & _). split.
    + intros [= <-]. split; [by eapply list_elem_of_lookup_2 | done].
    + intros [Hx Hkx]. f_equal. apply list_elem_of_lookup in Hx as [j Hj].
      assert (i = j) as ->; [|congruence].
      eapply (NoDup_lookup _ i j k); [exact Hnd| |]; rewrite list_lookup_fmap, ?Hl, ?Hj; cbn; congruence.
  - rewrite lookup_empty. split; [done|]. intros [Hx Hk].
    apply list_find_None in Hf. rewrite Forall_forall in Hf. by apply Hf in Hx.
Qed.

Lemma lookup_index_by_None xs k : index_by xs !! k = None ↔ k ∉ key_of <$> xs.
Proof.
  unfold index_by. assert (∀ m, foldl (λ m x, <[key_of x := x]> m) m xs !! k = None ↔
    m !! k = None ∧ k ∉ key_of <$> xs) as Hgen.
  { induction xs as [|x xs IH]; intros m; cbn; [set_solver|].
    rewrite IH, lookup_insert_None. set_solver. }
  rewrite Hgen, lookup_empty. naive_solver.
Qed.

Lemma index_by_keyed xs : map_keyed (index_by xs).
Proof.
  unfold index_by. assert (∀ m, map_keyed m →
    map_keyed (foldl (λ m x, <[key_of x := x]> m) m xs)) as Hgen.
  { induction xs as [|x xs IH]; intros m Hm; cbn; [done|]. apply IH.
    intros k y [[<- <-]|[? ?]]%lookup_insert_Some; [done | by apply Hm]. }
  apply Hgen. intros k x. by rewrite lookup_empty.
Qed.

Lemma btree_values_keys m : map_keyed m → key_of <$> btree_values m = btree_keys m.
Proof.
  intros Hm. unfold btree_values, btree_keys. rewrite <-list_fmap_compose.
  apply list_fmap_ext. intros i [k x] Hi%list_elem_of_lookup_2. cbn.
  apply Hm. by apply elem_of_btree_to_list.
Qed.

Lemma NoDup_btree_values_keys m : map_keyed m → NoDup (key_of <$> btree_values m).
Proof. intros Hm. rewrite btree_values_keys by done. apply NoDup_btree_keys. Qed.

Lemma index_by_btree_values m : map_keyed m → index_by (btree_values m) = m.
Proof.
  intros Hm. apply map_eq. intros k. apply option_eq. intros x.
  rewrite lookup_index_by by by apply NoDup_btree_values_keys.
  rewrite elem_of_btree_values. split.
  - intros [[k' Hk'] <-]. by rewrite (Hm _ _ Hk').
  - intros Hk. split; [by exists k | by apply Hm].
Qed.

Lemma btree_values_index_by xs :
  NoDup (key_of <$> xs) → btree_values (index_by xs) ≡ₚ xs.
Proof.
  intros Hnd. apply NoDup_Permutation.
  - eapply (NoDup_fmap_1 key_of). apply NoDup_btree_values_keys, index_by_keyed.
  - by eapply NoDup_fmap_1.
  - intros x. rewrite elem_of_btree_values. split.
    + intros (k & Hk). by apply lookup_index_by in Hk as [??].
    + intros Hx. exists (key_of x). by apply lookup_index_by.
Qed.
End index_by.

(** ** Automation for bodies made of guards
    [ok_inv] takes a successful run apart into the conditions its guards checked;
    [ok_run] runs a body forward, leaving one goal per condition that it cannot prove.
    Later files add the inversion lemmas of their own checks to [ok_inv_hook] and the
    forward lemmas to the rewrite database [ok_run]. *)

Section forward_lemmas.
Context {E : Type}.

Lemma bind_throw_if {B} b (e : E) (f : unit → result E B) :
  b = false → (throw_if b e ≫= f) = f tt.
Proof. by intros ->. Qed.

Lemma bind_run {A B} (m : result E A) a (f : A → result E B) :
  m = Ok a → (m ≫= f) = f a.
Proof. by intros ->. Qed.

Lemma bind_ok_or {A B} o (a : A) (e : E) (f : A → result E B) :
  o = Some a → (ok_or o e ≫= f) = f a.
Proof. by intros ->. Qed.

Lemma throw_if_run b (e : E) : b = false → throw_if b e = Ok tt.
Proof. by intros ->. Qed.
End forward_lemmas.

Lemma bool_decide_false_iff P `{Decision P} : bool_decide P = false ↔ ¬ P.
Proof. apply bool_decide_eq_false. Qed.

Ltac ok_inv_hook H := fail.

Ltac bool_inv :=
  repeat match goal with
  | H : (_ || _) = false |- _ => apply orb_false_iff in H as [? ?]
  | H : (_ && _) = true |- _ => apply andb_true_iff in H as [? ?]
  | H : negb _ = false |- _ => apply negb_false_iff in H
  | H : negb _ = true |- _ => apply negb_true_iff in H
  | H : bool_decide _ = true |- _ => apply bool_decide_eq_true in H
  | H : bool_decide _ = false |- _ => apply bool_decide_eq_false in H
  | H : contains_key _ _ = true |- _ => apply contains_key_true in H
  | H : contains_key _ _ = false |- _ => apply contains_key_false in H
  end.

Ltac ok_inv :=
  repeat (match goal with
  | H : Ok _ = Ok _ |- _ => injection H as H
  | H : Err _ = Ok _ |- _ => discriminate H
  | H : (_ ≫= _) = Ok _ |- _ => apply bind_Ok in H as (? & ? & H)
  | H : throw_if _ _ = Ok _ |- _ => apply throw_if_Ok in H
  | H : ok_or _ _ = Ok _ |- _ => apply ok_or_Ok in H
  | H : map_err _ _ = Ok _ |- _ => apply map_err_Ok in H
  | H : checked_add _ _ = Some _ |- _ => apply checked_add_Some in H as [? ?]
  | H : _ = Ok _ |- _ => ok_inv_hook H
  | u : unit |- _ => destruct u
  | p : (_ * _)%type |- _ => destruct p
  | x := _ |- _ => subst x
  end; cbv beta iota in * );
  bool_inv.

Ltac ok_run_hook := fail.

(** Side conditions of [ok_run]: a boolean guard is [false]. *)
Ltac guard_side :=
  repeat match goal with
  | |- (_ || _) = false => apply orb_false_iff; split
  | |- negb _ = false => apply negb_false_iff
  | |- bool_decide _ = false => apply bool_decide_eq_false
  | |- bool_decide _ = true => apply bool_decide_eq_true
  | |- contains_key _ _ = false => apply contains_key_false
  | |- contains_key _ _ = true => apply contains_key_true
  end; try (done || lia).

Ltac ok_run :=
  repeat (match goal with
  | |- (throw_if _ _ ≫= _) = _ => rewrite bind_throw_if; [|by guard_side]
  | |- throw_if _ _ = Ok _ => apply throw_if_run; by guard_side
  | |- (Ok _ ≫= _) = _ => unfold mbind at 1, result_bind at 1
  | |- (ok_or (Some _) _ ≫= _) = _ => rewrite (bind_ok_or _ _ _ _ eq_refl)
  | |- _ => ok_run_hook
  end; cbv beta iota).

(** ** Loops that collect identifiers into a set and reject repetitions *)

Section fresh_in.
Context `{Countable K}.
Implicit Types (ids : gset K) (ks : list K).

Definition fresh_in ids ks : Prop := NoDup ks ∧ ∀ k, k ∈ ks → k ∉ ids.

Lemma fresh_in_nil ids : fresh_in ids [].
Proof. split; [constructor|]. by intros k ?%not_elem_of_nil. Qed.

Lemma fresh_in_cons ids k ks :
  fresh_in ids (k :: ks) ↔ (k ∉ ids) ∧ fresh_in ({[k]} ∪ ids) ks.
Proof.
  unfold fresh_in. rewrite NoDup_cons. setoid_rewrite elem_of_cons.
  setoid_rewrite elem_of_union. setoid_rewrite elem_of_singleton. naive_solver.
Qed.

Lemma fresh_in_app ids ks ks' :
  fresh_in ids (ks ++ ks') ↔ fresh_in ids ks ∧ fresh_in (list_to_set ks ∪ ids) ks'.
Proof.
  revert ids. induction ks as [|k ks IH]; intros ids; cbn [app list_to_set].
  - rewrite (left_id_L ∅ (∪)). split; [|by intros [_ ?]]. intros. split; [apply fresh_in_nil|done].
  - rewrite !fresh_in_cons, IH, (assoc_L (∪)), (comm_L (∪) _ {[k]}). tauto.
Qed.

Lemma fresh_in_empty ks : fresh_in ∅ ks ↔ NoDup ks.
Proof.
  split; [by intros [? _]|]. intros. split; [done|]. intros k _. apply not_elem_of_empty.
Qed.

Lemma list_to_set_cons_union ids k ks :
  (list_to_set (k :: ks) ∪ ids : gset K) = list_to_set ks ∪ ({[k]} ∪ ids).
Proof. cbn. by rewrite (assoc_L (∪)), (comm_L (∪) _ {[k]}). Qed.

(** The loop that checks [P] of every element and that its key is new. *)
Lemma for_each_fresh {E A} (f : gset K → A → result E (gset K)) (key : A → K) (P : A → Prop)
    ids xs ids' :
  (∀ ids x ids', f ids x = Ok ids' ↔ P x ∧ (key x ∉ ids) ∧ ids' = {[key x]} ∪ ids) →
  for_each f ids xs = Ok ids' ↔
  Forall P xs ∧ fresh_in ids (key <$> xs) ∧ ids' = list_to_set (key <$> xs) ∪ ids.
Proof.
  intros Hf. revert ids. induction xs as [|x xs IH]; intros ids; cbn [for_each fmap list_fmap].
  - rewrite Ok_inj_iff. cbn [list_to_set]. rewrite (left_id_L ∅ (∪)).
    split; [intros ->; split_and!; [constructor|apply fresh_in_nil|done] | by intros (_&_&->)].
  - rewrite bind_Ok, Forall_cons, fresh_in_cons, list_to_set_cons_union.
    setoid_rewrite Hf. setoid_rewrite IH. naive_solver.
Qed.
End fresh_in.

(** ** Equality up to [PartialEq]
    [x ≈ y] when [x] is [y] or the program's own equality test accepts them. *)

Definition same `{PartialEq A} (x y : A) : Prop := x = y ∨ (x ==? y) = true.
Infix "≈" := same (at level 70, no associativity) : vixen_scope.

#[export] Instance same_equivalence `{PartialEqLaws A} : Equivalence (same (A:=A)).
Proof.
  split.
  - by left.
  - intros x y [->|?]; [by left | right; by apply eqb_sym].
  - intros x y z [->|?] [->|?]; try by left.
    + by right.
    + by right.
    + right. by eapply eqb_trans.
Qed.

Lemma list_eqb_spec {A} (f : A → A → bool) l k :
  (∀ x y, f x y = true ↔ x = y) → list_eqb f l k = true ↔ l = k.
Proof.
  intros Hf. rewrite list_eqb_Forall2. split.
  - induction 1 as [|x y l' k' Hxy _ IH]; [done|]. apply Hf in Hxy. congruence.
  - intros ->. induction k; constructor; [by apply Hf | done].
Qed.

Lemma filter_id {A} (P : A → Prop) `{∀ x, Decision (P x)} (l : list A) :
  (∀ x, x ∈ l → P x) → filter P l = l.
Proof.
  induction l as [|x l IH]; intros Hl; [done|]. rewrite filter_cons_True by (apply Hl; by left).
  f_equal. apply IH. intros y Hy. apply Hl. by right.
Qed.
