(* ===== verification/RustFloat.v ===== *)
(** * IEEE 754 binary64, Rust's [f64]

    The values are the valid binary64 floats of the Standard Library's [SpecFloat]
    (53 bits of precision, exponents below 1024).  The comparisons are the IEEE ones of
    Rust's [PartialEq] and [PartialOrd]: a NaN compares with nothing and the two zeros
    are equal, so equality of floats is coarser than Leibniz equality. *)

From Stdlib Require Import SpecFloat Eqdep_dec.
From S2P Require Import Prelude.
From stdpp Require Import base decidable numbers.

Definition valid_f64 (x : spec_float) : bool := valid_binary 53 1024 x.

Record f64 : Type := F64 { f64_repr : spec_float; f64_valid : valid_f64 f64_repr = true }.

Definition f64_nan : f64 := F64 S754_nan eq_refl.

(** A literal: [x] when it is a binary64 value. *)
Definition f64_lit (x : spec_float) : f64 :=
  match Bool.bool_dec (valid_f64 x) true with
  | left H => F64 x H
  | right _ => f64_nan
  end.

(** The float nearest to an integer. *)
Definition f64_of_Z (z : Z) : f64 := f64_lit (binary_normalize 53 1024 z 0 false).

Definition f64_zero : f64 := F64 (S754_zero false) eq_refl.
Definition f64_neg_zero : f64 := F64 (S754_zero true) eq_refl.
Definition f64_infinity : f64 := F64 (S754_infinity false) eq_refl.

(** [f64::is_finite] *)
Definition is_finite (x : f64) : bool :=
  match f64_repr x with
  | S754_zero _ | S754_finite _ _ _ => true
  | S754_infinity _ | S754_nan => false
  end.

Lemma valid_f64_abs x : valid_f64 x = true → valid_f64 (SFabs x) = true.
Proof. by destruct x. Qed.

(** [f64::abs] *)
Definition f64_abs (x : f64) : f64 := F64 (SFabs (f64_repr x)) (valid_f64_abs _ (f64_valid x)).

Definition f64_eqb (x y : f64) : bool := SFeqb (f64_repr x) (f64_repr y).
Definition f64_ltb (x y : f64) : bool := SFltb (f64_repr x) (f64_repr y).
Definition f64_leb (x y : f64) : bool := SFleb (f64_repr x) (f64_repr y).

Lemma f64_repr_inj x y : f64_repr x = f64_repr y → x = y.
Proof.
  destruct x as [x Hx], y as [y Hy]. cbn. intros ->. f_equal. apply UIP_dec, Bool.bool_dec.
Qed.

Definition is_zero (x : spec_float) : bool :=
  match x with S754_zero _ => true | _ => false end.

(** ** Equality of floats is a partial equivalence *)

Lemma SFeqb_spec x y :
  SFeqb x y = true ↔ (is_zero x = true ∧ is_zero y = true) ∨ (x = y ∧ x ≠ S754_nan).
Proof.
  unfold SFeqb.
  destruct x as [sx|sx| |sx mx ex], y as [sy|sy| |sy my ey]; cbn;
    try (naive_solver congruence); try (destruct sx, sy; naive_solver congruence).
  change (PosDef.Pos.compare_cont Eq mx my) with (Pos.compare mx my).
  destruct sx, sy; try (split; [discriminate | intros [[? ?]|[? ?]]; discriminate]);
    destruct (Z.compare_spec ex ey) as [->|Hc|Hc];
    try (split; [discriminate | intros [[? ?]|[H ?]]; [discriminate | injection H; lia]]);
    destruct (Pos.compare_spec mx my) as [->|Hc|Hc]; cbn;
    try (split; [discriminate | intros [[? ?]|[H ?]]; [discriminate | injection H; lia]]);
    (split; [right; split; [done | discriminate] | done]).
Qed.

Lemma f64_eqb_spec x y :
  f64_eqb x y = true ↔
  (is_zero (f64_repr x) = true ∧ is_zero (f64_repr y) = true) ∨ (x = y ∧ f64_repr x ≠ S754_nan).
Proof.
  unfold f64_eqb. rewrite SFeqb_spec. split; intros [?|[??]]; auto.
  - right. split; [by apply f64_repr_inj | done].
  - right. by subst.
Qed.

Lemma f64_eqb_refl x : is_finite x = true → f64_eqb x x = true.
Proof.
  intros H. apply f64_eqb_spec. right. split; [done|]. unfold is_finite in H. by destruct (f64_repr x).
Qed.

Lemma f64_eqb_sym x y : f64_eqb x y = true → f64_eqb y x = true.
Proof. rewrite !f64_eqb_spec. naive_solver. Qed.

Lemma f64_eqb_trans x y z : f64_eqb x y = true → f64_eqb y z = true → f64_eqb x z = true.
Proof.
  rewrite !f64_eqb_spec. intros [[??]|[-> ?]] [[??]|[-> ?]]; auto.
Qed.

(** Equal floats are interchangeable in every test the protocol makes. *)
Lemma is_finite_eqb x y : f64_eqb x y = true → is_finite x = is_finite y.
Proof.
  rewrite f64_eqb_spec. intros [[Hx Hy]|[-> ?]]; [|done].
  unfold is_finite. by destruct (f64_repr x), (f64_repr y).
Qed.

Lemma f64_compare_eqb x x' y y' :
  f64_eqb x x' = true → f64_eqb y y' = true →
  SFcompare (f64_repr x) (f64_repr y) = SFcompare (f64_repr x') (f64_repr y').
Proof.
  rewrite !f64_eqb_spec. intros [[Hx Hx']|[-> ?]] [[Hy Hy']|[-> ?]]; [..|done].
  - by destruct (f64_repr x), (f64_repr x'), (f64_repr y), (f64_repr y').
  - by destruct (f64_repr x), (f64_repr x'), (f64_repr y').
  - by destruct (f64_repr x'), (f64_repr y'), (f64_repr y).
Qed.

Lemma f64_ltb_eqb x x' y y' :
  f64_eqb x x' = true → f64_eqb y y' = true → f64_ltb x y = f64_ltb x' y'.
Proof. intros H1 H2. unfold f64_ltb, SFltb. by rewrite (f64_compare_eqb _ _ _ _ H1 H2). Qed.

Lemma f64_leb_eqb x x' y y' :
  f64_eqb x x' = true → f64_eqb y y' = true → f64_leb x y = f64_leb x' y'.
Proof. intros H1 H2. unfold f64_leb, SFleb. by rewrite (f64_compare_eqb _ _ _ _ H1 H2). Qed.

Lemma f64_abs_eqb x y : f64_eqb x y = true → f64_eqb (f64_abs x) (f64_abs y) = true.
Proof.
  rewrite !f64_eqb_spec. intros [[Hx Hy]|[-> ?]].
  - left. cbn. by destruct (f64_repr x), (f64_repr y).
  - right. split; [done|]. cbn. by destruct (f64_repr y).
Qed.

Lemma f64_eqb_refl_nonneg x y : f64_leb x y = true → f64_eqb x x = true.
Proof.
  intros H. apply f64_eqb_spec. right. split; [done|]. intros Hn.
  unfold f64_leb, SFleb in H. rewrite Hn in H. by destruct (f64_repr y).
Qed.
