(* ===== verification/RenderModel.v ===== *)
(** * The renderer protocol's shared vocabulary

    [crates/vixen-api/src/ids.rs] and [crates/vixen-api/src/render/mod.rs]: identifiers,
    protocol limits, error codes, and the finite geometry every message is built from. *)

From S2P Require Import Prelude.
From S2P Require Import RustFloat.
From stdpp Require Import base decidable gmap strings list.

(** ** Identifiers
    [define_id!] wraps a [NonZeroU64]; all identifier types are [positive] here. *)

Abbreviation BrowsingContextId := positive (only parsing).
Abbreviation DocumentId := positive (only parsing).
Abbreviation RenderNodeId := positive (only parsing).
Abbreviation RenderResourceId := positive (only parsing).
Abbreviation RenderFragmentId := positive (only parsing).
Abbreviation RenderCommitId := positive (only parsing).
Abbreviation RenderQueryId := positive (only parsing).
Abbreviation RenderScrollNodeId := positive (only parsing).
Abbreviation RenderScrollCommandId := positive (only parsing).
Abbreviation RenderRequestId := positive (only parsing).
Abbreviation SemanticNodeId := positive (only parsing).
Abbreviation SemanticActionRequestId := positive (only parsing).
Abbreviation RenderHitTestHandle := positive (only parsing).
Abbreviation RenderTextQueryHandle := positive (only parsing).

(** [$name::new] over a [u64] *)
Definition id_new (raw : N) : option positive :=
  match raw with 0%N => None | Npos p => Some p end.

(** [$name::get] *)
Definition id_get (id : positive) : N := Npos id.

(** [impl Display for $name] *)
Definition id_display (id : positive) : rstr := dec (id_get id).

(** ** Protocol limits *)

Definition RENDER_PROTOCOL_VERSION : N := 1.
Definition RENDER_MAX_NODES : N := 16384.
Definition RENDER_MAX_TREE_DEPTH : N := 256.
Definition RENDER_MAX_MUTATIONS : N := 4096.
Definition RENDER_MAX_RESOURCES : N := 512.
Definition RENDER_MAX_RESOURCE_BYTES : N := 16 * 1024 * 1024.
Definition RENDER_MAX_TOTAL_RESOURCE_BYTES : N := 64 * 1024 * 1024.
Definition RENDER_MAX_CAPTURE_BYTES : N := 65 * 1024 * 1024.
Definition RENDER_MAX_STRING_BYTES : N := 64 * 1024.
Definition RENDER_MAX_TOTAL_STRING_BYTES : N := 4 * 1024 * 1024.
Definition RENDER_MAX_STYLES_PER_NODE : N := 512.
Definition RENDER_MAX_RESOURCES_PER_NODE : N := 32.
Definition RENDER_MAX_SEMANTIC_ACTIONS_PER_NODE : N := 32.
Definition RENDER_MAX_SEMANTIC_VALUE_BYTES : N := 16 * 1024.
Definition RENDER_MAX_GEOMETRY_ENTRIES : N := 65536.
Definition RENDER_MAX_SCROLL_ENTRIES : N := 4096.
Definition RENDER_MAX_SEMANTIC_BOUNDS : N := 16384.
Definition RENDER_MAX_TEXT_QUERIES : N := 256.
Definition RENDER_MAX_TEXT_BOXES : N := 4096.
Definition RENDER_MAX_TRUNCATION_DIAGNOSTICS : N := 32.
Definition RENDER_MAX_SEEN_SCROLL_COMMANDS : N := 1024.
Definition RENDER_MAX_SEEN_SEMANTIC_ACTIONS : N := 1024.
Definition RENDER_MAX_VIEWPORT_DIMENSION : N := 16384.
Definition RENDER_MAX_COORDINATE : f64 := f64_of_Z 16777216.
Definition RENDER_MAX_SCALE : f64 := f64_of_Z 16.

(** ** Error codes *)

Module render_error_codes.
Definition VERSION : string := "render.version".
Definition REVISION : string := "render.revision".
Definition STALE : string := "render.stale".
Definition LIMIT : string := "render.limit".
Definition DUPLICATE_ID : string := "render.duplicate-id".
Definition UNKNOWN_ID : string := "render.unknown-id".
Definition INVALID_GRAPH : string := "render.invalid-graph".
Definition NON_FINITE : string := "render.non-finite".
Definition INVALID_GEOMETRY : string := "render.invalid-geometry".
Definition TRUNCATED_REQUIRED : string := "render.truncated-required".
Definition UNADVERTISED_ACTION : string := "render.unadvertised-action".
Definition REPLAYED_COMMAND : string := "render.replayed-command".
Definition REPLAYED_ACTION : string := "render.replayed-action".
End render_error_codes.
Import render_error_codes.

(** [RenderProtocolError]: a stable code and a diagnostic message. *)
Record RenderProtocolError : Type := protocol_error {
  code : string;
  message : rstr;
}.
#[export] Instance RenderProtocolError_eq_dec : EqDecision RenderProtocolError.
Proof. solve_decision. Defined.

Abbreviation presult := (result RenderProtocolError) (only parsing).

Definition validate_version (version : N) : presult unit :=
  if bool_decide (version = RENDER_PROTOCOL_VERSION) then Ok tt
  else Err (protocol_error VERSION
    (lit "renderer protocol version " ++ dec version ++ lit " is unsupported; expected " ++
     dec RENDER_PROTOCOL_VERSION)).

Definition validate_finite (value : f64) (field : rstr) : presult unit :=
  if is_finite value then Ok tt
  else Err (protocol_error NON_FINITE (field ++ lit " must be finite")).

(** ** Truncation diagnostics *)

Inductive RenderLimitDomain : Type :=
| Nodes | TreeDepth | Mutations | Resources | ResourceBytes | StringBytes
| Geometry | ScrollEntries | SemanticBounds | TextQueries | TextBoxes.
#[export] Instance RenderLimitDomain_eq_dec : EqDecision RenderLimitDomain.
Proof. solve_decision. Defined.

(** [#[derive(Debug)]] *)
Definition domain_debug (d : RenderLimitDomain) : rstr :=
  lit match d with
      | Nodes => "Nodes" | TreeDepth => "TreeDepth" | Mutations => "Mutations"
      | Resources => "Resources" | ResourceBytes => "ResourceBytes"
      | StringBytes => "StringBytes" | Geometry => "Geometry"
      | ScrollEntries => "ScrollEntries" | SemanticBounds => "SemanticBounds"
      | TextQueries => "TextQueries" | TextBoxes => "TextBoxes"
      end.

Record RenderTruncationDiagnostic : Type := {
  trunc_domain : RenderLimitDomain;
  trunc_limit : N;
  trunc_omitted : N;
  trunc_required : bool;
}.
#[export] Instance RenderTruncationDiagnostic_eq_dec : EqDecision RenderTruncationDiagnostic.
Proof. solve_decision. Defined.

(** ** Geometry *)

Record RenderPoint : Type := { pt_x : f64; pt_y : f64 }.
Record RenderSize : Type := { sz_width : f64; sz_height : f64 }.
Record RenderRect : Type := { rc_x : f64; rc_y : f64; rc_width : f64; rc_height : f64 }.
Record RenderViewport : Type := {
  vp_width : N;
  vp_height : N;
  vp_device_scale : f64;
  vp_page_zoom : f64;
}.

(** The derived [PartialEq] instances. *)
#[export] Instance RenderPoint_eq : PartialEq RenderPoint := λ a b,
  f64_eqb (pt_x a) (pt_x b) && f64_eqb (pt_y a) (pt_y b).
#[export] Instance RenderSize_eq : PartialEq RenderSize := λ a b,
  f64_eqb (sz_width a) (sz_width b) && f64_eqb (sz_height a) (sz_height b).
#[export] Instance RenderRect_eq : PartialEq RenderRect := λ a b,
  f64_eqb (rc_x a) (rc_x b) && f64_eqb (rc_y a) (rc_y b) &&
  f64_eqb (rc_width a) (rc_width b) && f64_eqb (rc_height a) (rc_height b).
#[export] Instance RenderViewport_eq : PartialEq RenderViewport := λ a b,
  bool_decide (vp_width a = vp_width b) && bool_decide (vp_height a = vp_height b) &&
  f64_eqb (vp_device_scale a) (vp_device_scale b) && f64_eqb (vp_page_zoom a) (vp_page_zoom b).

(** [a > b] on floats is [b < a]. *)
Definition f64_gtb (a b : f64) : bool := f64_ltb b a.

Definition RenderPoint_validate (self : RenderPoint) (field : rstr) : presult unit :=
  _ ← validate_finite (pt_x self) (field ++ lit ".x");
  _ ← validate_finite (pt_y self) (field ++ lit ".y");
  throw_if (f64_gtb (f64_abs (pt_x self)) RENDER_MAX_COORDINATE ||
            f64_gtb (f64_abs (pt_y self)) RENDER_MAX_COORDINATE)
    (protocol_error INVALID_GEOMETRY (field ++ lit " exceeds the coordinate limit")).

Definition RenderSize_validate (self : RenderSize) (field : rstr) : presult unit :=
  _ ← validate_finite (sz_width self) (field ++ lit ".width");
  _ ← validate_finite (sz_height self) (field ++ lit ".height");
  throw_if (f64_ltb (sz_width self) f64_zero || f64_ltb (sz_height self) f64_zero ||
            f64_gtb (sz_width self) RENDER_MAX_COORDINATE ||
            f64_gtb (sz_height self) RENDER_MAX_COORDINATE)
    (protocol_error INVALID_GEOMETRY
       (field ++ lit " must be non-negative and within the coordinate limit")).

Definition RenderRect_validate (self : RenderRect) (field : rstr) : presult unit :=
  _ ← RenderPoint_validate {| pt_x := rc_x self; pt_y := rc_y self |} field;
  RenderSize_validate {| sz_width := rc_width self; sz_height := rc_height self |} field.

(** [(0.0..=RENDER_MAX_SCALE).contains(&scale)] *)
Definition scale_in_range (scale : f64) : bool :=
  f64_leb f64_zero scale && f64_leb scale RENDER_MAX_SCALE.

Definition RenderViewport_validate (self : RenderViewport) : presult unit :=
  _ ← throw_if (bool_decide (vp_width self = 0%N) || bool_decide (vp_height self = 0%N) ||
                bool_decide (RENDER_MAX_VIEWPORT_DIMENSION < vp_width self)%N ||
                bool_decide (RENDER_MAX_VIEWPORT_DIMENSION < vp_height self)%N)
    (protocol_error INVALID_GEOMETRY
       (lit "render viewport dimensions must be non-zero and bounded"));
  _ ← validate_finite (vp_device_scale self) (lit "render viewport device scale");
  _ ← validate_finite (vp_page_zoom self) (lit "render viewport page zoom");
  throw_if (negb (scale_in_range (vp_device_scale self)) ||
            f64_eqb (vp_device_scale self) f64_zero ||
            negb (scale_in_range (vp_page_zoom self)) ||
            f64_eqb (vp_page_zoom self) f64_zero)
    (protocol_error INVALID_GEOMETRY
       (lit "render viewport scales must be positive and bounded")).

(** ** Identifiers round trip *)

Lemma id_get_new raw id : id_new raw = Some id ↔ id_get id = raw.
Proof. destruct raw; cbn; unfold id_get; naive_solver. Qed.

(** ** Equality of geometry is a partial equivalence *)

Ltac solve_eqb :=
  repeat match goal with
  | H : _ && _ = true |- _ => apply andb_true_iff in H as [??]
  | |- _ && _ = true => apply andb_true_iff; split
  | H : bool_decide _ = true |- _ => apply bool_decide_eq_true in H
  | |- bool_decide _ = true => apply bool_decide_eq_true
  end;
  try congruence; eauto using f64_eqb_sym, f64_eqb_trans.

#[export] Instance RenderPoint_eq_laws : PartialEqLaws RenderPoint.
Proof. split; unfold partial_eq, RenderPoint_eq; intros; solve_eqb. Qed.
#[export] Instance RenderSize_eq_laws : PartialEqLaws RenderSize.
Proof. split; unfold partial_eq, RenderSize_eq; intros; solve_eqb. Qed.
#[export] Instance RenderRect_eq_laws : PartialEqLaws RenderRect.
Proof. split; unfold partial_eq, RenderRect_eq; intros; solve_eqb. Qed.
#[export] Instance RenderViewport_eq_laws : PartialEqLaws RenderViewport.
Proof. split; unfold partial_eq, RenderViewport_eq; intros; solve_eqb. Qed.

(** ** What the validators establish *)

Lemma validate_version_Ok v u : validate_version v = Ok u ↔ v = RENDER_PROTOCOL_VERSION.
Proof. unfold validate_version. destruct u. case_bool_decide; naive_solver. Qed.

Lemma validate_finite_Ok x field u : validate_finite x field = Ok u ↔ is_finite x = true.
Proof. unfold validate_finite. destruct u. destruct (is_finite x); naive_solver. Qed.

(** A coordinate and a size that the protocol accepts. *)
Definition coordinate_ok (x : f64) : Prop :=
  is_finite x = true ∧ f64_ltb RENDER_MAX_COORDINATE (f64_abs x) = false.
Definition extent_ok (x : f64) : Prop :=
  is_finite x = true ∧ f64_ltb x f64_zero = false ∧ f64_ltb RENDER_MAX_COORDINATE x = false.
Definition point_ok (p : RenderPoint) : Prop := coordinate_ok (pt_x p) ∧ coordinate_ok (pt_y p).
Definition size_ok (s : RenderSize) : Prop := extent_ok (sz_width s) ∧ extent_ok (sz_height s).
Definition rect_ok (r : RenderRect) : Prop :=
  coordinate_ok (rc_x r) ∧ coordinate_ok (rc_y r) ∧ extent_ok (rc_width r) ∧ extent_ok (rc_height r).
Definition scale_ok (x : f64) : Prop :=
  is_finite x = true ∧ scale_in_range x = true ∧ f64_eqb x f64_zero = false.
Definition viewport_ok (v : RenderViewport) : Prop :=
  (0 < vp_width v ≤ RENDER_MAX_VIEWPORT_DIMENSION)%N ∧
  (0 < vp_height v ≤ RENDER_MAX_VIEWPORT_DIMENSION)%N ∧
  scale_ok (vp_device_scale v) ∧ scale_ok (vp_page_zoom v).

Create HintDb vixen_ok discriminated.

(** Reduce [e = Ok _] for a body built from guards to a conjunction of its conditions. *)
Ltac ok_simpl :=
  repeat first
    [ setoid_rewrite bind_Ok
    | setoid_rewrite throw_if_Ok
    | setoid_rewrite validate_version_Ok
    | setoid_rewrite validate_finite_Ok
    | setoid_rewrite orb_false_iff
    | setoid_rewrite negb_false_iff
    | setoid_rewrite bool_decide_eq_false ].

Lemma RenderPoint_validate_Ok p field u : RenderPoint_validate p field = Ok u ↔ point_ok p.
Proof.
  unfold RenderPoint_validate, point_ok, coordinate_ok, f64_gtb. ok_simpl.
  destruct u. naive_solver.
Qed.

Lemma RenderSize_validate_Ok s field u : RenderSize_validate s field = Ok u ↔ size_ok s.
Proof.
  unfold RenderSize_validate, size_ok, extent_ok, f64_gtb. ok_simpl. destruct u. naive_solver.
Qed.

Lemma RenderRect_validate_Ok r field u : RenderRect_validate r field = Ok u ↔ rect_ok r.
Proof.
  unfold RenderRect_validate, rect_ok. setoid_rewrite bind_Ok.
  setoid_rewrite RenderPoint_validate_Ok. setoid_rewrite RenderSize_validate_Ok.
  unfold point_ok, size_ok. cbn. destruct u. naive_solver.
Qed.

Lemma RenderViewport_validate_Ok v u : RenderViewport_validate v = Ok u ↔ viewport_ok v.
Proof.
  unfold RenderViewport_validate, viewport_ok, scale_ok. ok_simpl. destruct u.
  split.
  - intros (_ & H1 & _ & H2 & _ & H3 & H4). repeat split; naive_solver lia.
  - intros (?&?&?&?). do 3 (exists tt; split; [naive_solver lia|]). naive_solver lia.
Qed.

Lemma scale_ok_refl x : scale_ok x → f64_eqb x x = true.
Proof. intros (?&_). by apply f64_eqb_refl. Qed.

Lemma viewport_ok_refl v : viewport_ok v → (v ==? v) = true.
Proof.
  intros (_&_&?&?). unfold partial_eq, RenderViewport_eq. solve_eqb; eauto using scale_ok_refl.
Qed.

Lemma point_ok_refl p : point_ok p → (p ==? p) = true.
Proof.
  intros [[? _] [? _]]. unfold partial_eq, RenderPoint_eq. solve_eqb; eauto using f64_eqb_refl.
Qed.

(** Equal points are accepted alike: validation respects the coarser equality. *)
Lemma coordinate_ok_eqb x y : f64_eqb x y = true → coordinate_ok x → coordinate_ok y.
Proof.
  unfold coordinate_ok. intros Hxy. rewrite (is_finite_eqb _ _ Hxy).
  intros [? Hl]. split; [done|]. rewrite <-Hl. symmetry. apply f64_ltb_eqb; [|by apply f64_abs_eqb].
  by vm_compute.
Qed.

Lemma point_ok_eqb p q : (p ==? q) = true → point_ok p → point_ok q.
Proof.
  unfold partial_eq, RenderPoint_eq, point_ok. rewrite andb_true_iff.
  intros [??] [??]. eauto using coordinate_ok_eqb.
Qed.
