(* ===== verification/RenderSource.v ===== *)
(** * Renderer source state: revisions, snapshots, batches and the reference replica

    [crates/vixen-api/src/render/source.rs], definitions only.  A snapshot or a batch is
    validated as a whole before the replica changes; [RenderReplica] is the reference
    for every bridge implementation.  The theorems are in [RenderSourceFacts]. *)

From S2P Require Import Prelude.
From S2P Require Import RustFloat.
From S2P Require Import RenderModel.
From Stdlib Require Import Strings.Byte.
From stdpp Require Import base decidable gmap sets list strings.
Import render_error_codes.

#[export] Instance byte_eq_dec : EqDecision Byte.byte := Byte.byte_eq_dec.

(** ** Revisions *)

Record RenderRevision : Type := {
  rev_context_id : BrowsingContextId;
  rev_document_id : DocumentId;
  rev_source_generation : N;
  rev_style_generation : N;
  rev_viewport_generation : N;
  rev_resource_generation : N;
}.
#[export] Instance RenderRevision_eq_dec : EqDecision RenderRevision.
Proof. solve_decision. Defined.

(** The array of generations the source builds wherever it compares revisions. *)
Definition generations (r : RenderRevision) : list N :=
  [rev_source_generation r; rev_style_generation r;
   rev_viewport_generation r; rev_resource_generation r].

(** [target.iter().zip(base).any(|(target, base)| *target < base)] *)
Definition any_less (target base : list N) : bool :=
  existsb (λ '(t, b), bool_decide (t < b)%N) (zip target base).

Definition RenderRevision_validate (self : RenderRevision) : presult unit :=
  throw_if (bool_decide (0%N ∈ generations self))
    (protocol_error REVISION (lit "render revision generations must be non-zero")).

Definition validate_successor_of (self base : RenderRevision) : presult unit :=
  _ ← RenderRevision_validate self;
  _ ← RenderRevision_validate base;
  _ ← throw_if (bool_decide (rev_context_id self ≠ rev_context_id base) ||
                bool_decide (rev_document_id self ≠ rev_document_id base))
    (protocol_error REVISION (lit "render revision successor changed context or document"));
  throw_if (any_less (generations self) (generations base) ||
            bool_decide (generations self = generations base))
    (protocol_error REVISION
       (lit "render revision must advance without regressing a generation")).

(** ** Source data *)

Inductive RenderSemanticActionKind : Type :=
| KActivate | KFocus | KSetValue | KSetSelection | KIncrease | KDecrease | KScrollIntoView.
#[export] Instance RenderSemanticActionKind_eq_dec : EqDecision RenderSemanticActionKind.
Proof. solve_decision. Defined.

Record RenderSemanticNode : Type := {
  sem_id : SemanticNodeId;
  sem_role : rstr;
  sem_name : rstr;
  sem_value : option rstr;
  sem_action_generation : N;
  sem_actions : list RenderSemanticActionKind;
}.
#[export] Instance RenderSemanticNode_eq_dec : EqDecision RenderSemanticNode.
Proof. solve_decision. Defined.

Record RenderStyleProperty : Type := { sty_name : rstr; sty_value : rstr }.
#[export] Instance RenderStyleProperty_eq_dec : EqDecision RenderStyleProperty.
Proof. solve_decision. Defined.

Inductive RenderNodeKind : Type :=
| Element (local_name : rstr)
| Text (text : rstr)
| PseudoBefore (text : rstr)
| PseudoAfter (text : rstr).
#[export] Instance RenderNodeKind_eq_dec : EqDecision RenderNodeKind.
Proof. solve_decision. Defined.

Record RenderNode : Type := {
  node_id : RenderNodeId;
  node_parent_id : option RenderNodeId;
  node_sibling_index : N;
  node_depth : N;
  node_kind : RenderNodeKind;
  node_styles : list RenderStyleProperty;
  node_resource_ids : list RenderResourceId;
  node_semantic : option RenderSemanticNode;
}.
#[export] Instance RenderNode_eq_dec : EqDecision RenderNode.
Proof. solve_decision. Defined.
#[export] Instance RenderNode_keyed : Keyed RenderNode := node_id.

Inductive RenderResourceKind : Type := Image | Font.
#[export] Instance RenderResourceKind_eq_dec : EqDecision RenderResourceKind.
Proof. solve_decision. Defined.

Record RenderResource : Type := {
  res_id : RenderResourceId;
  res_kind : RenderResourceKind;
  res_mime : rstr;
  res_bytes : list Byte.byte;
}.
#[export] Instance RenderResource_eq_dec : EqDecision RenderResource.
Proof. solve_decision. Defined.
#[export] Instance RenderResource_keyed : Keyed RenderResource := res_id.

Inductive RenderScrollIntentKind : Type :=
| By (p : RenderPoint)
| To (p : RenderPoint)
| Restore (p : RenderPoint).

Record RenderScrollIntent : Type := {
  int_scroll_node_id : RenderScrollNodeId;
  int_node_id : RenderNodeId;
  int_kind : RenderScrollIntentKind;
}.
#[export] Instance RenderScrollIntent_keyed : Keyed RenderScrollIntent := int_scroll_node_id.

#[export] Instance RenderScrollIntentKind_eq : PartialEq RenderScrollIntentKind := λ a b,
  match a, b with
  | By p, By q | To p, To q | Restore p, Restore q => p ==? q
  | _, _ => false
  end.
#[export] Instance RenderScrollIntent_eq : PartialEq RenderScrollIntent := λ a b,
  bool_decide (int_scroll_node_id a = int_scroll_node_id b) &&
  bool_decide (int_node_id a = int_node_id b) && (int_kind a ==? int_kind b).

(** ** State validation *)

Definition limit_error (field : rstr) (observed limit : N) : RenderProtocolError :=
  protocol_error LIMIT
    (field ++ lit " count/size " ++ dec observed ++ lit " exceeds limit " ++ dec limit).

Definition duplicate_id_error (kind : rstr) (id : positive) : RenderProtocolError :=
  protocol_error DUPLICATE_ID (lit "duplicate " ++ kind ++ lit " id " ++ id_display id).

Definition unknown_id_error (kind : rstr) (id : positive) : RenderProtocolError :=
  protocol_error UNKNOWN_ID (lit "unknown " ++ kind ++ lit " id " ++ id_display id).

(** [if len > max { return Err(limit_error(field, len, max)) }] *)
Definition check_limit (field : rstr) (observed limit : N) : presult unit :=
  throw_if (bool_decide (limit < observed)%N) (limit_error field observed limit).

(** The new value of [*total] is the result. *)
Definition add_string_bytes (total : N) (value field : rstr) : presult N :=
  _ ← throw_if (bool_decide (RENDER_MAX_STRING_BYTES < str_len value)%N)
        (limit_error field (str_len value) RENDER_MAX_STRING_BYTES);
  total' ← ok_or (checked_add total (str_len value))
        (limit_error (lit "total string byte") usize_max RENDER_MAX_TOTAL_STRING_BYTES);
  _ ← throw_if (bool_decide (RENDER_MAX_TOTAL_STRING_BYTES < total')%N)
        (limit_error (lit "total string byte") total' RENDER_MAX_TOTAL_STRING_BYTES);
  Ok total'.

(** First loop of [validate_state]: ([resource_ids], [total_strings], [total_resource_bytes]). *)
Definition check_resource (s : gset positive * N * N) (resource : RenderResource)
    : presult (gset positive * N * N) :=
  let '(resource_ids, total_strings, total_resource_bytes) := s in
  _ ← throw_if (bool_decide (res_id resource ∈ resource_ids))
        (duplicate_id_error (lit "render resource") (res_id resource));
  total_strings ← add_string_bytes total_strings (res_mime resource) (lit "resource MIME");
  _ ← check_limit (lit "resource byte") (len (res_bytes resource)) RENDER_MAX_RESOURCE_BYTES;
  total_resource_bytes ← ok_or (checked_add total_resource_bytes (len (res_bytes resource)))
        (limit_error (lit "total resource byte") usize_max RENDER_MAX_TOTAL_RESOURCE_BYTES);
  _ ← check_limit (lit "total resource byte") total_resource_bytes RENDER_MAX_TOTAL_RESOURCE_BYTES;
  Ok ({[res_id resource]} ∪ resource_ids, total_strings, total_resource_bytes).

Definition node_kind_string (kind : RenderNodeKind) : rstr * rstr :=
  match kind with
  | Element local_name => (local_name, lit "element local name")
  | Text text | PseudoBefore text | PseudoAfter text => (text, lit "render text")
  end.

(** Style loop of one node: ([style_names], [total_strings]). *)
Definition check_style (node : RenderNode) (s : gset (list N) * N) (style : RenderStyleProperty)
    : presult (gset (list N) * N) :=
  let '(style_names, total_strings) := s in
  total_strings ← add_string_bytes total_strings (sty_name style) (lit "style name");
  total_strings ← add_string_bytes total_strings (sty_value style) (lit "style value");
  _ ← throw_if (bool_decide (sty_name style ∈ style_names))
        (protocol_error INVALID_GRAPH
           (lit "render node " ++ id_display (node_id node) ++ lit " repeats style " ++
            sty_name style));
  Ok ({[sty_name style]} ∪ style_names, total_strings).

(** Resource-reference loop of one node: [node_resources]. *)
Definition check_node_resource (resource_ids : gset positive) (node_resources : gset positive)
    (resource_id : RenderResourceId) : presult (gset positive) :=
  _ ← throw_if (bool_decide (resource_id ∈ node_resources))
        (duplicate_id_error (lit "node resource reference") resource_id);
  _ ← throw_if (bool_decide (resource_id ∉ resource_ids))
        (unknown_id_error (lit "render resource") resource_id);
  Ok ({[resource_id]} ∪ node_resources).

(** Semantic part of one node: ([semantic_ids], [total_strings]). *)
Definition check_semantic (s : gset positive * N) (semantic : RenderSemanticNode)
    : presult (gset positive * N) :=
  let '(semantic_ids, total_strings) := s in
  _ ← throw_if (bool_decide (sem_action_generation semantic = 0%N))
        (protocol_error REVISION
           (lit "semantic node " ++ id_display (sem_id semantic) ++
            lit " action generation must be non-zero"));
  _ ← check_limit (lit "semantic action") (len (sem_actions semantic))
        RENDER_MAX_SEMANTIC_ACTIONS_PER_NODE;
  _ ← throw_if (bool_decide (sem_id semantic ∈ semantic_ids))
        (duplicate_id_error (lit "semantic node") (sem_id semantic));
  total_strings ← add_string_bytes total_strings (sem_role semantic) (lit "semantic role");
  total_strings ← add_string_bytes total_strings (sem_name semantic) (lit "semantic name");
  total_strings ← match sem_value semantic with
                  | Some value => add_string_bytes total_strings value (lit "semantic value")
                  | None => Ok total_strings
                  end;
  _ ← throw_if (bool_decide (len (remove_dups (sem_actions semantic)) ≠ len (sem_actions semantic)))
        (protocol_error INVALID_GRAPH
           (lit "semantic node " ++ id_display (sem_id semantic) ++
            lit " repeats an advertised action"));
  Ok ({[sem_id semantic]} ∪ semantic_ids, total_strings).

(** Second loop of [validate_state]: ([node_by_id], [semantic_ids], [total_strings]). *)
Definition check_node (resource_ids : gset positive)
    (s : gmap positive RenderNode * gset positive * N) (node : RenderNode)
    : presult (gmap positive RenderNode * gset positive * N) :=
  let '(node_by_id, semantic_ids, total_strings) := s in
  _ ← check_limit (lit "render tree depth") (node_depth node) RENDER_MAX_TREE_DEPTH;
  _ ← check_limit (lit "style property") (len (node_styles node)) RENDER_MAX_STYLES_PER_NODE;
  _ ← check_limit (lit "node resource reference") (len (node_resource_ids node))
        RENDER_MAX_RESOURCES_PER_NODE;
  _ ← throw_if (contains_key node_by_id (node_id node))
        (duplicate_id_error (lit "render node") (node_id node));
  total_strings ← (let '(text, field) := node_kind_string (node_kind node) in
                   add_string_bytes total_strings text field);
  '(_, total_strings) ← for_each (check_style node) (∅, total_strings) (node_styles node);
  _ ← for_each (check_node_resource resource_ids) ∅ (node_resource_ids node);
  '(semantic_ids, total_strings) ←
    match node_semantic node with
    | Some semantic => check_semantic (semantic_ids, total_strings) semantic
    | None => Ok (semantic_ids, total_strings)
    end;
  Ok (<[node_id node := node]> node_by_id, semantic_ids, total_strings).

(** Third loop of [validate_state]: the parent and depth of every node. *)
Definition check_parent (node_by_id : gmap positive RenderNode) (_ : unit) (node : RenderNode)
    : presult unit :=
  match node_parent_id node with
  | Some parent_id =>
      parent ← ok_or (node_by_id !! parent_id)
        (unknown_id_error (lit "parent render node") parent_id);
      throw_if (bool_decide (node_depth node ≠ u16_saturating_add (node_depth parent) 1))
        (protocol_error INVALID_GRAPH
           (lit "render node " ++ id_display (node_id node) ++ lit " depth " ++
            dec (node_depth node) ++ lit " does not follow parent " ++ id_display parent_id ++
            lit " depth " ++ dec (node_depth parent)))
  | None =>
      throw_if (bool_decide (node_depth node ≠ 0%N))
        (protocol_error INVALID_GRAPH
           (lit "root render node " ++ id_display (node_id node) ++ lit " must have depth zero"))
  end.

(** Last loop of [validate_state]: [scroll_ids]. *)
Definition check_scroll_intent (node_by_id : gmap positive RenderNode) (scroll_ids : gset positive)
    (intent : RenderScrollIntent) : presult (gset positive) :=
  _ ← throw_if (bool_decide (int_scroll_node_id intent ∈ scroll_ids))
        (duplicate_id_error (lit "render scroll node") (int_scroll_node_id intent));
  _ ← throw_if (negb (contains_key node_by_id (int_node_id intent)))
        (unknown_id_error (lit "scroll render node") (int_node_id intent));
  _ ← match int_kind intent with
      | By point | To point | Restore point => RenderPoint_validate point (lit "scroll intent")
      end;
  Ok ({[int_scroll_node_id intent]} ∪ scroll_ids).

Definition validate_state (nodes : list RenderNode) (resources : list RenderResource)
    (scroll_intents : list RenderScrollIntent) : presult unit :=
  _ ← check_limit (lit "node") (len nodes) RENDER_MAX_NODES;
  _ ← check_limit (lit "resource") (len resources) RENDER_MAX_RESOURCES;
  _ ← check_limit (lit "scroll intent") (len scroll_intents) RENDER_MAX_SCROLL_ENTRIES;
  '(resource_ids, total_strings, _) ← for_each check_resource (∅, 0%N, 0%N) resources;
  '(node_by_id, _, _) ← for_each (check_node resource_ids) (∅, ∅, total_strings) nodes;
  _ ← for_each (check_parent node_by_id) tt nodes;
  _ ← for_each (check_scroll_intent node_by_id) ∅ scroll_intents;
  Ok tt.

(** ** Snapshots *)

Record FullRenderSnapshot : Type := {
  snap_version : N;
  snap_revision : RenderRevision;
  snap_viewport : RenderViewport;
  snap_nodes : list RenderNode;
  snap_resources : list RenderResource;
  snap_scroll_intents : list RenderScrollIntent;
}.

Definition FullRenderSnapshot_new (revision : RenderRevision) (viewport : RenderViewport)
    : FullRenderSnapshot :=
  {| snap_version := RENDER_PROTOCOL_VERSION; snap_revision := revision;
     snap_viewport := viewport; snap_nodes := []; snap_resources := [];
     snap_scroll_intents := [] |}.

#[export] Instance FullRenderSnapshot_eq : PartialEq FullRenderSnapshot := λ a b,
  bool_decide (snap_version a = snap_version b) &&
  bool_decide (snap_revision a = snap_revision b) &&
  (snap_viewport a ==? snap_viewport b) &&
  bool_decide (snap_nodes a = snap_nodes b) &&
  bool_decide (snap_resources a = snap_resources b) &&
  (snap_scroll_intents a ==? snap_scroll_intents b).

Definition FullRenderSnapshot_validate (self : FullRenderSnapshot) : presult unit :=
  _ ← validate_version (snap_version self);
  _ ← RenderRevision_validate (snap_revision self);
  _ ← RenderViewport_validate (snap_viewport self);
  validate_state (snap_nodes self) (snap_resources self) (snap_scroll_intents self).

(** ** Mutation batches *)

Inductive RenderMutation : Type :=
| SetViewport (viewport : RenderViewport)
| UpsertNode (node : RenderNode)
| RemoveNode (node_id : RenderNodeId)
| UpsertResource (resource : RenderResource)
| RemoveResource (resource_id : RenderResourceId)
| SetScrollIntent (intent : RenderScrollIntent)
| RemoveScrollIntent (scroll_node_id : RenderScrollNodeId).

Record RenderMutationBatch : Type := {
  batch_version : N;
  batch_base_revision : RenderRevision;
  batch_target_revision : RenderRevision;
  batch_mutations : list RenderMutation;
}.

Definition RenderMutationBatch_validate (self : RenderMutationBatch) : presult unit :=
  _ ← validate_version (batch_version self);
  _ ← validate_successor_of (batch_target_revision self) (batch_base_revision self);
  check_limit (lit "mutation") (len (batch_mutations self)) RENDER_MAX_MUTATIONS.

(** [base.keys().filter(|id| !target.contains_key(id))] *)
Definition removed_keys {V} (base target : gmap positive V) : list positive :=
  filter (λ k, contains_key target k = false) (btree_keys base).

(** [target.iter().filter(|(id, x)| base.get(id) != Some(x)).map(|(_, x)| x)] for an equality
    test [eqv] of the values. *)
Definition changed_values {V} (eqv : V → V → bool) (base target : gmap positive V) : list V :=
  (filter (λ kv, match base !! kv.1 with
                 | Some old => eqv old kv.2
                 | None => false
                 end = false) (btree_to_list target)).*2.

(** [RenderMutationBatch::between] *)
Definition between (base target : FullRenderSnapshot) : presult RenderMutationBatch :=
  _ ← FullRenderSnapshot_validate base;
  _ ← FullRenderSnapshot_validate target;
  _ ← validate_successor_of (snap_revision target) (snap_revision base);
  let base_nodes := index_by (snap_nodes base) in
  let target_nodes := index_by (snap_nodes target) in
  let base_resources := index_by (snap_resources base) in
  let target_resources := index_by (snap_resources target) in
  let base_scroll := index_by (snap_scroll_intents base) in
  let target_scroll := index_by (snap_scroll_intents target) in
  let mutations :=
    (if negb (snap_viewport base ==? snap_viewport target) ||
        bool_decide (rev_viewport_generation (snap_revision base) ≠
                     rev_viewport_generation (snap_revision target))
     then [SetViewport (snap_viewport target)] else []) ++
    (RemoveNode <$> removed_keys base_nodes target_nodes) ++
    (UpsertNode <$> changed_values (λ x y, bool_decide (x = y)) base_nodes target_nodes) ++
    (RemoveResource <$> removed_keys base_resources target_resources) ++
    (UpsertResource <$> changed_values (λ x y, bool_decide (x = y)) base_resources target_resources) ++
    (RemoveScrollIntent <$> removed_keys base_scroll target_scroll) ++
    (SetScrollIntent <$> changed_values partial_eq base_scroll target_scroll) in
  let batch := {| batch_version := RENDER_PROTOCOL_VERSION;
                  batch_base_revision := snap_revision base;
                  batch_target_revision := snap_revision target;
                  batch_mutations := mutations |} in
  _ ← RenderMutationBatch_validate batch;
  Ok batch.

Inductive RenderResyncReason : Type := MissingState | MissedBaseRevision | RendererReset.
#[export] Instance RenderResyncReason_eq_dec : EqDecision RenderResyncReason.
Proof. solve_decision. Defined.

Record RenderResyncRequest : Type := {
  resync_version : N;
  resync_context_id : BrowsingContextId;
  resync_document_id : DocumentId;
  resync_current_revision : option RenderRevision;
  resync_rejected_base_revision : option RenderRevision;
  resync_reason : RenderResyncReason;
}.
#[export] Instance RenderResyncRequest_eq_dec : EqDecision RenderResyncRequest.
Proof. solve_decision. Defined.

Definition renderer_reset (context_id : BrowsingContextId) (document_id : DocumentId)
    : RenderResyncRequest :=
  {| resync_version := RENDER_PROTOCOL_VERSION; resync_context_id := context_id;
     resync_document_id := document_id; resync_current_revision := None;
     resync_rejected_base_revision := None; resync_reason := RendererReset |}.

Inductive ApplyRenderBatchOutcome : Type :=
| Applied (revision : RenderRevision)
| ResyncRequired (request : RenderResyncRequest).

(** ** The reference replica *)

Record RenderReplica : Type := {
  rep_revision : option RenderRevision;
  rep_viewport : option RenderViewport;
  rep_nodes : gmap RenderNodeId RenderNode;
  rep_resources : gmap RenderResourceId RenderResource;
  rep_scroll_intents : gmap RenderScrollNodeId RenderScrollIntent;
}.

(** [RenderReplica::default()] *)
Definition RenderReplica_default : RenderReplica :=
  {| rep_revision := None; rep_viewport := None; rep_nodes := ∅; rep_resources := ∅;
     rep_scroll_intents := ∅ |}.

Definition contains_node (self : RenderReplica) (id : RenderNodeId) : bool :=
  contains_key (rep_nodes self) id.

Definition node_text_utf16_len (self : RenderReplica) (id : RenderNodeId) : option N :=
  node ← rep_nodes self !! id;
  match node_kind node with
  | Text text | PseudoBefore text | PseudoAfter text => Some (utf16_len text)
  | Element _ => None
  end.

(** [node.semantic.as_ref().is_some_and(|semantic| semantic.id == id)] *)
Definition has_semantic_id (id : SemanticNodeId) (node : RenderNode) : bool :=
  match node_semantic node with
  | Some semantic => bool_decide (sem_id semantic = id)
  | None => false
  end.

Definition contains_semantic_node (self : RenderReplica) (id : SemanticNodeId) : bool :=
  existsb (has_semantic_id id) (btree_values (rep_nodes self)).

(** [self.nodes.values().find_map(..)] *)
Fixpoint find_semantic (id : SemanticNodeId) (nodes : list RenderNode) : option RenderSemanticNode :=
  match nodes with
  | [] => None
  | node :: nodes =>
      match node_semantic node with
      | Some semantic => if bool_decide (sem_id semantic = id) then Some semantic
                         else find_semantic id nodes
      | None => find_semantic id nodes
      end
  end.

Definition semantic_node (self : RenderReplica) (id : SemanticNodeId) : option RenderSemanticNode :=
  find_semantic id (btree_values (rep_nodes self)).

Definition semantic_value_utf16_len (self : RenderReplica) (id : SemanticNodeId) : option N :=
  (λ semantic, utf16_len (default [] (sem_value semantic))) <$> semantic_node self id.

Definition node_has_semantic_node (self : RenderReplica) (id : RenderNodeId)
    (semantic_node_id : SemanticNodeId) : bool :=
  match rep_nodes self !! id with
  | Some node => has_semantic_id semantic_node_id node
  | None => false
  end.

(** The loop [for _ in 0..=RENDER_MAX_TREE_DEPTH] of the two ancestor walks; [fuel] is the
    number of iterations left. *)
Fixpoint nearest_walk (nodes : gmap positive RenderNode) (stop : RenderNode → bool)
    (fuel : nat) (current : option RenderNodeId) : option RenderNodeId :=
  match fuel with
  | O => None
  | S fuel =>
      id ← current;
      node ← nodes !! id;
      if stop node then Some id else nearest_walk nodes stop fuel (node_parent_id node)
  end.

Definition nearest_fuel : nat := S (N.to_nat RENDER_MAX_TREE_DEPTH).

Definition is_semantic (node : RenderNode) : bool :=
  match node_semantic node with Some _ => true | None => false end.
Definition is_element (node : RenderNode) : bool :=
  match node_kind node with Element _ => true | _ => false end.

Definition nearest_semantic_node_id (self : RenderReplica) (id : RenderNodeId) : option RenderNodeId :=
  nearest_walk (rep_nodes self) is_semantic nearest_fuel (Some id).

Definition nearest_element_node_id (self : RenderReplica) (id : RenderNodeId) : option RenderNodeId :=
  nearest_walk (rep_nodes self) is_element nearest_fuel (Some id).

(** The equality of two [BTreeMap]s: same length and equal entries in key order. *)
Definition btree_eqb {V} (eqv : V → V → bool) (m1 m2 : gmap positive V) : bool :=
  list_eqb (λ a b, bool_decide (a.1 = b.1) && eqv a.2 b.2) (btree_to_list m1) (btree_to_list m2).

(** Field assignments of [&mut self]. *)
Definition set_rep_revision (v : option RenderRevision) (r : RenderReplica) : RenderReplica :=
  {| rep_revision := v; rep_viewport := rep_viewport r; rep_nodes := rep_nodes r;
     rep_resources := rep_resources r; rep_scroll_intents := rep_scroll_intents r |}.
Definition set_rep_viewport (v : option RenderViewport) (r : RenderReplica) : RenderReplica :=
  {| rep_revision := rep_revision r; rep_viewport := v; rep_nodes := rep_nodes r;
     rep_resources := rep_resources r; rep_scroll_intents := rep_scroll_intents r |}.
Definition set_rep_nodes (v : gmap RenderNodeId RenderNode) (r : RenderReplica) : RenderReplica :=
  {| rep_revision := rep_revision r; rep_viewport := rep_viewport r; rep_nodes := v;
     rep_resources := rep_resources r; rep_scroll_intents := rep_scroll_intents r |}.
Definition set_rep_resources (v : gmap RenderResourceId RenderResource) (r : RenderReplica)
    : RenderReplica :=
  {| rep_revision := rep_revision r; rep_viewport := rep_viewport r; rep_nodes := rep_nodes r;
     rep_resources := v; rep_scroll_intents := rep_scroll_intents r |}.
Definition set_rep_scroll_intents (v : gmap RenderScrollNodeId RenderScrollIntent)
    (r : RenderReplica) : RenderReplica :=
  {| rep_revision := rep_revision r; rep_viewport := rep_viewport r; rep_nodes := rep_nodes r;
     rep_resources := rep_resources r; rep_scroll_intents := v |}.

(** What [accept_full_snapshot] checks against a current revision of the same document:
    [Ok true] is the early [return Ok(())]. *)
Definition check_current (self : RenderReplica) (current : RenderRevision)
    (snapshot : FullRenderSnapshot) (next_nodes : gmap RenderNodeId RenderNode)
    (next_resources : gmap RenderResourceId RenderResource)
    (next_scroll_intents : gmap RenderScrollNodeId RenderScrollIntent) : presult bool :=
  _ ← throw_if (any_less (generations (snap_revision snapshot)) (generations current))
        (protocol_error STALE (lit "full render snapshot regressed the current revision"));
  if bool_decide (current = snap_revision snapshot) then
    if (rep_viewport self ==? Some (snap_viewport snapshot)) &&
       bool_decide (rep_nodes self = next_nodes) &&
       bool_decide (rep_resources self = next_resources) &&
       btree_eqb partial_eq (rep_scroll_intents self) next_scroll_intents
    then Ok true
    else Err (protocol_error REVISION
                (lit "equal render revision carried different snapshot state"))
  else
    _ ← throw_if (bool_decide (rev_viewport_generation current =
                               rev_viewport_generation (snap_revision snapshot)) &&
                  negb (rep_viewport self ==? Some (snap_viewport snapshot)))
          (protocol_error REVISION
             (lit "full render snapshot changed viewport without advancing its generation"));
    Ok false.

Definition same_document (a b : RenderRevision) : bool :=
  bool_decide (rev_context_id a = rev_context_id b) &&
  bool_decide (rev_document_id a = rev_document_id b).

Definition accept_full_snapshot (snapshot : FullRenderSnapshot)
    : M RenderReplica RenderProtocolError unit :=
  _ ← lift (FullRenderSnapshot_validate snapshot);
  let next_nodes := index_by (snap_nodes snapshot) in
  let next_resources := index_by (snap_resources snapshot) in
  let next_scroll_intents := index_by (snap_scroll_intents snapshot) in
  self ← get;
  unchanged ← match rep_revision self with
              | Some current =>
                  if same_document current (snap_revision snapshot)
                  then lift (check_current self current snapshot next_nodes next_resources
                               next_scroll_intents)
                  else mret false
              | None => mret false
              end;
  if (unchanged : bool) then mret tt
  else
    _ ← modify (set_rep_revision (Some (snap_revision snapshot)));
    _ ← modify (set_rep_viewport (Some (snap_viewport snapshot)));
    _ ← modify (set_rep_nodes next_nodes);
    _ ← modify (set_rep_resources next_resources);
    modify (set_rep_scroll_intents next_scroll_intents).

(** The local copies that [apply_batch] edits, and its count of viewport mutations. *)
Record Draft : Type := {
  draft_viewport : option RenderViewport;
  draft_nodes : gmap RenderNodeId RenderNode;
  draft_resources : gmap RenderResourceId RenderResource;
  draft_scroll_intents : gmap RenderScrollNodeId RenderScrollIntent;
  draft_viewport_mutations : N;
}.

Definition apply_mutation (d : Draft) (mutation : RenderMutation) : presult Draft :=
  match mutation with
  | SetViewport next_viewport =>
      _ ← RenderViewport_validate next_viewport;
      let count := (draft_viewport_mutations d + 1)%N in
      _ ← throw_if (bool_decide (1 < count)%N)
            (protocol_error INVALID_GRAPH (lit "render mutation batch repeats the viewport"));
      Ok {| draft_viewport := Some next_viewport; draft_nodes := draft_nodes d;
            draft_resources := draft_resources d;
            draft_scroll_intents := draft_scroll_intents d;
            draft_viewport_mutations := count |}
  | UpsertNode node =>
      Ok {| draft_viewport := draft_viewport d;
            draft_nodes := <[node_id node := node]> (draft_nodes d);
            draft_resources := draft_resources d;
            draft_scroll_intents := draft_scroll_intents d;
            draft_viewport_mutations := draft_viewport_mutations d |}
  | RemoveNode id =>
      _ ← throw_if (negb (contains_key (draft_nodes d) id))
            (unknown_id_error (lit "render node") id);
      Ok {| draft_viewport := draft_viewport d; draft_nodes := delete id (draft_nodes d);
            draft_resources := draft_resources d;
            draft_scroll_intents := draft_scroll_intents d;
            draft_viewport_mutations := draft_viewport_mutations d |}
  | UpsertResource resource =>
      Ok {| draft_viewport := draft_viewport d; draft_nodes := draft_nodes d;
            draft_resources := <[res_id resource := resource]> (draft_resources d);
            draft_scroll_intents := draft_scroll_intents d;
            draft_viewport_mutations := draft_viewport_mutations d |}
  | RemoveResource id =>
      _ ← throw_if (negb (contains_key (draft_resources d) id))
            (unknown_id_error (lit "render resource") id);
      Ok {| draft_viewport := draft_viewport d; draft_nodes := draft_nodes d;
            draft_resources := delete id (draft_resources d);
            draft_scroll_intents := draft_scroll_intents d;
            draft_viewport_mutations := draft_viewport_mutations d |}
  | SetScrollIntent intent =>
      Ok {| draft_viewport := draft_viewport d; draft_nodes := draft_nodes d;
            draft_resources := draft_resources d;
            draft_scroll_intents :=
              <[int_scroll_node_id intent := intent]> (draft_scroll_intents d);
            draft_viewport_mutations := draft_viewport_mutations d |}
  | RemoveScrollIntent id =>
      _ ← throw_if (negb (contains_key (draft_scroll_intents d) id))
            (unknown_id_error (lit "render scroll node") id);
      Ok {| draft_viewport := draft_viewport d; draft_nodes := draft_nodes d;
            draft_resources := draft_resources d;
            draft_scroll_intents := delete id (draft_scroll_intents d);
            draft_viewport_mutations := draft_viewport_mutations d |}
  end.

Definition draft_of (self : RenderReplica) : Draft :=
  {| draft_viewport := rep_viewport self; draft_nodes := rep_nodes self;
     draft_resources := rep_resources self; draft_scroll_intents := rep_scroll_intents self;
     draft_viewport_mutations := 0 |}.

Definition apply_batch (batch : RenderMutationBatch)
    : M RenderReplica RenderProtocolError ApplyRenderBatchOutcome :=
  _ ← lift (RenderMutationBatch_validate batch);
  self ← get;
  if bool_decide (rep_revision self ≠ Some (batch_base_revision batch)) then
    let reason := match rep_revision self with
                  | Some _ => MissedBaseRevision
                  | None => MissingState
                  end in
    mret (ResyncRequired
      {| resync_version := RENDER_PROTOCOL_VERSION;
         resync_context_id := rev_context_id (batch_target_revision batch);
         resync_document_id := rev_document_id (batch_target_revision batch);
         resync_current_revision := rep_revision self;
         resync_rejected_base_revision := Some (batch_base_revision batch);
         resync_reason := reason |})
  else
    d ← lift (for_each apply_mutation (draft_of self) (batch_mutations batch));
    let viewport_advanced :=
      bool_decide (rev_viewport_generation (batch_target_revision batch) ≠
                   rev_viewport_generation (batch_base_revision batch)) in
    _ ← lift (throw_if (negb (Bool.eqb viewport_advanced
                                (bool_decide (draft_viewport_mutations d = 1%N))))
          (protocol_error REVISION
             (lit "viewport generation and viewport mutation must advance together")));
    _ ← lift (validate_state (btree_values (draft_nodes d)) (btree_values (draft_resources d))
                (btree_values (draft_scroll_intents d)));
    _ ← modify (set_rep_revision (Some (batch_target_revision batch)));
    _ ← modify (set_rep_viewport (draft_viewport d));
    _ ← modify (set_rep_nodes (draft_nodes d));
    _ ← modify (set_rep_resources (draft_resources d));
    _ ← modify (set_rep_scroll_intents (draft_scroll_intents d));
    mret (Applied (batch_target_revision batch)).
