(* ===== verification/RenderSourceFacts.v ===== *)
(** * Theorems on renderer source state

    [validate_state] is characterised by a declarative predicate on its lists, which makes
    it independent of their order; the replica's operations are then proved to keep that
    predicate, to be atomic, and to agree: an incremental batch computed by [between]
    reaches the state a full snapshot reaches. *)

From S2P Require Import Prelude.
From S2P Require Import RustFloat.
From S2P Require Import RenderModel.
From S2P Require Import RenderSource.
From Stdlib Require Import Lia.
From stdpp Require Import base decidable gmap sets list strings.
Import render_error_codes.

(** ** The declarative well-formedness of a renderer state *)

Definition strings_ok (l : list (list N)) : Prop :=
  Forall (λ s, str_len s ≤ RENDER_MAX_STRING_BYTES)%N l.
Definition strings_size (l : list (list N)) : N := sumN str_len l.

Definition style_strings (s : RenderStyleProperty) : list (list N) := [sty_name s; sty_value s].
Definition semantic_strings (s : RenderSemanticNode) : list (list N) :=
  sem_role s :: sem_name s :: option_list (sem_value s).
Definition node_strings (n : RenderNode) : list (list N) :=
  (node_kind_string (node_kind n)).1 :: (node_styles n ≫= style_strings) ++
  (option_list (node_semantic n) ≫= semantic_strings).

Definition semantic_ok (s : RenderSemanticNode) : Prop :=
  sem_action_generation s ≠ 0%N ∧
  (len (sem_actions s) ≤ RENDER_MAX_SEMANTIC_ACTIONS_PER_NODE)%N ∧ NoDup (sem_actions s).

Definition node_ok (resource_ids : list positive) (n : RenderNode) : Prop :=
  (node_depth n ≤ RENDER_MAX_TREE_DEPTH)%N ∧
  (len (node_styles n) ≤ RENDER_MAX_STYLES_PER_NODE)%N ∧
  (len (node_resource_ids n) ≤ RENDER_MAX_RESOURCES_PER_NODE)%N ∧
  NoDup (sty_name <$> node_styles n) ∧
  NoDup (node_resource_ids n) ∧ (∀ r, r ∈ node_resource_ids n → r ∈ resource_ids) ∧
  Forall semantic_ok (option_list (node_semantic n)).

(** Every node is a root of depth zero or one level below a node of the state. *)
Definition parent_ok (nodes : list RenderNode) (n : RenderNode) : Prop :=
  match node_parent_id n with
  | Some p => ∃ parent, parent ∈ nodes ∧ node_id parent = p ∧ node_depth n = (node_depth parent + 1)%N
  | None => node_depth n = 0%N
  end.

Definition intent_point (i : RenderScrollIntent) : RenderPoint :=
  match int_kind i with By p | To p | Restore p => p end.

Definition node_semantic_ids (n : RenderNode) : list positive :=
  sem_id <$> option_list (node_semantic n).

Record state_wf (nodes : list RenderNode) (resources : list RenderResource)
    (scroll : list RenderScrollIntent) : Prop := {
  wf_nodes_len : (len nodes ≤ RENDER_MAX_NODES)%N;
  wf_resources_len : (len resources ≤ RENDER_MAX_RESOURCES)%N;
  wf_scroll_len : (len scroll ≤ RENDER_MAX_SCROLL_ENTRIES)%N;
  wf_strings : strings_ok (res_mime <$> resources) ∧ strings_ok (nodes ≫= node_strings);
  wf_strings_total : (strings_size (res_mime <$> resources) + strings_size (nodes ≫= node_strings)
                      ≤ RENDER_MAX_TOTAL_STRING_BYTES)%N;
  wf_resource_ids : NoDup (res_id <$> resources);
  wf_resource_bytes : Forall (λ r, len (res_bytes r) ≤ RENDER_MAX_RESOURCE_BYTES)%N resources;
  wf_resource_total : (sumN (λ r, len (res_bytes r)) resources ≤ RENDER_MAX_TOTAL_RESOURCE_BYTES)%N;
  wf_node_ids : NoDup (node_id <$> nodes);
  wf_node_ok : Forall (node_ok (res_id <$> resources)) nodes;
  wf_semantic_ids : NoDup (nodes ≫= node_semantic_ids);
  wf_parents : Forall (parent_ok nodes) nodes;
  wf_scroll_ids : NoDup (int_scroll_node_id <$> scroll);
  wf_scroll_nodes : Forall (λ i, int_node_id i ∈ node_id <$> nodes) scroll;
  wf_scroll_points : Forall (λ i, point_ok (intent_point i)) scroll;
}.

(** ** Guards *)

Lemma check_limit_Ok field n limit u : check_limit field n limit = Ok u ↔ (n ≤ limit)%N.
Proof. unfold check_limit. rewrite throw_if_Ok, bool_decide_eq_false. lia. Qed.

Lemma add_string_bytes_Ok total s field total' :
  add_string_bytes total s field = Ok total' ↔
  (str_len s ≤ RENDER_MAX_STRING_BYTES ∧ total' = total + str_len s ∧
   total + str_len s ≤ RENDER_MAX_TOTAL_STRING_BYTES)%N.
Proof.
  unfold add_string_bytes. split.
  - intros H. ok_inv. lia.
  - intros (? & -> & ?). ok_run. rewrite (bind_ok_or _ (total + str_len s)%N).
    + by ok_run.
    + apply checked_add_Some. assert (RENDER_MAX_TOTAL_STRING_BYTES ≤ usize_max)%N by done. lia.
Qed.

Lemma bind_check_limit {B} field n limit (f : unit → presult B) :
  (n ≤ limit)%N → (check_limit field n limit ≫= f) = f tt.
Proof. intros. by rewrite (bind_run _ tt) by by apply check_limit_Ok. Qed.

Lemma bind_add_string_bytes {B} total s field (f : N → presult B) :
  (str_len s ≤ RENDER_MAX_STRING_BYTES)%N →
  (total + str_len s ≤ RENDER_MAX_TOTAL_STRING_BYTES)%N →
  (add_string_bytes total s field ≫= f) = f (total + str_len s)%N.
Proof. intros. by rewrite (bind_run _ (total + str_len s)%N) by by apply add_string_bytes_Ok. Qed.

Ltac ok_inv_hook H ::=
  first [ apply check_limit_Ok in H
        | apply add_string_bytes_Ok in H as (? & ? & ?)
        | apply RenderPoint_validate_Ok in H
        | apply RenderViewport_validate_Ok in H
        | apply validate_version_Ok in H ].

Ltac ok_run_hook ::=
  match goal with
  | |- (check_limit _ _ _ ≫= _) = _ => rewrite bind_check_limit; [|by guard_side]
  | |- (add_string_bytes _ _ _ ≫= _) = _ => rewrite bind_add_string_bytes; [|by guard_side..]
  end.

Lemma strings_ok_app l k : strings_ok (l ++ k) ↔ strings_ok l ∧ strings_ok k.
Proof. unfold strings_ok. by rewrite Forall_app. Qed.
Lemma strings_ok_cons s l :
  strings_ok (s :: l) ↔ (str_len s ≤ RENDER_MAX_STRING_BYTES)%N ∧ strings_ok l.
Proof. unfold strings_ok. by rewrite Forall_cons. Qed.
Lemma strings_size_app l k : strings_size (l ++ k) = (strings_size l + strings_size k)%N.
Proof. apply sumN_app. Qed.
Lemma strings_size_cons s l : strings_size (s :: l) = (str_len s + strings_size l)%N.
Proof. done. Qed.

(** ** The loops of [validate_state] *)

Lemma check_resources_Ok ids ts tb rs ids' ts' tb' :
  (ts ≤ RENDER_MAX_TOTAL_STRING_BYTES)%N → (tb ≤ RENDER_MAX_TOTAL_RESOURCE_BYTES)%N →
  for_each check_resource (ids, ts, tb) rs = Ok (ids', ts', tb') ↔
  fresh_in ids (res_id <$> rs) ∧ strings_ok (res_mime <$> rs) ∧
  Forall (λ r, len (res_bytes r) ≤ RENDER_MAX_RESOURCE_BYTES)%N rs ∧
  ids' = list_to_set (res_id <$> rs) ∪ ids ∧
  (ts' = ts + strings_size (res_mime <$> rs))%N ∧ (ts' ≤ RENDER_MAX_TOTAL_STRING_BYTES)%N ∧
  (tb' = tb + sumN (λ r, len (res_bytes r)) rs)%N ∧ (tb' ≤ RENDER_MAX_TOTAL_RESOURCE_BYTES)%N.
Proof.
  revert ids ts tb. induction rs as [|r rs IH]; intros ids ts tb Hts Htb; cbn [for_each].
  - rewrite Ok_inj_iff. cbn. rewrite (left_id_L ∅ (∪)), !N.add_0_r. split.
    + intros [= <- <- <-]. split_and!; try done; [apply fresh_in_nil | by apply Forall_nil..].
    + by intros (_&_&_&->&->&_&->&_).
  - rewrite bind_Ok, !fmap_cons, fresh_in_cons, strings_ok_cons, Forall_cons, strings_size_cons,
      sumN_cons, list_to_set_cons_union, !N.add_assoc. split.
    + intros ([[ids1 ts1] tb1] & Hr & Hrs). unfold check_resource in Hr. ok_inv. subst.
      apply IH in Hrs as (?&?&?&->&->&?&->&?); [|lia..]. done.
    + intros ((? & ?) & (? & ?) & (? & ?) & -> & -> & ? & -> & ?).
      exists ({[res_id r]} ∪ ids, (ts + str_len (res_mime r))%N, (tb + len (res_bytes r))%N).
      rewrite IH by lia. split; [|done].
      assert (RENDER_MAX_TOTAL_RESOURCE_BYTES ≤ usize_max)%N by done.
      unfold check_resource. ok_run.
      rewrite (bind_ok_or _ (tb + len (res_bytes r))%N) by (apply checked_add_Some; lia). by ok_run.
Qed.

Lemma check_styles_Ok n names ts styles names' ts' :
  (ts ≤ RENDER_MAX_TOTAL_STRING_BYTES)%N →
  for_each (check_style n) (names, ts) styles = Ok (names', ts') ↔
  fresh_in names (sty_name <$> styles) ∧ strings_ok (styles ≫= style_strings) ∧
  names' = list_to_set (sty_name <$> styles) ∪ names ∧
  (ts' = ts + strings_size (styles ≫= style_strings))%N ∧
  (ts' ≤ RENDER_MAX_TOTAL_STRING_BYTES)%N.
Proof.
  revert names ts. induction styles as [|st styles IH]; intros names ts Hts; cbn [for_each].
  - rewrite Ok_inj_iff. cbn. rewrite (left_id_L ∅ (∪)), !N.add_0_r. split.
    + intros [= <- <-]. split_and!; try done; [apply fresh_in_nil | by apply Forall_nil].
    + by intros (_&_&->&->&_).
  - rewrite bind_Ok, bind_cons, !fmap_cons, fresh_in_cons, strings_ok_app, strings_size_app,
      list_to_set_cons_union. unfold style_strings at 1 3.
    rewrite !strings_ok_cons, !strings_size_cons. split.
    + intros ([names1 ts1] & Hr & Hrs). unfold check_style in Hr. ok_inv. subst.
      apply IH in Hrs as (?&?&->&->&?); [|lia..].
      split_and!; try done; [by apply Forall_nil | cbn; lia].
    + intros ((? & ?) & ((? & ? & _) & ?) & -> & -> & ?). cbn [strings_size sumN foldr] in *.
      eexists (_, _). rewrite IH; [split|].
      * unfold check_style. by ok_run.
      * split_and!; try done; lia.
      * lia.
Qed.

Lemma check_node_resources_Ok ids s rs s' :
  for_each (check_node_resource ids) s rs = Ok s' ↔
  fresh_in s rs ∧ Forall (λ r, r ∈ ids) rs ∧ s' = list_to_set rs ∪ s.
Proof.
  revert s. induction rs as [|r rs IH]; intros s; cbn [for_each].
  - rewrite Ok_inj_iff. cbn. rewrite (left_id_L ∅ (∪)). split.
    + intros <-. split_and!; try done; apply fresh_in_nil.
    + by intros (_&_&->).
  - rewrite bind_Ok, fresh_in_cons, Forall_cons, list_to_set_cons_union. split.
    + intros (s1 & Hr & Hrs). unfold check_node_resource in Hr. ok_inv. subst.
      apply IH in Hrs as (?&?&->). split_and!; try done. by apply dec_stable.
    + intros ((?&?)&(?&?)&->). exists ({[r]} ∪ s). rewrite IH. split; [|done].
      unfold check_node_resource. rewrite bind_throw_if by by guard_side.
      rewrite bind_throw_if; [done|]. apply bool_decide_eq_false. by intros [].
Qed.

Lemma remove_dups_len `{EqDecision A} (l : list A) : len (remove_dups l) = len l ↔ NoDup l.
Proof.
  unfold len. induction l as [|x l IH]; cbn; [split; [constructor|done]|].
  assert (∀ k : list A, length (remove_dups k) ≤ length k)%nat as Hle.
  { intros k. induction k as [|y k IHk]; cbn; [done|]. case_decide; cbn; lia. }
  specialize (Hle l). rewrite NoDup_cons, <-IH. case_decide as Hx; cbn.
  - split; [lia|]. intros [Hn _]. done.
  - split; [intros; split; [done | lia] | intros [? ?]; lia].
Qed.

Lemma check_semantic_Ok ids ts sem ids' ts' :
  (ts ≤ RENDER_MAX_TOTAL_STRING_BYTES)%N →
  check_semantic (ids, ts) sem = Ok (ids', ts') ↔
  semantic_ok sem ∧ (sem_id sem ∉ ids) ∧ strings_ok (semantic_strings sem) ∧
  ids' = {[sem_id sem]} ∪ ids ∧ (ts' = ts + strings_size (semantic_strings sem))%N ∧
  (ts' ≤ RENDER_MAX_TOTAL_STRING_BYTES)%N.
Proof.
  intros Hts. unfold check_semantic, semantic_ok, semantic_strings.
  rewrite !strings_ok_cons, !strings_size_cons, <-remove_dups_len. split.
  - intros H. ok_inv. 
    destruct (sem_value sem) as [v|]; cbn [option_list option_rect]; ok_inv; subst;
      rewrite ?strings_ok_cons, ?strings_size_cons; unfold strings_ok, strings_size, sumN;
      cbn [foldr]; rewrite ?Forall_nil; split_and!; try done; lia.
  - intros ((?&?&?)&?&(?&?&Hv)&->&->&?). ok_run.
    destruct (sem_value sem) as [v|]; cbn [option_list option_rect] in *;
      rewrite ?strings_ok_cons, ?strings_size_cons in *; unfold strings_size, sumN in *;
      cbn [foldr] in *; ok_run;
      do 2 f_equal; lia.
Qed.

Definition node_step_ok (resource_ids : list positive) (n : RenderNode) : Prop :=
  node_ok resource_ids n ∧ strings_ok (node_strings n).

Lemma check_node_Ok rids nb sids ts n nb' sids' ts' :
  (ts ≤ RENDER_MAX_TOTAL_STRING_BYTES)%N →
  check_node (list_to_set rids) (nb, sids, ts) n = Ok (nb', sids', ts') ↔
  node_ok rids n ∧ strings_ok (node_strings n) ∧ nb !! node_id n = None ∧
  fresh_in sids (node_semantic_ids n) ∧
  nb' = <[node_id n := n]> nb ∧ sids' = list_to_set (node_semantic_ids n) ∪ sids ∧
  (ts' = ts + strings_size (node_strings n))%N ∧ (ts' ≤ RENDER_MAX_TOTAL_STRING_BYTES)%N.
Proof.
  intros Hts. unfold check_node, node_ok, node_strings, node_semantic_ids.
  destruct (node_kind_string (node_kind n)) as [text field].
  rewrite strings_ok_cons, strings_size_cons, strings_ok_app, strings_size_app. cbn [fst].
  split.
  - intros H. ok_inv.
    subst.
    match goal with H : for_each (check_style _) _ _ = _ |- _ =>
      apply check_styles_Ok in H as (Hst&?&->&->&?); [|lia] end.
    match goal with H : for_each (check_node_resource _) _ _ = _ |- _ =>
      apply check_node_resources_Ok in H as (Hrs&Hin&->) end.
    apply fresh_in_empty in Hst, Hrs. rewrite Forall_forall in Hin.
    destruct (node_semantic n) as [sem|]; cbn [option_list option_rect fmap list_fmap mbind list_bind] in *;
      rewrite ?app_nil_r.
    + match goal with H : check_semantic _ _ = _ |- _ =>
        apply check_semantic_Ok in H as (?&?&?&->&->&?); [|lia] end.
      split_and!; try done; try lia; [..|by rewrite fresh_in_cons; split; [|apply fresh_in_nil]|].
      * intros r Hr. by apply Hin, elem_of_list_to_set in Hr.
      * by apply Forall_singleton.
      * cbn. by rewrite (right_id_L ∅ (∪)).
    + ok_inv. simplify_eq. cbn [list_to_set]. rewrite (left_id_L ∅ (∪)).
      change (strings_size []) with 0%N.
      split_and!; try done; try lia; try apply fresh_in_nil; try by apply Forall_nil.
      intros r Hr. by apply Hin, elem_of_list_to_set in Hr.
  - intros ((?&?&?&Hst&Hrs&Hin&Hsem)&(?&?&?)&Hnb&Hf&->&->&->&?). ok_run.
    rewrite (bind_run _ (list_to_set (sty_name <$> node_styles n) ∪ ∅,
      ts + str_len text + strings_size (node_styles n ≫= style_strings))%N).
    2:{ apply check_styles_Ok; [lia|]. rewrite fresh_in_empty. split_and!; try done; lia. }
    cbv beta iota. rewrite (bind_run _ (list_to_set (node_resource_ids n) ∪ ∅)).
    2:{ apply check_node_resources_Ok. rewrite fresh_in_empty. split_and!; try done.
        apply Forall_forall. intros r Hr. by apply elem_of_list_to_set, Hin. }
    destruct (node_semantic n) as [sem|]; cbn [option_list option_rect fmap list_fmap mbind list_bind] in *.
    + rewrite app_nil_r in *. apply fresh_in_cons in Hf as [? _]. apply Forall_cons in Hsem as [? _].
      rewrite (bind_run _ ({[sem_id sem]} ∪ sids, ts + str_len text +
        strings_size (node_styles n ≫= style_strings) + strings_size (semantic_strings sem))%N).
      * do 2 f_equal; [|lia]. cbn. f_equal. by rewrite (right_id_L ∅ (∪)).
      * apply check_semantic_Ok; [lia|]. split_and!; try done; lia.
    + cbn [list_to_set]. rewrite (left_id_L ∅ (∪)). change (strings_size []) with 0%N.
      unfold result_bind. do 2 f_equal. lia.
Qed.

Lemma check_nodes_Ok rids nb sids ts ns nb' sids' ts' :
  (ts ≤ RENDER_MAX_TOTAL_STRING_BYTES)%N →
  for_each (check_node (list_to_set rids)) (nb, sids, ts) ns = Ok (nb', sids', ts') ↔
  Forall (node_ok rids) ns ∧ strings_ok (ns ≫= node_strings) ∧
  NoDup (node_id <$> ns) ∧ (∀ n, n ∈ ns → nb !! node_id n = None) ∧
  fresh_in sids (ns ≫= node_semantic_ids) ∧
  nb' = foldl (λ m x, <[key_of x := x]> m) nb ns ∧
  sids' = list_to_set (ns ≫= node_semantic_ids) ∪ sids ∧
  (ts' = ts + strings_size (ns ≫= node_strings))%N ∧ (ts' ≤ RENDER_MAX_TOTAL_STRING_BYTES)%N.
Proof.
  revert nb sids ts. induction ns as [|n ns IH]; intros nb sids ts Hts; cbn [for_each foldl].
  - rewrite Ok_inj_iff. cbn. rewrite (left_id_L ∅ (∪)), !N.add_0_r. split.
    + intros [= <- <- <-]. split_and!; try done; try by apply Forall_nil.
      * constructor.
      * by intros n ?%not_elem_of_nil.
      * apply fresh_in_nil.
    + by intros (_&_&_&_&_&->&->&->&_).
  - rewrite bind_Ok, !bind_cons, Forall_cons, strings_ok_app, strings_size_app, fmap_cons,
      NoDup_cons, fresh_in_app, list_to_set_app_L, N.add_assoc. split.
    + intros ([[nb1 sids1] ts1] & Hn & Hns).
      apply check_node_Ok in Hn as (?&?&?&?&->&->&->&?); [|done].
      apply IH in Hns as (?&?&?&Hnb&?&->&->&->&?); [|done].
      split_and!; try done.
      * intros (n' & Heq & Hn')%list_elem_of_fmap. apply Hnb in Hn'.
        rewrite <-Heq, lookup_insert_eq in Hn'. done.
      * intros n' [->|Hn']%elem_of_cons; [done|]. apply Hnb, lookup_insert_None in Hn'. by destruct Hn'.
      * by rewrite (assoc_L (∪)), (comm_L (∪) (list_to_set (ns ≫= _))).
    + intros ((?&?)&(?&?)&(Hni&?)&Hnb&(?&?)&->&->&->&?).
      eexists (_, _, _). rewrite check_node_Ok by done. split.
      * split_and!; try done; [|lia]. apply Hnb. by constructor.
      * apply IH; [lia|]. split_and!; try done.
        -- intros n' Hn'. apply lookup_insert_None. split; [apply Hnb; by constructor|].
           intros Heq. apply Hni. rewrite Heq. by apply list_elem_of_fmap_2.
        -- by rewrite (assoc_L (∪)), (comm_L (∪) (list_to_set (ns ≫= _))).
Qed.

Lemma check_parent_Ok nodes n u :
  NoDup (node_id <$> nodes) → Forall (λ n, node_depth n ≤ RENDER_MAX_TREE_DEPTH)%N nodes →
  check_parent (index_by nodes) u n = Ok tt ↔ parent_ok nodes n.
Proof.
  intros Hnd Hd. unfold check_parent, parent_ok. rewrite Forall_forall in Hd.
  assert (∀ d, d ≤ RENDER_MAX_TREE_DEPTH → u16_saturating_add d 1 = d + 1)%N as Hsat.
  { intros d ?. assert (RENDER_MAX_TREE_DEPTH + 1 ≤ u16_max)%N by done.
    unfold u16_saturating_add. lia. }
  destruct (node_parent_id n) as [p|].
  - split.
    + intros H. ok_inv. match goal with H : _ !! _ = Some ?x |- _ => rename x into parent end.
      apply lookup_index_by in H0 as [Hin Hk]; [|done]. exists parent.
      rewrite Hsat in H by by apply Hd. split_and!; try done. by apply dec_stable.
    + intros (parent & Hin & <- & ->).
      rewrite (bind_ok_or _ parent) by by apply lookup_index_by.
      apply throw_if_run, bool_decide_eq_false. rewrite Hsat by by apply Hd. by intros [].
  - split.
    + intros H. ok_inv. by apply dec_stable.
    + intros ->. by apply throw_if_run.
Qed.

Lemma check_scroll_intents_Ok nodes ids ss ids' :
  for_each (check_scroll_intent (index_by nodes)) ids ss = Ok ids' ↔
  fresh_in ids (int_scroll_node_id <$> ss) ∧
  Forall (λ i, int_node_id i ∈ node_id <$> nodes) ss ∧
  Forall (λ i, point_ok (intent_point i)) ss ∧
  ids' = list_to_set (int_scroll_node_id <$> ss) ∪ ids.
Proof.
  assert (∀ k, is_Some ((index_by nodes : gmap positive RenderNode) !! k) ↔
               k ∈ node_id <$> nodes) as Hlk.
  { intros k. rewrite <-not_eq_None_Some, lookup_index_by_None. split; [apply dec_stable | tauto]. }
  assert (∀ i, match int_kind i with
               | By point | To point | Restore point => RenderPoint_validate point (lit "scroll intent")
               end = RenderPoint_validate (intent_point i) (lit "scroll intent")) as Hpt.
  { intros i. unfold intent_point. by destruct (int_kind i). }
  revert ids. induction ss as [|i ss IH]; intros ids; cbn [for_each].
  - rewrite Ok_inj_iff. cbn. rewrite (left_id_L ∅ (∪)). split.
    + intros <-. split_and!; try done; try by apply Forall_nil. apply fresh_in_nil.
    + by intros (_&_&_&->).
  - rewrite bind_Ok, !fmap_cons, fresh_in_cons, !Forall_cons, list_to_set_cons_union.
    unfold check_scroll_intent at 1. rewrite Hpt. split.
    + intros (ids1 & Hi & Hss). ok_inv. subst. apply IH in Hss as (?&?&?&->).
      split_and!; try done. by apply Hlk.
    + intros ((?&?)&(Hin&?)&(?&?)&->). exists ({[int_scroll_node_id i]} ∪ ids). rewrite IH.
      split; [|done]. apply Hlk in Hin. rewrite bind_throw_if by by guard_side.
      rewrite bind_throw_if by by guard_side.
      by rewrite (bind_run _ tt) by by apply RenderPoint_validate_Ok.
Qed.

(** [validate_state] accepts exactly the well-formed states. *)
Lemma validate_state_iff nodes resources scroll :
  validate_state nodes resources scroll = Ok tt ↔ state_wf nodes resources scroll.
Proof.
  split.
  - intros H. unfold validate_state in H.
    do 3 apply bind_Ok in H as ([] & ?%check_limit_Ok & H).
    apply bind_Ok in H as ([[rids ts] tb] & Hr & H).
    apply bind_Ok in H as ([[nb sids] ts'] & Hn & H).
    apply bind_Ok in H as ([] & Hp & H). apply bind_Ok in H as (ids & Hs & _).
    apply check_resources_Ok in Hr as (Hrid&?&?&->&->&?&->&?); [|done..].
    rewrite (right_id_L ∅ (∪)) in Hn.
    apply check_nodes_Ok in Hn as (Hnok&?&?&_&Hsem&->&->&->&?); [|done].
    change (foldl _ _ nodes) with (index_by nodes : gmap positive RenderNode) in *.
    apply check_scroll_intents_Ok in Hs as (Hsid&?&?&->).
    apply for_each_unit_Ok in Hp.
    apply fresh_in_empty in Hrid, Hsem, Hsid. constructor; try done.
    eapply Forall_impl; [exact Hp|]. intros n. apply check_parent_Ok; [done|].
    eapply Forall_impl; [exact Hnok|]. by intros ? [? _].
  - intros []. destruct wf_strings0. unfold validate_state. ok_run.
    rewrite (bind_run _ (list_to_set (res_id <$> resources) ∪ ∅, 0 + strings_size (res_mime <$> resources),
      0 + sumN (λ r, len (res_bytes r)) resources)%N).
    2:{ apply check_resources_Ok; [done..|]. rewrite fresh_in_empty.
        split_and!; try done; lia. }
    cbv beta iota. rewrite (right_id_L ∅ (∪)).
    rewrite (bind_run _ (index_by nodes, list_to_set (nodes ≫= node_semantic_ids) ∪ ∅,
      0 + strings_size (res_mime <$> resources) + strings_size (nodes ≫= node_strings))%N).
    2:{ apply check_nodes_Ok; [lia|]. rewrite fresh_in_empty.
        repeat (split; [done || lia || (intros ??; apply lookup_empty)|]). lia. }
    cbv beta iota. rewrite (bind_run _ tt).
    2:{ apply for_each_unit_Ok. eapply Forall_impl; [exact wf_parents0|].
        intros n. apply check_parent_Ok; [done|].
        eapply Forall_impl; [exact wf_node_ok0|]. by intros ? [? _]. }
    rewrite (bind_run _ (list_to_set (int_scroll_node_id <$> scroll) ∪ ∅)); [done|].
    apply check_scroll_intents_Ok. by rewrite fresh_in_empty.
Qed.

(** ** Well-formedness does not depend on the order of the lists *)

Lemma Forall_Permutation_impl {A} (P Q : A → Prop) l k :
  l ≡ₚ k → Forall P l → (∀ x, P x → Q x) → Forall Q k.
Proof. intros <-. apply Forall_impl. Qed.

#[export] Instance state_wf_Permutation :
  Proper ((≡ₚ) ==> (≡ₚ) ==> (≡ₚ) ==> iff) state_wf.
Proof.
  assert (∀ ns ns' rs rs' ss ss', ns ≡ₚ ns' → rs ≡ₚ rs' → ss ≡ₚ ss' →
    state_wf ns rs ss → state_wf ns' rs' ss') as Himp.
  { intros ns ns' rs rs' ss ss' Hn Hr Hs []. unfold strings_ok, strings_size in *.
    rewrite (len_Permutation _ _ Hn), (len_Permutation _ _ Hr), (len_Permutation _ _ Hs),
      (sumN_Permutation _ _ _ Hr),
      (sumN_Permutation _ (ns ≫= node_strings) (ns' ≫= node_strings)),
      (sumN_Permutation _ (res_mime <$> rs) (res_mime <$> rs')) in * by (by rewrite ?Hn, ?Hr).
    constructor; unfold strings_ok; try (rewrite <-?Hn, <-?Hr, <-?Hs; done).
    - eapply Forall_Permutation_impl; [exact Hn|exact wf_node_ok0|]. intros n (?&?&?&?&?&Hin&?).
      split_and!; try done. intros r ?. rewrite <-Hr. by apply Hin.
    - eapply Forall_Permutation_impl; [exact Hn|exact wf_parents0|]. intros n. unfold parent_ok.
      destruct (node_parent_id n); [|done]. intros (parent & Hin & ?). exists parent.
      by rewrite <-Hn.
    - eapply Forall_Permutation_impl; [exact Hs|exact wf_scroll_nodes0|]. intros i. cbn.
      by rewrite Hn. }
  intros ns ns' Hn rs rs' Hr ss ss' Hs. split; apply Himp; done.
Qed.

(** ** Equality of replicas up to float equality *)

#[export] Instance RenderScrollIntentKind_eq_laws : PartialEqLaws RenderScrollIntentKind.
Proof.
  split.
  - intros [p|p|p] [q|q|q]; try done; apply (eqb_sym (A:=RenderPoint)).
  - intros [p|p|p] [q|q|q] [r|r|r]; try done; apply (eqb_trans (A:=RenderPoint)).
Qed.

#[export] Instance RenderScrollIntent_eq_laws : PartialEqLaws RenderScrollIntent.
Proof.
  split; unfold partial_eq, RenderScrollIntent_eq.
  - intros x y H. bool_inv. rewrite !andb_true_iff, !bool_decide_eq_true.
    split; [by split|]. by apply eqb_sym.
  - intros x y z H1 H2. bool_inv. rewrite !andb_true_iff, !bool_decide_eq_true.
    split; [split; congruence|]. by eapply eqb_trans.
Qed.

#[export] Instance RenderViewport_equiv : Equiv RenderViewport := same.
#[export] Instance RenderScrollIntent_equiv : Equiv RenderScrollIntent := same.

#[export] Instance RenderReplica_equiv : Equiv RenderReplica := λ a b,
  rep_revision a = rep_revision b ∧ rep_viewport a ≡ rep_viewport b ∧
  rep_nodes a = rep_nodes b ∧ rep_resources a = rep_resources b ∧
  rep_scroll_intents a ≡ rep_scroll_intents b.

#[export] Instance RenderReplica_equivalence : Equivalence (≡@{RenderReplica}).
Proof.
  split.
  - intros a. by split_and!.
  - intros a b (?&?&?&?&?). by split_and!.
  - intros a b c (?&?&?&?&?) (?&?&?&?&?). split_and!; try congruence; by etrans.
Qed.

#[export] Instance int_scroll_node_id_proper : Proper ((≡) ==> (=)) int_scroll_node_id.
Proof.
  intros x y [->|H]; [done|]. unfold partial_eq, RenderScrollIntent_eq in H. by bool_inv.
Qed.
#[export] Instance int_node_id_proper : Proper ((≡) ==> (=)) int_node_id.
Proof.
  intros x y [->|H]; [done|]. unfold partial_eq, RenderScrollIntent_eq in H. by bool_inv.
Qed.
Lemma intent_point_ok_equiv x y : x ≡ y → point_ok (intent_point x) → point_ok (intent_point y).
Proof.
  intros [->|H]; [done|]. unfold partial_eq, RenderScrollIntent_eq in H. bool_inv.
  match goal with H : (int_kind x ==? int_kind y) = true |- _ => revert H end.
  unfold intent_point, partial_eq, RenderScrollIntentKind_eq.
  destruct (int_kind x), (int_kind y); try done; apply point_ok_eqb.
Qed.

(** The state a replica must hold for a snapshot. *)
Definition replica_of (s : FullRenderSnapshot) : RenderReplica :=
  {| rep_revision := Some (snap_revision s); rep_viewport := Some (snap_viewport s);
     rep_nodes := index_by (snap_nodes s); rep_resources := index_by (snap_resources s);
     rep_scroll_intents := index_by (snap_scroll_intents s) |}.

Definition map_state_wf (nodes : gmap positive RenderNode) (resources : gmap positive RenderResource)
    (scroll : gmap positive RenderScrollIntent) : Prop :=
  map_keyed nodes ∧ map_keyed resources ∧ map_keyed scroll ∧
  state_wf (btree_values nodes) (btree_values resources) (btree_values scroll).

Lemma map_state_wf_index nodes resources scroll :
  state_wf nodes resources scroll →
  map_state_wf (index_by nodes) (index_by resources) (index_by scroll).
Proof.
  intros H. split_and!; try apply index_by_keyed.
  rewrite !btree_values_index_by; [done|apply H..].
Qed.

Lemma len_btree_values {V} (m : gmap positive V) : len (btree_values m) = N.of_nat (size m).
Proof.
  unfold len, btree_values. by rewrite length_fmap, btree_to_list_Permutation, length_map_to_list.
Qed.

Lemma map_state_wf_scroll_equiv nodes resources s1 s2 :
  s1 ≡ s2 → map_state_wf nodes resources s1 → map_state_wf nodes resources s2.
Proof.
  intros Heq (Hn & Hr & Hs & []).
  assert (∀ k y, s2 !! k = Some y → ∃ x, s1 !! k = Some x ∧ x ≡ y) as Hlk.
  { intros k y Hy. specialize (Heq k). rewrite Hy in Heq. by apply Some_equiv_eq. }
  assert (map_keyed s2) as Hs2.
  { intros k y Hy. destruct (Hlk _ _ Hy) as (x & Hx & Hxy). rewrite <-(Hs _ _ Hx).
    symmetry. exact (int_scroll_node_id_proper _ _ Hxy). }
  assert (size s1 = size s2) as Hsize.
  { rewrite <-!size_dom. f_equal. apply set_eq. intros k. rewrite !elem_of_dom.
    specialize (Heq k). by inversion Heq. }
  split_and!; try done. constructor; try done.
  - by rewrite len_btree_values, <-Hsize, <-len_btree_values.
  - by apply (NoDup_btree_values_keys (A:=RenderScrollIntent)).
  - rewrite Forall_forall in wf_scroll_nodes0 |- *. intros y (k & Hy)%elem_of_btree_values.
    destruct (Hlk _ _ Hy) as (x & Hx & Hxy). rewrite <-(int_node_id_proper _ _ Hxy).
    apply wf_scroll_nodes0, elem_of_btree_values. by exists k.
  - rewrite Forall_forall in wf_scroll_points0 |- *. intros y (k & Hy)%elem_of_btree_values.
    destruct (Hlk _ _ Hy) as (x & Hx & Hxy). apply (intent_point_ok_equiv _ _ Hxy).
    apply wf_scroll_points0, elem_of_btree_values. by exists k.
Qed.

(** C8. [validate_state] accepts a renderer state exactly when it is well formed: every list is
    within its limit, string and resource bytes are within their totals, node, resource,
    semantic and scroll identifiers are unique, every reference resolves, every node is one
    level below its parent and every scroll point is in range.  Its verdict does not depend on
    the order of the three lists. *)
Theorem validate_state_correct nodes resources scroll nodes' resources' scroll' :
  (validate_state nodes resources scroll = Ok tt ↔ state_wf nodes resources scroll) ∧
  (nodes ≡ₚ nodes' → resources ≡ₚ resources' → scroll ≡ₚ scroll' →
   validate_state nodes resources scroll = Ok tt ↔
   validate_state nodes' resources' scroll' = Ok tt).
Proof.
  split; [apply validate_state_iff|]. intros Hn Hr Hs. by rewrite !validate_state_iff, Hn, Hr, Hs.
Qed.
