(* ===== verification/RenderReplicaFacts.v ===== *)
(** * Theorems on the reference replica

    The replica keeps its state well formed, changes atomically, never regresses a
    generation of the document it shows, and reaches the same state by an incremental
    batch as by a full snapshot. *)

From Stdlib Require Import Lia.
From Stdlib Require Import Sorting.Sorted.
From stdpp Require Import base decidable gmap sets list strings relations sorting.
From S2P Require Import Prelude.
From S2P Require Import RustFloat.
From S2P Require Import RenderModel.
From S2P Require Import RenderSource.
From S2P Require Import RenderSourceFacts.
Import render_error_codes.

(** ** The two operations as equations *)

Definition snapshot_check (self : RenderReplica) (s : FullRenderSnapshot) : presult bool :=
  match rep_revision self with
  | Some current =>
      if same_document current (snap_revision s)
      then check_current self current s (index_by (snap_nodes s)) (index_by (snap_resources s))
             (index_by (snap_scroll_intents s))
      else Ok false
  | None => Ok false
  end.

Lemma accept_full_snapshot_eq s r :
  accept_full_snapshot s r =
  match FullRenderSnapshot_validate s with
  | Err e => (r, Err e)
  | Ok _ => match snapshot_check r s with
            | Err e => (r, Err e)
            | Ok true => (r, Ok tt)
            | Ok false => (replica_of s, Ok tt)
            end
  end.
Proof.
  unfold accept_full_snapshot, snapshot_check, mbind, M_bind, lift, get, modify, mret, M_ret.
  destruct (FullRenderSnapshot_validate s); [|done].
  destruct (rep_revision r) as [cur|]; [|done].
  destruct (same_document cur (snap_revision s)); [|done].
  by destruct (check_current _ _ _ _ _ _) as [[]|].
Qed.

Definition batch_draft (self : RenderReplica) (b : RenderMutationBatch) : presult Draft :=
  d ← for_each apply_mutation (draft_of self) (batch_mutations b);
  _ ← throw_if (negb (Bool.eqb
        (bool_decide (rev_viewport_generation (batch_target_revision b) ≠
                      rev_viewport_generation (batch_base_revision b)))
        (bool_decide (draft_viewport_mutations d = 1%N))))
      (protocol_error REVISION
         (lit "viewport generation and viewport mutation must advance together"));
  _ ← validate_state (btree_values (draft_nodes d)) (btree_values (draft_resources d))
        (btree_values (draft_scroll_intents d));
  Ok d.

Definition replica_of_draft (rev : RenderRevision) (d : Draft) : RenderReplica :=
  {| rep_revision := Some rev; rep_viewport := draft_viewport d; rep_nodes := draft_nodes d;
     rep_resources := draft_resources d; rep_scroll_intents := draft_scroll_intents d |}.

Definition resync_for (self : RenderReplica) (b : RenderMutationBatch) : RenderResyncRequest :=
  {| resync_version := RENDER_PROTOCOL_VERSION;
     resync_context_id := rev_context_id (batch_target_revision b);
     resync_document_id := rev_document_id (batch_target_revision b);
     resync_current_revision := rep_revision self;
     resync_rejected_base_revision := Some (batch_base_revision b);
     resync_reason := match rep_revision self with
                      | Some _ => MissedBaseRevision
                      | None => MissingState
                      end |}.

Lemma apply_batch_eq b r :
  apply_batch b r =
  match RenderMutationBatch_validate b with
  | Err e => (r, Err e)
  | Ok _ => if bool_decide (rep_revision r ≠ Some (batch_base_revision b))
            then (r, Ok (ResyncRequired (resync_for r b)))
            else match batch_draft r b with
                 | Err e => (r, Err e)
                 | Ok d => (replica_of_draft (batch_target_revision b) d,
                            Ok (Applied (batch_target_revision b)))
                 end
  end.
Proof.
  unfold apply_batch, batch_draft. unfold mbind, M_bind, lift, get, modify, mret, M_ret, result_bind.
  destruct (RenderMutationBatch_validate b); [|done].
  case_bool_decide; [done|].
  destruct (for_each apply_mutation (draft_of r) (batch_mutations b)) as [d|]; [|done].
  destruct (throw_if _ _); [|done]. by destruct (validate_state _ _ _).
Qed.

(** ** The replica invariant *)

Definition replica_wf (r : RenderReplica) : Prop :=
  match rep_revision r with
  | None => r = RenderReplica_default
  | Some rev =>
      RenderRevision_validate rev = Ok tt ∧
      (∃ v, rep_viewport r = Some v ∧ viewport_ok v) ∧
      map_state_wf (rep_nodes r) (rep_resources r) (rep_scroll_intents r)
  end.

Definition snapshot_wf (s : FullRenderSnapshot) : Prop :=
  snap_version s = RENDER_PROTOCOL_VERSION ∧
  RenderRevision_validate (snap_revision s) = Ok tt ∧ viewport_ok (snap_viewport s) ∧
  state_wf (snap_nodes s) (snap_resources s) (snap_scroll_intents s).

Lemma FullRenderSnapshot_validate_iff s u :
  FullRenderSnapshot_validate s = Ok u ↔ snapshot_wf s.
Proof.
  destruct u. unfold FullRenderSnapshot_validate, snapshot_wf. split.
  - intros H. apply bind_Ok in H as ([] & ?%validate_version_Ok & H).
    apply bind_Ok in H as ([] & ? & H). apply bind_Ok in H as ([] & ?%RenderViewport_validate_Ok & H).
    apply validate_state_iff in H. done.
  - intros (-> & Hr & Hv & Hs). rewrite (bind_run _ tt) by done. rewrite (bind_run _ tt) by done.
    rewrite (bind_run _ tt) by by apply RenderViewport_validate_Ok. by apply validate_state_iff.
Qed.

Lemma replica_of_wf s : snapshot_wf s → replica_wf (replica_of s).
Proof.
  intros (_ & ? & ? & ?). split_and!; [done|by eexists|]. by apply map_state_wf_index.
Qed.

Lemma apply_mutation_keyed d m d' :
  apply_mutation d m = Ok d' →
  map_keyed (draft_nodes d) ∧ map_keyed (draft_resources d) ∧ map_keyed (draft_scroll_intents d) →
  map_keyed (draft_nodes d') ∧ map_keyed (draft_resources d') ∧ map_keyed (draft_scroll_intents d').
Proof.
  intros H (Hn & Hr & Hs).
  assert (∀ (A : Type) `{Keyed A} (m : gmap positive A) x,
    map_keyed m → map_keyed (<[key_of x := x]> m)) as Hins.
  { intros A ? m' x Hm k y [[<- <-]|[? ?]]%lookup_insert_Some; [done | by apply Hm]. }
  assert (∀ (A : Type) `{Keyed A} (m : gmap positive A) k,
    map_keyed m → map_keyed (delete k m)) as Hdel.
  { intros A ? m' k Hm j y [? ?]%lookup_delete_Some. by apply Hm. }
  destruct m; cbn in H; ok_inv; subst; cbn; split_and!; try done.
  all: first [by apply Hins | by apply Hdel].
Qed.

Lemma apply_mutation_viewport d m d' :
  apply_mutation d m = Ok d' →
  (∃ v, draft_viewport d = Some v ∧ viewport_ok v) →
  (∃ v, draft_viewport d' = Some v ∧ viewport_ok v).
Proof. intros H Hv. destruct m; cbn in H; ok_inv; subst; cbn; try done. by eexists. Qed.

Lemma batch_validate_Ok b u :
  RenderMutationBatch_validate b = Ok u →
  batch_version b = RENDER_PROTOCOL_VERSION ∧
  validate_successor_of (batch_target_revision b) (batch_base_revision b) = Ok tt ∧
  (len (batch_mutations b) ≤ RENDER_MAX_MUTATIONS)%N.
Proof. intros H. unfold RenderMutationBatch_validate in H. by ok_inv. Qed.

Lemma validate_successor_valid a b :
  validate_successor_of a b = Ok tt →
  RenderRevision_validate a = Ok tt ∧ RenderRevision_validate b = Ok tt.
Proof.
  intros H. unfold validate_successor_of in H.
  apply bind_Ok in H as ([] & ? & H). by apply bind_Ok in H as ([] & ? & _).
Qed.

Lemma batch_draft_wf r b d :
  replica_wf r → rep_revision r = Some (batch_base_revision b) →
  RenderRevision_validate (batch_target_revision b) = Ok tt →
  batch_draft r b = Ok d → replica_wf (replica_of_draft (batch_target_revision b) d).
Proof.
  unfold replica_wf at 1. intros Hwf Hrev Ht Hd. rewrite Hrev in Hwf.
  destruct Hwf as (_ & Hv & (Hn & Hr & Hs & _)).
  unfold batch_draft in Hd. apply bind_Ok in Hd as (d' & Hm & Hd).
  apply bind_Ok in Hd as ([] & _ & Hd). apply bind_Ok in Hd as ([] & Hst & [= ->]).
  apply validate_state_iff in Hst. split_and!; [done|..]; cbn.
  - refine (for_each_ind (λ d, ∃ v, draft_viewport d = Some v ∧ viewport_ok v) _ _ _ _ _ _ Hm);
      [|exact Hv]. intros s x s' _ Hs' Hx. by eapply apply_mutation_viewport.
  - assert (map_keyed (draft_nodes d) ∧ map_keyed (draft_resources d) ∧
      map_keyed (draft_scroll_intents d)) as (?&?&?); [|done].
    refine (for_each_ind (λ d, map_keyed (draft_nodes d) ∧ map_keyed (draft_resources d) ∧
      map_keyed (draft_scroll_intents d)) _ _ _ _ _ _ Hm); [|by split_and!].
    intros s x s' _ Hs' Hx. by eapply apply_mutation_keyed.
Qed.

(** ** Histories of a replica *)

Inductive replica_step (r r' : RenderReplica) : Prop :=
| step_snapshot s res : accept_full_snapshot s r = (r', res) → replica_step r r'
| step_batch b res : apply_batch b r = (r', res) → replica_step r r'.

Definition replica_reachable (r : RenderReplica) : Prop :=
  rtc replica_step RenderReplica_default r.

Lemma replica_step_wf r r' : replica_step r r' → replica_wf r → replica_wf r'.
Proof.
  intros [s res H|b res H] Hwf.
  - rewrite accept_full_snapshot_eq in H.
    destruct (FullRenderSnapshot_validate s) as [u|e] eqn:Hs; [|by simplify_eq].
    apply FullRenderSnapshot_validate_iff in Hs.
    destruct (snapshot_check r s) as [[]|]; simplify_eq; try done. by apply replica_of_wf.
  - rewrite apply_batch_eq in H.
    destruct (RenderMutationBatch_validate b) as [u|e] eqn:Hb; [|by simplify_eq].
    apply batch_validate_Ok in Hb as (_ & [Ht _]%validate_successor_valid & _).
    case_bool_decide as Hrev; [by simplify_eq|].
    destruct (batch_draft r b) eqn:Hd; simplify_eq; [|done]. by eapply batch_draft_wf.
Qed.

Lemma replica_reachable_inv r : replica_reachable r → replica_wf r.
Proof.
  intros H. unfold replica_reachable in H.
  remember RenderReplica_default as r0 eqn:E.
  assert (replica_wf r0) as Hwf by by subst.
  clear E. induction H as [|r1 r2 r3 Hstep _ IH]; [done|]. by apply IH, (replica_step_wf r1).
Qed.

(** C7. Every state a replica can reach by accepting snapshots and applying batches, failed
    attempts included, is well formed: limits, unique identifiers, resolved references and
    parents, tree depths, and the viewport. *)
Theorem replica_reachable_wf r : replica_reachable r → replica_wf r.
Proof. apply replica_reachable_inv. Qed.

(** ** Patching a map by removals and upserts *)

Section patch.
Context `{Keyed A} (R : relation A) `{!Equivalence R} (eqv : A → A → bool)
  (eqv_sound : ∀ x y, eqv x y = true → R x y).
Implicit Types m base target : gmap positive A.

Definition delete_all (ks : list positive) m : gmap positive A := foldl (λ m k, delete k m) m ks.
Definition insert_all (xs : list A) m : gmap positive A := foldl (λ m x, <[key_of x := x]> m) m xs.

Lemma lookup_delete_all ks m k :
  delete_all ks m !! k = if decide (k ∈ ks) then None else m !! k.
Proof.
  unfold delete_all. revert m. induction ks as [|j ks IH]; intros m; cbn.
  - by rewrite decide_False by apply not_elem_of_nil.
  - rewrite IH. destruct (decide (k ∈ ks)) as [Hin|Hin].
    + by rewrite decide_True by by right.
    + destruct (decide (j = k)) as [->|Hne].
      * rewrite decide_True by by left. apply lookup_delete_eq.
      * rewrite decide_False by (rewrite elem_of_cons; naive_solver). by rewrite lookup_delete_ne.
Qed.

Lemma elem_of_removed_keys base target k :
  k ∈ removed_keys base target ↔ is_Some (base !! k) ∧ target !! k = None.
Proof.
  unfold removed_keys. rewrite list_elem_of_filter, elem_of_btree_keys, contains_key_false. tauto.
Qed.

Lemma NoDup_removed_keys base target : NoDup (removed_keys base target).
Proof. apply NoDup_filter, NoDup_btree_keys. Qed.

Lemma elem_of_changed_values base target x :
  map_keyed target → x ∈ changed_values eqv base target ↔
  target !! key_of x = Some x ∧ ∀ old, base !! key_of x = Some old → eqv old x = false.
Proof.
  intros Hk. unfold changed_values. rewrite list_elem_of_fmap. split.
  - intros ([k x'] & -> & [Hc Ht]%list_elem_of_filter). cbn in *.
    apply elem_of_btree_to_list in Ht. pose proof (Hk _ _ Ht) as <-. split; [done|].
    intros old Ho. by rewrite Ho in Hc.
  - intros [Ht Hc]. exists (key_of x, x). split; [done|].
    apply list_elem_of_filter. rewrite elem_of_btree_to_list. split; [|done]. cbn.
    destruct (base !! key_of x) eqn:Hb; [by apply Hc | done].
Qed.

Lemma NoDup_changed_values base target :
  map_keyed target → NoDup (key_of <$> changed_values eqv base target).
Proof.
  intros Hk. unfold changed_values. rewrite <-list_fmap_compose.
  set (l := filter _ _). assert ((key_of ∘ snd) <$> l = l.*1) as ->.
  { apply list_fmap_ext. intros i [k x] Hi%list_elem_of_lookup_2. cbn.
    apply list_elem_of_filter in Hi as [_ Hi]. by apply Hk, elem_of_btree_to_list. }
  eapply sublist_NoDup; [apply (NoDup_btree_keys target)|].
  unfold btree_keys. apply fmap_sublist, sublist_filter.
Qed.

Lemma patch_lookup m base target k :
  map_keyed target → (∀ j, option_Forall2 R (m !! j) (base !! j)) →
  option_Forall2 R
    (insert_all (changed_values eqv base target) (delete_all (removed_keys base target) m) !! k)
    (target !! k).
Proof.
  intros Hk Hm. unfold insert_all. rewrite foldl_index_lookup by by apply NoDup_changed_values.
  destruct (list_find _ _) as [[i x]|] eqn:Hf.
  - apply list_find_Some in Hf as (Hi%list_elem_of_lookup_2 & <- & _).
    apply elem_of_changed_values in Hi as [-> _]; [|done]. by constructor.
  - apply list_find_None in Hf. rewrite Forall_forall in Hf.
    rewrite lookup_delete_all. case_decide as Hr.
    + apply elem_of_removed_keys in Hr as [_ ->]. constructor.
    + specialize (Hm k). destruct (target !! k) as [x|] eqn:Ht.
      * pose proof (Hk _ _ Ht) as <-.
        destruct (base !! key_of x) as [old|] eqn:Hb.
        -- destruct (eqv old x) eqn:He.
           ++ inversion Hm; subst. constructor. etrans; [done|]. by apply eqv_sound.
           ++ exfalso. apply (Hf x); [|done]. apply elem_of_changed_values; [done|].
              split; [done|]. intros ? [= <-]%(eq_trans (eq_sym Hb)). done.
        -- exfalso. apply (Hf x); [|done]. apply elem_of_changed_values; [done|].
           split; [done|]. by intros ? ?%(eq_trans (eq_sym Hb)).
      * destruct (base !! k) eqn:Hb; [|done].
        exfalso. apply Hr, elem_of_removed_keys. split; [by rewrite Hb | done].
Qed.
End patch.

(** ** Running the mutations of one map *)

Definition set_draft_viewport (v : option RenderViewport) (c : N) (d : Draft) : Draft :=
  {| draft_viewport := v; draft_nodes := draft_nodes d; draft_resources := draft_resources d;
     draft_scroll_intents := draft_scroll_intents d; draft_viewport_mutations := c |}.
Definition set_draft_nodes v (d : Draft) : Draft :=
  {| draft_viewport := draft_viewport d; draft_nodes := v; draft_resources := draft_resources d;
     draft_scroll_intents := draft_scroll_intents d;
     draft_viewport_mutations := draft_viewport_mutations d |}.
Definition set_draft_resources v (d : Draft) : Draft :=
  {| draft_viewport := draft_viewport d; draft_nodes := draft_nodes d; draft_resources := v;
     draft_scroll_intents := draft_scroll_intents d;
     draft_viewport_mutations := draft_viewport_mutations d |}.
Definition set_draft_scroll_intents v (d : Draft) : Draft :=
  {| draft_viewport := draft_viewport d; draft_nodes := draft_nodes d;
     draft_resources := draft_resources d; draft_scroll_intents := v;
     draft_viewport_mutations := draft_viewport_mutations d |}.

(** One of the draft's maps with the mutations that remove and upsert its entries. *)
Record DraftMap (A : Type) `{Keyed A} : Type := {
  dm_get : Draft → gmap positive A;
  dm_set : gmap positive A → Draft → Draft;
  dm_remove : positive → RenderMutation;
  dm_upsert : A → RenderMutation;
  dm_get_set v d : dm_get (dm_set v d) = v;
  dm_set_set v w d : dm_set v (dm_set w d) = dm_set v d;
  dm_set_get d : dm_set (dm_get d) d = d;
  dm_remove_run d k :
    is_Some (dm_get d !! k) → apply_mutation d (dm_remove k) = Ok (dm_set (delete k (dm_get d)) d);
  dm_upsert_run d x :
    apply_mutation d (dm_upsert x) = Ok (dm_set (<[key_of x := x]> (dm_get d)) d);
}.
Arguments dm_get {A _}. Arguments dm_set {A _}. Arguments dm_remove {A _}. Arguments dm_upsert {A _}.

Program Definition nodes_map : DraftMap RenderNode :=
  {| dm_get := draft_nodes; dm_set := set_draft_nodes; dm_remove := RemoveNode;
     dm_upsert := UpsertNode |}.
Solve Obligations with
  first [done | by intros [] | intros d k ?; cbn; rewrite bind_throw_if; [done | by guard_side]].
Program Definition resources_map : DraftMap RenderResource :=
  {| dm_get := draft_resources; dm_set := set_draft_resources; dm_remove := RemoveResource;
     dm_upsert := UpsertResource |}.
Solve Obligations with
  first [done | by intros [] | intros d k ?; cbn; rewrite bind_throw_if; [done | by guard_side]].
Program Definition scroll_map : DraftMap RenderScrollIntent :=
  {| dm_get := draft_scroll_intents; dm_set := set_draft_scroll_intents;
     dm_remove := RemoveScrollIntent; dm_upsert := SetScrollIntent |}.
Solve Obligations with
  first [done | by intros [] | intros d k ?; cbn; rewrite bind_throw_if; [done | by guard_side]].

Section draft_map.
Context `{Keyed A} (dm : DraftMap A).

Lemma run_removes ks d :
  NoDup ks → (∀ k, k ∈ ks → is_Some (dm_get dm d !! k)) →
  for_each apply_mutation d (dm_remove dm <$> ks) =
  Ok (dm_set dm (delete_all ks (dm_get dm d)) d).
Proof.
  revert d. induction ks as [|k ks IH]; intros d Hnd Hin; cbn.
  - by rewrite dm_set_get.
  - apply NoDup_cons in Hnd as [Hk Hnd].
    rewrite (bind_run _ _ _ (dm_remove_run _ dm d k (Hin k ltac:(by left)))).
    rewrite IH, dm_set_set, dm_get_set; [done|done|]. intros j Hj. rewrite dm_get_set.
    rewrite lookup_delete_ne by (by intros ->). apply Hin. by right.
Qed.

Lemma run_upserts xs d :
  for_each apply_mutation d (dm_upsert dm <$> xs) =
  Ok (dm_set dm (insert_all xs (dm_get dm d)) d).
Proof.
  revert d. induction xs as [|x xs IH]; intros d; cbn.
  - by rewrite dm_set_get.
  - rewrite (bind_run _ _ _ (dm_upsert_run _ dm d x)).
    by rewrite IH, dm_set_set, dm_get_set.
Qed.

(** The removals and upserts that take [base] to [target], run on a draft that holds the
    keys of [base]. *)
Lemma run_patch (eqv : A → A → bool) base target rest d :
  (∀ k, is_Some (base !! k) → is_Some (dm_get dm d !! k)) →
  for_each apply_mutation d
    ((dm_remove dm <$> removed_keys base target) ++
     (dm_upsert dm <$> changed_values eqv base target) ++ rest) =
  for_each apply_mutation
    (dm_set dm (insert_all (changed_values eqv base target)
       (delete_all (removed_keys base target) (dm_get dm d))) d) rest.
Proof.
  intros Hin. rewrite !for_each_app, run_removes; [|apply NoDup_removed_keys|].
  - cbn. rewrite for_each_app, run_upserts. cbn. by rewrite dm_get_set, dm_set_set.
  - intros k [? _]%elem_of_removed_keys. by apply Hin.
Qed.
End draft_map.

(** ** Incremental batches computed from two snapshots *)

Definition viewport_moves (base target : FullRenderSnapshot) : bool :=
  negb (snap_viewport base ==? snap_viewport target) ||
  bool_decide (rev_viewport_generation (snap_revision base) ≠
               rev_viewport_generation (snap_revision target)).

(** The mutations [between] lists. *)
Definition diff_mutations (base target : FullRenderSnapshot) : list RenderMutation :=
  let bn := index_by (snap_nodes base) in let tn := index_by (snap_nodes target) in
  let br := index_by (snap_resources base) in let tr := index_by (snap_resources target) in
  let bs := index_by (snap_scroll_intents base) in
  let ts := index_by (snap_scroll_intents target) in
  (if viewport_moves base target then [SetViewport (snap_viewport target)] else []) ++
  (RemoveNode <$> removed_keys bn tn) ++
  (UpsertNode <$> changed_values (λ x y, bool_decide (x = y)) bn tn) ++
  (RemoveResource <$> removed_keys br tr) ++
  (UpsertResource <$> changed_values (λ x y, bool_decide (x = y)) br tr) ++
  (RemoveScrollIntent <$> removed_keys bs ts) ++
  (SetScrollIntent <$> changed_values partial_eq bs ts).

Definition diff_batch (base target : FullRenderSnapshot) : RenderMutationBatch :=
  {| batch_version := RENDER_PROTOCOL_VERSION; batch_base_revision := snap_revision base;
     batch_target_revision := snap_revision target;
     batch_mutations := diff_mutations base target |}.

Lemma between_eq base target :
  between base target = (
  _ ← FullRenderSnapshot_validate base;
  _ ← FullRenderSnapshot_validate target;
  _ ← validate_successor_of (snap_revision target) (snap_revision base);
  _ ← RenderMutationBatch_validate (diff_batch base target);
  Ok (diff_batch base target)).
Proof. done. Qed.

Lemma between_inv base target b :
  between base target = Ok b →
  snapshot_wf base ∧ snapshot_wf target ∧ b = diff_batch base target ∧
  RenderMutationBatch_validate b = Ok tt.
Proof.
  rewrite between_eq. intros H.
  apply bind_Ok in H as ([] & ?%FullRenderSnapshot_validate_iff & H).
  apply bind_Ok in H as ([] & ?%FullRenderSnapshot_validate_iff & H).
  apply bind_Ok in H as ([] & _ & H). apply bind_Ok in H as ([] & ? & [= <-]). done.
Qed.

(** What [diff_mutations] makes of a draft that agrees with [base]. *)
Definition patched {A} `{Keyed A} (eqv : A → A → bool) (base target m : gmap positive A) :=
  insert_all (changed_values eqv base target) (delete_all (removed_keys base target) m).

Definition patched_draft (base target : FullRenderSnapshot) (d : Draft) : Draft :=
  {| draft_viewport := if viewport_moves base target then Some (snap_viewport target)
                       else draft_viewport d;
     draft_nodes := patched (λ x y, bool_decide (x = y)) (index_by (snap_nodes base))
                      (index_by (snap_nodes target)) (draft_nodes d);
     draft_resources := patched (λ x y, bool_decide (x = y)) (index_by (snap_resources base))
                      (index_by (snap_resources target)) (draft_resources d);
     draft_scroll_intents := patched partial_eq (index_by (snap_scroll_intents base))
                      (index_by (snap_scroll_intents target)) (draft_scroll_intents d);
     draft_viewport_mutations := if viewport_moves base target then 1 else 0 |}.

Lemma run_diff base target r :
  viewport_ok (snap_viewport target) → r ≡ replica_of base →
  for_each apply_mutation (draft_of r) (diff_mutations base target) =
  Ok (patched_draft base target (draft_of r)).
Proof.
  intros Hv (_ & _ & Hn & Hr & Hs). unfold diff_mutations. rewrite for_each_app.
  rewrite (bind_run _ (if viewport_moves base target
    then set_draft_viewport (Some (snap_viewport target)) 1 (draft_of r) else draft_of r)).
  2:{ destruct (viewport_moves base target); [|done]. cbn.
      by rewrite (proj2 (RenderViewport_validate_Ok _ tt) Hv). }
  assert (∀ k, is_Some ((index_by (snap_scroll_intents base) : gmap _ RenderScrollIntent) !! k) →
    is_Some (rep_scroll_intents r !! k)) as Hs'.
  { intros k. specialize (Hs k). cbn in Hs. by inversion Hs. }
  rewrite (run_patch nodes_map), (run_patch resources_map).
  - rewrite <-(app_nil_r (SetScrollIntent <$> _)), (run_patch scroll_map).
    + cbn. unfold patched_draft. by destruct (viewport_moves base target).
    + cbn. by destruct (viewport_moves base target).
  - cbn. intros k. destruct (viewport_moves base target); cbn; by rewrite Hr.
  - cbn. intros k. destruct (viewport_moves base target); cbn; by rewrite Hn.
Qed.

Lemma patched_eq {A} `{Keyed A, EqDecision A} (base target : gmap positive A) :
  map_keyed target → patched (λ x y, bool_decide (x = y)) base target base = target.
Proof.
  intros Hk. apply map_eq. intros k.
  pose proof (patch_lookup (=) (λ x y, bool_decide (x = y)) (λ x y, proj1 (bool_decide_eq_true _))
    base base target k Hk (λ j, ltac:(by destruct (base !! j); constructor))) as Hp.
  assert (∀ a b : option A, option_Forall2 (=) a b → a = b) as Heq by (by destruct 1 as [?? ->|]).
  by apply Heq.
Qed.

Lemma insert_all_keyed `{Keyed A} (xs : list A) m : map_keyed m → map_keyed (insert_all xs m).
Proof.
  unfold insert_all. revert m. induction xs as [|x xs IH]; intros m Hm; cbn; [done|].
  apply IH. intros k y [[<- <-]|[? ?]]%lookup_insert_Some; [done | by apply Hm].
Qed.

Lemma delete_all_keyed `{Keyed A} ks (m : gmap positive A) :
  map_keyed m → map_keyed (delete_all ks m).
Proof.
  intros Hm k x. rewrite lookup_delete_all. case_decide; [done|]. apply Hm.
Qed.

Lemma patched_equiv `{Keyed A, PartialEqLaws A} (base target m : gmap positive A) k :
  map_keyed target → (∀ j, option_Forall2 same (m !! j) (base !! j)) →
  option_Forall2 same (patched partial_eq base target m !! k) (target !! k).
Proof. intros Hk Hm. apply (patch_lookup same); [by right | done | done]. Qed.

(** A viewport that changes without its generation makes the batch invalid. *)
Definition viewport_honest (base target : FullRenderSnapshot) : Prop :=
  (snap_viewport base ==? snap_viewport target) = true ∨
  rev_viewport_generation (snap_revision base) ≠ rev_viewport_generation (snap_revision target).

Lemma viewport_flag base target :
  bool_decide (rev_viewport_generation (snap_revision target) ≠
               rev_viewport_generation (snap_revision base)) =
  bool_decide ((if viewport_moves base target then 1 else 0)%N = 1%N) ↔
  viewport_honest base target.
Proof.
  unfold viewport_moves, viewport_honest.
  destruct (snap_viewport base ==? snap_viewport target), (decide
    (rev_viewport_generation (snap_revision base) = rev_viewport_generation (snap_revision target)))
    as [He|He]; repeat case_bool_decide; cbn in *; naive_solver.
Qed.

Lemma patched_replica base target r :
  snapshot_wf target → r ≡ replica_of base → viewport_honest base target →
  replica_of_draft (snap_revision target) (patched_draft base target (draft_of r))
  ≡ replica_of target ∧
  map_state_wf (draft_nodes (patched_draft base target (draft_of r)))
    (draft_resources (patched_draft base target (draft_of r)))
    (draft_scroll_intents (patched_draft base target (draft_of r))).
Proof.
  intros (_ & _ & _ & Hst) (_ & Hv & Hn & Hr & Hs) Hh. cbn in *.
  assert (patched partial_eq (index_by (snap_scroll_intents base))
    (index_by (snap_scroll_intents target)) (rep_scroll_intents r)
    ≡ index_by (snap_scroll_intents target)) as Hp.
  { intros k. apply patched_equiv; [apply index_by_keyed|]. exact Hs. }
  rewrite Hn, Hr, !patched_eq by apply index_by_keyed. split.
  - split_and!; cbn; rewrite ?Hn, ?Hr, ?patched_eq by apply index_by_keyed; try done.
    destruct (viewport_moves base target) eqn:Hm; [done|].
    unfold viewport_moves in Hm. bool_inv. etrans; [exact Hv|]. constructor. by right.
  - eapply map_state_wf_scroll_equiv; [symmetry; exact Hp|]. by apply map_state_wf_index.
Qed.

Lemma between_apply b base target r :
  between base target = Ok b → r ≡ replica_of base →
  (viewport_honest base target ∧ ∃ r', apply_batch b r = (r', Ok (Applied (snap_revision target))) ∧
                                       r' ≡ replica_of target) ∨
  (¬ viewport_honest base target ∧
   apply_batch b r = (r, Err (protocol_error REVISION
     (lit "viewport generation and viewport mutation must advance together")))).
Proof.
  intros (Hbase & Ht & -> & Hb)%between_inv Hr. pose proof Hr as (Hrev & _).
  rewrite apply_batch_eq, Hb. cbn [batch_base_revision diff_batch replica_of rep_revision] in *.
  rewrite bool_decide_eq_false_2 by (rewrite Hrev; auto). unfold batch_draft.
  cbn [batch_mutations batch_target_revision batch_base_revision diff_batch].
  rewrite (bind_run _ _ _ (run_diff base target r ltac:(apply Ht) Hr)).
  cbn [draft_viewport_mutations patched_draft].
  destruct (decide (viewport_honest base target)) as [Hh|Hh].
  - left. split; [done|]. destruct (patched_replica _ _ _ Ht Hr Hh) as [Heq Hwf].
    rewrite bind_throw_if by by apply negb_false_iff, eqb_true_iff, viewport_flag.
    rewrite (bind_run _ tt) by by apply validate_state_iff, Hwf. by eexists.
  - right. split; [done|]. destruct (Bool.eqb _ _) eqn:He; [|done].
    by apply eqb_true_iff, viewport_flag in He.
Qed.

(** ** Revisions are ordered *)

Definition generations_le (a b : RenderRevision) : Prop :=
  Forall2 N.le (generations a) (generations b).

Lemma any_less_false a b : any_less (generations b) (generations a) = false ↔ generations_le a b.
Proof.
  unfold any_less, generations_le, generations. cbn. rewrite !Forall2_cons, Forall2_nil.
  split.
  - intros H. bool_inv. split_and!; done || lia.
  - intros (?&?&?&?&_). repeat (apply orb_false_iff; split); try apply bool_decide_eq_false_2; done || lia.
Qed.

Lemma generations_inj a b :
  same_document a b = true → generations a = generations b → a = b.
Proof.
  unfold same_document, generations. intros Hd [= ? ? ? ?]. bool_inv.
  destruct a, b; cbn in *; congruence.
Qed.

Lemma validate_successor_Ok a b u :
  validate_successor_of a b = Ok u ↔
  RenderRevision_validate a = Ok tt ∧ RenderRevision_validate b = Ok tt ∧
  same_document b a = true ∧ generations_le b a ∧ a ≠ b.
Proof.
  destruct u. unfold validate_successor_of. rewrite <-any_less_false.
  assert (same_document b a = true → a ≠ b ↔ generations a ≠ generations b) as Hne.
  { intros Hd. split; [|naive_solver]. intros Hn He. apply Hn. symmetry. by apply generations_inj. }
  split.
  - intros H. apply bind_Ok in H as ([] & Ha & H). apply bind_Ok in H as ([] & Hb & H). ok_inv.
    assert (same_document b a = true) as Hd.
    { unfold same_document. apply andb_true_iff. split; apply bool_decide_eq_true_2;
        symmetry; by apply dec_stable. }
    split_and!; try done. by apply Hne.
  - intros (Ha & Hb & Hd & Hg & Hab). rewrite (bind_run _ tt), (bind_run _ tt) by done.
    apply Hne in Hab; [|done]. unfold same_document in Hd. bool_inv.
    rewrite bind_throw_if by (guard_side; auto). apply throw_if_run.
    apply orb_false_iff. split; [done|]. by apply bool_decide_eq_false_2.
Qed.

(** [validate_successor_of] is a strict order on revisions: it rejects the revision
    itself, is transitive, and never accepts both directions. *)
Theorem successor_strict_order :
  (∀ a, validate_successor_of a a ≠ Ok tt) ∧
  (∀ a b, validate_successor_of a b = Ok tt → validate_successor_of b a ≠ Ok tt) ∧
  (∀ a b c, validate_successor_of a b = Ok tt → validate_successor_of b c = Ok tt →
            validate_successor_of a c = Ok tt).
Proof.
  assert (∀ a b, generations_le a b → generations_le b a → generations a = generations b) as Hanti.
  { intros a b Hab Hba. unfold generations_le, generations in *.
    rewrite !Forall2_cons in Hab, Hba. destruct Hab as (?&?&?&?&_), Hba as (?&?&?&?&_).
    repeat (apply f_equal2; [lia|]). done. }
  split_and!.
  - intros a (_&_&_&_&?)%validate_successor_Ok. done.
  - intros a b (_&_&Hd&Hab&Hne)%validate_successor_Ok (_&_&_&Hba&_)%validate_successor_Ok.
    apply Hne. symmetry. apply generations_inj; [done|]. by apply Hanti.
  - intros a b c (Ha&_&Hd&Hab&Hne)%validate_successor_Ok (_&Hc&Hd'&Hbc&Hne')%validate_successor_Ok.
    apply validate_successor_Ok. split_and!; try done.
    + unfold same_document in *. bool_inv. apply andb_true_iff.
      split; apply bool_decide_eq_true_2; congruence.
    + unfold generations_le in *. etrans; done.
    + intros ->. apply Hne. symmetry. by apply generations_inj, Hanti.
Qed.

(** ** Each operation is atomic, and the revision identifies the state *)

Lemma btree_eqb_true {V} (eqv : V → V → bool) (m1 m2 : gmap positive V) :
  btree_eqb eqv m1 m2 = true → ∀ k, option_Forall2 (λ x y, eqv x y = true) (m1 !! k) (m2 !! k).
Proof.
  unfold btree_eqb. rewrite list_eqb_Forall2. intros H k.
  assert (∀ k x, m1 !! k = Some x → ∃ y, m2 !! k = Some y ∧ eqv x y = true) as H1.
  { intros j x Hx%elem_of_btree_to_list.
    apply list_elem_of_lookup in Hx as [i Hi].
    destruct (Forall2_lookup_l _ _ _ _ _ H Hi) as ([j' y] & Hj & He). cbn in He. bool_inv. subst.
    exists y. split; [|done]. apply elem_of_btree_to_list. by eapply list_elem_of_lookup_2. }
  assert (∀ k y, m2 !! k = Some y → is_Some (m1 !! k)) as H2.
  { intros j y Hy%elem_of_btree_to_list.
    apply list_elem_of_lookup in Hy as [i Hi].
    destruct (Forall2_lookup_r _ _ _ _ _ H Hi) as ([j' x] & Hj & He). cbn in He. bool_inv. subst.
    exists x. apply elem_of_btree_to_list. by eapply list_elem_of_lookup_2. }
  destruct (m1 !! k) as [x|] eqn:Hx.
  - destruct (H1 _ _ Hx) as (y & -> & ?). by constructor.
  - destruct (m2 !! k) as [y|] eqn:Hy; [|constructor].
    destruct (H2 _ _ Hy) as [? ?]. congruence.
Qed.

Lemma btree_eqb_refl {V} (eqv : V → V → bool) (m : gmap positive V) :
  (∀ k x, m !! k = Some x → eqv x x = true) → btree_eqb eqv m m = true.
Proof.
  intros Hr. unfold btree_eqb. rewrite list_eqb_Forall2. apply Forall_Forall2_diag, Forall_forall.
  intros [k x] Hx%elem_of_btree_to_list. rewrite andb_true_iff. split; [by apply bool_decide_eq_true_2|].
  by eapply Hr.
Qed.

Lemma btree_keys_sorted {V} (m : gmap positive V) : StronglySorted Pos.le (btree_keys m).
Proof.
  unfold btree_keys, btree_to_list.
  assert (StronglySorted key_le (merge_sort key_le (map_to_list m))) as Hs.
  { apply StronglySorted_merge_sort.
    - intros x y z. unfold key_le. lia.
    - intros x y. unfold key_le. lia. }
  induction Hs as [|x l _ IH Hall]; [constructor|]. constructor; [done|].
  apply Forall_fmap. exact Hall.
Qed.

#[local] Instance pos_le_antisymm : AntiSymm (=) Pos.le.
Proof. intros x y. lia. Qed.

(** Maps with the same keys are compared entry by entry. *)
Lemma btree_eqb_iff {V} (eqv : V → V → bool) (m1 m2 : gmap positive V) :
  btree_eqb eqv m1 m2 = true ↔ ∀ k, option_Forall2 (λ x y, eqv x y = true) (m1 !! k) (m2 !! k).
Proof.
  split; [apply btree_eqb_true|]. intros H. unfold btree_eqb. rewrite list_eqb_Forall2.
  assert (btree_keys m1 = btree_keys m2) as Hkeys.
  { apply (StronglySorted_unique Pos.le); [apply btree_keys_sorted..|].
    apply NoDup_Permutation; [apply NoDup_btree_keys..|]. intros k. rewrite !elem_of_btree_keys.
    specialize (H k). destruct H; split; by intros [? ?]. }
  assert (∀ k x, (k, x) ∈ btree_to_list m1 → ∀ y, (k, y) ∈ btree_to_list m2 → eqv x y = true) as Heq.
  { intros k x Hx%elem_of_btree_to_list y Hy%elem_of_btree_to_list. specialize (H k).
    rewrite Hx, Hy in H. by inversion H. }
  unfold btree_keys in Hkeys. revert Hkeys Heq.
  generalize (btree_to_list m1) (btree_to_list m2).
  induction l as [|[k x] l IH]; intros [|[k' y] l'] Hk Heq; try done.
  injection Hk as <- Hk. constructor.
  - rewrite andb_true_iff, bool_decide_eq_true. split; [done|]. apply (Heq k); by left.
  - apply IH; [done|]. intros k' x' Hx y' Hy. apply (Heq k'); by right.
Qed.

Lemma check_current_true r c s :
  rep_revision r = Some c → same_document c (snap_revision s) = true →
  check_current r c s (index_by (snap_nodes s)) (index_by (snap_resources s))
    (index_by (snap_scroll_intents s)) = Ok true → r ≡ replica_of s.
Proof.
  intros Hc Hd H. unfold check_current in H. apply bind_Ok in H as ([] & _ & H).
  case_bool_decide; [|by ok_inv]. destruct (_ && _) eqn:He; [|done]. bool_inv. subst c.
  split_and!; [done| |done|done|].
  - destruct (rep_viewport r); [|done]. constructor. by right.
  - intros k. cbn. match goal with H : btree_eqb _ _ _ = true |- _ =>
      destruct (btree_eqb_true _ _ _ H k); constructor; by right end.
Qed.

Lemma check_current_Ok r c s u :
  rep_revision r = Some c →
  check_current r c s (index_by (snap_nodes s)) (index_by (snap_resources s))
    (index_by (snap_scroll_intents s)) = Ok u →
  generations_le c (snap_revision s) ∧ (u = false → c ≠ snap_revision s).
Proof.
  intros Hc H. unfold check_current in H.
  apply bind_Ok in H as ([] & Hl%throw_if_Ok & H). apply any_less_false in Hl.
  split; [done|]. intros -> ->. rewrite bool_decide_eq_true_2 in H by done.
  by destruct (_ && _).
Qed.

(** Both operations are all or nothing: an error and a resynchronisation request leave the
    replica exactly as it was, and the request names the replica's own revision and the
    rejected base. *)
Theorem replica_atomic r r' :
  (∀ s e, accept_full_snapshot s r = (r', Err e) → r' = r) ∧
  (∀ b e, apply_batch b r = (r', Err e) → r' = r) ∧
  (∀ b q, apply_batch b r = (r', Ok (ResyncRequired q)) →
     r' = r ∧ rep_revision r ≠ Some (batch_base_revision b) ∧
     resync_current_revision q = rep_revision r ∧
     resync_rejected_base_revision q = Some (batch_base_revision b) ∧
     (resync_reason q = MissingState ↔ rep_revision r = None)).
Proof.
  split_and!.
  - intros s e. rewrite accept_full_snapshot_eq. intros H.
    destruct (FullRenderSnapshot_validate s), (snapshot_check r s) as [[]|]; by simplify_eq.
  - intros b e. rewrite apply_batch_eq. intros H.
    destruct (RenderMutationBatch_validate b); [case_bool_decide; [|destruct (batch_draft r b)]|];
      by simplify_eq.
  - intros b q. rewrite apply_batch_eq. intros H.
    destruct (RenderMutationBatch_validate b); [|done].
    case_bool_decide; [|by destruct (batch_draft r b)]. simplify_eq. split_and!; try done.
    cbn. by destruct (rep_revision _).
Qed.

Lemma snapshot_wf_eqb_refl s :
  snapshot_wf s →
  (rep_viewport (replica_of s) ==? Some (snap_viewport s)) = true ∧
  btree_eqb partial_eq (rep_scroll_intents (replica_of s)) (index_by (snap_scroll_intents s)) = true.
Proof.
  intros (_ & _ & Hv & []). split; [by apply viewport_ok_refl|].
  apply btree_eqb_refl. cbn. intros k x Hx. apply lookup_index_by in Hx as [Hx _]; [|done].
  rewrite Forall_forall in wf_scroll_points. apply wf_scroll_points in Hx.
  unfold partial_eq, RenderScrollIntent_eq. rewrite !andb_true_iff, !bool_decide_eq_true.
  split_and!; try done. unfold partial_eq, RenderScrollIntentKind_eq.
  unfold intent_point in Hx. destruct (int_kind x); by apply point_ok_refl.
Qed.

Lemma accept_full_snapshot_shows s r r' u :
  accept_full_snapshot s r = (r', Ok u) →
  snapshot_wf s ∧ r' ≡ replica_of s ∧ accept_full_snapshot s r' = (r', Ok tt).
Proof.
  rewrite !accept_full_snapshot_eq. intros H.
  destruct (FullRenderSnapshot_validate s) as [v|] eqn:Hs; [|done].
  apply FullRenderSnapshot_validate_iff in Hs. split; [done|].
  destruct (snapshot_check r s) as [[]|] eqn:Hc; simplify_eq.
  - rewrite Hc. split; [|done]. unfold snapshot_check in Hc.
    destruct (rep_revision r') as [c|] eqn:Hrev; [|done].
    destruct (same_document c (snap_revision s)) eqn:Hd; [|done]. by eapply check_current_true.
  - split; [done|]. unfold snapshot_check. cbn [rep_revision replica_of].
    assert (same_document (snap_revision s) (snap_revision s) = true) as ->.
    { unfold same_document. by rewrite !bool_decide_eq_true_2. }
    unfold check_current. rewrite bind_throw_if.
    2:{ apply any_less_false. unfold generations_le. reflexivity. }
    rewrite bool_decide_eq_true_2 by done.
    destruct (snapshot_wf_eqb_refl _ Hs) as [-> ->].
    by rewrite !bool_decide_eq_true_2.
Qed.

(** A full snapshot that the replica accepted is what the replica shows, and sending it
    again is accepted and changes nothing; the replica's answer does not depend on the
    representation of equal floats. *)
Theorem accept_full_snapshot_idempotent s r r' :
  accept_full_snapshot s r = (r', Ok tt) →
  r' ≡ replica_of s ∧ accept_full_snapshot s r' = (r', Ok tt).
Proof. by intros (_ & ? & ?)%accept_full_snapshot_shows. Qed.

(** Along every operation the generations of a document never regress, and a replica
    whose revision did not change is the same replica: the revision identifies the state. *)
Theorem replica_step_monotone r r' c c' :
  replica_step r r' → rep_revision r = Some c → rep_revision r' = Some c' →
  same_document c c' = true → generations_le c c' ∧ (c = c' → r' = r).
Proof.
  assert (∀ x, generations_le x x) as Hrefl by (intros x; unfold generations_le; reflexivity).
  intros [s res H|b res H] Hc Hc' Hd.
  - rewrite accept_full_snapshot_eq in H. unfold snapshot_check in H. rewrite Hc in H.
    destruct (FullRenderSnapshot_validate s); [|by simplify_eq].
    destruct (same_document c (snap_revision s)) eqn:Hs.
    + destruct (check_current _ _ _ _ _ _) as [u|] eqn:Hk; [|by simplify_eq].
      apply check_current_Ok in Hk as [Hle Hne]; [|done].
      destruct u; simplify_eq; [done|]. cbn in Hc'. simplify_eq. split; [done|].
      intros ->. by destruct (Hne eq_refl).
    + simplify_eq. cbn in Hc'. simplify_eq. congruence.
  - rewrite apply_batch_eq in H. destruct (RenderMutationBatch_validate b) eqn:Hb; [|by simplify_eq].
    apply batch_validate_Ok in Hb as (_ & (_&_&_&Hle&Hne)%validate_successor_Ok & _).
    case_bool_decide as Hrev; [by simplify_eq|].
    destruct (batch_draft r b); simplify_eq; [|done].
    cbn in Hc'. simplify_eq. split; [done|]. intros He. by destruct Hne.
Qed.

Lemma between_successor base target b :
  between base target = Ok b →
  same_document (snap_revision base) (snap_revision target) = true ∧
  generations_le (snap_revision base) (snap_revision target) ∧
  snap_revision base ≠ snap_revision target.
Proof.
  intros (_ & _ & -> & Hb)%between_inv.
  apply batch_validate_Ok in Hb as (_ & (_&_&?&?&?)%validate_successor_Ok & _).
  split_and!; [done..|]. by apply not_eq_sym.
Qed.

Lemma viewport_equiv_eqb (r : option RenderViewport) (v w : RenderViewport) :
  r ≡ Some v → (r ==? Some w) = (v ==? w).
Proof.
  intros (v' & -> & Hv)%Some_equiv_eq. change ((v' ==? w) = (v ==? w)).
  destruct Hv as [->|Hv]; [done|]. apply eq_true_iff_eq. split; intros Hw.
  - eapply eqb_trans; [apply eqb_sym, Hv | exact Hw].
  - eapply eqb_trans; [exact Hv | exact Hw].
Qed.

(** How a replica that shows [base] judges a full snapshot of a successor revision. *)
Lemma snapshot_check_successor base target r :
  same_document (snap_revision base) (snap_revision target) = true →
  generations_le (snap_revision base) (snap_revision target) →
  snap_revision base ≠ snap_revision target →
  r ≡ replica_of base →
  snapshot_check r target =
  if decide (viewport_honest base target) then Ok false
  else Err (protocol_error REVISION
              (lit "full render snapshot changed viewport without advancing its generation")).
Proof.
  intros Hd Hle Hne (Hrev & Hv & _). cbn in Hrev, Hv. unfold snapshot_check. rewrite Hrev, Hd.
  unfold check_current. rewrite bind_throw_if by by apply any_less_false.
  rewrite bool_decide_eq_false_2 by done. rewrite (viewport_equiv_eqb _ _ _ Hv).
  unfold viewport_honest.
  destruct (snap_viewport base ==? snap_viewport target).
  - rewrite decide_True by by left. by rewrite andb_false_r.
  - case_bool_decide; [rewrite decide_False by naive_solver|rewrite decide_True by naive_solver]; done.
Qed.

(** C6. Incremental and full updates agree: on a replica that shows [base], the batch
    [between base target] applies and leaves the replica that the full snapshot [target]
    leaves, which shows [target]. *)
Theorem incremental_equals_full base target b r :
  between base target = Ok b → r ≡ replica_of base → viewport_honest base target →
  ∃ r1 r2, apply_batch b r = (r1, Ok (Applied (snap_revision target))) ∧
           accept_full_snapshot target r = (r2, Ok tt) ∧
           r1 ≡ r2 ∧ r2 ≡ replica_of target.
Proof.
  intros Hb Hr Hh. pose proof (between_inv _ _ _ Hb) as (_ & Ht & _).
  destruct (between_successor _ _ _ Hb) as (Hd & Hle & Hne).
  destruct (between_apply _ _ _ _ Hb Hr) as [(_ & r' & Ha & Heq)|[? _]]; [|done].
  exists r', (replica_of target). split_and!; try done.
  rewrite accept_full_snapshot_eq. rewrite (proj2 (FullRenderSnapshot_validate_iff _ tt) Ht).
  by rewrite (snapshot_check_successor base), decide_True.
Qed.

(** A viewport that changed without its generation is refused on both paths, with the
    replica unchanged. *)
Theorem viewport_advances_with_generation base target b r :
  between base target = Ok b → r ≡ replica_of base → ¬ viewport_honest base target →
  apply_batch b r = (r, Err (protocol_error REVISION
     (lit "viewport generation and viewport mutation must advance together"))) ∧
  accept_full_snapshot target r = (r, Err (protocol_error REVISION
     (lit "full render snapshot changed viewport without advancing its generation"))).
Proof.
  intros Hb Hr Hh. pose proof (between_inv _ _ _ Hb) as (_ & Ht & _).
  destruct (between_successor _ _ _ Hb) as (Hd & Hle & Hne).
  destruct (between_apply _ _ _ _ Hb Hr) as [[? _]|[_ ->]]; [done|]. split; [done|].
  rewrite accept_full_snapshot_eq. rewrite (proj2 (FullRenderSnapshot_validate_iff _ tt) Ht).
  by rewrite (snapshot_check_successor base), decide_False.
Qed.

(** Between well-formed snapshots of successive revisions [between] can only fail because
    the difference is larger than a batch may be. *)
Theorem between_total base target :
  snapshot_wf base → snapshot_wf target →
  validate_successor_of (snap_revision target) (snap_revision base) = Ok tt →
  between base target =
  if decide (len (diff_mutations base target) ≤ RENDER_MAX_MUTATIONS)%N
  then Ok (diff_batch base target)
  else Err (limit_error (lit "mutation") (len (diff_mutations base target)) RENDER_MAX_MUTATIONS).
Proof.
  intros Hb Ht Hs. rewrite between_eq.
  rewrite (bind_run _ tt), (bind_run _ tt) by by apply FullRenderSnapshot_validate_iff.
  rewrite (bind_run _ tt) by done.
  unfold RenderMutationBatch_validate. cbn [batch_version batch_target_revision diff_batch
    batch_base_revision batch_mutations].
  rewrite (bind_run (validate_version _) tt) by by apply validate_version_Ok.
  rewrite (bind_run (validate_successor_of _ _) tt) by done.
  unfold check_limit. case_decide.
  - by rewrite bool_decide_eq_false_2 by lia.
  - by rewrite bool_decide_eq_true_2 by lia.
Qed.

(** ** Ancestor walks *)

(** [nearest nodes stop id a]: [a] is the first node on the parent chain from [id], itself
    included, that satisfies [stop]. *)
Inductive nearest (nodes : gmap positive RenderNode) (stop : RenderNode → bool)
    : RenderNodeId → RenderNodeId → Prop :=
| nearest_here id node :
    nodes !! id = Some node → stop node = true → nearest nodes stop id id
| nearest_up id node parent a :
    nodes !! id = Some node → stop node = false → node_parent_id node = Some parent →
    nearest nodes stop parent a → nearest nodes stop id a.

Lemma map_state_wf_parent nodes resources scroll id node p :
  map_state_wf nodes resources scroll → nodes !! id = Some node → node_parent_id node = Some p →
  ∃ parent, nodes !! p = Some parent ∧ node_depth node = (node_depth parent + 1)%N.
Proof.
  intros (Hk & _ & _ & []) Hid Hp. rewrite Forall_forall in wf_parents.
  assert (node ∈ btree_values nodes) as Hin by (apply elem_of_btree_values; by exists id).
  apply wf_parents in Hin. unfold parent_ok in Hin. rewrite Hp in Hin.
  destruct Hin as (parent & (k & Hpk)%elem_of_btree_values & <- & Hd).
  exists parent. split; [|done].
  pose proof (Hk _ _ Hpk) as Hkk. change (node_id parent = k) in Hkk. by rewrite Hkk.
Qed.

Lemma map_state_wf_depth nodes resources scroll id node :
  map_state_wf nodes resources scroll → nodes !! id = Some node →
  (node_depth node ≤ RENDER_MAX_TREE_DEPTH)%N.
Proof.
  intros (_ & _ & _ & []) Hid. rewrite Forall_forall in wf_node_ok.
  apply (wf_node_ok node), elem_of_btree_values. by exists id.
Qed.

Lemma nearest_walk_complete nodes resources scroll stop fuel id a node :
  map_state_wf nodes resources scroll → nodes !! id = Some node →
  (node_depth node < N.of_nat fuel)%N →
  nearest_walk nodes stop fuel (Some id) = Some a ↔ nearest nodes stop id a.
Proof.
  intros Hwf. revert id node. induction fuel as [|fuel IH]; intros id node Hid Hf; [lia|].
  cbn. rewrite Hid. cbn. destruct (stop node) eqn:Hs.
  - split.
    + intros [= <-]. by eapply nearest_here.
    + destruct 1; [done | congruence].
  - destruct (node_parent_id node) as [p|] eqn:Hp.
    + destruct (map_state_wf_parent _ _ _ _ _ _ Hwf Hid Hp) as (parent & Hpp & Hd).
      rewrite (IH p parent) by (done || lia). split.
      * intros. by eapply nearest_up.
      * destruct 1; congruence.
    + assert (nearest_walk nodes stop fuel None = None) as -> by (by destruct fuel).
      split; [done|]. destruct 1; congruence.
Qed.

(** In every reachable state the bounded ancestor walks find the nearest semantic (element)
    ancestor whenever there is one: 257 iterations are enough, and [None] means that the
    chain of parents has none. *)
Theorem nearest_complete r id a :
  replica_reachable r →
  (nearest_semantic_node_id r id = Some a ↔ nearest (rep_nodes r) is_semantic id a) ∧
  (nearest_element_node_id r id = Some a ↔ nearest (rep_nodes r) is_element id a).
Proof.
  intros Hr. assert (replica_wf r) as Hwf by by apply replica_reachable_inv.
  assert (∀ stop, nearest_walk (rep_nodes r) stop nearest_fuel (Some id) = Some a ↔
    nearest (rep_nodes r) stop id a) as Hstop; [|split; apply Hstop].
  intros stop. destruct (rep_nodes r !! id) as [node|] eqn:Hid.
  - unfold replica_wf in Hwf. destruct (rep_revision r); [|by subst].
    destruct Hwf as (_ & _ & Hwf). eapply nearest_walk_complete; [done..|].
    pose proof (map_state_wf_depth _ _ _ _ _ Hwf Hid).
    unfold nearest_fuel, RENDER_MAX_TREE_DEPTH in *. lia.
  - cbn. rewrite Hid. split; [done|]. destruct 1; congruence.
Qed.

(** ** Witnesses: a two-node page, edited *)

Definition sample_revision (n : N) : RenderRevision :=
  {| rev_context_id := 1; rev_document_id := 2; rev_source_generation := n;
     rev_style_generation := n; rev_viewport_generation := n; rev_resource_generation := n |}.

Definition sample_viewport (w : N) : RenderViewport :=
  {| vp_width := w; vp_height := 600; vp_device_scale := f64_of_Z 1; vp_page_zoom := f64_of_Z 1 |}.

Definition sample_semantic : RenderSemanticNode :=
  {| sem_id := 7; sem_role := lit "button"; sem_name := lit "Go"; sem_value := Some (lit "old");
     sem_action_generation := 3; sem_actions := [KActivate; KSetValue; KSetSelection] |}.

Definition sample_button : RenderNode :=
  {| node_id := 1; node_parent_id := None; node_sibling_index := 0; node_depth := 0;
     node_kind := Element (lit "button");
     node_styles := [{| sty_name := lit "color"; sty_value := lit "red" |}];
     node_resource_ids := [4%positive]; node_semantic := Some sample_semantic |}.

Definition sample_text (s : string) : RenderNode :=
  {| node_id := 2; node_parent_id := Some 1%positive; node_sibling_index := 0; node_depth := 1;
     node_kind := Text (lit s); node_styles := []; node_resource_ids := []; node_semantic := None |}.

Definition sample_resource : RenderResource :=
  {| res_id := 4; res_kind := Image; res_mime := lit "image/png"; res_bytes := [Byte.x00] |}.

Definition sample_intent : RenderScrollIntent :=
  {| int_scroll_node_id := 9; int_node_id := 1;
     int_kind := To {| pt_x := f64_zero; pt_y := f64_of_Z 40 |} |}.

Definition sample_base : FullRenderSnapshot :=
  {| snap_version := 1; snap_revision := sample_revision 1; snap_viewport := sample_viewport 800;
     snap_nodes := [sample_button; sample_text "old"]; snap_resources := [sample_resource];
     snap_scroll_intents := [] |}.

Definition sample_target (gen w : N) : FullRenderSnapshot :=
  {| snap_version := 1;
     snap_revision := {| rev_context_id := 1; rev_document_id := 2; rev_source_generation := 2;
       rev_style_generation := 1; rev_viewport_generation := gen; rev_resource_generation := 1 |};
     snap_viewport := sample_viewport w;
     snap_nodes := [sample_button; sample_text "new"]; snap_resources := [sample_resource];
     snap_scroll_intents := [sample_intent] |}.

Definition sample_replica : RenderReplica :=
  (accept_full_snapshot sample_base RenderReplica_default).1.

Definition sample_batch (gen w : N) : RenderMutationBatch := diff_batch sample_base (sample_target gen w).

Lemma sample_replica_eq : sample_replica = replica_of sample_base.
Proof.
  unfold sample_replica. rewrite accept_full_snapshot_eq.
  assert (FullRenderSnapshot_validate sample_base = Ok tt) as -> by (vm_compute; reflexivity).
  done.
Qed.

Lemma sample_reachable : replica_reachable sample_replica.
Proof.
  apply rtc_once. eapply (step_snapshot _ _ sample_base). apply surjective_pairing.
Qed.

Lemma sample_between gen w :
  (gen = 1 ∨ gen = 2)%N → (w = 800 ∨ w = 900)%N → between sample_base (sample_target gen w) = Ok (sample_batch gen w).
Proof. intros [-> | ->] [-> | ->]; rewrite between_eq; vm_compute; reflexivity. Qed.

Lemma replica_reachable_wf_witness :
  replica_reachable sample_replica ∧ replica_wf sample_replica.
Proof. split; [exact sample_reachable | exact (replica_reachable_wf _ sample_reachable)]. Defined.

Lemma replica_step_monotone_witness :
  let r' := (apply_batch (sample_batch 2 900) sample_replica).1 in
  rep_revision r' = Some (snap_revision (sample_target 2 900)) ∧
  generations_le (sample_revision 1) (snap_revision (sample_target 2 900)).
Proof.
  assert (rep_revision (apply_batch (sample_batch 2 900) sample_replica).1 =
          Some (snap_revision (sample_target 2 900))) as H by (vm_compute; reflexivity).
  split; [exact H|].
  refine (proj1 (replica_step_monotone sample_replica _ (sample_revision 1) _
    (step_batch _ _ (sample_batch 2 900) _ (surjective_pairing _)) _ H eq_refl)).
  rewrite sample_replica_eq. reflexivity.
Defined.

Lemma incremental_equals_full_witness :
  ∃ r1 r2,
    apply_batch (sample_batch 2 900) sample_replica =
      (r1, Ok (Applied (snap_revision (sample_target 2 900)))) ∧
    accept_full_snapshot (sample_target 2 900) sample_replica = (r2, Ok tt) ∧
    r1 ≡ r2 ∧ r2 ≡ replica_of (sample_target 2 900).
Proof.
  apply (incremental_equals_full sample_base).
  - apply sample_between; [by right | by right].
  - by rewrite sample_replica_eq.
  - right. by vm_compute.
Defined.

Lemma accept_full_snapshot_idempotent_witness :
  sample_replica ≡ replica_of sample_base ∧
  accept_full_snapshot sample_base sample_replica = (sample_replica, Ok tt).
Proof.
  apply (accept_full_snapshot_idempotent sample_base RenderReplica_default).
  rewrite sample_replica_eq, accept_full_snapshot_eq.
  assert (FullRenderSnapshot_validate sample_base = Ok tt) as -> by (vm_compute; reflexivity).
  reflexivity.
Defined.

Lemma viewport_advances_with_generation_witness :
  apply_batch (sample_batch 1 900) sample_replica =
    (sample_replica, Err (protocol_error REVISION
       (lit "viewport generation and viewport mutation must advance together"))).
Proof.
  refine (proj1 (viewport_advances_with_generation sample_base (sample_target 1 900) _ _ _ _ _)).
  - apply sample_between; [by left | by right].
  - by rewrite sample_replica_eq.
  - intros [H|H]; [by vm_compute in H | by apply H].
Defined.

Lemma between_total_witness :
  between sample_base (sample_target 2 900) = Ok (sample_batch 2 900).
Proof.
  rewrite between_total.
  - by vm_compute.
  - apply (FullRenderSnapshot_validate_iff _ tt). by vm_compute.
  - apply (FullRenderSnapshot_validate_iff _ tt). by vm_compute.
  - by vm_compute.
Defined.

Lemma nearest_complete_witness :
  nearest (rep_nodes sample_replica) is_semantic 2 1.
Proof.
  refine (proj1 (proj1 (nearest_complete sample_replica 2 1 sample_reachable)) _).
  by vm_compute.
Defined.
