(* ===== verification/RenderCommit.v ===== *)
(** * Renderer commits, presentation, queries, input and semantic actions

    [crates/vixen-api/src/render/commit.rs], definitions only: the validation of a commit
    against the source replica and [RenderCommitState], the acceptance state of completed and
    displayed commits with its two replay ledgers.  The theorems are in [RenderCommitFacts]. *)

From stdpp Require Import base decidable gmap sets list strings.
From S2P Require Import Prelude.
From S2P Require Import RustFloat.
From S2P Require Import RenderModel.
From S2P Require Import RenderSource.
Import render_error_codes.

(** ** Commits *)

Record RenderGeometryEntry : Type := {
  geo_node_id : RenderNodeId;
  geo_fragment_id : RenderFragmentId;
  geo_border_box : RenderRect;
  geo_padding_box : RenderRect;
  geo_content_box : RenderRect;
  geo_clip : option RenderRect;
  geo_scroll_node_id : option RenderScrollNodeId;
  geo_paint_order : N;
}.

Definition RenderGeometryEntry_validate (self : RenderGeometryEntry) : presult unit :=
  _ ← RenderRect_validate (geo_border_box self) (lit "geometry border box");
  _ ← RenderRect_validate (geo_padding_box self) (lit "geometry padding box");
  _ ← RenderRect_validate (geo_content_box self) (lit "geometry content box");
  match geo_clip self with
  | Some clip => RenderRect_validate clip (lit "geometry clip")
  | None => Ok tt
  end.

Record RenderScrollState : Type := {
  ss_scroll_node_id : RenderScrollNodeId;
  ss_node_id : RenderNodeId;
  ss_offset : RenderPoint;
  ss_max_offset : RenderPoint;
  ss_viewport : RenderRect;
  ss_content_size : RenderSize;
}.

Definition RenderScrollState_validate (self : RenderScrollState) : presult unit :=
  _ ← RenderPoint_validate (ss_offset self) (lit "scroll offset");
  _ ← RenderPoint_validate (ss_max_offset self) (lit "scroll maximum offset");
  _ ← RenderRect_validate (ss_viewport self) (lit "scroll viewport");
  _ ← RenderSize_validate (ss_content_size self) (lit "scroll content size");
  throw_if (f64_ltb (pt_x (ss_offset self)) f64_zero ||
            f64_ltb (pt_y (ss_offset self)) f64_zero ||
            f64_ltb (pt_x (ss_max_offset self)) f64_zero ||
            f64_ltb (pt_y (ss_max_offset self)) f64_zero ||
            f64_gtb (pt_x (ss_offset self)) (pt_x (ss_max_offset self)) ||
            f64_gtb (pt_y (ss_offset self)) (pt_y (ss_max_offset self)))
    (protocol_error INVALID_GEOMETRY
       (lit "scroll offset must be within its non-negative maximum")).

Record RenderSemanticBounds : Type := {
  sb_semantic_node_id : SemanticNodeId;
  sb_node_id : RenderNodeId;
  sb_rects : list RenderRect;
}.

Record RenderCommit : Type := {
  commit_version : N;
  commit_id : RenderCommitId;
  commit_revision : RenderRevision;
  commit_viewport : RenderViewport;
  geometry_index : list RenderGeometryEntry;
  hit_test_handle : RenderHitTestHandle;
  text_query_handle : RenderTextQueryHandle;
  scroll_snapshot : list RenderScrollState;
  semantic_bounds : list RenderSemanticBounds;
  truncations : list RenderTruncationDiagnostic;
}.

(** The derived [PartialEq] instances. *)
#[export] Instance RenderGeometryEntry_eq : PartialEq RenderGeometryEntry := λ a b,
  bool_decide (geo_node_id a = geo_node_id b) && bool_decide (geo_fragment_id a = geo_fragment_id b) &&
  (geo_border_box a ==? geo_border_box b) && (geo_padding_box a ==? geo_padding_box b) &&
  (geo_content_box a ==? geo_content_box b) && (geo_clip a ==? geo_clip b) &&
  bool_decide (geo_scroll_node_id a = geo_scroll_node_id b) &&
  bool_decide (geo_paint_order a = geo_paint_order b).
#[export] Instance RenderScrollState_eq : PartialEq RenderScrollState := λ a b,
  bool_decide (ss_scroll_node_id a = ss_scroll_node_id b) &&
  bool_decide (ss_node_id a = ss_node_id b) && (ss_offset a ==? ss_offset b) &&
  (ss_max_offset a ==? ss_max_offset b) && (ss_viewport a ==? ss_viewport b) &&
  (ss_content_size a ==? ss_content_size b).
#[export] Instance RenderSemanticBounds_eq : PartialEq RenderSemanticBounds := λ a b,
  bool_decide (sb_semantic_node_id a = sb_semantic_node_id b) &&
  bool_decide (sb_node_id a = sb_node_id b) && (sb_rects a ==? sb_rects b).
#[export] Instance RenderCommit_eq : PartialEq RenderCommit := λ a b,
  bool_decide (commit_version a = commit_version b) && bool_decide (commit_id a = commit_id b) &&
  bool_decide (commit_revision a = commit_revision b) && (commit_viewport a ==? commit_viewport b) &&
  (geometry_index a ==? geometry_index b) &&
  bool_decide (hit_test_handle a = hit_test_handle b) &&
  bool_decide (text_query_handle a = text_query_handle b) &&
  (scroll_snapshot a ==? scroll_snapshot b) && (semantic_bounds a ==? semantic_bounds b) &&
  bool_decide (truncations a = truncations b).

(** [truncations.iter().find(|t| t.required || !allow_truncation)] *)
Definition disallowed_truncation (allow_truncation : bool) (l : list RenderTruncationDiagnostic)
    : option RenderTruncationDiagnostic :=
  snd <$> list_find (λ t, trunc_required t || negb allow_truncation = true) l.

Definition validate_truncations (truncations : list RenderTruncationDiagnostic)
    (allow_truncation : bool) : presult unit :=
  _ ← check_limit (lit "truncation diagnostic") (len truncations) RENDER_MAX_TRUNCATION_DIAGNOSTICS;
  match disallowed_truncation allow_truncation truncations with
  | Some truncation =>
      Err (protocol_error TRUNCATED_REQUIRED
        (lit "disallowed " ++ domain_debug (trunc_domain truncation) ++ lit " truncation omitted " ++
         dec (trunc_omitted truncation) ++ lit " entries at limit " ++ dec (trunc_limit truncation)))
  | None => Ok tt
  end.

(** The three loops of [RenderCommit::validate]. *)
Definition check_scroll_state (source : RenderReplica) (scroll_ids : gset positive)
    (scroll : RenderScrollState) : presult (gset positive) :=
  _ ← RenderScrollState_validate scroll;
  _ ← throw_if (negb (contains_node source (ss_node_id scroll)))
        (unknown_id_error (lit "scroll render node") (ss_node_id scroll));
  _ ← throw_if (bool_decide (ss_scroll_node_id scroll ∈ scroll_ids))
        (duplicate_id_error (lit "render scroll node") (ss_scroll_node_id scroll));
  Ok ({[ss_scroll_node_id scroll]} ∪ scroll_ids).

Definition check_geometry (source : RenderReplica) (scroll_ids : gset positive)
    (fragment_ids : gset positive) (geometry : RenderGeometryEntry) : presult (gset positive) :=
  _ ← RenderGeometryEntry_validate geometry;
  _ ← throw_if (negb (contains_node source (geo_node_id geometry)))
        (unknown_id_error (lit "geometry render node") (geo_node_id geometry));
  _ ← throw_if (bool_decide (geo_fragment_id geometry ∈ fragment_ids))
        (duplicate_id_error (lit "render fragment") (geo_fragment_id geometry));
  _ ← match geo_scroll_node_id geometry with
      | Some scroll_node_id =>
          throw_if (bool_decide (scroll_node_id ∉ scroll_ids))
            (unknown_id_error (lit "geometry scroll node") scroll_node_id)
      | None => Ok tt
      end;
  Ok ({[geo_fragment_id geometry]} ∪ fragment_ids).

(** ([semantic_ids], [semantic_rects]) *)
Definition check_semantic_bounds (source : RenderReplica) (s : gset positive * N)
    (bounds : RenderSemanticBounds) : presult (gset positive * N) :=
  let '(semantic_ids, semantic_rects) := s in
  _ ← throw_if (bool_decide (sb_semantic_node_id bounds ∈ semantic_ids))
        (duplicate_id_error (lit "semantic bounds") (sb_semantic_node_id bounds));
  _ ← throw_if (negb (node_has_semantic_node source (sb_node_id bounds) (sb_semantic_node_id bounds)))
        (unknown_id_error (lit "semantic bounds node") (sb_semantic_node_id bounds));
  semantic_rects ← ok_or (checked_add semantic_rects (len (sb_rects bounds)))
        (limit_error (lit "semantic rectangle") usize_max RENDER_MAX_GEOMETRY_ENTRIES);
  _ ← check_limit (lit "semantic rectangle") semantic_rects RENDER_MAX_GEOMETRY_ENTRIES;
  _ ← for_each (λ _ rect, RenderRect_validate rect (lit "semantic bounds")) tt (sb_rects bounds);
  Ok ({[sb_semantic_node_id bounds]} ∪ semantic_ids, semantic_rects).

Definition RenderCommit_validate (self : RenderCommit) (source : RenderReplica) : presult unit :=
  _ ← validate_version (commit_version self);
  _ ← RenderRevision_validate (commit_revision self);
  _ ← throw_if (bool_decide (rep_revision source ≠ Some (commit_revision self)))
        (protocol_error STALE (lit "render commit does not match the current source revision"));
  _ ← RenderViewport_validate (commit_viewport self);
  _ ← throw_if (negb (rep_viewport source ==? Some (commit_viewport self)))
        (protocol_error STALE
           (lit "render commit viewport does not match BrowserCore's source viewport"));
  _ ← check_limit (lit "geometry entry") (len (geometry_index self)) RENDER_MAX_GEOMETRY_ENTRIES;
  _ ← check_limit (lit "scroll entry") (len (scroll_snapshot self)) RENDER_MAX_SCROLL_ENTRIES;
  _ ← check_limit (lit "semantic bounds") (len (semantic_bounds self)) RENDER_MAX_SEMANTIC_BOUNDS;
  _ ← validate_truncations (truncations self) false;
  scroll_ids ← for_each (check_scroll_state source) ∅ (scroll_snapshot self);
  _ ← for_each (check_geometry source scroll_ids) ∅ (geometry_index self);
  _ ← for_each (check_semantic_bounds source) (∅, 0%N) (semantic_bounds self);
  Ok tt.

(** ** Messages *)

Record RenderPresented : Type := {
  pres_version : N;
  pres_context_id : BrowsingContextId;
  pres_document_id : DocumentId;
  pres_commit_id : RenderCommitId;
  pres_revision : RenderRevision;
}.
#[export] Instance RenderPresented_eq_dec : EqDecision RenderPresented.
Proof. solve_decision. Defined.

Record RenderHitTestQuery : Type := {
  ht_version : N;
  ht_query_id : RenderQueryId;
  ht_context_id : BrowsingContextId;
  ht_document_id : DocumentId;
  ht_displayed_commit_id : RenderCommitId;
  ht_revision : RenderRevision;
  ht_handle : RenderHitTestHandle;
  ht_point : RenderPoint;
}.

Record RenderInputTarget : Type := {
  it_version : N;
  it_query_id : RenderQueryId;
  it_context_id : BrowsingContextId;
  it_document_id : DocumentId;
  it_displayed_commit_id : RenderCommitId;
  it_revision : RenderRevision;
  it_handle : RenderHitTestHandle;
  it_node_id : RenderNodeId;
  it_fragment_id : RenderFragmentId;
  it_viewport_point : RenderPoint;
  it_local_point : RenderPoint;
}.

Inductive RenderTextAffinity : Type := Upstream | Downstream.
Inductive RenderTextDirection : Type := LeftToRight | RightToLeft.

Inductive RenderTextQueryKind : Type :=
| OffsetForPoint (point : RenderPoint)
| CaretForOffset (utf16_offset : N) (affinity : RenderTextAffinity)
| RangeBoxes (utf16_start utf16_end : N).

Record RenderTextQuery : Type := {
  tq_query_id : RenderQueryId;
  tq_node_id : RenderNodeId;
  tq_kind : RenderTextQueryKind;
}.
#[export] Instance RenderTextQuery_keyed : Keyed RenderTextQuery := tq_query_id.

Record RenderTextQueryBatch : Type := {
  tqb_version : N;
  tqb_context_id : BrowsingContextId;
  tqb_document_id : DocumentId;
  tqb_commit_id : RenderCommitId;
  tqb_revision : RenderRevision;
  tqb_handle : RenderTextQueryHandle;
  tqb_allow_truncation : bool;
  tqb_queries : list RenderTextQuery;
}.

Record RenderTextBox : Type := { tb_rect : RenderRect; tb_direction : RenderTextDirection }.

Inductive RenderTextQueryValue : Type :=
| VOffset (utf16_offset : N) (affinity : RenderTextAffinity)
| VCaret (rect : RenderRect) (affinity : RenderTextAffinity)
| VRangeBoxes (boxes : list RenderTextBox).

Record RenderTextQueryResult : Type := {
  tqr_query_id : RenderQueryId;
  tqr_value : RenderTextQueryValue;
}.

Record RenderTextQueryBatchResult : Type := {
  tqbr_version : N;
  tqbr_context_id : BrowsingContextId;
  tqbr_document_id : DocumentId;
  tqbr_commit_id : RenderCommitId;
  tqbr_revision : RenderRevision;
  tqbr_results : list RenderTextQueryResult;
  tqbr_truncations : list RenderTruncationDiagnostic;
}.

Inductive RenderScrollCommandKind : Type :=
| ScrollBy (delta : RenderPoint)
| ScrollTo (offset : RenderPoint)
| ScrollRestore (offset : RenderPoint).

Record RenderScrollCommand : Type := {
  sc_version : N;
  sc_command_id : RenderScrollCommandId;
  sc_context_id : BrowsingContextId;
  sc_document_id : DocumentId;
  sc_displayed_commit_id : RenderCommitId;
  sc_revision : RenderRevision;
  sc_scroll_node_id : RenderScrollNodeId;
  sc_kind : RenderScrollCommandKind;
}.

Inductive RenderSemanticAction : Type :=
| Activate | Focus | SetValue (value : rstr)
| SetSelection (base_offset extent_offset : N)
| Increase | Decrease | ScrollIntoView.
#[export] Instance RenderSemanticAction_eq_dec : EqDecision RenderSemanticAction.
Proof. solve_decision. Defined.

(** [RenderSemanticAction::kind] *)
Definition action_kind (self : RenderSemanticAction) : RenderSemanticActionKind :=
  match self with
  | Activate => KActivate
  | Focus => KFocus
  | SetValue _ => KSetValue
  | SetSelection _ _ => KSetSelection
  | Increase => KIncrease
  | Decrease => KDecrease
  | ScrollIntoView => KScrollIntoView
  end.

Definition RenderSemanticAction_validate (self : RenderSemanticAction) : presult unit :=
  match self with
  | SetValue value =>
      check_limit (lit "semantic action value byte") (str_len value)
        RENDER_MAX_SEMANTIC_VALUE_BYTES
  | _ => Ok tt
  end.

Record RenderSemanticActionTarget : Type := {
  sat_version : N;
  sat_request_id : SemanticActionRequestId;
  sat_context_id : BrowsingContextId;
  sat_document_id : DocumentId;
  sat_displayed_commit_id : RenderCommitId;
  sat_revision : RenderRevision;
  sat_semantic_node_id : SemanticNodeId;
  sat_action_generation : N;
  sat_action : RenderSemanticAction;
}.

Record RenderHandleRelease : Type := {
  rel_version : N;
  rel_commit_id : RenderCommitId;
  rel_hit_test_handle : RenderHitTestHandle;
  rel_text_query_handle : RenderTextQueryHandle;
}.
#[export] Instance RenderHandleRelease_eq_dec : EqDecision RenderHandleRelease.
Proof. solve_decision. Defined.

(** ** The acceptance state *)

Record RenderCommitState : Type := {
  accepted : option RenderCommit;
  presented : option RenderCommit;
  seen_scroll_commands : gset RenderScrollCommandId;
  seen_semantic_actions : gset SemanticActionRequestId;
}.

(** [RenderCommitState::default()] *)
Definition RenderCommitState_default : RenderCommitState :=
  {| accepted := None; presented := None; seen_scroll_commands := ∅; seen_semantic_actions := ∅ |}.

Definition set_accepted (v : option RenderCommit) (s : RenderCommitState) : RenderCommitState :=
  {| accepted := v; presented := presented s; seen_scroll_commands := seen_scroll_commands s;
     seen_semantic_actions := seen_semantic_actions s |}.
Definition set_presented (v : option RenderCommit) (s : RenderCommitState) : RenderCommitState :=
  {| accepted := accepted s; presented := v; seen_scroll_commands := seen_scroll_commands s;
     seen_semantic_actions := seen_semantic_actions s |}.
Definition set_seen_scroll_commands (v : gset positive) (s : RenderCommitState) : RenderCommitState :=
  {| accepted := accepted s; presented := presented s; seen_scroll_commands := v;
     seen_semantic_actions := seen_semantic_actions s |}.
Definition set_seen_semantic_actions (v : gset positive) (s : RenderCommitState)
    : RenderCommitState :=
  {| accepted := accepted s; presented := presented s;
     seen_scroll_commands := seen_scroll_commands s; seen_semantic_actions := v |}.

Definition accepted_commit_id (self : RenderCommitState) : option RenderCommitId :=
  commit_id <$> accepted self.
Definition presented_commit_id (self : RenderCommitState) : option RenderCommitId :=
  commit_id <$> presented self.

(** [Option::is_some_and] and [Option::is_none_or] *)
Definition is_some_and {A} (o : option A) (f : A → bool) : bool :=
  match o with Some a => f a | None => false end.
Definition is_none_or {A} (o : option A) (f : A → bool) : bool :=
  match o with Some a => f a | None => true end.

Definition release_of (commit : RenderCommit) : RenderHandleRelease :=
  {| rel_version := RENDER_PROTOCOL_VERSION; rel_commit_id := commit_id commit;
     rel_hit_test_handle := hit_test_handle commit;
     rel_text_query_handle := text_query_handle commit |}.

(** The new value of [*releases] is the result. *)
Definition push_unique_release (releases : list RenderHandleRelease) (commit : option RenderCommit)
    : list RenderHandleRelease :=
  match commit with
  | None => releases
  | Some commit =>
      if existsb (λ release, bool_decide (rel_commit_id release = commit_id commit)) releases
      then releases
      else releases ++ [release_of commit]
  end.

Definition accept_commit (source : RenderReplica) (commit : RenderCommit)
    : M RenderCommitState RenderProtocolError (list RenderHandleRelease) :=
  _ ← lift (RenderCommit_validate commit source);
  self ← get;
  let replacing_document := is_some_and (accepted self) (λ accepted,
    bool_decide (rev_context_id (commit_revision accepted) ≠ rev_context_id (commit_revision commit)) ||
    bool_decide (rev_document_id (commit_revision accepted) ≠ rev_document_id (commit_revision commit))) in
  _ ← lift (throw_if
    (negb replacing_document &&
     is_some_and (accepted self) (λ accepted,
       bool_decide (id_get (commit_id commit) ≤ id_get (commit_id accepted))%N))
    (protocol_error STALE
       (lit "render commit " ++ id_display (commit_id commit) ++
        lit " is replayed or superseded")));
  releases ←
    (if replacing_document then
       let releases := push_unique_release [] (accepted self) in
       let releases := push_unique_release releases (presented self) in
       _ ← modify (set_presented None);
       _ ← modify (set_seen_scroll_commands ∅);
       _ ← modify (set_seen_semantic_actions ∅);
       mret releases
     else if is_some_and (accepted self) (λ accepted,
               is_none_or (presented self) (λ presented,
                 bool_decide (commit_id presented ≠ commit_id accepted)))
     then mret (push_unique_release [] (accepted self))
     else mret []);
  _ ← modify (set_accepted (Some commit));
  mret releases.

Definition validate_identity (commit : RenderCommit) (context_id : BrowsingContextId)
    (document_id : DocumentId) (id : RenderCommitId) (revision : RenderRevision)
    (exchange : rstr) : presult unit :=
  throw_if (bool_decide (context_id ≠ rev_context_id (commit_revision commit)) ||
            bool_decide (document_id ≠ rev_document_id (commit_revision commit)) ||
            bool_decide (id ≠ commit_id commit) ||
            bool_decide (revision ≠ commit_revision commit))
    (protocol_error STALE (exchange ++ lit " does not match the required render commit")).

Definition validate_current_source (source : RenderReplica) (commit : RenderCommit)
    (exchange : rstr) : presult unit :=
  throw_if (bool_decide (rep_revision source ≠ Some (commit_revision commit)))
    (protocol_error STALE
       (exchange ++ lit " no longer matches BrowserCore's source revision")).

Definition require_accepted (self : RenderCommitState) : presult RenderCommit :=
  ok_or (accepted self) (protocol_error STALE (lit "no render commit is accepted")).
Definition require_presented (self : RenderCommitState) : presult RenderCommit :=
  ok_or (presented self) (protocol_error STALE (lit "no render commit is presented")).

Definition accept_presented (source : RenderReplica) (acknowledged : RenderPresented)
    : M RenderCommitState RenderProtocolError (list RenderHandleRelease) :=
  _ ← lift (validate_version (pres_version acknowledged));
  self ← get;
  commit ← lift (ok_or (accepted self)
    (protocol_error STALE (lit "presentation arrived before an accepted render commit")));
  _ ← lift (validate_identity commit (pres_context_id acknowledged) (pres_document_id acknowledged)
              (pres_commit_id acknowledged) (pres_revision acknowledged)
              (lit "presented acknowledgement"));
  _ ← lift (validate_current_source source commit (lit "presented acknowledgement"));
  if is_some_and (presented self) (λ c, bool_decide (commit_id c = commit_id commit)) then mret []
  else
    let releases := push_unique_release [] (presented self) in
    _ ← modify (set_presented (Some commit));
    _ ← modify (set_seen_scroll_commands ∅);
    _ ← modify (set_seen_semantic_actions ∅);
    mret releases.

(** ** Queries *)

Definition validate_hit_test_query (self : RenderCommitState) (source : RenderReplica)
    (query : RenderHitTestQuery) : presult unit :=
  _ ← validate_version (ht_version query);
  commit ← require_presented self;
  _ ← validate_identity commit (ht_context_id query) (ht_document_id query)
        (ht_displayed_commit_id query) (ht_revision query) (lit "hit-test query");
  _ ← validate_current_source source commit (lit "hit-test query");
  _ ← throw_if (bool_decide (ht_handle query ≠ hit_test_handle commit))
        (protocol_error STALE (lit "hit-test query used the wrong opaque handle"));
  RenderPoint_validate (ht_point query) (lit "hit-test point").

Definition validate_input_target (self : RenderCommitState) (source : RenderReplica)
    (query : RenderHitTestQuery) (target : RenderInputTarget) : presult unit :=
  _ ← validate_hit_test_query self source query;
  _ ← validate_version (it_version target);
  commit ← require_presented self;
  _ ← validate_identity commit (it_context_id target) (it_document_id target)
        (it_displayed_commit_id target) (it_revision target) (lit "input target");
  _ ← validate_current_source source commit (lit "input target");
  _ ← throw_if (bool_decide (it_query_id target ≠ ht_query_id query) ||
                negb (it_viewport_point target ==? ht_point query))
        (protocol_error STALE (lit "input target does not match its hit-test query"));
  _ ← throw_if (bool_decide (it_handle target ≠ hit_test_handle commit))
        (protocol_error STALE (lit "input target used the wrong opaque hit-test handle"));
  _ ← RenderPoint_validate (it_viewport_point target) (lit "input viewport point");
  _ ← RenderPoint_validate (it_local_point target) (lit "input local point");
  throw_if (negb (existsb (λ geometry,
      bool_decide (geo_node_id geometry = it_node_id target) &&
      bool_decide (geo_fragment_id geometry = it_fragment_id target)) (geometry_index commit)))
    (unknown_id_error (lit "input node/fragment") (it_fragment_id target)).

(** The [match query.kind] of [validate_text_query]. *)
Definition check_query_kind (text_len : N) (kind : RenderTextQueryKind) : presult unit :=
  match kind with
  | OffsetForPoint point => RenderPoint_validate point (lit "text query point")
  | CaretForOffset utf16_offset _ =>
      throw_if (bool_decide (text_len < utf16_offset)%N)
        (protocol_error INVALID_GEOMETRY (lit "text caret offset exceeds the source text"))
  | RangeBoxes utf16_start utf16_end =>
      throw_if (bool_decide (utf16_end < utf16_start)%N || bool_decide (text_len < utf16_end)%N)
        (protocol_error INVALID_GEOMETRY
           (lit "text query range is reversed or exceeds the source text"))
  end.

Definition check_text_query (source : RenderReplica) (query_ids : gset positive)
    (query : RenderTextQuery) : presult (gset positive) :=
  _ ← throw_if (bool_decide (tq_query_id query ∈ query_ids))
        (duplicate_id_error (lit "text query") (tq_query_id query));
  text_len ← ok_or (node_text_utf16_len source (tq_node_id query))
        (unknown_id_error (lit "text query text node") (tq_node_id query));
  _ ← check_query_kind text_len (tq_kind query);
  Ok ({[tq_query_id query]} ∪ query_ids).

Definition validate_text_query (self : RenderCommitState) (source : RenderReplica)
    (batch : RenderTextQueryBatch) : presult unit :=
  _ ← validate_version (tqb_version batch);
  commit ← require_accepted self;
  _ ← validate_identity commit (tqb_context_id batch) (tqb_document_id batch)
        (tqb_commit_id batch) (tqb_revision batch) (lit "text query batch");
  _ ← validate_current_source source commit (lit "text query batch");
  _ ← throw_if (bool_decide (tqb_handle batch ≠ text_query_handle commit))
        (protocol_error STALE (lit "text query used the wrong opaque handle"));
  _ ← check_limit (lit "text query") (len (tqb_queries batch)) RENDER_MAX_TEXT_QUERIES;
  _ ← for_each (check_text_query source) ∅ (tqb_queries batch);
  Ok tt.

Definition validate_text_query_identity (request : RenderTextQueryBatch)
    (response : RenderTextQueryBatchResult) : presult unit :=
  throw_if (bool_decide (tqbr_context_id response ≠ tqb_context_id request) ||
            bool_decide (tqbr_document_id response ≠ tqb_document_id request) ||
            bool_decide (tqbr_commit_id response ≠ tqb_commit_id request) ||
            bool_decide (tqbr_revision response ≠ tqb_revision request))
    (protocol_error STALE (lit "text query response identity does not match its request")).

(** The [match (request_kind, &result.value)] of [validate_text_query_result]; the new value
    of [text_boxes] is the result. *)
Definition check_result_value (source : RenderReplica) (node_id : RenderNodeId)
    (request_kind : RenderTextQueryKind) (result : RenderTextQueryResult) (text_boxes : N)
    : presult N :=
  match request_kind, tqr_value result with
  | OffsetForPoint _, VOffset utf16_offset _ =>
      if bool_decide (utf16_offset ≤ default 0 (node_text_utf16_len source node_id))%N
      then Ok text_boxes
      else Err (protocol_error INVALID_GEOMETRY (lit "text offset result exceeds the source text"))
  | CaretForOffset _ _, VCaret rect _ =>
      _ ← RenderRect_validate rect (lit "text caret rectangle");
      Ok text_boxes
  | RangeBoxes _ _, VRangeBoxes boxes =>
      text_boxes ← ok_or (checked_add text_boxes (len boxes))
        (limit_error (lit "text box") usize_max RENDER_MAX_TEXT_BOXES);
      _ ← check_limit (lit "text box") text_boxes RENDER_MAX_TEXT_BOXES;
      _ ← for_each (λ _ text_box, RenderRect_validate (tb_rect text_box) (lit "text range box")) tt boxes;
      Ok text_boxes
  | _, _ =>
      Err (protocol_error INVALID_GRAPH
        (lit "text query result " ++ id_display (tqr_query_id result) ++
         lit " has the wrong value kind"))
  end.

(** ([seen], [text_boxes]) *)
Definition check_text_result (source : RenderReplica) (expected : gmap positive RenderTextQuery)
    (s : gset positive * N) (result : RenderTextQueryResult) : presult (gset positive * N) :=
  let '(seen, text_boxes) := s in
  _ ← throw_if (bool_decide (tqr_query_id result ∈ seen))
        (duplicate_id_error (lit "text query result") (tqr_query_id result));
  query ← ok_or (expected !! tqr_query_id result)
        (unknown_id_error (lit "text query result") (tqr_query_id result));
  text_boxes ← check_result_value source (tq_node_id query) (tq_kind query) result text_boxes;
  Ok ({[tqr_query_id result]} ∪ seen, text_boxes).

Definition validate_text_query_result (self : RenderCommitState) (source : RenderReplica)
    (request : RenderTextQueryBatch) (response : RenderTextQueryBatchResult) : presult unit :=
  _ ← validate_version (tqbr_version response);
  _ ← validate_text_query self source request;
  _ ← validate_text_query_identity request response;
  _ ← validate_truncations (tqbr_truncations response) (tqb_allow_truncation request);
  _ ← throw_if (bool_decide (len (tqbr_results response) ≠ len (tqb_queries request)))
        (protocol_error INVALID_GRAPH
           (lit "text query result count does not match the request"));
  let expected := index_by (tqb_queries request) in
  _ ← for_each (check_text_result source expected) (∅, 0%N) (tqbr_results response);
  Ok tt.

(** ** Commands with replay protection *)

Definition check_scroll_kind (kind : RenderScrollCommandKind) : presult unit :=
  match kind with
  | ScrollBy delta => RenderPoint_validate delta (lit "scroll delta")
  | ScrollTo offset | ScrollRestore offset =>
      _ ← RenderPoint_validate offset (lit "scroll target");
      throw_if (f64_ltb (pt_x offset) f64_zero || f64_ltb (pt_y offset) f64_zero)
        (protocol_error INVALID_GEOMETRY (lit "absolute scroll target must be non-negative"))
  end.

(** [set.len()] of a [BTreeSet] *)
Definition set_len (s : gset positive) : N := N.of_nat (size s).

Definition consume_scroll_command (source : RenderReplica) (command : RenderScrollCommand)
    : M RenderCommitState RenderProtocolError unit :=
  _ ← lift (validate_version (sc_version command));
  self ← get;
  commit ← lift (require_presented self);
  _ ← lift (validate_identity commit (sc_context_id command) (sc_document_id command)
              (sc_displayed_commit_id command) (sc_revision command) (lit "scroll command"));
  _ ← lift (validate_current_source source commit (lit "scroll command"));
  _ ← lift (throw_if (negb (existsb (λ scroll,
        bool_decide (ss_scroll_node_id scroll = sc_scroll_node_id command)) (scroll_snapshot commit)))
        (unknown_id_error (lit "scroll command node") (sc_scroll_node_id command)));
  _ ← lift (check_scroll_kind (sc_kind command));
  _ ← lift (throw_if (bool_decide (sc_command_id command ∈ seen_scroll_commands self))
        (protocol_error REPLAYED_COMMAND
           (lit "scroll command " ++ id_display (sc_command_id command) ++ lit " was replayed")));
  _ ← lift (throw_if
        (bool_decide (RENDER_MAX_SEEN_SCROLL_COMMANDS ≤ set_len (seen_scroll_commands self))%N)
        (limit_error (lit "scroll command replay ledger")
           (set_len (seen_scroll_commands self) + 1) RENDER_MAX_SEEN_SCROLL_COMMANDS));
  modify (set_seen_scroll_commands ({[sc_command_id command]} ∪ seen_scroll_commands self)).

(** The [SetSelection] bounds check of [consume_semantic_action]. *)
Definition check_selection (source : RenderReplica) (target : RenderSemanticActionTarget)
    : presult unit :=
  match sat_action target with
  | SetSelection base_offset extent_offset =>
      let value_len := default 0%N (semantic_value_utf16_len source (sat_semantic_node_id target)) in
      throw_if (bool_decide (value_len < base_offset)%N || bool_decide (value_len < extent_offset)%N)
        (protocol_error INVALID_GEOMETRY
           (lit "semantic selection exceeds the advertised value"))
  | _ => Ok tt
  end.

Definition consume_semantic_action (source : RenderReplica) (target : RenderSemanticActionTarget)
    : M RenderCommitState RenderProtocolError unit :=
  _ ← lift (validate_version (sat_version target));
  self ← get;
  commit ← lift (require_presented self);
  _ ← lift (validate_identity commit (sat_context_id target) (sat_document_id target)
              (sat_displayed_commit_id target) (sat_revision target) (lit "semantic action"));
  _ ← lift (validate_current_source source commit (lit "semantic action"));
  _ ← lift (RenderSemanticAction_validate (sat_action target));
  semantic ← lift (ok_or (semantic_node source (sat_semantic_node_id target))
        (unknown_id_error (lit "semantic action node") (sat_semantic_node_id target)));
  _ ← lift (throw_if (negb (existsb (λ bounds,
        bool_decide (sb_semantic_node_id bounds = sat_semantic_node_id target)) (semantic_bounds commit)))
        (unknown_id_error (lit "displayed semantic node") (sat_semantic_node_id target)));
  _ ← lift (throw_if (bool_decide (sat_action_generation target ≠ sem_action_generation semantic))
        (protocol_error STALE (lit "semantic action generation is stale or forged")));
  _ ← lift (throw_if (bool_decide (action_kind (sat_action target) ∉ sem_actions semantic))
        (protocol_error UNADVERTISED_ACTION
           (lit "semantic action was not advertised by BrowserCore")));
  _ ← lift (check_selection source target);
  _ ← lift (throw_if (bool_decide (sat_request_id target ∈ seen_semantic_actions self))
        (protocol_error REPLAYED_ACTION
           (lit "semantic action request " ++ id_display (sat_request_id target) ++
            lit " was replayed")));
  _ ← lift (throw_if
        (bool_decide (RENDER_MAX_SEEN_SEMANTIC_ACTIONS ≤ set_len (seen_semantic_actions self))%N)
        (limit_error (lit "semantic action replay ledger")
           (set_len (seen_semantic_actions self) + 1) RENDER_MAX_SEEN_SEMANTIC_ACTIONS));
  modify (set_seen_semantic_actions ({[sat_request_id target]} ∪ seen_semantic_actions self)).
