(* ===== verification/RenderCommitFacts.v ===== *)
(** * Theorems on commits and their acceptance state

    A validated commit is characterised by a declarative predicate; the acceptance state
    keeps an invariant from which follow that every accepted commit's handles are released
    exactly once, that replayed commands and actions are refused, and that a consumed
    semantic action was advertised by the source and displayed. *)

From stdpp Require Import base decidable gmap sets list strings.
From Stdlib Require Import Lia.
From S2P Require Import Prelude.
From S2P Require Import RustFloat.
From S2P Require Import RenderModel.
From S2P Require Import RenderSource.
From S2P Require Import RenderSourceFacts.
From S2P Require Import RenderReplicaFacts.
From S2P Require Import RenderCommit.
Import render_error_codes.

(** ** What a commit must satisfy *)

Definition geometry_ok (source : RenderReplica) (scroll_ids : list positive)
    (g : RenderGeometryEntry) : Prop :=
  rect_ok (geo_border_box g) ∧ rect_ok (geo_padding_box g) ∧ rect_ok (geo_content_box g) ∧
  (∀ clip, geo_clip g = Some clip → rect_ok clip) ∧
  is_Some (rep_nodes source !! geo_node_id g) ∧
  (∀ id, geo_scroll_node_id g = Some id → id ∈ scroll_ids).

(** The offset is finite, non-negative and at most the maximum in both directions. *)
Definition scroll_state_ok (source : RenderReplica) (s : RenderScrollState) : Prop :=
  point_ok (ss_offset s) ∧ point_ok (ss_max_offset s) ∧ rect_ok (ss_viewport s) ∧
  size_ok (ss_content_size s) ∧
  f64_ltb (pt_x (ss_offset s)) f64_zero = false ∧ f64_ltb (pt_y (ss_offset s)) f64_zero = false ∧
  f64_ltb (pt_x (ss_max_offset s)) f64_zero = false ∧
  f64_ltb (pt_y (ss_max_offset s)) f64_zero = false ∧
  f64_ltb (pt_x (ss_max_offset s)) (pt_x (ss_offset s)) = false ∧
  f64_ltb (pt_y (ss_max_offset s)) (pt_y (ss_offset s)) = false ∧
  is_Some (rep_nodes source !! ss_node_id s).

Definition bounds_ok (source : RenderReplica) (b : RenderSemanticBounds) : Prop :=
  node_has_semantic_node source (sb_node_id b) (sb_semantic_node_id b) = true ∧
  Forall rect_ok (sb_rects b).

Record commit_wf (source : RenderReplica) (c : RenderCommit) : Prop := {
  cwf_version : commit_version c = RENDER_PROTOCOL_VERSION;
  cwf_revision : RenderRevision_validate (commit_revision c) = Ok tt;
  cwf_source : rep_revision source = Some (commit_revision c);
  cwf_viewport : viewport_ok (commit_viewport c);
  cwf_source_viewport : (rep_viewport source ==? Some (commit_viewport c)) = true;
  cwf_geometry_len : (len (geometry_index c) ≤ RENDER_MAX_GEOMETRY_ENTRIES)%N;
  cwf_scroll_len : (len (scroll_snapshot c) ≤ RENDER_MAX_SCROLL_ENTRIES)%N;
  cwf_bounds_len : (len (semantic_bounds c) ≤ RENDER_MAX_SEMANTIC_BOUNDS)%N;
  cwf_truncations : truncations c = [];
  cwf_scroll : Forall (scroll_state_ok source) (scroll_snapshot c);
  cwf_scroll_ids : NoDup (ss_scroll_node_id <$> scroll_snapshot c);
  cwf_geometry :
    Forall (geometry_ok source (ss_scroll_node_id <$> scroll_snapshot c)) (geometry_index c);
  cwf_fragment_ids : NoDup (geo_fragment_id <$> geometry_index c);
  cwf_bounds : Forall (bounds_ok source) (semantic_bounds c);
  cwf_semantic_ids : NoDup (sb_semantic_node_id <$> semantic_bounds c);
  cwf_rects : (sumN (λ b, len (sb_rects b)) (semantic_bounds c) ≤ RENDER_MAX_GEOMETRY_ENTRIES)%N;
}.

Lemma geometry_validate_Ok g u :
  RenderGeometryEntry_validate g = Ok u ↔
  rect_ok (geo_border_box g) ∧ rect_ok (geo_padding_box g) ∧ rect_ok (geo_content_box g) ∧
  (∀ clip, geo_clip g = Some clip → rect_ok clip).
Proof.
  destruct u. unfold RenderGeometryEntry_validate. rewrite !bind_unit_Ok, !RenderRect_validate_Ok.
  destruct (geo_clip g); [rewrite RenderRect_validate_Ok|]; naive_solver.
Qed.

Lemma check_scroll_state_Ok source ids s ids' :
  check_scroll_state source ids s = Ok ids' ↔
  scroll_state_ok source s ∧ (ss_scroll_node_id s ∉ ids) ∧ ids' = {[ss_scroll_node_id s]} ∪ ids.
Proof.
  unfold check_scroll_state, RenderScrollState_validate, scroll_state_ok.
  rewrite !bind_unit_Ok, !RenderPoint_validate_Ok, RenderRect_validate_Ok, RenderSize_validate_Ok,
    !throw_if_Ok, !orb_false_iff, negb_false_iff, bool_decide_eq_false, Ok_inj_iff.
  unfold contains_node. rewrite contains_key_true. unfold f64_gtb. naive_solver.
Qed.

Lemma check_geometry_Ok source (sids : gset positive) ids g ids' :
  check_geometry source sids ids g = Ok ids' ↔
  geometry_ok source (elements sids) g ∧ (geo_fragment_id g ∉ ids) ∧
  ids' = {[geo_fragment_id g]} ∪ ids.
Proof.
  unfold check_geometry, geometry_ok.
  rewrite !bind_unit_Ok, geometry_validate_Ok, !throw_if_Ok, negb_false_iff, bool_decide_eq_false,
    Ok_inj_iff. unfold contains_node. rewrite contains_key_true.
  destruct (geo_scroll_node_id g) as [id|]; [|naive_solver].
  rewrite throw_if_Ok, bool_decide_eq_false. setoid_rewrite elem_of_elements.
  assert ((¬ (id ∉ sids)) ↔ id ∈ sids) as -> by (split; [apply dec_stable | auto]). naive_solver.
Qed.

Lemma check_rects_Ok field rects u :
  for_each (λ _ rect, RenderRect_validate rect field) tt rects = Ok u ↔ Forall rect_ok rects.
Proof.
  rewrite for_each_unit_Ok. apply Forall_proper; [|done]. intros r. apply RenderRect_validate_Ok.
Qed.

Lemma check_semantic_bounds_Ok source ids n l ids' n' :
  (n ≤ RENDER_MAX_GEOMETRY_ENTRIES)%N →
  for_each (check_semantic_bounds source) (ids, n) l = Ok (ids', n') ↔
  Forall (bounds_ok source) l ∧ fresh_in ids (sb_semantic_node_id <$> l) ∧
  ids' = list_to_set (sb_semantic_node_id <$> l) ∪ ids ∧
  n' = (n + sumN (λ b, len (sb_rects b)) l)%N ∧ (n' ≤ RENDER_MAX_GEOMETRY_ENTRIES)%N.
Proof.
  assert (RENDER_MAX_GEOMETRY_ENTRIES ≤ usize_max)%N as Hmax by done.
  revert ids n. induction l as [|b l IH]; intros ids n Hn; cbn [for_each fmap list_fmap].
  - cbn [list_to_set]. rewrite Ok_inj_iff, (left_id_L ∅ (∪)). unfold sumN. cbn [foldr]. rewrite N.add_0_r. split.
    + intros [= -> ->]. split_and!; try done. apply fresh_in_nil.
    + by intros (_&_&->&->&_).
  - rewrite bind_Ok, Forall_cons, fresh_in_cons, list_to_set_cons_union, sumN_cons. split.
    + intros ([ids1 n1] & H1 & H2). unfold check_semantic_bounds in H1. ok_inv.
      rewrite check_rects_Ok in *. simplify_eq.
      apply IH in H2 as (?&?&?&?&?); [|done]. unfold bounds_ok. split_and!; try done. lia.
    + intros ([[Hb Hrects] ?] & [? ?] & ? & Hn' & ?). exists ({[sb_semantic_node_id b]} ∪ ids, (n + len (sb_rects b))%N).
      split; [|apply IH; split_and?; try done; lia].
      unfold check_semantic_bounds. rewrite bind_throw_if by by guard_side.
      rewrite bind_throw_if by by apply negb_false_iff.
      rewrite (bind_ok_or _ (n + len (sb_rects b))%N) by (apply checked_add_Some; lia).
      rewrite bind_check_limit by lia. by rewrite (bind_run _ tt) by by apply check_rects_Ok.
Qed.

Lemma list_find_snd_None {A} (P : A → Prop) `{∀ x, Decision (P x)} (l : list A) :
  snd <$> list_find P l = None ↔ Forall (λ x, ¬ P x) l.
Proof. rewrite fmap_None. apply list_find_None. Qed.

Lemma validate_truncations_Ok l allow u :
  validate_truncations l allow = Ok u ↔
  (len l ≤ RENDER_MAX_TRUNCATION_DIAGNOSTICS)%N ∧
  Forall (λ t, trunc_required t = false ∧ allow = true) l.
Proof.
  unfold validate_truncations. rewrite bind_unit_Ok, check_limit_Ok.
  assert (disallowed_truncation allow l = None ↔
    Forall (λ t, trunc_required t = false ∧ allow = true) l) as <-.
  { unfold disallowed_truncation. rewrite list_find_snd_None. apply Forall_proper; [|done].
    intros t. rewrite not_true_iff_false, orb_false_iff, negb_false_iff. done. }
  destruct u, (disallowed_truncation allow l); naive_solver.
Qed.

Lemma validate_truncations_false l u : validate_truncations l false = Ok u ↔ l = [].
Proof.
  rewrite validate_truncations_Ok. split.
  - intros [_ Hf]. destruct l; [done|]. by apply Forall_cons in Hf as [[_ ?] _].
  - intros ->. split; [done | constructor].
Qed.

Lemma geometry_ok_ids source ids ids' g :
  (∀ x, x ∈ ids ↔ x ∈ ids') → geometry_ok source ids g ↔ geometry_ok source ids' g.
Proof. intros Hi. unfold geometry_ok. setoid_rewrite Hi. done. Qed.

Lemma RenderCommit_validate_iff c source u :
  RenderCommit_validate c source = Ok u ↔ commit_wf source c.
Proof.
  destruct u. unfold RenderCommit_validate.
  assert (∀ g, geometry_ok source (elements (list_to_set (ss_scroll_node_id <$> scroll_snapshot c) ∪ ∅ : gset positive)) g
    ↔ geometry_ok source (ss_scroll_node_id <$> scroll_snapshot c) g) as Hg.
  { intros g. apply geometry_ok_ids. intros x.
    by rewrite elem_of_elements, (right_id_L ∅ (∪)), elem_of_list_to_set. }
  split.
  - intros H. do 9 apply bind_unit_Ok in H as [? H].
    apply bind_Ok in H as (sids & Hs & H). apply bind_Ok in H as (fids & Hf & H).
    apply bind_Ok in H as ([ids n] & Hb & _).
    apply (for_each_fresh _ _ _ _ _ _ (check_scroll_state_Ok source)) in Hs as (?&?%fresh_in_empty&->).
    apply (for_each_fresh _ _ _ _ _ _ (check_geometry_Ok source _)) in Hf as (Hf&?%fresh_in_empty&_).
    apply check_semantic_bounds_Ok in Hb as (?&?%fresh_in_empty&_&->&?); [|done].
    ok_inv. constructor; try done.
    + by apply dec_stable.
    + by eapply validate_truncations_false.
    + eapply Forall_impl; [exact Hf|]. intros g. apply Hg.
  - intros []. rewrite (bind_run _ tt) by by apply validate_version_Ok.
    rewrite (bind_run _ tt) by done.
    rewrite bind_throw_if by (apply bool_decide_eq_false; auto).
    rewrite (bind_run _ tt) by by apply RenderViewport_validate_Ok.
    rewrite bind_throw_if by by apply negb_false_iff.
    rewrite !bind_check_limit by done.
    rewrite (bind_run _ tt) by by apply validate_truncations_false.
    erewrite bind_run by (apply (for_each_fresh _ _ _ _ _ _ (check_scroll_state_Ok source));
      rewrite fresh_in_empty; done).
    erewrite bind_run by (apply (for_each_fresh _ _ _ _ _ _ (check_geometry_Ok source _));
      rewrite fresh_in_empty; split_and!; [|done|done];
      eapply Forall_impl; [exact cwf_geometry0|]; intros g; apply Hg).
    rewrite (bind_run _ (list_to_set (sb_semantic_node_id <$> semantic_bounds c) ∪ ∅,
      0 + sumN (λ b, len (sb_rects b)) (semantic_bounds c))%N); [done|].
    apply check_semantic_bounds_Ok; [done|]. rewrite fresh_in_empty. split_and!; try done; lia.
Qed.

(** ** Accepting a commit, as an equation *)

Definition same_doc (a b : RenderCommit) : bool :=
  same_document (commit_revision a) (commit_revision b).

(** [commit] belongs to another document than the accepted commit. *)
Definition replaces_document (s : RenderCommitState) (commit : RenderCommit) : bool :=
  is_some_and (accepted s) (λ a, negb (same_doc a commit)).

Definition superseded (s : RenderCommitState) (commit : RenderCommit) : bool :=
  is_some_and (accepted s) (λ a, same_doc a commit && bool_decide (commit_id commit ≤ commit_id a)%positive).

(** The accepted commit is also the one on display. *)
Definition accepted_is_presented (s : RenderCommitState) : bool :=
  match accepted s, presented s with
  | Some a, Some p => bool_decide (commit_id p = commit_id a)
  | _, _ => false
  end.

(** The commits whose handles are held: the accepted one and, when it is another one, the
    presented one. *)
Definition live (s : RenderCommitState) : list RenderCommit :=
  if accepted_is_presented s then option_list (accepted s)
  else option_list (accepted s) ++ option_list (presented s).

Definition commit_releases (s : RenderCommitState) (commit : RenderCommit) : list RenderHandleRelease :=
  if replaces_document s commit then release_of <$> live s
  else if accepted_is_presented s then [] else release_of <$> option_list (accepted s).

Definition commit_next (s : RenderCommitState) (commit : RenderCommit) : RenderCommitState :=
  if replaces_document s commit
  then {| accepted := Some commit; presented := None; seen_scroll_commands := ∅;
          seen_semantic_actions := ∅ |}
  else set_accepted (Some commit) s.

Lemma replacing_eq s commit :
  is_some_and (accepted s) (λ accepted,
    bool_decide (rev_context_id (commit_revision accepted) ≠ rev_context_id (commit_revision commit)) ||
    bool_decide (rev_document_id (commit_revision accepted) ≠ rev_document_id (commit_revision commit)))
  = replaces_document s commit.
Proof.
  unfold replaces_document, same_doc, same_document. destruct (accepted s); [|done]. cbn.
  by rewrite negb_andb, !bool_decide_not.
Qed.

Lemma superseded_eq s commit :
  negb (replaces_document s commit) &&
  is_some_and (accepted s) (λ accepted,
    bool_decide (id_get (commit_id commit) ≤ id_get (commit_id accepted))%N) = superseded s commit.
Proof.
  unfold replaces_document, superseded. destruct (accepted s); [|done]. cbn. rewrite negb_involutive.
  f_equal. by apply bool_decide_ext.
Qed.

Lemma push_both_releases s :
  push_unique_release (push_unique_release [] (accepted s)) (presented s) = release_of <$> live s.
Proof.
  unfold live, accepted_is_presented, push_unique_release.
  destruct (accepted s) as [a|], (presented s) as [p|]; try done. cbn. rewrite orb_false_r.
  rewrite (bool_decide_ext (commit_id a = commit_id p) (commit_id p = commit_id a)) by done.
  by case_bool_decide.
Qed.

Lemma accept_commit_eq source commit s :
  accept_commit source commit s =
  match RenderCommit_validate commit source with
  | Err e => (s, Err e)
  | Ok _ =>
      if superseded s commit
      then (s, Err (protocol_error STALE (lit "render commit " ++ id_display (commit_id commit) ++
              lit " is replayed or superseded")))
      else (commit_next s commit, Ok (commit_releases s commit))
  end.
Proof.
  unfold accept_commit. rewrite <-superseded_eq. unfold commit_next, commit_releases.
  unfold mbind, M_bind, lift, get, modify, mret, M_ret.
  destruct (RenderCommit_validate commit source) as [u|]; [|done]. rewrite !replacing_eq, push_both_releases.
  destruct (negb (replaces_document s commit) && _); cbn [throw_if]; [done|].
  destruct (replaces_document s commit); [done|].
  unfold accepted_is_presented, push_unique_release, is_none_or, is_some_and.
  destruct (accepted s) as [a|], (presented s) as [p|]; try done.
  rewrite bool_decide_not. by case_bool_decide.
Qed.

(** ** The other three operations *)

Definition names_commit (c : RenderCommit) (context_id : BrowsingContextId) (document_id : DocumentId)
    (id : RenderCommitId) (revision : RenderRevision) : Prop :=
  context_id = rev_context_id (commit_revision c) ∧
  document_id = rev_document_id (commit_revision c) ∧
  id = commit_id c ∧ revision = commit_revision c.

Lemma validate_identity_Ok c ctx doc id rev exchange u :
  validate_identity c ctx doc id rev exchange = Ok u ↔ names_commit c ctx doc id rev.
Proof.
  unfold validate_identity, names_commit.
  rewrite throw_if_Ok, !orb_false_iff, !bool_decide_eq_false.
  assert (∀ (A : Type) (x y : A), EqDecision A → (¬ x ≠ y) ↔ x = y) as Hs.
  { intros. split; [apply dec_stable | auto]. }
  rewrite !Hs by apply _. tauto.
Qed.

Lemma validate_current_source_Ok source c exchange u :
  validate_current_source source c exchange = Ok u ↔ rep_revision source = Some (commit_revision c).
Proof.
  unfold validate_current_source. rewrite throw_if_Ok, bool_decide_eq_false.
  split; [apply dec_stable | auto].
Qed.

Lemma existsb_bool_decide_exists {A} (P : A → Prop) `{∀ x, Decision (P x)} (l : list A) :
  existsb (λ x, bool_decide (P x)) l = true ↔ ∃ x, x ∈ l ∧ P x.
Proof.
  rewrite existsb_exists. setoid_rewrite bool_decide_eq_true. by setoid_rewrite <-list_elem_of_In.
Qed.

Definition presented_next (c : RenderCommit) (s : RenderCommitState) : RenderCommitState :=
  {| accepted := accepted s; presented := Some c; seen_scroll_commands := ∅;
     seen_semantic_actions := ∅ |}.

Lemma accept_presented_Ok source p s s' releases :
  accept_presented source p s = (s', Ok releases) ↔
  ∃ c, pres_version p = RENDER_PROTOCOL_VERSION ∧ accepted s = Some c ∧
       names_commit c (pres_context_id p) (pres_document_id p) (pres_commit_id p) (pres_revision p) ∧
       rep_revision source = Some (commit_revision c) ∧
       if accepted_is_presented s then s' = s ∧ releases = []
       else s' = presented_next c s ∧ releases = release_of <$> option_list (presented s).
Proof.
  unfold accept_presented. rewrite lift_bind_unit_Ok, validate_version_Ok, get_bind, lift_bind_Ok.
  setoid_rewrite lift_bind_unit_Ok. setoid_rewrite validate_identity_Ok.
  setoid_rewrite lift_bind_unit_Ok. setoid_rewrite validate_current_source_Ok.
  setoid_rewrite ok_or_Ok. unfold accepted_is_presented, is_some_and.
  split.
  - intros (? & c & Hc & ? & ? & H). exists c. rewrite Hc. split_and!; try done.
    destruct (presented s) as [q|]; [case_bool_decide|];
      cbv [mbind M_bind modify mret M_ret set_presented set_seen_scroll_commands
        set_seen_semantic_actions push_unique_release] in H; by simplify_eq.
  - intros (c & ? & Hc & ? & ? & H). rewrite Hc in H. split; [done|]. exists c. split_and!; try done.
    destruct (presented s) as [q|] eqn:Hp; [case_bool_decide|]; cbn; destruct H as [-> ->]; try done.
Qed.

Definition scroll_kind_ok (kind : RenderScrollCommandKind) : Prop :=
  match kind with
  | ScrollBy d => point_ok d
  | ScrollTo o | ScrollRestore o =>
      point_ok o ∧ f64_ltb (pt_x o) f64_zero = false ∧ f64_ltb (pt_y o) f64_zero = false
  end.

Lemma check_scroll_kind_Ok kind u : check_scroll_kind kind = Ok u ↔ scroll_kind_ok kind.
Proof.
  destruct kind; cbn; rewrite ?RenderPoint_validate_Ok; [done|..];
    by rewrite bind_unit_Ok, RenderPoint_validate_Ok, throw_if_Ok, orb_false_iff.
Qed.

(** When [consume_scroll_command] accepts [cmd] for the displayed commit [c]. *)
Record scroll_accepts (source : RenderReplica) (cmd : RenderScrollCommand) (s : RenderCommitState)
    (c : RenderCommit) : Prop := {
  sca_version : sc_version cmd = RENDER_PROTOCOL_VERSION;
  sca_presented : presented s = Some c;
  sca_identity : names_commit c (sc_context_id cmd) (sc_document_id cmd)
                   (sc_displayed_commit_id cmd) (sc_revision cmd);
  sca_source : rep_revision source = Some (commit_revision c);
  sca_node : ∃ scroll, scroll ∈ scroll_snapshot c ∧ ss_scroll_node_id scroll = sc_scroll_node_id cmd;
  sca_kind : scroll_kind_ok (sc_kind cmd);
  sca_fresh : sc_command_id cmd ∉ seen_scroll_commands s;
  sca_room : (set_len (seen_scroll_commands s) < RENDER_MAX_SEEN_SCROLL_COMMANDS)%N;
}.

Lemma consume_scroll_command_Ok source cmd s s' u :
  consume_scroll_command source cmd s = (s', Ok u) ↔
  (∃ c, scroll_accepts source cmd s c) ∧
  s' = set_seen_scroll_commands ({[sc_command_id cmd]} ∪ seen_scroll_commands s) s.
Proof.
  destruct u. unfold consume_scroll_command, require_presented.
  rewrite lift_bind_unit_Ok, validate_version_Ok, get_bind, lift_bind_Ok. setoid_rewrite ok_or_Ok.
  repeat setoid_rewrite lift_bind_unit_Ok. setoid_rewrite validate_identity_Ok.
  setoid_rewrite validate_current_source_Ok. setoid_rewrite check_scroll_kind_Ok.
  repeat setoid_rewrite throw_if_Ok. setoid_rewrite negb_false_iff.
  setoid_rewrite existsb_bool_decide_exists. repeat setoid_rewrite bool_decide_eq_false.
  setoid_rewrite modify_Ok. setoid_rewrite N.nle_gt.
  split.
  - intros (? & c & ? & ? & ? & ? & ? & ? & ? & ?). split; [by exists c | done].
  - intros ((c & []) & ->). split; [done|]. exists c. by split_and!.
Qed.

(** When [consume_semantic_action] accepts [t] for the displayed commit [c] and the semantic
    node [n] of the source. *)
Definition selection_ok (source : RenderReplica) (t : RenderSemanticActionTarget) : Prop :=
  ∀ b e, sat_action t = SetSelection b e →
    (b ≤ default 0 (semantic_value_utf16_len source (sat_semantic_node_id t)))%N ∧
    (e ≤ default 0 (semantic_value_utf16_len source (sat_semantic_node_id t)))%N.

Record action_accepts (source : RenderReplica) (t : RenderSemanticActionTarget)
    (s : RenderCommitState) (c : RenderCommit) (n : RenderSemanticNode) : Prop := {
  aca_version : sat_version t = RENDER_PROTOCOL_VERSION;
  aca_presented : presented s = Some c;
  aca_identity : names_commit c (sat_context_id t) (sat_document_id t)
                   (sat_displayed_commit_id t) (sat_revision t);
  aca_source : rep_revision source = Some (commit_revision c);
  aca_value : ∀ v, sat_action t = SetValue v → (str_len v ≤ RENDER_MAX_SEMANTIC_VALUE_BYTES)%N;
  aca_node : semantic_node source (sat_semantic_node_id t) = Some n;
  aca_bounds : ∃ b, b ∈ semantic_bounds c ∧ sb_semantic_node_id b = sat_semantic_node_id t;
  aca_generation : sat_action_generation t = sem_action_generation n;
  aca_advertised : action_kind (sat_action t) ∈ sem_actions n;
  aca_selection : selection_ok source t;
  aca_fresh : sat_request_id t ∉ seen_semantic_actions s;
  aca_room : (set_len (seen_semantic_actions s) < RENDER_MAX_SEEN_SEMANTIC_ACTIONS)%N;
}.

Lemma RenderSemanticAction_validate_Ok a u :
  RenderSemanticAction_validate a = Ok u ↔
  ∀ v, a = SetValue v → (str_len v ≤ RENDER_MAX_SEMANTIC_VALUE_BYTES)%N.
Proof. destruct u, a; cbn; rewrite ?check_limit_Ok; naive_solver. Qed.

Lemma check_selection_Ok source t u : check_selection source t = Ok u ↔ selection_ok source t.
Proof.
  unfold check_selection, selection_ok. destruct u, (sat_action t); try naive_solver.
  rewrite throw_if_Ok, orb_false_iff, !bool_decide_eq_false. split.
  - intros [? ?] ?? [= <- <-]. lia.
  - intros H. destruct (H _ _ eq_refl). lia.
Qed.

Lemma consume_semantic_action_Ok source t s s' u :
  consume_semantic_action source t s = (s', Ok u) ↔
  (∃ c n, action_accepts source t s c n) ∧
  s' = set_seen_semantic_actions ({[sat_request_id t]} ∪ seen_semantic_actions s) s.
Proof.
  assert (∀ (A : Type) (x y : A), EqDecision A → (¬ x ≠ y) ↔ x = y) as Hneq.
  { intros. split; [apply dec_stable | auto]. }
  assert (∀ k (l : list RenderSemanticActionKind), (¬ (k ∉ l)) ↔ k ∈ l) as Hnin.
  { intros. split; [apply dec_stable | auto]. }
  destruct u. unfold consume_semantic_action, require_presented.
  rewrite lift_bind_unit_Ok, validate_version_Ok, get_bind, lift_bind_Ok. split.
  - intros (? & c & Hc%ok_or_Ok & H).
    do 3 apply lift_bind_unit_Ok in H as [? H]. apply lift_bind_Ok in H as (n & ?%ok_or_Ok & H).
    do 6 apply lift_bind_unit_Ok in H as [? H]. apply modify_Ok in H.
    split; [|done]. exists c, n. ok_inv. constructor; try done.
    + by eapply validate_identity_Ok.
    + by eapply validate_current_source_Ok.
    + by eapply RenderSemanticAction_validate_Ok.
    + by eapply (existsb_bool_decide_exists (λ b, sb_semantic_node_id b = _)).
    + by apply dec_stable.
    + by apply dec_stable.
    + by eapply check_selection_Ok.
    + by apply N.nle_gt.
  - intros ((c & n & []) & ->). split; [done|]. exists c. split; [by apply ok_or_Ok|].
    rewrite !lift_bind_unit_Ok, lift_bind_Ok, validate_identity_Ok, validate_current_source_Ok,
      RenderSemanticAction_validate_Ok. split_and!; try done. exists n. split; [by apply ok_or_Ok|].
    rewrite !lift_bind_unit_Ok, !throw_if_Ok, check_selection_Ok, negb_false_iff,
      existsb_bool_decide_exists, !bool_decide_eq_false, Hneq, Hnin, N.nle_gt; [by split_and! | apply _].
Qed.

(** ** The invariant of the acceptance state *)

Record commit_state_wf (s : RenderCommitState) : Prop := {
  cs_displayed : ∀ p, presented s = Some p → ∃ a, accepted s = Some a ∧ same_doc p a = true ∧
    (commit_id p ≤ commit_id a)%positive ∧ (commit_id p = commit_id a → p = a);
  cs_nothing_displayed : presented s = None →
    seen_scroll_commands s = ∅ ∧ seen_semantic_actions s = ∅;
  cs_scroll_ledger : (set_len (seen_scroll_commands s) ≤ RENDER_MAX_SEEN_SCROLL_COMMANDS)%N;
  cs_action_ledger : (set_len (seen_semantic_actions s) ≤ RENDER_MAX_SEEN_SEMANTIC_ACTIONS)%N;
}.

(** The four operations that change the state, with the source replica of the moment. *)
Inductive commit_op : Type :=
| OpCommit (source : RenderReplica) (commit : RenderCommit)
| OpPresented (source : RenderReplica) (acknowledged : RenderPresented)
| OpScroll (source : RenderReplica) (command : RenderScrollCommand)
| OpAction (source : RenderReplica) (target : RenderSemanticActionTarget).

(** A run remembers the commits that were accepted and the releases that were handed out. *)
Record commit_log : Type := {
  log_state : RenderCommitState;
  log_accepted : list RenderCommit;
  log_released : list RenderHandleRelease;
}.

Definition ok_list {E A} (m : result E (list A)) : list A :=
  match m with Ok l => l | Err _ => [] end.

Definition log_step (l : commit_log) (op : commit_op) : commit_log :=
  match op with
  | OpCommit source commit =>
      let '(s', r) := accept_commit source commit (log_state l) in
      {| log_state := s';
         log_accepted := log_accepted l ++ (if is_ok r then [commit] else []);
         log_released := log_released l ++ ok_list r |}
  | OpPresented source p =>
      let '(s', r) := accept_presented source p (log_state l) in
      {| log_state := s'; log_accepted := log_accepted l;
         log_released := log_released l ++ ok_list r |}
  | OpScroll source cmd =>
      {| log_state := (consume_scroll_command source cmd (log_state l)).1;
         log_accepted := log_accepted l; log_released := log_released l |}
  | OpAction source t =>
      {| log_state := (consume_semantic_action source t (log_state l)).1;
         log_accepted := log_accepted l; log_released := log_released l |}
  end.

Definition log_empty : commit_log :=
  {| log_state := RenderCommitState_default; log_accepted := []; log_released := [] |}.

Definition run_commits (ops : list commit_op) : commit_log := foldl log_step log_empty ops.

(** *** Failed operations change nothing *)

Lemma consume_scroll_command_atomic source cmd : atomic (consume_scroll_command source cmd).
Proof. unfold consume_scroll_command. atomic_tac. Qed.

Lemma consume_semantic_action_atomic source t : atomic (consume_semantic_action source t).
Proof. unfold consume_semantic_action. atomic_tac. Qed.

Lemma accept_commit_atomic source commit : atomic (accept_commit source commit).
Proof.
  intros s s' e. rewrite accept_commit_eq.
  destruct (RenderCommit_validate commit source); [destruct (superseded s commit)|]; naive_solver.
Qed.

Lemma accept_presented_atomic source p : atomic (accept_presented source p).
Proof.
  unfold accept_presented. atomic_tac. intros s s' e. destruct (is_some_and _ _); cbn; [done|].
  by cbv [mbind M_bind modify mret M_ret].
Qed.

Lemma accept_commit_Ok source commit s s' releases :
  accept_commit source commit s = (s', Ok releases) ↔
  commit_wf source commit ∧ superseded s commit = false ∧
  s' = commit_next s commit ∧ releases = commit_releases s commit.
Proof.
  rewrite accept_commit_eq, <-(RenderCommit_validate_iff _ _ tt).
  destruct (RenderCommit_validate commit source) as [[]|]; [|naive_solver].
  destruct (superseded s commit); naive_solver.
Qed.

Definition log_with (s : RenderCommitState) (l : commit_log) : commit_log :=
  {| log_state := s; log_accepted := log_accepted l; log_released := log_released l |}.

(** What one operation does to a run. *)
Inductive log_moves (l : commit_log) : commit_op → commit_log → Prop :=
| moves_none op : log_moves l op l
| moves_commit source c :
    commit_wf source c → superseded (log_state l) c = false →
    log_moves l (OpCommit source c)
      {| log_state := commit_next (log_state l) c; log_accepted := log_accepted l ++ [c];
         log_released := log_released l ++ commit_releases (log_state l) c |}
| moves_presented source p c :
    accepted (log_state l) = Some c → accepted_is_presented (log_state l) = false →
    log_moves l (OpPresented source p)
      {| log_state := presented_next c (log_state l); log_accepted := log_accepted l;
         log_released := log_released l ++ (release_of <$> option_list (presented (log_state l))) |}
| moves_scroll source cmd c :
    scroll_accepts source cmd (log_state l) c →
    log_moves l (OpScroll source cmd)
      (log_with (set_seen_scroll_commands
         ({[sc_command_id cmd]} ∪ seen_scroll_commands (log_state l)) (log_state l)) l)
| moves_action source t c n :
    action_accepts source t (log_state l) c n →
    log_moves l (OpAction source t)
      (log_with (set_seen_semantic_actions
         ({[sat_request_id t]} ∪ seen_semantic_actions (log_state l)) (log_state l)) l).

Lemma log_with_same l : log_with (log_state l) l = l.
Proof. by destruct l. Qed.

Lemma log_step_moves l op : log_moves l op (log_step l op).
Proof.
  destruct op as [source c|source p|source cmd|source t]; cbn.
  - destruct (accept_commit source c (log_state l)) as [s' [rel|e]] eqn:H.
    + apply accept_commit_Ok in H as (?&?&->&->). by apply (moves_commit _ source).
    + apply accept_commit_atomic in H as ->. cbn. rewrite !app_nil_r. destruct l. apply moves_none.
  - destruct (accept_presented source p (log_state l)) as [s' [rel|e]] eqn:H.
    + apply accept_presented_Ok in H as (c&_&Hc&_&_&H).
      destruct (accepted_is_presented (log_state l)) eqn:Hp; destruct H as [-> ->].
      * cbn. rewrite app_nil_r. destruct l. apply moves_none.
      * by apply moves_presented.
    + apply accept_presented_atomic in H as ->. cbn. rewrite app_nil_r. destruct l. apply moves_none.
  - destruct (consume_scroll_command source cmd (log_state l)) as [s' [[]|e]] eqn:H.
    + apply consume_scroll_command_Ok in H as ((c & ?) & ->). by apply (moves_scroll _ source cmd c).
    + apply consume_scroll_command_atomic in H as ->. destruct l. apply moves_none.
  - destruct (consume_semantic_action source t (log_state l)) as [s' [[]|e]] eqn:H.
    + apply consume_semantic_action_Ok in H as ((c & n & ?) & ->). by apply (moves_action _ source t c n).
    + apply consume_semantic_action_atomic in H as ->. destruct l. apply moves_none.
Qed.

Lemma set_len_insert (x : positive) (X : gset positive) (n : N) :
  (set_len X < n)%N → (set_len ({[x]} ∪ X) ≤ n)%N.
Proof.
  unfold set_len. intros. pose proof (size_union_alt {[x]} X) as Hs.
  rewrite size_singleton in Hs. pose proof (subseteq_size (X ∖ {[x]}) X ltac:(set_solver)). lia.
Qed.

Lemma same_doc_refl c : same_doc c c = true.
Proof. unfold same_doc, same_document. by rewrite !bool_decide_eq_true_2. Qed.

Lemma same_doc_trans a b c : same_doc a b = true → same_doc b c = true → same_doc a c = true.
Proof.
  unfold same_doc, same_document. rewrite !andb_true_iff, !bool_decide_eq_true.
  intros [-> ->]. done.
Qed.

Lemma commit_next_wf s c :
  superseded s c = false → commit_state_wf s → commit_state_wf (commit_next s c).
Proof.
  intros Hn [Hd He Hs Ha]. unfold commit_next.
  destruct (replaces_document s c) eqn:Hr; [by constructor|]. constructor; [|done..].
  intros p Hp. cbn in *. destruct (Hd _ Hp) as (a & Hacc & Hdoc & Hle & _).
  unfold superseded, replaces_document in *. rewrite Hacc in *. cbn in *.
  apply negb_false_iff in Hr. rewrite Hr in Hn. cbn in Hn. bool_inv.
  exists c. split_and!; [done|by eapply same_doc_trans|lia|lia].
Qed.

Lemma log_moves_wf l op l' :
  log_moves l op l' → commit_state_wf (log_state l) → commit_state_wf (log_state l').
Proof.
  intros [] Hwf; [done|by apply commit_next_wf|..].
  - constructor; cbn; try done. intros ? [= <-]. exists c.
    split_and!; try done. apply same_doc_refl.
  - destruct Hwf as [Hd He ??]. match goal with H : scroll_accepts _ _ _ _ |- _ => destruct H end.
    constructor; cbn; try done; [congruence|]. by apply set_len_insert.
  - destruct Hwf as [Hd He ??]. match goal with H : action_accepts _ _ _ _ _ |- _ => destruct H end.
    constructor; cbn; try done; [congruence|]. by apply set_len_insert.
Qed.

Lemma run_commits_snoc ops op : run_commits (ops ++ [op]) = log_step (run_commits ops) op.
Proof. unfold run_commits. by rewrite foldl_app. Qed.

Lemma run_commits_wf ops : commit_state_wf (log_state (run_commits ops)).
Proof.
  induction ops as [|op ops IH] using rev_ind.
  - by constructor.
  - rewrite run_commits_snoc. by eapply log_moves_wf; [apply log_step_moves|].
Qed.

(** The displayed commit never runs ahead of the accepted one. *)
Lemma presented_is_accepted s p a :
  commit_state_wf s → presented s = Some p → accepted s = Some a →
  accepted_is_presented s = true ↔ p = a.
Proof.
  intros [Hd _ _ _] Hp Ha. destruct (Hd _ Hp) as (a' & Ha' & _ & _ & Heq). simplify_eq.
  unfold accepted_is_presented. rewrite Ha, Hp, bool_decide_eq_true. naive_solver.
Qed.

(** ** Handles *)

Lemma live_same_view s s' :
  accepted s' = accepted s → presented s' = presented s → live s' = live s.
Proof. unfold live, accepted_is_presented. by intros -> ->. Qed.

Lemma commit_handles s c :
  commit_state_wf s → superseded s c = false →
  (release_of <$> live s) ++ [release_of c] ≡ₚ
  commit_releases s c ++ (release_of <$> live (commit_next s c)).
Proof.
  intros [Hd _ _ _] Hsup. unfold commit_releases, commit_next.
  destruct (replaces_document s c) eqn:Hr; [done|].
  destruct (accepted s) as [a|] eqn:Ha.
  - unfold superseded, replaces_document in *. rewrite Ha in *. cbn in Hr, Hsup.
    apply negb_false_iff in Hr. rewrite Hr in Hsup. cbn in Hsup. bool_inv.
    unfold live, accepted_is_presented. cbn. rewrite Ha.
    destruct (presented s) as [p|] eqn:Hp; [|done].
    destruct (Hd _ eq_refl) as (a' & Ha' & _ & Hle & Heq). simplify_eq.
    rewrite (bool_decide_eq_false_2 (commit_id p = commit_id c)) by lia.
    case_bool_decide as Hpa; cbn.
    + rewrite (Heq Hpa). apply Permutation_swap.
    + apply perm_skip, Permutation_swap.
  - destruct (presented s) as [p|] eqn:Hp; [by destruct (Hd _ eq_refl) as (? & ? & _)|].
    unfold live, accepted_is_presented. cbn. by rewrite Ha, Hp.
Qed.

Lemma presented_handles s c :
  accepted s = Some c → accepted_is_presented s = false →
  release_of <$> live s ≡ₚ
  (release_of <$> option_list (presented s)) ++ (release_of <$> live (presented_next c s)).
Proof.
  intros Ha Hn. unfold live. rewrite Hn, Ha. unfold accepted_is_presented. cbn. rewrite Ha.
  rewrite bool_decide_eq_true_2 by done. cbn. apply Permutation_cons_append.
Qed.

Lemma log_moves_handles l op l' :
  log_moves l op l' → commit_state_wf (log_state l) →
  release_of <$> log_accepted l ≡ₚ log_released l ++ (release_of <$> live (log_state l)) →
  release_of <$> log_accepted l' ≡ₚ log_released l' ++ (release_of <$> live (log_state l')).
Proof.
  intros [] Hwf IH; cbn; try done.
  - rewrite fmap_app, IH, <-!(assoc_L (++)). apply Permutation_app_head. by apply commit_handles.
  - rewrite IH, <-(assoc_L (++)). apply Permutation_app_head. by apply presented_handles.
Qed.

Lemma run_commits_handles ops :
  release_of <$> log_accepted (run_commits ops) ≡ₚ
  log_released (run_commits ops) ++ (release_of <$> live (log_state (run_commits ops))).
Proof.
  induction ops as [|op ops IH] using rev_ind; [done|]. rewrite run_commits_snoc.
  eapply log_moves_handles; [apply log_step_moves|apply run_commits_wf|done].
Qed.

(** ** Replay *)

(** Consuming [key] for commit [id] of the document of revision [rev] can never succeed again:
    a later commit of that document is on display, or the ledger still holds the key. *)
Definition spent (seen : RenderCommitState → gset positive) (rev : RenderRevision)
    (id : RenderCommitId) (key : positive) (s : RenderCommitState) : Prop :=
  ∃ p, presented s = Some p ∧ same_document rev (commit_revision p) = true ∧
       (id ≤ commit_id p)%positive ∧ (commit_id p = id → key ∈ seen s).

(** No operation of [ops] brings in another document. *)
Definition stays_on_document (rev : RenderRevision) (ops : list commit_op) : Prop :=
  ∀ source c, OpCommit source c ∈ ops → same_document rev (commit_revision c) = true.

Lemma same_document_sym a b : same_document a b = same_document b a.
Proof.
  unfold same_document. f_equal; by apply bool_decide_ext.
Qed.

Lemma same_document_trans a b c :
  same_document a b = true → same_document b c = true → same_document a c = true.
Proof.
  unfold same_document. rewrite !andb_true_iff, !bool_decide_eq_true. by intros [-> ->].
Qed.

Lemma log_moves_spent seen rev id key l op l' :
  seen = seen_scroll_commands ∨ seen = seen_semantic_actions →
  log_moves l op l' → stays_on_document rev [op] → commit_state_wf (log_state l) →
  spent seen rev id key (log_state l) → spent seen rev id key (log_state l').
Proof.
  intros Hseen Hm Hdoc Hwf (p & Hp & Hpd & Hle & Hk).
  destruct (cs_displayed _ Hwf _ Hp) as (a & Ha & Hpa & Hle' & Heq).
  pose proof (same_document_trans _ _ _ Hpd Hpa) as Had.
  destruct Hm as [| source c Hc Hsup | source q c Hc Hn | source cmd c Hacc | source t c n Hacc];
    cbn.
  - by exists p.
  - assert (replaces_document (log_state l) c = false) as Hr.
    { unfold replaces_document. rewrite Ha. cbn. apply negb_false_iff.
      apply (same_document_trans _ rev); [by rewrite same_document_sym|].
      apply (Hdoc source). by left. }
    exists p. unfold commit_next. rewrite Hr. cbn. split_and!; try done.
    by destruct Hseen as [-> | ->].
  - assert (c = a) as -> by congruence. exists a. cbn. split_and!; [done..|lia|].
    intros Hid. unfold accepted_is_presented in Hn. rewrite Ha, Hp in Hn. bool_inv.
    destruct Hn. lia.
  - exists p. split_and!; try done. intros Hid. specialize (Hk Hid).
    destruct Hseen as [-> | ->]; cbn in *; set_solver.
  - exists p. split_and!; try done. intros Hid. specialize (Hk Hid).
    destruct Hseen as [-> | ->]; cbn in *; set_solver.
Qed.

Lemma run_commits_spent seen rev id key ops ops' :
  seen = seen_scroll_commands ∨ seen = seen_semantic_actions →
  stays_on_document rev ops' →
  spent seen rev id key (log_state (run_commits ops)) →
  spent seen rev id key (log_state (run_commits (ops ++ ops'))).
Proof.
  intros Hseen Hdoc Hs. induction ops' as [|op ops' IH] using rev_ind; [by rewrite app_nil_r|].
  rewrite (assoc_L (++)), run_commits_snoc. eapply log_moves_spent; [done|apply log_step_moves| |
    apply run_commits_wf|].
  - intros source c Hin. apply (Hdoc source). apply elem_of_app. by right.
  - apply IH. intros source c Hin. apply (Hdoc source). apply elem_of_app. by left.
Qed.

(** ** The properties *)

(** C10. Handles are released exactly once: along every run of the acceptance state, the handles
    of the accepted commits are, counted with multiplicity, those already released and those
    of the commits still held (the accepted one and the displayed one). *)
Theorem handles_released_exactly_once ops :
  let l := run_commits ops in
  release_of <$> log_accepted l ≡ₚ log_released l ++ (release_of <$> live (log_state l)).
Proof. apply run_commits_handles. Qed.

(** The id of a consumed scroll command is refused for the same displayed commit as long as
    its document stays, whatever commits, presentations, commands and actions come between: the ledger is
    cleared only when its commit id can no longer be displayed. *)
Theorem scroll_command_not_replayed ops ops' source source' cmd cmd' s' :
  consume_scroll_command source cmd (log_state (run_commits ops)) = (s', Ok tt) →
  stays_on_document (sc_revision cmd) ops' →
  sc_command_id cmd' = sc_command_id cmd →
  sc_displayed_commit_id cmd' = sc_displayed_commit_id cmd →
  ∃ e, consume_scroll_command source' cmd'
         (log_state (run_commits (ops ++ OpScroll source cmd :: ops'))) =
       (log_state (run_commits (ops ++ OpScroll source cmd :: ops')), Err e).
Proof.
  intros Hc Hdoc Hkey Hshown. set (s := log_state (run_commits (ops ++ _ :: ops'))).
  assert (spent seen_scroll_commands (sc_revision cmd) (sc_displayed_commit_id cmd)
    (sc_command_id cmd) s) as (p & Hp & _ & _ & Hk).
  { subst s. rewrite cons_middle, (assoc_L (++)). apply run_commits_spent; [by left|done|].
    rewrite run_commits_snoc. cbn. rewrite Hc. cbn.
    apply consume_scroll_command_Ok in Hc as ((c & Hacc) & ->).
    destruct (sca_identity _ _ _ _ Hacc) as (_&_&Hid&Hrev).
    exists c. rewrite Hid, Hrev. split_and!; [apply Hacc|apply same_doc_refl|done|set_solver]. }
  destruct (consume_scroll_command source' cmd' s) as [s2 [[]|e]] eqn:H.
  - exfalso. apply consume_scroll_command_Ok in H as ((c & Hacc) & _).
    destruct (sca_identity _ _ _ _ Hacc) as (_&_&Hid&_).
    pose proof (sca_presented _ _ _ _ Hacc). simplify_eq.
    apply (sca_fresh _ _ _ _ Hacc). rewrite Hkey. apply Hk. congruence.
  - apply consume_scroll_command_atomic in H as ->. by exists e.
Qed.

(** The same for semantic action requests. *)
Theorem semantic_action_not_replayed ops ops' source source' t t' s' :
  consume_semantic_action source t (log_state (run_commits ops)) = (s', Ok tt) →
  stays_on_document (sat_revision t) ops' →
  sat_request_id t' = sat_request_id t →
  sat_displayed_commit_id t' = sat_displayed_commit_id t →
  ∃ e, consume_semantic_action source' t'
         (log_state (run_commits (ops ++ OpAction source t :: ops'))) =
       (log_state (run_commits (ops ++ OpAction source t :: ops')), Err e).
Proof.
  intros Hc Hdoc Hkey Hshown. set (s := log_state (run_commits (ops ++ _ :: ops'))).
  assert (spent seen_semantic_actions (sat_revision t) (sat_displayed_commit_id t)
    (sat_request_id t) s) as (p & Hp & _ & _ & Hk).
  { subst s. rewrite cons_middle, (assoc_L (++)). apply run_commits_spent; [by right|done|].
    rewrite run_commits_snoc. cbn. rewrite Hc. cbn.
    apply consume_semantic_action_Ok in Hc as ((c & n & Hacc) & ->).
    destruct (aca_identity _ _ _ _ _ Hacc) as (_&_&Hid&Hrev).
    exists c. rewrite Hid, Hrev. split_and!; [apply Hacc|apply same_doc_refl|done|set_solver]. }
  destruct (consume_semantic_action source' t' s) as [s2 [[]|e]] eqn:H.
  - exfalso. apply consume_semantic_action_Ok in H as ((c & n & Hacc) & _).
    destruct (aca_identity _ _ _ _ _ Hacc) as (_&_&Hid&_).
    pose proof (aca_presented _ _ _ _ _ Hacc). simplify_eq.
    apply (aca_fresh _ _ _ _ _ Hacc). rewrite Hkey. apply Hk. congruence.
  - apply consume_semantic_action_atomic in H as ->. by exists e.
Qed.

(** Along every run the displayed commit belongs to the accepted commit's document, never
    runs ahead of it, is that very commit when the ids agree, and both replay ledgers stay
    within their bounds and are empty while nothing is displayed. *)
Theorem run_commits_invariant ops : commit_state_wf (log_state (run_commits ops)).
Proof. apply run_commits_wf. Qed.

(** [RenderCommit::validate] accepts exactly the commits that match the source replica's
    revision and viewport, are within every limit, untruncated, and whose geometry, scroll
    states and semantic bounds are in range, unique and refer to nodes of the source. *)
Theorem commit_validate_correct c source u :
  RenderCommit_validate c source = Ok u ↔ commit_wf source c.
Proof. apply RenderCommit_validate_iff. Qed.

(** A semantic action is accepted exactly when it names the displayed commit and the current
    source, its node is in the source and on display, its generation is the node's, its kind
    is one the source advertised, its selection is within the node's value, and its request
    id is new; accepting it only records the id. *)
Theorem semantic_action_accepted_iff source t s s' :
  consume_semantic_action source t s = (s', Ok tt) ↔
  (∃ c n, action_accepts source t s c n) ∧
  s' = set_seen_semantic_actions ({[sat_request_id t]} ∪ seen_semantic_actions s) s.
Proof. apply consume_semantic_action_Ok. Qed.

(** ** Queries *)

Definition query_kind_ok (text_len : N) (kind : RenderTextQueryKind) : Prop :=
  match kind with
  | OffsetForPoint p => point_ok p
  | CaretForOffset o _ => (o ≤ text_len)%N
  | RangeBoxes b e => (b ≤ e ≤ text_len)%N
  end.

Definition query_ok (source : RenderReplica) (q : RenderTextQuery) : Prop :=
  ∃ n, node_text_utf16_len source (tq_node_id q) = Some n ∧ query_kind_ok n (tq_kind q).

Record text_query_ok (s : RenderCommitState) (source : RenderReplica) (b : RenderTextQueryBatch) : Prop := {
  tqo_version : tqb_version b = RENDER_PROTOCOL_VERSION;
  tqo_commit : ∃ c, accepted s = Some c ∧ rep_revision source = Some (commit_revision c) ∧
    names_commit c (tqb_context_id b) (tqb_document_id b) (tqb_commit_id b) (tqb_revision b) ∧
    tqb_handle b = text_query_handle c;
  tqo_len : (len (tqb_queries b) ≤ RENDER_MAX_TEXT_QUERIES)%N;
  tqo_ids : NoDup (tq_query_id <$> tqb_queries b);
  tqo_queries : Forall (query_ok source) (tqb_queries b);
}.

Lemma check_query_kind_Ok n kind u : check_query_kind n kind = Ok u ↔ query_kind_ok n kind.
Proof.
  destruct kind; cbn; rewrite ?RenderPoint_validate_Ok, ?throw_if_Ok, ?orb_false_iff,
    ?bool_decide_eq_false; [done|lia|lia].
Qed.

Lemma check_text_query_Ok source ids q ids' :
  check_text_query source ids q = Ok ids' ↔
  query_ok source q ∧ (tq_query_id q ∉ ids) ∧ ids' = {[tq_query_id q]} ∪ ids.
Proof.
  unfold check_text_query, query_ok.
  rewrite bind_unit_Ok, throw_if_Ok, bool_decide_eq_false, bind_Ok. setoid_rewrite bind_unit_Ok.
  setoid_rewrite ok_or_Ok. setoid_rewrite check_query_kind_Ok. setoid_rewrite Ok_inj_iff.
  naive_solver.
Qed.

Lemma validate_text_query_Ok s source b u :
  validate_text_query s source b = Ok u ↔ text_query_ok s source b.
Proof.
  destruct u. unfold validate_text_query, require_accepted.
  rewrite bind_unit_Ok, validate_version_Ok, bind_Ok. setoid_rewrite ok_or_Ok. split.
  - intros (? & c & Hc & H). do 4 apply bind_unit_Ok in H as [? H].
    apply bind_Ok in H as (ids & Hq & _).
    apply (for_each_fresh _ _ _ _ _ _ (check_text_query_Ok source)) in Hq as (?&?%fresh_in_empty&_).
    ok_inv. constructor; try done. exists c. split_and!; [done| | |].
    + by eapply validate_current_source_Ok.
    + by eapply validate_identity_Ok.
    + by apply dec_stable.
  - intros [? (c & Hc & Hs & Hi & Hh) ? ? ?]. split; [done|]. exists c. split; [done|].
    rewrite (bind_run _ tt) by by apply validate_identity_Ok.
    rewrite (bind_run _ tt) by by apply validate_current_source_Ok.
    rewrite bind_throw_if by (apply bool_decide_eq_false; auto).
    rewrite bind_check_limit by done.
    erewrite bind_run; [done|].
    apply (for_each_fresh _ _ _ _ _ _ (check_text_query_Ok source)). by rewrite fresh_in_empty.
Qed.

(** A value answers a query when it has the query's kind and is in range. *)
Definition answers (source : RenderReplica) (q : RenderTextQuery) (v : RenderTextQueryValue) : Prop :=
  match tq_kind q, v with
  | OffsetForPoint _, VOffset o _ => (o ≤ default 0 (node_text_utf16_len source (tq_node_id q)))%N
  | CaretForOffset _ _, VCaret r _ => rect_ok r
  | RangeBoxes _ _, VRangeBoxes boxes => Forall (λ b, rect_ok (tb_rect b)) boxes
  | _, _ => False
  end.

Definition value_boxes (v : RenderTextQueryValue) : N :=
  match v with VRangeBoxes boxes => len boxes | _ => 0 end.

Lemma check_result_value_Ok source node kind r n n' :
  check_result_value source node kind r n = Ok n' →
  answers source {| tq_query_id := 1; tq_node_id := node; tq_kind := kind |} (tqr_value r) ∧
  n' = (n + value_boxes (tqr_value r))%N ∧
  ((n ≤ RENDER_MAX_TEXT_BOXES)%N → (n' ≤ RENDER_MAX_TEXT_BOXES)%N).
Proof.
  unfold check_result_value, answers. destruct kind, (tqr_value r); cbn; intros H; try done.
  - case_bool_decide; ok_inv. subst. rewrite N.add_0_r. done.
  - apply bind_unit_Ok in H as [?%RenderRect_validate_Ok [= <-]]. rewrite N.add_0_r. done.
  - apply bind_Ok in H as (m & Hm & H). apply bind_unit_Ok in H as [? H].
    apply bind_unit_Ok in H as [Hb%for_each_unit_Ok [= <-]]. ok_inv. subst. split_and!; [|done|done].
    eapply Forall_impl; [exact Hb|]. intros b. apply RenderRect_validate_Ok.
Qed.

(** The result loop from a state in which [seen] queries are answered. *)
Lemma check_text_results_Ok source (expected : gmap positive RenderTextQuery) results seen n seen' n' :
  for_each (check_text_result source expected) (seen, n) results = Ok (seen', n') →
  fresh_in seen (tqr_query_id <$> results) ∧
  Forall (λ r, ∃ q, expected !! tqr_query_id r = Some q ∧ answers source q (tqr_value r)) results ∧
  n' = (n + sumN (λ r, value_boxes (tqr_value r)) results)%N ∧
  ((n ≤ RENDER_MAX_TEXT_BOXES)%N → (n' ≤ RENDER_MAX_TEXT_BOXES)%N).
Proof.
  revert seen n. induction results as [|r results IH]; intros seen n; cbn [for_each fmap list_fmap].
  - intros [= <- <-]. split_and!; [apply fresh_in_nil|constructor| |done]. cbn. lia.
  - intros H. apply bind_Ok in H as ([seen1 n1] & H1 & H2).
    apply IH in H2 as (Hf & Ha & -> & Hle). unfold check_text_result in H1.
    apply bind_unit_Ok in H1 as [Hs%throw_if_Ok H1]. apply bind_Ok in H1 as (q & Hq%ok_or_Ok & H1).
    apply bind_Ok in H1 as (m & Hm & [= <- <-]).
    apply check_result_value_Ok in Hm as (Hans & -> & Hm). bool_inv.
    rewrite fresh_in_cons, Forall_cons, sumN_cons. split_and!; try done; [|lia|auto].
    by exists q.
Qed.

(** A text query answer that passes validation answers every query of the batch exactly once:
    its ids are a permutation of the batch's, each value has its query's kind and is in range,
    and there are at most [RENDER_MAX_TEXT_BOXES] boxes in all. *)
Theorem text_query_result_complete s source request response :
  validate_text_query_result s source request response = Ok tt →
  text_query_ok s source request ∧
  tqr_query_id <$> tqbr_results response ≡ₚ tq_query_id <$> tqb_queries request ∧
  Forall (λ r, ∃ q, q ∈ tqb_queries request ∧ tq_query_id q = tqr_query_id r ∧
                    answers source q (tqr_value r)) (tqbr_results response) ∧
  (sumN (λ r, value_boxes (tqr_value r)) (tqbr_results response) ≤ RENDER_MAX_TEXT_BOXES)%N ∧
  (tqb_allow_truncation request = false → tqbr_truncations response = []).
Proof.
  unfold validate_text_query_result. intros H. apply bind_unit_Ok in H as [_ H].
  apply bind_unit_Ok in H as [Hq%validate_text_query_Ok H]. apply bind_unit_Ok in H as [_ H].
  apply bind_unit_Ok in H as [Ht H]. apply bind_unit_Ok in H as [Hlen%throw_if_Ok H].
  apply bind_Ok in H as ([seen n] & Hr & _). bool_inv. apply dec_stable in Hlen.
  apply check_text_results_Ok in Hr as (Hf%fresh_in_empty & Ha & -> & Hle).
  pose proof (tqo_ids _ _ _ Hq) as Hids.
  assert (Forall (λ r, ∃ q, q ∈ tqb_queries request ∧ tq_query_id q = tqr_query_id r ∧
    answers source q (tqr_value r)) (tqbr_results response)) as Hall.
  { eapply Forall_impl; [exact Ha|]. intros r (q & Hlk & Hans).
    apply lookup_index_by in Hlk as [Hin Hk]; [|done]. exists q. by split_and!. }
  split_and!; [done| |done| |].
  - apply submseteq_length_Permutation.
    + apply NoDup_submseteq; [done|]. intros x (r & -> & Hin)%list_elem_of_fmap.
      rewrite Forall_forall in Hall. destruct (Hall _ Hin) as (q & Hqin & <- & _).
      by apply list_elem_of_fmap_2.
    + rewrite !length_fmap. unfold len in Hlen. lia.
  - apply Hle. done.
  - intros Hno. rewrite Hno in Ht. by eapply validate_truncations_false.
Qed.

(** An input target that passes validation names the displayed commit, the current source
    revision and the hit-test query it answers, and a node and fragment that the displayed
    commit's geometry lists together. *)
Theorem input_target_sound s source query target :
  validate_input_target s source query target = Ok tt →
  ∃ c, presented s = Some c ∧ rep_revision source = Some (commit_revision c) ∧
    names_commit c (it_context_id target) (it_document_id target)
      (it_displayed_commit_id target) (it_revision target) ∧
    names_commit c (ht_context_id query) (ht_document_id query)
      (ht_displayed_commit_id query) (ht_revision query) ∧
    it_handle target = hit_test_handle c ∧ ht_handle query = hit_test_handle c ∧
    it_query_id target = ht_query_id query ∧ (it_viewport_point target ==? ht_point query) = true ∧
    point_ok (it_viewport_point target) ∧ point_ok (it_local_point target) ∧
    ∃ g, g ∈ geometry_index c ∧ geo_node_id g = it_node_id target ∧
         geo_fragment_id g = it_fragment_id target.
Proof.
  unfold validate_input_target. intros H. apply bind_unit_Ok in H as [Hq H].
  apply bind_unit_Ok in H as [_ H]. apply bind_Ok in H as (c & Hc%ok_or_Ok & H).
  do 6 apply bind_unit_Ok in H as [? H]. ok_inv.
  unfold validate_hit_test_query in Hq. apply bind_unit_Ok in Hq as [_ Hq].
  apply bind_Ok in Hq as (c' & Hc'%ok_or_Ok & Hq).
  assert (c' = c) as -> by congruence.
  apply bind_unit_Ok in Hq as [Hi%validate_identity_Ok Hq].
  apply bind_unit_Ok in Hq as [_ Hq]. apply bind_unit_Ok in Hq as [Hh Hq]. ok_inv.
  exists c. split_and!; try done.
  - by eapply validate_current_source_Ok.
  - by eapply validate_identity_Ok.
  - by apply dec_stable.
  - by apply dec_stable.
  - by apply dec_stable.
  - apply existsb_exists in H as (g & Hin%list_elem_of_In & Hg). bool_inv. by exists g.
Qed.

(** ** Witnesses: a commit of the sample page, displayed *)

Definition sample_rect : RenderRect :=
  {| rc_x := f64_zero; rc_y := f64_zero; rc_width := f64_of_Z 80; rc_height := f64_of_Z 20 |}.
Definition sample_point : RenderPoint := {| pt_x := f64_of_Z 3; pt_y := f64_of_Z 4 |}.

Definition sample_commit (id : positive) : RenderCommit :=
  {| commit_version := 1; commit_id := id; commit_revision := sample_revision 1;
     commit_viewport := sample_viewport 800;
     geometry_index := [{| geo_node_id := 1; geo_fragment_id := 1; geo_border_box := sample_rect;
       geo_padding_box := sample_rect; geo_content_box := sample_rect; geo_clip := None;
       geo_scroll_node_id := Some 9%positive; geo_paint_order := 0 |}];
     hit_test_handle := 21; text_query_handle := 22;
     scroll_snapshot := [{| ss_scroll_node_id := 9; ss_node_id := 1;
       ss_offset := {| pt_x := f64_zero; pt_y := f64_zero |}; ss_max_offset := sample_point;
       ss_viewport := sample_rect;
       ss_content_size := {| sz_width := f64_of_Z 80; sz_height := f64_of_Z 20 |} |}];
     semantic_bounds := [{| sb_semantic_node_id := 7; sb_node_id := 1; sb_rects := [sample_rect] |}];
     truncations := [] |}.

Definition sample_presented (id : positive) : RenderPresented :=
  {| pres_version := 1; pres_context_id := 1; pres_document_id := 2; pres_commit_id := id;
     pres_revision := sample_revision 1 |}.

Definition sample_scroll : RenderScrollCommand :=
  {| sc_version := 1; sc_command_id := 5; sc_context_id := 1; sc_document_id := 2;
     sc_displayed_commit_id := 1; sc_revision := sample_revision 1; sc_scroll_node_id := 9;
     sc_kind := ScrollTo sample_point |}.

Definition sample_action : RenderSemanticActionTarget :=
  {| sat_version := 1; sat_request_id := 6; sat_context_id := 1; sat_document_id := 2;
     sat_displayed_commit_id := 1; sat_revision := sample_revision 1; sat_semantic_node_id := 7;
     sat_action_generation := 3; sat_action := SetSelection 1 3 |}.

Definition sample_ops : list commit_op :=
  [OpCommit sample_replica (sample_commit 1); OpPresented sample_replica (sample_presented 1)].
Definition sample_later_ops : list commit_op :=
  [OpCommit sample_replica (sample_commit 2); OpPresented sample_replica (sample_presented 2)].

Definition sample_state : RenderCommitState := log_state (run_commits sample_ops).

Lemma sample_stays : stays_on_document (sample_revision 1) sample_later_ops.
Proof.
  intros source c Hin. unfold sample_later_ops in Hin.
  rewrite !elem_of_cons in Hin. destruct Hin as [[= -> ->]|[?|?%not_elem_of_nil]]; done.
Qed.

Lemma scroll_command_not_replayed_witness :
  is_ok (consume_scroll_command sample_replica sample_scroll sample_state).2 = true ∧
  ∃ e, (consume_scroll_command sample_replica sample_scroll
    (log_state (run_commits (sample_ops ++ OpScroll sample_replica sample_scroll :: sample_later_ops)))).2
    = Err e.
Proof.
  split; [vm_compute; reflexivity|].
  destruct (scroll_command_not_replayed sample_ops sample_later_ops sample_replica sample_replica
    sample_scroll sample_scroll (consume_scroll_command sample_replica sample_scroll sample_state).1)
    as [e He]; [vm_compute; reflexivity | exact sample_stays | reflexivity | reflexivity |].
  exists e. by rewrite He.
Defined.

Lemma semantic_action_not_replayed_witness :
  is_ok (consume_semantic_action sample_replica sample_action sample_state).2 = true ∧
  ∃ e, (consume_semantic_action sample_replica sample_action
    (log_state (run_commits (sample_ops ++ OpAction sample_replica sample_action :: sample_later_ops)))).2
    = Err e.
Proof.
  split; [vm_compute; reflexivity|].
  destruct (semantic_action_not_replayed sample_ops sample_later_ops sample_replica sample_replica
    sample_action sample_action (consume_semantic_action sample_replica sample_action sample_state).1)
    as [e He]; [vm_compute; reflexivity | exact sample_stays | reflexivity | reflexivity |].
  exists e. by rewrite He.
Defined.

Definition sample_text_batch : RenderTextQueryBatch :=
  {| tqb_version := 1; tqb_context_id := 1; tqb_document_id := 2; tqb_commit_id := 1;
     tqb_revision := sample_revision 1; tqb_handle := 22; tqb_allow_truncation := false;
     tqb_queries := [{| tq_query_id := 31; tq_node_id := 2; tq_kind := CaretForOffset 3 Upstream |};
                     {| tq_query_id := 30; tq_node_id := 2; tq_kind := RangeBoxes 0 2 |}] |}.

Definition sample_text_response : RenderTextQueryBatchResult :=
  {| tqbr_version := 1; tqbr_context_id := 1; tqbr_document_id := 2; tqbr_commit_id := 1;
     tqbr_revision := sample_revision 1;
     tqbr_results := [{| tqr_query_id := 30; tqr_value := VRangeBoxes
                          [{| tb_rect := sample_rect; tb_direction := LeftToRight |}] |};
                      {| tqr_query_id := 31; tqr_value := VCaret sample_rect Upstream |}];
     tqbr_truncations := [] |}.

Lemma text_query_result_complete_witness :
  tqr_query_id <$> tqbr_results sample_text_response ≡ₚ tq_query_id <$> tqb_queries sample_text_batch.
Proof.
  apply (text_query_result_complete sample_state sample_replica). vm_compute. reflexivity.
Defined.

Definition sample_hit_query : RenderHitTestQuery :=
  {| ht_version := 1; ht_query_id := 40; ht_context_id := 1; ht_document_id := 2;
     ht_displayed_commit_id := 1; ht_revision := sample_revision 1; ht_handle := 21;
     ht_point := sample_point |}.

Definition sample_input_target : RenderInputTarget :=
  {| it_version := 1; it_query_id := 40; it_context_id := 1; it_document_id := 2;
     it_displayed_commit_id := 1; it_revision := sample_revision 1; it_handle := 21;
     it_node_id := 1; it_fragment_id := 1; it_viewport_point := sample_point;
     it_local_point := sample_point |}.

Lemma input_target_sound_witness :
  ∃ c, presented sample_state = Some c ∧
       ∃ g, g ∈ geometry_index c ∧ geo_node_id g = it_node_id sample_input_target.
Proof.
  destruct (input_target_sound sample_state sample_replica sample_hit_query sample_input_target)
    as (c & Hc & _ & _ & _ & _ & _ & _ & _ & _ & _ & g & Hg & Hn & _);
    [vm_compute; reflexivity|]. exists c. split; [exact Hc|]. by exists g.
Defined.
