(* ===== verification/RenderBridge.v ===== *)
(** * Renderer request and response messages

    [crates/vixen-api/src/render/broker.rs], definitions only: ordinary asynchronous updates
    and submissions, the five bounded requests, and the check of a response against the
    request it answers.  The theorems are in [RenderBridgeFacts]. *)

From Stdlib Require Import Strings.Byte.
From stdpp Require Import base decidable gmap sets list strings.
From S2P Require Import Prelude.
From S2P Require Import RustFloat.
From S2P Require Import RenderModel.
From S2P Require Import RenderSource.
From S2P Require Import RenderCommit.
Import render_error_codes.

Definition stale_error (message : rstr) : RenderProtocolError := protocol_error STALE message.

(** This file's own [limit_error]. *)
Definition count_limit_error (description : rstr) (actual limit : N) : RenderProtocolError :=
  protocol_error LIMIT
    (description ++ lit " count " ++ dec actual ++ lit " exceeds limit " ++ dec limit).

Definition check_count (description : rstr) (actual limit : N) : presult unit :=
  throw_if (bool_decide (limit < actual)%N) (count_limit_error description actual limit).

Definition validate_revision_identity (context_id document_id : N) (revision : RenderRevision)
    (description : rstr) : presult unit :=
  throw_if (bool_decide (id_get (rev_context_id revision) ≠ context_id) ||
            bool_decide (id_get (rev_document_id revision) ≠ document_id))
    (stale_error (description ++ lit " identity does not match its revision")).

(** ** Messages *)

Record RenderCaptureRequest : Type := {
  cap_context_id : BrowsingContextId;
  cap_document_id : DocumentId;
  cap_displayed_commit_id : N;
  cap_revision : RenderRevision;
  cap_viewport : RenderViewport;
}.

Definition RenderCaptureRequest_validate (self : RenderCaptureRequest) : presult unit :=
  _ ← RenderRevision_validate (cap_revision self);
  _ ← validate_revision_identity (id_get (cap_context_id self)) (id_get (cap_document_id self))
        (cap_revision self) (lit "capture request");
  _ ← throw_if (bool_decide (cap_displayed_commit_id self = 0%N))
        (protocol_error UNKNOWN_ID (lit "capture request commit id must be nonzero"));
  RenderViewport_validate (cap_viewport self).

Inductive RenderBridgeUpdate : Type :=
| FullSnapshot (snapshot : FullRenderSnapshot)
| MutationBatch (batch : RenderMutationBatch)
| ReleaseHandles (release : RenderHandleRelease).

Definition RenderBridgeUpdate_validate (self : RenderBridgeUpdate) : presult unit :=
  match self with
  | FullSnapshot snapshot => FullRenderSnapshot_validate snapshot
  | MutationBatch batch => RenderMutationBatch_validate batch
  | ReleaseHandles release => validate_version (rel_version release)
  end.

Definition validate_commit_for_revision (commit : RenderCommit) (required_revision : RenderRevision)
    : presult unit :=
  _ ← validate_version (commit_version commit);
  _ ← throw_if (bool_decide (commit_revision commit ≠ required_revision))
        (stale_error (lit "renderer commit does not match the requested revision"));
  _ ← RenderViewport_validate (commit_viewport commit);
  _ ← check_count (lit "geometry entry") (len (geometry_index commit)) RENDER_MAX_GEOMETRY_ENTRIES;
  _ ← check_count (lit "scroll entry") (len (scroll_snapshot commit)) RENDER_MAX_SCROLL_ENTRIES;
  _ ← check_count (lit "semantic bounds") (len (semantic_bounds commit)) RENDER_MAX_SEMANTIC_BOUNDS;
  _ ← check_count (lit "truncation diagnostic") (len (truncations commit))
        RENDER_MAX_TRUNCATION_DIAGNOSTICS;
  throw_if (existsb trunc_required (truncations commit))
    (protocol_error TRUNCATED_REQUIRED (lit "renderer commit omitted required output")).

Inductive RenderBridgeSubmission : Type :=
| SubmitCommit (commit : RenderCommit)
| SubmitPresented (presented : RenderPresented)
| SubmitResync (request : RenderResyncRequest).

(** [if let Some(revision) = revision { revision.validate()?; validate_revision_identity(..)?; }] *)
Definition validate_resync_revision (request : RenderResyncRequest) (revision : option RenderRevision)
    (description : rstr) : presult unit :=
  match revision with
  | Some revision =>
      _ ← RenderRevision_validate revision;
      validate_revision_identity (id_get (resync_context_id request))
        (id_get (resync_document_id request)) revision description
  | None => Ok tt
  end.

Definition validate_transport (self : RenderBridgeSubmission) : presult unit :=
  match self with
  | SubmitCommit commit => validate_commit_for_revision commit (commit_revision commit)
  | SubmitPresented presented =>
      _ ← validate_version (pres_version presented);
      _ ← RenderRevision_validate (pres_revision presented);
      validate_revision_identity (id_get (pres_context_id presented))
        (id_get (pres_document_id presented)) (pres_revision presented) (lit "presentation")
  | SubmitResync request =>
      _ ← validate_version (resync_version request);
      _ ← validate_resync_revision request (resync_current_revision request)
            (lit "resync current revision");
      _ ← validate_resync_revision request (resync_rejected_base_revision request)
            (lit "resync rejected revision");
      Ok tt
  end.

(** ** Requests *)

Inductive RenderBrokerRequestKind : Type :=
| EnsureLayout (required_revision : RenderRevision)
| ReqHitTest (query : RenderHitTestQuery)
| ReqTextQuery (batch : RenderTextQueryBatch)
| CaptureScene (capture : RenderCaptureRequest)
| ReqReset (context_id : BrowsingContextId) (document_id : DocumentId).

Record RenderBrokerRequest : Type := {
  req_version : N;
  req_request_id : RenderRequestId;
  req_kind : RenderBrokerRequestKind;
}.

(** One turn of the query loop of [RenderBrokerRequest::validate]: [query_ids]. *)
Definition check_request_query (query_ids : gset positive) (query : RenderTextQuery)
    : presult (gset positive) :=
  _ ← throw_if (bool_decide (tq_query_id query ∈ query_ids))
        (protocol_error DUPLICATE_ID (lit "text-query request repeats a query id"));
  _ ← match tq_kind query with
      | OffsetForPoint point => RenderPoint_validate point (lit "text-query request point")
      | RangeBoxes utf16_start utf16_end =>
          throw_if (bool_decide (utf16_end < utf16_start)%N)
            (protocol_error INVALID_GEOMETRY (lit "text-query request range is reversed"))
      | CaretForOffset _ _ => Ok tt
      end;
  Ok ({[tq_query_id query]} ∪ query_ids).

Definition RenderBrokerRequest_validate (self : RenderBrokerRequest) : presult unit :=
  _ ← validate_version (req_version self);
  match req_kind self with
  | EnsureLayout required_revision => RenderRevision_validate required_revision
  | ReqHitTest query =>
      _ ← validate_version (ht_version query);
      _ ← RenderRevision_validate (ht_revision query);
      _ ← validate_revision_identity (id_get (ht_context_id query)) (id_get (ht_document_id query))
            (ht_revision query) (lit "hit-test request");
      RenderPoint_validate (ht_point query) (lit "hit-test request point")
  | ReqTextQuery batch =>
      _ ← validate_version (tqb_version batch);
      _ ← RenderRevision_validate (tqb_revision batch);
      _ ← validate_revision_identity (id_get (tqb_context_id batch)) (id_get (tqb_document_id batch))
            (tqb_revision batch) (lit "text-query request");
      _ ← check_count (lit "text query") (len (tqb_queries batch)) RENDER_MAX_TEXT_QUERIES;
      _ ← for_each check_request_query ∅ (tqb_queries batch);
      Ok tt
  | CaptureScene capture => RenderCaptureRequest_validate capture
  | ReqReset _ _ => Ok tt
  end.

(** ** Responses *)

Inductive RenderBrokerCancellation : Type :=
| Navigation | Stop | ContextClosed | Shutdown | Deadline.
#[export] Instance RenderBrokerCancellation_eq_dec : EqDecision RenderBrokerCancellation.
Proof. solve_decision. Defined.

Inductive RenderBrokerResponseKind : Type :=
| RespCommit (commit : RenderCommit)
| RespHitTest (target : option RenderInputTarget)
| RespTextQuery (result : RenderTextQueryBatchResult)
| CapturePng (png : list Byte.byte)
| RespReset
| Cancelled (reason : RenderBrokerCancellation)
| Failed (failed_code failed_message : rstr).

Record RenderBrokerResponse : Type := {
  resp_version : N;
  resp_request_id : RenderRequestId;
  resp_kind : RenderBrokerResponseKind;
}.

Definition PNG_SIGNATURE : list Byte.byte :=
  [Byte.x89; Byte.x50; Byte.x4e; Byte.x47; Byte.x0d; Byte.x0a; Byte.x1a; Byte.x0a].

(** [png.starts_with(signature)] *)
Definition starts_with (signature bytes : list Byte.byte) : bool :=
  bool_decide (take (length signature) bytes = signature).

Definition validate_capture_response (_ : RenderCaptureRequest) (png : list Byte.byte) : presult unit :=
  _ ← throw_if (bool_decide (len png < 24)%N || bool_decide (RENDER_MAX_CAPTURE_BYTES < len png)%N)
        (protocol_error LIMIT (lit "renderer capture PNG size is outside its bounded range"));
  throw_if (negb (starts_with PNG_SIGNATURE png))
    (protocol_error INVALID_GRAPH (lit "renderer capture response is not a PNG")).

Definition validate_hit_test_response (query : RenderHitTestQuery) (target : RenderInputTarget)
    : presult unit :=
  _ ← validate_version (it_version target);
  _ ← throw_if (bool_decide (it_query_id target ≠ ht_query_id query) ||
                bool_decide (it_context_id target ≠ ht_context_id query) ||
                bool_decide (it_document_id target ≠ ht_document_id query) ||
                bool_decide (it_displayed_commit_id target ≠ ht_displayed_commit_id query) ||
                bool_decide (it_revision target ≠ ht_revision query) ||
                bool_decide (it_handle target ≠ ht_handle query) ||
                negb (it_viewport_point target ==? ht_point query))
        (stale_error (lit "renderer hit-test response does not match its request"));
  _ ← RenderPoint_validate (it_viewport_point target) (lit "hit-test response point");
  RenderPoint_validate (it_local_point target) (lit "hit-test response local point").

(** One turn of the result loop of [validate_text_query_response]: ([seen], [text_boxes]). *)
Definition check_response_result (expected : gmap positive RenderTextQuery) (s : gset positive * N)
    (result : RenderTextQueryResult) : presult (gset positive * N) :=
  let '(seen, text_boxes) := s in
  _ ← throw_if (bool_decide (tqr_query_id result ∈ seen))
        (protocol_error DUPLICATE_ID (lit "renderer text-query response repeats a query id"));
  query ← ok_or (expected !! tqr_query_id result)
        (stale_error (lit "renderer text-query response contains an unknown query id"));
  text_boxes ←
    match tq_kind query, tqr_value result with
    | OffsetForPoint _, VOffset _ _ => Ok text_boxes
    | CaretForOffset _ _, VCaret rect _ =>
        _ ← RenderRect_validate rect (lit "text-query caret response");
        Ok text_boxes
    | RangeBoxes _ _, VRangeBoxes boxes =>
        text_boxes ← ok_or (checked_add text_boxes (len boxes))
          (count_limit_error (lit "text box") usize_max RENDER_MAX_TEXT_BOXES);
        _ ← check_count (lit "text box") text_boxes RENDER_MAX_TEXT_BOXES;
        _ ← for_each (λ _ text_box,
              RenderRect_validate (tb_rect text_box) (lit "text-query range response")) tt boxes;
        Ok text_boxes
    | _, _ =>
        Err (protocol_error INVALID_GRAPH
               (lit "renderer text-query response value kind does not match its request"))
    end;
  Ok ({[tqr_query_id result]} ∪ seen, text_boxes).

Definition validate_text_query_response (request : RenderTextQueryBatch)
    (response : RenderTextQueryBatchResult) : presult unit :=
  _ ← validate_version (tqbr_version response);
  _ ← throw_if (bool_decide (tqbr_context_id response ≠ tqb_context_id request) ||
                bool_decide (tqbr_document_id response ≠ tqb_document_id request) ||
                bool_decide (tqbr_commit_id response ≠ tqb_commit_id request) ||
                bool_decide (tqbr_revision response ≠ tqb_revision request))
        (stale_error (lit "renderer text-query response does not match its request"));
  _ ← check_count (lit "truncation diagnostic") (len (tqbr_truncations response))
        RENDER_MAX_TRUNCATION_DIAGNOSTICS;
  _ ← throw_if (negb (tqb_allow_truncation request) &&
                existsb (λ t, trunc_required t || bool_decide (0 < trunc_omitted t)%N)
                  (tqbr_truncations response))
        (protocol_error TRUNCATED_REQUIRED (lit "renderer text-query response was truncated"));
  _ ← throw_if (bool_decide (len (tqbr_results response) ≠ len (tqb_queries request)))
        (protocol_error INVALID_GRAPH
           (lit "renderer text-query result count does not match its request"));
  _ ← for_each (check_response_result (index_by (tqb_queries request))) (∅, 0%N)
        (tqbr_results response);
  Ok tt.

(** The [matches!] of [validate_for]. *)
Definition matching_kind (request : RenderBrokerRequestKind) (response : RenderBrokerResponseKind)
    : bool :=
  match request, response with
  | EnsureLayout _, RespCommit _ | ReqHitTest _, RespHitTest _ | ReqTextQuery _, RespTextQuery _
  | CaptureScene _, CapturePng _ | ReqReset _ _, RespReset => true
  | _, Cancelled _ => true
  | _, Failed _ _ => true
  | _, _ => false
  end.

(** [RenderBrokerResponse::validate_for]; [None] is the panic of its [unreachable!] arm. *)
Definition validate_for (self : RenderBrokerResponse) (request : RenderBrokerRequest)
    : option (presult unit) :=
  match validate_version (resp_version self) with
  | Err e => Some (Err e)
  | Ok _ =>
      if bool_decide (resp_request_id self ≠ req_request_id request) then
        Some (Err (protocol_error STALE
          (lit "renderer broker response request id does not match")))
      else if negb (matching_kind (req_kind request) (resp_kind self)) then
        Some (Err (protocol_error INVALID_GRAPH
          (lit "renderer broker response kind does not match its request")))
      else if match resp_kind self with
              | Failed c m => bool_decide (256 < str_len c)%N || bool_decide (4096 < str_len m)%N
              | _ => false
              end then
        Some (Err (protocol_error LIMIT
          (lit "renderer broker failure text exceeds its transport limit")))
      else
        match req_kind request, resp_kind self with
        | EnsureLayout required_revision, RespCommit commit =>
            Some (validate_commit_for_revision commit required_revision)
        | ReqHitTest query, RespHitTest (Some target) => Some (validate_hit_test_response query target)
        | ReqTextQuery batch, RespTextQuery result => Some (validate_text_query_response batch result)
        | CaptureScene capture, CapturePng png => Some (validate_capture_response capture png)
        | ReqReset _ _, RespReset => Some (Ok tt)
        | _, Cancelled _ => Some (Ok tt)
        | _, Failed _ _ => Some (Ok tt)
        | ReqHitTest _, RespHitTest None => Some (Ok tt)
        | _, _ => None
        end
  end.
