(* ===== verification/RendererBroker.v ===== *)
(** * The bounded renderer broker

    [crates/vixen-ffi/src/renderer_broker.rs], definitions only.  Every method body between
    taking and dropping the mutex guard is one function on [State]; the channels of the
    waiting requesters, the sends that happen after the guard is dropped and the id counter
    are the rest of a [World], and [broker_step] interleaves the atomic pieces of all
    threads.  The theorems are in [RenderBridgeFacts].

    The mutex is never poisoned here: no body panics while it holds the guard. *)

From stdpp Require Import base decidable gmap sets list strings relations.
From S2P Require Import Prelude.
From S2P Require Import RustFloat.
From S2P Require Import RenderModel.
From S2P Require Import RenderSource.
From S2P Require Import RenderCommit.
From S2P Require Import RenderBridge.

Definition RENDER_BROKER_QUEUE_CAPACITY : N := 64.
Definition RENDER_BROKER_MAX_UPDATE_SOURCE_BYTES : N := 512 * 1024.
(** [c_abi::VIXEN_MAX_OUTPUT_BYTES] *)
Definition VIXEN_MAX_OUTPUT_BYTES : N := 1048576.

Inductive RenderBrokerMessage : Type :=
| MRequest (request : RenderBrokerRequest)
| MUpdate (update : RenderBridgeUpdate).

Record RenderBrokerError : Type := broker_error { be_code : string; be_message : rstr }.
#[export] Instance RenderBrokerError_eq_dec : EqDecision RenderBrokerError.
Proof. solve_decision. Defined.

(** [.map_err(|error| RenderBrokerError::new(error.code, error.message))] *)
Definition of_protocol_error (e : RenderProtocolError) : RenderBrokerError :=
  broker_error (code e) (message e).

Definition closed_error : RenderBrokerError :=
  broker_error "render.closed" (lit "renderer broker is closed").
Definition unknown_request_error : RenderBrokerError :=
  broker_error "render.unknown-request"
    (lit "renderer response is stale, duplicate, or unknown").
Definition internal_error (message : string) : RenderBrokerError :=
  broker_error "render.internal" (lit message).
Definition queue_full_error (message : string) : RenderBrokerError :=
  broker_error "render.queue-full" (lit message).

(** ** The state behind the mutex
    A [PendingRequest] also holds the sender of the requester's channel, which is identified
    by the request id: ids are never reused. *)

(** An [Instant] in nanoseconds; it counts seconds in an [i64]. *)
Abbreviation Instant := N (only parsing).
Definition instant_max : N := 9223372036854775808 * 1000000000 - 1.

(** [Instant::checked_add] *)
Definition instant_checked_add (i timeout : N) : option Instant :=
  if bool_decide (i + timeout ≤ instant_max)%N then Some (i + timeout)%N else None.

Record PendingRequest : Type := { p_request : RenderBrokerRequest; p_deadline : Instant }.

Inductive QueuedMessage : Type :=
| QRequest (request_id : RenderRequestId)
| QUpdate (update : RenderBridgeUpdate).

Record State : Type := {
  closed : bool;
  outbound : list QueuedMessage;
  pending : gmap RenderRequestId PendingRequest;
  submissions : list RenderBridgeSubmission;
}.

(** [State::default()] *)
Definition State_default : State :=
  {| closed := false; outbound := []; pending := ∅; submissions := [] |}.

Definition set_outbound v (s : State) : State :=
  {| closed := closed s; outbound := v; pending := pending s; submissions := submissions s |}.
Definition set_pending v (s : State) : State :=
  {| closed := closed s; outbound := outbound s; pending := v; submissions := submissions s |}.
Definition set_submissions v (s : State) : State :=
  {| closed := closed s; outbound := outbound s; pending := pending s; submissions := v |}.
Definition set_closed v (s : State) : State :=
  {| closed := v; outbound := outbound s; pending := pending s; submissions := submissions s |}.

Abbreviation BM := (M State RenderBrokerError) (only parsing).

Definition is_update (m : QueuedMessage) : bool :=
  match m with QUpdate _ => true | QRequest _ => false end.

Definition queued_updates (s : State) : N :=
  len (filter (λ m, is_update m = true) (outbound s)).

Definition ensure_update_capacity (state : State) (additional : N) : result RenderBrokerError unit :=
  throw_if (bool_decide
      (RENDER_BROKER_QUEUE_CAPACITY < usize_saturating_add (queued_updates state) additional)%N)
    (queue_full_error "renderer update queue is full").

(** [state.outbound.retain(|message| !matches!(message, Request(queued) if *queued == id))] *)
Definition is_request_of (id : RenderRequestId) (m : QueuedMessage) : bool :=
  match m with QRequest queued => bool_decide (queued = id) | QUpdate _ => false end.
Definition without_request (id : RenderRequestId) (q : list QueuedMessage) : list QueuedMessage :=
  filter (λ m, is_request_of id m = false) q.

(** ** Update sizes *)

(** [iter.try_fold(0usize, |size, x| size.checked_add(f(x)?))] *)
Definition try_fold_sizes {A} (f : A → option N) (l : list A) : option N :=
  foldl (λ acc x, size ← acc; n ← f x; checked_add size n) (Some 0%N) l.

Definition node_source_size (node : RenderNode) : option N :=
  let kind_size := match node_kind node with
                   | Element local_name => str_len local_name
                   | Text text | PseudoBefore text | PseudoAfter text => str_len text
                   end in
  styles_size ← foldl (λ acc style,
      size ← acc; size ← checked_add size (str_len (sty_name style));
      checked_add size (str_len (sty_value style))) (Some 0%N) (node_styles node);
  let semantic_size :=
    match node_semantic node with
    | None => Some 0%N
    | Some semantic =>
        size ← checked_add (str_len (sem_role semantic)) (str_len (sem_name semantic));
        checked_add size (match sem_value semantic with Some v => str_len v | None => 0%N end)
    end in
  size ← checked_add kind_size styles_size;
  semantic_size ← semantic_size;
  checked_add size semantic_size.

Definition resource_source_size (resource : RenderResource) : option N :=
  checked_add (str_len (res_mime resource)) (len (res_bytes resource)).

Definition mutation_source_size (mutation : RenderMutation) : option N :=
  match mutation with
  | UpsertNode node => node_source_size node
  | UpsertResource resource => resource_source_size resource
  | SetViewport _ | RemoveNode _ | RemoveResource _ | SetScrollIntent _ | RemoveScrollIntent _ =>
      Some 0%N
  end.

Definition update_source_size (update : RenderBridgeUpdate) : option N :=
  match update with
  | FullSnapshot snapshot =>
      size ← try_fold_sizes node_source_size (snap_nodes snapshot);
      resources ← try_fold_sizes resource_source_size (snap_resources snapshot);
      checked_add size resources
  | MutationBatch batch => try_fold_sizes mutation_source_size (batch_mutations batch)
  | ReleaseHandles _ => Some 0%N
  end.

(** [same_submission_identity] *)
Definition same_submission_identity (a b : RenderBridgeSubmission) : bool :=
  match a, b with
  | SubmitCommit a, SubmitCommit b =>
      bool_decide (commit_id a = commit_id b) &&
      bool_decide (commit_revision a = commit_revision b)
  | SubmitPresented a, SubmitPresented b => bool_decide (a = b)
  | SubmitResync a, SubmitResync b => bool_decide (a = b)
  | _, _ => false
  end.

(** ** Methods: what each does while it holds the mutex *)

Section broker.
(** [serde_json::to_vec(&render_wire::update_json(update))]: the number of bytes, or an
    encoding error. *)
Context (encoded_size : RenderBridgeUpdate → option N).

Definition validate_update (update : RenderBridgeUpdate) : result RenderBrokerError unit :=
  _ ← map_err of_protocol_error (RenderBridgeUpdate_validate update);
  source_size ← ok_or (update_source_size update)
    (broker_error "render.payload-too-large" (lit "renderer update source size overflowed"));
  _ ← throw_if (bool_decide (RENDER_BROKER_MAX_UPDATE_SOURCE_BYTES < source_size)%N)
    (broker_error "render.payload-too-large"
       (lit "renderer update source is " ++ dec source_size ++
        lit " bytes; transport source limit is " ++ dec RENDER_BROKER_MAX_UPDATE_SOURCE_BYTES));
  encoded ← ok_or (encoded_size update)
    (internal_error "renderer update could not be encoded");
  throw_if (bool_decide (VIXEN_MAX_OUTPUT_BYTES < encoded)%N)
    (broker_error "render.payload-too-large"
       (lit "renderer update is " ++ dec encoded ++ lit " bytes; transport limit is " ++
        dec VIXEN_MAX_OUTPUT_BYTES)).

(** [for update in &updates { validate_update(update)?; }] *)
Definition validate_updates (updates : list RenderBridgeUpdate) : result RenderBrokerError unit :=
  for_each (λ _ update, validate_update update) tt updates.

Definition publish_updates (updates : list RenderBridgeUpdate) : BM unit :=
  _ ← lift (validate_updates updates);
  state ← get;
  _ ← lift (throw_if (closed state) closed_error);
  _ ← lift (ensure_update_capacity state (len updates));
  modify (λ s, set_outbound (outbound s ++ (QUpdate <$> updates)) s).

Definition publish_update (update : RenderBridgeUpdate) : BM unit := publish_updates [update].

Definition consume_submission_with_updates (expected : RenderBridgeSubmission)
    (updates : list RenderBridgeUpdate) : BM unit :=
  _ ← lift (validate_updates updates);
  state ← get;
  _ ← lift (throw_if (closed state) closed_error);
  _ ← lift (throw_if
        (negb (is_some_and (head (submissions state)) (λ front, same_submission_identity front expected)))
        (broker_error "render.stale"
           (lit "renderer submission queue changed before acceptance")));
  _ ← lift (ensure_update_capacity state (len updates));
  _ ← modify (λ s, set_submissions (tail (submissions s)) s);
  modify (λ s, set_outbound (outbound s ++ (QUpdate <$> updates)) s).
End broker.

(** The block of [request_cancellable] that registers the request. *)
Definition enqueue_request (request : RenderBrokerRequest) (deadline : Instant) : BM unit :=
  state ← get;
  _ ← lift (throw_if (closed state) closed_error);
  _ ← lift (throw_if (bool_decide (RENDER_BROKER_QUEUE_CAPACITY ≤ N.of_nat (size (pending state)))%N)
        (queue_full_error "renderer in-flight request limit reached"));
  _ ← modify (λ s, set_pending (<[req_request_id request :=
        {| p_request := request; p_deadline := deadline |}]> (pending s)) s);
  modify (λ s, set_outbound (outbound s ++ [QRequest (req_request_id request)]) s).

(** The [while let Some(message) = state.outbound.pop_front()] loop: the message to return
    and the queue that is left.  [now id] is the clock when the entry of [id] is looked at. *)
Fixpoint scan_outbound (now : RenderRequestId → Instant) (pending : gmap RenderRequestId PendingRequest)
    (queue : list QueuedMessage) : option RenderBrokerMessage * list QueuedMessage :=
  match queue with
  | [] => (None, [])
  | QRequest request_id :: queue =>
      match pending !! request_id with
      | None => scan_outbound now pending queue
      | Some p =>
          if bool_decide (p_deadline p ≤ now request_id)%N then scan_outbound now pending queue
          else (Some (MRequest (p_request p)), queue)
      end
  | QUpdate update :: queue => (Some (MUpdate update), queue)
  end.

(** One turn of the loop of [poll_message]; [Ok None] means that it waits again or gives up
    because its own deadline passed. *)
Definition poll_message (now : RenderRequestId → Instant) : BM (option RenderBrokerMessage) :=
  state ← get;
  let '(found, rest) := scan_outbound now (pending state) (outbound state) in
  _ ← modify (set_outbound rest);
  match found with
  | Some message => mret (Some message)
  | None =>
      _ ← lift (throw_if (closed state) closed_error);
      mret None
  end.

Definition submit (submission : RenderBridgeSubmission) : BM unit :=
  _ ← lift (map_err of_protocol_error (validate_transport submission));
  state ← get;
  _ ← lift (throw_if (closed state) closed_error);
  _ ← lift (throw_if (bool_decide (RENDER_BROKER_QUEUE_CAPACITY ≤ len (submissions state))%N)
        (queue_full_error "renderer submission queue is full"));
  modify (λ s, set_submissions (submissions s ++ [submission]) s).

Definition peek_submission : BM (option RenderBridgeSubmission) :=
  state ← get;
  _ ← lift (throw_if (closed state) closed_error);
  mret (head (submissions state)).

(** The block of [respond] that takes the pending request out. *)
Definition respond_take (now : Instant) (id : RenderRequestId) : BM PendingRequest :=
  state ← get;
  _ ← lift (throw_if (is_some_and (pending state !! id) (λ p, bool_decide (p_deadline p ≤ now)%N))
        (broker_error "render.stale"
           (lit "renderer response arrived after the request deadline")));
  p ← lift (ok_or (pending state !! id) unknown_request_error);
  _ ← modify (λ s, set_pending (delete id (pending s)) s);
  _ ← modify (λ s, set_outbound (without_request id (outbound s)) s);
  mret p.

Definition remove_pending (id : RenderRequestId) (s : State) : State * option PendingRequest :=
  (set_pending (delete id (pending s)) (set_outbound (without_request id (outbound s)) s),
   pending s !! id).

(** The block of [shutdown]: the pending requests it took, or nothing when already closed. *)
Definition shutdown_take (s : State) : State * gmap RenderRequestId PendingRequest :=
  if closed s then (s, ∅)
  else ({| closed := true; outbound := []; pending := ∅; submissions := [] |}, pending s).

(** ** Threads *)

(** A requester inside [request_cancellable]: its request, its deadline and the buffer of its
    [sync_channel(1)]. *)
Record Waiter : Type := {
  w_request : RenderBrokerRequest;
  w_deadline : Instant;
  w_buffer : option RenderBrokerResponse;
}.

(** [sends] are the responses that a thread took a sender for and has not sent yet. *)
Record World : Type := {
  next_request_id : N;
  state : State;
  waiters : gmap RenderRequestId Waiter;
  sends : list (RenderRequestId * RenderBrokerResponse);
}.

Definition World_new : World :=
  {| next_request_id := 1; state := State_default; waiters := ∅; sends := [] |}.

Definition set_state v (w : World) : World :=
  {| next_request_id := next_request_id w; state := v; waiters := waiters w; sends := sends w |}.
Definition set_waiters v (w : World) : World :=
  {| next_request_id := next_request_id w; state := state w; waiters := v; sends := sends w |}.
Definition set_sends v (w : World) : World :=
  {| next_request_id := next_request_id w; state := state w; waiters := waiters w; sends := v |}.
Definition set_next_request_id v (w : World) : World :=
  {| next_request_id := v; state := state w; waiters := waiters w; sends := sends w |}.

(** A method body on the state behind the mutex, run in the world. *)
Definition locked {A} (m : BM A) : M World RenderBrokerError A := λ w,
  let '(s, r) := m (state w) in (set_state s w, r).

(** [request_cancellable] up to its waiting loop: the id of the new waiter. *)
Definition start_request (kind : RenderBrokerRequestKind) (timeout : N) (now : Instant)
    : M World RenderBrokerError RenderRequestId :=
  w ← get;
  next ← lift (ok_or (if bool_decide (next_request_id w < u64_max)%N
                      then Some (next_request_id w + 1)%N else None)
    (broker_error "render.id-exhausted" (lit "request id exhausted")));
  _ ← modify (set_next_request_id next);
  request_id ← lift (ok_or (id_new (next_request_id w))
    (broker_error "render.id-exhausted" (lit "request id is zero")));
  let request := {| req_version := RENDER_PROTOCOL_VERSION; req_request_id := request_id;
                    req_kind := kind |} in
  _ ← lift (map_err of_protocol_error (RenderBrokerRequest_validate request));
  deadline ← lift (ok_or (instant_checked_add now timeout)
    (broker_error "render.timeout" (lit "renderer request timeout exceeds the clock range")));
  _ ← locked (enqueue_request request deadline);
  _ ← modify (λ w, set_waiters (<[request_id :=
        {| w_request := request; w_deadline := deadline; w_buffer := None |}]> (waiters w)) w);
  mret request_id.

(** What [recv_timeout] finds: a response, an empty channel that can still be sent to, or a
    channel whose sender is gone. *)
Inductive Received : Type :=
| RecvOk (response : RenderBrokerResponse)
| RecvTimeout
| RecvDisconnected.

Definition has_sender (w : World) (id : RenderRequestId) : bool :=
  contains_key (pending (state w)) id || existsb (λ s, bool_decide (s.1 = id)) (sends w).

Definition receive (w : World) (id : RenderRequestId) (waiter : Waiter) : Received :=
  match w_buffer waiter with
  | Some response => RecvOk response
  | None => if has_sender w id then RecvTimeout else RecvDisconnected
  end.

Definition response_of (id : RenderRequestId) (kind : RenderBrokerResponseKind) : RenderBrokerResponse :=
  {| resp_version := RENDER_PROTOCOL_VERSION; resp_request_id := id; resp_kind := kind |}.

(** The requester returns: its receiver is dropped. *)
Definition leave (id : RenderRequestId) (w : World) : World := set_waiters (delete id (waiters w)) w.
Definition abandon (id : RenderRequestId) (w : World) : World :=
  leave id (set_state (remove_pending id (state w)).1 w).

(** One turn of the waiting loop of [request_cancellable]: what it returns, or [None] when it
    goes round again.  [cancellation] is the answer of the caller's closure. *)
Definition wait_turn (id : RenderRequestId) (waiter : Waiter)
    (cancellation : option RenderBrokerCancellation) (now : Instant) (w : World)
    : World * option (result RenderBrokerError RenderBrokerResponse) :=
  match cancellation with
  | Some reason => (abandon id w, Some (Ok (response_of id (Cancelled reason))))
  | None =>
      if bool_decide (w_deadline waiter ≤ now)%N then
        (abandon id w, Some (Err (broker_error "render.timeout"
                                    (lit "renderer request deadline expired"))))
      else
        match receive w id waiter with
        | RecvOk response => (leave id w, Some (Ok response))
        | RecvTimeout => (w, None)
        | RecvDisconnected => (abandon id w, Some (Err closed_error))
        end
  end.

(** [respond] after the guard is dropped: the response to send, and what [respond] returns
    once it is sent.  [None] is the panic of [validate_for]. *)
Definition respond_answer (response : RenderBrokerResponse) (p : PendingRequest)
    : option (RenderBrokerResponse * result RenderBrokerError unit) :=
  match validate_for response (p_request p) with
  | None => None
  | Some (Ok _) => Some (response, Ok tt)
  | Some (Err e) =>
      Some (response_of (resp_request_id response) (Failed (lit (code e)) (message e)),
            Err (of_protocol_error e))
  end.

(** [SyncSender::send] on a channel of capacity one: [None] while it blocks, otherwise
    whether the receiver was still there. *)
Definition send (id : RenderRequestId) (response : RenderBrokerResponse) (w : World)
    : option (World * bool) :=
  match waiters w !! id with
  | None => Some (w, false)
  | Some waiter =>
      match w_buffer waiter with
      | Some _ => None
      | None =>
          Some (set_waiters (<[id := {| w_request := w_request waiter;
                  w_deadline := w_deadline waiter; w_buffer := Some response |}]> (waiters w)) w, true)
      end
  end.

(** What a thread's atomic piece makes visible. *)
Inductive BrokerEvent : Type :=
| EvNone
| EvStarted (request : RenderBrokerRequest)
| EvReturned (id : RenderRequestId) (r : result RenderBrokerError RenderBrokerResponse)
| EvPublished (updates : list RenderBridgeUpdate)
| EvDelivered (m : RenderBrokerMessage).

(** One atomic piece of some thread; every method of [RenderBroker] is a sequence of these. *)
Inductive broker_step (encoded_size : RenderBridgeUpdate → option N)
    : World → BrokerEvent → World → Prop :=
| step_start w kind timeout now w' r :
    start_request kind timeout now w = (w', r) →
    broker_step encoded_size w
      match r with
      | Ok id => EvStarted {| req_version := RENDER_PROTOCOL_VERSION; req_request_id := id;
                              req_kind := kind |}
      | Err _ => EvNone
      end w'
| step_wait w id waiter cancellation now w' r :
    waiters w !! id = Some waiter →
    wait_turn id waiter cancellation now w = (w', r) →
    broker_step encoded_size w
      match r with Some r => EvReturned id r | None => EvNone end w'
| step_publish w updates s' r :
    publish_updates encoded_size updates (state w) = (s', r) →
    broker_step encoded_size w (if is_ok r then EvPublished updates else EvNone) (set_state s' w)
| step_poll w now s' r :
    poll_message now (state w) = (s', r) →
    broker_step encoded_size w
      match r with Ok (Some m) => EvDelivered m | _ => EvNone end (set_state s' w)
| step_submit w submission s' r :
    submit submission (state w) = (s', r) →
    broker_step encoded_size w EvNone (set_state s' w)
| step_consume w expected updates s' r :
    consume_submission_with_updates encoded_size expected updates (state w) = (s', r) →
    broker_step encoded_size w (if is_ok r then EvPublished updates else EvNone) (set_state s' w)
| step_respond w response now s' p answer r :
    respond_take now (resp_request_id response) (state w) = (s', Ok p) →
    respond_answer response p = Some (answer, r) →
    broker_step encoded_size w EvNone
      (set_sends (sends w ++ [(resp_request_id response, answer)]) (set_state s' w))
| step_respond_error w id now s' e :
    respond_take now id (state w) = (s', Err e) →
    broker_step encoded_size w EvNone (set_state s' w)
| step_cancel w id reason s' taken :
    remove_pending id (state w) = (s', taken) →
    broker_step encoded_size w EvNone
      (set_sends (sends w ++ match taken with
                             | Some _ => [(id, response_of id (Cancelled reason))]
                             | None => []
                             end) (set_state s' w))
| step_shutdown w s' taken :
    shutdown_take (state w) = (s', taken) →
    broker_step encoded_size w EvNone
      (set_sends (sends w ++ ((λ kp, (kp.1, response_of kp.1 (Cancelled Shutdown))) <$> map_to_list taken))
         (set_state s' w))
| step_send w before id response after w' b :
    sends w = before ++ (id, response) :: after →
    send id response (set_sends (before ++ after) w) = Some (w', b) →
    broker_step encoded_size w EvNone w'.

(** A run and the events it made visible. *)
Inductive broker_run (encoded_size : RenderBridgeUpdate → option N) : list BrokerEvent → World → Prop :=
| run_nil : broker_run encoded_size [] World_new
| run_snoc evs w ev w' :
    broker_run encoded_size evs w → broker_step encoded_size w ev w' →
    broker_run encoded_size (evs ++ [ev]) w'.

(** The ids of the requests that returned to their callers. *)
Definition returned_ids (evs : list BrokerEvent) : list RenderRequestId :=
  omap (λ ev, match ev with EvReturned id _ => Some id | _ => None end) evs.
