(* ===== verification/RenderBridgeFacts.v ===== *)
(** * Theorems on renderer requests and responses

    The check of a response never reaches its [unreachable!] arm and only accepts an answer
    to the very request; a commit that the acceptance state would take always passes the
    weaker transport check. *)

From Stdlib Require Import Lia Strings.Byte.
From stdpp Require Import base decidable gmap sets list strings relations.
From S2P Require Import Prelude.
From S2P Require Import RustFloat.
From S2P Require Import RenderModel.
From S2P Require Import RenderSource.
From S2P Require Import RenderSourceFacts.
From S2P Require Import RenderReplicaFacts.
From S2P Require Import RenderCommit.
From S2P Require Import RenderCommitFacts.
From S2P Require Import RenderBridge.
From S2P Require Import RendererBroker.
Import render_error_codes.

(** ** What a transported commit satisfies *)

Record transport_commit_ok (c : RenderCommit) (required : RenderRevision) : Prop := {
  tco_version : commit_version c = RENDER_PROTOCOL_VERSION;
  tco_revision : commit_revision c = required;
  tco_viewport : viewport_ok (commit_viewport c);
  tco_geometry : (len (geometry_index c) ≤ RENDER_MAX_GEOMETRY_ENTRIES)%N;
  tco_scroll : (len (scroll_snapshot c) ≤ RENDER_MAX_SCROLL_ENTRIES)%N;
  tco_bounds : (len (semantic_bounds c) ≤ RENDER_MAX_SEMANTIC_BOUNDS)%N;
  tco_diagnostics : (len (truncations c) ≤ RENDER_MAX_TRUNCATION_DIAGNOSTICS)%N;
  tco_not_required : Forall (λ t, trunc_required t = false) (truncations c);
}.

Lemma check_count_Ok field n limit u : check_count field n limit = Ok u ↔ (n ≤ limit)%N.
Proof. unfold check_count. rewrite throw_if_Ok, bool_decide_eq_false. lia. Qed.

Lemma neq_stable {A} `{EqDecision A} (x y : A) : (¬ x ≠ y) ↔ x = y.
Proof. split; [apply dec_stable | auto]. Qed.

Lemma existsb_false {A} (f : A → bool) l : existsb f l = false ↔ Forall (λ x, f x = false) l.
Proof.
  induction l as [|x l IH]; cbn; [by split|]. by rewrite orb_false_iff, Forall_cons, IH.
Qed.

Lemma validate_commit_for_revision_Ok c required u :
  validate_commit_for_revision c required = Ok u ↔ transport_commit_ok c required.
Proof.
  destruct u. unfold validate_commit_for_revision.
  rewrite !bind_unit_Ok, validate_version_Ok, RenderViewport_validate_Ok, !check_count_Ok,
    !throw_if_Ok, bool_decide_eq_false, neq_stable, existsb_false.
  split; [intros (?&?&?&?&?&?&?&?); by constructor | by intros []].
Qed.

(** ** Answers *)

(** The value kinds of a text query and its result agree, and the rectangles are in range. *)
Definition kind_answers (kind : RenderTextQueryKind) (v : RenderTextQueryValue) : Prop :=
  match kind, v with
  | OffsetForPoint _, VOffset _ _ => True
  | CaretForOffset _ _, VCaret rect _ => rect_ok rect
  | RangeBoxes _ _, VRangeBoxes boxes => Forall (λ b, rect_ok (tb_rect b)) boxes
  | _, _ => False
  end.

Definition text_answer (request : RenderTextQueryBatch) (response : RenderTextQueryBatchResult) : Prop :=
  tqbr_context_id response = tqb_context_id request ∧
  tqbr_document_id response = tqb_document_id request ∧
  tqbr_commit_id response = tqb_commit_id request ∧
  tqbr_revision response = tqb_revision request ∧
  len (tqbr_results response) = len (tqb_queries request) ∧
  NoDup (tqr_query_id <$> tqbr_results response) ∧
  Forall (λ r, ∃ q, index_by (tqb_queries request) !! tqr_query_id r = Some q ∧
                    kind_answers (tq_kind q) (tqr_value r)) (tqbr_results response).

Definition hit_answer (query : RenderHitTestQuery) (target : RenderInputTarget) : Prop :=
  it_query_id target = ht_query_id query ∧ it_context_id target = ht_context_id query ∧
  it_document_id target = ht_document_id query ∧
  it_displayed_commit_id target = ht_displayed_commit_id query ∧
  it_revision target = ht_revision query ∧ it_handle target = ht_handle query ∧
  (it_viewport_point target ==? ht_point query) = true ∧
  point_ok (it_viewport_point target) ∧ point_ok (it_local_point target).

Definition png_answer (png : list Byte.byte) : Prop :=
  (24 ≤ len png ≤ RENDER_MAX_CAPTURE_BYTES)%N ∧ PNG_SIGNATURE `prefix_of` png.

(** The response answers this request: same id, and a payload of the request's kind that
    matches it, a cancellation, or a bounded failure. *)
Definition answers_request (request : RenderBrokerRequest) (response : RenderBrokerResponse) : Prop :=
  resp_version response = RENDER_PROTOCOL_VERSION ∧
  resp_request_id response = req_request_id request ∧
  match req_kind request, resp_kind response with
  | EnsureLayout revision, RespCommit c => transport_commit_ok c revision
  | ReqHitTest query, RespHitTest (Some target) => hit_answer query target
  | ReqHitTest _, RespHitTest None => True
  | ReqTextQuery batch, RespTextQuery result => text_answer batch result
  | CaptureScene _, CapturePng png => png_answer png
  | ReqReset _ _, RespReset => True
  | _, Cancelled _ => True
  | _, Failed c m => (str_len c ≤ 256)%N ∧ (str_len m ≤ 4096)%N
  | _, _ => False
  end.

Lemma check_response_results_Ok expected results seen n st :
  for_each (check_response_result expected) (seen, n) results = Ok st →
  fresh_in seen (tqr_query_id <$> results) ∧
  Forall (λ r, ∃ q, expected !! tqr_query_id r = Some q ∧ kind_answers (tq_kind q) (tqr_value r)) results.
Proof.
  revert seen n. induction results as [|r results IH]; intros seen n; cbn [for_each fmap list_fmap].
  - intros _. split; [apply fresh_in_nil | constructor].
  - intros H. apply bind_Ok in H as ([seen1 n1] & H1 & [Hf Ha]%IH). unfold check_response_result in H1.
    apply bind_unit_Ok in H1 as [Hs%throw_if_Ok H1]. apply bind_Ok in H1 as (q & Hq%ok_or_Ok & H1).
    apply bind_Ok in H1 as (m & Hm & [= <- <-]). bool_inv.
    rewrite fresh_in_cons, Forall_cons. split_and!; try done. exists q. split; [done|].
    unfold kind_answers. destruct (tq_kind q), (tqr_value r); try done.
    + by apply bind_unit_Ok in Hm as [?%RenderRect_validate_Ok _].
    + apply bind_Ok in Hm as (k & _ & Hm). apply bind_unit_Ok in Hm as [_ Hm].
      apply bind_unit_Ok in Hm as [Hb%for_each_unit_Ok _]. eapply Forall_impl; [exact Hb|].
      intros b. apply RenderRect_validate_Ok.
Qed.

Lemma validate_text_query_response_Ok request response u :
  validate_text_query_response request response = Ok u → text_answer request response.
Proof.
  unfold validate_text_query_response. intros H. apply bind_unit_Ok in H as [_ H].
  apply bind_unit_Ok in H as [Hid%throw_if_Ok H]. apply bind_unit_Ok in H as [_ H].
  apply bind_unit_Ok in H as [_ H]. apply bind_unit_Ok in H as [Hlen%throw_if_Ok H].
  apply bind_Ok in H as ([seen n] & Hr & _). rewrite !orb_false_iff in Hid.
  rewrite !bool_decide_eq_false, !neq_stable in Hid. rewrite bool_decide_eq_false, neq_stable in Hlen.
  apply check_response_results_Ok in Hr as [Hf%fresh_in_empty Ha]. unfold text_answer. tauto.
Qed.

Lemma validate_hit_test_response_Ok query target u :
  validate_hit_test_response query target = Ok u → hit_answer query target.
Proof.
  unfold validate_hit_test_response. intros H. apply bind_unit_Ok in H as [_ H].
  apply bind_unit_Ok in H as [Hid%throw_if_Ok H]. apply bind_unit_Ok in H as [? H].
  rewrite !orb_false_iff, !bool_decide_eq_false, !neq_stable, negb_false_iff in Hid.
  apply RenderPoint_validate_Ok in H. ok_inv. unfold hit_answer.
  tauto.
Qed.

Lemma validate_capture_response_Ok capture png u :
  validate_capture_response capture png = Ok u → png_answer png.
Proof.
  unfold validate_capture_response. intros H.
  apply bind_unit_Ok in H as [Hl%throw_if_Ok Hs%throw_if_Ok]. bool_inv.
  unfold starts_with in Hs. bool_inv. split; [lia|].
  exists (drop (length PNG_SIGNATURE) png). by rewrite <-Hs at 1; rewrite take_drop.
Qed.

Lemma validate_for_answers response request u :
  validate_for response request = Some (Ok u) → answers_request request response.
Proof.
  unfold validate_for, answers_request. intros H.
  destruct (validate_version (resp_version response)) as [v|] eqn:Hv; [|done].
  apply validate_version_Ok in Hv. case_bool_decide as Hid; [done|].
  destruct (matching_kind (req_kind request) (resp_kind response)); cbn [negb] in H; [|done].
  split_and!; [done..|].
  destruct (req_kind request), (resp_kind response) as [|[]| | | | |]; try done; simplify_eq/=.
  all: try (destruct (_ || _) eqn:Hf; [done|]); simplify_eq/=; bool_inv.
  all: first [ by apply validate_commit_for_revision_Ok in H
             | by apply validate_hit_test_response_Ok in H
             | by apply validate_text_query_response_Ok in H
             | by apply validate_capture_response_Ok in H
             | lia ].
Qed.

Lemma validate_for_total response request : validate_for response request ≠ None.
Proof.
  unfold validate_for. destruct (validate_version _); [|done]. case_bool_decide; [done|].
  destruct (matching_kind (req_kind request) (resp_kind response)) eqn:Hm; cbn; [|done].
  destruct (match resp_kind response with Failed _ _ => _ | _ => _ end); [done|].
  by destruct (req_kind request), (resp_kind response) as [|[]| | | | |].
Qed.

(** The check of a response against its request never panics, and a response that passes
    carries the request's id and answers it: the commit has the required revision, the hit
    target and the text results name the query, a capture is a bounded PNG. *)
Theorem response_check_sound response request :
  ∃ r, validate_for response request = Some r ∧ (r = Ok tt → answers_request request response).
Proof.
  destruct (validate_for response request) as [r|] eqn:H.
  - exists r. split; [done|]. intros ->. by eapply validate_for_answers.
  - by apply validate_for_total in H.
Qed.

(** The transport check is never stricter than acceptance: whatever commit the acceptance
    state would take for some source replica passes [validate_transport]. *)
Theorem transport_accepts_valid_commits c source :
  RenderCommit_validate c source = Ok tt → validate_transport (SubmitCommit c) = Ok tt.
Proof.
  intros []%RenderCommit_validate_iff. apply validate_commit_for_revision_Ok.
  constructor; try done; by rewrite cwf_truncations.
Qed.

Lemma transport_accepts_valid_commits_witness : validate_transport (SubmitCommit (sample_commit 1)) = Ok tt.
Proof. apply (transport_accepts_valid_commits _ sample_replica). vm_compute. reflexivity. Defined.

(** * Theorems on the renderer broker

    The state behind the mutex keeps its bounds, and in every interleaving of the threads each
    request is answered at most once, by a response to that very request; no send blocks, no
    requester finds its channel abandoned, and a shutdown leaves no requester without an
    answer. *)

(** ** The queue *)

Definition queued_requests (q : list QueuedMessage) : list RenderRequestId :=
  omap (λ m, match m with QRequest id => Some id | QUpdate _ => None end) q.
Definition queued_update_list (q : list QueuedMessage) : list RenderBridgeUpdate :=
  omap (λ m, match m with QUpdate u => Some u | QRequest _ => None end) q.

Lemma queued_updates_len s : queued_updates s = len (queued_update_list (outbound s)).
Proof.
  unfold queued_updates, queued_update_list. induction (outbound s) as [|[id|u] q IH]; [done|..].
  - by rewrite filter_cons_False.
  - rewrite filter_cons_True by done. cbn. rewrite !len_cons. by rewrite IH.
Qed.

Lemma queued_requests_app q q' : queued_requests (q ++ q') = queued_requests q ++ queued_requests q'.
Proof. apply omap_app. Qed.
Lemma queued_update_list_app q q' :
  queued_update_list (q ++ q') = queued_update_list q ++ queued_update_list q'.
Proof. apply omap_app. Qed.

Lemma queued_requests_updates us : queued_requests (QUpdate <$> us) = [].
Proof. by induction us. Qed.
Lemma queued_update_list_updates us : queued_update_list (QUpdate <$> us) = us.
Proof. induction us as [|u us IH]; [done|]. cbn. unfold queued_update_list in IH. by rewrite IH. Qed.

Lemma without_request_requests id q :
  queued_requests (without_request id q) = filter (λ i, i ≠ id) (queued_requests q).
Proof.
  unfold without_request. induction q as [|[i|u] q IH]; [done|..].
  - cbn [queued_requests omap list_omap]. destruct (decide (i = id)) as [->|Hne].
    + rewrite filter_cons_False by (cbn; by rewrite bool_decide_eq_true_2).
      rewrite filter_cons_False by auto. exact IH.
    + rewrite filter_cons_True by (cbn; by rewrite bool_decide_eq_false_2).
      rewrite filter_cons_True by done. cbn. f_equal. exact IH.
  - rewrite filter_cons_True by done. exact IH.
Qed.

Lemma without_request_updates id q : queued_update_list (without_request id q) = queued_update_list q.
Proof.
  unfold without_request. induction q as [|[i|u] q IH]; [done|..].
  - destruct (decide (i = id)) as [->|Hne].
    + rewrite filter_cons_False by (cbn; by rewrite bool_decide_eq_true_2). exact IH.
    + rewrite filter_cons_True by (cbn; by rewrite bool_decide_eq_false_2). exact IH.
  - rewrite filter_cons_True by done. cbn. f_equal. exact IH.
Qed.

(** A scan takes messages from the front: what it leaves is a suffix, and everything before
    the message it found is a request that is gone or late. *)
Definition undeliverable (now : RenderRequestId → Instant) (pending : gmap RenderRequestId PendingRequest)
    (m : QueuedMessage) : Prop :=
  ∃ id, m = QRequest id ∧ ∀ p, pending !! id = Some p → (p_deadline p ≤ now id)%N.

Definition delivers (now : RenderRequestId → Instant) (pending : gmap RenderRequestId PendingRequest)
    (m : QueuedMessage) (d : RenderBrokerMessage) : Prop :=
  match m, d with
  | QRequest id, MRequest r => ∃ p, pending !! id = Some p ∧ (now id < p_deadline p)%N ∧ r = p_request p
  | QUpdate u, MUpdate u' => u' = u
  | _, _ => False
  end.

Lemma scan_outbound_spec now pending q found rest :
  scan_outbound now pending q = (found, rest) →
  ∃ dropped, Forall (undeliverable now pending) dropped ∧
    match found with
    | Some d => ∃ m, q = dropped ++ m :: rest ∧ delivers now pending m d
    | None => q = dropped ∧ rest = []
    end.
Proof.
  revert found rest. induction q as [|[id|u] q IH]; intros found rest; cbn.
  - intros [= <- <-]. by exists [].
  - assert (scan_outbound now pending q = (found, rest) → undeliverable now pending (QRequest id) →
      ∃ dropped, Forall (undeliverable now pending) dropped ∧
        match found with
        | Some d => ∃ m, QRequest id :: q = dropped ++ m :: rest ∧ delivers now pending m d
        | None => QRequest id :: q = dropped ∧ rest = []
        end) as Hskip.
    { intros (dropped & Hd & Hf)%IH Hu. exists (QRequest id :: dropped). split; [by constructor|].
      destruct found; [destruct Hf as (m & -> & ?); by exists m | by destruct Hf as [-> ->]]. }
    destruct (pending !! id) as [p|] eqn:Hp.
    + case_bool_decide.
      * intros H'. apply Hskip; [done|]. exists id. split; [done|]. intros p'. by rewrite Hp; intros [= <-].
      * intros [= <- <-]. exists []. split; [done|]. exists (QRequest id). split; [done|].
        exists p. split_and!; [done|lia|done].
    + intros H'. apply Hskip; [done|]. exists id. split; [done|]. intros p'. by rewrite Hp.
  - intros [= <- <-]. exists []. split; [done|]. by exists (QUpdate u).
Qed.

(** ** The invariant of the state behind the mutex *)

Section state_invariant.
Context (encoded_size : RenderBridgeUpdate → option N).

Record state_inv (s : State) : Prop := {
  si_pending : (N.of_nat (size (pending s)) ≤ RENDER_BROKER_QUEUE_CAPACITY)%N;
  si_updates : (queued_updates s ≤ RENDER_BROKER_QUEUE_CAPACITY)%N;
  si_submissions : (len (submissions s) ≤ RENDER_BROKER_QUEUE_CAPACITY)%N;
  si_requests : NoDup (queued_requests (outbound s));
  si_requests_pending : ∀ id, id ∈ queued_requests (outbound s) → is_Some (pending s !! id);
  si_keys : ∀ id p, pending s !! id = Some p →
    req_request_id (p_request p) = id ∧ RenderBrokerRequest_validate (p_request p) = Ok tt;
  si_valid_updates :
    Forall (λ u, validate_update encoded_size u = Ok tt) (queued_update_list (outbound s));
  si_valid_submissions : Forall (λ x, validate_transport x = Ok tt) (submissions s);
  si_closed : closed s = true → pending s = ∅ ∧ outbound s = [] ∧ submissions s = [];
}.

Lemma state_inv_default : state_inv State_default.
Proof. constructor; try done; try constructor. by intros id ?%not_elem_of_nil. Qed.

Lemma ensure_update_capacity_Ok s n u :
  ensure_update_capacity s n = Ok u ↔ (queued_updates s + n ≤ RENDER_BROKER_QUEUE_CAPACITY)%N.
Proof.
  unfold ensure_update_capacity, usize_saturating_add.
  rewrite throw_if_Ok, bool_decide_eq_false.
  assert (RENDER_BROKER_QUEUE_CAPACITY < usize_max)%N by done. lia.
Qed.

Lemma validate_updates_Ok us u :
  validate_updates encoded_size us = Ok u ↔ Forall (λ x, validate_update encoded_size x = Ok tt) us.
Proof. apply for_each_unit_Ok. Qed.

(** A successful [publish_updates] appends the whole list. *)
Lemma publish_updates_Ok us s s' u :
  publish_updates encoded_size us s = (s', Ok u) ↔
  Forall (λ x, validate_update encoded_size x = Ok tt) us ∧ closed s = false ∧
  (queued_updates s + len us ≤ RENDER_BROKER_QUEUE_CAPACITY)%N ∧
  s' = set_outbound (outbound s ++ (QUpdate <$> us)) s.
Proof.
  unfold publish_updates. rewrite lift_bind_unit_Ok, validate_updates_Ok, get_bind,
    !lift_bind_unit_Ok, throw_if_Ok, ensure_update_capacity_Ok, modify_Ok. done.
Qed.

Lemma publish_updates_atomic us : atomic (publish_updates encoded_size us).
Proof. unfold publish_updates. atomic_tac. Qed.

Lemma modify_bind {S E B} (f : S → S) (k : unit → M S E B) s : (modify f ≫= k) s = k tt (f s).
Proof. done. Qed.

Lemma consume_Ok expected us s s' u :
  consume_submission_with_updates encoded_size expected us s = (s', Ok u) ↔
  Forall (λ x, validate_update encoded_size x = Ok tt) us ∧ closed s = false ∧
  (∃ front rest, submissions s = front :: rest ∧ same_submission_identity front expected = true ∧
     s' = set_outbound (outbound s ++ (QUpdate <$> us)) (set_submissions rest s)) ∧
  (queued_updates s + len us ≤ RENDER_BROKER_QUEUE_CAPACITY)%N.
Proof.
  unfold consume_submission_with_updates. rewrite lift_bind_unit_Ok, validate_updates_Ok, get_bind,
    !lift_bind_unit_Ok, !throw_if_Ok, ensure_update_capacity_Ok, modify_bind, modify_Ok, negb_false_iff.
  cbn. destruct (submissions s) as [|front rest]; cbn; naive_solver.
Qed.

Lemma consume_atomic expected us : atomic (consume_submission_with_updates encoded_size expected us).
Proof.
  unfold consume_submission_with_updates. atomic_tac. intros s s' e. rewrite modify_bind.
  by unfold modify.
Qed.

Lemma push_updates_inv us s :
  closed s = false → Forall (λ x, validate_update encoded_size x = Ok tt) us →
  (queued_updates s + len us ≤ RENDER_BROKER_QUEUE_CAPACITY)%N →
  state_inv s → state_inv (set_outbound (outbound s ++ (QUpdate <$> us)) s).
Proof.
  intros Hc Hv Hq []. constructor; cbn; rewrite ?queued_requests_app, ?queued_requests_updates,
    ?queued_update_list_app, ?queued_update_list_updates, ?app_nil_r; try done.
  - rewrite queued_updates_len in *. cbn.
    by rewrite queued_update_list_app, queued_update_list_updates, len_app.
  - by apply Forall_app.
  - by rewrite Hc.
Qed.

Lemma publish_updates_inv us s s' r :
  publish_updates encoded_size us s = (s', r) → state_inv s → state_inv s'.
Proof.
  intros H Hi. destruct r as [u|e].
  - apply publish_updates_Ok in H as (?&?&?&->). by apply push_updates_inv.
  - by apply publish_updates_atomic in H as ->.
Qed.

Lemma consume_inv expected us s s' r :
  consume_submission_with_updates encoded_size expected us s = (s', r) → state_inv s → state_inv s'.
Proof.
  intros H Hi. destruct r as [u|e].
  - apply consume_Ok in H as (Hv & Hc & (front & rest & Hs & _ & ->) & Hq).
    apply (push_updates_inv us (set_submissions rest s)); [done..|].
    destruct Hi. rewrite Hs in *. constructor; cbn; try done.
    + rewrite len_cons in *. lia.
    + by apply Forall_cons in si_valid_submissions0 as [_ ?].
    + by rewrite Hc.
  - by apply consume_atomic in H as ->.
Qed.

Lemma submit_Ok x s s' u :
  submit x s = (s', Ok u) ↔
  validate_transport x = Ok tt ∧ closed s = false ∧
  (len (submissions s) < RENDER_BROKER_QUEUE_CAPACITY)%N ∧
  s' = set_submissions (submissions s ++ [x]) s.
Proof.
  unfold submit. rewrite lift_bind_unit_Ok, map_err_Ok, get_bind, !lift_bind_unit_Ok,
    !throw_if_Ok, modify_Ok, bool_decide_eq_false. by rewrite N.nle_gt.
Qed.

Lemma submit_atomic x : atomic (submit x).
Proof. unfold submit. atomic_tac. Qed.

Lemma submit_inv x s s' r : submit x s = (s', r) → state_inv s → state_inv s'.
Proof.
  intros H Hi. destruct r as [u|e]; [|by apply submit_atomic in H as ->].
  apply submit_Ok in H as (Hv & Hc & Hl & ->). destruct Hi. constructor; cbn; try done.
  - rewrite len_app, len_cons. unfold len at 2. cbn. lia.
  - apply Forall_app. split; [done|]. by repeat constructor.
  - by rewrite Hc.
Qed.

Lemma remove_inv id s :
  state_inv s → state_inv (set_pending (delete id (pending s)) (set_outbound (without_request id (outbound s)) s)).
Proof.
  intros []. constructor; cbn; rewrite ?without_request_requests, ?without_request_updates; try done.
  - rewrite map_size_delete. destruct (pending s !! id); cbn; lia.
  - rewrite queued_updates_len in *. cbn. by rewrite without_request_updates.
  - by apply NoDup_filter.
  - intros i [Hne Hi]%list_elem_of_filter. rewrite lookup_delete_ne by done. by apply si_requests_pending0.
  - intros i p [? ?]%lookup_delete_Some. by apply si_keys0.
  - intros Hc. destruct (si_closed0 Hc) as (-> & -> & ->). by rewrite delete_empty.
Qed.

Lemma respond_take_Ok now id s s' p :
  respond_take now id s = (s', Ok p) ↔
  pending s !! id = Some p ∧ (now < p_deadline p)%N ∧
  s' = set_pending (delete id (pending s)) (set_outbound (without_request id (outbound s)) s).
Proof.
  unfold respond_take. rewrite get_bind, lift_bind_unit_Ok, throw_if_Ok, lift_bind_Ok.
  setoid_rewrite ok_or_Ok. split.
  - intros (Hd & p' & Hp & H). rewrite Hp in Hd. cbn in Hd. bool_inv.
    cbv [mbind M_bind modify mret M_ret] in H. injection H as <- <-. split_and!; [done|lia|done].
  - intros (Hp & Hd & ->). rewrite Hp. cbn. split; [apply bool_decide_eq_false; lia|]. by exists p.
Qed.

Lemma respond_take_atomic now id : atomic (respond_take now id).
Proof.
  unfold respond_take. atomic_tac. intros s s' e. by cbv [mbind M_bind modify mret M_ret].
Qed.

Lemma enqueue_request_Ok r d s s' u :
  enqueue_request r d s = (s', Ok u) ↔
  closed s = false ∧ (N.of_nat (size (pending s)) < RENDER_BROKER_QUEUE_CAPACITY)%N ∧
  s' = set_outbound (outbound s ++ [QRequest (req_request_id r)])
         (set_pending (<[req_request_id r := {| p_request := r; p_deadline := d |}]> (pending s)) s).
Proof.
  unfold enqueue_request. rewrite get_bind, !lift_bind_unit_Ok, !throw_if_Ok, bool_decide_eq_false,
    modify_bind, modify_Ok. cbn. by rewrite N.nle_gt.
Qed.

Lemma enqueue_request_atomic r d : atomic (enqueue_request r d).
Proof.
  unfold enqueue_request. atomic_tac. intros s s' e. rewrite modify_bind. by unfold modify.
Qed.

Lemma enqueue_request_inv r d s s' res :
  enqueue_request r d s = (s', res) → pending s !! req_request_id r = None →
  RenderBrokerRequest_validate r = Ok tt → state_inv s → state_inv s'.
Proof.
  intros H Hn Hv Hi. destruct res as [u|e]; [|by apply enqueue_request_atomic in H as ->].
  apply enqueue_request_Ok in H as (Hc & Hsz & ->). destruct Hi. constructor; cbn;
    rewrite ?queued_requests_app, ?queued_update_list_app, ?app_nil_r; try done.
  - rewrite map_size_insert_None by done. lia.
  - rewrite queued_updates_len in *. cbn. by rewrite queued_update_list_app, app_nil_r.
  - apply NoDup_app. split_and!; [done| |apply NoDup_singleton].
    intros i Hi Heq%list_elem_of_singleton. subst i. apply si_requests_pending0 in Hi as [? ?]. congruence.
  - intros i [Hi|Hi%list_elem_of_singleton]%elem_of_app.
    + rewrite lookup_insert_is_Some'. right. by apply si_requests_pending0.
    + subst. by rewrite lookup_insert_eq.
  - intros i p [[<- <-]|[? ?]]%lookup_insert_Some; [done|]. by apply si_keys0.
  - by rewrite Hc.
Qed.

Lemma poll_message_state now s s' r :
  poll_message now s = (s', r) → s' = set_outbound (scan_outbound now (pending s) (outbound s)).2 s.
Proof.
  unfold poll_message. rewrite get_bind. destruct (scan_outbound _ _ _) as [found rest].
  cbv [mbind M_bind modify mret M_ret lift]. destruct found; [by intros [= <- _]|].
  destruct (throw_if _ _); by intros [= <- _].
Qed.

Lemma scan_outbound_suffix now m q : ∃ taken, q = taken ++ (scan_outbound now m q).2.
Proof.
  destruct (scan_outbound now m q) as [found rest] eqn:H.
  apply scan_outbound_spec in H as (dropped & _ & H). destruct found as [d|].
  - destruct H as (x & -> & _). exists (dropped ++ [x]). by rewrite <-(assoc_L (++)).
  - destruct H as [-> ->]. exists dropped. by rewrite app_nil_r.
Qed.

Lemma poll_message_inv now s s' r : poll_message now s = (s', r) → state_inv s → state_inv s'.
Proof.
  intros ->%poll_message_state [].
  destruct (scan_outbound_suffix now (pending s) (outbound s)) as [taken Ht].
  set (rest := (scan_outbound _ _ _).2) in *. clearbody rest.
  rewrite queued_updates_len, Ht, queued_update_list_app, len_app in si_updates0.
  rewrite Ht, queued_requests_app in si_requests0, si_requests_pending0.
  rewrite Ht, queued_update_list_app in si_valid_updates0.
  constructor; cbn; try done.
  - rewrite queued_updates_len. cbn [outbound set_outbound]. lia.
  - by apply NoDup_app in si_requests0 as (_ & _ & ?).
  - intros id Hid. apply si_requests_pending0, elem_of_app. by right.
  - by apply Forall_app in si_valid_updates0 as [_ ?].
  - intros Hc. destruct (si_closed0 Hc) as (? & Ho & ?). rewrite Ho in Ht.
    symmetry in Ht. by apply app_nil in Ht as [_ ->].
Qed.

Lemma shutdown_inv s : state_inv s → state_inv (shutdown_take s).1.
Proof.
  intros Hi. unfold shutdown_take. destruct (closed s); [done|].
  destruct state_inv_default. by constructor.
Qed.
End state_invariant.

(** ** The invariant of all threads *)

(** What a requester may receive for its request: an answer that passed the check, or the
    failure that replaces one that did not. *)
Definition delivered_ok (request : RenderBrokerRequest) (r : RenderBrokerResponse) : Prop :=
  answers_request request r ∨
  (resp_version r = RENDER_PROTOCOL_VERSION ∧ resp_request_id r = req_request_id request ∧
   ∃ c m, resp_kind r = Failed c m).

Lemma delivered_ok_id request r :
  delivered_ok request r → resp_request_id r = req_request_id request.
Proof. by intros [(_ & ? & _)|(_ & ? & _)]. Qed.

Lemma cancelled_ok request reason :
  delivered_ok request (response_of (req_request_id request) (Cancelled reason)).
Proof. left. split_and!; [done..|]. cbn. by destruct (req_kind request). Qed.

Lemma respond_answer_ok response p answer r :
  respond_answer response p = Some (answer, r) →
  resp_request_id response = req_request_id (p_request p) → delivered_ok (p_request p) answer.
Proof.
  unfold respond_answer. intros H Hid. destruct (validate_for response (p_request p)) as [[u|e]|] eqn:Hv;
    simplify_eq.
  - left. by eapply validate_for_answers.
  - right. split_and!; [done|done|]. by eexists _, _.
Qed.

(** The two kinds of senders of a requester's channel. *)
Definition in_flight (w : World) : list RenderRequestId := (sends w).*1.

Record world_inv (encoded_size : RenderBridgeUpdate → option N) (evs : list BrokerEvent) (w : World) : Prop := {
  wi_state : state_inv encoded_size (state w);
  wi_next : (1 ≤ next_request_id w)%N;
  wi_pending : ∀ id p, pending (state w) !! id = Some p →
    waiters w !! id = Some {| w_request := p_request p; w_deadline := p_deadline p; w_buffer := None |} ∧
    id ∉ in_flight w;
  wi_in_flight : NoDup (in_flight w);
  wi_sends : ∀ id r waiter, (id, r) ∈ sends w → waiters w !! id = Some waiter →
    w_buffer waiter = None ∧ delivered_ok (w_request waiter) r;
  wi_sends_old : ∀ id, id ∈ in_flight w → (N.pos id < next_request_id w)%N;
  wi_waiters : ∀ id waiter, waiters w !! id = Some waiter →
    (N.pos id < next_request_id w)%N ∧ req_request_id (w_request waiter) = id ∧
    EvStarted (w_request waiter) ∈ evs ∧
    match w_buffer waiter with
    | Some r => delivered_ok (w_request waiter) r
    | None => is_Some (pending (state w) !! id) ∨ id ∈ in_flight w
    end;
  wi_returned : NoDup (returned_ids evs);
  wi_returned_gone : ∀ id, id ∈ returned_ids evs →
    waiters w !! id = None ∧ (N.pos id < next_request_id w)%N;
  wi_started : ∀ r, EvStarted r ∈ evs → (N.pos (req_request_id r) < next_request_id w)%N;
}.

Lemma has_sender_true w id :
  has_sender w id = true ↔ is_Some (pending (state w) !! id) ∨ id ∈ in_flight w.
Proof.
  unfold has_sender, in_flight. rewrite orb_true_iff, contains_key_true.
  rewrite existsb_bool_decide_exists, list_elem_of_fmap. naive_solver.
Qed.

Lemma returned_ids_app evs evs' : returned_ids (evs ++ evs') = returned_ids evs ++ returned_ids evs'.
Proof. apply omap_app. Qed.

(** A requester never finds its channel without a sender. *)
Lemma receive_connected enc evs w id waiter :
  world_inv enc evs w → waiters w !! id = Some waiter → receive w id waiter ≠ RecvDisconnected.
Proof.
  intros Hi Hw. unfold receive. destruct (wi_waiters _ _ _ Hi _ _ Hw) as (_ & _ & _ & Hb).
  destruct (w_buffer waiter); [done|]. by rewrite (proj2 (has_sender_true w id) Hb).
Qed.

(** *** Each kind of step keeps the invariant *)

Section steps.
Context (enc : RenderBridgeUpdate → option N).

(** An event that neither starts nor ends a request. *)
Definition neutral (ev : BrokerEvent) : Prop := returned_ids [ev] = [] ∧ ∀ r, ev ≠ EvStarted r.

Lemma world_inv_event evs ev w :
  neutral ev → world_inv enc evs w → world_inv enc (evs ++ [ev]) w.
Proof.
  intros [Hr Hs] []. constructor; rewrite ?returned_ids_app, ?Hr, ?app_nil_r; try done.
  - intros id waiter Hw. destruct (wi_waiters0 id waiter Hw) as (?&?&?&?). split_and!; try done.
    apply elem_of_app. by left.
  - intros r [?|?%list_elem_of_singleton]%elem_of_app; [by apply wi_started0|]. by destruct (Hs r).
Qed.

(** Senders leave the pending map and become sends on their way. *)
Lemma world_inv_take evs w s' new :
  world_inv enc evs w → state_inv enc s' →
  NoDup new.*1 →
  (∀ id r, (id, r) ∈ new → ∃ p, pending (state w) !! id = Some p ∧ delivered_ok (p_request p) r) →
  (∀ id, pending s' !! id = if decide (id ∈ new.*1) then None else pending (state w) !! id) →
  world_inv enc evs (set_sends (sends w ++ new) (set_state s' w)).
Proof.
  intros Hi Hs Hnd Hnew Hp. pose proof Hi as [].
  assert (∀ id, id ∈ new.*1 → ∃ p, pending (state w) !! id = Some p) as Hnew1.
  { intros id ([id' r] & -> & Hin)%list_elem_of_fmap. destruct (Hnew _ _ Hin) as (p & ? & _). eauto. }
  constructor; unfold in_flight in *; cbn; rewrite ?fmap_app; try done.
  - intros id p. rewrite Hp. case_decide; [done|]. intros [? ?]%wi_pending0. split; [done|].
    rewrite elem_of_app. naive_solver.
  - apply NoDup_app. split_and!; [done| |done].
    intros id Hin [p Hid]%Hnew1. by apply wi_pending0 in Hid as [_ ?].
  - intros id r waiter [Hin|Hin]%elem_of_app Hw; [by eapply wi_sends0|].
    destruct (Hnew _ _ Hin) as (p & [Hwp _]%wi_pending0 & Hok). rewrite Hw in Hwp. by simplify_eq.
  - intros id [Hin|[p Hid]%Hnew1]%elem_of_app; [by apply wi_sends_old0|].
    apply wi_pending0 in Hid as [Hw _]. by apply wi_waiters0 in Hw as [? _].
  - intros id waiter Hw. destruct (wi_waiters0 id waiter Hw) as (?&?&?&Hb). split_and!; try done.
    destruct (w_buffer waiter); [done|]. rewrite Hp, elem_of_app. case_decide; naive_solver.
Qed.

Lemma set_sends_same s' w : set_sends (sends w ++ []) (set_state s' w) = set_state s' w.
Proof. unfold set_sends, set_state. cbn. by rewrite app_nil_r. Qed.

(** A method that leaves the pending requests alone. *)
Lemma world_inv_state evs w s' :
  world_inv enc evs w → state_inv enc s' → pending s' = pending (state w) →
  world_inv enc evs (set_state s' w).
Proof.
  intros Hi Hs Hp. rewrite <-set_sends_same. apply world_inv_take; try done.
  - constructor.
  - by intros id r ?%not_elem_of_nil.
  - intros id. rewrite decide_False by apply not_elem_of_nil. by rewrite Hp.
Qed.

(** A sender delivers into an empty buffer, or finds the receiver gone. *)
Lemma world_inv_send evs w before id r after w' b :
  world_inv enc evs w → sends w = before ++ (id, r) :: after →
  send id r (set_sends (before ++ after) w) = Some (w', b) → world_inv enc evs w'.
Proof.
  intros [] Hs H. unfold in_flight in *.
  assert ((id, r) ∈ sends w) as Hin by (rewrite Hs; set_solver).
  assert (∀ x, x ∈ before ++ after → x ∈ sends w) as Hsub by (rewrite Hs; set_solver).
  assert (∀ i, i ∈ (before ++ after).*1 → i ∈ (sends w).*1) as Hsub1.
  { intros i (x & -> & Hx)%list_elem_of_fmap. apply list_elem_of_fmap_2. by apply Hsub. }
  assert (NoDup (before ++ after).*1 ∧ id ∉ (before ++ after).*1) as [Hnd Hgone].
  { rewrite Hs, fmap_app, fmap_cons in wi_in_flight0. rewrite fmap_app.
    rewrite <-Permutation_middle in wi_in_flight0. by apply NoDup_cons in wi_in_flight0 as [? ?]. }
  assert (∀ i, i ≠ id → i ∈ (sends w).*1 → i ∈ (before ++ after).*1) as Hback.
  { intros i Hne. rewrite Hs, !fmap_app, fmap_cons, !elem_of_app, elem_of_cons. cbn. naive_solver. }
  unfold send in H. cbn in H.
  destruct (waiters w !! id) as [waiter|] eqn:Hw; [destruct (w_buffer waiter) eqn:Hb|]; simplify_eq.
  - destruct (wi_sends0 _ _ _ Hin Hw) as [_ Hok]. destruct (wi_waiters0 _ _ Hw) as (Hlt&Hid&Hst&_).
    constructor; unfold in_flight; cbn; try done.
    + intros i p Hp. destruct (wi_pending0 _ _ Hp) as [Hwp Hnin].
      assert (i ≠ id) as Hne.
      { intros ->. apply Hnin. rewrite Hs, fmap_app, fmap_cons. apply elem_of_app. right. left. }
      rewrite lookup_insert_ne by done. split; [done|]. by intros ?%Hsub1.
    + intros i r' wt Hi. rewrite lookup_insert_Some. intros [[<- <-]|[Hne Hwt]].
      * destruct Hgone. by apply (list_elem_of_fmap_2 fst _ (id, r')).
      * by eapply wi_sends0; [apply Hsub|].
    + intros i Hi%Hsub1. by apply wi_sends_old0.
    + intros i wt. rewrite lookup_insert_Some. intros [[<- <-]|[Hne Hwt]]; [done|].
      destruct (wi_waiters0 _ _ Hwt) as (?&?&?&Hbuf). split_and!; try done.
      destruct (w_buffer wt); [done|]. destruct Hbuf as [?|?]; [by left|right]. by apply Hback.
    + intros i Hi. destruct (wi_returned_gone0 i Hi) as [Hnone ?]. split; [|done].
      rewrite lookup_insert_ne; [done|]. intros <-. congruence.
  - constructor; unfold in_flight; cbn; try done.
    + intros i p Hp. destruct (wi_pending0 _ _ Hp) as [Hwp Hnin]. split; [done|]. by intros ?%Hsub1.
    + intros i r' wt Hi%Hsub Hwt. by eapply wi_sends0.
    + intros i Hi%Hsub1. by apply wi_sends_old0.
    + intros i wt Hwt. destruct (wi_waiters0 _ _ Hwt) as (?&?&?&Hbuf). split_and!; try done.
      destruct (w_buffer wt); [done|]. destruct Hbuf as [?|?]; [by left|right].
      apply Hback; [|done]. intros ->. congruence.
Qed.

Definition request_for (id : RenderRequestId) (kind : RenderBrokerRequestKind) : RenderBrokerRequest :=
  {| req_version := RENDER_PROTOCOL_VERSION; req_request_id := id; req_kind := kind |}.

(** Either the request is registered under the next id, or only an id may have been spent. *)
Lemma start_request_cases kind timeout now w w' r :
  start_request kind timeout now w = (w', r) →
  (∃ e, r = Err e ∧ (w' = w ∨ w' = set_next_request_id (next_request_id w + 1) w)) ∨
  (∃ id d s', r = Ok id ∧ next_request_id w = N.pos id ∧
     RenderBrokerRequest_validate (request_for id kind) = Ok tt ∧
     enqueue_request (request_for id kind) d (state w) = (s', Ok tt) ∧
     w' = {| next_request_id := next_request_id w + 1; state := s';
             waiters := <[id := {| w_request := request_for id kind; w_deadline := d;
                                   w_buffer := None |}]> (waiters w);
             sends := sends w |}).
Proof.
  unfold start_request. rewrite get_bind. unfold request_for.
  cbv [mbind M_bind lift modify locked mret M_ret].
  case_bool_decide; cbn [ok_or]; [|intros [= <- <-]; left; eauto].
  destruct (next_request_id w) as [|id] eqn:Hn; cbn [id_new ok_or]; [intros [= <- <-]; left; eauto|].
  destruct (map_err _ _) as [[]|e] eqn:Hv; cbn [throw_if]; [|intros [= <- <-]; left; eauto].
  apply map_err_Ok in Hv.
  destruct (ok_or _ _) as [d|e]; [|intros [= <- <-]; left; eauto].
  cbn [state set_next_request_id]. destruct (enqueue_request _ _ _) as [s' [[]|e]] eqn:He.
  - intros [= <- <-]. right. exists id, d, s'. by split_and!.
  - apply enqueue_request_atomic in He as ->. intros [= <- <-]. left. eexists. split; [done|].
    right. by destruct w.
Qed.

Lemma world_inv_next evs w n :
  world_inv enc evs w → (next_request_id w ≤ n)%N → world_inv enc evs (set_next_request_id n w).
Proof.
  intros [] Hn. constructor; cbn; try done.
  - lia.
  - intros id Hin%wi_sends_old0. lia.
  - intros id waiter Hw. destruct (wi_waiters0 _ _ Hw) as (?&?&?&?). split_and!; try done. lia.
  - intros id Hin. destruct (wi_returned_gone0 _ Hin). split; [done|lia].
  - intros r Hr%wi_started0. lia.
Qed.

Lemma world_inv_start evs w id kind d s' :
  world_inv enc evs w → next_request_id w = N.pos id →
  RenderBrokerRequest_validate (request_for id kind) = Ok tt →
  enqueue_request (request_for id kind) d (state w) = (s', Ok tt) →
  world_inv enc (evs ++ [EvStarted (request_for id kind)])
    {| next_request_id := next_request_id w + 1; state := s';
       waiters := <[id := {| w_request := request_for id kind; w_deadline := d;
                             w_buffer := None |}]> (waiters w);
       sends := sends w |}.
Proof.
  intros [] Hid Hv He.
  assert (pending (state w) !! id = None) as Hfresh.
  { destruct (pending (state w) !! id) eqn:Hp; [|done]. apply wi_pending0 in Hp as [Hp _].
    apply wi_waiters0 in Hp as [? _]. lia. }
  assert (state_inv enc s') as Hs' by (by eapply enqueue_request_inv).
  apply enqueue_request_Ok in He as (_ & _ & ->). unfold in_flight in *.
  constructor; unfold in_flight; cbn; rewrite ?returned_ids_app, ?app_nil_r; try done.
  - lia.
  - intros i p. rewrite lookup_insert_Some. intros [[<- <-]|[Hne Hp]].
    + rewrite lookup_insert_eq. split; [done|]. intros ?%wi_sends_old0. lia.
    + rewrite lookup_insert_ne by done. by apply wi_pending0.
  - intros i r waiter Hin. rewrite lookup_insert_Some. intros [[<- <-]|[Hne Hw]]; [|by eapply wi_sends0].
    apply (list_elem_of_fmap_2 fst) in Hin. apply wi_sends_old0 in Hin. cbn in Hin. lia.
  - intros i Hin%wi_sends_old0. lia.
  - intros i waiter. rewrite lookup_insert_Some. intros [[<- <-]|[Hne Hw]].
    + cbn. split_and!; [lia|done|set_solver|]. left. by rewrite lookup_insert_eq.
    + destruct (wi_waiters0 _ _ Hw) as (?&?&?&Hb). split_and!; [lia|done|set_solver|].
      destruct (w_buffer waiter); [done|]. by rewrite lookup_insert_ne.
  - intros i Hin. destruct (wi_returned_gone0 _ Hin). split; [|lia]. rewrite lookup_insert_ne; [done|].
    intros ->. lia.
  - intros r [Hr%wi_started0|Hr%list_elem_of_singleton]%elem_of_app; [lia|]. simplify_eq. cbn. lia.
Qed.

Lemma remove_pending_absent id s :
  state_inv enc s → pending s !! id = None →
  (remove_pending id s).1 = s.
Proof.
  intros [] Hn. unfold remove_pending. cbn. rewrite delete_id by done.
  assert (without_request id (outbound s) = outbound s) as ->; [|by destruct s].
  unfold without_request. apply filter_id. intros m Hm. destruct m as [i|u]; [|done]. cbn.
  apply bool_decide_eq_false. intros ->. assert (id ∈ queued_requests (outbound s)) as Hin.
  { apply list_elem_of_omap. by exists (QRequest id). }
  apply si_requests_pending0 in Hin as [? ?]. congruence.
Qed.

(** The requester returns: with its sender when it gives up, or with its response. *)
Lemma world_inv_leave evs w id waiter r s' :
  world_inv enc evs w → waiters w !! id = Some waiter → state_inv enc s' →
  (∀ i, pending s' !! i = if decide (i = id) then None else pending (state w) !! i) →
  world_inv enc (evs ++ [EvReturned id r]) (leave id (set_state s' w)).
Proof.
  intros [] Hw Hs Hp. destruct (wi_waiters0 _ _ Hw) as (Hlt & _).
  constructor; unfold in_flight in *; cbn; rewrite ?returned_ids_app; try done.
  - intros i p. rewrite Hp. case_decide; [done|]. intros Hi. rewrite lookup_delete_ne by done.
    by apply wi_pending0.
  - intros i r' wt Hin [_ Hwt]%lookup_delete_Some. by eapply wi_sends0.
  - intros i wt [Hne Hwt]%lookup_delete_Some. destruct (wi_waiters0 _ _ Hwt) as (?&?&?&Hb).
    split_and!; [done|done|set_solver|]. destruct (w_buffer wt); [done|].
    rewrite Hp, decide_False by done. done.
  - cbn. apply NoDup_app. split_and!; [done| |apply NoDup_singleton].
    intros i Hin Hi%list_elem_of_singleton. subst i. apply wi_returned_gone0 in Hin as [? _]. congruence.
  - intros i [Hin|Hin%list_elem_of_singleton]%elem_of_app.
    + destruct (wi_returned_gone0 _ Hin). split; [|done]. by apply lookup_delete_None; right.
    + subst i. split; [apply lookup_delete_eq | done].
  - intros r' [Hr|Hr%list_elem_of_singleton]%elem_of_app; [by apply wi_started0 | done].
Qed.
End steps.

Section runs.
Context (enc : RenderBridgeUpdate → option N).

Lemma world_inv_new : world_inv enc [] World_new.
Proof.
  constructor; unfold in_flight; cbn; [apply state_inv_default|done|..]; try constructor; intros;
    match goal with
    | H : _ ∈ [] |- _ => by apply not_elem_of_nil in H
    | H : ∅ !! _ = Some _ |- _ => by rewrite lookup_empty in H
    end.
Qed.

Lemma lookup_delete_list_singleton {A} (m : gmap positive A) (k i : positive) :
  delete k m !! i = if decide (i ∈ [k]) then None else m !! i.
Proof.
  case_decide as Hi.
  - apply list_elem_of_singleton in Hi as ->. apply lookup_delete_eq.
  - rewrite lookup_delete_ne; [done|]. intros <-. apply Hi. by left.
Qed.

Lemma set_state_same w : set_state (state w) w = w.
Proof. by destruct w. Qed.

Lemma world_inv_wait evs w id waiter cancellation now w' r :
  world_inv enc evs w → waiters w !! id = Some waiter →
  wait_turn id waiter cancellation now w = (w', r) →
  world_inv enc (evs ++ [match r with Some r => EvReturned id r | None => EvNone end]) w'.
Proof.
  intros Hi Hw H. pose proof (receive_connected _ _ _ _ _ Hi Hw) as Hconn.
  assert (∀ res, world_inv enc (evs ++ [EvReturned id res]) (abandon id w)) as Habandon.
  { intros res. eapply world_inv_leave; [done..| |].
    - apply remove_inv, Hi.
    - intros i. cbn. case_decide as Hid; [subst; apply lookup_delete_eq|]. by rewrite lookup_delete_ne. }
  unfold wait_turn in H. destruct cancellation as [reason|]; [by simplify_eq|].
  case_bool_decide; [by simplify_eq|]. destruct (receive w id waiter) eqn:Hr; simplify_eq.
  - unfold receive in Hr. destruct (w_buffer waiter) eqn:Hb; [|by destruct (has_sender w id)].
    replace (leave id w) with (leave id (set_state (state w) w)) by by rewrite set_state_same.
    eapply world_inv_leave; [done..|apply Hi|].
    intros i. case_decide; [subst|done]. destruct (pending (state w) !! id) eqn:Hp; [|done].
    apply (wi_pending _ _ _ Hi) in Hp as [Hp _]. rewrite Hw in Hp. by simplify_eq.
  - by apply world_inv_event.
Qed.

Lemma world_inv_step evs w ev w' :
  broker_step enc w ev w' → world_inv enc evs w → world_inv enc (evs ++ [ev]) w'.
Proof.
  intros [w0 kind timeout now w1 r H|w0 id waiter c now w1 r Hw H|w0 us s' r H|w0 now s' r H
    |w0 x s' r H|w0 x us s' r H|w0 resp now s' p answer r H Ha|w0 id now s' e H|w0 id reason s' taken H
    |w0 s' taken H|w0 before id resp after w1 b Hs H] Hi.
  - destruct (start_request_cases _ _ _ _ _ _ H) as [(e & -> & [-> | ->])|(id & d & s' & -> & Hn & Hv & He & ->)].
    + by apply world_inv_event.
    + apply world_inv_event; [done|]. apply world_inv_next; [done|lia].
    + by apply world_inv_start.
  - by eapply world_inv_wait.
  - apply world_inv_event; [by destruct r|].
    apply world_inv_state; [done|by eapply publish_updates_inv, Hi|].
    destruct r; [by apply publish_updates_Ok in H as (_&_&_&->)|by apply publish_updates_atomic in H as ->].
  - apply world_inv_event; [by destruct r as [[]|]|].
    apply world_inv_state; [done|by eapply poll_message_inv, Hi|].
    by apply poll_message_state in H as ->.
  - apply world_inv_event; [done|]. apply world_inv_state; [done|by eapply submit_inv, Hi|].
    destruct r; [by apply submit_Ok in H as (_&_&_&->)|by apply submit_atomic in H as ->].
  - apply world_inv_event; [by destruct r|].
    apply world_inv_state; [done|by eapply consume_inv, Hi|].
    destruct r; [|by apply consume_atomic in H as ->].
    by apply consume_Ok in H as (_&_&(?&?&_&_&->)&_).
  - apply world_inv_event; [done|]. apply respond_take_Ok in H as (Hp & _ & ->).
    destruct (si_keys _ _ (wi_state _ _ _ Hi) _ _ Hp) as [Hk _].
    apply world_inv_take; [done|by apply remove_inv, Hi|apply NoDup_singleton| |].
    + intros id r' [= -> ->]%list_elem_of_singleton. exists p. split; [done|].
      by eapply respond_answer_ok.
    + intros i. cbn. apply lookup_delete_list_singleton.
  - apply world_inv_event; [done|]. apply respond_take_atomic in H as ->. by rewrite set_state_same.
  - apply world_inv_event; [done|]. injection H as <- <-.
    destruct (pending (state w0) !! id) as [p|] eqn:Hp.
    + destruct (si_keys _ _ (wi_state _ _ _ Hi) _ _ Hp) as [<- _].
      apply world_inv_take; [done|by apply remove_inv, Hi|apply NoDup_singleton| |].
      * intros id r' [= -> ->]%list_elem_of_singleton. exists p. split; [done|]. apply cancelled_ok.
      * intros i. cbn. apply lookup_delete_list_singleton.
    + rewrite set_sends_same. change (set_pending _ _) with (remove_pending id (state w0)).1.
      rewrite (remove_pending_absent enc); [by rewrite set_state_same|apply Hi|done].
  - apply world_inv_event; [done|]. unfold shutdown_take in H.
    destruct (closed (state w0)) eqn:Hc; injection H as <- <-.
    + rewrite map_to_list_empty. cbn [fmap list_fmap]. by rewrite set_sends_same, set_state_same.
    + apply world_inv_take; [done| | | |].
      * pose proof (shutdown_inv enc _ (wi_state _ _ _ Hi)) as Hs. unfold shutdown_take in Hs.
        by rewrite Hc in Hs.
      * rewrite <-list_fmap_compose. apply NoDup_fst_map_to_list.
      * intros id r ([id' p] & [= -> ->] & Hp%elem_of_map_to_list)%list_elem_of_fmap.
        exists p. split; [done|]. cbn.
        destruct (si_keys _ _ (wi_state _ _ _ Hi) _ _ Hp) as [<- _]. apply cancelled_ok.
      * intros i. cbn. rewrite lookup_empty. case_decide as Hin; [done|].
        destruct (pending (state w0) !! i) as [p|] eqn:Hp; [|done]. destruct Hin.
        rewrite <-list_fmap_compose. apply (list_elem_of_fmap_2 fst _ (i, p)).
        by apply elem_of_map_to_list.
  - apply world_inv_event; [done|]. by eapply world_inv_send.
Qed.

Lemma broker_run_inv evs w : broker_run enc evs w → world_inv enc evs w.
Proof. induction 1; [apply world_inv_new | by eapply world_inv_step]. Qed.
End runs.

(** ** The properties *)

(** What a returned result says of its request: it was started, and a response answers it or
    reports the failure of an answer that did not; the only error is the deadline. *)
Definition returned_ok (evs : list BrokerEvent) (id : RenderRequestId)
    (r : result RenderBrokerError RenderBrokerResponse) : Prop :=
  ∃ request, EvStarted request ∈ evs ∧ req_request_id request = id ∧
    match r with
    | Ok response => delivered_ok request response
    | Err e => e = broker_error "render.timeout" (lit "renderer request deadline expired")
    end.

Lemma returned_ok_mono evs ev id r : returned_ok evs id r → returned_ok (evs ++ [ev]) id r.
Proof. intros (request & Hs & ?). exists request. split; [|done]. apply elem_of_app. by left. Qed.

Lemma wait_turn_returned enc evs w id waiter c now w' r :
  world_inv enc evs w → waiters w !! id = Some waiter →
  wait_turn id waiter c now w = (w', Some r) → returned_ok evs id r.
Proof.
  intros Hi Hw H. pose proof (receive_connected _ _ _ _ _ Hi Hw) as Hconn.
  destruct (wi_waiters _ _ _ Hi _ _ Hw) as (_ & Hid & Hs & Hb).
  exists (w_request waiter). split_and!; [done..|]. unfold wait_turn in H.
  destruct c as [reason|]; [simplify_eq; apply cancelled_ok|].
  case_bool_decide; [by simplify_eq|]. destruct (receive w id waiter) eqn:Hr; simplify_eq.
  unfold receive in Hr. destruct (w_buffer waiter); [by simplify_eq|by destruct (has_sender w _)].
Qed.

Lemma broker_run_returned enc evs w id r :
  broker_run enc evs w → EvReturned id r ∈ evs → returned_ok evs id r.
Proof.
  induction 1 as [|evs w ev w' Hrun IH Hstep]; [by intros ?%not_elem_of_nil|].
  intros [Hin|Hin%list_elem_of_singleton]%elem_of_app; [by apply returned_ok_mono, IH|].
  pose proof (broker_run_inv _ _ _ Hrun) as Hi. clear IH Hrun. destruct Hstep; try done.
  - by destruct r0.
  - destruct r0; [|done]. simplify_eq. apply returned_ok_mono. by eapply wait_turn_returned.
  - by destruct r0.
  - by destruct r0 as [[]|].
  - by destruct r0.
Qed.

(** C9. Exactly-once answers: in every interleaving no request returns twice, and what a request
    returns is a response to that very request (its id, and an answer that passed the check,
    a cancellation or a failure) or the expiry of its deadline; in particular no requester
    finds its channel abandoned. *)
Theorem request_answered_once enc evs w :
  broker_run enc evs w →
  NoDup (returned_ids evs) ∧ ∀ id r, EvReturned id r ∈ evs → returned_ok evs id r.
Proof.
  intros H. split; [apply (wi_returned _ _ _ (broker_run_inv _ _ _ H))|].
  intros id r. by apply (broker_run_returned enc evs w).
Qed.

(** In every reachable world the queues are bounded (64 pending requests, 64 queued updates,
    64 submissions), queued requests are pending and distinct, everything queued passed its
    validation, and a closed broker holds nothing. *)
Theorem broker_state_bounded enc evs w : broker_run enc evs w → state_inv enc (state w).
Proof. intros H. apply (wi_state _ _ _ (broker_run_inv _ _ _ H)). Qed.

(** No thread blocks on a send: in every reachable world each send on its way can complete,
    the buffer of its requester being empty. *)
Theorem send_never_blocks enc evs w before id r after :
  broker_run enc evs w → sends w = before ++ (id, r) :: after →
  ∃ w' b, send id r (set_sends (before ++ after) w) = Some (w', b) ∧
          (b = true ↔ is_Some (waiters w !! id)).
Proof.
  intros [] %broker_run_inv Hs. unfold send. cbn. destruct (waiters w !! id) as [waiter|] eqn:Hw.
  - assert ((id, r) ∈ sends w) as Hin by (rewrite Hs; set_solver).
    destruct (wi_sends0 _ _ _ Hin Hw) as [-> _]. eexists _, true. split; [done|]. by split.
  - eexists _, false. split; [done|]. split; [done|]. by intros [? ?].
Qed.

(** C29. Once the broker is closed every requester that still waits has its response in its
    channel or on its way, and nothing can be queued any more. *)
Theorem shutdown_releases_requesters enc evs w :
  broker_run enc evs w → closed (state w) = true →
  (∀ id waiter, waiters w !! id = Some waiter →
     is_Some (w_buffer waiter) ∨ ∃ r, (id, r) ∈ sends w) ∧
  (∀ kind timeout now, ∃ e, (start_request kind timeout now w).2 = Err e) ∧
  (∀ us, ∃ e, publish_updates enc us (state w) = (state w, Err e)) ∧
  (∀ x, ∃ e, submit x (state w) = (state w, Err e)).
Proof.
  intros Hi%broker_run_inv Hc. destruct (si_closed _ _ (wi_state _ _ _ Hi) Hc) as (Hp & _ & _). split_and!.
  - intros id waiter Hw. destruct (wi_waiters _ _ _ Hi _ _ Hw) as (_ & _ & _ & Hb).
    destruct (w_buffer waiter); [left; by eexists|right]. destruct Hb as [Hb|Hb].
    + rewrite Hp, lookup_empty in Hb. by destruct Hb.
    + apply list_elem_of_fmap in Hb as ([i r] & -> & Hin). by exists r.
  - intros kind timeout now. destruct (start_request kind timeout now w) as [w' [id|e]] eqn:H; [|by exists e].
    destruct (start_request_cases _ _ _ _ _ _ H) as [(e & ? & _)|(i & d & s' & _ & _ & _ & He & _)]; [done|].
    apply enqueue_request_Ok in He as (? & _). congruence.
  - intros us. destruct (publish_updates enc us (state w)) as [s' [u|e]] eqn:H.
    + apply publish_updates_Ok in H as (_ & ? & _). congruence.
    + apply publish_updates_atomic in H as ->. by exists e.
  - intros x. destruct (submit x (state w)) as [s' [u|e]] eqn:H.
    + apply submit_Ok in H as (_ & ? & _). congruence.
    + apply submit_atomic in H as ->. by exists e.
Qed.

(** ** Updates are a queue *)

Definition published (evs : list BrokerEvent) : list RenderBridgeUpdate :=
  evs ≫= λ ev, match ev with EvPublished us => us | _ => [] end.
Definition delivered_updates (evs : list BrokerEvent) : list RenderBridgeUpdate :=
  evs ≫= λ ev, match ev with EvDelivered (MUpdate u) => [u] | _ => [] end.

(** What a step does to the queued updates. *)
Definition queue_moves (ev : BrokerEvent) (q q' : list QueuedMessage) : Prop :=
  queued_update_list q ++ published [ev] = delivered_updates [ev] ++ queued_update_list q'.

Lemma queue_moves_same ev q q' :
  published [ev] = [] → delivered_updates [ev] = [] → queued_update_list q' = queued_update_list q →
  queue_moves ev q q'.
Proof. unfold queue_moves. intros -> -> ->. by rewrite app_nil_r. Qed.

Lemma undeliverable_updates now m l : Forall (undeliverable now m) l → queued_update_list l = [].
Proof.
  induction 1 as [|x l (id & -> & _) _ IH]; [done|]. exact IH.
Qed.

Lemma poll_message_found now s s' r :
  poll_message now s = (s', r) →
  match r with
  | Ok found => (scan_outbound now (pending s) (outbound s)).1 = found
  | Err _ => (scan_outbound now (pending s) (outbound s)).1 = None ∧ closed s = true
  end.
Proof.
  unfold poll_message. rewrite get_bind. destruct (scan_outbound _ _ _) as [found rest].
  cbv [mbind M_bind modify mret M_ret lift]. destruct found; [by intros [= <- <-]|].
  destruct (closed s) eqn:Hc; by intros [= <- <-].
Qed.

Lemma poll_moves now s s' r ev :
  ev = match r with Ok (Some m) => EvDelivered m | _ => EvNone end →
  poll_message now s = (s', r) → queue_moves ev (outbound s) (outbound s').
Proof.
  intros -> H. pose proof (poll_message_found _ _ _ _ H) as Hf. apply poll_message_state in H as ->. cbn.
  destruct (scan_outbound now (pending s) (outbound s)) as [found rest] eqn:Hs. cbn in *.
  apply scan_outbound_spec in Hs as (dropped & Hd%undeliverable_updates & Hq).
  assert (found = None → queued_update_list (outbound s) = [] ∧ rest = []) as Hnone.
  { intros ->. destruct Hq as [-> ->]. done. }
  destruct r as [[m|]|].
  - subst found. destruct Hq as (x & -> & Hx). unfold queue_moves.
    rewrite queued_update_list_app, Hd. by destruct x, m; cbn in *; subst; rewrite ?app_nil_r.
  - destruct (Hnone Hf) as [Hq0 ->]. apply queue_moves_same; done.
  - destruct Hf as [Hf _]. destruct (Hnone Hf) as [Hq0 ->]. by apply queue_moves_same.
Qed.

Lemma push_moves us s :
  queue_moves (EvPublished us) (outbound s) (outbound s ++ (QUpdate <$> us)).
Proof.
  unfold queue_moves. rewrite queued_update_list_app, queued_update_list_updates. cbn.
  by rewrite app_nil_r.
Qed.

(** Every step but a shutdown only moves updates from publishers to the queue to the poller. *)
Lemma step_moves enc evs w ev w' :
  world_inv enc evs w → broker_step enc w ev w' →
  queue_moves ev (outbound (state w)) (outbound (state w')) ∧ closed (state w') = closed (state w) ∨
  closed (state w') = true ∧ ev = EvNone.
Proof.
  intros Hi Hstep. destruct Hstep as [w0 kind timeout now w1 r H|w0 id waiter c now w1 r Hw H|w0 us s' r H
    |w0 now s' r H|w0 x s' r H|w0 x us s' r H|w0 resp now s' p answer r H Ha|w0 id now s' e H
    |w0 id reason s' taken H|w0 s' taken H|w0 before id resp after w1 b Hs H].
  - left. destruct (start_request_cases _ _ _ _ _ _ H) as
      [(e & -> & [-> | ->])|(id & d & s' & -> & _ & _ & He & ->)]; [by split; [apply queue_moves_same|]..|].
    apply enqueue_request_Ok in He as (? & _ & ->). split; [|done]. apply queue_moves_same; [done..|].
    cbn. by rewrite queued_update_list_app, app_nil_r.
  - left. assert (∀ res, queue_moves (EvReturned id res) (outbound (state w0)) (outbound (state (abandon id w0)))) as Hab.
    { intros res. apply queue_moves_same; [done..|]. cbn. apply without_request_updates. }
    unfold wait_turn in H. destruct c; [by simplify_eq|]. case_bool_decide; [by simplify_eq|].
    destruct (receive w0 id waiter); simplify_eq; [by split; [apply queue_moves_same|]..|by split].
  - left. destruct r; cbn.
    + apply publish_updates_Ok in H as (_ & _ & _ & ->). split; [apply push_moves | done].
    + apply publish_updates_atomic in H as ->. by split; [apply queue_moves_same|].
  - left. split; [by eapply poll_moves|]. by apply poll_message_state in H as ->.
  - left. destruct r; [apply submit_Ok in H as (_ & _ & _ & ->)|apply submit_atomic in H as ->];
      by split; [apply queue_moves_same|].
  - left. destruct r; cbn.
    + apply consume_Ok in H as (_ & _ & (? & ? & _ & _ & ->) & _). split; [apply push_moves | done].
    + apply consume_atomic in H as ->. by split; [apply queue_moves_same|].
  - left. apply respond_take_Ok in H as (_ & _ & ->). split; [|done]. apply queue_moves_same; [done..|].
    apply without_request_updates.
  - left. apply respond_take_atomic in H as ->. by split; [apply queue_moves_same|].
  - left. injection H as <- <-. split; [|done]. apply queue_moves_same; [done..|].
    apply without_request_updates.
  - unfold shutdown_take in H. destruct (closed (state w0)) eqn:Hc; simplify_eq; [|by right].
    left. by split; [apply queue_moves_same|].
  - left. unfold send in H. destruct (waiters _ !! id) as [wt|]; [destruct (w_buffer wt); [done|]|];
      simplify_eq; by split; [apply queue_moves_same|].
Qed.

(** Updates are delivered in the order in which they were published, none is lost, duplicated
    or overtaken: what pollers received is a prefix of what was published, and as long as the
    broker is open the rest is exactly what is queued. *)
Theorem updates_delivered_in_order enc evs w :
  broker_run enc evs w →
  delivered_updates evs `prefix_of` published evs ∧
  (closed (state w) = false →
   published evs = delivered_updates evs ++ queued_update_list (outbound (state w))).
Proof.
  induction 1 as [|evs w ev w' Hrun [Hpre Hopen] Hstep]; [done|].
  pose proof (broker_run_inv _ _ _ Hrun) as Hi.
  assert (published (evs ++ [ev]) = published evs ++ published [ev]) as -> by apply bind_app.
  assert (delivered_updates (evs ++ [ev]) = delivered_updates evs ++ delivered_updates [ev]) as ->
    by apply bind_app.
  destruct (closed (state w)) eqn:Hc.
  - destruct (si_closed _ _ (wi_state _ _ _ Hi) Hc) as (_ & Ho & _).
    destruct (step_moves _ _ _ _ _ Hi Hstep) as [[Hm Hc']|[Hc' ->]]; (split; [|congruence]).
    + unfold queue_moves in Hm. rewrite Ho in Hm. cbn [queued_update_list omap list_omap app] in Hm.
      assert (closed (state w') = true) as Hcl by congruence.
      pose proof (world_inv_step _ _ _ _ _ Hstep Hi) as Hi'.
      destruct (si_closed _ _ (wi_state _ _ _ Hi') Hcl) as (_ & Ho' & _). rewrite Ho', app_nil_r in Hm.
      assert (published [ev] = [] ∧ delivered_updates [ev] = []) as [-> ->]; [|by rewrite !app_nil_r].
      destruct ev as [| | |us|[]]; cbn in *; rewrite ?app_nil_r in *; naive_solver.
    + cbn. by rewrite !app_nil_r.
  - specialize (Hopen eq_refl). destruct (step_moves _ _ _ _ _ Hi Hstep) as [[Hm Hc']|[Hc' ->]].
    + assert (published evs ++ published [ev] =
        (delivered_updates evs ++ delivered_updates [ev]) ++ queued_update_list (outbound (state w'))) as He.
      { rewrite Hopen, <-!(assoc_L (++)). f_equal. exact Hm. }
      rewrite He. split; [by apply prefix_app_r | done].
    + cbn. rewrite !app_nil_r. split; [done|congruence].
Qed.

(** Publishing is all or nothing: a list of updates is appended as a whole exactly when
    each of them is valid, the broker is open and there is room for all of them; otherwise the
    state is unchanged.  Consuming a submission publishes its updates in the same step. *)
Theorem publish_all_or_nothing enc us s :
  (∃ e, publish_updates enc us s = (s, Err e)) ∨
  (Forall (λ u, validate_update enc u = Ok tt) us ∧ closed s = false ∧
   (queued_updates s + len us ≤ RENDER_BROKER_QUEUE_CAPACITY)%N ∧
   publish_updates enc us s = (set_outbound (outbound s ++ (QUpdate <$> us)) s, Ok tt)).
Proof.
  destruct (publish_updates enc us s) as [s' [[]|e]] eqn:H.
  - right. by apply publish_updates_Ok in H as (?&?&?&->).
  - left. apply publish_updates_atomic in H as ->. by exists e.
Qed.

(** A response after the deadline is refused without touching the state, and one before it is
    taken exactly once: taking it removes the request from the map and from the queue. *)
Theorem respond_take_once now now' id s :
  (∀ p, pending s !! id = Some p → (p_deadline p ≤ now)%N →
     respond_take now id s = (s, Err (broker_error "render.stale"
       (lit "renderer response arrived after the request deadline")))) ∧
  (pending s !! id = None → respond_take now id s = (s, Err unknown_request_error)) ∧
  (∀ s' p, respond_take now id s = (s', Ok p) →
     pending s !! id = Some p ∧ (now < p_deadline p)%N ∧
     (id ∉ queued_requests (outbound s')) ∧ respond_take now' id s' = (s', Err unknown_request_error)).
Proof.
  assert (∀ n st, pending st !! id = None → respond_take n id st = (st, Err unknown_request_error)) as Hnone.
  { intros n st Hn. unfold respond_take. cbv [mbind M_bind lift get mret M_ret]. by rewrite Hn. }
  split_and!; [|by apply Hnone|].
  - intros p Hp Hd. unfold respond_take. cbv [mbind M_bind lift get mret M_ret]. rewrite Hp. cbn.
    by rewrite bool_decide_eq_true_2.
  - intros s' p (Hp & Hd & ->)%respond_take_Ok. split_and!; [done..| |].
    + cbn. rewrite without_request_requests. by intros [? _]%list_elem_of_filter.
    + apply Hnone. cbn. apply lookup_delete_eq.
Qed.

(** A requester waits no longer than its deadline: the first turn of its loop at or after it
    returns, whatever the rest of the world did. *)
Theorem wait_ends_by_deadline id waiter c now w :
  (w_deadline waiter ≤ now)%N → ∃ r, (wait_turn id waiter c now w).2 = Some r.
Proof.
  intros Hd. unfold wait_turn. destruct c; [by eexists|]. rewrite bool_decide_eq_true_2 by done. by eexists.
Qed.

(** A poll takes the first deliverable message from the front: what it drops on the way are
    requests that are gone or past their deadline, never updates. *)
Theorem poll_message_takes_first now s s' m :
  poll_message now s = (s', Ok (Some m)) →
  ∃ dropped x, outbound s = dropped ++ x :: outbound s' ∧ delivers now (pending s) x m ∧
               Forall (undeliverable now (pending s)) dropped.
Proof.
  intros H. pose proof (poll_message_found _ _ _ _ H) as Hf. apply poll_message_state in H as ->. cbn in *.
  destruct (scan_outbound now (pending s) (outbound s)) as [found rest] eqn:Hs. cbn in *. subst.
  apply scan_outbound_spec in Hs as (dropped & Hd & x & Hq & Hx). exists dropped, x. by split_and!.
Qed.

(** ** The size of an update *)

Lemma checked_add_run a b : (a + b ≤ usize_max)%N → checked_add a b = Some (a + b)%N.
Proof. intros. by apply checked_add_Some. Qed.

Lemma fold_sizes {A} (step : option N → A → option N) (g : A → N) a l :
  (∀ x n, x ∈ l → (n + g x ≤ usize_max)%N → step (Some n) x = Some (n + g x)%N) →
  (a + sumN g l ≤ usize_max)%N → foldl step (Some a) l = Some (a + sumN g l)%N.
Proof.
  revert a. induction l as [|x l IH]; intros a Hstep Hle; [by rewrite N.add_0_r|].
  rewrite sumN_cons in *. cbn. rewrite Hstep by (lia || by left). rewrite IH; [f_equal; lia| |lia].
  intros y n Hy. apply Hstep. by right.
Qed.

Lemma sumN_fmap {A B} (g : A → B) (f : B → N) l : sumN f (g <$> l) = sumN (λ x, f (g x)) l.
Proof. induction l as [|x l IH]; [done|]. cbn [fmap list_fmap]. by rewrite !sumN_cons, IH. Qed.

Lemma sumN_plus {A} (f g : A → N) l : sumN (λ x, f x + g x)%N l = (sumN f l + sumN g l)%N.
Proof. induction l as [|x l IH]; [done|]. rewrite !sumN_cons, IH. lia. Qed.

Lemma strings_size_bind {A} (f : A → list (list N)) l :
  strings_size (l ≫= f) = sumN (λ x, strings_size (f x)) l.
Proof. induction l as [|x l IH]; [done|]. cbn. rewrite strings_size_app. by rewrite IH. Qed.

Lemma node_source_size_eq n :
  (strings_size (node_strings n) ≤ usize_max)%N →
  node_source_size n = Some (strings_size (node_strings n)).
Proof.
  intros H. unfold node_strings in *. rewrite strings_size_cons, strings_size_app in *.
  rewrite strings_size_bind in *. unfold node_source_size.
  rewrite (fold_sizes _ (λ x, strings_size (style_strings x)) 0%N); [|intros s m _ Hm|lia].
  2:{ unfold style_strings, strings_size, sumN in *. cbn in *.
      rewrite (checked_add_run m) by lia. cbn. rewrite checked_add_run by lia. f_equal. lia. }
  set (styles := sumN _ _) in *. cbn [mbind option_bind].
  assert (∀ k, match node_kind n with
    | Element local_name => str_len local_name
    | Text text | PseudoBefore text | PseudoAfter text => str_len text
    end = k → k = str_len (node_kind_string (node_kind n)).1) as Hk by (destruct (node_kind n); naive_solver).
  rewrite (Hk _ eq_refl). clear Hk. set (k := str_len _) in *.
  destruct (node_semantic n) as [sem|]; cbn [option_list] in *.
  - unfold semantic_strings, strings_size, sumN in H |- *. cbn in H |- *. rewrite app_nil_r in H |- *.
    cbn in H |- *.
    destruct (sem_value sem); cbn in H |- *; repeat (rewrite checked_add_run by lia; cbn); f_equal; lia.
  - cbn in H |- *. repeat (rewrite checked_add_run by lia; cbn). f_equal. lia.
Qed.

(** The size computed for a valid snapshot never overflows and is exactly the number of bytes
    of its strings and resources, so the overflow error cannot be reached for a snapshot. *)
Theorem snapshot_size_exact s :
  FullRenderSnapshot_validate s = Ok tt →
  update_source_size (FullSnapshot s) =
  Some (strings_size (snap_nodes s ≫= node_strings) + strings_size (res_mime <$> snap_resources s) +
        sumN (λ r, len (res_bytes r)) (snap_resources s))%N ∧
  (strings_size (snap_nodes s ≫= node_strings) + strings_size (res_mime <$> snap_resources s) ≤
   RENDER_MAX_TOTAL_STRING_BYTES)%N.
Proof.
  intros (_ & _ & _ & [])%FullRenderSnapshot_validate_iff.
  assert (RENDER_MAX_TOTAL_STRING_BYTES + RENDER_MAX_TOTAL_RESOURCE_BYTES ≤ usize_max)%N as Hmax by done.
  split; [|lia]. unfold update_source_size, try_fold_sizes.
  rewrite strings_size_bind in *.
  assert (strings_size (res_mime <$> snap_resources s) = sumN (λ r, str_len (res_mime r)) (snap_resources s)) as Hm.
  { apply sumN_fmap. }
  assert (sumN (λ r, str_len (res_mime r)) (snap_resources s) + sumN (λ r, len (res_bytes r)) (snap_resources s)
    = sumN (λ r, str_len (res_mime r) + len (res_bytes r)) (snap_resources s))%N as Hr.
  { symmetry. apply sumN_plus. }
  rewrite (fold_sizes _ (λ n, strings_size (node_strings n)) 0%N); [|intros n m Hn Hle|lia].
  2:{ cbv beta in Hle. cbn [mbind option_bind]. rewrite node_source_size_eq by lia.
      cbn [mbind option_bind]. by rewrite checked_add_run by lia. }
  rewrite (fold_sizes _ (λ r, str_len (res_mime r) + len (res_bytes r))%N 0%N); [|intros r m Hin Hle|lia].
  2:{ cbv beta in Hle. cbn [mbind option_bind]. unfold resource_source_size. rewrite checked_add_run by lia.
      cbn [mbind option_bind]. by rewrite checked_add_run by lia. }
  cbn [mbind option_bind]. rewrite checked_add_run by lia. f_equal. lia.
Qed.

(** ** Witnesses: one layout request, answered *)

Definition sample_encoded_size (_ : RenderBridgeUpdate) : option N := Some 100%N.
Definition sample_kind : RenderBrokerRequestKind := EnsureLayout (sample_revision 1).
Definition sample_response : RenderBrokerResponse := response_of 1 (RespCommit (sample_commit 1)).
Definition sample_update : RenderBridgeUpdate := FullSnapshot sample_base.

Definition world1 : World := (start_request sample_kind 1000 0 World_new).1.
Definition world2 : World :=
  set_state (publish_updates sample_encoded_size [sample_update] (state world1)).1 world1.
Definition world3 : World :=
  set_sends [(1%positive, sample_response)] (set_state (respond_take 5 1 (state world2)).1 world2).
Definition world4 : World := default world3 (fst <$> send 1 sample_response (set_sends [] world3)).
Definition sample_waiter : Waiter :=
  {| w_request := request_for 1 sample_kind; w_deadline := 1000; w_buffer := Some sample_response |}.
Definition world5 : World := (wait_turn 1 sample_waiter None 6 world4).1.
Definition world_closed : World :=
  set_sends [(1%positive, response_of 1 (Cancelled Shutdown))] (set_state (shutdown_take (state world2)).1 world2).

Definition sample_events : list BrokerEvent :=
  [EvStarted (request_for 1 sample_kind); EvPublished [sample_update]].

Lemma sample_run2 : broker_run sample_encoded_size sample_events world2.
Proof.
  change sample_events with (([] ++ [EvStarted (request_for 1 sample_kind)]) ++ [EvPublished [sample_update]]).
  eapply run_snoc.
  - eapply run_snoc; [apply run_nil|].
    apply (step_start _ World_new sample_kind 1000 0 world1 (Ok 1%positive)). vm_compute. reflexivity.
  - apply (step_publish _ world1 [sample_update] (state world2) (Ok tt)). vm_compute. reflexivity.
Qed.

Lemma sample_run3 : broker_run sample_encoded_size (sample_events ++ [EvNone]) world3.
Proof.
  eapply run_snoc; [exact sample_run2|].
  apply (step_respond _ world2 sample_response 5 (state world3)
    {| p_request := request_for 1 sample_kind; p_deadline := 1000 |} sample_response (Ok tt));
    vm_compute; reflexivity.
Qed.

Lemma sample_run5 :
  broker_run sample_encoded_size
    (((sample_events ++ [EvNone]) ++ [EvNone]) ++ [EvReturned 1 (Ok sample_response)]) world5.
Proof.
  eapply run_snoc; [eapply run_snoc; [exact sample_run3|]|].
  - apply (step_send _ world3 [] 1 sample_response [] world4 true); vm_compute; reflexivity.
  - apply (step_wait _ world4 1 sample_waiter None 6 world5 (Some (Ok sample_response)));
      vm_compute; reflexivity.
Qed.

Lemma sample_run_closed : broker_run sample_encoded_size (sample_events ++ [EvNone]) world_closed.
Proof.
  eapply run_snoc; [exact sample_run2|].
  apply (step_shutdown _ world2 (state world_closed) (pending (state world2))). vm_compute. reflexivity.
Qed.

Lemma request_answered_once_witness : delivered_ok (request_for 1 sample_kind) sample_response.
Proof.
  destruct (proj2 (request_answered_once _ _ _ sample_run5) 1%positive (Ok sample_response))
    as (request & Hs & Hid & Hok); [set_solver|].
  assert (request = request_for 1 sample_kind) as <-; [|exact Hok].
  unfold sample_events in Hs. cbn in Hs. rewrite !elem_of_cons in Hs.
  destruct Hs as [[= ->]|[?|[?|[?|[?|?%not_elem_of_nil]]]]]; done.
Defined.

Lemma broker_state_bounded_witness : state_inv sample_encoded_size (state world5).
Proof. exact (broker_state_bounded _ _ _ sample_run5). Defined.

Lemma send_never_blocks_witness :
  ∃ w' b, send 1 sample_response (set_sends [] world3) = Some (w', b).
Proof.
  destruct (send_never_blocks _ _ _ [] 1 sample_response [] sample_run3) as (w' & b & H & _);
    [reflexivity|]. exists w', b. exact H.
Defined.

Lemma shutdown_releases_requesters_witness :
  closed (state world_closed) = true ∧ is_Some (waiters world_closed !! 1%positive) ∧
  ∃ r, (1%positive, r) ∈ sends world_closed.
Proof.
  assert (closed (state world_closed) = true) as Hc by (vm_compute; reflexivity).
  destruct (shutdown_releases_requesters _ _ _ sample_run_closed Hc) as [H _].
  split; [exact Hc|]. split; [by eexists|].
  destruct (H 1%positive {| w_request := request_for 1 sample_kind; w_deadline := 1000;
    w_buffer := None |}) as [[? ?]|?]; [vm_compute; reflexivity | done | done].
Defined.

Lemma updates_delivered_in_order_witness :
  published sample_events = delivered_updates sample_events ++ queued_update_list (outbound (state world2)).
Proof. apply (updates_delivered_in_order _ _ _ sample_run2). vm_compute. reflexivity. Defined.

Lemma respond_take_once_witness :
  respond_take 1000 1 (state world2) = (state world2, Err (broker_error "render.stale"
       (lit "renderer response arrived after the request deadline"))).
Proof.
  apply (proj1 (respond_take_once 1000 1000 1 (state world2)) {| p_request := request_for 1 sample_kind; p_deadline := 1000 |}).
  - vm_compute. reflexivity.
  - cbn. lia.
Defined.

Lemma wait_ends_by_deadline_witness : ∃ r, (wait_turn 1 sample_waiter None 1000 world3).2 = Some r.
Proof. apply wait_ends_by_deadline. cbn. lia. Defined.

Lemma poll_message_takes_first_witness :
  ∃ dropped x, outbound (state world2) = dropped ++ x :: [QUpdate sample_update] ∧
    delivers (λ _, 5%N) (pending (state world2)) x (MRequest (request_for 1 sample_kind)).
Proof.
  destruct (poll_message_takes_first (λ _, 5%N) (state world2)
    (poll_message (λ _, 5%N) (state world2)).1 (MRequest (request_for 1 sample_kind)))
    as (dropped & x & Hq & Hd & _); [vm_compute; reflexivity|].
  exists dropped, x. split; [rewrite Hq; vm_compute; reflexivity | exact Hd].
Defined.

Lemma snapshot_size_exact_witness : update_source_size (FullSnapshot sample_base) = Some 38%N.
Proof.
  rewrite (proj1 (snapshot_size_exact sample_base ltac:(vm_compute; reflexivity))).
  vm_compute. reflexivity.
Defined.
