(* ===== verification/SyncRenderer.v ===== *)
(** * The synchronous renderer bridge

    [crates/vixen-ffi/src/sync_renderer.rs] and, from [c_abi.rs], [RendererState] and
    [drain_renderer_submissions]; definitions only.  BrowserCore keeps a mirror of the
    renderer's replica, publishes each source as a batch or a snapshot, and accepts the
    renderer's submissions.  The theorems are in [SyncRendererFacts].

    A [Bridge] is the renderer state, whose mutex the running function holds, next to the
    broker's state, which other threads change between two broker calls. *)

From stdpp Require Import base decidable gmap sets list strings.
From S2P Require Import Prelude.
From S2P Require Import RustFloat.
From S2P Require Import RenderModel.
From S2P Require Import RenderSource.
From S2P Require Import RenderCommit.
From S2P Require Import RenderBridge.
From S2P Require Import RendererBroker.
Import render_error_codes.

Record RendererState : Type := {
  rs_replica : RenderReplica;
  rs_commits : RenderCommitState;
  rs_source : option FullRenderSnapshot;
  rs_needs_resync : bool;
}.

(** [RendererState::default()] *)
Definition RendererState_default : RendererState :=
  {| rs_replica := RenderReplica_default; rs_commits := RenderCommitState_default;
     rs_source := None; rs_needs_resync := false |}.

Definition set_rs_replica v (s : RendererState) : RendererState :=
  {| rs_replica := v; rs_commits := rs_commits s; rs_source := rs_source s;
     rs_needs_resync := rs_needs_resync s |}.
Definition set_rs_commits v (s : RendererState) : RendererState :=
  {| rs_replica := rs_replica s; rs_commits := v; rs_source := rs_source s;
     rs_needs_resync := rs_needs_resync s |}.
Definition set_rs_source v (s : RendererState) : RendererState :=
  {| rs_replica := rs_replica s; rs_commits := rs_commits s; rs_source := v;
     rs_needs_resync := rs_needs_resync s |}.
Definition set_rs_needs_resync v (s : RendererState) : RendererState :=
  {| rs_replica := rs_replica s; rs_commits := rs_commits s; rs_source := rs_source s;
     rs_needs_resync := v |}.

Record Bridge : Type := { b_broker : State; b_state : RendererState }.

Definition set_broker v (b : Bridge) : Bridge := {| b_broker := v; b_state := b_state b |}.
Definition set_b_state v (b : Bridge) : Bridge := {| b_broker := b_broker b; b_state := v |}.
Definition on_state (f : RendererState → RendererState) (b : Bridge) : Bridge :=
  set_b_state (f (b_state b)) b.

Record AbiError : Type := abi_error_of { abi_status : N; abi_code : rstr; abi_message : rstr }.
Record SynchronousRendererError : Type := sync_error { se_code : rstr; se_message : rstr }.

Definition VIXEN_STATUS_INVALID_COMMAND : N := 5.
Definition FFI_INVALID_COMMAND : rstr := lit "ffi.invalid-command".
Definition invalid_command (message : rstr) : AbiError :=
  abi_error_of VIXEN_STATUS_INVALID_COMMAND FFI_INVALID_COMMAND message.

Definition render_protocol_error (error : RenderProtocolError) : AbiError :=
  invalid_command (lit (code error) ++ lit ": " ++ message error).
Definition renderer_broker_error (error : RenderBrokerError) : AbiError :=
  invalid_command (lit (be_code error) ++ lit ": " ++ be_message error).

(** [broker_error], [abi_error] and the [map_err] of protocol errors in [sync_renderer.rs] *)
Definition sync_of_broker (error : RenderBrokerError) : SynchronousRendererError :=
  sync_error (lit (be_code error)) (be_message error).
Definition sync_of_abi (error : AbiError) : SynchronousRendererError :=
  sync_error (abi_code error) (abi_message error).
Definition sync_of_protocol (error : RenderProtocolError) : SynchronousRendererError :=
  sync_error (lit (code error)) (message error).

(** A broker call whose error is converted with [f]. *)
Definition call {E A} (f : RenderBrokerError → E) (m : M State RenderBrokerError A) : M Bridge E A :=
  λ b, let '(s, r) := m (b_broker b) in (set_broker s b, map_err f r).

(** ** Accepting the renderer's submissions *)

Definition release_of_submitted (commit : RenderCommit) : RenderBridgeUpdate := ReleaseHandles
  {| rel_version := RENDER_PROTOCOL_VERSION; rel_commit_id := commit_id commit;
     rel_hit_test_handle := hit_test_handle commit;
     rel_text_query_handle := text_query_handle commit |}.

Section bridge.
Context (encoded_size : RenderBridgeUpdate → option N).

Definition consume (submission : RenderBridgeSubmission) (updates : list RenderBridgeUpdate)
    : M Bridge AbiError unit :=
  call renderer_broker_error (consume_submission_with_updates encoded_size submission updates).

(** The two error arms of [drain_renderer_submissions]: the submission is consumed with
    [updates]; a stale one is skipped, any other error is returned. *)
Definition refuse (submission : RenderBridgeSubmission) (updates : list RenderBridgeUpdate)
    (error : RenderProtocolError) : M Bridge AbiError (option (option RenderCommit)) :=
  _ ← consume submission updates;
  if bool_decide (code error = STALE) then mret (Some None)
  else fail (render_protocol_error error).

(** One turn of the loop of [drain_renderer_submissions] after [peek_submission] returned
    [submission]: the commit it accepted, if any. *)
Definition drain_submission (submission : RenderBridgeSubmission)
    : M Bridge AbiError (option (option RenderCommit)) :=
  b ← get;
  let state := b_state b in
  match submission with
  | SubmitCommit commit =>
      match accept_commit (rs_replica state) commit (rs_commits state) with
      | (_, Err error) => refuse submission [release_of_submitted commit] error
      | (commits, Ok releases) =>
          _ ← consume submission (ReleaseHandles <$> releases);
          _ ← modify (on_state (set_rs_commits commits));
          mret (Some (Some commit))
      end
  | SubmitPresented presented =>
      match accept_presented (rs_replica state) presented (rs_commits state) with
      | (_, Err error) => refuse submission [] error
      | (commits, Ok releases) =>
          _ ← consume submission (ReleaseHandles <$> releases);
          _ ← modify (on_state (set_rs_commits commits));
          mret (Some None)
      end
  | SubmitResync _ =>
      _ ← modify (on_state (set_rs_needs_resync true));
      _ ← modify (on_state (set_rs_commits RenderCommitState_default));
      _ ← consume submission [];
      mret (Some None)
  end.

(** A whole turn; [interfere] is what the other threads did to the broker between the peek
    and the consumption.  [None] ends the loop. *)
Definition drain_turn (interfere : State → State) : M Bridge AbiError (option (option RenderCommit)) :=
  front ← call renderer_broker_error peek_submission;
  match front with
  | None => mret None
  | Some submission =>
      _ ← modify (λ b, set_broker (interfere (b_broker b)) b);
      drain_submission submission
  end.

(** The loop, with its vector of accepted commits; [fuel] bounds its turns and [Ok None] says
    that they were not enough. *)
Fixpoint drain_loop (interfere : nat → State → State) (fuel : nat) (accepted_commits : list RenderCommit)
    : M Bridge AbiError (option (list RenderCommit)) :=
  match fuel with
  | O => mret None
  | S fuel =>
      turn ← drain_turn (interfere fuel);
      match turn with
      | None => mret (Some accepted_commits)
      | Some commit => drain_loop interfere fuel (accepted_commits ++ option_list commit)
      end
  end.

Definition drain_renderer_submissions (interfere : nat → State → State) (fuel : nat)
    : M Bridge AbiError (option (list RenderCommit)) := drain_loop interfere fuel [].

(** ** Publishing the source *)

(** The new mirror and the update that takes the renderer there. *)
Definition snapshot_update (replica : RenderReplica) (snapshot : FullRenderSnapshot)
    : result SynchronousRendererError (RenderReplica * RenderBridgeUpdate) :=
  match accept_full_snapshot snapshot replica with
  | (replica, Ok _) => Ok (replica, FullSnapshot snapshot)
  | (_, Err error) => Err (sync_of_protocol error)
  end.

Definition choose_update (state : RendererState) (snapshot : FullRenderSnapshot) (force_snapshot : bool)
    : result SynchronousRendererError (RenderReplica * RenderBridgeUpdate) :=
  let replica := rs_replica state in
  match rs_source state with
  | Some base =>
      if negb force_snapshot && same_document (snap_revision base) (snap_revision snapshot) then
        match between base snapshot with
        | Ok batch =>
            match apply_batch batch replica with
            | (_, Err error) => Err (sync_of_protocol error)
            | (replica, Ok (Applied _)) => Ok (replica, MutationBatch batch)
            | (replica, Ok (ResyncRequired _)) => snapshot_update replica snapshot
            end
        | Err _ => snapshot_update replica snapshot
        end
      else snapshot_update replica snapshot
  | None => snapshot_update replica snapshot
  end.

Definition publish_renderer_source (snapshot : FullRenderSnapshot) (force_snapshot : bool)
    : M Bridge SynchronousRendererError unit :=
  _ ← lift (map_err sync_of_protocol (FullRenderSnapshot_validate snapshot));
  b ← get;
  let state := b_state b in
  let force_snapshot := force_snapshot || rs_needs_resync state in
  if negb force_snapshot && (rs_source state ==? Some snapshot) then
    modify (on_state (set_rs_needs_resync false))
  else
    '(replica, update) ← lift (choose_update state snapshot force_snapshot);
    _ ← call sync_of_broker (publish_update encoded_size update);
    _ ← modify (on_state (set_rs_replica replica));
    _ ← modify (on_state (set_rs_source (Some snapshot)));
    modify (on_state (set_rs_needs_resync false)).
End bridge.

(** ** Bounded synchronous requests *)

(** [result.map_err(f)?] around a call that changes the state. *)
Definition map_err_m {S E F A} (f : E → F) (m : M S E A) : M S F A :=
  λ s, let '(s', r) := m s in (s', map_err f r).

(** The result of a call as a value: for a [match] on it. *)
Definition try {S E F A} (m : M S E A) : M S F (result E A) := λ s, let '(s', r) := m s in (s', Ok r).

(** [{reason:?}] *)
Definition cancellation_debug (reason : RenderBrokerCancellation) : rstr :=
  lit match reason with
      | Navigation => "Navigation" | Stop => "Stop" | ContextClosed => "ContextClosed"
      | Shutdown => "Shutdown" | Deadline => "Deadline"
      end.

Definition MAX_RECOVERY_ATTEMPTS : nat := 2.

(** One turn of the recovery loop of [ensure_layout]. *)
Inductive Attempt : Type :=
| Return (commit : RenderCommit)
| Retry (force_snapshot : bool)
| Stuck.

Section synchronous.
Context (encoded_size : RenderBridgeUpdate → option N).

(** [self.renderer.request_cancellable(kind, ENSURE_LAYOUT_TIMEOUT, ..)] of the [n]-th
    attempt: no lock is held, so the other threads may change the broker and the renderer
    state.  [reason n] is [cancellation.reason()] after it. *)
Context (ask : nat → RenderBrokerRequestKind → M Bridge RenderBrokerError RenderBrokerResponse).
Context (reason : nat → option RenderBrokerCancellation).

(** The interference during the drains, and a bound on their turns. *)
Context (interfere : nat → State → State) (fuel : nat).

(** [{kind:?}] of an unexpected response. *)
Context (response_debug : RenderBrokerResponseKind → rstr).

Definition drain_commits : M Bridge AbiError (option (list RenderCommit)) :=
  drain_renderer_submissions encoded_size interfere fuel.

(** The commit that [ensure_layout] may return without asking the renderer. *)
Definition current_commit (state : RendererState) (snapshot : FullRenderSnapshot) : option RenderCommit :=
  match accepted (rs_commits state) with
  | Some commit =>
      if negb (rs_needs_resync state) &&
         bool_decide (commit_revision commit = snap_revision snapshot) &&
         (commit_viewport commit ==? snap_viewport snapshot)
      then Some commit else None
  | None => None
  end.

(** The [Commit] arm: the response must be the commit that the drain accepted. *)
Definition take_commit (response_commit : RenderCommit) : M Bridge SynchronousRendererError Attempt :=
  drained ← try drain_commits;
  match drained with
  | Err _ => mret (Retry true)
  | Ok None => mret Stuck
  | Ok (Some _) =>
      b ← get;
      match accepted (rs_commits (b_state b)) with
      | None => mret (Retry true)
      | Some commit =>
          if negb (commit ==? response_commit) then mret (Retry true) else mret (Return commit)
      end
  end.

Definition handle_response (n : nat) (force_snapshot : bool)
    (response : result RenderBrokerError RenderBrokerResponse)
    : M Bridge SynchronousRendererError Attempt :=
  match response with
  | Err error =>
      match reason n with
      | Some why => fail (sync_error (lit "render.cancelled")
                            (lit "EnsureLayout was cancelled: " ++ cancellation_debug why))
      | None => if bool_decide (be_code error = "render.timeout") then mret (Retry true)
                else fail (sync_of_broker error)
      end
  | Ok response =>
      match resp_kind response with
      | RespCommit response_commit => take_commit response_commit
      | Cancelled why => fail (sync_error (lit "render.cancelled")
                                 (lit "EnsureLayout was cancelled: " ++ cancellation_debug why))
      | Failed c m => match reason n with
                      | Some _ => fail (sync_error c m)
                      | None => mret (Retry true)
                      end
      | kind => fail (sync_error (lit "render.invalid-response")
                        (lit "EnsureLayout returned an unexpected response: " ++ response_debug kind))
      end
  end.

Definition ensure_attempt (n : nat) (force_snapshot : bool) (snapshot : FullRenderSnapshot)
    : M Bridge SynchronousRendererError Attempt :=
  drained ← map_err_m sync_of_abi drain_commits;
  match drained with
  | None => mret Stuck
  | Some _ =>
      b ← get;
      match current_commit (b_state b) snapshot with
      | Some commit => mret (Return commit)
      | None =>
          let force_snapshot := force_snapshot || rs_needs_resync (b_state b) in
          _ ← publish_renderer_source encoded_size snapshot force_snapshot;
          response ← try (ask n (EnsureLayout (snap_revision snapshot)));
          handle_response n force_snapshot response
      end
  end.

(** [for _ in 0..MAX_RECOVERY_ATTEMPTS]; [Ok None] when a drain ran out of fuel. *)
Fixpoint ensure_loop (attempts n : nat) (force_snapshot : bool) (snapshot : FullRenderSnapshot)
    : M Bridge SynchronousRendererError (option RenderCommit) :=
  match attempts with
  | O => fail (sync_error (lit "render.recovery-failed")
                 (lit "EnsureLayout did not recover after a bounded full resync"))
  | S attempts =>
      outcome ← ensure_attempt n force_snapshot snapshot;
      match outcome with
      | Return commit => mret (Some commit)
      | Retry force_snapshot => ensure_loop attempts (S n) force_snapshot snapshot
      | Stuck => mret None
      end
  end.

Definition ensure_layout (snapshot : FullRenderSnapshot)
    : M Bridge SynchronousRendererError (option RenderCommit) :=
  ensure_loop MAX_RECOVERY_ATTEMPTS 0 false snapshot.

Definition query_text (query : RenderTextQueryBatch)
    : M Bridge SynchronousRendererError (option RenderTextQueryBatchResult) :=
  drained ← map_err_m sync_of_abi drain_commits;
  match drained with
  | None => mret None
  | Some _ =>
      b ← get;
      _ ← lift (map_err sync_of_protocol
            (validate_text_query (rs_commits (b_state b)) (rs_replica (b_state b)) query));
      response ← map_err_m sync_of_broker (ask 0 (ReqTextQuery query));
      match resp_kind response with
      | RespTextQuery result =>
          b ← get;
          _ ← lift (map_err sync_of_protocol
                (validate_text_query_result (rs_commits (b_state b)) (rs_replica (b_state b))
                   query result));
          mret (Some result)
      | Cancelled why => fail (sync_error (lit "render.cancelled")
                                 (lit "text query was cancelled: " ++ cancellation_debug why))
      | Failed c m => fail (sync_error c m)
      | kind => fail (sync_error (lit "render.invalid-response")
                        (lit "text query returned an unexpected response: " ++ response_debug kind))
      end
  end.
End synchronous.
