(* ===== verification/SyncRendererFacts.v ===== *)
(** * Theorems on the synchronous renderer bridge

    The bridge's mirror shows the last published source, the renderer that applies the queue
    reaches the mirror, draining the submissions terminates and keeps the acceptance state's
    invariant, and a layout that is returned is the accepted commit of the asked revision. *)

From Stdlib Require Import Lia.
From stdpp Require Import base decidable gmap sets list strings relations.
From S2P Require Import Prelude.
From S2P Require Import RustFloat.
From S2P Require Import RenderModel.
From S2P Require Import RenderSource.
From S2P Require Import RenderSourceFacts.
From S2P Require Import RenderReplicaFacts.
From S2P Require Import RenderCommit.
From S2P Require Import RenderCommitFacts.
From S2P Require Import RenderBridge.
From S2P Require Import RenderBridgeFacts.
From S2P Require Import RendererBroker.
From S2P Require Import SyncRenderer.
Import render_error_codes.

(** ** The operations respect equality of replicas *)

Lemma option_same_eqb `{PartialEqLaws A} (x y z : option A) :
  option_Forall2 same x y → (x ==? z) = (y ==? z).
Proof.
  intros Hxy. destruct Hxy as [a b [->|Hab]|]; [done| |done]. destruct z as [c|]; [|done].
  change ((a ==? c) = (b ==? c)). apply eq_true_iff_eq. split; intros Hc.
  - eapply eqb_trans; [apply eqb_sym, Hab | exact Hc].
  - eapply eqb_trans; [exact Hab | exact Hc].
Qed.

Lemma btree_eqb_equiv (m1 m2 target : gmap positive RenderScrollIntent) :
  m1 ≡ m2 → btree_eqb partial_eq m1 target = btree_eqb partial_eq m2 target.
Proof.
  intros Heq. apply eq_true_iff_eq. rewrite !btree_eqb_iff.
  assert (∀ (x y : option RenderScrollIntent), option_Forall2 (λ x y, (x ==? y) = true) x y ↔ (x ==? y) = true) as Hopt.
  { intros [x|] [y|]; split; try done; try (by inversion 1); by constructor. }
  setoid_rewrite Hopt. split; intros Hk k; specialize (Hk k); specialize (Heq k).
  - by rewrite <-(option_same_eqb _ _ _ Heq).
  - by rewrite (option_same_eqb _ _ _ Heq).
Qed.

Lemma snapshot_check_equiv s r r' : r ≡ r' → snapshot_check r s = snapshot_check r' s.
Proof.
  intros (Hrev & Hv & Hn & Hr & Hs). unfold snapshot_check, check_current.
  rewrite Hrev, Hn, Hr, (btree_eqb_equiv _ _ _ Hs).
  by rewrite (option_same_eqb (rep_viewport r) (rep_viewport r') _ Hv).
Qed.

Lemma accept_full_snapshot_equiv s r r' :
  r ≡ r' → (accept_full_snapshot s r).1 ≡ (accept_full_snapshot s r').1 ∧
           (accept_full_snapshot s r).2 = (accept_full_snapshot s r').2.
Proof.
  intros Heq. rewrite !accept_full_snapshot_eq, (snapshot_check_equiv _ _ _ Heq).
  destruct (FullRenderSnapshot_validate s); [|done]. by destruct (snapshot_check r' s) as [[]|].
Qed.

(** ** What the renderer does with an update *)

Definition apply_update (u : RenderBridgeUpdate) (r : RenderReplica) : RenderReplica :=
  match u with
  | FullSnapshot s => (accept_full_snapshot s r).1
  | MutationBatch b => (apply_batch b r).1
  | ReleaseHandles _ => r
  end.

(** [u] takes every replica that shows what [a] shows to one that shows what [b] shows. *)
Definition leads (u : RenderBridgeUpdate) (a b : RenderReplica) : Prop :=
  ∀ r, r ≡ a → apply_update u r ≡ b.

(** A queue of updates leads from [a] to [b]. *)
Inductive chain : RenderReplica → list RenderBridgeUpdate → RenderReplica → Prop :=
| chain_nil a b : a ≡ b → chain a [] b
| chain_cons a u b q c : leads u a b → chain b q c → chain a (u :: q) c.

Lemma chain_equiv a a' q b : a' ≡ a → chain a q b → chain a' q b.
Proof.
  intros Ha H. destruct H as [a b Hab|a u b q c Hu Hq].
  - apply chain_nil. by etrans.
  - eapply chain_cons; [|exact Hq]. intros r Hr. apply Hu. by etrans.
Qed.

Lemma chain_app a q b q' c : chain a q b → chain b q' c → chain a (q ++ q') c.
Proof.
  induction 1 as [a b Hab|a u b q d Hu Hq IH]; intros Hc; cbn.
  - by eapply chain_equiv.
  - eapply chain_cons; [exact Hu | by apply IH].
Qed.

Lemma chain_apply a q b : chain a q b → ∀ r, r ≡ a → foldl (λ r u, apply_update u r) r q ≡ b.
Proof.
  induction 1 as [a b Hab|a u b q d Hu Hq IH]; intros r Hr; cbn; [by etrans|].
  by apply IH, Hu.
Qed.

Lemma leads_snapshot s a b u :
  accept_full_snapshot s a = (b, Ok u) → leads (FullSnapshot s) a b.
Proof.
  intros H r Hr. cbn. destruct (accept_full_snapshot_equiv s r a Hr) as [Hs _]. by rewrite H in Hs.
Qed.

Lemma leads_between base target b a :
  between base target = Ok b → viewport_honest base target → a ≡ replica_of base →
  leads (MutationBatch b) a (replica_of target).
Proof.
  intros Hb Hh Ha r Hr. cbn.
  destruct (between_apply b base target r Hb) as [(_ & r' & -> & Heq)|[? _]]; [by etrans|done|done].
Qed.

Lemma leads_release rel a : leads (ReleaseHandles rel) a a.
Proof. by intros r. Qed.

Lemma leads_equiv u a b c : leads u a b → b ≡ c → leads u a c.
Proof. intros H Hb r Hr. etrans; [by apply H|done]. Qed.

(** ** The mirror *)

(** BrowserCore's replica shows its last published source. *)
Definition mirror_inv (s : RendererState) : Prop :=
  match rs_source s with
  | Some source => snapshot_wf source ∧ rs_replica s ≡ replica_of source
  | None => rs_replica s = RenderReplica_default
  end.

Lemma index_by_same `{Keyed A, PartialEqLaws A} (l k : list A) :
  (∀ x y : A, (x ==? y) = true → key_of x = key_of y) → list_eqb partial_eq l k = true →
  ∀ i, option_Forall2 same (index_by l !! i) (index_by k !! i).
Proof.
  intros Hkey. rewrite list_eqb_Forall2. unfold index_by.
  assert (∀ m m' : gmap positive A, (∀ i, option_Forall2 same (m !! i) (m' !! i)) →
    Forall2 (λ x y, (x ==? y) = true) l k → ∀ i, option_Forall2 same
      (foldl (λ m x, <[key_of x := x]> m) m l !! i) (foldl (λ m x, <[key_of x := x]> m) m' k !! i)) as Hgen.
  { intros m m' Hm Hf. revert m m' Hm. induction Hf as [|x y l' k' Hxy _ IH]; intros m m' Hm; [done|].
    cbn. apply IH. intros i. rewrite (Hkey _ _ Hxy). destruct (decide (key_of y = i)) as [<-|Hne].
    - rewrite !lookup_insert_eq. constructor. by right.
    - by rewrite !lookup_insert_ne. }
  intros Hf. apply Hgen; [|done]. intros i. rewrite !lookup_empty. constructor.
Qed.

(** Snapshots that the program takes for equal show the same. *)
Lemma replica_of_eqb a b : (a ==? b) = true → replica_of a ≡ replica_of b.
Proof.
  unfold partial_eq, FullRenderSnapshot_eq. intros H. bool_inv.
  split_and!; cbn; [congruence| |congruence|congruence|].
  - constructor. by right.
  - intros i. apply index_by_same; [|done]. intros x y Hxy.
    apply (int_scroll_node_id_proper x y). by right.
Qed.

Lemma snapshot_update_spec replica snapshot r' u :
  snapshot_update replica snapshot = Ok (r', u) →
  u = FullSnapshot snapshot ∧ r' ≡ replica_of snapshot ∧ leads u replica r'.
Proof.
  unfold snapshot_update. destruct (accept_full_snapshot snapshot replica) as [r [[]|e]] eqn:H; [|done].
  intros [= -> <-]. pose proof (accept_full_snapshot_shows _ _ _ _ H) as (_ & ? & _).
  split_and!; [done|done|]. by eapply leads_snapshot.
Qed.

Lemma choose_update_spec s snapshot force r' u :
  mirror_inv s → choose_update s snapshot force = Ok (r', u) →
  r' ≡ replica_of snapshot ∧ leads u (rs_replica s) r' ∧ (force = true → u = FullSnapshot snapshot).
Proof.
  intros Hm. unfold mirror_inv in Hm.
  assert (snapshot_update (rs_replica s) snapshot = Ok (r', u) →
    r' ≡ replica_of snapshot ∧ leads u (rs_replica s) r' ∧ (force = true → u = FullSnapshot snapshot)) as Hfull.
  { intros (-> & ? & ?)%snapshot_update_spec. done. }
  unfold choose_update. destruct (rs_source s) as [base|]; [|done].
  destruct (negb force && _) eqn:Hf; [|done]. bool_inv. subst force.
  destruct (between base snapshot) as [batch|e] eqn:Hb; [|done].
  destruct Hm as [_ Hm]. destruct (between_apply _ _ _ _ Hb Hm) as [(Hh & r & Ha & Hr)|[_ Ha]]; rewrite Ha; [|done].
  intros [= <- <-]. split_and!; [done| |done]. eapply leads_equiv; [|symmetry; exact Hr].
  by eapply leads_between.
Qed.

(** The incremental path never asks for a resynchronisation. *)
Lemma choose_update_no_resync s base snapshot batch r q :
  mirror_inv s → rs_source s = Some base → between base snapshot = Ok batch →
  apply_batch batch (rs_replica s) ≠ (r, Ok (ResyncRequired q)).
Proof.
  unfold mirror_inv. intros Hm Hs Hb Ha. rewrite Hs in Hm. destruct Hm as [_ Hm].
  destruct (between_apply _ _ _ _ Hb Hm) as [(_ & r' & Ha' & _)|[_ Ha']]; congruence.
Qed.

Lemma call_Ok {E A} (f : RenderBrokerError → E) (m : M State RenderBrokerError A) b b' a :
  call f m b = (b', Ok a) ↔ ∃ s', m (b_broker b) = (s', Ok a) ∧ b' = set_broker s' b.
Proof.
  unfold call. destruct (m (b_broker b)) as [s [x|e]]; cbn; naive_solver.
Qed.

Lemma call_bind_Ok {E A B} (f : RenderBrokerError → E) (m : M State RenderBrokerError A)
    (k : A → M Bridge E B) b b' x :
  (call f m ≫= k) b = (b', Ok x) ↔
  ∃ s' a, m (b_broker b) = (s', Ok a) ∧ k a (set_broker s' b) = (b', Ok x).
Proof.
  unfold mbind, M_bind, call. destruct (m (b_broker b)) as [s [a|e]]; cbn; naive_solver.
Qed.

Definition published_state (replica : RenderReplica) (snapshot : FullRenderSnapshot) (s : RendererState)
    : RendererState :=
  {| rs_replica := replica; rs_commits := rs_commits s; rs_source := Some snapshot;
     rs_needs_resync := false |}.

(** A successful publication: nothing to send, or an update chosen and queued. *)
Lemma publish_renderer_source_Ok enc snapshot force b b' u :
  publish_renderer_source enc snapshot force b = (b', Ok u) ↔
  snapshot_wf snapshot ∧
  let forced := force || rs_needs_resync (b_state b) in
  if negb forced && (rs_source (b_state b) ==? Some snapshot)
  then b' = on_state (set_rs_needs_resync false) b
  else ∃ replica update s',
    choose_update (b_state b) snapshot forced = Ok (replica, update) ∧
    publish_update enc update (b_broker b) = (s', Ok tt) ∧
    b' = {| b_broker := s'; b_state := published_state replica snapshot (b_state b) |}.
Proof.
  destruct u. unfold publish_renderer_source.
  rewrite lift_bind_unit_Ok, map_err_Ok, FullRenderSnapshot_validate_iff, get_bind. cbn zeta.
  destruct (negb _ && _); [by rewrite modify_Ok|]. rewrite lift_bind_Ok. split.
  - intros (? & [replica update] & Hc & (s' & [] & Hp & H)%call_bind_Ok). split; [done|].
    exists replica, update, s'. split_and!; [done..|]. rewrite !modify_bind, modify_Ok in H. by rewrite H.
  - intros (? & replica & update & s' & Hc & Hp & ->). split; [done|]. exists (replica, update).
    split; [done|]. apply call_bind_Ok. exists s', tt. split; [done|]. by rewrite !modify_bind, modify_Ok.
Qed.

Lemma publish_renderer_source_atomic enc snapshot force : atomic (publish_renderer_source enc snapshot force).
Proof.
  unfold publish_renderer_source. atomic_tac. destruct (negb _ && _); [apply atomic_modify|].
  atomic_tac. match goal with a : (_ * _)%type |- _ => destruct a as [replica update] end.
  intros s s' e. unfold mbind, M_bind, call, modify.
  destruct (publish_update enc update (b_broker s)) as [st [u|err]] eqn:Hp; cbn; [done|].
  apply publish_updates_atomic in Hp as ->. intros [= <- _]. by destruct s.
Qed.

Lemma publish_update_Ok enc u s s' v :
  publish_update enc u s = (s', Ok v) →
  queued_update_list (outbound s') = queued_update_list (outbound s) ++ [u] ∧ closed s' = closed s.
Proof.
  unfold publish_update. intros (_ & _ & _ & ->)%publish_updates_Ok. split; [|done].
  change [QUpdate u] with (QUpdate <$> [u]). cbn [outbound set_outbound].
  by rewrite queued_update_list_app, queued_update_list_updates.
Qed.

(** What a publication queues leads from the old mirror to the new one. *)
Lemma publish_renderer_source_spec enc snapshot force b b' :
  mirror_inv (b_state b) →
  publish_renderer_source enc snapshot force b = (b', Ok tt) →
  snapshot_wf snapshot ∧ rs_replica (b_state b') ≡ replica_of snapshot ∧
  mirror_inv (b_state b') ∧ rs_needs_resync (b_state b') = false ∧
  ∃ us, queued_update_list (outbound (b_broker b')) = queued_update_list (outbound (b_broker b)) ++ us ∧
        chain (rs_replica (b_state b)) us (rs_replica (b_state b')) ∧
        (force || rs_needs_resync (b_state b) = true → us = [FullSnapshot snapshot]).
Proof.
  intros Hm H. apply publish_renderer_source_Ok in H as [Hwf H]. cbn zeta in H. split; [done|].
  destruct (negb _ && _) eqn:Hsame.
  - subst b'. bool_inv. unfold mirror_inv in *. cbn.
    destruct (rs_source (b_state b)) as [source|]; [|done]. destruct Hm as [Hs Hr].
    split_and!; [|done|done|done|].
    + etrans; [exact Hr|]. by apply replica_of_eqb.
    + exists []. rewrite app_nil_r. split_and!; [done|by apply chain_nil|].
      intros Hforce. exfalso. destruct force; cbn in *; congruence.
  - destruct H as (replica & update & s' & (Hr & Hl & Hf)%choose_update_spec & [Hq _]%publish_update_Ok & ->);
      [|done]. cbn. split_and!; try done. exists [update]. split_and!; [done| |].
    + eapply chain_cons; [exact Hl|]. by apply chain_nil.
    + intros Hforce. by rewrite Hf.
Qed.

(** ** Draining the submissions *)

Lemma peek_submission_eq s :
  peek_submission s = (s, if closed s then Err closed_error else Ok (head (submissions s))).
Proof.
  unfold peek_submission. cbv [mbind M_bind get lift mret M_ret]. by destruct (closed s).
Qed.

Section drains.
Context (enc : RenderBridgeUpdate → option N).

Lemma consume_bridge_Ok submission us b b' u :
  consume enc submission us b = (b', Ok u) ↔
  ∃ s', consume_submission_with_updates enc submission us (b_broker b) = (s', Ok tt) ∧
        b' = set_broker s' b.
Proof. destruct u. apply call_Ok. Qed.

Lemma consume_bridge_atomic submission us : atomic (consume enc submission us).
Proof.
  intros b b' e. unfold consume, call.
  destruct (consume_submission_with_updates enc submission us (b_broker b)) as [s [u|err]] eqn:H; cbn; [done|].
  apply consume_atomic in H as ->. intros [= <- _]. by destruct b.
Qed.

(** What a consumed submission leaves: one submission less, its updates queued, and only the
    acceptance state and the resynchronisation flag touched. *)
Definition consumed (us : list RenderBridgeUpdate) (b b' : Bridge) : Prop :=
  (∃ front rest, submissions (b_broker b) = front :: rest ∧ submissions (b_broker b') = rest) ∧
  queued_update_list (outbound (b_broker b')) = queued_update_list (outbound (b_broker b)) ++ us ∧
  closed (b_broker b') = closed (b_broker b) ∧
  rs_replica (b_state b') = rs_replica (b_state b) ∧ rs_source (b_state b') = rs_source (b_state b).

Lemma consume_consumed submission us b b' u :
  consume enc submission us b = (b', Ok u) → consumed us b b' ∧ b_state b' = b_state b.
Proof.
  intros (s' & (_ & Hc & (front & rest & Hs & _ & ->) & _)%consume_Ok & ->)%consume_bridge_Ok.
  split; [|done]. split_and!; try done.
  - by exists front, rest.
  - cbn [b_broker set_broker outbound set_outbound].
    by rewrite queued_update_list_app, queued_update_list_updates.
Qed.

(** The acceptance state after a submission, and the releases it queues. *)
Definition accept_submission (s : RendererState) (x : RenderBridgeSubmission)
    : RenderCommitState * result RenderProtocolError (list RenderHandleRelease) :=
  match x with
  | SubmitCommit c => accept_commit (rs_replica s) c (rs_commits s)
  | SubmitPresented p => accept_presented (rs_replica s) p (rs_commits s)
  | SubmitResync _ => (RenderCommitState_default, Ok [])
  end.

Definition refusal_updates (x : RenderBridgeSubmission) : list RenderBridgeUpdate :=
  match x with SubmitCommit c => [release_of_submitted c] | _ => [] end.

Lemma refuse_inv x us e b b' r :
  refuse enc x us e b = (b', r) →
  (∃ err, b' = b ∧ r = Err err) ∨
  (consumed us b b' ∧ b_state b' = b_state b ∧
   r = if bool_decide (code e = STALE) then Ok (Some None) else Err (render_protocol_error e)).
Proof.
  unfold refuse, mbind, M_bind. destruct (consume enc x us b) as [b1 [u|err]] eqn:H.
  - apply consume_consumed in H as [? ?]. case_bool_decide; intros [= <- <-]; right; by split_and!.
  - apply consume_bridge_atomic in H as ->. intros [= <- <-]. left. by exists err.
Qed.

(** One turn: the broker refused the consumption, or the submission is consumed and the
    acceptance state is what accepting it makes of it. *)
Lemma drain_submission_inv x b b' r :
  drain_submission enc x b = (b', r) →
  (∃ err, r = Err err ∧ b_broker b' = b_broker b ∧ rs_replica (b_state b') = rs_replica (b_state b) ∧
          rs_source (b_state b') = rs_source (b_state b) ∧
          rs_commits (b_state b') ∈ [rs_commits (b_state b); RenderCommitState_default]) ∨
  match accept_submission (b_state b) x with
  | (commits, Ok releases) =>
      consumed (ReleaseHandles <$> releases) b b' ∧ rs_commits (b_state b') = commits ∧
      r = Ok (Some match x with SubmitCommit c => Some c | _ => None end)
  | (_, Err e) =>
      consumed (refusal_updates x) b b' ∧ b_state b' = b_state b ∧
      r = if bool_decide (code e = STALE) then Ok (Some None) else Err (render_protocol_error e)
  end.
Proof.
  unfold drain_submission. rewrite get_bind. destruct x as [c|p|q]; cbn [accept_submission refusal_updates].
  - destruct (accept_commit _ _ _) as [commits [releases|e]].
    + unfold mbind, M_bind. destruct (consume enc _ _ b) as [b1 [u|err]] eqn:H.
      * apply consume_consumed in H as [(?&?&?&?&?) ?]. intros [= <- <-]. right. by split_and!.
      * apply consume_bridge_atomic in H as ->. intros [= <- <-]. left. exists err. split_and!; try done. by left.
    + intros [(err & -> & ->)|(?&?&?)]%refuse_inv; [left; exists err; split_and!; try done; by left|by right].
  - destruct (accept_presented _ _ _) as [commits [releases|e]].
    + unfold mbind, M_bind. destruct (consume enc _ _ b) as [b1 [u|err]] eqn:H.
      * apply consume_consumed in H as [(?&?&?&?&?) ?]. intros [= <- <-]. right. by split_and!.
      * apply consume_bridge_atomic in H as ->. intros [= <- <-]. left. exists err. split_and!; try done. by left.
    + intros [(err & -> & ->)|(?&?&?)]%refuse_inv; [left; exists err; split_and!; try done; by left|by right].
  - rewrite !modify_bind. unfold mbind, M_bind.
    destruct (consume enc _ _ _) as [b1 [u|err]] eqn:H.
    + apply consume_consumed in H as [(?&?&?&?&?) Hst]. intros [= <- <-]. right.
      split_and!; try done. by rewrite Hst.
    + apply consume_bridge_atomic in H as ->. intros [= <- <-]. left. exists err. split_and!; try done.
      right. by left.
Qed.

Lemma accept_submission_wf s x :
  commit_state_wf (rs_commits s) → commit_state_wf (accept_submission s x).1.
Proof.
  intros Hwf. destruct x as [c|p|q]; cbn; [| |by constructor].
  - destruct (accept_commit _ _ _) as [s' [rel|e]] eqn:H.
    + apply accept_commit_Ok in H as (? & ? & -> & _). by apply commit_next_wf.
    + by apply accept_commit_atomic in H as ->.
  - destruct (accept_presented _ _ _) as [s' [rel|e]] eqn:H; [|by apply accept_presented_atomic in H as ->].
    apply accept_presented_Ok in H as (c & _ & Hc & _ & _ & H).
    destruct (accepted_is_presented (rs_commits s)); destruct H as [-> ->]; [done|].
    constructor; cbn; try done. intros ? [= <-]. exists c. split_and!; try done. apply same_doc_refl.
Qed.

Lemma drain_submission_commits_wf x b b' r :
  drain_submission enc x b = (b', r) →
  commit_state_wf (rs_commits (b_state b)) → commit_state_wf (rs_commits (b_state b')).
Proof.
  intros H Hwf. pose proof (accept_submission_wf (b_state b) x Hwf) as Ha.
  apply drain_submission_inv in H as [(err & _ & _ & _ & _ & Hc)|H].
  - rewrite elem_of_cons, list_elem_of_singleton in Hc.
    destruct Hc as [-> | ->]; [done | by constructor].
  - destruct (accept_submission (b_state b) x) as [commits [rel|e]].
    + by destruct H as (_ & -> & _).
    + by destruct H as (_ & -> & _).
Qed.

Definition calm : nat → State → State := λ _ s, s.

Lemma drain_turn_calm_Some n b b' c :
  drain_turn enc (calm n) b = (b', Ok (Some c)) →
  closed (b_broker b') = closed (b_broker b) ∧
  length (submissions (b_broker b)) = S (length (submissions (b_broker b'))).
Proof.
  unfold drain_turn. intros (s' & front & Hp & H)%call_bind_Ok.
  rewrite peek_submission_eq in Hp. destruct (closed (b_broker b)) eqn:Hc; [done|]. simplify_eq.
  destruct (head (submissions (b_broker b))) as [x|]; [|done].
  rewrite modify_bind in H. unfold calm in H.
  apply drain_submission_inv in H as [(err & ? & _)|H]; [done|].
  destruct (accept_submission _ x) as [commits [rel|e]].
  - destruct H as (((front & rest & Hs & Hs') & _ & Hc' & _) & _). cbn in *. rewrite Hs, Hs'. split; [congruence|done].
  - destruct H as (((front & rest & Hs & Hs') & _ & Hc' & _) & _). cbn in *. rewrite Hs, Hs'. split; [congruence|done].
Qed.

Lemma drain_loop_enough fuel acc b b' r :
  (length (submissions (b_broker b)) < fuel)%nat →
  drain_loop enc calm fuel acc b = (b', r) → r ≠ Ok None.
Proof.
  revert acc b. induction fuel as [|fuel IH]; intros acc b Hf; [lia|]. cbn [drain_loop].
  unfold mbind, M_bind. destruct (drain_turn enc (calm fuel) b) as [b1 [[c|]|e]] eqn:H.
  - apply drain_turn_calm_Some in H as [_ Hl]. apply IH. lia.
  - by intros [= _ <-].
  - by intros [= _ <-].
Qed.

(** A drain that ends normally emptied the queue. *)
Lemma drain_loop_empties fuel acc b b' l :
  drain_loop enc calm fuel acc b = (b', Ok (Some l)) →
  submissions (b_broker b') = [] ∧ closed (b_broker b') = false.
Proof.
  revert acc b. induction fuel as [|fuel IH]; intros acc b; [done|]. cbn [drain_loop].
  unfold mbind, M_bind. destruct (drain_turn enc (calm fuel) b) as [b1 [[c|]|e]] eqn:H; [apply IH| |done].
  intros [= <- _]. unfold drain_turn in H. apply call_bind_Ok in H as (s' & front & Hp & H).
  rewrite peek_submission_eq in Hp. destruct (closed (b_broker b)) eqn:Hc; [done|]. simplify_eq.
  destruct (submissions (b_broker b)) as [|x rest] eqn:Hs; cbn in H;
    [injection H as <-; by split|].
  rewrite modify_bind in H. apply drain_submission_inv in H as [(err & ? & _)|H]; [done|].
  destruct (accept_submission _ x) as [commits [rel|e]]; [by destruct H as (_ & _ & ?)|].
  destruct H as (_ & _ & H). by case_bool_decide.
Qed.
End drains.

(** ** The renderer follows the mirror *)

Inductive bridge_step (enc : RenderBridgeUpdate → option N)
    : Bridge * RenderReplica → Bridge * RenderReplica → Prop :=
| bs_publish snapshot force b b' r R :
    publish_renderer_source enc snapshot force b = (b', r) → bridge_step enc (b, R) (b', R)
| bs_drain x b b' r R :
    drain_submission enc x b = (b', r) → bridge_step enc (b, R) (b', R)
| bs_poll now b s' r R :
    poll_message now (b_broker b) = (s', r) →
    bridge_step enc (b, R)
      (set_broker s' b, match r with Ok (Some (MUpdate u)) => apply_update u R | _ => R end)
| bs_submit x b s' r R :
    submit x (b_broker b) = (s', r) → bridge_step enc (b, R) (set_broker s' b, R)
| bs_request request deadline b s' r R :
    enqueue_request request deadline (b_broker b) = (s', r) → bridge_step enc (b, R) (set_broker s' b, R)
| bs_respond now id b s' r R :
    respond_take now id (b_broker b) = (s', r) → bridge_step enc (b, R) (set_broker s' b, R)
| bs_remove id b s' r R :
    remove_pending id (b_broker b) = (s', r) → bridge_step enc (b, R) (set_broker s' b, R).

Definition Bridge_new : Bridge := {| b_broker := State_default; b_state := RendererState_default |}.

Definition queue_of (b : Bridge) : list RenderBridgeUpdate := queued_update_list (outbound (b_broker b)).

(** The mirror shows the source, the queue leads the renderer to the mirror, and the acceptance
    state is well formed. *)
Definition bridge_inv (bR : Bridge * RenderReplica) : Prop :=
  mirror_inv (b_state bR.1) ∧ chain bR.2 (queue_of bR.1) (rs_replica (b_state bR.1)) ∧
  commit_state_wf (rs_commits (b_state bR.1)).

Lemma chain_releases l a : chain a (ReleaseHandles <$> l) a.
Proof.
  induction l as [|x l IH]; [by apply chain_nil|]. eapply chain_cons; [apply leads_release | exact IH].
Qed.

Lemma chain_refusal x a : chain a (refusal_updates x) a.
Proof. destruct x; [apply (chain_releases [_])|by apply chain_nil..]. Qed.

Lemma mirror_inv_same s s' :
  rs_replica s' = rs_replica s → rs_source s' = rs_source s → mirror_inv s → mirror_inv s'.
Proof. unfold mirror_inv. by intros -> ->. Qed.

Lemma chain_mirror_same b b' R us :
  queue_of b' = queue_of b ++ us → rs_replica (b_state b') = rs_replica (b_state b) →
  chain (rs_replica (b_state b)) us (rs_replica (b_state b)) →
  chain R (queue_of b) (rs_replica (b_state b)) → chain R (queue_of b') (rs_replica (b_state b')).
Proof. intros -> -> Hus H. by eapply chain_app. Qed.

Lemma broker_only_inv b s' R :
  queued_update_list (outbound s') = queue_of b → bridge_inv (b, R) → bridge_inv (set_broker s' b, R).
Proof.
  intros Hq (Hm & Hc & Hw). split_and!; [done| |done]. cbn in *. unfold queue_of in *. cbn. by rewrite Hq.
Qed.

Lemma publish_renderer_source_commits enc snapshot force b b' u :
  publish_renderer_source enc snapshot force b = (b', Ok u) →
  rs_commits (b_state b') = rs_commits (b_state b).
Proof.
  intros [_ H]%publish_renderer_source_Ok. cbn zeta in H. destruct (negb _ && _); [by subst|].
  by destruct H as (?&?&?&_&_&->).
Qed.

Lemma drain_submission_bridge_inv enc x b b' r R :
  drain_submission enc x b = (b', r) → bridge_inv (b, R) → bridge_inv (b', R).
Proof.
  intros H (Hm & Hc & Hw). pose proof (drain_submission_commits_wf _ _ _ _ _ H Hw) as Hw'.
  apply drain_submission_inv in H as [(err & _ & Hb & Hr & Hs & _)|H].
  - split_and!; [by eapply mirror_inv_same| |done]. cbn in *. unfold queue_of. by rewrite Hb, Hr.
  - assert (∃ us, consumed us b b' ∧ chain (rs_replica (b_state b)) us (rs_replica (b_state b))) as
      (us & (_ & Hq & _ & Hr & Hs) & Hus).
    { destruct (accept_submission _ x) as [commits [rel|e]].
      - destruct H as (? & _ & _). eexists. split; [done|]. apply chain_releases.
      - destruct H as (? & _ & _). eexists. split; [done|]. apply chain_refusal. }
    split_and!; [by eapply mirror_inv_same| |done]. by eapply chain_mirror_same.
Qed.

Lemma bridge_step_inv enc x y : bridge_step enc x y → bridge_inv x → bridge_inv y.
Proof.
  intros [snapshot force b b' r R H|sub b b' r R H|now b s' r R H|sub b s' r R H|req d b s' r R H
    |now id b s' r R H|id b s' r R H] Hi.
  - destruct r as [[]|e]; [|by apply publish_renderer_source_atomic in H as ->].
    destruct Hi as (Hm & Hc & Hw).
    pose proof (publish_renderer_source_commits _ _ _ _ _ _ H) as Hcm.
    destruct (publish_renderer_source_spec _ _ _ _ _ Hm H) as (_ & _ & Hm' & _ & us & Hq & Hus & _).
    split_and!; [done| |cbn; by rewrite Hcm]. cbn in *. unfold queue_of. rewrite Hq. by eapply chain_app.
  - by eapply drain_submission_bridge_inv.
  - pose proof (poll_moves now _ _ _ _ eq_refl H) as Hq. unfold queue_moves in Hq.
    destruct r as [[[req|u]|]|e]; cbn in Hq; rewrite ?app_nil_r in Hq; try by apply broker_only_inv.
    destruct Hi as (Hm & Hc & Hw). split_and!; [done| |done]. cbn in *. unfold queue_of in *. cbn.
    rewrite Hq in Hc. inversion Hc as [|? ? b1 ? ? Hu Hrest]; subst.
    eapply chain_equiv; [by apply Hu|done].
  - apply broker_only_inv; [|done].
    destruct r; [by apply submit_Ok in H as (_&_&_&->)|by apply submit_atomic in H as ->].
  - apply broker_only_inv; [|done]. destruct r; [|by apply enqueue_request_atomic in H as ->].
    apply enqueue_request_Ok in H as (_&_&->). cbn [outbound set_outbound].
    by rewrite queued_update_list_app, app_nil_r.
  - apply broker_only_inv; [|done]. destruct r; [|by apply respond_take_atomic in H as ->].
    apply respond_take_Ok in H as (_&_&->). apply without_request_updates.
  - apply broker_only_inv; [|done]. injection H as <- _. apply without_request_updates.
Qed.

Lemma bridge_run_inv enc bR :
  rtc (bridge_step enc) (Bridge_new, RenderReplica_default) bR → bridge_inv bR.
Proof.
  intros H. apply (rtc_ind_r (R:=bridge_step enc) (λ y, bridge_inv y) (Bridge_new, RenderReplica_default)); [| |exact H].
  - split_and!; [done|by apply chain_nil|by constructor].
  - intros y z _ Hstep Hy. by eapply bridge_step_inv.
Qed.

(** ** The properties *)

(** C5. The renderer converges to BrowserCore's mirror: in every interleaving of publications,
    drained submissions, polls and requests, a renderer that applies the queued updates shows
    what the mirror shows, hence, once its queue is empty, the last published source. *)
Theorem renderer_converges enc b R :
  rtc (bridge_step enc) (Bridge_new, RenderReplica_default) (b, R) →
  foldl (λ r u, apply_update u r) R (queue_of b) ≡ rs_replica (b_state b) ∧
  (∀ source, rs_source (b_state b) = Some source → queue_of b = [] → R ≡ replica_of source).
Proof.
  intros (Hm & Hc & _)%bridge_run_inv. cbn in *. pose proof (chain_apply _ _ _ Hc R) as Ha.
  split; [by apply Ha|]. intros source Hs Hq. rewrite Hq in Ha. unfold mirror_inv in Hm.
  rewrite Hs in Hm. destruct Hm as [_ Hm]. etrans; [by apply Ha|done].
Qed.

(** A publication that succeeds leaves the mirror showing the snapshot and the resync flag
    cleared; a forced one, or one after a resync request, sends exactly the full snapshot. *)
Theorem publish_source_correct enc snapshot force b b' R :
  rtc (bridge_step enc) (Bridge_new, RenderReplica_default) (b, R) →
  publish_renderer_source enc snapshot force b = (b', Ok tt) →
  rs_replica (b_state b') ≡ replica_of snapshot ∧ rs_needs_resync (b_state b') = false ∧
  (force || rs_needs_resync (b_state b) = true → queue_of b' = queue_of b ++ [FullSnapshot snapshot]).
Proof.
  intros (Hm & _ & _)%bridge_run_inv H.
  destruct (publish_renderer_source_spec _ _ _ _ _ Hm H) as (_ & ? & _ & ? & us & Hq & _ & Hf).
  split_and!; [done|done|]. intros Hforce. unfold queue_of. by rewrite Hq, Hf.
Qed.

(** A publication that fails changes neither the mirror nor the broker. *)
Theorem publish_source_atomic enc snapshot force b b' e :
  publish_renderer_source enc snapshot force b = (b', Err e) → b' = b.
Proof. apply publish_renderer_source_atomic. Qed.

(** Draining terminates and is complete: with one turn more than there are submissions, and no
    submission arriving meanwhile, the loop ends, and when it ends without an error the
    submission queue is empty. *)
Theorem drain_terminates enc b b' r :
  drain_renderer_submissions enc calm (S (length (submissions (b_broker b)))) b = (b', r) →
  r ≠ Ok None ∧ (∀ l, r = Ok (Some l) → submissions (b_broker b') = []).
Proof.
  intros H. split; [eapply drain_loop_enough; [|exact H]; lia|].
  intros l ->. by eapply drain_loop_empties.
Qed.

(** ** Layout and text requests *)

(** What the bridge relies on the channel for: a response answers the request it was asked. *)
Class Answering (ask : nat → RenderBrokerRequestKind → M Bridge RenderBrokerError RenderBrokerResponse) : Prop :=
  ask_answers n kind b b' r : ask n kind b = (b', Ok r) →
    ∃ request, req_kind request = kind ∧ delivered_ok request r.

(** The broker keeps that promise: whatever its runs return is such a response. *)
Lemma broker_answers enc ask :
  (∀ n kind b b' r, ask n kind b = (b', Ok r) → ∃ evs w id,
     broker_run enc evs w ∧ EvReturned id (Ok r) ∈ evs ∧
     ∀ request, EvStarted request ∈ evs → req_request_id request = id → req_kind request = kind) →
  Answering ask.
Proof.
  intros H n kind b b' r Ha. destruct (H _ _ _ _ _ Ha) as (evs & w & id & Hrun & Hin & Hkind).
  destruct (broker_run_returned _ _ _ _ _ Hrun Hin) as (request & Hs & Hid & Hok).
  exists request. split; [by apply Hkind | done].
Qed.

Section synchronous_facts.
Context (enc : RenderBridgeUpdate → option N)
  (ask : nat → RenderBrokerRequestKind → M Bridge RenderBrokerError RenderBrokerResponse)
  `{!Answering ask} (reason : nat → option RenderBrokerCancellation)
  (interfere : nat → State → State) (fuel : nat) (response_debug : RenderBrokerResponseKind → rstr).

Lemma commit_answer_revision n rev b b' r c :
  ask n (EnsureLayout rev) b = (b', Ok r) → resp_kind r = RespCommit c → commit_revision c = rev.
Proof.
  intros (request & Hk & [Hok|(_ & _ & ? & ? & ?)])%ask_answers Hr; [|congruence].
  destruct Hok as (_ & _ & Hok). rewrite Hk, Hr in Hok. apply Hok.
Qed.

Lemma take_commit_Ok response b b' c :
  take_commit enc interfere fuel response b = (b', Ok (Return c)) →
  accepted (rs_commits (b_state b')) = Some c ∧ (c ==? response) = true.
Proof.
  unfold take_commit, mbind, M_bind, try, get. destruct (drain_commits enc interfere fuel b) as [b1 [[l|]|e]]; [|done..].
  destruct (accepted (rs_commits (b_state b1))) as [commit|] eqn:Ha; [|done].
  destruct (commit ==? response) eqn:He; cbn; [|done]. intros [= <- <-]. done.
Qed.

Lemma RenderCommit_eqb_revision (a b : RenderCommit) :
  (a ==? b) = true → commit_revision a = commit_revision b.
Proof. unfold partial_eq, RenderCommit_eq. intros H. by bool_inv. Qed.

Lemma handle_response_Ok n rev force b0 b r b' c :
  ask n (EnsureLayout rev) b0 = (b, r) →
  handle_response enc reason interfere fuel response_debug n force r b = (b', Ok (Return c)) →
  accepted (rs_commits (b_state b')) = Some c ∧ commit_revision c = rev.
Proof.
  intros Hask. unfold handle_response. destruct r as [response|e].
  - destruct (resp_kind response) as [rc|t|t|p| |w|fc fm] eqn:Hk; try done.
    + intros [Ha He]%take_commit_Ok. split; [done|]. apply RenderCommit_eqb_revision in He.
      rewrite He. by eapply commit_answer_revision.
    + by destruct (reason n).
  - destruct (reason n); [done|]. by case_bool_decide.
Qed.

Lemma ensure_attempt_Ok n force snapshot b b' c :
  ensure_attempt enc ask reason interfere fuel response_debug n force snapshot b = (b', Ok (Return c)) →
  accepted (rs_commits (b_state b')) = Some c ∧ commit_revision c = snap_revision snapshot.
Proof.
  unfold ensure_attempt, mbind, M_bind, map_err_m, get.
  destruct (drain_commits enc interfere fuel b) as [b1 [[l|]|e]]; cbn [map_err]; [|done..].
  destruct (current_commit (b_state b1) snapshot) as [commit|] eqn:Hc.
  - intros [= <- <-]. unfold current_commit in Hc.
    destruct (accepted (rs_commits (b_state b1))) as [a|] eqn:Ha; [|done].
    destruct (_ && _) eqn:Hb in Hc; [|done]. bool_inv. by simplify_eq.
  - destruct (publish_renderer_source _ _ _ _) as [b2 [u|e]]; [|done].
    unfold try. destruct (ask n (EnsureLayout (snap_revision snapshot)) b2) as [b3 r] eqn:Hask.
    intros H. by eapply handle_response_Ok.
Qed.

Lemma ensure_loop_Ok attempts n force snapshot b b' c :
  ensure_loop enc ask reason interfere fuel response_debug attempts n force snapshot b = (b', Ok (Some c)) →
  accepted (rs_commits (b_state b')) = Some c ∧ commit_revision c = snap_revision snapshot.
Proof.
  revert n force b. induction attempts as [|attempts IH]; intros n force b; [done|]. cbn [ensure_loop].
  unfold mbind, M_bind.
  destruct (ensure_attempt _ _ _ _ _ _ _ _ _ _) as [b1 [[commit|f|]|e]] eqn:H; [|apply IH|done..].
  intros [= <- <-]. by eapply ensure_attempt_Ok.
Qed.
End synchronous_facts.

(** A layout that [ensure_layout] returns is the accepted commit of the acceptance state, and
    it is a commit of exactly the revision that was asked for, whichever of its paths returned
    it. *)
Theorem ensure_layout_returns_accepted enc ask reason interfere fuel dbg snapshot b b' c :
  Answering ask →
  ensure_layout enc ask reason interfere fuel dbg snapshot b = (b', Ok (Some c)) →
  accepted (rs_commits (b_state b')) = Some c ∧ commit_revision c = snap_revision snapshot.
Proof.
  intros Hask H. unfold ensure_layout in H.
  exact (ensure_loop_Ok enc ask reason interfere fuel dbg _ _ _ _ _ _ _ H).
Qed.

(** ** Witnesses *)

Definition bridge_published : Bridge := (publish_renderer_source sample_encoded_size sample_base false Bridge_new).1.
Definition bridge_updated : Bridge :=
  (publish_renderer_source sample_encoded_size (sample_target 2 900) false bridge_published).1.

Lemma sample_bridge_run1 :
  rtc (bridge_step sample_encoded_size) (Bridge_new, RenderReplica_default)
    (bridge_published, RenderReplica_default).
Proof.
  apply rtc_once. apply (bs_publish _ sample_base false _ _ (Ok tt)). vm_compute. reflexivity.
Qed.

Lemma sample_publish :
  publish_renderer_source sample_encoded_size (sample_target 2 900) false bridge_published =
  (bridge_updated, Ok tt).
Proof. vm_compute. reflexivity. Qed.

Lemma sample_bridge_run2 :
  rtc (bridge_step sample_encoded_size) (Bridge_new, RenderReplica_default)
    (bridge_updated, RenderReplica_default).
Proof.
  eapply rtc_r; [exact sample_bridge_run1|]. eapply bs_publish. exact sample_publish.
Qed.

Lemma renderer_converges_witness :
  foldl (λ r u, apply_update u r) RenderReplica_default (queue_of bridge_updated) ≡
  rs_replica (b_state bridge_updated).
Proof. exact (proj1 (renderer_converges _ _ _ sample_bridge_run2)). Defined.

Lemma publish_source_correct_witness :
  rs_replica (b_state bridge_updated) ≡ replica_of (sample_target 2 900).
Proof. exact (proj1 (publish_source_correct _ _ _ _ _ _ sample_bridge_run1 sample_publish)). Defined.

Definition bridge_closed : Bridge := {| b_broker := (shutdown_take State_default).1; b_state := RendererState_default |}.

Lemma publish_source_atomic_witness :
  publish_renderer_source sample_encoded_size sample_base false bridge_closed =
  (bridge_closed, Err (sync_of_broker closed_error)).
Proof.
  assert ((publish_renderer_source sample_encoded_size sample_base false bridge_closed).2 =
    Err (sync_of_broker closed_error)) as Hr by (vm_compute; reflexivity).
  destruct (publish_renderer_source sample_encoded_size sample_base false bridge_closed) as [b' r] eqn:H.
  cbn in Hr. subst r. rewrite (publish_source_atomic _ _ _ _ _ _ H). reflexivity.
Defined.

Definition with_submissions (l : list RenderBridgeSubmission) (b : Bridge) : Bridge :=
  set_broker (set_submissions l (b_broker b)) b.

Definition bridge_submitted : Bridge := with_submissions [SubmitCommit (sample_commit 1)] bridge_published.

Lemma drain_terminates_witness :
  submissions (b_broker (drain_renderer_submissions sample_encoded_size calm 2 bridge_submitted).1) = [].
Proof.
  apply (proj2 (drain_terminates sample_encoded_size bridge_submitted
    (drain_renderer_submissions sample_encoded_size calm 2 bridge_submitted).1
    (drain_renderer_submissions sample_encoded_size calm 2 bridge_submitted).2
    (surjective_pairing _)) [sample_commit 1]).
  vm_compute. reflexivity.
Defined.

(** A renderer that submits the commit and answers with it. *)
Definition sample_ask (_ : nat) (kind : RenderBrokerRequestKind)
    : M Bridge RenderBrokerError RenderBrokerResponse :=
  match kind with
  | EnsureLayout rev =>
      if bool_decide (rev = sample_revision 1) then
        _ ← modify (with_submissions [SubmitCommit (sample_commit 1)]);
        mret (response_of 1 (RespCommit (sample_commit 1)))
      else fail closed_error
  | _ => fail closed_error
  end.

Lemma sample_ask_answers : Answering sample_ask.
Proof.
  intros n kind b b' r. unfold sample_ask. destruct kind as [rev| | | |]; try done.
  case_bool_decide as Hrev; [|done]. intros [= _ <-]. exists (request_for 1 (EnsureLayout rev)).
  split; [done|]. left. subst rev. apply (validate_for_answers _ _ tt). vm_compute. reflexivity.
Qed.

Definition sample_layout : Bridge * result SynchronousRendererError (option RenderCommit) :=
  ensure_layout sample_encoded_size sample_ask (λ _, None) calm 3 (λ _, []) sample_base Bridge_new.

Lemma ensure_layout_returns_accepted_witness :
  accepted (rs_commits (b_state sample_layout.1)) = Some (sample_commit 1) ∧
  commit_revision (sample_commit 1) = snap_revision sample_base.
Proof.
  apply (ensure_layout_returns_accepted sample_encoded_size sample_ask (λ _, None) calm 3 (λ _, [])
    sample_base Bridge_new sample_layout.1 (sample_commit 1) sample_ask_answers).
  vm_compute. reflexivity.
Defined.

(** ** Two behaviours that the comments do not lead one to expect *)

(** Submitting the displayed commit a second time releases the handles that are still in use:
    the stale arm of the drain queues a release although the acceptance state holds them. *)
Lemma stale_resubmission_releases_live_handles :
  let b1 := (drain_submission sample_encoded_size (SubmitCommit (sample_commit 1)) bridge_submitted).1 in
  let b2 := with_submissions [SubmitCommit (sample_commit 1)] b1 in
  let b3 := (drain_submission sample_encoded_size (SubmitCommit (sample_commit 1)) b2).1 in
  queue_of b3 = queue_of b1 ++ [ReleaseHandles (release_of (sample_commit 1))] ∧
  live (rs_commits (b_state b3)) = [sample_commit 1].
Proof. split; vm_compute; reflexivity. Qed.

(** A later submission that is refused with an error hides the commits that the same drain
    accepted before it: the caller gets no list although the acceptance state moved on. *)
Definition bad_commit : RenderCommit :=
  {| commit_version := 1; commit_id := 2; commit_revision := sample_revision 1;
     commit_viewport := sample_viewport 800;
     geometry_index := [{| geo_node_id := 99; geo_fragment_id := 1; geo_border_box := sample_rect;
       geo_padding_box := sample_rect; geo_content_box := sample_rect; geo_clip := None;
       geo_scroll_node_id := None; geo_paint_order := 0 |}];
     hit_test_handle := 1; text_query_handle := 1; scroll_snapshot := []; semantic_bounds := [];
     truncations := [] |}.

Definition submitted (x : RenderBridgeSubmission) (b : Bridge) : Bridge :=
  set_broker (submit x (b_broker b)).1 b.

Lemma drain_error_hides_accepted_commits :
  let b := submitted (SubmitCommit bad_commit) (submitted (SubmitCommit (sample_commit 1)) bridge_published) in
  let r := drain_renderer_submissions sample_encoded_size calm 3 b in
  length (submissions (b_broker b)) = 2%nat ∧
  is_ok r.2 = false ∧ accepted (rs_commits (b_state r.1)) = Some (sample_commit 1).
Proof. split_and!; vm_compute; reflexivity. Qed.
