(* ===== verification/RustStr.v ===== *)
(** * Strings of the Rust standard library

    The [str] methods that the parsers use, on lists of code points.  A byte index of the
    source always stands at an ASCII character or at the end of a match, so slices are taken
    by characters.  Definitions first, then their lemmas. *)

From Stdlib Require Import Lia ZArith.
From stdpp Require Import base decidable sets list strings.
From Stdlib Require Import Sorting.Sorted.
From S2P Require Import Prelude.

(** The code points with the Unicode property [White_Space] ([char::is_whitespace]). *)
Definition is_whitespace (c : rchar) : bool :=
  ((9 <=? c) && (c <=? 13) || (c =? 32) || (c =? 133) || (c =? 160) || (c =? 5760) ||
   ((8192 <=? c) && (c <=? 8202)) || (c =? 8232) || (c =? 8233) || (c =? 8239) ||
   (c =? 8287) || (c =? 12288))%N.

Fixpoint trim_start (s : rstr) : rstr :=
  match s with
  | [] => []
  | c :: s' => if is_whitespace c then trim_start s' else s
  end.

(** [str::trim] *)
Definition trim (s : rstr) : rstr := reverse (trim_start (reverse (trim_start s))).

(** [str::to_ascii_lowercase] *)
Definition ascii_lower (c : rchar) : rchar :=
  if ((65 <=? c) && (c <=? 90))%N then (c + 32)%N else c.
Definition to_ascii_lowercase (s : rstr) : rstr := ascii_lower <$> s.

(** [str::contains(char)] and [str::ends_with(char)] *)
Definition contains_char (c : rchar) (s : rstr) : bool := bool_decide (c ∈ s).
Definition ends_with_char (c : rchar) (s : rstr) : bool := bool_decide (last s = Some c).
Definition starts_with_char (c : rchar) (s : rstr) : bool := bool_decide (head s = Some c).

(** [str::strip_prefix] of one character, [str::strip_suffix] of a string *)
Definition strip_prefix_char (c : rchar) (s : rstr) : option rstr :=
  match s with
  | x :: s' => if bool_decide (x = c) then Some s' else None
  | [] => None
  end.
Definition strip_suffix (suffix s : rstr) : option rstr :=
  if bool_decide (suffix `suffix_of` s) then Some (take (length s - length suffix) s) else None.

(** [str::split_once(char)] *)
Fixpoint split_once (c : rchar) (s : rstr) : option (rstr * rstr) :=
  match s with
  | [] => None
  | x :: s' =>
      if bool_decide (x = c) then Some ([], s')
      else match split_once c s' with
           | Some (a, b) => Some (x :: a, b)
           | None => None
           end
  end.

(** [str::split] at the characters that satisfy a test: the pieces, never none. *)
Fixpoint split_by (p : rchar → bool) (s : rstr) : list rstr :=
  match s with
  | [] => [[]]
  | x :: s' =>
      if p x then [] :: split_by p s'
      else match split_by p s' with
           | piece :: pieces => (x :: piece) :: pieces
           | [] => [[x]]
           end
  end.
Definition split_char (c : rchar) (s : rstr) : list rstr := split_by (λ x, bool_decide (x = c)) s.

(** [s[..s.rfind(c)]]: what precedes the last occurrence, if there is one. *)
Fixpoint before_last (c : rchar) (s : rstr) : option rstr :=
  match s with
  | [] => None
  | x :: s' =>
      match before_last c s' with
      | Some a => Some (x :: a)
      | None => if bool_decide (x = c) then Some [] else None
      end
  end.

(** [str::trim_start_matches] and [trim_end_matches] *)
Fixpoint trim_start_matches (p : rchar → bool) (s : rstr) : rstr :=
  match s with
  | [] => []
  | x :: s' => if p x then trim_start_matches p s' else s
  end.
Definition trim_end_matches (p : rchar → bool) (s : rstr) : rstr :=
  reverse (trim_start_matches p (reverse s)).

(** [char::is_ascii_digit], and a leading run of such characters with the rest *)
Definition is_digit (c : rchar) : bool := ((48 <=? c) && (c <=? 57))%N.
Fixpoint take_while (p : rchar → bool) (s : rstr) : rstr :=
  match s with
  | [] => []
  | x :: s' => if p x then x :: take_while p s' else []
  end.

(** [parse::<i64>()]: an optional sign and at least one digit, within the width. *)
Definition i64_min : Z := -9223372036854775808.
Definition i64_max : Z := 9223372036854775807.
Definition digits_value (s : rstr) : Z :=
  foldl (λ n c, 10 * n + (Z.of_N c - 48))%Z 0%Z s.
Definition in_i64 (n : Z) : option Z :=
  if bool_decide (i64_min ≤ n ≤ i64_max)%Z then Some n else None.
Definition parse_digits (sign : Z) (s : rstr) : option Z :=
  match s with
  | [] => None
  | _ => if forallb is_digit s then in_i64 (sign * digits_value s)%Z else None
  end.
Definition parse_i64 (s : rstr) : option Z :=
  match s with
  | c :: s' => if (c =? 45)%N then parse_digits (-1) s'
               else if (c =? 43)%N then parse_digits 1 s' else parse_digits 1 s
  | [] => None
  end.

(** [[..].join(sep)] *)
Fixpoint join (sep : rstr) (pieces : list rstr) : rstr :=
  match pieces with
  | [] => []
  | [piece] => piece
  | piece :: pieces => piece ++ sep ++ join sep pieces
  end.

(** The order of strings: UTF-8 bytes compare as code points do. *)
Fixpoint rstr_leb (a b : rstr) : bool :=
  match a, b with
  | [], _ => true
  | _ :: _, [] => false
  | x :: a, y :: b => (x <? y)%N || ((x =? y)%N && rstr_leb a b)
  end.

(** [sort_by]: a stable sort. *)
Fixpoint insert_sorted {A} (le : A → A → bool) (x : A) (l : list A) : list A :=
  match l with
  | [] => [x]
  | y :: l' => if le x y then x :: l else y :: insert_sorted le x l'
  end.
Definition sort_by {A} (le : A → A → bool) (l : list A) : list A := foldr (insert_sorted le) [] l.

(** [Iterator::max_by]: the last of the greatest elements. *)
Definition max_by {A} (le : A → A → bool) (l : list A) : option A :=
  foldl (λ best x, match best with
                   | Some b => Some (if le b x then x else b)
                   | None => Some x
                   end) None l.

(** ** Lemmas *)

Lemma trim_start_app ws s :
  forallb is_whitespace ws = true → trim_start (ws ++ s) = trim_start s.
Proof.
  induction ws as [|c ws IH]; intros H; cbn in *; [done|].
  apply andb_true_iff in H as [-> H]. by apply IH.
Qed.

Lemma trim_start_split s : ∃ ws, s = ws ++ trim_start s ∧ forallb is_whitespace ws = true.
Proof.
  induction s as [|c s (ws & IH & Hws)]; [by exists []|]. cbn.
  destruct (is_whitespace c) eqn:Hc; [|by exists []].
  exists (c :: ws). cbn. rewrite Hc. split; [by f_equal|done].
Qed.

Lemma trim_start_fix c s : is_whitespace c = false → trim_start (c :: s) = c :: s.
Proof. intros H. cbn. by rewrite H. Qed.

Lemma forallb_reverse {A} (p : A → bool) l : forallb p (reverse l) = forallb p l.
Proof.
  apply eq_true_iff_eq. rewrite !forallb_forall. setoid_rewrite <-list_elem_of_In.
  by setoid_rewrite elem_of_reverse.
Qed.

Lemma trim_split s :
  ∃ l r, s = l ++ trim s ++ r ∧ forallb is_whitespace l = true ∧ forallb is_whitespace r = true.
Proof.
  destruct (trim_start_split s) as (l & Hl & Hwl).
  destruct (trim_start_split (reverse (trim_start s))) as (r & Hr & Hwr).
  exists l, (reverse r). rewrite forallb_reverse. split_and!; [|done..].
  apply (f_equal reverse) in Hr. rewrite reverse_involutive, reverse_app in Hr.
  unfold trim. by rewrite <-Hr.
Qed.

(** Text that starts and ends with other characters is what trimming leaves. *)
Lemma trim_around l r m :
  forallb is_whitespace l = true → forallb is_whitespace r = true →
  (∃ c m', m = c :: m' ∧ is_whitespace c = false) →
  (∃ c m', reverse m = c :: m' ∧ is_whitespace c = false) → trim (l ++ m ++ r) = m.
Proof.
  intros Hl Hr (c & m' & Hm & Hc) (d & m'' & Hm' & Hd). unfold trim.
  rewrite trim_start_app by done. rewrite Hm at 1. cbn [app]. rewrite trim_start_fix by done.
  replace (c :: m' ++ r) with (m ++ r) by by rewrite Hm.
  rewrite reverse_app, trim_start_app by by rewrite forallb_reverse.
  rewrite Hm', trim_start_fix, <-Hm' by done. apply reverse_involutive.
Qed.

Lemma lower_whitespace c : is_whitespace (ascii_lower c) = is_whitespace c.
Proof.
  unfold ascii_lower. destruct ((65 <=? c) && (c <=? 90))%N eqn:Hc; [|done].
  apply andb_true_iff in Hc as [H1 H2]. apply N.leb_le in H1, H2.
  assert (∀ x, (65 ≤ x)%N → (x ≤ 122)%N → is_whitespace x = false) as Hx.
  { intros x Hx1 Hx2. unfold is_whitespace.
    repeat match goal with
    | |- context [(?a <=? ?b)%N] => destruct (N.leb_spec a b); try lia; cbn [andb orb]
    | |- context [(?a =? ?b)%N] => destruct (N.eqb_spec a b); try lia; cbn [andb orb]
    end; done. }
  rewrite !Hx by lia. done.
Qed.

Lemma to_ascii_lowercase_idemp s : to_ascii_lowercase (to_ascii_lowercase s) = to_ascii_lowercase s.
Proof.
  unfold to_ascii_lowercase. rewrite <-list_fmap_compose. apply list_fmap_ext. intros _ c _. cbn.
  unfold ascii_lower. destruct ((65 <=? c)%N && (c <=? 90)%N) eqn:E; [|by rewrite E].
  apply andb_true_iff in E as [E1%N.leb_le E2%N.leb_le].
  destruct ((65 <=? c + 32)%N && (c + 32 <=? 90)%N) eqn:E; [|done].
  apply andb_true_iff in E as [_ E3%N.leb_le]. lia.
Qed.

Lemma strip_suffix_Some suffix s p : strip_suffix suffix s = Some p ↔ s = p ++ suffix.
Proof.
  unfold strip_suffix. split.
  - case_bool_decide as H; [|done]. destruct H as [k ->]. intros [= <-].
    rewrite length_app, Nat.add_sub, take_app_length. done.
  - intros ->. rewrite bool_decide_eq_true_2 by by exists p.
    by rewrite length_app, Nat.add_sub, take_app_length.
Qed.

Lemma split_once_Some c s a b : split_once c s = Some (a, b) ↔ s = a ++ c :: b ∧ c ∉ a.
Proof.
  revert a b. induction s as [|x s IH]; intros a b; cbn.
  - split; [done|]. intros [H _]. by destruct a.
  - case_bool_decide as Hx.
    + subst x. split.
      * intros [= <- <-]. split; [done|apply not_elem_of_nil].
      * intros [H Hn]. destruct a as [|y a]; [by injection H as ->|].
        injection H as <- _. by destruct Hn; left.
    + destruct (split_once c s) as [[a' b']|]; split.
      * intros [= <- <-]. destruct (proj1 (IH a' b') eq_refl) as [-> Hn].
        split; [done|]. rewrite not_elem_of_cons. done.
      * intros [H Hn]. destruct a as [|y a]; [by injection H as <- _|]. injection H as <- Hs.
        rewrite not_elem_of_cons in Hn. assert (Some (a', b') = Some (a, b)) as [= <- <-] by (apply IH; naive_solver). done.
      * done.
      * intros [H Hn]. destruct a as [|y a]; [by injection H as <- _|]. injection H as <- Hs.
        rewrite not_elem_of_cons in Hn. by assert (None = Some (a, b)) by (apply IH; naive_solver).
Qed.

Lemma before_last_Some c s a : before_last c s = Some a ↔ ∃ b, s = a ++ c :: b ∧ c ∉ b.
Proof.
  revert a. induction s as [|x s IH]; intros a; cbn.
  - split; [done|]. intros (b & H & _). by destruct a.
  - destruct (before_last c s) as [a'|] eqn:Hs.
    + destruct (proj1 (IH a') eq_refl) as (b & -> & Hb). split.
      * intros [= <-]. by exists b.
      * intros (b' & H & Hb'). destruct a as [|y a].
        { injection H as -> <-. destruct Hb'. set_solver. }
        injection H as <- H. f_equal. f_equal.
        assert (Some a' = Some a) as [= ->]; [|done]. apply IH. by exists b'.
    + split.
      * case_bool_decide as Hx; [|done]. intros [= <-]. subst x. exists s. split; [done|].
        intros Hin. apply list_elem_of_split in Hin as (l & k & ->).
        clear IH. revert Hs. induction l as [|y l IHl]; cbn; [|destruct (before_last c _); naive_solver].
        destruct (before_last c k); [done|]. by rewrite bool_decide_eq_true_2.
      * intros (b & H & Hb). destruct a as [|y a].
        { injection H as -> ->. by rewrite bool_decide_eq_true_2. }
        injection H as <- H. assert (None = Some a) by (apply IH; by exists b). done.
Qed.

Lemma before_last_None c s : before_last c s = None ↔ c ∉ s.
Proof.
  split.
  - intros Hs Hin. apply list_elem_of_split in Hin as (l & k & ->).
    revert Hs. induction l as [|y l IHl]; cbn; [|destruct (before_last c _); naive_solver].
    destruct (before_last c k); [done|]. by rewrite bool_decide_eq_true_2.
  - intros Hn. destruct (before_last c s) as [a|] eqn:Hs; [|done].
    apply before_last_Some in Hs as (b & -> & _). destruct Hn. set_solver.
Qed.

(** ** Lists *)

Lemma list_filter_all {A} (P : A → Prop) `{∀ x, Decision (P x)} l : Forall P l → filter P l = l.
Proof. induction 1 as [|x l Hx Hl IH]; [done|]. rewrite filter_cons_True by done. by rewrite IH. Qed.

(** ** The order of strings *)

Lemma rstr_leb_total a b : rstr_leb a b = true ∨ rstr_leb b a = true.
Proof.
  revert b. induction a as [|x a IH]; intros [|y b]; cbn; [tauto..|].
  destruct (N.ltb_spec x y), (N.ltb_spec y x); cbn; try tauto; try lia.
  replace y with x by lia. rewrite N.eqb_refl. cbn. apply IH.
Qed.

Lemma rstr_leb_trans a b c : rstr_leb a b = true → rstr_leb b c = true → rstr_leb a c = true.
Proof.
  revert b c. induction a as [|x a IH]; intros [|y b] [|z c]; cbn; try done.
  destruct (N.ltb_spec x y), (N.ltb_spec y z), (N.ltb_spec x z); cbn; try done; try lia;
    destruct (N.eqb_spec x y), (N.eqb_spec y z), (N.eqb_spec x z); cbn; try done; try lia; eauto.
Qed.

(** ** Sorting *)

Section sort.
Context {A : Type} (le : A → A → bool).
Context (total : ∀ x y, le x y = true ∨ le y x = true).
Context (trans : ∀ x y z, le x y = true → le y z = true → le x z = true).

Lemma insert_sorted_Permutation x l : insert_sorted le x l ≡ₚ x :: l.
Proof.
  induction l as [|y l IH]; cbn; [done|]. destruct (le x y); [done|]. rewrite IH. constructor.
Qed.

Lemma sort_by_Permutation l : sort_by le l ≡ₚ l.
Proof. induction l as [|x l IH]; cbn; [done|]. by rewrite insert_sorted_Permutation, IH. Qed.

Lemma insert_sorted_Sorted x l :
  StronglySorted (λ a b, le a b = true) l → StronglySorted (λ a b, le a b = true) (insert_sorted le x l).
Proof.
  induction 1 as [|y l Hl IH Hy]; cbn.
  - repeat constructor.
  - destruct (le x y) eqn:Hxy.
    + constructor; [by constructor|]. constructor; [done|]. eapply Forall_impl; [exact Hy|]. cbn. eauto.
    + constructor; [done|]. destruct (total x y) as [|Hyx]; [congruence|].
      rewrite Forall_forall in *. intros z Hz. rewrite insert_sorted_Permutation in Hz.
      apply elem_of_cons in Hz as [->|Hz]; auto.
Qed.

Lemma sort_by_Sorted l : StronglySorted (λ a b, le a b = true) (sort_by le l).
Proof. induction l as [|x l IH]; cbn; [constructor|]. by apply insert_sorted_Sorted. Qed.
End sort.

Section max_by.
Context {A : Type} (le : A → A → bool) (Htotal : ∀ a b, le a b = true ∨ le b a = true)
  (Htrans : ∀ a b c, le a b = true → le b c = true → le a c = true).

Lemma max_by_spec l :
  match max_by le l with
  | None => l = []
  | Some b => b ∈ l ∧ ∀ x, x ∈ l → le x b = true
  end.
Proof.
  assert (∀ x, le x x = true) as Hrefl by (intros x; by destruct (Htotal x x)).
  unfold max_by. induction l as [|x l IH] using rev_ind; [done|]. rewrite foldl_app. cbn.
  destruct (foldl _ None l) as [b|].
  - destruct IH as [Hb Hmax]. destruct (le b x) eqn:E; (split; [set_solver|]);
      intros y [Hy| ->%list_elem_of_singleton]%elem_of_app; auto.
    + by eapply Htrans; [apply Hmax|].
    + destruct (Htotal b x) as [?|?]; congruence.
  - subst l. split; [set_solver|]. intros y ->%list_elem_of_singleton. done.
Qed.
End max_by.

(** ** Literals *)

Lemma lit_inj s t : lit s = lit t → s = t.
Proof.
  revert t. induction s as [|c s IH]; intros [|d t] E; try done. cbn in E. injection E as Ec Es.
  rewrite (IH t Es). f_equal. rewrite <-(Ascii.ascii_N_embedding c), <-(Ascii.ascii_N_embedding d). by rewrite Ec.
Qed.
