(* ===== verification/SessionHistory.v ===== *)
(** * Session history

    [crates/vixen-engine/src/history.rs]: the entry stack of a browsing context with its
    cursor.  The theorems are in [SessionHistoryFacts].

    A [usize] index into the entries is a [nat]: a vector never has more than [isize::MAX]
    elements, so neither [cursor + 1] nor the [i64] sum of [go] can overflow. *)

From Stdlib Require Import Lia ZArith.
From stdpp Require Import base decidable list strings.
From S2P Require Import Prelude.
From S2P Require Import RustFloat.
From S2P Require Import RustStr.
From Stdlib Require Import Strings.Byte Floats.SpecFloat.

Inductive ScrollRestoration : Type := Auto | Manual.
#[export] Instance ScrollRestoration_eq_dec : EqDecision ScrollRestoration.
Proof. solve_decision. Defined.

(** [ScrollRestoration::parse] and [to_keyword] *)
Definition ScrollRestoration_parse (s : rstr) : option ScrollRestoration :=
  let key := to_ascii_lowercase (trim s) in
  if bool_decide (key = lit "auto") then Some Auto
  else if bool_decide (key = lit "manual") then Some Manual
  else None.
Definition to_keyword (self : ScrollRestoration) : rstr :=
  match self with Auto => lit "auto" | Manual => lit "manual" end.

(** A single-precision float; only stored here. *)
Record f32 : Type := F32 { f32_repr : spec_float; f32_valid : valid_binary 24 128 f32_repr = true }.

Record HistoryElementScroll : Type := {
  el_node_id : N;
  el_element_id : option rstr;
  el_tag : rstr;
  el_offset : f32 * f32;
}.

Record HistoryScrollState : Type := {
  root_offset : f32 * f32;
  element_offsets : list HistoryElementScroll;
}.

Record HistoryEntry : Type := {
  he_url : rstr;
  he_state : option (list Byte.byte);
  he_scroll_restoration : ScrollRestoration;
  he_scroll_state : option HistoryScrollState;
  he_title : option rstr;
}.

Definition HistoryEntry_new (url : rstr) (state : option (list Byte.byte)) : HistoryEntry :=
  {| he_url := url; he_state := state; he_scroll_restoration := Auto; he_scroll_state := None;
     he_title := None |}.
Definition HistoryEntry_push_state (url : rstr) (state : list Byte.byte) : HistoryEntry :=
  {| he_url := url; he_state := Some state; he_scroll_restoration := Auto; he_scroll_state := None;
     he_title := None |}.
Definition HistoryEntry_navigation (url : rstr) : HistoryEntry :=
  {| he_url := url; he_state := None; he_scroll_restoration := Auto; he_scroll_state := None;
     he_title := None |}.

(** [entry.scroll_restoration = value] and [entry.scroll_state = Some(state)] *)
Definition with_scroll_restoration (value : ScrollRestoration) (e : HistoryEntry) : HistoryEntry :=
  {| he_url := he_url e; he_state := he_state e; he_scroll_restoration := value;
     he_scroll_state := he_scroll_state e; he_title := he_title e |}.
Definition with_scroll_state (state : HistoryScrollState) (e : HistoryEntry) : HistoryEntry :=
  {| he_url := he_url e; he_state := he_state e; he_scroll_restoration := he_scroll_restoration e;
     he_scroll_state := Some state; he_title := he_title e |}.

(** ** The entry stack *)

Record SessionHistory : Type := { entries : list HistoryEntry; cursor : nat }.

Definition SessionHistory_new (initial : HistoryEntry) : SessionHistory :=
  {| entries := [initial]; cursor := 0 |}.

Definition history_length (self : SessionHistory) : nat := length (entries self).
Definition index (self : SessionHistory) : nat := cursor self.
Definition can_go_back (self : SessionHistory) : bool := bool_decide (0 < cursor self)%nat.
Definition can_go_forward (self : SessionHistory) : bool :=
  bool_decide (cursor self + 1 < length (entries self))%nat.
Definition current (self : SessionHistory) : option HistoryEntry := entries self !! cursor self.
Definition url (self : SessionHistory) : option rstr := he_url <$> current self.
Definition history_state (self : SessionHistory) : option (list Byte.byte) := current self ≫= he_state.
Definition scroll_restoration (self : SessionHistory) : ScrollRestoration :=
  default Auto (he_scroll_restoration <$> current self).

(** [if let Some(entry) = self.entries.get_mut(self.cursor) { *entry = f(entry) }] *)
Definition update_current (f : HistoryEntry → HistoryEntry) (self : SessionHistory) : SessionHistory :=
  {| entries := alter f (cursor self) (entries self); cursor := cursor self |}.

Definition set_scroll_restoration (value : ScrollRestoration) (self : SessionHistory) : SessionHistory :=
  update_current (with_scroll_restoration value) self.
Definition set_current_scroll_state (state : HistoryScrollState) (self : SessionHistory) : SessionHistory :=
  update_current (with_scroll_state state) self.

Definition restoration_scroll_state (self : SessionHistory) : option HistoryScrollState :=
  match current self with
  | Some entry => if bool_decide (he_scroll_restoration entry = Auto) then he_scroll_state entry else None
  | None => None
  end.

(** The mutating methods return the new history and their result. *)
Definition push (entry : HistoryEntry) (self : SessionHistory) : SessionHistory * nat :=
  let truncated := take (cursor self + 1) (entries self) in
  let entries := truncated ++ [entry] in
  let cursor := (length entries - 1)%nat in
  ({| entries := entries; cursor := cursor |}, cursor).

Definition replace (entry : HistoryEntry) (self : SessionHistory) : SessionHistory :=
  update_current (λ _, entry) self.

Definition move_to (self : SessionHistory) (cursor : nat) : SessionHistory * option HistoryEntry :=
  let self := {| entries := entries self; cursor := cursor |} in (self, current self).

Definition back (self : SessionHistory) : SessionHistory * option HistoryEntry :=
  if bool_decide (cursor self = 0)%nat then (self, None) else move_to self (cursor self - 1).

Definition forward (self : SessionHistory) : SessionHistory * option HistoryEntry :=
  if bool_decide (length (entries self) ≤ cursor self + 1)%nat then (self, None)
  else move_to self (cursor self + 1).

Definition go (delta : Z) (self : SessionHistory) : SessionHistory * option HistoryEntry :=
  if bool_decide (delta = 0)%Z then (self, current self)
  else
    let target := (Z.of_nat (cursor self) + delta)%Z in
    if bool_decide (target < 0)%Z || bool_decide (Z.of_nat (length (entries self)) ≤ target)%Z
    then (self, None)
    else move_to self (Z.to_nat target).

Definition with_entries (entries : list HistoryEntry) (cursor : nat) : option SessionHistory :=
  match entries with
  | [] => None
  | _ => Some {| entries := entries; cursor := Nat.min cursor (length entries - 1) |}
  end.
