(* ===== verification/SessionHistoryFacts.v ===== *)
(** * Theorems on session history

    The stack with its cursor implements a zipper: the entries before the current one, the
    current entry, and the entries after it.  The cursor invariant holds in every reachable
    history, and traversals compose. *)

From Stdlib Require Import Lia ZArith.
From stdpp Require Import base decidable list strings.
From S2P Require Import Prelude.
From S2P Require Import RustFloat.
From S2P Require Import RustStr.
From S2P Require Import SessionHistory.

(** ** The zipper *)

Record Zipper : Type := zip3 { z_back : list HistoryEntry; z_current : HistoryEntry; z_forward : list HistoryEntry }.

(** [h] shows the zipper [z]: the back list is nearest first. *)
Definition shows (h : SessionHistory) (z : Zipper) : Prop :=
  entries h = reverse (z_back z) ++ z_current z :: z_forward z ∧ cursor h = length (z_back z).

Definition z_push (e : HistoryEntry) (z : Zipper) : Zipper := zip3 (z_current z :: z_back z) e [].
Definition z_update (f : HistoryEntry → HistoryEntry) (z : Zipper) : Zipper :=
  zip3 (z_back z) (f (z_current z)) (z_forward z).
Definition z_left (z : Zipper) : option Zipper :=
  match z_back z with
  | [] => None
  | e :: back => Some (zip3 back e (z_current z :: z_forward z))
  end.
Definition z_right (z : Zipper) : option Zipper :=
  match z_forward z with
  | [] => None
  | e :: fwd => Some (zip3 (z_current z :: z_back z) e fwd)
  end.

(** [n] moves in one direction. *)
Fixpoint z_moves (move : Zipper → option Zipper) (n : nat) (z : Zipper) : option Zipper :=
  match n with O => Some z | S n => move z ≫= z_moves move n end.
Definition z_go (delta : Z) (z : Zipper) : option Zipper :=
  if (delta <? 0)%Z then z_moves z_left (Z.to_nat (- delta)) z
  else z_moves z_right (Z.to_nat delta) z.

(** The cursor points at an entry. *)
Definition history_wf (h : SessionHistory) : Prop := (cursor h < length (entries h))%nat.

Lemma shows_wf h z : shows h z → history_wf h.
Proof.
  intros [He Hc]. unfold history_wf. rewrite He, Hc, length_app, length_reverse. cbn. lia.
Qed.

Lemma wf_shows h : history_wf h → ∃ z, shows h z.
Proof.
  intros Hwf. unfold history_wf in Hwf.
  destruct (lookup_lt_is_Some_2 (entries h) (cursor h) Hwf) as [e He].
  exists (zip3 (reverse (take (cursor h) (entries h))) e (drop (S (cursor h)) (entries h))).
  split; cbn [z_back z_current z_forward].
  - rewrite reverse_involutive. symmetry. by apply take_drop_middle.
  - rewrite length_reverse, length_take. lia.
Qed.

Lemma shows_current h z : shows h z → current h = Some (z_current z).
Proof.
  intros [He Hc]. unfold current. rewrite He, Hc, lookup_app_r; rewrite length_reverse; [|lia].
  by rewrite Nat.sub_diag.
Qed.

Lemma shows_inj h z z' : shows h z → shows h z' → z = z'.
Proof.
  intros [He Hc] [He' Hc']. rewrite He in He'. rewrite Hc in Hc'.
  apply app_inj_1 in He' as [Hb Hf]; [|by rewrite !length_reverse].
  apply (f_equal reverse) in Hb. rewrite !reverse_involutive in Hb.
  injection Hf as Hx Hf. destruct z, z'; cbn in *; congruence.
Qed.

Lemma move_left h z :
  shows h z → match z_left z with
              | Some z' => cursor h ≠ 0%nat ∧ shows (move_to h (cursor h - 1)).1 z'
              | None => cursor h = 0%nat
              end.
Proof.
  intros [He Hc]. unfold z_left. destruct (z_back z) as [|e b]; [done|].
  rewrite length_cons in Hc. split; [lia|].
  split; cbn [fst move_to entries cursor z_back z_current z_forward]; [|lia]. rewrite He, reverse_cons, <-(assoc_L (++)). done.
Qed.

Lemma move_right h z :
  shows h z → match z_right z with
              | Some z' => (cursor h + 1 < length (entries h))%nat ∧ shows (move_to h (cursor h + 1)).1 z'
              | None => length (entries h) = (cursor h + 1)%nat
              end.
Proof.
  intros [He Hc]. unfold z_right. rewrite He, length_app, length_reverse. destruct (z_forward z) as [|e f].
  - cbn. lia.
  - rewrite !length_cons. split; [lia|].
    split; cbn [fst move_to entries cursor z_back z_current z_forward length]; [|lia]. by rewrite He, reverse_cons, <-(assoc_L (++)).
Qed.

Lemma moves_left n h z :
  shows h z → match z_moves z_left n z with
              | Some z' => (n ≤ cursor h)%nat ∧ shows {| entries := entries h; cursor := cursor h - n |} z'
              | None => (cursor h < n)%nat
              end.
Proof.
  revert h z. induction n as [|n IH]; intros h z Hs; cbn.
  - split; [lia|]. rewrite Nat.sub_0_r. by destruct h.
  - pose proof (move_left h z Hs) as Hm. destruct (z_left z) as [z1|]; cbn; [|lia].
    destruct Hm as [Hne Hs1]. specialize (IH _ _ Hs1). cbn in IH.
    destruct (z_moves z_left n z1); [|lia]. destruct IH as [? Hs2]. split; [lia|].
    by replace (cursor h - S n)%nat with (cursor h - 1 - n)%nat by lia.
Qed.

Lemma moves_right n h z :
  shows h z → match z_moves z_right n z with
              | Some z' => (cursor h + n < length (entries h))%nat ∧
                           shows {| entries := entries h; cursor := cursor h + n |} z'
              | None => (length (entries h) ≤ cursor h + n)%nat
              end.
Proof.
  revert h z. induction n as [|n IH]; intros h z Hs; cbn.
  - pose proof (shows_wf _ _ Hs) as Hwf. unfold history_wf in Hwf. split; [lia|].
    rewrite Nat.add_0_r. by destruct h.
  - pose proof (move_right h z Hs) as Hm. destruct (z_right z) as [z1|]; cbn; [|lia].
    destruct Hm as [Hlt Hs1]. specialize (IH _ _ Hs1). cbn in IH.
    destruct (z_moves z_right n z1); [|lia]. destruct IH as [? Hs2]. split; [lia|].
    by replace (cursor h + S n)%nat with (cursor h + 1 + n)%nat by lia.
Qed.

(** ** Each operation on the zipper *)

Lemma push_shows e h z : shows h z → shows (push e h).1 (z_push e z).
Proof.
  intros [He Hc]. unfold push, z_push, shows. cbn [fst entries cursor z_back z_current z_forward].
  assert (take (cursor h + 1) (entries h) = reverse (z_back z) ++ [z_current z]) as ->.
  { rewrite He, Hc, cons_middle, (assoc_L (++)). rewrite take_app_length'; [done|].
    rewrite length_app, length_reverse. done. }
  rewrite reverse_cons. split; [done|]. rewrite !length_app, length_reverse. cbn. lia.
Qed.

Lemma update_shows f h z : shows h z → shows (update_current f h) (z_update f z).
Proof.
  intros [He Hc]. unfold update_current, z_update, shows. cbn. split; [|done].
  rewrite He, Hc. rewrite <-(length_reverse (z_back z)) at 1.
  by rewrite <-(Nat.add_0_r (length (reverse _))), alter_app_r.
Qed.

(** A traversal that answers [None] leaves the history alone. *)
Definition goes (h : SessionHistory) (r : SessionHistory * option HistoryEntry) (z : option Zipper) : Prop :=
  match z with
  | Some z' => shows r.1 z' ∧ r.2 = Some (z_current z')
  | None => r = (h, None)
  end.

Lemma move_to_goes h i z : shows (move_to h i).1 z → goes h (move_to h i) (Some z).
Proof. intros Hs. split; [done|]. by apply shows_current in Hs. Qed.

Lemma back_shows h z : shows h z → goes h (back h) (z_left z).
Proof.
  intros Hs. pose proof (move_left h z Hs) as Hm. unfold back. destruct (z_left z).
  - destruct Hm as [Hne Hs']. rewrite bool_decide_eq_false_2 by done. by apply move_to_goes.
  - by rewrite bool_decide_eq_true_2.
Qed.

Lemma forward_shows h z : shows h z → goes h (forward h) (z_right z).
Proof.
  intros Hs. pose proof (move_right h z Hs) as Hm. unfold forward. destruct (z_right z).
  - destruct Hm as [Hlt Hs']. rewrite bool_decide_eq_false_2 by lia. by apply move_to_goes.
  - by rewrite bool_decide_eq_true_2 by lia.
Qed.

Lemma go_shows d h z : shows h z → goes h (go d h) (z_go d z).
Proof.
  intros Hs. unfold go, z_go. case_bool_decide as H0.
  - subst d. cbn. split; [done|]. by apply shows_current.
  - destruct (Z.ltb_spec d 0) as [Hneg|Hpos].
    + pose proof (moves_left (Z.to_nat (- d)) h z Hs) as Hm.
      destruct (z_moves z_left (Z.to_nat (- d)) z) as [z'|].
      * destruct Hm as [Hle Hs']. pose proof (shows_wf _ _ Hs) as Hwf. unfold history_wf in Hwf.
        rewrite !bool_decide_eq_false_2 by lia. cbn [orb]. apply move_to_goes. unfold move_to. cbn.
        by replace (Z.to_nat (Z.of_nat (cursor h) + d)) with (cursor h - Z.to_nat (- d))%nat by lia.
      * by rewrite bool_decide_eq_true_2 by lia.
    + pose proof (moves_right (Z.to_nat d) h z Hs) as Hm.
      destruct (z_moves z_right (Z.to_nat d) z) as [z'|].
      * destruct Hm as [Hle Hs']. rewrite !bool_decide_eq_false_2 by lia. cbn [orb].
        apply move_to_goes. unfold move_to. cbn.
        by replace (Z.to_nat (Z.of_nat (cursor h) + d)) with (cursor h + Z.to_nat d)%nat by lia.
      * rewrite (bool_decide_eq_true_2 (_ ≤ _)%Z) by lia. by rewrite orb_true_r.
Qed.

(** ** Runs of operations

    The script-visible and browser-visible calls with their answers, on the stack and on
    the zipper. *)

Inductive HistoryOp : Type :=
| OpPush (entry : HistoryEntry)
| OpReplace (entry : HistoryEntry)
| OpSetScrollRestoration (value : ScrollRestoration)
| OpSetCurrentScrollState (state : HistoryScrollState)
| OpBack
| OpForward
| OpGo (delta : Z).

Inductive Answer : Type := Done | AtIndex (i : nat) | AtEntry (e : option HistoryEntry).

Definition history_step (op : HistoryOp) (h : SessionHistory) : SessionHistory * Answer :=
  match op with
  | OpPush entry => prod_map id AtIndex (push entry h)
  | OpReplace entry => (replace entry h, Done)
  | OpSetScrollRestoration value => (set_scroll_restoration value h, Done)
  | OpSetCurrentScrollState state => (set_current_scroll_state state h, Done)
  | OpBack => prod_map id AtEntry (back h)
  | OpForward => prod_map id AtEntry (forward h)
  | OpGo delta => prod_map id AtEntry (go delta h)
  end.

(** A zipper move that fails leaves the zipper and answers [None]. *)
Definition z_try (z : Zipper) (moved : option Zipper) : Zipper * Answer :=
  match moved with
  | Some z' => (z', AtEntry (Some (z_current z')))
  | None => (z, AtEntry None)
  end.

Definition z_step (op : HistoryOp) (z : Zipper) : Zipper * Answer :=
  match op with
  | OpPush entry => (z_push entry z, AtIndex (S (length (z_back z))))
  | OpReplace entry => (z_update (λ _, entry) z, Done)
  | OpSetScrollRestoration value => (z_update (with_scroll_restoration value) z, Done)
  | OpSetCurrentScrollState state => (z_update (with_scroll_state state) z, Done)
  | OpBack => z_try z (z_left z)
  | OpForward => z_try z (z_right z)
  | OpGo delta => z_try z (z_go delta z)
  end.

Fixpoint run_ops {St : Type} (step : HistoryOp → St → St * Answer) (ops : list HistoryOp) (s : St) :
    St * list Answer :=
  match ops with
  | [] => (s, [])
  | op :: ops => let (s, a) := step op s in let (s, l) := run_ops step ops s in (s, a :: l)
  end.

Lemma goes_step h r z moved :
  shows h z → goes h r moved →
  shows (prod_map id AtEntry r).1 (z_try z moved).1 ∧ (prod_map id AtEntry r).2 = (z_try z moved).2.
Proof.
  intros Hs Hg. destruct moved as [z'|]; cbn in *.
  - destruct r as [h' o]; cbn in *. destruct Hg as [Hs' ->]. done.
  - by subst r.
Qed.

Lemma step_shows op h z :
  shows h z → shows (history_step op h).1 (z_step op z).1 ∧ (history_step op h).2 = (z_step op z).2.
Proof.
  intros Hs. destruct op; cbn [history_step z_step].
  - split; [by apply push_shows|]. destruct (push_shows entry h z Hs) as [_ Hc]. cbn. f_equal. exact Hc.
  - split; [by apply update_shows|done].
  - split; [by apply update_shows|done].
  - split; [by apply update_shows|done].
  - by eapply goes_step; [|apply back_shows].
  - by eapply goes_step; [|apply forward_shows].
  - by eapply goes_step; [|apply go_shows].
Qed.

Lemma run_shows ops h z :
  shows h z → shows (run_ops history_step ops h).1 (run_ops z_step ops z).1 ∧
              (run_ops history_step ops h).2 = (run_ops z_step ops z).2.
Proof.
  revert h z. induction ops as [|op ops IH]; intros h z Hs; cbn; [done|].
  destruct (step_shows op h z Hs) as [Hs1 Ha].
  destruct (history_step op h) as [h1 a], (z_step op z) as [z1 b]. cbn in Hs1, Ha. subst b.
  destruct (IH h1 z1 Hs1) as [Hs2 Hl].
  destruct (run_ops history_step ops h1), (run_ops z_step ops z1). cbn in *. by subst.
Qed.

Lemma new_shows e : shows (SessionHistory_new e) (zip3 [] e []).
Proof. done. Qed.

(** What the observers of a history answer, read off the zipper. *)
Definition observed (h : SessionHistory) (z : Zipper) : Prop :=
  history_length h = (length (z_back z) + 1 + length (z_forward z))%nat ∧
  index h = length (z_back z) ∧
  can_go_back h = negb (bool_decide (z_back z = [])) ∧
  can_go_forward h = negb (bool_decide (z_forward z = [])) ∧
  current h = Some (z_current z) ∧
  url h = Some (he_url (z_current z)) ∧
  history_state h = he_state (z_current z) ∧
  scroll_restoration h = he_scroll_restoration (z_current z) ∧
  restoration_scroll_state h =
    (if bool_decide (he_scroll_restoration (z_current z) = Auto) then he_scroll_state (z_current z)
     else None).

#[local] Lemma nonempty_length {A} (l : list A) : bool_decide (0 < length l)%nat = negb (bool_decide (l = [])).
Proof. destruct l; done. Qed.

Lemma shows_observed h z : shows h z → observed h z.
Proof.
  intros Hs. pose proof (shows_current h z Hs) as Hcur. destruct Hs as [He Hc].
  unfold observed, url, history_state, scroll_restoration, restoration_scroll_state,
    can_go_back, can_go_forward, history_length, index. rewrite Hcur, He, Hc.
  rewrite length_app, length_reverse, length_cons.
  split_and!; try done; try lia; [apply nonempty_length|].
  rewrite <-nonempty_length. apply bool_decide_ext. lia.
Qed.

(** [go] to a target in range, and out of it. *)
Definition seek (h : SessionHistory) (i : Z) : SessionHistory :=
  {| entries := entries h; cursor := Z.to_nat i |}.

Lemma go_in_range d h :
  (0 ≤ Z.of_nat (cursor h) + d < Z.of_nat (length (entries h)))%Z →
  go d h = (seek h (Z.of_nat (cursor h) + d), current (seek h (Z.of_nat (cursor h) + d))).
Proof.
  intros Hr. unfold go. case_bool_decide as H0.
  - subst d. unfold seek. rewrite Z.add_0_r, Nat2Z.id. by destruct h.
  - rewrite !bool_decide_eq_false_2 by lia. done.
Qed.

Lemma go_out_of_range d h :
  (0 ≤ Z.of_nat (cursor h) < Z.of_nat (length (entries h)))%Z →
  ¬ (0 ≤ Z.of_nat (cursor h) + d < Z.of_nat (length (entries h)))%Z → go d h = (h, None).
Proof.
  intros Hc Hr. unfold go. rewrite (bool_decide_eq_false_2 (d = 0)%Z) by lia.
  destruct (decide (Z.of_nat (cursor h) + d < 0)%Z).
  - by rewrite bool_decide_eq_true_2.
  - rewrite (bool_decide_eq_true_2 (_ ≤ _)%Z) by lia. by rewrite orb_true_r.
Qed.

Lemma back_is_go h : history_wf h → back h = go (-1) h.
Proof.
  unfold history_wf. intros Hwf. unfold back. case_bool_decide as H0.
  - rewrite go_out_of_range by lia. done.
  - rewrite go_in_range by lia. unfold seek, move_to.
    by replace (Z.to_nat (Z.of_nat (cursor h) + -1)) with (cursor h - 1)%nat by lia.
Qed.

Lemma forward_is_go h : history_wf h → forward h = go 1 h.
Proof.
  unfold history_wf. intros Hwf. unfold forward. case_bool_decide as H0.
  - rewrite go_out_of_range by lia. done.
  - rewrite go_in_range by lia. unfold seek, move_to.
    by replace (Z.to_nat (Z.of_nat (cursor h) + 1)) with (cursor h + 1)%nat by lia.
Qed.

(** Two pushes that show the same zipper are the same push. *)
Lemma push_determined e h h' z :
  shows (push e h).1 z → shows (push e h').1 z → push e h = push e h'.
Proof.
  intros [He Hc] [He' Hc'].
  assert (∀ g, push e g = ((push e g).1, cursor (push e g).1)) as Hpair by done.
  rewrite (Hpair h), (Hpair h'). destruct (push e h) as [[es c] n], (push e h') as [[es' c'] n'].
  cbn in *. by subst.
Qed.

(** ** The [scrollRestoration] keyword *)

(** A keyword in any case has no white space at either end. *)
Lemma keyword_ends v s :
  to_ascii_lowercase s = to_keyword v →
  (∃ c m', s = c :: m' ∧ is_whitespace c = false) ∧
  (∃ c m', reverse s = c :: m' ∧ is_whitespace c = false).
Proof.
  intros Hs. split.
  - destruct s as [|c s]; [by destruct v|]. exists c, s. split; [done|].
    rewrite <-lower_whitespace. destruct v; injection Hs as -> _; done.
  - assert (to_ascii_lowercase (reverse s) = reverse (to_keyword v)) as Hr.
    { rewrite <-Hs. unfold to_ascii_lowercase. apply fmap_reverse. }
    destruct (reverse s) as [|c m]; [by destruct v|]. exists c, m. split; [done|].
    rewrite <-lower_whitespace. destruct v; injection Hr as -> _; done.
Qed.

Lemma parse_keyword s v :
  ScrollRestoration_parse s = Some v ↔ to_ascii_lowercase (trim s) = to_keyword v.
Proof.
  unfold ScrollRestoration_parse. generalize (to_ascii_lowercase (trim s)). intros key.
  case_bool_decide as Ha; [subst key; by destruct v|].
  case_bool_decide as Hm; [subst key; by destruct v|]. by destruct v.
Qed.

(** ** The properties *)

(** C11. A session history is a zipper.  Starting from a fresh history, after any sequence of
    [push], [replace], the two setters, [back], [forward] and [go], the entries are the back
    list, the current entry and the forward list of the zipper that made the same moves;
    every call answered what the zipper answers, [push] dropping the forward branch; and
    [length], [index], [can_go_back], [can_go_forward], [current], [url], [state] and the two
    scroll observers read the zipper. *)
Theorem history_refines_zipper initial ops :
  let h := run_ops history_step ops (SessionHistory_new initial) in
  let z := run_ops z_step ops (zip3 [] initial []) in
  shows h.1 z.1 ∧ h.2 = z.2 ∧ observed h.1 z.1.
Proof.
  cbn zeta. destruct (run_shows ops _ _ (new_shows initial)) as [Hs Ha].
  split_and!; [done..|]. by apply shows_observed.
Qed.

(** The cursor invariant: [with_entries] refuses only the empty list, and whatever cursor
    a persisted history names, after it and any sequence of operations the cursor points at
    an entry, so [current], [url] and the traversals always have one to answer with. *)
Theorem history_wf_reachable es c :
  (with_entries es c = None ↔ es = []) ∧
  ∀ h ops, with_entries es c = Some h →
    history_wf (run_ops history_step ops h).1 ∧
    is_Some (current (run_ops history_step ops h).1) ∧
    index h = Nat.min c (length es - 1).
Proof.
  split; [destruct es; naive_solver|]. intros h ops Hw.
  assert (history_wf h ∧ index h = Nat.min c (length es - 1)) as [Hwf Hi].
  { destruct es as [|e es]; [done|]. cbn in Hw. injection Hw as <-. cbn. split; [|done].
    unfold history_wf. cbn. lia. }
  destruct (wf_shows h Hwf) as [z Hs]. destruct (run_shows ops h z Hs) as [Hs' _].
  split_and!; [by eapply shows_wf| |done]. erewrite shows_current by done. done.
Qed.

(** Traversals compose: two in-range moves are one move by the sum, [back] and [forward]
    are moves by -1 and 1, and a move by the opposite offset returns to the same history. *)
Theorem go_composes h d1 d2 :
  history_wf h →
  (0 ≤ Z.of_nat (cursor h) + d1 < Z.of_nat (length (entries h)))%Z →
  go d2 (go d1 h).1 = (if bool_decide (0 ≤ Z.of_nat (cursor h) + d1 + d2 < Z.of_nat (length (entries h)))%Z
                       then go (d1 + d2) h else ((go d1 h).1, None)) ∧
  (go (- d1) (go d1 h).1).1 = h ∧ back h = go (-1) h ∧ forward h = go 1 h.
Proof.
  intros Hwf Hd1. unfold history_wf in Hwf.
  rewrite (go_in_range d1) by done. cbn [fst].
  assert (Z.of_nat (cursor (seek h (Z.of_nat (cursor h) + d1))) = Z.of_nat (cursor h) + d1)%Z as Hc
    by (cbn; lia).
  split_and!.
  - case_bool_decide as Hd.
    + rewrite !go_in_range by (rewrite ?Hc; cbn [seek entries]; lia). rewrite Hc.
      by rewrite Z.add_assoc.
    + apply go_out_of_range; rewrite Hc; cbn [seek entries]; lia.
  - rewrite go_in_range by (rewrite Hc; cbn [seek entries]; lia). rewrite Hc. cbn [fst].
    replace (Z.of_nat (cursor h) + d1 + - d1)%Z with (Z.of_nat (cursor h)) by lia.
    unfold seek. cbn [entries]. rewrite Nat2Z.id. by destruct h.
  - by apply back_is_go.
  - by apply forward_is_go.
Qed.

(** [push] then [back]: the entry pushed is current, the forward branch is gone, and one
    step back shows the entry that was current before with everything before it unchanged;
    a second [push] there drops the first. *)
Theorem push_drops_forward_branch h e e' :
  history_wf h →
  let h' := (push e h).1 in
  current h' = Some e ∧ can_go_forward h' = false ∧ (push e h).2 = S (cursor h) ∧
  current (back h').1 = current h ∧ take (S (cursor h)) (entries h') = take (S (cursor h)) (entries h) ∧
  push e' (back h').1 = push e' h.
Proof.
  intros Hwf. destruct (wf_shows h Hwf) as [z Hs]. cbn zeta.
  pose proof (push_shows e h z Hs) as Hp. pose proof (move_left _ _ Hp) as [_ Hb]. cbn [z_left z_push z_back z_current z_forward] in Hb.
  assert (back (push e h).1 = move_to (push e h).1 (cursor (push e h).1 - 1)) as Hback.
  { unfold back. rewrite bool_decide_eq_false_2; [done|]. destruct Hp as [_ ->]. done. }
  pose proof (shows_observed _ _ Hp) as (_&_&_&Hf&Hcur&_). rewrite Hback.
  split_and!.
  - done.
  - done.
  - pose proof (step_shows (OpPush e) h z Hs) as [_ Ha]. cbn in Ha. injection Ha as Ha.
    destruct Hs as [_ ->]. done.
  - rewrite (shows_current _ _ Hb), (shows_current _ _ Hs). done.
  - destruct Hs as [He Hc], Hp as [Hep _]. rewrite Hep, He, Hc. cbn [z_push z_back z_current z_forward].
    rewrite reverse_cons, (cons_middle (z_current z) _ (z_forward z)), (assoc_L (++)).
    assert (S (length (z_back z)) = length (reverse (z_back z) ++ [z_current z])) as ->
      by (rewrite length_app, length_reverse; cbn; lia).
    by rewrite !take_app_length.
  - assert (shows (push e' (move_to (push e h).1 (cursor (push e h).1 - 1)).1).1 (z_push e' z)) as H1.
    { apply (push_shows e' _ _ Hb). }
    pose proof (push_shows e' h z Hs) as H2. apply push_determined with (1:=H1) (2:=H2).
Qed.

(** [ScrollRestoration::parse] accepts exactly the two keywords in any ASCII case with
    white space around them; so it inverts [to_keyword]. *)
Theorem scroll_restoration_parse_iff s v :
  (ScrollRestoration_parse s = Some v ↔
   ∃ l m r, s = l ++ m ++ r ∧ forallb is_whitespace l = true ∧ forallb is_whitespace r = true ∧
            to_ascii_lowercase m = to_keyword v) ∧
  ScrollRestoration_parse (to_keyword v) = Some v.
Proof.
  split; [|by destruct v]. rewrite parse_keyword. split.
  - destruct (trim_split s) as (l & r & Hs & Hl & Hr). intros Hk. by exists l, (trim s), r.
  - intros (l & m & r & -> & Hl & Hr & Hk). destruct (keyword_ends _ _ Hk).
    by rewrite trim_around.
Qed.

Example go_composes_witness :
  let h := (push (HistoryEntry_navigation []) (SessionHistory_new (HistoryEntry_new [] None))).1 in
  history_wf h ∧ (0 ≤ Z.of_nat (cursor h) + -1 < Z.of_nat (length (entries h)))%Z ∧ back h = go (-1) h.
Proof.
  cbn zeta. split; [unfold history_wf; cbn; lia|]. split; [cbn; lia|].
  eapply (go_composes _ (-1) 1); [unfold history_wf; cbn; lia|cbn; lia].
Defined.

Example push_drops_forward_branch_witness :
  let h := SessionHistory_new (HistoryEntry_new [] None) in
  history_wf h ∧ (push (HistoryEntry_navigation []) h).2 = 1%nat.
Proof.
  cbn zeta. split; [unfold history_wf; cbn; lia|].
  refine (proj1 (proj2 (proj2 (push_drops_forward_branch _ _ (HistoryEntry_navigation []) _)))).
  unfold history_wf. cbn. lia.
Defined.
