(* ===== verification/CookieDate.v ===== *)
(** * Cookie dates

    [crates/vixen-net/src/cookie.rs], the RFC 6265 cookie-date parser.  An [i64] is a [Z]: the
    parsed numbers are bounded, so nothing can overflow (see [CookieDate]).  The theorems
    are in [CookieDate]. *)

From Stdlib Require Import Lia ZArith.
From stdpp Require Import base decidable sets list strings numbers.
From S2P Require Import Prelude.
From S2P Require Import RustStr.

(** [is_date_delimiter(c as u8)]: the cast keeps the low eight bits of the code point. *)
Definition is_date_delimiter (b : N) : bool :=
  ((b =? 9) || ((32 <=? b) && (b <=? 47)) || ((59 <=? b) && (b <=? 64)) ||
   ((91 <=? b) && (b <=? 96)) || ((123 <=? b) && (b <=? 126)))%N.

Definition tokenize_date (s : rstr) : list rstr :=
  filter (λ t, t ≠ []) (split_by (λ c, is_date_delimiter (c `mod` 256)%N) s).

Definition parse_bounded (s : rstr) (lo hi : Z) : option Z :=
  let digits := take_while is_digit s in
  n ← match digits with [] => None | _ => parse_i64 digits end;
  if bool_decide (lo ≤ n ≤ hi)%Z then Some n else None.

Definition parse_time_token (token : rstr) : option (Z * Z * Z) :=
  let first := default token (fst <$> split_once 58 token) in
  h ← parse_bounded (trim_start_matches (λ c, negb (is_digit c)) first) 0 23;
  '(_, rest) ← split_once 58 token;
  match split_char 58 rest with
  | m :: s :: _ =>
      m ← parse_bounded m 0 59;
      s ← parse_bounded s 0 59;
      Some (h, m, s)
  | m :: [] => _ ← parse_bounded m 0 59; None
  | [] => None
  end.

(** The maximal runs of digits of a token, in order: [run] is the one being read. *)
Fixpoint digit_runs (run : rstr) (s : rstr) : list rstr :=
  let close := match run with [] => [] | _ => [run] end in
  match s with
  | [] => close
  | c :: s' => if is_digit c then digit_runs (run ++ [c]) s' else close ++ digit_runs [] s'
  end.

(** [while i < bytes.len()]: the first run that [f] accepts. *)
Fixpoint first_run (f : rstr → option Z) (runs : list rstr) : option Z :=
  match runs with
  | [] => None
  | run :: runs => match f run with Some n => Some n | None => first_run f runs end
  end.

Definition first_1_2_digit_run (token : rstr) (lo hi : Z) : option Z :=
  first_run (λ run, if bool_decide (length run ≤ 2)%nat
                    then n ← parse_i64 run; if bool_decide (lo ≤ n ≤ hi)%Z then Some n else None
                    else None) (digit_runs [] token).

Definition year_of (token : rstr) : option Z :=
  first_run (λ run, if bool_decide (2 ≤ length run ≤ 4)%nat
                    then n ← parse_i64 run;
                         Some (if (100 <=? n)%Z then n
                               else if (70 <=? n)%Z then (1900 + n)%Z else (2000 + n)%Z)
                    else None) (digit_runs [] token).

(** [char::to_ascii_uppercase] *)
Definition ascii_upper (c : rchar) : rchar :=
  if ((97 <=? c) && (c <=? 122))%N then (c - 32)%N else c.

Definition month_names : list rstr :=
  lit <$> ["JAN"; "FEB"; "MAR"; "APR"; "MAY"; "JUN"; "JUL"; "AUG"; "SEP"; "OCT"; "NOV"; "DEC"]%string.

(** [1 + i] for the index of the matching arm. *)
Fixpoint month_index (prefix : rstr) (names : list rstr) (m : Z) : option Z :=
  match names with
  | [] => None
  | name :: names => if bool_decide (prefix = name) then Some m else month_index prefix names (m + 1)
  end.
Definition month_of (token : rstr) : option Z :=
  month_index (ascii_upper <$> take 3 token) month_names 1.

(** Howard Hinnant's [days_from_civil], with Rust's truncating division. *)
Definition unix_seconds (y m d h mi s : Z) : option Z :=
  if negb (bool_decide (1 ≤ m ≤ 12)%Z) || negb (bool_decide (1 ≤ d ≤ 31)%Z) then None
  else
    let '(y, m) := if (m <=? 2)%Z then (y - 1, m + 12)%Z else (y, m) in
    let era := (Z.quot (if (0 <=? y)%Z then y else y - 399) 400)%Z in
    let yoe := (y - era * 400)%Z in
    let doy := (Z.quot (153 * (m - 3) + 2) 5 + d - 1)%Z in
    let doe := (yoe * 365 + Z.quot yoe 4 - Z.quot yoe 100 + doy)%Z in
    let days := (era * 146097 + doe - 719468)%Z in
    if bool_decide (-100000000 ≤ days ≤ 100000000)%Z
    then Some (days * 86400 + h * 3600 + mi * 60 + s)%Z
    else None.

(** The locals of [parse_cookie_date]: a field is [Some] when its flag is set. *)
Record DateFields : Type := {
  found_time : option (Z * Z * Z);
  found_day : option Z;
  found_month : option Z;
  found_year : option Z;
}.

(** One token of the loop. *)
Definition date_token (d : DateFields) (token : rstr) : DateFields :=
  match found_time d, parse_time_token token with
  | None, Some t =>
      {| found_time := Some t; found_day := found_day d; found_month := found_month d;
         found_year := found_year d |}
  | _, _ =>
      match found_day d, first_1_2_digit_run token 1 31 with
      | None, Some n =>
          {| found_time := found_time d; found_day := Some n; found_month := found_month d;
             found_year := found_year d |}
      | _, _ =>
          match found_month d, month_of token with
          | None, Some n =>
              {| found_time := found_time d; found_day := found_day d; found_month := Some n;
                 found_year := found_year d |}
          | _, _ =>
              match found_year d, year_of token with
              | None, Some n =>
                  {| found_time := found_time d; found_day := found_day d;
                     found_month := found_month d; found_year := Some n |}
              | _, _ => d
              end
          end
      end
  end.

Definition date_fields (s : rstr) : DateFields :=
  foldl date_token {| found_time := None; found_day := None; found_month := None; found_year := None |}
    (tokenize_date s).

(** [parse_cookie_date] up to the conversion of the seconds into a date. *)
Definition cookie_date_seconds (s : rstr) : option Z :=
  let d := date_fields s in
  day ← found_day d; month ← found_month d; year ← found_year d;
  let '(hour, minute, second) := default (0, 0, 0)%Z (found_time d) in
  unix_seconds year month day hour minute second.

(** * Theorems on cookie dates

    The day count is that of the Gregorian calendar, and the parser reads back every date of
    the preferred format. *)

(** ** The calendar *)

Definition is_leap (y : Z) : bool :=
  ((y mod 4 =? 0) && (negb (y mod 100 =? 0) || (y mod 400 =? 0)))%Z.
Definition days_in_month (y m : Z) : Z :=
  (if (m =? 2) then if is_leap y then 29 else 28
   else if (m =? 4) || (m =? 6) || (m =? 9) || (m =? 11) then 30 else 31)%Z.
Definition valid_date (y m d : Z) : Prop := (1 ≤ m ≤ 12 ∧ 1 ≤ d ≤ days_in_month y m)%Z.
Definition next_day (y m d : Z) : Z * Z * Z :=
  if (d <? days_in_month y m)%Z then (y, m, d + 1)%Z
  else if (m <? 12)%Z then (y, m + 1, 1)%Z else (y + 1, 1, 1)%Z.

(** The day number that [unix_seconds] computes, with flooring division. *)
Definition day_number (y m d : Z) : Z :=
  let '(y, m) := if (m <=? 2)%Z then (y - 1, m + 12)%Z else (y, m) in
  (y / 400 * 146097 + ((y - y / 400 * 400) * 365 + (y - y / 400 * 400) / 4 -
     (y - y / 400 * 400) / 100 + ((153 * (m - 3) + 2) / 5 + d - 1)) - 719468)%Z.

Lemma unix_seconds_day y m d h mi s :
  (1 ≤ y ≤ 200000)%Z → (1 ≤ m ≤ 12)%Z → (1 ≤ d ≤ 31)%Z →
  unix_seconds y m d h mi s = Some (day_number y m d * 86400 + h * 3600 + mi * 60 + s)%Z.
Proof.
  intros Hy Hm Hd. unfold unix_seconds, day_number.
  rewrite !bool_decide_eq_true_2 by done. cbn [negb orb].
  destruct (Z.leb_spec m 2).
  - rewrite (proj2 (Z.leb_le 0 (y - 1))) by lia.
    rewrite !Z.quot_div_nonneg by (Z.to_euclidean_division_equations; lia).
    rewrite bool_decide_eq_true_2; [done|]. Z.to_euclidean_division_equations. lia.
  - rewrite (proj2 (Z.leb_le 0 y)) by lia.
    rewrite !Z.quot_div_nonneg by (Z.to_euclidean_division_equations; lia).
    rewrite bool_decide_eq_true_2; [done|]. Z.to_euclidean_division_equations. lia.
Qed.

Lemma month_cases m (P : Z → Prop) :
  (1 ≤ m ≤ 12)%Z →
  P 1%Z → P 2%Z → P 3%Z → P 4%Z → P 5%Z → P 6%Z → P 7%Z → P 8%Z → P 9%Z → P 10%Z → P 11%Z → P 12%Z → P m.
Proof.
  intros Hm. assert (m = 1 ∨ m = 2 ∨ m = 3 ∨ m = 4 ∨ m = 5 ∨ m = 6 ∨ m = 7 ∨ m = 8 ∨ m = 9 ∨
    m = 10 ∨ m = 11 ∨ m = 12)%Z as H by lia. by destruct_or! H; subst m.
Qed.

Lemma days_in_month_bound y m : (28 ≤ days_in_month y m ≤ 31)%Z.
Proof. unfold days_in_month. repeat case_match; lia. Qed.

(** The last day of February is followed by the first of March. *)
Lemma february_end y : (1 ≤ y)%Z → day_number y 3 1 = (day_number y 2 (days_in_month y 2) + 1)%Z.
Proof.
  intros Hy. unfold day_number, days_in_month, is_leap. cbn [Z.leb Z.compare Pos.compare Pos.compare_cont Z.eqb].
  change (2 =? 2)%Z with true. cbn iota.
  destruct (Z.eqb_spec (y mod 4) 0), (Z.eqb_spec (y mod 100) 0), (Z.eqb_spec (y mod 400) 0); cbn;
    Z.to_euclidean_division_equations; lia.
Qed.

Lemma day_number_next y m d y' m' d' :
  (1 ≤ y)%Z → valid_date y m d → next_day y m d = (y', m', d') →
  day_number y' m' d' = (day_number y m d + 1)%Z ∧ (1 ≤ m' ≤ 12)%Z ∧ (1 ≤ d' ≤ 31)%Z ∧ (y' ≤ y + 1)%Z ∧ (y ≤ y')%Z.
Proof.
  intros Hy [Hm Hd] Hnext. unfold next_day in Hnext. pose proof (days_in_month_bound y m).
  destruct (Z.ltb_spec d (days_in_month y m)).
  { injection Hnext as <- <- <-. split; [|lia]. unfold day_number. by case_match; lia. }
  assert (d = days_in_month y m) as -> by lia.
  revert Hnext. pattern m. apply month_cases; [done|..]; intros [= <- <- <-].
  2: split; [by apply february_end|lia].
  all: split; [|lia]; unfold day_number, days_in_month; cbn.
  all: repeat match goal with
       | |- context [Z.leb ?a 2] => let v := eval vm_compute in (Z.leb a 2) in change (Z.leb a 2) with v
       end; cbn iota beta; Z.to_euclidean_division_equations; lia.
Qed.

(** ** Printing and parsing *)

Definition digit (n : Z) : rchar := Z.to_N (48 + n).
Definition two_digits (n : Z) : rstr := [digit (n / 10); digit (n mod 10)].
Definition four_digits (n : Z) : rstr :=
  [digit (n / 1000); digit (n / 100 mod 10); digit (n / 10 mod 10); digit (n mod 10)].
Definition month_name (m : Z) : rstr :=
  nth (Z.to_nat (m - 1)) (lit <$> ["Jan"; "Feb"; "Mar"; "Apr"; "May"; "Jun"; "Jul"; "Aug"; "Sep"; "Oct"; "Nov"; "Dec"]%string) [].
Definition weekdays : list rstr := lit <$> ["Mon"; "Tue"; "Wed"; "Thu"; "Fri"; "Sat"; "Sun"]%string.

(** [Sun, 06 Nov 1994 08:49:37 GMT] *)
Definition clock_text (h mi s : Z) : rstr := two_digits h ++ 58%N :: two_digits mi ++ 58%N :: two_digits s.
Definition imf_fixdate (weekday : rstr) (y m d h mi s : Z) : rstr :=
  weekday ++ lit ", " ++ two_digits d ++ lit " " ++ month_name m ++ lit " " ++ four_digits y ++ lit " " ++
  clock_text h mi s ++ lit " GMT".

(** *** Tokens *)

Definition delimits (c : rchar) : bool := is_date_delimiter (c `mod` 256)%N.
Definition word (s : rstr) : bool := negb (bool_decide (s = [])) && forallb (λ c, negb (delimits c)) s.

Lemma split_by_ne p s : split_by p s ≠ [].
Proof. destruct s as [|c s]; cbn; [done|]. destruct (p c); [done|]. by destruct (split_by p s). Qed.

Lemma split_by_word p a c s :
  forallb (λ c, negb (p c)) a = true → p c = true → split_by p (a ++ c :: s) = a :: split_by p s.
Proof.
  intros Ha Hc. induction a as [|x a IH]; cbn in *; [by rewrite Hc|].
  apply andb_true_iff in Ha as [Hx Ha]. rewrite negb_true_iff in Hx. rewrite Hx. by rewrite IH.
Qed.

Lemma split_by_last p a : forallb (λ c, negb (p c)) a = true → split_by p a = [a].
Proof.
  induction a as [|x a IH]; cbn; [done|]. intros [Hx Ha]%andb_true_iff. rewrite negb_true_iff in Hx.
  by rewrite Hx, IH.
Qed.

Lemma word_spec a : word a = true → a ≠ [] ∧ forallb (λ c, negb (delimits c)) a = true.
Proof. unfold word. rewrite andb_true_iff, negb_true_iff, bool_decide_eq_false. done. Qed.

Lemma tokenize_word a c s :
  word a = true → delimits c = true → tokenize_date (a ++ c :: s) = a :: tokenize_date s.
Proof.
  intros [Hne Ha]%word_spec Hc. unfold tokenize_date. fold delimits.
  rewrite (split_by_word delimits) by done. by rewrite filter_cons_True.
Qed.

Lemma tokenize_delimiter c s : delimits c = true → tokenize_date (c :: s) = tokenize_date s.
Proof. intros Hc. unfold tokenize_date. cbn. fold (delimits c). rewrite Hc. by rewrite filter_cons_False by naive_solver. Qed.

Lemma tokenize_last a : word a = true → tokenize_date a = [a].
Proof.
  intros [Hne Ha]%word_spec. unfold tokenize_date. fold delimits. rewrite (split_by_last delimits) by done.
  by rewrite filter_cons_True.
Qed.

(** *** Each token, by evaluation over its range *)

Definition range (lo hi : Z) : list Z := seqZ lo (hi - lo + 1).

Lemma check_range (f : Z → bool) lo hi :
  forallb f (range lo hi) = true → ∀ n, (lo ≤ n ≤ hi)%Z → f n = true.
Proof.
  intros Hf n Hn. rewrite forallb_forall in Hf. apply Hf.
  apply list_elem_of_In, elem_of_seqZ. lia.
Qed.

Definition day_token_ok (d : Z) : bool :=
  word (two_digits d) && bool_decide (parse_time_token (two_digits d) = None) &&
  bool_decide (first_1_2_digit_run (two_digits d) 1 31 = Some d).
Definition month_token_ok (m : Z) : bool :=
  word (month_name m) && bool_decide (parse_time_token (month_name m) = None) &&
  bool_decide (month_of (month_name m) = Some m).
Definition year_token_ok (y : Z) : bool :=
  word (four_digits y) && bool_decide (parse_time_token (four_digits y) = None) &&
  bool_decide (year_of (four_digits y) = Some y).
Definition clock_field_ok (n : Z) : bool :=
  word (two_digits n) && bool_decide (two_digits n = take_while is_digit (two_digits n)) &&
  bool_decide (parse_i64 (two_digits n) = Some n) && negb (contains_char 58 (two_digits n)).
Definition weekday_ok (w : rstr) : bool :=
  word w && bool_decide (parse_time_token w = None) && bool_decide (first_1_2_digit_run w 1 31 = None) &&
  bool_decide (month_of w = None) && bool_decide (year_of w = None).

Lemma day_tokens d : (1 ≤ d ≤ 31)%Z → day_token_ok d = true.
Proof. apply check_range. vm_compute. reflexivity. Qed.
Lemma month_tokens m : (1 ≤ m ≤ 12)%Z → month_token_ok m = true.
Proof. apply check_range. vm_compute. reflexivity. Qed.
Lemma year_tokens y : (1000 ≤ y ≤ 9999)%Z → year_token_ok y = true.
Proof. apply check_range. vm_compute. reflexivity. Qed.
Lemma clock_fields n : (0 ≤ n ≤ 59)%Z → clock_field_ok n = true.
Proof. apply check_range. vm_compute. reflexivity. Qed.
Lemma weekday_tokens w : w ∈ weekdays → weekday_ok w = true.
Proof.
  assert (forallb weekday_ok weekdays = true) as Hf by (vm_compute; reflexivity).
  rewrite forallb_forall in Hf. intros Hw. by apply Hf, list_elem_of_In.
Qed.

Ltac bools H := rewrite ?andb_true_iff, ?bool_decide_eq_true in H.

Lemma clock_field n :
  (0 ≤ n ≤ 59)%Z →
  take_while is_digit (two_digits n) = two_digits n ∧ parse_i64 (two_digits n) = Some n ∧
  (58%N ∉ two_digits n) ∧ forallb (λ c, negb (delimits c)) (two_digits n) = true.
Proof.
  intros Hn. pose proof (clock_fields n Hn) as Hc. unfold clock_field_ok in Hc. bools Hc.
  rewrite negb_true_iff in Hc. unfold contains_char in Hc. rewrite bool_decide_eq_false in Hc.
  destruct Hc as [[[[_ Hw]%word_spec Ht] Hp] Hs]. by split_and!.
Qed.

Lemma parse_bounded_field n hi :
  (0 ≤ n ≤ 59)%Z → (n ≤ hi)%Z → parse_bounded (two_digits n) 0 hi = Some n.
Proof.
  intros Hn Hhi. destruct (clock_field n Hn) as (Ht & Hp & _ & _). unfold parse_bounded.
  rewrite Ht. cbn [two_digits]. fold (two_digits n). rewrite Hp. cbn. by rewrite bool_decide_eq_true_2 by lia.
Qed.

Lemma trim_digits s :
  take_while is_digit s = s → s ≠ [] → trim_start_matches (λ c, negb (is_digit c)) s = s.
Proof.
  destruct s as [|c s]; [done|]. cbn. destruct (is_digit c); [done|]. intros H. discriminate H.
Qed.

Lemma clock_token h mi s :
  (0 ≤ h ≤ 23)%Z → (0 ≤ mi ≤ 59)%Z → (0 ≤ s ≤ 59)%Z →
  word (clock_text h mi s) = true ∧ parse_time_token (clock_text h mi s) = Some (h, mi, s).
Proof.
  intros Hh Hmi Hs.
  destruct (clock_field h) as (Ht & _ & Hn & Hw); [lia|].
  destruct (clock_field mi Hmi) as (_ & _ & Hn' & Hw'), (clock_field s Hs) as (_ & _ & Hn'' & Hw'').
  assert (∀ n, 58%N ∉ two_digits n → forallb (λ c, negb (bool_decide (c = 58%N))) (two_digits n) = true) as Hno.
  { intros n Hni. apply forallb_forall. intros x Hx%list_elem_of_In. rewrite negb_true_iff, bool_decide_eq_false.
    by intros ->. }
  split.
  - unfold word, clock_text. rewrite andb_true_iff. split; [done|].
    rewrite forallb_app. cbn [forallb]. rewrite forallb_app. cbn [forallb]. by rewrite Hw, Hw', Hw''.
  - unfold parse_time_token, clock_text.
    rewrite (proj2 (split_once_Some 58 _ (two_digits h) (two_digits mi ++ 58%N :: two_digits s))) by done.
    cbn [fmap option_fmap option_map fst default from_option id].
    rewrite trim_digits, parse_bounded_field by (done || lia). cbn [mbind option_bind].
    unfold split_char. rewrite split_by_word by (auto || by apply bool_decide_eq_true_2).
    rewrite split_by_last by auto. rewrite !parse_bounded_field by lia. done.
Qed.

(** *** The parser on the printed date *)

Lemma imf_tokens weekday y m d h mi s :
  weekday ∈ weekdays → (1000 ≤ y ≤ 9999)%Z → (1 ≤ m ≤ 12)%Z → (1 ≤ d ≤ 31)%Z →
  (0 ≤ h ≤ 23)%Z → (0 ≤ mi ≤ 59)%Z → (0 ≤ s ≤ 59)%Z →
  tokenize_date (imf_fixdate weekday y m d h mi s) =
  [weekday; two_digits d; month_name m; four_digits y; clock_text h mi s; lit "GMT"].
Proof.
  intros Hwd Hy Hm Hd Hh Hmi Hs. unfold imf_fixdate.
  pose proof (weekday_tokens _ Hwd) as Hw1. unfold weekday_ok in Hw1. bools Hw1.
  pose proof (day_tokens _ Hd) as Hw2. unfold day_token_ok in Hw2. bools Hw2.
  pose proof (month_tokens _ Hm) as Hw3. unfold month_token_ok in Hw3. bools Hw3.
  pose proof (year_tokens _ Hy) as Hw4. unfold year_token_ok in Hw4. bools Hw4.
  destruct (clock_token h mi s Hh Hmi Hs) as [Hw5 _].
  cbn [lit app Ascii.N_of_ascii].
  rewrite tokenize_word by (tauto || reflexivity). f_equal. rewrite tokenize_delimiter by reflexivity.
  rewrite tokenize_word by (tauto || reflexivity). f_equal.
  rewrite tokenize_word by (tauto || reflexivity). f_equal.
  rewrite tokenize_word by (tauto || reflexivity). f_equal.
  rewrite tokenize_word by (tauto || reflexivity). f_equal.
Qed.

Lemma imf_fields weekday y m d h mi s :
  weekday ∈ weekdays → (1000 ≤ y ≤ 9999)%Z → (1 ≤ m ≤ 12)%Z → (1 ≤ d ≤ 31)%Z →
  (0 ≤ h ≤ 23)%Z → (0 ≤ mi ≤ 59)%Z → (0 ≤ s ≤ 59)%Z →
  date_fields (imf_fixdate weekday y m d h mi s) =
  {| found_time := Some (h, mi, s); found_day := Some d; found_month := Some m; found_year := Some y |}.
Proof.
  intros Hwd Hy Hm Hd Hh Hmi Hs. unfold date_fields. rewrite imf_tokens by done.
  pose proof (weekday_tokens _ Hwd) as Hw1. unfold weekday_ok in Hw1. bools Hw1.
  destruct Hw1 as [[[[_ Hw1] Hw1'] Hw1''] Hw1'''].
  pose proof (day_tokens _ Hd) as Hw2. unfold day_token_ok in Hw2. bools Hw2. destruct Hw2 as [[_ Hw2] Hw2'].
  pose proof (month_tokens _ Hm) as Hw3. unfold month_token_ok in Hw3. bools Hw3. destruct Hw3 as [[_ Hw3] Hw3'].
  pose proof (year_tokens _ Hy) as Hw4. unfold year_token_ok in Hw4. bools Hw4. destruct Hw4 as [[_ Hw4] Hw4'].
  destruct (clock_token h mi s Hh Hmi Hs) as [_ Hw5].
  cbn [foldl]. unfold date_token at 6. cbn [found_time found_day found_month found_year].
  rewrite Hw1, Hw1', Hw1'', Hw1'''.
  unfold date_token at 5. cbn [found_time found_day found_month found_year]. rewrite Hw2, Hw2'.
  unfold date_token at 4. cbn [found_time found_day found_month found_year]. rewrite Hw3, Hw3'.
  unfold date_token at 3. cbn [found_time found_day found_month found_year]. rewrite Hw4, Hw4'.
  unfold date_token at 2. cbn [found_time found_day found_month found_year]. rewrite Hw5.
  done.
Qed.

(** ** The properties *)

(** [unix_seconds] counts the days of the Gregorian calendar: the epoch is zero, every valid
    date has a value, and the same time on the next day is 86400 seconds later, across the ends
    of months, years and leap years. *)
Theorem unix_seconds_calendar :
  unix_seconds 1970 1 1 0 0 0 = Some 0%Z ∧
  ∀ y m d h mi s y' m' d', (1 ≤ y ≤ 100000)%Z → valid_date y m d → next_day y m d = (y', m', d') →
    ∃ t, unix_seconds y m d h mi s = Some t ∧ unix_seconds y' m' d' h mi s = Some (t + 86400)%Z.
Proof.
  split; [reflexivity|]. intros y m d h mi s y' m' d' Hy Hv Hnext.
  destruct (day_number_next y m d y' m' d') as (Hday & Hm' & Hd' & Hy1 & Hy2); [lia|done..|].
  pose proof (days_in_month_bound y m). destruct Hv as [Hm Hd].
  rewrite !unix_seconds_day by lia. eexists. split; [done|]. f_equal. lia.
Qed.

(** The cookie-date parser inverts the preferred format: from a date printed as
    [Sun, 06 Nov 1994 08:49:37 GMT] it reads exactly that year, month, day and time. *)
Theorem cookie_date_round_trip weekday y m d h mi s :
  weekday ∈ weekdays → (1000 ≤ y ≤ 9999)%Z → (1 ≤ m ≤ 12)%Z → (1 ≤ d ≤ 31)%Z →
  (0 ≤ h ≤ 23)%Z → (0 ≤ mi ≤ 59)%Z → (0 ≤ s ≤ 59)%Z →
  cookie_date_seconds (imf_fixdate weekday y m d h mi s) = unix_seconds y m d h mi s ∧
  is_Some (unix_seconds y m d h mi s).
Proof.
  intros Hwd Hy Hm Hd Hh Hmi Hs. split.
  - unfold cookie_date_seconds. by rewrite imf_fields.
  - rewrite unix_seconds_day by lia. by eexists.
Qed.

Example cookie_date_round_trip_witness :
  cookie_date_seconds (lit "Sun, 06 Nov 1994 08:49:37 GMT") = Some 784111777%Z.
Proof.
  change (lit "Sun, 06 Nov 1994 08:49:37 GMT") with (imf_fixdate (lit "Sun") 1994 11 6 8 49 37).
  destruct (cookie_date_round_trip (lit "Sun") 1994 11 6 8 49 37) as [-> _];
    [vm_compute; repeat (left || right)|lia..|reflexivity].
Defined.
