(* ===== verification/Cookie.v ===== *)
(** * The cookie jar

    [crates/vixen-net/src/cookie.rs] and [site.rs], definitions only: the jar with its FIFO
    cap, [Set-Cookie] parsing and its policy gates, the outgoing [Cookie] header,
    [document.cookie], profile snapshots and the deltas of isolated fetch jars.

    The [url], [psl] and [time] crates are the interface [Platform].  The jar's clock is an
    argument: [clock k] is what the [k]-th reading during one call returns. *)

From Stdlib Require Import Lia ZArith.
From stdpp Require Import base decidable gmap sets list sorting strings.
From S2P Require Import Prelude.
From S2P Require Import RustStr.
From S2P Require Import CookieDate.

(** ** Libraries *)

(** [url::Host] *)
Inductive Host : Type :=
| Domain (name : rstr)
| Ipv4 (address : N)
| Ipv6 (address : N).
#[export] Instance Host_eq_dec : EqDecision Host.
Proof. solve_decision. Defined.

(** What the code reads of a [url::Url]. *)
Record Url : Type := { url_host : option Host; url_path : rstr; url_scheme : rstr }.

Class Platform : Type := {
  Host_parse : rstr → option Host;                 (** [url::Host::parse(..).ok()] *)
  Host_to_string : Host → rstr;
  psl_suffix : rstr → option rstr;                 (** [psl::suffix_str] *)
  psl_domain : rstr → option rstr;                 (** [psl::domain_str] *)
  OffsetDateTime : Type;
  odt_leb : OffsetDateTime → OffsetDateTime → bool;
  from_unix_timestamp : Z → option OffsetDateTime;
  unix_timestamp : OffsetDateTime → Z;
  checked_add_seconds : OffsetDateTime → Z → option OffsetDateTime;
  unix_epoch : OffsetDateTime;
}.

(** ** Data *)

Definition MAX_COOKIES : nat := 512.

Inductive SameSite : Type := Strict | Lax | SameSiteNone.
#[export] Instance SameSite_eq_dec : EqDecision SameSite.
Proof. solve_decision. Defined.

Inductive Method : Type := Get | Head | Post | Put | Delete | Patch | Options.
Definition is_safe (self : Method) : bool :=
  match self with Get | Head | Options => true | _ => false end.

Record CookieSnapshot : Type := {
  cs_name : rstr;
  cs_value : rstr;
  cs_domain : rstr;
  cs_host_only : bool;
  cs_path : rstr;
  cs_expires_unix : option Z;
  cs_secure : bool;
  cs_http_only : bool;
  cs_same_site : SameSite;
  cs_creation_unix : Z;
}.
#[export] Instance CookieSnapshot_eq_dec : EqDecision CookieSnapshot.
Proof. solve_decision. Defined.

(** [(name, domain, path)] *)
Abbreviation Identity := (rstr * rstr * rstr)%type (only parsing).

Record CookieJarDelta : Type := { upserts : list CookieSnapshot; removals : list Identity }.

Inductive CookieError : Type :=
| Malformed
| HttpOnlyFromScript
| SecureRequiresHttps
| SameSiteNoneRequiresSecure
| DomainMismatch (domain host : rstr).

(** ** Paths *)

Definition default_path (uri_path : rstr) : rstr :=
  if bool_decide (uri_path = []) || negb (starts_with_char 47 uri_path) then [47%N]
  else if negb (contains_char 47 (drop 1 uri_path)) then [47%N]
  else default [] (before_last 47 uri_path).

Definition path_match (request_path cookie_path : rstr) : bool :=
  bool_decide (request_path = cookie_path) ||
  (bool_decide (cookie_path `prefix_of` request_path) &&
   (ends_with_char 47 cookie_path ||
    bool_decide (request_path !! length cookie_path = Some 47%N))).

(** ** Values *)

(** 34 is the double quote. *)
Definition strip_quotes (v : rstr) : rstr :=
  let v := trim v in
  if bool_decide (2 ≤ str_len v)%N && starts_with_char 34 v && ends_with_char 34 v
  then take (length v - 2) (drop 1 v) else v.

Definition FAR_FUTURE_UNIX : Z := 253402300799.

Section platform.
Context `{Platform}.

Definition odt_ltb (a b : OffsetDateTime) : bool := negb (odt_leb b a).

Record Cookie : Type := {
  ck_name : rstr;
  ck_value : rstr;
  ck_domain : rstr;
  ck_host_only : bool;
  ck_path : rstr;
  ck_expires : option OffsetDateTime;
  ck_created : OffsetDateTime;
  ck_last_access : OffsetDateTime;
  ck_secure : bool;
  ck_http_only : bool;
  ck_same_site : SameSite;
  ck_seq : N;
}.

Definition identity (c : Cookie) : Identity := (ck_name c, ck_domain c, ck_path c).
Definition snapshot_identity (s : CookieSnapshot) : Identity := (cs_name s, cs_domain s, cs_path s).

(** Field assignments *)
Definition set_created v (c : Cookie) : Cookie :=
  {| ck_name := ck_name c; ck_value := ck_value c; ck_domain := ck_domain c;
     ck_host_only := ck_host_only c; ck_path := ck_path c; ck_expires := ck_expires c;
     ck_created := v; ck_last_access := ck_last_access c; ck_secure := ck_secure c;
     ck_http_only := ck_http_only c; ck_same_site := ck_same_site c; ck_seq := ck_seq c |}.
Definition set_last_access v (c : Cookie) : Cookie :=
  {| ck_name := ck_name c; ck_value := ck_value c; ck_domain := ck_domain c;
     ck_host_only := ck_host_only c; ck_path := ck_path c; ck_expires := ck_expires c;
     ck_created := ck_created c; ck_last_access := v; ck_secure := ck_secure c;
     ck_http_only := ck_http_only c; ck_same_site := ck_same_site c; ck_seq := ck_seq c |}.
Definition set_seq v (c : Cookie) : Cookie :=
  {| ck_name := ck_name c; ck_value := ck_value c; ck_domain := ck_domain c;
     ck_host_only := ck_host_only c; ck_path := ck_path c; ck_expires := ck_expires c;
     ck_created := ck_created c; ck_last_access := ck_last_access c; ck_secure := ck_secure c;
     ck_http_only := ck_http_only c; ck_same_site := ck_same_site c; ck_seq := v |}.

Record CookieJar : Type := { cookies : list Cookie; next_seq : N }.

Definition CookieJar_new : CookieJar := {| cookies := []; next_seq := 0 |}.
Definition set_cookies v (j : CookieJar) : CookieJar := {| cookies := v; next_seq := next_seq j |}.
Definition jar_len (self : CookieJar) : nat := length (cookies self).

Definition is_expired (c : Cookie) (now : OffsetDateTime) : bool :=
  match ck_expires c with Some e => odt_leb e now | None => false end.

(** ** [site.rs] *)

Definition eq_ignore_ascii_case (a b : rstr) : bool :=
  bool_decide (to_ascii_lowercase a = to_ascii_lowercase b).

Definition dns_name_for_psl (domain : rstr) : option rstr :=
  let domain := trim_end_matches (λ c, bool_decide (c = 46%N)) domain in
  match domain with [] => None | _ => Some domain end.

Definition registrable_domain (host : rstr) : option rstr :=
  match Host_parse host with
  | Some (Domain domain) =>
      domain ← dns_name_for_psl domain;
      to_ascii_lowercase <$> psl_domain domain
  | _ => None
  end.

Definition same_registrable_domain (a b : rstr) : bool :=
  match registrable_domain a, registrable_domain b with
  | Some a, Some b => eq_ignore_ascii_case a b
  | _, _ => false
  end.

Definition is_public_suffix (host : Host) : bool :=
  match host with
  | Domain domain =>
      match dns_name_for_psl domain with
      | Some domain =>
          match psl_suffix domain with
          | Some suffix => eq_ignore_ascii_case suffix domain
          | None => false
          end
      | None => false
      end
  | _ => false
  end.

Definition cookie_domain_matches_host (request_host : Host) (host_only : bool) (domain : Host) : bool :=
  if bool_decide (request_host = domain) then true
  else if host_only then false
  else match request_host, domain with
       | Domain host, Domain domain =>
           match strip_suffix domain host with
           | Some prefix => ends_with_char 46 prefix
           | None => false
           end
       | _, _ => false
       end.

Definition cookie_domain_matches (request_host : Host) (host_only : bool) (domain : rstr) : bool :=
  match Host_parse domain with
  | Some domain => cookie_domain_matches_host request_host host_only domain
  | None => false
  end.

(** [CookieDomain::into_parts] included: the domain and whether it is host-only. *)
Definition cookie_domain (request_host : Host) (attribute : rstr) : option (rstr * bool) :=
  attribute ← Host_parse attribute;
  if is_public_suffix attribute then
    if bool_decide (request_host = attribute) then Some (Host_to_string request_host, true) else None
  else if negb (cookie_domain_matches_host request_host false attribute) then None
  else Some (Host_to_string attribute, false).

(** ** [Set-Cookie] *)

Definition parse_cookie_date (s : rstr) : option OffsetDateTime :=
  secs ← cookie_date_seconds s; from_unix_timestamp secs.

Definition clamp_max_age (n : Z) : OffsetDateTime :=
  default unix_epoch (from_unix_timestamp (if (0 <=? n)%Z then FAR_FUTURE_UNIX else (-1)%Z)).

(** The locals of the attribute loop. *)
Record Attributes : Type := {
  at_domain : option rstr;
  at_path : option rstr;
  at_expires : option OffsetDateTime;
  at_max_age : option Z;
  at_secure : bool;
  at_http_only : bool;
  at_same_site : option SameSite;
}.
Definition no_attributes : Attributes :=
  {| at_domain := None; at_path := None; at_expires := None; at_max_age := None;
     at_secure := false; at_http_only := false; at_same_site := None |}.

Definition parse_same_site (v : rstr) : SameSite :=
  let v := to_ascii_lowercase v in
  if bool_decide (v = lit "strict") then Strict
  else if bool_decide (v = lit "lax") then Lax
  else if bool_decide (v = lit "none") then SameSiteNone
  else Lax.

(** [key=value] attributes; [v] is trimmed. *)
Definition keyed_attribute (k v : rstr) (a : Attributes) : Attributes :=
  if bool_decide (k = lit "domain") then
    if negb (bool_decide (v = [])) && negb (ends_with_char 46 v)
    then {| at_domain := Some (default v (strip_prefix_char 46 v)); at_path := at_path a;
            at_expires := at_expires a; at_max_age := at_max_age a; at_secure := at_secure a;
            at_http_only := at_http_only a; at_same_site := at_same_site a |}
    else a
  else if bool_decide (k = lit "path") then
    if negb (bool_decide (v = []))
    then {| at_domain := at_domain a; at_path := Some v; at_expires := at_expires a;
            at_max_age := at_max_age a; at_secure := at_secure a;
            at_http_only := at_http_only a; at_same_site := at_same_site a |}
    else a
  else if bool_decide (k = lit "max-age") then
    match parse_i64 v with
    | Some n => {| at_domain := at_domain a; at_path := at_path a; at_expires := at_expires a;
                   at_max_age := Some n; at_secure := at_secure a;
                   at_http_only := at_http_only a; at_same_site := at_same_site a |}
    | None => a
    end
  else if bool_decide (k = lit "expires") then
    match parse_cookie_date v with
    | Some t => {| at_domain := at_domain a; at_path := at_path a; at_expires := Some t;
                   at_max_age := at_max_age a; at_secure := at_secure a;
                   at_http_only := at_http_only a; at_same_site := at_same_site a |}
    | None => a
    end
  else if bool_decide (k = lit "samesite") then
    {| at_domain := at_domain a; at_path := at_path a; at_expires := at_expires a;
       at_max_age := at_max_age a; at_secure := at_secure a; at_http_only := at_http_only a;
       at_same_site := Some (parse_same_site v) |}
  else a.

Definition flag_attribute (seg : rstr) (a : Attributes) : Attributes :=
  if bool_decide (seg = lit "secure") then
    {| at_domain := at_domain a; at_path := at_path a; at_expires := at_expires a;
       at_max_age := at_max_age a; at_secure := true; at_http_only := at_http_only a;
       at_same_site := at_same_site a |}
  else if bool_decide (seg = lit "httponly") then
    {| at_domain := at_domain a; at_path := at_path a; at_expires := at_expires a;
       at_max_age := at_max_age a; at_secure := at_secure a; at_http_only := true;
       at_same_site := at_same_site a |}
  else a.

(** One turn of [for seg in parts]. *)
Definition attribute (a : Attributes) (seg : rstr) : Attributes :=
  let seg := trim seg in
  match split_once 61 seg with
  | Some (k, v) => keyed_attribute (to_ascii_lowercase (trim k)) (trim v) a
  | None => flag_attribute (to_ascii_lowercase seg) a
  end.

(** [Max-Age] before [Expires]. *)
Definition expiry_of (now : OffsetDateTime) (a : Attributes) : option OffsetDateTime :=
  match at_max_age a with
  | Some n => Some (default (clamp_max_age n) (checked_add_seconds now n))
  | None => at_expires a
  end.

Definition resolve_domain (request_host : Host) (a : Attributes) : result CookieError (rstr * bool) :=
  match at_domain a with
  | Some d => ok_or (cookie_domain request_host d) (DomainMismatch d (Host_to_string request_host))
  | None => Ok (Host_to_string request_host, true)
  end.

Definition resolve_path (request_url : Url) (a : Attributes) : rstr :=
  match at_path a with
  | Some p => if starts_with_char 47 p then p else default_path (url_path request_url)
  | None => default_path (url_path request_url)
  end.

Definition is_https (u : Url) : bool := bool_decide (url_scheme u = lit "https").

Definition parse_pair (pair : rstr) : result CookieError (rstr * rstr) :=
  '(name, value) ← ok_or (split_once 61 (trim pair)) Malformed;
  let name := trim name in
  _ ← throw_if (bool_decide (name = [])) Malformed;
  Ok (name, strip_quotes (trim value)).

(** [ParsedCookie] is the cookie that [set_cookie] builds from it. *)
Definition parse_set_cookie (header : rstr) (request_url : Url) (now : OffsetDateTime)
    (from_http_response : bool) : result CookieError Cookie :=
  let parts := split_char 59 header in
  '(name, value) ← parse_pair (default [] (head parts));
  let a := foldl attribute no_attributes (tail parts) in
  request_host ← ok_or (url_host request_url) Malformed;
  '(domain, host_only) ← resolve_domain request_host a;
  _ ← throw_if (at_http_only a && negb from_http_response) HttpOnlyFromScript;
  _ ← throw_if (at_secure a && negb (is_https request_url)) SecureRequiresHttps;
  let same_site := default Lax (at_same_site a) in
  _ ← throw_if (bool_decide (same_site = SameSiteNone) && negb (at_secure a))
        SameSiteNoneRequiresSecure;
  Ok {| ck_name := name; ck_value := value; ck_domain := domain; ck_host_only := host_only;
        ck_path := resolve_path request_url a; ck_expires := expiry_of now a; ck_created := now;
        ck_last_access := now; ck_secure := at_secure a; ck_http_only := at_http_only a;
        ck_same_site := same_site; ck_seq := 0 |}.

(** ** Storage *)

(** The index that [.enumerate().min_by_key(|(_, c)| c.seq)] gives: the first minimum. *)
Fixpoint min_seq (l : list Cookie) : option (nat * N) :=
  match l with
  | [] => None
  | c :: l =>
      match min_seq l with
      | Some (i, m) => if bool_decide (ck_seq c ≤ m)%N then Some (0, ck_seq c)%nat else Some (S i, m)
      | None => Some (0, ck_seq c)%nat
      end
  end.

(** [Vec::swap_remove] *)
Definition swap_remove {A} (i : nat) (l : list A) : list A :=
  match last l with
  | Some x => take (length l - 1) (<[i := x]> l)
  | None => l
  end.

(** [while self.cookies.len() >= MAX_COOKIES]; every turn removes one, so the length is enough
    fuel. *)
Fixpoint evict (fuel : nat) (l : list Cookie) : list Cookie :=
  match fuel with
  | O => l
  | S fuel =>
      if bool_decide (MAX_COOKIES ≤ length l)%nat then
        match min_seq l with
        | Some (i, _) => evict fuel (swap_remove i l)
        | None => l
        end
      else l
  end.

(** [find(|c| c.name == cookie.name && ...)]: the index of the first match. *)
Definition find_identity (id : Identity) (l : list Cookie) : option nat :=
  fst <$> list_find (λ c, identity c = id) l.

(** [AtomicU64::fetch_add] wraps. *)
Definition tick (self : CookieJar) : CookieJar :=
  {| cookies := cookies self; next_seq := ((next_seq self + 1) `mod` 2 ^ 64)%N |}.

Definition upsert (now : OffsetDateTime) (cookie : Cookie) (self : CookieJar) : CookieJar :=
  match find_identity (identity cookie) (cookies self) with
  | Some i =>
      set_cookies (alter (λ existing,
        set_last_access now (set_seq (ck_seq existing) (set_created (ck_created existing) cookie)))
        i (cookies self)) self
  | None =>
      let kept := evict (length (cookies self)) (cookies self) in
      tick (set_cookies (kept ++ [set_last_access now (set_seq (next_seq self) cookie)]) self)
  end.

Definition set_cookie (header : rstr) (request_url : Url) (from_http_response : bool)
    (clock : nat → OffsetDateTime) (self : CookieJar) : CookieJar * result CookieError unit :=
  match parse_set_cookie header request_url (clock 0) from_http_response with
  | Ok cookie => (upsert (clock 1) cookie self, Ok tt)
  | Err e => (self, Err e)
  end.

Definition purge_expired (now : OffsetDateTime) (self : CookieJar) : CookieJar * nat :=
  let kept := filter (λ c, is_expired c now = false) (cookies self) in
  (set_cookies kept self, length (cookies self) - length kept)%nat.

(** ** Sending and reading *)

(** [sort_by] of both readers: longer paths first, then the lower sequence number. *)
Definition header_le (a b : Cookie) : bool :=
  (str_len (ck_path b) <? str_len (ck_path a))%N ||
  ((str_len (ck_path b) =? str_len (ck_path a))%N && (ck_seq a <=? ck_seq b)%N).

Definition pair_text (c : Cookie) : rstr := ck_name c ++ [61%N] ++ ck_value c.

(** The tests that both readers make. *)
Definition visible (host : Host) (url : Url) (now : OffsetDateTime) (c : Cookie) : bool :=
  negb (is_expired c now) && cookie_domain_matches host (ck_host_only c) (ck_domain c) &&
  path_match (url_path url) (ck_path c) && negb (ck_secure c && negb (is_https url)).

Definition same_site_allows (cross_site : bool) (method : Method) (c : Cookie) : bool :=
  negb cross_site ||
  match ck_same_site c with
  | Strict => false
  | Lax => is_safe method
  | SameSiteNone => true
  end.

Definition matching (host : Host) (url : Url) (cross_site : bool) (method : Method)
    (now : OffsetDateTime) (c : Cookie) : bool :=
  visible host url now c && same_site_allows cross_site method c.

(** The cookies that match are touched; the header is built from their sorted list. *)
Definition cookies_for (url : Url) (cross_site : bool) (method : Method) (now : OffsetDateTime)
    (self : CookieJar) : CookieJar * rstr :=
  match url_host url with
  | None => (self, [])
  | Some host =>
      let test := matching host url cross_site method now in
      (set_cookies ((λ c, if test c then set_last_access now c else c) <$> cookies self) self,
       join (lit "; ") (pair_text <$> sort_by header_le (filter (λ c, test c = true) (cookies self))))
  end.

Definition document_cookie_string (url : Url) (now : OffsetDateTime) (self : CookieJar) : rstr :=
  match url_host url with
  | None => []
  | Some host =>
      join (lit "; ") (pair_text <$> sort_by header_le
        (filter (λ c, negb (ck_http_only c) && visible host url now c = true) (cookies self)))
  end.

(** ** Snapshots and deltas *)

Definition cookie_from_snapshot (s : CookieSnapshot) (now : OffsetDateTime) : option Cookie :=
  let cookie :=
    {| ck_name := cs_name s; ck_value := cs_value s;
       ck_domain := to_ascii_lowercase (cs_domain s); ck_host_only := cs_host_only s;
       ck_path := if bool_decide (cs_path s = []) then [47%N] else cs_path s;
       ck_expires := cs_expires_unix s ≫= from_unix_timestamp;
       ck_created := default now (from_unix_timestamp (cs_creation_unix s));
       ck_last_access := now; ck_secure := cs_secure s; ck_http_only := cs_http_only s;
       ck_same_site := cs_same_site s; ck_seq := 0 |} in
  if is_expired cookie now then None else Some cookie.

(** [for snapshot in snapshots]: [now] is the reading before the loop, [clock k] the one in
    [upsert] while [k] snapshots are left. *)
Fixpoint upsert_snapshots (now : OffsetDateTime) (clock : nat → OffsetDateTime)
    (snapshots : list CookieSnapshot) (self : CookieJar) : CookieJar :=
  match snapshots with
  | [] => self
  | s :: snapshots =>
      let self := match cookie_from_snapshot s now with
                  | Some cookie => upsert (clock (length snapshots)) cookie self
                  | None => self
                  end in
      upsert_snapshots now clock snapshots self
  end.

Definition replace_with_snapshots (snapshots : list CookieSnapshot) (now : OffsetDateTime)
    (clock : nat → OffsetDateTime) (self : CookieJar) : CookieJar :=
  upsert_snapshots now clock snapshots {| cookies := []; next_seq := 0 |}.

Definition from_snapshots (snapshots : list CookieSnapshot) (now : OffsetDateTime)
    (clock : nat → OffsetDateTime) : CookieJar :=
  replace_with_snapshots snapshots now clock CookieJar_new.

Definition snapshot_of (c : Cookie) : CookieSnapshot :=
  {| cs_name := ck_name c; cs_value := ck_value c; cs_domain := ck_domain c;
     cs_host_only := ck_host_only c; cs_path := ck_path c;
     cs_expires_unix := unix_timestamp <$> ck_expires c; cs_secure := ck_secure c;
     cs_http_only := ck_http_only c; cs_same_site := ck_same_site c;
     cs_creation_unix := unix_timestamp (ck_created c) |}.

Definition snapshots (now : OffsetDateTime) (self : CookieJar) : list CookieSnapshot :=
  snapshot_of <$> filter (λ c, is_expired c now = false) (cookies self).

(** [BTreeMap<(String, String, String), CookieSnapshot>]: a later entry wins, and iteration is
    in the order of the keys. *)
Definition identity_leb (a b : Identity) : bool :=
  let '(a1, a2, a3) := a in let '(b1, b2, b3) := b in
  if negb (bool_decide (a1 = b1)) then rstr_leb a1 b1
  else if negb (bool_decide (a2 = b2)) then rstr_leb a2 b2
  else rstr_leb a3 b3.
Definition snapshots_by_identity (l : list CookieSnapshot) : gmap Identity CookieSnapshot :=
  foldl (λ m s, <[snapshot_identity s := s]> m) ∅ l.
Definition identity_entries (m : gmap Identity CookieSnapshot) : list (Identity * CookieSnapshot) :=
  sort_by (λ a b, identity_leb a.1 b.1) (map_to_list m).

Definition delta_from_snapshots (baseline : list CookieSnapshot) (now : OffsetDateTime)
    (self : CookieJar) : CookieJarDelta :=
  let baseline := snapshots_by_identity baseline in
  let current := snapshots_by_identity (snapshots now self) in
  {| upserts := (filter (λ kv, baseline !! kv.1 ≠ Some kv.2) (identity_entries current)).*2;
     removals := filter (λ id, current !! id = None) (identity_entries baseline).*1 |}.

Definition apply_delta (delta : CookieJarDelta) (now : OffsetDateTime) (clock : nat → OffsetDateTime)
    (self : CookieJar) : CookieJar :=
  let kept := filter (λ c, identity c ∉ removals delta) (cookies self) in
  upsert_snapshots now clock (upserts delta) (set_cookies kept self).
End platform.
