(* ===== verification/CookieFacts.v ===== *)
(** * Theorems on the cookie jar

    The jar's invariant, FIFO eviction, the policy of [Set-Cookie], what is sent and read,
    and the merge of a fetch task's jar.  [PlatformLaws] is what the code relies on of the
    [url] and [time] crates; [toy_platform] satisfies it. *)

From Stdlib Require Import Lia ZArith Sorting.Sorted.
From stdpp Require Import base decidable gmap sets list sorting strings.
From S2P Require Import Prelude.
From S2P Require Import RustStr.
From S2P Require Import CookieDate.
From S2P Require Import Cookie.

(** Instants are totally ordered; whole seconds survive the conversion in both directions and
    the conversion rounds down; a host prints as text that parses back to it. *)
Class PlatformLaws `{Platform} : Prop := {
  odt_total a b : odt_leb a b = true ∨ odt_leb b a = true;
  odt_trans a b c : odt_leb a b = true → odt_leb b c = true → odt_leb a c = true;
  unix_from s t : from_unix_timestamp s = Some t → unix_timestamp t = s;
  from_unix t : ∃ t', from_unix_timestamp (unix_timestamp t) = Some t' ∧ odt_leb t' t = true;
  parse_printed s h : Host_parse s = Some h → Host_parse (Host_to_string h) = Some h;
  printed_lowercase s h : Host_parse s = Some h →
    to_ascii_lowercase (Host_to_string h) = Host_to_string h;
}.

Section jar.
Context `{Platform}.

(** ** The jar's invariant *)

Record jar_wf (j : CookieJar) : Prop := {
  wf_identities : NoDup (identity <$> cookies j);
  wf_bound : (length (cookies j) ≤ MAX_COOKIES)%nat;
  wf_seqs : NoDup (ck_seq <$> cookies j);
  wf_next c : c ∈ cookies j → (ck_seq c < next_seq j)%N;
}.

Lemma identities_inj j c d : jar_wf j → c ∈ cookies j → d ∈ cookies j → identity c = identity d → c = d.
Proof.
  intros Hwf Hc Hd Hid. apply list_elem_of_lookup in Hc as [i Hi], Hd as [k Hk].
  assert (i = k) as ->; [|congruence].
  eapply (NoDup_lookup _ _ _ (identity c) (wf_identities j Hwf)).
  - by rewrite list_lookup_fmap, Hi.
  - rewrite list_lookup_fmap, Hk. cbn. by rewrite Hid.
Qed.

Lemma find_identity_Some id l i :
  find_identity id l = Some i → ∃ c, l !! i = Some c ∧ identity c = id.
Proof.
  unfold find_identity. destruct (list_find _ l) as [[k c]|] eqn:Hf; cbn; [|done].
  intros [= ->]. apply list_find_Some in Hf as (Hl & Hid & _). eauto.
Qed.

Lemma find_identity_None id l : find_identity id l = None ↔ id ∉ (identity <$> l).
Proof.
  unfold find_identity. rewrite fmap_None, list_find_None, Forall_forall. rewrite list_elem_of_fmap.
  split; [intros Hf (c & -> & Hc); by eapply Hf|]. intros Hn c Hc Hid. apply Hn. eauto.
Qed.

(** *** Eviction *)

Lemma min_seq_Some l i m :
  min_seq l = Some (i, m) → ∃ c, l !! i = Some c ∧ ck_seq c = m ∧ ∀ d, d ∈ l → (m ≤ ck_seq d)%N.
Proof.
  revert i m. induction l as [|c l IH]; intros i m; cbn; [done|].
  destruct (min_seq l) as [[k n]|] eqn:Hl.
  - destruct (IH k n eq_refl) as (d & Hd & Hn & Hmin). case_bool_decide as Hle; intros [= <- <-].
    + exists c. split_and!; [done..|]. intros e [->|He]%elem_of_cons; [lia|]. specialize (Hmin e He). lia.
    + exists d. split_and!; [done..|]. intros e [->|He]%elem_of_cons; [lia|auto].
  - intros [= <- <-]. exists c. split_and!; [done..|]. intros e [->|He]%elem_of_cons; [lia|].
    destruct l as [|x l]; [by apply elem_of_nil in He|]. cbn in Hl.
    destruct (min_seq l) as [[??]|]; [|done]. by case_bool_decide.
Qed.

Lemma min_seq_None l : min_seq l = None → l = [].
Proof.
  destruct l as [|c l]; [done|]. cbn. destruct (min_seq l) as [[??]|]; [|done]. by case_bool_decide.
Qed.

Lemma MAX_COOKIES_pos : (0 < MAX_COOKIES)%nat.
Proof. apply Nat.ltb_lt. vm_compute. done. Qed.

Lemma swap_remove_Permutation {A} (l : list A) i x : l !! i = Some x → x :: swap_remove i l ≡ₚ l.
Proof.
  intros Hi. unfold swap_remove. destruct l as [|y k _] using rev_ind; [done|].
  rewrite last_snoc, length_app. cbn. rewrite Nat.add_sub.
  apply lookup_snoc_Some in Hi as [[Hlt Hi]|[-> ->]].
  - rewrite insert_app_l by done. rewrite take_app_length' by by rewrite length_insert.
    rewrite <-(Permutation_cons_append k y). rewrite <-(take_drop_middle k i x Hi) at 2.
    rewrite (insert_take_drop k i y) by done. rewrite <-!Permutation_middle. apply Permutation_swap.
  - rewrite insert_app_r_alt by lia. rewrite take_app_length. apply Permutation_cons_append.
Qed.

#[local] Opaque MAX_COOKIES.

Lemma evict_small fuel l : (length l < MAX_COOKIES)%nat → evict fuel l = l.
Proof. intros Hl. destruct fuel; cbn [evict]; [done|]. by rewrite bool_decide_eq_false_2 by lia. Qed.

(** With at most [MAX_COOKIES] entries the loop takes one turn at most, and the entry it removes
    is the oldest. *)
Lemma evict_spec l :
  (length l ≤ MAX_COOKIES)%nat →
  ((length l < MAX_COOKIES)%nat ∧ evict (length l) l = l) ∨
  (length l = MAX_COOKIES ∧ ∃ oldest, oldest :: evict (length l) l ≡ₚ l ∧
     ∀ d, d ∈ l → (ck_seq oldest ≤ ck_seq d)%N).
Proof.
  intros Hle. destruct (decide (length l < MAX_COOKIES)%nat) as [Hlt|Hge].
  - left. split; [done|]. by apply evict_small.
  - right. assert (length l = MAX_COOKIES) as Hl by lia. split; [done|].
    destruct (min_seq l) as [[i m]|] eqn:Hm.
    + pose proof Hm as (c & Hc & <- & Hmin)%min_seq_Some.
      pose proof (swap_remove_Permutation l i c Hc) as Hp. exists c. split; [|done].
      pose proof (Permutation_length Hp) as Hlen. cbn in Hlen.
      destruct (length l) as [|n] eqn:He; [done|]. cbn [evict].
      rewrite bool_decide_eq_true_2, Hm, evict_small by lia. done.
    + apply min_seq_None in Hm as ->. pose proof MAX_COOKIES_pos. cbn in Hl. lia.
Qed.

(** *** [upsert] *)

(** What [upsert] stores in the place of [old], and as a new entry. *)
Definition renewed (now : OffsetDateTime) (c old : Cookie) : Cookie :=
  set_last_access now (set_seq (ck_seq old) (set_created (ck_created old) c)).
Definition fresh (now : OffsetDateTime) (c : Cookie) (j : CookieJar) : Cookie :=
  set_last_access now (set_seq (next_seq j) c).

Inductive upserted (now : OffsetDateTime) (c : Cookie) (j : CookieJar) : CookieJar → Prop :=
| upserted_renewed i old :
    cookies j !! i = Some old → identity old = identity c →
    upserted now c j (set_cookies (<[i := renewed now c old]> (cookies j)) j)
| upserted_fresh kept :
    identity c ∉ (identity <$> cookies j) →
    (length kept < MAX_COOKIES)%nat →
    (kept = cookies j ∨ length (cookies j) = MAX_COOKIES ∧ ∃ oldest, oldest :: kept ≡ₚ cookies j ∧
       ∀ d, d ∈ cookies j → (ck_seq oldest ≤ ck_seq d)%N) →
    upserted now c j (tick (set_cookies (kept ++ [fresh now c j]) j)).

Lemma alter_lookup_insert {A} (f : A → A) (l : list A) (i : nat) x : l !! i = Some x → alter f i l = <[i := f x]> l.
Proof. revert i. induction l as [|y l IH]; intros [|i] Hi; cbn in *; [naive_solver..|]. by rewrite IH. Qed.

Lemma elem_of_list_insert_inv {A} (l : list A) i x y : y ∈ <[i := x]> l → y = x ∨ y ∈ l.
Proof.
  intros [k Hk]%list_elem_of_lookup. apply list_lookup_insert_Some in Hk as [(<- & -> & _)|[_ Hk]].
  - by left.
  - right. by eapply list_elem_of_lookup_2.
Qed.

Lemma upsert_upserted now c j : jar_wf j → upserted now c j (upsert now c j).
Proof.
  intros Hwf. unfold upsert. destruct (find_identity _ _) as [i|] eqn:Hf.
  - apply find_identity_Some in Hf as (old & Hi & Hid).
    rewrite (alter_lookup_insert _ _ _ _ Hi). by apply (upserted_renewed _ _ _ i old).
  - apply find_identity_None in Hf.
    destruct (evict_spec (cookies j) (wf_bound j Hwf)) as [[Hlt ->]|[Hl (oldest & Hp & Hmin)]].
    + apply upserted_fresh; [done..|]. by left.
    + apply upserted_fresh; [done| |right; eauto].
      apply Permutation_length in Hp. cbn in Hp. lia.
Qed.

Lemma kept_subset (j : CookieJar) kept :
  (kept = cookies j ∨ length (cookies j) = MAX_COOKIES ∧ ∃ oldest, oldest :: kept ≡ₚ cookies j ∧
     ∀ d, d ∈ cookies j → (ck_seq oldest ≤ ck_seq d)%N) → kept ⊆+ cookies j.
Proof. intros [->|(_ & o & <- & _)]; [done|]. by apply submseteq_cons. Qed.

Lemma NoDup_submseteq {A} (l k : list A) : l ⊆+ k → NoDup k → NoDup l.
Proof. intros [r ->]%submseteq_Permutation. by intros [? _]%NoDup_app. Qed.

Lemma upserted_wf now c j j' :
  jar_wf j → (next_seq j + 1 < 2 ^ 64)%N → upserted now c j j' →
  jar_wf j' ∧ (next_seq j' ≤ next_seq j + 1)%N.
Proof.
  intros Hwf Hnext [i old Hi Hid|kept Hn Hlen Hkept].
  - split; [|cbn; lia]. split; cbn [cookies set_cookies next_seq].
    + rewrite list_fmap_insert. rewrite list_insert_id; [apply Hwf|].
      rewrite list_lookup_fmap, Hi. cbn. by f_equal.
    + rewrite length_insert. apply Hwf.
    + rewrite list_fmap_insert. rewrite list_insert_id; [apply Hwf|]. by rewrite list_lookup_fmap, Hi.
    + intros d Hd. apply elem_of_list_insert_inv in Hd as [->|Hd]; [|by apply Hwf].
      cbn. apply Hwf. by eapply list_elem_of_lookup_2.
  - pose proof (kept_subset j kept Hkept) as Hsub.
    assert (∀ d, d ∈ kept → (ck_seq d < next_seq j)%N) as Hlt.
    { intros d Hd. apply Hwf. by eapply elem_of_submseteq. }
    cbn [next_seq tick set_cookies]. rewrite N.mod_small by done. split; [|lia].
    split; cbn [cookies set_cookies next_seq tick]; rewrite ?N.mod_small by done.
    + rewrite fmap_app, NoDup_app. cbn. split_and!.
      * eapply NoDup_submseteq; [|apply Hwf]. by apply fmap_submseteq.
      * intros id Hid [=->]%list_elem_of_singleton. apply Hn.
        eapply elem_of_submseteq; [exact Hid|]. by apply fmap_submseteq.
      * apply NoDup_singleton.
    + rewrite length_app. cbn. lia.
    + rewrite fmap_app, NoDup_app. cbn. split_and!.
      * eapply NoDup_submseteq; [|apply Hwf]. by apply fmap_submseteq.
      * intros q Hq [=->]%list_elem_of_singleton. apply list_elem_of_fmap in Hq as (d & Heq & Hd).
        specialize (Hlt d Hd). lia.
      * apply NoDup_singleton.
    + intros d [Hd|Hd]%elem_of_app; [specialize (Hlt d Hd); lia|].
      apply list_elem_of_singleton in Hd as ->. cbn. lia.
Qed.

Lemma upsert_wf now c j :
  jar_wf j → (next_seq j + 1 < 2 ^ 64)%N →
  jar_wf (upsert now c j) ∧ (next_seq (upsert now c j) ≤ next_seq j + 1)%N.
Proof. intros Hwf Hn. by apply (upserted_wf now c j), upsert_upserted. Qed.

Lemma upsert_snapshots_wf now clock ss j :
  jar_wf j → (next_seq j + len ss < 2 ^ 64)%N →
  jar_wf (upsert_snapshots now clock ss j) ∧
  (next_seq (upsert_snapshots now clock ss j) ≤ next_seq j + len ss)%N.
Proof.
  revert j. induction ss as [|s ss IH]; intros j Hwf Hn; cbn [upsert_snapshots].
  - rewrite N.add_0_r. done.
  - rewrite len_cons in *. destruct (cookie_from_snapshot s now) as [c|].
    + destruct (upsert_wf (clock (length ss)) c j Hwf) as [Hwf' Hn']; [lia|].
      destruct (IH _ Hwf') as [? ?]; [lia|]. split; [done|]. lia.
    + destruct (IH j Hwf) as [? ?]; [lia|]. split; [done|]. lia.
Qed.

(** A sub-list of a jar is a jar. *)
Lemma filter_wf j (P : Cookie → Prop) `{∀ c, Decision (P c)} :
  jar_wf j → jar_wf (set_cookies (filter P (cookies j)) j).
Proof.
  intros Hwf. assert (filter P (cookies j) ⊆+ cookies j) as Hsub
    by apply sublist_submseteq, sublist_filter.
  split; cbn [cookies set_cookies next_seq].
  - eapply NoDup_submseteq; [|apply Hwf]. by apply fmap_submseteq.
  - apply submseteq_length in Hsub. pose proof (wf_bound j Hwf). lia.
  - eapply NoDup_submseteq; [|apply Hwf]. by apply fmap_submseteq.
  - intros c [_ Hc]%list_elem_of_filter. by apply Hwf.
Qed.

(** ** Runs *)

Inductive JarOp : Type :=
| OpSetCookie (header : rstr) (url : Url) (from_http_response : bool) (clock : nat → OffsetDateTime)
| OpReplace (ss : list CookieSnapshot) (now : OffsetDateTime) (clock : nat → OffsetDateTime)
| OpApplyDelta (delta : CookieJarDelta) (now : OffsetDateTime) (clock : nat → OffsetDateTime)
| OpPurge (now : OffsetDateTime)
| OpSend (url : Url) (cross_site : bool) (method : Method) (now : OffsetDateTime).

Definition jar_step (j : CookieJar) (op : JarOp) : CookieJar :=
  match op with
  | OpSetCookie header url from_http_response clock => (set_cookie header url from_http_response clock j).1
  | OpReplace ss now clock => replace_with_snapshots ss now clock j
  | OpApplyDelta delta now clock => apply_delta delta now clock j
  | OpPurge now => (purge_expired now j).1
  | OpSend url cross_site method now => (cookies_for url cross_site method now j).1
  end.

(** How many sequence numbers an operation may use. *)
Definition op_cost (op : JarOp) : N :=
  match op with
  | OpSetCookie _ _ _ _ => 1
  | OpReplace ss _ _ => len ss
  | OpApplyDelta delta _ _ => len (upserts delta)
  | OpPurge _ | OpSend _ _ _ _ => 0
  end.

Lemma jar_new_wf q : jar_wf {| cookies := []; next_seq := q |}.
Proof. split; cbn; [constructor|lia|constructor|by intros c ?%elem_of_nil]. Qed.

(** Touching cookies changes neither identities nor sequence numbers. *)
Lemma touch_wf j (f : Cookie → Cookie) :
  (∀ c, identity (f c) = identity c ∧ ck_seq (f c) = ck_seq c) →
  jar_wf j → jar_wf (set_cookies (f <$> cookies j) j).
Proof.
  intros Hf Hwf. split; cbn [cookies set_cookies next_seq].
  - rewrite <-list_fmap_compose. erewrite list_fmap_ext; [apply Hwf|]. intros ? c _. apply Hf.
  - rewrite length_fmap. apply Hwf.
  - rewrite <-list_fmap_compose. erewrite list_fmap_ext; [apply Hwf|]. intros ? c _. apply Hf.
  - intros c (d & -> & Hd)%list_elem_of_fmap. rewrite (proj2 (Hf d)). by apply Hwf.
Qed.

Lemma jar_step_wf j op n :
  jar_wf j → (next_seq j ≤ n)%N → (n + op_cost op < 2 ^ 64)%N →
  jar_wf (jar_step j op) ∧ (next_seq (jar_step j op) ≤ n + op_cost op)%N.
Proof.
  intros Hwf Hn Hc. destruct op; cbn [jar_step op_cost] in *.
  - unfold set_cookie. destruct (parse_set_cookie _ _ _ _) as [c|e]; cbn [fst].
    + destruct (upsert_wf (clock 1) c j Hwf) as [? ?]; [lia|]. split; [done|lia].
    + split; [done|lia].
  - destruct (upsert_snapshots_wf now clock ss _ (jar_new_wf 0)) as [? Hle]; [cbn; lia|].
    split; [done|]. unfold replace_with_snapshots. cbn in Hle. lia.
  - destruct (upsert_snapshots_wf now clock (upserts delta) _
      (filter_wf j (λ c, identity c ∉ removals delta) Hwf)) as [? Hle]; [cbn; lia|].
    split; [done|]. unfold apply_delta. cbn in Hle. lia.
  - split; [by apply filter_wf|cbn; lia].
  - unfold cookies_for. destruct (url_host url) as [host|]; cbn [fst]; [|split; [done|lia]].
    split; [|cbn; lia]. apply touch_wf; [|done]. intros c. by destruct (matching _ _ _ _ _ c).
Qed.

Lemma jar_run_wf ops j n :
  jar_wf j → (next_seq j ≤ n)%N → (n + sumN op_cost ops < 2 ^ 64)%N →
  jar_wf (foldl jar_step j ops).
Proof.
  revert j n. induction ops as [|op ops IH]; intros j n Hwf Hn Hc; cbn [foldl]; [done|].
  rewrite sumN_cons in Hc.
  destruct (jar_step_wf j op n Hwf Hn) as [Hwf' Hn']; [lia|].
  apply (IH _ (n + op_cost op)%N); [done..|lia].
Qed.

(** ** What is sent *)

(** Path [r] is [c] or lies below it. *)
Definition below_path (r c : rstr) : Prop :=
  r = c ∨ ∃ rest, r = c ++ rest ∧ (last c = Some 47%N ∨ head rest = Some 47%N).

(** Host [h] is [d] or a subdomain of it. *)
Definition subdomain_of (h d : Host) : Prop :=
  ∃ name parent label, h = Domain name ∧ d = Domain parent ∧ name = label ++ 46%N :: parent.

Record reaches (host : Host) (url : Url) (now : OffsetDateTime) (c : Cookie) : Prop := {
  reach_unexpired e : ck_expires c = Some e → odt_leb e now = false;
  reach_domain : ∃ d, Host_parse (ck_domain c) = Some d ∧
    (host = d ∨ ck_host_only c = false ∧ subdomain_of host d);
  reach_path : below_path (url_path url) (ck_path c);
  reach_secure : ck_secure c = true → url_scheme url = lit "https";
}.

Lemma path_match_spec r c : path_match r c = true ↔ below_path r c.
Proof.
  unfold path_match, below_path. rewrite orb_true_iff, andb_true_iff, orb_true_iff.
  unfold ends_with_char. rewrite !bool_decide_eq_true. split.
  - intros [?|[[rest ->] Hr]]; [by left|right]. exists rest. split; [done|].
    destruct Hr as [?|Hr]; [by left|right]. by rewrite lookup_app_r, Nat.sub_diag, <-head_lookup in Hr by lia.
  - intros [?|(rest & -> & Hr)]; [by left|right]. split; [by exists rest|].
    destruct Hr as [?|Hr]; [by left|right]. by rewrite lookup_app_r, Nat.sub_diag, <-head_lookup by lia.
Qed.

Lemma ends_with_char_spec c s : ends_with_char c s = true ↔ ∃ a, s = a ++ [c].
Proof. unfold ends_with_char. rewrite bool_decide_eq_true. apply last_Some. Qed.

Lemma domain_match_spec h only d :
  cookie_domain_matches_host h only d = true ↔ h = d ∨ only = false ∧ subdomain_of h d.
Proof.
  unfold cookie_domain_matches_host, subdomain_of. case_bool_decide as Hd; [tauto|].
  destruct only; [naive_solver|]. split.
  - intros Hm. right. split; [done|]. destruct h as [name| |], d as [parent| |]; try done.
    destruct (strip_suffix parent name) as [p|] eqn:Hs; [|done].
    apply strip_suffix_Some in Hs. apply ends_with_char_spec in Hm as [label ->].
    exists name, parent, label. by rewrite <-(assoc_L (++)) in Hs.
  - intros [?|(_ & name & parent & label & -> & -> & Hn)]; [done|].
    destruct (strip_suffix parent name) as [p|] eqn:Hs.
    + apply strip_suffix_Some in Hs. rewrite Hs, cons_middle, (assoc_L (++)) in Hn.
      apply app_inj_2 in Hn as [-> _]; [|done]. apply ends_with_char_spec. by exists label.
    + rewrite Hn, cons_middle, (assoc_L (++)) in Hs.
      by rewrite (proj2 (strip_suffix_Some parent _ (label ++ [46%N])) eq_refl) in Hs.
Qed.

Lemma visible_spec host url now c : visible host url now c = true ↔ reaches host url now c.
Proof.
  unfold visible, cookie_domain_matches, is_expired, is_https. rewrite !andb_true_iff.
  rewrite path_match_spec, !negb_true_iff, andb_false_iff, negb_false_iff, bool_decide_eq_true. split.
  - intros [[[He Hd] Hp] Hs]. split; [|..|done|].
    + intros e Hc. by rewrite Hc in He.
    + destruct (Host_parse (ck_domain c)) as [d|]; [|done]. exists d. by rewrite domain_match_spec in Hd.
    + intros Hsec. destruct Hs; [congruence|done].
  - intros [He (d & Hd & Hm) Hp Hs]. split_and!; [| |done|].
    + destruct (ck_expires c); [auto|done].
    + rewrite Hd. by apply domain_match_spec.
    + destruct (ck_secure c); auto.
Qed.

(** The order of a header: longer paths first, then the older sequence number. *)
Definition header_before (a b : Cookie) : Prop :=
  (str_len (ck_path b) < str_len (ck_path a))%N ∨
  str_len (ck_path a) = str_len (ck_path b) ∧ (ck_seq a < ck_seq b)%N.

Lemma header_le_total a b : header_le a b = true ∨ header_le b a = true.
Proof. unfold header_le. rewrite !orb_true_iff, !andb_true_iff, !N.ltb_lt, !N.eqb_eq, !N.leb_le. lia. Qed.

Lemma header_le_trans a b c : header_le a b = true → header_le b c = true → header_le a c = true.
Proof. unfold header_le. rewrite !orb_true_iff, !andb_true_iff, !N.ltb_lt, !N.eqb_eq, !N.leb_le. lia. Qed.

Lemma StronglySorted_strict {A} (R S : A → A → Prop) l :
  NoDup l → (∀ a b, a ∈ l → b ∈ l → a ≠ b → R a b → S a b) →
  StronglySorted R l → StronglySorted S l.
Proof.
  intros Hnd Himp Hs. induction Hs as [|x l Hs IH Hx]; constructor.
  - apply NoDup_cons in Hnd as [_ Hnd]. apply IH; [done|]. intros a b Ha Hb. apply Himp; by right.
  - apply NoDup_cons in Hnd as [Hn _]. rewrite Forall_forall in *. intros y Hy.
    apply Himp; [by left|by right| |auto]. by intros ->.
Qed.

(** A sorted selection of the jar, as both readers build it. *)
Lemma header_list j (P : Cookie → Prop) `{∀ c, Decision (P c)} :
  jar_wf j →
  let l := sort_by header_le (filter P (cookies j)) in
  (∀ c, c ∈ l ↔ c ∈ cookies j ∧ P c) ∧ StronglySorted header_before l.
Proof.
  intros Hwf l. pose proof (sort_by_Permutation header_le (filter P (cookies j))) as Hp.
  fold l in Hp. assert (∀ c, c ∈ l ↔ c ∈ cookies j ∧ P c) as Hin.
  { intros c. rewrite Hp, list_elem_of_filter. tauto. }
  split; [done|].
  eapply StronglySorted_strict; [| |apply (sort_by_Sorted _ header_le_total header_le_trans)].
  - fold l. rewrite Hp. apply NoDup_filter. by eapply NoDup_fmap_1, (wf_seqs j Hwf).
  - intros a b [Ha _]%Hin [Hb _]%Hin Hne. unfold header_le, header_before.
    rewrite orb_true_iff, andb_true_iff, N.ltb_lt, N.eqb_eq, N.leb_le.
    assert (ck_seq a ≠ ck_seq b).
    { intros Hs. apply list_elem_of_lookup in Ha as [i Hi], Hb as [k Hk].
      assert (i = k) as ->; [|congruence].
      eapply (NoDup_lookup _ _ _ (ck_seq a) (wf_seqs j Hwf)); rewrite list_lookup_fmap.
      - by rewrite Hi.
      - rewrite Hk. cbn. by rewrite Hs. }
    lia.
Qed.

(** ** What is stored *)

(** A cookie of this domain may be set from [host]. *)
Definition domain_allowed (host : Host) (domain : rstr) (host_only : bool) : Prop :=
  (host_only = true ∧ domain = Host_to_string host) ∨
  (host_only = false ∧ ∃ attr d, Host_parse attr = Some d ∧ domain = Host_to_string d ∧
     is_public_suffix d = false ∧ (host = d ∨ subdomain_of host d)).

Lemma cookie_domain_allowed host attr domain host_only :
  cookie_domain host attr = Some (domain, host_only) → domain_allowed host domain host_only.
Proof.
  unfold cookie_domain. destruct (Host_parse attr) as [d|] eqn:Hp; cbn; [|done].
  destruct (is_public_suffix d) eqn:Hs.
  - case_bool_decide as Hd; [|done]. subst d. intros [= <- <-]. by left.
  - destruct (cookie_domain_matches_host host false d) eqn:Hm; cbn; [|done].
    intros [= <- <-]. right. split; [done|]. exists attr, d. split_and!; [done..|].
    apply domain_match_spec in Hm. tauto.
Qed.

Lemma resolve_domain_allowed host a domain host_only :
  resolve_domain host a = Ok (domain, host_only) → domain_allowed host domain host_only.
Proof.
  unfold resolve_domain. destruct (at_domain a) as [d|].
  - intros Hc%ok_or_Ok. by apply cookie_domain_allowed in Hc.
  - intros [= <- <-]. by left.
Qed.

Lemma default_path_slash p : head (default_path p) = Some 47%N.
Proof.
  unfold default_path. case_bool_decide as Hp; cbn [orb]; [done|].
  destruct (starts_with_char 47 p) eqn:Hs; cbn [negb]; [|done].
  destruct (contains_char 47 (drop 1 p)) eqn:Hc; cbn [negb]; [|done].
  unfold starts_with_char, contains_char in *. rewrite bool_decide_eq_true in Hs, Hc.
  destruct p as [|x p]; [done|]. injection Hs as ->. cbn [drop] in Hc. cbn [before_last].
  destruct (before_last 47 p) as [a|] eqn:Hb; [done|]. by apply before_last_None in Hb.
Qed.

Lemma default_path_below p : head p = Some 47%N → below_path p (default_path p).
Proof.
  intros Hs. unfold default_path. destruct p as [|x p]; [done|]. injection Hs as ->.
  rewrite bool_decide_eq_false_2 by done.
  unfold starts_with_char. rewrite bool_decide_eq_true_2 by done. cbn [orb negb drop]. rewrite drop_0.
  destruct (contains_char 47 p) eqn:Hc; cbn [negb].
  - destruct (before_last 47 (47%N :: p)) as [a|] eqn:Hb.
    + apply before_last_Some in Hb as (b & Hab & _). right. exists (47%N :: b). split; [exact Hab|by right].
    + apply before_last_None in Hb. destruct Hb. by left.
  - right. exists p. auto.
Qed.

Lemma resolve_path_slash url a : head (resolve_path url a) = Some 47%N.
Proof.
  unfold resolve_path, starts_with_char. destruct (at_path a) as [p|]; [|apply default_path_slash].
  case_bool_decide; [done|apply default_path_slash].
Qed.

(** Everything that [set_cookie] guarantees of the cookie it built. *)
Record cookie_policy (host : Host) (url : Url) (from_http_response : bool) (c : Cookie) : Prop := {
  pol_name : ck_name c ≠ [];
  pol_domain : domain_allowed host (ck_domain c) (ck_host_only c);
  pol_path : head (ck_path c) = Some 47%N;
  pol_http_only : ck_http_only c = true → from_http_response = true;
  pol_secure : ck_secure c = true → url_scheme url = lit "https";
  pol_same_site : ck_same_site c = SameSiteNone → ck_secure c = true;
}.

Lemma parse_set_cookie_policy header url now http c :
  parse_set_cookie header url now http = Ok c →
  ∃ host, url_host url = Some host ∧ cookie_policy host url http c.
Proof.
  unfold parse_set_cookie. intros Hp.
  apply bind_Ok in Hp as ([name value] & Hpair & Hp).
  set (a := foldl attribute no_attributes (tail (split_char 59 header))) in *.
  apply bind_Ok in Hp as (host & Hhost%ok_or_Ok & Hp).
  apply bind_Ok in Hp as ([domain only] & Hdom & Hp).
  apply bind_unit_Ok in Hp as [Hhttp%throw_if_Ok Hp].
  apply bind_unit_Ok in Hp as [Hsec%throw_if_Ok Hp].
  apply bind_unit_Ok in Hp as [Hss%throw_if_Ok Hp]. injection Hp as <-.
  exists host. split; [done|]. split; cbn.
  - unfold parse_pair in Hpair. apply bind_Ok in Hpair as ([n v] & _ & Hpair).
    apply bind_unit_Ok in Hpair as [Hn%throw_if_Ok [= <- _]]. by rewrite bool_decide_eq_false in Hn.
  - by apply resolve_domain_allowed in Hdom.
  - apply resolve_path_slash.
  - intros Ha. rewrite Ha in Hhttp. by destruct http.
  - intros Ha. rewrite Ha in Hsec. cbn in Hsec. unfold is_https in Hsec.
    by rewrite negb_false_iff, bool_decide_eq_true in Hsec.
  - intros Ha. rewrite bool_decide_eq_true_2 in Hss by done. cbn in Hss. by rewrite negb_false_iff in Hss.
Qed.

(** The cookie of an identity in the jar after [upsert]: the new one, but for its creation,
    access time and sequence number. *)
Definition stored_as (c c' : Cookie) : Prop :=
  ∃ seq created access, c' = set_last_access access (set_seq seq (set_created created c)).

Lemma upsert_stores now c j : jar_wf j → ∃ c', c' ∈ cookies (upsert now c j) ∧ stored_as c c'.
Proof.
  intros Hwf. destruct (upsert_upserted now c j Hwf) as [i old Hi Hid|kept Hn Hl Hk]; cbn.
  - exists (renewed now c old). split; [|by do 3 eexists].
    eapply list_elem_of_insert, lookup_lt_Some, Hi.
  - exists (fresh now c j). split; [set_solver|]. exists (next_seq j), (ck_created c), now. by destruct c.
Qed.

(** The domain a cookie was set with is one its host matches. *)
Lemma domain_allowed_matches `{!PlatformLaws} host domain host_only :
  (∃ s, Host_parse s = Some host) → domain_allowed host domain host_only →
  ∃ d, Host_parse domain = Some d ∧ (host = d ∨ host_only = false ∧ subdomain_of host d).
Proof.
  intros [s Hs] [[-> ->]|(-> & attr & d & Hd & -> & _ & Hm)].
  - exists host. split; [by eapply parse_printed|by left].
  - exists d. split; [by eapply parse_printed|tauto].
Qed.

(** ** The jar as a map *)

Definition jar_map (j : CookieJar) : gmap Identity Cookie :=
  list_to_map ((λ c, (identity c, c)) <$> cookies j).

Lemma lookup_jar_map j id c :
  jar_wf j → jar_map j !! id = Some c ↔ c ∈ cookies j ∧ identity c = id.
Proof.
  intros Hwf. unfold jar_map. rewrite <-elem_of_list_to_map.
  - rewrite list_elem_of_fmap. naive_solver.
  - rewrite <-list_fmap_compose. apply (wf_identities j Hwf).
Qed.

Lemma lookup_jar_map_None j id : jar_wf j → jar_map j !! id = None ↔ id ∉ (identity <$> cookies j).
Proof.
  intros Hwf. unfold jar_map. rewrite <-not_elem_of_list_to_map, <-list_fmap_compose. done.
Qed.

(** What a cookie says, without its creation time (which a renewal keeps). *)
Definition erase (s : CookieSnapshot) : CookieSnapshot :=
  {| cs_name := cs_name s; cs_value := cs_value s; cs_domain := cs_domain s;
     cs_host_only := cs_host_only s; cs_path := cs_path s; cs_expires_unix := cs_expires_unix s;
     cs_secure := cs_secure s; cs_http_only := cs_http_only s; cs_same_site := cs_same_site s;
     cs_creation_unix := 0 |}.
Definition content (c : Cookie) : CookieSnapshot := erase (snapshot_of c).
Definition jar_content (j : CookieJar) : gmap Identity CookieSnapshot := content <$> jar_map j.

Lemma jar_map_eq j j' :
  jar_wf j → jar_wf j' → (∀ c, c ∈ cookies j ↔ c ∈ cookies j') → jar_map j = jar_map j'.
Proof.
  intros Hj Hj' Hin. apply map_eq. intros id. apply option_eq. intros c.
  rewrite !lookup_jar_map by done. by rewrite Hin.
Qed.

(** The jar after an [upsert] as a map: the new cookie, and in a full jar the oldest is gone. *)
Lemma upserted_jar_map now c j j' :
  jar_wf j → jar_wf j' → upserted now c j j' →
  ∃ c' m, content c' = content c ∧ jar_map j' = <[identity c := c']> m ∧
    (m = jar_map j ∨ length (cookies j) = MAX_COOKIES ∧ ∃ oldest, m = delete (identity oldest) (jar_map j)).
Proof.
  intros Hwf Hwf' Hu. revert Hwf'. destruct Hu as [i old Hi Hid|kept Hid Hk Hkept]; intros Hwf'.
  - exists (renewed now c old), (jar_map j). split; [done|]. split; [|by left].
    apply map_eq. intros id. apply option_eq. intros d.
    rewrite lookup_jar_map, lookup_insert_Some, lookup_jar_map by done. cbn.
    rewrite list_elem_of_lookup. setoid_rewrite list_lookup_insert_Some. split.
    + intros [(k & [(<- & <- & _)|[Hne Hd]]) Hdi]; [by left|right].
      split; [|split; [by eapply list_elem_of_lookup_2|done]]. rewrite <-Hdi. intros Heq. apply Hne.
      eapply (NoDup_lookup _ _ _ (identity c) (wf_identities j Hwf)); rewrite list_lookup_fmap.
      * by rewrite Hi; cbn; rewrite Hid.
      * rewrite Hd. cbn. by rewrite <-Heq.
    + intros [[<- <-]|[Hne [Hd Hdi]]].
      * split; [|done]. exists i. left. split_and!; [done..|]. by eapply lookup_lt_Some.
      * split; [|done]. apply list_elem_of_lookup in Hd as [k Hd]. exists k. right. split; [|done].
        intros ->. apply Hne. rewrite <-Hdi, <-Hid. congruence.
  - set (j' := tick _) in *. assert (∀ m, (∀ d, m !! identity d = Some d ↔ d ∈ kept) → (∀ id d, m !! id = Some d → identity d = id) →
      jar_map j' = <[identity c := fresh now c j]> m) as Hmap.
    { intros m Hm Hkey. apply map_eq. intros id. apply option_eq. intros d.
      rewrite lookup_jar_map, lookup_insert_Some by done. cbn. rewrite elem_of_app, list_elem_of_singleton. split.
      - intros [[Hd| ->] <-]; [right|by left]. split; [|by apply Hm]. intros Heq. apply Hid. rewrite Heq.
        apply list_elem_of_fmap. exists d. split; [done|]. eapply elem_of_submseteq; [exact Hd|]. by apply kept_subset.
      - intros [[<- <-]|[_ Hd]]; [by split; [right|]|]. pose proof (Hkey _ _ Hd) as <-. split; [left; by apply Hm|done]. }
    destruct Hkept as [->|[Hmax (oldest & Hp & _)]].
    + exists (fresh now c j), (jar_map j). split; [done|]. split; [|by left]. apply Hmap.
      * intros d. rewrite lookup_jar_map by done. tauto.
      * by intros id d [_ ?]%lookup_jar_map.
    + exists (fresh now c j), (delete (identity oldest) (jar_map j)). split; [done|]. split; [|right; eauto].
      pose proof (wf_identities j Hwf) as Hnd. rewrite <-Hp in Hnd. cbn in Hnd. apply NoDup_cons in Hnd as [Hn _]. apply Hmap.
      * intros d. rewrite lookup_delete_Some, lookup_jar_map by done. rewrite <-Hp, elem_of_cons. split.
        -- intros (Hne & [->|Hd] & _); [done|exact Hd].
        -- intros Hd. split; [|tauto]. intros Heq. apply Hn. rewrite Heq. apply list_elem_of_fmap. eauto.
      * by intros id d [_ [_ ?]%lookup_jar_map]%lookup_delete_Some.
Qed.

Lemma upserted_length now c j j' : upserted now c j j' →
  (length (cookies j) ≤ length (cookies j') ≤ S (length (cookies j)))%nat.
Proof.
  intros [i old Hi Hid|kept Hid Hk Hkept]; cbn; [rewrite length_insert; lia|]. rewrite length_app. cbn.
  destruct Hkept as [->|[_ (o & Hp%Permutation_length & _)]]; cbn in *; lia.
Qed.

Lemma upsert_content_full now c j :
  jar_wf j → (next_seq j + 1 < 2 ^ 64)%N →
  ∃ m, jar_content (upsert now c j) = <[identity c := content c]> m ∧
    (m = jar_content j ∨ length (cookies j) = MAX_COOKIES ∧ ∃ oldest, m = delete (identity oldest) (jar_content j)).
Proof.
  intros Hwf Hn. pose proof (upsert_upserted now c j Hwf) as Hu. pose proof (upserted_wf now c j _ Hwf Hn Hu) as [Hwf' _].
  destruct (upserted_jar_map _ _ _ _ Hwf Hwf' Hu) as (c' & m & Hc & Hm & Hor). exists (content <$> m). unfold jar_content.
  split; [by rewrite Hm, fmap_insert, Hc|]. destruct Hor as [->|[? (o & ->)]]; [by left|]. right. split; [done|]. exists o. by rewrite fmap_delete.
Qed.

Lemma upsert_content now c j :
  jar_wf j → (next_seq j + 1 < 2 ^ 64)%N → (length (cookies j) < MAX_COOKIES)%nat →
  jar_content (upsert now c j) = <[identity c := content c]> (jar_content j) ∧
  (length (cookies (upsert now c j)) ≤ S (length (cookies j)))%nat.
Proof.
  intros Hwf Hn Hl. destruct (upsert_content_full now c j Hwf Hn) as (m & -> & [->|[? _]]); [|lia]. split; [done|].
  apply (upserted_length now c), upsert_upserted, Hwf.
Qed.

(** *** Membership after [upsert] *)

Lemma renewed_members now c old j i x :
  jar_wf j → cookies j !! i = Some old →
  x ∈ <[i := renewed now c old]> (cookies j) ↔ x = renewed now c old ∨ x ∈ cookies j ∧ x ≠ old.
Proof.
  intros Hwf Hi. rewrite list_elem_of_lookup. setoid_rewrite list_lookup_insert_Some. split.
  - intros (k & [(<- & -> & _)|[Hne Hk]]); [by left|right]. split; [by eapply list_elem_of_lookup_2|].
    intros ->. apply Hne.
    eapply (NoDup_lookup _ _ _ (identity old) (wf_identities j Hwf)); rewrite list_lookup_fmap.
    + by rewrite Hi.
    + by rewrite Hk.
  - intros [->|[Hx Hne]].
    + exists i. left. split_and!; [done..|]. by eapply lookup_lt_Some.
    + apply list_elem_of_lookup in Hx as [k Hk]. exists k. right. split; [|done]. intros ->. congruence.
Qed.

Lemma evicted_members now c oldest kept j :
  jar_wf j → oldest :: kept ≡ₚ cookies j →
  (∀ d, d ∈ cookies j → (ck_seq oldest ≤ ck_seq d)%N) →
  oldest ∈ cookies j ∧ (∀ x, x ∈ cookies j → x = oldest ∨ (ck_seq oldest < ck_seq x)%N) ∧
  ∀ x, x ∈ kept ++ [fresh now c j] ↔ x = fresh now c j ∨ x ∈ cookies j ∧ x ≠ oldest.
Proof.
  intros Hwf Hp Hmin. pose proof (wf_seqs j Hwf) as Hseqs. rewrite <-Hp in Hseqs.
  cbn in Hseqs. apply NoDup_cons in Hseqs as [Hn _].
  assert (∀ x, x ∈ kept → ck_seq x ≠ ck_seq oldest) as Hne.
  { intros x Hx Heq. apply Hn. apply list_elem_of_fmap. eauto. }
  assert (∀ x, x ∈ cookies j ↔ x = oldest ∨ x ∈ kept) as Hin.
  { intros x. by rewrite <-Hp, elem_of_cons. }
  split_and!.
  - apply Hin. by left.
  - intros x Hx. pose proof (Hmin x Hx). apply Hin in Hx as [->|Hx]; [by left|right].
    specialize (Hne x Hx). lia.
  - intros x. rewrite elem_of_app, list_elem_of_singleton, Hin. split.
    + intros [Hx| ->]; [right|by left]. split; [by right|]. intros ->. by apply (Hne oldest).
    + intros [->|[[->|Hx] ?]]; [by right|done|by left].
Qed.

Lemma same_site_spec cross_site method c :
  same_site_allows cross_site method c = true ↔
  (cross_site = true → ck_same_site c ≠ Strict ∧ (ck_same_site c = Lax → is_safe method = true)).
Proof.
  unfold same_site_allows. destruct cross_site; cbn; [|naive_solver].
  destruct (ck_same_site c); naive_solver.
Qed.

Lemma stored_policy host url http c c' :
  cookie_policy host url http c → stored_as c c' → cookie_policy host url http c'.
Proof. intros [] (q & t & a & ->). split; done. Qed.

Lemma MAX_COOKIES_small : (N.of_nat MAX_COOKIES < 2 ^ 64)%N.
Proof. apply N.ltb_lt. vm_compute. done. Qed.

(** *** Snapshots that a jar takes back unchanged *)

Definition canonical_cookie (c : Cookie) : Prop :=
  to_ascii_lowercase (ck_domain c) = ck_domain c ∧ ck_path c ≠ [].
Definition canonical_jar (j : CookieJar) : Prop := ∀ c, c ∈ cookies j → canonical_cookie c.

Lemma ascii_lower_idemp c : ascii_lower (ascii_lower c) = ascii_lower c.
Proof.
  unfold ascii_lower. destruct ((65 <=? c)%N && (c <=? 90)%N) eqn:Hc; [|by rewrite Hc].
  apply andb_true_iff in Hc as [H1 H2]. apply N.leb_le in H1, H2.
  destruct (N.leb_spec (c + 32) 90); [lia|]. by rewrite andb_false_r.
Qed.

Lemma cookie_from_snapshot_canonical s now c : cookie_from_snapshot s now = Some c → canonical_cookie c.
Proof.
  unfold cookie_from_snapshot. destruct (is_expired _ _); [done|]. intros [= <-]. split; cbn.
  - apply to_ascii_lowercase_idemp.
  - by case_bool_decide.
Qed.

Lemma upsert_canonical now c j :
  jar_wf j → canonical_jar j → canonical_cookie c → canonical_jar (upsert now c j).
Proof.
  intros Hwf Hj Hc d Hd. destruct (upsert_upserted now c j Hwf) as [i old Hi Hid|kept _ _ Hk]; cbn in Hd.
  - apply elem_of_list_insert_inv in Hd as [->|Hd]; [exact Hc|by apply Hj].
  - apply elem_of_app in Hd as [Hd|Hd%list_elem_of_singleton]; [|subst d; exact Hc].
    apply Hj. eapply elem_of_submseteq; [exact Hd|]. by apply kept_subset.
Qed.

Lemma upsert_snapshots_canonical now clock ss j :
  jar_wf j → (next_seq j + len ss < 2 ^ 64)%N → canonical_jar j →
  canonical_jar (upsert_snapshots now clock ss j).
Proof.
  revert j. induction ss as [|s ss IH]; intros j Hwf Hn Hj; cbn [upsert_snapshots]; [done|].
  rewrite len_cons in Hn. destruct (cookie_from_snapshot s now) as [c|] eqn:Hs.
  - destruct (upsert_wf (clock (length ss)) c j Hwf) as [Hwf' Hn']; [lia|].
    apply IH; [done|lia|]. apply upsert_canonical; [done..|].
    by eapply cookie_from_snapshot_canonical.
  - apply IH; [done|lia|done].
Qed.

(** The hosts of the URLs of a run were parsed. *)
Definition url_parsed (u : Url) : Prop := ∀ h, url_host u = Some h → ∃ s, Host_parse s = Some h.
Definition op_parsed (op : JarOp) : Prop :=
  match op with OpSetCookie _ url _ _ => url_parsed url | _ => True end.

Lemma jar_step_canonical `{!PlatformLaws} j op :
  jar_wf j → (next_seq j + op_cost op < 2 ^ 64)%N → op_parsed op →
  canonical_jar j → canonical_jar (jar_step j op).
Proof.
  intros Hwf Hn Hp Hj. destruct op; cbn [jar_step op_cost op_parsed] in *.
  - unfold set_cookie. destruct (parse_set_cookie _ _ _ _) as [c|e] eqn:Hc; [|done].
    apply upsert_canonical; [done..|].
    apply parse_set_cookie_policy in Hc as (host & Hh & Hpol). split.
    + destruct (Hp host Hh) as [s Hs]. destruct (pol_domain _ _ _ _ Hpol) as [[_ ->]|(_ & a & d & Hd & -> & _)].
      * by eapply printed_lowercase.
      * by eapply printed_lowercase.
    + intros Hnil. pose proof (pol_path _ _ _ _ Hpol) as Hs. by rewrite Hnil in Hs.
  - apply upsert_snapshots_canonical; [apply jar_new_wf|cbn; lia|]. by intros c ?%elem_of_nil.
  - apply upsert_snapshots_canonical; [by apply filter_wf|done|].
    intros c [_ Hc]%list_elem_of_filter. by apply Hj.
  - intros c [_ Hc]%list_elem_of_filter. by apply Hj.
  - unfold cookies_for. destruct (url_host url) as [host|]; cbn [fst]; [|done].
    intros c (d & -> & Hd)%list_elem_of_fmap. destruct (matching _ _ _ _ _ d); exact (Hj d Hd).
Qed.

Lemma jar_run_canonical `{!PlatformLaws} ops j n :
  jar_wf j → (next_seq j ≤ n)%N → (n + sumN op_cost ops < 2 ^ 64)%N → Forall op_parsed ops →
  canonical_jar j → canonical_jar (foldl jar_step j ops).
Proof.
  revert j n. induction ops as [|op ops IH]; intros j n Hwf Hn Hc Hp Hj; cbn [foldl]; [done|].
  rewrite sumN_cons in Hc. apply Forall_cons in Hp as [Hop Hp].
  destruct (jar_step_wf j op n Hwf Hn) as [Hwf' Hn']; [lia|].
  apply (IH _ (n + op_cost op)%N); [done|done|lia|done|].
  apply jar_step_canonical; [done|lia|done..].
Qed.

Definition canonical_snapshot (s : CookieSnapshot) : Prop :=
  to_ascii_lowercase (cs_domain s) = cs_domain s ∧ cs_path s ≠ [] ∧
  unix_timestamp <$> (cs_expires_unix s ≫= from_unix_timestamp) = cs_expires_unix s.

Lemma snapshot_of_canonical `{!PlatformLaws} c : canonical_cookie c → canonical_snapshot (snapshot_of c).
Proof.
  intros [Hd Hp]. split_and!; [done..|]. cbn. destruct (ck_expires c) as [t|]; cbn; [|done].
  destruct (from_unix t) as (t' & Ht & _). rewrite Ht. cbn. f_equal. by apply unix_from.
Qed.

Lemma from_canonical_snapshot s now c :
  canonical_snapshot s → cookie_from_snapshot s now = Some c →
  content c = erase s ∧ identity c = snapshot_identity s.
Proof.
  intros (Hd & Hp & He). unfold cookie_from_snapshot. destruct (is_expired _ _); [done|].
  intros [= <-]. unfold content, snapshot_of, erase, identity, snapshot_identity. cbn.
  by rewrite Hd, He, bool_decide_eq_false_2 by done.
Qed.

(** *** Maps of snapshots *)

Lemma snapshots_by_identity_keyed l id s :
  snapshots_by_identity l !! id = Some s → snapshot_identity s = id.
Proof.
  unfold snapshots_by_identity.
  assert (∀ m : gmap Identity CookieSnapshot, (∀ id s, m !! id = Some s → snapshot_identity s = id) →
    ∀ id s, (foldl (λ m s, <[snapshot_identity s := s]> m) m l) !! id = Some s → snapshot_identity s = id) as Hg.
  { induction l as [|x l IH]; intros m Hm; [done|]. cbn. apply IH. clear IH.
    intros i y [[<- <-]|[_ Hy]]%lookup_insert_Some; auto. }
  apply Hg. intros ?? Hl. by rewrite lookup_empty in Hl.
Qed.

Lemma lookup_snapshots_by_identity l id s :
  NoDup (snapshot_identity <$> l) →
  snapshots_by_identity l !! id = Some s ↔ s ∈ l ∧ snapshot_identity s = id.
Proof.
  unfold snapshots_by_identity.
  assert (∀ m : gmap Identity CookieSnapshot, NoDup (snapshot_identity <$> l) →
    (foldl (λ m s, <[snapshot_identity s := s]> m) m l) !! id = Some s ↔
    ((s ∈ l ∧ snapshot_identity s = id) ∨ ((id ∉ (snapshot_identity <$> l)) ∧ m !! id = Some s))) as Hg.
  { induction l as [|x l IH]; intros m Hnd.
    - split; [intros Hm; right; split; [apply not_elem_of_nil|done]|].
      intros [[Hs _]|[_ ?]]; [by apply elem_of_nil in Hs|done].
    - cbn [foldl fmap list_fmap] in *. apply NoDup_cons in Hnd as [Hx Hnd]. rewrite IH by done.
      rewrite elem_of_cons, not_elem_of_cons, lookup_insert_Some. split.
      + intros [[? ?]|[Hid [[<- <-]|[Hne Hm]]]]; [tauto|tauto|]. right. by split; [split|].
      + intros [[[->|Hs] <-]|[[Hne Hid] Hm]]; [|tauto|].
        * right. split; [done|]. by left.
        * right. split; [done|]. right. split; [|done]. by apply not_eq_sym. }
  intros Hnd. rewrite Hg by done. rewrite lookup_empty. naive_solver.
Qed.

Lemma identity_entries_Permutation m : identity_entries m ≡ₚ map_to_list m.
Proof. apply sort_by_Permutation. Qed.

Lemma snapshots_nodup now j : jar_wf j → NoDup (snapshot_identity <$> snapshots now j).
Proof.
  intros Hwf. unfold snapshots. rewrite <-list_fmap_compose.
  apply (wf_identities _ (filter_wf j (λ c, is_expired c now = false) Hwf)).
Qed.

Lemma elem_of_upserts base now w s :
  s ∈ upserts (delta_from_snapshots base now w) ↔
  ∃ id, snapshots_by_identity (snapshots now w) !! id = Some s ∧
        snapshots_by_identity base !! id ≠ Some s.
Proof.
  cbn. rewrite list_elem_of_fmap. setoid_rewrite list_elem_of_filter.
  setoid_rewrite identity_entries_Permutation. split.
  - intros ([id s'] & -> & Hne & Hin%elem_of_map_to_list). eauto.
  - intros (id & Hs & Hne). exists (id, s). by rewrite elem_of_map_to_list.
Qed.

Lemma upserts_nodup base now w : NoDup (snapshot_identity <$> upserts (delta_from_snapshots base now w)).
Proof.
  cbn. set (m := snapshots_by_identity (snapshots now w)).
  assert (NoDup (identity_entries m).*1) as Hnd.
  { rewrite identity_entries_Permutation. apply NoDup_fst_map_to_list. }
  assert (∀ kv, kv ∈ identity_entries m → snapshot_identity kv.2 = kv.1) as Hk.
  { intros [k s]. rewrite identity_entries_Permutation, elem_of_map_to_list.
    apply snapshots_by_identity_keyed. }
  set (P := λ kv, snapshots_by_identity base !! kv.1 ≠ Some kv.2).
  assert (snapshot_identity <$> (filter P (identity_entries m)).*2 = (filter P (identity_entries m)).*1) as ->.
  { rewrite <-list_fmap_compose. apply list_fmap_ext. intros i kv Hkv. apply Hk.
    apply list_elem_of_lookup_2 in Hkv. by apply list_elem_of_filter in Hkv as [_ ?]. }
  eapply NoDup_submseteq; [|exact Hnd]. apply fmap_submseteq, sublist_submseteq, sublist_filter.
Qed.

Lemma elem_of_removals base now w id :
  id ∈ removals (delta_from_snapshots base now w) ↔
  is_Some (snapshots_by_identity base !! id) ∧ snapshots_by_identity (snapshots now w) !! id = None.
Proof.
  cbn. rewrite list_elem_of_filter, list_elem_of_fmap. setoid_rewrite identity_entries_Permutation.
  split.
  - intros (Hn & [k s] & -> & Hin%elem_of_map_to_list). split; [by exists s|done].
  - intros ([s Hs] & Hn). split; [done|]. exists (id, s). by rewrite elem_of_map_to_list.
Qed.

(** *** Merging *)

(** The effect of a list of snapshots with distinct identities on the jar's content. *)
Lemma upsert_snapshots_content now clock ss j :
  jar_wf j → (next_seq j + len ss < 2 ^ 64)%N → (length (cookies j) + length ss ≤ MAX_COOKIES)%nat →
  NoDup (snapshot_identity <$> ss) → Forall canonical_snapshot ss →
  ∀ id, jar_content (upsert_snapshots now clock ss j) !! id =
    match list_find (λ s, snapshot_identity s = id) ss with
    | Some (_, s) => if decide (is_Some (cookie_from_snapshot s now)) then Some (erase s)
                     else jar_content j !! id
    | None => jar_content j !! id
    end.
Proof.
  revert j. induction ss as [|s ss IH]; intros j Hwf Hn Hl Hnd Hcan id; cbn [upsert_snapshots]; [done|].
  rewrite len_cons in Hn. cbn [length] in Hl. apply Forall_cons in Hcan as [Hs Hcan].
  apply NoDup_cons in Hnd as [Hid Hnd].
  assert (∀ id', id' = snapshot_identity s → list_find (λ s, snapshot_identity s = id') ss = None) as Hnone.
  { intros ? ->. apply list_find_None, Forall_forall. intros x Hx Heq. apply Hid.
    apply list_elem_of_fmap. eauto. }
  destruct (cookie_from_snapshot s now) as [c|] eqn:Hc.
  - destruct (from_canonical_snapshot s now c Hs Hc) as [Hcon Hci].
    destruct (upsert_wf (clock (length ss)) c j Hwf) as [Hwf' Hn']; [lia|].
    destruct (upsert_content (clock (length ss)) c j Hwf) as [Hm Hlen]; [lia..|].
    rewrite IH by (done || lia). rewrite Hm, Hcon, Hci. cbn [list_find].
    destruct (decide (snapshot_identity s = id)) as [<-|Hne].
    + rewrite Hnone by done. rewrite lookup_insert_eq. rewrite decide_True; [done|]. by rewrite Hc.
    + rewrite lookup_insert_ne by done. by destruct (list_find _ ss) as [[??]|].
  - rewrite IH by (done || lia). cbn [list_find].
    destruct (decide (snapshot_identity s = id)) as [<-|Hne].
    + rewrite Hnone by done. rewrite decide_False; [done|]. rewrite Hc. apply is_Some_None.
    + by destruct (list_find _ ss) as [[??]|].
Qed.

Local Ltac find_rest := repeat match goal with H : list_find _ _ = None |- _ => clear H end; by destruct (list_find _ _) as [[??]|].

(** Without room for all of them, a cookie that is not where the snapshots put it has gone
    from a jar that is full. *)
Lemma upsert_snapshots_crowded now clock ss j :
  jar_wf j → (next_seq j + len ss < 2 ^ 64)%N →
  NoDup (snapshot_identity <$> ss) → Forall canonical_snapshot ss →
  let j' := upsert_snapshots now clock ss j in
  (length (cookies j) ≤ length (cookies j'))%nat ∧
  ∀ id, jar_content j' !! id =
      match list_find (λ s, snapshot_identity s = id) ss with
      | Some (_, s) => if decide (is_Some (cookie_from_snapshot s now)) then Some (erase s) else jar_content j !! id
      | None => jar_content j !! id
      end ∨
    jar_content j' !! id = None ∧ length (cookies j') = MAX_COOKIES.
Proof.
  revert j. induction ss as [|s ss IH]; intros j Hwf Hn Hnd Hcan; cbn [upsert_snapshots]; [split; [lia|by left]|].
  rewrite len_cons in Hn. apply Forall_cons in Hcan as [Hs Hcan]. apply NoDup_cons in Hnd as [Hid Hnd].
  assert (list_find (λ x, snapshot_identity x = snapshot_identity s) ss = None) as Hnone.
  { apply list_find_None, Forall_forall. intros x Hx Heq. apply Hid. apply list_elem_of_fmap. eauto. }
  destruct (cookie_from_snapshot s now) as [c|] eqn:Hc.
  2: { destruct (IH j) as [Hl Hj]; [done|lia|done|done|]. split; [done|]. intros id. destruct (Hj id) as [->|]; [left|by right].
       cbn [list_find]. destruct (decide (snapshot_identity s = id)) as [<-|]; [|find_rest].
       rewrite Hnone, decide_False; [done|]. rewrite Hc. apply is_Some_None. }
  destruct (from_canonical_snapshot s now c Hs Hc) as [Hcon Hci].
  destruct (upsert_wf (clock (length ss)) c j Hwf) as [Hwf' Hn']; [lia|].
  destruct (upsert_content_full (clock (length ss)) c j Hwf) as (m & Hm & Hor); [lia|].
  pose proof (upserted_length _ _ _ _ (upsert_upserted (clock (length ss)) c j Hwf)) as Hlen.
  destruct (IH _ Hwf') as [Hl Hj]; [lia|done|done|]. cbn zeta in *. split; [lia|]. intros id. destruct (Hj id) as [->|]; [|by right].
  pose proof (upsert_snapshots_wf now clock ss _ Hwf') as [Hwf'' _]; [lia|]. rewrite Hm, Hcon, Hci. cbn [list_find].
  destruct (decide (snapshot_identity s = id)) as [<-|Hne].
  { left. rewrite Hnone, lookup_insert_eq, decide_True; [done|]. by rewrite Hc. }
  rewrite lookup_insert_ne by done. destruct Hor as [->|[Hmax (o & ->)]]; [left; find_rest|].
  destruct (decide (identity o = id)) as [<-|Ho]; [|rewrite lookup_delete_ne by done; left; find_rest].
  rewrite lookup_delete_eq. pose proof (wf_bound _ Hwf'') as Hb.
  assert (length (cookies (upsert_snapshots now clock ss (upsert (clock (length ss)) c j))) = MAX_COOKIES) as Hfull by lia.
  clear Hnone. destruct (list_find _ ss) as [[k x]|]; cbn; [case_decide; [by left|]|]; by right.
Qed.

(** Cookies are lost in the order of their age. *)
Definition older_than_all (q : N) (j : CookieJar) : Prop := (q < next_seq j)%N ∧ ∀ d, d ∈ cookies j → (q < ck_seq d)%N.

Lemma upserted_older now c j j' q : (next_seq j + 1 < 2 ^ 64)%N → upserted now c j j' → older_than_all q j → older_than_all q j'.
Proof.
  intros Hn [i old Hi Hid|kept Hid Hk Hkept] [Hq Hall]; unfold older_than_all; cbn.
  - split; [done|]. intros d [->|Hd]%elem_of_list_insert_inv; [|by apply Hall]. apply (Hall old). by eapply list_elem_of_lookup_2.
  - rewrite N.mod_small by done. split; [lia|]. intros d [Hd| ->%list_elem_of_singleton]%elem_of_app; [|exact Hq].
    apply Hall. eapply elem_of_submseteq; [exact Hd|]. by apply kept_subset.
Qed.
Lemma upserted_loses now c j j' x : jar_wf j → (next_seq j + 1 < 2 ^ 64)%N → upserted now c j j' → x ∈ cookies j →
  (∃ y, y ∈ cookies j' ∧ identity y = identity x ∧ ck_seq y = ck_seq x) ∨ older_than_all (ck_seq x) j'.
Proof.
  intros Hwf Hn [i old Hi Hid|kept Hid Hk Hkept] Hx.
  - left. pose proof (list_elem_of_lookup_2 _ _ _ Hi) as Ho. destruct (decide (identity x = identity old)) as [He|Hne].
    + apply identities_inj with (1 := Hwf) in He as ->; [|done..]. exists (renewed now c old). split; [apply (renewed_members _ _ _ _ _ _ Hwf Hi); by left|]. by rewrite Hid.
    + exists x. split; [apply (renewed_members _ _ _ _ _ _ Hwf Hi); right; split; [done|congruence]|done].
  - destruct Hkept as [->|[Hmax (oldest & Hp & Hmin)]]; [left; exists x; cbn; set_solver|].
    rewrite <-Hp in Hx. apply elem_of_cons in Hx as [->|Hx]; [right|left; exists x; cbn; set_solver].
    assert (oldest ∈ cookies j) as Ho by (rewrite <-Hp; by left). pose proof (wf_seqs j Hwf) as Hnd. rewrite <-Hp in Hnd. cbn in Hnd.
    apply NoDup_cons in Hnd as [Hns _]. pose proof (wf_next j Hwf oldest Ho) as Hlt. unfold older_than_all. cbn. rewrite N.mod_small by done.
    split; [lia|]. intros d [Hd| ->%list_elem_of_singleton]%elem_of_app; [|exact Hlt].
    assert (d ∈ cookies j) as Hdj by (rewrite <-Hp; by right). pose proof (Hmin d Hdj).
    assert (ck_seq d ≠ ck_seq oldest); [|lia]. intros Heq. apply Hns. rewrite <-Heq. apply list_elem_of_fmap. eauto.
Qed.
Lemma upsert_snapshots_older now clock ss j q : jar_wf j → (next_seq j + len ss < 2 ^ 64)%N → older_than_all q j →
  older_than_all q (upsert_snapshots now clock ss j).
Proof.
  revert j. induction ss as [|s ss IH]; intros j Hwf Hn Hq; cbn [upsert_snapshots]; [done|]. rewrite len_cons in Hn.
  destruct (cookie_from_snapshot s now) as [c|]; [|apply IH; [done|lia|done]].
  destruct (upsert_wf (clock (length ss)) c j Hwf) as [Hwf' Hn']; [lia|]. apply IH; [done|lia|].
  eapply upserted_older; [|by apply upsert_upserted|done]. lia.
Qed.
Lemma upsert_snapshots_loses now clock ss j x : jar_wf j → (next_seq j + len ss < 2 ^ 64)%N → x ∈ cookies j →
  let j' := upsert_snapshots now clock ss j in
  (∃ y, y ∈ cookies j' ∧ identity y = identity x ∧ ck_seq y = ck_seq x) ∨ older_than_all (ck_seq x) j'.
Proof.
  revert j x. induction ss as [|s ss IH]; intros j x Hwf Hn Hx; cbn [upsert_snapshots]; [left; by exists x|]. rewrite len_cons in Hn.
  destruct (cookie_from_snapshot s now) as [c|]; [|apply IH; [done|lia|done]].
  destruct (upsert_wf (clock (length ss)) c j Hwf) as [Hwf' Hn']; [lia|]. cbn zeta.
  destruct (upserted_loses _ _ _ _ x Hwf ltac:(lia) (upsert_upserted (clock (length ss)) c j Hwf) Hx) as [(y & Hy & Hi & Hs)|Hold].
  - destruct (IH _ y Hwf' ltac:(lia) Hy) as [(z & ? & ? & ?)|?]; [left; exists z|right]; by rewrite <-?Hi, <-Hs.
  - right. apply upsert_snapshots_older; [done|lia|done].
Qed.

Lemma filter_content j (Q : Cookie → Prop) (P : Identity → Prop)
    `{HQ : ∀ c, Decision (Q c), HP : ∀ id, Decision (P id)} id :
  jar_wf j → (∀ c, Q c ↔ P (identity c)) →
  jar_content (set_cookies (filter Q (cookies j)) j) !! id =
  if decide (P id) then jar_content j !! id else None.
Proof.
  intros Hwf HQP. pose proof (filter_wf j Q Hwf) as Hwf'.
  unfold jar_content. rewrite !lookup_fmap.
  assert (jar_map (set_cookies (filter Q (cookies j)) j) !! id =
          if decide (P id) then jar_map j !! id else None) as ->; [|by case_decide].
  apply option_eq. intros c. rewrite lookup_jar_map by done. cbn. rewrite list_elem_of_filter, HQP.
  case_decide as Hp.
  - rewrite lookup_jar_map by done. naive_solver.
  - naive_solver.
Qed.

(** The result of a merge at one identity. *)
Definition merged (base worker : option CookieSnapshot) (profile : option CookieSnapshot)
    (now : OffsetDateTime) : option CookieSnapshot :=
  if decide (worker = base) then profile
  else match worker with
       | None => None
       | Some s => if decide (is_Some (cookie_from_snapshot s now)) then Some (erase s) else profile
       end.

Lemma canonical_snapshots `{!PlatformLaws} now w : canonical_jar w → Forall canonical_snapshot (snapshots now w).
Proof.
  intros Hw. apply Forall_forall. intros s (c & -> & [_ Hc]%list_elem_of_filter)%list_elem_of_fmap.
  by apply snapshot_of_canonical, Hw.
Qed.

Lemma delta_upserts_canonical `{!PlatformLaws} base now w : jar_wf w → canonical_jar w →
  Forall canonical_snapshot (upserts (delta_from_snapshots base now w)).
Proof.
  intros Hw Hcw. pose proof (canonical_snapshots now w Hcw) as Hcan. rewrite Forall_forall in Hcan.
  apply Forall_forall. intros s (id' & Hs & _)%elem_of_upserts. apply Hcan.
  by apply lookup_snapshots_by_identity in Hs as [? _]; [|apply snapshots_nodup].
Qed.

(** What the upserts of a delta put over the profile's cookies without its removals *)
Lemma merged_placed base now w now' j id : jar_wf j →
  let d := delta_from_snapshots base now w in
  match list_find (λ s, snapshot_identity s = id) (upserts d) with
  | Some (_, s) => if decide (is_Some (cookie_from_snapshot s now')) then Some (erase s)
                   else jar_content (set_cookies (filter (λ c, identity c ∉ removals d) (cookies j)) j) !! id
  | None => jar_content (set_cookies (filter (λ c, identity c ∉ removals d) (cookies j)) j) !! id
  end = merged (snapshots_by_identity base !! id) (snapshots_by_identity (snapshots now w) !! id) (jar_content j !! id) now'.
Proof.
  intros Hj d. erewrite (filter_content j _ (λ id, id ∉ removals d)) by done.
  unfold merged. set (b := snapshots_by_identity base !! id).
  set (v := snapshots_by_identity (snapshots now w) !! id).
  assert (id ∈ removals d ↔ is_Some b ∧ v = None) as Hrem by apply elem_of_removals.
  destruct (list_find _ (upserts d)) as [[i s]|] eqn:Hf.
  - apply list_find_Some in Hf as (Hs & Hid & _). apply list_elem_of_lookup_2, elem_of_upserts in Hs.
    destruct Hs as (id' & Hs & Hne). rewrite (snapshots_by_identity_keyed _ _ _ Hs) in Hid. subst id'.
    fold v in Hs. fold b in Hne. rewrite (decide_False (P := v = b)) by congruence. rewrite Hs.
    case_decide; [done|]. rewrite decide_True; [done|]. rewrite Hrem. intros [_ ?]. congruence.
  - rewrite list_find_None, Forall_forall in Hf.
    case_decide as Hr.
    + case_decide as Heq; [done|]. destruct v as [s|] eqn:Hv.
      * exfalso. eapply (Hf s); [|by eapply snapshots_by_identity_keyed]. apply elem_of_upserts.
        exists id. split; [done|]. by apply not_eq_sym.
      * destruct Hr. apply Hrem. destruct b; [by eauto|done].
    + assert (is_Some b ∧ v = None) as [[s Hb] Hv].
      { apply Hrem. by destruct (decide (id ∈ removals d)). }
      rewrite decide_False by congruence. by rewrite Hv.
Qed.

(** *** Reloading *)

(** A snapshot that a jar takes back exactly. *)
Definition exact_snapshot (now : OffsetDateTime) (s : CookieSnapshot) : Prop :=
  ∃ c, cookie_from_snapshot s now = Some c ∧ snapshot_of c = s.

Lemma from_snapshot_unexpired s now c : cookie_from_snapshot s now = Some c → is_expired c now = false.
Proof. unfold cookie_from_snapshot. destruct (is_expired _ _) eqn:He; [done|]. by intros [= <-]. Qed.

Lemma snapshot_of_exact `{!PlatformLaws} c now :
  canonical_cookie c → is_Some (cookie_from_snapshot (snapshot_of c) now) →
  exact_snapshot now (snapshot_of c).
Proof.
  intros Hc [d Hd]. exists d. split; [done|].
  destruct (snapshot_of_canonical c Hc) as (Hdom & Hp & He).
  unfold cookie_from_snapshot in Hd. destruct (is_expired _ _); [done|]. injection Hd as <-.
  destruct (from_unix (ck_created c)) as (t & Ht & _).
  unfold snapshot_of in *.
  cbn [cs_name cs_value cs_domain cs_host_only cs_path cs_expires_unix cs_secure cs_http_only
       cs_same_site cs_creation_unix ck_name ck_value ck_domain ck_host_only ck_path ck_expires
       ck_created ck_secure ck_http_only ck_same_site] in *.
  rewrite Hdom, He, bool_decide_eq_false_2 by done. rewrite Ht. cbn.
  by rewrite (unix_from _ _ Ht).
Qed.

Lemma upsert_snapshots_exact now clock ss j :
  jar_wf j → (next_seq j + len ss < 2 ^ 64)%N → (length (cookies j) + length ss ≤ MAX_COOKIES)%nat →
  NoDup (snapshot_identity <$> ss) → (∀ s, s ∈ ss → snapshot_identity s ∉ (identity <$> cookies j)) →
  Forall (exact_snapshot now) ss →
  ∃ l, cookies (upsert_snapshots now clock ss j) = cookies j ++ l ∧ snapshot_of <$> l = ss ∧
       Forall (λ c, is_expired c now = false) l.
Proof.
  revert j. induction ss as [|s ss IH]; intros j Hwf Hn Hl Hnd Hdis Hex; cbn [upsert_snapshots].
  - exists []. by rewrite app_nil_r.
  - rewrite len_cons in Hn. cbn [length] in Hl. apply NoDup_cons in Hnd as [Hid Hnd].
    apply Forall_cons in Hex as [(c & Hc & Hs) Hex]. rewrite Hc.
    assert (identity c = snapshot_identity s) as Hcs by by rewrite <-Hs.
    pose proof (upsert_wf (clock (length ss)) c j Hwf) as [Hwf' Hn']; [lia|].
    assert (cookies (upsert (clock (length ss)) c j) = cookies j ++ [fresh (clock (length ss)) c j]) as Hu.
    { destruct (upsert_upserted (clock (length ss)) c j Hwf) as [i old Hi Hold|kept _ _ [->|[Hmax _]]].
      - destruct (Hdis s); [by left|]. apply list_elem_of_fmap. exists old. split; [congruence|].
        by eapply list_elem_of_lookup_2.
      - done.
      - lia. }
    destruct (IH (upsert (clock (length ss)) c j)) as (l & Hlist & Hsnap & Hexp); [done|lia| |done| |done|].
    + rewrite Hu, length_app. cbn. lia.
    + intros s' Hs' Hin. rewrite Hu, fmap_app, elem_of_app in Hin. cbn in Hin.
      destruct Hin as [Hin|Hin%list_elem_of_singleton].
      * apply (Hdis s'); [by right|done].
      * apply Hid. apply list_elem_of_fmap. exists s'. split; [|done]. rewrite <-Hcs. done.
    + exists (fresh (clock (length ss)) c j :: l). rewrite Hlist, Hu, <-(assoc_L (++)). split; [done|].
      split; [cbn; rewrite Hsnap, <-Hs; done|]. constructor; [|done].
      exact (from_snapshot_unexpired s now c Hc).
Qed.
End jar.

(** * The properties of the cookie jar

    The theorems of the jar with their witnesses, and two behaviours that the comments of the
    source do not announce. *)

#[local] Opaque MAX_COOKIES.

(** C13. The jar's invariant: after any sequence of [set_cookie], [replace_with_snapshots],
    [apply_delta], [purge_expired] and [cookies_for], the jar holds at most [MAX_COOKIES]
    cookies, no two with the same name, domain and path, with distinct sequence numbers below
    the counter (as long as the counter does not wrap), and every stored domain is lower case
    and every stored path non-empty. *)
Theorem jar_invariant `{PlatformLaws} ops :
  (sumN op_cost ops < 2 ^ 64)%N → Forall op_parsed ops →
  jar_wf (foldl jar_step CookieJar_new ops) ∧ canonical_jar (foldl jar_step CookieJar_new ops).
Proof.
  intros Hc Hp. split.
  - apply (jar_run_wf ops _ 0); [apply jar_new_wf|cbn; lia|done].
  - apply (jar_run_canonical ops _ 0); [apply jar_new_wf|cbn; lia|done..|]. by intros c ?%elem_of_nil.
Qed.

(** [upsert] renews the cookie with the same name, domain and path in place, keeping its
    creation time and its place in the queue; a new cookie joins a jar that has room, and takes
    the place of the oldest cookie of a full one.  Nothing else changes. *)
Theorem upsert_fifo `{Platform} now c j :
  jar_wf j → (next_seq j + 1 < 2 ^ 64)%N →
  let j' := upsert now c j in
  (∃ old, old ∈ cookies j ∧ identity old = identity c ∧
     ∀ x, x ∈ cookies j' ↔ x = renewed now c old ∨ x ∈ cookies j ∧ x ≠ old) ∨
  (identity c ∉ (identity <$> cookies j)) ∧
  ((length (cookies j) < MAX_COOKIES)%nat ∧ (∀ x, x ∈ cookies j' ↔ x = fresh now c j ∨ x ∈ cookies j) ∨
   length (cookies j) = MAX_COOKIES ∧ ∃ oldest, oldest ∈ cookies j ∧
     (∀ x, x ∈ cookies j → x = oldest ∨ (ck_seq oldest < ck_seq x)%N) ∧
     ∀ x, x ∈ cookies j' ↔ x = fresh now c j ∨ x ∈ cookies j ∧ x ≠ oldest).
Proof.
  intros Hwf Hn. cbn zeta. destruct (upsert_upserted now c j Hwf) as [i old Hi Hid|kept Hid Hk Hkept].
  - left. exists old. split; [by eapply list_elem_of_lookup_2|]. split; [done|]. intros x.
    by apply renewed_members.
  - right. split; [done|]. destruct Hkept as [->|(Hmax & oldest & Hp & Hmin)].
    + left. split; [done|]. intros x. cbn. rewrite elem_of_app, list_elem_of_singleton. tauto.
    + right. split; [done|]. exists oldest. by apply evicted_members.
Qed.

(** The [Cookie] header of a request lists exactly the stored cookies that are unexpired,
    whose domain and path the URL lies in, which are not [Secure] on an insecure URL, and,
    cross-site, neither [Strict] nor ([Lax] with an unsafe method); longer paths come first,
    then the older cookie. *)
Theorem cookies_for_header `{Platform} url host cross_site method now j :
  jar_wf j → url_host url = Some host →
  ∃ l, (cookies_for url cross_site method now j).2 = join (lit "; ") (pair_text <$> l) ∧
    (∀ c, c ∈ l ↔ c ∈ cookies j ∧ reaches host url now c ∧
       (cross_site = true → ck_same_site c ≠ Strict ∧ (ck_same_site c = Lax → is_safe method = true))) ∧
    StronglySorted header_before l.
Proof.
  intros Hwf Hu. unfold cookies_for. rewrite Hu. cbn [snd].
  destruct (header_list j (λ c, matching host url cross_site method now c = true) Hwf) as [Hin Hs].
  eexists. split; [reflexivity|]. split; [|exact Hs].
  intros c. rewrite Hin. unfold matching. rewrite andb_true_iff, visible_spec, same_site_spec. done.
Qed.

(** [document.cookie] reads exactly the cookies that reach the URL and are not [HttpOnly],
    in the order of the header; [SameSite] does not matter. *)
Theorem document_cookie_reads `{Platform} url host now j :
  jar_wf j → url_host url = Some host →
  ∃ l, document_cookie_string url now j = join (lit "; ") (pair_text <$> l) ∧
    (∀ c, c ∈ l ↔ c ∈ cookies j ∧ ck_http_only c = false ∧ reaches host url now c) ∧
    StronglySorted header_before l.
Proof.
  intros Hwf Hu. unfold document_cookie_string. rewrite Hu.
  destruct (header_list j (λ c, negb (ck_http_only c) && visible host url now c = true) Hwf) as [Hin Hs].
  eexists. split; [reflexivity|]. split; [|exact Hs].
  intros c. rewrite Hin, andb_true_iff, visible_spec, negb_true_iff. done.
Qed.

(** C12. The gates of [set_cookie] fail closed.  An error stores nothing.  On success the jar
    stores a cookie with a name, a path from the root, and a domain that the host is in and
    that is no public suffix; it is [HttpOnly] only if it came in an HTTP response, [Secure]
    only over https, and [SameSite=None] only if [Secure]. *)
Theorem set_cookie_policy `{Platform} header url http clock j :
  jar_wf j →
  match set_cookie header url http clock j with
  | (j', Err _) => j' = j
  | (j', Ok _) => ∃ host c c', url_host url = Some host ∧ c' ∈ cookies j' ∧ stored_as c c' ∧
                     cookie_policy host url http c'
  end.
Proof.
  intros Hwf. unfold set_cookie. destruct (parse_set_cookie _ _ _ _) as [c|e] eqn:Hp; [|done].
  apply parse_set_cookie_policy in Hp as (host & Hh & Hpol).
  destruct (upsert_stores (clock 1) c j Hwf) as (c' & Hin & Hst).
  exists host, c, c'. split_and!; [done..|]. by apply (stored_policy _ _ _ c).
Qed.

(** A cookie that was accepted comes back: unless it expired, the URL that set it reaches
    it, provided the URL lies in its path; without a usable [Path] attribute it always does. *)
Theorem set_cookie_comes_back `{PlatformLaws} header url http now host c later :
  url_parsed url → head (url_path url) = Some 47%N → url_host url = Some host →
  parse_set_cookie header url now http = Ok c →
  is_expired c later = false →
  ck_path c = default_path (url_path url) ∨ below_path (url_path url) (ck_path c) →
  visible host url later c = true.
Proof.
  intros Hparsed Hslash Hu Hp Hexp Hpath.
  apply parse_set_cookie_policy in Hp as (host' & Hh & Hpol). rewrite Hu in Hh. injection Hh as <-.
  apply visible_spec. split.
  - intros e He. unfold is_expired in Hexp. by rewrite He in Hexp.
  - apply domain_allowed_matches; [by apply Hparsed|apply Hpol].
  - destruct Hpath as [->|?]; [by apply default_path_below|done].
  - apply Hpol.
Qed.

(** C14. Merging a fetch task's jar: the delta between the snapshots that seeded the task and its
    jar is to give, at every name, domain and path, the profile's cookie where the task changed
    nothing, no cookie where the task removed it, and otherwise the task's cookie (unless it
    expired meanwhile).  It gives exactly that if the profile's jar has room for what the task
    stored.  In a jar that is full, and only there, cookies are missing besides, whether the
    task touched them or not: of the profile's cookies only those older than every cookie that
    the jar holds in the end.  The jar's sequence numbers must not run out. *)
Theorem delta_merges `{PlatformLaws} base now w now' clock j :
  let d := delta_from_snapshots base now w in
  let j' := apply_delta d now' clock j in
  let result id := merged (snapshots_by_identity base !! id) (snapshots_by_identity (snapshots now w) !! id)
                     (jar_content j !! id) now' in
  jar_wf w → canonical_jar w → jar_wf j → (next_seq j + len (upserts d) < 2 ^ 64)%N →
  ((length (filter (λ c, identity c ∉ removals d) (cookies j)) + length (upserts d) ≤ MAX_COOKIES)%nat →
     ∀ id, jar_content j' !! id = result id) ∧
  (∀ id, jar_content j' !! id = result id ∨ jar_content j' !! id = None ∧ length (cookies j') = MAX_COOKIES) ∧
  (∀ c, c ∈ cookies j → identity c ∉ removals d → identity c ∉ (identity <$> cookies j') →
     ∀ c', c' ∈ cookies j' → (ck_seq c < ck_seq c')%N).
Proof.
  intros d j' result Hw Hcw Hj Hn. pose proof (filter_wf j (λ c, identity c ∉ removals d) Hj) as Hwf.
  pose proof (upserts_nodup base now w) as Hnd. pose proof (delta_upserts_canonical base now w Hw Hcw) as Hcan. split_and!.
  - intros Hl id. unfold result. rewrite <-merged_placed by done. by apply upsert_snapshots_content.
  - intros id. unfold result. rewrite <-merged_placed by done.
    by apply (upsert_snapshots_crowded now' clock (upserts d) _ Hwf Hn Hnd Hcan).
  - intros c Hc Hkept Hgone. destruct (upsert_snapshots_loses now' clock (upserts d) _ c Hwf Hn) as [(y & Hy & Hid & _)|[_ ?]]; [| |done].
    + apply list_elem_of_filter. done.
    + destruct Hgone. rewrite <-Hid. apply list_elem_of_fmap. by exists y.
Qed.

(** Persisting and reloading: a jar loaded from the snapshots of another gives the same
    snapshots again, in the same order, as long as none expires between. *)
Theorem snapshots_round_trip `{PlatformLaws} j now now' clock :
  jar_wf j → canonical_jar j →
  (∀ s, s ∈ snapshots now j → is_Some (cookie_from_snapshot s now')) →
  snapshots now' (from_snapshots (snapshots now j) now' clock) = snapshots now j.
Proof.
  intros Hwf Hcan Hlive. unfold from_snapshots, replace_with_snapshots.
  pose proof (filter_wf j (λ c, is_expired c now = false) Hwf) as Hwf'.
  pose proof (wf_bound _ Hwf') as Hb. cbn in Hb.
  destruct (upsert_snapshots_exact now' clock (snapshots now j) {| cookies := []; next_seq := 0 |})
    as (l & Hl & Hs & He).
  - apply jar_new_wf.
  - unfold len, snapshots. rewrite length_fmap. cbn [next_seq].
    pose proof MAX_COOKIES_small. lia.
  - unfold snapshots. rewrite length_fmap. cbn. lia.
  - by apply snapshots_nodup.
  - intros s _. apply not_elem_of_nil.
  - apply Forall_forall. intros s Hin. pose proof (Hlive s Hin) as Hsome. unfold snapshots in Hin.
    apply list_elem_of_fmap in Hin as (c & -> & [_ Hc]%list_elem_of_filter).
    apply snapshot_of_exact; [by apply Hcan|done].
  - unfold snapshots at 1. rewrite Hl. cbn [app cookies].
    by rewrite list_filter_all.
Qed.

(** ** A concrete platform *)

(** Hosts are names, instants are seconds, and the last label is the public suffix. *)
Definition toy_platform : Platform :=
  {| Host_parse s := match s with [] => None | _ => Some (Domain (to_ascii_lowercase s)) end;
     Host_to_string h := match h with Domain name => name | Ipv4 a | Ipv6 a => dec a end;
     psl_suffix s := Some (match split_once 46 (reverse s) with
                           | Some (suffix, _) => reverse suffix
                           | None => s
                           end);
     psl_domain s := Some s;
     OffsetDateTime := Z;
     odt_leb := Z.leb;
     from_unix_timestamp := Some;
     unix_timestamp t := t;
     checked_add_seconds t n := Some (t + n)%Z;
     unix_epoch := 0%Z |}.
#[local] Existing Instance toy_platform.

#[local] Instance toy_laws : PlatformLaws.
Proof.
  split; cbn.
  - intros a b. rewrite !Z.leb_le. lia.
  - intros a b c. rewrite !Z.leb_le. lia.
  - by intros s t [= ->].
  - intros t. exists t. by rewrite Z.leb_refl.
  - intros [|x s] h [= <-]. cbn. do 2 f_equal. apply (to_ascii_lowercase_idemp (x :: s)).
  - intros [|x s] h [= <-]. apply (to_ascii_lowercase_idemp (x :: s)).
Defined.

Definition toy_url : Url :=
  {| url_host := Some (Domain (lit "www.example.com")); url_path := lit "/shop/cart";
     url_scheme := lit "https" |}.
Definition toy_clock (t : @OffsetDateTime toy_platform) : nat → @OffsetDateTime toy_platform := λ _, t.
Definition toy_header : rstr := lit "id=7; Domain=example.com; Path=/shop; Secure; HttpOnly; Max-Age=60".
Definition toy_jar : CookieJar := (set_cookie toy_header toy_url true (toy_clock 100%Z) CookieJar_new).1.
Definition toy_cookie : Cookie :=
  {| ck_name := lit "id"; ck_value := lit "7"; ck_domain := lit "example.com"; ck_host_only := false;
     ck_path := lit "/shop"; ck_expires := Some 160%Z; ck_created := 100%Z; ck_last_access := 100%Z;
     ck_secure := true; ck_http_only := true; ck_same_site := Lax; ck_seq := 0 |}.

Example toy_jar_holds : cookies toy_jar = [toy_cookie].
Proof. vm_compute. reflexivity. Qed.

Lemma toy_parsed : url_parsed toy_url.
Proof. intros h [= <-]. by exists (lit "www.example.com"). Qed.

Lemma toy_jar_wf : jar_wf toy_jar ∧ canonical_jar toy_jar.
Proof.
  assert (canonical_jar toy_jar) as Hc.
  { intros c Hc. rewrite toy_jar_holds in Hc. apply list_elem_of_singleton in Hc as ->. done. }
  split; [|done]. split.
  - rewrite toy_jar_holds. apply NoDup_singleton.
  - rewrite toy_jar_holds. pose proof MAX_COOKIES_pos. cbn. lia.
  - rewrite toy_jar_holds. apply NoDup_singleton.
  - intros c Hin. rewrite toy_jar_holds in Hin. apply list_elem_of_singleton in Hin as ->. done.
Qed.

Example jar_invariant_witness :
  let ops := [OpSetCookie toy_header toy_url true (toy_clock 100%Z); OpPurge 200%Z] in
  (sumN op_cost ops < 2 ^ 64)%N ∧ Forall op_parsed ops ∧ jar_wf (foldl jar_step CookieJar_new ops).
Proof.
  cbn zeta. split; [done|].
  assert (Forall op_parsed [OpSetCookie toy_header toy_url true (toy_clock 100%Z); OpPurge 200%Z]) as Hp
    by (repeat constructor; apply toy_parsed).
  split; [exact Hp|]. eapply (@jar_invariant toy_platform toy_laws _ _ Hp).
  Unshelve. done.
Defined.

Example upsert_fifo_witness :
  jar_wf toy_jar ∧ (next_seq toy_jar + 1 < 2 ^ 64)%N ∧
  ∃ old, old ∈ cookies toy_jar ∧ identity old = identity toy_cookie.
Proof.
  split; [apply toy_jar_wf|]. split; [done|].
  destruct (@upsert_fifo toy_platform 120%Z toy_cookie toy_jar (proj1 toy_jar_wf) eq_refl) as [(old & Hin & Hid & _)|[Hn _]].
  - by exists old.
  - exfalso. apply Hn. rewrite toy_jar_holds. by left.
Defined.

Example cookies_for_header_witness :
  jar_wf toy_jar ∧ (cookies_for toy_url false Get 120%Z toy_jar).2 = lit "id=7" ∧
  ∃ l, lit "id=7" = join (lit "; ") (pair_text <$> l) ∧ ∀ c, c ∈ l → c ∈ cookies toy_jar.
Proof.
  split; [apply toy_jar_wf|]. split; [vm_compute; reflexivity|].
  destruct (@cookies_for_header toy_platform toy_url _ false Get 120%Z toy_jar (proj1 toy_jar_wf) eq_refl)
    as (l & Hl & Hin & _).
  exists l. split; [rewrite <-Hl; vm_compute; reflexivity|]. intros c Hc. by apply Hin.
Defined.

Example document_cookie_reads_witness :
  jar_wf toy_jar ∧ document_cookie_string toy_url 120%Z toy_jar = [] ∧
  ∃ l, [] = join (lit "; ") (pair_text <$> l) ∧ ∀ c, c ∈ l → ck_http_only c = false.
Proof.
  split; [apply toy_jar_wf|]. split; [vm_compute; reflexivity|].
  destruct (@document_cookie_reads toy_platform toy_url _ 120%Z toy_jar (proj1 toy_jar_wf) eq_refl) as (l & Hl & Hin & _).
  exists l. split; [rewrite <-Hl; vm_compute; reflexivity|]. intros c Hc. by apply Hin.
Defined.

Example set_cookie_policy_witness :
  jar_wf toy_jar ∧
  (set_cookie toy_header toy_url false (toy_clock 100%Z) toy_jar).2 = Err HttpOnlyFromScript ∧
  (set_cookie toy_header toy_url false (toy_clock 100%Z) toy_jar).1 = toy_jar.
Proof.
  split; [apply toy_jar_wf|]. split; [vm_compute; reflexivity|].
  pose proof (@set_cookie_policy toy_platform toy_header toy_url false (toy_clock 100%Z) toy_jar (proj1 toy_jar_wf)) as Hp.
  assert ((set_cookie toy_header toy_url false (toy_clock 100%Z) toy_jar).2 = Err HttpOnlyFromScript) as He
    by (vm_compute; reflexivity).
  destruct (set_cookie toy_header toy_url false (toy_clock 100%Z) toy_jar) as [j' r]. cbn in *.
  subst r. exact Hp.
Defined.

Example set_cookie_comes_back_witness :
  parse_set_cookie toy_header toy_url 100%Z true = Ok toy_cookie ∧
  is_expired toy_cookie 120%Z = false ∧
  visible (Domain (lit "www.example.com")) toy_url 120%Z toy_cookie = true.
Proof.
  assert (parse_set_cookie toy_header toy_url 100%Z true = Ok toy_cookie) as Hp by (vm_compute; reflexivity).
  split; [exact Hp|]. split; [reflexivity|].
  apply (@set_cookie_comes_back toy_platform toy_laws toy_header toy_url true 100%Z (Domain (lit "www.example.com")) toy_cookie 120%Z).
  - exact toy_parsed.
  - reflexivity.
  - reflexivity.
  - exact Hp.
  - reflexivity.
  - right. right. exists (lit "/cart"). split; [reflexivity|]. right. reflexivity.
Defined.

(** A task that started from an empty profile and stored one cookie, merged into a profile that
    is still empty. *)
Example delta_merges_witness :
  let d := delta_from_snapshots [] 120%Z toy_jar in
  length (upserts d) = 1%nat ∧
  jar_content (apply_delta d 130%Z (toy_clock 130%Z) CookieJar_new) !! identity toy_cookie =
    Some (content toy_cookie).
Proof.
  cbn zeta. split; [vm_compute; reflexivity|].
  destruct (@delta_merges toy_platform toy_laws [] 120%Z toy_jar 130%Z (toy_clock 130%Z) CookieJar_new) as [Hroom _].
  - apply toy_jar_wf.
  - apply toy_jar_wf.
  - apply (jar_new_wf 0).
  - vm_compute. reflexivity.
  - rewrite Hroom; [vm_compute; reflexivity|]. pose proof MAX_COOKIES_pos.
    assert (length (upserts (@delta_from_snapshots toy_platform [] 120%Z toy_jar)) = 1%nat) as ->
      by (vm_compute; reflexivity).
    cbn. lia.
Defined.

Example snapshots_round_trip_witness :
  jar_wf toy_jar ∧ canonical_jar toy_jar ∧
  snapshots 130%Z (from_snapshots (snapshots 120%Z toy_jar) 130%Z (toy_clock 130%Z)) = snapshots 120%Z toy_jar.
Proof.
  split; [apply toy_jar_wf|]. split; [apply toy_jar_wf|].
  apply (@snapshots_round_trip toy_platform toy_laws toy_jar 120%Z 130%Z (toy_clock 130%Z)).
  - apply toy_jar_wf.
  - apply toy_jar_wf.
  - intros s Hs. unfold snapshots in Hs. rewrite toy_jar_holds in Hs.
    apply list_elem_of_singleton in Hs as ->. vm_compute. by eexists.
Defined.

(** ** Behaviours the comments do not announce *)

(** A write from script replaces an [HttpOnly] cookie of the same name, domain and path. *)
Example script_replaces_http_only :
  let j := (set_cookie (lit "sid=secret; HttpOnly") toy_url true (toy_clock 1%Z) CookieJar_new).1 in
  let '(j', r) := set_cookie (lit "sid=forged") toy_url false (toy_clock 2%Z) j in
  ck_http_only <$> cookies j = [true] ∧ r = Ok tt ∧
  document_cookie_string toy_url 3%Z j = [] ∧ document_cookie_string toy_url 3%Z j' = lit "sid=forged".
Proof. vm_compute. done. Qed.

(** The order of eviction does not survive persistence: after one eviction the snapshots list
    the youngest survivor first, so a reloaded jar evicts it before the older ones. *)
Definition plain_cookie (n : N) : Cookie :=
  {| ck_name := [n]; ck_value := []; ck_domain := lit "example.com"; ck_host_only := true;
     ck_path := lit "/"; ck_expires := None; ck_created := 0%Z; ck_last_access := 0%Z;
     ck_secure := false; ck_http_only := false; ck_same_site := Lax; ck_seq := 0 |}.
Definition crowded_jar : CookieJar :=
  foldl (λ j n, upsert 0%Z (plain_cookie (N.of_nat n)) j) CookieJar_new (seq 0 513).
Definition oldest_name (j : CookieJar) : option rstr :=
  '(i, _) ← min_seq (cookies j); ck_name <$> cookies j !! i.

Example reload_changes_eviction_order :
  oldest_name crowded_jar = Some [1%N] ∧
  oldest_name (from_snapshots (snapshots 0%Z crowded_jar) 0%Z (toy_clock 0%Z)) = Some [511%N].
Proof. vm_compute. done. Qed.

(** The merge of a task that stored one cookie drops an unrelated one from a full jar. *)
Example merge_drops_unrelated :
  let d := delta_from_snapshots [] 120%Z toy_jar in
  let has j := bool_decide (is_Some (find_identity (identity (plain_cookie 1)) (cookies j))) in
  removals d = [] ∧ cs_name <$> upserts d = [lit "id"] ∧
  has crowded_jar = true ∧ has (apply_delta d 130%Z (toy_clock 130%Z) crowded_jar) = false.
Proof. vm_compute. done. Qed.

(** An [Expires] date without a time, on a day that does not exist, is accepted. *)
Example expires_without_time :
  cookie_date_seconds (lit "31 Feb 2001") = cookie_date_seconds (lit "3 Mar 2001 00:00:00") ∧
  is_Some (cookie_date_seconds (lit "31 Feb 2001")).
Proof. vm_compute. split; [done|by eexists]. Qed.
