(* ===== verification/StructuredClone.v ===== *)
(** * Structured clone

    [crates/vixen-engine/src/structured_clone.rs], definitions only: the tree of serializable
    values, the transfer list and its validation, [clone], [is_cloneable] and
    [detach_transferred].  A [u64] is an [N], a [HashSet] a [gset]. *)

From stdpp Require Import base decidable gmap sets list strings.
From S2P Require Import Prelude.
From S2P Require Import RustFloat.

(** ** Data *)

Abbreviation PortId := N (only parsing).

Record Buffer : Type := { buf_id : N; buf_shared : bool; buf_detached : bool }.

Inductive Transferable : Type :=
| TMessagePort (id : PortId)
| TArrayBuffer (id : N)
| TSharedArrayBuffer (id : N).
#[export] Instance Transferable_eq_dec : EqDecision Transferable.
Proof. solve_decision. Defined.

Inductive ErrorKind : Type :=
| KError | KEvalError | KRangeError | KReferenceError | KSyntaxError | KTypeError | KUriError.

Definition error_kind_name (k : ErrorKind) : rstr :=
  match k with
  | KError => lit "Error"
  | KEvalError => lit "EvalError"
  | KRangeError => lit "RangeError"
  | KReferenceError => lit "ReferenceError"
  | KSyntaxError => lit "SyntaxError"
  | KTypeError => lit "TypeError"
  | KUriError => lit "URIError"
  end.

Inductive StructuredCloneValue : Type :=
| VUndefined
| VNull
| VBoolean (b : bool)
| VNumber (x : f64)
| VBigInt (s : rstr)
| VString (s : rstr)
| VDate (x : f64)
| VArray (items : list StructuredCloneValue)
| VObject (entries : list (rstr * StructuredCloneValue))
| VMap (entries : list (StructuredCloneValue * StructuredCloneValue))
| VSet (items : list StructuredCloneValue)
| VArrayBuffer (buf : Buffer)
| VMessagePort (id : PortId)
| VError (kind : ErrorKind) (message stack : rstr)
| VPlatformObject (name : rstr).

Inductive DataCloneError : Type :=
| NotCloneable (what : rstr)
| UnsupportedPlatformObject (name : rstr)
| DuplicateTransferable
| DetachedTransferable
| UnreachableTransferable
| SharedBufferRequiresIsolation.

(** ** The walks *)

Fixpoint is_cloneable (known_platform_types : gset rstr) (value : StructuredCloneValue) : bool :=
  match value with
  | VUndefined | VNull | VBoolean _ | VNumber _ | VBigInt _ | VString _ | VDate _ => true
  | VArray items => forallb (λ v, is_cloneable known_platform_types v) items
  | VObject entries => forallb (λ '(_, v), is_cloneable known_platform_types v) entries
  | VMap entries =>
      forallb (λ '(k, v), is_cloneable known_platform_types k && is_cloneable known_platform_types v) entries
  | VSet items => forallb (λ v, is_cloneable known_platform_types v) items
  | VArrayBuffer _ | VMessagePort _ => true
  | VError _ _ _ => true
  | VPlatformObject name => bool_decide (name ∈ known_platform_types)
  end.

(** [leak_name] returns its argument. *)
Fixpoint clone_inner (known_platform_types : gset rstr) (value : StructuredCloneValue) :
    result DataCloneError StructuredCloneValue :=
  match value with
  | VUndefined | VNull | VBoolean _ | VNumber _ | VBigInt _ | VString _ | VDate _ => Ok value
  | VArray items =>
      out ← collect (λ v, clone_inner known_platform_types v) items; Ok (VArray out)
  | VObject entries =>
      out ← collect (λ '(k, v), v' ← clone_inner known_platform_types v; Ok (k, v')) entries;
      Ok (VObject out)
  | VMap entries =>
      out ← collect (λ '(k, v), k' ← clone_inner known_platform_types k;
                                v' ← clone_inner known_platform_types v; Ok (k', v')) entries;
      Ok (VMap out)
  | VSet items =>
      out ← collect (λ v, clone_inner known_platform_types v) items; Ok (VSet out)
  | VArrayBuffer buf =>
      _ ← throw_if (buf_detached buf) DetachedTransferable;
      Ok (VArrayBuffer buf)
  | VMessagePort id => Ok (VMessagePort id)
  | VError kind message stack => Ok (VError kind message stack)
  | VPlatformObject name =>
      if bool_decide (name ∈ known_platform_types) then Ok (VPlatformObject name)
      else Err (UnsupportedPlatformObject name)
  end.

(** ** Transfer lists *)

(** The first repetition of a handle fails; [seen] is the set of those before. *)
Fixpoint validate_transfer_list_loop (seen transfer : list Transferable) : result DataCloneError unit :=
  match transfer with
  | [] => Ok tt
  | handle :: transfer =>
      if bool_decide (handle ∈ seen) then Err DuplicateTransferable
      else validate_transfer_list_loop (handle :: seen) transfer
  end.
Definition validate_transfer_list (transfer : list Transferable) : result DataCloneError unit :=
  validate_transfer_list_loop [] transfer.

Fixpoint contains_port (id : PortId) (value : StructuredCloneValue) : bool :=
  match value with
  | VMessagePort p => (p =? id)%N
  | VArray items => existsb (λ v, contains_port id v) items
  | VObject entries => existsb (λ '(_, v), contains_port id v) entries
  | VMap entries => existsb (λ '(k, v), contains_port id k || contains_port id v) entries
  | VSet items => existsb (λ v, contains_port id v) items
  | _ => false
  end.

Fixpoint contains_buffer (id : N) (shared : bool) (value : StructuredCloneValue) : bool :=
  match value with
  | VArrayBuffer buf => (buf_id buf =? id)%N && Bool.eqb (buf_shared buf) shared
  | VArray items => existsb (λ v, contains_buffer id shared v) items
  | VObject entries => existsb (λ '(_, v), contains_buffer id shared v) entries
  | VMap entries => existsb (λ '(k, v), contains_buffer id shared k || contains_buffer id shared v) entries
  | VSet items => existsb (λ v, contains_buffer id shared v) items
  | _ => false
  end.

Definition transfer_reachable (value : StructuredCloneValue) (handle : Transferable) : bool :=
  match handle with
  | TMessagePort id => contains_port id value
  | TArrayBuffer id => contains_buffer id false value
  | TSharedArrayBuffer id => contains_buffer id true value
  end.

Fixpoint contains_buffer_kind (shared : bool) (value : StructuredCloneValue) : bool :=
  match value with
  | VArrayBuffer buf => Bool.eqb (buf_shared buf) shared && negb (buf_detached buf)
  | VArray items => existsb (λ v, contains_buffer_kind shared v) items
  | VObject entries => existsb (λ '(_, v), contains_buffer_kind shared v) entries
  | VMap entries => existsb (λ '(k, v), contains_buffer_kind shared k || contains_buffer_kind shared v) entries
  | VSet items => existsb (λ v, contains_buffer_kind shared v) items
  | _ => false
  end.

Definition contains_shared_buffer (value : StructuredCloneValue) (transfer : list Transferable) : bool :=
  if existsb (λ handle, match handle with
                        | TSharedArrayBuffer id => contains_buffer id true value
                        | _ => false
                        end) transfer
  then false
  else contains_buffer_kind true value.

(** ** The algorithm *)

Definition clone (value : StructuredCloneValue) (transfer : list Transferable)
    (cross_origin_isolated : bool) (known_platform_types : gset rstr) :
    result DataCloneError StructuredCloneValue :=
  _ ← validate_transfer_list transfer;
  _ ← for_each (λ _ handle, throw_if (negb (transfer_reachable value handle)) UnreachableTransferable)
        tt transfer;
  _ ← throw_if (negb cross_origin_isolated && contains_shared_buffer value transfer)
        SharedBufferRequiresIsolation;
  clone_inner known_platform_types value.

Fixpoint detach_inner (to_detach : gset N) (value : StructuredCloneValue) : StructuredCloneValue :=
  match value with
  | VArrayBuffer buf =>
      if bool_decide (buf_id buf ∈ to_detach)
      then VArrayBuffer {| buf_id := buf_id buf; buf_shared := buf_shared buf; buf_detached := true |}
      else value
  | VArray items => VArray (map (λ v, detach_inner to_detach v) items)
  | VObject entries => VObject (map (λ '(k, v), (k, detach_inner to_detach v)) entries)
  | VMap entries => VMap (map (λ '(k, v), (detach_inner to_detach k, detach_inner to_detach v)) entries)
  | VSet items => VSet (map (λ v, detach_inner to_detach v) items)
  | _ => value
  end.

Definition array_buffer_id (handle : Transferable) : option N :=
  match handle with TArrayBuffer id => Some id | _ => None end.

Definition detach_transferred (value : StructuredCloneValue) (transfer : list Transferable) :
    StructuredCloneValue :=
  detach_inner (list_to_set (omap array_buffer_id transfer)) value.
