(* ===== verification/StructuredCloneFacts.v ===== *)
(** * Structured clone: theorems

    Every walk of the module is a test or a map over the nodes of the tree in preorder, so the
    properties speak of the nodes. *)

From Stdlib Require Import Lia.
From stdpp Require Import base decidable gmap sets list strings.
From S2P Require Import Prelude.
From S2P Require Import RustFloat.
From S2P Require Import StructuredClone.

(** ** Nodes in preorder *)

Fixpoint nodes (v : StructuredCloneValue) : list StructuredCloneValue :=
  v :: match v with
       | VArray items | VSet items => flat_map nodes items
       | VObject entries => flat_map (λ '(_, v), nodes v) entries
       | VMap entries => flat_map (λ '(k, v), nodes k ++ nodes v) entries
       | _ => []
       end.

Definition children (v : StructuredCloneValue) : list StructuredCloneValue :=
  match v with
  | VArray items | VSet items => items
  | VObject entries => entries.*2
  | VMap entries => flat_map (λ '(k, v), [k; v]) entries
  | _ => []
  end.

(** Induction over the tree: a value from its children. *)
Section induction.
Context (P : StructuredCloneValue → Prop) (step : ∀ v, Forall P (children v) → P v).

Fixpoint value_ind' (v : StructuredCloneValue) : P v.
Proof.
  apply step. destruct v as [| | |?|?|?|?|items|entries|entries|items|?|?|? ? ?|?]; cbn; try constructor.
  - induction items as [|x items IH]; constructor; [apply value_ind'|exact IH].
  - induction entries as [|[k x] entries IH]; cbn; constructor; [apply value_ind'|exact IH].
  - induction entries as [|[k x] entries IH]; cbn; [constructor|].
    constructor; [apply value_ind'|]. constructor; [apply value_ind'|exact IH].
  - induction items as [|x items IH]; constructor; [apply value_ind'|exact IH].
Defined.
End induction.

Lemma nodes_children v : nodes v = v :: flat_map nodes (children v).
Proof.
  destruct v as [| | |?|?|?|?|items|entries|entries|items|?|?|? ? ?|?]; cbn; try done; f_equal.
  - induction entries as [|[k x] entries IH]; cbn; [done|]. by rewrite IH.
  - induction entries as [|[k x] entries IH]; cbn; [done|]. by rewrite IH, <-(assoc_L app).
Qed.

(** A walk that ORs (ANDs) a test of each node is a test of the list of nodes. *)
Lemma walk_any f own :
  (∀ v, f v = own v || existsb f (children v)) → ∀ v, f v = existsb own (nodes v).
Proof.
  intros Hf v. induction v as [v IH] using value_ind'. rewrite Hf, nodes_children. cbn. f_equal.
  induction IH as [|x l Hx Hl IHl]; cbn; [done|]. by rewrite existsb_app, Hx, IHl.
Qed.

Lemma walk_all f own :
  (∀ v, f v = own v && forallb f (children v)) → ∀ v, f v = forallb own (nodes v).
Proof.
  intros Hf v. induction v as [v IH] using value_ind'. rewrite Hf, nodes_children. cbn. f_equal.
  induction IH as [|x l Hx Hl IHl]; cbn; [done|]. by rewrite forallb_app, Hx, IHl.
Qed.

Lemma existsb_snd {A B} (f : B → bool) (l : list (A * B)) :
  existsb (λ '(_, v), f v) l = existsb f l.*2.
Proof. induction l as [|[k x] l IH]; cbn; [done|]. by rewrite IH. Qed.

Lemma existsb_pairs {A} (f : A → bool) (l : list (A * A)) :
  existsb (λ '(k, v), f k || f v) l = existsb f (flat_map (λ '(k, v), [k; v]) l).
Proof. induction l as [|[k x] l IH]; cbn; [done|]. by rewrite IH, orb_assoc. Qed.

Lemma forallb_snd {A B} (f : B → bool) (l : list (A * B)) :
  forallb (λ '(_, v), f v) l = forallb f l.*2.
Proof. induction l as [|[k x] l IH]; cbn; [done|]. by rewrite IH. Qed.

Lemma forallb_pairs {A} (f : A → bool) (l : list (A * A)) :
  forallb (λ '(k, v), f k && f v) l = forallb f (flat_map (λ '(k, v), [k; v]) l).
Proof. induction l as [|[k x] l IH]; cbn; [done|]. by rewrite IH, andb_assoc. Qed.

Ltac walk_tac :=
  intros []; cbn; rewrite ?existsb_snd, ?existsb_pairs, ?forallb_snd, ?forallb_pairs,
    ?orb_false_r, ?andb_true_r; reflexivity.

Definition is_port (id : PortId) (v : StructuredCloneValue) : bool :=
  match v with VMessagePort p => (p =? id)%N | _ => false end.
Definition is_buffer (p : Buffer → bool) (v : StructuredCloneValue) : bool :=
  match v with VArrayBuffer b => p b | _ => false end.
Definition has_id (id : N) (shared : bool) (b : Buffer) : bool :=
  (buf_id b =? id)%N && Bool.eqb (buf_shared b) shared.
Definition is_live (shared : bool) (b : Buffer) : bool :=
  Bool.eqb (buf_shared b) shared && negb (buf_detached b).
Definition platform_known (known : gset rstr) (v : StructuredCloneValue) : bool :=
  match v with VPlatformObject name => bool_decide (name ∈ known) | _ => true end.

Lemma contains_port_nodes id v : contains_port id v = existsb (is_port id) (nodes v).
Proof. apply walk_any. walk_tac. Qed.

Lemma contains_buffer_nodes id shared v :
  contains_buffer id shared v = existsb (is_buffer (has_id id shared)) (nodes v).
Proof. apply walk_any. walk_tac. Qed.

Lemma contains_buffer_kind_nodes shared v :
  contains_buffer_kind shared v = existsb (is_buffer (is_live shared)) (nodes v).
Proof. apply walk_any. walk_tac. Qed.

Lemma is_cloneable_nodes known v : is_cloneable known v = forallb (platform_known known) (nodes v).
Proof. apply walk_all. walk_tac. Qed.

(** The node that a transfer handle names. *)
Definition names (h : Transferable) (v : StructuredCloneValue) : Prop :=
  match h, v with
  | TMessagePort id, VMessagePort p => p = id
  | TArrayBuffer id, VArrayBuffer b => buf_id b = id ∧ buf_shared b = false
  | TSharedArrayBuffer id, VArrayBuffer b => buf_id b = id ∧ buf_shared b = true
  | _, _ => False
  end.

Lemma existsb_nodes p v : existsb p (nodes v) = true ↔ ∃ w, w ∈ nodes v ∧ p w = true.
Proof. rewrite existsb_exists. by setoid_rewrite list_elem_of_In. Qed.

Lemma transfer_reachable_spec v h : transfer_reachable v h = true ↔ ∃ w, w ∈ nodes v ∧ names h w.
Proof.
  unfold transfer_reachable.
  destruct h as [id|id|id]; rewrite ?contains_port_nodes, ?contains_buffer_nodes, existsb_nodes;
    apply exist_proper; intros w; unfold is_port, is_buffer, has_id;
    (destruct w; cbn; [intuition congruence..| | | |]); try (intuition congruence);
    rewrite ?andb_true_iff, ?N.eqb_eq, ?eqb_true_iff; done.
Qed.

(** ** [clone_inner] *)

(** What is wrong with a node. *)
Definition node_error (known : gset rstr) (v : StructuredCloneValue) : option DataCloneError :=
  match v with
  | VArrayBuffer b => if buf_detached b then Some DetachedTransferable else None
  | VPlatformObject name => if bool_decide (name ∈ known) then None else Some (UnsupportedPlatformObject name)
  | _ => None
  end.

Definition first_error {A : Type} (known : gset rstr) (l : list StructuredCloneValue) (a : A) :
    result DataCloneError A :=
  match omap (node_error known) l with [] => Ok a | e :: _ => Err e end.

Lemma omap_cons_eq {A B} (f : A → option B) x l :
  omap f (x :: l) = match f x with Some y => y :: omap f l | None => omap f l end.
Proof. done. Qed.

Lemma collect_first_error {A : Type} (known : gset rstr) (f : A → result DataCloneError A)
    (ns : A → list StructuredCloneValue) l :
  Forall (λ x, f x = first_error known (ns x) x) l →
  collect f l = first_error known (flat_map ns l) l.
Proof.
  induction 1 as [|x l Hx Hl IH]; cbn; [done|]. rewrite Hx, IH. unfold first_error.
  rewrite omap_app. by destruct (omap _ (ns x)), (omap _ (flat_map ns l)).
Qed.

Lemma clone_inner_spec known v : clone_inner known v = first_error known (nodes v) v.
Proof.
  induction v as [v IH] using value_ind'.
  destruct v as [| | |?|?|?|?|items|entries|entries|items|b|?|? ? ?|name]; cbn [clone_inner children] in *;
    try done; rewrite ?(collect_first_error known _ nodes) by done.
  - cbn [nodes]. unfold first_error. rewrite omap_cons_eq. cbn. by destruct (omap _ _).
  - rewrite (collect_first_error known _ (λ '(_, v), nodes v)).
    + cbn [nodes]. unfold first_error. rewrite omap_cons_eq. cbn. by destruct (omap _ _).
    + apply Forall_fmap in IH. eapply Forall_impl; [exact IH|]. intros [k x]. cbn. intros ->.
      unfold first_error. by destruct (omap _ _).
  - rewrite (collect_first_error known _ (λ '(k, v), nodes k ++ nodes v)).
    + cbn [nodes]. unfold first_error. rewrite omap_cons_eq. cbn. by destruct (omap _ _).
    + induction entries as [|[k x] entries IHe]; [constructor|].
      cbn in IH. inversion IH as [|? ? Hk IH' E1]; subst. inversion IH' as [|? ? Hx IH'' E2]; subst.
      constructor; [|by apply IHe]. rewrite Hk, Hx. unfold first_error. rewrite omap_app.
      by destruct (omap _ (nodes k)), (omap _ (nodes x)).
  - cbn [nodes]. unfold first_error. rewrite omap_cons_eq. cbn. by destruct (omap _ _).
  - unfold first_error. cbn. by destruct (buf_detached b).
  - unfold first_error. cbn. by case_bool_decide.
Qed.

Lemma first_error_Ok {A : Type} (known : gset rstr) l (a b : A) :
  first_error known l a = Ok b ↔ b = a ∧ ∀ w, w ∈ l → node_error known w = None.
Proof.
  unfold first_error. destruct (omap (node_error known) l) as [|e es] eqn:He.
  - split; [|naive_solver]. intros [= <-]. split; [done|]. intros w Hw.
    destruct (node_error known w) as [e|] eqn:E; [|done].
    assert (e ∈ omap (node_error known) l) as Hin by (apply list_elem_of_omap; eauto).
    rewrite He in Hin. by apply elem_of_nil in Hin.
  - split; [done|]. intros [_ Hall].
    assert (e ∈ omap (node_error known) l) as Hin by (rewrite He; left).
    apply list_elem_of_omap in Hin as (w & Hw & Ew). by rewrite (Hall w Hw) in Ew.
Qed.

(** ** [clone] *)

Lemma validate_transfer_list_loop_Ok seen t u :
  validate_transfer_list_loop seen t = Ok u ↔ NoDup t ∧ ∀ h, h ∈ t → h ∉ seen.
Proof.
  destruct u. revert seen. induction t as [|h t IH]; intros seen; cbn.
  - split; [|done]. intros _. split; [constructor|]. by intros h ?%elem_of_nil.
  - case_bool_decide as Hh; [|rewrite IH, NoDup_cons; set_solver].
    split; [done|]. intros [_ H]. exfalso. by apply (H h); [left|].
Qed.

Lemma validate_transfer_list_Ok t u : validate_transfer_list t = Ok u ↔ NoDup t.
Proof. unfold validate_transfer_list. rewrite validate_transfer_list_loop_Ok. set_solver. Qed.

Lemma contains_shared_buffer_false v t :
  (∀ h, h ∈ t → transfer_reachable v h = true) →
  (∀ b, VArrayBuffer b ∈ nodes v → buf_detached b = false) →
  contains_shared_buffer v t = false ↔
  (∃ id, TSharedArrayBuffer id ∈ t) ∨ ∀ b, VArrayBuffer b ∈ nodes v → buf_shared b = false.
Proof.
  intros Hr Hd. unfold contains_shared_buffer. destruct (existsb _ t) eqn:He.
  - split; [|done]. intros _. left. apply existsb_exists in He as (h & Hh%list_elem_of_In & E).
    destruct h as [id|id|id]; try done. by exists id.
  - rewrite contains_buffer_kind_nodes, <-not_true_iff_false, existsb_nodes. split.
    + intros Hn. right. intros b Hb. apply not_true_iff_false. intros Hs. apply Hn.
      exists (VArrayBuffer b). split; [done|]. unfold is_buffer, is_live. by rewrite Hs, (Hd b Hb).
    + intros [[id Hid]|Hs].
      * exfalso. apply not_true_iff_false in He. apply He. apply existsb_exists.
        exists (TSharedArrayBuffer id). split; [by apply list_elem_of_In|]. apply (Hr _ Hid).
      * intros (w & Hw & E). destruct w; cbn in E; try done. unfold is_live in E.
        by rewrite (Hs _ Hw) in E.
Qed.

Lemma clone_Ok v t iso known v' :
  clone v t iso known = Ok v' ↔
  NoDup t ∧ (∀ h, h ∈ t → transfer_reachable v h = true) ∧
  (iso = true ∨ contains_shared_buffer v t = false) ∧
  v' = v ∧ ∀ w, w ∈ nodes v → node_error known w = None.
Proof.
  unfold clone. rewrite bind_unit_Ok, validate_transfer_list_Ok, bind_unit_Ok, for_each_unit_Ok,
    bind_unit_Ok, throw_if_Ok, clone_inner_spec, first_error_Ok, Forall_forall, andb_false_iff, negb_false_iff.
  setoid_rewrite throw_if_Ok. setoid_rewrite negb_false_iff. tauto.
Qed.

Lemma clone_accepts v t iso known v' :
  clone v t iso known = Ok v' ↔
  v' = v ∧ NoDup t ∧ (∀ h, h ∈ t → ∃ w, w ∈ nodes v ∧ names h w) ∧
  (∀ w, w ∈ nodes v → node_error known w = None) ∧
  (iso = true ∨ (∃ id, TSharedArrayBuffer id ∈ t) ∨ ∀ b, VArrayBuffer b ∈ nodes v → buf_shared b = false).
Proof.
  rewrite clone_Ok. setoid_rewrite <-transfer_reachable_spec. split.
  - intros (Hnd & Hr & Hs & -> & Hn). split_and!; try done.
    destruct Hs as [->|Hs]; [by left|]. right. apply contains_shared_buffer_false in Hs; [done..|].
    intros b Hb. specialize (Hn _ Hb). cbn in Hn. by destruct (buf_detached b).
  - intros (-> & Hnd & Hr & Hn & Hs). split_and!; try done.
    destruct Hs as [->|Hs]; [by left|]. right. apply contains_shared_buffer_false; [done| |done].
    intros b Hb. specialize (Hn _ Hb). cbn in Hn. by destruct (buf_detached b).
Qed.

(** A shared buffer of the value that is to be cloned and not transferred: what closes the gate *)
Definition unlisted (v : StructuredCloneValue) (t : list Transferable) (b : Buffer) : Prop :=
  VArrayBuffer b ∈ nodes v ∧ buf_shared b = true ∧ TSharedArrayBuffer (buf_id b) ∉ t.

(** C15. [clone] is the identity on the values it accepts, and it accepts exactly when no handle
    is listed twice, every listed handle names a node of the value, every node can be cloned
    (no detached buffer, no unknown platform object), and the isolation gate is open: outside
    cross-origin isolation every shared buffer of the value must be in the transfer list.
    That is so if the list names none or all of them.  If it names one and leaves out another,
    the gate is to stay closed and stands open, which is a bug of the code: [clone] accepts as
    in an isolated context. *)
Theorem clone_accepts_iff v t iso known v' :
  let sound := v' = v ∧ NoDup t ∧ (∀ h, h ∈ t → ∃ w, w ∈ nodes v ∧ names h w) ∧
                 (∀ w, w ∈ nodes v → node_error known w = None) in
  ((∀ id, TSharedArrayBuffer id ∈ t → ∀ b, ¬ unlisted v t b) →
     (clone v t iso known = Ok v' ↔ sound ∧ (iso = true ∨ ∀ b, ¬ unlisted v t b))) ∧
  (∀ id b, TSharedArrayBuffer id ∈ t → unlisted v t b → (clone v t iso known = Ok v' ↔ sound)).
Proof.
  intros sound. split.
  - intros Hall. rewrite clone_accepts. split.
    + intros (? & ? & ? & ? & Hgate). split; [done|]. destruct Hgate as [|[[id Hid]|Hn]]; [by left|right; by eapply Hall|].
      right. intros b (Hb & Hs & _). rewrite (Hn b Hb) in Hs. done.
    + intros [(? & ? & ? & ?) Hgate]. split_and!; [done..|]. destruct Hgate as [|Hn]; [by left|right].
      assert ((∃ id, TSharedArrayBuffer id ∈ t) ∨ ∀ id, TSharedArrayBuffer id ∉ t) as [?|Hnone]; [|by left|right].
      { clear. induction t as [|[] t IH]; [by right; intros ? ?%elem_of_nil|set_solver..]. }
      intros b Hb. destruct (buf_shared b) eqn:Hs; [|done]. by destruct (Hn b).
  - intros id b Hid _. rewrite clone_accepts. split; [intros (? & ? & ? & ? & _); done|]. intros (? & ? & ? & ?). split_and!; [done..|].
    right. left. by exists id.
Qed.

(** ** [detach_transferred] *)

Lemma nodes_detach ids v : nodes (detach_inner ids v) = map (detach_inner ids) (nodes v).
Proof.
  induction v as [v IH] using value_ind'.
  destruct v as [| | |?|?|?|?|items|entries|entries|items|b|?|? ? ?|name]; cbn [children] in IH;
    try done; cbn [detach_inner nodes map].
  - f_equal. induction IH as [|x l Hx Hl IHl]; cbn; [done|]. by rewrite map_app, Hx, IHl.
  - f_equal. induction entries as [|[k x] l IHl]; cbn; [done|].
    inversion IH as [|? ? Hx IH']; subst. by rewrite map_app, Hx, IHl.
  - f_equal. induction entries as [|[k x] l IHl]; cbn; [done|].
    inversion IH as [|? ? Hk IH']; subst. inversion IH' as [|? ? Hx IH'']; subst.
    by rewrite !map_app, Hk, Hx, IHl.
  - f_equal. induction IH as [|x l Hx Hl IHl]; cbn; [done|]. by rewrite map_app, Hx, IHl.
  - by case_bool_decide.
Qed.

(** What [detach_inner] does to a buffer. *)
Definition detach_buffer (ids : gset N) (b : Buffer) : Buffer :=
  if bool_decide (buf_id b ∈ ids)
  then {| buf_id := buf_id b; buf_shared := buf_shared b; buf_detached := true |} else b.

Lemma buffers_after_detach ids v b :
  VArrayBuffer b ∈ nodes (detach_inner ids v) ↔ ∃ b0, VArrayBuffer b0 ∈ nodes v ∧ b = detach_buffer ids b0.
Proof.
  rewrite nodes_detach, list_elem_of_In, in_map_iff. setoid_rewrite <-list_elem_of_In.
  unfold detach_buffer. split.
  - intros (w & E & Hw). destruct w as [| | |?|?|?|?|?|?|?|?|b0|?|? ? ?|?]; try done.
    exists b0. split; [done|]. cbn in E. case_bool_decide; congruence.
  - intros (b0 & Hb & ->). exists (VArrayBuffer b0). split; [|done]. cbn. by case_bool_decide.
Qed.

(** Nothing listed, nothing changed. *)
Lemma detach_none v : detach_inner ∅ v = v.
Proof.
  induction v as [v IH] using value_ind'.
  destruct v as [| | |?|?|?|?|items|entries|entries|items|b|?|? ? ?|name]; cbn [children] in IH;
    try done; cbn [detach_inner]; f_equal.
  - induction IH as [|x l Hx Hl IHl]; cbn; [done|]. by rewrite Hx, IHl.
  - induction entries as [|[k x] l IHl]; cbn; [done|].
    inversion IH as [|? ? Hx IH']; subst. by rewrite Hx, IHl.
  - induction entries as [|[k x] l IHl]; cbn; [done|].
    inversion IH as [|? ? Hk IH']; subst. inversion IH' as [|? ? Hx IH'']; subst. by rewrite Hk, Hx, IHl.
  - induction IH as [|x l Hx Hl IHl]; cbn; [done|]. by rewrite Hx, IHl.
Qed.

Lemma listed_array_buffers t id :
  id ∈ (list_to_set (omap array_buffer_id t) : gset N) ↔ TArrayBuffer id ∈ t.
Proof.
  rewrite elem_of_list_to_set, list_elem_of_omap. split.
  - intros ([|i|] & Hh & E); try done. cbn in E. injection E as ->. done.
  - intros Hh. by exists (TArrayBuffer id).
Qed.

(** After a transfer the source has lost what it handed over: the buffers of the source are
    those it had, with exactly the listed ones detached, and as soon as one buffer was listed
    no clone of the source succeeds again, whatever the transfer list, the isolation and the
    registered platform types. *)
Theorem transfer_hands_over v t iso known v' :
  clone v t iso known = Ok v' →
  (∀ b, VArrayBuffer b ∈ nodes (detach_transferred v t) ↔ ∃ b0, VArrayBuffer b0 ∈ nodes v ∧
     buf_id b = buf_id b0 ∧ buf_shared b = buf_shared b0 ∧
     (buf_detached b = true ↔ TArrayBuffer (buf_id b) ∈ t)) ∧
  ((∃ id, TArrayBuffer id ∈ t) → ∀ t' iso' known', is_ok (clone (detach_transferred v t) t' iso' known') = false).
Proof.
  rewrite clone_Ok. intros (_ & Hr & _ & _ & Hn). unfold detach_transferred.
  assert (∀ b, VArrayBuffer b ∈ nodes v → buf_detached b = false) as Hd.
  { intros b Hb. specialize (Hn _ Hb). cbn in Hn. by destruct (buf_detached b). }
  split.
  - intros b. rewrite buffers_after_detach. apply exist_proper. intros b0. split.
    + intros [Hb ->]. specialize (Hd _ Hb). unfold detach_buffer. rewrite <-listed_array_buffers.
      case_bool_decide; cbn; [done|]. rewrite Hd. done.
    + intros (Hb & Hi & Hs & Ht). split; [done|]. unfold detach_buffer.
      specialize (Hd _ Hb). rewrite <-listed_array_buffers in Ht. rewrite <-Hi.
      destruct b as [i s d], b0 as [i0 s0 d0]; cbn in *; subst.
      case_bool_decide as Hin; [by rewrite (proj2 Ht Hin)|]. by destruct d; [destruct Hin; apply Ht|].
  - intros [id Hid] t' iso' known'. destruct (clone _ t' iso' known') as [v1|e] eqn:Hc; [|done].
    exfalso. apply clone_Ok in Hc as (_ & _ & _ & _ & Hn').
    destruct (proj1 (transfer_reachable_spec _ _) (Hr _ Hid)) as (w & Hw & E).
    destruct w as [| | |?|?|?|?|?|?|?|?|b|?|? ? ?|?]; try done. destruct E as [<- _].
    assert (VArrayBuffer (detach_buffer (list_to_set (omap array_buffer_id t)) b) ∈
      nodes (detach_inner (list_to_set (omap array_buffer_id t)) v)) as Hin
      by (apply buffers_after_detach; eauto).
    apply Hn' in Hin. unfold detach_buffer in Hin.
    apply listed_array_buffers in Hid. rewrite bool_decide_eq_true_2 in Hin by exact Hid. done.
Qed.

(** ** Witnesses *)

Definition sample_buffer (id : N) (shared : bool) : StructuredCloneValue :=
  VArrayBuffer {| buf_id := id; buf_shared := shared; buf_detached := false |}.
Definition sample_value : StructuredCloneValue :=
  VObject [(lit "a", VArray [sample_buffer 1 false; VNull]);
           (lit "m", VMap [(VString (lit "k"), VMessagePort 7)])].

Example transfer_hands_over_witness :
  clone sample_value [TArrayBuffer 1; TMessagePort 7] false ∅ = Ok sample_value ∧
  is_ok (clone (detach_transferred sample_value [TArrayBuffer 1; TMessagePort 7]) [] true ∅) = false.
Proof.
  assert (clone sample_value [TArrayBuffer 1; TMessagePort 7] false ∅ = Ok sample_value) as Hc
    by (vm_compute; reflexivity).
  split; [exact Hc|].
  apply (transfer_hands_over sample_value [TArrayBuffer 1; TMessagePort 7] false ∅ sample_value Hc).
  exists 1%N. left.
Defined.

(** [is_cloneable] is the platform-object half of the acceptance test. *)
Lemma is_cloneable_spec known v :
  is_cloneable known v = true ↔ ∀ name, VPlatformObject name ∈ nodes v → name ∈ known.
Proof.
  rewrite is_cloneable_nodes, forallb_forall. setoid_rewrite <-list_elem_of_In. split.
  - intros H name Hn. specialize (H _ Hn). cbn in H. by apply bool_decide_eq_true in H.
  - intros H w Hw. destruct w; cbn; try done. apply bool_decide_eq_true. by apply H.
Qed.

(** Outside isolation a shared buffer is refused, but listing one shared buffer lets every
    other one through. *)
Example one_listed_buffer_disables_the_gate :
  clone (VArray [sample_buffer 1 true; sample_buffer 2 true]) [] false ∅ = Err SharedBufferRequiresIsolation ∧
  is_ok (clone (VArray [sample_buffer 1 true; sample_buffer 2 true]) [TSharedArrayBuffer 1] false ∅) = true.
Proof. vm_compute. done. Qed.
