(* ===== verification/MessagePort.v ===== *)
(** * Message ports

    [crates/vixen-engine/src/message_port.rs]: the entangled ports of a
    channel, their inboxes and the state machine of [postMessage], [start], [close] and
    delivery. *)

From stdpp Require Import base decidable gmap sets list strings.
From Stdlib Require Import Lia.
From S2P Require Import Prelude.
From S2P Require Import StructuredClone.
From S2P Require Import StructuredCloneFacts.

Record Message : Type := { data : StructuredCloneValue; transferred_ports : list PortId }.

Record MessagePort : Type := {
  port_id : PortId;
  partner : option PortId;
  detached : bool;
  started : bool;
  inbox : list Message;
}.

Record PostOutcome : Type := {
  out_partner : PortId;
  out_data : StructuredCloneValue;
  out_transferred_ports : list PortId;
}.

Definition set_detached v (p : MessagePort) : MessagePort :=
  {| port_id := port_id p; partner := partner p; detached := v; started := started p; inbox := inbox p |}.
Definition set_started v (p : MessagePort) : MessagePort :=
  {| port_id := port_id p; partner := partner p; detached := detached p; started := v; inbox := inbox p |}.
Definition set_inbox v (p : MessagePort) : MessagePort :=
  {| port_id := port_id p; partner := partner p; detached := detached p; started := started p; inbox := v |}.

Definition message_port_id (h : Transferable) : option PortId :=
  match h with TMessagePort id => Some id | _ => None end.

(** [&mut self], but the port does not change. *)
Definition post_message (self : MessagePort) (message : StructuredCloneValue)
    (transfer : list Transferable) (cross_origin_isolated : bool) (known_platform_types : gset rstr) :
    result DataCloneError (option PostOutcome) :=
  if detached self then Ok None
  else match partner self with
       | None => Ok None
       | Some partner =>
           data ← clone message transfer cross_origin_isolated known_platform_types;
           Ok (Some {| out_partner := partner; out_data := data;
                       out_transferred_ports := omap message_port_id transfer |})
       end.

Definition enqueue (data : StructuredCloneValue) (transferred_ports : list PortId)
    (self : MessagePort) : MessagePort :=
  if detached self then self
  else set_inbox (inbox self ++ [{| data := data; transferred_ports := transferred_ports |}]) self.

Definition drain (self : MessagePort) : MessagePort * list Message :=
  if detached self || negb (started self) then (self, [])
  else (set_inbox [] self, inbox self).

Definition start (self : MessagePort) : MessagePort :=
  if detached self then self else set_started true self.

Definition close (self : MessagePort) : MessagePort := set_inbox [] (set_detached true self).
Definition transfer_close (self : MessagePort) : MessagePort := set_inbox [] (set_detached true self).

Record MessageChannel : Type := { port1 : MessagePort; port2 : MessagePort }.

Definition MessageChannel_new (id_a id_b : N) : MessageChannel :=
  {| port1 := {| port_id := id_a; partner := Some id_b; detached := false; started := false; inbox := [] |};
     port2 := {| port_id := id_b; partner := Some id_a; detached := false; started := false; inbox := [] |} |}.

(** * Message ports: theorems

    A port under any sequence of its operations, and a message through a channel. *)

Inductive PortOp : Type :=
| OpEnqueue (m : Message)
| OpDrain
| OpStart
| OpClose
| OpTransferClose.

(** One operation on the port and the messages delivered so far. *)
Definition port_step (s : MessagePort * list Message) (op : PortOp) : MessagePort * list Message :=
  let '(p, out) := s in
  match op with
  | OpEnqueue m => (enqueue (data m) (transferred_ports m) p, out)
  | OpDrain => let '(p', ms) := drain p in (p', out ++ ms)
  | OpStart => (start p, out)
  | OpClose => (close p, out)
  | OpTransferClose => (transfer_close p, out)
  end.

Definition closes (op : PortOp) : bool :=
  match op with OpClose | OpTransferClose => true | _ => false end.

(** The messages that the port takes: those enqueued before it is closed. *)
Fixpoint taken (ops : list PortOp) : list Message :=
  match ops with
  | [] => []
  | OpEnqueue m :: ops => m :: taken ops
  | (OpClose | OpTransferClose) :: _ => []
  | _ :: ops => taken ops
  end.

Lemma detached_run ops p out :
  detached p = true → inbox p = [] → foldl port_step (p, out) ops = (p, out).
Proof.
  intros Hd Hi. induction ops as [|op ops IH]; cbn; [done|].
  destruct op; cbn; unfold enqueue, drain, start, close, transfer_close, set_detached, set_inbox; cbn;
    rewrite ?Hd; cbn; rewrite ?app_nil_r; try done;
    destruct p; cbn in *; subst; done.
Qed.

Lemma port_run ops p out :
  detached p = false →
  let '(p', out') := foldl port_step (p, out) ops in
  detached p' = existsb closes ops ∧
  (detached p' = true → inbox p' = []) ∧
  ∃ rest, out ++ inbox p ++ taken ops = out' ++ rest ∧
    (detached p' = false → rest = inbox p').
Proof.
  revert p out. induction ops as [|op ops IH]; intros p out Hd.
  { cbn. split_and!; [done|congruence|]. exists (inbox p). by rewrite app_nil_r. }
  assert (∀ q o, detached q = true → inbox q = [] → closes op = true →
    (∃ rest, out ++ inbox p ++ taken (op :: ops) = o ++ rest) → port_step (p, out) op = (q, o) →
    let '(p', out') := foldl port_step (p, out) (op :: ops) in
    detached p' = existsb closes (op :: ops) ∧ (detached p' = true → inbox p' = []) ∧
    ∃ rest, out ++ inbox p ++ taken (op :: ops) = out' ++ rest ∧ (detached p' = false → rest = inbox p')) as Hclosed.
  { intros q o Hq Hi Hc [rest Hr] Hs. cbn [foldl]. rewrite Hs, detached_run by done. cbn [existsb].
    rewrite Hc, Hq. split_and!; [done..|]. exists rest. by split. }
  destruct op as [m| | | |]; cbn [foldl port_step taken existsb closes orb].
  - specialize (IH (enqueue (data m) (transferred_ports m) p) out). unfold enqueue in *. rewrite Hd in *.
    cbn in IH. rewrite <-(assoc_L app) in IH. cbn in IH. destruct m. by apply IH.
  - unfold drain. rewrite Hd. cbn. destruct (started p); cbn.
    + specialize (IH (set_inbox [] p) (out ++ inbox p) Hd). cbn in IH.
      rewrite <-(assoc_L app) in IH. exact IH.
    + rewrite app_nil_r. by apply IH.
  - unfold start. rewrite Hd. by apply (IH (set_started true p)).
  - eapply (Hclosed (close p) out); [done..| |done]. eexists. reflexivity.
  - eapply (Hclosed (transfer_close p) out); [done..| |done]. eexists. reflexivity.
Qed.

(** A port is a first-in first-out queue until it is closed: whatever the order of enqueuing,
    draining, starting and closing, what a fresh port has delivered is a prefix of the messages
    it took, an open port holds exactly the rest, and a port is detached exactly when it was
    closed, and is then empty. *)
Theorem port_fifo a b ops :
  let '(p, delivered) := foldl port_step (port1 (MessageChannel_new a b), []) ops in
  detached p = existsb closes ops ∧
  delivered `prefix_of` taken ops ∧
  (detached p = false → taken ops = delivered ++ inbox p) ∧
  (detached p = true → inbox p = []).
Proof.
  pose proof (port_run ops (port1 (MessageChannel_new a b)) [] eq_refl) as H.
  destruct (foldl port_step _ ops) as [p delivered]. destruct H as (Hd & Hi & rest & Hr & Ho).
  cbn in Hr. split_and!; [done|by exists rest| |done]. intros E. by rewrite Hr, (Ho E).
Qed.

(** A message that one end of a fresh channel posts arrives at the other end as it was:
    routed to the other port, it is drained once that port is started, with the ports of the
    transfer list in the order of the list, none twice, and each of them a port of the message. *)
Theorem posted_message_arrives a b m t iso known o :
  let ch := MessageChannel_new a b in
  post_message (port1 ch) m t iso known = Ok (Some o) →
  out_partner o = port_id (port2 ch) ∧
  (drain (start (enqueue (out_data o) (out_transferred_ports o) (port2 ch)))).2 =
    [{| data := m; transferred_ports := omap message_port_id t |}] ∧
  NoDup (omap message_port_id t) ∧
  ∀ id, id ∈ omap message_port_id t → VMessagePort id ∈ nodes m.
Proof.
  cbn zeta. unfold post_message. cbn. rewrite bind_Ok. intros (d & Hc & [= <-]).
  apply clone_Ok in Hc as (Hnd & Hr & _ & -> & _). split_and!; [done..| |].
  - clear Hr. induction t as [|h t IH]; [constructor|]. apply NoDup_cons in Hnd as [Hh Hnd].
    destruct h as [id|id|id]; cbn; [|by apply IH..]. constructor; [|by apply IH].
    intros Hin. apply Hh. apply list_elem_of_omap in Hin as ([i|i|i] & Hi & E); try done.
    cbn in E. by injection E as ->.
  - intros id Hid. apply list_elem_of_omap in Hid as ([i|i|i] & Hi & E); try done.
    cbn in E. injection E as ->. apply Hr, transfer_reachable_spec in Hi as (w & Hw & En).
    destruct w; try done. cbn in En. by subst.
Qed.

Example posted_message_arrives_witness :
  let ch := MessageChannel_new 1 2 in
  ∃ o, post_message (port1 ch) sample_value [TMessagePort 7] false ∅ = Ok (Some o) ∧
    (drain (start (enqueue (out_data o) (out_transferred_ports o) (port2 ch)))).2 =
      [{| data := sample_value; transferred_ports := [7%N] |}].
Proof.
  cbn zeta. eexists. split; [vm_compute; reflexivity|].
  apply (posted_message_arrives 1 2 sample_value [TMessagePort 7] false ∅). vm_compute. reflexivity.
Defined.

(** A port that is closed or was never entangled drops the message without an error, even one
    that could not be cloned. *)
Lemma closed_port_drops p m t iso known :
  detached p = true ∨ partner p = None → post_message p m t iso known = Ok None.
Proof.
  intros Hp. unfold post_message. destruct (detached p); [done|]. by destruct Hp as [?| ->].
Qed.
