(* ===== verification/RustUtf8.v ===== *)
(** * UTF-8

    [str::as_bytes] and [String::from_utf8_lossy] of the Rust standard library: strings are
    lists of code points, bytes are numbers below 256.  A round trip is stated with the bytes
    that follow, so that it composes. *)

From Stdlib Require Import Lia ZArith.
From stdpp Require Import base decidable sets list strings.
From S2P Require Import Prelude.

(** A Unicode scalar value, a Rust [char]. *)
Definition is_scalar (c : rchar) : bool := ((c <? 55296) || ((57344 <=? c) && (c <=? 1114111)))%N.
Abbreviation scalars s := (Forall (λ c, is_scalar c = true) s) (only parsing).

Definition utf8_char (c : rchar) : list N :=
  (if c <? 128 then [c]
   else if c <? 2048 then [192 + c / 64; 128 + c mod 64]
   else if c <? 65536 then [224 + c / 4096; 128 + (c / 64) mod 64; 128 + c mod 64]
   else [240 + c / 262144; 128 + (c / 4096) mod 64; 128 + (c / 64) mod 64; 128 + c mod 64])%N.

(** [str::as_bytes] *)
Definition utf8 (s : rstr) : list N := flat_map utf8_char s.

(** A first byte: how many bytes must follow, and the range of the first of them. *)
Definition utf8_lead (b : N) : option (nat * N * N) :=
  (if (194 <=? b) && (b <=? 223) then Some (1%nat, 128, 191)
   else if b =? 224 then Some (2%nat, 160, 191)
   else if b =? 237 then Some (2%nat, 128, 159)
   else if (225 <=? b) && (b <=? 239) then Some (2%nat, 128, 191)
   else if b =? 240 then Some (3%nat, 144, 191)
   else if (241 <=? b) && (b <=? 243) then Some (3%nat, 128, 191)
   else if b =? 244 then Some (3%nat, 128, 143)
   else None)%N.

Definition in_range (lo hi b : N) : bool := ((lo <=? b) && (b <=? hi))%N.
Definition replacement : rchar := 65533.

(** [String::from_utf8_lossy]: one replacement character per maximal ill-formed part. *)
Fixpoint from_utf8_lossy (bytes : list N) : rstr :=
  match bytes with
  | [] => []
  | b0 :: r1 =>
      if (b0 <? 128)%N then b0 :: from_utf8_lossy r1
      else match utf8_lead b0, r1 with
           | None, _ => replacement :: from_utf8_lossy r1
           | Some _, [] => [replacement]
           | Some (n, lo, hi), b1 :: r2 =>
               if negb (in_range lo hi b1) then replacement :: from_utf8_lossy r1
               else match n, r2 with
                    | 1, _ => ((b0 - 192) * 64 + (b1 - 128))%N :: from_utf8_lossy r2
                    | _, [] => [replacement]
                    | 2, b2 :: r3 =>
                        if in_range 128 191 b2
                        then ((b0 - 224) * 4096 + (b1 - 128) * 64 + (b2 - 128))%N :: from_utf8_lossy r3
                        else replacement :: from_utf8_lossy r2
                    | _, b2 :: r3 =>
                        if negb (in_range 128 191 b2) then replacement :: from_utf8_lossy r2
                        else match r3 with
                             | [] => [replacement]
                             | b3 :: r4 =>
                                 if in_range 128 191 b3
                                 then ((b0 - 240) * 262144 + (b1 - 128) * 4096 + (b2 - 128) * 64 +
                                       (b3 - 128))%N :: from_utf8_lossy r4
                                 else replacement :: from_utf8_lossy r3
                             end
                    end
           end
  end.

(** [String::from_utf8]: the bytes are well formed when decoding them loses nothing. *)
Definition from_utf8 (bytes : list N) : option rstr :=
  let s := from_utf8_lossy bytes in if bool_decide (utf8 s = bytes) then Some s else None.

(** ** Lemmas *)

Lemma utf8_app s t : utf8 (s ++ t) = utf8 s ++ utf8 t.
Proof. apply flat_map_app. Qed.

Lemma is_scalar_spec c : is_scalar c = true ↔ (c < 55296 ∨ 57344 ≤ c ≤ 1114111)%N.
Proof.
  unfold is_scalar. rewrite orb_true_iff, andb_true_iff, N.ltb_lt, !N.leb_le. done.
Qed.

(** Decide the boolean comparisons of the goal by arithmetic. *)
Ltac decide_bools :=
  repeat match goal with
  | |- context [(?a <=? ?b)%N] =>
      first [rewrite (proj2 (N.leb_le a b)) by lia | rewrite (proj2 (N.leb_gt a b)) by lia]
  | |- context [(?a <? ?b)%N] =>
      first [rewrite (proj2 (N.ltb_lt a b)) by lia | rewrite (proj2 (N.ltb_ge a b)) by lia]
  | |- context [(?a =? ?b)%N] =>
      first [rewrite (proj2 (N.eqb_eq a b)) by lia | rewrite (proj2 (N.eqb_neq a b)) by lia]
  end; cbn [andb orb negb].

Lemma split64 c : ∃ q r, (c / 64 = q ∧ c mod 64 = r ∧ c = 64 * q + r ∧ r < 64)%N.
Proof.
  exists (c / 64)%N, (c mod 64)%N. pose proof (N.mod_lt c 64). pose proof (N.div_mod' c 64). lia.
Qed.

Lemma lossy_two b0 b1 lo hi rest :
  (b0 <? 128)%N = false → utf8_lead b0 = Some (1, lo, hi) → in_range lo hi b1 = true →
  from_utf8_lossy (b0 :: b1 :: rest) = ((b0 - 192) * 64 + (b1 - 128))%N :: from_utf8_lossy rest.
Proof. intros H0 Hl H1. cbn [from_utf8_lossy]. by rewrite H0, Hl, H1. Qed.

Lemma lossy_three b0 b1 b2 lo hi rest :
  (b0 <? 128)%N = false → utf8_lead b0 = Some (2, lo, hi) → in_range lo hi b1 = true →
  in_range 128 191 b2 = true →
  from_utf8_lossy (b0 :: b1 :: b2 :: rest) =
    ((b0 - 224) * 4096 + (b1 - 128) * 64 + (b2 - 128))%N :: from_utf8_lossy rest.
Proof. intros H0 Hl H1 H2. cbn [from_utf8_lossy]. rewrite H0, Hl, H1. cbn [negb]. by rewrite H2. Qed.

Lemma lossy_four b0 b1 b2 b3 lo hi rest :
  (b0 <? 128)%N = false → utf8_lead b0 = Some (3, lo, hi) → in_range lo hi b1 = true →
  in_range 128 191 b2 = true → in_range 128 191 b3 = true →
  from_utf8_lossy (b0 :: b1 :: b2 :: b3 :: rest) =
    ((b0 - 240) * 262144 + (b1 - 128) * 4096 + (b2 - 128) * 64 + (b3 - 128))%N :: from_utf8_lossy rest.
Proof.
  intros H0 Hl H1 H2 H3. cbn [from_utf8_lossy]. rewrite H0, Hl, H1. cbn [negb]. rewrite H2. cbn [negb].
  by rewrite H3.
Qed.

Lemma decode_char c rest :
  is_scalar c = true → from_utf8_lossy (utf8_char c ++ rest) = c :: from_utf8_lossy rest.
Proof.
  intros Hc%is_scalar_spec. unfold utf8_char.
  replace (c / 4096)%N with (c / 64 / 64)%N by (rewrite N.Div0.div_div; done).
  replace (c / 262144)%N with (c / 64 / 64 / 64)%N by (rewrite !N.Div0.div_div; done).
  destruct (split64 c) as (q1 & r0 & -> & -> & E0 & Hr0).
  destruct (split64 q1) as (q2 & r1 & -> & -> & E1 & Hr1).
  destruct (split64 q2) as (q3 & r2 & -> & -> & E2 & Hr2).
  destruct (N.ltb_spec c 128); [cbn [app from_utf8_lossy]; by decide_bools|].
  destruct (N.ltb_spec c 2048); [|destruct (N.ltb_spec c 65536)]; cbn [app].
  - erewrite lossy_two; unfold utf8_lead, in_range; [f_equal; lia|by decide_bools..].
  - destruct (N.eq_dec q2 0%N); [|destruct (N.eq_dec q2 13%N)];
      (erewrite lossy_three; unfold utf8_lead, in_range; [f_equal; lia|by decide_bools..]).
  - destruct (N.eq_dec q3 0%N); [|destruct (N.eq_dec q3 4%N)];
      (erewrite lossy_four; unfold utf8_lead, in_range; [f_equal; lia|by decide_bools..]).
Qed.

(** Encoding is undone by decoding, whatever follows. *)
Lemma decode_utf8_app s rest : scalars s → from_utf8_lossy (utf8 s ++ rest) = s ++ from_utf8_lossy rest.
Proof.
  unfold utf8. induction 1 as [|c s Hc Hs IH]; cbn [flat_map app]; [done|].
  by rewrite <-(assoc_L app), decode_char, IH by done.
Qed.

Lemma decode_utf8 s : scalars s → from_utf8_lossy (utf8 s) = s.
Proof.
  intros Hs. rewrite <-(app_nil_r (utf8 s)), decode_utf8_app by done. by rewrite app_nil_r.
Qed.

Lemma utf8_bytes s : scalars s → Forall (λ b, (b < 256)%N) (utf8 s).
Proof.
  unfold utf8. induction 1 as [|c s Hc Hs IH]; cbn [flat_map]; [constructor|].
  apply Forall_app. split; [|done]. apply is_scalar_spec in Hc. unfold utf8_char.
  pose proof (N.mod_lt c 64). pose proof (N.mod_lt (c / 64) 64). pose proof (N.mod_lt (c / 4096) 64).
  destruct (N.ltb_spec c 128); [repeat constructor; lia|].
  destruct (N.ltb_spec c 2048).
  { assert (c / 64 < 32)%N by (apply N.Div0.div_lt_upper_bound; lia). repeat constructor; lia. }
  destruct (N.ltb_spec c 65536).
  - assert (c / 4096 < 16)%N by (apply N.Div0.div_lt_upper_bound; lia). repeat constructor; lia.
  - assert (c / 262144 < 8)%N by (apply N.Div0.div_lt_upper_bound; lia). repeat constructor; lia.
Qed.

(** What decodes is a string: every character is a scalar value. *)
Lemma lossy_scalars_fuel n bytes : length bytes ≤ n → scalars (from_utf8_lossy bytes).
Proof.
  revert bytes. induction n as [|n IH]; intros [|b0 r1] Hn; try constructor; cbn in Hn; [lia|].
  cbn [from_utf8_lossy]. destruct (N.ltb_spec b0 128).
  { constructor; [apply is_scalar_spec; lia|]. apply IH. lia. }
  assert (is_scalar replacement = true) as Hr by done.
  assert (∀ b lo hi k, utf8_lead b = Some (k, lo, hi) →
    (k = 1%nat ∧ 194 ≤ b ≤ 223 ∧ lo = 128 ∧ hi = 191 ∨
     k = 2%nat ∧ (b = 224 ∧ lo = 160 ∧ hi = 191 ∨ b = 237 ∧ lo = 128 ∧ hi = 159 ∨
            225 ≤ b ≤ 239 ∧ b ≠ 237 ∧ lo = 128 ∧ hi = 191) ∨
     k = 3%nat ∧ (b = 240 ∧ lo = 144 ∧ hi = 191 ∨ 241 ≤ b ≤ 243 ∧ lo = 128 ∧ hi = 191 ∨
            b = 244 ∧ lo = 128 ∧ hi = 143))%N) as Hlead.
  { intros b lo hi k. unfold utf8_lead.
    repeat match goal with
    | |- (if ?c then _ else _) = _ → _ =>
        let E := fresh "E" in destruct c eqn:E;
        rewrite ?andb_true_iff, ?andb_false_iff, ?N.leb_le, ?N.leb_gt, ?N.eqb_eq, ?N.eqb_neq in E;
        [intros [= <- <- <-]; lia|]
    end. done. }
  destruct (utf8_lead b0) as [[[k lo] hi]|] eqn:Hl; [|constructor; [done|apply IH; lia]].
  apply Hlead in Hl. clear Hlead. destruct r1 as [|b1 r2]; [by repeat constructor|]. cbn in Hn.
  destruct (in_range lo hi b1) eqn:H1; cbn [negb]; [|constructor; [done|apply IH; cbn; lia]].
  unfold in_range in H1. apply andb_true_iff in H1 as [H1%N.leb_le H1'%N.leb_le].
  destruct Hl as [(-> & ? & -> & ->)|[(-> & Hb)|(-> & Hb)]].
  - constructor; [apply is_scalar_spec; lia|]. apply IH. lia.
  - destruct r2 as [|b2 r3]; [by repeat constructor|]. cbn in Hn.
    destruct (in_range 128 191 b2) eqn:H2; [|constructor; [done|apply IH; cbn; lia]].
    unfold in_range in H2. apply andb_true_iff in H2 as [H2%N.leb_le H2'%N.leb_le].
    constructor; [apply is_scalar_spec; lia|]. apply IH. lia.
  - destruct r2 as [|b2 r3]; [by repeat constructor|]. cbn in Hn.
    destruct (in_range 128 191 b2) eqn:H2; cbn [negb]; [|constructor; [done|apply IH; cbn; lia]].
    destruct r3 as [|b3 r4]; [by repeat constructor|]. cbn in Hn.
    destruct (in_range 128 191 b3) eqn:H3; [|constructor; [done|apply IH; cbn; lia]].
    unfold in_range in H2, H3. apply andb_true_iff in H2 as [H2%N.leb_le H2'%N.leb_le].
    apply andb_true_iff in H3 as [H3%N.leb_le H3'%N.leb_le].
    constructor; [apply is_scalar_spec; lia|]. apply IH. lia.
Qed.

Lemma lossy_scalars bytes : scalars (from_utf8_lossy bytes).
Proof. by apply (lossy_scalars_fuel (length bytes)). Qed.

Lemma from_utf8_utf8 s : scalars s → from_utf8 (utf8 s) = Some s.
Proof. intros Hs. unfold from_utf8. by rewrite decode_utf8, bool_decide_eq_true_2. Qed.

Lemma utf8_inj s t : scalars s → scalars t → utf8 s = utf8 t → s = t.
Proof. intros Hs Ht E. apply (f_equal from_utf8_lossy) in E. by rewrite !decode_utf8 in E. Qed.

(** ** Bytes, for proofs by enumeration *)

Definition all_bytes : list N := N.of_nat <$> seq 0 256.

Lemma all_bytes_spec b : (b < 256)%N → b ∈ all_bytes.
Proof.
  intros Hb. unfold all_bytes. apply list_elem_of_fmap. exists (N.to_nat b).
  rewrite elem_of_seq. split; lia.
Qed.

Lemma for_all_bytes (p : N → bool) : forallb p all_bytes = true → ∀ b, (b < 256)%N → p b = true.
Proof.
  intros H b Hb. rewrite forallb_forall in H. apply H, list_elem_of_In. by apply all_bytes_spec.
Qed.
