(* ===== verification/Accessibility.v ===== *)
(** * Accessibility projections

    [crates/vixen-api/src/browser.rs]: the snapshot of the semantic hierarchy of a document with
    its fingerprint, and [crates/vixen-ffi/src/lib.rs]: the bound on what crosses the C
    interface.  The fingerprint is FNV-1a over the fields in their order; [f64::to_bits] gives
    the canonical quiet NaN for every NaN, which are one value in [RustFloat]. *)

From Stdlib Require Import Lia ZArith SpecFloat.
From stdpp Require Import base decidable gmap sets list strings.
From S2P Require Import Prelude.
From S2P Require Import RustFloat.
From S2P Require Import RenderModel.
From S2P Require Import RustStr.
From S2P Require Import RustUtf8.

Definition ACCESSIBILITY_MAX_NODES : N := 1024.
Definition ACCESSIBILITY_MAX_STRING_BYTES : N := 512.
Definition ACCESSIBILITY_MAX_VALUE_BYTES : N := 16 * 1024.
Definition ACCESSIBILITY_ABI_MAX_NODES : nat := 192.

(** ** Values *)

Record AccessibilityTextSelection : Type := { sel_base_offset : N; sel_extent_offset : N }.

Inductive AccessibilityTextInputType : Type :=
| TypeNone | TypeText | TypeMultiline | TypeNumber | TypeDecimal | TypeTelephone | TypeEmail | TypeUrl | TypeSearch.
Definition text_input_type_as_str (x : AccessibilityTextInputType) : string :=
  match x with
  | TypeNone => "none" | TypeText => "text" | TypeMultiline => "multiline" | TypeNumber => "number"
  | TypeDecimal => "decimal" | TypeTelephone => "telephone" | TypeEmail => "email" | TypeUrl => "url"
  | TypeSearch => "search"
  end.

Inductive AccessibilityTextInputAction : Type :=
| ActionNewline | ActionDone | ActionGo | ActionNext | ActionPrevious | ActionSearch | ActionSend.
Definition text_input_action_as_str (x : AccessibilityTextInputAction) : string :=
  match x with
  | ActionNewline => "newline" | ActionDone => "done" | ActionGo => "go" | ActionNext => "next"
  | ActionPrevious => "previous" | ActionSearch => "search" | ActionSend => "send"
  end.

Record AccessibilityRange : Type := { rg_current : f64; rg_minimum : f64; rg_maximum : f64; rg_step : f64 }.
Record AccessibilityRect : Type := { bb_x : f64; bb_y : f64; bb_width : f64; bb_height : f64 }.

Inductive AccessibilityAction : Type :=
| AxFocus | AxSetValue (value : rstr) | AxIncrease | AxDecrease.
Definition action_as_str (x : AccessibilityAction) : string :=
  match x with AxFocus => "focus" | AxSetValue _ => "set_value" | AxIncrease => "increase" | AxDecrease => "decrease" end.

Record AccessibilityNode : Type := {
  ax_id : N;
  ax_parent_id : option N;
  ax_controls_ids : list N;
  ax_described_by_ids : list N;
  ax_details_ids : list N;
  ax_owns_ids : list N;
  ax_role : rstr;
  ax_label : rstr;
  ax_description : rstr;
  ax_value : option rstr;
  ax_text_selection : option AccessibilityTextSelection;
  ax_multiline : bool;
  ax_text_input_type : option AccessibilityTextInputType;
  ax_text_input_action : option AccessibilityTextInputAction;
  ax_range : option AccessibilityRange;
  ax_bbox : option AccessibilityRect;
  ax_focused : bool;
  ax_disabled : bool;
  ax_checked : option bool;
  ax_mixed : option bool;
  ax_selected : bool;
  ax_expanded : option bool;
  ax_heading_level : option N;
  ax_hidden : bool;
  ax_live_region : bool;
  ax_focusable : bool;
  ax_actions : list rstr;
}.

Record AccessibilitySnapshot : Type := {
  axs_context_id : BrowsingContextId;
  axs_document_id : DocumentId;
  axs_source_generation : N;
  axs_generation : N;
  axs_viewport : N * N;
  axs_nodes : list AccessibilityNode;
  axs_truncated : bool;
}.

(** ** The fingerprint *)

Abbreviation AccessibilityHash := N (only parsing).
Definition hash_new : AccessibilityHash := 14695981039346656037.
(** [*=] wraps around at 64 bits. *)
Definition hash_byte (h : AccessibilityHash) (byte : N) : AccessibilityHash := N.lxor h byte * 1099511628211 mod 2 ^ 64.
Definition hash_boolean (value : bool) (h : AccessibilityHash) : AccessibilityHash := hash_byte h (if value then 1 else 0).
(** [value.to_le_bytes()] *)
Definition le_bytes (value : N) : list N := (λ i, N.land (N.shiftr value (8 * N.of_nat i)) 255) <$> seq 0 8.
Definition hash_u64 (value : N) (h : AccessibilityHash) : AccessibilityHash := foldl hash_byte h (le_bytes value).
Definition hash_string (value : rstr) (h : AccessibilityHash) : AccessibilityHash :=
  foldl hash_byte (hash_u64 (str_len value) h) (utf8 value).
Definition hash_option {A} (f : A → AccessibilityHash → AccessibilityHash) (value : option A) (h : AccessibilityHash) : AccessibilityHash :=
  match value with Some x => f x (hash_byte h 1) | None => hash_byte h 0 end.
Definition hash_list {A} (f : A → AccessibilityHash → AccessibilityHash) (l : list A) (h : AccessibilityHash) : AccessibilityHash :=
  foldl (λ h x, f x h) (hash_u64 (len l) h) l.
Definition hash_finish (h : AccessibilityHash) : N :=
  let value := N.land h (2 ^ 63 - 1) in
  if (value =? 0)%N then 1 else value.

(** [f64::to_bits] *)
Definition to_bits (x : f64) : N :=
  match f64_repr x with
  | S754_zero s => if s then 2 ^ 63 else 0
  | S754_infinity s => (if s then 2 ^ 63 else 0) + 2047 * 2 ^ 52
  | S754_nan => 2047 * 2 ^ 52 + 2 ^ 51
  | S754_finite s m e =>
      (if s then 2 ^ 63 else 0) +
      (if (Npos m <? 2 ^ 52)%N then Npos m else Z.to_N (e + 1075) * 2 ^ 52 + (Npos m - 2 ^ 52))
  end%N.

Definition hash_selection (x : AccessibilityTextSelection) (h : AccessibilityHash) : AccessibilityHash :=
  hash_u64 (sel_extent_offset x) (hash_u64 (sel_base_offset x) h).
Definition hash_range (x : AccessibilityRange) (h : AccessibilityHash) : AccessibilityHash :=
  foldl (λ h v, hash_u64 (to_bits v) h) h [rg_current x; rg_minimum x; rg_maximum x; rg_step x].
Definition hash_rect (x : AccessibilityRect) (h : AccessibilityHash) : AccessibilityHash :=
  foldl (λ h v, hash_u64 (to_bits v) h) h [bb_x x; bb_y x; bb_width x; bb_height x].

(** The steps of the loop body of [refresh_generation], in order *)
Definition hash_node (node : AccessibilityNode) (h : AccessibilityHash) : AccessibilityHash :=
  foldl (λ h f, f h) h
    [hash_u64 (ax_id node);
     hash_option hash_u64 (ax_parent_id node);
     hash_list hash_u64 (ax_controls_ids node);
     hash_list hash_u64 (ax_described_by_ids node);
     hash_list hash_u64 (ax_details_ids node);
     hash_list hash_u64 (ax_owns_ids node);
     hash_string (ax_role node);
     hash_string (ax_label node);
     hash_string (ax_description node);
     hash_option hash_string (ax_value node);
     hash_option hash_selection (ax_text_selection node);
     hash_boolean (ax_multiline node);
     hash_option (λ x, hash_string (lit (text_input_type_as_str x))) (ax_text_input_type node);
     hash_option (λ x, hash_string (lit (text_input_action_as_str x))) (ax_text_input_action node);
     hash_option hash_range (ax_range node);
     hash_option hash_rect (ax_bbox node);
     hash_boolean (ax_focused node);
     hash_boolean (ax_disabled node);
     hash_option hash_boolean (ax_checked node);
     hash_option hash_boolean (ax_mixed node);
     hash_boolean (ax_selected node);
     hash_option hash_boolean (ax_expanded node);
     hash_option (λ level h, hash_byte h level) (ax_heading_level node);
     hash_boolean (ax_hidden node);
     hash_boolean (ax_live_region node);
     hash_boolean (ax_focusable node);
     hash_list hash_string (ax_actions node)].

Definition fingerprint (s : AccessibilitySnapshot) : N :=
  hash_finish (hash_list hash_node (axs_nodes s) (hash_boolean (axs_truncated s)
    (hash_u64 (axs_viewport s).2 (hash_u64 (axs_viewport s).1 (hash_u64 (axs_source_generation s) hash_new))))).

Definition refresh_generation (s : AccessibilitySnapshot) : AccessibilitySnapshot :=
  {| axs_context_id := axs_context_id s; axs_document_id := axs_document_id s;
     axs_source_generation := axs_source_generation s; axs_generation := fingerprint s;
     axs_viewport := axs_viewport s; axs_nodes := axs_nodes s; axs_truncated := axs_truncated s |}.

Definition set_nodes (nodes : list AccessibilityNode) (truncated : bool) (s : AccessibilitySnapshot) : AccessibilitySnapshot :=
  {| axs_context_id := axs_context_id s; axs_document_id := axs_document_id s;
     axs_source_generation := axs_source_generation s; axs_generation := axs_generation s;
     axs_viewport := axs_viewport s; axs_nodes := nodes; axs_truncated := truncated |}.

(** ** The bound of the C interface *)

Definition references (node : AccessibilityNode) : nat :=
  length (ax_controls_ids node) + length (ax_described_by_ids node) + length (ax_details_ids node) + length (ax_owns_ids node).

(** [retain(|target| retained_ids.contains(target))] on the four lists *)
Definition retain_references (retained : gset N) (node : AccessibilityNode) : AccessibilityNode :=
  let keep := filter (λ i, i ∈ retained) in
  {| ax_id := ax_id node; ax_parent_id := ax_parent_id node; ax_controls_ids := keep (ax_controls_ids node);
     ax_described_by_ids := keep (ax_described_by_ids node); ax_details_ids := keep (ax_details_ids node);
     ax_owns_ids := keep (ax_owns_ids node); ax_role := ax_role node; ax_label := ax_label node;
     ax_description := ax_description node; ax_value := ax_value node; ax_text_selection := ax_text_selection node;
     ax_multiline := ax_multiline node; ax_text_input_type := ax_text_input_type node;
     ax_text_input_action := ax_text_input_action node; ax_range := ax_range node; ax_bbox := ax_bbox node;
     ax_focused := ax_focused node; ax_disabled := ax_disabled node; ax_checked := ax_checked node; ax_mixed := ax_mixed node;
     ax_selected := ax_selected node; ax_expanded := ax_expanded node; ax_heading_level := ax_heading_level node;
     ax_hidden := ax_hidden node; ax_live_region := ax_live_region node; ax_focusable := ax_focusable node;
     ax_actions := ax_actions node |}.

Definition bounded_accessibility_snapshot (s : AccessibilitySnapshot) : AccessibilitySnapshot :=
  let s := if (ACCESSIBILITY_ABI_MAX_NODES <? length (axs_nodes s))%nat
           then set_nodes (take ACCESSIBILITY_ABI_MAX_NODES (axs_nodes s)) true s else s in
  let retained : gset N := list_to_set (ax_id <$> axs_nodes s) in
  let nodes := retain_references retained <$> axs_nodes s in
  let dropped := existsb (λ node, negb (references (retain_references retained node) =? references node)%nat) (axs_nodes s) in
  refresh_generation (set_nodes nodes (axs_truncated s || dropped) s).

(** Which node the snapshot shows to support an action *)
Definition advertises (s : AccessibilitySnapshot) (node_id : N) (action : AccessibilityAction) : bool :=
  existsb (λ node, (ax_id node =? node_id)%N && existsb (λ a, bool_decide (a = lit (action_as_str action))) (ax_actions node))
    (axs_nodes s).

(** ** Theorems *)

Lemma fingerprint_range s : (0 < fingerprint s < 2 ^ 63)%N.
Proof.
  unfold fingerprint, hash_finish. set (v := N.land _ _).
  assert (v < 2 ^ 63)%N as Hv by (subst v; change (2 ^ 63 - 1)%N with (N.ones 63); rewrite N.land_ones; by apply N.mod_lt).
  destruct (N.eqb_spec v 0); [done|lia].
Qed.

(** The references of a node *)
Definition refers (node : AccessibilityNode) (i : N) : Prop :=
  i ∈ ax_controls_ids node ∨ i ∈ ax_described_by_ids node ∨ i ∈ ax_details_ids node ∨ i ∈ ax_owns_ids node.

Lemma refers_retain retained node i : refers (retain_references retained node) i ↔ refers node i ∧ i ∈ retained.
Proof. unfold refers. cbn. rewrite !list_elem_of_filter. naive_solver. Qed.

Lemma kept_length (retained : gset N) l :
  (length (filter (λ i, i ∈ retained) l) ≤ length l)%nat ∧
  (length (filter (λ i, i ∈ retained) l) = length l ↔ ∀ i, i ∈ l → i ∈ retained).
Proof.
  induction l as [|x l [Hle Heq]]; [split; [done|set_solver]|]. rewrite filter_cons. case_decide as Hx; cbn; split; try lia.
  - rewrite Nat.succ_inj_wd, Heq. set_solver.
  - split; [lia|]. intros Hall. destruct Hx. apply Hall. set_solver.
Qed.

Lemma references_retain retained node :
  (references (retain_references retained node) =? references node)%nat = true ↔ ∀ i, refers node i → i ∈ retained.
Proof.
  rewrite Nat.eqb_eq. unfold references, refers. cbn [retain_references ax_controls_ids ax_described_by_ids ax_details_ids ax_owns_ids].
  destruct (kept_length retained (ax_controls_ids node)) as [H1 E1], (kept_length retained (ax_described_by_ids node)) as [H2 E2],
    (kept_length retained (ax_details_ids node)) as [H3 E3], (kept_length retained (ax_owns_ids node)) as [H4 E4].
  transitivity (length (filter (λ i, i ∈ retained) (ax_controls_ids node)) = length (ax_controls_ids node) ∧
    length (filter (λ i, i ∈ retained) (ax_described_by_ids node)) = length (ax_described_by_ids node) ∧
    length (filter (λ i, i ∈ retained) (ax_details_ids node)) = length (ax_details_ids node) ∧
    length (filter (λ i, i ∈ retained) (ax_owns_ids node)) = length (ax_owns_ids node)); [lia|].
  rewrite E1, E2, E3, E4. naive_solver.
Qed.

Lemma retained_ids retained (nodes : list AccessibilityNode) : ax_id <$> (retain_references retained <$> nodes) = ax_id <$> nodes.
Proof. rewrite <-list_fmap_compose. by apply list_fmap_ext. Qed.

(** What crosses the C interface is a bounded, closed prefix of the snapshot: at most 192 nodes,
    the first ones, whose references name nodes among them; it is marked as truncated exactly
    if it was, or if a node or a reference is missing; and its generation is its fingerprint,
    which is neither zero nor negative as an [i64]. *)
Theorem bounded_snapshot_exact s :
  let kept := take ACCESSIBILITY_ABI_MAX_NODES (axs_nodes s) in
  let b := bounded_accessibility_snapshot s in
  ax_id <$> axs_nodes b = ax_id <$> kept ∧
  (∀ k n m i, axs_nodes b !! k = Some n → kept !! k = Some m →
     refers n i ↔ refers m i ∧ i ∈ ax_id <$> kept) ∧
  (axs_truncated b = true ↔
     axs_truncated s = true ∨ (ACCESSIBILITY_ABI_MAX_NODES < length (axs_nodes s))%nat ∨
     ∃ m i, m ∈ kept ∧ refers m i ∧ i ∉ ax_id <$> kept) ∧
  axs_generation b = fingerprint b ∧ (0 < axs_generation b < 2 ^ 63)%N.
Proof.
  intros kept b. set (s' := if (ACCESSIBILITY_ABI_MAX_NODES <? length (axs_nodes s))%nat
    then set_nodes (take ACCESSIBILITY_ABI_MAX_NODES (axs_nodes s)) true s else s).
  assert (axs_nodes s' = kept ∧ (axs_truncated s' = true ↔
    axs_truncated s = true ∨ (ACCESSIBILITY_ABI_MAX_NODES < length (axs_nodes s))%nat)) as [Hk Ht].
  { subst s' kept. destruct (Nat.ltb_spec ACCESSIBILITY_ABI_MAX_NODES (length (axs_nodes s))); cbn.
    - split; [done|]. split; [by right|done].
    - unfold ACCESSIBILITY_ABI_MAX_NODES in *. rewrite take_ge by lia. split; [done|]. split; [by left|intros [?|?]; [done|lia]]. }
  set (retained := list_to_set (ax_id <$> kept) : gset N).
  assert (Hb : b = refresh_generation (set_nodes (retain_references retained <$> kept)
    (axs_truncated s' || existsb (λ node, negb (references (retain_references retained node) =? references node)%nat) kept) s')).
  { subst b. unfold bounded_accessibility_snapshot. fold s'. by rewrite Hk. }
  rewrite Hb. cbn [axs_nodes axs_truncated axs_generation refresh_generation set_nodes]. split; [apply retained_ids|]. split; [|split].
  - intros k n m i Hn Hm. rewrite list_lookup_fmap, Hm in Hn. injection Hn as <-. rewrite refers_retain. subst retained.
    by rewrite elem_of_list_to_set.
  - rewrite orb_true_iff, Ht, existsb_exists. match goal with |- _ ∨ ?X ↔ _ ∨ _ ∨ ?Y => enough (X ↔ Y) by tauto end. split.
    + intros (m & Hm%list_elem_of_In & Hr%negb_true_iff). destruct (decide (Forall (λ i, i ∈ retained)
        (ax_controls_ids m ++ ax_described_by_ids m ++ ax_details_ids m ++ ax_owns_ids m))) as [Hall|Hall].
      * exfalso. rewrite (proj2 (references_retain retained m)) in Hr; [done|]. intros i Hi. rewrite Forall_forall in Hall.
        apply Hall. unfold refers in Hi. set_solver.
      * apply not_Forall_Exists in Hall; [|apply _]. apply Exists_exists in Hall as (i & Hi & Hni). exists m, i.
        split; [done|]. split; [unfold refers; set_solver|]. intros Hin. apply Hni. subst retained. by rewrite elem_of_list_to_set.
    + intros (m & i & Hm & Hi & Hni). exists m. split; [by apply list_elem_of_In|]. apply negb_true_iff.
      destruct (_ =? _)%nat eqn:E; [|done]. destruct Hni. apply references_retain with (i := i) in E; [|done]. subst retained.
      by rewrite elem_of_list_to_set in E.
  - split; [done|]. apply fingerprint_range.
Qed.
