(* ===== verification/RustMap.v ===== *)
(** * Maps with string keys

    A [BTreeMap<String, V>] as the list of its entries in the order of the keys: look-up,
    insertion, and the invariant that makes them the operations of a map. *)

From Stdlib Require Import Lia ZArith Sorting.Sorted.
From stdpp Require Import base decidable sets list strings.
From S2P Require Import Prelude.
From S2P Require Import RustStr.

Section map.
Context {V : Type}.

(** [BTreeMap::get] *)
Definition map_get (m : list (rstr * V)) (k : rstr) : option V := snd ∘ snd <$> list_find (λ kv, kv.1 = k) m.

(** [BTreeMap::insert] *)
Fixpoint map_insert (k : rstr) (v : V) (m : list (rstr * V)) : list (rstr * V) :=
  match m with
  | [] => [(k, v)]
  | (k', v') :: m' =>
      if bool_decide (k' = k) then (k', v) :: m'
      else if rstr_leb k' k then (k', v') :: map_insert k v m'
      else (k, v) :: m
  end.

(** [BTreeMap::remove] *)
Definition map_remove (k : rstr) (m : list (rstr * V)) : list (rstr * V) := filter (λ kv, kv.1 ≠ k) m.

(** ** Lemmas *)

Lemma rstr_leb_antisym a b : rstr_leb a b = true → rstr_leb b a = true → a = b.
Proof.
  revert b. induction a as [|x a IH]; intros [|y b]; cbn; try done.
  destruct (N.ltb_spec x y), (N.ltb_spec y x), (N.eqb_spec x y), (N.eqb_spec y x); cbn; try done; try lia.
  intros Ha Hb. subst. f_equal. by apply IH.
Qed.

Definition before (a b : rstr * V) : Prop := rstr_leb b.1 a.1 = false.
Definition btree (m : list (rstr * V)) : Prop := StronglySorted before m.

Lemma before_iff a b : before a b ↔ rstr_leb a.1 b.1 = true ∧ a.1 ≠ b.1.
Proof.
  unfold before. destruct (rstr_leb_total a.1 b.1) as [E|E]; rewrite ?E; split.
  - intros Hb. split; [done|]. intros Heq. rewrite Heq in Hb, E. congruence.
  - intros [_ Hne]. destruct (rstr_leb b.1 a.1) eqn:Hba; [|done]. by destruct Hne; apply rstr_leb_antisym.
  - done.
  - intros [Hab Hne]. by destruct Hne; apply rstr_leb_antisym.
Qed.

Lemma map_get_cons k v m k' : map_get ((k, v) :: m) k' = if decide (k = k') then Some v else map_get m k'.
Proof. unfold map_get. cbn. case_decide; [done|]. by destruct (list_find _ m) as [[i x]|]. Qed.

Lemma map_get_below k (m : list (rstr * V)) : Forall (λ kv, rstr_leb kv.1 k = false) m → map_get m k = None.
Proof.
  induction 1 as [|[k' v'] m Hk _ IH]; [done|]. rewrite map_get_cons, decide_False; [done|].
  intros ->. cbn in Hk. destruct (rstr_leb_total k k); congruence.
Qed.

Lemma map_get_insert k v m k' :
  btree m → map_get (map_insert k v m) k' = if decide (k' = k) then Some v else map_get m k'.
Proof.
  induction 1 as [|[k0 v0] m Hs IH Hall]; cbn [map_insert].
  - rewrite map_get_cons. repeat case_decide; congruence.
  - case_bool_decide as Ek; [|destruct (rstr_leb k0 k) eqn:Hle].
    + subst k0. rewrite !map_get_cons. repeat case_decide; congruence.
    + rewrite !map_get_cons, IH. repeat case_decide; congruence.
    + rewrite !map_get_cons. repeat case_decide; congruence.
Qed.

Lemma map_insert_elem k v m kv : kv ∈ map_insert k v m → kv = (k, v) ∨ kv ∈ m ∨ kv.1 = k.
Proof.
  induction m as [|[k0 v0] m IH]; cbn [map_insert].
  - intros ->%list_elem_of_singleton. by left.
  - case_bool_decide as Ek; [|destruct (rstr_leb k0 k)]; rewrite !elem_of_cons.
    + intros [->|]; [by right; right|]. by right; left; right.
    + intros [->|Hin]; [by right; left; left|]. destruct (IH Hin) as [|[|]]; auto.
    + intros [->|Hin]; auto.
Qed.

Lemma map_insert_btree k v m : btree m → btree (map_insert k v m).
Proof.
  unfold btree. induction 1 as [|[k0 v0] m Hs IH Hall]; cbn [map_insert]; [repeat constructor|].
  assert (rstr_leb k0 k = false → Forall (before (k, v)) ((k0, v0) :: m)) as Hbefore.
  { intros Hle. constructor; [done|]. eapply Forall_impl; [exact Hall|]. intros [k1 v1] Hb. unfold before in *. cbn in *.
    destruct (rstr_leb k1 k) eqn:E; [|done]. destruct (rstr_leb_total k0 k1) as [Hx|]; [|congruence].
    pose proof (rstr_leb_trans k0 k1 k Hx E). congruence. }
  case_bool_decide as Ek; [|destruct (rstr_leb k0 k) eqn:Hle].
  - subst. by constructor.
  - constructor; [done|]. apply Forall_forall. intros kv Hin.
    apply map_insert_elem in Hin as [->|[Hin|E]].
    + apply before_iff. split; [done|]. cbn. congruence.
    + rewrite Forall_forall in Hall. by apply Hall.
    + apply before_iff. rewrite E. split; [done|]. cbn. congruence.
  - by constructor; [constructor|apply Hbefore].
Qed.

Lemma map_get_remove k m k' : map_get (map_remove k m) k' = if decide (k' = k) then None else map_get m k'.
Proof.
  unfold map_remove. induction m as [|[k0 v0] m IH]; [by case_decide|]. destruct (decide (k0 = k)) as [->|Hk].
  - rewrite filter_cons_False by (cbn; naive_solver). rewrite IH, map_get_cons. repeat case_decide; congruence.
  - rewrite filter_cons_True by done. rewrite !map_get_cons, IH. repeat case_decide; congruence.
Qed.
Lemma map_remove_btree k m : btree m → btree (map_remove k m).
Proof.
  unfold btree, map_remove. induction 1 as [|kv m Hs IH Hall]; [constructor|]. rewrite filter_cons.
  case_decide; [|done]. constructor; [done|]. rewrite Forall_forall in Hall |- *.
  intros x [_ Hx]%list_elem_of_filter. by apply Hall.
Qed.
End map.
