(* ===== verification/Json.v ===== *)
(** * JSON values

    The crate [serde_json] as the code uses it: values, the [json!] macro that builds them, the
    accessors that take them apart, and parsing.  The crate is the class [SerdeJson], what its
    documentation promises of the accessors the class [SerdeJsonLaws], and [toy_json] an
    instance.  A [Map<String, Value>] is the list of its entries, one for each key. *)

From Stdlib Require Import Lia ZArith.
From stdpp Require Import base decidable sets list strings.
From S2P Require Import Prelude.
From S2P Require Import RustFloat.
From S2P Require Import RustStr.
From S2P Require Import RustMap.

Class SerdeJson := {
  Value : Type;
  json_null : Value;
  json_bool : bool → Value;
  json_u64 : N → Value;
  json_i64 : Z → Value;
  json_f64 : f64 → Value;
  json_string : rstr → Value;
  json_array : list Value → Value;
  json_object : list (rstr * Value) → Value;
  is_null : Value → bool;
  as_bool : Value → option bool;
  as_u64 : Value → option N;
  as_i64 : Value → option Z;
  as_f64 : Value → option f64;
  as_str : Value → option rstr;
  as_array : Value → option (list Value);
  as_object : Value → option (list (rstr * Value));
  (** [serde_json::from_str], with the text of its error *)
  from_str : rstr → result rstr Value;
  (** [serde_json::to_vec], as the length of the text *)
  text_len : Value → N;
}.

(** [json!] of an optional value *)
Definition json_option `{SerdeJson} {A} (f : A → Value) (o : option A) : Value :=
  match o with Some x => f x | None => json_null end.

Definition fields {A} (l : list (string * A)) : list (rstr * A) := prod_map lit id <$> l.
(** [json!({ "key": value, .. })] *)
Definition obj `{SerdeJson} (l : list (string * Value)) : Value := json_object (fields l).

(** ** What is promised *)

(** Two maps with the same entries *)
Definition same_map {A} (m m' : list (rstr * A)) : Prop :=
  length m = length m' ∧ ∀ k, map_get m k = map_get m' k.

Class SerdeJsonLaws `{SerdeJson} : Prop := {
  is_null_iff v : is_null v = true ↔ v = json_null;
  null_not_object l : json_object l ≠ json_null;
  null_not_u64 n : json_u64 n ≠ json_null;
  as_bool_bool b : as_bool (json_bool b) = Some b;
  as_u64_u64 n : (n < 2 ^ 64)%N → as_u64 (json_u64 n) = Some n;
  as_u64_bound v n : as_u64 v = Some n → (n < 2 ^ 64)%N;
  as_i64_i64 z : (- 2 ^ 63 ≤ z < 2 ^ 63)%Z → as_i64 (json_i64 z) = Some z;
  as_i64_bound v z : as_i64 v = Some z → (- 2 ^ 63 ≤ z < 2 ^ 63)%Z;
  as_f64_f64 x : is_finite x = true → as_f64 (json_f64 x) = Some x;
  as_str_string s : as_str (json_string s) = Some s;
  as_array_array l : as_array (json_array l) = Some l;
  as_object_object l : NoDup l.*1 → ∃ m, as_object (json_object l) = Some m ∧ same_map m l;
}.

Section laws.
Context `{SerdeJsonLaws}.

Lemma is_null_null : is_null json_null = true.
Proof. by apply is_null_iff. Qed.
Lemma is_null_object l : is_null (json_object l) = false.
Proof. destruct (is_null _) eqn:E; [|done]. apply is_null_iff in E. by apply null_not_object in E. Qed.
Lemma is_null_u64 n : is_null (json_u64 n) = false.
Proof. destruct (is_null _) eqn:E; [|done]. apply is_null_iff in E. by apply null_not_u64 in E. Qed.
End laws.

(** ** Reading what was written *)

Fixpoint assoc {A} (name : string) (l : list (string * A)) : option A :=
  match l with
  | [] => None
  | (k, v) :: l => if String.eqb k name then Some v else assoc name l
  end.

Lemma map_get_fields {A} (l : list (string * A)) name : map_get (fields l) (lit name) = assoc name l.
Proof.
  induction l as [|[k v] l IH]; [done|]. change (fields ((k, v) :: l)) with ((lit k, v) :: fields l).
  rewrite map_get_cons. cbn [assoc]. destruct (String.eqb_spec k name) as [->|Hne]; [by rewrite decide_True|].
  rewrite decide_False; [done|]. by intros ?%lit_inj.
Qed.

(** The names of the fields of an object, all different *)
Fixpoint distinct (l : list string) : bool :=
  match l with [] => true | k :: l => negb (existsb (String.eqb k) l) && distinct l end.

Lemma distinct_fields {A} (l : list (string * A)) : distinct l.*1 = true → NoDup (fields l).*1.
Proof.
  induction l as [|[k v] l IH]; cbn; [by constructor|]. intros [Hk Hl]%andb_prop. constructor; [|by apply IH].
  intros ([k' v'] & Hk' & Hin)%list_elem_of_fmap. cbn in Hk'. apply list_elem_of_fmap in Hin as ([n w] & [= -> ->] & Hin).
  apply lit_inj in Hk' as <-. apply negb_true_iff in Hk. assert (existsb (String.eqb k) l.*1 = true) as He; [|congruence].
  apply existsb_exists. exists k. split; [|apply String.eqb_refl]. apply list_elem_of_In, list_elem_of_fmap. by exists (k, w).
Qed.

Lemma as_object_obj `{SerdeJsonLaws} l :
  distinct l.*1 = true → ∃ m, as_object (obj l) = Some m ∧ same_map m (fields l).
Proof. intros Hd. apply as_object_object. by apply distinct_fields. Qed.

(** ** An instance *)

Inductive ToyValue : Type :=
| ToyNull | ToyBool (b : bool) | ToyU64 (n : N) | ToyI64 (z : Z) | ToyF64 (x : f64)
| ToyString (s : rstr) | ToyArray (l : list ToyValue) | ToyObject (l : list (rstr * ToyValue)).

(** [read] is what parsing makes of a text. *)
Definition toy_json (read : rstr → result rstr ToyValue) : SerdeJson := {|
  Value := ToyValue; json_null := ToyNull; json_bool := ToyBool; json_u64 := ToyU64;
  json_i64 := λ z, if (z <? 0)%Z then ToyI64 z else ToyU64 (Z.to_N z);
  json_f64 := λ x, if is_finite x then ToyF64 x else ToyNull;
  json_string := ToyString; json_array := ToyArray; json_object := ToyObject;
  is_null := λ v, match v with ToyNull => true | _ => false end;
  as_bool := λ v, match v with ToyBool b => Some b | _ => None end;
  as_u64 := λ v, match v with ToyU64 n => if (n <? 2 ^ 64)%N then Some n else None | _ => None end;
  as_i64 := λ v, match v with ToyI64 z => if ((- 2 ^ 63 <=? z) && (z <? 2 ^ 63))%Z then Some z else None
                 | ToyU64 n => if (n <? 2 ^ 63)%N then Some (Z.of_N n) else None | _ => None end;
  as_f64 := λ v, match v with ToyF64 x => Some x | ToyU64 n => Some (f64_of_Z (Z.of_N n))
                 | ToyI64 z => Some (f64_of_Z z) | _ => None end;
  as_str := λ v, match v with ToyString s => Some s | _ => None end;
  as_array := λ v, match v with ToyArray l => Some l | _ => None end;
  as_object := λ v, match v with ToyObject l => Some l | _ => None end;
  from_str := read;
  text_len := λ _, 0%N;
|}.

#[export] Instance toy_json_laws read : SerdeJsonLaws (H := toy_json read).
Proof.
  split; cbn; try done.
  - intros []; split; congruence.
  - intros n Hn. by destruct (N.ltb_spec n (2 ^ 64)); [|lia].
  - intros [] m; try done. destruct (N.ltb_spec n (2 ^ 64)); congruence.
  - intros z Hz. destruct (Z.ltb_spec z 0); cbn -[Z.pow N.pow].
    + by rewrite (proj2 (Z.leb_le _ _)), (proj2 (Z.ltb_lt _ _)) by lia.
    + rewrite (proj2 (N.ltb_lt _ _)) by lia. f_equal. lia.
  - intros v z. destruct v as [| |n|z0| | | |]; try done; cbn -[Z.pow N.pow].
    + destruct (N.ltb_spec n (2 ^ 63)); [|done]. intros [= <-]. lia.
    + destruct (Z.leb_spec (- 2 ^ 63) z0), (Z.ltb_spec z0 (2 ^ 63)); cbn; try done. intros [= <-]. lia.
  - by intros x ->.
  - intros l _. by exists l.
Qed.
