(* ===== verification/RenderWire.v ===== *)
(** * The JSON of the renderer protocol

    [crates/vixen-ffi/src/render_wire.rs]: how requests and updates of the broker are written
    for the renderer, and how its responses and submissions are read.  Definitions first; the
    theorems say that what the renderer writes is read as it was meant, and that what is
    written determines the message. *)

From Stdlib Require Import Lia ZArith Strings.Byte.
From stdpp Require Import base decidable gmap sets list strings.
From S2P Require Import Prelude.
From S2P Require Import RustFloat.
From S2P Require Import RenderModel.
From S2P Require Import RenderSource.
From S2P Require Import RenderCommit.
From S2P Require Import RenderBridge.
From S2P Require Import RendererBroker.
From S2P Require Import SyncRenderer.
From S2P Require Import RustStr.
From S2P Require Import RustMap.
From S2P Require Import Json.

(** ** Base64 *)

Definition ALPHABET : rstr := lit "ABCDEFGHIJKLMNOPQRSTUVWXYZabcdefghijklmnopqrstuvwxyz0123456789+/".
(** [ALPHABET[usize::from(i)] as char]; every [i] is below 64. *)
Definition alphabet_at (i : N) : N := nth (N.to_nat i) ALPHABET 0%N.

(** A turn of the loop: [chunk] has one to three bytes. *)
Definition encode_chunk (first : N) (second third : option N) : rstr :=
  let s := default 0%N second in
  let t := default 0%N third in
  [alphabet_at (N.shiftr first 2);
   alphabet_at (N.lor (N.shiftl (N.land first 3) 4) (N.shiftr s 4));
   match second with
   | Some _ => alphabet_at (N.lor (N.shiftl (N.land s 15) 2) (N.shiftr t 6))
   | None => 61%N
   end;
   match third with Some _ => alphabet_at (N.land t 63) | None => 61%N end].

Fixpoint encode_base64 (bytes : list Byte.byte) : rstr :=
  match bytes with
  | [] => []
  | [a] => encode_chunk (Byte.to_N a) None None
  | [a; b] => encode_chunk (Byte.to_N a) (Some (Byte.to_N b)) None
  | a :: b :: c :: rest =>
      encode_chunk (Byte.to_N a) (Some (Byte.to_N b)) (Some (Byte.to_N c)) ++ encode_base64 rest
  end.

(** ** Writing *)

Section write.
Context `{SerdeJson}.

Definition id_json (id : positive) : Value := json_u64 (id_get id).
Definition text_json (s : string) : Value := json_string (lit s).

Definition revision_json (revision : RenderRevision) : Value := obj
  [("context_id", id_json (rev_context_id revision)); ("document_id", id_json (rev_document_id revision));
   ("source_generation", json_u64 (rev_source_generation revision));
   ("style_generation", json_u64 (rev_style_generation revision));
   ("viewport_generation", json_u64 (rev_viewport_generation revision));
   ("resource_generation", json_u64 (rev_resource_generation revision))].

Definition viewport_json (viewport : RenderViewport) : Value := obj
  [("width", json_u64 (vp_width viewport)); ("height", json_u64 (vp_height viewport));
   ("device_scale", json_f64 (vp_device_scale viewport)); ("page_zoom", json_f64 (vp_page_zoom viewport))].

Definition point_json (point : RenderPoint) : Value :=
  obj [("x", json_f64 (pt_x point)); ("y", json_f64 (pt_y point))].

Definition affinity_name (affinity : RenderTextAffinity) : string :=
  match affinity with Upstream => "upstream" | Downstream => "downstream" end.

Definition semantic_action_name (action : RenderSemanticActionKind) : string :=
  match action with
  | KActivate => "activate" | KFocus => "focus" | KSetValue => "set_value" | KSetSelection => "set_selection"
  | KIncrease => "increase" | KDecrease => "decrease" | KScrollIntoView => "scroll_into_view"
  end.

Definition query_json (query : RenderTextQuery) : Value :=
  let kind :=
    match tq_kind query with
    | OffsetForPoint point => obj [("type", text_json "offset_for_point"); ("point", point_json point)]
    | CaretForOffset utf16_offset affinity =>
        obj [("type", text_json "caret_for_offset"); ("utf16_offset", json_u64 utf16_offset);
             ("affinity", text_json (affinity_name affinity))]
    | RangeBoxes utf16_start utf16_end =>
        obj [("type", text_json "range_boxes"); ("utf16_start", json_u64 utf16_start);
             ("utf16_end", json_u64 utf16_end)]
    end in
  obj [("query_id", id_json (tq_query_id query)); ("node_id", id_json (tq_node_id query)); ("kind", kind)].

Definition request_json (request : RenderBrokerRequest) : Value :=
  let body :=
    match req_kind request with
    | EnsureLayout required_revision =>
        obj [("type", text_json "ensure_layout"); ("required_revision", revision_json required_revision)]
    | ReqHitTest query =>
        obj [("type", text_json "hit_test"); ("context_id", id_json (ht_context_id query));
             ("document_id", id_json (ht_document_id query));
             ("displayed_commit_id", id_json (ht_displayed_commit_id query));
             ("revision", revision_json (ht_revision query)); ("handle", id_json (ht_handle query));
             ("query_id", id_json (ht_query_id query)); ("point", point_json (ht_point query))]
    | ReqTextQuery batch =>
        obj [("type", text_json "text_query"); ("context_id", id_json (tqb_context_id batch));
             ("document_id", id_json (tqb_document_id batch)); ("commit_id", id_json (tqb_commit_id batch));
             ("revision", revision_json (tqb_revision batch)); ("handle", id_json (tqb_handle batch));
             ("allow_truncation", json_bool (tqb_allow_truncation batch));
             ("queries", json_array (query_json <$> tqb_queries batch))]
    | CaptureScene capture =>
        obj [("type", text_json "capture_scene"); ("context_id", id_json (cap_context_id capture));
             ("document_id", id_json (cap_document_id capture));
             ("displayed_commit_id", json_u64 (cap_displayed_commit_id capture));
             ("revision", revision_json (cap_revision capture)); ("viewport", viewport_json (cap_viewport capture))]
    | ReqReset context_id document_id =>
        obj [("type", text_json "reset"); ("context_id", id_json context_id); ("document_id", id_json document_id)]
    end in
  obj [("v", json_u64 RENDER_PROTOCOL_VERSION); ("type", text_json "renderer_request");
       ("request_id", id_json (req_request_id request)); ("request", body)].

Definition node_json (node : RenderNode) : Value :=
  let kind :=
    match node_kind node with
    | Element local_name => obj [("type", text_json "element"); ("local_name", json_string local_name)]
    | Text text => obj [("type", text_json "text"); ("text", json_string text)]
    | PseudoBefore text => obj [("type", text_json "pseudo_before"); ("text", json_string text)]
    | PseudoAfter text => obj [("type", text_json "pseudo_after"); ("text", json_string text)]
    end in
  let semantic := json_option (λ semantic, obj
    [("id", id_json (sem_id semantic)); ("role", json_string (sem_role semantic));
     ("name", json_string (sem_name semantic)); ("value", json_option json_string (sem_value semantic));
     ("action_generation", json_u64 (sem_action_generation semantic));
     ("actions", json_array ((λ action, text_json (semantic_action_name action)) <$> sem_actions semantic))])
    (node_semantic node) in
  obj [("id", id_json (node_id node)); ("parent_id", json_option id_json (node_parent_id node));
       ("sibling_index", json_u64 (node_sibling_index node)); ("depth", json_u64 (node_depth node));
       ("kind", kind);
       ("styles", json_array ((λ style, obj [("name", json_string (sty_name style)); ("value", json_string (sty_value style))])
                                <$> node_styles node));
       ("resource_ids", json_array (id_json <$> node_resource_ids node)); ("semantic", semantic)].

Definition resource_json (resource : RenderResource) : Value := obj
  [("id", id_json (res_id resource));
   ("kind", text_json match res_kind resource with Image => "image" | Font => "font" end);
   ("mime", json_string (res_mime resource)); ("bytes", json_string (encode_base64 (res_bytes resource)))].

Definition scroll_intent_json (intent : RenderScrollIntent) : Value :=
  let '(kind, point) := match int_kind intent with
    | By point => ("by", point) | To point => ("to", point) | Restore point => ("restore", point) end in
  obj [("scroll_node_id", id_json (int_scroll_node_id intent)); ("node_id", id_json (int_node_id intent));
       ("kind", text_json kind); ("point", point_json point)].

Definition handle_release_json (release : RenderHandleRelease) : Value := obj
  [("type", text_json "handle_release"); ("commit_id", id_json (rel_commit_id release));
   ("hit_test_handle", id_json (rel_hit_test_handle release));
   ("text_query_handle", id_json (rel_text_query_handle release))].

Definition snapshot_json (snapshot : FullRenderSnapshot) : Value := obj
  [("type", text_json "full_snapshot"); ("revision", revision_json (snap_revision snapshot));
   ("viewport", viewport_json (snap_viewport snapshot));
   ("nodes", json_array (node_json <$> snap_nodes snapshot));
   ("resources", json_array (resource_json <$> snap_resources snapshot));
   ("scroll_intents", json_array (scroll_intent_json <$> snap_scroll_intents snapshot))].

Definition mutation_json (mutation : RenderMutation) : Value :=
  match mutation with
  | SetViewport viewport => obj [("type", text_json "set_viewport"); ("viewport", viewport_json viewport)]
  | UpsertNode node => obj [("type", text_json "upsert_node"); ("node", node_json node)]
  | RemoveNode node_id => obj [("type", text_json "remove_node"); ("node_id", id_json node_id)]
  | UpsertResource resource => obj [("type", text_json "upsert_resource"); ("resource", resource_json resource)]
  | RemoveResource resource_id => obj [("type", text_json "remove_resource"); ("resource_id", id_json resource_id)]
  | SetScrollIntent intent => obj [("type", text_json "set_scroll_intent"); ("intent", scroll_intent_json intent)]
  | RemoveScrollIntent scroll_node_id =>
      obj [("type", text_json "remove_scroll_intent"); ("scroll_node_id", id_json scroll_node_id)]
  end.

Definition mutation_batch_json (batch : RenderMutationBatch) : Value := obj
  [("type", text_json "mutation_batch"); ("base_revision", revision_json (batch_base_revision batch));
   ("target_revision", revision_json (batch_target_revision batch));
   ("mutations", json_array (mutation_json <$> batch_mutations batch))].

Definition update_json (update : RenderBridgeUpdate) : Value :=
  let update :=
    match update with
    | FullSnapshot snapshot => snapshot_json snapshot
    | MutationBatch batch => mutation_batch_json batch
    | ReleaseHandles release => handle_release_json release
    end in
  obj [("v", json_u64 RENDER_PROTOCOL_VERSION); ("type", text_json "renderer_update"); ("update", update)].

Definition message_json (message : RenderBrokerMessage) : Value :=
  match message with MRequest request => request_json request | MUpdate update => update_json update end.
End write.

(** ** Reading *)

Section read.
Context `{SerdeJson}.
Abbreviation Map := (list (rstr * Value)).

Definition invalid (message : rstr) : AbiError := invalid_command message.
Definition protocol_error {A} (r : presult A) : result AbiError A := map_err (λ e, invalid (message e)) r.

Definition field (value : Map) (name : string) : option Value := map_get value (lit name).

(** [value.len() != expected.len() || !expected.iter().all(|field| value.contains_key(field))] *)
Definition keys (value : Map) (expected : list string) : result AbiError unit :=
  throw_if (negb (length value =? length expected)%nat ||
            negb (forallb (λ f, bool_decide (is_Some (field value f))) expected))
    (invalid (lit "renderer object has missing or unknown fields")).

Definition object (value : Value) (name : string) : result AbiError Map :=
  ok_or (as_object value) (invalid (lit name ++ lit " must be an object")).

Definition required (value : Map) (name : string) : result AbiError Value :=
  ok_or (field value name) (invalid (lit name ++ lit " is required")).

Definition object_field (value : Map) (name : string) : result AbiError Map :=
  v ← required value name; object v name.

Definition optional_object (value : Map) (name : string) : result AbiError (option Map) :=
  v ← required value name;
  if is_null v then Ok None else m ← object v name; Ok (Some m).

Definition array (value : Map) (name : string) : result AbiError (list Value) :=
  ok_or (v ← field value name; as_array v) (invalid (lit name ++ lit " must be an array")).

Definition string_field (value : Map) (name : string) : result AbiError rstr :=
  ok_or (v ← field value name; as_str v) (invalid (lit name ++ lit " must be a string")).

Definition bounded_string (value : Map) (name : string) (limit : N) : result AbiError rstr :=
  s ← string_field value name;
  if (limit <? str_len s)%N then Err (invalid (lit name ++ lit " exceeds " ++ dec limit ++ lit " bytes")) else Ok s.

Definition u64_field (value : Map) (name : string) : result AbiError N :=
  ok_or (v ← field value name; as_u64 v) (invalid (lit name ++ lit " must be an unsigned integer")).

Definition u32_value (value : Map) (name : string) : result AbiError N :=
  n ← u64_field value name;
  if (n <? 2 ^ 32)%N then Ok n else Err (invalid (lit name ++ lit " must fit unsigned 32 bits")).

Definition f64_field (value : Map) (name : string) : result AbiError f64 :=
  ok_or (v ← field value name; x ← as_f64 v; if is_finite x then Some x else None)
    (invalid (lit name ++ lit " must be a finite number")).

Definition bool_field (value : Map) (name : string) : result AbiError bool :=
  ok_or (v ← field value name; as_bool v) (invalid (lit name ++ lit " must be a boolean")).

(** [T::new(u64_field(value, name)?).ok_or_else(|| invalid(message))?] *)
Definition id_field (value : Map) (name message : string) : result AbiError positive :=
  n ← u64_field value name; ok_or (id_new n) (invalid (lit message)).

Definition version (value : Map) : result AbiError unit :=
  v ← u64_field value "v";
  throw_if (negb (v =? RENDER_PROTOCOL_VERSION)%N) (invalid (lit "renderer payload version is unsupported")).

Definition context_id (value : Map) : result AbiError BrowsingContextId :=
  id_field value "context_id" "context_id must be nonzero".
Definition document_id (value : Map) : result AbiError DocumentId :=
  id_field value "document_id" "document_id must be nonzero".
Definition render_node_id (value : Map) (name : string) : result AbiError RenderNodeId :=
  n ← u64_field value name; ok_or (id_new n) (invalid (lit name ++ lit " must be nonzero")).

Definition optional_id (value : Map) (name : string) : result AbiError (option positive) :=
  v ← required value name;
  if is_null v then Ok None
  else n ← ok_or (as_u64 v) (invalid (lit name ++ lit " must be an integer or null"));
       id ← ok_or (id_new n) (invalid (lit name ++ lit " must be nonzero"));
       Ok (Some id).

(** [.iter().map(|value| parse(object(value, name)?)).collect()] *)
Definition collect_objects {A} (parse : Map → result AbiError A) (name : string) : list Value → result AbiError (list A) :=
  collect (λ v, m ← object v name; parse m).

Definition parse_revision (value : Map) : result AbiError RenderRevision :=
  _ ← keys value ["context_id"; "document_id"; "resource_generation"; "source_generation"; "style_generation"; "viewport_generation"];
  c ← context_id value; d ← document_id value;
  source ← u64_field value "source_generation"; style ← u64_field value "style_generation";
  viewport ← u64_field value "viewport_generation"; resource ← u64_field value "resource_generation";
  let revision := {| rev_context_id := c; rev_document_id := d; rev_source_generation := source;
                     rev_style_generation := style; rev_viewport_generation := viewport;
                     rev_resource_generation := resource |} in
  _ ← protocol_error (RenderRevision_validate revision);
  Ok revision.

Definition optional_revision (value : Map) (name : string) : result AbiError (option RenderRevision) :=
  v ← required value name;
  if is_null v then Ok None else m ← object v name; r ← parse_revision m; Ok (Some r).

Definition parse_viewport (value : Map) : result AbiError RenderViewport :=
  _ ← keys value ["device_scale"; "height"; "page_zoom"; "width"];
  width ← u32_value value "width"; height ← u32_value value "height";
  scale ← f64_field value "device_scale"; zoom ← f64_field value "page_zoom";
  let viewport := {| vp_width := width; vp_height := height; vp_device_scale := scale; vp_page_zoom := zoom |} in
  _ ← protocol_error (RenderViewport_validate viewport);
  Ok viewport.

Definition parse_point (value : Map) : result AbiError RenderPoint :=
  _ ← keys value ["x"; "y"];
  x ← f64_field value "x"; y ← f64_field value "y";
  let point := {| pt_x := x; pt_y := y |} in
  _ ← protocol_error (RenderPoint_validate point (lit "wire point"));
  Ok point.

Definition parse_size (value : Map) : result AbiError RenderSize :=
  _ ← keys value ["height"; "width"];
  width ← f64_field value "width"; height ← f64_field value "height";
  let size := {| sz_width := width; sz_height := height |} in
  _ ← protocol_error (RenderSize_validate size (lit "wire size"));
  Ok size.

Definition parse_rect (value : Map) : result AbiError RenderRect :=
  _ ← keys value ["height"; "width"; "x"; "y"];
  x ← f64_field value "x"; y ← f64_field value "y";
  width ← f64_field value "width"; height ← f64_field value "height";
  let rect := {| rc_x := x; rc_y := y; rc_width := width; rc_height := height |} in
  _ ← protocol_error (RenderRect_validate rect (lit "wire rectangle"));
  Ok rect.

Definition parse_affinity (value : rstr) : result AbiError RenderTextAffinity :=
  if bool_decide (value = lit "upstream") then Ok Upstream
  else if bool_decide (value = lit "downstream") then Ok Downstream
  else Err (invalid (lit "unknown text affinity")).

(** [parse_x(object_field(value, name)?)?] *)
Definition nested {A} (parse : Map → result AbiError A) (value : Map) (name : string) : result AbiError A :=
  m ← object_field value name; parse m.

(** [optional_object(value, name)?.map(parse_x).transpose()?] *)
Definition optional_nested {A} (parse : Map → result AbiError A) (value : Map) (name : string) : result AbiError (option A) :=
  o ← optional_object value name;
  match o with None => Ok None | Some m => x ← parse m; Ok (Some x) end.

Definition parse_geometry (value : Map) : result AbiError RenderGeometryEntry :=
  _ ← keys value ["border_box"; "clip"; "content_box"; "fragment_id"; "node_id"; "padding_box"; "paint_order"; "scroll_node_id"];
  node ← render_node_id value "node_id";
  fragment ← id_field value "fragment_id" "fragment_id must be nonzero";
  border ← nested parse_rect value "border_box"; padding ← nested parse_rect value "padding_box";
  content ← nested parse_rect value "content_box";
  clip ← optional_nested parse_rect value "clip";
  scroll ← optional_id value "scroll_node_id";
  order ← u32_value value "paint_order";
  Ok {| geo_node_id := node; geo_fragment_id := fragment; geo_border_box := border; geo_padding_box := padding;
        geo_content_box := content; geo_clip := clip; geo_scroll_node_id := scroll; geo_paint_order := order |}.

Definition parse_scroll (value : Map) : result AbiError RenderScrollState :=
  _ ← keys value ["content_size"; "max_offset"; "node_id"; "offset"; "scroll_node_id"; "viewport"];
  scroll ← id_field value "scroll_node_id" "scroll_node_id must be nonzero";
  node ← render_node_id value "node_id";
  offset ← nested parse_point value "offset"; max ← nested parse_point value "max_offset";
  viewport ← nested parse_rect value "viewport"; content ← nested parse_size value "content_size";
  Ok {| ss_scroll_node_id := scroll; ss_node_id := node; ss_offset := offset; ss_max_offset := max;
        ss_viewport := viewport; ss_content_size := content |}.

Definition parse_semantic_bounds (value : Map) : result AbiError RenderSemanticBounds :=
  _ ← keys value ["node_id"; "rects"; "semantic_node_id"];
  semantic ← id_field value "semantic_node_id" "semantic_node_id must be nonzero";
  node ← render_node_id value "node_id";
  rects ← array value "rects"; rects ← collect_objects parse_rect "semantic rect" rects;
  Ok {| sb_semantic_node_id := semantic; sb_node_id := node; sb_rects := rects |}.

Definition domain_of (name : rstr) : option RenderLimitDomain :=
  snd <$> find (λ x, bool_decide (name = lit x.1))
    [("nodes", Nodes); ("tree_depth", TreeDepth); ("mutations", Mutations); ("resources", Resources);
     ("resource_bytes", ResourceBytes); ("string_bytes", StringBytes); ("geometry", Geometry);
     ("scroll_entries", ScrollEntries); ("semantic_bounds", SemanticBounds);
     ("text_queries", TextQueries); ("text_boxes", TextBoxes)].

Definition parse_truncation (value : Map) : result AbiError RenderTruncationDiagnostic :=
  _ ← keys value ["domain"; "limit"; "omitted"; "required"];
  domain ← string_field value "domain";
  domain ← ok_or (domain_of domain) (invalid (lit "unknown truncation domain"));
  limit ← u64_field value "limit"; omitted ← u64_field value "omitted"; required ← bool_field value "required";
  Ok {| trunc_domain := domain; trunc_limit := limit; trunc_omitted := omitted; trunc_required := required |}.

Definition parse_commit (value : Map) : result AbiError RenderCommit :=
  _ ← keys value ["commit_id"; "geometry_index"; "hit_test_handle"; "revision"; "scroll_snapshot"; "semantic_bounds";
                  "text_query_handle"; "truncations"; "type"; "viewport"];
  geometry ← array value "geometry_index"; scroll ← array value "scroll_snapshot";
  semantics ← array value "semantic_bounds"; truncated ← array value "truncations";
  _ ← throw_if ((RENDER_MAX_GEOMETRY_ENTRIES <? len geometry)%N || (RENDER_MAX_SCROLL_ENTRIES <? len scroll)%N ||
                (RENDER_MAX_SEMANTIC_BOUNDS <? len semantics)%N || (RENDER_MAX_TRUNCATION_DIAGNOSTICS <? len truncated)%N)
        (invalid (lit "renderer commit exceeds protocol limits"));
  commit ← id_field value "commit_id" "commit_id must be nonzero";
  revision ← nested parse_revision value "revision"; viewport ← nested parse_viewport value "viewport";
  geometry ← collect_objects parse_geometry "geometry entry" geometry;
  hit ← id_field value "hit_test_handle" "hit_test_handle must be nonzero";
  text ← id_field value "text_query_handle" "text_query_handle must be nonzero";
  scroll ← collect_objects parse_scroll "scroll entry" scroll;
  semantics ← collect_objects parse_semantic_bounds "semantic bounds" semantics;
  truncated ← collect_objects parse_truncation "truncation" truncated;
  Ok {| commit_version := RENDER_PROTOCOL_VERSION; commit_id := commit; commit_revision := revision;
        commit_viewport := viewport; geometry_index := geometry; hit_test_handle := hit; text_query_handle := text;
        scroll_snapshot := scroll; semantic_bounds := semantics; truncations := truncated |}.

Definition parse_presented (value : Map) : result AbiError RenderPresented :=
  _ ← keys value ["commit_id"; "context_id"; "document_id"; "revision"; "type"];
  c ← context_id value; d ← document_id value;
  commit ← id_field value "commit_id" "commit_id must be nonzero";
  revision ← nested parse_revision value "revision";
  Ok {| pres_version := RENDER_PROTOCOL_VERSION; pres_context_id := c; pres_document_id := d;
        pres_commit_id := commit; pres_revision := revision |}.

Definition parse_resync (value : Map) : result AbiError RenderResyncRequest :=
  _ ← keys value ["context_id"; "current_revision"; "document_id"; "reason"; "rejected_base_revision"; "type"];
  c ← context_id value; d ← document_id value;
  current ← optional_revision value "current_revision";
  rejected ← optional_revision value "rejected_base_revision";
  reason ← string_field value "reason";
  reason ← (if bool_decide (reason = lit "missing_state") then Ok MissingState
            else if bool_decide (reason = lit "missed_base_revision") then Ok MissedBaseRevision
            else if bool_decide (reason = lit "renderer_reset") then Ok RendererReset
            else Err (invalid (lit "unknown renderer resync reason")));
  Ok {| resync_version := RENDER_PROTOCOL_VERSION; resync_context_id := c; resync_document_id := d;
        resync_current_revision := current; resync_rejected_base_revision := rejected; resync_reason := reason |}.

(** The envelope of a message: its version, its type *)
Definition envelope (input : rstr) (name type error : string) (expected : list string) : result AbiError Map :=
  value ← map_err (λ error, invalid (lit "invalid renderer JSON: " ++ error)) (from_str input);
  m ← object value name;
  _ ← keys m expected;
  v ← u64_field m "v";
  if negb (v =? RENDER_PROTOCOL_VERSION)%N then Err (invalid (lit error))
  else t ← string_field m "type";
       if bool_decide (t = lit type) then Ok m else Err (invalid (lit error)).

Definition parse_submission (input : rstr) : result AbiError RenderBridgeSubmission :=
  m ← envelope input "renderer submission" "renderer_submission" "unsupported renderer submission envelope"
        ["submission"; "type"; "v"];
  submission ← object_field m "submission";
  t ← string_field submission "type";
  submission ← (if bool_decide (t = lit "commit") then c ← parse_commit submission; Ok (SubmitCommit c)
                else if bool_decide (t = lit "presented") then p ← parse_presented submission; Ok (SubmitPresented p)
                else if bool_decide (t = lit "resync") then r ← parse_resync submission; Ok (SubmitResync r)
                else Err (invalid (lit "unknown renderer submission type")));
  _ ← protocol_error (validate_transport submission);
  Ok submission.

Definition parse_input_target (value : Map) : result AbiError RenderInputTarget :=
  _ ← keys value ["context_id"; "displayed_commit_id"; "document_id"; "fragment_id"; "handle"; "local_point"; "node_id";
                  "query_id"; "revision"; "v"; "viewport_point"];
  _ ← version value;
  query ← id_field value "query_id" "query_id must be nonzero";
  c ← context_id value; d ← document_id value;
  commit ← id_field value "displayed_commit_id" "displayed_commit_id must be nonzero";
  revision ← nested parse_revision value "revision";
  handle ← id_field value "handle" "hit-test handle must be nonzero";
  node ← render_node_id value "node_id";
  fragment ← id_field value "fragment_id" "fragment_id must be nonzero";
  viewport ← nested parse_point value "viewport_point"; local ← nested parse_point value "local_point";
  Ok {| it_version := RENDER_PROTOCOL_VERSION; it_query_id := query; it_context_id := c; it_document_id := d;
        it_displayed_commit_id := commit; it_revision := revision; it_handle := handle; it_node_id := node;
        it_fragment_id := fragment; it_viewport_point := viewport; it_local_point := local |}.

Definition parse_hit_test_query (value : Map) : result AbiError RenderHitTestQuery :=
  _ ← keys value ["context_id"; "displayed_commit_id"; "document_id"; "handle"; "point"; "query_id"; "revision"; "v"];
  _ ← version value;
  query ← id_field value "query_id" "query_id must be nonzero";
  c ← context_id value; d ← document_id value;
  commit ← id_field value "displayed_commit_id" "displayed_commit_id must be nonzero";
  revision ← nested parse_revision value "revision";
  handle ← id_field value "handle" "hit-test handle must be nonzero";
  point ← nested parse_point value "point";
  Ok {| ht_version := RENDER_PROTOCOL_VERSION; ht_query_id := query; ht_context_id := c; ht_document_id := d;
        ht_displayed_commit_id := commit; ht_revision := revision; ht_handle := handle; ht_point := point |}.

Definition parse_text_box (value : Map) : result AbiError RenderTextBox :=
  _ ← keys value ["direction"; "rect"];
  rect ← nested parse_rect value "rect";
  direction ← string_field value "direction";
  direction ← (if bool_decide (direction = lit "ltr") then Ok LeftToRight
               else if bool_decide (direction = lit "rtl") then Ok RightToLeft
               else Err (invalid (lit "unknown text direction")));
  Ok {| tb_rect := rect; tb_direction := direction |}.

(** A turn of the [map] of [parse_text_result], with [box_count] *)
Definition parse_text_entry (box_count : N) (entry : Value) : result AbiError (N * RenderTextQueryResult) :=
  entry ← object entry "text query result";
  _ ← keys entry ["query_id"; "value"];
  value ← object_field entry "value";
  t ← string_field value "type";
  '(box_count, parsed) ←
    (if bool_decide (t = lit "offset") then
       _ ← keys value ["affinity"; "type"; "utf16_offset"];
       offset ← u32_value value "utf16_offset";
       affinity ← string_field value "affinity"; affinity ← parse_affinity affinity;
       Ok (box_count, VOffset offset affinity)
     else if bool_decide (t = lit "caret") then
       _ ← keys value ["affinity"; "rect"; "type"];
       rect ← nested parse_rect value "rect";
       affinity ← string_field value "affinity"; affinity ← parse_affinity affinity;
       Ok (box_count, VCaret rect affinity)
     else if bool_decide (t = lit "range_boxes") then
       _ ← keys value ["boxes"; "type"];
       boxes ← array value "boxes";
       (* the sum of two lengths of vectors does not overflow a [usize] *)
       let box_count := (box_count + len boxes)%N in
       _ ← throw_if (RENDER_MAX_TEXT_BOXES <? box_count)%N (invalid (lit "text query result exceeds the text box limit"));
       boxes ← collect_objects parse_text_box "text box" boxes;
       Ok (box_count, VRangeBoxes boxes)
     else Err (invalid (lit "unknown text query result type")));
  query ← id_field entry "query_id" "query_id must be nonzero";
  Ok (box_count, {| tqr_query_id := query; tqr_value := parsed |}).

Fixpoint parse_text_entries (box_count : N) (entries : list Value) : result AbiError (list RenderTextQueryResult) :=
  match entries with
  | [] => Ok []
  | entry :: entries =>
      '(box_count, r) ← parse_text_entry box_count entry;
      rs ← parse_text_entries box_count entries;
      Ok (r :: rs)
  end.

Definition parse_text_result (value : Map) : result AbiError RenderTextQueryBatchResult :=
  _ ← keys value ["commit_id"; "context_id"; "document_id"; "results"; "revision"; "truncations"; "type"];
  results ← array value "results"; results ← parse_text_entries 0 results;
  c ← context_id value; d ← document_id value;
  commit ← id_field value "commit_id" "commit_id must be nonzero";
  revision ← nested parse_revision value "revision";
  truncated ← array value "truncations"; truncated ← collect_objects parse_truncation "truncation" truncated;
  Ok {| tqbr_version := RENDER_PROTOCOL_VERSION; tqbr_context_id := c; tqbr_document_id := d; tqbr_commit_id := commit;
        tqbr_revision := revision; tqbr_results := results; tqbr_truncations := truncated |}.

Definition cancellation_of (name : rstr) : option RenderBrokerCancellation :=
  snd <$> find (λ x, bool_decide (name = lit x.1))
    [("navigation", Navigation); ("stop", Stop); ("context_closed", ContextClosed); ("shutdown", Shutdown);
     ("deadline", Deadline)].

Definition parse_response (input : rstr) : result AbiError RenderBrokerResponse :=
  m ← envelope input "renderer response" "renderer_response" "unsupported renderer response envelope"
        ["request_id"; "response"; "type"; "v"];
  request ← id_field m "request_id" "renderer request_id must be nonzero";
  response ← object_field m "response";
  t ← string_field response "type";
  kind ← (if bool_decide (t = lit "cancelled") then
            _ ← keys response ["reason"; "type"];
            reason ← string_field response "reason";
            reason ← ok_or (cancellation_of reason) (invalid (lit "unknown renderer cancellation reason"));
            Ok (Cancelled reason)
          else if bool_decide (t = lit "failed") then
            _ ← keys response ["code"; "message"; "type"];
            code ← bounded_string response "code" 256; message ← bounded_string response "message" 4096;
            Ok (Failed code message)
          else if bool_decide (t = lit "hit_test") then
            _ ← keys response ["target"; "type"];
            target ← ok_or (field response "target") (invalid (lit "hit-test target is required"));
            if is_null target then Ok (RespHitTest None)
            else o ← object target "hit-test target"; x ← parse_input_target o; Ok (RespHitTest (Some x))
          else if bool_decide (t = lit "text_query") then r ← parse_text_result response; Ok (RespTextQuery r)
          else if bool_decide (t = lit "commit") then c ← parse_commit response; Ok (RespCommit c)
          else if bool_decide (t = lit "reset") then _ ← keys response ["type"]; Ok RespReset
          else Err (invalid (lit "unknown renderer response type")));
  Ok {| resp_version := RENDER_PROTOCOL_VERSION; resp_request_id := request; resp_kind := kind |}.
End read.

(** ** What the renderer writes
    The other side of the protocol, written like [message_json]: what a renderer sends for a
    response or a submission. *)

Section renderer.
Context `{SerdeJson}.

Definition size_json (size : RenderSize) : Value :=
  obj [("width", json_f64 (sz_width size)); ("height", json_f64 (sz_height size))].
Definition rect_json (rect : RenderRect) : Value :=
  obj [("x", json_f64 (rc_x rect)); ("y", json_f64 (rc_y rect));
       ("width", json_f64 (rc_width rect)); ("height", json_f64 (rc_height rect))].
Definition domain_name (domain : RenderLimitDomain) : string :=
  match domain with
  | Nodes => "nodes" | TreeDepth => "tree_depth" | Mutations => "mutations" | Resources => "resources"
  | ResourceBytes => "resource_bytes" | StringBytes => "string_bytes" | Geometry => "geometry"
  | ScrollEntries => "scroll_entries" | SemanticBounds => "semantic_bounds"
  | TextQueries => "text_queries" | TextBoxes => "text_boxes"
  end.
Definition truncation_json (x : RenderTruncationDiagnostic) : Value :=
  obj [("domain", text_json (domain_name (trunc_domain x))); ("limit", json_u64 (trunc_limit x));
       ("omitted", json_u64 (trunc_omitted x)); ("required", json_bool (trunc_required x))].
Definition geometry_json (x : RenderGeometryEntry) : Value :=
  obj [("node_id", id_json (geo_node_id x)); ("fragment_id", id_json (geo_fragment_id x));
       ("border_box", rect_json (geo_border_box x)); ("padding_box", rect_json (geo_padding_box x));
       ("content_box", rect_json (geo_content_box x)); ("clip", json_option rect_json (geo_clip x));
       ("scroll_node_id", json_option id_json (geo_scroll_node_id x)); ("paint_order", json_u64 (geo_paint_order x))].
Definition scroll_json (x : RenderScrollState) : Value :=
  obj [("scroll_node_id", id_json (ss_scroll_node_id x)); ("node_id", id_json (ss_node_id x));
       ("offset", point_json (ss_offset x)); ("max_offset", point_json (ss_max_offset x));
       ("viewport", rect_json (ss_viewport x)); ("content_size", size_json (ss_content_size x))].
Definition bounds_json (x : RenderSemanticBounds) : Value :=
  obj [("semantic_node_id", id_json (sb_semantic_node_id x)); ("node_id", id_json (sb_node_id x));
       ("rects", json_array (rect_json <$> sb_rects x))].
Definition commit_json (x : RenderCommit) : Value :=
  obj [("type", text_json "commit"); ("commit_id", id_json (commit_id x)); ("revision", revision_json (commit_revision x));
       ("viewport", viewport_json (commit_viewport x)); ("geometry_index", json_array (geometry_json <$> geometry_index x));
       ("hit_test_handle", id_json (hit_test_handle x)); ("text_query_handle", id_json (text_query_handle x));
       ("scroll_snapshot", json_array (scroll_json <$> scroll_snapshot x));
       ("semantic_bounds", json_array (bounds_json <$> semantic_bounds x));
       ("truncations", json_array (truncation_json <$> truncations x))].
Definition presented_json (x : RenderPresented) : Value :=
  obj [("type", text_json "presented"); ("context_id", id_json (pres_context_id x));
       ("document_id", id_json (pres_document_id x)); ("commit_id", id_json (pres_commit_id x));
       ("revision", revision_json (pres_revision x))].
Definition reason_name (reason : RenderResyncReason) : string :=
  match reason with MissingState => "missing_state" | MissedBaseRevision => "missed_base_revision"
  | RendererReset => "renderer_reset" end.
Definition resync_json (x : RenderResyncRequest) : Value :=
  obj [("type", text_json "resync"); ("context_id", id_json (resync_context_id x));
       ("document_id", id_json (resync_document_id x));
       ("current_revision", json_option revision_json (resync_current_revision x));
       ("rejected_base_revision", json_option revision_json (resync_rejected_base_revision x));
       ("reason", text_json (reason_name (resync_reason x)))].
Definition submission_json (x : RenderBridgeSubmission) : Value :=
  obj [("v", json_u64 RENDER_PROTOCOL_VERSION); ("type", text_json "renderer_submission");
       ("submission", match x with SubmitCommit c => commit_json c | SubmitPresented p => presented_json p
                      | SubmitResync r => resync_json r end)].

Definition input_target_json (x : RenderInputTarget) : Value :=
  obj [("v", json_u64 RENDER_PROTOCOL_VERSION); ("query_id", id_json (it_query_id x));
       ("context_id", id_json (it_context_id x)); ("document_id", id_json (it_document_id x));
       ("displayed_commit_id", id_json (it_displayed_commit_id x)); ("revision", revision_json (it_revision x));
       ("handle", id_json (it_handle x)); ("node_id", id_json (it_node_id x)); ("fragment_id", id_json (it_fragment_id x));
       ("viewport_point", point_json (it_viewport_point x)); ("local_point", point_json (it_local_point x))].
Definition box_json (x : RenderTextBox) : Value :=
  obj [("rect", rect_json (tb_rect x));
       ("direction", text_json match tb_direction x with LeftToRight => "ltr" | RightToLeft => "rtl" end)].
Definition text_value_json (x : RenderTextQueryValue) : Value :=
  match x with
  | VOffset offset affinity => obj [("type", text_json "offset"); ("utf16_offset", json_u64 offset);
      ("affinity", text_json (affinity_name affinity))]
  | VCaret rect affinity => obj [("type", text_json "caret"); ("rect", rect_json rect);
      ("affinity", text_json (affinity_name affinity))]
  | VRangeBoxes boxes => obj [("type", text_json "range_boxes"); ("boxes", json_array (box_json <$> boxes))]
  end.
Definition text_entry_json (x : RenderTextQueryResult) : Value :=
  obj [("query_id", id_json (tqr_query_id x)); ("value", text_value_json (tqr_value x))].
Definition text_result_json (x : RenderTextQueryBatchResult) : Value :=
  obj [("type", text_json "text_query"); ("context_id", id_json (tqbr_context_id x));
       ("document_id", id_json (tqbr_document_id x)); ("commit_id", id_json (tqbr_commit_id x));
       ("revision", revision_json (tqbr_revision x)); ("results", json_array (text_entry_json <$> tqbr_results x));
       ("truncations", json_array (truncation_json <$> tqbr_truncations x))].
Definition cancellation_name (reason : RenderBrokerCancellation) : string :=
  match reason with Navigation => "navigation" | Stop => "stop" | ContextClosed => "context_closed"
  | Shutdown => "shutdown" | Deadline => "deadline" end.
(** A capture is not sent as JSON. *)
Definition response_kind_json (x : RenderBrokerResponseKind) : Value :=
  match x with
  | RespCommit c => commit_json c
  | RespHitTest target => obj [("type", text_json "hit_test"); ("target", json_option input_target_json target)]
  | RespTextQuery r => text_result_json r
  | CapturePng _ => json_null
  | RespReset => obj [("type", text_json "reset")]
  | Cancelled reason => obj [("type", text_json "cancelled"); ("reason", text_json (cancellation_name reason))]
  | Failed code message => obj [("type", text_json "failed"); ("code", json_string code); ("message", json_string message)]
  end.
Definition response_json (x : RenderBrokerResponse) : Value :=
  obj [("v", json_u64 RENDER_PROTOCOL_VERSION); ("type", text_json "renderer_response");
       ("request_id", id_json (resp_request_id x)); ("response", response_kind_json (resp_kind x))].
End renderer.

(** ** Values that have a place in the protocol *)

Definition u64_ok (n : N) : Prop := (n < 2 ^ 64)%N.
Definition u32_ok (n : N) : Prop := (n < 2 ^ 32)%N.
Definition id_ok (id : positive) : Prop := u64_ok (id_get id).
Definition option_ok {A} (P : A → Prop) (o : option A) : Prop := ∀ x, o = Some x → P x.

Definition revision_ok (r : RenderRevision) : Prop :=
  id_ok (rev_context_id r) ∧ id_ok (rev_document_id r) ∧ Forall u64_ok (generations r) ∧ RenderRevision_validate r = Ok tt.
Definition geometry_ok (x : RenderGeometryEntry) : Prop :=
  id_ok (geo_node_id x) ∧ id_ok (geo_fragment_id x) ∧ rect_ok (geo_border_box x) ∧ rect_ok (geo_padding_box x) ∧
  rect_ok (geo_content_box x) ∧ option_ok rect_ok (geo_clip x) ∧ option_ok id_ok (geo_scroll_node_id x) ∧
  u32_ok (geo_paint_order x).
Definition scroll_ok (x : RenderScrollState) : Prop :=
  id_ok (ss_scroll_node_id x) ∧ id_ok (ss_node_id x) ∧ point_ok (ss_offset x) ∧ point_ok (ss_max_offset x) ∧
  rect_ok (ss_viewport x) ∧ size_ok (ss_content_size x).
Definition bounds_ok (x : RenderSemanticBounds) : Prop :=
  id_ok (sb_semantic_node_id x) ∧ id_ok (sb_node_id x) ∧ Forall rect_ok (sb_rects x).
Definition truncation_ok (x : RenderTruncationDiagnostic) : Prop := u64_ok (trunc_limit x) ∧ u64_ok (trunc_omitted x).
Definition commit_ok (x : RenderCommit) : Prop :=
  commit_version x = RENDER_PROTOCOL_VERSION ∧ id_ok (commit_id x) ∧ revision_ok (commit_revision x) ∧
  viewport_ok (commit_viewport x) ∧ id_ok (hit_test_handle x) ∧ id_ok (text_query_handle x) ∧
  ((len (geometry_index x) ≤ RENDER_MAX_GEOMETRY_ENTRIES)%N ∧ Forall geometry_ok (geometry_index x)) ∧
  ((len (scroll_snapshot x) ≤ RENDER_MAX_SCROLL_ENTRIES)%N ∧ Forall scroll_ok (scroll_snapshot x)) ∧
  ((len (semantic_bounds x) ≤ RENDER_MAX_SEMANTIC_BOUNDS)%N ∧ Forall bounds_ok (semantic_bounds x)) ∧
  ((len (truncations x) ≤ RENDER_MAX_TRUNCATION_DIAGNOSTICS)%N ∧ Forall truncation_ok (truncations x)).
Definition presented_ok (x : RenderPresented) : Prop :=
  pres_version x = RENDER_PROTOCOL_VERSION ∧ id_ok (pres_context_id x) ∧ id_ok (pres_document_id x) ∧
  id_ok (pres_commit_id x) ∧ revision_ok (pres_revision x).
Definition resync_ok (x : RenderResyncRequest) : Prop :=
  resync_version x = RENDER_PROTOCOL_VERSION ∧ id_ok (resync_context_id x) ∧ id_ok (resync_document_id x) ∧
  option_ok revision_ok (resync_current_revision x) ∧ option_ok revision_ok (resync_rejected_base_revision x).
Definition submission_ok (x : RenderBridgeSubmission) : Prop :=
  match x with SubmitCommit c => commit_ok c | SubmitPresented p => presented_ok p | SubmitResync r => resync_ok r end.

Definition input_target_ok (x : RenderInputTarget) : Prop :=
  it_version x = RENDER_PROTOCOL_VERSION ∧ id_ok (it_query_id x) ∧ id_ok (it_context_id x) ∧ id_ok (it_document_id x) ∧
  id_ok (it_displayed_commit_id x) ∧ revision_ok (it_revision x) ∧ id_ok (it_handle x) ∧ id_ok (it_node_id x) ∧
  id_ok (it_fragment_id x) ∧ point_ok (it_viewport_point x) ∧ point_ok (it_local_point x).
Definition text_value_ok (x : RenderTextQueryValue) : Prop :=
  match x with
  | VOffset offset _ => u32_ok offset
  | VCaret rect _ => rect_ok rect
  | VRangeBoxes boxes => Forall (λ b, rect_ok (tb_rect b)) boxes
  end.
(** The boxes of all the results of a text query *)
Definition boxes_of (x : RenderTextQueryResult) : N := match tqr_value x with VRangeBoxes boxes => len boxes | _ => 0 end.
(** What the reader asks of a text query result: the boxes are counted, the results and the
    truncation diagnostics are not ([parse_commit] counts its own); see [within_limits]. *)
Definition text_result_ok (x : RenderTextQueryBatchResult) : Prop :=
  tqbr_version x = RENDER_PROTOCOL_VERSION ∧ id_ok (tqbr_context_id x) ∧ id_ok (tqbr_document_id x) ∧
  id_ok (tqbr_commit_id x) ∧ revision_ok (tqbr_revision x) ∧
  Forall (λ r, id_ok (tqr_query_id r) ∧ text_value_ok (tqr_value r)) (tqbr_results x) ∧
  (sumN boxes_of (tqbr_results x) ≤ RENDER_MAX_TEXT_BOXES)%N ∧ Forall truncation_ok (tqbr_truncations x).
Definition response_kind_ok (x : RenderBrokerResponseKind) : Prop :=
  match x with
  | RespCommit c => commit_ok c
  | RespHitTest target => option_ok input_target_ok target
  | RespTextQuery r => text_result_ok r
  | CapturePng _ => False
  | RespReset | Cancelled _ => True
  | Failed code message => (str_len code ≤ 256)%N ∧ (str_len message ≤ 4096)%N
  end.
Definition response_ok (x : RenderBrokerResponse) : Prop :=
  resp_version x = RENDER_PROTOCOL_VERSION ∧ id_ok (resp_request_id x) ∧ response_kind_ok (resp_kind x).

(** The limits of the protocol on the lists and the text of a response *)
Definition within_limits (x : RenderBrokerResponse) : Prop :=
  match resp_kind x with
  | RespCommit c =>
      (len (geometry_index c) ≤ RENDER_MAX_GEOMETRY_ENTRIES ∧ len (scroll_snapshot c) ≤ RENDER_MAX_SCROLL_ENTRIES ∧
       len (semantic_bounds c) ≤ RENDER_MAX_SEMANTIC_BOUNDS ∧ len (truncations c) ≤ RENDER_MAX_TRUNCATION_DIAGNOSTICS)%N
  | RespTextQuery r =>
      (len (tqbr_results r) ≤ RENDER_MAX_TEXT_QUERIES ∧ sumN boxes_of (tqbr_results r) ≤ RENDER_MAX_TEXT_BOXES ∧
       len (tqbr_truncations r) ≤ RENDER_MAX_TRUNCATION_DIAGNOSTICS)%N
  | Failed code message => (str_len code ≤ 256 ∧ str_len message ≤ 4096)%N
  | RespHitTest _ | CapturePng _ | RespReset | Cancelled _ => True
  end.

(** ** Reading an object that was written *)

Section objects.
Context `{SerdeJsonLaws}.
Abbreviation Map := (list (rstr * Value)).

(** [parse] makes [x] of the value [v]. *)
Definition reads {A} (parse : Map → result AbiError A) (v : Value) (x : A) : Prop :=
  ∃ l, v = obj l ∧ distinct l.*1 = true ∧ ∀ m, same_map m (fields l) → parse m = Ok x.

(** The same for an object with a type *)
Definition reads_as {A} (type : string) (parse : Map → result AbiError A) (v : Value) (x : A) : Prop :=
  ∃ l, v = obj l ∧ distinct l.*1 = true ∧ assoc "type" l = Some (text_json type) ∧ ∀ m, same_map m (fields l) → parse m = Ok x.

Lemma reads_object {A} (parse : Map → result AbiError A) v x name : reads parse v x → ∃ m, object v name = Ok m ∧ parse m = Ok x.
Proof.
  intros (l & -> & Hd & Hl). destruct (as_object_obj l Hd) as (m & Hm & Hs). exists m. split; [|by apply Hl].
  unfold object. by rewrite Hm.
Qed.

Lemma reads_collect {A} (parse : Map → result AbiError A) name (f : A → Value) xs :
  Forall (λ x, reads parse (f x) x) xs → collect_objects parse name (f <$> xs) = Ok xs.
Proof.
  intros Hall. apply collect_Ok. induction Hall as [|x xs Hx _ IH]; cbn; constructor; [|done].
  destruct (reads_object _ _ _ name Hx) as (m & -> & Hm). exact Hm.
Qed.

Lemma object_reads {A} (parse : Map → result AbiError A) v x name :
  reads parse v x → is_null v = false ∧ ∃ m, object v name = Ok m ∧ parse m = Ok x.
Proof.
  intros Hr. split; [|by apply reads_object]. destruct Hr as (l & -> & _). apply is_null_object.
Qed.

Lemma object_obj l name : distinct l.*1 = true → ∃ m, object (obj l) name = Ok m ∧ same_map m (fields l).
Proof. intros (m & Hm & Hs)%as_object_obj. exists m. unfold object. by rewrite Hm. Qed.

Section map.
Context (m : Map) (l : list (string * Value)) (Hm : same_map m (fields l)).

Lemma field_obj name : field m name = assoc name l.
Proof. unfold field. destruct Hm as [_ ->]. apply map_get_fields. Qed.

Lemma keys_obj expected :
  (length l =? length expected)%nat && forallb (λ f, match assoc f l with Some _ => true | None => false end) expected = true →
  keys m expected = Ok tt.
Proof.
  intros [Hl Hf]%andb_prop. unfold keys. destruct Hm as [Hlen _]. rewrite Hlen. unfold fields. rewrite length_fmap, Hl. cbn.
  enough (forallb (λ f, bool_decide (is_Some (field m f))) expected = true) as -> by done.
  rewrite forallb_forall in Hf |- *. intros f Hin%Hf. apply bool_decide_eq_true. rewrite field_obj. by destruct (assoc f l).
Qed.

Lemma u64_obj name n : assoc name l = Some (json_u64 n) → u64_ok n → u64_field m name = Ok n.
Proof. intros Ha Hn. unfold u64_field. rewrite field_obj, Ha. cbn. by rewrite as_u64_u64. Qed.
Lemma u32_obj name n : assoc name l = Some (json_u64 n) → u32_ok n → u32_value m name = Ok n.
Proof.
  unfold u32_ok. intros Ha Hn. unfold u32_value. rewrite (u64_obj _ _ Ha) by (unfold u64_ok; lia).
  cbn -[N.ltb N.pow]. by apply N.ltb_lt in Hn as ->.
Qed.
Lemma id_obj name message id : assoc name l = Some (id_json id) → id_ok id → id_field m name message = Ok id.
Proof. intros Ha Hn. unfold id_field. by rewrite (u64_obj _ _ Ha Hn). Qed.
Lemma node_id_obj name id : assoc name l = Some (id_json id) → id_ok id → render_node_id m name = Ok id.
Proof. intros Ha Hn. unfold render_node_id. by rewrite (u64_obj _ _ Ha Hn). Qed.
Lemma optional_id_obj name o : assoc name l = Some (json_option id_json o) → option_ok id_ok o → optional_id m name = Ok o.
Proof.
  intros Ha Ho. unfold optional_id, required. rewrite field_obj, Ha. cbn. destruct o as [id|]; cbn; [|by rewrite is_null_null].
  unfold id_json. rewrite is_null_u64, as_u64_u64; [done|]. by apply Ho.
Qed.
Lemma f64_obj name x : assoc name l = Some (json_f64 x) → is_finite x = true → f64_field m name = Ok x.
Proof. intros Ha Hx. unfold f64_field. rewrite field_obj, Ha. cbn. rewrite as_f64_f64 by done. cbn. by rewrite Hx. Qed.
Lemma bool_obj name b : assoc name l = Some (json_bool b) → bool_field m name = Ok b.
Proof. intros Ha. unfold bool_field. rewrite field_obj, Ha. cbn. by rewrite as_bool_bool. Qed.
Lemma string_obj name s : assoc name l = Some (json_string s) → string_field m name = Ok s.
Proof. intros Ha. unfold string_field. rewrite field_obj, Ha. cbn. by rewrite as_str_string. Qed.
Lemma array_obj name xs : assoc name l = Some (json_array xs) → array m name = Ok xs.
Proof. intros Ha. unfold array. rewrite field_obj, Ha. cbn. by rewrite as_array_array. Qed.
Lemma nested_obj {A} (parse : Map → result AbiError A) name v x : assoc name l = Some v → reads parse v x → nested parse m name = Ok x.
Proof.
  intros Ha Hr. unfold nested, object_field, required. rewrite field_obj, Ha. cbn.
  destruct (reads_object _ _ _ name Hr) as (m' & -> & Hm'). exact Hm'.
Qed.
Lemma object_field_obj name l' :
  assoc name l = Some (obj l') → distinct l'.*1 = true → ∃ m', object_field m name = Ok m' ∧ same_map m' (fields l').
Proof.
  intros Ha Hd. unfold object_field, required. rewrite field_obj, Ha. by apply object_obj.
Qed.

(** An optional object *)
Lemma optional_obj {A} (parse : Map → result AbiError A) (f : A → Value) name o :
  assoc name l = Some (json_option f o) → option_ok (λ x, reads parse (f x) x) o → optional_nested parse m name = Ok o.
Proof.
  intros Ha Ho. unfold optional_nested, optional_object, required. rewrite field_obj, Ha. cbn.
  destruct o as [x|]; cbn; [|by rewrite is_null_null]. destruct (object_reads _ _ _ name (Ho x eq_refl)) as (-> & m' & -> & Hp).
  cbn. by rewrite Hp.
Qed.
Lemma optional_revision_obj (f : RenderRevision → Value) name o :
  assoc name l = Some (json_option f o) → option_ok (λ x, reads parse_revision (f x) x) o → optional_revision m name = Ok o.
Proof.
  intros Ha Ho. unfold optional_revision, required. rewrite field_obj, Ha. cbn.
  destruct o as [x|]; cbn; [|by rewrite is_null_null]. destruct (object_reads _ _ _ name (Ho x eq_refl)) as (-> & m' & -> & Hp).
  cbn. by rewrite Hp.
Qed.
End map.
End objects.

Create HintDb wire.

(** ** What is written is read as it was meant *)

Ltac split_ok := repeat match goal with H : _ ∧ _ |- _ => destruct H end.

(** A field read from the object behind [Hm] *)
Ltac read_field Hm :=
  first
    [ rewrite (keys_obj _ _ Hm) by reflexivity
    | erewrite (u64_obj _ _ Hm) by (reflexivity || assumption)
    | erewrite (u32_obj _ _ Hm) by (reflexivity || assumption)
    | erewrite (id_obj _ _ Hm) by (reflexivity || assumption)
    | erewrite (node_id_obj _ _ Hm) by (reflexivity || assumption)
    | erewrite (optional_id_obj _ _ Hm) by (reflexivity || assumption)
    | erewrite (f64_obj _ _ Hm) by (reflexivity || assumption)
    | erewrite (bool_obj _ _ Hm) by reflexivity
    | erewrite (string_obj _ _ Hm) by reflexivity
    | erewrite (array_obj _ _ Hm) by reflexivity
    | erewrite (optional_obj _ _ Hm) by (reflexivity || eauto with wire)
    | erewrite (optional_revision_obj _ _ Hm) by (reflexivity || eauto with wire)
    | erewrite (nested_obj _ _ Hm) by (reflexivity || eauto with wire) ].
Ltac read_fields Hm := repeat (read_field Hm; cbn [mbind result_bind]).
(** The object of [parse] and [json] has the fields that [parse] wants. *)
Ltac read_object :=
  eexists; split; [reflexivity|]; split; [reflexivity|]; intros m Hm.
Ltac read_tagged :=
  eexists; split; [reflexivity|]; split; [reflexivity|]; split; [reflexivity|]; intros m Hm.

Section written.
Context `{SerdeJsonLaws}.

Lemma point_reads p : point_ok p → reads parse_point (point_json p) p.
Proof.
  destruct p as [x y]. intros Hp. pose proof Hp as [[Hx _] [Hy _]]. cbn in Hx, Hy. read_object. unfold parse_point.
  read_fields Hm. unfold protocol_error. by rewrite (proj2 (RenderPoint_validate_Ok _ _ tt)) by exact Hp.
Qed.
Lemma size_reads s : size_ok s → reads parse_size (size_json s) s.
Proof.
  destruct s as [w h]. intros Hp. pose proof Hp as [[Hx _] [Hy _]]. cbn in Hx, Hy. read_object. unfold parse_size.
  read_fields Hm. unfold protocol_error. by rewrite (proj2 (RenderSize_validate_Ok _ _ tt)) by exact Hp.
Qed.
Lemma rect_reads r : rect_ok r → reads parse_rect (rect_json r) r.
Proof.
  destruct r as [x y w h]. intros Hp. pose proof Hp as ([Hx _] & [Hy _] & [Hw _] & [Hh _]). cbn in Hx, Hy, Hw, Hh. read_object. unfold parse_rect.
  read_fields Hm. unfold protocol_error. by rewrite (proj2 (RenderRect_validate_Ok _ _ tt)) by exact Hp.
Qed.
Lemma viewport_reads v : viewport_ok v → reads parse_viewport (viewport_json v) v.
Proof.
  destruct v as [w h s z]. intros Hp. pose proof Hp as (Hw & Hh & [Hs _] & [Hz _]). cbn in Hw, Hh, Hs, Hz. read_object. unfold parse_viewport.
  assert (u32_ok w ∧ u32_ok h) as [Hw' Hh'] by (unfold u32_ok, RENDER_MAX_VIEWPORT_DIMENSION in *; lia).
  read_fields Hm. unfold protocol_error. by rewrite (proj2 (RenderViewport_validate_Ok _ tt)) by exact Hp.
Qed.
Lemma revision_reads r : revision_ok r → reads parse_revision (revision_json r) r.
Proof.
  destruct r as [c d s y v rs]. intros (Hc & Hd & Hg & Hv). unfold generations in Hg. cbn in Hc, Hd, Hg. rewrite !Forall_cons in Hg. split_ok. read_object.
  unfold parse_revision, context_id, document_id, protocol_error. read_fields Hm.
  match goal with |- context [RenderRevision_validate ?x] => by replace (RenderRevision_validate x) with (Ok tt : presult unit) end.
Qed.
Lemma truncation_reads x : truncation_ok x → reads parse_truncation (truncation_json x) x.
Proof.
  destruct x as [d l o r]. intros [Hl Ho]. cbn in Hl, Ho. read_object. unfold parse_truncation. read_fields Hm.
  by destruct d.
Qed.
End written.
#[export] Hint Resolve point_reads size_reads rect_reads viewport_reads revision_reads truncation_reads : wire.

Lemma option_ok_impl {A} (P Q : A → Prop) o : (∀ x, P x → Q x) → option_ok P o → option_ok Q o.
Proof. intros HPQ Ho x Hx. by apply HPQ, Ho. Qed.
#[export] Hint Resolve option_ok_impl : wire.

Section written_messages.
Context `{SerdeJsonLaws}.

Lemma collect_read {A} (parse : list (rstr * Value) → result AbiError A) name (f : A → Value) (P : A → Prop) xs :
  (∀ x, P x → reads parse (f x) x) → Forall P xs → collect_objects parse name (f <$> xs) = Ok xs.
Proof. intros HP Hxs. apply reads_collect. eapply Forall_impl; [exact Hxs|exact HP]. Qed.

Lemma geometry_reads x : geometry_ok x → reads parse_geometry (geometry_json x) x.
Proof.
  destruct x as [n f b p c clip s o]. intros Hx. unfold geometry_ok in Hx. cbn in Hx. split_ok. read_object. unfold parse_geometry.
  by read_fields Hm.
Qed.
Lemma scroll_reads x : scroll_ok x → reads parse_scroll (scroll_json x) x.
Proof.
  destruct x as [a b c d e f]. intros Hx. unfold scroll_ok in Hx. cbn in Hx. split_ok. read_object. unfold parse_scroll.
  by read_fields Hm.
Qed.
Lemma bounds_reads x : bounds_ok x → reads parse_semantic_bounds (bounds_json x) x.
Proof.
  destruct x as [a b c]. intros Hx. unfold bounds_ok in Hx. cbn in Hx. split_ok. read_object. unfold parse_semantic_bounds.
  read_fields Hm. by erewrite collect_read by eauto with wire.
Qed.
End written_messages.
#[export] Hint Resolve geometry_reads scroll_reads bounds_reads : wire.

Section messages.
Context `{SerdeJsonLaws}.

Lemma limit_kept n limit : (n ≤ limit)%N → (limit <? n)%N = false.
Proof. by apply N.ltb_ge. Qed.

Lemma commit_reads x : commit_ok x → reads_as "commit" parse_commit (commit_json x) x.
Proof.
  destruct x as [v i r vp g ht tq sc sb t]. intros Hx. unfold commit_ok in Hx.
  cbn [commit_version commit_id commit_revision commit_viewport geometry_index hit_test_handle text_query_handle
    scroll_snapshot semantic_bounds truncations] in Hx. split_ok. subst v. read_tagged. unfold parse_commit.
  read_fields Hm. unfold len. rewrite !length_fmap. rewrite !limit_kept by assumption. cbn [throw_if orb mbind result_bind].
  read_fields Hm. erewrite (collect_read parse_geometry _ geometry_json) by eauto with wire. cbn [mbind result_bind].
  read_fields Hm. erewrite (collect_read parse_scroll _ scroll_json) by eauto with wire. cbn [mbind result_bind].
  erewrite (collect_read parse_semantic_bounds _ bounds_json) by eauto with wire. cbn [mbind result_bind].
  by erewrite (collect_read parse_truncation _ truncation_json) by eauto with wire.
Qed.

Lemma presented_reads x : presented_ok x → reads_as "presented" parse_presented (presented_json x) x.
Proof.
  destruct x as [v c d i r]. intros Hx. unfold presented_ok in Hx. cbn in Hx. split_ok. subst v. read_tagged.
  unfold parse_presented, context_id, document_id. by read_fields Hm.
Qed.

Lemma resync_reads x : resync_ok x → reads_as "resync" parse_resync (resync_json x) x.
Proof.
  destruct x as [v c d cur rej r]. intros Hx. unfold resync_ok in Hx. cbn in Hx. split_ok. subst v. read_tagged.
  unfold parse_resync, context_id, document_id. read_fields Hm. by destruct r.
Qed.

Lemma input_target_reads x : input_target_ok x → reads parse_input_target (input_target_json x) x.
Proof.
  destruct x as [v q c d dc r h n f vp lp]. intros Hx. unfold input_target_ok in Hx. cbn in Hx. split_ok. subst v. read_object.
  unfold parse_input_target, version, context_id, document_id. assert (u64_ok RENDER_PROTOCOL_VERSION) by done. by read_fields Hm.
Qed.

Lemma box_reads x : rect_ok (tb_rect x) → reads parse_text_box (box_json x) x.
Proof.
  destruct x as [r d]. intros Hx. cbn in Hx. read_object. unfold parse_text_box. read_fields Hm. by destruct d.
Qed.

Lemma affinity_reads a : parse_affinity (lit (affinity_name a)) = Ok a.
Proof. by destruct a. Qed.

Lemma text_entry_reads n x :
  id_ok (tqr_query_id x) → text_value_ok (tqr_value x) → (n + boxes_of x ≤ RENDER_MAX_TEXT_BOXES)%N →
  parse_text_entry n (text_entry_json x) = Ok (n + boxes_of x, x)%N.
Proof.
  destruct x as [q v]. cbn [tqr_query_id tqr_value]. intros Hq Hv Hn. unfold parse_text_entry, text_entry_json. cbn [tqr_query_id tqr_value].
  destruct (object_obj [("query_id", id_json q); ("value", text_value_json v)] "text query result") as (m & -> & Hm); [done|].
  cbn [mbind result_bind]. rewrite (keys_obj _ _ Hm) by done. cbn [mbind result_bind].
  destruct v as [o a|r a|bs]; destruct (object_field_obj _ _ Hm "value" _ eq_refl eq_refl) as (m' & -> & Hm');
    cbn [mbind result_bind]; erewrite (string_obj _ _ Hm' "type") by reflexivity; cbn [mbind result_bind];
    cbn in Hv; [rewrite bool_decide_true by done|rewrite bool_decide_false, bool_decide_true by done
      |rewrite bool_decide_false, bool_decide_false, bool_decide_true by done]; read_fields Hm'.
  - rewrite affinity_reads. cbn [mbind result_bind]. read_fields Hm. by rewrite N.add_0_r.
  - rewrite affinity_reads. cbn [mbind result_bind]. read_fields Hm. by rewrite N.add_0_r.
  - unfold boxes_of in Hn |- *. cbn [tqr_value] in Hn |- *. unfold len in Hn |- *. rewrite length_fmap, limit_kept by exact Hn.
    cbn [throw_if mbind result_bind]. erewrite (collect_read parse_text_box _ box_json) by (apply box_reads || exact Hv).
    cbn [mbind result_bind]. by read_fields Hm.
Qed.

Lemma text_entries_read n xs :
  Forall (λ r, id_ok (tqr_query_id r) ∧ text_value_ok (tqr_value r)) xs → (n + sumN boxes_of xs ≤ RENDER_MAX_TEXT_BOXES)%N →
  parse_text_entries n (text_entry_json <$> xs) = Ok xs.
Proof.
  intros Hall. revert n. induction Hall as [|x xs [Hq Hv] _ IH]; intros n Hn; [done|]. cbn [fmap list_fmap parse_text_entries].
  rewrite sumN_cons in Hn. rewrite text_entry_reads by (done || lia). cbn [mbind result_bind].
  change (list_fmap _ _ text_entry_json xs) with (text_entry_json <$> xs). rewrite IH by lia. done.
Qed.

Lemma text_result_reads x : text_result_ok x → reads_as "text_query" parse_text_result (text_result_json x) x.
Proof.
  destruct x as [v c d i r rs t]. intros Hx. unfold text_result_ok in Hx. cbn in Hx. split_ok. subst v. read_tagged.
  unfold parse_text_result, context_id, document_id. read_fields Hm. rewrite text_entries_read by done.
  cbn [mbind result_bind]. read_fields Hm. by erewrite (collect_read parse_truncation _ truncation_json) by eauto with wire.
Qed.
End messages.
#[export] Hint Resolve input_target_reads : wire.

Section wire.
Context `{SerdeJsonLaws}.

Lemma envelope_read input name type error expected l :
  from_str input = Ok (obj l) → distinct l.*1 = true →
  (length l =? length expected)%nat && forallb (λ f, match assoc f l with Some _ => true | None => false end) expected = true →
  assoc "v" l = Some (json_u64 RENDER_PROTOCOL_VERSION) → assoc "type" l = Some (text_json type) →
  ∃ m, envelope input name type error expected = Ok m ∧ same_map m (fields l).
Proof.
  intros Hin Hd Hk Hv Ht. unfold envelope. rewrite Hin. cbn [map_err mbind result_bind].
  destruct (object_obj l name Hd) as (m & -> & Hm). exists m. split; [|exact Hm]. cbn [mbind result_bind].
  rewrite (keys_obj _ _ Hm) by exact Hk. cbn [mbind result_bind]. rewrite (u64_obj _ _ Hm _ _ Hv) by done.
  cbn [mbind result_bind]. cbn [N.eqb negb]. rewrite (string_obj _ _ Hm _ _ Ht). cbn [mbind result_bind].
  by rewrite bool_decide_true.
Qed.

(** The object in a field of the envelope, read by its type *)
Lemma tagged_read {A} m l name type (parse : list (rstr * Value) → result AbiError A) v x :
  same_map m (fields l) → assoc name l = Some v → reads_as type parse v x →
  ∃ m', object_field m name = Ok m' ∧ string_field m' "type" = Ok (lit type) ∧ parse m' = Ok x.
Proof.
  intros Hm Ha (l' & -> & Hd & Ht & Hl). destruct (object_field_obj _ _ Hm _ _ Ha Hd) as (m' & Hf & Hm').
  exists m'. split; [done|]. split; [by apply (string_obj _ _ Hm')|by apply Hl].
Qed.
End wire.

(** ** What is accepted is valid *)

(** The steps of a parser that succeeded *)
Ltac steps :=
  repeat match goal with
  | H : (_ ≫= _) = Ok _ |- _ => apply bind_Ok in H as (? & ? & ?)
  | H : Ok _ = Ok _ |- _ => injection H as <-
  | H : protocol_error _ = Ok _ |- _ => apply map_err_Ok in H
  | x : unit |- _ => destruct x
  end.

Create HintDb sound.

Section sound.
Context `{SerdeJsonLaws}.
Abbreviation Map := (list (rstr * Value)).
Implicit Types (m : Map).

Lemma u64_sound m name n : u64_field m name = Ok n → u64_ok n.
Proof. unfold u64_field. rewrite ok_or_Ok. intros (v & _ & Hv)%bind_Some. by eapply as_u64_bound. Qed.
Lemma u32_sound m name n : u32_value m name = Ok n → u32_ok n.
Proof. unfold u32_value. intros (k & _ & Hk)%bind_Ok. destruct (N.ltb_spec k (2 ^ 32)); [by injection Hk as <-|done]. Qed.
Lemma id_of_u64 raw e id : u64_ok raw → ok_or (id_new raw) e = Ok (A := positive) (E := AbiError) id → id_ok id.
Proof. intros Hr. rewrite ok_or_Ok, id_get_new. by intros <-. Qed.
Lemma id_sound m name message id : id_field m name message = Ok id → id_ok id.
Proof. intros (n & Hn%u64_sound & Hi)%bind_Ok. by eapply id_of_u64. Qed.
Lemma node_id_sound m name id : render_node_id m name = Ok id → id_ok id.
Proof. intros (n & Hn%u64_sound & Hi)%bind_Ok. by eapply id_of_u64. Qed.
Lemma optional_id_sound m name o : optional_id m name = Ok o → option_ok id_ok o.
Proof.
  intros (v & _ & Ho)%bind_Ok. destruct (is_null v); steps; [done|]. intros y [= <-]. eapply id_of_u64; [|done].
  match goal with Hv : ok_or (as_u64 _) _ = Ok _ |- _ => apply ok_or_Ok in Hv; by eapply as_u64_bound end.
Qed.
Lemma nested_sound {A} (parse : Map → result AbiError A) (P : A → Prop) m name x :
  (∀ m x, parse m = Ok x → P x) → nested parse m name = Ok x → P x.
Proof. intros HP (m' & _ & Hx)%bind_Ok. by eapply HP. Qed.
Lemma optional_sound {A} (parse : Map → result AbiError A) (P : A → Prop) m name o :
  (∀ m x, parse m = Ok x → P x) → optional_nested parse m name = Ok o → option_ok P o.
Proof. intros HP (om & _ & Ho)%bind_Ok. destruct om as [m'|]; steps; [|done]. intros y [= <-]. by eapply HP. Qed.
Lemma collect_sound {A} (parse : Map → result AbiError A) (P : A → Prop) name vs xs :
  (∀ m x, parse m = Ok x → P x) → collect_objects parse name vs = Ok xs → Forall P xs ∧ length xs = length vs.
Proof.
  intros HP Hc%collect_Ok. split; [|symmetry; by eapply Forall2_length].
  induction Hc as [|v x vs xs Hx _ IH]; constructor; [|done]. apply bind_Ok in Hx as (m' & _ & Hx). by eapply HP.
Qed.

Lemma point_sound m p : parse_point m = Ok p → point_ok p.
Proof. unfold parse_point. intros ?. steps. by eapply RenderPoint_validate_Ok. Qed.
Lemma size_sound m s : parse_size m = Ok s → size_ok s.
Proof. unfold parse_size. intros ?. steps. by eapply RenderSize_validate_Ok. Qed.
Lemma rect_sound m r : parse_rect m = Ok r → rect_ok r.
Proof. unfold parse_rect. intros ?. steps. by eapply RenderRect_validate_Ok. Qed.
Lemma viewport_sound m v : parse_viewport m = Ok v → viewport_ok v.
Proof. unfold parse_viewport. intros ?. steps. by eapply RenderViewport_validate_Ok. Qed.
Lemma revision_sound m r : parse_revision m = Ok r → revision_ok r.
Proof.
  unfold parse_revision, context_id, document_id. intros ?. steps. unfold revision_ok, generations. cbn [rev_context_id rev_document_id
    rev_source_generation rev_style_generation rev_viewport_generation rev_resource_generation].
  rewrite !Forall_cons. repeat split; eauto using u64_sound, id_sound.
Qed.
Lemma truncation_sound m x : parse_truncation m = Ok x → truncation_ok x.
Proof. unfold parse_truncation. intros ?. steps. split; cbn; by eapply u64_sound. Qed.
Lemma optional_revision_sound m name o : optional_revision m name = Ok o → option_ok revision_ok o.
Proof.
  intros (v & _ & Ho)%bind_Ok. destruct (is_null v); steps; [done|]. intros y [= <-]. by eapply revision_sound.
Qed.

#[local] Hint Resolve u64_sound u32_sound id_sound node_id_sound optional_id_sound point_sound size_sound rect_sound viewport_sound
  revision_sound truncation_sound optional_revision_sound : sound.
#[local] Hint Extern 2 => (eapply nested_sound; [|eassumption]; intros) : sound.
#[local] Hint Extern 2 => (eapply optional_sound; [|eassumption]; intros) : sound.

Ltac parts := cbn; repeat (split; [solve [eauto 3 with sound]|]); try solve [eauto 3 with sound].

Lemma geometry_sound m x : parse_geometry m = Ok x → geometry_ok x.
Proof. unfold parse_geometry. intros ?. steps. unfold geometry_ok. parts. Qed.
Lemma scroll_sound m x : parse_scroll m = Ok x → scroll_ok x.
Proof. unfold parse_scroll. intros ?. steps. unfold scroll_ok. parts. Qed.
Lemma bounds_sound m x : parse_semantic_bounds m = Ok x → bounds_ok x.
Proof. unfold parse_semantic_bounds. intros ?. steps. unfold bounds_ok. parts. eapply collect_sound; eauto with sound. Qed.

Lemma limited_sound {A} (parse : Map → result AbiError A) (P : A → Prop) name vs xs limit :
  (∀ m x, parse m = Ok x → P x) → (limit <? len vs)%N = false → collect_objects parse name vs = Ok xs →
  (len xs ≤ limit)%N ∧ Forall P xs.
Proof.
  intros HP Hl%N.ltb_ge Hc. destruct (collect_sound parse P name vs xs HP Hc) as [Hall Hlen]. split; [|done].
  unfold len in *. by rewrite Hlen.
Qed.

Lemma commit_sound m x : parse_commit m = Ok x → commit_ok x.
Proof.
  unfold parse_commit. intros ?. steps. match goal with Hl : throw_if _ _ = Ok _ |- _ => apply throw_if_Ok in Hl end.
  rewrite !orb_false_iff in *. split_ok. unfold commit_ok. cbn [commit_version commit_id commit_revision commit_viewport
    geometry_index hit_test_handle text_query_handle scroll_snapshot semantic_bounds truncations]. split; [done|]. parts.
  split; [|split; [|split]]; (eapply limited_sound; [|eassumption|eassumption]; intros);
    eauto 2 using geometry_sound, scroll_sound, bounds_sound, truncation_sound.
Qed.
Lemma presented_sound m x : parse_presented m = Ok x → presented_ok x.
Proof. unfold parse_presented, context_id, document_id. intros ?. steps. unfold presented_ok. split; [done|]. parts. Qed.
Lemma resync_sound m x : parse_resync m = Ok x → resync_ok x.
Proof. unfold parse_resync, context_id, document_id. intros ?. steps. unfold resync_ok. split; [done|]. parts. Qed.
Lemma wire_input_target_sound m x : parse_input_target m = Ok x → input_target_ok x.
Proof. unfold parse_input_target, context_id, document_id. intros ?. steps. unfold input_target_ok. split; [done|]. parts. Qed.
Lemma box_sound m x : parse_text_box m = Ok x → rect_ok (tb_rect x).
Proof. unfold parse_text_box. intros ?. steps. parts. Qed.

Lemma text_entry_sound n v n' x :
  parse_text_entry n v = Ok (n', x) → n' = (n + boxes_of x)%N ∧ (boxes_of x = 0 ∨ n' ≤ RENDER_MAX_TEXT_BOXES)%N ∧
  id_ok (tqr_query_id x) ∧ text_value_ok (tqr_value x).
Proof.
  unfold parse_text_entry. intros ?. steps.
  match goal with Hb : (if _ then _ else _) = Ok ?q |- _ => destruct q as [k parsed] end. steps.
  repeat case_bool_decide; steps; try done; subst.
  - unfold boxes_of. cbn. rewrite N.add_0_r. split; [done|]. split; [by left|]. split; cbn; eauto with sound.
  - unfold boxes_of. cbn. rewrite N.add_0_r. split; [done|]. split; [by left|]. split; cbn; eauto with sound.
  - match goal with Hl : throw_if _ _ = Ok _ |- _ => apply throw_if_Ok, N.ltb_ge in Hl end.
    match goal with Hc : collect_objects _ _ _ = Ok _ |- _ => destruct (collect_sound _ (λ b, rect_ok (tb_rect b)) _ _ _ box_sound Hc) as [Hall Hlen] end.
    unfold boxes_of, len in *. cbn. rewrite Hlen. split; [done|]. split; [by right|]. split; cbn; eauto with sound.
Qed.

Lemma text_entries_sound n vs xs :
  parse_text_entries n vs = Ok xs →
  Forall (λ r, id_ok (tqr_query_id r) ∧ text_value_ok (tqr_value r)) xs ∧
  (sumN boxes_of xs = 0 ∨ n + sumN boxes_of xs ≤ RENDER_MAX_TEXT_BOXES)%N.
Proof.
  revert n xs. induction vs as [|v vs IH]; cbn [parse_text_entries]; intros n xs Hp; [injection Hp as <-; by split; [|left]|].
  apply bind_Ok in Hp as ([n' x] & Hx & (ys & Hys & [= <-])%bind_Ok).
  destruct (text_entry_sound _ _ _ _ Hx) as (-> & Hb & Hok). destruct (IH _ _ Hys) as [Hall Hsum]. split; [by constructor|].
  rewrite sumN_cons. destruct Hb, Hsum; lia.
Qed.
Lemma text_result_sound m x : parse_text_result m = Ok x → text_result_ok x.
Proof.
  unfold parse_text_result, context_id, document_id. intros ?. steps.
  match goal with Hr : parse_text_entries _ _ = Ok _ |- _ => apply text_entries_sound in Hr as [Hall Hsum] end.
  unfold text_result_ok. split; [done|]. parts. change (foldr _ _ x2) with (sumN boxes_of x2).
  split; [destruct Hsum as [->|Hsum]; [done|by rewrite N.add_0_l in Hsum]|].
  eapply collect_sound; [|eassumption]. intros. by eapply truncation_sound.
Qed.
End sound.

(** ** Base64 *)

(** The reader's side of [encode_base64] *)
Definition sextet (c : N) : N := default 0%N (N.of_nat ∘ fst <$> list_find (λ x, x = c) ALPHABET).
Definition byte_at (n : N) : Byte.byte := default Byte.x00 (Byte.of_N n).
Fixpoint decode_base64 (s : rstr) : list Byte.byte :=
  match s with
  | a :: b :: c :: d :: rest =>
      let n := (sextet a * 2 ^ 18 + sextet b * 2 ^ 12 + sextet c * 2 ^ 6 + sextet d)%N in
      let bytes := [byte_at (n / 2 ^ 16); byte_at (n / 2 ^ 8 mod 2 ^ 8); byte_at (n mod 2 ^ 8)] in
      take (if (c =? 61)%N then 1 else if (d =? 61)%N then 2 else 3) bytes ++ decode_base64 rest
  | _ => []
  end.

(** The four characters of a chunk stand for its bits. *)
Lemma sextet_alphabet i : (i < 64)%N → sextet (alphabet_at i) = i ∧ alphabet_at i ≠ 61%N.
Proof.
  intros Hi. assert (Hall : forallb (λ i, (sextet (alphabet_at i) =? i)%N && negb (alphabet_at i =? 61)%N) (N.of_nat <$> seq 0 64) = true)
    by by vm_compute.
  rewrite forallb_forall in Hall. destruct (andb_prop _ _ (Hall i ltac:(apply list_elem_of_In, list_elem_of_fmap;
    exists (N.to_nat i); rewrite elem_of_seq; lia))) as [Hs Ha].
  apply N.eqb_eq in Hs. apply negb_true_iff, N.eqb_neq in Ha. done.
Qed.

Definition below_256 : list N := N.of_nat <$> seq 0 256.
Lemma below_256_in a : (a < 256)%N → a ∈ below_256.
Proof. intros Ha. apply list_elem_of_fmap. exists (N.to_nat a). rewrite elem_of_seq. lia. Qed.
(** A property of two bytes, by cases *)
Lemma for_bytes (P : N → N → bool) a b :
  forallb (λ a, forallb (P a) below_256) below_256 = true → (a < 256)%N → (b < 256)%N → P a b = true.
Proof.
  intros HP Ha%below_256_in%list_elem_of_In Hb%below_256_in%list_elem_of_In.
  rewrite forallb_forall in HP. specialize (HP a Ha). rewrite forallb_forall in HP. by apply HP.
Qed.

Lemma join_high a b : (a < 256)%N → (b < 256)%N →
  N.lor (N.shiftl (N.land a 3) 4) (N.shiftr b 4) = ((a mod 4) * 16 + b / 16)%N ∧
  N.lor (N.shiftl (N.land a 15) 2) (N.shiftr b 6) = ((a mod 16) * 4 + b / 64)%N.
Proof.
  intros Ha Hb. rewrite <-!N.eqb_eq, <-andb_true_iff.
  refine (for_bytes (λ a b, (N.lor (N.shiftl (N.land a 3) 4) (N.shiftr b 4) =? (a mod 4) * 16 + b / 16)%N &&
    (N.lor (N.shiftl (N.land a 15) 2) (N.shiftr b 6) =? (a mod 16) * 4 + b / 64)%N) a b _ Ha Hb). by vm_compute.
Qed.
Lemma join_bound a b : (a < 256)%N → (b < 256)%N →
  (a / 4 < 64 ∧ (a mod 4) * 16 + b / 16 < 64 ∧ (a mod 16) * 4 + b / 64 < 64 ∧ b mod 64 < 64)%N.
Proof.
  intros Ha Hb. rewrite <-!N.ltb_lt. cut ((a / 4 <? 64)%N && (((a mod 4) * 16 + b / 16 <? 64)%N &&
    (((a mod 16) * 4 + b / 64 <? 64)%N && (b mod 64 <? 64)%N)) = true); [by rewrite !andb_true_iff|].
  refine (for_bytes (λ a b, (a / 4 <? 64)%N && (((a mod 4) * 16 + b / 16 <? 64)%N &&
    (((a mod 16) * 4 + b / 64 <? 64)%N && (b mod 64 <? 64)%N))) a b _ Ha Hb). by vm_compute.
Qed.

Lemma pack a b c : (b < 256)%N → (c < 256)%N →
  let n := (a / 4 * 2 ^ 18 + ((a mod 4) * 16 + b / 16) * 2 ^ 12 + ((b mod 16) * 4 + c / 64) * 2 ^ 6 + c mod 64)%N in
  (n / 2 ^ 16 = a ∧ n / 2 ^ 8 mod 2 ^ 8 = b ∧ n mod 2 ^ 8 = c)%N.
Proof.
  intros Hb Hc n. assert (n = a * 65536 + (b * 256 + c))%N as ->.
  { subst n. pose proof (N.div_mod' a 4). pose proof (N.div_mod' b 16). pose proof (N.div_mod' c 64). nia. }
  change (2 ^ 16)%N with 65536%N. change (2 ^ 8)%N with 256%N. split; [|split].
  - rewrite N.div_add_l by done. rewrite (N.div_small (b * 256 + c)) by nia. lia.
  - replace (a * 65536 + (b * 256 + c))%N with ((a * 256 + b) * 256 + c)%N by lia. rewrite N.div_add_l, (N.div_small c) by lia.
    rewrite N.add_0_r, N.add_comm, N.Div0.mod_add, N.mod_small; lia.
  - replace (a * 65536 + (b * 256 + c))%N with (c + (a * 256 + b) * 256)%N by lia. by rewrite N.Div0.mod_add, N.mod_small.
Qed.

Lemma byte_at_to_N b : byte_at (Byte.to_N b) = b.
Proof. unfold byte_at. by rewrite Byte.of_to_N. Qed.

Lemma decode_chunk a b c rest :
  let chunk := encode_chunk (Byte.to_N a) (Byte.to_N <$> b) (Byte.to_N <$> c) in
  (b = None → c = None) →
  decode_base64 (chunk ++ rest) = a :: option_list b ++ option_list c ++ decode_base64 rest.
Proof.
  intros chunk Hbc. pose proof (Byte.to_N_bounded a) as Ha. set (nb := default 0%N (Byte.to_N <$> b)).
  set (nc := default 0%N (Byte.to_N <$> c)).
  assert (nb < 256 ∧ nc < 256)%N as [Hb Hc].
  { subst nb nc. destruct b as [b|], c as [c|]; cbn; repeat split; try lia;
      try (pose proof (Byte.to_N_bounded b)); try (pose proof (Byte.to_N_bounded c)); lia. }
  destruct (join_high (Byte.to_N a) nb) as [Hj1 _]; [lia|done|]. destruct (join_high nb nc) as [_ Hj2]; [done..|].
  destruct (join_bound (Byte.to_N a) nb) as (B1 & B2 & _ & _); [lia|done|]. destruct (join_bound nb nc) as (_ & _ & B3 & B4); [done..|].
  assert (Hs1 : N.shiftr (Byte.to_N a) 2 = (Byte.to_N a / 4)%N) by apply N.shiftr_div_pow2.
  assert (Hs4 : N.land nc 63 = (nc mod 64)%N) by apply (N.land_ones nc 6).
  destruct (pack (Byte.to_N a) nb nc Hb Hc) as (P1 & P2 & P3).
  destruct (sextet_alphabet _ B1) as [S1 _], (sextet_alphabet _ B2) as [S2 _], (sextet_alphabet _ B3) as [S3 N3], (sextet_alphabet _ B4) as [S4 N4].
  apply N.eqb_neq in N3, N4.
  subst chunk. unfold encode_chunk. fold nb nc. rewrite Hs1, Hj1, Hj2, Hs4.
  destruct b as [b|]; [destruct c as [c|]|destruct c as [c|]; [by specialize (Hbc eq_refl)|]]; cbn [fmap option_fmap option_map app decode_base64];
    rewrite ?S1, ?S2, ?S3, ?S4, ?N3, ?N4; cbn [N.eqb Pos.eqb]; change (sextet 61) with 0%N.
  - rewrite P1, P2, P3. subst nb nc. cbn. by rewrite !byte_at_to_N.
  - change (nc mod 64)%N with 0%N in P1, P2, P3. rewrite P1, P2, P3. subst nb nc. cbn. by rewrite !byte_at_to_N.
  - change (nc mod 64)%N with 0%N in P1, P2, P3. change ((nb mod 16) * 4 + nc / 64)%N with 0%N in P1, P2, P3.
    rewrite P1. cbn. by rewrite byte_at_to_N.
Qed.

(** What the renderer decodes are the bytes of the resource. *)
Lemma base64_round_trip bytes : decode_base64 (encode_base64 bytes) = bytes.
Proof.
  revert bytes. fix IH 1. intros [|a [|b [|c rest]]]; cbn [encode_base64]; [done|..].
  - rewrite <-(app_nil_r (encode_chunk _ _ _)). by apply (decode_chunk a None None []).
  - rewrite <-(app_nil_r (encode_chunk _ _ _)). by apply (decode_chunk a (Some b) None []).
  - etransitivity; [by apply (decode_chunk a (Some b) (Some c))|]. cbn. by rewrite IH.
Qed.

(** ** The theorems *)

(** Which of the types a tag is *)
Ltac tag := repeat first [rewrite bool_decide_true by reflexivity | rewrite bool_decide_false by done].

Section theorems.
Context `{SerdeJsonLaws}.

Lemma submission_read input s :
  submission_ok s → validate_transport s = Ok tt → from_str input = Ok (submission_json s) → parse_submission input = Ok s.
Proof.
  intros Hs Ht Hin. unfold submission_json in Hin.
  destruct (envelope_read input "renderer submission" "renderer_submission" "unsupported renderer submission envelope"
    ["submission"; "type"; "v"] _ Hin eq_refl eq_refl eq_refl eq_refl) as (m & He & Hm).
  unfold parse_submission, protocol_error. rewrite He. cbn [mbind result_bind].
  destruct s as [c|p|r]; cbn [submission_ok] in Hs;
    [apply commit_reads in Hs|apply presented_reads in Hs|apply resync_reads in Hs];
    destruct (tagged_read _ _ "submission" _ _ _ _ Hm eq_refl Hs) as (m' & -> & E & Hp); cbn [mbind result_bind];
    rewrite E; cbn [mbind result_bind]; tag; rewrite Hp; cbn [mbind result_bind]; by rewrite Ht.
Qed.

Lemma cancellation_read reason : cancellation_of (lit (cancellation_name reason)) = Some reason.
Proof. by destruct reason. Qed.

Lemma response_read input r : response_ok r → from_str input = Ok (response_json r) → parse_response input = Ok r.
Proof.
  destruct r as [v i k]. intros (Hv & Hi & Hk) Hin. cbn in Hv, Hi, Hk. subst v. unfold response_json in Hin.
  cbn [resp_request_id resp_kind] in Hin.
  destruct (envelope_read input "renderer response" "renderer_response" "unsupported renderer response envelope"
    ["request_id"; "response"; "type"; "v"] _ Hin eq_refl eq_refl eq_refl eq_refl) as (m & He & Hm).
  unfold parse_response. rewrite He. cbn [mbind result_bind]. rewrite (id_obj _ _ Hm _ _ i) by done. cbn [mbind result_bind].
  destruct k as [c|t|q|png| |reason|code message]; cbn [response_kind_ok] in Hk; [| | |done|..].
  - apply commit_reads in Hk. destruct (tagged_read _ _ "response" _ _ _ _ Hm eq_refl Hk) as (m' & -> & E & Hp).
    cbn [mbind result_bind]. rewrite E. cbn [mbind result_bind]. tag. by rewrite Hp.
  - destruct (object_field_obj _ _ Hm "response" _ eq_refl eq_refl) as (m' & -> & Hm'). cbn [mbind result_bind].
    rewrite (string_obj _ _ Hm' "type" _ eq_refl). cbn [mbind result_bind]. tag. rewrite (keys_obj _ _ Hm') by done.
    cbn [mbind result_bind]. rewrite (field_obj _ _ Hm'). cbn. destruct t as [t|]; cbn; [|by rewrite is_null_null].
    destruct (object_reads _ _ _ "hit-test target" (input_target_reads t (Hk t eq_refl))) as (-> & o & -> & Hp). cbn. by rewrite Hp.
  - apply text_result_reads in Hk. destruct (tagged_read _ _ "response" _ _ _ _ Hm eq_refl Hk) as (m' & -> & E & Hp).
    cbn [mbind result_bind]. rewrite E. cbn [mbind result_bind]. tag. by rewrite Hp.
  - destruct (object_field_obj _ _ Hm "response" _ eq_refl eq_refl) as (m' & -> & Hm'). cbn [mbind result_bind].
    rewrite (string_obj _ _ Hm' "type" _ eq_refl). cbn [mbind result_bind]. tag. by rewrite (keys_obj _ _ Hm') by done.
  - destruct (object_field_obj _ _ Hm "response" _ eq_refl eq_refl) as (m' & -> & Hm'). cbn [mbind result_bind].
    rewrite (string_obj _ _ Hm' "type" _ eq_refl). cbn [mbind result_bind]. tag. read_fields Hm'. by rewrite cancellation_read.
  - destruct (object_field_obj _ _ Hm "response" _ eq_refl eq_refl) as (m' & -> & Hm'). cbn [mbind result_bind].
    rewrite (string_obj _ _ Hm' "type" _ eq_refl). cbn [mbind result_bind]. tag. unfold bounded_string. read_fields Hm'.
    destruct Hk as [Hc Hn]. by rewrite (limit_kept _ _ Hc), (limit_kept _ _ Hn).
Qed.

Lemma submission_sound input s : parse_submission input = Ok s → submission_ok s ∧ validate_transport s = Ok tt.
Proof.
  unfold parse_submission. intros ?. steps. split; [|done].
  repeat case_bool_decide; steps; try done; cbn; eauto using commit_sound, presented_sound, resync_sound.
Qed.
Lemma response_sound input r : parse_response input = Ok r → response_ok r.
Proof.
  unfold parse_response. intros ?. steps. split; [done|]. split; [by eapply id_sound|]. cbn.
  repeat case_bool_decide; steps; try done; cbn; eauto using commit_sound, text_result_sound.
  - unfold bounded_string in *. steps.
    repeat match goal with Hl : (if (?l <? ?n)%N then _ else _) = Ok _ |- _ => destruct (N.ltb_spec l n); [done|] end. by steps.
  - match goal with Hn : (if is_null ?v then _ else _) = Ok _ |- _ => destruct (is_null v) end; steps; [done|].
    intros y [= <-]. by eapply wire_input_target_sound.
Qed.

(** What the reader leaves uncounted is counted against the request: a text query result has a
    result for each query, and a request that is sent has at most 256. *)
Lemma text_query_counted batch r u :
  validate_text_query_response batch r = Ok u →
  len (tqbr_results r) = len (tqb_queries batch) ∧ (len (tqbr_truncations r) ≤ RENDER_MAX_TRUNCATION_DIAGNOSTICS)%N.
Proof.
  unfold validate_text_query_response, check_count. rewrite !bind_unit_Ok, !throw_if_Ok, !bool_decide_eq_false.
  intros (_ & _ & Ht & _ & Hl & _). split; [by apply dec_stable|lia].
Qed.
Lemma text_request_counted request batch u :
  RenderBrokerRequest_validate request = Ok u → req_kind request = ReqTextQuery batch →
  (len (tqb_queries batch) ≤ RENDER_MAX_TEXT_QUERIES)%N.
Proof.
  unfold RenderBrokerRequest_validate, check_count. intros (_ & Hv)%bind_unit_Ok E. rewrite E in Hv.
  rewrite !bind_unit_Ok, throw_if_Ok, bool_decide_eq_false in Hv. destruct Hv as (_ & _ & _ & Hl & _). lia.
Qed.

Lemma response_within_limits r request :
  response_ok r → RenderBrokerRequest_validate request = Ok tt → validate_for r request = Some (Ok tt) → within_limits r.
Proof.
  destruct r as [v i k]. unfold response_ok, within_limits, validate_for. cbn. intros (_ & _ & Hk) Hq Hv.
  destruct (validate_version v); [|done]. case_bool_decide; [done|].
  destruct (req_kind request) eqn:E; destruct k; cbn in Hv, Hk; try done; unfold commit_ok in *; try tauto.
  injection Hv as Hv. apply text_query_counted in Hv as [Hl Ht]. pose proof (text_request_counted _ _ _ Hq E). rewrite Hl.
  unfold text_result_ok in Hk. tauto.
Qed.

End theorems.

Definition sample_revision : RenderRevision :=
  {| rev_context_id := 1; rev_document_id := 2; rev_source_generation := 3; rev_style_generation := 1;
     rev_viewport_generation := 1; rev_resource_generation := 1 |}.
Definition sample_submission : RenderBridgeSubmission := SubmitPresented
  {| pres_version := 1; pres_context_id := 1; pres_document_id := 2; pres_commit_id := 5; pres_revision := sample_revision |}.
Definition sample_reading : SerdeJson := toy_json (λ _, Ok (submission_json (H := toy_json (λ _, Err [])) sample_submission)).

