(* ===== verification/UrlSearchParams.v ===== *)
(** * URLSearchParams

    [crates/vixen-engine/src/url_search_params.rs]: the ordered list of pairs
    with its operations, the [application/x-www-form-urlencoded] parser and serializer. *)

From Stdlib Require Import Lia ZArith Sorting.Sorted.
From stdpp Require Import base decidable sets list strings.
From S2P Require Import Prelude.
From S2P Require Import RustStr.
From S2P Require Import RustUtf8.

(** ** Parsing: [&] is 38, [=] is 61, [?] is 63, [%] is 37, [+] is 43. *)

(** [b'0'..=b'9'], [b'a'..=b'f'], [b'A'..=b'F'] *)
Definition hex_val (b : N) : option N :=
  (if (48 <=? b) && (b <=? 57) then Some (b - 48)
   else if (97 <=? b) && (b <=? 102) then Some (b - 97 + 10)
   else if (65 <=? b) && (b <=? 70) then Some (b - 65 + 10)
   else None)%N.

(** The [while] loop on the remaining bytes; [hi < 16], so [hi << 4] keeps its bits in a [u8]. *)
Fixpoint percent_decode_bytes (bytes : list N) : list N :=
  match bytes with
  | [] => []
  | b :: rest =>
      let plain := (if (b =? 43)%N then 32%N else b) :: percent_decode_bytes rest in
      match rest with
      | h :: l :: rest' =>
          if (b =? 37)%N then
            match hex_val h, hex_val l with
            | Some hi, Some lo => N.lor (N.shiftl hi 4) lo :: percent_decode_bytes rest'
            | _, _ => plain
            end
          else plain
      | _ => plain
      end
  end.

Definition percent_decode_tf8 (input : rstr) : rstr := from_utf8_lossy (percent_decode_bytes (utf8 input)).

Definition parse_tuple (tuple : rstr) : rstr * rstr :=
  let '(name, value) := default (tuple, []) (split_once 61 tuple) in
  (percent_decode_tf8 name, percent_decode_tf8 value).

Definition parse (input : rstr) : list (rstr * rstr) :=
  let input := default input (strip_prefix_char 63 input) in
  parse_tuple <$> filter (λ tuple, tuple ≠ []) (split_char 38 input).

(** ** Serializing *)

Definition hex_digit (n : N) : rchar := if (n <=? 9)%N then (48 + n)%N else (65 + (n - 10))%N.
Definition push_upper_hex (b : N) : rstr := [hex_digit (N.shiftr b 4); hex_digit (N.land b 15)].

Definition is_url_safe (b : N) : bool :=
  ((b =? 42) || (b =? 45) || (b =? 46) || (b =? 95) ||
   ((48 <=? b) && (b <=? 57)) || ((65 <=? b) && (b <=? 90)) || ((97 <=? b) && (b <=? 122)))%N.

Definition urlencode_byte (b : N) : rstr :=
  if (b =? 32)%N then [43%N] else if is_url_safe b then [b] else 37%N :: push_upper_hex b.
Definition urlencoded_byte_encode (input : rstr) : rstr := flat_map urlencode_byte (utf8 input).

Definition serialize (pairs : list (rstr * rstr)) : rstr :=
  join [38%N] ((λ '(name, value), urlencoded_byte_encode name ++ [61%N] ++ urlencoded_byte_encode value) <$> pairs).

(** ** The object: an ordered list of pairs *)

Abbreviation UrlSearchParams := (list (rstr * rstr)) (only parsing).

Definition params_get (name : rstr) (self : UrlSearchParams) : option rstr :=
  snd <$> (snd <$> list_find (λ nv, nv.1 = name) self).
Definition get_all (name : rstr) (self : UrlSearchParams) : list rstr :=
  snd <$> filter (λ nv, nv.1 = name) self.
Definition has (name : rstr) (self : UrlSearchParams) : bool :=
  existsb (λ nv, bool_decide (nv.1 = name)) self.
Definition has_pair (name value : rstr) (self : UrlSearchParams) : bool :=
  existsb (λ nv, bool_decide (nv.1 = name) && bool_decide (nv.2 = value)) self.
Definition append (name value : rstr) (self : UrlSearchParams) : UrlSearchParams := self ++ [(name, value)].

(** The loop of [set]; [inserted] says whether the first occurrence has been replaced. *)
Fixpoint set_loop (name value : rstr) (inserted : bool) (pairs : UrlSearchParams) : UrlSearchParams :=
  match pairs with
  | [] => if inserted then [] else [(name, value)]
  | (n, v) :: pairs =>
      if bool_decide (n ≠ name) then (n, v) :: set_loop name value inserted pairs
      else if inserted then set_loop name value inserted pairs
      else (name, value) :: set_loop name value true pairs
  end.
Definition params_set (name value : rstr) (self : UrlSearchParams) : UrlSearchParams :=
  set_loop name value false self.
Definition params_delete (name : rstr) (self : UrlSearchParams) : UrlSearchParams :=
  filter (λ nv, nv.1 ≠ name) self.
Definition delete_pair (name value : rstr) (self : UrlSearchParams) : UrlSearchParams :=
  filter (λ nv, ¬ (nv.1 = name ∧ nv.2 = value)) self.
Definition params_sort (self : UrlSearchParams) : UrlSearchParams :=
  sort_by (λ a b, rstr_leb a.1 b.1) self.

(** * URLSearchParams: theorems

    The round trip of serializer and parser, and the operations as those of a multimap. *)

(** ** Bytes *)

(** What an encoded byte looks like, and that reading it back gives the byte. *)
Definition encoded_ok (b : N) : bool :=
  forallb (λ c, (c <? 128)%N && negb (c =? 38)%N && negb (c =? 61)%N && negb (c =? 63)%N) (urlencode_byte b) &&
  match urlencode_byte b with
  | [c] => negb (c =? 37)%N && ((if (c =? 43)%N then 32 else c) =? b)%N
  | [p; h; l] =>
      (p =? 37)%N && match hex_val h, hex_val l with
                     | Some hi, Some lo => (N.lor (N.shiftl hi 4) lo =? b)%N
                     | _, _ => false
                     end
  | _ => false
  end.

Lemma encoded_bytes_ok b : (b < 256)%N → encoded_ok b = true.
Proof. apply for_all_bytes. vm_compute. reflexivity. Qed.

Lemma percent_decode_plain b rest :
  (b =? 37)%N = false →
  percent_decode_bytes (b :: rest) = (if (b =? 43)%N then 32%N else b) :: percent_decode_bytes rest.
Proof. intros Hb. cbn [percent_decode_bytes]. rewrite Hb. by destruct rest as [|h [|l rest]]. Qed.

Lemma decode_encoded_byte b rest :
  (b < 256)%N → percent_decode_bytes (urlencode_byte b ++ rest) = b :: percent_decode_bytes rest.
Proof.
  intros Hb. apply encoded_bytes_ok in Hb. unfold encoded_ok in Hb. apply andb_true_iff in Hb as [_ Hb].
  destruct (urlencode_byte b) as [|p [|h [|l [|x s]]]]; try done.
  - apply andb_true_iff in Hb as [H1%negb_true_iff H2%N.eqb_eq]. cbn [app].
    by rewrite percent_decode_plain, H2.
  - apply andb_true_iff in Hb as [->%N.eqb_eq Hb]. cbn [app percent_decode_bytes].
    destruct (hex_val h), (hex_val l); try done. rewrite N.eqb_refl. by apply N.eqb_eq in Hb as ->.
Qed.

Lemma decode_encoded_bytes bs :
  Forall (λ b, (b < 256)%N) bs → percent_decode_bytes (flat_map urlencode_byte bs) = bs.
Proof.
  induction 1 as [|b bs Hb Hbs IH]; cbn [flat_map]; [done|]. by rewrite decode_encoded_byte, IH.
Qed.

(** Encoded text is ASCII and holds no separator. *)
Lemma encoded_text s c :
  scalars s → c ∈ urlencoded_byte_encode s → (c < 128)%N ∧ c ≠ 38%N ∧ c ≠ 61%N ∧ c ≠ 63%N.
Proof.
  intros Hs Hc. unfold urlencoded_byte_encode in Hc.
  apply list_elem_of_In, in_flat_map in Hc as (b & Hb & Hc).
  pose proof (utf8_bytes s Hs) as Hu. rewrite Forall_forall in Hu.
  apply list_elem_of_In, Hu, encoded_bytes_ok, andb_true_iff in Hb as [Hb _].
  rewrite forallb_forall in Hb. specialize (Hb _ Hc).
  rewrite !andb_true_iff, !negb_true_iff, !N.eqb_neq, N.ltb_lt in Hb. tauto.
Qed.

Lemma utf8_ascii s : Forall (λ c, (c < 128)%N) s → utf8 s = s.
Proof.
  unfold utf8. induction 1 as [|c s Hc Hs IH]; cbn [flat_map]; [done|]. rewrite IH. unfold utf8_char.
  by rewrite (proj2 (N.ltb_lt c 128) Hc).
Qed.

Lemma encoded_round_trip s : scalars s → percent_decode_tf8 (urlencoded_byte_encode s) = s.
Proof.
  intros Hs. unfold percent_decode_tf8. rewrite utf8_ascii.
  - unfold urlencoded_byte_encode. rewrite decode_encoded_bytes by by apply utf8_bytes. by apply decode_utf8.
  - apply Forall_forall. intros c Hc. by apply (encoded_text s c Hs).
Qed.

(** ** Splitting a joined text *)

Lemma split_char_app c a s :
  c ∉ a → split_char c (a ++ c :: s) = a :: split_char c s.
Proof.
  unfold split_char. intros Ha. induction a as [|x a IH]; cbn.
  - by rewrite bool_decide_eq_true_2.
  - apply not_elem_of_cons in Ha as [Hx Ha]. rewrite bool_decide_eq_false_2 by done.
    by rewrite IH.
Qed.

Lemma split_char_none c a : c ∉ a → split_char c a = [a].
Proof.
  unfold split_char. intros Ha. induction a as [|x a IH]; cbn; [done|].
  apply not_elem_of_cons in Ha as [Hx Ha]. rewrite bool_decide_eq_false_2 by done. by rewrite IH.
Qed.

Lemma split_join c l :
  l ≠ [] → (∀ a, a ∈ l → c ∉ a) → split_char c (join [c] l) = l.
Proof.
  intros Hl Hc. induction l as [|a [|b l] IH]; [done| |].
  - cbn [join]. apply split_char_none, Hc. by left.
  - change (join [c] (a :: b :: l)) with (a ++ c :: join [c] (b :: l)).
    rewrite split_char_app by (apply Hc; by left). f_equal. apply IH; [done|].
    intros x Hx. apply Hc. by right.
Qed.

Lemma parse_serialize pairs :
  Forall (λ '(n, v), scalars n ∧ scalars v) pairs → parse (serialize pairs) = pairs.
Proof.
  intros Hp. unfold parse, serialize.
  set (text := λ '(name, value), urlencoded_byte_encode name ++ [61%N] ++ urlencoded_byte_encode value).
  assert (∀ t, t ∈ (text <$> pairs) → (38%N ∉ t) ∧ (63%N ∉ t) ∧ t ≠ []) as Ht.
  { intros t Ht. apply list_elem_of_fmap in Ht as ([n v] & -> & Hin).
    rewrite Forall_forall in Hp. specialize (Hp _ Hin) as [Hn Hv]. unfold text.
    pose proof (encoded_text n) as Hen. pose proof (encoded_text v) as Hev. split_and!.
    - intros [H%Hen|[H%list_elem_of_singleton|H%Hev]%elem_of_app]%elem_of_app; naive_solver.
    - intros [H%Hen|[H%list_elem_of_singleton|H%Hev]%elem_of_app]%elem_of_app; naive_solver.
    - by destruct (urlencoded_byte_encode n). }
  destruct pairs as [|p pairs]; [done|].
  assert (default (join [38%N] (text <$> (p :: pairs)))
    (strip_prefix_char 63 (join [38%N] (text <$> (p :: pairs)))) = join [38%N] (text <$> (p :: pairs))) as ->.
  { assert (head (join [38%N] (text <$> (p :: pairs))) ≠ Some 63%N) as Hh.
    { destruct (Ht (text p)) as (_ & Hq & Hne); [by left|]. cbn [fmap list_fmap].
      destruct (text <$> pairs), (text p) as [|x t] eqn:E; try done; cbn; set_solver. }
    destruct (join [38%N] (text <$> (p :: pairs))) as [|x s]; [done|]. cbn in *.
    rewrite bool_decide_eq_false_2; [done|congruence]. }
  rewrite split_join; [|done|intros a Ha; by apply Ht].
  rewrite list_filter_all by (apply Forall_forall; intros t Hin; by apply Ht).
  rewrite <-list_fmap_compose. rewrite <-(list_fmap_id (p :: pairs)) at 2.
  apply list_fmap_ext. intros i [n v] Hi%list_elem_of_lookup_2.
  rewrite Forall_forall in Hp. specialize (Hp _ Hi) as [Hn Hv]. unfold compose, parse_tuple, text.
  assert (split_once 61 (urlencoded_byte_encode n ++ [61%N] ++ urlencoded_byte_encode v) =
    Some (urlencoded_byte_encode n, urlencoded_byte_encode v)) as ->.
  { apply split_once_Some. split; [done|]. intros H%(encoded_text n); naive_solver. }
  cbn. by rewrite !encoded_round_trip.
Qed.

Lemma parse_scalars s : Forall (λ '(n, v), scalars n ∧ scalars v) (parse s).
Proof.
  unfold parse. apply Forall_forall. intros [n v] Hin. apply list_elem_of_fmap in Hin as (t & E & _).
  unfold parse_tuple in E. destruct (default (t, []) (split_once 61 t)) as [a b].
  injection E as -> ->. split; apply lossy_scalars.
Qed.

(** C16. The serializer and the parser are inverse: reading what was written gives the same list
    of pairs, in order, empty and duplicate names included; and rewriting any query string
    changes nothing of what is read from it. *)
Theorem query_round_trip pairs s :
  Forall (λ '(n, v), scalars n ∧ scalars v) pairs →
  parse (serialize pairs) = pairs ∧ parse (serialize (parse s)) = parse s.
Proof.
  intros Hp. split; [by apply parse_serialize|]. apply parse_serialize, parse_scalars.
Qed.

Example query_round_trip_witness :
  let pairs := [(lit "a b", [8364%N; 128512%N]); ([], []); (lit "a b", lit "%2B+&=?")] in
  Forall (λ '(n, v), scalars n ∧ scalars v) pairs ∧
  parse (serialize pairs) = pairs.
Proof.
  cbn zeta. assert (Forall (λ '(n, v), scalars n ∧ scalars v)
    [(lit "a b", [8364%N; 128512%N]); ([], []); (lit "a b", lit "%2B+&=?")]) as Hp
    by (repeat constructor).
  split; [exact Hp|]. apply (query_round_trip _ [] Hp).
Defined.

(** ** The multimap *)

Lemma get_all_app m l k : get_all m (l ++ k) = get_all m l ++ get_all m k.
Proof. unfold get_all. by rewrite filter_app, fmap_app. Qed.

Lemma get_all_cons m n v l :
  get_all m ((n, v) :: l) = if bool_decide (n = m) then v :: get_all m l else get_all m l.
Proof.
  unfold get_all. rewrite filter_cons. cbn.
  destruct (decide (n = m)); [by rewrite bool_decide_eq_true_2|by rewrite bool_decide_eq_false_2].
Qed.

Lemma get_all_set_loop m n v inserted l :
  get_all m (set_loop n v inserted l) =
    if bool_decide (m = n) then (if inserted then [] else [v]) else get_all m l.
Proof.
  revert inserted. induction l as [|[n' v'] l IH]; intros inserted; cbn [set_loop].
  - destruct inserted; [cbn; by case_bool_decide|]. rewrite get_all_cons.
    case_bool_decide; case_bool_decide; subst; done.
  - destruct (decide (n' = n)) as [->|Hn].
    + rewrite (bool_decide_eq_false_2 (n ≠ n)) by naive_solver.
      destruct inserted; rewrite ?get_all_cons, !IH; repeat case_bool_decide; subst; done.
    + rewrite (bool_decide_eq_true_2 (n' ≠ n)), !get_all_cons, IH by done.
      repeat case_bool_decide; subst; done.
Qed.

Lemma get_all_delete m n l :
  get_all m (params_delete n l) = if bool_decide (m = n) then [] else get_all m l.
Proof.
  unfold params_delete. induction l as [|[n' v'] l IH]; [cbn; by case_bool_decide|].
  rewrite filter_cons. cbn [fst].
  destruct (decide (n' ≠ n)) as [Hn|Hn]; rewrite !get_all_cons, IH;
    repeat case_bool_decide; subst; try done; by destruct Hn.
Qed.

Lemma filter_insert_sorted {A} (le : A → A → bool) (P : A → Prop) `{∀ x, Decision (P x)} x l :
  (∀ y, P x → P y → le x y = true) → filter P (insert_sorted le x l) = filter P (x :: l).
Proof.
  intros Hle. induction l as [|y l IH]; cbn [insert_sorted]; [done|].
  destruct (le x y) eqn:E; [done|]. rewrite filter_cons, IH, !filter_cons.
  destruct (decide (P x)) as [Hx|], (decide (P y)) as [Hy|]; try done. by rewrite Hle in E.
Qed.

Lemma rstr_leb_refl s : rstr_leb s s = true.
Proof. by destruct (rstr_leb_total s s). Qed.

Lemma get_all_sort m l : get_all m (params_sort l) = get_all m l.
Proof.
  unfold get_all, params_sort. f_equal. induction l as [|x l IH]; cbn [sort_by foldr]; [done|].
  unfold sort_by in IH. rewrite filter_insert_sorted, !filter_cons, IH; [done|].
  intros y Hx Hy. rewrite Hx, Hy. apply rstr_leb_refl.
Qed.

Lemma get_head m l : params_get m l = head (get_all m l).
Proof.
  unfold params_get. induction l as [|[n v] l IH]; [done|]. rewrite get_all_cons. cbn [list_find fst].
  destruct (decide (n = m)) as [->|Hn].
  - by rewrite bool_decide_eq_true_2.
  - rewrite bool_decide_eq_false_2, <-IH by done. by destruct (list_find _ l) as [[i p]|].
Qed.

Lemma has_spec m l : has m l = true ↔ get_all m l ≠ [].
Proof.
  induction l as [|[n v] l IH]; [done|]. rewrite get_all_cons. unfold has in *. cbn [existsb fst].
  rewrite orb_true_iff, IH, bool_decide_eq_true. case_bool_decide; naive_solver.
Qed.

Lemma has_pair_spec m v l : has_pair m v l = true ↔ v ∈ get_all m l.
Proof.
  unfold has_pair, get_all. rewrite existsb_exists, list_elem_of_fmap. split.
  - intros ([n' v'] & Hin%list_elem_of_In & [H1%bool_decide_eq_true H2%bool_decide_eq_true]%andb_true_iff).
    cbn in *. subst. exists (m, v). split; [done|]. by apply list_elem_of_filter.
  - intros ([n' v'] & -> & [H1 H2]%list_elem_of_filter). cbn in H1. subst. exists (m, v').
    split; [by apply list_elem_of_In|]. cbn. by rewrite !bool_decide_eq_true_2.
Qed.

Lemma get_all_append m n v l :
  get_all m (append n v l) = get_all m l ++ (if bool_decide (m = n) then [v] else []).
Proof.
  unfold append. rewrite get_all_app, get_all_cons. f_equal. repeat case_bool_decide; subst; done.
Qed.

Lemma get_all_delete_pair m n v l :
  get_all m (delete_pair n v l) = if bool_decide (m = n) then filter (λ w, w ≠ v) (get_all m l) else get_all m l.
Proof.
  unfold delete_pair. induction l as [|[n' v'] l IH]; [cbn; by case_bool_decide|].
  rewrite filter_cons. cbn [fst snd].
  destruct (decide (¬ (n' = n ∧ v' = v))) as [Hn|Hn]; rewrite !get_all_cons, IH;
    repeat case_bool_decide; subst; try done.
  - rewrite filter_cons_True; [done|]. naive_solver.
  - rewrite filter_cons_False; [done|]. intros Hv. apply Hn. naive_solver.
  - naive_solver.
Qed.

(** After the first occurrence [set] drops what [delete] drops. *)
Lemma set_loop_inserted n v l : set_loop n v true l = params_delete n l.
Proof.
  induction l as [|[n' v'] l IH]; cbn [set_loop]; [done|]. unfold params_delete in *.
  rewrite filter_cons. cbn [fst]. rewrite IH. by case_bool_decide; destruct (decide (n' ≠ n)).
Qed.

Lemma delete_set n v l : params_delete n (params_set n v l) = params_delete n l.
Proof.
  unfold params_set. induction l as [|[n' v'] l IH]; cbn [set_loop]; unfold params_delete in *.
  - rewrite filter_cons_False; [done|]. cbn. naive_solver.
  - rewrite (filter_cons _ (n', v')). cbn [fst].
    case_bool_decide as H1; destruct (decide (n' ≠ n)) as [H2|H2]; try done.
    + rewrite filter_cons_True by done. by rewrite IH.
    + rewrite filter_cons_False by (cbn; naive_solver). rewrite set_loop_inserted. unfold params_delete.
      rewrite list_filter_filter. apply list_filter_iff. naive_solver.
Qed.

Lemma set_in_place n v a w b :
  n ∉ a.*1 → params_set n v (a ++ (n, w) :: b) = a ++ (n, v) :: params_delete n b.
Proof.
  unfold params_set. intros Ha. induction a as [|[n' v'] a IH]; cbn [app set_loop].
  - rewrite bool_decide_eq_false_2 by naive_solver. by rewrite set_loop_inserted.
  - cbn in Ha. apply not_elem_of_cons in Ha as [Hn Ha]. rewrite bool_decide_eq_true_2 by done.
    by rewrite IH.
Qed.

(** The list is a multimap from names to the sequence of their values: every operation is
    given by what it does to those sequences ([get] is the first value, [set] leaves exactly
    one, [delete] none, [append] adds at the end, [sort] keeps them all); [set] and [delete]
    keep the other pairs in place, [set] puts its pair where the first one was, and [sort]
    orders the pairs by name. *)
Theorem params_multimap m n v l :
  params_get m l = head (get_all m l) ∧
  (has m l = true ↔ get_all m l ≠ []) ∧
  (has_pair m v l = true ↔ v ∈ get_all m l) ∧
  get_all m (append n v l) = get_all m l ++ (if bool_decide (m = n) then [v] else []) ∧
  get_all m (params_set n v l) = (if bool_decide (m = n) then [v] else get_all m l) ∧
  get_all m (params_delete n l) = (if bool_decide (m = n) then [] else get_all m l) ∧
  get_all m (delete_pair n v l) = (if bool_decide (m = n) then filter (λ w, w ≠ v) (get_all m l) else get_all m l) ∧
  get_all m (params_sort l) = get_all m l ∧
  params_delete n (params_set n v l) = params_delete n l ∧
  (∀ a w b, l = a ++ (n, w) :: b → (n ∉ a.*1) → params_set n v l = a ++ (n, v) :: params_delete n b) ∧
  StronglySorted (λ p q, rstr_leb p.1 q.1 = true) (params_sort l) ∧ params_sort l ≡ₚ l.
Proof.
  split; [apply get_head|]. split; [apply has_spec|]. split; [apply has_pair_spec|].
  split; [apply get_all_append|]. split; [apply get_all_set_loop|]. split; [apply get_all_delete|].
  split; [apply get_all_delete_pair|]. split; [apply get_all_sort|]. split; [apply delete_set|].
  split; [intros a w b ->; apply set_in_place|]. split; [|apply sort_by_Permutation].
  apply sort_by_Sorted; [intros x y; apply rstr_leb_total|intros x y z; apply rstr_leb_trans].
Qed.

(** The names are compared as UTF-8, not by UTF-16 code units: a name outside the basic plane
    sorts after U+FF01, whose code unit is greater than its first surrogate. *)
Example sort_is_not_by_code_units :
  params_sort [([128512%N], lit "1"); ([65281%N], lit "2")] = [([65281%N], lit "2"); ([128512%N], lit "1")].
Proof. vm_compute. reflexivity. Qed.
