(* ===== verification/Store.v ===== *)
(** * The profile store

    [crates/vixen-store/src/lib.rs], definitions only: nine tables in one database, each keyed
    by origin partition and name, with cookies, the fetch cache and its redirect aliases,
    visits, the session, Web Storage, downloads, permissions and HSTS.

    The database ([redb]) and the JSON encoding ([serde_json]) are the class [StorePlatform]: a table
    is an ordered map from bytes to bytes.  Each method is one transaction: it commits the new
    tables or returns an error and leaves the store as it was.  Failures of the disk are not
    modelled. *)

From Stdlib Require Import Lia ZArith.
From stdpp Require Import base decidable sets list strings.
From S2P Require Import Prelude.
From S2P Require Import RustStr.
From S2P Require Import RustUtf8.

(** ** Record types: [i64] is [Z], the unsigned integers are [N]. *)

Record CookieRecord : Type := {
  cr_name : rstr; cr_value : rstr; cr_domain : rstr; cr_host_only : bool; cr_path : rstr;
  cr_expires_unix : option Z; cr_secure : bool; cr_http_only : bool; cr_same_site : N;
  cr_creation_unix : Z;
}.

Record CacheEntry : Type := {
  ce_status : N; ce_headers : list (rstr * rstr); ce_body : list N; ce_fetched_unix : Z;
  ce_vary_headers : list (rstr * option rstr);
}.
Record CacheRedirectHop : Type := { hop_to : rstr; hop_status : N }.
Record CacheAlias : Type := { ca_hops : list CacheRedirectHop; ca_fetched_unix : Z }.

Record FormControlSessionState : Type := { fc_key : rstr; fc_value : rstr; fc_checked : option bool }.
Record TabSessionState : Type := {
  ts_scroll_x : N; ts_scroll_y : N; ts_focused_element : option rstr;
  ts_form_controls : list FormControlSessionState;
}.
Record SessionRecord : Type := {
  sr_tabs : list rstr; sr_active_index : N; sr_tab_states : list TabSessionState;
}.
Definition SessionRecord_default : SessionRecord :=
  {| sr_tabs := []; sr_active_index := 0; sr_tab_states := [] |}.

Inductive PermissionDecision : Type := Granted | Denied.
Record PermissionRecord : Type := {
  pr_origin_key : rstr; pr_kind : rstr; pr_decision : PermissionDecision; pr_updated_unix : Z;
}.
Record HstsRecord : Type := {
  hr_host : rstr; hr_include_subdomains : bool; hr_expires_unix : Z; hr_received_unix : Z;
}.

Inductive DownloadState : Type := InProgress | Completed | Failed | Canceled.
Record DownloadRecord : Type := {
  dr_id : N; dr_source_url : option rstr; dr_filename : rstr; dr_destination_path : option rstr;
  dr_mime : rstr; dr_received_bytes : N; dr_total_bytes : option N; dr_state : DownloadState;
  dr_started_unix : Z; dr_updated_unix : Z; dr_error : option rstr;
}.

Record WebStorageRecord : Type := { ws_value : rstr; ws_sequence : N }.

(** Which groups of data a clear-data flow removes. *)
Record ClearDataSelection : Type := {
  clear_cookies_group : bool; clear_fetch_cache : bool; clear_history : bool; clear_session : bool;
  clear_web_storage : bool; clear_downloads_group : bool; clear_permissions_group : bool;
  clear_security_state : bool;
}.
Definition selection_all : ClearDataSelection :=
  {| clear_cookies_group := true; clear_fetch_cache := true; clear_history := true;
     clear_session := true; clear_web_storage := true; clear_downloads_group := true;
     clear_permissions_group := true; clear_security_state := true |}.
Definition browsing_data : ClearDataSelection :=
  {| clear_cookies_group := true; clear_fetch_cache := true; clear_history := true;
     clear_session := false; clear_web_storage := true; clear_downloads_group := true;
     clear_permissions_group := true; clear_security_state := true |}.
Definition selection_is_empty (s : ClearDataSelection) : bool :=
  negb (clear_cookies_group s) && negb (clear_fetch_cache s) && negb (clear_history s) &&
  negb (clear_session s) && negb (clear_web_storage s) && negb (clear_downloads_group s) &&
  negb (clear_permissions_group s) && negb (clear_security_state s).

(** The errors that are not those of [redb]. *)
Inductive StoreError : Type :=
| SerdeError
| Utf8Error
| InvalidWebStorageInput (field reason : string)
| InvalidDownloadInput (field reason : string)
| InvalidSessionInput (field reason : string)
| InvalidPermissionInput (field reason : string)
| InvalidSecurityStateInput (field reason : string)
| InvalidFetchCacheInput (field reason : string).

(** ** The libraries *)

Class Redb : Type := {
  Table : Type;
  table_new : Table;
  table_get : list N → Table → option (list N);
  table_insert : list N → list N → Table → Table;
  table_remove : list N → Table → Table;
  table_iter : Table → list (list N * list N);      (** in ascending order of the keys *)
}.

Class Serde (A : Type) : Type := { encode : A → list N; decode_bytes : list N → option A }.

Class StorePlatform : Type := {
  platform_redb :: Redb;
  serde_cookie :: Serde CookieRecord;
  serde_cache :: Serde CacheEntry;
  serde_alias :: Serde CacheAlias;
  serde_visits :: Serde (list Z);
  serde_tabs :: Serde (list rstr);
  serde_session :: Serde SessionRecord;
  serde_download :: Serde DownloadRecord;
  serde_permission :: Serde PermissionRecord;
  serde_hsts :: Serde HstsRecord;
  serde_web_storage :: Serde WebStorageRecord;
  serde_selector :: Serde (list (rstr * option rstr));
}.

Definition decode `{Serde A} (bytes : list N) : result StoreError A := ok_or (decode_bytes bytes) SerdeError.

(** ** Keys *)

Definition namespaced_prefix (origin_key : rstr) : list N := utf8 origin_key ++ [0%N].
Definition namespaced_key (origin_key name : rstr) : list N := utf8 origin_key ++ [0%N] ++ utf8 name.
Definition hsts_key (host : rstr) : list N := utf8 (to_ascii_lowercase host).

(** [b] followed by [v1] between NUL bytes. *)
Definition FETCH_CACHE_VARIANT_MARKER : list N := [0%N; 118%N; 49%N; 0%N].
Definition fetch_cache_variant_prefix (origin_key url : rstr) : list N :=
  namespaced_key origin_key url ++ FETCH_CACHE_VARIANT_MARKER.

(** [Vec<(String, Option<String>)>::sort]: the order of tuples, [None] first. *)
Definition selector_leb (a b : rstr * option rstr) : bool :=
  if negb (bool_decide (a.1 = b.1)) then rstr_leb a.1 b.1
  else match a.2, b.2 with
       | None, _ => true
       | Some _, None => false
       | Some x, Some y => rstr_leb x y
       end.

Definition starts_with (prefix key : list N) : bool := bool_decide (prefix `prefix_of` key).

(** [u64::to_be_bytes] *)
Definition be_bytes (n : N) : list N :=
  (λ i, N.shiftr n (8 * i) mod 256)%N <$> [7; 6; 5; 4; 3; 2; 1; 0]%N.

(** ** Validation *)

Definition has_nul (value : rstr) : bool := bool_decide (0%N ∈ utf8 value).
Definition is_empty_str (value : rstr) : bool := bool_decide (value = []).

Definition MAX_DOWNLOAD_RECORDS : nat := 512.
Definition MAX_FETCH_CACHE_RECORDS : nat := 512.
Definition MAX_FETCH_CACHE_ALIASES : nat := 512.
Definition MAX_FETCH_CACHE_REDIRECTS : nat := 20.
Definition MAX_SESSION_TABS : nat := 128.
Definition MAX_SESSION_FORM_CONTROLS : nat := 512.
Definition MAX_SESSION_URL_BYTES : N := 8192.
Definition MAX_SESSION_FIELD_BYTES : N := 8192.
Definition MAX_DOWNLOAD_FIELD_BYTES : N := 8192.
Definition MAX_FETCH_CACHE_ALIAS_BYTES : N := 65536.

Definition validate_storage_input (field : string) (value : rstr) (allow_empty : bool) :
    result StoreError unit :=
  _ ← throw_if (negb allow_empty && is_empty_str value) (InvalidWebStorageInput field "must be non-empty");
  throw_if (has_nul value) (InvalidWebStorageInput field "must not contain NUL bytes").

(** The hops of an alias; the sum is a [usize]. *)
Definition validate_alias_hop (total_bytes : N) (hop : CacheRedirectHop) : result StoreError N :=
  _ ← throw_if (negb ((hop_status hop =? 301)%N || (hop_status hop =? 308)%N))
        (InvalidFetchCacheInput "alias-status" "must be a permanent redirect");
  _ ← throw_if (is_empty_str (hop_to hop) || has_nul (hop_to hop))
        (InvalidFetchCacheInput "alias-target" "must be non-empty and contain no NUL bytes");
  total_bytes ← ok_or (checked_add total_bytes (str_len (hop_to hop)))
        (InvalidFetchCacheInput "alias-target" "total target bytes overflow");
  _ ← throw_if (MAX_FETCH_CACHE_ALIAS_BYTES <? total_bytes)%N
        (InvalidFetchCacheInput "alias-target" "total target bytes exceed 64 KiB");
  Ok total_bytes.

Definition validate_cache_alias (url : rstr) (alias : CacheAlias) : result StoreError unit :=
  _ ← throw_if (is_empty_str url || has_nul url)
        (InvalidFetchCacheInput "alias-url" "must be non-empty and contain no NUL bytes");
  _ ← throw_if (bool_decide (ca_hops alias = []) ||
                (MAX_FETCH_CACHE_REDIRECTS <? length (ca_hops alias))%nat)
        (InvalidFetchCacheInput "alias-hops" "must contain between one and twenty redirects");
  _ ← for_each validate_alias_hop 0%N (ca_hops alias);
  Ok tt.

Definition validate_download_text (field : string) (value : rstr) (allow_empty : bool) :
    result StoreError unit :=
  _ ← throw_if (negb allow_empty && is_empty_str value) (InvalidDownloadInput field "must be non-empty");
  _ ← throw_if (MAX_DOWNLOAD_FIELD_BYTES <? str_len value)%N
        (InvalidDownloadInput field "exceeds maximum length");
  throw_if (has_nul value) (InvalidDownloadInput field "must not contain NUL bytes").

Definition validate_download_option (field : string) (value : option rstr) : result StoreError unit :=
  match value with Some value => validate_download_text field value false | None => Ok tt end.

Definition validate_download_record (record : DownloadRecord) : result StoreError unit :=
  _ ← validate_download_text "filename" (dr_filename record) false;
  _ ← validate_download_text "mime" (dr_mime record) true;
  _ ← validate_download_option "source_url" (dr_source_url record);
  _ ← validate_download_option "destination_path" (dr_destination_path record);
  _ ← validate_download_option "error" (dr_error record);
  _ ← throw_if (match dr_total_bytes record with
                | Some total_bytes => (total_bytes <? dr_received_bytes record)%N
                | None => false
                end) (InvalidDownloadInput "received_bytes" "must not exceed total_bytes");
  throw_if (dr_updated_unix record <? dr_started_unix record)%Z
    (InvalidDownloadInput "updated_unix" "must be greater than or equal to started_unix").

Definition validate_session_url (value : rstr) : result StoreError unit :=
  _ ← throw_if (is_empty_str value) (InvalidSessionInput "tabs" "must contain non-empty URLs");
  _ ← throw_if (MAX_SESSION_URL_BYTES <? str_len value)%N
        (InvalidSessionInput "tabs" "URL exceeds maximum length");
  throw_if (has_nul value) (InvalidSessionInput "tabs" "URL must not contain NUL bytes").

Definition validate_session_field (field : string) (value : rstr) (allow_empty : bool) :
    result StoreError unit :=
  _ ← throw_if (negb allow_empty && is_empty_str value) (InvalidSessionInput field "must be non-empty");
  _ ← throw_if (MAX_SESSION_FIELD_BYTES <? str_len value)%N
        (InvalidSessionInput field "exceeds maximum length");
  throw_if (has_nul value) (InvalidSessionInput field "must not contain NUL bytes").

Definition validate_form_control (_ : unit) (control : FormControlSessionState) : result StoreError unit :=
  _ ← validate_session_field "form_controls" (fc_key control) false;
  validate_session_field "form_controls" (fc_value control) true.

Definition validate_tab_session_state (_ : unit) (state : TabSessionState) : result StoreError unit :=
  _ ← match ts_focused_element state with
      | Some focused_element => validate_session_field "focused_element" focused_element false
      | None => Ok tt
      end;
  _ ← throw_if (MAX_SESSION_FORM_CONTROLS <? length (ts_form_controls state))%nat
        (InvalidSessionInput "form_controls" "exceeds maximum form control count");
  for_each validate_form_control tt (ts_form_controls state).

Definition validate_session_record (record : SessionRecord) : result StoreError unit :=
  _ ← throw_if (MAX_SESSION_TABS <? length (sr_tabs record))%nat
        (InvalidSessionInput "tabs" "exceeds maximum tab count");
  match sr_tabs record with
  | [] =>
      _ ← throw_if (negb (sr_active_index record =? 0)%N)
            (InvalidSessionInput "active_index" "must be zero for an empty session");
      throw_if (negb (bool_decide (length (sr_tab_states record) = 0)))
        (InvalidSessionInput "tab_states" "must be empty for an empty session")
  | _ =>
      _ ← throw_if (len (sr_tabs record) <=? sr_active_index record)%N
            (InvalidSessionInput "active_index" "must reference an existing tab");
      _ ← throw_if (negb (bool_decide (length (sr_tab_states record) = 0)) &&
                    negb (length (sr_tab_states record) =? length (sr_tabs record))%nat)
            (InvalidSessionInput "tab_states" "must be empty or match the tab count");
      _ ← for_each (λ _ tab, validate_session_url tab) tt (sr_tabs record);
      for_each validate_tab_session_state tt (sr_tab_states record)
  end.

Definition validate_permission_text (field : string) (value : rstr) : result StoreError unit :=
  _ ← throw_if (is_empty_str value) (InvalidPermissionInput field "must be non-empty");
  throw_if (has_nul value) (InvalidPermissionInput field "must not contain NUL bytes").

Definition validate_permission_record (record : PermissionRecord) : result StoreError unit :=
  _ ← validate_permission_text "origin_key" (pr_origin_key record);
  validate_permission_text "kind" (pr_kind record).

Definition validate_hsts_host (host : rstr) : result StoreError unit :=
  _ ← throw_if (is_empty_str host) (InvalidSecurityStateInput "host" "must be non-empty");
  throw_if (has_nul host) (InvalidSecurityStateInput "host" "must not contain NUL bytes").

Definition validate_hsts_record (record : HstsRecord) : result StoreError unit :=
  _ ← validate_hsts_host (hr_host record);
  throw_if (hr_expires_unix record <? hr_received_unix record)%Z
    (InvalidSecurityStateInput "expires_unix" "must be greater than or equal to received_unix").

(** ** The store *)

Inductive TableDefinition : Type :=
| COOKIES | FETCH_CACHE | FETCH_CACHE_ALIASES | HISTORY | SESSION | WEB_STORAGE | DOWNLOADS
| PERMISSIONS | HSTS.
#[export] Instance TableDefinition_eq_dec : EqDecision TableDefinition.
Proof. solve_decision. Defined.

Section store.
Context `{StorePlatform}.

Definition Store : Type := TableDefinition → Table.

(** [w.open_table(..)] and the table that [w.commit()] leaves. *)
Definition with_table (d : TableDefinition) (t : Table) (s : Store) : Store :=
  λ d', if decide (d' = d) then t else s d'.

(** [Store::open] on a new file. *)
Definition store_open : Store := λ _, table_new.

Definition remove_all (keys : list (list N)) (t : Table) : Table :=
  foldl (λ t key, table_remove key t) t keys.

(** The keys of one partition, and of a whole table. *)
Definition partition_keys (prefix : list N) (t : Table) : list (list N) :=
  (filter (λ kv, starts_with prefix kv.1 = true) (table_iter t)).*1.
Definition clear_partition (prefix : list N) (t : Table) : Table :=
  remove_all (partition_keys prefix t) t.
Definition clear_table (d : TableDefinition) (s : Store) : Store :=
  with_table d (remove_all (table_iter (s d)).*1 (s d)) s.

(** Sorted by age, the first ones beyond the maximum are removed. *)
Definition evict_records {B} (le : list N * B → list N * B → bool) (maximum : nat)
    (records : list (list N * B)) (t : Table) : Table :=
  if (maximum <? length records)%nat
  then remove_all (take (length records - maximum) (sort_by le records)).*1 t
  else t.

Definition fetched_then_key (a b : list N * Z) : bool :=
  (a.2 <? b.2)%Z || ((a.2 =? b.2)%Z && rstr_leb a.1 b.1).

(** *** Cookies *)

Definition put_cookie (origin_key : rstr) (rec : CookieRecord) (s : Store) : result StoreError Store :=
  Ok (with_table COOKIES
    (table_insert (namespaced_key origin_key (cr_name rec)) (encode rec) (s COOKIES)) s).

(** A record that does not decode is skipped. *)
Definition store_cookies_for (origin_key : rstr) (s : Store) : result StoreError (list CookieRecord) :=
  Ok (omap (λ kv, if starts_with (namespaced_prefix origin_key) kv.1 then decode_bytes kv.2 else None)
        (table_iter (s COOKIES))).

Definition delete_cookie (origin_key name : rstr) (s : Store) : result StoreError Store :=
  Ok (with_table COOKIES (table_remove (namespaced_key origin_key name) (s COOKIES)) s).

Definition clear_cookies (origin_key : rstr) (s : Store) : result StoreError Store :=
  Ok (with_table COOKIES (clear_partition (namespaced_prefix origin_key) (s COOKIES)) s).

(** *** Fetch cache *)

Definition fetch_cache_variant_key (origin_key url : rstr) (entry : CacheEntry) : list N :=
  fetch_cache_variant_prefix origin_key url ++ encode (sort_by selector_leb (ce_vary_headers entry)).

Definition put_cache (origin_key url : rstr) (entry : CacheEntry) (s : Store) : result StoreError Store :=
  let t := table_insert (fetch_cache_variant_key origin_key url entry) (encode entry)
             (table_remove (namespaced_key origin_key url) (s FETCH_CACHE)) in
  records ← collect (λ kv, entry ← decode kv.2; Ok (kv.1, ce_fetched_unix entry)) (table_iter t);
  Ok (with_table FETCH_CACHE (evict_records fetched_then_key MAX_FETCH_CACHE_RECORDS records t) s).

Definition cache_variants (origin_key url : rstr) (s : Store) : result StoreError (list CacheEntry) :=
  collect (λ kv, decode kv.2)
    (filter (λ kv, bool_decide (kv.1 = namespaced_key origin_key url) ||
                   starts_with (fetch_cache_variant_prefix origin_key url) kv.1 = true)
       (table_iter (s FETCH_CACHE))).

Definition get_cache (origin_key url : rstr) (s : Store) : result StoreError (option CacheEntry) :=
  entries ← cache_variants origin_key url s;
  Ok (max_by (λ a b, (ce_fetched_unix a <=? ce_fetched_unix b)%Z) entries).

Definition put_cache_alias (origin_key url : rstr) (alias : CacheAlias) (s : Store) :
    result StoreError Store :=
  _ ← validate_cache_alias url alias;
  let t := table_insert (namespaced_key origin_key url) (encode alias) (s FETCH_CACHE_ALIASES) in
  records ← collect (λ kv, alias ← decode kv.2; Ok (kv.1, ca_fetched_unix alias)) (table_iter t);
  Ok (with_table FETCH_CACHE_ALIASES
        (evict_records fetched_then_key MAX_FETCH_CACHE_ALIASES records t) s).

Definition cache_alias (origin_key url : rstr) (s : Store) : result StoreError (option CacheAlias) :=
  match table_get (namespaced_key origin_key url) (s FETCH_CACHE_ALIASES) with
  | Some value => alias ← decode value; Ok (Some alias)
  | None => Ok None
  end.

Definition delete_cache_alias (origin_key url : rstr) (s : Store) : result StoreError Store :=
  Ok (with_table FETCH_CACHE_ALIASES
        (table_remove (namespaced_key origin_key url) (s FETCH_CACHE_ALIASES)) s).

(** *** History *)

Definition record_visit (origin_key url : rstr) (ts : Z) (s : Store) : result StoreError Store :=
  let key := namespaced_key origin_key url in
  visits ← match table_get key (s HISTORY) with
           | Some v => visits ← decode v; Ok (visits ++ [ts])
           | None => Ok [ts]
           end;
  Ok (with_table HISTORY (table_insert key (encode visits) (s HISTORY)) s).

Definition visits_for (origin_key url : rstr) (s : Store) : result StoreError (list Z) :=
  match table_get (namespaced_key origin_key url) (s HISTORY) with
  | Some v => decode v
  | None => Ok []
  end.

(** *** Session *)

Definition SESSION_KEY : list N := lit "open-tabs".
Definition SESSION_RECORD_KEY : list N := lit "session-record-v1".

Definition save_session_record (record : SessionRecord) (s : Store) : result StoreError Store :=
  _ ← validate_session_record record;
  Ok (with_table SESSION
        (table_insert SESSION_RECORD_KEY (encode record)
           (table_insert SESSION_KEY (encode (sr_tabs record)) (s SESSION))) s).

Definition save_session (tabs : list rstr) (s : Store) : result StoreError Store :=
  save_session_record {| sr_tabs := tabs; sr_active_index := 0; sr_tab_states := [] |} s.

Definition load_session_record (s : Store) : result StoreError SessionRecord :=
  match table_get SESSION_RECORD_KEY (s SESSION) with
  | Some v =>
      record ← decode v;
      _ ← validate_session_record record;
      Ok record
  | None =>
      match table_get SESSION_KEY (s SESSION) with
      | Some v =>
          tabs ← decode v;
          let record := {| sr_tabs := tabs; sr_active_index := 0; sr_tab_states := [] |} in
          _ ← validate_session_record record;
          Ok record
      | None => Ok SessionRecord_default
      end
  end.

Definition load_session (s : Store) : result StoreError (list rstr) :=
  record ← load_session_record s; Ok (sr_tabs record).

(** *** Downloads *)

Definition started_then_id (a b : list N * (Z * N)) : bool :=
  (a.2.1 <? b.2.1)%Z || ((a.2.1 =? b.2.1)%Z && (a.2.2 <=? b.2.2)%N).

Definition put_download (record : DownloadRecord) (s : Store) : result StoreError Store :=
  _ ← validate_download_record record;
  let t := table_insert (be_bytes (dr_id record)) (encode record) (s DOWNLOADS) in
  records ← collect (λ kv, rec ← decode kv.2; Ok (kv.1, (dr_started_unix rec, dr_id rec))) (table_iter t);
  Ok (with_table DOWNLOADS (evict_records started_then_id MAX_DOWNLOAD_RECORDS records t) s).

(** Newest first. *)
Definition newest_first (a b : DownloadRecord) : bool :=
  (dr_started_unix b <? dr_started_unix a)%Z ||
  ((dr_started_unix b =? dr_started_unix a)%Z && (dr_id b <=? dr_id a)%N).

Definition downloads (s : Store) : result StoreError (list DownloadRecord) :=
  out ← collect (λ kv, decode kv.2) (table_iter (s DOWNLOADS));
  Ok (sort_by newest_first out).

Definition clear_downloads (s : Store) : result StoreError Store := Ok (clear_table DOWNLOADS s).

Definition clear_if (selected : bool) (d : TableDefinition) (s : Store) : Store :=
  if selected then clear_table d s else s.

Definition clear_profile_data (selection : ClearDataSelection) (s : Store) : result StoreError Store :=
  if selection_is_empty selection then Ok s
  else
    let s := clear_if (clear_cookies_group selection) COOKIES s in
    let s := clear_if (clear_fetch_cache selection) FETCH_CACHE s in
    let s := clear_if (clear_fetch_cache selection) FETCH_CACHE_ALIASES s in
    let s := clear_if (clear_history selection) HISTORY s in
    let s := clear_if (clear_session selection) SESSION s in
    let s := clear_if (clear_web_storage selection) WEB_STORAGE s in
    let s := clear_if (clear_downloads_group selection) DOWNLOADS s in
    let s := clear_if (clear_permissions_group selection) PERMISSIONS s in
    Ok (clear_if (clear_security_state selection) HSTS s).

(** *** Security state and permissions *)

Definition put_hsts (record : HstsRecord) (s : Store) : result StoreError Store :=
  _ ← validate_hsts_record record;
  Ok (with_table HSTS (table_insert (hsts_key (hr_host record)) (encode record) (s HSTS)) s).

Definition hsts (host : rstr) (s : Store) : result StoreError (option HstsRecord) :=
  _ ← validate_hsts_host host;
  match table_get (hsts_key host) (s HSTS) with
  | Some v => record ← decode v; Ok (Some record)
  | None => Ok None
  end.

Definition delete_hsts (host : rstr) (s : Store) : result StoreError Store :=
  _ ← validate_hsts_host host;
  Ok (with_table HSTS (table_remove (hsts_key host) (s HSTS)) s).

Definition put_permission (record : PermissionRecord) (s : Store) : result StoreError Store :=
  _ ← validate_permission_record record;
  Ok (with_table PERMISSIONS
        (table_insert (namespaced_key (pr_origin_key record) (pr_kind record)) (encode record)
           (s PERMISSIONS)) s).

Definition permission (origin_key kind : rstr) (s : Store) : result StoreError (option PermissionRecord) :=
  _ ← validate_permission_text "origin_key" origin_key;
  _ ← validate_permission_text "kind" kind;
  match table_get (namespaced_key origin_key kind) (s PERMISSIONS) with
  | Some v => record ← decode v; Ok (Some record)
  | None => Ok None
  end.

Definition permissions_for (origin_key : rstr) (s : Store) : result StoreError (list PermissionRecord) :=
  _ ← validate_permission_text "origin_key" origin_key;
  out ← collect (λ kv, decode kv.2)
          (filter (λ kv, starts_with (namespaced_prefix origin_key) kv.1 = true) (table_iter (s PERMISSIONS)));
  Ok (sort_by (λ a b, rstr_leb (pr_kind a) (pr_kind b)) out).

Definition clear_permissions (origin_key : rstr) (s : Store) : result StoreError Store :=
  _ ← validate_permission_text "origin_key" origin_key;
  Ok (with_table PERMISSIONS (clear_partition (namespaced_prefix origin_key) (s PERMISSIONS)) s).

(** *** Web Storage *)

(** [max_sequence + 1] of a [u64]. *)
Definition next_web_storage_sequence (partition_key : rstr) (t : Table) : result StoreError N :=
  max_sequence ← for_each (λ max_sequence kv,
      rec ← decode kv.2; Ok (N.max max_sequence (ws_sequence rec))) 0%N
    (filter (λ kv, starts_with (namespaced_prefix partition_key) kv.1 = true) (table_iter t));
  Ok ((max_sequence + 1) `mod` 2 ^ 64)%N.

Definition put_storage_item (partition_key key value : rstr) (s : Store) : result StoreError Store :=
  _ ← validate_storage_input "partition" partition_key false;
  _ ← validate_storage_input "key" key false;
  _ ← validate_storage_input "value" value true;
  let db_key := namespaced_key partition_key key in
  sequence ← match table_get db_key (s WEB_STORAGE) with
             | Some existing => rec ← decode existing; Ok (ws_sequence rec)
             | None => next_web_storage_sequence partition_key (s WEB_STORAGE)
             end;
  Ok (with_table WEB_STORAGE
        (table_insert db_key (encode {| ws_value := value; ws_sequence := sequence |}) (s WEB_STORAGE)) s).

Definition get_storage_item (partition_key key : rstr) (s : Store) : result StoreError (option rstr) :=
  _ ← validate_storage_input "partition" partition_key false;
  _ ← validate_storage_input "key" key false;
  match table_get (namespaced_key partition_key key) (s WEB_STORAGE) with
  | Some v => rec ← decode v; Ok (Some (ws_value rec))
  | None => Ok None
  end.

Definition remove_storage_item (partition_key key : rstr) (s : Store) : result StoreError Store :=
  _ ← validate_storage_input "partition" partition_key false;
  _ ← validate_storage_input "key" key false;
  Ok (with_table WEB_STORAGE (table_remove (namespaced_key partition_key key) (s WEB_STORAGE)) s).

Definition clear_storage_partition (partition_key : rstr) (s : Store) : result StoreError Store :=
  _ ← validate_storage_input "partition" partition_key false;
  Ok (with_table WEB_STORAGE (clear_partition (namespaced_prefix partition_key) (s WEB_STORAGE)) s).

(** One row: the sequence number, the key without its prefix, the value. *)
Definition storage_row (prefix : list N) (kv : list N * list N) : result StoreError (N * rstr * rstr) :=
  rec ← decode kv.2;
  key ← ok_or (from_utf8 (drop (length prefix) kv.1)) Utf8Error;
  Ok (ws_sequence rec, key, ws_value rec).

Definition storage_entries (partition_key : rstr) (s : Store) : result StoreError (list (rstr * rstr)) :=
  _ ← validate_storage_input "partition" partition_key false;
  let prefix := namespaced_prefix partition_key in
  out ← collect (storage_row prefix)
          (filter (λ kv, starts_with prefix kv.1 = true) (table_iter (s WEB_STORAGE)));
  Ok ((λ '(_, key, value), (key, value)) <$> sort_by (λ a b, a.1.1 <=? b.1.1)%N out).
End store.
