(* ===== verification/StoreFacts.v ===== *)
(** * The profile store: laws, tables and partitions

    What the database and the encoding promise ([RedbLaws], [SerdeLaws]), iteration over one
    partition, and what the operations of one origin leave of the others. *)

From Stdlib Require Import Lia ZArith Sorting.Sorted.
From stdpp Require Import base decidable sets list sorting strings countable gmap.
From S2P Require Import Prelude.
From S2P Require Import RustStr.
From S2P Require Import RustUtf8.
From S2P Require Import RustMap.
From S2P Require Import Store.

(** ** What the libraries promise *)

Definition key_before {B} (a b : list N * B) : Prop := rstr_leb b.1 a.1 = false.

Class RedbLaws `{Redb} : Prop := {
  table_get_new key : table_get key table_new = None;
  table_get_insert key value key' t :
    table_get key' (table_insert key value t) = if decide (key' = key) then Some value else table_get key' t;
  table_get_remove key key' t :
    table_get key' (table_remove key t) = if decide (key' = key) then None else table_get key' t;
  table_iter_get t key value : (key, value) ∈ table_iter t ↔ table_get key t = Some value;
  table_iter_sorted t : StronglySorted key_before (table_iter t);
}.

Class SerdeLaws A `{Serde A} : Prop := decode_encode (x : A) : decode_bytes (encode x) = Some x.

Class StoreLaws `{StorePlatform} : Prop := {
  platform_redb_laws :: RedbLaws;
  law_cookie :: SerdeLaws CookieRecord;
  law_cache :: SerdeLaws CacheEntry;
  law_alias :: SerdeLaws CacheAlias;
  law_visits :: SerdeLaws (list Z);
  law_tabs :: SerdeLaws (list rstr);
  law_session :: SerdeLaws SessionRecord;
  law_download :: SerdeLaws DownloadRecord;
  law_permission :: SerdeLaws PermissionRecord;
  law_hsts :: SerdeLaws HstsRecord;
  law_web_storage :: SerdeLaws WebStorageRecord;
  law_selector :: SerdeLaws (list (rstr * option rstr));
}.

Lemma decode_encoded `{SerdeLaws A} (x : A) : decode (encode x) = Ok x.
Proof. unfold decode. by rewrite decode_encode. Qed.

(** ** Keys *)

Definition nul_free (s : rstr) : Prop := scalars s ∧ has_nul s = false.

Lemma has_nul_false s : has_nul s = false ↔ 0%N ∉ utf8 s.
Proof. unfold has_nul. apply bool_decide_eq_false. Qed.

(** The first NUL ends the partition. *)
Lemma split_at_nul (a b a' b' : list N) :
  0%N ∉ a → 0%N ∉ a' → a ++ 0%N :: b = a' ++ 0%N :: b' → a = a' ∧ b = b'.
Proof.
  revert a'. induction a as [|x a IH]; intros [|y a'] Ha Ha' E; cbn in *.
  - by injection E.
  - injection E as <- _. by destruct Ha'; left.
  - injection E as -> _. by destruct Ha; left.
  - injection E as -> E. destruct (IH a') as [-> ->]; [set_solver..|done|done].
Qed.

Lemma namespaced_key_prefix o name : namespaced_key o name = namespaced_prefix o ++ utf8 name.
Proof. unfold namespaced_key, namespaced_prefix. by rewrite <-(assoc_L app). Qed.

Lemma namespaced_key_inj o name o' name' :
  nul_free o → nul_free o' → scalars name → scalars name' →
  namespaced_key o name = namespaced_key o' name' → o = o' ∧ name = name'.
Proof.
  intros [Ho Hn%has_nul_false] [Ho' Hn'%has_nul_false] Hs Hs' E.
  apply split_at_nul in E as [E1 E2]; [|done..].
  by apply utf8_inj in E1, E2.
Qed.

Lemma starts_with_true prefix key : starts_with prefix key = true ↔ prefix `prefix_of` key.
Proof. unfold starts_with. apply bool_decide_eq_true. Qed.

Lemma starts_with_own o name : starts_with (namespaced_prefix o) (namespaced_key o name) = true.
Proof. rewrite starts_with_true, namespaced_key_prefix. by eexists. Qed.

Lemma prefix_of_key o rest o' :
  nul_free o → nul_free o' →
  starts_with (namespaced_prefix o') (namespaced_prefix o ++ rest) = true → o = o'.
Proof.
  intros [Ho Hn%has_nul_false] [Ho' Hn'%has_nul_false] Hp%starts_with_true.
  destruct Hp as [k Hk]. unfold namespaced_prefix in Hk. rewrite <-!(assoc_L app) in Hk.
  apply split_at_nul in Hk as [E _]; [|done..]. by apply utf8_inj in E.
Qed.

(** ** The order of keys *)

Lemma key_before_irrefl {B} (a : list N * B) : ¬ key_before a a.
Proof. unfold key_before. by destruct (rstr_leb_total a.1 a.1) as [->| ->]. Qed.

Lemma key_before_asym {B} (a b : list N * B) : key_before a b → key_before b a → False.
Proof. unfold key_before. destruct (rstr_leb_total a.1 b.1); congruence. Qed.

Lemma StronglySorted_filter' {A} (R : A → A → Prop) (P : A → Prop) `{∀ x, Decision (P x)} l :
  StronglySorted R l → StronglySorted R (filter P l).
Proof.
  induction 1 as [|x l Hl IH Hx]; [constructor|]. rewrite filter_cons. case_decide; [|done].
  constructor; [done|]. rewrite Forall_forall in *. intros y [_ Hy]%list_elem_of_filter. by apply Hx.
Qed.

Lemma sorted_NoDup {A} (R : A → A → Prop) l : (∀ x, ¬ R x x) → StronglySorted R l → NoDup l.
Proof.
  intros Hirr. induction 1 as [|x l Hl IH Hx]; constructor; [|done].
  intros Hin. rewrite Forall_forall in Hx. by apply (Hirr x), Hx.
Qed.

(** A strictly sorted list is determined by its members. *)
Lemma sorted_unique {A} (R : A → A → Prop) l k :
  (∀ x, ¬ R x x) → (∀ x y, R x y → R y x → False) →
  StronglySorted R l → StronglySorted R k → (∀ x, x ∈ l ↔ x ∈ k) → l = k.
Proof.
  intros Hirr Hasym Hl Hk Hm. apply (StronglySorted_unique_strong R); [|done|done|].
  - intros x y _ _ H1 H2. exfalso. eauto.
  - apply NoDup_Permutation; [by eapply sorted_NoDup..|done].
Qed.

(** ** Partitions of a table *)

Definition partition_rows `{Redb} (prefix : list N) (t : Table) : list (list N * list N) :=
  filter (λ kv, starts_with prefix kv.1 = true) (table_iter t).

Section tables.
Context `{StoreLaws}.

Lemma table_keys_nodup t : NoDup (table_iter t).*1.
Proof.
  pose proof (table_iter_sorted t) as Hs. induction Hs as [|x l Hl IH Hx]; cbn; constructor; [|done].
  intros (y & E & Hy)%list_elem_of_fmap. rewrite Forall_forall in Hx. specialize (Hx _ Hy).
  unfold key_before in Hx. rewrite <-E in Hx. destruct (rstr_leb_total x.1 x.1); congruence.
Qed.

Lemma elem_of_table_keys key t : key ∈ (table_iter t).*1 ↔ table_get key t ≠ None.
Proof.
  rewrite list_elem_of_fmap. split.
  - intros ([k v] & -> & Hkv%table_iter_get). cbn. congruence.
  - destruct (table_get key t) as [v|] eqn:E; [|done]. intros _. exists (key, v). split; [done|].
    by apply table_iter_get.
Qed.

Lemma elem_of_partition_rows prefix key value t :
  (key, value) ∈ partition_rows prefix t ↔ starts_with prefix key = true ∧ table_get key t = Some value.
Proof. unfold partition_rows. by rewrite list_elem_of_filter, table_iter_get. Qed.

Lemma partition_rows_sorted prefix t : StronglySorted key_before (partition_rows prefix t).
Proof. apply StronglySorted_filter', table_iter_sorted. Qed.

(** Tables that agree on a partition list the same rows of it. *)
Lemma partition_rows_ext prefix t t' :
  (∀ key, starts_with prefix key = true → table_get key t = table_get key t') →
  partition_rows prefix t = partition_rows prefix t'.
Proof.
  intros Ht. apply (sorted_unique key_before).
  - apply key_before_irrefl.
  - apply key_before_asym.
  - apply partition_rows_sorted.
  - apply partition_rows_sorted.
  - intros [key value]. rewrite !elem_of_partition_rows. split; intros [Hp Hg]; (split; [done|]); by rewrite ?Ht, <-?Ht in *.
Qed.

Lemma table_get_remove_all keys key t :
  table_get key (remove_all keys t) = if decide (key ∈ keys) then None else table_get key t.
Proof.
  unfold remove_all. revert t. induction keys as [|k keys IH]; intros t; cbn [foldl]; [done|].
  rewrite IH, table_get_remove. destruct (decide (key ∈ keys)), (decide (key = k)), (decide (key ∈ k :: keys));
    try done; set_solver.
Qed.

Lemma table_get_clear_partition prefix key t :
  table_get key (clear_partition prefix t) = if starts_with prefix key then None else table_get key t.
Proof.
  unfold clear_partition. rewrite table_get_remove_all. unfold partition_keys.
  destruct (decide _) as [Hin|Hin].
  - apply list_elem_of_fmap in Hin as ([k v] & -> & [Hp _]%list_elem_of_filter). cbn in *. by rewrite Hp.
  - destruct (starts_with prefix key) eqn:Hp; [|done]. destruct (table_get key t) as [v|] eqn:Hg; [|done].
    destruct Hin. apply list_elem_of_fmap. exists (key, v). split; [done|].
    apply list_elem_of_filter. split; [done|]. by apply table_iter_get.
Qed.

Lemma table_get_clear_all key t : table_get key (remove_all (table_iter t).*1 t) = None.
Proof.
  rewrite table_get_remove_all. destruct (decide _) as [|Hin]; [done|].
  destruct (table_get key t) as [v|] eqn:Hg; [|done]. destruct Hin. apply list_elem_of_fmap.
  exists (key, v). split; [done|]. by apply table_iter_get.
Qed.

Lemma table_rows_le t t' : (∀ key, table_get key t' ≠ None → table_get key t ≠ None) →
  (length (table_iter t') ≤ length (table_iter t))%nat.
Proof.
  intros Hk. rewrite <-(length_fmap fst (table_iter t')), <-(length_fmap fst (table_iter t)).
  apply submseteq_length, NoDup_submseteq; [apply table_keys_nodup|]. intros k. rewrite !elem_of_table_keys. apply Hk.
Qed.
Lemma table_remove_length key t : (length (table_iter (table_remove key t)) ≤ length (table_iter t))%nat.
Proof. apply table_rows_le. intros k. rewrite table_get_remove. by case_decide. Qed.
Lemma table_insert_length key v t : (length (table_iter (table_insert key v t)) ≤ S (length (table_iter t)))%nat.
Proof.
  rewrite <-(length_fmap fst (table_iter _)), <-(length_fmap fst (table_iter t)).
  change (S (length ?l)) with (length (key :: l)). apply submseteq_length, NoDup_submseteq; [apply table_keys_nodup|].
  intros k. rewrite elem_of_cons, !elem_of_table_keys, table_get_insert. case_decide; auto.
Qed.
End tables.

(** Takes apart the results of an operation that succeeded. *)
Ltac store_ok :=
  repeat match goal with
  | HOk : _ ∧ _ |- _ => destruct HOk
  | HOk : ∃ _, _ |- _ => destruct HOk
  | HOk : Ok _ = Ok _ |- _ => injection HOk as <-
  | HOk : (_ ≫= _) = Ok _ |- _ => apply bind_Ok in HOk
  end.

(** ** One origin does not see another *)

Section isolation.
Context `{StoreLaws}.

(** Two stores that agree on everything filed under one origin. *)
Definition agree_on (o : rstr) (s s' : Store) : Prop :=
  ∀ d key, starts_with (namespaced_prefix o) key = true → table_get key (s d) = table_get key (s' d).

Lemma with_table_eq d t s : with_table d t s d = t.
Proof. unfold with_table. by rewrite decide_True. Qed.

Lemma with_table_ne d d' t s : d' ≠ d → with_table d t s d' = s d'.
Proof. intros Hd. unfold with_table. by rewrite decide_False. Qed.

(** A table that changed only outside the partition. *)
Lemma agree_with_table o d t s :
  (∀ key, starts_with (namespaced_prefix o) key = true → table_get key (s d) = table_get key t) →
  agree_on o s (with_table d t s).
Proof.
  intros Ht d' key Hp. destruct (decide (d' = d)) as [->|Hd].
  - rewrite with_table_eq. by apply Ht.
  - by rewrite with_table_ne.
Qed.

Lemma agree_insert o o' d name value s :
  nul_free o → nul_free o' → o ≠ o' →
  agree_on o' s (with_table d (table_insert (namespaced_key o name) value (s d)) s).
Proof.
  intros Ho Ho' Hne. apply agree_with_table. intros key Hp. rewrite table_get_insert.
  destruct (decide (key = _)) as [->|]; [|done]. rewrite namespaced_key_prefix in Hp.
  by apply prefix_of_key in Hp.
Qed.

Lemma agree_remove o o' d name s :
  nul_free o → nul_free o' → o ≠ o' →
  agree_on o' s (with_table d (table_remove (namespaced_key o name) (s d)) s).
Proof.
  intros Ho Ho' Hne. apply agree_with_table. intros key Hp. rewrite table_get_remove.
  destruct (decide (key = _)) as [->|]; [|done]. rewrite namespaced_key_prefix in Hp.
  by apply prefix_of_key in Hp.
Qed.

Lemma agree_clear o o' d s :
  nul_free o → nul_free o' → o ≠ o' →
  agree_on o' s (with_table d (clear_partition (namespaced_prefix o) (s d)) s).
Proof.
  intros Ho Ho' Hne. apply agree_with_table. intros key Hp. rewrite table_get_clear_partition.
  destruct (starts_with (namespaced_prefix o) key) eqn:Hp'; [|done].
  apply starts_with_true in Hp' as [rest ->]. by apply prefix_of_key in Hp.
Qed.

(** The writes of one origin. *)
Inductive OriginOp : Type :=
| PutCookie (rec : CookieRecord)
| DeleteCookie (name : rstr)
| ClearCookies
| PutCache (url : rstr) (entry : CacheEntry)
| PutCacheAlias (url : rstr) (alias : CacheAlias)
| DeleteCacheAlias (url : rstr)
| RecordVisit (url : rstr) (ts : Z)
| PutPermission (kind : rstr) (decision : PermissionDecision) (updated_unix : Z)
| ClearPermissions
| PutStorageItem (key value : rstr)
| RemoveStorageItem (key : rstr)
| ClearStoragePartition.

Definition run_origin_op (o : rstr) (op : OriginOp) (s : Store) : result StoreError Store :=
  match op with
  | PutCookie rec => put_cookie o rec s
  | DeleteCookie name => delete_cookie o name s
  | ClearCookies => clear_cookies o s
  | PutCache url entry => put_cache o url entry s
  | PutCacheAlias url alias => put_cache_alias o url alias s
  | DeleteCacheAlias url => delete_cache_alias o url s
  | RecordVisit url ts => record_visit o url ts s
  | PutPermission kind decision ts =>
      put_permission {| pr_origin_key := o; pr_kind := kind; pr_decision := decision; pr_updated_unix := ts |} s
  | ClearPermissions => clear_permissions o s
  | PutStorageItem key value => put_storage_item o key value s
  | RemoveStorageItem key => remove_storage_item o key s
  | ClearStoragePartition => clear_storage_partition o s
  end.

(** The tables whose rows are evicted, and the writes that may evict *)
Definition evicts (op : OriginOp) : option TableDefinition :=
  match op with PutCache _ _ => Some FETCH_CACHE | PutCacheAlias _ _ => Some FETCH_CACHE_ALIASES | _ => None end.
Definition rows (d : TableDefinition) (s : Store) : nat := length (table_iter (s d)).

Lemma origin_op_agrees o o' op s s' :
  nul_free o → nul_free o' → o ≠ o' → evicts op = None → run_origin_op o op s = Ok s' → agree_on o' s s'.
Proof.
  intros Ho Ho' Hne He. destruct op; try discriminate He; cbn [run_origin_op];
    unfold put_cookie, delete_cookie, clear_cookies, delete_cache_alias, record_visit, put_permission,
      clear_permissions, put_storage_item, remove_storage_item, clear_storage_partition;
    rewrite ?bind_unit_Ok, ?bind_Ok; intros HOk; store_ok; auto using agree_insert, agree_remove, agree_clear.
Qed.

(** An eviction only removes, and only where there are more rows than allowed. *)
Lemma evict_records_loses {B} le maximum (records : list (list N * B)) t key :
  table_get key (evict_records le maximum records t) = table_get key t ∨
  table_get key (evict_records le maximum records t) = None ∧ (maximum < length records)%nat.
Proof.
  unfold evict_records. destruct (Nat.ltb_spec maximum (length records)); [|by left]. rewrite table_get_remove_all.
  case_decide; [by right|by left].
Qed.

(** What a write of [o] to the cache does, with the limit of both tables: rows of [o] change,
    there is at most one more, and then rows may be evicted. *)
Definition cache_limit : nat := MAX_FETCH_CACHE_RECORDS.
Definition cache_write (o : rstr) (t t' : Table) : Prop := ∃ updated records,
  (∀ key, table_get key updated ≠ table_get key t → starts_with (namespaced_prefix o) key = true) ∧
  (length (table_iter updated) ≤ S (length (table_iter t)))%nat ∧ length records = length (table_iter updated) ∧
  t' = evict_records fetched_then_key cache_limit records updated.

Lemma insert_own o key v t : starts_with (namespaced_prefix o) key = true →
  ∀ k, table_get k (table_insert key v t) ≠ table_get k t → starts_with (namespaced_prefix o) k = true.
Proof. intros Ho k. rewrite table_get_insert. by case_decide; [subst|]. Qed.
Lemma remove_own o key t : starts_with (namespaced_prefix o) key = true →
  ∀ k, table_get k (table_remove key t) ≠ table_get k t → starts_with (namespaced_prefix o) k = true.
Proof. intros Ho k. rewrite table_get_remove. by case_decide; [subst|]. Qed.
Lemma variant_key_own o url entry : starts_with (namespaced_prefix o) (fetch_cache_variant_key o url entry) = true.
Proof.
  unfold fetch_cache_variant_key, fetch_cache_variant_prefix. rewrite namespaced_key_prefix, starts_with_true, <-!(assoc_L app). by eexists.
Qed.

Lemma origin_op_evicts o op s s' d : evicts op = Some d → run_origin_op o op s = Ok s' →
  ∃ t, cache_write o (s d) t ∧ s' = with_table d t s.
Proof.
  intros He Hrun. destruct op as [| | |url entry|url alias| | | | | | |]; try discriminate He; injection He as <-; cbn [run_origin_op] in Hrun;
    unfold put_cache, put_cache_alias in Hrun; rewrite ?bind_unit_Ok, ?bind_Ok in Hrun.
  - destruct Hrun as (records & Hr & [= <-]). eexists. split; [|done]. eexists _, records.
    split_and!; [| |apply collect_Ok, Forall2_length in Hr; done|done].
    + intros k Hk. destruct (decide (table_get k (table_remove (namespaced_key o url) (s FETCH_CACHE)) = table_get k (s FETCH_CACHE))) as [<-|Hne] in Hk;
        [by apply (insert_own o) in Hk; [|apply variant_key_own]|by eapply remove_own; [apply starts_with_own|]].
    + etrans; [apply table_insert_length|]. apply le_n_S, table_remove_length.
  - destruct Hrun as (_ & records & Hr & [= <-]). eexists. split; [|done]. eexists _, records.
    split_and!; [|apply table_insert_length|apply collect_Ok, Forall2_length in Hr; done|done].
    apply insert_own, starts_with_own.
Qed.

(** What is left of the cache of [o'], row by row *)
Definition only_lost (o' : rstr) (t t' : Table) : Prop :=
  ∀ key, starts_with (namespaced_prefix o') key = true → table_get key t' = table_get key t ∨ table_get key t' = None.
Definition untouched (o' : rstr) (t t' : Table) : Prop :=
  ∀ key, starts_with (namespaced_prefix o') key = true → table_get key t' = table_get key t.

Lemma cache_write_rows o t t' : cache_write o t t' → (length (table_iter t') ≤ S (length (table_iter t)))%nat.
Proof.
  intros (u & r & _ & Hl & _ & ->). etrans; [|exact Hl]. apply table_rows_le. intros key Hk.
  by destruct (evict_records_loses fetched_then_key cache_limit r u key) as [<-|[E _]].
Qed.
Lemma cache_write_loses o o' t t' : nul_free o → nul_free o' → o ≠ o' → cache_write o t t' →
  only_lost o' t t' ∧ ((length (table_iter t) < cache_limit)%nat → untouched o' t t').
Proof.
  intros Ho Ho' Hne (u & r & Hu & Hl & Hr & ->).
  assert (∀ key, starts_with (namespaced_prefix o') key = true → table_get key u = table_get key t) as Hsame.
  { intros key Hp. destruct (decide (table_get key u = table_get key t)) as [|Hk%Hu]; [done|].
    apply starts_with_true in Hk as [rest ->]. by apply prefix_of_key in Hp. }
  split.
  - intros key Hp. rewrite <-(Hsame key Hp). destruct (evict_records_loses fetched_then_key cache_limit r u key) as [E|[E _]]; rewrite E; auto.
  - intros Hroom key Hp. rewrite <-(Hsame key Hp). destruct (evict_records_loses fetched_then_key cache_limit r u key) as [E|[_ E]]; [done|lia].
Qed.
End isolation.

(** * A concrete platform for the store

    Tables are finite maps listed in the order of their keys, records are encoded by numbering
    them.  The laws hold, so the theorems that assume them are about something. *)

(** ** Records are countable *)

#[local] Instance CookieRecord_eq_dec : EqDecision CookieRecord. Proof. solve_decision. Defined.
#[local] Instance CookieRecord_countable : Countable CookieRecord.
Proof.
  apply (inj_countable' (λ r, (cr_name r, cr_value r, cr_domain r, cr_host_only r, cr_path r, cr_expires_unix r,
      cr_secure r, cr_http_only r, cr_same_site r, cr_creation_unix r))
    (λ '(a, b, c, d, e, f, g, h, i, j), {| cr_name := a; cr_value := b; cr_domain := c; cr_host_only := d;
      cr_path := e; cr_expires_unix := f; cr_secure := g; cr_http_only := h; cr_same_site := i;
      cr_creation_unix := j |})). by intros [].
Defined.

#[local] Instance CacheEntry_eq_dec : EqDecision CacheEntry. Proof. solve_decision. Defined.
#[local] Instance CacheEntry_countable : Countable CacheEntry.
Proof.
  apply (inj_countable' (λ r, (ce_status r, ce_headers r, ce_body r, ce_fetched_unix r, ce_vary_headers r))
    (λ '(a, b, c, d, e), {| ce_status := a; ce_headers := b; ce_body := c; ce_fetched_unix := d;
      ce_vary_headers := e |})). by intros [].
Defined.

#[local] Instance CacheRedirectHop_eq_dec : EqDecision CacheRedirectHop. Proof. solve_decision. Defined.
#[local] Instance CacheRedirectHop_countable : Countable CacheRedirectHop.
Proof.
  apply (inj_countable' (λ r, (hop_to r, hop_status r)) (λ '(a, b), {| hop_to := a; hop_status := b |})).
  by intros [].
Defined.

#[local] Instance CacheAlias_eq_dec : EqDecision CacheAlias. Proof. solve_decision. Defined.
#[local] Instance CacheAlias_countable : Countable CacheAlias.
Proof.
  apply (inj_countable' (λ r, (ca_hops r, ca_fetched_unix r)) (λ '(a, b), {| ca_hops := a; ca_fetched_unix := b |})).
  by intros [].
Defined.

#[local] Instance FormControl_eq_dec : EqDecision FormControlSessionState. Proof. solve_decision. Defined.
#[local] Instance FormControl_countable : Countable FormControlSessionState.
Proof.
  apply (inj_countable' (λ r, (fc_key r, fc_value r, fc_checked r))
    (λ '(a, b, c), {| fc_key := a; fc_value := b; fc_checked := c |})). by intros [].
Defined.

#[local] Instance TabState_eq_dec : EqDecision TabSessionState. Proof. solve_decision. Defined.
#[local] Instance TabState_countable : Countable TabSessionState.
Proof.
  apply (inj_countable' (λ r, (ts_scroll_x r, ts_scroll_y r, ts_focused_element r, ts_form_controls r))
    (λ '(a, b, c, d), {| ts_scroll_x := a; ts_scroll_y := b; ts_focused_element := c; ts_form_controls := d |})).
  by intros [].
Defined.

#[local] Instance SessionRecord_eq_dec : EqDecision SessionRecord. Proof. solve_decision. Defined.
#[local] Instance SessionRecord_countable : Countable SessionRecord.
Proof.
  apply (inj_countable' (λ r, (sr_tabs r, sr_active_index r, sr_tab_states r))
    (λ '(a, b, c), {| sr_tabs := a; sr_active_index := b; sr_tab_states := c |})). by intros [].
Defined.

#[local] Instance PermissionDecision_eq_dec : EqDecision PermissionDecision. Proof. solve_decision. Defined.
#[local] Instance PermissionDecision_countable : Countable PermissionDecision.
Proof.
  apply (inj_countable' (λ d, match d with Granted => true | Denied => false end)
    (λ b : bool, if b then Granted else Denied)). by intros [].
Defined.

#[local] Instance PermissionRecord_eq_dec : EqDecision PermissionRecord. Proof. solve_decision. Defined.
#[local] Instance PermissionRecord_countable : Countable PermissionRecord.
Proof.
  apply (inj_countable' (λ r, (pr_origin_key r, pr_kind r, pr_decision r, pr_updated_unix r))
    (λ '(a, b, c, d), {| pr_origin_key := a; pr_kind := b; pr_decision := c; pr_updated_unix := d |})).
  by intros [].
Defined.

#[local] Instance HstsRecord_eq_dec : EqDecision HstsRecord. Proof. solve_decision. Defined.
#[local] Instance HstsRecord_countable : Countable HstsRecord.
Proof.
  apply (inj_countable' (λ r, (hr_host r, hr_include_subdomains r, hr_expires_unix r, hr_received_unix r))
    (λ '(a, b, c, d), {| hr_host := a; hr_include_subdomains := b; hr_expires_unix := c; hr_received_unix := d |})).
  by intros [].
Defined.

#[local] Instance DownloadState_eq_dec : EqDecision DownloadState. Proof. solve_decision. Defined.
#[local] Instance DownloadState_countable : Countable DownloadState.
Proof.
  apply (inj_countable' (λ d, match d with InProgress => 0 | Completed => 1 | Failed => 2 | Canceled => 3 end)%N
    (λ n, match n with 0 => InProgress | 1 => Completed | 2 => Failed | _ => Canceled end)%N). by intros [].
Defined.

#[local] Instance DownloadRecord_eq_dec : EqDecision DownloadRecord. Proof. solve_decision. Defined.
#[local] Instance DownloadRecord_countable : Countable DownloadRecord.
Proof.
  apply (inj_countable' (λ r, (dr_id r, dr_source_url r, dr_filename r, dr_destination_path r, dr_mime r,
      dr_received_bytes r, dr_total_bytes r, dr_state r, dr_started_unix r, dr_updated_unix r, dr_error r))
    (λ '(a, b, c, d, e, f, g, h, i, j, k), {| dr_id := a; dr_source_url := b; dr_filename := c;
      dr_destination_path := d; dr_mime := e; dr_received_bytes := f; dr_total_bytes := g; dr_state := h;
      dr_started_unix := i; dr_updated_unix := j; dr_error := k |})). by intros [].
Defined.

#[local] Instance WebStorageRecord_eq_dec : EqDecision WebStorageRecord. Proof. solve_decision. Defined.
#[local] Instance WebStorageRecord_countable : Countable WebStorageRecord.
Proof.
  apply (inj_countable' (λ r, (ws_value r, ws_sequence r)) (λ '(a, b), {| ws_value := a; ws_sequence := b |})).
  by intros [].
Defined.

(** ** The platform *)

Definition numbered A `{Countable A} : Serde A :=
  {| Store.encode x := [Npos (countable.encode x)];
     decode_bytes bytes := match bytes with [Npos n] => countable.decode n | _ => None end |}.

Lemma numbered_laws A `{Countable A} : @SerdeLaws A (numbered A).
Proof. intros x. cbn. apply countable.decode_encode. Qed.

Definition map_redb : Redb :=
  {| Table := gmap (list N) (list N);
     table_new := ∅;
     table_get key m := m !! key;
     table_insert key value m := <[key := value]> m;
     table_remove key m := delete key m;
     table_iter m := sort_by (λ a b, rstr_leb a.1 b.1) (map_to_list m) |}.

Lemma map_redb_laws : @RedbLaws map_redb.
Proof.
  split; cbn.
  - intros key. apply lookup_empty.
  - intros key value key' m. case_decide as E; [subst; by rewrite lookup_insert_eq|by rewrite lookup_insert_ne].
  - intros key key' m. case_decide as E; [subst; by rewrite lookup_delete_eq|by rewrite lookup_delete_ne].
  - intros m key value. by rewrite sort_by_Permutation, elem_of_map_to_list.
  - intros m. pose proof (sort_by_Permutation (λ a b : list N * list N, rstr_leb a.1 b.1) (map_to_list m)) as Hp.
    assert (NoDup (sort_by (λ a b : list N * list N, rstr_leb a.1 b.1) (map_to_list m)).*1) as Hnd
      by (rewrite Hp; apply NoDup_fst_map_to_list).
    pose proof (sort_by_Sorted (λ a b : list N * list N, rstr_leb a.1 b.1) (λ x y, rstr_leb_total x.1 y.1)
      (λ x y z, rstr_leb_trans x.1 y.1 z.1) (map_to_list m)) as Hs.
    clear Hp. induction Hs as [|x l Hl IH Hx]; [constructor|]. cbn in Hnd. apply NoDup_cons in Hnd as [Hn Hnd].
    constructor; [by apply IH|]. rewrite Forall_forall in *. intros y Hy. unfold key_before.
    destruct (rstr_leb y.1 x.1) eqn:E; [|done]. destruct Hn. apply list_elem_of_fmap. exists y. split; [|done].
    apply rstr_leb_antisym; [by apply Hx|done].
Qed.

#[export] Instance numbered_platform : StorePlatform :=
  {| platform_redb := map_redb;
     serde_cookie := numbered CookieRecord; serde_cache := numbered CacheEntry;
     serde_alias := numbered CacheAlias; serde_visits := numbered (list Z);
     serde_tabs := numbered (list rstr); serde_session := numbered SessionRecord;
     serde_download := numbered DownloadRecord; serde_permission := numbered PermissionRecord;
     serde_hsts := numbered HstsRecord; serde_web_storage := numbered WebStorageRecord;
     serde_selector := numbered (list (rstr * option rstr)) |}.

#[export] Instance numbered_platform_laws : StoreLaws.
Proof. split; [apply map_redb_laws|apply numbered_laws..]. Defined.
