(* ===== verification/StoreTheorems.v ===== *)
(** * The properties of the profile store

    Origin isolation, the bounded tables, the session and the clear-data flow. *)

From Stdlib Require Import Lia ZArith Sorting.Sorted.
From stdpp Require Import base decidable countable sets gmap list sorting strings.
From S2P Require Import Prelude.
From S2P Require Import RustStr.
From S2P Require Import RustUtf8.
From S2P Require Import Store.
From S2P Require Import StoreFacts.

(** ** Isolation *)

Section isolation.
Context `{StoreLaws}.

Lemma omap_filtered {A} (f : list N * list N → option A) prefix (l : list (list N * list N)) :
  omap (λ kv, if starts_with prefix kv.1 then f kv else None) l =
  omap f (filter (λ kv, starts_with prefix kv.1 = true) l).
Proof.
  induction l as [|kv l IH]; [done|]. rewrite filter_cons. cbn.
  destruct (starts_with prefix kv.1) eqn:E; cbn [omap list_omap].
  - rewrite decide_True by done. cbn. by rewrite IH.
  - rewrite decide_False by done. apply IH.
Qed.

(** What can be read of one origin, the cache apart *)
Record OriginView : Type := {
  view_cookies : result StoreError (list CookieRecord);
  view_visits : rstr → result StoreError (list Z);
  view_permission : rstr → result StoreError (option PermissionRecord);
  view_permissions : result StoreError (list PermissionRecord);
  view_item : rstr → result StoreError (option rstr);
  view_entries : result StoreError (list (rstr * rstr));
}.
Definition origin_view (o : rstr) (s : Store) : OriginView :=
  {| view_cookies := store_cookies_for o s; view_visits url := visits_for o url s;
     view_permission kind := permission o kind s;
     view_permissions := permissions_for o s; view_item key := get_storage_item o key s;
     view_entries := storage_entries o s |}.
Definition same_view (v w : OriginView) : Prop :=
  view_cookies v = view_cookies w ∧
  (∀ url, view_visits v url = view_visits w url) ∧
  (∀ kind, view_permission v kind = view_permission w kind) ∧
  view_permissions v = view_permissions w ∧ (∀ key, view_item v key = view_item w key) ∧
  view_entries v = view_entries w.

Lemma untouched_rows o t t' : untouched o t t' → partition_rows (namespaced_prefix o) t = partition_rows (namespaced_prefix o) t'.
Proof. intros Ha. apply partition_rows_ext. intros key Hp. symmetry. by apply Ha. Qed.

Lemma untouched_same_view o s s' : (∀ d, d ≠ FETCH_CACHE → d ≠ FETCH_CACHE_ALIASES → untouched o (s d) (s' d)) →
  same_view (origin_view o s) (origin_view o s').
Proof.
  intros Ha. pose proof (untouched_rows o _ _ (Ha COOKIES ltac:(done) ltac:(done))) as Hc.
  pose proof (untouched_rows o _ _ (Ha PERMISSIONS ltac:(done) ltac:(done))) as Hp.
  pose proof (untouched_rows o _ _ (Ha WEB_STORAGE ltac:(done) ltac:(done))) as Hw. unfold partition_rows in Hc, Hp, Hw.
  assert (∀ d name, d ≠ FETCH_CACHE → d ≠ FETCH_CACHE_ALIASES →
    table_get (namespaced_key o name) (s d) = table_get (namespaced_key o name) (s' d)) as Hk
    by (intros d name H1 H2; symmetry; apply Ha; [done..|apply starts_with_own]).
  unfold same_view, origin_view. cbn. split_and!.
  - unfold store_cookies_for. by rewrite !omap_filtered, Hc.
  - intros url. unfold visits_for. by rewrite Hk.
  - intros kind. unfold permission. by rewrite Hk.
  - unfold permissions_for. by rewrite Hp.
  - intros key. unfold get_storage_item. by rewrite Hk.
  - unfold storage_entries. cbn zeta. by rewrite Hw.
Qed.

(** *** The cache of one origin *)

Definition variant_row (o url : rstr) (kv : list N * list N) : Prop :=
  bool_decide (kv.1 = namespaced_key o url) || starts_with (fetch_cache_variant_prefix o url) kv.1 = true.
Lemma variant_row_own o url kv : variant_row o url kv → starts_with (namespaced_prefix o) kv.1 = true.
Proof.
  unfold variant_row. intros [->%bool_decide_eq_true|Hp]%orb_true_iff; [apply starts_with_own|].
  apply starts_with_true in Hp as [rest ->]. unfold fetch_cache_variant_prefix. rewrite namespaced_key_prefix, starts_with_true, <-!(assoc_L app).
  by eexists.
Qed.

Lemma collect_sublist {E A B} (f : A → result E B) l k ys : collect f l = Ok ys → k `sublist_of` l →
  ∃ zs, collect f k = Ok zs ∧ zs `sublist_of` ys.
Proof.
  intros Hc Hs. revert ys Hc. induction Hs as [|x k l Hs IH|x k l Hs IH]; intros ys Hc; [by exists []; injection Hc as <-| |];
    cbn in Hc; destruct (f x) as [y|] eqn:Hf; try done; destruct (collect f l) as [ys'|] eqn:Hl; try done; injection Hc as <-;
    destruct (IH ys' eq_refl) as (zs & Hz & Hsub).
  - exists (y :: zs). cbn. rewrite Hf, Hz. split; [done|]. by constructor.
  - exists zs. split; [done|]. by constructor.
Qed.

(** The rows of a table that are still there, in the order they had *)
Lemma sublist_of_rows (P : list N * list N → Prop) `{∀ x, Decision (P x)} t t' :
  (∀ kv, P kv → kv ∈ table_iter t' → kv ∈ table_iter t) → filter P (table_iter t') `sublist_of` filter P (table_iter t).
Proof.
  intros Hin. assert (filter P (table_iter t') = filter (λ kv, kv ∈ table_iter t') (filter P (table_iter t))) as ->.
  { apply (sorted_unique key_before); [apply key_before_irrefl|apply key_before_asym| | |].
    - apply StronglySorted_filter', table_iter_sorted.
    - apply StronglySorted_filter', StronglySorted_filter', table_iter_sorted.
    - intros kv. rewrite !list_elem_of_filter. naive_solver. }
  apply sublist_filter.
Qed.

Lemma only_lost_variants o s s' url vs : only_lost o (s FETCH_CACHE) (s' FETCH_CACHE) → cache_variants o url s = Ok vs →
  ∃ vs', cache_variants o url s' = Ok vs' ∧ vs' `sublist_of` vs.
Proof.
  intros Ha Hv. unfold cache_variants in *. eapply collect_sublist; [exact Hv|]. apply sublist_of_rows.
  intros [k v] Hp%variant_row_own. rewrite !table_iter_get. cbn in *. by destruct (Ha k Hp) as [->| ->].
Qed.
Lemma untouched_variants o s s' url : untouched o (s FETCH_CACHE) (s' FETCH_CACHE) →
  cache_variants o url s' = cache_variants o url s.
Proof.
  intros Ha. unfold cache_variants. f_equal. apply (sorted_unique key_before); [apply key_before_irrefl|apply key_before_asym| | |].
  1, 2: apply StronglySorted_filter', table_iter_sorted.
  intros [k v]. rewrite !list_elem_of_filter, !table_iter_get.
  split; intros [Hp Hg]; (split; [exact Hp|]); apply variant_row_own in Hp; cbn in *; by rewrite ?Ha, <-?Ha in *.
Qed.

(** *** Sequences of writes *)

(** Each write is by its own origin; a refused one changes nothing. *)
Definition run_step (s : Store) (w : rstr * OriginOp) : Store :=
  match run_origin_op w.1 w.2 s with Ok s' => s' | Err _ => s end.
Definition writes_to (d : TableDefinition) (ws : list (rstr * OriginOp)) : nat := length (filter (λ w, evicts w.2 = Some d) ws).

Lemma run_step_other o o' op s d : nul_free o → nul_free o' → o ≠ o' → evicts op ≠ Some d →
  untouched o' (s d) (run_step s (o, op) d).
Proof.
  intros Ho Ho' Hne He key Hp. unfold run_step. cbn. destruct (run_origin_op o op s) as [s'|] eqn:E; [|done].
  destruct (evicts op) as [d'|] eqn:Hd; [|symmetry; by eapply (origin_op_agrees o o')].
  destruct (origin_op_evicts _ _ _ _ _ Hd E) as (t & _ & ->). by rewrite with_table_ne by congruence.
Qed.
Lemma run_step_evicts o op s d : evicts op = Some d →
  run_step s (o, op) = s ∨ cache_write o (s d) (run_step s (o, op) d).
Proof.
  intros Hd. unfold run_step. cbn. destruct (run_origin_op o op s) as [s'|] eqn:E; [right|by left].
  destruct (origin_op_evicts _ _ _ _ _ Hd E) as (t & Ht & ->). by rewrite with_table_eq.
Qed.
Lemma run_step_rows o op s d : d = FETCH_CACHE ∨ d = FETCH_CACHE_ALIASES →
  (rows d (run_step s (o, op)) ≤ rows d s + (if decide (evicts op = Some d) then 1 else 0))%nat.
Proof.
  intros Hd. case_decide as He.
  { destruct (run_step_evicts o op s d He) as [->|Hw%cache_write_rows]; unfold rows; lia. }
  unfold run_step, rows. cbn. destruct (run_origin_op o op s) as [s'|] eqn:E; [|lia]. rewrite Nat.add_0_r.
  destruct (evicts op) as [d'|] eqn:Hd'.
  { destruct (origin_op_evicts _ _ _ _ _ Hd' E) as (t & _ & ->). rewrite with_table_ne by congruence. done. }
  destruct op; try discriminate Hd'; cbn [run_origin_op] in E; unfold put_cookie, delete_cookie, clear_cookies, delete_cache_alias,
    record_visit, put_permission, clear_permissions, put_storage_item, remove_storage_item, clear_storage_partition in E;
    rewrite ?bind_unit_Ok, ?bind_Ok in E; store_ok;
    try (rewrite with_table_ne by (by destruct Hd as [->| ->]); done).
  destruct Hd as [->| ->]; [by rewrite with_table_ne|rewrite with_table_eq; apply table_remove_length].
Qed.

Lemma run_cache o ws s d : nul_free o → Forall (λ w, nul_free w.1 ∧ w.1 ≠ o) ws → d = FETCH_CACHE ∨ d = FETCH_CACHE_ALIASES →
  let s' := foldl run_step s ws in
  only_lost o (s d) (s' d) ∧ ((rows d s + writes_to d ws ≤ cache_limit)%nat → untouched o (s d) (s' d)).
Proof.
  intros Ho Hws Hd. revert s. induction Hws as [|[o' op] ws [Ho' Hne] _ IH]; intros s; cbn [foldl]; [split; [by left|done]|].
  pose proof (run_step_rows o' op s d Hd) as Hrows. destruct (IH (run_step s (o', op))) as [Hlost Hroom]. clear IH. cbn in Ho', Hne.
  assert (only_lost o (s d) (run_step s (o', op) d) ∧
    ((rows d s + (if decide (evicts op = Some d) then 1 else 0) ≤ cache_limit)%nat → untouched o (s d) (run_step s (o', op) d))) as [H1 H2].
  { case_decide as He.
    - destruct (run_step_evicts o' op s d He) as [->|Hw]; [by split; [left|]|].
      destruct (cache_write_loses o' o _ _ Ho' Ho Hne Hw) as [? Hr]. split; [done|]. intros ?. apply Hr. unfold rows in *. lia.
    - pose proof (run_step_other o' o op s d Ho' Ho Hne He) as Hu. split; [|done]. intros key Hp. left. by apply Hu. }
  cbn zeta. split.
  - intros key Hp. destruct (Hlost key Hp) as [->| ->]; [by apply H1|by right].
  - unfold writes_to. rewrite filter_cons. cbn [snd]. intros Hr. assert (untouched o (s d) (run_step s (o', op) d)) as Hu
      by (apply H2; destruct (decide (evicts op = Some d)); cbn in Hr; lia).
    intros key Hp. rewrite <-(Hu key Hp). apply Hroom; [|done]. unfold writes_to.
    destruct (decide (evicts op = Some d)); cbn in Hr; lia.
Qed.

Lemma run_other o ws s d : nul_free o → Forall (λ w, nul_free w.1 ∧ w.1 ≠ o) ws → d ≠ FETCH_CACHE → d ≠ FETCH_CACHE_ALIASES →
  untouched o (s d) (foldl run_step s ws d).
Proof.
  intros Ho Hws H1 H2. revert s. induction Hws as [|[o' op] ws [Ho' Hne] _ IH]; intros s; cbn [foldl]; [done|].
  intros key Hp. rewrite (IH _ key Hp). apply (run_step_other o' o); try done. destruct op; cbn; congruence.
Qed.

(** C17. Origin isolation: whatever other origins write, delete or clear (cookies, cached
    responses, redirect aliases, visits, permissions, Web Storage), in whatever order,
    everything that can be read of an origin stays what it was, but for the cache: its two
    tables, whose 512 rows all origins share, may lose rows of the origin to those of others.
    What is read of the cache is then what is left of it, in the same order and never changed
    or added to; and it stays what it was as long as the table has room for what is written. *)
Theorem origin_isolation o (ws : list (rstr * OriginOp)) s :
  nul_free o → Forall (λ w, nul_free w.1 ∧ w.1 ≠ o) ws →
  let s' := foldl run_step s ws in
  same_view (origin_view o s) (origin_view o s') ∧
  (∀ url vs, cache_variants o url s = Ok vs → ∃ vs', cache_variants o url s' = Ok vs' ∧ vs' `sublist_of` vs) ∧
  (∀ url, cache_alias o url s' = cache_alias o url s ∨ cache_alias o url s' = Ok None) ∧
  ((rows FETCH_CACHE s + writes_to FETCH_CACHE ws ≤ MAX_FETCH_CACHE_RECORDS)%nat → ∀ url,
     cache_variants o url s' = cache_variants o url s ∧ get_cache o url s' = get_cache o url s) ∧
  ((rows FETCH_CACHE_ALIASES s + writes_to FETCH_CACHE_ALIASES ws ≤ MAX_FETCH_CACHE_ALIASES)%nat → ∀ url,
     cache_alias o url s' = cache_alias o url s).
Proof.
  intros Ho Hws s'. destruct (run_cache o ws s FETCH_CACHE Ho Hws) as [Hc Hcr]; [by left|].
  destruct (run_cache o ws s FETCH_CACHE_ALIASES Ho Hws) as [Ha Har]; [by right|]. fold s' in Hc, Hcr, Ha, Har. split_and!.
  - apply untouched_same_view. intros d ? ?. by apply run_other.
  - intros url vs. by apply only_lost_variants.
  - intros url. unfold cache_alias. destruct (Ha (namespaced_key o url)) as [->| ->]; [apply starts_with_own|by left|by right].
  - intros Hr url. assert (cache_variants o url s' = cache_variants o url s) as E by (by apply untouched_variants, Hcr).
    split; [exact E|]. unfold get_cache. by rewrite E.
  - intros Hr url. unfold cache_alias. by rewrite (Har Hr) by apply starts_with_own.
Qed.

(** ** Bounded tables *)

(** The rows that are removed are the first of the sorted records, those that stay the rest. *)
Lemma evict_records_spec {B} (le : list N * B → list N * B → bool) maximum records t :
  (∀ x y, le x y = true ∨ le y x = true) → (∀ x y z, le x y = true → le y z = true → le x z = true) →
  records.*1 = (table_iter t).*1 →
  let t' := evict_records le maximum records t in
  (length (table_iter t') ≤ maximum)%nat ∧
  (∀ key, table_get key t' = table_get key t ∨
     table_get key t' = None ∧ maximum = length (table_iter t') ∧
     ∃ b, (key, b) ∈ records ∧ ∀ r, r ∈ records → table_get r.1 t' ≠ None → le (key, b) r = true).
Proof.
  intros Htotal Htrans Hkeys. cbn zeta. unfold evict_records.
  assert (length records = length (table_iter t)) as Hlen
    by (rewrite <-(length_fmap fst records), Hkeys; apply length_fmap).
  pose proof (table_keys_nodup t) as Hnd.
  destruct (maximum <? length records)%nat eqn:Hmax; [apply Nat.ltb_lt in Hmax|apply Nat.ltb_ge in Hmax].
  2:{ split; [lia|]. intros key. by left. }
  set (n := (length records - maximum)%nat). set (sorted := sort_by le records).
  assert (sorted ≡ₚ records) as Hperm by apply sort_by_Permutation.
  assert (∀ key, table_get key (remove_all (take n sorted).*1 t) =
    if decide (key ∈ (take n sorted).*1) then None else table_get key t) as Hget
    by (intros key; apply table_get_remove_all).
  assert (NoDup (take n sorted ++ drop n sorted).*1) as Hnd' by (rewrite take_drop, Hperm, Hkeys; done).
  rewrite fmap_app in Hnd'. apply NoDup_app in Hnd' as (_ & Hdisj & Hnd2).
  assert ((table_iter (remove_all (take n sorted).*1 t)).*1 ≡ₚ (drop n sorted).*1) as Hrest.
  { apply NoDup_Permutation; [|done|].
    - apply table_keys_nodup.
    - intros key.
      assert (key ∈ (table_iter t).*1 ↔ key ∈ (take n sorted).*1 ∨ key ∈ (drop n sorted).*1) as Hall.
      { rewrite <-Hkeys, <-Hperm. rewrite <-(take_drop n sorted) at 1. by rewrite fmap_app, elem_of_app. }
      rewrite elem_of_table_keys, Hget. destruct (decide (key ∈ (take n sorted).*1)) as [Ht|Ht].
      + split; [done|]. intros Hd. by destruct (Hdisj key Ht).
      + rewrite <-elem_of_table_keys, Hall. tauto. }
  assert (length (table_iter (remove_all (take n sorted).*1 t)) = maximum) as Hlen'.
  { rewrite <-(length_fmap fst), Hrest, length_fmap, length_drop, (Permutation_length Hperm). lia. }
  split; [lia|]. intros key. rewrite Hget. destruct (decide (key ∈ (take n sorted).*1)) as [Ht|]; [|by left].
  right. split; [done|]. split; [done|]. apply list_elem_of_fmap in Ht as ([k b] & -> & Ht). exists b. split.
  { rewrite <-Hperm, <-(take_drop n sorted). cbn. apply elem_of_app. by left. }
  intros r Hr Hg. cbn in *. rewrite Hget in Hg. destruct (decide (r.1 ∈ _)) as [|Hnot]; [done|].
  assert (r ∈ drop n sorted) as Hd.
  { rewrite <-Hperm, <-(take_drop n sorted) in Hr. apply elem_of_app in Hr as [Hr|Hr]; [|done].
    destruct Hnot. apply list_elem_of_fmap. by exists r. }
  pose proof (sort_by_Sorted le Htotal Htrans records) as Hs. fold sorted in Hs.
  rewrite <-(take_drop n sorted) in Hs. by eapply (StronglySorted_app_1_elem_of (λ a b, le a b = true)).
Qed.
End isolation.

(** What an update of a bounded table promises: at most [maximum] rows remain, a row is evicted
    only from a full table, and only if no remaining row is older. *)
Definition bounded_update `{StorePlatform} {T} (age : list N → option T) (le : T → T → bool)
    (maximum : nat) (t t' : Table) : Prop :=
  (length (table_iter t') ≤ maximum)%nat ∧
  ∀ key, table_get key t' = table_get key t ∨
    table_get key t' = None ∧ length (table_iter t') = maximum ∧
    ∃ v a, table_get key t = Some v ∧ age v = Some a ∧
      ∀ key' v', table_get key' t' = Some v' → ∃ a', age v' = Some a' ∧ le a a' = true.

Section bounded.
Context `{StoreLaws}.

Lemma evict_bounded {A T B} `{Serde A} (f : A → T) (le : T → T → bool) (g : list N → A → B)
    (leB : list N * B → list N * B → bool) maximum records t :
  (∀ x y, leB x y = true ∨ leB y x = true) → (∀ x y z, leB x y = true → leB y z = true → leB x z = true) →
  (∀ k a k' a', leB (k, g k a) (k', g k' a') = true → le (f a) (f a') = true) →
  collect (λ kv, a ← decode kv.2; Ok (kv.1, g kv.1 a)) (table_iter t) = Ok records →
  bounded_update (λ v, f <$> (decode_bytes v : option A)) le maximum t (evict_records leB maximum records t).
Proof.
  intros Htotal Htrans Hle Hc. apply collect_Ok in Hc.
  assert (∀ r, r ∈ records → ∃ v a, table_get r.1 t = Some v ∧ decode_bytes v = Some a ∧ r.2 = g r.1 a) as Hrec.
  { intros r Hr. apply list_elem_of_lookup in Hr as [i Hi].
    destruct (Forall2_lookup_r _ _ _ _ _ Hc Hi) as ([k v] & Hkv & E). cbn in E.
    apply bind_Ok in E as (a & E & [= <-]). unfold decode in E. apply ok_or_Ok in E.
    exists v, a. split_and!; [|done..]. apply table_iter_get. by eapply list_elem_of_lookup_2. }
  assert (∀ k v, table_get k t = Some v → ∃ a, decode_bytes v = Some a ∧ (k, g k a) ∈ records) as Hrow.
  { intros k v Hg. apply table_iter_get, list_elem_of_lookup in Hg as [i Hi].
    destruct (Forall2_lookup_l _ _ _ _ _ Hc Hi) as (r & Hr & E). cbn in E.
    apply bind_Ok in E as (a & E & [= <-]). unfold decode in E. apply ok_or_Ok in E.
    exists a. split; [done|]. by eapply list_elem_of_lookup_2. }
  assert (records.*1 = (table_iter t).*1) as Hkeys.
  { clear -Hc. induction Hc as [|kv r l k E Hl IH]; cbn; [done|]. rewrite IH. f_equal.
    apply bind_Ok in E as (a & _ & [= <-]). done. }
  destruct (evict_records_spec leB maximum records t Htotal Htrans Hkeys) as [Hlen Hall].
  split; [done|]. intros key. destruct (Hall key) as [|(Hn & Hmax & b & Hb & Hold)]; [by left|right].
  split; [done|]. split; [done|]. destruct (Hrec _ Hb) as (v & a & Hg & Ha & E). cbn in *. subst b.
  exists v, (f a). split_and!; [done|by rewrite Ha|]. intros key' v' Hg'.
  assert (table_get key' t = Some v') as Hgt.
  { destruct (Hall key') as [E|(E & _)]; congruence. }
  destruct (Hrow _ _ Hgt) as (a' & Ha' & Hin). exists (f a'). rewrite Ha'. split; [done|].
  eapply Hle, Hold; [exact Hin|]. cbn. congruence.
Qed.

Lemma fetched_then_key_total x y : fetched_then_key x y = true ∨ fetched_then_key y x = true.
Proof.
  unfold fetched_then_key. rewrite !orb_true_iff, !andb_true_iff, !Z.ltb_lt, !Z.eqb_eq.
  destruct (Ztrichotomy x.2 y.2) as [|[E|]]; [left; left; lia| |right; left; lia].
  destruct (rstr_leb_total x.1 y.1); [left|right]; right; split; congruence.
Qed.

Lemma fetched_then_key_trans x y z :
  fetched_then_key x y = true → fetched_then_key y z = true → fetched_then_key x z = true.
Proof.
  unfold fetched_then_key. rewrite !orb_true_iff, !andb_true_iff, !Z.ltb_lt, !Z.eqb_eq.
  intros [|[E1 L1]] [|[E2 L2]]; [left; lia..|].
  right. split; [congruence|]. by eapply rstr_leb_trans.
Qed.

Lemma started_then_id_total x y : started_then_id x y = true ∨ started_then_id y x = true.
Proof.
  unfold started_then_id. rewrite !orb_true_iff, !andb_true_iff, !Z.ltb_lt, !Z.eqb_eq, !N.leb_le. lia.
Qed.

Lemma started_then_id_trans x y z :
  started_then_id x y = true → started_then_id y z = true → started_then_id x z = true.
Proof.
  unfold started_then_id. rewrite !orb_true_iff, !andb_true_iff, !Z.ltb_lt, !Z.eqb_eq, !N.leb_le. lia.
Qed.

(** The fetch cache, its redirect aliases and the download history stay bounded by evicting
    the oldest: after an insertion at most 512 rows remain, whatever the table held before, the
    new row or another one is dropped only from a full table, and only if no remaining row was
    fetched (started) earlier. *)
Theorem tables_stay_bounded :
  (∀ o url entry s s', put_cache o url entry s = Ok s' →
     bounded_update (λ v, ce_fetched_unix <$> decode_bytes v) Z.leb MAX_FETCH_CACHE_RECORDS
       (table_insert (fetch_cache_variant_key o url entry) (encode entry)
          (table_remove (namespaced_key o url) (s FETCH_CACHE))) (s' FETCH_CACHE)) ∧
  (∀ o url alias s s', put_cache_alias o url alias s = Ok s' →
     bounded_update (λ v, ca_fetched_unix <$> decode_bytes v) Z.leb MAX_FETCH_CACHE_ALIASES
       (table_insert (namespaced_key o url) (encode alias) (s FETCH_CACHE_ALIASES)) (s' FETCH_CACHE_ALIASES)) ∧
  (∀ record s s', put_download record s = Ok s' →
     bounded_update (λ v, dr_started_unix <$> decode_bytes v) Z.leb MAX_DOWNLOAD_RECORDS
       (table_insert (be_bytes (dr_id record)) (encode record) (s DOWNLOADS)) (s' DOWNLOADS)).
Proof.
  split_and!.
  - intros o url entry s s'. unfold put_cache. rewrite bind_Ok. intros (records & Hc & [= <-]).
    rewrite with_table_eq. eapply (evict_bounded ce_fetched_unix Z.leb (λ _ a, ce_fetched_unix a)); [..|exact Hc].
    + apply fetched_then_key_total.
    + apply fetched_then_key_trans.
    + intros k a k' a'. unfold fetched_then_key. cbn.
      rewrite orb_true_iff, andb_true_iff, Z.ltb_lt, Z.eqb_eq, Z.leb_le. lia.
  - intros o url alias s s'. unfold put_cache_alias. rewrite bind_unit_Ok, bind_Ok.
    intros (_ & records & Hc & [= <-]). rewrite with_table_eq.
    eapply (evict_bounded ca_fetched_unix Z.leb (λ _ a, ca_fetched_unix a)); [..|exact Hc].
    + apply fetched_then_key_total.
    + apply fetched_then_key_trans.
    + intros k a k' a'. unfold fetched_then_key. cbn.
      rewrite orb_true_iff, andb_true_iff, Z.ltb_lt, Z.eqb_eq, Z.leb_le. lia.
  - intros record s s'. unfold put_download. rewrite bind_unit_Ok, bind_Ok.
    intros (_ & records & Hc & [= <-]). rewrite with_table_eq.
    eapply (evict_bounded dr_started_unix Z.leb (λ _ a, (dr_started_unix a, dr_id a))); [..|exact Hc].
    + apply started_then_id_total.
    + apply started_then_id_trans.
    + intros k a k' a'. unfold started_then_id. cbn.
      rewrite orb_true_iff, andb_true_iff, Z.ltb_lt, Z.eqb_eq, Z.leb_le. lia.
Qed.

(** ** The session *)

Definition valid_session_text (maximum : N) (value : rstr) : Prop :=
  (str_len value ≤ maximum)%N ∧ 0%N ∉ utf8 value.
Definition valid_tab_state (state : TabSessionState) : Prop :=
  (∀ f, ts_focused_element state = Some f → f ≠ [] ∧ valid_session_text MAX_SESSION_FIELD_BYTES f) ∧
  (length (ts_form_controls state) ≤ MAX_SESSION_FORM_CONTROLS)%nat ∧
  ∀ c, c ∈ ts_form_controls state →
    fc_key c ≠ [] ∧ valid_session_text MAX_SESSION_FIELD_BYTES (fc_key c) ∧
    valid_session_text MAX_SESSION_FIELD_BYTES (fc_value c).
Definition valid_session (record : SessionRecord) : Prop :=
  (length (sr_tabs record) ≤ MAX_SESSION_TABS)%nat ∧
  (sr_tabs record = [] → sr_active_index record = 0%N) ∧
  (sr_tabs record ≠ [] → (sr_active_index record < len (sr_tabs record))%N) ∧
  (sr_tab_states record = [] ∨ length (sr_tab_states record) = length (sr_tabs record)) ∧
  (∀ tab, tab ∈ sr_tabs record → tab ≠ [] ∧ valid_session_text MAX_SESSION_URL_BYTES tab) ∧
  (∀ state, state ∈ sr_tab_states record → valid_tab_state state).

Lemma is_empty_str_false v : is_empty_str v = false ↔ v ≠ [].
Proof. unfold is_empty_str. apply bool_decide_eq_false. Qed.

Lemma validate_session_field_Ok field v allow u :
  validate_session_field field v allow = Ok u ↔
  (allow = false → v ≠ []) ∧ valid_session_text MAX_SESSION_FIELD_BYTES v.
Proof.
  unfold validate_session_field, valid_session_text. rewrite !bind_unit_Ok, !throw_if_Ok, N.ltb_ge, has_nul_false.
  rewrite <-is_empty_str_false. destruct allow, (is_empty_str v); cbn; naive_solver.
Qed.

Lemma validate_tab_session_state_Ok state u :
  validate_tab_session_state tt state = Ok u ↔ valid_tab_state state.
Proof.
  unfold validate_tab_session_state, valid_tab_state.
  rewrite !bind_unit_Ok, throw_if_Ok, for_each_unit_Ok, Nat.ltb_ge, Forall_forall.
  unfold validate_form_control. setoid_rewrite bind_unit_Ok. setoid_rewrite validate_session_field_Ok.
  assert ((∀ c, c ∈ ts_form_controls state →
      ((false = false → fc_key c ≠ []) ∧ valid_session_text MAX_SESSION_FIELD_BYTES (fc_key c)) ∧
      (true = false → fc_value c ≠ []) ∧ valid_session_text MAX_SESSION_FIELD_BYTES (fc_value c)) ↔
    ∀ c, c ∈ ts_form_controls state →
      fc_key c ≠ [] ∧ valid_session_text MAX_SESSION_FIELD_BYTES (fc_key c) ∧
      valid_session_text MAX_SESSION_FIELD_BYTES (fc_value c)) as ->
    by (apply forall_proper; intros c; split; intros Hc Hin; specialize (Hc Hin); [destruct Hc as [[H1 H2] [_ H3]]; split_and!; auto|destruct Hc as (H1 & H2 & H3); split_and!; auto]).
  destruct (ts_focused_element state) as [f|]; [rewrite validate_session_field_Ok|].
  - split; intros (Hf & ?); (split; [|done]); [intros f' [= <-]; destruct Hf|destruct (Hf f eq_refl)]; auto.
  - split; intros (Hf & ?); (split; [|done]); done.
Qed.

Lemma validate_session_url_Ok v u :
  validate_session_url v = Ok u ↔ v ≠ [] ∧ valid_session_text MAX_SESSION_URL_BYTES v.
Proof.
  unfold validate_session_url, valid_session_text.
  by rewrite !bind_unit_Ok, !throw_if_Ok, N.ltb_ge, has_nul_false, is_empty_str_false.
Qed.

Lemma validate_session_record_Ok record u : validate_session_record record = Ok u ↔ valid_session record.
Proof.
  unfold validate_session_record, valid_session. rewrite bind_unit_Ok, throw_if_Ok, Nat.ltb_ge.
  destruct record as [tabs active states]; cbn. destruct tabs as [|tab tabs].
  - rewrite bind_unit_Ok, !throw_if_Ok, !negb_false_iff, N.eqb_eq, bool_decide_eq_true.
    split.
    + intros (? & -> & Hs). apply nil_length_inv in Hs as ->. split_and!; try done; try (by left);
        by intros ? ?%elem_of_nil.
    + intros (? & Ha & _ & Hs & _). split_and!; [done|by apply Ha|]. by destruct Hs as [->|Hs].
  - rewrite !bind_unit_Ok, !throw_if_Ok, !for_each_unit_Ok, !Forall_forall, andb_false_iff, !negb_false_iff,
      bool_decide_eq_true, Nat.eqb_eq, N.leb_gt.
    setoid_rewrite validate_session_url_Ok. setoid_rewrite validate_tab_session_state_Ok.
    split.
    + intros (? & ? & Hs & ? & ?). split_and!; try done. destruct Hs as [Hs|]; [left|by right].
      by apply nil_length_inv.
    + intros (? & _ & Ha & Hs & ? & ?). split_and!; try done; [by apply Ha|].
      destruct Hs as [->|]; [by left|by right].
Qed.

(** The session survives a restart: a record is saved exactly when it is well formed (its
    active tab exists, its states match the tabs, its texts are within their limits), loading
    gives the same record back, also after the store changed elsewhere, and a record that is
    refused is not saved. *)
Theorem session_round_trip record s :
  (valid_session record →
     ∃ s', save_session_record record s = Ok s' ∧
       (∀ s'', s'' SESSION = s' SESSION → load_session_record s'' = Ok record) ∧
       ∀ d, d ≠ SESSION → s' d = s d) ∧
  (¬ valid_session record → is_ok (save_session_record record s) = false).
Proof.
  unfold save_session_record. split.
  - intros Hv. apply (validate_session_record_Ok record tt) in Hv as Hok. rewrite Hok. eexists.
    split; [reflexivity|]. split; [|intros d Hd; by apply with_table_ne].
    intros s'' E. unfold load_session_record. rewrite E, with_table_eq, table_get_insert, decide_True by done.
    rewrite decode_encoded. cbn. by rewrite Hok.
  - intros Hv. destruct (validate_session_record record) as [u|e] eqn:E; [|done].
    by apply validate_session_record_Ok in E.
Qed.

(** ** Clearing data *)

Definition selects (selection : ClearDataSelection) (d : TableDefinition) : bool :=
  match d with
  | COOKIES => clear_cookies_group selection
  | FETCH_CACHE | FETCH_CACHE_ALIASES => clear_fetch_cache selection
  | HISTORY => clear_history selection
  | SESSION => clear_session selection
  | WEB_STORAGE => clear_web_storage selection
  | DOWNLOADS => clear_downloads_group selection
  | PERMISSIONS => clear_permissions_group selection
  | HSTS => clear_security_state selection
  end.

Lemma clear_if_get b d s d' key :
  table_get key (clear_if b d s d') = if b && bool_decide (d' = d) then None else table_get key (s d').
Proof.
  unfold clear_if, clear_table. destruct b; cbn; [|done]. case_bool_decide as Hd.
  - subst. rewrite with_table_eq. apply table_get_clear_all.
  - by rewrite with_table_ne.
Qed.

(** Clearing data empties exactly the tables of the selected groups and touches no other. *)
Theorem clear_profile_data_exact selection s :
  ∃ s', clear_profile_data selection s = Ok s' ∧
    ∀ d key, table_get key (s' d) = if selects selection d then None else table_get key (s d).
Proof.
  unfold clear_profile_data. destruct (selection_is_empty selection) eqn:Hempty.
  - eexists. split; [reflexivity|]. intros d key. unfold selection_is_empty in Hempty.
    rewrite !andb_true_iff, !negb_true_iff in Hempty. destruct selection, d; cbn in *; naive_solver.
  - eexists. split; [reflexivity|]. intros d key. rewrite !clear_if_get.
    destruct d; rewrite ?(bool_decide_eq_false_2 (_ = _)) by done;
      rewrite ?(bool_decide_eq_true_2 (_ = _)) by done; cbn [selects];
      rewrite ?andb_false_r, ?andb_true_r; done.
Qed.
End bounded.

(** ** Witnesses *)

Definition sample_cookie (name : rstr) : CookieRecord :=
  {| cr_name := name; cr_value := lit "1"; cr_domain := lit "a.test"; cr_host_only := true; cr_path := lit "/";
     cr_expires_unix := None; cr_secure := false; cr_http_only := false; cr_same_site := 1;
     cr_creation_unix := 0%Z |}.
Definition sample_store : Store :=
  foldl run_step store_open [(lit "https://a.test:443", PutCookie (sample_cookie (lit "sid")))].

Definition sample_entry (fetched : Z) : CacheEntry :=
  {| ce_status := 200; ce_headers := []; ce_body := []; ce_fetched_unix := fetched; ce_vary_headers := [] |}.

Example origin_isolation_witness :
  let a := lit "https://a.test:443" in
  let b := lit "https://b.test:443" in
  let s := run_step sample_store (a, PutCache (lit "u") (sample_entry 1)) in
  let ws := [(b, PutCookie (sample_cookie (lit "sid"))); (b, PutCache (lit "u") (sample_entry 2)); (b, ClearCookies)] in
  store_cookies_for a (foldl run_step s ws) = Ok [sample_cookie (lit "sid")] ∧
  get_cache a (lit "u") (foldl run_step s ws) = Ok (Some (sample_entry 1)).
Proof.
  cbn zeta. destruct (origin_isolation (lit "https://a.test:443")
    [(lit "https://b.test:443", PutCookie (sample_cookie (lit "sid"))); (lit "https://b.test:443", PutCache (lit "u") (sample_entry 2));
     (lit "https://b.test:443", ClearCookies)]
    (run_step sample_store (lit "https://a.test:443", PutCache (lit "u") (sample_entry 1)))) as ([Hc _] & _ & _ & Hroom & _).
  - split; [repeat constructor|reflexivity].
  - repeat constructor; done.
  - split.
    + refine (eq_trans (eq_sym Hc) _). vm_compute. reflexivity.
    + refine (eq_trans (proj2 (Hroom _ (lit "u"))) _); [vm_compute; lia|vm_compute; reflexivity].
Defined.

(** The writes of another origin can drop the whole cache of an origin. *)
Example cache_of_another_origin_evicted :
  let s := run_step store_open (lit "a", PutCache (lit "u") (sample_entry 0)) in
  let ws := (λ n, (lit "b", PutCache (dec (N.of_nat n)) (sample_entry 1))) <$> seq 0 512 in
  get_cache (lit "a") (lit "u") s = Ok (Some (sample_entry 0)) ∧
  get_cache (lit "a") (lit "u") (foldl run_step s ws) = Ok None.
Proof. vm_compute. done. Qed.

Example tables_stay_bounded_holds :
  let s := foldl (λ s n, match put_cache (lit "o") (dec (N.of_nat n))
      {| ce_status := 200; ce_headers := []; ce_body := []; ce_fetched_unix := Z.of_nat n; ce_vary_headers := [] |} s with
      Ok s' => s' | Err _ => s end) store_open (seq 0 3) in
  length (table_iter (s FETCH_CACHE)) = 3.
Proof. vm_compute. reflexivity. Qed.

Example tables_stay_bounded_witness :
  ∃ s', put_cache (lit "o") (lit "u") (sample_entry 7) store_open = Ok s' ∧
    (length (table_iter (s' FETCH_CACHE)) ≤ MAX_FETCH_CACHE_RECORDS)%nat.
Proof.
  assert (is_ok (put_cache (lit "o") (lit "u") (sample_entry 7) store_open) = true) as Hok
    by (vm_compute; reflexivity).
  destruct (put_cache (lit "o") (lit "u") (sample_entry 7) store_open) as [s'|e] eqn:E; [|discriminate].
  exists s'. split; [reflexivity|]. destruct tables_stay_bounded as [Hcache _].
  destruct (Hcache _ _ _ _ _ E) as [Hlen _]. exact Hlen.
Defined.

Definition sample_session : SessionRecord :=
  {| sr_tabs := [lit "https://a.test/"; lit "about:blank"]; sr_active_index := 1; sr_tab_states := [] |}.

Example session_round_trip_witness :
  valid_session sample_session ∧
  ∃ s', save_session_record sample_session store_open = Ok s' ∧ load_session_record s' = Ok sample_session.
Proof.
  assert (valid_session sample_session) as Hv by (apply (validate_session_record_Ok _ tt); vm_compute; reflexivity).
  split; [exact Hv|].
  destruct (proj1 (session_round_trip sample_session store_open) Hv) as (s' & E & Hl & _).
  exists s'. split; [exact E|]. by apply Hl.
Defined.

Example clear_profile_data_exact_witness :
  ∃ s', clear_profile_data browsing_data sample_store = Ok s' ∧
    table_get (namespaced_key (lit "https://a.test:443") (lit "sid")) (sample_store COOKIES) ≠ None ∧
    table_get (namespaced_key (lit "https://a.test:443") (lit "sid")) (s' COOKIES) = None.
Proof.
  assert (bool_decide (table_get (namespaced_key (lit "https://a.test:443") (lit "sid"))
    (sample_store COOKIES) = None) = false) as Hg by (vm_compute; reflexivity).
  destruct (clear_profile_data_exact browsing_data sample_store) as (s' & E & Hs').
  exists s'. split; [exact E|]. split; [by apply bool_decide_eq_false in Hg|].
  exact (Hs' COOKIES (namespaced_key (lit "https://a.test:443") (lit "sid"))).
Defined.
