(* ===== verification/WebStorage.v ===== *)
(** * Web Storage

    [localStorage] and [sessionStorage] end to end, definitions only: origins and their
    partition keys ([crates/vixen-net/src/origin.rs]), the limits and the quota
    ([crates/vixen-engine/src/storage_key.rs]), and the operations behind the [Storage] object
    over both backends ([crates/vixen-engine/src/script/webapi.rs]).

    The map behind a mutex is a finite map (poisoning is not modelled).  An error of the store
    is carried as it is, where the code carries its text. *)

From Stdlib Require Import Lia ZArith.
From stdpp Require Import base decidable gmap sets list strings.
From S2P Require Import Prelude.
From S2P Require Import RustStr.
From S2P Require Import RustUtf8.
From S2P Require Import Store.

(** ** Origins *)

Record Origin : Type := { o_scheme : rstr; o_host : rstr; o_port : option N; o_opaque : bool }.

#[export] Instance Origin_eq_dec : EqDecision Origin.
Proof. solve_decision. Defined.

(** What [Origin::from_url] reads of a [url::Url]. *)
Record UrlOrigin : Type := {
  uo_scheme : rstr;
  uo_host_str : option rstr;
  uo_port_or_known_default : option N;
}.

Definition Origin_opaque : Origin := {| o_scheme := []; o_host := []; o_port := None; o_opaque := true |}.

Definition Origin_from_url (url : UrlOrigin) : Origin :=
  let scheme := uo_scheme url in
  match uo_host_str url with
  | Some host =>
      if bool_decide (scheme = lit "http") || bool_decide (scheme = lit "https") ||
         bool_decide (scheme = lit "ws") || bool_decide (scheme = lit "wss")
      then {| o_scheme := scheme; o_host := host; o_port := uo_port_or_known_default url; o_opaque := false |}
      else Origin_opaque
  | None => Origin_opaque
  end.

Definition origin_partition_key (self : Origin) : rstr :=
  if o_opaque self then lit "opaque"
  else match o_port self with
       | Some p => o_scheme self ++ lit "://" ++ o_host self ++ lit ":" ++ dec p
       | None => o_scheme self ++ lit "://" ++ o_host self
       end.

Definition origin_is_secure (self : Origin) : bool :=
  bool_decide (o_scheme self = lit "https") || bool_decide (o_scheme self = lit "wss").

(** ** [storage_key.rs] *)

Inductive StorageKind : Type := Local | Session.
Definition kind_tag (self : StorageKind) : rstr :=
  match self with Local => lit "local" | Session => lit "session" end.

Definition MAX_KEY_LEN : N := 1024.
Definition MAX_VALUE_LEN : N := 2097152.
Definition MAX_ENTRIES : N := 8192.
Definition MAX_PARTITION_BYTES : N := 5242880.

Inductive StorageKeyError : Type :=
| KeyEmpty
| KeyContainsNul
| KeyTooLong (what : string) (length max : N).

Definition validate_storage_key (key : rstr) : result StorageKeyError unit :=
  _ ← throw_if (is_empty_str key) KeyEmpty;
  _ ← throw_if (has_nul key) KeyContainsNul;
  throw_if (MAX_KEY_LEN <? str_len key)%N (KeyTooLong "key" (str_len key) MAX_KEY_LEN).

Definition validate_storage_value (value : rstr) : result StorageKeyError unit :=
  _ ← throw_if (has_nul value) KeyContainsNul;
  throw_if (MAX_VALUE_LEN <? str_len value)%N (KeyTooLong "value" (str_len value) MAX_VALUE_LEN).

Record StoragePartition : Type := { sp_origin : Origin; sp_kind : StorageKind }.
Definition storage_partition_key (self : StoragePartition) : rstr :=
  lit "storage:" ++ kind_tag (sp_kind self) ++ lit ":" ++ origin_partition_key (sp_origin self).

Record StorageQuota : Type := { quota_entries : N; quota_bytes : N }.

(** [usize] sums; the limits keep them far below the width. *)
Definition quota_check (self : StorageQuota) (key_len value_len : N) : result StorageKeyError unit :=
  _ ← throw_if (MAX_ENTRIES <? quota_entries self + 1)%N
        (KeyTooLong "entry-count" (quota_entries self + 1) MAX_ENTRIES);
  let added := (quota_bytes self + key_len + value_len)%N in
  throw_if (MAX_PARTITION_BYTES <? added)%N (KeyTooLong "partition-bytes" added MAX_PARTITION_BYTES).

(** ** The host operations *)

Definition entry_bytes (kv : rstr * rstr) : N := (str_len kv.1 + str_len kv.2)%N.
Definition storage_total_bytes (entries : list (rstr * rstr)) : N := sumN entry_bytes entries.

Definition find_entry (key : rstr) (entries : list (rstr * rstr)) : option (rstr * rstr) :=
  snd <$> list_find (λ kv, kv.1 = key) entries.

Definition storage_check_quota (entries : list (rstr * rstr)) (key value : rstr) :
    result StorageKeyError unit :=
  let current_bytes := storage_total_bytes entries in
  match find_entry key entries with
  | None =>
      quota_check {| quota_entries := len entries; quota_bytes := current_bytes |} (str_len key) (str_len value)
  | Some old =>
      let projected_bytes := (current_bytes - entry_bytes old + str_len key + str_len value)%N in
      throw_if (MAX_PARTITION_BYTES <? projected_bytes)%N
        (KeyTooLong "partition-bytes" projected_bytes MAX_PARTITION_BYTES)
  end.

Definition parse_storage_kind (kind : rstr) : option StorageKind :=
  if bool_decide (kind = lit "local") then Some Local
  else if bool_decide (kind = lit "session") then Some Session else None.

(** [WebStoragePartitions], and the key that a kind selects. *)
Record Partitions : Type := { part_local : rstr; part_session : rstr }.
Definition partition_of (host : Partitions) (kind : StorageKind) : rstr :=
  match kind with Local => part_local host | Session => part_session host end.

(** *** The partitions of a document ([crates/vixen-engine/src/script.rs]) *)

(** 64-bit FNV-1a, printed as sixteen hexadecimal digits. *)
Definition fnv_step (hash byte : N) : N := ((N.lxor hash byte * 1099511628211) `mod` 2 ^ 64)%N.
Definition storage_hash (value : rstr) : N := foldl fnv_step 14695981039346656037%N (utf8 value).
Definition hex_lower (n : N) : rchar := if (n <? 10)%N then (48 + n)%N else (87 + n)%N.
Definition hex_016 (n : N) : rstr :=
  (λ i, hex_lower (N.land (N.shiftr n (4 * i)) 15)) <$> [15; 14; 13; 12; 11; 10; 9; 8; 7; 6; 5; 4; 3; 2; 1; 0]%N.
Definition stable_storage_hash (value : rstr) : rstr := hex_016 (storage_hash value).

(** A page is its origin and its realm key. *)
Definition web_storage_partition_key (page : option (Origin * rstr)) (kind : StorageKind)
    (session_id : rstr) (opaque_serial : N) : rstr :=
  let origin := default Origin_opaque (fst <$> page) in
  if negb (o_opaque origin) then
    let partition := storage_partition_key {| sp_origin := origin; sp_kind := kind |} in
    match kind with
    | Local => partition
    | Session => partition ++ lit ":context:" ++ stable_storage_hash session_id
    end
  else
    let document_key := default (lit "no-page") (snd <$> page) in
    lit "storage:" ++ kind_tag kind ++ lit ":opaque:" ++
    stable_storage_hash (session_id ++ [10%N] ++ dec opaque_serial ++ [10%N] ++ document_key).

Definition web_storage_partitions (page : option (Origin * rstr)) (session_id : rstr) (opaque_serial : N) :
    Partitions :=
  {| part_local := web_storage_partition_key page Local session_id opaque_serial;
     part_session := web_storage_partition_key page Session session_id opaque_serial |}.

Inductive OpResponse : Type :=
| RespOk
| RespValue (value : option rstr)
| RespLength (n : N)
| RespUsage (usage quota : N)
| RespUnsupportedKind
| RespKeyError (e : StorageKeyError)
| RespQuotaError (e : StorageKeyError)
| RespStoreError (e : StoreError).

(** [*existing = value], or [push]. *)
Fixpoint put_entry (key value : rstr) (entries : list (rstr * rstr)) : list (rstr * rstr) :=
  match entries with
  | [] => [(key, value)]
  | (k, v) :: entries => if bool_decide (k = key) then (k, value) :: entries else (k, v) :: put_entry key value entries
  end.

Section host.
Context `{StorePlatform}.

Inductive WebStorageBackend : Type :=
| Memory (map : gmap rstr (list (rstr * rstr)))
| StoreBackend (store : Store).

Definition host_entries (partition : rstr) (b : WebStorageBackend) :
    result StoreError (list (rstr * rstr)) :=
  match b with
  | Memory map => Ok (default [] (map !! partition))
  | StoreBackend store => storage_entries partition store
  end.

Definition host_get_item (partition key : rstr) (b : WebStorageBackend) : result StoreError (option rstr) :=
  match b with
  | Memory map => Ok (entries ← map !! partition; snd <$> find_entry key entries)
  | StoreBackend store => get_storage_item partition key store
  end.

Definition host_set_item (partition key value : rstr) (b : WebStorageBackend) :
    result StoreError WebStorageBackend :=
  match b with
  | Memory map => Ok (Memory (<[partition := put_entry key value (default [] (map !! partition))]> map))
  | StoreBackend store => store ← put_storage_item partition key value store; Ok (StoreBackend store)
  end.

Definition host_remove_item (partition key : rstr) (b : WebStorageBackend) :
    result StoreError WebStorageBackend :=
  match b with
  | Memory map => Ok (Memory (alter (filter (λ kv, kv.1 ≠ key)) partition map))
  | StoreBackend store => store ← remove_storage_item partition key store; Ok (StoreBackend store)
  end.

Definition host_clear (partition : rstr) (b : WebStorageBackend) : result StoreError WebStorageBackend :=
  match b with
  | Memory map => Ok (Memory (delete partition map))
  | StoreBackend store => store ← clear_storage_partition partition store; Ok (StoreBackend store)
  end.

(** A write that fails leaves the backend as it was. *)
Definition commit (b : WebStorageBackend) (r : result StoreError WebStorageBackend) :
    WebStorageBackend * OpResponse :=
  match r with Ok b' => (b', RespOk) | Err e => (b, RespStoreError e) end.

(** *** The operations of the [Storage] object *)

Definition op_storage_length (host : Partitions) (kind : rstr) (b : WebStorageBackend) : OpResponse :=
  match parse_storage_kind kind with
  | None => RespLength 0
  | Some kind => match host_entries (partition_of host kind) b with
                 | Ok entries => RespLength (len entries mod 2 ^ 32)
                 | Err _ => RespLength 0
                 end
  end.

Definition op_storage_key (host : Partitions) (kind : rstr) (index : N) (b : WebStorageBackend) : OpResponse :=
  match parse_storage_kind kind with
  | None => RespUnsupportedKind
  | Some kind => match host_entries (partition_of host kind) b with
                 | Ok entries => RespValue (fst <$> entries !! N.to_nat index)
                 | Err e => RespStoreError e
                 end
  end.

Definition op_storage_get (host : Partitions) (kind key : rstr) (b : WebStorageBackend) : OpResponse :=
  match parse_storage_kind kind with
  | None => RespUnsupportedKind
  | Some kind =>
      if is_empty_str key then RespValue None
      else match validate_storage_key key with
           | Err e => RespKeyError e
           | Ok _ => match host_get_item (partition_of host kind) key b with
                     | Ok value => RespValue value
                     | Err e => RespStoreError e
                     end
           end
  end.

Definition op_storage_set (host : Partitions) (kind key value : rstr) (b : WebStorageBackend) :
    WebStorageBackend * OpResponse :=
  match parse_storage_kind kind with
  | None => (b, RespUnsupportedKind)
  | Some kind =>
      match validate_storage_key key with
      | Err e => (b, RespKeyError e)
      | Ok _ =>
          match validate_storage_value value with
          | Err e => (b, RespKeyError e)
          | Ok _ =>
              match host_entries (partition_of host kind) b with
              | Err e => (b, RespStoreError e)
              | Ok entries =>
                  match storage_check_quota entries key value with
                  | Err e => (b, RespQuotaError e)
                  | Ok _ => commit b (host_set_item (partition_of host kind) key value b)
                  end
              end
          end
      end
  end.

Definition op_storage_remove (host : Partitions) (kind key : rstr) (b : WebStorageBackend) :
    WebStorageBackend * OpResponse :=
  match parse_storage_kind kind with
  | None => (b, RespUnsupportedKind)
  | Some kind =>
      if is_empty_str key then (b, RespOk)
      else match validate_storage_key key with
           | Err e => (b, RespKeyError e)
           | Ok _ => commit b (host_remove_item (partition_of host kind) key b)
           end
  end.

Definition op_storage_clear (host : Partitions) (kind : rstr) (b : WebStorageBackend) :
    WebStorageBackend * OpResponse :=
  match parse_storage_kind kind with
  | None => (b, RespUnsupportedKind)
  | Some kind => commit b (host_clear (partition_of host kind) b)
  end.

Definition op_storage_estimate (host : Partitions) (b : WebStorageBackend) : OpResponse :=
  RespUsage (match host_entries (partition_of host Local) b with
             | Ok entries => storage_total_bytes entries
             | Err _ => 0
             end) MAX_PARTITION_BYTES.
End host.
