(* ===== verification/WebStorageFacts.v ===== *)
(** * Web Storage: the store represents the map

    The rows of one partition, ordered by their sequence numbers, are the entries in insertion
    order; every operation of the store is the operation on that list. *)

From Stdlib Require Import Lia ZArith Sorting.Sorted.
From stdpp Require Import base decidable gmap sets list sorting strings countable pretty.
From S2P Require Import Prelude.
From S2P Require Import RustStr.
From S2P Require Import RustUtf8.
From S2P Require Import Store.
From S2P Require Import StoreFacts.
From S2P Require Import WebStorage.

Abbreviation row := (N * rstr * rstr)%type (only parsing).
Definition row_entry (r : row) : rstr * rstr := (r.1.2, r.2).
Definition seq_before (a b : row) : Prop := (a.1.1 < b.1.1)%N.

(** A partition key that the store accepts. *)
Definition valid_partition (p : rstr) : Prop := nul_free p ∧ p ≠ [].

Lemma validate_storage_input_Ok field v allow u :
  validate_storage_input field v allow = Ok u ↔ (allow = false → v ≠ []) ∧ has_nul v = false.
Proof.
  unfold validate_storage_input. rewrite bind_unit_Ok, !throw_if_Ok. unfold is_empty_str.
  destruct allow; case_bool_decide; cbn; naive_solver.
Qed.

Lemma StronglySorted_weaken {A} (R S : A → A → Prop) l :
  (∀ x y, R x y → S x y) → StronglySorted R l → StronglySorted S l.
Proof.
  intros HRS. induction 1 as [|x l Hl IH Hx]; constructor; [done|].
  eapply Forall_impl; [exact Hx|]. apply HRS.
Qed.

Section represents.
Context `{StoreLaws}.

(** The rows [R] of partition [p] in table [t], oldest first, with sequence numbers up to [n]. *)
Record represents (t : Table) (p : rstr) (n : N) (R : list row) : Prop := {
  rep_sorted : StronglySorted seq_before R;
  rep_keys : NoDup (row_entry <$> R).*1;
  rep_bound : ∀ r, r ∈ R → (r.1.1 ≤ n)%N ∧ scalars r.1.2;
  rep_rows : ∀ key bytes, starts_with (namespaced_prefix p) key = true →
    table_get key t = Some bytes ↔
    ∃ seq k v, (seq, k, v) ∈ R ∧ key = namespaced_key p k ∧ bytes = encode {| ws_value := v; ws_sequence := seq |};
}.

Lemma seq_before_irrefl r : ¬ seq_before r r.
Proof. unfold seq_before. lia. Qed.

(** Rows with the same sequence number are the same row. *)
Lemma rows_same_seq R a b : StronglySorted seq_before R → a ∈ R → b ∈ R → a.1.1 = b.1.1 → a = b.
Proof.
  induction 1 as [|r R HR IH Hr]; [by intros ?%elem_of_nil|]. rewrite Forall_forall in Hr.
  intros [->|Ha]%elem_of_cons [->|Hb]%elem_of_cons E; [done| | |by apply IH].
  - specialize (Hr _ Hb). unfold seq_before in Hr. lia.
  - specialize (Hr _ Ha). unfold seq_before in Hr. lia.
Qed.

Lemma storage_row_key p k bytes rec :
  scalars k → decode_bytes bytes = Some rec →
  storage_row (namespaced_prefix p) (namespaced_key p k, bytes) = Ok (ws_sequence rec, k, ws_value rec).
Proof.
  intros Hk Hd. unfold storage_row, decode. cbn. rewrite Hd. cbn.
  rewrite namespaced_key_prefix, drop_app_length, from_utf8_utf8 by done. done.
Qed.

(** What the table holds for a row. *)
Definition stored (p : rstr) (r : row) : list N * list N :=
  (namespaced_key p r.1.2, encode {| ws_value := r.2; ws_sequence := r.1.1 |}).

Lemma elem_of_stored t p n R kv :
  represents t p n R → kv ∈ partition_rows (namespaced_prefix p) t ↔ ∃ r, r ∈ R ∧ kv = stored p r.
Proof.
  intros HR. destruct kv as [key bytes]. rewrite elem_of_partition_rows. split.
  - intros [Hpre Hg]. apply (rep_rows _ _ _ _ HR) in Hg as (seq & k & v & Hin & -> & ->); [|done].
    by exists (seq, k, v).
  - intros ([[seq k] v] & Hin & [= -> ->]). split; [apply starts_with_own|].
    apply (rep_rows _ _ _ _ HR); [apply starts_with_own|]. by exists seq, k, v.
Qed.

(** The table's rows are those of [R] in the order of their keys. *)
Lemma rows_represent t p n R :
  nul_free p → represents t p n R →
  ∃ out, partition_rows (namespaced_prefix p) t = stored p <$> out ∧ out ≡ₚ R.
Proof.
  intros Hp HR.
  assert (∃ out, partition_rows (namespaced_prefix p) t = stored p <$> out ∧ ∀ r, r ∈ out → r ∈ R)
    as (out & Hout & HoutR).
  { pose proof (λ kv, proj1 (elem_of_stored t p n R kv HR)) as Hrow.
    revert Hrow. induction (partition_rows (namespaced_prefix p) t) as [|kv rows IH]; intros Hrow;
      [exists []; split; [done|by intros r ?%elem_of_nil]|].
    destruct IH as (out & -> & Ho); [by intros kv' Hkv; apply Hrow; right|].
    destruct (Hrow kv) as (r & Hr & ->); [by left|]. exists (r :: out). split; [done|].
    by intros r' [->|?]%elem_of_cons; [|apply Ho]. }
  exists out. split; [done|]. apply NoDup_Permutation.
  - apply (NoDup_fmap_1 (stored p)). rewrite <-Hout.
    eapply sorted_NoDup; [apply key_before_irrefl|apply partition_rows_sorted].
  - eapply sorted_NoDup; [apply seq_before_irrefl|apply HR].
  - intros r. split; [apply HoutR|]. intros Hr.
    assert (stored p r ∈ stored p <$> out) as Hin by (rewrite <-Hout; apply (elem_of_stored t p n R); eauto).
    apply list_elem_of_fmap in Hin as (r' & E & Hin). unfold stored in E.
    injection E as E1 E2. apply (f_equal (decode_bytes (A:=WebStorageRecord))) in E2.
    rewrite !decode_encode in E2. injection E2 as E2 E3.
    replace r with r'; [done|]. eapply rows_same_seq; [apply HR|by apply HoutR|done|done].
Qed.

Lemma valid_partition_input p :
  valid_partition p → validate_storage_input "partition" p false = Ok tt.
Proof. intros [[_ Hn] Hne]. by apply validate_storage_input_Ok. Qed.

(** Listing a partition. *)
Lemma storage_entries_represents p n R s :
  valid_partition p → represents (s WEB_STORAGE) p n R → storage_entries p s = Ok (row_entry <$> R).
Proof.
  intros Hp HR. unfold storage_entries. rewrite valid_partition_input by done.
  cbn [mbind result_bind]. fold (partition_rows (namespaced_prefix p) (s WEB_STORAGE)).
  destruct (rows_represent (s WEB_STORAGE) p n R) as (out & -> & Hperm); [apply Hp|done|].
  assert (collect (storage_row (namespaced_prefix p)) (stored p <$> out) = Ok out) as ->.
  { apply collect_Ok, Forall2_fmap_l, Forall_Forall2_diag, Forall_forall. intros [[seq k] v] Hr.
    rewrite Hperm in Hr.
    apply (storage_row_key p k _ {| ws_value := v; ws_sequence := seq |}); [|apply decode_encode].
    by apply (rep_bound _ _ _ _ HR _ Hr). }
  cbn [mbind result_bind]. f_equal.
  rewrite (StronglySorted_unique_strong (λ a b : row, (a.1.1 <=? b.1.1)%N = true)
    (sort_by (λ a b : row, a.1.1 <=? b.1.1)%N out) R); [by apply list_fmap_ext; intros i [[? ?] ?] _|..].
  - intros a b Ha Hb H1%N.leb_le H2%N.leb_le. rewrite sort_by_Permutation, Hperm in Ha.
    eapply rows_same_seq; [apply HR|done..|lia].
  - apply sort_by_Sorted.
    + intros x y. rewrite !N.leb_le. lia.
    + intros x y z. rewrite !N.leb_le. lia.
  - eapply StronglySorted_weaken; [|apply HR]. unfold seq_before. intros a b. rewrite N.leb_le. lia.
  - by rewrite sort_by_Permutation.
Qed.

(** ** Looking up a key *)

Definition find_row (k : rstr) (R : list row) : option row := snd <$> list_find (λ r, r.1.2 = k) R.

Lemma find_row_Some k R r : find_row k R = Some r → r ∈ R ∧ r.1.2 = k.
Proof.
  unfold find_row. destruct (list_find _ R) as [[i r']|] eqn:E; [|done]. intros [= ->].
  apply list_find_Some in E as (Hi & Hk & _). split; [by eapply list_elem_of_lookup_2|done].
Qed.

Lemma find_row_None k R r : find_row k R = None → r ∈ R → r.1.2 ≠ k.
Proof.
  unfold find_row. destruct (list_find _ R) as [[i r']|] eqn:E; [done|]. intros _ Hr.
  apply list_find_None in E. rewrite Forall_forall in E. by apply E.
Qed.

Lemma find_entry_rows k R : find_entry k (row_entry <$> R) = row_entry <$> find_row k R.
Proof.
  unfold find_entry, find_row. induction R as [|r R IH]; [done|]. cbn.
  destruct (decide (r.1.2 = k)); [done|].
  destruct (list_find (λ kv, kv.1 = k) (row_entry <$> R)) as [[i e]|],
    (list_find (λ r, r.1.2 = k) R) as [[j r']|]; cbn in *; congruence.
Qed.

Lemma keys_of_fst R : (row_entry <$> R).*1 = ((λ r : row, r.1) <$> R).*2.
Proof. by rewrite <-!list_fmap_compose. Qed.

Lemma find_row_unique R a b : NoDup (row_entry <$> R).*1 → a ∈ R → b ∈ R → a.1.2 = b.1.2 → a = b.
Proof.
  rewrite keys_of_fst, <-list_fmap_compose. intros Hnd Ha Hb E.
  apply list_elem_of_lookup in Ha as [i Hi], Hb as [j Hj].
  assert (i = j) as ->; [|congruence].
  eapply (NoDup_lookup _ i j b.1.2); [exact Hnd| |]; rewrite list_lookup_fmap, ?Hi, ?Hj; cbn; congruence.
Qed.

Lemma represents_get t p n R k :
  nul_free p → scalars k → represents t p n R →
  table_get (namespaced_key p k) t = snd ∘ stored p <$> find_row k R.
Proof.
  intros Hp Hk HR. destruct (find_row k R) as [r|] eqn:E; cbn.
  - apply find_row_Some in E as [Hr <-]. apply (rep_rows _ _ _ _ HR); [apply starts_with_own|].
    destruct r as [[seq k] v]. by exists seq, k, v.
  - destruct (table_get _ t) as [bytes|] eqn:Hg; [|done].
    apply (rep_rows _ _ _ _ HR) in Hg as (seq & k' & v & Hin & Ek & _); [|apply starts_with_own].
    apply namespaced_key_inj in Ek as [_ ->]; [|done..|by apply (rep_bound _ _ _ _ HR _ Hin)].
    by destruct (find_row_None k' R (seq, k', v) E Hin).
Qed.

(** ** Updates *)

(** A change elsewhere, and a later bound. *)
Lemma represents_ext t t' p n m R :
  (∀ key, starts_with (namespaced_prefix p) key = true → table_get key t' = table_get key t) →
  (n ≤ m)%N → represents t p n R → represents t' p m R.
Proof.
  intros Ht Hnm [Hs Hk Hb Hr]. split; [done..| |].
  - intros r Hin. destruct (Hb r Hin). split; [lia|done].
  - intros key bytes Hp. rewrite Ht by done. by apply Hr.
Qed.

Lemma represents_empty t p n :
  (∀ key, starts_with (namespaced_prefix p) key = true → table_get key t = None) → represents t p n [].
Proof.
  intros Ht. split; cbn; [constructor|constructor|by intros r ?%elem_of_nil|].
  intros key bytes Hp. rewrite Ht by done. split; [done|]. by intros (? & ? & ? & ?%elem_of_nil & _).
Qed.

Definition replace_row (k v : rstr) (R : list row) : list row :=
  (λ r, if bool_decide (r.1.2 = k) then (r.1, v) else r) <$> R.

Lemma replace_row_keys k v R : (λ r : row, r.1) <$> replace_row k v R = (λ r : row, r.1) <$> R.
Proof.
  unfold replace_row. rewrite <-list_fmap_compose. apply list_fmap_ext. intros i r _. cbn.
  by case_bool_decide.
Qed.

Lemma seq_sorted_fst R :
  StronglySorted seq_before R ↔ StronglySorted (λ a b : N * rstr, a.1 < b.1)%N ((λ r : row, r.1) <$> R).
Proof.
  split.
  - induction 1 as [|r R HR IH Hr]; cbn; constructor; [done|]. by apply Forall_fmap.
  - induction R as [|r R IH]; cbn; intros Hs; [constructor|]. inversion Hs as [|? ? Hs' Hr]; subst.
    constructor; [by apply IH|]. rewrite Forall_forall in Hr. apply Forall_forall. intros r' Hr'.
    apply (Hr r'.1), list_elem_of_fmap. by exists r'.
Qed.

Lemma elem_of_replace_row k v R r :
  r ∈ replace_row k v R ↔ ∃ r0, r0 ∈ R ∧ r = if bool_decide (r0.1.2 = k) then (r0.1, v) else r0.
Proof. unfold replace_row. rewrite list_elem_of_fmap. naive_solver. Qed.

Lemma represents_replace t p n R k v r :
  nul_free p → scalars k → represents t p n R → find_row k R = Some r →
  represents (table_insert (namespaced_key p k) (encode {| ws_value := v; ws_sequence := r.1.1 |}) t)
    p n (replace_row k v R).
Proof.
  intros Hp Hk HR [Hr Hrk]%find_row_Some. split.
  - rewrite seq_sorted_fst, replace_row_keys, <-seq_sorted_fst. apply HR.
  - rewrite keys_of_fst, replace_row_keys, <-keys_of_fst. apply HR.
  - intros r' (r0 & Hin & ->)%elem_of_replace_row. pose proof (rep_bound _ _ _ _ HR _ Hin).
    by case_bool_decide.
  - intros key bytes Hpre. rewrite table_get_insert. setoid_rewrite elem_of_replace_row.
    destruct (decide (key = namespaced_key p k)) as [->|Hne].
    + split.
      * intros [= <-]. exists r.1.1, k, v. split; [|done]. exists r. split; [done|].
        rewrite bool_decide_eq_true_2 by done. destruct r as [[? ?] ?]. cbn in *. by subst.
      * intros (seq & k' & v' & ([[s0 k0] v0] & Hin & E) & Ek & ->). cbn in E.
        assert (seq = s0 ∧ k' = k0) as [-> ->] by (case_bool_decide; by injection E).
        apply namespaced_key_inj in Ek as [_ <-]; [|done..|by apply (rep_bound _ _ _ _ HR _ Hin)].
        rewrite bool_decide_eq_true_2 in E by done. injection E as ->.
        by rewrite (find_row_unique R r (s0, k, v0)) by (apply HR || done).
    + rewrite (rep_rows _ _ _ _ HR) by done. split.
      * intros (seq & k' & v' & Hin & -> & ->). exists seq, k', v'. split; [|done]. exists (seq, k', v').
        split; [done|]. cbn. rewrite bool_decide_eq_false_2; [done|]. by intros ->.
      * intros (seq & k' & v' & ([[s0 k0] v0] & Hin & E) & -> & ->). cbn in E.
        assert (k' = k0) as -> by (case_bool_decide; by injection E).
        rewrite bool_decide_eq_false_2 in E by (by intros ->). injection E as -> ->. by exists s0, k0, v0.
Qed.

Lemma represents_append t p n R k v m :
  nul_free p → scalars k → represents t p n R → find_row k R = None → (∀ r, r ∈ R → r.1.1 < m)%N →
  (m ≤ n + 1)%N →
  represents (table_insert (namespaced_key p k) (encode {| ws_value := v; ws_sequence := m |}) t)
    p (n + 1) (R ++ [(m, k, v)]).
Proof.
  intros Hp Hk HR Hfind Hm Hmn. split.
  - apply StronglySorted_app_2; [|apply HR|repeat constructor]. intros a b Ha ->%list_elem_of_singleton.
    by apply Hm.
  - rewrite !fmap_app. cbn. apply NoDup_app. split; [apply HR|]. split; [|apply NoDup_singleton].
    intros key Hin ->%list_elem_of_singleton. rewrite <-list_fmap_compose in Hin.
    apply list_elem_of_fmap in Hin as (r & E & Hin). by apply (find_row_None _ _ _ Hfind Hin).
  - intros r [Hr| ->%list_elem_of_singleton]%elem_of_app; [|done].
    destruct (rep_bound _ _ _ _ HR _ Hr). split; [lia|done].
  - intros key bytes Hpre. rewrite table_get_insert. setoid_rewrite elem_of_app.
    setoid_rewrite list_elem_of_singleton. destruct (decide (key = namespaced_key p k)) as [->|Hne].
    + split; [intros [= <-]; exists m, k, v; naive_solver|].
      intros (seq & k' & v' & [Hin|[= -> -> ->]] & Ek & ->); [|done]. exfalso.
      apply namespaced_key_inj in Ek as [_ <-]; [|done..|by apply (rep_bound _ _ _ _ HR _ Hin)].
      by apply (find_row_None _ _ _ Hfind Hin).
    + rewrite (rep_rows _ _ _ _ HR) by done. split; [naive_solver|].
      intros (seq & k' & v' & [Hin|[= -> -> ->]] & -> & ->); [|done]. by exists seq, k', v'.
Qed.

Lemma represents_remove t p n R k :
  nul_free p → scalars k → represents t p n R →
  represents (table_remove (namespaced_key p k) t) p n (filter (λ r, r.1.2 ≠ k) R).
Proof.
  intros Hp Hk HR. split.
  - apply StronglySorted_filter', HR.
  - pose proof (rep_keys _ _ _ _ HR) as Hnd. rewrite keys_of_fst in *. rewrite <-list_fmap_compose in *.
    eapply sublist_NoDup; [exact Hnd|]. apply fmap_sublist, sublist_filter.
  - intros r [_ Hr]%list_elem_of_filter. by apply (rep_bound _ _ _ _ HR).
  - intros key bytes Hpre. rewrite table_get_remove. setoid_rewrite list_elem_of_filter. cbn.
    destruct (decide (key = namespaced_key p k)) as [->|Hne].
    + split; [done|]. intros (seq & k' & v' & [Hn Hin] & Ek & _). exfalso.
      apply namespaced_key_inj in Ek as [_ ->]; [done..|by apply (rep_bound _ _ _ _ HR _ Hin)].
    + rewrite (rep_rows _ _ _ _ HR) by done. split.
      * intros (seq & k' & v' & Hin & -> & ->). exists seq, k', v'. split_and!; try done. by intros ->.
      * intros (seq & k' & v' & [_ Hin] & -> & ->). by exists seq, k', v'.
Qed.
End represents.

(** * The properties of Web Storage

    The persistent backend is indistinguishable from the map, the quota holds whatever a page
    does, and no two partitions share a key. *)

(** ** What a page can do *)

Inductive StorageOp : Type :=
| SLength (kind : rstr)
| SKey (kind : rstr) (index : N)
| SGet (kind key : rstr)
| SSet (kind key value : rstr)
| SRemove (kind key : rstr)
| SClear (kind : rstr)
| SEstimate.

Definition run_op `{StorePlatform} (host : Partitions) (op : StorageOp) (b : WebStorageBackend) :
    WebStorageBackend * OpResponse :=
  match op with
  | SLength kind => (b, op_storage_length host kind b)
  | SKey kind index => (b, op_storage_key host kind index b)
  | SGet kind key => (b, op_storage_get host kind key b)
  | SSet kind key value => op_storage_set host kind key value b
  | SRemove kind key => op_storage_remove host kind key b
  | SClear kind => op_storage_clear host kind b
  | SEstimate => (b, op_storage_estimate host b)
  end.

(** A sequence of operations of several documents on one backend, and their answers. *)
Fixpoint run_ops `{StorePlatform} (ops : list (Partitions * StorageOp)) (b : WebStorageBackend) :
    WebStorageBackend * list OpResponse :=
  match ops with
  | [] => (b, [])
  | (host, op) :: ops =>
      let '(b, answer) := run_op host op b in
      let '(b, answers) := run_ops ops b in (b, answer :: answers)
  end.

(** Rust strings, and partitions that the store accepts. *)
Definition op_ok (host : Partitions) (op : StorageOp) : Prop :=
  valid_partition (part_local host) ∧ valid_partition (part_session host) ∧
  match op with
  | SGet _ key | SRemove _ key => scalars key
  | SSet _ key value => scalars key
  | _ => True
  end.

(** ** The backends agree *)

Section agree.
Context `{StoreLaws}.

Definition backends_agree (n : N) (map : gmap rstr (list (rstr * rstr))) (s : Store) : Prop :=
  ∀ p, valid_partition p → ∃ R, represents (s WEB_STORAGE) p n R ∧ default [] (map !! p) = row_entry <$> R.

Lemma entries_agree n map s p :
  valid_partition p → backends_agree n map s → host_entries p (StoreBackend s) = host_entries p (Memory map).
Proof.
  intros Hp Ha. destruct (Ha p Hp) as (R & HR & E). cbn. rewrite E. by eapply storage_entries_represents.
Qed.

Lemma valid_key key :
  validate_storage_key key = Ok tt → validate_storage_input "key" key false = Ok tt.
Proof.
  unfold validate_storage_key. rewrite bind_unit_Ok, bind_unit_Ok, !throw_if_Ok.
  intros (He & Hn & _). apply validate_storage_input_Ok. split; [|done]. intros _.
  unfold is_empty_str in He. by apply bool_decide_eq_false in He.
Qed.

Lemma get_agree n map s p key :
  valid_partition p → scalars key → validate_storage_key key = Ok tt → backends_agree n map s →
  host_get_item p key (StoreBackend s) = host_get_item p key (Memory map).
Proof.
  intros Hp Hk Hv Ha. destruct (Ha p Hp) as (R & HR & E). cbn. unfold get_storage_item.
  rewrite valid_partition_input, (valid_key key) by done. cbn [mbind result_bind].
  rewrite (represents_get _ p n R) by (apply Hp || done).
  assert ((entries ← map !! p; snd <$> find_entry key entries) = snd <$> find_entry key (row_entry <$> R)) as ->.
  { rewrite <-E. by destruct (map !! p). }
  rewrite find_entry_rows. destruct (find_row key R) as [r|]; cbn; [|done]. by rewrite decode_encoded.
Qed.

Lemma replace_row_absent k v R : k ∉ (row_entry <$> R).*1 → replace_row k v R = R.
Proof.
  intros Hk. unfold replace_row. rewrite <-(list_fmap_id R) at 2. apply list_fmap_ext.
  intros i r Hi%list_elem_of_lookup_2. rewrite bool_decide_eq_false_2; [done|]. intros <-. apply Hk.
  rewrite <-list_fmap_compose. apply list_elem_of_fmap. by exists r.
Qed.

(** Writing an entry is writing its row. *)
Lemma put_entry_rows m k v R :
  NoDup (row_entry <$> R).*1 →
  put_entry k v (row_entry <$> R) =
  row_entry <$> match find_row k R with Some _ => replace_row k v R | None => R ++ [(m, k, v)] end.
Proof.
  unfold find_row. induction R as [|r R IH]; [done|]. cbn [fmap list_fmap]. intros [Hr Hnd]%NoDup_cons.
  cbn [put_entry list_find]. unfold row_entry at 1. destruct (decide (r.1.2 = k)) as [Hk|Hk].
  - rewrite bool_decide_eq_true_2 by done. cbn. rewrite bool_decide_eq_true_2 by done.
    fold (replace_row k v R). rewrite replace_row_absent; [done|]. cbn in Hr. by rewrite <-Hk.
  - rewrite bool_decide_eq_false_2, IH by done. destruct (list_find _ R) as [[i r']|]; cbn; [|done].
    by rewrite bool_decide_eq_false_2.
Qed.

Lemma max_loop p out m :
  for_each (λ m kv, rec ← decode kv.2; Ok (N.max m (ws_sequence rec))) m (stored p <$> out) =
  Ok (foldl (λ m r, N.max m r.1.1) m out).
Proof.
  revert m. induction out as [|r out IH]; intros m; cbn [fmap list_fmap for_each foldl]; [done|].
  assert (decode (stored p r).2 = Ok {| ws_value := r.2; ws_sequence := r.1.1 |}) as -> by apply decode_encoded.
  cbn [mbind result_bind ws_sequence]. apply IH.
Qed.

Lemma max_bounds (out : list row) m n :
  (m ≤ n)%N → (∀ r, r ∈ out → r.1.1 ≤ n)%N →
  (m ≤ foldl (λ m r, N.max m r.1.1) m out ≤ n)%N ∧ ∀ r, r ∈ out → (r.1.1 ≤ foldl (λ m r, N.max m r.1.1) m out)%N.
Proof.
  revert m. induction out as [|r out IH]; intros m Hm Hout; cbn [foldl].
  - split; [lia|]. by intros r ?%elem_of_nil.
  - assert (r.1.1 ≤ n)%N by (apply Hout; left).
    destruct (IH (N.max m r.1.1)) as [Hle Hall]; [lia|intros r' Hr'; apply Hout; by right|].
    split; [lia|]. intros r' [->|Hr']%elem_of_cons; [lia|by apply Hall].
Qed.

Lemma next_sequence_represents t p n R :
  nul_free p → represents t p n R → (n + 1 < 2 ^ 64)%N →
  ∃ m, next_web_storage_sequence p t = Ok m ∧ (m ≤ n + 1)%N ∧ ∀ r, r ∈ R → (r.1.1 < m)%N.
Proof.
  intros Hp HR Hn. destruct (rows_represent t p n R Hp HR) as (out & Hout & Hperm).
  unfold next_web_storage_sequence. fold (partition_rows (namespaced_prefix p) t).
  rewrite Hout, max_loop. cbn [mbind result_bind].
  destruct (max_bounds out 0 n) as [Hle Hall]; [lia| |].
  { intros r Hr. rewrite Hperm in Hr. by apply (rep_bound _ _ _ _ HR). }
  eexists. split; [reflexivity|]. rewrite N.mod_small by lia. split; [lia|].
  intros r Hr. rewrite <-Hperm in Hr. specialize (Hall r Hr). lia.
Qed.

(** A write to one partition keeps the agreement on the others. *)
Lemma agree_update n m map map' s t p R :
  valid_partition p → backends_agree n map s → (n ≤ m)%N →
  (∀ p', p' ≠ p → map' !! p' = map !! p') →
  (∀ key, starts_with (namespaced_prefix p) key = false → table_get key t = table_get key (s WEB_STORAGE)) →
  represents t p m R → default [] (map' !! p) = row_entry <$> R →
  backends_agree m map' (with_table WEB_STORAGE t s).
Proof.
  intros Hp Ha Hnm Hmap Ht HR E p' Hp'. rewrite with_table_eq. destruct (decide (p' = p)) as [->|Hne].
  - by exists R.
  - destruct (Ha p' Hp') as (R' & HR' & E'). exists R'. rewrite Hmap by done. split; [|done].
    eapply represents_ext; [|exact Hnm|exact HR']. intros key Hpre. apply Ht.
    destruct (starts_with (namespaced_prefix p) key) eqn:Hpre'; [|done].
    apply starts_with_true in Hpre' as [rest ->]. destruct Hne. symmetry.
    eapply prefix_of_key; [apply Hp|apply Hp'|exact Hpre].
Qed.

Lemma not_own_key p k key :
  starts_with (namespaced_prefix p) key = false → key ≠ namespaced_key p k.
Proof. intros Hf ->. by rewrite starts_with_own in Hf. Qed.

Lemma set_agree n map s p key value :
  valid_partition p → scalars key → validate_storage_key key = Ok tt → has_nul value = false →
  backends_agree n map s → (n + 1 < 2 ^ 64)%N →
  ∃ s', put_storage_item p key value s = Ok s' ∧
    backends_agree (n + 1) (<[p := put_entry key value (default [] (map !! p))]> map) s'.
Proof.
  intros Hp Hk Hv Hval Ha Hn. destruct (Ha p Hp) as (R & HR & E). unfold put_storage_item.
  rewrite valid_partition_input, (valid_key key) by done. cbn [mbind result_bind].
  rewrite (proj2 (validate_storage_input_Ok "value" value true tt)) by done. cbn [mbind result_bind].
  rewrite (represents_get _ p n R) by (apply Hp || done). rewrite E.
  assert (∀ v, ∀ k', starts_with (namespaced_prefix p) k' = false →
    table_get k' (table_insert (namespaced_key p key) v (s WEB_STORAGE)) = table_get k' (s WEB_STORAGE)) as Hother.
  { intros v k' Hk'. rewrite table_get_insert, decide_False; [done|by apply not_own_key]. }
  destruct (find_row key R) as [r|] eqn:Hf; cbn [fmap option_fmap option_map compose stored snd].
  - rewrite decode_encoded. cbn [mbind result_bind ws_sequence]. eexists. split; [reflexivity|].
    eapply (agree_update n (n + 1) map _ s _ p (replace_row key value R)); try done.
    + lia.
    + intros p' Hne. by rewrite lookup_insert_ne.
    + apply Hother.
    + eapply represents_ext; [done| |apply represents_replace; by try apply Hp]. lia.
    + rewrite lookup_insert_eq. cbn. rewrite (put_entry_rows 0 key value R) by apply HR. by rewrite Hf.
  - destruct (next_sequence_represents (s WEB_STORAGE) p n R) as (m & -> & Hm & Hlt); [apply Hp|done..|].
    cbn [mbind result_bind]. eexists. split; [reflexivity|].
    eapply (agree_update n (n + 1) map _ s _ p (R ++ [(m, key, value)])); try done.
    + lia.
    + intros p' Hne. by rewrite lookup_insert_ne.
    + apply Hother.
    + apply represents_append; by try apply Hp.
    + rewrite lookup_insert_eq. cbn. rewrite (put_entry_rows m key value R) by apply HR. by rewrite Hf.
Qed.

Lemma filter_rows k (R : list row) :
  filter (λ kv : rstr * rstr, kv.1 ≠ k) (row_entry <$> R) = row_entry <$> filter (λ r : row, r.1.2 ≠ k) R.
Proof.
  induction R as [|r R IH]; [done|]. cbn [fmap list_fmap]. rewrite !filter_cons. cbn.
  destruct (decide (r.1.2 ≠ k)); cbn; by rewrite IH.
Qed.

Lemma remove_agree n map s p key :
  valid_partition p → scalars key → validate_storage_key key = Ok tt → backends_agree n map s →
  ∃ s', remove_storage_item p key s = Ok s' ∧
    backends_agree n (alter (filter (λ kv : rstr * rstr, kv.1 ≠ key)) p map) s'.
Proof.
  intros Hp Hk Hv Ha. destruct (Ha p Hp) as (R & HR & E). unfold remove_storage_item.
  rewrite valid_partition_input, (valid_key key) by done. cbn [mbind result_bind].
  eexists. split; [reflexivity|].
  eapply (agree_update n n map _ s _ p (filter (λ r, r.1.2 ≠ key) R)); try done.
  - intros p' Hne. by rewrite lookup_alter_ne.
  - intros k' Hk'. rewrite table_get_remove, decide_False; [done|by apply not_own_key].
  - apply represents_remove; by try apply Hp.
  - rewrite lookup_alter_eq. rewrite <-filter_rows, <-E. by destruct (map !! p).
Qed.

Lemma clear_agree n map s p :
  valid_partition p → backends_agree n map s →
  ∃ s', clear_storage_partition p s = Ok s' ∧ backends_agree n (delete p map) s'.
Proof.
  intros Hp Ha. unfold clear_storage_partition. rewrite valid_partition_input by done. cbn [mbind result_bind].
  eexists. split; [reflexivity|]. eapply (agree_update n n map _ s _ p []); try done.
  - intros p' Hne. by rewrite lookup_delete_ne.
  - intros k' Hk'. by rewrite table_get_clear_partition, Hk'.
  - apply represents_empty. intros k' Hk'. by rewrite table_get_clear_partition, Hk'.
  - by rewrite lookup_delete_eq.
Qed.

(** One operation: the same answer, and the backends still agree. *)
Lemma op_agree n map s host op :
  op_ok host op → backends_agree n map s → (n + 1 < 2 ^ 64)%N →
  ∃ map' s' answer, run_op host op (Memory map) = (Memory map', answer) ∧
    run_op host op (StoreBackend s) = (StoreBackend s', answer) ∧ backends_agree (n + 1) map' s'.
Proof.
  intros (Hl & Hs & Hop) Ha Hn.
  assert (backends_agree (n + 1) map s) as Hn1.
  { intros p Hp. destruct (Ha p Hp) as (R & HR & E). exists R. split; [|done].
    eapply (represents_ext _ _ p n); [done|lia|exact HR]. }
  assert (∀ kind, valid_partition (partition_of host kind)) as Hpart by (by intros []).
  assert (∀ kind, host_entries (partition_of host kind) (StoreBackend s) = host_entries (partition_of host kind) (Memory map))
    as Hent by (intros kind; by eapply entries_agree).
  assert (∀ answer : OpResponse, ∃ map' s' (a : OpResponse), (Memory map, answer) = (Memory map', a) ∧ (StoreBackend s, answer) = (StoreBackend s', a) ∧
    backends_agree (n + 1) map' s') as Hsame by (intros answer; by exists map, s, answer).
  destruct op as [kind|kind index|kind key|kind key value|kind key|kind|]; cbn [run_op];
    unfold op_storage_length, op_storage_key, op_storage_get, op_storage_set, op_storage_remove,
      op_storage_clear, op_storage_estimate; rewrite ?Hent; try destruct (parse_storage_kind kind) as [k|];
    rewrite ?Hent; try apply Hsame.
  - destruct (is_empty_str key); [apply Hsame|]. destruct (validate_storage_key key) as [[]|] eqn:Hv; [|apply Hsame].
    rewrite (get_agree n map s) by done. apply Hsame.
  - destruct (validate_storage_key key) as [[]|] eqn:Hv; [|apply Hsame].
    destruct (validate_storage_value value) as [[]|] eqn:Hval; [|apply Hsame]. cbn [host_entries].
    destruct (storage_check_quota _ key value); [|apply Hsame].
    unfold validate_storage_value in Hval. apply bind_unit_Ok in Hval as [Hnul%throw_if_Ok _].
    destruct (set_agree n map s (partition_of host k) key value) as (s' & Hput & Ha'); [done..|].
    cbn. rewrite Hput. cbn. eexists _, s', _. done.
  - destruct (is_empty_str key); [apply Hsame|]. destruct (validate_storage_key key) as [[]|] eqn:Hv; [|apply Hsame].
    destruct (remove_agree (n + 1) map s (partition_of host k) key) as (s' & Hrem & Ha'); [done..|].
    cbn. rewrite Hrem. cbn. eexists _, s', _. done.
  - destruct (clear_agree (n + 1) map s (partition_of host k)) as (s' & Hclr & Ha'); [done..|].
    cbn. rewrite Hclr. cbn. eexists _, s', _. done.
Qed.

Lemma ops_agree ops n map s :
  Forall (λ o, op_ok o.1 o.2) ops → backends_agree n map s → (n + len ops < 2 ^ 64)%N →
  ∃ map' s' answers, run_ops ops (Memory map) = (Memory map', answers) ∧
    run_ops ops (StoreBackend s) = (StoreBackend s', answers) ∧ backends_agree (n + len ops) map' s'.
Proof.
  intros Hops. revert n map s. induction Hops as [|[host op] ops Hop _ IH]; intros n map s Ha Hn.
  - exists map, s, []. cbn. by rewrite N.add_0_r.
  - rewrite len_cons in *. cbn [run_ops].
    destruct (op_agree n map s host op) as (map1 & s1 & answer & -> & -> & Ha1); [done..|lia|].
    destruct (IH (n + 1)%N map1 s1 Ha1) as (map' & s' & answers & -> & -> & Ha'); [lia|].
    exists map', s', (answer :: answers). split_and!; [done..|]. by rewrite N.add_assoc.
Qed.

Lemma open_agrees : backends_agree 0 ∅ store_open.
Proof.
  intros p Hp. exists []. split; [|by rewrite lookup_empty]. apply represents_empty.
  intros key _. apply table_get_new.
Qed.

(** The two backends of Web Storage are indistinguishable: whatever sequence of [length],
    [key], [getItem], [setItem], [removeItem], [clear] and estimates the documents of any
    number of origins perform, on [localStorage] and [sessionStorage], the persistent store
    gives answer for answer what the map in memory gives, insertion order, quota and refusals
    included. *)
Theorem web_storage_backends_agree (ops : list (Partitions * StorageOp)) :
  Forall (λ o, op_ok o.1 o.2) ops → (len ops < 2 ^ 64)%N →
  (run_ops ops (StoreBackend store_open)).2 = (run_ops ops (Memory ∅)).2.
Proof.
  intros Hops Hlen.
  by destruct (ops_agree ops 0 ∅ store_open Hops open_agrees) as (map & s & answers & -> & -> & _).
Qed.

(** ** The quota *)

Definition within_quota (entries : list (rstr * rstr)) : Prop :=
  NoDup entries.*1 ∧ (len entries ≤ MAX_ENTRIES)%N ∧ (storage_total_bytes entries ≤ MAX_PARTITION_BYTES)%N.

Lemma find_entry_bytes key old entries :
  find_entry key entries = Some old → (entry_bytes old ≤ storage_total_bytes entries)%N.
Proof.
  unfold find_entry. intros Hf. destruct (list_find _ entries) as [[i e]|] eqn:E; [|done]. injection Hf as ->.
  apply list_find_Some in E as (Hi & _). apply list_elem_of_lookup_2 in Hi.
  unfold storage_total_bytes. induction Hi as [e l|e e' l Hi IH]; rewrite sumN_cons; lia.
Qed.

Lemma put_entry_keys key value entries :
  (put_entry key value entries).*1 =
  match find_entry key entries with Some _ => entries.*1 | None => entries.*1 ++ [key] end.
Proof.
  unfold find_entry. induction entries as [|[k v] entries IH]; [done|]. cbn.
  destruct (decide (k = key)) as [->|Hk].
  - by rewrite bool_decide_eq_true_2.
  - rewrite bool_decide_eq_false_2 by done. cbn. rewrite IH.
    by destruct (list_find (λ kv, kv.1 = key) entries) as [[i e]|].
Qed.

Lemma put_entry_bytes key value entries :
  (storage_total_bytes (put_entry key value entries) +
   match find_entry key entries with Some old => entry_bytes old | None => 0 end =
   storage_total_bytes entries + str_len key + str_len value)%N.
Proof.
  unfold find_entry, storage_total_bytes. induction entries as [|[k v] entries IH].
  - cbn [put_entry list_find fmap option_fmap option_map]. rewrite sumN_cons.
    change (sumN entry_bytes []) with 0%N. unfold entry_bytes. cbn [fst snd]. lia.
  - cbn [put_entry list_find fst]. destruct (decide (k = key)) as [->|Hk].
    + rewrite bool_decide_eq_true_2 by done. rewrite !sumN_cons. cbn [fmap option_fmap option_map snd]. unfold entry_bytes. cbn [fst snd]. lia.
    + rewrite bool_decide_eq_false_2 by done. rewrite !sumN_cons.
      destruct (list_find (λ kv, kv.1 = key) entries) as [[i e]|]; cbn in *; lia.
Qed.

Lemma find_entry_None key entries : find_entry key entries = None → key ∉ entries.*1.
Proof.
  unfold find_entry. destruct (list_find _ entries) as [[i e]|] eqn:E; [done|]. intros _.
  apply list_find_None in E. rewrite Forall_forall in E. intros (e & -> & He)%list_elem_of_fmap. by apply (E e).
Qed.

Lemma put_within_quota key value entries :
  within_quota entries → storage_check_quota entries key value = Ok tt → within_quota (put_entry key value entries).
Proof.
  intros (Hnd & Hlen & Htot) Hq. unfold within_quota.
  assert (len (put_entry key value entries) = len (put_entry key value entries).*1) as El
    by (unfold len; by rewrite length_fmap).
  rewrite El, !put_entry_keys. pose proof (put_entry_bytes key value entries) as Hb.
  unfold storage_check_quota in Hq. destruct (find_entry key entries) as [old|] eqn:Hf.
  - apply throw_if_Ok, N.ltb_ge in Hq. apply find_entry_bytes in Hf.
    assert (len entries.*1 = len entries) as -> by (unfold len; by rewrite length_fmap).
    split_and!; [done..|lia].
  - unfold quota_check in Hq. cbn in Hq. rewrite bind_unit_Ok, !throw_if_Ok, !N.ltb_ge in Hq.
    rewrite len_app. assert (len entries.*1 = len entries) as -> by (unfold len; by rewrite length_fmap).
    change (len [key]) with 1%N. split_and!; [|lia..].
    apply NoDup_app. split_and!; [done| |apply NoDup_singleton].
    intros k Hk ->%list_elem_of_singleton. by apply (find_entry_None key entries).
Qed.

Lemma filter_within_quota key entries :
  within_quota entries → within_quota (filter (λ kv : rstr * rstr, kv.1 ≠ key) entries).
Proof.
  intros (Hnd & Hlen & Htot). unfold within_quota. split_and!.
  - eapply sublist_NoDup; [exact Hnd|]. apply fmap_sublist, sublist_filter.
  - unfold len in *. pose proof (length_filter (λ kv : rstr * rstr, kv.1 ≠ key) entries). lia.
  - assert (storage_total_bytes (filter (λ kv : rstr * rstr, kv.1 ≠ key) entries) ≤ storage_total_bytes entries)%N; [|lia].
    unfold storage_total_bytes. clear. induction entries as [|e l IH]; [done|]. rewrite filter_cons.
    case_decide; rewrite ?sumN_cons; lia.
Qed.

Definition map_within_quota (map : gmap rstr (list (rstr * rstr))) : Prop :=
  ∀ p, within_quota (default [] (map !! p)).

Lemma op_within_quota host op map map' answer :
  run_op host op (Memory map) = (Memory map', answer) → map_within_quota map → map_within_quota map'.
Proof.
  intros Hrun Hq. destruct op as [kind|kind index|kind key|kind key value|kind key|kind|]; cbn [run_op] in Hrun;
    try (injection Hrun as -> _; done);
    unfold op_storage_set, op_storage_remove, op_storage_clear in Hrun;
    destruct (parse_storage_kind kind) as [k|]; try (injection Hrun as -> _; done); cbn in Hrun.
  - destruct (validate_storage_key key) as [[]|]; [|injection Hrun as -> _; done].
    destruct (validate_storage_value value) as [[]|]; [|injection Hrun as -> _; done].
    destruct (storage_check_quota _ key value) as [[]|] eqn:Hc; injection Hrun as <- _; [|done].
    intros p. destruct (decide (p = partition_of host k)) as [->|Hne].
    + rewrite lookup_insert_eq. by apply put_within_quota.
    + by rewrite lookup_insert_ne.
  - destruct (is_empty_str key); [injection Hrun as -> _; done|].
    destruct (validate_storage_key key) as [[]|]; injection Hrun as <- _; [|done].
    intros p. destruct (decide (p = partition_of host k)) as [->|Hne].
    + rewrite lookup_alter_eq. specialize (Hq (partition_of host k)).
      destruct (map !! partition_of host k); [|done]. by apply filter_within_quota.
    + by rewrite lookup_alter_ne.
  - injection Hrun as <- _. intros p. destruct (decide (p = partition_of host k)) as [->|Hne].
    + rewrite lookup_delete_eq. cbn. split_and!; [constructor|done..].
    + by rewrite lookup_delete_ne.
Qed.

Lemma memory_op host op map : ∃ map' answer, run_op host op (Memory map) = (Memory map', answer).
Proof.
  destruct op as [kind|kind index|kind key|kind key value|kind key|kind|]; cbn [run_op]; try (by eexists _, _);
    unfold op_storage_set, op_storage_remove, op_storage_clear; repeat case_match; cbn; by eexists _, _.
Qed.

Lemma ops_within_quota ops map map' answers :
  run_ops ops (Memory map) = (Memory map', answers) → map_within_quota map → map_within_quota map'.
Proof.
  revert map answers. induction ops as [|[host op] ops IH]; intros map answers Hrun Hq; cbn [run_ops] in Hrun.
  - injection Hrun as -> _. done.
  - destruct (memory_op host op map) as (map1 & answer & E). rewrite E in Hrun.
    destruct (run_ops ops (Memory map1)) as [b rest] eqn:Hrest. injection Hrun as -> <-.
    eapply IH; [exact Hrest|]. by eapply op_within_quota.
Qed.

(** C18. Whatever the documents of any number of origins do, no partition of the persistent store
    ever holds more than [MAX_ENTRIES] entries or [MAX_PARTITION_BYTES] bytes of keys and
    values, no key twice, and it can always be listed. *)
Theorem web_storage_within_quota (ops : list (Partitions * StorageOp)) p :
  Forall (λ o, op_ok o.1 o.2) ops → (len ops < 2 ^ 64)%N → valid_partition p →
  ∃ s entries, (run_ops ops (StoreBackend store_open)).1 = StoreBackend s ∧
    storage_entries p s = Ok entries ∧ within_quota entries.
Proof.
  intros Hops Hlen Hp.
  destruct (ops_agree ops 0 ∅ store_open Hops open_agrees) as (map & s & answers & Hm & -> & Ha); [lia|].
  exists s, (default [] (map !! p)). split; [done|]. split.
  - by apply (entries_agree _ map s p Hp) in Ha.
  - eapply ops_within_quota; [exact Hm|]. intros q. rewrite lookup_empty. cbn.
    split_and!; [constructor|done..].
Qed.
End agree.

(** ** Partitions *)

Definition is_digit_char (c : rchar) : Prop := (48 ≤ c ≤ 57)%N.

Lemma pretty_go_digits x s :
  Forall is_digit_char (lit s) → Forall is_digit_char (lit (pretty_N_go x s)).
Proof.
  revert s. induction (N.lt_wf_0 x) as [x _ IH]; intros s Hs.
  assert (x = 0 ∨ 0 < x)%N as [->|Hx] by lia; [by rewrite pretty_N_go_0|].
  rewrite pretty_N_go_step by done. apply IH; [by apply N.div_lt|]. cbn. constructor; [|done].
  unfold pretty_N_char, is_digit_char. repeat case_match; vm_compute; split; congruence.
Qed.

Lemma dec_digits n : Forall is_digit_char (dec n).
Proof.
  unfold dec, pretty, pretty_N. case_decide; [|apply pretty_go_digits; constructor].
  repeat constructor; vm_compute; congruence.
Qed.

Lemma dec_inj n m : dec n = dec m → n = m.
Proof. unfold dec. intros E%lit_inj. by apply (inj pretty). Qed.

(** The origin of a page: opaque, or one of four schemes with a known port. *)
Definition page_origin_ok (o : Origin) : Prop :=
  ∃ u, o = Origin_from_url u ∧ (o_opaque o = false → is_Some (o_port o)).

Lemma tuple_scheme u :
  o_opaque (Origin_from_url u) = false →
  o_scheme (Origin_from_url u) ∈ [lit "http"; lit "https"; lit "ws"; lit "wss"].
Proof.
  unfold Origin_from_url. destruct (uo_host_str u); [|done].
  destruct (_ || _) eqn:E; [|done]. intros _. cbn. rewrite !orb_true_iff, !bool_decide_eq_true in E. set_solver.
Qed.

Lemma origin_partition_key_inj o o' :
  page_origin_ok o → page_origin_ok o' → o_opaque o = false → o_opaque o' = false →
  origin_partition_key o = origin_partition_key o' → o = o'.
Proof.
  intros (u & Eu & Hp) (u' & Eu' & Hp') Ho Ho'. unfold origin_partition_key. rewrite Ho, Ho'.
  destruct (Hp Ho) as [port Eport], (Hp' Ho') as [port' Eport']. rewrite Eport, Eport'. intros E.
  assert (∀ o1 u1, o1 = Origin_from_url u1 → o_opaque o1 = false → 58%N ∉ o_scheme o1) as Hscheme.
  { intros o1 u1 -> H1 Hin. pose proof (tuple_scheme u1 H1) as Hs. clear -Hs Hin. revert Hs Hin.
    generalize (o_scheme (Origin_from_url u1)). intros s Hs Hin.
    repeat (apply elem_of_cons in Hs as [->|Hs]; [vm_compute in Hin; set_solver|]). by apply elem_of_nil in Hs. }
  assert (∀ o1 p1, 58%N ∉ o_scheme o1 → split_once 58 (o_scheme o1 ++ lit "://" ++ o_host o1 ++ lit ":" ++ dec p1) =
    Some (o_scheme o1, lit "//" ++ o_host o1 ++ lit ":" ++ dec p1)) as Hsplit
    by (intros o1 p1 H1; by apply split_once_Some).
  pose proof (Hsplit o port (Hscheme o u Eu Ho)) as S1. rewrite E, (Hsplit o' port' (Hscheme o' u' Eu' Ho')) in S1.
  injection S1 as Es Er.
  assert (∀ h p1, before_last 58 (h ++ lit ":" ++ dec p1) = Some h) as Hlast.
  { intros h p1. apply before_last_Some. exists (dec p1). split; [done|]. intros Hin.
    pose proof (dec_digits p1) as Hd. rewrite Forall_forall in Hd. specialize (Hd _ Hin). unfold is_digit_char in Hd. lia. }
  pose proof (Hlast (o_host o) port) as L1. cbn in L1. rewrite <-Er in L1.
  pose proof (Hlast (o_host o') port') as L2. cbn in L2. rewrite L2 in L1. injection L1 as Eh.
  rewrite Eh in Er. apply app_inv_head in Er. injection Er as Ed%dec_inj. subst port'.
  destruct o as [s h p op], o' as [s' h' p' op']. cbn in *. congruence.
Qed.

Lemma stable_hash_length v : length (stable_storage_hash v) = 16%nat.
Proof. done. Qed.

Lemma partition_key_start o c :
  page_origin_ok o → o_opaque o = false → head (origin_partition_key o) = Some c → c = 104%N ∨ c = 119%N.
Proof.
  intros (u & -> & Hp) Ho. unfold origin_partition_key. rewrite Ho.
  destruct (Hp Ho) as [port ->]. pose proof (tuple_scheme u Ho) as Hs. revert Hs.
  generalize (o_scheme (Origin_from_url u)). intros s Hs.
  repeat (apply elem_of_cons in Hs as [->|Hs]; [cbn; intros [= <-]; tauto|]). by apply elem_of_nil in Hs.
Qed.

Lemma opaque_key_apart q k k' h rest :
  page_origin_ok q → o_opaque q = false →
  lit "storage:" ++ kind_tag k ++ lit ":" ++ origin_partition_key q ++ rest ≠
    lit "storage:" ++ kind_tag k' ++ lit ":opaque:" ++ h.
Proof.
  intros Hq Hf E. assert (origin_partition_key q ++ rest = lit "opaque:" ++ h) as E'.
  { destruct k, k'; cbn in E; by inversion E. }
  destruct (origin_partition_key q) as [|c s] eqn:Ek.
  - unfold origin_partition_key in Ek. rewrite Hf in Ek. destruct Hq as (u & -> & Hp).
    destruct (Hp Hf) as [port Eport]. rewrite Eport in Ek. by destruct (o_scheme _).
  - cbn in E'. injection E' as Ec _. destruct (partition_key_start q c Hq Hf); [by rewrite Ek|lia|lia].
Qed.

Lemma page_opaque_is q : page_origin_ok q → o_opaque q = true → q = Origin_opaque.
Proof. intros (u & -> & _). unfold Origin_from_url. destruct (uo_host_str u); [|done]. by destruct (_ || _). Qed.

(** The key of a document with an origin: [context] is empty for [localStorage]. *)
Definition session_context (kind : StorageKind) (sid : rstr) : rstr :=
  match kind with Local => [] | Session => lit ":context:" ++ stable_storage_hash sid end.

Lemma tuple_key o rk kind sid serial :
  o_opaque o = false →
  web_storage_partition_key (Some (o, rk)) kind sid serial =
    lit "storage:" ++ kind_tag kind ++ lit ":" ++ origin_partition_key o ++ session_context kind sid.
Proof.
  intros Ho. unfold web_storage_partition_key, storage_partition_key, session_context.
  cbn [fmap option_fmap option_map fst snd default sp_kind sp_origin]. cbn. rewrite Ho. cbn [negb].
  destruct kind; [by rewrite app_nil_r|]. cbn [kind_tag]. by rewrite <-!(assoc_L app).
Qed.

Lemma opaque_key o rk kind sid serial :
  o_opaque o = true →
  web_storage_partition_key (Some (o, rk)) kind sid serial =
    lit "storage:" ++ kind_tag kind ++ lit ":opaque:" ++
      stable_storage_hash (sid ++ [10%N] ++ dec serial ++ [10%N] ++ rk).
Proof. intros Ho. unfold web_storage_partition_key. cbn. by rewrite Ho. Qed.

Lemma kind_key_inj k k' r r' :
  lit "storage:" ++ kind_tag k ++ lit ":" ++ r = lit "storage:" ++ kind_tag k' ++ lit ":" ++ r' → k = k' ∧ r = r'.
Proof. destruct k, k'; cbn; intros E; inversion E; done. Qed.

(** Documents of different origins never share a partition, nor do the local and the session
    storage of one origin, nor a document with an origin and one without: two partition keys
    are equal only for the same kind of storage and the same origin, and for session storage
    only if the hashes of the sessions agree as well. *)
Theorem partitions_disjoint o rk o' rk' kind kind' sid sid' serial serial' :
  page_origin_ok o → page_origin_ok o' →
  web_storage_partition_key (Some (o, rk)) kind sid serial =
    web_storage_partition_key (Some (o', rk')) kind' sid' serial' →
  kind = kind' ∧ o = o' ∧
  (kind = Session → o_opaque o = false → stable_storage_hash sid = stable_storage_hash sid').
Proof.
  intros Ho Ho' E. destruct (o_opaque o) eqn:E1, (o_opaque o') eqn:E2;
    rewrite ?(tuple_key o), ?(opaque_key o), ?(tuple_key o'), ?(opaque_key o') in E by done.
  - rewrite (page_opaque_is o Ho E1), (page_opaque_is o' Ho' E2).
    destruct (kind_key_inj kind kind' _ _ E) as [-> _]. done.
  - exfalso. by eapply (opaque_key_apart o').
  - exfalso. by eapply (opaque_key_apart o).
  - apply kind_key_inj in E as [<- E]. split; [done|]. destruct kind; cbn [session_context] in E.
    + rewrite !app_nil_r in E. split; [by apply origin_partition_key_inj|done].
    + rewrite !(assoc_L app) in E. apply app_inj_2 in E as [E Eh]; [|done]. apply app_inv_tail in E.
      split; [by apply origin_partition_key_inj|done].
Qed.

(** ** Witnesses *)

Definition sample_partitions : Partitions :=
  web_storage_partitions (Some (Origin_from_url
    {| uo_scheme := lit "https"; uo_host_str := Some (lit "a.test"); uo_port_or_known_default := Some 443%N |},
    lit "realm")) (lit "session") 0.
Definition sample_ops : list (Partitions * StorageOp) :=
  [(sample_partitions, SSet (lit "local") (lit "k") (lit "1"));
   (sample_partitions, SSet (lit "local") (lit "l") (lit "2"));
   (sample_partitions, SSet (lit "local") (lit "k") (lit "3"));
   (sample_partitions, SKey (lit "local") 0)].

Lemma sample_ops_ok : Forall (λ o, op_ok o.1 o.2) sample_ops.
Proof.
  assert (∀ p, forallb (λ c, c <? 128)%N p = true → has_nul p = false → p ≠ [] → valid_partition p) as Hvalid.
  { intros p Hp Hn Hne. split; [split; [|done]|done]. rewrite forallb_forall in Hp.
    apply Forall_forall. intros c Hin%list_elem_of_In%Hp. apply N.ltb_lt in Hin. apply is_scalar_spec. lia. }
  assert (valid_partition (part_local sample_partitions)) as Hl by (apply Hvalid; vm_compute; done).
  assert (valid_partition (part_session sample_partitions)) as Hs by (apply Hvalid; vm_compute; done).
  unfold sample_ops. repeat apply List.Forall_cons; try apply List.Forall_nil;
    (split; [exact Hl|split; [exact Hs|]]); repeat constructor.
Qed.

Example web_storage_backends_agree_witness :
  Forall (λ o, op_ok o.1 o.2) sample_ops ∧
  (run_ops sample_ops (StoreBackend store_open)).2 = [RespOk; RespOk; RespOk; RespValue (Some (lit "k"))].
Proof.
  split; [exact sample_ops_ok|].
  refine (eq_trans (web_storage_backends_agree sample_ops sample_ops_ok _) _); [done | vm_compute; reflexivity].
Defined.

Example web_storage_within_quota_witness :
  ∃ s entries, (run_ops sample_ops (StoreBackend store_open)).1 = StoreBackend s ∧
    storage_entries (part_local sample_partitions) s = Ok entries ∧ within_quota entries.
Proof.
  apply (web_storage_within_quota sample_ops); [exact sample_ops_ok | done |].
  apply (Forall_inv sample_ops_ok).
Defined.

Definition sample_origin : Origin :=
  Origin_from_url {| uo_scheme := lit "https"; uo_host_str := Some (lit "a.test");
                     uo_port_or_known_default := Some 443%N |}.

Example partitions_disjoint_witness :
  page_origin_ok sample_origin ∧ sample_origin = sample_origin ∧
  web_storage_partition_key (Some (sample_origin, lit "r")) Session (lit "s") 0 ≠
    web_storage_partition_key (Some (sample_origin, lit "r")) Local (lit "s") 0.
Proof.
  assert (page_origin_ok sample_origin) as Ho by (eexists; split; [reflexivity|]; intros _; by eexists).
  split; [exact Ho|]. split; [done|].
  intros E. by destruct (partitions_disjoint _ _ _ _ _ _ _ _ _ _ Ho Ho E).
Defined.

(** [origin.rs] says that an opaque origin never matches any other: the derived equality makes
    all of them equal. *)
Example opaque_origins_are_equal :
  let url scheme := {| uo_scheme := lit scheme; uo_host_str := None; uo_port_or_known_default := None |} in
  Origin_from_url (url "data") = Origin_from_url (url "about").
Proof. reflexivity. Qed.
