(* ===== verification/NetUrl.v ===== *)
(** * URLs at the fetch boundary

    [crates/vixen-net/src/url_policy.rs]: what the fetch code reads of a
    [url::Url], and the policy that every fetch passes (HTTP(S) only, no private host).

    The domain of a parsed URL is ASCII (the [url] crate encodes it), so [str::to_lowercase]
    is [to_ascii_lowercase] on it. *)

From Stdlib Require Import Lia ZArith.
From stdpp Require Import base decidable sets list strings.
From S2P Require Import Prelude.
From S2P Require Import RustStr.
From S2P Require Import Cookie.
From S2P Require Import WebStorage.
From S2P Require Import RustUtf8.

(** A parsed URL: its text, its host, what [Origin::from_url] reads, the port it names and
    its path. *)
Record WebUrl : Type := {
  wu_str : rstr; wu_host : option Host; wu_origin : UrlOrigin; wu_port : option N; wu_path : rstr;
}.
Definition wu_scheme (u : WebUrl) : rstr := uo_scheme (wu_origin u).

Class UrlPlatform : Type := {
  url_parse : rstr → option WebUrl;                (** [Url::parse(..).ok()] *)
  url_join : WebUrl → rstr → option WebUrl;        (** [base.join(..).ok()] *)
  host_to_string : Host → rstr;
  url_same_origin : WebUrl → WebUrl → bool;        (** [a.origin() == b.origin()] *)
  url_origin_ascii : WebUrl → rstr;                (** [origin().ascii_serialization()] *)
  url_for_referrer : WebUrl → rstr;                (** without credentials and fragment *)
}.

Inductive UrlPolicyError : Type :=
| UnsupportedScheme (scheme : rstr)
| BlockedHost (host : rstr).

(** ** Addresses: an IPv4 address is a [u32], an IPv6 address a [u128]. *)

(** [Ipv4Addr::octets()[i]] *)
Definition octet (i : N) (ip : N) : N := N.land (N.shiftr ip (8 * (3 - i))) 255.

(** The tests of [std::net::Ipv4Addr]. *)
Definition v4_is_loopback (ip : N) : bool := (octet 0 ip =? 127)%N.
Definition v4_is_private (ip : N) : bool :=
  ((octet 0 ip =? 10) ||
   ((octet 0 ip =? 172) && (16 <=? octet 1 ip) && (octet 1 ip <=? 31)) ||
   ((octet 0 ip =? 192) && (octet 1 ip =? 168)))%N.
Definition v4_is_link_local (ip : N) : bool := ((octet 0 ip =? 169) && (octet 1 ip =? 254))%N.
Definition v4_is_unspecified (ip : N) : bool := (ip =? 0)%N.
Definition v4_is_broadcast (ip : N) : bool := (ip =? 4294967295)%N.
Definition v4_is_documentation (ip : N) : bool :=
  (((octet 0 ip =? 192) && (octet 1 ip =? 0) && (octet 2 ip =? 2)) ||
   ((octet 0 ip =? 198) && (octet 1 ip =? 51) && (octet 2 ip =? 100)) ||
   ((octet 0 ip =? 203) && (octet 1 ip =? 0) && (octet 2 ip =? 113)))%N.

Definition is_cgnat (ip : N) : bool :=
  ((octet 0 ip =? 100) && (N.land (octet 1 ip) 192 =? 64))%N.

Definition is_private_ipv4 (ip : N) : bool :=
  v4_is_loopback ip || v4_is_private ip || v4_is_link_local ip || v4_is_unspecified ip ||
  v4_is_broadcast ip || v4_is_documentation ip || is_cgnat ip.

(** [Ipv6Addr::segments()[0]], and [Ipv6Addr::to_ipv4_mapped] *)
Definition segment0 (ip : N) : N := N.shiftr ip 112.
Definition to_ipv4_mapped (ip : N) : option N :=
  if (N.shiftr ip 32 =? 65535)%N then Some (N.land ip 4294967295) else None.

Definition is_private_ipv6 (ip : N) : bool :=
  (ip =? 1)%N || (ip =? 0)%N || (N.land (segment0 ip) 65024 =? 64512)%N ||
  (N.land (segment0 ip) 65472 =? 65152)%N ||
  match to_ipv4_mapped ip with Some v4 => is_private_ipv4 v4 | None => false end.

(** [str::ends_with(&str)] *)
Definition ends_with (suffix s : rstr) : bool := bool_decide (suffix `suffix_of` s).

Definition is_private_host (host : Host) : bool :=
  match host with
  | Ipv4 ip => is_private_ipv4 ip
  | Ipv6 ip => is_private_ipv6 ip
  | Domain domain =>
      let lower := to_ascii_lowercase domain in
      bool_decide (lower = lit "localhost") || bool_decide (lower = lit "localhost.localdomain") ||
      ends_with (lit ".local") lower || ends_with (lit ".internal") lower ||
      ends_with (lit ".onion") lower || ends_with (lit ".arpa") lower ||
      ends_with (lit ".test") lower || ends_with (lit ".example") lower ||
      ends_with (lit ".invalid") lower
  end.

Definition validate_http_url `{UrlPlatform} (url : WebUrl) : result UrlPolicyError unit :=
  _ ← throw_if (negb (bool_decide (wu_scheme url = lit "http") || bool_decide (wu_scheme url = lit "https")))
        (UnsupportedScheme (wu_scheme url));
  match wu_host url with
  | Some host => throw_if (is_private_host host) (BlockedHost (host_to_string host))
  | None => Ok tt
  end.

(** * The URL policy: what it blocks

    The octet tests of [url_policy.rs] are membership in address blocks; what passes the
    policy is exactly what is outside of them. *)

(** ** Specification: address blocks in CIDR form *)

Definition v4 (a b c d : N) : N := (((a * 256 + b) * 256 + c) * 256 + d)%N.
Definition in_block (width : N) (ip : N) (block : N * N) : Prop :=
  (block.1 ≤ ip < block.1 + 2 ^ (width - block.2))%N.

Definition private_v4_blocks : list (N * N) :=
  [(v4 127 0 0 0, 8); (v4 10 0 0 0, 8); (v4 172 16 0 0, 12); (v4 192 168 0 0, 16);
   (v4 169 254 0 0, 16); (v4 0 0 0 0, 32); (v4 255 255 255 255, 32); (v4 192 0 2 0, 24);
   (v4 198 51 100 0, 24); (v4 203 0 113 0, 24); (v4 100 64 0 0, 10)]%N.

(** Unspecified, loopback, unique local, link local; and the mapped addresses [::ffff:0:0/96]. *)
Definition private_v6_blocks : list (N * N) :=
  [(0, 128); (1, 128); (64512 * 2 ^ 112, 7); (65152 * 2 ^ 112, 10)]%N.
Definition mapped_base : N := (65535 * 2 ^ 32)%N.

Definition private_v4 (ip : N) : Prop := Exists (in_block 32 ip) private_v4_blocks.
Definition private_v6 (ip : N) : Prop :=
  Exists (in_block 128 ip) private_v6_blocks ∨
  ∃ v4, (ip = mapped_base + v4 ∧ v4 < 2 ^ 32)%N ∧ private_v4 v4.

Definition reserved_names : list rstr :=
  [lit ".local"; lit ".internal"; lit ".onion"; lit ".arpa"; lit ".test"; lit ".example"; lit ".invalid"].
Definition private_name (name : rstr) : Prop :=
  name = lit "localhost" ∨ name = lit "localhost.localdomain" ∨ Exists (λ s, s `suffix_of` name) reserved_names.

Definition private (host : Host) : Prop :=
  match host with
  | Ipv4 ip => private_v4 ip
  | Ipv6 ip => private_v6 ip
  | Domain name => private_name (to_ascii_lowercase name)
  end.
Definition host_in_range (host : Host) : Prop :=
  match host with Ipv4 ip => (ip < 2 ^ 32)%N | Ipv6 ip => (ip < 2 ^ 128)%N | Domain _ => True end.

(** ** Bytes *)

Lemma octets a b c d :
  (a < 256 → b < 256 → c < 256 → d < 256 →
   octet 0 (v4 a b c d) = a ∧ octet 1 (v4 a b c d) = b ∧ octet 2 (v4 a b c d) = c ∧ octet 3 (v4 a b c d) = d)%N.
Proof.
  intros Ha Hb Hc Hd. unfold octet, v4. change 255%N with (N.ones 8). rewrite !N.land_ones, !N.shiftr_div_pow2.
  change (2 ^ (8 * (3 - 0)))%N with 16777216%N. change (2 ^ (8 * (3 - 1)))%N with 65536%N.
  change (2 ^ (8 * (3 - 2)))%N with 256%N. change (2 ^ (8 * (3 - 3)))%N with 1%N. change (2 ^ 8)%N with 256%N.
  rewrite <-(N.div_unique (((a * 256 + b) * 256 + c) * 256 + d) 16777216 a (b * 65536 + c * 256 + d)),
    <-(N.div_unique (((a * 256 + b) * 256 + c) * 256 + d) 65536 (a * 256 + b) (c * 256 + d)),
    <-(N.div_unique (((a * 256 + b) * 256 + c) * 256 + d) 256 ((a * 256 + b) * 256 + c) d) by lia.
  rewrite N.div_1_r. rewrite !(N.add_comm (_ * 256)%N), !N.Div0.mod_add, !N.mod_small by done. done.
Qed.

Lemma v4_split ip : (ip < 2 ^ 32)%N → ∃ a b c d, (a < 256 ∧ b < 256 ∧ c < 256 ∧ d < 256)%N ∧ ip = v4 a b c d.
Proof.
  intros Hip. change (2 ^ 32)%N with 4294967296%N in Hip.
  assert (∀ n, ∃ q r, n = 256 * q + r ∧ r < 256)%N as Hdiv.
  { intros n. exists (n / 256)%N, (n mod 256)%N. split; [by apply N.div_mod|by apply N.mod_lt]. }
  destruct (Hdiv ip) as (q0 & d & -> & Hd), (Hdiv q0) as (q1 & c & -> & Hc), (Hdiv q1) as (a & b & -> & Hb).
  exists a, b, c, d. unfold v4. lia.
Qed.

Lemma cgnat_byte b : (b < 256)%N → (N.land b 192 =? 64)%N = ((64 <=? b) && (b <? 128))%N.
Proof.
  intros Hb. apply Bool.eqb_prop.
  apply (for_all_bytes (λ b, Bool.eqb (N.land b 192 =? 64)%N ((64 <=? b) && (b <? 128))%N)); [|done].
  vm_compute. reflexivity.
Qed.

(** A mask of the high bits of a 16-bit word. *)
Lemma mask_word (m v k q s : N) :
  m = N.ldiff (N.ones 16) (N.ones k) → v = (q * 2 ^ k)%N → (s < 2 ^ 16)%N →
  N.land s m = v ↔ (q * 2 ^ k ≤ s < (q + 1) * 2 ^ k)%N.
Proof.
  intros -> -> Hs. assert (N.land s (N.ldiff (N.ones 16) (N.ones k)) = s / 2 ^ k * 2 ^ k)%N as ->.
  { transitivity (N.ldiff (N.land s (N.ones 16)) (N.ones k)).
    - apply N.bits_inj. intros i. rewrite N.land_spec, !N.ldiff_spec, N.land_spec. by rewrite andb_assoc.
    - by rewrite N.land_ones, N.mod_small, N.ldiff_ones_r, N.shiftr_div_pow2, N.shiftl_mul_pow2 by done. }
  assert (0 < 2 ^ k)%N as Hk by (apply N.neq_0_lt_0, N.pow_nonzero; done). revert Hk. generalize (2 ^ k)%N. intros p Hp.
  pose proof (N.div_mod s p ltac:(lia)) as E. pose proof (N.mod_lt s p ltac:(lia)) as Hr. revert E Hr.
  generalize (s / p)%N, (s mod p)%N. intros x r -> Hr. split.
  - intros Hx%N.mul_cancel_r; [subst; nia|lia].
  - intros [H1 H2]. f_equal. assert (q < x + 1)%N by nia. assert (x < q + 1)%N by nia. lia.
Qed.

(** ** The tests are block membership *)

Section blocks.
Context (a b c d : N) (Ha : (a < 256)%N) (Hb : (b < 256)%N) (Hc : (c < 256)%N) (Hd : (d < 256)%N).

Lemma block_8 x : in_block 32 (v4 a b c d) (v4 x 0 0 0, 8%N) ↔ a = x.
Proof. unfold in_block, v4. cbn [fst snd]. change (2 ^ (32 - 8))%N with 16777216%N. lia. Qed.
Lemma block_16 x y : (y < 256)%N → in_block 32 (v4 a b c d) (v4 x y 0 0, 16%N) ↔ a = x ∧ b = y.
Proof. unfold in_block, v4. cbn [fst snd]. change (2 ^ (32 - 16))%N with 65536%N. lia. Qed.
Lemma block_12 x y : (y ≤ 240)%N → in_block 32 (v4 a b c d) (v4 x y 0 0, 12%N) ↔ ((a = x ∧ y ≤ b) ∧ b ≤ y + 15)%N.
Proof. unfold in_block, v4. cbn [fst snd]. change (2 ^ (32 - 12))%N with 1048576%N. lia. Qed.
Lemma block_10 x y : (y ≤ 192)%N → in_block 32 (v4 a b c d) (v4 x y 0 0, 10%N) ↔ (a = x ∧ (y ≤ b ∧ b < y + 64))%N.
Proof. unfold in_block, v4. cbn [fst snd]. change (2 ^ (32 - 10))%N with 4194304%N. lia. Qed.
Lemma block_24 x y z : (y < 256)%N → (z < 256)%N → in_block 32 (v4 a b c d) (v4 x y z 0, 24%N) ↔ (a = x ∧ b = y) ∧ c = z.
Proof. unfold in_block, v4. cbn [fst snd]. change (2 ^ (32 - 24))%N with 256%N. lia. Qed.
Lemma block_32 x : in_block 32 (v4 a b c d) (x, 32%N) ↔ v4 a b c d = x.
Proof. unfold in_block, v4. cbn [fst snd]. change (2 ^ (32 - 32))%N with 1%N. lia. Qed.
End blocks.

Lemma is_private_ipv4_spec ip : (ip < 2 ^ 32)%N → is_private_ipv4 ip = true ↔ private_v4 ip.
Proof.
  intros Hip. destruct (v4_split ip Hip) as (a & b & c & d & (Ha & Hb & Hc & Hd) & ->).
  destruct (octets a b c d Ha Hb Hc Hd) as (E0 & E1 & E2 & E3).
  unfold is_private_ipv4, v4_is_loopback, v4_is_private, v4_is_link_local, v4_is_unspecified,
    v4_is_broadcast, v4_is_documentation, is_cgnat. rewrite !E0, !E1, !E2, cgnat_byte by done.
  rewrite !orb_true_iff, !andb_true_iff, !N.eqb_eq, !N.leb_le, N.ltb_lt.
  unfold private_v4, private_v4_blocks. rewrite !Exists_cons, Exists_nil.
  rewrite !block_8, block_12, !block_16, !block_32, !block_24, block_10 by done.
  change (16 + 15)%N with 31%N. change (64 + 64)%N with 128%N.
  change (v4 0 0 0 0) with 0%N. change (v4 255 255 255 255) with 4294967295%N. tauto.
Qed.

Lemma segment0_block ip lo hi :
  (ip < 2 ^ 128)%N → ((lo ≤ segment0 ip < hi) ↔ (lo * 2 ^ 112 ≤ ip < hi * 2 ^ 112))%N.
Proof.
  intros Hip. unfold segment0. rewrite N.shiftr_div_pow2. generalize (2 ^ 112)%N (eq_refl : (0 < 2 ^ 112)%N).
  intros m Hm. split.
  - intros [Hl Hh]. pose proof (N.Div0.mul_div_le ip m). pose proof (N.mul_succ_div_gt ip m). nia.
  - intros [Hl Hh]. split; [apply N.div_le_lower_bound; [lia|nia]|apply N.Div0.div_lt_upper_bound; nia].
Qed.

Lemma to_ipv4_mapped_Some ip v4 :
  to_ipv4_mapped ip = Some v4 ↔ (ip = mapped_base + v4 ∧ v4 < 2 ^ 32)%N.
Proof.
  unfold to_ipv4_mapped, mapped_base. rewrite N.shiftr_div_pow2. change 4294967295%N with (N.ones 32).
  rewrite N.land_ones. change (2 ^ 32)%N with 4294967296%N.
  change (65535 * 4294967296)%N with 281470681743360%N.
  pose proof (N.mod_lt ip 4294967296 ltac:(done)) as Hr. pose proof (N.div_mod ip 4294967296 ltac:(done)) as Hip.
  revert Hr Hip. generalize (ip / 4294967296)%N, (ip mod 4294967296)%N. intros q r Hr Hip.
  destruct (N.eqb_spec q 65535) as [E|E]; (split; [intros [= <-]|intros [H1 H2]; f_equal]); lia.
Qed.

Lemma is_private_ipv6_spec ip : (ip < 2 ^ 128)%N → is_private_ipv6 ip = true ↔ private_v6 ip.
Proof.
  intros Hip. unfold is_private_ipv6. assert (segment0 ip < 65536)%N as Hs.
  { unfold segment0. rewrite N.shiftr_div_pow2. apply N.Div0.div_lt_upper_bound.
    change (2 ^ 112 * 65536)%N with (2 ^ 128)%N. done. }
  rewrite !orb_true_iff, !N.eqb_eq, (mask_word 65024 64512 9 126), (mask_word 65472 65152 6 1018) by done.
  rewrite !segment0_block by done.
  unfold private_v6, private_v6_blocks. rewrite !Exists_cons, Exists_nil. unfold in_block. cbn [fst snd].
  change ((126 + 1) * 2 ^ 9 * 2 ^ 112)%N with (64512 * 2 ^ 112 + 2 ^ (128 - 7))%N.
  change ((1018 + 1) * 2 ^ 6 * 2 ^ 112)%N with (65152 * 2 ^ 112 + 2 ^ (128 - 10))%N.
  assert (match to_ipv4_mapped ip with Some w => is_private_ipv4 w | None => false end = true ↔
    ∃ w, (ip = mapped_base + w ∧ w < 2 ^ 32)%N ∧ private_v4 w) as ->.
  { setoid_rewrite <-to_ipv4_mapped_Some. destruct (to_ipv4_mapped ip) as [w|] eqn:E.
    - apply to_ipv4_mapped_Some in E as [_ Hw]. rewrite is_private_ipv4_spec by done. naive_solver.
    - naive_solver. }
  change (126 * 2 ^ 9)%N with 64512%N. change (1018 * 2 ^ 6)%N with 65152%N.
  change (2 ^ (128 - 128))%N with 1%N. rewrite N.add_0_l.
  assert (∀ x, (x ≤ ip < x + 1)%N ↔ ip = x) as Hone by lia. rewrite (Hone 0%N), (Hone 1%N). tauto.
Qed.

Lemma is_private_host_spec host : host_in_range host → is_private_host host = true ↔ private host.
Proof.
  destruct host as [name|ip|ip]; cbn [host_in_range is_private_host private]; intros Hr;
    [|by apply is_private_ipv4_spec|by apply is_private_ipv6_spec].
  unfold private_name, reserved_names, ends_with. rewrite !Exists_cons, Exists_nil, !orb_true_iff, !bool_decide_eq_true.
  tauto.
Qed.

(** C19. What may be fetched: the policy accepts exactly the [http] and [https] URLs whose host is
    outside the private and reserved address blocks (mapped IPv4 addresses included) and is
    not one of the reserved names, in any case. *)
Theorem url_policy_exact `{UrlPlatform} url :
  (∀ host, wu_host url = Some host → host_in_range host) →
  validate_http_url url = Ok tt ↔
    (wu_scheme url = lit "http" ∨ wu_scheme url = lit "https") ∧
    ∀ host, wu_host url = Some host → ¬ private host.
Proof.
  intros Hr. unfold validate_http_url. rewrite bind_unit_Ok, throw_if_Ok, negb_false_iff, orb_true_iff, !bool_decide_eq_true.
  destruct (wu_host url) as [host|]; [|naive_solver].
  rewrite throw_if_Ok, <-not_true_iff_false, is_private_host_spec by auto. naive_solver.
Qed.

#[export] Instance no_urls : UrlPlatform := {|
  url_parse := λ _, None; url_join := λ _ _, None; host_to_string := λ _, []; url_same_origin := λ _ _, false;
  url_origin_ascii := λ _, []; url_for_referrer := λ _, [] |}.

Definition http_url (host : Host) : WebUrl :=
  {| wu_str := []; wu_host := Some host;
     wu_origin := {| uo_scheme := lit "http"; uo_host_str := None; uo_port_or_known_default := None |};
     wu_port := None; wu_path := [47%N] |}.

(** The mapped form of a CGNAT address is refused, the address after the block is not. *)
Example url_policy_exact_witness :
  (∀ host, wu_host (http_url (Ipv6 (mapped_base + v4 100 64 0 1))) = Some host → host_in_range host) ∧
  validate_http_url (http_url (Ipv6 (mapped_base + v4 100 64 0 1))) ≠ Ok tt ∧
  validate_http_url (http_url (Ipv4 (v4 100 128 0 0))) = Ok tt.
Proof.
  assert (∀ host, wu_host (http_url (Ipv6 (mapped_base + v4 100 64 0 1))) = Some host → host_in_range host) as Hr
    by (intros host [= <-]; vm_compute; reflexivity).
  split; [exact Hr|]. split; [|reflexivity].
  intros [_ Hp]%(url_policy_exact _ Hr). apply (Hp _ eq_refl). right. exists (v4 100 64 0 1).
  split; [split; vm_compute; reflexivity|]. apply is_private_ipv4_spec; vm_compute; reflexivity.
Defined.

(** Names that reach the local machine and pass: a trailing dot is part of the name, and the
    names below [localhost] are not reserved. *)
Example localhost_with_a_dot_is_public :
  validate_http_url (http_url (Domain (lit "localhost."))) = Ok tt ∧
  validate_http_url (http_url (Domain (lit "app.localhost"))) = Ok tt ∧
  validate_http_url (http_url (Domain (lit "printer.local."))) = Ok tt.
Proof. repeat split. Qed.
