(* ===== verification/HttpCache.v ===== *)
(** * The private HTTP cache

    [crates/vixen-engine/src/http_cache.rs], definitions only: when a stored response may be
    reused ([cache_use]), what is stored ([cache_entry]), which variant is chosen
    ([select_variant]), and the aliases of permanent redirects; and how
    [crates/vixen-engine/src/script/webapi.rs] looks a response up, stores one and merges a
    304.

    A [BTreeMap<String, String>] is the list of its entries in the order of the keys.
    [httpdate] is a parameter: seconds since the epoch. *)

From Stdlib Require Import Lia ZArith.
From stdpp Require Import base decidable sets list strings.
From S2P Require Import Prelude.
From S2P Require Import RustStr.
From S2P Require Import RustUtf8.
From S2P Require Import RustMap.
From S2P Require Import Cookie.
From S2P Require Import Store.
From S2P Require Import WebStorage.
From S2P Require Import NetUrl.

(** ** Network events ([crates/vixen-net/src/fetch_types.rs]) *)

Inductive NetworkEvent : Type :=
| EvRequestStart (url : rstr) (method : Method)
| EvRedirect (from to : rstr) (status : N)
| EvResponse (url : rstr) (status : N)
| EvBodyProgress (url : rstr) (chunk_bytes loaded_bytes : N) (total_bytes : option N)
| EvCompleted (url : rstr) (body_bytes : N).

(** ** Headers *)

(** A [BTreeMap<String, String>]. *)
Abbreviation HeaderMap := (list (rstr * rstr)) (only parsing).

Definition ignore_case (a b : rstr) : bool := bool_decide (to_ascii_lowercase a = to_ascii_lowercase b).

(** [header] and [map_header]: the first name that agrees up to case. *)
Definition header (headers : HeaderMap) (wanted : rstr) : option rstr :=
  snd ∘ snd <$> list_find (λ nv, ignore_case nv.1 wanted = true) headers.

(** ** Directives *)

(** 44 is the comma, 61 the equals sign, 34 the double quote. *)
Definition parse_item (item : rstr) : rstr * option rstr :=
  match split_once 61 item with
  | Some (name, value) => (trim name, Some (trim value))
  | None => (trim item, None)
  end.
Definition items (value : rstr) : list (rstr * option rstr) := parse_item <$> split_char 44 value.

Definition directive (value wanted : rstr) : option (option rstr) :=
  snd ∘ snd <$> list_find (λ nv, ignore_case nv.1 wanted = true) (items value).
Definition has_directive (value : option rstr) (wanted : rstr) : bool :=
  match value with Some value => bool_decide (is_Some (directive value wanted)) | None => false end.
Definition cache_control_has (headers : HeaderMap) (wanted : rstr) : bool :=
  has_directive (header headers (lit "cache-control")) wanted.
Definition cache_control_has_map (headers : HeaderMap) (wanted : rstr) : bool :=
  has_directive (map_get headers (lit "cache-control")) wanted.

(** [str::parse::<u64>]: an optional plus sign, then digits, within the width. *)
Definition parse_u64 (s : rstr) : option N :=
  let s := default s (strip_prefix_char 43 s) in
  match s with
  | [] => None
  | _ => if forallb is_digit s && (digits_value s <=? Z.of_N u64_max)%Z then Some (Z.to_N (digits_value s)) else None
  end.
Definition trim_quotes (s : rstr) : rstr :=
  trim_end_matches (λ c, bool_decide (c = 34%N)) (trim_start_matches (λ c, bool_decide (c = 34%N)) s).

Inductive SecondsDirective : Type := SecondsAbsent | SecondsValue (n : N) | SecondsInvalid.

Fixpoint seconds_loop (wanted : rstr) (found : option N) (l : list (rstr * option rstr)) : SecondsDirective :=
  match l with
  | [] => match found with Some n => SecondsValue n | None => SecondsAbsent end
  | (name, value) :: l =>
      if ignore_case name wanted then
        match (value ← value; parse_u64 (trim_quotes value)) with
        | None => SecondsInvalid
        | Some seconds =>
            match found with
            | Some previous => if (previous =? seconds)%N then seconds_loop wanted (Some seconds) l else SecondsInvalid
            | None => seconds_loop wanted (Some seconds) l
            end
        end
      else seconds_loop wanted found l
  end.
Definition seconds_directive (value : option rstr) (wanted : rstr) : SecondsDirective :=
  match value with Some value => seconds_loop wanted None (items value) | None => SecondsAbsent end.

Fixpoint max_stale_loop (staleness : N) (found : bool) (maximum : option N)
    (l : list (rstr * option rstr)) : bool :=
  match l with
  | [] => found && match maximum with Some maximum => (staleness <=? maximum)%N | None => false end
  | (name, value) :: l =>
      if ignore_case name (lit "max-stale") then
        match value with
        | None => true
        | Some value =>
            match parse_u64 (trim_quotes value) with
            | None => false
            | Some seconds =>
                max_stale_loop staleness true (Some (match maximum with Some m => N.min m seconds | None => seconds end)) l
            end
        end
      else max_stale_loop staleness found maximum l
  end.
Definition max_stale_allows (cache_control : option rstr) (staleness : N) : bool :=
  match cache_control with
  | Some value => max_stale_loop staleness false None (items value)
  | None => false
  end.

(** ** Vary *)

Definition MAX_VARY_FIELDS : nat := 32.
Definition MAX_VARY_NAME_BYTES : N := 256.
Definition MAX_VARY_VALUES_BYTES : N := 65536.

Definition is_tchar (b : N) : bool :=
  ((48 <=? b) && (b <=? 57) || (65 <=? b) && (b <=? 90) || (97 <=? b) && (b <=? 122) ||
   (b =? 33) || (b =? 35) || (b =? 36) || (b =? 37) || (b =? 38) || (b =? 39) || (b =? 42) || (b =? 43) ||
   (b =? 45) || (b =? 46) || (b =? 94) || (b =? 95) || (b =? 96) || (b =? 124) || (b =? 126))%N.
Definition valid_header_name (name : rstr) : bool :=
  negb (is_empty_str name) && (str_len name <=? MAX_VARY_NAME_BYTES)%N && forallb is_tchar (utf8 name).

(** [names] are the distinct names so far, which are also the set [seen]. *)
Fixpoint vary_loop (names : list rstr) (fields : list rstr) : option (list rstr) :=
  match fields with
  | [] => Some names
  | field :: fields =>
      let name := to_ascii_lowercase (trim field) in
      if bool_decide (name = lit "*") || negb (valid_header_name name) then None
      else if bool_decide (name ∈ names) then vary_loop names fields
      else if (MAX_VARY_FIELDS <=? length names)%nat then None
      else vary_loop (names ++ [name]) fields
  end.
Definition vary_names (value : option rstr) : option (list rstr) :=
  match value with Some value => vary_loop [] (split_char 44 value) | None => Some [] end.

Definition stored_vary (name : rstr) (vary : list (rstr * option rstr)) : option (option rstr) :=
  snd ∘ snd <$> list_find (λ nv, nv.1 = name) vary.

Definition vary_matches (entry : CacheEntry) (request_headers : HeaderMap) : bool :=
  match vary_names (header (ce_headers entry) (lit "vary")) with
  | None => false
  | Some [] => bool_decide (ce_vary_headers entry = [])
  | Some names =>
      if negb (length (ce_vary_headers entry) =? length names)%nat then false
      else forallb (λ name,
             match stored_vary name (ce_vary_headers entry) with
             | Some value => bool_decide (value = map_get request_headers name)
             | None => false
             end) names
  end.

Fixpoint capture_loop (request_headers : HeaderMap) (total : N) (captured : list (rstr * option rstr))
    (names : list rstr) : option (list (rstr * option rstr)) :=
  match names with
  | [] => Some captured
  | name :: names =>
      let value := map_get request_headers name in
      total ← checked_add total (from_option str_len 0%N value);
      if (MAX_VARY_VALUES_BYTES <? total)%N then None
      else capture_loop request_headers total (captured ++ [(name, value)]) names
  end.
Definition capture_vary (value : option rstr) (request_headers : HeaderMap) :
    option (list (rstr * option rstr)) :=
  names ← vary_names value; capture_loop request_headers 0%N [] names.

(** ** Reuse *)

Inductive CacheUse : Type := Fresh | Stale | Unusable.
#[export] Instance CacheUse_eq_dec : EqDecision CacheUse.
Proof. solve_decision. Defined.

(** [i64::saturating_sub] *)
Definition i64_saturating_sub (a b : Z) : Z := (i64_min `max` ((a - b) `min` i64_max))%Z.
Definition non_negative (z : Z) : N := Z.to_N (Z.max z 0).
Definition u64_saturating_add (a b : N) : N := N.min (a + b) u64_max.

Definition is_success (status : N) : bool := ((200 <=? status) && (status <? 300))%N.

Class HttpDate : Type := { parse_http_date : rstr → option Z }.

Section cache.
Context `{HttpDate, StorePlatform, UrlPlatform}.

(** The seconds of a [SystemTime] as an [i64], both sides of the epoch. *)
Definition http_date_unix (value : rstr) : option Z :=
  seconds ← parse_http_date value;
  if bool_decide (Z.abs seconds ≤ i64_max)%Z then Some seconds else None.

Definition date_value (entry : CacheEntry) : Z :=
  default (ce_fetched_unix entry) (value ← header (ce_headers entry) (lit "date"); http_date_unix value).

Definition age_value (entry : CacheEntry) : N :=
  match header (ce_headers entry) (lit "age") with
  | Some value => default u64_max (parse_u64 (trim value))
  | None => 0
  end.

Definition current_age (entry : CacheEntry) (now_unix : Z) : N :=
  let apparent_age := non_negative (i64_saturating_sub (ce_fetched_unix entry) (date_value entry)) in
  u64_saturating_add (N.max apparent_age (age_value entry))
    (non_negative (i64_saturating_sub now_unix (ce_fetched_unix entry))).

Definition freshness_lifetime (entry : CacheEntry) : option N :=
  match seconds_directive (header (ce_headers entry) (lit "cache-control")) (lit "max-age") with
  | SecondsValue seconds => Some seconds
  | SecondsAbsent =>
      expires ← (value ← header (ce_headers entry) (lit "expires"); http_date_unix value);
      Some (non_negative (i64_saturating_sub expires (date_value entry)))
  | SecondsInvalid => None
  end.

Definition unusable (entry : CacheEntry) (request_headers : HeaderMap) (max_body_bytes : N) : bool :=
  negb (is_success (ce_status entry)) || (max_body_bytes <? len (ce_body entry))%N ||
  cache_control_has (ce_headers entry) (lit "no-store") ||
  has_directive (header request_headers (lit "cache-control")) (lit "no-store") ||
  negb (vary_matches entry request_headers).

Definition must_check (entry : CacheEntry) (request_headers : HeaderMap) : bool :=
  let request_cache_control := header request_headers (lit "cache-control") in
  cache_control_has (ce_headers entry) (lit "no-cache") ||
  has_directive request_cache_control (lit "no-cache") ||
  (bool_decide (request_cache_control = None) &&
   has_directive (header request_headers (lit "pragma")) (lit "no-cache")).

(** The subtraction [current_age - freshness_lifetime] is only reached when it cannot
    underflow. *)
Definition cache_use (entry : CacheEntry) (request_headers : HeaderMap) (now_unix : Z)
    (max_body_bytes : N) : CacheUse :=
  let request_cache_control := header request_headers (lit "cache-control") in
  if unusable entry request_headers max_body_bytes then Unusable
  else if must_check entry request_headers then Stale
  else
    let age := current_age entry now_unix in
    match freshness_lifetime entry with
    | None => Stale
    | Some lifetime =>
        match seconds_directive request_cache_control (lit "max-age") with
        | SecondsInvalid => Stale
        | request_max_age =>
            if match request_max_age with SecondsValue limit => (limit <=? age)%N | _ => false end then Stale
            else
              match seconds_directive request_cache_control (lit "min-fresh") with
              | SecondsInvalid => Stale
              | request_min_fresh =>
                  if match request_min_fresh with
                     | SecondsValue required => (lifetime <=? u64_saturating_add age required)%N
                     | _ => false
                     end then Stale
                  else if (age <? lifetime)%N ||
                          (negb (cache_control_has (ce_headers entry) (lit "must-revalidate")) &&
                           max_stale_allows request_cache_control (age - lifetime)%N)
                  then Fresh else Stale
              end
        end
    end.

Definition cache_entry (status : N) (headers : HeaderMap) (body : list N) (request_headers : HeaderMap)
    (fetched_unix : Z) : option CacheEntry :=
  if negb (is_success status) || cache_control_has_map headers (lit "no-store") ||
     has_directive (header request_headers (lit "cache-control")) (lit "no-store")
  then None
  else
    vary_headers ← capture_vary (map_get headers (lit "vary")) request_headers;
    Some {| ce_status := status; ce_headers := headers; ce_body := body; ce_fetched_unix := fetched_unix;
            ce_vary_headers := vary_headers |}.

Definition has_validator (entry : CacheEntry) : bool :=
  bool_decide (is_Some (header (ce_headers entry) (lit "etag"))) ||
  bool_decide (is_Some (header (ce_headers entry) (lit "last-modified"))).

Definition usable_rank (u : CacheUse) : N := match u with Fresh => 1 | Stale | Unusable => 0 end.
(** The order of the keys [(fetched_unix, usable_rank)]. *)
Definition variant_le (a b : CacheEntry * CacheUse) : bool :=
  (ce_fetched_unix a.1 <? ce_fetched_unix b.1)%Z ||
  ((ce_fetched_unix a.1 =? ce_fetched_unix b.1)%Z && (usable_rank a.2 <=? usable_rank b.2)%N).

Definition select_variant (entries : list CacheEntry) (request_headers : HeaderMap) (now_unix : Z)
    (max_body_bytes : N) : option (CacheEntry * CacheUse) :=
  max_by variant_le
    (filter (λ eu, eu.2 ≠ Unusable)
       ((λ entry, (entry, cache_use entry request_headers now_unix max_body_bytes)) <$> entries)).

(** ** Redirect aliases *)

Record ResolvedCacheAlias : Type := { final_url : WebUrl; alias_hops : list CacheRedirectHop }.

Fixpoint hop_events (current : rstr) (hops : list CacheRedirectHop) : list NetworkEvent :=
  match hops with
  | [] => []
  | hop :: hops =>
      EvRedirect current (hop_to hop) (hop_status hop) :: EvRequestStart (hop_to hop) Get ::
      hop_events (hop_to hop) hops
  end.
Definition alias_events (self : ResolvedCacheAlias) (original_url : WebUrl) (status body_bytes : N) :
    list NetworkEvent :=
  let final := wu_str (final_url self) in
  EvRequestStart (wu_str original_url) Get :: hop_events (wu_str original_url) (alias_hops self) ++
  [EvResponse final status; EvBodyProgress final body_bytes body_bytes (Some body_bytes);
   EvCompleted final body_bytes].

Inductive CacheError : Type := CacheStoreError (e : StoreError) | CacheUrlError.

Definition is_permanent (status : N) : bool := ((status =? 301) || (status =? 308))%N.

(** The loop over the hops; [None] is the early return of [Ok(None)]. *)
Fixpoint resolve_hops (origin : Origin) (visited : list rstr) (current : WebUrl)
    (hops : list CacheRedirectHop) : result CacheError (option WebUrl) :=
  match hops with
  | [] => Ok (Some current)
  | hop :: hops =>
      if negb (is_permanent (hop_status hop)) then Ok None
      else match url_parse (hop_to hop) with
           | None => Err CacheUrlError
           | Some target =>
               if negb (is_ok (validate_http_url target)) ||
                  negb (bool_decide (Origin_from_url (wu_origin target) = origin)) ||
                  bool_decide (wu_str target ∈ visited)
               then Ok None
               else resolve_hops origin (wu_str target :: visited) target hops
           end
  end.

Definition resolve_redirect_alias (url : WebUrl) (s : Store) :
    result CacheError (option ResolvedCacheAlias) :=
  let origin := Origin_from_url (wu_origin url) in
  match cache_alias (origin_partition_key origin) (wu_str url) s with
  | Err e => Err (CacheStoreError e)
  | Ok None => Ok None
  | Ok (Some alias) =>
      final ← resolve_hops origin [wu_str url] url (ca_hops alias);
      Ok (match final with
          | Some final => Some {| final_url := final; alias_hops := ca_hops alias |}
          | None => None
          end)
  end.

Definition event_redirect (e : NetworkEvent) : option (rstr * CacheRedirectHop) :=
  match e with
  | EvRedirect from to status => Some (from, {| hop_to := to; hop_status := status |})
  | _ => None
  end.

(** [redirects.iter().all(..)] with the captured [current], which is its result too. *)
Fixpoint chain_safe (origin : Origin) (current : rstr) (redirects : list (rstr * CacheRedirectHop)) :
    option rstr :=
  match redirects with
  | [] => Some current
  | (from, hop) :: redirects =>
      if bool_decide (from = current) && is_permanent (hop_status hop) &&
         match url_parse (hop_to hop) with
         | Some target => bool_decide (Origin_from_url (wu_origin target) = origin)
         | None => false
         end
      then chain_safe origin (hop_to hop) redirects
      else None
  end.

(** [for index in 0..redirects.len()]: each suffix of the chain is the alias of its start. *)
Fixpoint put_aliases (origin_key : rstr) (fetched_unix : Z) (redirects : list (rstr * CacheRedirectHop))
    (s : Store) : Store * result StoreError unit :=
  match redirects with
  | [] => (s, Ok tt)
  | (from, hop) :: redirects' =>
      match put_cache_alias origin_key from
              {| ca_hops := snd <$> redirects; ca_fetched_unix := fetched_unix |} s with
      | Ok s => put_aliases origin_key fetched_unix redirects' s
      | Err e => (s, Err e)
      end
  end.

Fixpoint delete_aliases (origin_key : rstr) (redirects : list (rstr * CacheRedirectHop)) (s : Store) :
    Store * result StoreError unit :=
  match redirects with
  | [] => (s, Ok tt)
  | (from, _) :: redirects =>
      match delete_cache_alias origin_key from s with
      | Ok s => delete_aliases origin_key redirects s
      | Err e => (s, Err e)
      end
  end.

(** [store.delete_cache_alias(..)] as the last call. *)
Definition delete_alias (origin_key url : rstr) (s : Store) : Store * result StoreError unit :=
  match delete_cache_alias origin_key url s with Ok s => (s, Ok tt) | Err e => (s, Err e) end.

(** The store that is left, also when a later write fails. *)
Definition persist_redirect_aliases (original_url final : WebUrl) (events : list NetworkEvent)
    (redirect_aliasable : bool) (fetched_unix : Z) (s : Store) : Store * result StoreError unit :=
  let origin := Origin_from_url (wu_origin original_url) in
  let origin_key := origin_partition_key origin in
  let redirects := omap event_redirect events in
  match redirects with
  | [] => delete_alias origin_key (wu_str original_url) s
  | _ =>
      if redirect_aliasable &&
         bool_decide (chain_safe origin (wu_str original_url) redirects = Some (wu_str final))
      then
        match put_aliases origin_key fetched_unix redirects s with
        | (s, Ok _) => delete_alias origin_key (wu_str final) s
        | (s, Err e) => (s, Err e)
        end
      else delete_aliases origin_key redirects s
  end.

(** ** The cache of [fetch()] ([webapi.rs]) *)

Record TextResponse : Type := {
  tr_body : rstr; tr_headers : HeaderMap; tr_status : N; tr_final_url : rstr; tr_set_cookie : list rstr;
  tr_redirects : N; tr_events : list NetworkEvent; tr_request_headers : HeaderMap; tr_redirect_aliasable : bool;
}.

(** [TextResponse::header] *)
Definition response_header (self : TextResponse) (name : rstr) : option rstr :=
  map_get (tr_headers self) (to_ascii_lowercase name).

Definition add_validator (name stored : rstr) (cached : TextResponse) (headers : HeaderMap) : HeaderMap :=
  if existsb (λ nv, ignore_case nv.1 name) headers then headers
  else match response_header cached stored with
       | Some value => headers ++ [(name, value)]
       | None => headers
       end.
Definition add_cache_revalidation_headers (headers : HeaderMap) (cached : TextResponse) : HeaderMap :=
  add_validator (lit "if-modified-since") (lit "last-modified") cached
    (add_validator (lit "if-none-match") (lit "etag") cached headers).

Definition revalidated_response (response : TextResponse) (cached : option TextResponse) : TextResponse :=
  if negb (tr_status response =? 304)%N then response
  else match cached with
       | None => response
       | Some cached =>
           {| tr_body := tr_body cached;
              tr_headers := foldl (λ h nv, map_insert nv.1 nv.2 h) (tr_headers cached) (tr_headers response);
              tr_status := tr_status cached; tr_final_url := tr_final_url response;
              tr_set_cookie := tr_set_cookie response; tr_redirects := tr_redirects response;
              tr_events := tr_events response; tr_request_headers := tr_request_headers cached;
              tr_redirect_aliasable := tr_redirect_aliasable response |}
       end.

Definition text_response_has_validator (response : TextResponse) : bool :=
  bool_decide (is_Some (response_header response (lit "etag"))) ||
  bool_decide (is_Some (response_header response (lit "last-modified"))).

(** [entry.headers.into_iter().collect()] into a [BTreeMap]. *)
Definition collect_headers (headers : HeaderMap) : HeaderMap :=
  foldl (λ h nv, map_insert nv.1 nv.2 h) [] headers.

Definition cached_response_events (url : rstr) (status body_bytes : N) : list NetworkEvent :=
  [EvRequestStart url Get; EvResponse url status] ++
  (if (0 <? body_bytes)%N then [EvBodyProgress url body_bytes body_bytes (Some body_bytes)] else []) ++
  [EvCompleted url body_bytes].

(** The clock is an argument. *)
Definition fetch_cache_lookup (store : option Store) (original_url cache_url : WebUrl)
    (alias : option ResolvedCacheAlias) (request_headers : HeaderMap) (max_body_bytes : N) (now : Z) :
    result StoreError (option (TextResponse * CacheUse)) :=
  match store with
  | None => Ok None
  | Some store =>
      variants ← cache_variants (origin_partition_key (Origin_from_url (wu_origin cache_url)))
                   (wu_str cache_url) store;
      match select_variant variants request_headers now max_body_bytes with
      | None => Ok None
      | Some (entry, use) =>
          if bool_decide (is_Some alias) && negb (bool_decide (use = Fresh)) then Ok None
          else
            let events := match alias with
                          | None => cached_response_events (wu_str original_url) (ce_status entry) (len (ce_body entry))
                          | Some alias => alias_events alias original_url (ce_status entry) (len (ce_body entry))
                          end in
            Ok (Some ({| tr_body := from_utf8_lossy (ce_body entry);
                         tr_headers := collect_headers (ce_headers entry);
                         tr_status := ce_status entry; tr_final_url := wu_str cache_url; tr_set_cookie := [];
                         tr_redirects := match alias with
                                         | None => 0
                                         | Some alias => (len (alias_hops alias) `mod` 2 ^ 32)%N
                                         end;
                         tr_events := events; tr_request_headers := request_headers;
                         tr_redirect_aliasable := true |}, use))
      end
  end.

Definition persist_fetch_cache (store : option Store) (original_url : WebUrl) (response : TextResponse)
    (fetched_unix : Z) : option Store * result CacheError unit :=
  match store with
  | None => (None, Ok tt)
  | Some s =>
      match url_parse (tr_final_url response) with
      | None => (Some s, Err CacheUrlError)
      | Some final =>
          let finish '(s, r) := (Some s, map_err CacheStoreError r) in
          match cache_entry (tr_status response) (tr_headers response) (utf8 (tr_body response))
                  (tr_request_headers response) fetched_unix with
          | None => finish (delete_alias (origin_partition_key (Origin_from_url (wu_origin original_url)))
                              (wu_str original_url) s)
          | Some entry =>
              match put_cache (origin_partition_key (Origin_from_url (wu_origin final)))
                      (tr_final_url response) entry s with
              | Err e => (Some s, Err (CacheStoreError e))
              | Ok s => finish (persist_redirect_aliases original_url final (tr_events response)
                                  (tr_redirect_aliasable response) fetched_unix s)
              end
          end
      end
  end.
End cache.
