(* ===== verification/HttpCacheFacts.v ===== *)
(** * The HTTP cache: reuse, variants and aliases *)

From Stdlib Require Import Lia ZArith.
From stdpp Require Import base decidable sets list strings.
From S2P Require Import Prelude.
From S2P Require Import RustStr.
From S2P Require Import RustUtf8.
From S2P Require Import RustMap.
From S2P Require Import Cookie.
From S2P Require Import Store.
From S2P Require Import StoreFacts.
From S2P Require Import WebStorage.
From S2P Require Import NetUrl.
From S2P Require Import HttpCache.

(** ** Finding *)

Section find.
Context {A : Type} (P Q : A → Prop) `{∀ x, Decision (P x), ∀ x, Decision (Q x)}.

(** Two searches agree when the predicates agree on the list. *)
Lemma list_find_ext_in {B} (f : A → B) l :
  (∀ x, x ∈ l → P x ↔ Q x) → f ∘ snd <$> list_find P l = f ∘ snd <$> list_find Q l.
Proof.
  induction l as [|x l IH]; intros HPQ; [done|]. cbn.
  assert (f ∘ snd <$> list_find P l = f ∘ snd <$> list_find Q l) as E by (apply IH; set_solver).
  destruct (HPQ x ltac:(left)) as [HP HQ]. repeat case_decide; try tauto.
  destruct (list_find P l) as [[i y]|], (list_find Q l) as [[j z]|]; cbn in *; congruence.
Qed.
End find.

Definition lower_keys (headers : list (rstr * rstr)) : Prop :=
  Forall (λ nv, to_ascii_lowercase nv.1 = nv.1) headers.

Lemma header_map_get headers name :
  lower_keys headers → to_ascii_lowercase name = name → header headers name = map_get headers name.
Proof.
  intros Hl Hn. unfold header, map_get. apply list_find_ext_in. intros nv Hin. unfold ignore_case. rewrite bool_decide_eq_true, Hn.
  unfold lower_keys in Hl. rewrite Forall_forall in Hl. by rewrite (Hl _ Hin).
Qed.

(** ** Variants *)

Lemma capture_loop_Some request_headers total captured names vs :
  capture_loop request_headers total captured names = Some vs →
  vs = captured ++ ((λ n, (n, map_get request_headers n)) <$> names).
Proof.
  revert total captured. induction names as [|n names IH]; intros total captured; cbn [capture_loop].
  - intros [= <-]. by rewrite app_nil_r.
  - intros (t & _ & E)%bind_Some. destruct (_ <? t)%N; [done|]. rewrite (IH _ _ E). cbn. by rewrite <-(assoc_L app).
Qed.

Lemma capture_vary_Some value request_headers vs :
  capture_vary value request_headers = Some vs →
  ∃ names, vary_names value = Some names ∧ vs = (λ n, (n, map_get request_headers n)) <$> names.
Proof.
  intros (names & E & Hc)%bind_Some. exists names. split; [done|]. by apply capture_loop_Some in Hc.
Qed.

Lemma stored_vary_captured request_headers names n :
  n ∈ names → stored_vary n ((λ n, (n, map_get request_headers n)) <$> names) = Some (map_get request_headers n).
Proof.
  unfold stored_vary. induction names as [|m names IH]; [by intros ?%not_elem_of_nil|].
  intros Hin. cbn. case_decide as E; cbn in *; [by subst|].
  apply elem_of_cons in Hin as [->|Hin]; [done|]. specialize (IH Hin).
  destruct (list_find _ _) as [[i x]|]; cbn in *; [|done]. by injection IH as ->.
Qed.

Lemma cache_entry_Some status headers body request_headers fetched e :
  cache_entry status headers body request_headers fetched = Some e ↔
  is_success status = true ∧ cache_control_has_map headers (lit "no-store") = false ∧
  has_directive (header request_headers (lit "cache-control")) (lit "no-store") = false ∧
  ∃ vary, capture_vary (map_get headers (lit "vary")) request_headers = Some vary ∧
    e = {| ce_status := status; ce_headers := headers; ce_body := body; ce_fetched_unix := fetched;
           ce_vary_headers := vary |}.
Proof.
  unfold cache_entry. destruct (is_success status), (cache_control_has_map headers (lit "no-store")),
    (has_directive _ (lit "no-store")); cbn; try naive_solver.
  split.
  - intros (vary & E & [= <-])%bind_Some. eauto 10.
  - intros (_ & _ & _ & vary & -> & ->). done.
Qed.

(** Variants: a response that is stored for one request matches exactly the requests that
    agree with it on every header the response names in [Vary], the request it was stored
    for among them; a response that varies on everything is not stored. *)
Theorem vary_exact status headers body request_headers fetched e :
  lower_keys headers → cache_entry status headers body request_headers fetched = Some e →
  ∃ names, vary_names (map_get headers (lit "vary")) = Some names ∧
    ∀ request_headers',
      vary_matches e request_headers' = true ↔
      ∀ n, n ∈ names → map_get request_headers' n = map_get request_headers n.
Proof.
  intros Hl. rewrite cache_entry_Some. intros (_ & _ & _ & vary & Hc & ->).
  apply capture_vary_Some in Hc as (names & Hn & ->). exists names. split; [done|]. intros req'.
  unfold vary_matches. cbn [ce_headers ce_vary_headers]. rewrite header_map_get, Hn by done.
  destruct names as [|n names]; [cbn; set_solver|].
  rewrite length_fmap, Nat.eqb_refl. cbn [negb]. rewrite forallb_forall.
  setoid_rewrite <-list_elem_of_In. split; intros Hall m Hm; specialize (Hall m Hm);
    rewrite stored_vary_captured in * by done; [|by rewrite Hall, bool_decide_eq_true].
  by apply bool_decide_eq_true in Hall.
Qed.

Example vary_exact_witness :
  let headers := [(lit "vary", lit "Accept-Language, accept-language ,X-Mode")] in
  let request := [(lit "accept-language", lit "en")] in
  lower_keys headers ∧
  ∃ e, cache_entry 200 headers [] request 0 = Some e ∧ vary_matches e request = true ∧
    vary_matches e [(lit "accept-language", lit "en"); (lit "x-mode", [])] = false.
Proof.
  cbn zeta. assert (lower_keys [(lit "vary", lit "Accept-Language, accept-language ,X-Mode")]) as Hl
    by (repeat constructor).
  split; [exact Hl|].
  destruct (cache_entry 200 [(lit "vary", lit "Accept-Language, accept-language ,X-Mode")] []
    [(lit "accept-language", lit "en")] 0) as [e|] eqn:E; [|by vm_compute in E].
  exists e. destruct (vary_exact _ _ _ _ _ _ Hl E) as (names & Hn & Hm).
  split; [reflexivity|]. split; [by apply Hm|].
  apply not_true_iff_false. intros Hx. apply (proj1 (Hm _)) with (n := lit "x-mode") in Hx; [done|]. vm_compute in Hn. injection Hn as <-. right; left.
Defined.

(** ** Freshness *)

Lemma max_stale_loop_antitone a b found maximum l :
  (a ≤ b)%N → max_stale_loop b found maximum l = true → max_stale_loop a found maximum l = true.
Proof.
  intros Hab. revert found maximum. induction l as [|[name value] l IH]; intros found maximum; cbn [max_stale_loop].
  - rewrite !andb_true_iff. intros [-> Hm]. destruct maximum; [|done]. rewrite N.leb_le in *. split; [done|lia].
  - destruct (ignore_case name _); [|apply IH]. destruct value as [value|]; [|done].
    destruct (parse_u64 _); [apply IH|done].
Qed.

Lemma max_stale_antitone cc a b :
  (a ≤ b)%N → max_stale_allows cc b = true → max_stale_allows cc a = true.
Proof. intros Hab. unfold max_stale_allows. destruct cc; [by apply max_stale_loop_antitone|done]. Qed.

Section freshness.
Context `{HttpDate}.

Lemma current_age_monotone e now now' : (now' ≤ now)%Z → (current_age e now' ≤ current_age e now)%N.
Proof.
  intros Hn. unfold current_age, u64_saturating_add, non_negative, i64_saturating_sub, i64_min, i64_max. lia.
Qed.

(** The age of a response and the time it was fresh for, as the request sees them. *)
Definition request_allows (request_headers : list (rstr * rstr)) (age lifetime : N) : Prop :=
  let cc := header request_headers (lit "cache-control") in
  match seconds_directive cc (lit "max-age") with
  | SecondsInvalid => False
  | SecondsAbsent => True
  | SecondsValue limit => (age < limit)%N
  end ∧
  match seconds_directive cc (lit "min-fresh") with
  | SecondsInvalid => False
  | SecondsAbsent => True
  | SecondsValue required => (u64_saturating_add age required < lifetime)%N
  end.

Lemma if_stale (b : bool) (rest : CacheUse) : (if b then Stale else rest) = Fresh ↔ b = false ∧ rest = Fresh.
Proof. destruct b; naive_solver. Qed.
Lemma if_fresh (b : bool) : (if b then Fresh else Stale) = Fresh ↔ b = true.
Proof. by destruct b. Qed.

Lemma cache_use_Fresh e request_headers now max_body :
  cache_use e request_headers now max_body = Fresh ↔
  unusable e request_headers max_body = false ∧ must_check e request_headers = false ∧
  ∃ lifetime, freshness_lifetime e = Some lifetime ∧ request_allows request_headers (current_age e now) lifetime ∧
    ((current_age e now < lifetime)%N ∨
     cache_control_has (ce_headers e) (lit "must-revalidate") = false ∧
     max_stale_allows (header request_headers (lit "cache-control")) (current_age e now - lifetime) = true).
Proof.
  unfold cache_use, request_allows. destruct (unusable _ _ _), (must_check _ _);
    try (split; [done|by intros (? & ? & _)]).
  destruct (freshness_lifetime e) as [lifetime|]; [|naive_solver].
  destruct (seconds_directive (header request_headers (lit "cache-control")) (lit "max-age"));
    destruct (seconds_directive (header request_headers (lit "cache-control")) (lit "min-fresh"));
    rewrite ?if_stale, ?if_fresh, ?orb_true_iff, ?andb_true_iff, ?negb_true_iff, ?N.ltb_lt, ?N.leb_gt;
    (split; [intros Hx; first [by destruct_and? Hx | split_and!; [done|done|exists lifetime; split; [done|]; cbn zeta; tauto]]
            |intros (_ & _ & l & [= <-] & [Hx1 Hx2] & Hx); first [done|tauto]]).
Qed.

(** C20. Reuse without revalidation: a stored response is only used as it is when it succeeded,
    fits the caller's limit, matches the request's variant, neither side forbids storing or
    reusing it, and its age is below its lifetime, or exceeds it by no more than the request's
    [max-stale] and without [must-revalidate]; and the passage of time only ends this: what may
    be reused now could be reused at any earlier time. *)
Theorem fresh_reuse e request_headers now max_body :
  cache_use e request_headers now max_body = Fresh →
  is_success (ce_status e) = true ∧ (len (ce_body e) ≤ max_body)%N ∧ vary_matches e request_headers = true ∧
  (∀ d, d ∈ [lit "no-store"; lit "no-cache"] → cache_control_has (ce_headers e) d = false ∧
     has_directive (header request_headers (lit "cache-control")) d = false) ∧
  (∃ lifetime, freshness_lifetime e = Some lifetime ∧ request_allows request_headers (current_age e now) lifetime ∧
     ((current_age e now < lifetime)%N ∨
      cache_control_has (ce_headers e) (lit "must-revalidate") = false ∧
      max_stale_allows (header request_headers (lit "cache-control")) (current_age e now - lifetime) = true)) ∧
  ∀ now', (now' ≤ now)%Z → cache_use e request_headers now' max_body = Fresh.
Proof.
  rewrite cache_use_Fresh. intros (Hu & Hc & lifetime & Hl & [Ha1 Ha2] & Hf).
  assert (∀ now', (now' ≤ now)%Z → cache_use e request_headers now' max_body = Fresh) as Hdecay.
  { intros now' Hn. pose proof (current_age_monotone e now now' Hn) as Hage. apply cache_use_Fresh.
    split_and!; [done..|]. exists lifetime. split_and!; [done| |].
    - split; repeat case_match; try done; unfold u64_saturating_add in *; lia.
    - destruct Hf as [Hf|[Hm Hs]]; [left; lia|].
      destruct (N.lt_ge_cases (current_age e now') lifetime); [by left|right].
      split; [done|]. eapply max_stale_antitone; [|exact Hs]. lia. }
  unfold unusable in Hu. unfold must_check in Hc.
  rewrite !orb_false_iff, !negb_false_iff, N.ltb_ge in Hu. rewrite !orb_false_iff in Hc.
  destruct Hu as ((((? & ?) & ?) & ?) & ?), Hc as ((? & ?) & ?). split_and!; try done.
  - intros d [->|[->|[]%elem_of_nil]%elem_of_cons]%elem_of_cons; done.
  - exists lifetime. done.
Qed.
End freshness.

Definition no_http_dates : HttpDate := {| parse_http_date := λ _, None |}.

Example fresh_reuse_witness :
  let e := {| ce_status := 200; ce_headers := [(lit "cache-control", lit "private, max-age=60"); (lit "age", lit "10")];
              ce_body := []; ce_fetched_unix := 100; ce_vary_headers := [] |} in
  @cache_use no_http_dates e [] 149 1024 = Fresh ∧ @cache_use no_http_dates e [] 120 1024 = Fresh ∧
  @cache_use no_http_dates e [] 150 1024 = Stale.
Proof.
  cbn zeta. split; [vm_compute; reflexivity|]. split; [|vm_compute; reflexivity].
  refine (proj2 (proj2 (proj2 (proj2 (proj2 (@fresh_reuse no_http_dates _ [] 149 1024 _))))) 120%Z _);
    [vm_compute; reflexivity|vm_compute; discriminate].
Defined.

(** ** Choosing a variant *)

Lemma variant_le_total a b : variant_le a b = true ∨ variant_le b a = true.
Proof.
  unfold variant_le. rewrite !orb_true_iff, !andb_true_iff, !Z.ltb_lt, !Z.eqb_eq, !N.leb_le. lia.
Qed.
Lemma variant_le_trans a b c : variant_le a b = true → variant_le b c = true → variant_le a c = true.
Proof.
  unfold variant_le. rewrite !orb_true_iff, !andb_true_iff, !Z.ltb_lt, !Z.eqb_eq, !N.leb_le. lia.
Qed.

(** The variant that is chosen: one of the stored responses that may be used at all, none of
    which was fetched later, and a fresh one among those fetched at the same time; there is
    none exactly when no stored response may be used. *)
Theorem select_variant_newest `{HttpDate} entries request_headers now max_body :
  match select_variant entries request_headers now max_body with
  | None => ∀ e, e ∈ entries → cache_use e request_headers now max_body = Unusable
  | Some (e, u) =>
      e ∈ entries ∧ u = cache_use e request_headers now max_body ∧ u ≠ Unusable ∧
      ∀ e', e' ∈ entries → cache_use e' request_headers now max_body ≠ Unusable →
        (ce_fetched_unix e' < ce_fetched_unix e)%Z ∨
        ce_fetched_unix e' = ce_fetched_unix e ∧ (cache_use e' request_headers now max_body = Fresh → u = Fresh)
  end.
Proof.
  unfold select_variant.
  assert (∀ e u, (e, u) ∈ filter (λ eu, eu.2 ≠ Unusable)
    ((λ e, (e, cache_use e request_headers now max_body)) <$> entries) ↔
    e ∈ entries ∧ u = cache_use e request_headers now max_body ∧ u ≠ Unusable) as Hin.
  { intros e u. rewrite list_elem_of_filter, list_elem_of_fmap. naive_solver. }
  pose proof (max_by_spec variant_le variant_le_total variant_le_trans (filter (λ eu, eu.2 ≠ Unusable)
    ((λ e, (e, cache_use e request_headers now max_body)) <$> entries))) as Hmax.
  destruct (max_by _ _) as [[e u]|].
  - destruct Hmax as [(He & -> & Hu)%Hin Hmax]. split_and!; [done..|]. intros e' He' Hu'.
    specialize (Hmax (e', _) (proj2 (Hin _ _) (conj He' (conj eq_refl Hu')))). unfold variant_le in Hmax. cbn in Hmax.
    rewrite orb_true_iff, andb_true_iff, Z.ltb_lt, Z.eqb_eq, N.leb_le in Hmax.
    destruct Hmax as [|[E Hr]]; [by left|right]. split; [done|]. intros Hf. rewrite Hf in Hr.
    destruct (cache_use e _ _ _); cbn in Hr; [done|lia..].
  - intros e He. destruct (decide (cache_use e request_headers now max_body = Unusable)) as [|Hu]; [done|].
    assert ((e, cache_use e request_headers now max_body) ∈ []) as []%elem_of_nil by (rewrite <-Hmax; by apply Hin).
Qed.

(** * Redirect aliases over the profile store

    What a resolved alias promises, that a redirect chain which may not be cached leaves no
    alias behind, and that a permanent chain which was followed is found again from each of its
    URLs. *)

(** ** Specification *)

Section followed.
Context `{UrlPlatform}.

(** A chain of permanent redirects inside one origin, from [u] to the last argument. *)
Inductive followed (origin : Origin) : WebUrl → list (rstr * CacheRedirectHop) → WebUrl → Prop :=
| followed_end u : followed origin u [] u
| followed_hop u t hop redirects f :
    is_permanent (hop_status hop) = true → url_parse (hop_to hop) = Some t → wu_str t = hop_to hop →
    scalars (hop_to hop) → validate_http_url t = Ok tt → Origin_from_url (wu_origin t) = origin →
    followed origin t redirects f → followed origin u ((wu_str u, hop) :: redirects) f.

(** What reading an alias guarantees about its hops. *)
Definition safe_hop (origin : Origin) (hop : CacheRedirectHop) (t : WebUrl) : Prop :=
  is_permanent (hop_status hop) = true ∧ url_parse (hop_to hop) = Some t ∧ validate_http_url t = Ok tt ∧
  Origin_from_url (wu_origin t) = origin.

Lemma resolve_hops_safe origin visited current hops f :
  resolve_hops origin visited current hops = Ok (Some f) →
  ∃ targets, Forall2 (safe_hop origin) hops targets ∧ last (current :: targets) = Some f ∧
    NoDup (wu_str <$> targets) ∧ ∀ t, t ∈ targets → wu_str t ∉ visited.
Proof.
  revert visited current. induction hops as [|hop hops IH]; intros visited current; cbn [resolve_hops].
  - intros [= <-]. exists []. split_and!; [constructor|done|constructor|by intros t ?%not_elem_of_nil].
  - destruct (is_permanent _) eqn:Hp; [|done]. cbn [negb]. destruct (url_parse _) as [t|] eqn:Ht; [|done].
    destruct (_ || _) eqn:E; [done|]. rewrite !orb_false_iff, !negb_false_iff in E.
    destruct E as [[Hv Ho%bool_decide_eq_true] Hn%bool_decide_eq_false]. apply is_ok_true in Hv as [[] Hv].
    intros (targets & Hf & Hl & Hd & Hnv)%IH. exists (t :: targets). split_and!.
    + constructor; [done|done].
    + done.
    + cbn. constructor; [|done]. intros (t' & E & Ht')%list_elem_of_fmap.
      apply (Hnv t' Ht'). rewrite <-E. left.
    + intros t' [->|Ht']%elem_of_cons; [done|]. intros Hin. apply (Hnv t' Ht'). by right.
Qed.

Lemma followed_safe origin u redirects f :
  followed origin u redirects f → chain_safe origin (wu_str u) redirects = Some (wu_str f).
Proof.
  induction 1 as [u|u t hop redirects f Hp Ht Hs _ _ Ho Hf IH]; [done|]. cbn [chain_safe].
  rewrite bool_decide_eq_true_2, Hp, Ht, bool_decide_eq_true_2 by done. cbn. by rewrite <-Hs.
Qed.

Lemma resolve_followed origin u redirects f visited :
  followed origin u redirects f →
  NoDup ((λ r, hop_to r.2) <$> redirects) → (∀ r, r ∈ redirects → hop_to r.2 ∉ visited) →
  resolve_hops origin visited u (snd <$> redirects) = Ok (Some f).
Proof.
  intros Hf. revert visited. induction Hf as [u|u t hop redirects f Hp Ht Hs _ Hv Ho Hf IH]; intros visited Hd Hn; [done|].
  cbn in *. rewrite Hp, Ht, Hv, Ho. cbn. apply NoDup_cons in Hd as [Hh Hd].
  rewrite bool_decide_eq_true_2, bool_decide_eq_false_2 by (done || rewrite Hs; apply (Hn (wu_str u, hop)); left). cbn.
  apply IH; [done|]. intros r Hr [E|Hin]%elem_of_cons.
  - apply Hh. rewrite <-Hs, <-E. apply list_elem_of_fmap. by exists r.
  - by apply (Hn r); [right|].
Qed.
End followed.

(** ** Writing aliases *)

Section aliases.
Context `{StoreLaws, UrlPlatform}.

Definition aliases_decode (t : Table) : Prop :=
  ∀ key v, table_get key t = Some v → ∃ alias : CacheAlias, decode_bytes v = Some alias.

Lemma put_alias_room o url alias s :
  validate_cache_alias url alias = Ok tt → aliases_decode (s FETCH_CACHE_ALIASES) →
  length (table_iter (s FETCH_CACHE_ALIASES)) < MAX_FETCH_CACHE_ALIASES →
  put_cache_alias o url alias s =
    Ok (with_table FETCH_CACHE_ALIASES
          (table_insert (namespaced_key o url) (encode alias) (s FETCH_CACHE_ALIASES)) s) ∧
  aliases_decode (table_insert (namespaced_key o url) (encode alias) (s FETCH_CACHE_ALIASES)).
Proof.
  intros Hv Hd Hl. assert (aliases_decode (table_insert (namespaced_key o url) (encode alias) (s FETCH_CACHE_ALIASES))) as Hd'.
  { intros key v. rewrite table_get_insert. case_decide; [|apply Hd]. intros [= <-]. exists alias. apply decode_encode. }
  split; [|done]. unfold put_cache_alias. rewrite Hv. cbn.
  pose proof (table_insert_length (namespaced_key o url) (encode alias) (s FETCH_CACHE_ALIASES)) as Hlen.
  set (t := table_insert _ _ _) in *.
  assert (∃ records, collect (λ kv, alias ← decode kv.2; Ok (kv.1, ca_fetched_unix alias)) (table_iter t) = Ok records)
    as [records E].
  { assert (∀ kv, kv ∈ table_iter t → ∃ alias : CacheAlias, decode_bytes kv.2 = Some alias) as Hall
      by (intros [k v] Hkv%table_iter_get; by eapply Hd').
    clear -Hall. induction (table_iter t) as [|kv rows IH]; [by exists []|].
    destruct (Hall kv ltac:(left)) as [a Ha]. destruct IH as [records IH]; [intros; apply Hall; by right|].
    cbn. assert (decode kv.2 = Ok a) as -> by (unfold decode; by rewrite Ha). cbn. eexists. by rewrite IH. }
  rewrite E. cbn. apply collect_Ok, Forall2_length in E. unfold evict_records.
  destruct (_ <? _)%nat eqn:Hmax; [apply Nat.ltb_lt in Hmax; lia|done].
Qed.

Lemma for_each_hops_shrink n m hops k :
  (m ≤ n)%N → for_each validate_alias_hop n hops = Ok k → is_ok (for_each validate_alias_hop m hops) = true.
Proof.
  revert n m. induction hops as [|hop hops IH]; intros n m Hmn; cbn [for_each]; [done|].
  rewrite bind_Ok. intros (n' & E & Hn'). unfold validate_alias_hop in E.
  rewrite bind_unit_Ok, throw_if_Ok, bind_unit_Ok, throw_if_Ok, bind_Ok in E.
  destruct E as (Hst & Hto & total & Hadd & E). rewrite bind_unit_Ok, throw_if_Ok in E. destruct E as [Hmax [= <-]].
  apply ok_or_Ok, checked_add_Some in Hadd as [-> Hadd].
  apply N.ltb_ge in Hmax.
  assert (validate_alias_hop m hop = Ok (m + str_len (hop_to hop))%N) as ->.
  { unfold validate_alias_hop. rewrite Hst, Hto. cbn.
    assert (checked_add m (str_len (hop_to hop)) = Some (m + str_len (hop_to hop))%N) as ->
      by (apply checked_add_Some; lia).
    cbn. by replace (_ <? _)%N with false by (symmetry; apply N.ltb_ge; lia). }
  cbn. eapply IH; [|exact Hn']. lia.
Qed.

(** An alias of a chain is valid for the rest of the chain. *)
Lemma valid_rest url fetched hop hop' hops :
  validate_cache_alias url {| ca_hops := hop :: hop' :: hops; ca_fetched_unix := fetched |} = Ok tt →
  validate_cache_alias (hop_to hop) {| ca_hops := hop' :: hops; ca_fetched_unix := fetched |} = Ok tt.
Proof.
  unfold validate_cache_alias. cbn [ca_hops]. rewrite !bind_unit_Ok, !throw_if_Ok.
  intros (_ & Hlen & E). rewrite bind_Ok in E. destruct E as (n & E & _). cbn [for_each] in E.
  rewrite bind_Ok in E. destruct E as (n1 & E1 & E). unfold validate_alias_hop in E1.
  rewrite bind_unit_Ok, throw_if_Ok, bind_unit_Ok, throw_if_Ok in E1. destruct E1 as (_ & Hto & _).
  rewrite Hto. split; [done|]. split.
  - rewrite orb_false_iff in Hlen |- *. destruct Hlen as [_ Hlen%Nat.ltb_ge].
    split; [done|]. apply Nat.ltb_ge. cbn [length] in *. lia.
  - assert (is_ok (for_each validate_alias_hop 0%N (hop' :: hops)) = true) as Hok
      by (eapply (for_each_hops_shrink n1 0%N); [lia|exact E]).
    apply is_ok_true in Hok as [k ->]. done.
Qed.

Lemma alias_key_inj o a b : scalars a → scalars b → namespaced_key o a = namespaced_key o b → a = b.
Proof. unfold namespaced_key. intros Ha Hb E%app_inv_head%app_inv_head. by apply utf8_inj. Qed.

Lemma followed_scalars origin u redirects f :
  followed origin u redirects f → scalars (wu_str u) →
  (∀ from, from ∈ redirects.*1 → scalars from) ∧ scalars (wu_str f).
Proof.
  induction 1 as [u|u t hop redirects f _ _ Hs Hsc _ _ _ IH]; intros Hu.
  - split; [by intros ? ?%not_elem_of_nil|done].
  - destruct IH as [IH1 IH2]; [by rewrite Hs|]. split; [|done]. cbn. by intros from [->|Hin]%elem_of_cons; [|apply IH1].
Qed.

(** Every suffix of a chain is stored under the URL where it starts. *)
Lemma put_aliases_followed origin o fetched u redirects f s :
  followed origin u redirects f → scalars (wu_str u) → NoDup redirects.*1 →
  (redirects = [] ∨ validate_cache_alias (wu_str u) {| ca_hops := redirects.*2; ca_fetched_unix := fetched |} = Ok tt) →
  aliases_decode (s FETCH_CACHE_ALIASES) →
  length (table_iter (s FETCH_CACHE_ALIASES)) + length redirects ≤ MAX_FETCH_CACHE_ALIASES →
  ∃ s', put_aliases o fetched redirects s = (s', Ok tt) ∧
    (∀ key, (∀ from, from ∈ redirects.*1 → key ≠ namespaced_key o from) →
       table_get key (s' FETCH_CACHE_ALIASES) = table_get key (s FETCH_CACHE_ALIASES)) ∧
    ∀ pre from rest, redirects = pre ++ (from, rest.1) :: rest.2 →
      table_get (namespaced_key o from) (s' FETCH_CACHE_ALIASES) =
        Some (encode {| ca_hops := rest.1 :: rest.2.*2; ca_fetched_unix := fetched |}).
Proof.
  intros Hf. revert s. induction Hf as [u|u t hop redirects f Hp Ht Hs Hsc _ _ Hf IH]; intros s Hu Hd Hv Hdec Hlen.
  - exists s. split_and!; [done..|]. intros [|??] ? ? E; discriminate.
  - destruct Hv as [|Hv]; [done|]. cbn [fmap list_fmap fst snd] in Hd, Hv. cbn [length] in Hlen.
    destruct (put_alias_room o (wu_str u) {| ca_hops := hop :: redirects.*2; ca_fetched_unix := fetched |} s Hv Hdec)
      as [E Hdec']; [lia|].
    cbn [put_aliases fmap list_fmap fst snd]. rewrite E. apply NoDup_cons in Hd as [Hnu Hd].
    set (s1 := with_table _ _ _).
    destruct (IH s1) as (s' & E' & Hother & Hsuf).
    + by rewrite Hs.
    + done.
    + destruct redirects as [|[from' hop'] redirects]; [by left|right]. rewrite Hs. by eapply valid_rest.
    + subst s1. by rewrite with_table_eq.
    + subst s1. rewrite with_table_eq.
      pose proof (table_insert_length (namespaced_key o (wu_str u))
        (encode {| ca_hops := hop :: redirects.*2; ca_fetched_unix := fetched |}) (s FETCH_CACHE_ALIASES)). lia.
    + exists s'. split; [done|]. destruct (followed_scalars _ _ _ _ Hf) as [Hscal _]; [by rewrite Hs|].
      split.
      * intros key Hk. rewrite Hother by (intros; apply Hk; by right). subst s1.
        rewrite with_table_eq, table_get_insert, decide_False; [done|]. apply Hk. left.
      * intros [|[from0 hop0] pre] from rest Er; cbn in Er; injection Er as <- <- Er.
        -- destruct rest as [hop' rest]. cbn in *. subst.
           rewrite Hother; [subst s1; by rewrite with_table_eq, table_get_insert, decide_True|].
           intros from Hin Ek. apply alias_key_inj in Ek; [by subst|done|by apply Hscal].
        -- by apply (Hsuf pre).
Qed.

Lemma followed_urls origin u redirects f :
  followed origin u redirects f → redirects.*1 ++ [wu_str f] = wu_str u :: ((λ r, hop_to r.2) <$> redirects).
Proof. induction 1 as [|u t hop redirects f _ _ Hs _ _ _ _ IH]; [done|]. cbn. by rewrite IH, Hs. Qed.

Lemma followed_suffix origin u pre from hop rest f u' :
  followed origin u (pre ++ (from, hop) :: rest) f → wu_str u' = from → followed origin u' ((from, hop) :: rest) f.
Proof.
  revert u. induction pre as [|r pre IH]; intros u Hf <-; inversion Hf; subst; [|by eapply IH].
  replace (wu_str u) with (wu_str u') by done. by econstructor.
Qed.

Lemma cache_alias_None o url s :
  table_get (namespaced_key o url) (s FETCH_CACHE_ALIASES) = None → cache_alias o url s = Ok None.
Proof. unfold cache_alias. by intros ->. Qed.

Lemma delete_aliases_forgets o redirects s :
  ∃ s', delete_aliases o redirects s = (s', Ok tt) ∧ ∀ from, from ∈ redirects.*1 → cache_alias o from s' = Ok None.
Proof.
  assert (∃ s', delete_aliases o redirects s = (s', Ok tt) ∧
    (∀ key, table_get key (s FETCH_CACHE_ALIASES) = None → table_get key (s' FETCH_CACHE_ALIASES) = None) ∧
    ∀ from, from ∈ redirects.*1 → table_get (namespaced_key o from) (s' FETCH_CACHE_ALIASES) = None)
    as (s' & E & _ & Hf); [|exists s'; split; [done|]; intros from Hin; by apply cache_alias_None, Hf].
  revert s. induction redirects as [|[from hop] redirects IH]; intros s; cbn [delete_aliases].
  - exists s. split_and!; [done..|]. by intros from ?%not_elem_of_nil.
  - unfold delete_cache_alias. set (s1 := with_table _ _ _). destruct (IH s1) as (s' & E & Hkeep & Hf).
    assert (∀ key, table_get key (s1 FETCH_CACHE_ALIASES) =
      if decide (key = namespaced_key o from) then None else table_get key (s FETCH_CACHE_ALIASES)) as Hs1
      by (intros key; subst s1; by rewrite with_table_eq, table_get_remove).
    exists s'. split_and!; [done| |].
    + intros key Hk. apply Hkeep. rewrite Hs1. by case_decide.
    + cbn. intros from' [->|Hin]%elem_of_cons; [|by apply Hf]. apply Hkeep. by rewrite Hs1, decide_True.
Qed.

(** What reading an alias guarantees, whatever the store holds: every hop is a permanent
    redirect to a URL that may be fetched and has the origin of the request, no URL comes
    twice, and the response is that of the last one.  And redirects that may not be cached (a
    temporary one, a foreign origin, a gap in the chain, a response that forbids it) leave no
    alias at any of their URLs. *)
Theorem redirect_aliases_safe url s :
  (∀ a, resolve_redirect_alias url s = Ok (Some a) →
     ∃ targets, Forall2 (safe_hop (Origin_from_url (wu_origin url))) (alias_hops a) targets ∧
       last (url :: targets) = Some (final_url a) ∧ NoDup (wu_str <$> url :: targets)) ∧
  (∀ final events aliasable fetched, omap event_redirect events ≠ [] →
     aliasable = false ∨
       chain_safe (Origin_from_url (wu_origin url)) (wu_str url) (omap event_redirect events) ≠ Some (wu_str final) →
     ∃ s', persist_redirect_aliases url final events aliasable fetched s = (s', Ok tt) ∧
       ∀ url', Origin_from_url (wu_origin url') = Origin_from_url (wu_origin url) →
         wu_str url' ∈ (omap event_redirect events).*1 → resolve_redirect_alias url' s' = Ok None).
Proof.
  split.
  - intros a. unfold resolve_redirect_alias. destruct (cache_alias _ _ _) as [[alias|]|]; [|done..].
    rewrite bind_Ok. intros ([f|] & E & Ha); [|done]. injection Ha as <-. cbn.
    destruct (resolve_hops_safe _ _ _ _ _ E) as (targets & Hf & Hl & Hd & Hn).
    exists targets. split_and!; [done..|]. constructor; [|done].
    intros (t & Ht & Hin)%list_elem_of_fmap. apply (Hn t Hin). rewrite <-Ht. left.
  - intros final events aliasable fetched Hne Hunsafe. unfold persist_redirect_aliases.
    destruct (omap event_redirect events) as [|r redirects] eqn:Hr; [done|].
    assert (aliasable && bool_decide (chain_safe (Origin_from_url (wu_origin url)) (wu_str url) (r :: redirects) =
      Some (wu_str final)) = false) as ->.
    { destruct Hunsafe as [->|Hc]; [done|]. by rewrite bool_decide_eq_false_2, andb_false_r. }
    destruct (delete_aliases_forgets (origin_partition_key (Origin_from_url (wu_origin url))) (r :: redirects) s)
      as (s' & E & Hf).
    exists s'. split; [done|]. intros url' Ho Hin. unfold resolve_redirect_alias. rewrite Ho, (Hf _ Hin). done.
Qed.

(** A permanent chain that was followed inside one origin is found again: from each of its
    URLs the alias leads to the same final URL, over the rest of the same hops, in one look-up
    and without asking the network. *)
Theorem redirect_alias_round_trip u f redirects events fetched s :
  let origin := Origin_from_url (wu_origin u) in
  followed origin u redirects f → redirects ≠ [] → omap event_redirect events = redirects → scalars (wu_str u) →
  NoDup (wu_str u :: ((λ r, hop_to r.2) <$> redirects)) →
  validate_cache_alias (wu_str u) {| ca_hops := redirects.*2; ca_fetched_unix := fetched |} = Ok tt →
  aliases_decode (s FETCH_CACHE_ALIASES) →
  length (table_iter (s FETCH_CACHE_ALIASES)) + length redirects ≤ MAX_FETCH_CACHE_ALIASES →
  ∃ s', persist_redirect_aliases u f events true fetched s = (s', Ok tt) ∧
    ∀ pre from hop rest u', redirects = pre ++ (from, hop) :: rest → wu_str u' = from →
      Origin_from_url (wu_origin u') = origin →
      resolve_redirect_alias u' s' = Ok (Some {| final_url := f; alias_hops := hop :: rest.*2 |}).
Proof.
  cbn zeta. intros Hf Hne Hev Hu Hd Hv Hdec Hlen. pose proof (followed_urls _ _ _ _ Hf) as Hurls.
  rewrite <-Hurls in Hd. pose proof Hd as Hall. apply NoDup_app in Hd as (Hd & Hfin & _).
  set (origin := Origin_from_url (wu_origin u)) in *. set (o := origin_partition_key origin).
  destruct (put_aliases_followed origin o fetched u redirects f s Hf Hu Hd (or_intror Hv) Hdec Hlen)
    as (s1 & E & _ & Hsuf).
  unfold persist_redirect_aliases. rewrite Hev. fold origin. fold o.
  rewrite (followed_safe _ _ _ _ Hf), bool_decide_eq_true_2 by done. cbn [andb]. rewrite E.
  destruct redirects as [|r0 redirects0] eqn:Hr; [done|]. rewrite <-Hr in *.
  unfold delete_alias, delete_cache_alias. eexists. split; [reflexivity|].
  intros pre from hop rest u' Er Hu' Ho. unfold resolve_redirect_alias. rewrite Ho. fold o.
  assert (from ∈ redirects.*1) as Hin by (rewrite Er, fmap_app; set_solver).
  unfold cache_alias. rewrite with_table_eq, table_get_remove, Hu', decide_False.
  - rewrite (Hsuf pre from (hop, rest) Er), decode_encoded. cbn [mbind result_bind fst snd ca_hops].
    rewrite Er in Hf. pose proof (followed_suffix _ _ _ _ _ _ _ u' Hf Hu') as Hf'.
    assert (resolve_hops origin [from] u' (hop :: rest.*2) = Ok (Some f)) as ->; [|done].
    pose proof (followed_urls _ _ _ _ Hf') as Hurls'.
    rewrite Er, fmap_app, <-(assoc_L app), Hurls' in Hall. apply NoDup_app in Hall as (_ & _ & Hall).
    apply NoDup_cons in Hall as [Hfrom Hall].
    apply (resolve_followed origin u' ((from, hop) :: rest) f [from] Hf' Hall).
    intros r Hr' Ehop%list_elem_of_singleton. apply Hfrom. apply list_elem_of_fmap. exists r.
    split; [by rewrite Hu', Ehop|done].
  - destruct (followed_scalars _ _ _ _ Hf Hu) as [Hscal Hfsc].
    intros Ek. apply alias_key_inj in Ek; [|by apply Hscal|done].
    apply (Hfin from Hin). rewrite Ek. left.
Qed.
End aliases.

(** ** Witnesses *)

Definition one_site (s : rstr) : WebUrl :=
  {| wu_str := s; wu_host := Some (Domain (lit "a.com"));
     wu_origin := {| uo_scheme := lit "https"; uo_host_str := Some (lit "a.com"); uo_port_or_known_default := Some 443%N |};
     wu_port := None; wu_path := [47%N] |}.
Definition one_site_urls : UrlPlatform := {|
  url_parse := λ s, Some (one_site s); url_join := λ _ s, Some (one_site s); host_to_string := λ _, lit "a.com";
  url_same_origin := λ _ _, true; url_origin_ascii := λ _, lit "https://a.com"; url_for_referrer := wu_str |}.

Definition sample_old : WebUrl := one_site (lit "https://a.com/old").
Definition sample_new : WebUrl := one_site (lit "https://a.com/new").
Definition sample_redirect (status : N) : NetworkEvent :=
  EvRedirect (lit "https://a.com/old") (lit "https://a.com/new") status.

Example redirect_aliases_safe_witness :
  ∃ s', persist_redirect_aliases (H1 := one_site_urls) sample_old sample_new [sample_redirect 302] true 0 store_open = (s', Ok tt) ∧
    resolve_redirect_alias (H1 := one_site_urls) sample_old s' = Ok None.
Proof.
  destruct (redirect_aliases_safe (H1 := one_site_urls) sample_old store_open) as [_ Hunsafe].
  destruct (Hunsafe sample_new [sample_redirect 302] true 0%Z) as (s' & E & Hn); [done|right; by vm_compute|].
  exists s'. split; [exact E|]. apply Hn; [done|]. left.
Defined.

Example redirect_alias_round_trip_witness :
  ∃ s', persist_redirect_aliases (H1 := one_site_urls) sample_old sample_new [sample_redirect 301] true 0 store_open = (s', Ok tt) ∧
    resolve_redirect_alias (H1 := one_site_urls) sample_old s' =
      Ok (Some {| final_url := sample_new; alias_hops := [{| hop_to := lit "https://a.com/new"; hop_status := 301 |}] |}).
Proof.
  destruct (redirect_alias_round_trip (H1 := one_site_urls) sample_old sample_new
    [(lit "https://a.com/old", {| hop_to := lit "https://a.com/new"; hop_status := 301 |})]
    [sample_redirect 301] 0 store_open) as (s' & E & Hr).
  - apply (followed_hop _ sample_old sample_new); try reflexivity; [|apply followed_end].
    repeat constructor; vm_compute; done.
  - done.
  - done.
  - repeat constructor; vm_compute; done.
  - refine (proj1 (bool_decide_eq_true (NoDup _)) _). vm_compute. reflexivity.
  - vm_compute. reflexivity.
  - intros key v E. change (store_open FETCH_CACHE_ALIASES) with table_new in E. by rewrite table_get_new in E.
  - apply Nat.leb_le. vm_compute. reflexivity.
  - exists s'. split; [exact E|]. by apply (Hr [] (lit "https://a.com/old") _ [] sample_old).
Defined.
