(* ===== verification/Csp.v ===== *)
(** * Content Security Policy

    [crates/vixen-net/src/csp.rs]: source expressions, the policy parser, and
    what a list of policies allows.  SHA-2 ([sha2]) and base64 ([base64]) are parameters.  A
    [BTreeMap] that is only looked up is a finite map. *)

From Stdlib Require Import Lia ZArith.
From stdpp Require Import base decidable gmap sets list strings.
From S2P Require Import Prelude.
From S2P Require Import RustStr.
From S2P Require Import RustUtf8.
From S2P Require Import Cookie.
From S2P Require Import WebStorage.
From S2P Require Import NetUrl.

Class Crypto : Type := {
  sha256 : list N → list N;
  sha384 : list N → list N;
  sha512 : list N → list N;
  base64_decode : rstr → option (list N);          (** [STANDARD.decode(..).ok()] *)
}.

Inductive HashAlg : Type := Sha256 | Sha384 | Sha512.
#[export] Instance HashAlg_eq_dec : EqDecision HashAlg.
Proof. solve_decision. Defined.

Record HostSource : Type := {
  hs_scheme : option rstr; hs_host : rstr; hs_port : option N; hs_path : option rstr;
}.

Inductive Source : Type :=
| KeywordSelf
| KeywordNone
| UnsafeInline
| UnsafeEval
| StrictDynamic
| Nonce (n : rstr)
| Hash (alg : HashAlg) (expected : rstr)
| SchemeSource (scheme : rstr)
| HostSrc (h : HostSource).

Abbreviation CspPolicy := (gmap rstr (list Source)) (only parsing).
Abbreviation ContentSecurityPolicy := (list CspPolicy) (only parsing).

(** ** Parsing: 39 is the single quote, 58 the colon, 47 the slash, 59 the semicolon. *)

(** [str::strip_prefix(&str)], [str::split_whitespace], [str::split_once(&str)] *)
Definition strip_prefix (prefix s : rstr) : option rstr :=
  if bool_decide (prefix `prefix_of` s) then Some (drop (length prefix) s) else None.
Definition split_whitespace (s : rstr) : list rstr := filter (λ t, t ≠ []) (split_by is_whitespace s).
Fixpoint split_once_str (sep s : rstr) : option (rstr * rstr) :=
  match strip_prefix sep s with
  | Some rest => Some ([], rest)
  | None =>
      match s with
      | [] => None
      | c :: s => match split_once_str sep s with Some (a, b) => Some (c :: a, b) | None => None end
      end
  end.
(** [str::rsplit_once(char)] *)
Definition rsplit_once (c : rchar) (s : rstr) : option (rstr * rstr) :=
  match before_last c s with Some a => Some (a, drop (S (length a)) s) | None => None end.
(** [parse::<u16>()] of digits *)
Definition parse_u16_digits (s : rstr) : option N :=
  match s with
  | [] => None
  | _ => if (digits_value s <=? 65535)%Z then Some (Z.to_N (digits_value s)) else None
  end.

Definition parse_host_source (tok : rstr) : HostSource :=
  let '(scheme, rest) := match split_once_str (lit "://") tok with
                         | Some (s, r) => (Some (to_ascii_lowercase s), r)
                         | None => (None, tok)
                         end in
  let '(authority, path) := match split_once 47 rest with
                            | Some (a, p) => (a, Some (47%N :: p))
                            | None => (rest, None)
                            end in
  let '(host, port) := match rsplit_once 58 authority with
                       | Some (h, p) =>
                           if forallb is_digit p then (to_ascii_lowercase h, parse_u16_digits p)
                           else (to_ascii_lowercase authority, None)
                       | None => (to_ascii_lowercase authority, None)
                       end in
  {| hs_scheme := scheme; hs_host := host; hs_port := port; hs_path := path |}.

Definition hash_prefixes : list (HashAlg * rstr) :=
  [(Sha256, lit "'sha256-"); (Sha384, lit "'sha384-"); (Sha512, lit "'sha512-")].

(** The loop over the prefixes. *)
Fixpoint parse_hash (tok : rstr) (prefixes : list (HashAlg * rstr)) : option Source :=
  match prefixes with
  | [] => None
  | (alg, prefix) :: prefixes =>
      match (rest ← strip_prefix prefix (to_ascii_lowercase tok); strip_suffix [39%N] rest) with
      | Some _ => Some (Hash alg (take (length tok - 1 - length prefix) (drop (length prefix) tok)))
      | None => parse_hash tok prefixes
      end
  end.

Definition is_scheme_char (c : rchar) : bool :=
  ((48 <=? c) && (c <=? 57) || (65 <=? c) && (c <=? 90) || (97 <=? c) && (c <=? 122) ||
   (c =? 43) || (c =? 45) || (c =? 46))%N.
Definition parse_scheme_source (tok : rstr) : option rstr :=
  let lower := to_ascii_lowercase tok in
  if ends_with_char 58 lower && negb (contains_char 58 (take (length lower - 1) lower)) then
    let scheme := trim_end_matches (λ c, bool_decide (c = 58%N)) lower in
    if forallb is_scheme_char scheme then Some scheme else None
  else None.

Definition parse_source (tok : rstr) : Source :=
  let lower := to_ascii_lowercase tok in
  if bool_decide (lower = lit "'self'") then KeywordSelf
  else if bool_decide (lower = lit "'none'") then KeywordNone
  else if bool_decide (lower = lit "'unsafe-inline'") then UnsafeInline
  else if bool_decide (lower = lit "'unsafe-eval'") then UnsafeEval
  else if bool_decide (lower = lit "'strict-dynamic'") then StrictDynamic
  else match (rest ← strip_prefix (lit "'nonce-") tok; strip_suffix [39%N] rest) with
       | Some mid => Nonce mid
       | None =>
           match parse_hash tok hash_prefixes with
           | Some s => s
           | None =>
               match parse_scheme_source tok with
               | Some scheme => SchemeSource scheme
               | None => HostSrc (parse_host_source tok)
               end
           end
       end.

(** [entry(name).or_insert(sources)]: the first directive of a name wins. *)
Definition add_directive (policy : CspPolicy) (directive : rstr) : CspPolicy :=
  match split_whitespace directive with
  | [] => policy
  | name :: tokens =>
      let name := to_ascii_lowercase name in
      match policy !! name with
      | Some _ => policy
      | None => <[name := parse_source <$> tokens]> policy
      end
  end.
Definition parse_policy (value : rstr) : CspPolicy := foldl add_directive ∅ (split_char 59 value).

Definition add_header (csp : ContentSecurityPolicy) (value : rstr) : ContentSecurityPolicy :=
  csp ++ [parse_policy value].
Definition csp_from_headers (headers : list (rstr * rstr)) : ContentSecurityPolicy :=
  foldl (λ csp nv, if bool_decide (to_ascii_lowercase nv.1 = lit "content-security-policy")
                   then add_header csp nv.2 else csp) [] headers.

(** ** Matching *)

Fixpoint xor_diff (diff : N) (a b : list N) : N :=
  match a, b with
  | x :: a, y :: b => xor_diff (N.lor diff (N.lxor x y)) a b
  | _, _ => diff
  end.
Definition constant_time_eq (a b : list N) : bool :=
  if negb (length a =? length b)%nat then false else (xor_diff 0 a b =? 0)%N.

Definition url_origin_matches (url : WebUrl) (doc_origin : Origin) : bool :=
  let o := Origin_from_url (wu_origin url) in
  negb (o_opaque o) && bool_decide (o = doc_origin).

Definition host_pattern_matches (pattern host : rstr) : bool :=
  let host := to_ascii_lowercase host in
  let pat := to_ascii_lowercase pattern in
  if bool_decide (pat = lit "*") then negb (bool_decide (host = []))
  else match strip_prefix (lit "*.") pat with
       | Some suffix => bool_decide (host = suffix) || ends_with (46%N :: suffix) host
       | None => bool_decide (host = pat)
       end.

(** [Url::port().unwrap_or_else(..)] *)
Definition effective_port (url : WebUrl) : N :=
  default (if bool_decide (wu_scheme url = lit "https") then 443%N else 80%N) (wu_port url).

Definition host_source_matches (h : HostSource) (url : WebUrl) : bool :=
  match hs_scheme h with
  | Some scheme => bool_decide (to_ascii_lowercase (wu_scheme url) = to_ascii_lowercase scheme)
  | None => bool_decide (wu_scheme url = lit "http") || bool_decide (wu_scheme url = lit "https")
  end &&
  match uo_host_str (wu_origin url) with
  | Some host => host_pattern_matches (hs_host h) host
  | None => false
  end &&
  match hs_port h with Some port => (port =? effective_port url)%N | None => true end &&
  match hs_path h with Some path => bool_decide (path `prefix_of` wu_path url) | None => true end.

Definition url_matches_source (s : Source) (url : WebUrl) (doc_origin : Origin) : bool :=
  match s with
  | KeywordSelf => url_origin_matches url doc_origin
  | SchemeSource scheme =>
      bool_decide (to_ascii_lowercase (wu_scheme url) =
                   to_ascii_lowercase (trim_end_matches (λ c, bool_decide (c = 58%N)) scheme))
  | HostSrc h => host_source_matches h url
  | _ => false
  end.

(** [srcs.len() == 1 && matches!(srcs[0], Source::KeywordNone)] *)
Definition lone_none (srcs : list Source) : bool := match srcs with [KeywordNone] => true | _ => false end.

Fixpoint url_allowed_loop (has_positive : bool) (srcs : list Source) (url : WebUrl) (doc_origin : Origin) : bool :=
  match srcs with
  | [] => negb has_positive
  | KeywordNone :: srcs => url_allowed_loop has_positive srcs url doc_origin
  | s :: srcs => if url_matches_source s url doc_origin then true else url_allowed_loop true srcs url doc_origin
  end.
Definition url_allowed (srcs : list Source) (url : WebUrl) (doc_origin : Origin) : bool :=
  if lone_none srcs then false else url_allowed_loop false srcs url doc_origin.

Definition nonce_matches (nonce : option rstr) (s : Source) : bool :=
  match s with Nonce n => bool_decide (Some n = nonce) | _ => false end.
Definition external_script_allowed (srcs : list Source) (url : WebUrl) (doc_origin : Origin)
    (nonce : option rstr) : bool :=
  if lone_none srcs then false
  else if existsb (nonce_matches nonce) srcs then true
  else url_allowed srcs url doc_origin.

Section crypto.
Context `{Crypto}.

Definition digest (alg : HashAlg) (content : list N) : list N :=
  match alg with Sha256 => sha256 content | Sha384 => sha384 content | Sha512 => sha512 content end.
Definition hash_matches (alg : HashAlg) (expected content : rstr) : bool :=
  constant_time_eq (digest alg (utf8 content)) (default [] (base64_decode expected)).

Definition inline_source (content nonce : option rstr) (s : Source) : bool :=
  match s with
  | UnsafeInline => true
  | Nonce n => bool_decide (Some n = nonce)
  | Hash alg expected => match content with Some c => hash_matches alg expected c | None => false end
  | _ => false
  end.
Definition inline_allowed (srcs : list Source) (content nonce : option rstr) : bool :=
  if lone_none srcs then false else existsb (inline_source content nonce) srcs.

(** ** The policies *)

Definition sources_for (policy : CspPolicy) (directive : rstr) : option (list Source) :=
  match policy !! directive with
  | Some s => Some s
  | None => if negb (bool_decide (directive = lit "default-src")) then policy !! lit "default-src" else None
  end.

(** [policies.iter().all(..)]; a policy without the directive does not restrict. *)
Definition every_policy (csp : ContentSecurityPolicy) (directive : rstr) (allowed : list Source → bool) : bool :=
  forallb (λ p, match sources_for p directive with Some srcs => allowed srcs | None => true end) csp.

Definition allows_inline_script (csp : ContentSecurityPolicy) (content nonce : option rstr) : bool :=
  every_policy csp (lit "script-src") (λ srcs, inline_allowed srcs content nonce).
Definition allows_inline_style (csp : ContentSecurityPolicy) (content nonce : option rstr) : bool :=
  every_policy csp (lit "style-src") (λ srcs, inline_allowed srcs content nonce).
Definition allows_fetch (csp : ContentSecurityPolicy) (directive : rstr) (url : WebUrl) (doc_origin : Origin) : bool :=
  every_policy csp directive (λ srcs, url_allowed srcs url doc_origin).
Definition allows_external_script (csp : ContentSecurityPolicy) (doc_origin : Origin) (url : WebUrl)
    (nonce : option rstr) : bool :=
  every_policy csp (lit "script-src") (λ srcs, external_script_allowed srcs url doc_origin nonce).
Definition allows_plugin (csp : ContentSecurityPolicy) (url : WebUrl) (doc_origin : Origin) : bool :=
  allows_fetch csp (lit "object-src") url doc_origin.
End crypto.

(** * Content Security Policy: what is allowed, and what a header says *)

(** ** Comparison of digests *)

Lemma xor_diff_zero d a b : length a = length b → (xor_diff d a b = 0)%N ↔ (d = 0)%N ∧ a = b.
Proof.
  revert d b. induction a as [|x a IH]; intros d [|y b] Hl; try done; cbn in *; [naive_solver|].
  rewrite IH, N.lor_eq_0_iff, N.lxor_eq_0_iff by lia. naive_solver.
Qed.

Lemma constant_time_eq_spec a b : constant_time_eq a b = true ↔ a = b.
Proof.
  unfold constant_time_eq. destruct (Nat.eqb_spec (length a) (length b)) as [Hl|Hl]; cbn.
  - rewrite N.eqb_eq, xor_diff_zero by done. naive_solver.
  - split; [done|]. by intros ->.
Qed.

(** ** Source lists *)

Section sources.
Context `{Crypto}.

(** What permits a URL, and an inline block *)
Definition url_grant (url : WebUrl) (o : Origin) (srcs : list Source) : Prop :=
  ∃ s, s ∈ srcs ∧ url_matches_source s url o = true.
(** A list that names no source, neither by one nor by a lone ['none'].  For the standard, and
    for a code that fails closed, it permits nothing; the code lets every URL pass. *)
Definition says_nothing (srcs : list Source) : Prop := (∀ s, s ∈ srcs → s = KeywordNone) ∧ length srcs ≠ 1.
Definition inline_grant (content nonce : option rstr) (srcs : list Source) : Prop :=
  UnsafeInline ∈ srcs ∨ (∃ n, nonce = Some n ∧ Nonce n ∈ srcs) ∨
  (∃ alg expected c, content = Some c ∧ Hash alg expected ∈ srcs ∧
     default [] (base64_decode expected) = digest alg (utf8 c)).

Lemma url_allowed_loop_spec b srcs url o :
  url_allowed_loop b srcs url o = true ↔
  (∃ s, s ∈ srcs ∧ url_matches_source s url o = true) ∨ b = false ∧ ∀ s, s ∈ srcs → s = KeywordNone.
Proof.
  revert b. induction srcs as [|s srcs IH]; intros b; cbn [url_allowed_loop].
  - rewrite negb_true_iff. setoid_rewrite elem_of_nil. naive_solver.
  - assert (s = KeywordNone ∨ s ≠ KeywordNone) as [->|Hs] by (destruct s; (by left) || (by right)).
    + rewrite IH. setoid_rewrite elem_of_cons. naive_solver.
    + transitivity ((if url_matches_source s url o then true else url_allowed_loop true srcs url o) = true);
        [by destruct s|].
      destruct (url_matches_source s url o) eqn:E.
      * split; [|done]. intros _. left. exists s. split; [left|done].
      * rewrite IH. setoid_rewrite elem_of_cons. split.
        -- intros [(x & Hx & Hm)|[? _]]; [left; eauto|done].
        -- intros [(x & [->|Hx] & Hm)|[_ Hn]]; [congruence|left; eauto|]. by destruct Hs; apply Hn; left.
Qed.

Lemma lone_none_spec srcs : lone_none srcs = true ↔ srcs = [KeywordNone].
Proof. destruct srcs as [|[] [|? ?]]; done. Qed.

Lemma all_none_length srcs : (∀ s, s ∈ srcs → s = KeywordNone) → length srcs = 1 → srcs = [KeywordNone].
Proof. destruct srcs as [|s [|? ?]]; try done. intros Hs _. by rewrite (Hs s ltac:(left)). Qed.

Lemma url_allowed_spec srcs url o : url_allowed srcs url o = true ↔ url_grant url o srcs ∨ says_nothing srcs.
Proof.
  unfold url_allowed, url_grant, says_nothing. destruct (lone_none srcs) eqn:E.
  - apply lone_none_spec in E as ->. split; [done|]. intros [(s & ->%list_elem_of_singleton & ?)|[_ ?]]; done.
  - rewrite url_allowed_loop_spec. split; [|naive_solver]. intros [|[_ Hs]]; [by left|right].
    split; [done|]. intros Hl%all_none_length; [|done]. by rewrite Hl in E.
Qed.

Lemma inline_allowed_spec srcs content nonce :
  inline_allowed srcs content nonce = true ↔ inline_grant content nonce srcs.
Proof.
  assert (existsb (inline_source content nonce) srcs = true ↔ inline_grant content nonce srcs) as Hex.
  { rewrite existsb_exists. setoid_rewrite <-list_elem_of_In. split.
    - intros (s & Hin & Hs). destruct s; cbn in Hs; try done.
      + by left.
      + right; left. apply bool_decide_eq_true in Hs. by eexists.
      + destruct content as [c|]; [|done]. right; right. eexists _, _, _. split_and!; [done..|].
        symmetry. by apply constant_time_eq_spec.
    - intros [Hin|[(n & -> & Hin)|(alg & e & c & -> & Hin & Hd)]].
      + by exists UnsafeInline.
      + exists (Nonce n). split; [done|]. cbn. by apply bool_decide_eq_true.
      + exists (Hash alg e). split; [done|]. cbn. by apply constant_time_eq_spec. }
  unfold inline_allowed. destruct (lone_none srcs) eqn:E; [|done].
  apply lone_none_spec in E as ->. split; [done|]. intros Hg. by apply Hex in Hg.
Qed.

Lemma external_script_allowed_spec srcs url o nonce :
  external_script_allowed srcs url o nonce = true ↔
  (∃ n, nonce = Some n ∧ Nonce n ∈ srcs) ∨ url_grant url o srcs ∨ says_nothing srcs.
Proof.
  unfold external_script_allowed. destruct (lone_none srcs) eqn:E.
  - apply lone_none_spec in E as ->. split; [done|].
    intros [(n & _ & Hn%list_elem_of_singleton)|[(s & ->%list_elem_of_singleton & ?)|[_ ?]]]; done.
  - assert (existsb (nonce_matches nonce) srcs = true ↔ ∃ n, nonce = Some n ∧ Nonce n ∈ srcs) as Hn.
    { rewrite existsb_exists. setoid_rewrite <-list_elem_of_In. split.
      - intros ([] & Hin & Hs); cbn in Hs; try done. apply bool_decide_eq_true in Hs. by eexists.
      - intros (n & -> & Hin). exists (Nonce n). split; [done|]. cbn. by apply bool_decide_eq_true. }
    destruct (existsb _ srcs); [naive_solver|]. rewrite url_allowed_spec.
    split; [by right|]. intros [Hx%Hn|]; done.
Qed.

(** ** Policies *)

(** The source list that governs a directive. *)
Definition governs (p : gmap rstr (list Source)) (d : rstr) (srcs : list Source) : Prop :=
  p !! d = Some srcs ∨ p !! d = None ∧ d ≠ lit "default-src" ∧ p !! lit "default-src" = Some srcs.

Lemma sources_for_spec p d srcs : sources_for p d = Some srcs ↔ governs p d srcs.
Proof.
  unfold sources_for, governs. destruct (p !! d); [naive_solver|].
  case_bool_decide; cbn; naive_solver.
Qed.

Lemma every_policy_spec csp d allowed (P : list Source → Prop) :
  (∀ srcs, allowed srcs = true ↔ P srcs) →
  every_policy csp d allowed = true ↔ ∀ p srcs, p ∈ csp → governs p d srcs → P srcs.
Proof.
  intros HP. unfold every_policy. rewrite forallb_forall. setoid_rewrite <-list_elem_of_In.
  setoid_rewrite <-sources_for_spec. split.
  - intros Hall p srcs Hp E. specialize (Hall p Hp). rewrite E in Hall. by apply HP.
  - intros Hall p Hp. destruct (sources_for p d) as [srcs|] eqn:E; [|done]. apply HP. by eapply Hall.
Qed.

(** Every list that governs a directive names a source or is a lone ['none']. *)
Definition lists_speak (csp : list (gmap rstr (list Source))) (d : rstr) : Prop :=
  ∀ p srcs, p ∈ csp → governs p d srcs → ¬ says_nothing srcs.

Lemma every_policy_cons_silent p csp d P srcs : governs p d srcs → P srcs = true →
  every_policy (p :: csp) d P = every_policy csp d P.
Proof. intros Hg HP. unfold every_policy. cbn. apply sources_for_spec in Hg as ->. by rewrite HP. Qed.

(** C21. What a list of policies allows: every policy that governs the resource (by its
    directive, or by [default-src] when it has none) must permit it; a URL by a source that
    matches it, an inline block by [unsafe-inline], its nonce or its digest, an external script
    by its nonce or its URL; and adding policies only ever restricts.  For URLs this is so
    where every governing list names a source or is a lone ['none']; a list that does neither
    (it is empty, or says ['none'] twice) is to permit no URL and permits every one: the policy
    is as if it were not there, which is a bug of the code. *)
Theorem csp_exact csp csp' d url o content nonce :
  (lists_speak csp d →
     (allows_fetch csp d url o = true ↔ ∀ p srcs, p ∈ csp → governs p d srcs → url_grant url o srcs)) ∧
  (allows_inline_script csp content nonce = true ↔
     ∀ p srcs, p ∈ csp → governs p (lit "script-src") srcs → inline_grant content nonce srcs) ∧
  (allows_inline_style csp content nonce = true ↔
     ∀ p srcs, p ∈ csp → governs p (lit "style-src") srcs → inline_grant content nonce srcs) ∧
  (lists_speak csp (lit "script-src") →
     (allows_external_script csp o url nonce = true ↔
        ∀ p srcs, p ∈ csp → governs p (lit "script-src") srcs →
          (∃ n, nonce = Some n ∧ Nonce n ∈ srcs) ∨ url_grant url o srcs)) ∧
  (∀ p srcs, says_nothing srcs →
     (governs p d srcs → allows_fetch (p :: csp) d url o = allows_fetch csp d url o) ∧
     (governs p (lit "script-src") srcs →
        allows_external_script (p :: csp) o url nonce = allows_external_script csp o url nonce)) ∧
  (allows_fetch (csp ++ csp') d url o = true → allows_fetch csp d url o = true) ∧
  (allows_inline_script (csp ++ csp') content nonce = true → allows_inline_script csp content nonce = true).
Proof.
  split_and!.
  - intros Hs. etrans; [apply every_policy_spec; intros srcs; apply url_allowed_spec|]. unfold lists_speak in Hs. naive_solver.
  - apply every_policy_spec. intros srcs. apply inline_allowed_spec.
  - apply every_policy_spec. intros srcs. apply inline_allowed_spec.
  - intros Hs. etrans; [apply every_policy_spec; intros srcs; apply external_script_allowed_spec|]. unfold lists_speak in Hs.
    split; intros Ha p srcs Hp Hg; specialize (Ha p srcs Hp Hg); specialize (Hs p srcs Hp Hg); tauto.
  - intros p srcs Hn. split; intros Hg; apply every_policy_cons_silent with (1 := Hg).
    + apply url_allowed_spec. by right.
    + apply external_script_allowed_spec. by do 2 right.
  - unfold allows_fetch, every_policy. rewrite forallb_app, andb_true_iff. tauto.
  - unfold allows_inline_script, every_policy. rewrite forallb_app, andb_true_iff. tauto.
Qed.
End sources.

(** ** Headers *)

Definition directive_name (directive : rstr) : option rstr := to_ascii_lowercase <$> head (split_whitespace directive).
Definition directive_sources (directive : rstr) : list Source := parse_source <$> tail (split_whitespace directive).

Lemma add_directive_lookup p directive name :
  add_directive p directive !! name =
  match p !! name with
  | Some srcs => Some srcs
  | None => if bool_decide (directive_name directive = Some name) then Some (directive_sources directive) else None
  end.
Proof.
  unfold add_directive, directive_name, directive_sources. destruct (split_whitespace directive) as [|n tokens].
  - cbn. rewrite bool_decide_eq_false_2 by done. by destruct (p !! name).
  - cbn. destruct (decide (to_ascii_lowercase n = name)) as [<-|Hn].
    + rewrite bool_decide_eq_true_2 by done. destruct (p !! to_ascii_lowercase n) eqn:E; [by rewrite E|].
      by rewrite lookup_insert_eq.
    + rewrite (bool_decide_eq_false_2 (Some _ = Some name)) by congruence.
      destruct (p !! to_ascii_lowercase n); [by destruct (p !! name)|].
      rewrite lookup_insert_ne by done. by destruct (p !! name).
Qed.

(** What a header says: a directive of the parsed policy is the first one of that name in the
    text, in any case, with its sources in order; and of the headers of a response exactly
    those named [Content-Security-Policy] count, one policy each, in order. *)
Theorem csp_header_meaning value name headers :
  parse_policy value !! name =
    directive_sources ∘ snd <$> list_find (λ d, directive_name d = Some name) (split_char 59 value) ∧
  csp_from_headers headers =
    parse_policy ∘ snd <$> filter (λ nv, to_ascii_lowercase nv.1 = lit "content-security-policy") headers.
Proof.
  split.
  - unfold parse_policy.
    assert (∀ ds p, foldl add_directive p ds !! name =
      match p !! name with
      | Some srcs => Some srcs
      | None => directive_sources ∘ snd <$> list_find (λ d, directive_name d = Some name) ds
      end) as Hf; [|by rewrite Hf, lookup_empty].
    induction ds as [|d ds IH]; intros p; cbn [foldl].
    + by destruct (p !! name).
    + rewrite IH, add_directive_lookup. destruct (p !! name); [done|]. cbn.
      case_bool_decide as E; [by rewrite decide_True|]. rewrite decide_False by done.
      by destruct (list_find _ ds) as [[i x]|].
  - unfold csp_from_headers.
    assert (∀ hs acc, foldl (λ csp nv, if bool_decide (to_ascii_lowercase nv.1 = lit "content-security-policy")
      then add_header csp nv.2 else csp) acc hs =
      acc ++ (parse_policy ∘ snd <$> filter (λ nv, to_ascii_lowercase nv.1 = lit "content-security-policy") hs)) as Hf;
      [|by rewrite Hf].
    induction hs as [|nv hs IH]; intros acc; cbn [foldl]; [by rewrite app_nil_r|].
    rewrite IH, filter_cons. case_bool_decide as E; [rewrite decide_True by done|by rewrite decide_False].
    unfold add_header. rewrite fmap_cons, <-(assoc_L app). done.
Qed.

(** ** Where the code departs from the specification it cites *)

Definition csp_url (scheme host path : rstr) : WebUrl :=
  {| wu_str := []; wu_host := Some (Domain host);
     wu_origin := {| uo_scheme := scheme; uo_host_str := Some host; uo_port_or_known_default := Some 443%N |};
     wu_port := None; wu_path := path |}.
Definition evil : WebUrl := csp_url (lit "https") (lit "evil.com") (lit "/").

(** A directive without sources denies everything in CSP; here it allows every URL. *)
Example empty_source_list_allows_everything :
  allows_fetch (add_header [] (lit "connect-src")) (lit "connect-src") evil Origin_opaque = true ∧
  allows_fetch (add_header [] (lit "connect-src 'none' 'none'")) (lit "connect-src") evil Origin_opaque = true ∧
  allows_fetch (add_header [] (lit "connect-src 'none'")) (lit "connect-src") evil Origin_opaque = false.
Proof. vm_compute. done. Qed.

(** A path without a trailing slash must match exactly; here it is a prefix of the text.  A
    wildcard matches proper subdomains only; here also the domain itself. *)
Example host_sources_match_too_much :
  allows_fetch (add_header [] (lit "img-src https://a.com/img")) (lit "img-src")
    (csp_url (lit "https") (lit "a.com") (lit "/img-private/x")) Origin_opaque = true ∧
  allows_fetch (add_header [] (lit "img-src *.a.com")) (lit "img-src")
    (csp_url (lit "https") (lit "a.com") (lit "/")) Origin_opaque = true.
Proof. vm_compute. done. Qed.

Definition no_digests : Crypto :=
  {| sha256 := λ _, []; sha384 := λ _, []; sha512 := λ _, []; base64_decode := λ _, None |}.
Definition one_server : rstr := lit "connect-src https://example.com".

Lemma csp_exact_witness :
  allows_fetch (add_header [] one_server) (lit "connect-src") evil Origin_opaque = true ↔
  ∀ p srcs, p ∈ add_header [] one_server → governs p (lit "connect-src") srcs → url_grant evil Origin_opaque srcs.
Proof.
  apply (proj1 (csp_exact (H := no_digests) (add_header [] one_server) [] (lit "connect-src") evil Origin_opaque None None)).
  intros p srcs ->%list_elem_of_singleton Hg%sources_for_spec [Hs _]. vm_compute in Hg. injection Hg as <-.
  by specialize (Hs _ (list_elem_of_here _ _)).
Defined.
