(* ===== verification/Mime.v ===== *)
(** * MIME types

    [crates/vixen-engine/src/mime.rs]: parsing and serializing a MIME type.
    The position into the characters is the list of those that remain. *)

From Stdlib Require Import Lia ZArith Sorting.Sorted.
From stdpp Require Import base decidable sets list strings.
From S2P Require Import Prelude.
From S2P Require Import RustStr.
From S2P Require Import RustMap.

Record MimeType : Type := { mime_type : rstr; mime_subtype : rstr; mime_parameters : list (rstr * rstr) }.

Definition is_http_whitespace (c : rchar) : bool := ((c =? 32) || (c =? 9) || (c =? 10) || (c =? 13))%N.
Definition is_http_token_code_point (c : rchar) : bool :=
  ((c =? 33) || (c =? 35) || (c =? 36) || (c =? 37) || (c =? 38) || (c =? 39) || (c =? 42) || (c =? 43) ||
   (c =? 45) || (c =? 46) || (c =? 94) || (c =? 95) || (c =? 96) || (c =? 124) || (c =? 126) ||
   (48 <=? c) && (c <=? 57) || (65 <=? c) && (c <=? 90) || (97 <=? c) && (c <=? 122))%N.

Definition trim_matches (p : rchar → bool) (s : rstr) : rstr := trim_end_matches p (trim_start_matches p s).

(** [while pos < len && !stop(chars[pos])]: what is collected, and what remains. *)
Fixpoint collect_until (stop : rchar → bool) (s : rstr) : rstr * rstr :=
  match s with
  | [] => ([], [])
  | c :: s' => if stop c then ([], s) else let '(a, b) := collect_until stop s' in (c :: a, b)
  end.

(** 47 is the slash, 59 the semicolon, 61 the equals sign, 34 the double quote, 92 the
    backslash. *)
Definition is_char (c : rchar) (x : rchar) : bool := (x =? c)%N.

(** The body of a quoted string, past its closing quote. *)
Fixpoint read_quoted (s : rstr) : rstr * rstr :=
  match s with
  | [] => ([], [])
  | c :: s' =>
      if is_char 34 c then ([], s')
      else
        match s' with
        | e :: s'' =>
            if is_char 92 c then let '(v, rest) := read_quoted s'' in (e :: v, rest)
            else let '(v, rest) := read_quoted s' in (c :: v, rest)
        | [] => ([c], [])
        end
  end.

Definition read_value (s : rstr) : rstr * rstr :=
  match s with
  | c :: s' =>
      if is_char 34 c then read_quoted s'
      else let '(raw, rest) := collect_until (is_char 59) s in (trim_matches is_http_whitespace raw, rest)
  | [] => ([], [])
  end.

(** One turn of the loop, after the semicolon: the name, the value, and what remains. *)
Definition read_parameter (s : rstr) : rstr * rstr * rstr :=
  let s := trim_start_matches is_http_whitespace s in
  let '(name, s) := collect_until (λ c, is_char 59 c || is_char 61 c) s in
  let name := to_ascii_lowercase name in
  match s with
  | c :: s' => if is_char 61 c then let '(value, rest) := read_value s' in (name, value, rest) else (name, [], s)
  | [] => (name, [], [])
  end.

Definition keep_first (name value : rstr) (parameters : list (rstr * rstr)) : list (rstr * rstr) :=
  if negb (bool_decide (name = [])) && bool_decide (map_get parameters name = None)
  then map_insert name value parameters else parameters.

(** Each turn consumes its semicolon, so the length of the input is enough fuel. *)
Fixpoint parameter_loop (fuel : nat) (s : rstr) (parameters : list (rstr * rstr)) : list (rstr * rstr) :=
  match fuel, s with
  | S fuel, c :: s =>
      if is_char 59 c then
        let '(name, value, rest) := read_parameter s in
        parameter_loop fuel rest (keep_first name value parameters)
      else parameters
  | _, _ => parameters
  end.

Definition valid_token (s : rstr) : bool := negb (bool_decide (s = [])) && forallb is_http_token_code_point s.

Definition MimeType_parse (input : rstr) : option MimeType :=
  let input := trim_matches is_http_whitespace input in
  let '(type_str, s) := collect_until (is_char 47) input in
  match s with
  | [] => None
  | _ :: s =>
      let type_str := to_ascii_lowercase (trim_matches is_http_whitespace type_str) in
      if negb (valid_token type_str) then None
      else
        let '(subtype_str, s) := collect_until (is_char 59) s in
        let subtype_str := to_ascii_lowercase (trim_matches is_http_whitespace subtype_str) in
        if negb (valid_token subtype_str) then None
        else Some {| mime_type := type_str; mime_subtype := subtype_str;
                     mime_parameters := parameter_loop (length s) s [] |}
  end.

Definition escape_char (c : rchar) : rstr := if is_char 92 c || is_char 34 c then [92%N; c] else [c].
Definition serialize_value (value : rstr) : rstr :=
  if forallb is_http_token_code_point value then value
  else [34%N] ++ flat_map escape_char value ++ [34%N].
Definition serialize_parameter (nv : rstr * rstr) : rstr :=
  [59%N] ++ nv.1 ++ (if bool_decide (nv.2 = []) then [] else [61%N] ++ serialize_value nv.2).
Definition mime_serialize (self : MimeType) : rstr :=
  mime_type self ++ [47%N] ++ mime_subtype self ++ flat_map serialize_parameter (mime_parameters self).

Definition mime_essence (self : MimeType) : rstr := mime_type self ++ [47%N] ++ mime_subtype self.
Definition mime_is_essence (self : MimeType) (expected : rstr) : bool := bool_decide (mime_essence self = expected).

(** * MIME types: the serializer and the parser are inverse *)

(** ** Characters *)

Lemma token_not c : is_http_token_code_point c = true →
  is_http_whitespace c = false ∧ ∀ x, x ∈ [34; 47; 59; 61]%N → is_char x c = false.
Proof.
  unfold is_http_token_code_point, is_http_whitespace, is_char.
  intros Ht. repeat setoid_rewrite orb_true_iff in Ht. repeat setoid_rewrite andb_true_iff in Ht.
  rewrite !N.eqb_eq, !N.leb_le in Ht.
  rewrite !orb_false_iff, !N.eqb_neq. split; [lia|].
  intros x Hx. apply N.eqb_neq. intros ->. repeat (apply elem_of_cons in Hx as [->|Hx]; [lia|]). by apply elem_of_nil in Hx.
Qed.

Lemma tokens_avoid s x : forallb is_http_token_code_point s = true → x ∈ [34; 47; 59; 61]%N →
  Forall (λ c, is_char x c = false) s.
Proof.
  intros Hs Hx. apply Forall_forall. intros c Hc. rewrite forallb_forall in Hs.
  by apply (proj2 (token_not c (Hs c (proj1 (list_elem_of_In _ _) Hc)))).
Qed.

(** ** Trimming and collecting *)

Lemma trim_start_matches_fix p c s : p c = false → trim_start_matches p (c :: s) = c :: s.
Proof. intros Hc. cbn. by rewrite Hc. Qed.

Lemma trim_matches_fix p s :
  (∀ c, head s = Some c → p c = false) → (∀ c, last s = Some c → p c = false) → trim_matches p s = s.
Proof.
  intros Hh Hl. unfold trim_matches, trim_end_matches. destruct s as [|c s]; [done|].
  rewrite trim_start_matches_fix by (by apply Hh).
  destruct (reverse (c :: s)) as [|x r] eqn:E; [by apply (f_equal length) in E; rewrite length_reverse in E|].
  assert (last (c :: s) = Some x) as Hx by (rewrite <-(reverse_involutive (c :: s)), E, reverse_cons, last_snoc; done).
  rewrite trim_start_matches_fix by (by apply Hl). by rewrite <-E, reverse_involutive.
Qed.

Lemma trim_tokens s : forallb is_http_token_code_point s = true → trim_matches is_http_whitespace s = s.
Proof.
  intros Hs. rewrite forallb_forall in Hs.
  apply trim_matches_fix; intros c Hc; apply token_not, Hs, list_elem_of_In.
  - destruct s; [done|]. injection Hc as ->. left.
  - by apply last_Some_elem_of.
Qed.

Lemma collect_until_app stop a rest :
  Forall (λ c, stop c = false) a → (∀ c, head rest = Some c → stop c = true) →
  collect_until stop (a ++ rest) = (a, rest).
Proof.
  intros Ha Hr. induction Ha as [|c a Hc _ IH]; cbn.
  - destruct rest as [|c rest]; [done|]. cbn. by rewrite (Hr c eq_refl).
  - by rewrite Hc, IH.
Qed.

Lemma read_quoted_escaped v rest : read_quoted (flat_map escape_char v ++ 34%N :: rest) = (v, rest).
Proof.
  induction v as [|c v IH]; [done|]. cbn [flat_map]. rewrite <-(assoc_L app). unfold escape_char at 1.
  destruct (is_char 92 c || is_char 34 c) eqn:E.
  - cbn [app read_quoted]. cbn. by rewrite IH.
  - apply orb_false_iff in E as [E1 E2]. cbn [app read_quoted]. rewrite E2.
    destruct (flat_map escape_char v ++ 34%N :: rest) as [|e s] eqn:Es; [by destruct (flat_map escape_char v)|].
    by rewrite E1, IH.
Qed.

(** ** Parameters *)

Definition valid_name (n : rstr) : Prop :=
  n ≠ [] ∧ forallb is_http_token_code_point n = true ∧ to_ascii_lowercase n = n.

Definition rest_ok (rest : rstr) : Prop := ∀ c, head rest = Some c → is_char 59 c = true.

Lemma read_value_serialized v rest : v ≠ [] → rest_ok rest → read_value (serialize_value v ++ rest) = (v, rest).
Proof.
  intros Hv Hr. unfold serialize_value. destruct (forallb _ v) eqn:Ht.
  - destruct v as [|c v]; [done|]. cbn [app read_value].
    pose proof (tokens_avoid _ 34%N Ht ltac:(set_solver)) as Hq. apply Forall_cons in Hq as [-> _].
    change (c :: v ++ rest) with ((c :: v) ++ rest).
    rewrite collect_until_app; [by rewrite trim_tokens|by apply tokens_avoid; [|set_solver]|done].
  - cbn [app read_value]. rewrite <-(assoc_L app). cbn. apply read_quoted_escaped.
Qed.

Lemma read_parameter_serialized n v rest :
  valid_name n → rest_ok rest →
  read_parameter (n ++ (if bool_decide (v = []) then [] else [61%N] ++ serialize_value v) ++ rest) = (n, v, rest).
Proof.
  intros (Hne & Ht & Hlow) Hr. unfold read_parameter. destruct n as [|c n]; [done|].
  assert (is_http_whitespace c = false) as Hc.
  { cbn in Ht. apply andb_true_iff in Ht as [Ht _]. by apply token_not. }
  cbn [app]. rewrite trim_start_matches_fix by done. change (c :: n ++ ?x) with ((c :: n) ++ x).
  rewrite collect_until_app.
  - rewrite Hlow. case_bool_decide as Hv.
    + subst v. cbn [app]. destruct rest as [|x rest]; [done|].
      pose proof (Hr x eq_refl) as Hx. unfold is_char in Hx. apply N.eqb_eq in Hx as ->. done.
    + cbn [app]. change (is_char 61 61) with true. cbn iota. by rewrite read_value_serialized.
  - pose proof (tokens_avoid _ 59%N Ht ltac:(set_solver)) as H59. pose proof (tokens_avoid _ 61%N Ht ltac:(set_solver)) as H61.
    rewrite Forall_forall in H59, H61 |- *. intros x Hx. by rewrite H59, H61.
  - case_bool_decide; cbn; [|by intros x [= <-]]. intros x Hx. by rewrite (Hr x Hx).
Qed.

Lemma keep_first_last n v acc :
  n ≠ [] → Forall (λ kv, before kv (n, v)) acc → keep_first n v acc = acc ++ [(n, v)].
Proof.
  intros Hn Hacc. unfold keep_first. rewrite (bool_decide_eq_false_2 (n = [])) by done.
  assert (map_get acc n = None ∧ map_insert n v acc = acc ++ [(n, v)]) as [-> ->]; [|done].
  induction Hacc as [|[k w] acc Hk _ IH]; [done|]. apply before_iff in Hk as [Hle Hne]. cbn in Hle, Hne.
  rewrite map_get_cons, decide_False by done. cbn [map_insert]. rewrite bool_decide_eq_false_2, Hle by done.
  destruct IH as [-> ->]. done.
Qed.

Lemma parameter_loop_serialized ps acc fuel :
  btree (acc ++ ps) → Forall (λ nv, valid_name nv.1) ps → length (flat_map serialize_parameter ps) ≤ fuel →
  parameter_loop fuel (flat_map serialize_parameter ps) acc = acc ++ ps.
Proof.
  revert acc fuel. induction ps as [|[n v] ps IH]; intros acc fuel Hs Hv Hf.
  - rewrite app_nil_r. by destruct fuel.
  - apply Forall_cons in Hv as [Hn Hv]. cbn [flat_map] in *. unfold serialize_parameter in Hf at 1 |- * at 1.
    rewrite <-!(assoc_L app) in *. cbn [app fst snd length] in *. destruct fuel as [|fuel]; [lia|].
    cbn [parameter_loop]. change (is_char 59 59) with true. cbn iota.
    rewrite read_parameter_serialized; [|done|].
    + cbn in Hn. rewrite keep_first_last.
      * rewrite IH, <-(assoc_L app); [done| |done|].
        -- by rewrite <-(assoc_L app).
        -- rewrite !length_app in Hf. lia.
      * apply Hn.
      * apply Forall_forall. intros kv Hkv. unfold btree in Hs.
        apply list_elem_of_split in Hkv as (l1 & l2 & ->). rewrite <-!(assoc_L app) in Hs. cbn in Hs.
        clear -Hs. induction l1 as [|x l1 IH]; cbn in Hs; apply StronglySorted_inv in Hs as [Hs Hx]; [|by apply IH].
        rewrite Forall_forall in Hx. apply Hx. set_solver.
    + intros c. destruct ps as [|nv ps]; cbn; [done|]. by intros [= <-].
Qed.

(** ** The round trip *)

Definition mime_ok (m : MimeType) : Prop :=
  valid_name (mime_type m) ∧ valid_name (mime_subtype m) ∧ btree (mime_parameters m) ∧
  Forall (λ nv, valid_name nv.1) (mime_parameters m).

Lemma valid_name_token n : valid_name n → valid_token n = true.
Proof. intros (Hn & Ht & _). unfold valid_token. by rewrite bool_decide_eq_false_2, Ht. Qed.

Lemma last_app_ne {A} (a b : list A) : b ≠ [] → last (a ++ b) = last b.
Proof. intros Hb. rewrite last_app. destruct (last b) eqn:E; [done|]. by apply last_None in E. Qed.

Lemma token_last s c : forallb is_http_token_code_point s = true → last s = Some c → is_http_whitespace c = false.
Proof. intros Ht Hl%last_Some_elem_of. rewrite forallb_forall in Ht. by apply token_not, Ht, list_elem_of_In. Qed.

Lemma parameter_last nv c :
  valid_name nv.1 → last (serialize_parameter nv) = Some c → is_http_whitespace c = false.
Proof.
  intros (Hne & Hn & _). unfold serialize_parameter. case_bool_decide as Hv.
  - rewrite app_nil_r, last_app_ne by done. by apply token_last.
  - unfold serialize_value. destruct (forallb _ (nv.2)) eqn:Ht; rewrite !(assoc_L app).
    + rewrite last_app_ne by done. by apply token_last.
    + rewrite last_app_ne by done. by intros [= <-].
Qed.

Lemma parameters_last ps c :
  Forall (λ nv, valid_name nv.1) ps → last (flat_map serialize_parameter ps) = Some c → is_http_whitespace c = false.
Proof.
  induction 1 as [|nv ps Hn _ IH]; [done|]. cbn [flat_map].
  destruct (flat_map serialize_parameter ps) as [|x l] eqn:E.
  - rewrite app_nil_r. by apply parameter_last.
  - rewrite last_app_ne by done. apply IH.
Qed.

(** A MIME type that is written and read again is the same: type, subtype and every
    parameter, whatever characters the values have (quotes and backslashes included). *)
Theorem mime_round_trip m : mime_ok m → MimeType_parse (mime_serialize m) = Some m.
Proof.
  intros (Ht & Hs & Hb & Hp). unfold MimeType_parse.
  assert (trim_matches is_http_whitespace (mime_serialize m) = mime_serialize m) as ->.
  { apply trim_matches_fix; intros c.
    - unfold mime_serialize. destruct Ht as (Hne & Ht & _). destruct (mime_type m) as [|x t]; [done|].
      intros [= <-]. cbn in Ht. apply andb_true_iff in Ht as [Ht _]. by apply token_not.
    - unfold mime_serialize. destruct (flat_map serialize_parameter (mime_parameters m)) as [|x l] eqn:E.
      + rewrite app_nil_r. destruct Hs as (Hne & Hs & _). rewrite !(assoc_L app), last_app_ne by done. by apply token_last.
      + rewrite !(assoc_L app), last_app_ne by done. rewrite <-E. by apply parameters_last. }
  destruct Ht as (Htne & Htt & Htl) eqn:Et, Hs as (Hsne & Hst & Hsl) eqn:Es. unfold mime_serialize.
  rewrite collect_until_app; [|by apply tokens_avoid; [|set_solver]|by intros c [= <-]].
  cbn [app]. rewrite trim_tokens, Htl by done. rewrite valid_name_token by done. cbn [negb].
  rewrite collect_until_app; [|by apply tokens_avoid; [|set_solver]|].
  - rewrite trim_tokens, Hsl by done. rewrite valid_name_token by done. cbn [negb].
    rewrite (parameter_loop_serialized _ []) by done. by destruct m.
  - destruct (mime_parameters m) as [|nv ps]; cbn; [done|]. by intros c [= <-].
Qed.

Example mime_round_trip_witness :
  let m := {| mime_type := lit "multipart"; mime_subtype := lit "form-data";
              mime_parameters := [(lit "boundary", lit "a b\;=" ++ [34%N]); (lit "charset", [])] |} in
  mime_ok m ∧ MimeType_parse (mime_serialize m) = Some m.
Proof.
  cbn zeta. match goal with |- mime_ok ?m ∧ _ => assert (mime_ok m) as Hm end.
  { repeat split; try done; repeat constructor; done. }
  split; [exact Hm|]. exact (mime_round_trip _ Hm).
Defined.
