(* ===== verification/Headers.v ===== *)
(** * HTTP headers of script

    [crates/vixen-engine/src/headers.rs], definitions only: the validation of header names
    and values, the forbidden names, the CORS safelist, and the [Headers] store with its
    operations. *)

From Stdlib Require Import Lia ZArith.
From stdpp Require Import base decidable sets list strings.
From S2P Require Import Prelude.
From S2P Require Import RustStr.
From S2P Require Import RustUtf8.
From S2P Require Import Csp.
From S2P Require Import Mime.

(** ** Names and values *)

Inductive HeaderError : Type := InvalidName (name : rstr) | InvalidValue.

Definition is_tchar (b : N) : bool :=
  ((b =? 33) || (b =? 35) || (b =? 36) || (b =? 37) || (b =? 38) || (b =? 39) || (b =? 42) || (b =? 43) ||
   (b =? 45) || (b =? 46) || (b =? 94) || (b =? 95) || (b =? 96) || (b =? 124) || (b =? 126) ||
   (48 <=? b) && (b <=? 57) || (65 <=? b) && (b <=? 90) || (97 <=? b) && (b <=? 122))%N.

Definition validate_header_name (name : rstr) : result HeaderError rstr :=
  if bool_decide (name = []) || negb (forallb is_tchar (utf8 name)) then Err (InvalidName name)
  else Ok (to_ascii_lowercase name).

(** Space and tab. *)
Definition is_ows (c : rchar) : bool := ((c =? 32) || (c =? 9))%N.

Definition validate_header_value (value : rstr) : result HeaderError rstr :=
  if existsb (λ c, 255 <? c)%N value then Err InvalidValue
  else if existsb (λ b, (b =? 0) || (b =? 13) || (b =? 10))%N (utf8 value) then Err InvalidValue
  else Ok (trim_matches is_ows value).

(** ** Forbidden names *)

Definition FORBIDDEN_REQUEST_HEADERS : list rstr :=
  [lit "accept-charset"; lit "accept-encoding"; lit "access-control-request-headers";
   lit "access-control-request-method"; lit "connection"; lit "content-length"; lit "cookie"; lit "cookie2";
   lit "date"; lit "dnt"; lit "expect"; lit "host"; lit "keep-alive"; lit "origin"; lit "referer";
   lit "set-cookie"; lit "te"; lit "trailer"; lit "transfer-encoding"; lit "upgrade"; lit "via"].

(** [str::starts_with] *)
Definition has_prefix (prefix s : rstr) : bool := bool_decide (is_Some (strip_prefix prefix s)).

Definition is_forbidden_request_header (name : rstr) : bool :=
  let lower := to_ascii_lowercase name in
  if existsb (λ f, bool_decide (f = lower)) FORBIDDEN_REQUEST_HEADERS then true
  else has_prefix (lit "proxy-") lower || has_prefix (lit "sec-") lower.

Definition is_forbidden_response_header_name (name : rstr) : bool :=
  let lower := to_ascii_lowercase name in
  bool_decide (lower = lit "set-cookie") || bool_decide (lower = lit "set-cookie2").

(** ** The CORS safelist *)

Definition CORS_SAFELIST_MAX_VALUE_BYTES : N := 1024.

Definition is_cors_unsafe_byte (b : N) : bool := ((b <=? 32) && negb (b =? 9) || (126 <? b))%N.

Definition is_safelisted_range_value (value : rstr) : bool :=
  match strip_prefix (lit "bytes=") value with
  | None => false
  | Some rest =>
      match split_once 45 rest with
      | None => false
      | Some (start, last) =>
          negb (bool_decide (start = [])) && forallb is_digit (utf8 start) &&
          (bool_decide (last = []) || forallb is_digit (utf8 last))
      end
  end.

Definition safelisted_essence (essence : option rstr) : bool :=
  match essence with
  | Some e => bool_decide (e = lit "application/x-www-form-urlencoded") ||
              bool_decide (e = lit "multipart/form-data") || bool_decide (e = lit "text/plain")
  | None => false
  end.

Definition is_cors_safelisted_request_header (name value : rstr) : bool :=
  let lower := to_ascii_lowercase name in
  if (CORS_SAFELIST_MAX_VALUE_BYTES <? str_len value)%N then false
  else if existsb is_cors_unsafe_byte (utf8 value) then false
  else if bool_decide (lower = lit "accept") || bool_decide (lower = lit "accept-language") ||
          bool_decide (lower = lit "content-language") then true
  else if bool_decide (lower = lit "content-type") then
    safelisted_essence (mime_essence <$> MimeType_parse (trim value))
  else if bool_decide (lower = lit "range") then is_safelisted_range_value value
  else false.

(** ** The store: [entries] in insertion order *)

Abbreviation Headers := (list (rstr * rstr)) (only parsing).

Definition append_header (name value : rstr) (self : Headers) : result HeaderError Headers :=
  n ← validate_header_name name;
  v ← validate_header_value value;
  Ok (self ++ [(n, v)]).

Definition from_records (records : Headers) : result HeaderError Headers :=
  for_each (λ headers nv, append_header nv.1 nv.2 headers) [] records.

(** The [retain] of [set], with its captured flag [replaced], which is also what remains. *)
Fixpoint retain_first (n : rstr) (replaced : bool) (self : Headers) : Headers * bool :=
  match self with
  | [] => ([], replaced)
  | (existing, val) :: self =>
      if bool_decide (existing = n) then
        if negb replaced then
          let '(kept, replaced) := retain_first n true self in ((existing, val) :: kept, replaced)
        else retain_first n replaced self
      else
        let '(kept, replaced) := retain_first n replaced self in ((existing, val) :: kept, replaced)
  end.
Fixpoint overwrite_first (n v : rstr) (self : Headers) : Headers :=
  match self with
  | [] => []
  | (existing, val) :: self =>
      if bool_decide (existing = n) then (existing, v) :: self else (existing, val) :: overwrite_first n v self
  end.
Definition set_header (name value : rstr) (self : Headers) : result HeaderError Headers :=
  n ← validate_header_name name;
  v ← validate_header_value value;
  let '(kept, replaced) := retain_first n false self in
  Ok (if replaced then overwrite_first n v kept else kept ++ [(n, v)]).

Definition get_all_headers (name : rstr) (self : Headers) : list rstr :=
  let lower := to_ascii_lowercase name in snd <$> filter (λ nv, nv.1 = lower) self.
Definition has_header (name : rstr) (self : Headers) : bool :=
  let lower := to_ascii_lowercase name in existsb (λ nv, bool_decide (nv.1 = lower)) self.
Definition get_header (name : rstr) (self : Headers) : option rstr :=
  match get_all_headers name self with [] => None | found => Some (join (lit ", ") found) end.
Definition delete_header (name : rstr) (self : Headers) : Headers :=
  let lower := to_ascii_lowercase name in filter (λ nv, nv.1 ≠ lower) self.

(** [collect::<BTreeSet<_>>()]: the distinct names in their order. *)
Definition name_set (self : Headers) : list rstr := sort_by rstr_leb (remove_dups (fst <$> self)).
Definition headers_len (self : Headers) : nat := length (name_set self).

(** [seen] is the captured vector of [iter]. *)
Fixpoint iter_loop (all : Headers) (seen : list rstr) (self : Headers) : list (rstr * rstr) :=
  match self with
  | [] => []
  | (n, _) :: self =>
      if existsb (λ s, bool_decide (s = n)) seen then iter_loop all seen self
      else match get_header n all with
           | Some v => (n, v) :: iter_loop all (seen ++ [n]) self
           | None => iter_loop all (seen ++ [n]) self
           end
  end.
Definition headers_iter (self : Headers) : list (rstr * rstr) := iter_loop self [] self.
Definition headers_sorted_iter (self : Headers) : list (rstr * rstr) :=
  omap (λ n, (λ v, (n, v)) <$> get_header n self) (sort_by rstr_leb (name_set self)).
