(* ===== verification/HeadersFacts.v ===== *)
(** * Properties of the headers of script

    What a [Headers] store may hold, its operations as those of an ordered multimap, and the
    CORS safelist. *)

From Stdlib Require Import Lia ZArith Sorting.
From stdpp Require Import base decidable sets list strings.
From S2P Require Import Prelude.
From S2P Require Import RustStr.
From S2P Require Import RustUtf8.
From S2P Require Import Csp.
From S2P Require Import Mime.
From S2P Require Import Headers.

(** ** What may be stored *)

Definition name_ok (n : rstr) : Prop :=
  n ≠ [] ∧ forallb is_tchar n = true ∧ to_ascii_lowercase n = n.
Definition value_char_ok (c : rchar) : Prop := (c ≤ 255 ∧ c ≠ 0 ∧ c ≠ 10 ∧ c ≠ 13)%N.
Definition value_ok (v : rstr) : Prop :=
  Forall value_char_ok v ∧ (∀ c, head v = Some c → is_ows c = false) ∧
  (∀ c, last v = Some c → is_ows c = false).
Definition header_ok (nv : rstr * rstr) : Prop := name_ok nv.1 ∧ value_ok nv.2.

Lemma utf8_char_ascii c : (c < 128)%N → utf8_char c = [c].
Proof. intros Hc. unfold utf8_char. by rewrite (proj2 (N.ltb_lt c 128)). Qed.
Lemma utf8_char_high c b : (128 ≤ c)%N → b ∈ utf8_char c → (128 ≤ b)%N.
Proof.
  intros Hc. unfold utf8_char. rewrite (proj2 (N.ltb_ge c 128)) by done.
  revert b. apply Forall_forall.
  repeat case_match; repeat constructor; try apply N.le_add_r; eapply N.le_trans, N.le_add_r; done.
Qed.
Lemma utf8_char_ne c : utf8_char c ≠ [].
Proof. unfold utf8_char. by repeat case_match. Qed.

(** A test that refuses every byte above 127 reads the characters. *)
Lemma forallb_utf8 (p : N → bool) s : (∀ b, (128 ≤ b)%N → p b = false) → forallb p (utf8 s) = forallb p s.
Proof.
  intros Hp. induction s as [|c s IH]; [done|]. unfold utf8 in *. cbn [flat_map forallb].
  rewrite forallb_app, IH. f_equal. destruct (N.lt_ge_cases c 128) as [Hc|Hc].
  - rewrite utf8_char_ascii by done. cbn. by rewrite andb_true_r.
  - rewrite Hp by done. destruct (utf8_char c) as [|b l] eqn:E; [by apply utf8_char_ne in E|].
    cbn. rewrite Hp; [done|]. apply (utf8_char_high c); [done|]. rewrite E. by left.
Qed.
(** A test that accepts no byte above 127 and so is about ASCII characters. *)
Lemma existsb_utf8 (p : N → bool) s : (∀ b, (128 ≤ b)%N → p b = false) → existsb p (utf8 s) = existsb p s.
Proof.
  intros Hp. induction s as [|c s IH]; [done|]. unfold utf8 in *. cbn [flat_map existsb].
  rewrite existsb_app, IH. f_equal. destruct (N.lt_ge_cases c 128) as [Hc|Hc].
  - rewrite utf8_char_ascii by done. cbn. by rewrite orb_false_r.
  - rewrite Hp by done. apply not_true_is_false. rewrite existsb_exists. intros (b & Hb & Hpb).
    apply list_elem_of_In, utf8_char_high in Hb; [|done]. by rewrite Hp in Hpb.
Qed.

Lemma is_tchar_high b : (128 ≤ b)%N → is_tchar b = false.
Proof. intros Hb. unfold is_tchar. rewrite !orb_false_iff, !andb_false_iff, !N.eqb_neq, !N.leb_gt. lia. Qed.

Lemma is_tchar_lower c : is_tchar c = true → is_tchar (ascii_lower c) = true.
Proof.
  unfold ascii_lower. destruct ((65 <=? c) && (c <=? 90))%N eqn:E; [|done]. intros _.
  apply andb_true_iff in E as [E1%N.leb_le E2%N.leb_le].
  unfold is_tchar. rewrite (proj2 (N.leb_le 97 (c + 32))), (proj2 (N.leb_le (c + 32) 122)) by lia.
  by rewrite !orb_true_r.
Qed.

Lemma validate_header_name_Ok name n :
  validate_header_name name = Ok n ↔ name ≠ [] ∧ forallb is_tchar name = true ∧ n = to_ascii_lowercase name.
Proof.
  unfold validate_header_name. rewrite forallb_utf8 by apply is_tchar_high.
  case_bool_decide as Hn; cbn [orb]; [naive_solver|].
  destruct (forallb is_tchar name); cbn; naive_solver.
Qed.

Lemma name_of_valid name n : validate_header_name name = Ok n → name_ok n.
Proof.
  rewrite validate_header_name_Ok. intros (Hne & Ht & ->). split_and!.
  - unfold to_ascii_lowercase. by destruct name.
  - unfold to_ascii_lowercase. rewrite forallb_forall in Ht |- *. intros c Hc.
    apply list_elem_of_In, list_elem_of_fmap in Hc as (d & -> & Hd). by apply is_tchar_lower, Ht, list_elem_of_In.
  - apply to_ascii_lowercase_idemp.
Qed.

Lemma forbidden_byte_chars value :
  existsb (λ c, 255 <? c)%N value = false →
  existsb (λ b, (b =? 0) || (b =? 13) || (b =? 10))%N (utf8 value) = false → Forall value_char_ok value.
Proof.
  rewrite existsb_utf8 by (intros b Hb; rewrite !orb_false_iff, !N.eqb_neq; lia).
  intros Ha Hb. apply Forall_forall. intros c Hc%list_elem_of_In.
  assert (¬ (255 <? c)%N = true) as Hx.
  { intros Hx. apply not_true_iff_false in Ha. apply Ha, existsb_exists. by exists c. }
  assert (¬ ((c =? 0) || (c =? 13) || (c =? 10))%N = true) as Hy.
  { intros Hy. apply not_true_iff_false in Hb. apply Hb, existsb_exists. by exists c. }
  rewrite !not_true_iff_false, !orb_false_iff, !N.eqb_neq in Hy. rewrite not_true_iff_false, N.ltb_ge in Hx.
  unfold value_char_ok. lia.
Qed.

Lemma trim_start_matches_head p s c : head (trim_start_matches p s) = Some c → p c = false.
Proof. induction s as [|d s IH]; cbn; [done|]. destruct (p d) eqn:E; [done|]. by intros [= <-]. Qed.
Lemma trim_start_matches_suffix p s : ∃ k, s = k ++ trim_start_matches p s.
Proof.
  induction s as [|d s [k IH]]; [by exists []|]. cbn. destruct (p d); [|by exists []].
  exists (d :: k). by rewrite IH at 1.
Qed.

Lemma trim_matches_ends p s c :
  (head (trim_matches p s) = Some c → p c = false) ∧ (last (trim_matches p s) = Some c → p c = false).
Proof.
  unfold trim_matches, trim_end_matches. split.
  - destruct (trim_start_matches_suffix p (reverse (trim_start_matches p s))) as [k Hk].
    intros Hh. apply (trim_start_matches_head p s). rewrite <-(reverse_involutive (trim_start_matches p s)), Hk.
    rewrite reverse_app. destruct (reverse (trim_start_matches p (reverse _))); [done|exact Hh].
  - rewrite last_reverse. apply trim_start_matches_head.
Qed.
Lemma trim_matches_Forall p (P : rchar → Prop) s : Forall P s → Forall P (trim_matches p s).
Proof.
  intros Hs. unfold trim_matches, trim_end_matches.
  destruct (trim_start_matches_suffix p s) as [k Hk]. rewrite Hk in Hs. apply Forall_app in Hs as [_ Hs].
  apply Forall_reverse. apply Forall_reverse in Hs.
  destruct (trim_start_matches_suffix p (reverse (trim_start_matches p s))) as [k' Hk'].
  rewrite Hk' in Hs. by apply Forall_app in Hs as [_ Hs].
Qed.

Lemma validate_header_value_Ok value v :
  validate_header_value value = Ok v ↔ Forall value_char_ok value ∧ v = trim_matches is_ows value.
Proof.
  unfold validate_header_value. split.
  - destruct (existsb (λ c, _)%N value) eqn:Ea; [done|]. destruct (existsb _ (utf8 value)) eqn:Eb; [done|].
    intros [= <-]. split; [by apply forbidden_byte_chars|done].
  - intros [Hv ->]. rewrite Forall_forall in Hv.
    destruct (existsb (λ c, _)%N value) eqn:Ea.
    { apply existsb_exists in Ea as (c & Hc%list_elem_of_In & Hx%N.ltb_lt). apply Hv in Hc as (? & _). lia. }
    rewrite existsb_utf8 by (intros b Hb; rewrite !orb_false_iff, !N.eqb_neq; lia).
    clear Ea. destruct (existsb _ value) eqn:Eb; [|done].
    apply existsb_exists in Eb as (c & Hc%list_elem_of_In & Hx). apply Hv in Hc as (? & ? & ? & ?).
    rewrite !orb_true_iff, !N.eqb_eq in Hx. lia.
Qed.
Lemma value_of_valid value v : validate_header_value value = Ok v → value_ok v.
Proof.
  rewrite validate_header_value_Ok. intros [Hv ->]. split_and!; [by apply trim_matches_Forall| |];
    intros c; by apply trim_matches_ends.
Qed.

(** ** Runs of operations *)

(** The operations script can make; an error leaves the store as it was. *)
Inductive HeaderOp : Type :=
| OpAppend (name value : rstr) | OpSet (name value : rstr) | OpDelete (name : rstr).
Definition header_step (h : list (rstr * rstr)) (o : HeaderOp) : list (rstr * rstr) :=
  match o with
  | OpAppend name value => match append_header name value h with Ok h' => h' | Err _ => h end
  | OpSet name value => match set_header name value h with Ok h' => h' | Err _ => h end
  | OpDelete name => delete_header name h
  end.
Definition run_headers (ops : list HeaderOp) : list (rstr * rstr) := foldl header_step [] ops.

Lemma retain_first_spec n h replaced :
  let '(kept, r) := retain_first n replaced h in
  r = replaced || existsb (λ nv, bool_decide (nv.1 = n)) h ∧
  filter (λ nv, nv.1 ≠ n) kept = filter (λ nv, nv.1 ≠ n) h ∧
  filter (λ nv, nv.1 = n) kept = (if replaced then [] else take 1 (filter (λ nv, nv.1 = n) h)) ∧
  kept ⊆ h.
Proof.
  revert replaced. induction h as [|[m v] h IH]; intros replaced; cbn [retain_first].
  { rewrite orb_false_r. by destruct replaced. }
  cbn [existsb fst]. case_bool_decide as Hm; cbn [orb].
  - subst m. specialize (IH true).
    rewrite (filter_cons_True (λ nv, nv.1 = n)), (filter_cons_False (λ nv, nv.1 ≠ n) (n, v) h) by (cbn; naive_solver).
    destruct replaced; cbn [negb]; destruct (retain_first n true h) as [kept r]; destruct IH as (-> & Hne & He & Hs).
    { split_and!; [done..|set_solver]. }
    rewrite (filter_cons_True (λ nv, nv.1 = n)), (filter_cons_False (λ nv, nv.1 ≠ n)), He by (cbn; naive_solver).
    split_and!; [done..|set_solver].
  - specialize (IH replaced). destruct (retain_first n replaced h) as [kept r]. destruct IH as (-> & Hne & He & Hs).
    rewrite !(filter_cons_True (λ nv, nv.1 ≠ n)), !(filter_cons_False (λ nv, nv.1 = n)), Hne, He by done.
    split_and!; [done..|set_solver].
Qed.

Lemma overwrite_first_spec n v h :
  filter (λ nv, nv.1 ≠ n) (overwrite_first n v h) = filter (λ nv, nv.1 ≠ n) h ∧
  snd <$> filter (λ nv, nv.1 = n) (overwrite_first n v h) =
    match filter (λ nv, nv.1 = n) h with [] => [] | _ :: t => v :: (snd <$> t) end ∧
  (∀ nv, nv ∈ overwrite_first n v h → nv ∈ h ∨ nv = (n, v)).
Proof.
  induction h as [|[m w] h (IHn & IHe & IHs)]; [split_and!; cbn; naive_solver|]. cbn [overwrite_first].
  case_bool_decide as Hm.
  - subst m. rewrite !(filter_cons_True (λ nv, nv.1 = n)), !(filter_cons_False (λ nv, nv.1 ≠ n)) by (cbn; naive_solver).
    split_and!; [done|done|]. intros nv [->|Hnv]%elem_of_cons; [by right|left; by right].
  - rewrite !(filter_cons_True (λ nv, nv.1 ≠ n)), !(filter_cons_False (λ nv, nv.1 = n)), IHn, IHe by done.
    split_and!; [done|done|]. intros nv [->|[Hnv| ->]%IHs]%elem_of_cons; [left; by left|left; by right|by right].
Qed.

Lemma filter_existsb_nil n h :
  existsb (λ nv : rstr * rstr, bool_decide (nv.1 = n)) h = false ↔ filter (λ nv, nv.1 = n) h = [].
Proof.
  induction h as [|[m v] h IH]; [done|]. cbn [existsb fst]. rewrite filter_cons. cbn [fst].
  case_bool_decide as Hm; [rewrite decide_True by done; cbn; naive_solver|by rewrite decide_False].
Qed.

(** What [set] leaves: the one value under the name, every other header. *)
Lemma set_header_Ok name value h h' :
  set_header name value h = Ok h' →
  ∃ n v, validate_header_name name = Ok n ∧ validate_header_value value = Ok v ∧
    filter (λ nv, nv.1 ≠ n) h' = filter (λ nv, nv.1 ≠ n) h ∧
    snd <$> filter (λ nv, nv.1 = n) h' = [v] ∧ (∀ nv, nv ∈ h' → nv ∈ h ∨ nv = (n, v)).
Proof.
  unfold set_header. rewrite bind_Ok. intros (n & Hn & Hh). rewrite bind_Ok in Hh. destruct Hh as (v & Hv & Hh).
  exists n, v. split; [done|]. split; [done|]. pose proof (retain_first_spec n h false) as Hr.
  destruct (retain_first n false h) as [kept r]. destruct Hr as (-> & Hne & He & Hs).
  cbn [orb] in Hh. destruct (existsb _ h) eqn:Ex; injection Hh as <-.
  - destruct (overwrite_first_spec n v kept) as (On & Oe & Oi). rewrite On, Oe, He, Hne. split; [done|]. split.
    + destruct (filter (λ nv, nv.1 = n) h) as [|? l] eqn:E; [|by destruct l].
      apply filter_existsb_nil in E. congruence.
    + intros nv [Hnv| ->]%Oi; [left; set_solver|by right].
  - apply filter_existsb_nil in Ex. rewrite Ex in He. rewrite !filter_app, Hne, He.
    rewrite (filter_cons_False (λ nv, nv.1 ≠ n)), (filter_cons_True (λ nv, nv.1 = n)), !filter_nil, app_nil_r by (cbn; naive_solver).
    split; [done|]. split; [done|]. intros nv [Hnv|Hnv]%elem_of_app; [left; set_solver|right; by apply list_elem_of_singleton].
Qed.

Lemma append_header_Ok name value h h' :
  append_header name value h = Ok h' ↔
  ∃ n v, validate_header_name name = Ok n ∧ validate_header_value value = Ok v ∧ h' = h ++ [(n, v)].
Proof.
  unfold append_header. rewrite bind_Ok. setoid_rewrite bind_Ok. split.
  - intros (n & Hn & v & Hv & [= <-]). eauto.
  - intros (n & v & Hn & Hv & ->). eauto.
Qed.

Lemma header_step_ok h o : Forall header_ok h → Forall header_ok (header_step h o).
Proof.
  intros Hh. destruct o as [name value|name value|name]; cbn.
  - destruct (append_header name value h) as [h'|] eqn:E; [|done].
    apply append_header_Ok in E as (n & v & Hn & Hv & ->). apply Forall_app. split; [done|].
    apply Forall_singleton. split; [by apply name_of_valid in Hn|by apply value_of_valid in Hv].
  - destruct (set_header name value h) as [h'|] eqn:E; [|done].
    apply set_header_Ok in E as (n & v & Hn & Hv & _ & _ & Hs). apply Forall_forall. rewrite Forall_forall in Hh.
    intros nv [Hnv| ->]%Hs; [by apply Hh|]. split; [by apply name_of_valid in Hn|by apply value_of_valid in Hv].
  - unfold delete_header. rewrite Forall_forall in Hh |- *. intros nv [_ Hnv]%list_elem_of_filter. by apply Hh.
Qed.

Lemma run_headers_ok ops : Forall header_ok (run_headers ops).
Proof.
  unfold run_headers. assert (Forall header_ok []) as Hh by constructor. revert Hh. generalize (@nil (rstr * rstr)).
  induction ops as [|o ops IH]; intros h Hh; [done|]. by apply IH, header_step_ok.
Qed.

(** ** Reading *)

Lemma get_all_lower m h : get_all_headers (to_ascii_lowercase m) h = get_all_headers m h.
Proof. unfold get_all_headers. by rewrite to_ascii_lowercase_idemp. Qed.

Lemma has_header_spec m h : has_header m h = true ↔ get_all_headers m h ≠ [].
Proof.
  unfold has_header, get_all_headers. pose proof (filter_existsb_nil (to_ascii_lowercase m) h) as Hf.
  destruct (existsb _ h); split; try done.
  - intros _ E%fmap_nil_inv. by apply Hf in E.
  - intros E. by rewrite (proj1 Hf eq_refl) in E.
Qed.

Lemma get_header_None m h : get_header m h = None ↔ get_all_headers m h = [].
Proof. unfold get_header. by destruct (get_all_headers m h). Qed.

Lemma get_all_elem n h : to_ascii_lowercase n = n → get_all_headers n h ≠ [] ↔ n ∈ h.*1.
Proof.
  intros Hl. rewrite <-has_header_spec. unfold has_header. rewrite Hl, existsb_exists. split.
  - intros ([m v] & Hm%list_elem_of_In & Hb%bool_decide_eq_true). apply list_elem_of_fmap. by exists (m, v).
  - intros ([m v] & -> & Hm)%list_elem_of_fmap. exists (m, v). split; [by apply list_elem_of_In|by apply bool_decide_eq_true].
Qed.

Lemma iter_loop_spec all seen l :
  (∀ n, n ∈ l.*1 → is_Some (get_header n all)) →
  NoDup (iter_loop all seen l).*1 ∧
  (∀ n, n ∈ (iter_loop all seen l).*1 ↔ n ∈ l.*1 ∧ n ∉ seen) ∧
  (∀ nv, nv ∈ iter_loop all seen l → get_header nv.1 all = Some nv.2).
Proof.
  revert seen. induction l as [|[n w] l IH]; intros seen Hl; cbn [iter_loop].
  { split; [constructor|]. split; intros ?; rewrite ?elem_of_nil; naive_solver. }
  assert (∀ n, n ∈ l.*1 → is_Some (get_header n all)) as Hl' by (intros m Hm; apply Hl; by right).
  destruct (existsb (λ s, bool_decide (s = n)) seen) eqn:Ex.
  - apply existsb_exists in Ex as (m & Hm%list_elem_of_In & ->%bool_decide_eq_true).
    destruct (IH seen Hl') as (H1 & H2 & H3). split_and!; try done. intros m. rewrite H2. cbn. rewrite elem_of_cons. naive_solver.
  - assert (n ∉ seen) as Hn.
    { intros Hn. apply not_true_iff_false in Ex. apply Ex, existsb_exists. exists n.
      split; [by apply list_elem_of_In|by apply bool_decide_eq_true]. }
    destruct (Hl n) as [v Hv]; [by left|]. rewrite Hv. destruct (IH (seen ++ [n]) Hl') as (H1 & H2 & H3).
    cbn [fmap list_fmap fst]. split_and!.
    + constructor; [|done]. rewrite H2, elem_of_app, list_elem_of_singleton. naive_solver.
    + intros m. rewrite !elem_of_cons, H2, elem_of_app, list_elem_of_singleton. destruct (decide (m = n)); naive_solver.
    + intros nv [->|Hnv]%elem_of_cons; [done|by apply H3].
Qed.

Lemma lower_names h : Forall header_ok h → ∀ n, n ∈ h.*1 → to_ascii_lowercase n = n.
Proof. rewrite Forall_forall. intros Hh n ([m v] & -> & Hm)%list_elem_of_fmap. apply (Hh _ Hm). Qed.

Lemma get_header_name n h : to_ascii_lowercase n = n → is_Some (get_header n h) ↔ n ∈ h.*1.
Proof.
  intros Hn. rewrite <-get_all_elem, <-not_eq_None_Some, get_header_None by done. done.
Qed.

Lemma headers_iter_spec h :
  Forall header_ok h →
  NoDup (headers_iter h).*1 ∧
  (∀ n v, (n, v) ∈ headers_iter h ↔ to_ascii_lowercase n = n ∧ get_header n h = Some v).
Proof.
  intros Hh. pose proof (lower_names h Hh) as Hl. unfold headers_iter.
  destruct (iter_loop_spec h [] h) as (H1 & H2 & H3).
  { intros n Hn. apply get_header_name; [by apply Hl|done]. }
  split; [done|]. intros n v. split.
  - intros Hn. split; [|by apply (H3 (n, v))]. apply Hl. apply (H2 n). apply list_elem_of_fmap. by exists (n, v).
  - intros [Hn Hv]. assert (n ∈ (iter_loop h [] h).*1) as Hi.
    { apply H2. split; [apply get_header_name; [done|by exists v]|apply not_elem_of_nil]. }
    apply list_elem_of_fmap in Hi as ([m w] & -> & Hm). pose proof (H3 _ Hm) as Hw. cbn [fst snd] in *. congruence.
Qed.

Lemma name_set_Permutation h : Forall header_ok h → name_set h ≡ₚ (headers_iter h).*1.
Proof.
  intros Hh. unfold name_set. rewrite sort_by_Permutation. destruct (headers_iter_spec h Hh) as [Hnd Hi].
  apply NoDup_Permutation; [apply NoDup_remove_dups|done|]. intros n. rewrite elem_of_remove_dups. split.
  - intros Hn. pose proof (lower_names h Hh n Hn) as Hl. apply get_header_name in Hn as [v Hv]; [|done].
    apply list_elem_of_fmap. exists (n, v). split; [done|]. by apply Hi.
  - intros ([m v] & -> & [Hl Hv]%Hi)%list_elem_of_fmap. apply get_header_name; [done|by exists v].
Qed.

Lemma omap_pairs (f : rstr → option rstr) (l : list (rstr * rstr)) :
  (∀ nv, nv ∈ l → f nv.1 = Some nv.2) → omap (λ n, (λ v, (n, v)) <$> f n) l.*1 = l.
Proof.
  induction l as [|[n v] l IH]; intros Hf; [done|]. cbn. pose proof (Hf (n, v)) as Hn. cbn in Hn.
  rewrite Hn by (by left). cbn. f_equal. apply IH. intros nv Hnv. apply Hf. by right.
Qed.

Lemma headers_sorted_iter_spec h :
  Forall header_ok h →
  headers_sorted_iter h ≡ₚ headers_iter h ∧
  StronglySorted (λ a b, rstr_leb a.1 b.1 = true) (headers_sorted_iter h).
Proof.
  intros Hh. destruct (headers_iter_spec h Hh) as [_ Hi]. unfold headers_sorted_iter. split.
  - rewrite sort_by_Permutation, (name_set_Permutation h Hh), omap_pairs; [done|]. intros [n v] Hn. by apply Hi.
  - pose proof (sort_by_Sorted rstr_leb rstr_leb_total rstr_leb_trans (name_set h)) as Hs. revert Hs.
    generalize (sort_by rstr_leb (name_set h)). induction 1 as [|n l Hs IH Hn]; [constructor|]. cbn.
    destruct (get_header n h) as [v|]; cbn; [|done]. constructor; [done|]. apply Forall_forall. intros [m w].
    rewrite list_elem_of_omap. rewrite Forall_forall in Hn. intros (k & Hk & Hw).
    destruct (get_header k h); [|done]. injection Hw as <- <-. by apply Hn.
Qed.

(** ** Writing *)

(** The value that a call of [append] or [set] stores, when it stores one. *)
Definition accepted (name value : rstr) : option rstr :=
  if negb (bool_decide (name = [])) && forallb is_tchar name && bool_decide (Forall value_char_ok value)
  then Some (trim_matches is_ows value) else None.

Lemma accepted_Some name value w :
  accepted name value = Some w ↔
  validate_header_name name = Ok (to_ascii_lowercase name) ∧ validate_header_value value = Ok w.
Proof.
  rewrite validate_header_name_Ok, validate_header_value_Ok. unfold accepted.
  repeat case_bool_decide; destruct (forallb is_tchar name); cbn; naive_solver.
Qed.
Lemma name_is_lower name n : validate_header_name name = Ok n → n = to_ascii_lowercase name.
Proof. rewrite validate_header_name_Ok. naive_solver. Qed.

Lemma get_all_one m n v :
  get_all_headers m [(to_ascii_lowercase n, v)] = if decide (to_ascii_lowercase m = to_ascii_lowercase n) then [v] else [].
Proof. unfold get_all_headers. rewrite filter_cons. cbn. repeat case_decide; by try congruence. Qed.

Lemma append_values m n v h :
  get_all_headers m (header_step h (OpAppend n v)) =
  get_all_headers m h ++
    match accepted n v with
    | Some w => if decide (to_ascii_lowercase m = to_ascii_lowercase n) then [w] else []
    | None => []
    end.
Proof.
  cbn. destruct (append_header n v h) as [h'|e] eqn:E.
  - apply append_header_Ok in E as (n' & w & Hn & Hv & ->). pose proof (name_is_lower _ _ Hn) as ->.
    rewrite (proj2 (accepted_Some n v w)) by done. rewrite <-get_all_one.
    unfold get_all_headers. by rewrite filter_app, fmap_app.
  - destruct (accepted n v) as [w|] eqn:Ea; [|by rewrite app_nil_r].
    apply accepted_Some in Ea as [Hn Hv].
    assert (append_header n v h = Ok (h ++ [(to_ascii_lowercase n, w)])) as E' by (apply append_header_Ok; eauto).
    congruence.
Qed.

Lemma filter_other (m n : rstr) (h h' : list (rstr * rstr)) :
  m ≠ n → filter (λ nv, nv.1 ≠ n) h' = filter (λ nv, nv.1 ≠ n) h →
  filter (λ nv, nv.1 = m) h' = filter (λ nv, nv.1 = m) h.
Proof.
  intros Hm He. rewrite <-(list_filter_filter_l (λ nv, nv.1 = m) (λ nv, nv.1 ≠ n) h) by (intros nv ->; done).
  rewrite <-(list_filter_filter_l (λ nv, nv.1 = m) (λ nv, nv.1 ≠ n) h') by (intros nv ->; done). by rewrite He.
Qed.

Lemma set_header_total name value h n v :
  validate_header_name name = Ok n → validate_header_value value = Ok v → is_Some (match set_header name value h with Ok x => Some x | Err _ => None end).
Proof. unfold set_header. intros -> ->. cbn. destruct (retain_first n false h). by eexists. Qed.

Lemma set_values m n v h :
  get_all_headers m (header_step h (OpSet n v)) =
  match accepted n v with
  | Some w => if decide (to_ascii_lowercase m = to_ascii_lowercase n) then [w] else get_all_headers m h
  | None => get_all_headers m h
  end.
Proof.
  cbn. destruct (set_header n v h) as [h'|e] eqn:E.
  - apply set_header_Ok in E as (n' & w & Hn & Hv & Hne & He & _). pose proof (name_is_lower _ _ Hn) as ->.
    rewrite (proj2 (accepted_Some n v w)) by done. unfold get_all_headers.
    case_decide as Hm; [by rewrite Hm|]. by rewrite (filter_other _ _ _ _ Hm Hne).
  - destruct (accepted n v) as [w|] eqn:Ea; [|done]. apply accepted_Some in Ea as [Hn Hv].
    destruct (set_header_total n v h _ _ Hn Hv) as [? Hs]. by rewrite E in Hs.
Qed.

Lemma delete_values m n h :
  get_all_headers m (header_step h (OpDelete n)) =
  if decide (to_ascii_lowercase m = to_ascii_lowercase n) then [] else get_all_headers m h.
Proof.
  cbn. unfold delete_header, get_all_headers. case_decide as Hm.
  - rewrite Hm. induction h as [|nv h IH]; [done|]. rewrite filter_cons. case_decide; [|done].
    rewrite filter_cons_False; done.
  - f_equal. by apply list_filter_filter_l; intros nv ->.
Qed.

(** ** Properties *)

(** Whatever calls script makes, every header of the store has a lower-case name of token
    characters and a trimmed value without line breaks, NUL or characters above U+00FF, so no
    stored header can end the header it is written as. *)
Theorem headers_well_formed ops : Forall header_ok (run_headers ops).
Proof. apply run_headers_ok. Qed.

(** The store is a multimap from names, in any case, to lists of values: [append] adds a
    value, [set] replaces them all, [delete] removes them, a call with an invalid name or value
    changes nothing; [has] and [get] report them, iteration lists every name once with its
    joined values, and sorted iteration lists the same in the order of the names. *)
Theorem headers_multimap ops :
  let h := run_headers ops in
  (∀ m n v, get_all_headers m (header_step h (OpAppend n v)) =
            get_all_headers m h ++
              match accepted n v with
              | Some w => if decide (to_ascii_lowercase m = to_ascii_lowercase n) then [w] else []
              | None => []
              end) ∧
  (∀ m n v, get_all_headers m (header_step h (OpSet n v)) =
            match accepted n v with
            | Some w => if decide (to_ascii_lowercase m = to_ascii_lowercase n) then [w] else get_all_headers m h
            | None => get_all_headers m h
            end) ∧
  (∀ m n, get_all_headers m (header_step h (OpDelete n)) = if decide (to_ascii_lowercase m = to_ascii_lowercase n) then [] else get_all_headers m h) ∧
  (∀ m, has_header m h = true ↔ get_all_headers m h ≠ []) ∧
  NoDup (headers_iter h).*1 ∧
  (∀ n v, (n, v) ∈ headers_iter h ↔
          to_ascii_lowercase n = n ∧ get_all_headers n h ≠ [] ∧ v = join (lit ", ") (get_all_headers n h)) ∧
  headers_sorted_iter h ≡ₚ headers_iter h ∧
  StronglySorted (λ a b, rstr_leb a.1 b.1 = true) (headers_sorted_iter h) ∧
  headers_len h = length (headers_iter h).
Proof.
  intros h. pose proof (run_headers_ok ops) as Hh. fold h in Hh.
  destruct (headers_iter_spec h Hh) as [Hnd Hi]. destruct (headers_sorted_iter_spec h Hh) as [Hp Hs].
  split; [|split; [|split; [|split; [intros m; apply has_header_spec|split; [done|split; [|split; [done|split; [done|]]]]]]]].
  - intros; apply append_values.
  - intros; apply set_values.
  - intros; apply delete_values.
  - intros n v. rewrite Hi. unfold get_header. destruct (get_all_headers n h); naive_solver.
  - unfold headers_len. by rewrite (Permutation_length (name_set_Permutation h Hh)), length_fmap.
Qed.

(** A value that script may send to another site without asking: the bytes of the second
    group of the standard's unsafe bytes, such as the quote and the brackets, pass, while the
    space, which the standard permits, does not. *)
Example unsafe_bytes_differ :
  is_cors_safelisted_request_header (lit "accept") [34; 40; 58; 60; 64; 91; 123]%N = true ∧
  is_cors_safelisted_request_header (lit "accept") (lit "text/html, text/plain") = false.
Proof. split; vm_compute; reflexivity. Qed.
