(* ===== verification/Cors.v ===== *)
(** * CORS

    Definitions only.  [crates/vixen-net/src/cors.rs]: the parsed [Access-Control-*] headers,
    the CORS check and the filtered response.  [crates/vixen-engine/src/script/webapi.rs]: when
    a request needs a preflight, how its response is judged ([cors_preflight_blocking]) and the
    preflight cache.

    The clock is an argument ([Instant] and [Duration] in nanoseconds), the transport of a
    preflight is the argument [send], and [commits] says whether the fetch is still wanted when
    its result is committed. *)

From Stdlib Require Import Lia ZArith.
From stdpp Require Import base decidable sets list strings.
From S2P Require Import Prelude.
From S2P Require Import RustStr.
From S2P Require Import RustUtf8.
From S2P Require Import RustMap.
From S2P Require Import Cookie.
From S2P Require Import Store.
From S2P Require Import WebStorage.
From S2P Require Import NetUrl.
From S2P Require Import HttpCache.
From S2P Require Import Headers.

(** ** [cors.rs] *)

Inductive CorsCredentialsMode : Type := CorsOmit | CorsSameOrigin | CorsInclude.
#[export] Instance CorsCredentialsMode_eq_dec : EqDecision CorsCredentialsMode.
Proof. solve_decision. Defined.

Definition sends_cross_origin_credentials (self : CorsCredentialsMode) : bool :=
  match self with CorsInclude => true | _ => false end.

Record CorsResponseHeaders : Type := {
  allow_origin : option rstr;
  allow_credentials : bool;
  allow_methods : list rstr;
  allow_headers : list rstr;
  expose_headers : list rstr;
  max_age : option N;
}.
Definition CorsResponseHeaders_default : CorsResponseHeaders :=
  {| allow_origin := None; allow_credentials := false; allow_methods := []; allow_headers := [];
     expose_headers := []; max_age := None |}.

Fixpoint extend_parts (list_ : list rstr) (parts : list rstr) : list rstr :=
  match parts with
  | [] => list_
  | part :: parts =>
      let s := to_ascii_lowercase (trim part) in
      if bool_decide (s = []) || bool_decide (s ∈ list_) then extend_parts list_ parts
      else extend_parts (list_ ++ [s]) parts
  end.
Definition extend_lower_dedup (list_ : list rstr) (value : rstr) : list rstr :=
  extend_parts list_ (split_char 44 value).

(** The loop body of [from_headers]. *)
Definition cors_header (out : CorsResponseHeaders) (nv : rstr * rstr) : CorsResponseHeaders :=
  let '(name, value) := nv in
  let name := to_ascii_lowercase name in
  let '{| allow_origin := origin; allow_credentials := credentials; allow_methods := methods;
          allow_headers := hs; expose_headers := exposed; max_age := age |} := out in
  if bool_decide (name = lit "access-control-allow-origin") then
    match origin with
    | None => {| allow_origin := Some (trim value); allow_credentials := credentials; allow_methods := methods;
                 allow_headers := hs; expose_headers := exposed; max_age := age |}
    | Some _ => out
    end
  else if bool_decide (name = lit "access-control-allow-credentials") then
    {| allow_origin := origin; allow_credentials := credentials || ignore_case (trim value) (lit "true");
       allow_methods := methods; allow_headers := hs; expose_headers := exposed; max_age := age |}
  else if bool_decide (name = lit "access-control-allow-methods") then
    {| allow_origin := origin; allow_credentials := credentials; allow_methods := extend_lower_dedup methods value;
       allow_headers := hs; expose_headers := exposed; max_age := age |}
  else if bool_decide (name = lit "access-control-allow-headers") then
    {| allow_origin := origin; allow_credentials := credentials; allow_methods := methods;
       allow_headers := extend_lower_dedup hs value; expose_headers := exposed; max_age := age |}
  else if bool_decide (name = lit "access-control-expose-headers") then
    {| allow_origin := origin; allow_credentials := credentials; allow_methods := methods; allow_headers := hs;
       expose_headers := extend_lower_dedup exposed value; max_age := age |}
  else if bool_decide (name = lit "access-control-max-age") then
    match age with
    | None => {| allow_origin := origin; allow_credentials := credentials; allow_methods := methods;
                 allow_headers := hs; expose_headers := exposed; max_age := parse_u64 (trim value) |}
    | Some _ => out
    end
  else out.
Definition cors_from_headers (headers : list (rstr * rstr)) : CorsResponseHeaders :=
  foldl cors_header CorsResponseHeaders_default headers.

Definition is_wildcard_origin (self : CorsResponseHeaders) : bool :=
  bool_decide (allow_origin self = Some (lit "*")).
Definition is_null_origin (self : CorsResponseHeaders) : bool :=
  bool_decide (allow_origin self = Some (lit "null")).

Inductive CorsError : Type :=
| WildcardWithCredentials
| MissingAllowCredentials
| OriginMismatch (response_origin : option rstr) (request_origin : rstr)
| NoAllowOrigin.
Inductive CorsCheckOutcome : Type := CorsPass | CorsFail (e : CorsError).

Definition cors_check (response : CorsResponseHeaders) (request_origin : rstr)
    (credentials_mode : CorsCredentialsMode) : CorsCheckOutcome :=
  match allow_origin response with
  | None => CorsFail NoAllowOrigin
  | Some origin =>
      if bool_decide (origin = lit "*") && sends_cross_origin_credentials credentials_mode
      then CorsFail WildcardWithCredentials
      else if negb (bool_decide (origin = lit "*")) && negb (bool_decide (origin = request_origin))
      then CorsFail (OriginMismatch (allow_origin response) request_origin)
      else if sends_cross_origin_credentials credentials_mode && negb (allow_credentials response)
      then CorsFail MissingAllowCredentials
      else CorsPass
  end.

Definition CORS_SAFELISTED_RESPONSE_HEADERS : list rstr :=
  [lit "cache-control"; lit "content-language"; lit "content-length"; lit "content-type"; lit "expires";
   lit "last-modified"; lit "pragma"].
Definition CORS_FORBIDDEN_RESPONSE_HEADERS : list rstr := [lit "set-cookie"; lit "set-cookie2"].

Definition cors_visible (exposed : list rstr) (name : rstr) : bool :=
  let lower := to_ascii_lowercase name in
  if bool_decide (lower ∈ CORS_FORBIDDEN_RESPONSE_HEADERS) then false
  else bool_decide (lower ∈ CORS_SAFELISTED_RESPONSE_HEADERS) || existsb (λ e, bool_decide (e = lower)) exposed.
Definition cors_filtered_headers (headers : list (rstr * rstr)) (exposed : list rstr) : list (rstr * rstr) :=
  filter (λ nv, cors_visible exposed nv.1 = true) headers.

(** ** Preflights ([webapi.rs]) *)

Definition method_as_str (self : Method) : rstr :=
  match self with
  | Get => lit "GET" | Head => lit "HEAD" | Post => lit "POST" | Put => lit "PUT" | Delete => lit "DELETE"
  | Patch => lit "PATCH" | Options => lit "OPTIONS"
  end.

Definition cors_origin_value (origin : Origin) : rstr :=
  if o_opaque origin then lit "null"
  else
    let bare := o_scheme origin ++ lit "://" ++ o_host origin in
    match o_port origin with
    | Some port =>
        if (bool_decide (o_scheme origin = lit "http") && (port =? 80)%N) ||
           (bool_decide (o_scheme origin = lit "https") && (port =? 443)%N)
        then bare else bare ++ lit ":" ++ dec port
    | None => bare
    end.

Fixpoint unsafe_names_loop (out : list rstr) (headers : list (rstr * rstr)) : list rstr :=
  match headers with
  | [] => out
  | (name, value) :: headers =>
      let lower := to_ascii_lowercase name in
      if negb (is_cors_safelisted_request_header lower value) && negb (bool_decide (lower ∈ out))
      then unsafe_names_loop (out ++ [lower]) headers else unsafe_names_loop out headers
  end.
Definition cors_unsafe_request_header_names (headers : list (rstr * rstr)) : list rstr :=
  unsafe_names_loop [] headers.

Definition cors_preflight_required (method : Method) (unsafe_header_names : list rstr) : bool :=
  negb (match method with Get | Head | Post => true | _ => false end) ||
  negb (bool_decide (unsafe_header_names = [])).

Definition wildcard (allowed : list rstr) (credentials_mode : CorsCredentialsMode) : bool :=
  negb (bool_decide (credentials_mode = CorsInclude)) && existsb (λ value, bool_decide (value = lit "*")) allowed.
Definition preflight_method_allowed (allowed_methods : list rstr) (method : Method)
    (credentials_mode : CorsCredentialsMode) : bool :=
  wildcard allowed_methods credentials_mode ||
  existsb (λ value, ignore_case value (method_as_str method)) allowed_methods.
Definition preflight_headers_allowed (allowed_headers unsafe_header_names : list rstr)
    (credentials_mode : CorsCredentialsMode) : bool :=
  forallb (λ name, wildcard allowed_headers credentials_mode ||
                   existsb (λ value, ignore_case value name) allowed_headers) unsafe_header_names.

Inductive FetchError : Type :=
| PreflightStatus (status : N)
| PreflightCors (e : CorsError)
| PreflightMethod (method : Method)
| PreflightHeader
| PreflightTransport
| HostCallInterrupted.

Definition validate_cors_preflight_response (response : TextResponse) (request_origin : rstr) (method : Method)
    (unsafe_header_names : list rstr) (credentials_mode : CorsCredentialsMode) :
    result FetchError CorsResponseHeaders :=
  if negb ((200 <=? tr_status response) && (tr_status response <=? 299))%N
  then Err (PreflightStatus (tr_status response))
  else
    let cors_headers := cors_from_headers (tr_headers response) in
    match cors_check cors_headers request_origin credentials_mode with
    | CorsFail e => Err (PreflightCors e)
    | CorsPass =>
        if negb (preflight_method_allowed (allow_methods cors_headers) method credentials_mode)
        then Err (PreflightMethod method)
        else if negb (preflight_headers_allowed (allow_headers cors_headers) unsafe_header_names credentials_mode)
        then Err PreflightHeader
        else Ok cors_headers
    end.

(** *** The cache *)

Definition MAX_PREFLIGHT_CACHE_ENTRIES : nat := 128.
Definition from_secs (n : N) : N := (n * 1000000000)%N.
Definition MAX_PREFLIGHT_CACHE_AGE : N := from_secs (2 * 60 * 60).
Definition DEFAULT_PREFLIGHT_CACHE_AGE : N := 5.

Record PreflightCacheKey : Type := {
  pk_request_origin : rstr; pk_target_origin : rstr; pk_credentials_mode : CorsCredentialsMode
}.
#[export] Instance PreflightCacheKey_eq_dec : EqDecision PreflightCacheKey.
Proof. solve_decision. Defined.
Record PreflightCacheEntry : Type := {
  pe_key : PreflightCacheKey; pe_allow_methods : list rstr; pe_allow_headers : list rstr; pe_expires_at : N
}.
Abbreviation PreflightCache := (list PreflightCacheEntry) (only parsing).

Definition entry_allows (key : PreflightCacheKey) (method : Method) (unsafe_header_names : list rstr)
    (entry : PreflightCacheEntry) : bool :=
  bool_decide (pe_key entry = key) &&
  preflight_method_allowed (pe_allow_methods entry) method (pk_credentials_mode key) &&
  preflight_headers_allowed (pe_allow_headers entry) unsafe_header_names (pk_credentials_mode key).
Definition cache_allows (key : PreflightCacheKey) (method : Method) (unsafe_header_names : list rstr) (now : N)
    (self : PreflightCache) : PreflightCache * bool :=
  let self := filter (λ entry, (now < pe_expires_at entry)%N) self in
  (self, existsb (entry_allows key method unsafe_header_names) self).

(** [while len > MAX { pop_front }] *)
Definition cache_insert (entry : PreflightCacheEntry) (self : PreflightCache) : PreflightCache :=
  let self := self ++ [entry] in drop (length self - MAX_PREFLIGHT_CACHE_ENTRIES) self.

Record CorsPreflightRequest : Type := {
  pr_url : WebUrl; pr_method : Method; pr_origin : rstr; pr_unsafe_header_names : list rstr;
  pr_credentials_mode : CorsCredentialsMode;
}.
Definition preflight_request_headers (request : CorsPreflightRequest) : list (rstr * rstr) :=
  [(lit "origin", pr_origin request); (lit "access-control-request-method", method_as_str (pr_method request))] ++
  (if bool_decide (pr_unsafe_header_names request = []) then []
   else [(lit "access-control-request-headers", join (lit ", ") (pr_unsafe_header_names request))]).

Definition preflight_key (request : CorsPreflightRequest) : PreflightCacheKey :=
  {| pk_request_origin := pr_origin request;
     pk_target_origin := origin_partition_key (Origin_from_url (wu_origin (pr_url request)));
     pk_credentials_mode := pr_credentials_mode request |}.

Definition preflight_age (cors_headers : CorsResponseHeaders) : N :=
  N.min (from_secs (default DEFAULT_PREFLIGHT_CACHE_AGE (max_age cors_headers))) MAX_PREFLIGHT_CACHE_AGE.

(** [send] is the OPTIONS request of these headers, redirects being errors; [now] and [later]
    are the clock before it and after it. *)
Definition cors_preflight_blocking (send : list (rstr * rstr) → result FetchError TextResponse)
    (request : CorsPreflightRequest) (commits : bool) (now later : N) (cache : PreflightCache) :
    PreflightCache * result FetchError unit :=
  let '(cache, allowed) :=
    cache_allows (preflight_key request) (pr_method request) (pr_unsafe_header_names request) now cache in
  if allowed then (cache, Ok tt)
  else
    match (response ← send (preflight_request_headers request);
           validate_cors_preflight_response response (pr_origin request) (pr_method request)
             (pr_unsafe_header_names request) (pr_credentials_mode request)) with
    | Err e => (cache, Err e)
    | Ok cors_headers =>
        let age := preflight_age cors_headers in
        if (age =? 0)%N then (cache, Ok tt)
        else if negb commits then (cache, Err HostCallInterrupted)
        else (cache_insert {| pe_key := preflight_key request; pe_allow_methods := allow_methods cors_headers;
                              pe_allow_headers := allow_headers cors_headers; pe_expires_at := (later + age)%N |} cache,
              Ok tt)
    end.
