(* ===== verification/CorsFacts.v ===== *)
(** * Properties of CORS

    What a response must say to pass the CORS check, what of it script may read, and that no
    request that needs a preflight leaves without a fresh grant for it. *)

From Stdlib Require Import Lia ZArith.
From stdpp Require Import base decidable sets list strings.
From S2P Require Import Prelude.
From S2P Require Import RustStr.
From S2P Require Import RustUtf8.
From S2P Require Import Cookie.
From S2P Require Import WebStorage.
From S2P Require Import NetUrl.
From S2P Require Import HttpCache.
From S2P Require Import HttpCacheFacts.
From S2P Require Import Headers.
From S2P Require Import Cors.

(** ** Reading the headers *)

(** The values of a header, in order. *)
Definition values_of (name : string) (headers : list (rstr * rstr)) : list rstr :=
  snd <$> filter (λ nv, to_ascii_lowercase nv.1 = lit name) headers.

(** The distinct lower-case items of comma-separated values. *)
Definition items_of (values : list rstr) (item : rstr) : Prop :=
  item ≠ [] ∧ ∃ value part, value ∈ values ∧ part ∈ split_char 44 value ∧ item = to_ascii_lowercase (trim part).

Lemma extend_parts_spec l parts item :
  item ∈ extend_parts l parts ↔ item ∈ l ∨ item ≠ [] ∧ ∃ part, part ∈ parts ∧ item = to_ascii_lowercase (trim part).
Proof.
  revert l. induction parts as [|part parts IH]; intros l; cbn [extend_parts]; [set_solver|].
  destruct (bool_decide (to_ascii_lowercase (trim part) = []) || bool_decide (to_ascii_lowercase (trim part) ∈ l)) eqn:E.
  - rewrite IH. rewrite orb_true_iff, !bool_decide_eq_true in E. split; [set_solver|].
    intros [Hi|[Hi (p & [->|Hp]%elem_of_cons & ->)]]; [by left| |right; split; [done|]; by exists p].
    destruct E as [E|E]; [done|by left].
  - rewrite IH, elem_of_app, list_elem_of_singleton. rewrite orb_false_iff, !bool_decide_eq_false in E.
    destruct E as [E1 E2]. split.
    + intros [[Hi| ->]|[Hi (p & Hp & ->)]]; [by left|right; split; [done|]; exists part; split; [by left|done]|].
      right. split; [done|]. exists p. split; [by right|done].
    + intros [Hi|[Hi (p & [->|Hp]%elem_of_cons & ->)]]; [by left; left|by left; right|].
      right. split; [done|]. by exists p.
Qed.

Lemma values_of_cons name n v hs :
  values_of name ((n, v) :: hs) =
  if decide (to_ascii_lowercase n = lit name) then v :: values_of name hs else values_of name hs.
Proof. unfold values_of. rewrite filter_cons. cbn [fst]. by case_decide. Qed.

Lemma items_of_cons value values item :
  items_of (value :: values) item ↔
  (item ≠ [] ∧ ∃ part, part ∈ split_char 44 value ∧ item = to_ascii_lowercase (trim part)) ∨ items_of values item.
Proof. unfold items_of. setoid_rewrite elem_of_cons. naive_solver. Qed.

(** The fields of a running parse, in terms of what it started from. *)
Record parsed_from (out : CorsResponseHeaders) (hs : list (rstr * rstr)) (r : CorsResponseHeaders) : Prop := {
  parsed_origin : allow_origin r =
    match allow_origin out with
    | Some o => Some o
    | None => trim <$> head (values_of "access-control-allow-origin" hs)
    end;
  parsed_credentials : allow_credentials r = true ↔
    allow_credentials out = true ∨
    ∃ v, v ∈ values_of "access-control-allow-credentials" hs ∧ ignore_case (trim v) (lit "true") = true;
  parsed_methods : ∀ m, m ∈ allow_methods r ↔ m ∈ allow_methods out ∨ items_of (values_of "access-control-allow-methods" hs) m;
  parsed_headers : ∀ m, m ∈ allow_headers r ↔ m ∈ allow_headers out ∨ items_of (values_of "access-control-allow-headers" hs) m;
  parsed_exposed : ∀ m, m ∈ expose_headers r ↔ m ∈ expose_headers out ∨ items_of (values_of "access-control-expose-headers" hs) m;
}.

(** Two different literals for one name. *)
Ltac two_names :=
  exfalso; match goal with
  | H : ?x = lit ?a, H' : ?x = lit ?b |- _ => rewrite H in H'; vm_compute in H'; congruence
  end.

Lemma cors_from_headers_parsed out hs : parsed_from out hs (foldl cors_header out hs).
Proof.
  revert out. induction hs as [|[n v] hs IH]; intros out.
  { split; cbn; [by destruct (allow_origin out)|set_solver| | |]; intros m; unfold items_of; set_solver. }
  cbn [foldl]. specialize (IH (cors_header out (n, v))). destruct IH as [I1 I2 I3 I4 I5].
  destruct out as [origin credentials methods headers exposed age]. cbn [cors_header] in *.
  repeat case_bool_decide; (split; [clear I2 I3 I4 I5|clear I1 I3 I4 I5|clear I1 I2 I4 I5|clear I1 I2 I3 I5|clear I1 I2 I3 I4]);
    try intros m; rewrite values_of_cons; case_decide; try congruence; try two_names; cbn [allow_origin allow_credentials allow_methods allow_headers expose_headers fst snd] in *; try done;
    try (destruct origin; done); try (destruct age; done).
  - rewrite I2, orb_true_iff. setoid_rewrite elem_of_cons. naive_solver.
  - rewrite I3, items_of_cons. unfold extend_lower_dedup. rewrite extend_parts_spec. tauto.
  - rewrite I4, items_of_cons. unfold extend_lower_dedup. rewrite extend_parts_spec. tauto.
  - rewrite I5, items_of_cons. unfold extend_lower_dedup. rewrite extend_parts_spec. tauto.
Qed.

(** ** Properties of the check *)

(** What the Fetch standard asks of a response's headers: the first allowed origin is the
    request's, or the wildcard for a request without credentials; with credentials the
    response must say so. *)
Definition cors_grants (headers : list (rstr * rstr)) (request_origin : rstr) (mode : CorsCredentialsMode) : Prop :=
  ∃ o, trim <$> head (values_of "access-control-allow-origin" headers) = Some o ∧
    match mode with
    | CorsInclude =>
        o = request_origin ∧ o ≠ lit "*" ∧
        ∃ v, v ∈ values_of "access-control-allow-credentials" headers ∧ to_ascii_lowercase (trim v) = lit "true"
    | CorsOmit | CorsSameOrigin => o = lit "*" ∨ o = request_origin
    end.

Lemma cors_check_passes headers request_origin mode :
  cors_check (cors_from_headers headers) request_origin mode = CorsPass ↔ cors_grants headers request_origin mode.
Proof.
  destruct (cors_from_headers_parsed CorsResponseHeaders_default headers) as [Ho Hc _ _ _].
  unfold cors_from_headers, cors_check, cors_grants. rewrite Ho. cbn [allow_origin CorsResponseHeaders_default].
  destruct (trim <$> head _) as [o|]; [|naive_solver]. cbn [allow_credentials CorsResponseHeaders_default] in Hc.
  assert (allow_credentials (foldl cors_header CorsResponseHeaders_default headers) = true ↔
    ∃ v, v ∈ values_of "access-control-allow-credentials" headers ∧ to_ascii_lowercase (trim v) = lit "true") as Hc'.
  { rewrite Hc. unfold ignore_case. setoid_rewrite bool_decide_eq_true. naive_solver. }
  destruct mode; cbn [sends_cross_origin_credentials andb]; rewrite ?andb_false_r, ?andb_true_r; cbn [negb];
    do 2 try case_bool_decide; cbn [andb negb]; try (split; [done|]; intros (? & [= <-] & ?); naive_solver);
    try (split; [|done]; intros _; exists o; by auto).
  all: destruct (allow_credentials _); cbn [negb]; naive_solver.
Qed.

(** The CORS check passes for exactly the responses whose headers grant the request: with
    credentials the wildcard is no grant. *)
Theorem cors_check_exact headers request_origin mode :
  cors_check (cors_from_headers headers) request_origin mode = CorsPass ↔ cors_grants headers request_origin mode.
Proof. apply cors_check_passes. Qed.

(** Of a filtered response script reads, in order, exactly the safelisted headers and those
    that the response exposes by name; a cookie is never among them. *)
Theorem cors_filter_exact headers response_headers :
  let exposed := expose_headers (cors_from_headers response_headers) in
  let visible n :=
    (n ∉ CORS_FORBIDDEN_RESPONSE_HEADERS) ∧
    (n ∈ CORS_SAFELISTED_RESPONSE_HEADERS ∨ items_of (values_of "access-control-expose-headers" response_headers) n) in
  cors_filtered_headers headers exposed `sublist_of` headers ∧
  (∀ n v, (n, v) ∈ cors_filtered_headers headers exposed ↔ (n, v) ∈ headers ∧ visible (to_ascii_lowercase n)) ∧
  (∀ n v, (n, v) ∈ cors_filtered_headers headers exposed → to_ascii_lowercase n ≠ lit "set-cookie").
Proof.
  intros exposed visible.
  assert (∀ n v, (n, v) ∈ cors_filtered_headers headers exposed ↔ (n, v) ∈ headers ∧ visible (to_ascii_lowercase n)) as Hin.
  { intros n v. unfold cors_filtered_headers. rewrite list_elem_of_filter. cbn [fst].
    destruct (cors_from_headers_parsed CorsResponseHeaders_default response_headers) as [_ _ _ _ He].
    unfold cors_visible, visible. case_bool_decide as Hf; [naive_solver|].
    rewrite orb_true_iff, bool_decide_eq_true, existsb_exists. split.
    - intros [[Hs|(e & He'%list_elem_of_In & ->%bool_decide_eq_true)] Hn]; [naive_solver|].
      apply He in He' as [Hx|Hx]; [by apply elem_of_nil in Hx|naive_solver].
    - intros [Hn (_ & [Hs|Hi])]; [naive_solver|]. split; [|done]. right. exists (to_ascii_lowercase n).
      split; [apply list_elem_of_In, He; by right|by apply bool_decide_eq_true]. }
  split; [apply sublist_filter|]. split; [done|]. intros n v [_ [Hf _]]%Hin Hn. apply Hf. rewrite Hn. by left.
Qed.

(** ** Preflights *)

Lemma validate_preflight_Ok response o method names mode h :
  validate_cors_preflight_response response o method names mode = Ok h ↔
  (200 ≤ tr_status response ≤ 299)%N ∧ h = cors_from_headers (tr_headers response) ∧
  cors_check h o mode = CorsPass ∧ preflight_method_allowed (allow_methods h) method mode = true ∧
  preflight_headers_allowed (allow_headers h) names mode = true.
Proof.
  unfold validate_cors_preflight_response.
  destruct ((200 <=? tr_status response) && (tr_status response <=? 299))%N eqn:Es; cbn [negb].
  - apply andb_true_iff in Es as [E1%N.leb_le E2%N.leb_le]. destruct (cors_check _ o mode) eqn:Ec.
    + destruct (preflight_method_allowed _ method mode) eqn:Em; cbn [negb].
      2: { split; [done|]. intros (_ & -> & _ & Hm & _). congruence. }
      destruct (preflight_headers_allowed _ names mode) eqn:Eh; cbn [negb].
      2: { split; [done|]. intros (_ & -> & _ & _ & Hh). congruence. }
      split; [by intros [= <-]|by intros (_ & -> & _)].
    + split; [done|]. intros (_ & -> & ? & _). congruence.
  - split; [done|]. intros [[E1%N.leb_le E2%N.leb_le] _]. by rewrite E1, E2 in Es.
Qed.

(** One preflight of a run: what is asked for, what the server answers and when. *)
Record PreflightTry : Type := {
  try_request : CorsPreflightRequest;
  try_send : list (rstr * rstr) → result FetchError TextResponse;
  try_commits : bool;
  try_now : N;
  try_later : N;
}.
(** An answer that granted a preflight: to which request, its headers, when. *)
Record Grant : Type := { granted_key : PreflightCacheKey; granted : CorsResponseHeaders; granted_at : N }.

Definition grant_of (t : PreflightTry) : option Grant :=
  match (response ← try_send t (preflight_request_headers (try_request t));
         validate_cors_preflight_response response (pr_origin (try_request t)) (pr_method (try_request t))
           (pr_unsafe_header_names (try_request t)) (pr_credentials_mode (try_request t))) with
  | Ok h => Some {| granted_key := preflight_key (try_request t); granted := h; granted_at := try_later t |}
  | Err _ => None
  end.
Definition run_try (cache : list PreflightCacheEntry) (t : PreflightTry) : list PreflightCacheEntry * result FetchError unit :=
  cors_preflight_blocking (try_send t) (try_request t) (try_commits t) (try_now t) (try_later t) cache.
Definition run_tries (ts : list PreflightTry) : list PreflightCacheEntry :=
  foldl (λ cache t, (run_try cache t).1) [] ts.

(** The entry stands for a grant of the run. *)
Definition entry_granted (ts : list PreflightTry) (e : PreflightCacheEntry) : Prop :=
  ∃ t g, t ∈ ts ∧ grant_of t = Some g ∧ granted_key g = pe_key e ∧ allow_methods (granted g) = pe_allow_methods e ∧
    allow_headers (granted g) = pe_allow_headers e ∧ (pe_expires_at e = granted_at g + preflight_age (granted g))%N ∧
    cors_check (granted g) (pk_request_origin (pe_key e)) (pk_credentials_mode (pe_key e)) = CorsPass.

Lemma cache_insert_elem e x cache : x ∈ cache_insert e cache → x = e ∨ x ∈ cache.
Proof.
  unfold cache_insert. intros Hx. assert (x ∈ cache ++ [e]) as [Hc|Hc%list_elem_of_singleton]%elem_of_app; [|by right|by left].
  revert Hx. apply elem_of_subseteq, sublist_subseteq, sublist_drop.
Qed.
Lemma cache_insert_length e cache :
  length cache ≤ MAX_PREFLIGHT_CACHE_ENTRIES → length (cache_insert e cache) ≤ MAX_PREFLIGHT_CACHE_ENTRIES.
Proof. unfold cache_insert. rewrite length_drop. lia. Qed.

(** Everything a run leaves in the cache: old entries, or the entry of the new grant. *)
Lemma run_try_elem cache t e :
  e ∈ (run_try cache t).1 → e ∈ cache ∨ entry_granted [t] e.
Proof.
  unfold run_try, cors_preflight_blocking. cbn [cache_allows fst snd].
  set (cache' := filter _ cache). assert (∀ e, e ∈ cache' → e ∈ cache) as Hc by (intros x [_ Hx]%list_elem_of_filter; done).
  destruct (existsb _ cache'); [intros He; left; by apply Hc|].
  destruct (_ ≫= _) as [h|] eqn:Eg; [|intros He; left; by apply Hc].
  destruct (preflight_age h =? 0)%N; [intros He; left; by apply Hc|].
  destruct (try_commits t); cbn [negb]; [|intros He; left; by apply Hc].
  intros [->|He]%cache_insert_elem; [|left; by apply Hc]. right.
  exists t. eexists. split; [by left|]. unfold grant_of. rewrite Eg. split; [done|]. cbn. split_and!; try done.
  apply bind_Ok in Eg as (response & _ & Hv). apply validate_preflight_Ok in Hv. tauto.
Qed.
Lemma run_try_length cache t :
  length cache ≤ MAX_PREFLIGHT_CACHE_ENTRIES → length (run_try cache t).1 ≤ MAX_PREFLIGHT_CACHE_ENTRIES.
Proof.
  intros Hl. unfold run_try, cors_preflight_blocking. cbn [cache_allows fst snd].
  assert (length (filter (λ e, try_now t < pe_expires_at e)%N cache) ≤ MAX_PREFLIGHT_CACHE_ENTRIES)
    by (etrans; [apply length_filter|done]).
  destruct (existsb _ _); [done|]. destruct (_ ≫= _); [|done]. destruct (_ =? 0)%N; [done|].
  destruct (try_commits t); [|done]. cbn. by apply cache_insert_length.
Qed.

Lemma run_tries_granted ts e : e ∈ run_tries ts → entry_granted ts e.
Proof.
  unfold run_tries. revert e. induction ts as [|t ts IH] using rev_ind; intros e; [by intros ?%elem_of_nil|].
  rewrite foldl_app. cbn. intros [He|He]%run_try_elem.
  - apply IH in He as (u & g & Hu & Hg). exists u, g. split; [apply elem_of_app; by left|done].
  - destruct He as (u & g & Hu & Hg). exists u, g. split; [apply elem_of_app; by right|done].
Qed.
Lemma run_tries_length ts : length (run_tries ts) ≤ MAX_PREFLIGHT_CACHE_ENTRIES.
Proof.
  unfold run_tries. induction ts as [|t ts IH] using rev_ind; [cbn; unfold MAX_PREFLIGHT_CACHE_ENTRIES; lia|].
  rewrite foldl_app. by apply run_try_length.
Qed.

(** C28. A preflight succeeds only with a grant: its own answer, or an earlier one to the same
    origin, target origin and credentials mode that is not older than its own max-age (and two
    hours); in both cases the grant passes the CORS check for this origin, and allows this
    method and every header that needs it.  The cache never holds more than 128 grants. *)
Theorem preflight_needs_grant ts t cache' :
  run_try (run_tries ts) t = (cache', Ok tt) →
  length cache' ≤ 128 ∧
  ∃ u g, (u = t ∨ u ∈ ts ∧ (try_now t < granted_at g + preflight_age (granted g))%N) ∧ grant_of u = Some g ∧
    granted_key g = preflight_key (try_request t) ∧ (preflight_age (granted g) ≤ from_secs 7200)%N ∧
    cors_check (granted g) (pr_origin (try_request t)) (pr_credentials_mode (try_request t)) = CorsPass ∧
    preflight_method_allowed (allow_methods (granted g)) (pr_method (try_request t))
      (pr_credentials_mode (try_request t)) = true ∧
    preflight_headers_allowed (allow_headers (granted g)) (pr_unsafe_header_names (try_request t))
      (pr_credentials_mode (try_request t)) = true.
Proof.
  intros Hr. split.
  { pose proof (run_try_length (run_tries ts) t (run_tries_length ts)) as Hl. by rewrite Hr in Hl. }
  unfold run_try, cors_preflight_blocking in Hr. cbn [cache_allows fst snd] in Hr.
  destruct (existsb _ (filter _ _)) eqn:Ex.
  - apply existsb_exists in Ex as (e & He%list_elem_of_In & Ha). apply list_elem_of_filter in He as [Hn He].
    apply run_tries_granted in He as (u & g & Hu & Hg & Hk & Hm & Hh & He & Hc). unfold entry_allows in Ha.
    rewrite !andb_true_iff, bool_decide_eq_true in Ha. destruct Ha as [[Hk' Ha] Hb]. exists u, g.
    rewrite Hk, Hk', Hm, Hh. rewrite Hk' in Hc. split_and!; try done; [right; split; [done|lia]|apply N.le_min_r].
  - destruct (_ ≫= _) as [h|] eqn:Eg; [|done]. exists t. eexists. split; [by left|]. unfold grant_of. rewrite Eg.
    split; [done|]. apply bind_Ok in Eg as (response & _ & Hv). apply validate_preflight_Ok in Hv as (_ & _ & Hc & Hm & Hh).
    cbn. split_and!; try done. apply N.le_min_r.
Qed.

(** ** A run *)

Definition shop_url (path : string) : WebUrl :=
  {| wu_str := lit "https://shop.test" ++ lit path; wu_host := None;
     wu_origin := {| uo_scheme := lit "https"; uo_host_str := Some (lit "shop.test");
                     uo_port_or_known_default := Some 443%N |};
     wu_port := None; wu_path := lit path |}.
Definition shop_request (path : string) (method : Method) (names : list rstr) : CorsPreflightRequest :=
  {| pr_url := shop_url path; pr_method := method; pr_origin := lit "https://page.test";
     pr_unsafe_header_names := names; pr_credentials_mode := CorsSameOrigin |}.
Definition shop_answer (headers : list (rstr * rstr)) : TextResponse :=
  {| tr_body := []; tr_headers := headers; tr_status := 204; tr_final_url := wu_str (shop_url "/");
     tr_set_cookie := []; tr_redirects := 0; tr_events := []; tr_request_headers := []; tr_redirect_aliasable := true |}.
Definition granting : list (rstr * rstr) :=
  [(lit "access-control-allow-headers", lit "*"); (lit "access-control-allow-methods", lit "PUT");
   (lit "access-control-allow-origin", lit "https://page.test"); (lit "access-control-max-age", lit "600")].
Definition asked (path : string) (method : Method) (names : list rstr) (answer : result FetchError TextResponse)
    (now : N) : PreflightTry :=
  {| try_request := shop_request path method names; try_send := λ _, answer; try_commits := true; try_now := now;
     try_later := (now + 1)%N |}.
Definition first_try : PreflightTry := asked "/cart" Put [lit "x-cart"] (Ok (shop_answer granting)) 0.
(** The server is not asked again: whatever it would answer. *)
Definition second_try : PreflightTry := asked "/cart" Put [lit "x-cart"] (Err PreflightTransport) 1000.

Lemma preflight_needs_grant_witness :
  ∃ cache', run_try (run_tries [first_try]) second_try = (cache', Ok tt) ∧ length cache' ≤ 128 ∧
  ∃ u g, (u = second_try ∨ u ∈ [first_try] ∧ (try_now second_try < granted_at g + preflight_age (granted g))%N) ∧
    grant_of u = Some g.
Proof.
  eexists. split; [vm_compute; reflexivity|].
  destruct (preflight_needs_grant [first_try] second_try _ ltac:(vm_compute; reflexivity)) as (Hl & u & g & Hu & Hg & _).
  split; [exact Hl|]. exists u, g. split; [exact Hu|exact Hg].
Defined.

(** The key of the cache has the origin of the target and not its URL: a grant for one resource
    admits the same method for every other one of its origin, which was never asked. *)
Example grant_admits_other_resources :
  (run_try (run_tries [first_try]) (asked "/admin" Put [lit "x-cart"] (Err PreflightTransport) 1000)).2 = Ok tt.
Proof. vm_compute. reflexivity. Qed.

(** A POST whose headers need a preflight is refused when the answer does not name POST, which
    the standard permits without being named; and the wildcard covers [authorization], which
    the standard wants named. *)
Example preflight_methods_and_wildcard :
  (run_try [] (asked "/cart" Post [lit "x-cart"] (Ok (shop_answer granting)) 0)).2 = Err (PreflightMethod Post) ∧
  (run_try [] (asked "/cart" Put [lit "authorization"] (Ok (shop_answer granting)) 0)).2 = Ok tt.
Proof. split; vm_compute; reflexivity. Qed.
