(* ===== verification/Network.v ===== *)
(** * The network client

    [crates/vixen-net/src/network.rs] and [fetch_types.rs], definitions only: the request
    headers, the redirect loop with the URL policy and the cookie jar at every hop, the bounded
    body with its progress events, and the response.

    reqwest and the [http] crate are the argument [send], the answer to one request, and the
    class [HttpCrate].  The URLs of the requests of one fetch are distinct, so a function of
    the request is as general as a server with a memory.  [clock hop k] is the [k]-th reading
    of the clock by the jar at a hop.  Callbacks that only observe are the logs of the state;
    [redirect] is the one that decides. *)

From Stdlib Require Import Lia ZArith.
From stdpp Require Import base decidable sets list strings.
From S2P Require Import Prelude.
From S2P Require Import RustStr.
From S2P Require Import RustUtf8.
From S2P Require Import RustMap.
From S2P Require Import Cookie.
From S2P Require Import Store.
From S2P Require Import WebStorage.
From S2P Require Import NetUrl.
From S2P Require Import HttpCache.

Class HttpCrate : Type := {
  header_name : rstr → option rstr;    (** [HeaderName::from_bytes(..).ok()], as a string *)
  header_value : rstr → option rstr;   (** [HeaderValue::from_str(..).ok()], then [to_str().unwrap_or_default()] *)
}.

(** ** Requests and responses *)

Inductive RedirectMode : Type := Follow | RedirectError | Manual.
#[export] Instance RedirectMode_eq_dec : EqDecision RedirectMode.
Proof. solve_decision. Defined.

Record TextRequest : Type := {
  rq_url : WebUrl; rq_cross_site : bool; rq_method : Method; rq_redirect_mode : RedirectMode;
  rq_headers : list (rstr * rstr); rq_body : option (list N);
}.

Record ByteResponse : Type := {
  br_body : list N; br_headers : HeaderMap; br_status : N; br_final_url : rstr; br_set_cookie : list rstr;
  br_redirects : N; br_events : list NetworkEvent; br_request_headers : HeaderMap; br_from_cache : bool;
  br_redirect_aliasable : bool;
}.

Record ResponseHead : Type := {
  rh_headers : HeaderMap; rh_status : N; rh_final_url : rstr; rh_set_cookie : list rstr; rh_redirects : N;
  rh_events : list NetworkEvent; rh_request_headers : HeaderMap; rh_redirect_aliasable : bool;
  rh_total_bytes : option N;
}.

(** [TextResponse::from] *)
Definition text_response (r : ByteResponse) : TextResponse :=
  {| tr_body := from_utf8_lossy (br_body r); tr_headers := br_headers r; tr_status := br_status r;
     tr_final_url := br_final_url r; tr_set_cookie := br_set_cookie r; tr_redirects := br_redirects r;
     tr_events := br_events r; tr_request_headers := br_request_headers r;
     tr_redirect_aliasable := br_redirect_aliasable r |}.

Inductive NetworkError : Type :=
| NetUrlPolicy (e : UrlPolicyError)
| NetTransport (kind : N)              (** what [map_reqwest_error] makes of a [reqwest::Error] *)
| NetRequestHeader (name : rstr)
| NetRedirectRejected (url : WebUrl)
| TooManyRedirects (max : N) (url : rstr)
| RedirectLoop (url : rstr)
| InvalidRedirect (url : rstr)
| RedirectDisallowed (url : rstr)
| BodyTooLarge (limit actual : N) (url : rstr).

Record NetworkConfig : Type := { user_agent : rstr; max_body_bytes : N; max_redirects : N }.

(** One request as it leaves, and its answer: the header lines with the text of those that
    are text, the length it announces, the chunks of its body and how the body ends. *)
Record Sent : Type := {
  sent_url : WebUrl; sent_method : Method; sent_headers : HeaderMap; sent_body : option (list N)
}.
Record RawResponse : Type := {
  rr_status : N; rr_headers : list (rstr * option rstr); rr_content_length : option N;
  rr_chunks : list (list N); rr_failure : option N;
}.

(** ** Headers *)

(** [entry(key).and_modify(push ", " value).or_insert(value)] *)
Definition combine_header (key value : rstr) (out : HeaderMap) : HeaderMap :=
  map_insert key (match map_get out key with Some current => current ++ lit ", " ++ value | None => value end) out.
(** [entry(key).or_insert(value)] *)
Definition or_insert (key value : rstr) (out : HeaderMap) : HeaderMap :=
  match map_get out key with Some _ => out | None => map_insert key value out end.

Definition flatten_headers (headers : list (rstr * option rstr)) : HeaderMap :=
  foldl (λ out nv, combine_header (to_ascii_lowercase nv.1) (default [] nv.2) out) [] headers.

(** [headers.get(name)]: the first value. *)
Definition raw_header (name : rstr) (headers : list (rstr * option rstr)) : option rstr :=
  match list_find (λ nv, nv.1 = name) headers with Some (_, (_, value)) => value | None => None end.

Definition is_followable_redirect (status : N) : bool :=
  ((status =? 301) || (status =? 302) || (status =? 303) || (status =? 307) || (status =? 308))%N.

Definition is_no_store (directive : rstr) : bool :=
  ignore_case (trim (match split_once 61 directive with Some (name, _) => name | None => directive end)) (lit "no-store").
Definition redirect_response_aliasable (status : N) (headers : list (rstr * option rstr)) : bool :=
  is_permanent status &&
  negb (match raw_header (lit "cache-control") headers with
        | Some value => existsb is_no_store (split_char 44 value)
        | None => false
        end).

Definition MAX_BODY_PROGRESS_EVENTS : N := 256.
(** [limit.div_ceil(MAX).max(1)] *)
Definition body_progress_quantum (limit : N) : N :=
  N.max ((limit + (MAX_BODY_PROGRESS_EVENTS - 1)) / MAX_BODY_PROGRESS_EVENTS) 1.

(** What the cookie jar reads of a URL. *)
Definition cookie_url (u : WebUrl) : Url :=
  {| url_host := wu_host u; url_path := wu_path u; url_scheme := wu_scheme u |}.

Section network.
Context `{Platform, UrlPlatform, HttpCrate}.
Variable config : NetworkConfig.

Definition request_host (url : WebUrl) : option rstr :=
  host ← uo_host_str (wu_origin url);
  Some (match wu_port url with Some port => host ++ lit ":" ++ dec port | None => host end).

Fixpoint author_headers (out : HeaderMap) (headers : list (rstr * rstr)) : result NetworkError HeaderMap :=
  match headers with
  | [] => Ok out
  | (name, value) :: headers =>
      match header_name name with
      | None => Err (NetRequestHeader name)
      | Some name =>
          match header_value value with
          | None => Err (NetRequestHeader name)
          | Some value => author_headers (combine_header (to_ascii_lowercase name) value out) headers
          end
      end
  end.

Definition effective_request_headers_for (now : OffsetDateTime) (jar : CookieJar) (url : WebUrl) (cross_site : bool)
    (method : Method) (headers : list (rstr * rstr)) (body : option (list N)) :
    CookieJar * result NetworkError HeaderMap :=
  match author_headers [] headers with
  | Err e => (jar, Err e)
  | Ok out =>
      let out := or_insert (lit "user-agent") (user_agent config) out in
      let out := or_insert (lit "accept-encoding") (lit "gzip, br") out in
      let out := match request_host url with Some host => or_insert (lit "host") host out | None => out end in
      let '(jar, cookie) := cookies_for (cookie_url url) cross_site method now jar in
      let out := if bool_decide (cookie = []) then map_remove (lit "cookie") out
                 else map_insert (lit "cookie") cookie out in
      let out := match body with
                 | Some body => map_insert (lit "content-length") (dec (len body)) out
                 | None => map_remove (lit "content-length") out
                 end in
      (jar, Ok out)
  end.

Definition effective_request_headers (now : OffsetDateTime) (jar : CookieJar) (request : TextRequest) :
    CookieJar * result NetworkError HeaderMap :=
  match validate_http_url (rq_url request) with
  | Err e => (jar, Err (NetUrlPolicy e))
  | Ok _ => effective_request_headers_for now jar (rq_url request) (rq_cross_site request) (rq_method request)
              (rq_headers request) (rq_body request)
  end.

(** [for sc in &set_cookie { let _ = jar.set_cookie(sc, &current, true); }]: reading 0 of the
    hop's clock is the one of [cookies_for]. *)
Fixpoint store_set_cookies (clock : nat → OffsetDateTime) (url : WebUrl) (set_cookie_ : list rstr) (jar : CookieJar) :
    CookieJar :=
  match set_cookie_ with
  | [] => jar
  | sc :: rest =>
      let '(jar, _) := set_cookie sc (cookie_url url) true (λ k, clock (1 + k)) jar in
      store_set_cookies (λ k, clock (2 + k)) url rest jar
  end.
Definition set_cookie_values (headers : list (rstr * option rstr)) : list rstr :=
  omap (λ nv, if bool_decide (nv.1 = lit "set-cookie") then nv.2 else None) headers.

(** ** The body *)

Record BodyRead : Type := {
  bd_events : list NetworkEvent; bd_delivered : list (list N); bd_result : result NetworkError (list N * N)
}.

(** [while let Some(chunk) = resp.chunk()]; when the chunks end, the final progress event.  The
    delivered chunks are the calls of [on_body]. *)
Fixpoint read_body (limit : N) (url : rstr) (total_bytes : option N) (body : list N) (loaded pending : N)
    (chunks : list (list N)) (failure : option N) : BodyRead :=
  match chunks with
  | [] =>
      match failure with
      | Some kind => {| bd_events := []; bd_delivered := []; bd_result := Err (NetTransport kind) |}
      | None =>
          {| bd_events := if (0 <? pending)%N then [EvBodyProgress url pending loaded total_bytes] else [];
             bd_delivered := []; bd_result := Ok (body, loaded) |}
      end
  | chunk :: chunks =>
      let actual := u64_saturating_add loaded (len chunk) in
      if (limit <? actual)%N
      then {| bd_events := []; bd_delivered := []; bd_result := Err (BodyTooLarge limit actual url) |}
      else
        let pending := u64_saturating_add pending (len chunk) in
        let report := (body_progress_quantum limit <=? pending)%N || bool_decide (total_bytes = Some actual) in
        let rest := read_body limit url total_bytes (body ++ chunk) actual (if report then 0 else pending)%N chunks failure in
        {| bd_events := (if report then [EvBodyProgress url pending actual total_bytes] else []) ++ bd_events rest;
           bd_delivered := chunk :: bd_delivered rest; bd_result := bd_result rest |}
  end.

(** ** The loop *)

Record FetchState : Type := {
  fs_jar : CookieJar; fs_current : WebUrl; fs_redirects : N; fs_visited : list rstr;
  fs_events : list NetworkEvent; fs_aliasable : bool;
  fs_sent : list Sent;                 (** the requests that have left *)
  fs_heads : list ResponseHead;        (** the calls of [response] *)
  fs_delivered : list (list N);        (** the calls of [on_body] *)
}.
Definition record_progress (event : NetworkEvent) (s : FetchState) : FetchState :=
  {| fs_jar := fs_jar s; fs_current := fs_current s; fs_redirects := fs_redirects s; fs_visited := fs_visited s;
     fs_events := fs_events s ++ [event]; fs_aliasable := fs_aliasable s; fs_sent := fs_sent s;
     fs_heads := fs_heads s; fs_delivered := fs_delivered s |}.
Definition visit (s : FetchState) : FetchState :=
  {| fs_jar := fs_jar s; fs_current := fs_current s; fs_redirects := fs_redirects s;
     fs_visited := wu_str (fs_current s) :: fs_visited s;
     fs_events := fs_events s; fs_aliasable := fs_aliasable s; fs_sent := fs_sent s;
     fs_heads := fs_heads s; fs_delivered := fs_delivered s |}.
Definition set_jar (jar : CookieJar) (s : FetchState) : FetchState :=
  {| fs_jar := jar; fs_current := fs_current s; fs_redirects := fs_redirects s; fs_visited := fs_visited s;
     fs_events := fs_events s; fs_aliasable := fs_aliasable s; fs_sent := fs_sent s;
     fs_heads := fs_heads s; fs_delivered := fs_delivered s |}.
Definition push_sent (sent : Sent) (s : FetchState) : FetchState :=
  {| fs_jar := fs_jar s; fs_current := fs_current s; fs_redirects := fs_redirects s; fs_visited := fs_visited s;
     fs_events := fs_events s; fs_aliasable := fs_aliasable s; fs_sent := fs_sent s ++ [sent];
     fs_heads := fs_heads s; fs_delivered := fs_delivered s |}.
Definition push_head (head : ResponseHead) (s : FetchState) : FetchState :=
  {| fs_jar := fs_jar s; fs_current := fs_current s; fs_redirects := fs_redirects s; fs_visited := fs_visited s;
     fs_events := fs_events s; fs_aliasable := fs_aliasable s; fs_sent := fs_sent s;
     fs_heads := fs_heads s ++ [head]; fs_delivered := fs_delivered s |}.
(** [redirects += 1; current = next], and the events and calls of a body. *)
Definition follow (next : WebUrl) (aliasable : bool) (s : FetchState) : FetchState :=
  {| fs_jar := fs_jar s; fs_current := next; fs_redirects := (fs_redirects s + 1)%N; fs_visited := fs_visited s;
     fs_events := fs_events s; fs_aliasable := fs_aliasable s && aliasable; fs_sent := fs_sent s;
     fs_heads := fs_heads s; fs_delivered := fs_delivered s |}.
Definition receive_read (read : BodyRead) (s : FetchState) : FetchState :=
  {| fs_jar := fs_jar s; fs_current := fs_current s; fs_redirects := fs_redirects s; fs_visited := fs_visited s;
     fs_events := fs_events s ++ bd_events read; fs_aliasable := fs_aliasable s; fs_sent := fs_sent s;
     fs_heads := fs_heads s; fs_delivered := fs_delivered s ++ bd_delivered read |}.

Section fetch.
Variable send : Sent → result NetworkError RawResponse.
Variable clock : nat → nat → OffsetDateTime.
Variable request : TextRequest.
Variable limit : N.
Variable redirect : WebUrl → bool.

Definition head_of (s : FetchState) (resp : RawResponse) (request_headers : HeaderMap) (aliasable : bool)
    (total : option N) : ResponseHead :=
  {| rh_headers := flatten_headers (rr_headers resp); rh_status := rr_status resp;
     rh_final_url := wu_str (fs_current s); rh_set_cookie := set_cookie_values (rr_headers resp);
     rh_redirects := fs_redirects s; rh_events := fs_events s; rh_request_headers := request_headers;
     rh_redirect_aliasable := aliasable; rh_total_bytes := total |}.
Definition byte_response_of (s : FetchState) (resp : RawResponse) (request_headers : HeaderMap) (aliasable : bool)
    (body : list N) : ByteResponse :=
  {| br_body := body; br_headers := flatten_headers (rr_headers resp); br_status := rr_status resp;
     br_final_url := wu_str (fs_current s); br_set_cookie := set_cookie_values (rr_headers resp);
     br_redirects := fs_redirects s; br_events := fs_events s; br_request_headers := request_headers;
     br_from_cache := false; br_redirect_aliasable := aliasable |}.

(** The [Manual] return. *)
Definition manual_response (s : FetchState) (resp : RawResponse) (request_headers : HeaderMap) :
    FetchState * ByteResponse :=
  let url := wu_str (fs_current s) in
  let aliasable := redirect_response_aliasable (rr_status resp) (rr_headers resp) in
  let s := record_progress (EvResponse url (rr_status resp)) s in
  let s := push_head (head_of s resp request_headers aliasable (Some 0%N)) s in
  let s := record_progress (EvCompleted url 0) s in
  (s, byte_response_of s resp request_headers aliasable []).

(** The branch of a redirect: the next state, or the error. *)
Definition next_hop (s : FetchState) (resp : RawResponse) : result NetworkError FetchState :=
  let url := wu_str (fs_current s) in
  throw_if (bool_decide (rq_redirect_mode request = RedirectError)) (RedirectDisallowed url) ;;
  throw_if (max_redirects config <=? fs_redirects s)%N (TooManyRedirects (max_redirects config) url) ;;
  location ← ok_or (raw_header (lit "location") (rr_headers resp)) (InvalidRedirect url);
  next ← ok_or (url_join (fs_current s) location) (InvalidRedirect url);
  throw_if (bool_decide (wu_str next ∈ fs_visited s)) (RedirectLoop (wu_str next)) ;;
  map_err NetUrlPolicy (validate_http_url next) ;;
  throw_if (negb (redirect next)) (NetRedirectRejected next) ;;
  Ok (follow next (redirect_response_aliasable (rr_status resp) (rr_headers resp))
        (record_progress (EvRedirect url (wu_str next) (rr_status resp)) s)).

(** The branch of a final response: after the guard on [Content-Length], the body. *)
Definition final_body (s : FetchState) (resp : RawResponse) (request_headers : HeaderMap) :
    FetchState * result NetworkError ByteResponse :=
  let url := wu_str (fs_current s) in
  let s := push_head (head_of s resp request_headers (fs_aliasable s) (rr_content_length resp)) s in
  let read := read_body limit url (rr_content_length resp) [] 0 0 (rr_chunks resp) (rr_failure resp) in
  let s := receive_read read s in
  match bd_result read with
  | Err e => (s, Err e)
  | Ok (body, loaded) =>
      let s := record_progress (EvCompleted url loaded) s in
      (s, Ok (byte_response_of s resp request_headers (fs_aliasable s) body))
  end.
Definition final_response (s : FetchState) (resp : RawResponse) (request_headers : HeaderMap) :
    FetchState * result NetworkError ByteResponse :=
  let url := wu_str (fs_current s) in
  let s := record_progress (EvResponse url (rr_status resp)) s in
  match rr_content_length resp with
  | Some cl => if (limit <? cl)%N then (s, Err (BodyTooLarge limit cl url)) else final_body s resp request_headers
  | None => final_body s resp request_headers
  end.

(** One turn of the loop: another turn, or the end. *)
Inductive Turn : Type := Again (s : FetchState) | Done (s : FetchState) (r : result NetworkError ByteResponse).

Definition fetch_turn (s : FetchState) : Turn :=
  let s := visit s in
  let s := record_progress (EvRequestStart (wu_str (fs_current s)) (rq_method request)) s in
  let hop := N.to_nat (fs_redirects s) in
  let '(jar, request_headers) :=
    effective_request_headers_for (clock hop 0) (fs_jar s) (fs_current s) (rq_cross_site request)
      (rq_method request) (rq_headers request) (rq_body request) in
  let s := set_jar jar s in
  match request_headers with
  | Err e => Done s (Err e)
  | Ok request_headers =>
      let sent := {| sent_url := fs_current s; sent_method := rq_method request; sent_headers := request_headers;
                     sent_body := rq_body request |} in
      let s := push_sent sent s in
      match send sent with
      | Err e => Done s (Err e)
      | Ok resp =>
          let s := set_jar (store_set_cookies (λ k, clock hop (1 + k)) (fs_current s)
                              (set_cookie_values (rr_headers resp)) (fs_jar s)) s in
          if is_followable_redirect (rr_status resp) then
            if bool_decide (rq_redirect_mode request = Manual) then
              let '(s, r) := manual_response s resp request_headers in Done s (Ok r)
            else match next_hop s resp with Ok s => Again s | Err e => Done s (Err e) end
          else let '(s, r) := final_response s resp request_headers in Done s r
      end
  end.

(** [fuel] turns; [None] when they are not enough. *)
Fixpoint fetch_loop (fuel : nat) (s : FetchState) : option (FetchState * result NetworkError ByteResponse) :=
  match fuel with
  | O => None
  | S fuel => match fetch_turn s with Again s => fetch_loop fuel s | Done s r => Some (s, r) end
  end.

Definition fetch_start (jar : CookieJar) : FetchState :=
  {| fs_jar := jar; fs_current := rq_url request; fs_redirects := 0; fs_visited := []; fs_events := [];
     fs_aliasable := true; fs_sent := []; fs_heads := []; fs_delivered := [] |}.

(** [fetch_bytes_with_limit], with a turn for every redirect that is permitted and one more;
    after the [validate_http_url] that every public method begins with. *)
Definition fetch_bytes_with_limit (jar : CookieJar) : option (FetchState * result NetworkError ByteResponse) :=
  match validate_http_url (rq_url request) with
  | Err e => Some (fetch_start jar, Err (NetUrlPolicy e))
  | Ok _ => fetch_loop (S (N.to_nat (max_redirects config))) (fetch_start jar)
  end.
End fetch.
End network.
