(* ===== verification/NetworkFacts.v ===== *)
(** * Properties of the network client

    The redirect loop ends; every request that leaves was permitted; the body and its progress
    events are bounded and exact; the request headers. *)

From Stdlib Require Import Lia ZArith.
From stdpp Require Import base decidable sets list strings.
From S2P Require Import Prelude.
From S2P Require Import RustStr.
From S2P Require Import RustUtf8.
From S2P Require Import RustMap.
From S2P Require Import Cookie.
From S2P Require Import CookieFacts.
From S2P Require Import Store.
From S2P Require Import WebStorage.
From S2P Require Import NetUrl.
From S2P Require Import HttpCache.
From S2P Require Import Network.

(** ** The body *)

Definition progress_bytes (e : NetworkEvent) : N :=
  match e with EvBodyProgress _ chunk_bytes _ _ => chunk_bytes | _ => 0 end.
Definition is_progress (e : NetworkEvent) : bool := match e with EvBodyProgress _ _ _ _ => true | _ => false end.
Definition empty_chunks (chunks : list (list N)) : nat := length (filter (λ c, c = []) chunks).

Lemma quantum_pos limit : (1 ≤ body_progress_quantum limit)%N.
Proof. unfold body_progress_quantum. lia. Qed.
Lemma quantum_covers limit : (limit ≤ 256 * body_progress_quantum limit)%N.
Proof.
  unfold body_progress_quantum, MAX_BODY_PROGRESS_EVENTS.
  pose proof (N.div_mod' (limit + (256 - 1)) 256). pose proof (N.mod_lt (limit + (256 - 1)) 256). lia.
Qed.

Lemma saturating_exact a b limit :
  (limit ≤ u64_max → u64_saturating_add a b ≤ limit → u64_saturating_add a b = a + b ∨ limit = u64_max)%N.
Proof. unfold u64_saturating_add. lia. Qed.

(** What is delivered, and what a body that ends well consists of. *)
Lemma read_body_content limit url total body loaded pending chunks failure :
  let rd := read_body limit url total body loaded pending chunks failure in
  (limit < u64_max)%N → loaded = len body → (loaded ≤ limit)%N →
  (∃ rest, chunks = bd_delivered rd ++ rest) ∧ (loaded + len (concat (bd_delivered rd)) ≤ limit)%N ∧
  Forall (λ e, is_progress e = true) (bd_events rd) ∧
  (∀ b l, bd_result rd = Ok (b, l) →
    b = body ++ concat chunks ∧ l = len b ∧ bd_delivered rd = chunks ∧
    ((pending ≤ loaded)%N → sumN progress_bytes (bd_events rd) = (pending + len (concat chunks))%N)).
Proof.
  intros rd Hlim. subst rd. revert body loaded pending.
  induction chunks as [|chunk chunks IH]; intros body loaded pending Hl Hle; cbn [read_body].
  - destruct failure as [k|]; cbn; (split; [by exists []|]); (split; [unfold len; cbn; lia|]); (split; [by repeat case_match; repeat constructor|]).
    + done.
    + intros b l [= <- <-]. rewrite app_nil_r. split_and!; try done. intros _.
      unfold len. destruct (N.ltb_spec 0 pending); cbn; lia.
  - destruct (limit <? u64_saturating_add loaded (len chunk))%N eqn:Et; cbn [bd_delivered bd_events bd_result].
    { split; [by eexists|]. split; [unfold len; cbn; lia|]. split; [constructor|done]. }
    apply N.ltb_ge in Et. assert (u64_saturating_add loaded (len chunk) = loaded + len chunk)%N as Ea
      by (unfold u64_saturating_add in *; lia). rewrite Ea in Et |- *.
    set (p := u64_saturating_add pending (len chunk)).
    set (report := ((body_progress_quantum limit <=? p)%N || bool_decide (total = Some (loaded + len chunk)%N))).
    specialize (IH (body ++ chunk) (loaded + len chunk)%N (if report then 0 else p)%N).
    destruct IH as ((rest & Hrest) & Hb & Hp & Hok); [rewrite len_app; lia|lia|].
    split; [exists rest; by rewrite <-app_comm_cons, <-Hrest|]. split; [cbn [concat]; rewrite len_app; lia|].
    split; [apply Forall_app; split; [by destruct report; repeat constructor|done]|].
    intros b l Hr. destruct (Hok b l Hr) as (-> & -> & Hd & Hs). rewrite Hd. cbn [concat].
    rewrite <-app_assoc. split_and!; try done. intros Hpl.
    assert (p = pending + len chunk)%N as Ep by (unfold p, u64_saturating_add; lia).
    rewrite sumN_app, Hs by (destruct report; lia). rewrite len_app. destruct report; cbn; lia.
Qed.

(** Every event accounts for a quantum of the body, but for the one that completes the
    announced length, the last one, and those of empty chunks. *)
Definition completing (q loaded : N) (total : option N) : N :=
  match total with Some t => if (loaded <? t)%N then q - 1 else 0 | None => 0 end.

Lemma empty_chunks_cons c chunks :
  N.of_nat (empty_chunks (c :: chunks)) = ((if decide (c = []) then 1 else 0) + N.of_nat (empty_chunks chunks))%N.
Proof. unfold empty_chunks. rewrite filter_cons. case_decide; cbn [length]; lia. Qed.

Lemma read_body_events limit url total body loaded pending chunks failure :
  let q := body_progress_quantum limit in
  let rd := read_body limit url total body loaded pending chunks failure in
  (limit < u64_max)%N → (loaded ≤ limit)%N → (pending ≤ loaded)%N →
  (q * len (bd_events rd) ≤
   pending + (limit - loaded) + (q - 1) + completing q loaded total + q * N.of_nat (empty_chunks (bd_delivered rd)))%N.
Proof.
  intros q rd Hlim. subst rd. pose proof (quantum_pos limit) as Hq. fold q in Hq. revert body loaded pending.
  induction chunks as [|chunk chunks IH]; intros body loaded pending Hle Hpl; cbn [read_body].
  - destruct failure; cbn [bd_events bd_delivered]; unfold len; cbn [length]; [lia|].
    destruct (N.ltb_spec 0 pending); cbn [length]; lia.
  - destruct (limit <? u64_saturating_add loaded (len chunk))%N eqn:Et; cbn [bd_events bd_delivered].
    { unfold len. cbn [length]. lia. }
    apply N.ltb_ge in Et. assert (u64_saturating_add loaded (len chunk) = loaded + len chunk)%N as Ea
      by (unfold u64_saturating_add in *; lia). rewrite Ea in Et |- *.
    assert (u64_saturating_add pending (len chunk) = pending + len chunk)%N as ->
      by (unfold u64_saturating_add; lia).
    fold q. rewrite empty_chunks_cons, len_app.
    assert (completing q (loaded + len chunk) total ≤ completing q loaded total)%N as Hc.
    { unfold completing. destruct total as [t|]; [|lia].
      destruct (N.ltb_spec (loaded + len chunk) t), (N.ltb_spec loaded t); lia. }
    assert (chunk = [] ∨ 0 < len chunk)%N as Hn by (destruct chunk; [by left|right; unfold len; cbn [length]; lia]).
    destruct (N.leb_spec q (pending + len chunk)) as [Hqp|Hqp]; cbn [orb].
    + specialize (IH (body ++ chunk) (loaded + len chunk)%N 0%N ltac:(lia) ltac:(lia)).
      unfold len at 1. cbn [length]. rewrite N.mul_add_distr_l. destruct (decide (chunk = [])); lia.
    + case_bool_decide as Ht.
      * specialize (IH (body ++ chunk) (loaded + len chunk)%N 0%N ltac:(lia) ltac:(lia)).
        unfold len at 1. cbn [length]. rewrite N.mul_add_distr_l. revert IH. unfold completing at 1. rewrite Ht, N.ltb_irrefl.
        intros IH. destruct (decide (chunk = [])) as [He|He]; [lia|]. destruct Hn as [Hn|Hn]; [done|].
        unfold completing. rewrite (proj2 (N.ltb_lt loaded _)) by lia. lia.
      * specialize (IH (body ++ chunk) (loaded + len chunk)%N (pending + len chunk)%N ltac:(lia) ltac:(lia)).
        unfold len at 1. cbn [length]. rewrite N.mul_add_distr_l. destruct (decide (chunk = [])); lia.
Qed.

Lemma read_body_events_bound limit url total chunks failure :
  let rd := read_body limit url total [] 0 0 chunks failure in
  (limit < u64_max)%N → length (bd_events rd) ≤ 257 + empty_chunks (bd_delivered rd).
Proof.
  intros rd Hlim. subst rd. pose proof (read_body_events limit url total [] 0 0 chunks failure Hlim ltac:(lia) ltac:(lia)) as He.
  pose proof (quantum_pos limit). pose proof (quantum_covers limit). revert He.
  set (q := body_progress_quantum limit) in *. unfold len. set (n := length _). set (e := empty_chunks _).
  assert (completing q 0 total ≤ q - 1)%N by (unfold completing; repeat case_match; lia).
  intros He. assert (q * N.of_nat n < q * (258 + N.of_nat e))%N as Hlt by lia.
  apply N.mul_lt_mono_pos_l in Hlt; lia.
Qed.

(** ** The loop *)

Section network_facts.
Context `{Platform, UrlPlatform, HttpCrate}.
Variable config : NetworkConfig.
Variable send : Sent → result NetworkError RawResponse.
Variable clock : nat → nat → OffsetDateTime.
Variable request : TextRequest.
Variable limit : N.
Variable redirect : WebUrl → bool.

Local Abbreviation turn := (fetch_turn config send clock request limit redirect).
Local Abbreviation loop := (fetch_loop config send clock request limit redirect).

(** The URLs requested so far, and the one that is next. *)
Definition path (s : FetchState) : list WebUrl := (sent_url <$> fs_sent s) ++ [fs_current s].
Definition redirects_of (s : FetchState) : list (rstr * CacheRedirectHop) := omap event_redirect (fs_events s).

(** Without a body yet, at the head of the loop. *)
Record loop_inv (s : FetchState) : Prop := {
  li_redirects : fs_redirects s = len (fs_sent s);
  li_visited : ∀ u, u ∈ fs_visited s ↔ u ∈ wu_str ∘ sent_url <$> fs_sent s;
  li_nodup : NoDup (wu_str <$> path s);
  li_valid : Forall (λ u, is_ok (validate_http_url u) = true) (path s);
  li_allowed : Forall (λ u, redirect u = true) (tail (path s));
  li_start : head (path s) = Some (rq_url request);
  li_from : (redirects_of s).*1 = wu_str ∘ sent_url <$> fs_sent s;
  li_to : hop_to ∘ snd <$> redirects_of s = wu_str <$> tail (path s);
  li_progress : Forall (λ e, is_progress e = false) (fs_events s);
  li_heads : fs_heads s = [];
  li_delivered : fs_delivered s = [];
}.

Definition turn_request (s : FetchState) (headers : HeaderMap) : Sent :=
  {| sent_url := fs_current s; sent_method := rq_method request; sent_headers := headers; sent_body := rq_body request |}.

Lemma next_hop_Ok s resp s' :
  next_hop config request redirect s resp = Ok s' ↔
  rq_redirect_mode request ≠ RedirectError ∧ (fs_redirects s < max_redirects config)%N ∧
  ∃ location next, raw_header (lit "location") (rr_headers resp) = Some location ∧
    url_join (fs_current s) location = Some next ∧ (wu_str next ∉ fs_visited s) ∧
    is_ok (validate_http_url next) = true ∧ redirect next = true ∧
    s' = follow next (redirect_response_aliasable (rr_status resp) (rr_headers resp))
           (record_progress (EvRedirect (wu_str (fs_current s)) (wu_str next) (rr_status resp)) s).
Proof.
  unfold next_hop. split.
  - intros (E1%throw_if_Ok%bool_decide_eq_false & Hr)%bind_unit_Ok. split; [done|].
    apply bind_unit_Ok in Hr as (E2%throw_if_Ok%N.leb_gt & Hr). split; [done|].
    apply bind_Ok in Hr as (location & El%ok_or_Ok & Hr). apply bind_Ok in Hr as (next & En%ok_or_Ok & Hr).
    apply bind_unit_Ok in Hr as (Ev%throw_if_Ok%bool_decide_eq_false & Hr).
    apply bind_unit_Ok in Hr as (Ep%map_err_Ok & Hr).
    apply bind_unit_Ok in Hr as (Ed%throw_if_Ok%negb_false_iff & [= <-]).
    exists location, next. split_and!; try done. by rewrite Ep.
  - intros (E1 & E2 & location & next & El & En & Ev & Ep & Ed & ->).
    apply is_ok_true in Ep as [[] Ep].
    rewrite bind_throw_if by by apply bool_decide_eq_false. rewrite bind_throw_if by by apply N.leb_gt.
    rewrite (bind_ok_or _ _ _ _ El), (bind_ok_or _ _ _ _ En).
    rewrite bind_throw_if by by apply bool_decide_eq_false.
    rewrite (bind_run _ tt) by by rewrite Ep. by rewrite bind_throw_if by by rewrite Ed.
Qed.

(** What a turn that goes on has done. *)
Lemma turn_again s s' :
  turn s = Again s' →
  ∃ headers resp next,
    send (turn_request s headers) = Ok resp ∧ is_followable_redirect (rr_status resp) = true ∧
    rq_redirect_mode request = Follow ∧ (fs_redirects s < max_redirects config)%N ∧
    (wu_str next ∉ wu_str (fs_current s) :: fs_visited s) ∧ is_ok (validate_http_url next) = true ∧ redirect next = true ∧
    fs_current s' = next ∧ fs_redirects s' = (fs_redirects s + 1)%N ∧
    fs_visited s' = wu_str (fs_current s) :: fs_visited s ∧
    fs_sent s' = fs_sent s ++ [turn_request s headers] ∧
    fs_events s' = fs_events s ++ [EvRequestStart (wu_str (fs_current s)) (rq_method request);
                                   EvRedirect (wu_str (fs_current s)) (wu_str next) (rr_status resp)] ∧
    fs_heads s' = fs_heads s ∧ fs_delivered s' = fs_delivered s.
Proof.
  unfold fetch_turn. destruct (effective_request_headers_for _ _ _ _ _ _ _ _) as [jar [headers|e]]; [|done].
  cbn [fs_current record_progress visit set_jar push_sent]. destruct (send _) as [resp|e] eqn:Es; [|done].
  destruct (is_followable_redirect _) eqn:Ef; [|by destruct (final_response _ _ _ _)].
  case_bool_decide as Em; [done|]. destruct (next_hop _ _ _ _ _) as [s''|e] eqn:En; [|done]. intros [= <-].
  apply next_hop_Ok in En as (Em' & Er & location & next & _ & _ & Ev & Ep & Ed & ->).
  exists headers, resp, next. cbn in *. rewrite <-app_assoc. split_and!; try done.
  by destruct (rq_redirect_mode request).
Qed.

Lemma turn_inv s s' : loop_inv s → turn s = Again s' → loop_inv s'.
Proof.
  intros [Ir Iv In Iok Ia Is If It Ip Ih Id]
    (headers & resp & next & _ & _ & _ & _ & Hn & Hok & Hd & Ec & Er & Ev & Es & Ee & Eh & Ed)%turn_again.
  assert (path s' = path s ++ [next]) as Ep.
  { unfold path. rewrite Ec, Es, fmap_app. done. }
  assert (tail (path s ++ [next]) = tail (path s) ++ [next]) as Et by (unfold path; by destruct (fs_sent s)).
  split.
  - rewrite Er, Es, Ir, len_app. done.
  - intros u. rewrite Ev, Es, fmap_app, elem_of_app, elem_of_cons, Iv. cbn. rewrite list_elem_of_singleton. tauto.
  - rewrite Ep, fmap_app. apply NoDup_app. split; [done|]. split; [|by apply NoDup_singleton].
    intros u Hu ->%list_elem_of_singleton. apply Hn. unfold path in Hu. rewrite fmap_app, elem_of_app in Hu.
    rewrite elem_of_cons, Iv. destruct Hu as [Hu|Hu%list_elem_of_singleton]; [right|by left].
    by rewrite <-list_fmap_compose in Hu.
  - rewrite Ep. apply Forall_app. split; [done|]. by repeat constructor.
  - rewrite Ep, Et. apply Forall_app. split; [done|]. by repeat constructor.
  - rewrite Ep, <-Is. unfold path. by destruct (fs_sent s).
  - unfold redirects_of. rewrite Ee, omap_app, fmap_app, Es, fmap_app. cbn. f_equal. exact If.
  - unfold redirects_of. rewrite Ee, omap_app, fmap_app, Ep, Et, fmap_app. cbn. f_equal. exact It.
  - rewrite Ee. apply Forall_app. split; [done|]. by repeat constructor.
  - by rewrite Eh.
  - by rewrite Ed.
Qed.

Lemma start_inv jar : is_ok (validate_http_url (rq_url request)) = true → loop_inv (fetch_start request jar).
Proof.
  intros Hv. split; cbn; try done; try by repeat constructor.
  all: try (apply NoDup_singleton).
Qed.

(** How the last turn ends. *)
Definition turn_ends_with (s s' : FetchState) (response : ByteResponse) : Prop :=
  ∃ headers resp,
    send (turn_request s headers) = Ok resp ∧ fs_sent s' = fs_sent s ++ [turn_request s headers] ∧
    br_final_url response = wu_str (fs_current s) ∧ br_redirects response = fs_redirects s ∧
    br_status response = rr_status resp ∧ br_headers response = flatten_headers (rr_headers resp) ∧
    br_request_headers response = headers ∧ br_events response = fs_events s' ∧ length (fs_heads s') = S (length (fs_heads s)) ∧
    (∃ evs, fs_events s' = fs_events s ++ evs ∧ sumN progress_bytes evs = len (br_body response)) ∧
    if is_followable_redirect (rr_status resp)
    then br_body response = [] ∧ fs_delivered s' = fs_delivered s
    else br_body response = concat (rr_chunks resp) ∧ fs_delivered s' = fs_delivered s ++ rr_chunks resp.

Lemma read_body_no_redirect url total body loaded pending chunks failure :
  omap event_redirect (bd_events (read_body limit url total body loaded pending chunks failure)) = [].
Proof.
  revert body loaded pending. induction chunks as [|chunk chunks IH]; intros body loaded pending; cbn [read_body].
  - destruct failure; cbn; [done|]. by destruct (0 <? pending)%N.
  - destruct (_ <? _)%N; [done|]. cbn [bd_events]. rewrite omap_app, IH, app_nil_r.
    by destruct (_ || _).
Qed.

Lemma progress_between a evs tl :
  is_progress a = false → Forall (λ e, is_progress e = false) tl →
  length (filter (λ e, is_progress e = true) (a :: evs ++ tl)) ≤ length evs.
Proof.
  intros Ha Htl. rewrite filter_cons_False by (by rewrite Ha). rewrite filter_app, length_app.
  assert (filter (λ e, is_progress e = true) tl = []) as ->.
  { induction Htl as [|e tl He Htl IH]; [done|]. by rewrite filter_cons_False by (by rewrite He). }
  rewrite Nat.add_0_r. apply length_filter.
Qed.

Lemma sum_between a evs b :
  progress_bytes a = 0%N → progress_bytes b = 0%N →
  sumN progress_bytes (a :: evs ++ [b]) = sumN progress_bytes evs.
Proof. intros Ha Hb. rewrite sumN_cons, sumN_app, Ha. cbn. rewrite Hb. lia. Qed.

Lemma final_response_cases s resp headers s' r :
  final_response limit s resp headers = (s', r) →
  let s1 := record_progress (EvResponse (wu_str (fs_current s)) (rr_status resp)) s in
  final_body limit s1 resp headers = (s', r) ∨ ∃ e, r = Err e ∧ s' = s1.
Proof.
  unfold final_response. intros Hf. destruct (rr_content_length resp) as [cl|]; [|by left].
  destruct (limit <? cl)%N; [|by left]. injection Hf as <- <-. right. by eexists.
Qed.

(** A final response: what it adds to the state, and the response it makes. *)
Lemma final_response_spec s resp headers s' r :
  (limit < u64_max)%N → final_response limit s resp headers = (s', r) →
  (∃ evs, fs_events s' = fs_events s ++ evs ∧ omap event_redirect evs = [] ∧
     length (filter (λ e, is_progress e = true) evs) ≤ 257 + empty_chunks (drop (length (fs_delivered s)) (fs_delivered s')) ∧
     (∀ response, r = Ok response → sumN progress_bytes evs = len (br_body response))) ∧
  fs_current s' = fs_current s ∧ fs_redirects s' = fs_redirects s ∧ fs_sent s' = fs_sent s ∧
  (∃ delivered, fs_delivered s' = fs_delivered s ++ delivered ∧ (len (concat delivered) ≤ limit)%N) ∧
  (∀ response, r = Ok response →
    br_final_url response = wu_str (fs_current s) ∧ br_redirects response = fs_redirects s ∧
    br_status response = rr_status resp ∧ br_headers response = flatten_headers (rr_headers resp) ∧
    br_request_headers response = headers ∧ br_events response = fs_events s' ∧
    length (fs_heads s') = S (length (fs_heads s)) ∧
    br_body response = concat (rr_chunks resp) ∧ fs_delivered s' = fs_delivered s ++ rr_chunks resp).
Proof.
  intros Hlim [Hf|(e & -> & ->)]%final_response_cases.
  2: { cbn. split_and!; try done.
       - exists [EvResponse (wu_str (fs_current s)) (rr_status resp)]. cbn. split_and!; [done|done|apply Nat.le_0_l|done].
       - exists []. rewrite app_nil_r. split; [done|apply N.le_0_l]. }
  unfold final_body in Hf. cbn [fs_current record_progress push_head receive_read fs_events fs_delivered] in Hf.
  destruct (read_body_content limit (wu_str (fs_current s)) (rr_content_length resp) [] 0 0 (rr_chunks resp) (rr_failure resp))
    as (_ & Hlen & Hprog & Hok); [done|done|lia|].
  pose proof (read_body_events_bound limit (wu_str (fs_current s)) (rr_content_length resp) (rr_chunks resp)
    (rr_failure resp) Hlim) as Hcount.
  pose proof (read_body_no_redirect (wu_str (fs_current s)) (rr_content_length resp) [] 0 0 (rr_chunks resp)
    (rr_failure resp)) as Hnr.
  set (rd := read_body _ _ _ _ _ _ _ _) in *.
  destruct (bd_result rd) as [[body loaded]|e] eqn:Er; injection Hf as <- <-; cbn.
  - destruct (Hok body loaded eq_refl) as (-> & -> & Hd & Hs). rewrite Hd in *. split_and!; try done.
    + eexists (_ :: bd_events rd ++ [_]). rewrite <-!app_assoc. cbn. split; [done|]. rewrite omap_app, Hnr. split; [done|].
      rewrite drop_app_length. split; [etrans; [apply progress_between; by repeat constructor|done]|].
      intros response [= <-]. 
      etrans; [exact (sum_between (EvResponse (wu_str (fs_current s)) (rr_status resp)) (bd_events rd)
                        (EvCompleted (wu_str (fs_current s)) (len (concat (rr_chunks resp)))) eq_refl eq_refl)|].
      by apply Hs.
    + by exists (rr_chunks resp).
    + intros response [= <-]. cbn. split_and!; try done. rewrite length_app. cbn. lia.
  - split_and!; try done.
    + eexists (_ :: bd_events rd). rewrite <-app_assoc. split; [done|]. split; [done|].
      rewrite drop_app_length. split; [|done]. rewrite <-(app_nil_r (bd_events rd)) at 1.
      etrans; [apply progress_between; by repeat constructor|done].
    + by exists (bd_delivered rd).
Qed.

Lemma turn_done s s' r :
  (limit < u64_max)%N → turn s = Done s' r →
  (∃ evs, fs_events s' = fs_events s ++ evs ∧ omap event_redirect evs = [] ∧
     length (filter (λ e, is_progress e = true) evs) ≤ 257 + empty_chunks (drop (length (fs_delivered s)) (fs_delivered s'))) ∧
  fs_current s' = fs_current s ∧ fs_redirects s' = fs_redirects s ∧
  (fs_sent s' = fs_sent s ∨ ∃ headers, fs_sent s' = fs_sent s ++ [turn_request s headers]) ∧
  (∃ delivered, fs_delivered s' = fs_delivered s ++ delivered ∧ (len (concat delivered) ≤ limit)%N) ∧
  (∀ response, r = Ok response → turn_ends_with s s' response).
Proof.
  intros Hlim. unfold fetch_turn.
  destruct (effective_request_headers_for _ _ _ _ _ _ _ _) as [jar [headers|e]].
  2: { intros [= <- <-]. cbn. split_and!; try done; [|by left|by exists []; rewrite app_nil_r; split; [done|apply N.le_0_l]].
       eexists [_]. split; [done|]. split; [done|apply Nat.le_0_l]. }
  cbn [fs_current record_progress visit set_jar push_sent]. fold (turn_request s headers).
  destruct (send (turn_request s headers)) as [resp|e] eqn:Es.
  2: { intros [= <- <-]. cbn. split_and!; try done; [|right; by exists headers|by exists []; rewrite app_nil_r; split; [done|apply N.le_0_l]].
       eexists [_]. split; [done|]. split; [done|apply Nat.le_0_l]. }
  destruct (is_followable_redirect (rr_status resp)) eqn:Ef.
  - case_bool_decide as Em.
    + intros [= <- <-]. cbn. rewrite <-!app_assoc. split_and!; try done; [|right; by exists headers| |].
      * eexists [_; _; _]. split; [done|]. split; [done|apply Nat.le_0_l].
      * exists []. rewrite app_nil_r. split; [done|apply N.le_0_l].
      * intros response [= <-]. exists headers, resp. rewrite Ef. cbn. rewrite <-!app_assoc, length_app. cbn.
        split_and!; try done; [lia|]. eexists [_; _; _]. by split.
    + destruct (next_hop _ _ _ _ _) as [|e] eqn:En; [done|]. intros [= <- <-]. cbn.
      split_and!; try done; [|right; by exists headers|by exists []; rewrite app_nil_r; split; [done|apply N.le_0_l]].
      eexists [_]. split; [done|]. split; [done|apply Nat.le_0_l].
  - destruct (final_response _ _ _ _) as [s1 r1] eqn:E1. intros [= -> ->].
    apply final_response_spec in E1 as ((evs & He & Hr & Hc & Hs) & Hcur & Hred & Hsent & Hdel & Hok); [|done]. cbn in *.
    rewrite <-app_assoc in He. split_and!; try done.
    + exists (EvRequestStart (wu_str (fs_current s)) (rq_method request) :: evs). by split_and!.
    + right. by exists headers.
    + intros response Hresp. destruct (Hok response Hresp) as (? & ? & ? & ? & ? & ? & ? & ? & ?).
      exists headers, resp. rewrite Ef. split_and!; try done.
      exists (EvRequestStart (wu_str (fs_current s)) (rq_method request) :: evs). split; [done|].
      rewrite sumN_cons, (Hs response Hresp). done.
Qed.

(** From any head of the loop: the end is reached with the turns that are left, from a last
    head of the loop. *)
Lemma loop_ends fuel s :
  loop_inv s → (fs_redirects s ≤ max_redirects config)%N → (max_redirects config < fs_redirects s + N.of_nat fuel)%N →
  ∃ s1 s' r, loop fuel s = Some (s', r) ∧ loop_inv s1 ∧ turn s1 = Done s' r ∧
    (fs_redirects s1 ≤ max_redirects config)%N.
Proof.
  revert s. induction fuel as [|fuel IH]; intros s Hs Hr Hf; cbn [fetch_loop]; [lia|].
  destruct (turn s) as [s'|s' r] eqn:Et; [|by exists s, s', r].
  pose proof (turn_inv s s' Hs Et) as Hs'. apply turn_again in Et as (? & ? & ? & _ & _ & _ & Hlt & _ & _ & _ & _ & Hr' & _).
  apply IH; [done|lia|lia].
Qed.

Local Abbreviation fetch := (fetch_bytes_with_limit config send clock request limit redirect).

Lemma fetch_ends jar :
  (∃ e, fetch jar = Some (fetch_start request jar, Err e)) ∨
  ∃ s1 s r, fetch jar = Some (s, r) ∧ loop_inv s1 ∧ turn s1 = Done s r ∧ (fs_redirects s1 ≤ max_redirects config)%N.
Proof.
  unfold fetch_bytes_with_limit. destruct (validate_http_url (rq_url request)) as [u|e] eqn:Ev; [|left; by eexists].
  right. apply loop_ends; [apply start_inv; by rewrite Ev|cbn; lia|cbn; lia].
Qed.

Lemma final_response_redirects s resp headers s' r :
  final_response limit s resp headers = (s', r) →
  redirects_of s' = redirects_of s ∧ fs_sent s' = fs_sent s ∧
  (∀ response, r = Ok response → br_final_url response = wu_str (fs_current s) ∧ br_redirects response = fs_redirects s).
Proof.
  intros [Hf|(e & -> & ->)]%final_response_cases.
  2: { split; [|done]. unfold redirects_of. cbn [fs_events record_progress]. rewrite omap_app. apply app_nil_r. }
  unfold final_body in Hf. cbn [fs_current record_progress push_head receive_read fs_events] in Hf.
  pose proof (read_body_no_redirect (wu_str (fs_current s)) (rr_content_length resp) [] 0 0 (rr_chunks resp)
    (rr_failure resp)) as Hnr. set (rd := read_body _ _ _ _ _ _ _ _) in *. unfold redirects_of.
  destruct (bd_result rd) as [[body loaded]|e]; injection Hf as <- <-; cbn [fs_events record_progress receive_read push_head];
    rewrite !omap_app, Hnr, !app_nil_r; cbn [omap list_omap event_redirect]; rewrite ?app_nil_r; split_and!; try done.
  by intros response [= <-].
Qed.

Lemma turn_done_sent s s' r :
  turn s = Done s' r →
  redirects_of s' = redirects_of s ∧
  (fs_sent s' = fs_sent s ∧ (∃ e, r = Err e) ∨ ∃ headers, fs_sent s' = fs_sent s ++ [turn_request s headers]) ∧
  (∀ response, r = Ok response → br_final_url response = wu_str (fs_current s) ∧ br_redirects response = fs_redirects s).
Proof.
  unfold fetch_turn. destruct (effective_request_headers_for _ _ _ _ _ _ _ _) as [jar [headers|e]].
  2: { intros [= <- <-]. split; [unfold redirects_of; cbn; by rewrite omap_app, app_nil_r|].
       split; [left; split; [done|by eexists]|done]. }
  cbn [fs_current record_progress visit set_jar push_sent]. fold (turn_request s headers).
  destruct (send (turn_request s headers)) as [resp|e] eqn:Es.
  2: { intros [= <- <-]. split; [unfold redirects_of; cbn; by rewrite omap_app, app_nil_r|].
       split; [right; by exists headers|done]. }
  destruct (is_followable_redirect (rr_status resp)) eqn:Ef.
  - case_bool_decide.
    + intros [= <- <-]. split; [unfold redirects_of; cbn; by rewrite !omap_app, !app_nil_r|].
      split; [right; by exists headers|by intros response [= <-]].
    + destruct (next_hop _ _ _ _ _); [done|]. intros [= <- <-].
      split; [unfold redirects_of; cbn; by rewrite omap_app, app_nil_r|]. split; [right; by exists headers|done].
  - destruct (final_response _ _ _ _) as [s1 r1] eqn:E1. intros [= -> ->].
    apply final_response_redirects in E1 as (Hr & Hs & Hok). split; [|split; [right; by exists headers|exact Hok]].
    rewrite Hr. unfold redirects_of. cbn. by rewrite omap_app, app_nil_r.
Qed.

(** The first request carries the headers that the jar it was called with gives. *)
Lemma turn_first s :
  fs_sent s = [] → fs_redirects s = 0%N →
  let outcome := effective_request_headers_for config (clock 0 0) (fs_jar s) (fs_current s) (rq_cross_site request)
                   (rq_method request) (rq_headers request) (rq_body request) in
  ∀ sent, match turn s with Again s' | Done s' _ => fs_sent s' = [sent] end →
  sent_url sent = fs_current s ∧ outcome.2 = Ok (sent_headers sent).
Proof.
  intros Hs Hr outcome sent. unfold fetch_turn. cbn [fs_current record_progress visit set_jar push_sent fs_redirects fs_jar].
  rewrite Hr. change (N.to_nat 0) with 0. fold outcome. destruct outcome as [jar [headers|e]] eqn:Ho; cbn [fs_sent set_jar record_progress visit snd].
  2: by rewrite Hs.
  fold (turn_request s headers). destruct (send _) as [resp|e].
  2: { cbn. rewrite Hs. by intros [= <-]. }
  destruct (is_followable_redirect _).
  - case_bool_decide; [cbn; rewrite Hs; by intros [= <-]|]. destruct (next_hop _ _ _ _ _) as [s'|e] eqn:En.
    + apply next_hop_Ok in En as (_ & _ & location & next & _ & _ & _ & _ & _ & ->). cbn. rewrite Hs. by intros [= <-].
    + cbn. rewrite Hs. by intros [= <-].
  - destruct (final_response _ _ _ _) as [s' r] eqn:Ef. apply final_response_redirects in Ef as (_ & -> & _).
    cbn. rewrite Hs. by intros [= <-].
Qed.

Lemma turn_extends s : fs_sent s `prefix_of` match turn s with Again s' | Done s' _ => fs_sent s' end.
Proof.
  destruct (turn s) as [s'|s' r] eqn:Et.
  - apply turn_again in Et as (headers & _ & _ & _ & _ & _ & _ & _ & _ & _ & _ & _ & _ & -> & _). by apply prefix_app_r.
  - apply turn_done_sent in Et as (_ & [[-> _]|[headers ->]] & _); [done|by apply prefix_app_r].
Qed.

Lemma loop_extends fuel s s' r : loop fuel s = Some (s', r) → fs_sent s `prefix_of` fs_sent s'.
Proof.
  revert s. induction fuel as [|fuel IH]; intros s; [done|]. cbn [fetch_loop]. pose proof (turn_extends s) as Hp.
  destruct (turn s) as [s1|s1 r1]; [|by intros [= <- <-]]. intros Hl%IH. by etrans.
Qed.

Lemma fetch_first jar s r sent rest :
  fetch jar = Some (s, r) → fs_sent s = sent :: rest →
  sent_url sent = rq_url request ∧
  (effective_request_headers_for config (clock 0 0) jar (rq_url request) (rq_cross_site request)
     (rq_method request) (rq_headers request) (rq_body request)).2 = Ok (sent_headers sent).
Proof.
  unfold fetch_bytes_with_limit. destruct (validate_http_url _); [|by intros [= <- <-]]. cbn [fetch_loop].
  pose proof (turn_first (fetch_start request jar) eq_refl eq_refl sent) as Hf.
  pose proof (λ s' r', turn_done_sent (fetch_start request jar) s' r') as Hd.
  destruct (turn (fetch_start request jar)) as [s1|s1 r1] eqn:Et.
  - intros Hl%loop_extends Hs. apply turn_again in Et as (headers & _ & _ & _ & _ & _ & _ & _ & _ & _ & _ & _ & _ & E1 & _).
    rewrite E1, Hs in Hl. apply Hf. rewrite E1. apply prefix_cons_inv_1 in Hl. cbn. by rewrite Hl.
  - intros [= <- <-] Hs. apply Hf. rewrite Hs. destruct (Hd s1 r1 eq_refl) as (_ & [[E1 _]|[headers E1]] & _); rewrite E1 in Hs.
    + done.
    + by injection Hs as _ <-.
Qed.

(** Where the requests go. *)
Lemma fetch_urls jar s r :
  fetch jar = Some (s, r) →
  let urls := sent_url <$> fs_sent s in
  Forall (λ u, is_ok (validate_http_url u) = true) urls ∧ Forall (λ u, redirect u = true) (tail urls) ∧
  NoDup (wu_str <$> urls) ∧ (urls = [] ∨ head urls = Some (rq_url request)).
Proof.
  intros Hf urls. destruct (fetch_ends jar) as [[e He]|(s1 & s' & r' & He & Hi & Ht & _)]; rewrite He in Hf; injection Hf as <- <-.
  { subst urls. cbn. split_and!; try constructor. done. }
  pose proof (turn_done_sent s1 _ _ Ht) as (_ & Hsent & _). destruct Hi as [_ _ In Iok Ia Is _ _ _ _ _].
  assert (∃ rest, path s1 = urls ++ rest) as [rest Hp].
  { destruct Hsent as [[E _]|[headers E]]; unfold urls, path; rewrite E; [by exists [fs_current s1]|exists []].
    by rewrite app_nil_r, fmap_app. }
  split_and!.
  - rewrite Hp in Iok. by apply Forall_app in Iok as [? _].
  - rewrite Hp in Ia. destruct urls as [|u us]; [constructor|]. cbn in *. by apply Forall_app in Ia as [? _].
  - rewrite Hp, fmap_app in In. by apply NoDup_app in In as [? _].
  - rewrite Hp in Is. destruct urls as [|u us]; [by left|by right].
Qed.

(** ** The answer that is shown *)

Lemma read_body_chunks url total body loaded pending chunks failure :
  let rd := read_body limit url total body loaded pending chunks failure in
  bd_delivered rd `prefix_of` chunks ∧ ∀ b l, bd_result rd = Ok (b, l) → b = body ++ concat chunks.
Proof.
  intros rd. subst rd. revert body loaded pending. induction chunks as [|chunk chunks IH]; intros body loaded pending; cbn [read_body].
  - destruct failure; cbn; (split; [done|]); [done|]. intros b l [= <- _]. by rewrite app_nil_r.
  - destruct (_ <? _)%N; cbn [bd_delivered bd_result]; [split; [apply prefix_nil|done]|].
    destruct (IH (body ++ chunk) (u64_saturating_add loaded (len chunk))
      (if (body_progress_quantum limit <=? u64_saturating_add pending (len chunk))%N ||
          bool_decide (total = Some (u64_saturating_add loaded (len chunk)))
       then 0 else u64_saturating_add pending (len chunk))%N) as [Hd Hr].
    split; [by apply prefix_cons|]. intros b l Hb. rewrite (Hr b l Hb). cbn [concat]. by rewrite app_assoc.
Qed.

(** The head is that of [raw], the answer to [sent]. *)
Definition head_from (sent : Sent) (raw : RawResponse) (head : ResponseHead) : Prop :=
  rh_final_url head = wu_str (sent_url sent) ∧ rh_status head = rr_status raw ∧
  rh_headers head = flatten_headers (rr_headers raw).
(** So is the response, with the whole body, but for that of a redirect that is not followed. *)
Definition response_from (sent : Sent) (raw : RawResponse) (response : ByteResponse) : Prop :=
  br_final_url response = wu_str (sent_url sent) ∧ br_status response = rr_status raw ∧
  br_headers response = flatten_headers (rr_headers raw) ∧
  br_body response = if is_followable_redirect (rr_status raw) then [] else concat (rr_chunks raw).

(** At its end a fetch has nothing to show, or the answer to its last request. *)
Definition ends_with_answer (s : FetchState) (r : result NetworkError ByteResponse) : Prop :=
  (fs_heads s = [] ∧ fs_delivered s = [] ∧ ∃ e, r = Err e) ∨
  ∃ sent raw head,
    last (fs_sent s) = Some sent ∧ send sent = Ok raw ∧ fs_heads s = [head] ∧ head_from sent raw head ∧
    fs_delivered s `prefix_of` rr_chunks raw ∧ ∀ response, r = Ok response → response_from sent raw response.

Lemma final_response_answers s resp headers s' r sent :
  last (fs_sent s) = Some sent → send sent = Ok resp → sent_url sent = fs_current s →
  is_followable_redirect (rr_status resp) = false → fs_heads s = [] → fs_delivered s = [] →
  final_response limit s resp headers = (s', r) → ends_with_answer s' r.
Proof.
  intros Hl Hs Hu Hf Hh Hd [Hb|(e & -> & ->)]%final_response_cases.
  2: { left. split_and!; [done|done|by eexists]. }
  right. unfold final_body in Hb. cbn [fs_current record_progress push_head receive_read fs_events fs_delivered] in Hb.
  pose proof (read_body_chunks (wu_str (fs_current s)) (rr_content_length resp) [] 0 0 (rr_chunks resp) (rr_failure resp)) as [Hc Hok].
  set (rd := read_body _ _ _ _ _ _ _ _) in *. exists sent, resp.
  destruct (bd_result rd) as [[body loaded]|e]; injection Hb as <- <-; cbn; rewrite Hh, Hd; eexists;
    (split_and!; [done|done|done|unfold head_from; cbn; by rewrite Hu|done|]).
  - intros response [= <-]. unfold response_from. cbn. rewrite Hu, Hf, (Hok body loaded eq_refl). done.
  - done.
Qed.

Lemma turn_answers s s' r : fs_heads s = [] → fs_delivered s = [] → turn s = Done s' r → ends_with_answer s' r.
Proof.
  intros Hh Hd. unfold fetch_turn. destruct (effective_request_headers_for _ _ _ _ _ _ _ _) as [jar [headers|e]].
  2: { intros [= <- <-]. left. split_and!; [done|done|by eexists]. }
  cbn [fs_current record_progress visit set_jar push_sent]. fold (turn_request s headers).
  destruct (send (turn_request s headers)) as [resp|e] eqn:Es.
  2: { intros [= <- <-]. left. split_and!; [done|done|by eexists]. }
  destruct (is_followable_redirect (rr_status resp)) eqn:Ef.
  - case_bool_decide.
    + intros [= <- <-]. right. exists (turn_request s headers), resp. cbn. rewrite Hh, Hd. eexists. cbn [app].
      split_and!; [by rewrite last_snoc|done|done|done|apply prefix_nil|]. intros response [= <-]. unfold response_from. cbn. by rewrite Ef.
    + destruct (next_hop _ _ _ _ _); [done|]. intros [= <- <-]. left. split_and!; [done|done|by eexists].
  - destruct (final_response _ _ _ _) as [s1 r1] eqn:E1. intros [= -> ->].
    eapply (final_response_answers _ _ _ _ _ (turn_request s headers)), E1; cbn; try done. by rewrite last_snoc.
Qed.

Lemma fetch_answers jar s r : fetch jar = Some (s, r) → ends_with_answer s r.
Proof.
  intros Hf. destruct (fetch_ends jar) as [[e He]|(s1 & s' & r' & He & Hi & Ht & _)]; rewrite He in Hf; injection Hf as <- <-.
  - left. split_and!; [done|done|by eexists].
  - eapply turn_answers, Ht; apply Hi.
Qed.

(** C25. A fetch ends: whatever the server answers, after at most one request more than the
    redirects that the configuration permits. *)
Theorem fetch_terminates jar :
  ∃ s r, fetch jar = Some (s, r) ∧ (len (fs_sent s) ≤ max_redirects config + 1)%N.
Proof.
  destruct (fetch_ends jar) as [[e He]|(s1 & s & r & He & Hi & Ht & Hr)].
  - exists (fetch_start request jar), (Err e). split; [done|apply N.le_0_l].
  - exists s, r. split; [done|]. pose proof (li_redirects s1 Hi) as Hl.
    destruct (turn_done_sent s1 s r Ht) as (_ & [[-> _]|[headers ->]] & _); rewrite ?len_app; [lia|].
    unfold len in *. cbn [length]. lia.
Qed.

(** C26. Every request that leaves is to a URL that the URL policy permits, every redirect target
    also by the caller's policy, no URL is requested twice, and the requests follow the
    redirects from the URL that was asked for to the final URL of the response. *)
Theorem fetch_requests_permitted jar :
  match fetch jar with
  | None => False
  | Some (s, r) =>
      let urls := sent_url <$> fs_sent s in
      Forall (λ u, is_ok (validate_http_url u) = true) urls ∧ Forall (λ u, redirect u = true) (tail urls) ∧
      NoDup (wu_str <$> urls) ∧ (urls = [] ∨ head urls = Some (rq_url request)) ∧
      match r with
      | Err _ => True
      | Ok response =>
          let hops := omap event_redirect (fs_events s) in
          wu_str <$> last urls = Some (br_final_url response) ∧ br_redirects response = len (tail urls) ∧
          wu_str <$> urls = hops.*1 ++ [br_final_url response] ∧
          wu_str <$> urls = wu_str (rq_url request) :: (hop_to ∘ snd <$> hops)
      end
  end.
Proof.
  pose proof (fetch_urls jar) as Hurls. destruct (fetch_ends jar) as [[e E]|(s1 & s & r & E & Hi & Ht & _)]; rewrite E in *.
  { cbn. split_and!; try constructor. done. }
  destruct (Hurls s r eq_refl) as (H1' & H2' & H3' & H4'). clear Hurls. cbn zeta. split_and!; try done. clear H1' H2' H3' H4'.
  pose proof (turn_done_sent s1 s r Ht) as (Hred & Hsent & Hok). destruct Hi as [Ir _ _ _ _ Is If It _ _ _].
  destruct r as [response|]; [|done]. destruct (Hok response eq_refl) as [Hfin Hn].
    destruct Hsent as [[_ [e He]]|[headers Hsent]]; [done|].
    assert (sent_url <$> fs_sent s = path s1) as Hu by (unfold path; by rewrite Hsent, fmap_app).
    change (omap event_redirect (fs_events s)) with (redirects_of s). rewrite Hred, Hu, If, It, Hfin, Hn, Ir.
    split_and!.
    + unfold path. by rewrite last_snoc.
    + unfold path, len. destruct (fs_sent s1); [done|]. cbn. rewrite length_app, length_fmap. cbn. f_equal. lia.
    + unfold path. by rewrite fmap_app, <-list_fmap_compose.
    + destruct (path s1) as [|u us]; [done|]. by injection Is as ->.
Qed.

Lemma no_progress (evs : list NetworkEvent) :
  Forall (λ e, is_progress e = false) evs →
  filter (λ e, is_progress e = true) evs = [] ∧ sumN progress_bytes evs = 0%N.
Proof.
  induction 1 as [|e evs He _ [IH1 IH2]]; [done|]. rewrite filter_cons_False by (by rewrite He). split; [done|].
  rewrite sumN_cons, IH2. by destruct e.
Qed.

(** C27. What is delivered of a body never exceeds the limit; a response has the whole body as it
    was delivered, its progress events add up to its length, and there are at most 257 of them
    (not counting empty chunks), however the body is cut into chunks. *)
Theorem fetch_body_bounded jar :
  (limit < u64_max)%N →
  match fetch jar with
  | None => False
  | Some (s, r) =>
      (len (concat (fs_delivered s)) ≤ limit)%N ∧
      length (filter (λ e, is_progress e = true) (fs_events s)) ≤ 257 + empty_chunks (fs_delivered s) ∧
      ∀ response, r = Ok response →
        br_body response = concat (fs_delivered s) ∧ br_events response = fs_events s ∧
        sumN progress_bytes (br_events response) = len (br_body response) ∧ length (fs_heads s) = 1
  end.
Proof.
  intros Hlim. destruct (fetch_ends jar) as [[e ->]|(s1 & s & r & -> & Hi & Ht & _)].
  { cbn. split; [apply N.le_0_l|]. split; [lia|done]. }
  destruct Hi as [_ _ _ _ _ _ _ _ Ip Ih Id].
  destruct (turn_done s1 s r Hlim Ht) as ((evs & He & _ & Hc) & _ & _ & _ & (d & Hd & Hl) & Hok).
  rewrite Id in *. destruct (no_progress _ Ip) as [Hp1 Hp2]. cbn [app length drop] in *. rewrite Hd in *. split; [done|]. split.
  - by rewrite He, filter_app, Hp1.
  - intros response Hr. destruct (Hok response Hr) as (headers & resp & _ & _ & _ & _ & _ & _ & _ & Hev & Hh & Hb).
    rewrite Ih in Hh. rewrite Hev. destruct Hb as ((evs' & He' & Hsum) & Hb).
    assert (br_body response = concat (fs_delivered s)) as Hbody.
    { destruct (is_followable_redirect (rr_status resp)); destruct Hb as [-> ->]; by rewrite Id. }
    rewrite Hd in Hbody. split_and!; try done. by rewrite He', sumN_app, Hp2, Hsum.
Qed.

(** ** The request headers *)

(** The values that the author gives under a name. *)
Definition author_values (headers : list (rstr * rstr)) (n : rstr) : list rstr :=
  omap (λ nv, match header_name nv.1, header_value nv.2 with
              | Some m, Some v => if decide (to_ascii_lowercase m = n) then Some v else None
              | _, _ => None
              end) headers.

Lemma combine_header_get key v out n :
  btree out →
  map_get (combine_header key v out) n =
  if decide (n = key) then Some (match map_get out key with Some c => c ++ lit ", " ++ v | None => v end)
  else map_get out n.
Proof. intros Hb. unfold combine_header. by rewrite map_get_insert. Qed.

Definition joined (c : option rstr) (vs : list rstr) : option rstr :=
  match c, vs with None, [] => None | None, _ => Some (join (lit ", ") vs) | Some c, _ => Some (join (lit ", ") (c :: vs)) end.

Lemma join_cons2 sep a b vs : join sep (a :: b :: vs) = join sep ((a ++ sep ++ b) :: vs).
Proof. destruct vs; cbn; [done|]. by rewrite !app_assoc. Qed.

Lemma author_headers_spec out headers out' :
  btree out → author_headers out headers = Ok out' →
  btree out' ∧ ∀ n, map_get out' n = joined (map_get out n) (author_values headers n).
Proof.
  revert out. induction headers as [|[name value] headers IH]; intros out Hb; cbn [author_headers].
  - intros [= <-]. split; [done|]. intros n. unfold joined, author_values. cbn. by destruct (map_get out n).
  - destruct (header_name name) as [m|] eqn:En; [|done]. destruct (header_value value) as [v|] eqn:Ev; [|done].
    intros Ho. destruct (IH _ (map_insert_btree _ _ _ Hb) Ho) as [Hb' Hg]. split; [done|]. intros n. rewrite Hg.
    fold (combine_header (to_ascii_lowercase m) v out). rewrite combine_header_get by done.
    unfold author_values at 2. cbn [omap list_omap fst snd]. rewrite En, Ev. fold (author_values headers n).
    destruct (decide (n = to_ascii_lowercase m)) as [->|Hn].
    + rewrite decide_True by done. unfold joined.
      destruct (map_get out _) as [c|]; [by rewrite join_cons2|]. done.
    + by rewrite decide_False by done.
Qed.

Lemma or_insert_get key v out n :
  btree out →
  btree (or_insert key v out) ∧
  map_get (or_insert key v out) n =
  match map_get out n with Some c => Some c | None => if decide (n = key) then Some v else None end.
Proof.
  intros Hb. unfold or_insert. destruct (map_get out key) as [c|] eqn:E.
  - split; [done|]. destruct (map_get out n) eqn:En; [done|]. case_decide; [congruence|done].
  - split; [by apply map_insert_btree|]. rewrite map_get_insert by done. case_decide as Hn; [by rewrite Hn, E|].
    by destruct (map_get out n).
Qed.

Definition default_header (url : WebUrl) (n : rstr) : option rstr :=
  if decide (n = lit "user-agent") then Some (user_agent config)
  else if decide (n = lit "accept-encoding") then Some (lit "gzip, br")
  else if decide (n = lit "host") then request_host url else None.

Lemma defaults_get o url :
  btree o →
  let o1 := or_insert (lit "user-agent") (user_agent config) o in
  let o2 := or_insert (lit "accept-encoding") (lit "gzip, br") o1 in
  let o3 := match request_host url with Some host => or_insert (lit "host") host o2 | None => o2 end in
  btree o3 ∧ ∀ n, map_get o3 n = match map_get o n with Some c => Some c | None => default_header url n end.
Proof.
  intros Hb o1 o2 o3.
  destruct (or_insert_get (lit "user-agent") (user_agent config) o (lit "user-agent") Hb) as [Hb1 _]. fold o1 in Hb1.
  destruct (or_insert_get (lit "accept-encoding") (lit "gzip, br") o1 (lit "user-agent") Hb1) as [Hb2 _]. fold o2 in Hb2.
  assert (∀ n, map_get o2 n = match map_get o n with Some c => Some c | None =>
      if decide (n = lit "user-agent") then Some (user_agent config)
      else if decide (n = lit "accept-encoding") then Some (lit "gzip, br") else None end) as Hg2.
  { intros n. unfold o2. rewrite (proj2 (or_insert_get _ _ _ _ Hb1)). unfold o1. rewrite (proj2 (or_insert_get _ _ _ _ Hb)).
    destruct (map_get o n); [done|]. by case_decide. }
  unfold o3, default_header. destruct (request_host url) as [host|].
  - split; [by apply (or_insert_get (lit "host") host o2 (lit "host"))|]. intros n.
    rewrite (proj2 (or_insert_get _ _ _ _ Hb2)), Hg2. destruct (map_get o n); [done|]. by repeat case_decide.
  - split; [done|]. intros n. rewrite Hg2. destruct (map_get o n); [done|]. by repeat case_decide.
Qed.

(** The headers of a request: whatever the author gives, [cookie] is what the jar sends to
    this URL and [content-length] is the length of the body; every other header is the author's,
    its values joined, and the user agent, the encodings and the host are filled in when the
    author does not give them. *)
Theorem request_headers_exact now jar url cross_site method headers body jar' out :
  effective_request_headers_for config now jar url cross_site method headers body = (jar', Ok out) →
  let cookie := (cookies_for (cookie_url url) cross_site method now jar).2 in
  btree out ∧
  map_get out (lit "cookie") = (if decide (cookie = []) then None else Some cookie) ∧
  map_get out (lit "content-length") = dec ∘ len <$> body ∧
  ∀ n, n ≠ lit "cookie" → n ≠ lit "content-length" →
    map_get out n = match author_values headers n with [] => default_header url n | vs => Some (join (lit ", ") vs) end.
Proof.
  intros He cookie. unfold effective_request_headers_for in He. subst cookie.
  destruct (author_headers [] headers) as [o|] eqn:Ea; [|done].
  apply author_headers_spec in Ea as [Hbo Hgo]; [|constructor].
  destruct (cookies_for (cookie_url url) cross_site method now jar) as [jar1 c]. injection He as _ <-. cbn [snd].
  destruct (defaults_get o url Hbo) as [Hb Hg]. set (o3 := match request_host url with Some _ => _ | None => _ end) in *.
  set (o4 := if bool_decide (c = []) then map_remove (lit "cookie") o3 else map_insert (lit "cookie") c o3).
  assert (btree o4 ∧ ∀ n, map_get o4 n =
    if decide (n = lit "cookie") then (if decide (c = []) then None else Some c) else map_get o3 n) as [Hb4 Hg4].
  { unfold o4. case_bool_decide as Hc.
    - split; [by apply map_remove_btree|]. intros n. rewrite map_get_remove. by rewrite (decide_True (P := c = [])) by done.
    - split; [by apply map_insert_btree|]. intros n. rewrite map_get_insert by done. by rewrite (decide_False (P := c = [])) by done. }
  set (o5 := match body with Some _ => _ | None => _ end).
  assert (btree o5 ∧ ∀ n, map_get o5 n =
    if decide (n = lit "content-length") then dec ∘ len <$> body else map_get o4 n) as [Hb5 Hg5].
  { unfold o5. destruct body as [b|].
    - split; [by apply map_insert_btree|]. intros n. by rewrite map_get_insert.
    - split; [by apply map_remove_btree|]. intros n. by rewrite map_get_remove. }
  split; [done|]. split; [|split].
  - rewrite Hg5, Hg4. rewrite decide_False by (intros E; vm_compute in E; congruence). by rewrite decide_True.
  - rewrite Hg5. by rewrite decide_True.
  - intros n Hn1 Hn2. rewrite Hg5, Hg4, !decide_False, Hg, Hgo by done. cbn. by destruct (author_values headers n).
Qed.
End network_facts.

(** ** A fetch across two sites *)

#[local] Existing Instance toy_platform.

Definition site_url (host path : string) : WebUrl :=
  {| wu_str := lit "https://" ++ lit host ++ lit path; wu_host := Some (Domain (lit host));
     wu_origin := {| uo_scheme := lit "https"; uo_host_str := Some (lit host); uo_port_or_known_default := Some 443%N |};
     wu_port := None; wu_path := lit path |}.
(** Every redirect of the server goes to the bank. *)
Definition bank_urls : UrlPlatform := {|
  url_parse := λ _, Some (site_url "bank.com" "/pay"); url_join := λ _ _, Some (site_url "bank.com" "/pay");
  host_to_string := λ _, []; url_same_origin := λ a b, bool_decide (wu_str a = wu_str b);
  url_origin_ascii := λ _, []; url_for_referrer := wu_str |}.
#[local] Existing Instance bank_urls.
#[local] Instance plain_headers : HttpCrate := {| header_name := Some; header_value := Some |}.

Definition small_config : NetworkConfig := {| user_agent := lit "Vixen"; max_body_bytes := 64; max_redirects := 3 |}.
Definition two_sites (sent : Sent) : result NetworkError RawResponse :=
  if bool_decide (wu_path (sent_url sent) = lit "/pay")
  then Ok {| rr_status := 200; rr_headers := [(lit "content-type", Some (lit "text/plain"))]; rr_content_length := Some 3%N;
             rr_chunks := [[1; 2]; [3]]%N; rr_failure := None |}
  else Ok {| rr_status := 302; rr_headers := [(lit "location", Some (lit "https://bank.com/pay"))];
             rr_content_length := None; rr_chunks := []; rr_failure := None |}.
Definition bank_jar : CookieJar :=
  (set_cookie (lit "sid=1; SameSite=Strict; Secure") (cookie_url (site_url "bank.com" "/")) true (toy_clock 100%Z) CookieJar_new).1.
(** A page of evil.com asks its own site, so the request is not cross-site. *)
Definition own_request (method : Method) : TextRequest :=
  {| rq_url := site_url "evil.com" "/go"; rq_cross_site := false; rq_method := method; rq_redirect_mode := Follow;
     rq_headers := [(lit "authorization", lit "secret")]; rq_body := Some [7%N] |}.
Definition own_fetch (method : Method) :=
  fetch_bytes_with_limit small_config two_sites (λ _, toy_clock 100%Z) (own_request method) 64 (λ _, true) bank_jar.

Lemma fetch_body_bounded_witness :
  (64 < u64_max)%N ∧
  match own_fetch Get with
  | None => False
  | Some (s, r) => (len (concat (fs_delivered s)) ≤ 64)%N
  end.
Proof.
  split; [done|]. pose proof (fetch_body_bounded small_config two_sites (λ _, toy_clock 100%Z) (own_request Get) 64 (λ _, true)
    bank_jar ltac:(done)) as Hb. unfold own_fetch. destruct (fetch_bytes_with_limit _ _ _ _ _ _ _) as [[s r]|]; [|exact Hb].
  exact (proj1 Hb).
Defined.

Lemma request_headers_exact_witness :
  ∃ jar' out,
    effective_request_headers_for small_config 100%Z bank_jar (site_url "bank.com" "/pay") false Get [] None = (jar', Ok out) ∧
    map_get out (lit "cookie") = Some (lit "sid=1").
Proof.
  eexists _, _. split; [vm_compute; reflexivity|].
  refine (eq_trans (proj1 (proj2 (request_headers_exact small_config 100%Z bank_jar (site_url "bank.com" "/pay") false
    Get [] None _ _ _))) _); vm_compute; reflexivity.
Defined.

(** The redirect of a request that is not cross-site takes the cookies that the other site
    keeps to itself (SameSite=Strict) along, with the author's [authorization] header, the
    method and the body, also for a POST that a 302 redirects. *)
Example redirect_keeps_cross_site_and_body :
  match own_fetch Post with
  | Some (s, _) =>
      match fs_sent s with
      | [_; second] => map_get (sent_headers second) (lit "cookie") = Some (lit "sid=1") ∧
          map_get (sent_headers second) (lit "authorization") = Some (lit "secret") ∧
          sent_method second = Post ∧ sent_body second = Some [7%N]
      | _ => False
      end
  | None => False
  end.
Proof. vm_compute. done. Qed.
