(* ===== verification/FetchPolicy.v ===== *)
(** * Policies of a fetch

    Definitions only.  [crates/vixen-net/src]: [referrer_policy.rs], [mixed_content.rs] and
    [integrity.rs]; [crates/vixen-engine/src/script/webapi.rs]: [FetchPolicy], which puts them
    and the content security policy of the page in front of a fetch.

    sha2 and base64 are the class [Crypto].  [FetchPolicy::from_page], which reads a parsed
    page, is not modelled. *)

From Stdlib Require Import Lia ZArith.
From stdpp Require Import base decidable gmap sets list strings.
From S2P Require Import Prelude.
From S2P Require Import RustStr.
From S2P Require Import RustUtf8.
From S2P Require Import Cookie.
From S2P Require Import WebStorage.
From S2P Require Import NetUrl.
From S2P Require Import Csp.
From S2P Require Import Cors.

(** ** [referrer_policy.rs] *)

Inductive ReferrerPolicy : Type :=
| NoReferrer | NoReferrerWhenDowngrade | RefSameOrigin | RefOrigin | OriginWhenCrossOrigin | UnsafeUrl
| StrictOrigin | StrictOriginWhenCrossOrigin.
#[export] Instance ReferrerPolicy_eq_dec : EqDecision ReferrerPolicy.
Proof. solve_decision. Defined.
Definition ReferrerPolicy_default : ReferrerPolicy := StrictOriginWhenCrossOrigin.

Definition referrer_tokens : list (rstr * ReferrerPolicy) :=
  [(lit "no-referrer", NoReferrer); (lit "no-referrer-when-downgrade", NoReferrerWhenDowngrade);
   (lit "same-origin", RefSameOrigin); (lit "origin", RefOrigin);
   (lit "origin-when-cross-origin", OriginWhenCrossOrigin); (lit "unsafe-url", UnsafeUrl);
   (lit "strict-origin", StrictOrigin); (lit "strict-origin-when-cross-origin", StrictOriginWhenCrossOrigin)].
Definition parse_token (token : rstr) : option ReferrerPolicy :=
  snd ∘ snd <$> list_find (λ t, t.1 = trim token) referrer_tokens.

(** Comma, space, tab, line feed, carriage return. *)
Definition is_policy_separator (c : rchar) : bool := ((c =? 44) || (c =? 32) || (c =? 9) || (c =? 10) || (c =? 13))%N.
Definition parse_referrer_policy (header : rstr) : option ReferrerPolicy :=
  last (omap parse_token (filter (λ t, t ≠ []) (split_by is_policy_separator header))).

Inductive ReferrerValue : Type := ReferrerNone | ReferrerOrigin (value : rstr) | FullUrl (value : rstr).

Definition is_local_trustworthy (url : WebUrl) : bool :=
  match wu_host url with
  | Some (Domain d) =>
      let d := to_ascii_lowercase d in bool_decide (d = lit "localhost") || ends_with (lit ".localhost") d
  | Some (Ipv4 ip) => v4_is_loopback ip
  | Some (Ipv6 ip) => (ip =? 1)%N
  | None => false
  end.
Definition is_potentially_trustworthy (url : WebUrl) : bool :=
  let scheme := wu_scheme url in
  if bool_decide (scheme = lit "https") || bool_decide (scheme = lit "wss") || bool_decide (scheme = lit "file") then true
  else if bool_decide (scheme = lit "http") || bool_decide (scheme = lit "ws") then is_local_trustworthy url
  else false.

(** ** [mixed_content.rs] *)

Inductive ResourceType : Type :=
| ResScript | ResStylesheet | ResFetch | ResIframe | ResObject | ResFont | ResStream | ResImage | ResAudio | ResVideo
| ResDocument.
Definition is_active (self : ResourceType) : bool :=
  match self with
  | ResScript | ResStylesheet | ResFetch | ResIframe | ResObject | ResFont | ResStream => true
  | _ => false
  end.
Definition is_passive (self : ResourceType) : bool :=
  match self with ResImage | ResAudio | ResVideo => true | _ => false end.
Definition is_navigation (self : ResourceType) : bool := match self with ResDocument => true | _ => false end.

Inductive MixedContentVerdict : Type := NotMixed | Block | Upgrade.
#[export] Instance MixedContentVerdict_eq_dec : EqDecision MixedContentVerdict.
Proof. solve_decision. Defined.

Definition classify (context_trustworthy : bool) (request_url : WebUrl) (resource : ResourceType)
    (block_all_mixed_content : bool) : MixedContentVerdict :=
  if negb context_trustworthy then NotMixed
  else if is_potentially_trustworthy request_url then NotMixed
  else if block_all_mixed_content then Block
  else if is_navigation resource then NotMixed
  else if is_passive resource then Upgrade
  else Block.

(** ** [integrity.rs] *)

Definition algorithm_token (self : HashAlg) : rstr :=
  match self with Sha256 => lit "sha256" | Sha384 => lit "sha384" | Sha512 => lit "sha512" end.
Definition parse_algorithm (token : rstr) : option HashAlg :=
  let t := to_ascii_lowercase token in
  if bool_decide (t = lit "sha256") then Some Sha256
  else if bool_decide (t = lit "sha384") then Some Sha384
  else if bool_decide (t = lit "sha512") then Some Sha512
  else None.
Definition strength (self : HashAlg) : N := match self with Sha256 => 1 | Sha384 => 2 | Sha512 => 3 end.

Record IntensityItem : Type := { ii_algorithm : HashAlg; ii_digest : rstr; ii_options : option rstr }.

Inductive IntegrityOutcome : Type :=
| NoMetadata | Verified (algorithm : HashAlg) | Mismatch (attempted : list HashAlg) | NoKnownAlgorithms.

(** [u8::is_ascii_whitespace]; 63 is the question mark, 45 the dash. *)
Definition is_ascii_whitespace (c : rchar) : bool := ((c =? 32) || (c =? 9) || (c =? 10) || (c =? 12) || (c =? 13))%N.
Definition parse_integrity_entry (entry : rstr) : option IntensityItem :=
  let '(main, options) := match split_once 63 entry with Some (m, o) => (m, Some o) | None => (entry, None) end in
  match split_once 45 main with
  | None => None
  | Some (token, digest_) =>
      match parse_algorithm token with
      | None => None
      | Some algorithm =>
          if bool_decide (digest_ = []) then None
          else Some {| ii_algorithm := algorithm; ii_digest := digest_; ii_options := options |}
      end
  end.
Definition parse_integrity (attribute : rstr) : list IntensityItem :=
  omap parse_integrity_entry (filter (λ e, e ≠ []) (split_by is_ascii_whitespace attribute)).

Section integrity.
Context `{Crypto}.

Definition item_matches (body : list N) (item : IntensityItem) : bool :=
  constant_time_eq (digest (ii_algorithm item) body) (default [] (base64_decode (ii_digest item))).

(** The loop over the candidates. *)
Fixpoint verify_loop (attempted : list HashAlg) (candidates : list IntensityItem) (body : list N) : IntegrityOutcome :=
  match candidates with
  | [] => match attempted with [] => NoKnownAlgorithms | _ => Mismatch attempted end
  | item :: candidates =>
      if item_matches body item then Verified (ii_algorithm item)
      else verify_loop (attempted ++ [ii_algorithm item]) candidates body
  end.
Definition strongest (items : list IntensityItem) : N := foldr N.max 0%N ((λ i, strength (ii_algorithm i)) <$> items).
Definition verify (items : list IntensityItem) (body : list N) : IntegrityOutcome :=
  match items with
  | [] => NoMetadata
  | _ => verify_loop [] (filter (λ i, strength (ii_algorithm i) = strongest items) items) body
  end.
End integrity.

(** ** [FetchPolicy] *)

Record FetchPolicy : Type := { fp_csp : ContentSecurityPolicy; fp_origin : Origin; fp_context_url : option WebUrl }.

Section policy.
Context `{UrlPlatform}.

Definition resolve_referrer (policy : ReferrerPolicy) (source dest : WebUrl) : ReferrerValue :=
  let downgrade := is_potentially_trustworthy source && negb (is_potentially_trustworthy dest) in
  let same_origin := url_same_origin source dest in
  let full := FullUrl (url_for_referrer source) in
  let origin := ReferrerOrigin (url_origin_ascii source) in
  match policy with
  | NoReferrer => ReferrerNone
  | UnsafeUrl => full
  | NoReferrerWhenDowngrade => if downgrade then ReferrerNone else full
  | RefSameOrigin => if same_origin then full else ReferrerNone
  | StrictOrigin => if downgrade then ReferrerNone else origin
  | RefOrigin => origin
  | OriginWhenCrossOrigin => if same_origin then full else origin
  | StrictOriginWhenCrossOrigin => if same_origin then full else if downgrade then ReferrerNone else origin
  end.

Definition allows_connect (self : FetchPolicy) (url : WebUrl) : bool :=
  allows_fetch (fp_csp self) (lit "connect-src") url (fp_origin self).
Definition mixed_content_verdict (self : FetchPolicy) (url : WebUrl) : MixedContentVerdict :=
  classify (match fp_context_url self with Some u => is_potentially_trustworthy u | None => false end) url ResFetch false.
Definition is_cross_origin (self : FetchPolicy) (url : WebUrl) : bool :=
  negb (bool_decide (Origin_from_url (wu_origin url) = fp_origin self)).
Definition policy_cors_origin (self : FetchPolicy) : rstr := cors_origin_value (fp_origin self).

(** [Err] is an unsupported policy text. *)
Definition referrer_header (self : FetchPolicy) (url : WebUrl) (policy_text : option rstr) : result rstr (option rstr) :=
  match fp_context_url self with
  | None => Ok None
  | Some source =>
      let policy := match policy_text with
                    | Some ((_ :: _) as value) => ok_or (parse_referrer_policy value) value
                    | _ => Ok ReferrerPolicy_default
                    end in
      policy ← policy;
      Ok (match resolve_referrer policy source url with
          | ReferrerNone => None
          | ReferrerOrigin value | FullUrl value => Some value
          end)
  end.
End policy.
