(* ===== verification/ProfileCookies.v ===== *)
(** * Cookies of the profile

    [crates/vixen-engine/src/script/webapi.rs]: how the jar that the documents
    of a runtime share is loaded from the profile store for one fetch or one use of
    [document.cookie], and written back.

    The jars are those of [Cookie.v], the store that of [Store.v]; poisoned locks are not
    modelled. *)

From Stdlib Require Import Lia ZArith.
From stdpp Require Import base decidable gmap sets list strings.
From S2P Require Import Prelude.
From S2P Require Import RustStr.
From S2P Require Import RustUtf8.
From S2P Require Import Cookie.
From S2P Require Import Store.
From S2P Require Import WebStorage.
From S2P Require Import NetUrl.
From S2P Require Import Network.
From S2P Require Import CookieFacts.
From S2P Require Import StoreFacts.

Definition same_site_from_store (value : N) : SameSite :=
  if (value =? 0)%N then Strict else if (value =? 2)%N then SameSiteNone else Lax.
Definition same_site_to_store (value : SameSite) : N :=
  match value with Strict => 0 | Lax => 1 | SameSiteNone => 2 end.

Definition cookie_record_to_snapshot (r : CookieRecord) : CookieSnapshot :=
  {| cs_name := cr_name r; cs_value := cr_value r; cs_domain := cr_domain r; cs_host_only := cr_host_only r;
     cs_path := cr_path r; cs_expires_unix := cr_expires_unix r; cs_secure := cr_secure r;
     cs_http_only := cr_http_only r; cs_same_site := same_site_from_store (cr_same_site r);
     cs_creation_unix := cr_creation_unix r |}.
Definition cookie_snapshot_to_record (s : CookieSnapshot) : CookieRecord :=
  {| cr_name := cs_name s; cr_value := cs_value s; cr_domain := cs_domain s; cr_host_only := cs_host_only s;
     cr_path := cs_path s; cr_expires_unix := cs_expires_unix s; cr_secure := cs_secure s;
     cr_http_only := cs_http_only s; cr_same_site := same_site_to_store (cs_same_site s);
     cr_creation_unix := cs_creation_unix s |}.

Definition cookie_snapshot_matches_host (snapshot : CookieSnapshot) (host : rstr) : bool :=
  let host := to_ascii_lowercase host in
  let domain := to_ascii_lowercase (cs_domain snapshot) in
  bool_decide (host = domain) || (negb (cs_host_only snapshot) && ends_with (46%N :: domain) host).

Definition cookie_origin_key (url : WebUrl) : rstr := origin_partition_key (Origin_from_url (wu_origin url)).
(** [url.host_str().unwrap_or_default().to_ascii_lowercase()] *)
Definition origin_host (url : WebUrl) : rstr := to_ascii_lowercase (default [] (uo_host_str (wu_origin url))).

Section profile.
Context `{Platform, StorePlatform}.

Definition load_snapshots (shared : CookieJar) (store : option Store) (origin_key : rstr) (now : OffsetDateTime) :
    result StoreError (list CookieSnapshot) :=
  match store with
  | None => Ok (snapshots now shared)
  | Some s =>
      records ← store_cookies_for origin_key s;
      Ok ((cookie_record_to_snapshot <$> records) ++ snapshots now shared)
  end.
Definition load_cookie_jar (shared : CookieJar) (store : option Store) (origin_key : rstr) (now : OffsetDateTime)
    (clock : nat → OffsetDateTime) : result StoreError CookieJar :=
  loaded ← load_snapshots shared store origin_key now; Ok (from_snapshots loaded now clock).

Definition persist_cookie_snapshots (origin_key host : rstr) (snaps : list CookieSnapshot) (s : Store) :
    result StoreError Store :=
  s ← clear_cookies origin_key s;
  for_each (λ s snap, put_cookie origin_key (cookie_snapshot_to_record snap) s) s
    (filter (λ snap, cookie_snapshot_matches_host snap host = true) snaps).

(** The shared jar that is left, and the store. *)
Definition persist_cookie_jar (store : option Store) (origin_key host : rstr) (jar shared : CookieJar)
    (now : OffsetDateTime) (clock : nat → OffsetDateTime) : CookieJar * result StoreError (option Store) :=
  let snaps := snapshots now jar in
  (replace_with_snapshots snaps now clock shared,
   match store with
   | None => Ok None
   | Some s => s ← persist_cookie_snapshots origin_key host snaps s; Ok (Some s)
   end).

(** The jar, and the new baseline. *)
Definition merge_profile_cookies (s : Store) (url : WebUrl) (jar : CookieJar) (profile_baseline : list CookieSnapshot)
    (now : OffsetDateTime) (clock : nat → OffsetDateTime) : result StoreError (CookieJar * list CookieSnapshot) :=
  let worker_delta := delta_from_snapshots profile_baseline now jar in
  records ← store_cookies_for (cookie_origin_key url) s;
  let merged := from_snapshots (profile_baseline ++ (cookie_record_to_snapshot <$> records)) now clock in
  Ok (apply_delta worker_delta now clock merged, snapshots now merged).

Definition persist_profile_cookie_delta (s : Store) (url : WebUrl) (delta : CookieJarDelta) (now : OffsetDateTime)
    (clock : nat → OffsetDateTime) : result StoreError Store :=
  let origin_key := cookie_origin_key url in
  records ← store_cookies_for origin_key s;
  let jar := from_snapshots (cookie_record_to_snapshot <$> records) now clock in
  persist_cookie_snapshots origin_key (origin_host url) (snapshots now (apply_delta delta now clock jar)) s.

(** ** [document.cookie] ([op_vixen_document_cookie_get] and [_set]): the URL that did not parse
    is [None]. *)

Inductive CookieOpError : Type := InvalidDocumentUrl | ProfileError (e : StoreError) | CookieRejected (e : CookieError).

Definition http_scheme (url : WebUrl) : bool :=
  bool_decide (wu_scheme url = lit "http") || bool_decide (wu_scheme url = lit "https").

Definition op_document_cookie_get (url : option WebUrl) (shared : CookieJar) (store : option Store) (now : OffsetDateTime)
    (clock : nat → OffsetDateTime) : result CookieOpError rstr :=
  match url with
  | None => Err InvalidDocumentUrl
  | Some url =>
      if negb (http_scheme url) then Ok []
      else
        jar ← map_err ProfileError (load_cookie_jar shared store (cookie_origin_key url) now clock);
        Ok (document_cookie_string (cookie_url url) now jar)
  end.

Definition op_document_cookie_set (url : option WebUrl) (value : rstr) (shared : CookieJar) (store : option Store)
    (now : OffsetDateTime) (clock : nat → OffsetDateTime) : CookieJar * option Store * result CookieOpError unit :=
  match url with
  | None => (shared, store, Err InvalidDocumentUrl)
  | Some url =>
      if negb (http_scheme url) then (shared, store, Ok tt)
      else
        match load_cookie_jar shared store (cookie_origin_key url) now clock with
        | Err e => (shared, store, Err (ProfileError e))
        | Ok jar =>
            match set_cookie value (cookie_url url) false clock jar with
            | (_, Err e) => (shared, store, Err (CookieRejected e))
            | (jar, Ok _) =>
                match persist_cookie_jar store (cookie_origin_key url) (origin_host url) jar shared now clock with
                | (shared, Ok store) => (shared, store, Ok tt)
                | (shared, Err e) => (shared, store, Err (ProfileError e))
                end
            end
        end
  end.
End profile.

(** * Properties of the cookies of the profile

    What the store holds after a jar is written back. *)

Lemma record_of_snapshot s : cookie_record_to_snapshot (cookie_snapshot_to_record s) = s.
Proof. destruct s as [? ? ? ? ? ? ? ? same_site ?]. by destruct same_site. Qed.

Section facts.
Context `{Platform, StorePlatform, !StoreLaws}.

Definition written (n : rstr) (snaps : list CookieSnapshot) : option CookieSnapshot :=
  last (filter (λ x, cs_name x = n) snaps).

Lemma written_cons n x snaps :
  written n (x :: snaps) =
  match written n snaps with Some y => Some y | None => if decide (cs_name x = n) then Some x else None end.
Proof.
  unfold written. rewrite filter_cons. case_decide; [|by destruct (last _)]. rewrite last_cons. by destruct (last _).
Qed.

Lemma put_all_get o snaps s n :
  nul_free o → Forall (λ x, scalars (cs_name x)) snaps → scalars n →
  ∃ s', for_each (λ s snap, put_cookie o (cookie_snapshot_to_record snap) s) s snaps = Ok s' ∧
    table_get (namespaced_key o n) (s' COOKIES) =
    match written n snaps with
    | Some x => Some (encode (cookie_snapshot_to_record x))
    | None => table_get (namespaced_key o n) (s COOKIES)
    end ∧
    ∀ key, (∀ x, x ∈ snaps → key ≠ namespaced_key o (cs_name x)) → table_get key (s' COOKIES) = table_get key (s COOKIES).
Proof.
  intros Ho Hs Hn. revert s. induction Hs as [|x snaps Hx Hs IH]; intros s; [by exists s|].
  cbn [for_each]. set (s1 := with_table COOKIES (table_insert (namespaced_key o (cs_name x))
    (encode (cookie_snapshot_to_record x)) (s COOKIES)) s).
  destruct (IH s1) as (s' & He & Hg & Hother). exists s'. split; [exact He|]. split.
  - rewrite Hg, written_cons. destruct (written n snaps) as [y|]; [done|].
    unfold s1. rewrite with_table_eq, table_get_insert. case_decide as Hk.
    + apply namespaced_key_inj in Hk as [_ ->]; [|done..]. by rewrite decide_True.
    + rewrite decide_False; [done|]. by intros <-.
  - intros key Hkey. rewrite Hother by (intros y Hy; apply Hkey; by right). unfold s1.
    rewrite with_table_eq, table_get_insert, decide_False; [done|]. apply Hkey. by left.
Qed.

(** Writing a jar back leaves, under the origin, exactly one cookie for each name: the last
    one of the jar that belongs to the host, as it is in the jar; loading gives these back. *)
Theorem persisted_cookies_exact o host snaps s :
  nul_free o → Forall (λ x, scalars (cs_name x)) snaps →
  ∃ s' records, persist_cookie_snapshots o host snaps s = Ok s' ∧ store_cookies_for o s' = Ok records ∧
    ∀ x, x ∈ cookie_record_to_snapshot <$> records ↔
      last (filter (λ y, cs_name y = cs_name x) (filter (λ y, cookie_snapshot_matches_host y host = true) snaps)) = Some x.
Proof.
  intros Ho Hs. unfold persist_cookie_snapshots. cbn [clear_cookies mbind result_bind].
  set (kept := filter _ snaps). assert (Forall (λ x, scalars (cs_name x)) kept) as Hk.
  { rewrite Forall_forall in Hs |- *. intros x [_ Hx]%list_elem_of_filter. by apply Hs. }
  set (s0 := with_table COOKIES (clear_partition (namespaced_prefix o) (s COOKIES)) s).
  destruct (put_all_get o kept s0 [] Ho Hk) as (s' & He & _ & Hother); [done|]. exists s'. eexists.
  split; [exact He|]. split; [reflexivity|].
  assert (∀ n, scalars n → table_get (namespaced_key o n) (s' COOKIES) = encode ∘ cookie_snapshot_to_record <$> written n kept) as Hget.
  { intros n Hn. destruct (put_all_get o kept s0 n Ho Hk Hn) as (s'' & He' & Hg & _).
    rewrite He in He'. injection He' as <-. rewrite Hg. destruct (written n kept); [done|]. unfold s0.
    by rewrite with_table_eq, table_get_clear_partition, starts_with_own. }
  intros x. rewrite list_elem_of_fmap. setoid_rewrite list_elem_of_omap. change (written (cs_name x) kept = Some x) with
    (last (filter (λ y, cs_name y = cs_name x) kept) = Some x). split.
  - intros (r & -> & [key v] & Hkv & Hd). cbn [fst snd] in Hd. apply table_iter_get in Hkv.
    destruct (starts_with _ key) eqn:Hp; [|done].
    destruct (decide (key ∈ (λ y, namespaced_key o (cs_name y)) <$> kept)) as [Hin|Hout].
    + apply list_elem_of_fmap in Hin as (y & -> & Hy). rewrite Forall_forall in Hk. rewrite Hget in Hkv by by apply Hk.
      destruct (written (cs_name y) kept) as [z|] eqn:Ez; [|done]. injection Hkv as <-. cbn in Hd. rewrite decode_encode in Hd.
      injection Hd as <-. rewrite record_of_snapshot. unfold written in Ez. pose proof Ez as Hz%last_Some_elem_of.
      apply list_elem_of_filter in Hz as [Hz _]. by rewrite Hz.
    + rewrite Hother in Hkv by (intros y Hy ->; apply Hout; apply list_elem_of_fmap; by exists y).
      unfold s0 in Hkv. by rewrite with_table_eq, table_get_clear_partition, Hp in Hkv.
  - intros Hl. pose proof Hl as Hx%last_Some_elem_of. apply list_elem_of_filter in Hx as [_ Hx].
    exists (cookie_snapshot_to_record x). split; [by rewrite record_of_snapshot|].
    exists (namespaced_key o (cs_name x), encode (cookie_snapshot_to_record x)). split.
    + apply table_iter_get. rewrite Forall_forall in Hk. rewrite Hget by by apply Hk. unfold written. by rewrite Hl.
    + cbn [fst snd]. by rewrite starts_with_own, decode_encode.
Qed.
End facts.

(** ** Two documents *)

#[local] Existing Instance toy_platform.

Definition shop (path : string) : WebUrl :=
  {| wu_str := lit "https://shop.com" ++ lit path; wu_host := Some (Domain (lit "shop.com"));
     wu_origin := {| uo_scheme := lit "https"; uo_host_str := Some (lit "shop.com"); uo_port_or_known_default := Some 443%N |};
     wu_port := None; wu_path := lit path |}.
Definition clock0 : nat → @OffsetDateTime toy_platform := toy_clock 0%Z.
Definition after_write (value : string) (st : CookieJar * option Store) : CookieJar * option Store :=
  let '(shared, store) := st in
  (op_document_cookie_set (Some (shop "/")) (lit value) shared store 0%Z clock0).1.
Definition fresh_profile : CookieJar * option Store := (CookieJar_new, Some store_open).
(** What a new runtime of the same profile reads. *)
Definition reload (st : CookieJar * option Store) (path : string) : result CookieOpError rstr :=
  op_document_cookie_get (Some (shop path)) CookieJar_new st.2 0%Z clock0.

Definition sample_snapshot (name value : string) : CookieSnapshot :=
  {| cs_name := lit name; cs_value := lit value; cs_domain := lit "shop.com"; cs_host_only := true; cs_path := lit "/";
     cs_expires_unix := None; cs_secure := false; cs_http_only := false; cs_same_site := Lax; cs_creation_unix := 0 |}.

Lemma persisted_cookies_exact_witness :
  ∃ s' records,
    persist_cookie_snapshots (lit "https://shop.com:443") (lit "shop.com") [sample_snapshot "a" "1"] store_open = Ok s' ∧
    store_cookies_for (lit "https://shop.com:443") s' = Ok records ∧
    sample_snapshot "a" "1" ∈ cookie_record_to_snapshot <$> records.
Proof.
  destruct (persisted_cookies_exact (lit "https://shop.com:443") (lit "shop.com") [sample_snapshot "a" "1"] store_open)
    as (s' & records & Hs & Hr & Hx).
  - split; [repeat constructor|reflexivity].
  - repeat constructor.
  - exists s', records. split; [exact Hs|]. split; [exact Hr|]. apply Hx. vm_compute. reflexivity.
Defined.

(** Two cookies of one name for different paths are two cookies of the jar, and of the profile
    only one is left. *)
Example same_name_cookies_are_lost :
  let st := after_write "a=2; Path=/cart" (after_write "a=1; Path=/" fresh_profile) in
  op_document_cookie_get (Some (shop "/cart")) st.1 st.2 0%Z clock0 = Ok (lit "a=2; a=1") ∧
  reload st "/cart" = Ok (lit "a=2").
Proof. vm_compute. done. Qed.

(** A fetch takes a copy of the jar when it starts and replaces the shared jar by it when it
    ends, so what script wrote to [document.cookie] meanwhile is lost, in the runtime and in the
    profile. *)
Example fetch_overwrites_script_cookies :
  let jar_of_fetch := load_cookie_jar fresh_profile.1 fresh_profile.2 (lit "https://shop.com:443") 0%Z clock0 in
  let st := after_write "a=1" fresh_profile in
  document_cookie_string (cookie_url (shop "/")) 0%Z st.1 = lit "a=1" ∧
  match jar_of_fetch with
  | Ok jar =>
      let '(shared, store) := persist_cookie_jar st.2 (lit "https://shop.com:443") (lit "shop.com") jar st.1 0%Z clock0 in
      cookies shared = [] ∧ match store with Ok s => reload (shared, s) "/" = Ok [] | Err _ => False end
  | Err _ => False
  end.
Proof. vm_compute. done. Qed.
