(* ===== verification/Fetch.v ===== *)
(** * [fetch()] of a page

    [crates/vixen-engine/src/script/webapi.rs], definitions only: [perform_fetch] from the
    request that script hands over to the answer that script sees, with the preflight, the
    cache, the cookies, the streamed response and the visibility of what comes back.

    The request is a JSON object of serde_json, modelled as the values it is asked for.  The
    transport is the arguments [send_preflight] and [send] of the two network calls; whether
    the page still wants the fetch, which other threads decide, is the argument [wanted] at
    each point where the code looks.  Messages are constructors; the [events] and the
    [blockedReason] that accompany a failure for the inspector are not modelled. *)

From Stdlib Require Import Lia ZArith.
From stdpp Require Import base decidable gmap sets list strings.
From S2P Require Import Prelude.
From S2P Require Import RustStr.
From S2P Require Import RustUtf8.
From S2P Require Import RustMap.
From S2P Require Import Cookie.
From S2P Require Import Store.
From S2P Require Import WebStorage.
From S2P Require Import NetUrl.
From S2P Require Import HttpCache.
From S2P Require Import Csp.
From S2P Require Import Cors.
From S2P Require Import Network.
From S2P Require Import FetchPolicy.
From S2P Require Import ProfileCookies.

(** ** The request of script *)

Inductive Json : Type := JString (s : rstr) | JArray (l : list Json) | JOther.
Definition as_str (v : Json) : option rstr := match v with JString s => Some s | _ => None end.

(** [request.get(..)] *)
Record ScriptRequest : Type := {
  sr_url : option Json; sr_method : option Json; sr_cache : option Json; sr_mode : option Json;
  sr_credentials : option Json; sr_redirect : option Json; sr_headers : option Json; sr_integrity : option Json;
  sr_body : option Json; sr_referrer_policy : option Json;
}.
Definition str_of (v : option Json) : option rstr := v ≫= as_str.

Inductive FetchCacheMode : Type := CacheDefault | NoStore | Reload | NoCache | ForceCache | OnlyIfCached.
#[export] Instance FetchCacheMode_eq_dec : EqDecision FetchCacheMode.
Proof. solve_decision. Defined.
Inductive FetchMode : Type := ModeSameOrigin | ModeCors | ModeNoCors.
#[export] Instance FetchMode_eq_dec : EqDecision FetchMode.
Proof. solve_decision. Defined.
Inductive FetchCredentialsMode : Type := CredOmit | CredSameOrigin | CredInclude.

Inductive FetchMessage : Type :=
| MissingUrl
| Unsupported (what : string) (value : rstr)
| HeaderShape
| InvalidUrl (text : rstr)
| UrlRejected (e : UrlPolicyError)
| NetworkUnavailable
| BlockedByCsp
| BlockedAsMixedContent
| BlockedBySameOriginMode
| PreflightFailed (e : FetchError)
| CacheFailed
| CachedRedirectBlocked
| ProfileFailed (e : StoreError)
| NetworkFailed (e : NetworkError)
| CacheDisabled
| CacheMiss
| IntegrityMismatch (attempted : list HashAlg)
| BlockedByCors (e : CorsError)
| RedirectBlockedByCsp
| RedirectBlockedAsMixedContent
| InvalidRedirectUrl
| Interrupted.

Definition upper (c : rchar) : rchar := (if (97 <=? c) && (c <=? 122) then c - 32 else c)%N.
Definition parse_fetch_method (method : rstr) : result FetchMessage Method :=
  let m := upper <$> method in
  if bool_decide (m = lit "GET") then Ok Get else if bool_decide (m = lit "HEAD") then Ok Head
  else if bool_decide (m = lit "POST") then Ok Post else if bool_decide (m = lit "PUT") then Ok Put
  else if bool_decide (m = lit "DELETE") then Ok Delete else if bool_decide (m = lit "PATCH") then Ok Patch
  else if bool_decide (m = lit "OPTIONS") then Ok Options else Err (Unsupported "method" m).
Definition parse_fetch_cache (mode : rstr) : result FetchMessage FetchCacheMode :=
  if bool_decide (mode = lit "default") then Ok CacheDefault else if bool_decide (mode = lit "no-store") then Ok NoStore
  else if bool_decide (mode = lit "reload") then Ok Reload else if bool_decide (mode = lit "no-cache") then Ok NoCache
  else if bool_decide (mode = lit "force-cache") then Ok ForceCache
  else if bool_decide (mode = lit "only-if-cached") then Ok OnlyIfCached else Err (Unsupported "cache mode" mode).
Definition parse_fetch_mode (mode : rstr) : result FetchMessage FetchMode :=
  if bool_decide (mode = lit "same-origin") then Ok ModeSameOrigin else if bool_decide (mode = lit "cors") then Ok ModeCors
  else if bool_decide (mode = lit "no-cors") then Ok ModeNoCors else Err (Unsupported "mode" mode).
Definition parse_fetch_credentials (mode : rstr) : result FetchMessage FetchCredentialsMode :=
  if bool_decide (mode = lit "omit") then Ok CredOmit else if bool_decide (mode = lit "same-origin") then Ok CredSameOrigin
  else if bool_decide (mode = lit "include") then Ok CredInclude else Err (Unsupported "credentials mode" mode).
Definition parse_fetch_redirect (mode : rstr) : result FetchMessage RedirectMode :=
  if bool_decide (mode = lit "follow") then Ok Follow else if bool_decide (mode = lit "error") then Ok RedirectError
  else if bool_decide (mode = lit "manual") then Ok Manual else Err (Unsupported "redirect mode" mode).

Definition parse_header_pair (entry : Json) : result FetchMessage (rstr * rstr) :=
  match entry with
  | JArray [name; value] =>
      match as_str name, as_str value with Some name, Some value => Ok (name, value) | _, _ => Err HeaderShape end
  | _ => Err HeaderShape
  end.
Definition parse_fetch_headers (value : option Json) : result FetchMessage (list (rstr * rstr)) :=
  match value with Some (JArray entries) => collect parse_header_pair entries | _ => Ok [] end.

Definition sends_credentials (self : FetchCredentialsMode) (cross_origin : bool) : bool :=
  match self with CredOmit => false | CredSameOrigin => negb cross_origin | CredInclude => true end.
Definition cors_mode (self : FetchCredentialsMode) : CorsCredentialsMode :=
  match self with CredInclude => CorsInclude | CredOmit | CredSameOrigin => CorsOmit end.

(** ** What script may see of a response *)

Section visibility.
Context `{Crypto, UrlPlatform}.

Definition apply_fetch_integrity (response : TextResponse) (metadata : rstr) : result FetchMessage TextResponse :=
  match metadata with
  | [] => Ok response
  | _ =>
      match verify (parse_integrity metadata) (utf8 (tr_body response)) with
      | Mismatch attempted => Err (IntegrityMismatch attempted)
      | NoMetadata | NoKnownAlgorithms | Verified _ => Ok response
      end
  end.

Inductive ResponseType : Type := Basic | Opaque | CorsType.
#[export] Instance ResponseType_eq_dec : EqDecision ResponseType.
Proof. solve_decision. Defined.

Definition with_headers (headers : HeaderMap) (r : TextResponse) : TextResponse :=
  {| tr_body := tr_body r; tr_headers := headers; tr_status := tr_status r; tr_final_url := tr_final_url r;
     tr_set_cookie := tr_set_cookie r; tr_redirects := tr_redirects r; tr_events := tr_events r;
     tr_request_headers := tr_request_headers r; tr_redirect_aliasable := tr_redirect_aliasable r |}.
Definition opaque_response (r : TextResponse) : TextResponse :=
  {| tr_body := []; tr_headers := []; tr_status := 0; tr_final_url := []; tr_set_cookie := [];
     tr_redirects := tr_redirects r; tr_events := tr_events r;
     tr_request_headers := tr_request_headers r; tr_redirect_aliasable := tr_redirect_aliasable r |}.

Definition visibility_url (response : TextResponse) (url : WebUrl) : WebUrl :=
  default url (url_parse (tr_final_url response)).
Definition apply_fetch_visibility (response : TextResponse) (mode : FetchMode) (credentials : FetchCredentialsMode)
    (policy : option FetchPolicy) (url : WebUrl) : result FetchMessage (TextResponse * ResponseType) :=
  match policy with
  | None => Ok (response, Basic)
  | Some policy =>
      if negb (is_cross_origin policy (visibility_url response url)) then Ok (response, Basic)
      else match mode with
           | ModeSameOrigin => Err BlockedBySameOriginMode
           | ModeNoCors => Ok (opaque_response response, Opaque)
           | ModeCors =>
               let cors_headers := cors_from_headers (tr_headers response) in
               match cors_check cors_headers (policy_cors_origin policy) (cors_mode credentials) with
               | CorsPass =>
                   let filtered := cors_filtered_headers (tr_headers response) (expose_headers cors_headers) in
                   Ok (with_headers (collect_headers ((λ nv, (to_ascii_lowercase nv.1, nv.2)) <$> filtered)) response,
                       CorsType)
               | CorsFail e => Err (BlockedByCors e)
               end
           end
  end.

(** ** The live response *)

(** The verdict of the page's policy on a redirect target. *)
Definition redirect_blocked (policy : FetchPolicy) (target : WebUrl) : option FetchMessage :=
  if negb (allows_connect policy target) then Some RedirectBlockedByCsp
  else if bool_decide (mixed_content_verdict policy target = Block) then Some RedirectBlockedAsMixedContent
  else None.
(** [receive_redirect]: what it answers; when that is [false] it has sent the failure and
    cancelled the fetch. *)
Definition receive_redirect (policy : option FetchPolicy) (target : WebUrl) : bool :=
  match policy with None => true | Some policy => bool_decide (redirect_blocked policy target = None) end.

(** The loop over [head.events]. *)
Fixpoint check_redirect_events (policy : FetchPolicy) (events : list NetworkEvent) : result FetchMessage unit :=
  match events with
  | [] => Ok tt
  | EvRedirect _ to _ :: events =>
      target ← ok_or (url_parse to) InvalidRedirectUrl;
      match redirect_blocked policy target with
      | Some message => Err message
      | None => check_redirect_events policy events
      end
  | _ :: events => check_redirect_events policy events
  end.

Definition head_response (head : ResponseHead) : TextResponse :=
  {| tr_body := []; tr_headers := rh_headers head; tr_status := rh_status head; tr_final_url := rh_final_url head;
     tr_set_cookie := rh_set_cookie head; tr_redirects := rh_redirects head; tr_events := rh_events head;
     tr_request_headers := rh_request_headers head; tr_redirect_aliasable := rh_redirect_aliasable head |}.
(** The closure [accepted] of [receive_response]. *)
Definition accept_head (head : ResponseHead) (mode : FetchMode) (credentials : FetchCredentialsMode)
    (policy : option FetchPolicy) (original_url : WebUrl) : result FetchMessage (TextResponse * ResponseType) :=
  _ ← match policy with Some policy => check_redirect_events policy (rh_events head) | None => Ok tt end;
  apply_fetch_visibility (head_response head) mode credentials policy original_url.
End visibility.

(** ** The pipeline *)

Record FetchContext : Type := {
  fc_network : option NetworkConfig; fc_policy : option FetchPolicy;
  fc_extra_http_headers : list (rstr * rstr); fc_cache_disabled : bool;
}.

Section pipeline.
Context `{Crypto, UrlPlatform}.

(** The request as parsed, before any policy. *)
Record ParsedFetch : Type := {
  pf_url : WebUrl; pf_method : Method; pf_cache_mode : FetchCacheMode; pf_mode : FetchMode;
  pf_credentials : FetchCredentialsMode; pf_redirect : RedirectMode; pf_headers : list (rstr * rstr);
  pf_integrity : rstr; pf_body : option (list N); pf_referrer_policy : option rstr;
}.
Definition parse_script_request (r : ScriptRequest) : result FetchMessage ParsedFetch :=
  url_text ← ok_or (str_of (sr_url r)) MissingUrl;
  method ← parse_fetch_method (default (lit "GET") (str_of (sr_method r)));
  cache_mode ← parse_fetch_cache (default (lit "default") (str_of (sr_cache r)));
  mode ← parse_fetch_mode (default (lit "cors") (str_of (sr_mode r)));
  credentials ← parse_fetch_credentials (default (lit "same-origin") (str_of (sr_credentials r)));
  redirect ← parse_fetch_redirect (default (lit "follow") (str_of (sr_redirect r)));
  headers ← parse_fetch_headers (sr_headers r);
  url ← ok_or (url_parse url_text) (InvalidUrl url_text);
  _ ← map_err UrlRejected (validate_http_url url);
  Ok {| pf_url := url; pf_method := method; pf_cache_mode := cache_mode; pf_mode := mode;
        pf_credentials := credentials; pf_redirect := redirect; pf_headers := headers;
        pf_integrity := default [] (str_of (sr_integrity r)); pf_body := utf8 <$> str_of (sr_body r);
        pf_referrer_policy := str_of (sr_referrer_policy r) |}.

Definition fetch_cross_origin (context : FetchContext) (url : WebUrl) : bool :=
  match fc_policy context with Some policy => is_cross_origin policy url | None => false end.

(** The policies of the page before the preflight: the headers to send. *)
Definition apply_page_policy (context : FetchContext) (f : ParsedFetch) : result FetchMessage (list (rstr * rstr)) :=
  let headers := pf_headers f ++ fc_extra_http_headers context in
  match fc_policy context with
  | None => Ok headers
  | Some policy =>
      throw_if (negb (allows_connect policy (pf_url f))) BlockedByCsp ;;
      throw_if (bool_decide (mixed_content_verdict policy (pf_url f) = Block)) BlockedAsMixedContent ;;
      referrer ← map_err (Unsupported "referrer policy") (referrer_header policy (pf_url f) (pf_referrer_policy f));
      let headers := match referrer with Some value => headers ++ [(lit "referer", value)] | None => headers end in
      let cross_origin := is_cross_origin policy (pf_url f) in
      throw_if (bool_decide (pf_mode f = ModeSameOrigin) && cross_origin) BlockedBySameOriginMode ;;
      Ok (if cross_origin && negb (bool_decide (pf_mode f = ModeSameOrigin))
          then headers ++ [(lit "origin", policy_cors_origin policy)] else headers)
  end.

(** The preflight that the fetch needs. *)
Definition needed_preflight (context : FetchContext) (f : ParsedFetch) : option CorsPreflightRequest :=
  match fc_policy context with
  | None => None
  | Some policy =>
      let unsafe_header_names := cors_unsafe_request_header_names (pf_headers f ++ fc_extra_http_headers context) in
      if is_cross_origin policy (pf_url f) && bool_decide (pf_mode f = ModeCors) &&
         cors_preflight_required (pf_method f) unsafe_header_names
      then Some {| pr_url := pf_url f; pr_method := pf_method f; pr_origin := policy_cors_origin policy;
                   pr_unsafe_header_names := unsafe_header_names; pr_credentials_mode := cors_mode (pf_credentials f) |}
      else None
  end.

(** The page's policy on the hops of a cached redirect alias. *)
Fixpoint check_alias_hops (policy : FetchPolicy) (hops : list CacheRedirectHop) : result FetchMessage unit :=
  match hops with
  | [] => Ok tt
  | hop :: hops =>
      match url_parse (hop_to hop) with
      | None => Err CachedRedirectBlocked              (* [expect]: the alias has been validated *)
      | Some target =>
          match redirect_blocked policy target with
          | Some _ => Err CachedRedirectBlocked
          | None => check_alias_hops policy hops
          end
      end
  end.

Definition is_get (method : Method) : bool := match method with Get => true | _ => false end.
Definition alias_mode (context : FetchContext) (f : ParsedFetch) : bool :=
  negb (fc_cache_disabled context) && is_get (pf_method f) && bool_decide (pf_redirect f = Follow) &&
  (bool_decide (pf_cache_mode f = CacheDefault) || bool_decide (pf_cache_mode f = ForceCache) ||
   bool_decide (pf_cache_mode f = OnlyIfCached)).

(** Which stored response is sent back for validation. *)
Definition revalidation_candidate (f : ParsedFetch) (cached : option (TextResponse * CacheUse)) : option TextResponse :=
  match cached with
  | None => None
  | Some (response, use) =>
      match pf_cache_mode f with
      | NoCache => if text_response_has_validator response then Some response else None
      | CacheDefault =>
          if bool_decide (use = Stale) && text_response_has_validator response then Some response else None
      | _ => None
      end
  end.
Definition live_stream (f : ParsedFetch) (candidate : option TextResponse) : bool :=
  bool_decide (pf_integrity f = []) && bool_decide (candidate = None) && negb (bool_decide (pf_mode f = ModeNoCors)).
End pipeline.

(** ** Running a fetch *)

(** Where the code asks whether the fetch is still wanted. *)
Inductive FetchPoint : Type :=
| AtPreflight | AtPreflightCommit | AtHead | AtChunk (n : nat) | AtResult | AtCookieCommit | AtCacheCommit.

Inductive ScriptAnswer : Type :=
| AnswerResponse (r : TextResponse) (t : ResponseType)
| AnswerHead (r : TextResponse) (t : ResponseType) (total_bytes : option N)
| AnswerFailure (m : FetchMessage)
| AnswerDone.

Section run.
Context `{Crypto, UrlPlatform, Platform, StorePlatform, HttpDate, HttpCrate}.

(** The readings of the clocks, in the order of the code: cookies, the cache, the preflights. *)
Record Clocks : Type := {
  cl_now : OffsetDateTime; cl_jar : nat → OffsetDateTime; cl_hop : nat → nat → OffsetDateTime;
  cl_end : OffsetDateTime; cl_end_jar : nat → OffsetDateTime;
  cl_unix : Z; cl_unix_later : Z; cl_instant : N; cl_instant_later : N;
}.
(** What a fetch shares with the page and the profile. *)
Record FetchHost : Type := { fh_cookies : CookieJar; fh_store : option Store; fh_preflight : list PreflightCacheEntry }.
Definition set_fh_cookies c (h : FetchHost) := {| fh_cookies := c; fh_store := fh_store h; fh_preflight := fh_preflight h |}.
Definition set_fh_store s (h : FetchHost) := {| fh_cookies := fh_cookies h; fh_store := s; fh_preflight := fh_preflight h |}.
Definition set_fh_preflight p (h : FetchHost) := {| fh_cookies := fh_cookies h; fh_store := fh_store h; fh_preflight := p |}.

(** What has happened: what script was told while the response arrived ([ft_head], [ft_chunks]),
    the value of [perform_fetch], the requests that left, and the host's state. *)
Record FetchTrace : Type := {
  ft_head : option ScriptAnswer; ft_chunks : list (list N); ft_result : ScriptAnswer;
  ft_sent : list Sent; ft_host : FetchHost;
}.

Variable context : FetchContext.
Variable clocks : Clocks.
Variable wanted : FetchPoint → bool.
Variable send_preflight send : Sent → result NetworkError RawResponse.

(** Nothing has left and nothing was told. *)
Definition early (m : FetchMessage) (host : FetchHost) : FetchTrace :=
  {| ft_head := None; ft_chunks := []; ft_result := AnswerFailure m; ft_sent := []; ft_host := host |}.
Definition answer (r : result FetchMessage (TextResponse * ResponseType)) : ScriptAnswer :=
  match r with Ok (response, t) => AnswerResponse response t | Err m => AnswerFailure m end.

(** The closure of the preflight's worker, up to the validation of the response. *)
Definition preflight_transport (config : NetworkConfig) (request : CorsPreflightRequest) (headers : list (rstr * rstr)) :
    result FetchError TextResponse :=
  if negb (wanted AtPreflight) then Err HostCallInterrupted
  else match fetch_bytes_with_limit config send_preflight (cl_hop clocks)
               {| rq_url := pr_url request; rq_cross_site := true; rq_method := Options; rq_redirect_mode := RedirectError;
                  rq_headers := headers; rq_body := None |} (max_body_bytes config) (λ _, true) CookieJar_new with
       | Some (_, Ok response) => Ok (text_response response)
       | _ => Err PreflightTransport
       end.
Definition run_preflight (config : NetworkConfig) (f : ParsedFetch) (host : FetchHost) : FetchHost * result FetchMessage unit :=
  match needed_preflight context f with
  | None => (host, Ok tt)
  | Some request =>
      let '(cache, r) := cors_preflight_blocking (preflight_transport config request) request
                           (wanted AtPreflightCommit) (cl_instant clocks) (cl_instant_later clocks) (fh_preflight host) in
      (set_fh_preflight cache host, map_err PreflightFailed r)
  end.

(** *** The transport of the fetch itself ([fetch_http_text_blocking]) *)

Record Live : Type := { lv_head : option ScriptAnswer; lv_expose : bool; lv_cancelled : bool }.

(** What [receive_redirect] and [receive_response] did during a streamed transport. *)
Definition live_of (f : ParsedFetch) (s : FetchState) (r : result NetworkError ByteResponse) : Live :=
  match r with
  | Err (NetRedirectRejected url) =>
      {| lv_head := Some (AnswerFailure (match fc_policy context with
                                         | Some policy => default RedirectBlockedByCsp (redirect_blocked policy url)
                                         | None => RedirectBlockedByCsp
                                         end));
         lv_expose := false; lv_cancelled := true |}
  | _ =>
      match fs_heads s with
      | head :: _ =>
          if negb (wanted AtHead) then {| lv_head := None; lv_expose := false; lv_cancelled := false |}
          else match accept_head head (pf_mode f) (pf_credentials f) (fc_policy context) (pf_url f) with
               | Ok (response, t) =>
                   {| lv_head := Some (AnswerHead response t (rh_total_bytes head));
                      lv_expose := negb (bool_decide (t = Opaque)); lv_cancelled := false |}
               | Err m => {| lv_head := Some (AnswerFailure m); lv_expose := false; lv_cancelled := true |}
               end
      | [] => {| lv_head := None; lv_expose := false; lv_cancelled := false |}
      end
  end.
Definition no_live : Live := {| lv_head := None; lv_expose := false; lv_cancelled := false |}.

(** [send_chunk] for each chunk: some may come after the page has lost interest. *)
Definition exposed_chunks (live : Live) (chunks : list (list N)) : list (list N) :=
  if lv_expose live
  then omap (λ ic, if wanted (AtChunk ic.1) then Some ic.2 else None) (imap pair chunks) else [].

(** The cookies of the fetch are committed to the shared jar and the store. *)
Definition commit_cookies (f : ParsedFetch) (jar : CookieJar) (host : FetchHost) : FetchHost * result FetchMessage unit :=
  if negb (wanted AtCookieCommit) then (host, Err Interrupted)
  else
    match persist_cookie_jar (fh_store host) (cookie_origin_key (pf_url f)) (origin_host (pf_url f)) jar
            (fh_cookies host) (cl_end clocks) (cl_end_jar clocks) with
    | (shared, Ok store) => (set_fh_store store (set_fh_cookies shared host), Ok tt)
    | (shared, Err e) => (set_fh_cookies shared host, Err (ProfileFailed e))
    end.

(** What is left of the worker: the host, and the response or why there is none. *)
Definition finish_transport (f : ParsedFetch) (credentials : bool) (live : Live) (s : FetchState)
    (r : result NetworkError ByteResponse) (host : FetchHost) : FetchHost * result FetchMessage TextResponse :=
  if lv_cancelled live || negb (wanted AtResult) then (host, Err Interrupted)
  else match r with
       | Err e => (host, Err (NetworkFailed e))
       | Ok bytes =>
           if credentials then
             match commit_cookies f (fs_jar s) host with
             | (host, Ok _) => (host, Ok (text_response bytes))
             | (host, Err m) => (host, Err m)
             end
           else (host, Ok (text_response bytes))
       end.

(** *** After the response *)

Definition store_response (f : ParsedFetch) (response : TextResponse) (host : FetchHost) :
    FetchHost * result FetchMessage unit :=
  if negb (fc_cache_disabled context) && is_get (pf_method f) && negb (bool_decide (pf_cache_mode f = NoStore)) &&
     negb (tr_status response =? 304)%N
  then
    if negb (wanted AtCacheCommit) then (host, Err Interrupted)
    else
      let '(store, r) := persist_fetch_cache (fh_store host) (pf_url f) response (cl_unix_later clocks) in
      (set_fh_store store host, map_err (λ _, CacheFailed) r)
  else (host, Ok tt).

Definition conclude (f : ParsedFetch) (candidate : option TextResponse) (head_sent : bool) (response : TextResponse)
    (host : FetchHost) : FetchHost * ScriptAnswer :=
  match apply_fetch_integrity (revalidated_response response candidate) (pf_integrity f) with
  | Err m => (host, AnswerFailure m)
  | Ok response =>
      match store_response f response host with
      | (host, Err m) => (host, AnswerFailure m)
      | (host, Ok _) =>
          (host, match apply_fetch_visibility response (pf_mode f) (pf_credentials f) (fc_policy context) (pf_url f) with
                 | Err m => AnswerFailure m
                 | Ok (response, t) => if head_sent then AnswerDone else AnswerResponse response t
                 end)
      end
  end.

(** [headers] are those of the page's policy, [jar] the cookies of the request. *)
Definition run_transport (config : NetworkConfig) (f : ParsedFetch) (headers : list (rstr * rstr)) (jar : CookieJar)
    (cached : option (TextResponse * CacheUse)) (host : FetchHost) : FetchTrace :=
  let candidate := revalidation_candidate f cached in
  let headers := match candidate with Some c => add_cache_revalidation_headers headers c | None => headers end in
  let stream := live_stream f candidate in
  let cross_origin := fetch_cross_origin context (pf_url f) in
  let credentials := sends_credentials (pf_credentials f) cross_origin in
  let request := {| rq_url := pf_url f; rq_cross_site := cross_origin; rq_method := pf_method f;
                    rq_redirect_mode := pf_redirect f; rq_headers := headers; rq_body := pf_body f |} in
  match fetch_bytes_with_limit config send (cl_hop clocks) request (max_body_bytes config)
          (if stream then receive_redirect (fc_policy context) else λ _, true)
          (if credentials then jar else CookieJar_new) with
  | None => early (NetworkFailed (NetTransport 0)) host        (* unreachable: [fetch_terminates] *)
  | Some (s, r) =>
      let live := if stream then live_of f s r else no_live in
      let '(host, result) := finish_transport f credentials live s r host in
      let head_sent := bool_decide (is_Some (lv_head live)) in
      let '(host, result) := match result with
                             | Err m => (host, AnswerFailure m)
                             | Ok response => conclude f candidate head_sent response host
                             end in
      {| ft_head := lv_head live; ft_chunks := exposed_chunks live (fs_delivered s); ft_result := result;
         ft_sent := fs_sent s; ft_host := host |}
  end.

(** *** The whole *)

(** The alias of a cached redirect, as far as the page may follow it. *)
Definition cached_alias (f : ParsedFetch) (host : FetchHost) : result FetchMessage (option ResolvedCacheAlias) :=
  alias ← (if alias_mode context f then
             match fh_store host with
             | Some s => map_err (λ _, CacheFailed) (resolve_redirect_alias (pf_url f) s)
             | None => Ok None
             end
           else Ok None);
  _ ← match alias, fc_policy context with
      | Some a, Some policy => check_alias_hops policy (alias_hops a)
      | _, _ => Ok tt
      end;
  Ok alias.

(** A stored response that answers without the network. *)
Definition cached_answer (f : ParsedFetch) (cached : option (TextResponse * CacheUse)) : option ScriptAnswer :=
  let show response :=
    answer (response ← apply_fetch_integrity response (pf_integrity f);
            apply_fetch_visibility response (pf_mode f) (pf_credentials f) (fc_policy context) (pf_url f)) in
  if fc_cache_disabled context && is_get (pf_method f) && bool_decide (pf_cache_mode f = OnlyIfCached)
  then Some (AnswerFailure CacheDisabled)
  else if negb (fc_cache_disabled context) && is_get (pf_method f) &&
          (bool_decide (pf_cache_mode f = ForceCache) || bool_decide (pf_cache_mode f = OnlyIfCached))
  then match cached with
       | Some (response, _) => Some (show response)
       | None => if bool_decide (pf_cache_mode f = OnlyIfCached) then Some (AnswerFailure CacheMiss) else None
       end
  else match pf_cache_mode f, cached with
       | CacheDefault, Some (response, Fresh) => Some (show response)
       | _, _ => None
       end.

Definition lookup_cached (config : NetworkConfig) (f : ParsedFetch) (alias : option ResolvedCacheAlias) (cache_url : WebUrl)
    (headers : HeaderMap) (host : FetchHost) : result FetchMessage (option (TextResponse * CacheUse)) :=
  if negb (fc_cache_disabled context) && is_get (pf_method f)
  then map_err (λ _, CacheFailed)
         (fetch_cache_lookup (fh_store host) (pf_url f) cache_url alias headers (max_body_bytes config) (cl_unix clocks))
  else Ok None.

Definition request_jar (f : ParsedFetch) (host : FetchHost) : result FetchMessage CookieJar :=
  if sends_credentials (pf_credentials f) (fetch_cross_origin context (pf_url f))
  then map_err ProfileFailed
         (load_cookie_jar (fh_cookies host) (fh_store host) (cookie_origin_key (pf_url f)) (cl_now clocks) (cl_jar clocks))
  else Ok CookieJar_new.

Definition perform_fetch (request : ScriptRequest) (host : FetchHost) : FetchTrace :=
  match (f ← parse_script_request request; config ← ok_or (fc_network context) NetworkUnavailable;
         headers ← apply_page_policy context f; Ok (f, config, headers)) with
  | Err m => early m host
  | Ok (f, config, headers) =>
      match run_preflight config f host with
      | (host, Err m) => early m host
      | (host, Ok _) =>
          match (alias ← cached_alias f host; jar ← request_jar f host; Ok (alias, jar)) with
          | Err m => early m host
          | Ok (alias, jar) =>
              let cache_url := match alias with Some a => final_url a | None => pf_url f end in
              let cache_request := {| rq_url := cache_url; rq_cross_site := fetch_cross_origin context cache_url;
                                      rq_method := pf_method f; rq_redirect_mode := pf_redirect f; rq_headers := headers;
                                      rq_body := pf_body f |} in
              match effective_request_headers config (cl_now clocks) jar cache_request with
              | (_, Err e) => early (NetworkFailed e) host
              | (jar, Ok effective) =>
                  match lookup_cached config f alias cache_url effective host with
                  | Err m => early m host
                  | Ok cached =>
                      match cached_answer f cached with
                      | Some a => {| ft_head := None; ft_chunks := []; ft_result := a; ft_sent := []; ft_host := host |}
                      | None => run_transport config f headers jar cached host
                      end
                  end
              end
          end
      end
  end.
End run.
