(* ===== verification/FetchPolicyFacts.v ===== *)
(** * Properties of the page's fetch policy

    Subresource integrity, the referrer and mixed content. *)

From Stdlib Require Import Lia ZArith.
From stdpp Require Import base decidable sets list strings.
From S2P Require Import Prelude.
From S2P Require Import RustStr.
From S2P Require Import RustUtf8.
From S2P Require Import RustMap.
From S2P Require Import WebStorage.
From S2P Require Import NetUrl.
From S2P Require Import HttpCache.
From S2P Require Import Csp.
From S2P Require Import Network.
From S2P Require Import FetchPolicy.
From S2P Require Import Fetch.

(** ** Integrity *)

Section integrity_facts.
Context `{Crypto}.

(** The body has the digest that the item names. *)
Definition item_holds (body : list N) (item : IntensityItem) : Prop :=
  digest (ii_algorithm item) body = default [] (base64_decode (ii_digest item)).

Lemma item_matches_spec body item : item_matches body item = true ↔ item_holds body item.
Proof. apply constant_time_eq_spec. Qed.

Lemma verify_loop_spec attempted items body :
  match verify_loop attempted items body with
  | Verified a => ∃ item, item ∈ items ∧ item_holds body item ∧ a = ii_algorithm item
  | Mismatch tried => tried = attempted ++ (ii_algorithm <$> items) ∧ ∀ item, item ∈ items → ¬ item_holds body item
  | NoKnownAlgorithms => attempted = [] ∧ items = []
  | NoMetadata => False
  end.
Proof.
  revert attempted. induction items as [|item items IH]; intros attempted; cbn [verify_loop].
  - destruct attempted; [done|]. rewrite app_nil_r. split; [done|]. by intros item ?%not_elem_of_nil.
  - destruct (item_matches body item) eqn:Em.
    + apply item_matches_spec in Em. exists item. split_and!; [by left|done..].
    + assert (¬ item_holds body item) as Hn by (rewrite <-item_matches_spec; congruence).
      specialize (IH (attempted ++ [ii_algorithm item])). destruct (verify_loop _ items body).
      * done.
      * destruct IH as (i & Hi & ?). exists i. split; [by right|done].
      * destruct IH as [-> Hi]. cbn. rewrite <-app_assoc. split; [done|].
        intros i [->|?]%elem_of_cons; [done|by apply Hi].
      * destruct IH as [E _]. by destruct attempted.
Qed.

Lemma strongest_spec items item : item ∈ items → (strength (ii_algorithm item) ≤ strongest items)%N.
Proof.
  unfold strongest. induction items as [|i items IH]; [by intros ?%not_elem_of_nil|].
  cbn [fmap list_fmap foldr]. intros [->|Hi%IH]%elem_of_cons; lia.
Qed.
Lemma strongest_met items : items ≠ [] → ∃ item, item ∈ items ∧ strength (ii_algorithm item) = strongest items.
Proof.
  unfold strongest. induction items as [|i items IH]; [done|]. intros _. cbn [fmap list_fmap foldr].
  destruct items as [|j items].
  - exists i. split; [by left|]. cbn. lia.
  - destruct IH as (k & Hk & E); [done|]. revert E. set (m := foldr N.max 0%N _). intros E.
    destruct (N.max_spec (strength (ii_algorithm i)) m) as [[? ->]|[? ->]].
    + exists k. split; [by right|done].
    + exists i. split; [by left|done].
Qed.

(** Integrity: script gets a response exactly when its [integrity] names no known digest, or
    the body, as the text that script gets, has one of the digests of the strongest algorithm
    named; a weaker digest never helps. The response is not changed. *)
Theorem integrity_exact response metadata :
  let items := parse_integrity metadata in
  match apply_fetch_integrity response metadata with
  | Ok shown =>
      shown = response ∧
      (items = [] ∨ ∃ item, item ∈ items ∧ item_holds (utf8 (tr_body response)) item ∧
         ∀ other, other ∈ items → (strength (ii_algorithm other) ≤ strength (ii_algorithm item))%N)
  | Err m =>
      items ≠ [] ∧ ∀ item, item ∈ items → item_holds (utf8 (tr_body response)) item →
        ∃ other, other ∈ items ∧ (strength (ii_algorithm item) < strength (ii_algorithm other))%N
  end.
Proof.
  intros items. unfold apply_fetch_integrity. destruct metadata as [|c metadata]; [split; [done|by left]|].
  fold items. clearbody items. unfold verify. destruct items as [|i0 rest] eqn:Ei; [split; [done|by left]|]. rewrite <-Ei.
  assert (∀ item, item ∈ filter (λ i, strength (ii_algorithm i) = strongest items) items ↔
    item ∈ items ∧ ∀ other, other ∈ items → (strength (ii_algorithm other) ≤ strength (ii_algorithm item))%N) as Hs.
  { intros item. rewrite list_elem_of_filter. split.
    - intros [Hi ?]. split; [done|]. intros other. rewrite Hi. apply strongest_spec.
    - intros [Hi Ho]. split; [|done]. destruct (strongest_met items) as (k & Hk & E); [by rewrite Ei|].
      apply N.le_antisymm; [by apply strongest_spec|]. rewrite <-E. by apply Ho. }
  pose proof (verify_loop_spec [] (filter (λ i, strength (ii_algorithm i) = strongest items) items)
    (utf8 (tr_body response))) as Hv.
  destruct (verify_loop _ _ _) as [|a|tried|].
  - done.
  - split; [done|]. right. destruct Hv as (item & [Hi Ho]%Hs & Hh & _). by exists item.
  - destruct Hv as [_ Hv]. split; [by rewrite Ei|]. intros item Hi Hh.
    destruct (strongest_met items) as (k & Hk & E); [by rewrite Ei|]. exists k. split; [done|].
    destruct (N.lt_ge_cases (strength (ii_algorithm item)) (strength (ii_algorithm k))) as [|Hge]; [done|].
    destruct (Hv item); [|done]. apply Hs. split; [done|]. intros other Ho%strongest_spec. lia.
  - destruct Hv as [_ Hv]. destruct (strongest_met items) as (k & Hk & E); [by rewrite Ei|].
    assert (k ∈ []) as []%not_elem_of_nil. rewrite <-Hv. apply Hs. split; [done|]. intros other Ho%strongest_spec. lia.
Qed.
End integrity_facts.

(** ** A body that is not text *)

(** Digests and their encodings that can be read off. *)
Definition plain_crypto : Crypto := {| sha256 := λ b, b; sha384 := λ b, b; sha512 := λ b, b; base64_decode := Some |}.
Definition binary_response : ByteResponse :=
  {| br_body := [255]%N; br_headers := []; br_status := 200; br_final_url := []; br_set_cookie := []; br_redirects := 0;
     br_events := []; br_request_headers := []; br_from_cache := false; br_redirect_aliasable := true |}.

(** The metadata names the digest of the body, but the check reads the body as text, in which
    the byte has become a replacement character. *)
Example integrity_of_binary_bodies :
  let metadata := lit "sha256-" ++ [255]%N in
  verify (H := plain_crypto) (parse_integrity metadata) (br_body binary_response) = Verified Sha256 ∧
  apply_fetch_integrity (H := plain_crypto) (text_response binary_response) metadata = Err (IntegrityMismatch [Sha256]).
Proof. vm_compute. done. Qed.
