(* ===== verification/FetchFacts.v ===== *)
(** * Properties of [fetch()]

    What script is shown, which requests leave, and what a fetch without credentials does. *)

From Stdlib Require Import Lia ZArith.
From stdpp Require Import base decidable gmap sets list strings.
From S2P Require Import Prelude.
From S2P Require Import RustStr.
From S2P Require Import RustUtf8.
From S2P Require Import RustMap.
From S2P Require Import Cookie.
From S2P Require Import CookieFacts.
From S2P Require Import Store.
From S2P Require Import StoreFacts.
From S2P Require Import WebStorage.
From S2P Require Import NetUrl.
From S2P Require Import HttpCache.
From S2P Require Import HttpCacheFacts.
From S2P Require Import Csp.
From S2P Require Import Cors.
From S2P Require Import CorsFacts.
From S2P Require Import Network.
From S2P Require Import NetworkFacts.
From S2P Require Import FetchPolicy.
From S2P Require Import ProfileCookies.
From S2P Require Import Fetch.

Section facts.
Context `{Crypto, UrlPlatform, Platform, StorePlatform, HttpDate, HttpCrate}.
Variable context : FetchContext.
Variable clocks : Clocks.
Variable wanted : FetchPoint → bool.
Variable send_preflight send : Sent → result NetworkError RawResponse.

Local Abbreviation perform := (perform_fetch context clocks wanted send_preflight send).
Local Abbreviation transport := (run_transport context clocks wanted send).

(** What a page with this policy may see of a response: all of it when it comes from the page's
    own origin; from another origin nothing but that it came, or, if its headers grant the
    page's origin the request, all but the headers that CORS does not expose. *)
Definition may_see (policy : FetchPolicy) (f : ParsedFetch) (original response : TextResponse) (t : ResponseType) : Prop :=
  let cross := is_cross_origin policy (visibility_url original (pf_url f)) in
  match t with
  | Basic => cross = false ∧ response = original
  | Opaque => cross = true ∧ pf_mode f = ModeNoCors ∧ response = opaque_response original
  | CorsType =>
      cross = true ∧ pf_mode f = ModeCors ∧
      cors_grants (tr_headers original) (policy_cors_origin policy) (cors_mode (pf_credentials f)) ∧
      response = with_headers (collect_headers ((λ nv, (to_ascii_lowercase nv.1, nv.2)) <$>
        cors_filtered_headers (tr_headers original) (expose_headers (cors_from_headers (tr_headers original))))) original
  end.

(** The URL, the status and the headers that the server gave with its answer to [sent] *)
Definition answer_to (sent : Sent) (raw : RawResponse) (x : TextResponse) : Prop :=
  tr_final_url x = wu_str (sent_url sent) ∧ tr_status x = rr_status raw ∧ tr_headers x = flatten_headers (rr_headers raw).
(** The whole answer to the last of the requests *)
Definition from_server (sents : list Sent) (x : TextResponse) : Prop :=
  ∃ sent raw, last sents = Some sent ∧ send sent = Ok raw ∧ answer_to sent raw x ∧
    tr_body x = from_utf8_lossy (if is_followable_redirect (rr_status raw) then [] else concat (rr_chunks raw)).
(** A response in the store of the profile, under its own URL *)
Definition from_store (host : FetchHost) (x : TextResponse) : Prop :=
  ∃ s url variants e, fh_store host = Some s ∧ tr_final_url x = wu_str url ∧
    cache_variants (origin_partition_key (Origin_from_url (wu_origin url))) (wu_str url) s = Ok variants ∧ e ∈ variants ∧
    tr_status x = ce_status e ∧ tr_headers x = collect_headers (ce_headers e) ∧ tr_body x = from_utf8_lossy (ce_body e).
(** What was received of a fetch that sent these requests *)
Inductive received (host : FetchHost) (sents : list Sent) : TextResponse → Prop :=
| received_stored x : sents = [] → from_store host x → received host sents x
| received_answer x : from_server sents x → received host sents x
| received_not_modified x c :
    from_server sents x → tr_status x = 304%N → from_store host c → received host sents (revalidated_response x (Some c)).

Lemma visibility_may_see policy f r response t :
  apply_fetch_visibility r (pf_mode f) (pf_credentials f) (Some policy) (pf_url f) = Ok (response, t) →
  may_see policy f r response t.
Proof.
  unfold apply_fetch_visibility, may_see. intros Ho. cbn zeta.
  destruct (is_cross_origin policy (visibility_url r (pf_url f))) eqn:Ec; cbn [negb] in Ho; [|by injection Ho as <- <-].
  destruct (pf_mode f); [done| |by injection Ho as <- <-].
  destruct (cors_check _ _ _) eqn:Ek; [|done]. injection Ho as <- <-. split_and!; try done. by apply cors_check_passes.
Qed.

Lemma integrity_same x metadata y : apply_fetch_integrity x metadata = Ok y → y = x.
Proof. unfold apply_fetch_integrity. destruct metadata; [by intros [= <-]|]. destruct (verify _ _); by try intros [= <-]. Qed.

Lemma lookup_from_store config f alias cache_url headers host x use :
  lookup_cached context clocks config f alias cache_url headers host = Ok (Some (x, use)) → from_store host x.
Proof.
  unfold lookup_cached. destruct (_ && _); [|done]. unfold fetch_cache_lookup, from_store.
  destruct (fh_store host) as [s|]; [|done]. destruct (cache_variants _ _ s) as [variants|] eqn:Ev; cbn [mbind result_bind map_err]; [|done].
  pose proof (select_variant_newest variants headers (cl_unix clocks) (max_body_bytes config)) as Hs.
  destruct (select_variant _ _ _ _) as [[e u]|]; [|done]. destruct Hs as [He _]. destruct (_ && _); [done|].
  intros [= <- _]. exists s, cache_url, variants, e. by split_and!.
Qed.

Lemma run_preflight_store config f host :
  fh_store (run_preflight context clocks wanted send_preflight config f host).1 = fh_store host.
Proof. unfold run_preflight. destruct (needed_preflight _ _); [|done]. by destruct (cors_preflight_blocking _ _ _ _ _ _). Qed.
Lemma run_preflight_cookies config f host :
  fh_cookies (run_preflight context clocks wanted send_preflight config f host).1 = fh_cookies host.
Proof. unfold run_preflight. destruct (needed_preflight _ _); [|done]. by destruct (cors_preflight_blocking _ _ _ _ _ _). Qed.

(** How a fetch can end: before anything but a preflight has left, from the cache, or with a
    transport for which every policy of the page has been asked. *)
Lemma perform_cases request host :
  (∃ m host', fh_cookies host' = fh_cookies host ∧ perform request host = early m host') ∨
  ∃ f config headers,
    parse_script_request request = Ok f ∧ fc_network context = Some config ∧
    apply_page_policy context f = Ok headers ∧
    (run_preflight context clocks wanted send_preflight config f host).2 = Ok tt ∧
    ∃ cached host', fh_cookies host' = fh_cookies host ∧ (∀ c use, cached = Some (c, use) → from_store host c) ∧
      ((∃ a, cached_answer context f cached = Some a ∧
         perform request host = {| ft_head := None; ft_chunks := []; ft_result := a; ft_sent := []; ft_host := host' |}) ∨
       ∃ jar0 jar alias headers',
         request_jar context clocks f host' = Ok jar0 ∧
         effective_request_headers config (cl_now clocks) jar0
           {| rq_url := match alias with Some a => final_url a | None => pf_url f end;
              rq_cross_site := fetch_cross_origin context (match alias with Some a => final_url a | None => pf_url f end);
              rq_method := pf_method f; rq_redirect_mode := pf_redirect f; rq_headers := headers; rq_body := pf_body f |} =
           (jar, Ok headers') ∧
         perform request host = transport config f headers jar cached host').
Proof.
  unfold perform_fetch. destruct (parse_script_request request) as [f|m] eqn:Ep; cbn [mbind result_bind].
  2: { left. by exists m, host. }
  destruct (fc_network context) as [config|] eqn:En; cbn [ok_or mbind result_bind]; [|left; by exists NetworkUnavailable, host].
  destruct (apply_page_policy context f) as [headers|m] eqn:Ea; cbn [mbind result_bind]; [|left; by exists m, host].
  pose proof (run_preflight_cookies config f host) as Hc. pose proof (run_preflight_store config f host) as Hst.
  destruct (run_preflight context clocks wanted send_preflight config f host) as [host1 [[]|m]] eqn:Er; cbn [fst] in Hc, Hst; [|left; by exists m, host1].
  destruct (cached_alias context f host1) as [alias|m] eqn:Eal; cbn [mbind result_bind]; [|left; by eexists _, host1].
  destruct (request_jar context clocks f host1) as [jar0|m] eqn:Ej; cbn [mbind result_bind]; [|left; by eexists _, host1].
  destruct (effective_request_headers _ _ _ _) as [jar [headers'|e]] eqn:Ee; [|left; by eexists _, host1].
  destruct (lookup_cached _ _ _ _ _ _ _ _) as [cached|m] eqn:El; [|left; by eexists _, host1].
  right. exists f, config, headers. split_and!; try done; [by rewrite Er|]. exists cached, host1. split; [done|]. split.
  { intros c use ->. apply lookup_from_store in El. unfold from_store in *. by rewrite <-Hst. }
  destruct (cached_answer context f cached) as [a|] eqn:Ec; [left; by exists a|right].
  exists jar0, jar, alias, headers'. by split_and!.
Qed.

Lemma show_may_see policy f r response t :
  fc_policy context = Some policy →
  answer (x ← apply_fetch_integrity r (pf_integrity f);
          apply_fetch_visibility x (pf_mode f) (pf_credentials f) (fc_policy context) (pf_url f)) = AnswerResponse response t →
  may_see policy f r response t.
Proof.
  intros Hp. destruct (apply_fetch_integrity r _) as [x|] eqn:Ei; cbn [mbind result_bind]; [|done]. rewrite Hp.
  apply integrity_same in Ei as ->.
  destruct (apply_fetch_visibility _ _ _ _ _) as [[response' t']|] eqn:Ev; [|done]. cbn. intros [= -> ->].
  by eapply visibility_may_see.
Qed.

Lemma cached_may_see policy f cached response t :
  fc_policy context = Some policy → cached_answer context f cached = Some (AnswerResponse response t) →
  ∃ r use, cached = Some (r, use) ∧ may_see policy f r response t.
Proof.
  intros Hp. unfold cached_answer.
  destruct (_ && _ && bool_decide (pf_cache_mode f = OnlyIfCached)); [done|].
  destruct (_ && _); [destruct cached as [[r use]|]|].
  - intros [= Ha]. exists r, use. split; [done|]. by eapply show_may_see.
  - by destruct (bool_decide _).
  - destruct (pf_cache_mode f); try done. destruct cached as [[r []]|]; try done. intros [= Ha].
    eexists _, _. split; [done|]. by eapply show_may_see.
Qed.

Lemma live_may_see policy f s r response t total :
  fc_policy context = Some policy → lv_head (live_of context wanted f s r) = Some (AnswerHead response t total) →
  (∃ head heads, fs_heads s = head :: heads ∧ may_see policy f (head_response head) response t) ∧
  lv_expose (live_of context wanted f s r) = negb (bool_decide (t = Opaque)).
Proof.
  intros Hp. unfold live_of.
  destruct r as [response'|[]]; try (destruct (fs_heads s) as [|head heads]; [done|]);
    try (destruct (wanted AtHead); cbn [negb]; [|done]);
    try (destruct (accept_head _ _ _ _ _) as [[x y]|] eqn:Ea; [|done]);
    try done; intros [= -> -> _]; unfold accept_head in Ea; rewrite Hp in Ea;
    destruct (check_redirect_events policy _) as [[]|]; cbn [mbind result_bind] in Ea; try done;
    (split; [exists head, heads; split; [done|by eapply visibility_may_see]|done]).
Qed.

(** The answer to script at the end of a transport. *)
Lemma conclude_may_see policy f candidate sent r host response t :
  fc_policy context = Some policy →
  (conclude context clocks wanted f candidate sent r host).2 = AnswerResponse response t →
  may_see policy f (revalidated_response r candidate) response t.
Proof.
  intros Hp. unfold conclude. destruct (apply_fetch_integrity _ _) as [x|] eqn:Ei; [|done]. apply integrity_same in Ei as ->.
  destruct (store_response _ _ _ _ _ _) as [host1 [[]|]]; [|done]. cbn [snd]. rewrite Hp.
  destruct (apply_fetch_visibility _ _ _ _ _) as [[response' t']|] eqn:Ev; [|done]. destruct sent; [done|].
  intros [= -> ->]. by eapply visibility_may_see.
Qed.

(** What a transport shows and sends. *)
Lemma transport_cases config f headers jar cached host :
  let stream := live_stream f (revalidation_candidate f cached) in
  let credentials := sends_credentials (pf_credentials f) (fetch_cross_origin context (pf_url f)) in
  ∃ s r request,
    rq_url request = pf_url f ∧
    fetch_bytes_with_limit config send (cl_hop clocks) request (max_body_bytes config)
      (if stream then receive_redirect (fc_policy context) else λ _, true) (if credentials then jar else CookieJar_new) = Some (s, r) ∧
    let live := if stream then live_of context wanted f s r else no_live in
    let done := finish_transport clocks wanted f credentials live s r host in
    let tr := transport config f headers jar cached host in
    ft_head tr = lv_head live ∧ ft_chunks tr = exposed_chunks wanted live (fs_delivered s) ∧ ft_sent tr = fs_sent s ∧
    match done.2 with
    | Err m => ft_result tr = AnswerFailure m ∧ ft_host tr = done.1
    | Ok response =>
        ∃ sent, let c := conclude context clocks wanted f (revalidation_candidate f cached) sent response done.1 in
          ft_result tr = c.2 ∧ ft_host tr = c.1
    end.
Proof.
  intros stream credentials. unfold run_transport. fold stream credentials.
  set (request := {| rq_url := pf_url f |}).
  set (redirect := if stream then _ else _). set (j := if credentials then jar else _).
  destruct (fetch_ends config send (cl_hop clocks) request (max_body_bytes config) redirect j) as [[e E]|(s1 & s & r & E & _)].
  1: exists (fetch_start request j), (Err e), request. 2: exists s, r, request.
  all: split; [done|]; split; [exact E|]; rewrite E.
  all: destruct (finish_transport _ _ _ _ _ _ _ _) as [host1 [response|m]]; cbn [fst snd].
  2, 4: done.
  all: destruct (conclude _ _ _ _ _ _ _ _) as [host2 a] eqn:Ec; split_and!; try done; eexists; rewrite Ec; done.
Qed.

Lemma live_exposes f s r :
  lv_expose (live_of context wanted f s r) = true →
  ∃ response t total, lv_head (live_of context wanted f s r) = Some (AnswerHead response t total) ∧ t ≠ Opaque.
Proof.
  unfold live_of. destruct r as [?|[]]; try done; destruct (fs_heads s) as [|head heads]; try done;
    (destruct (wanted AtHead); cbn [negb]; [|done]);
    (destruct (accept_head _ _ _ _ _) as [[x y]|]; [|done]); cbn;
    intros Hn%negb_true_iff%bool_decide_eq_false; eexists _, _, _; by split.
Qed.

Lemma page_policy_asked policy f headers :
  fc_policy context = Some policy → apply_page_policy context f = Ok headers →
  redirect_blocked policy (pf_url f) = None ∧ (pf_mode f = ModeSameOrigin → is_cross_origin policy (pf_url f) = false).
Proof.
  intros Hp. unfold apply_page_policy. rewrite Hp. cbn zeta.
  intros (Ec%throw_if_Ok & Hr)%bind_unit_Ok. apply bind_unit_Ok in Hr as (Em%throw_if_Ok & Hr).
  apply bind_Ok in Hr as (referrer & _ & Hr). apply bind_unit_Ok in Hr as (Es%throw_if_Ok & _).
  unfold redirect_blocked. rewrite Ec, Em. split; [done|]. intros Hm. rewrite Hm in Es. by rewrite bool_decide_true in Es.
Qed.

Lemma finish_plain f live s r host :
  (finish_transport clocks wanted f false live s r host).1 = host.
Proof. unfold finish_transport. destruct (_ || _); [done|]. by destruct r. Qed.

Lemma conclude_cookies f candidate sent r host :
  fh_cookies (conclude context clocks wanted f candidate sent r host).1 = fh_cookies host.
Proof.
  unfold conclude, store_response. destruct (apply_fetch_integrity _ _); [|done]. destruct (_ && _); [|done].
  destruct (negb _); [done|]. destruct (persist_fetch_cache _ _ _ _) as [store [?|]]; done.
Qed.

Lemma no_cookie_header config now url cross_site method headers body out :
  (effective_request_headers_for config now CookieJar_new url cross_site method headers body).2 = Ok out →
  map_get out (lit "cookie") = None.
Proof.
  unfold effective_request_headers_for. destruct (author_headers [] headers) as [o|] eqn:Ea; [|done].
  apply author_headers_spec in Ea as [Ho _]; [|constructor].
  destruct (defaults_get config o url Ho) as [Hb _]. set (o3 := match request_host url with Some _ => _ | None => _ end) in *.
  assert ((cookies_for (cookie_url url) cross_site method now CookieJar_new).2 = []) as Hc
    by (unfold cookies_for; by destruct (url_host _)).
  destruct (cookies_for _ _ _ _ _) as [jar c]. cbn [snd] in Hc. subst c. rewrite bool_decide_true by done.
  destruct body; intros [= <-].
  - rewrite map_get_insert by by apply map_remove_btree. by rewrite map_get_remove, decide_False, decide_True.
  - by rewrite !map_get_remove, decide_False, decide_True.
Qed.

(** What a transport receives *)
Lemma finish_response f credentials live s r host x :
  (finish_transport clocks wanted f credentials live s r host).2 = Ok x → ∃ bytes, r = Ok bytes ∧ x = text_response bytes.
Proof.
  unfold finish_transport. destruct (_ || _); [done|]. destruct r as [bytes|e]; [|done]. intros Hx. exists bytes. split; [done|].
  destruct credentials; [|by injection Hx]. destruct (commit_cookies _ _ _ _ _) as [host1 [?|?]]; [by injection Hx|done].
Qed.

Lemma received_bytes f cached host s bytes :
  (∀ c use, cached = Some (c, use) → from_store host c) → ends_with_answer send s (Ok bytes) →
  received host (fs_sent s) (revalidated_response (text_response bytes) (revalidation_candidate f cached)).
Proof.
  intros Hc [(_ & _ & e & [=])|(sent & raw & head & Hl & Hs & _ & _ & _ & Hok)].
  destruct (Hok bytes eq_refl) as (Hu & Ht & Hh & Hb).
  assert (from_server (fs_sent s) (text_response bytes)) as Hx.
  { exists sent, raw. unfold answer_to. cbn. rewrite Hb. by split_and!. }
  destruct (revalidation_candidate f cached) as [c|] eqn:Er.
  - assert (from_store host c) as Hst.
    { unfold revalidation_candidate in Er. destruct cached as [[c' use]|]; [|done]. apply (Hc c use).
      destruct (pf_cache_mode f); try done; repeat case_match; by simplify_eq. }
    destruct (N.eqb_spec (tr_status (text_response bytes)) 304) as [E|E]; [by apply received_not_modified|].
    unfold revalidated_response. apply N.eqb_neq in E. rewrite E. by apply received_answer.
  - unfold revalidated_response. destruct (negb _); by apply received_answer.
Qed.

Lemma imap_shown {A} (P : nat → bool) (g : nat → nat) (l : list A) :
  omap (λ ic, if P ic.1 then Some ic.2 else None) (imap (λ i x, (g i, x)) l) `sublist_of` l.
Proof.
  revert g. induction l as [|x l IH]; intros g; [done|]. cbn. specialize (IH (g ∘ S)).
  destruct (P (g 0)); by constructor.
Qed.
Lemma exposed_sublist live chunks all : chunks `prefix_of` all → exposed_chunks wanted live chunks `sublist_of` all.
Proof.
  intros [rest ->]. unfold exposed_chunks. destruct (lv_expose live); [|apply sublist_nil_l].
  apply sublist_inserts_r. apply (imap_shown (λ n, wanted (AtChunk n)) id).
Qed.

(** C22. Whatever happens, what script sees of a response is what the server's answer to the last
    request grants it, or a stored response does, or a stored one that the server says has not
    been modified: all of it when it comes from the page's own origin; from another origin
    only if its own headers grant the page's origin the request, with the filtered headers, or
    opaque.  Script is given the head of a response before its body, the chunks it is given
    are those of that answer, in order, and there are none of an opaque response. *)
Theorem fetch_reveals request host :
  let tr := perform request host in
  match parse_script_request request with
  | Err m => tr = early m host
  | Ok f =>
      ∀ policy, fc_policy context = Some policy →
      (∀ response t, ft_result tr = AnswerResponse response t →
         ∃ original, received host (ft_sent tr) original ∧ may_see policy f original response t) ∧
      (∀ response t total, ft_head tr = Some (AnswerHead response t total) →
         ∃ sent raw original,
           last (ft_sent tr) = Some sent ∧ send sent = Ok raw ∧ answer_to sent raw original ∧ tr_body original = [] ∧
           may_see policy f original response t ∧ ft_chunks tr `sublist_of` rr_chunks raw) ∧
      (ft_chunks tr ≠ [] → ∃ response t total, ft_head tr = Some (AnswerHead response t total) ∧ t ≠ Opaque)
  end.
Proof.
  cbn zeta. destruct (parse_script_request request) as [f|m] eqn:Ep; [|unfold perform_fetch; by rewrite Ep]. intros policy Hp.
  destruct (perform_cases request host) as [(m & host' & _ & ->)|(f' & config & headers & Ep' & _ & _ & _ & cached & host' & _ & Hst & Hend)];
    [done|]. assert (f' = f) as -> by congruence.
  destruct Hend as [(a & Ha & ->)|(jar0 & jar & alias & headers' & _ & _ & ->)]; cbn [ft_result ft_head ft_chunks ft_sent].
  { split_and!; [|done|done]. intros response t ->. eapply cached_may_see in Ha as (r & use & -> & Hm); [|done].
    exists r. split; [|done]. by apply received_stored, (Hst r use). }
  destruct (transport_cases config f headers jar cached host') as (s & r & rq & _ & Hf & Hh & Hc & Hs & Hr). cbn zeta in *.
  apply fetch_answers in Hf. rewrite Hs. split_and!.
  - intros response t Ha. destruct (finish_transport _ _ _ _ _ _ _ _).2 as [x|m] eqn:Ex; [|by destruct Hr; congruence].
    destruct Hr as [sent [Hr _]]. rewrite Hr in Ha. apply finish_response in Ex as (bytes & -> & ->).
    eapply conclude_may_see in Ha; [|done]. eexists. split; [|exact Ha]. by apply received_bytes.
  - intros response t total Ha. rewrite Hh in Ha. rewrite Hc. destruct (live_stream _ _); [|done].
    eapply live_may_see in Ha as [(head & heads & E & Hm) _]; [|done].
    destruct Hf as [(E' & _)|(sent & raw & head' & Hl & Hsend & E' & (Hu & Ht & Hhd) & Hd & _)]; rewrite E' in E; [done|].
    injection E as -> <-. exists sent, raw, (head_response head). split_and!; try done. by apply exposed_sublist.
  - intros Hne. rewrite Hc in Hne. rewrite Hh. unfold exposed_chunks in Hne.
    destruct (live_stream _ _); [|done]. destruct (lv_expose (live_of _ _ _ _ _)) eqn:Ee; [|done]. by apply live_exposes in Ee.
Qed.

(** C23. A fetch that sends anything but a preflight has asked every policy of the page first:
    the first request goes to the URL that script gave, which the CSP, the mixed content rule
    and the mode permit, its preflight has passed, and every request goes where the URL policy
    permits; the redirects of a response whose head script has seen go where the page's
    policies permit. *)
Theorem fetch_asks_first request host :
  let tr := perform request host in
  let urls := sent_url <$> ft_sent tr in
  urls = [] ∨
  ∃ f config,
    parse_script_request request = Ok f ∧ fc_network context = Some config ∧
    head urls = Some (pf_url f) ∧ Forall (λ u, is_ok (validate_http_url u) = true) urls ∧ NoDup (wu_str <$> urls) ∧
    (run_preflight context clocks wanted send_preflight config f host).2 = Ok tt ∧
    ∀ policy, fc_policy context = Some policy →
      redirect_blocked policy (pf_url f) = None ∧
      (pf_mode f = ModeSameOrigin → is_cross_origin policy (pf_url f) = false) ∧
      (is_Some (ft_head tr) → Forall (λ u, redirect_blocked policy u = None) urls).
Proof.
  cbn zeta.
  destruct (perform_cases request host) as [(m & host' & _ & ->)|(f & config & headers & Ep & En & Ea & Er & cached & host' & _ & _ & Hend)];
    [by left|].
  destruct Hend as [(a & Ha & ->)|(jar0 & jar & alias & headers' & _ & _ & ->)]; [by left|].
  destruct (transport_cases config f headers jar cached host') as (s & r & rq & Hq & Hf & Hh & _ & Hs & _). cbn zeta in *.
  apply fetch_urls in Hf as (Hv & Hr & Hn & Hu). rewrite Hs. rewrite Hq in Hu. destruct Hu as [Hu|Hu]; [by left|right].
  exists f, config. split_and!; try done. intros policy Hp.
  apply page_policy_asked with (1 := Hp) in Ea as [Hb Hm]. split_and!; [done|done|].
  rewrite Hh, Hp in *. destruct (live_stream _ _); [|by intros [??]]. intros _.
  destruct (sent_url <$> fs_sent s) as [|u us]; [done|]. injection Hu as ->. constructor; [done|].
  eapply Forall_impl; [exact Hr|]. intros u Hu%bool_decide_eq_true. done.
Qed.

(** C24. A fetch without credentials leaves the cookies of the page as they are, whatever the
    responses set, and its first request has no cookies. *)
Theorem fetch_without_credentials request host f :
  parse_script_request request = Ok f →
  sends_credentials (pf_credentials f) (fetch_cross_origin context (pf_url f)) = false →
  let tr := perform request host in
  fh_cookies (ft_host tr) = fh_cookies host ∧
  ∀ sent rest, ft_sent tr = sent :: rest → map_get (sent_headers sent) (lit "cookie") = None.
Proof.
  intros Ep Hc. cbn zeta.
  destruct (perform_cases request host) as [(m & host' & E & ->)|(f' & config & headers & Ep' & _ & _ & _ & cached & host' & E & _ & Hend)];
    [done|]. assert (f' = f) as -> by congruence.
  destruct Hend as [(a & Ha & ->)|(jar0 & jar & alias & headers' & _ & _ & ->)]; [done|].
  destruct (transport_cases config f headers jar cached host') as (s & r & rq & _ & Hf & _ & _ & Hs & Hr). cbn zeta in *.
  rewrite Hc in *. split.
  - rewrite <-E. pose proof (finish_plain f (if live_stream f (revalidation_candidate f cached) then live_of context wanted f s r
      else no_live) s r host') as E1. destruct (finish_transport _ _ _ _ _ _ _ _) as [host1 [x|m]]; cbn [fst snd] in *.
    + destruct Hr as (sent & _ & ->). by rewrite conclude_cookies, E1.
    + destruct Hr as [_ ->]. by rewrite E1.
  - intros sent rest Hsent. rewrite Hs in Hsent. eapply fetch_first in Hf as [_ Hf]; [|done].
    by eapply no_cookie_header.
Qed.
End facts.

(** ** Redirects of a page *)

#[local] Existing Instance toy_platform.
#[local] Existing Instance no_http_dates.
#[local] Existing Instance plain_headers.

Definition web_url (scheme host path : string) (port : N) : WebUrl :=
  {| wu_str := lit scheme ++ lit "://" ++ lit host ++ lit path; wu_host := Some (Domain (lit host));
     wu_origin := {| uo_scheme := lit scheme; uo_host_str := Some (lit host); uo_port_or_known_default := Some port |};
     wu_port := None; wu_path := lit path |}.
Definition page_url : WebUrl := web_url "https" "page.com" "/" 443.
Definition api_url : WebUrl := web_url "https" "api.com" "/v1" 443.
Definition evil_url : WebUrl := web_url "http" "evil.com" "/x" 80.
Definition own_url : WebUrl := web_url "https" "page.com" "/own" 443.
Definition own_next : WebUrl := web_url "https" "page.com" "/next" 443.
Definition known_urls : list WebUrl := [page_url; api_url; evil_url; own_url; own_next].
Definition table_parse (text : rstr) : option WebUrl := snd <$> list_find (λ u, wu_str u = text) known_urls.
#[local] Instance table_urls : UrlPlatform := {|
  url_parse := table_parse; url_join := λ _, table_parse; host_to_string := λ _, [];
  url_same_origin := λ a b, bool_decide (Origin_from_url (wu_origin a) = Origin_from_url (wu_origin b));
  url_origin_ascii := λ u, default [] (uo_host_str (wu_origin u)); url_for_referrer := wu_str |}.
#[local] Instance no_crypto : Crypto :=
  {| sha256 := λ _, []; sha384 := λ _, []; sha512 := λ _, []; base64_decode := λ _, None |}.

(** A page that may connect to its own origin and to api.com, which redirects to evil.com. *)
Definition strict_page : FetchContext :=
  {| fc_network := Some small_config;
     fc_policy := Some {| fp_csp := add_header [] (lit "connect-src 'self' https://api.com");
                          fp_origin := Origin_from_url (wu_origin page_url); fp_context_url := Some page_url |};
     fc_extra_http_headers := []; fc_cache_disabled := true |}.
Definition web_server (sent : Sent) : result NetworkError RawResponse :=
  let redirect to cookie := {| rr_status := 302; rr_headers := [(lit "location", Some (wu_str to)); (lit "set-cookie", Some (lit cookie))];
                               rr_content_length := None; rr_chunks := []; rr_failure := None |} in
  Ok (if bool_decide (wu_str (sent_url sent) = wu_str api_url) then redirect evil_url "a=1"
      else if bool_decide (wu_str (sent_url sent) = wu_str own_url) then redirect own_next "sid=1"
      else {| rr_status := 200; rr_headers := [(lit "access-control-allow-origin", Some (lit "*"))];
              rr_content_length := None; rr_chunks := [[104; 105]]%N; rr_failure := None |}).
Definition still_clock : nat → @OffsetDateTime toy_platform := toy_clock 0%Z.
Definition quiet_clocks : Clocks :=
  {| cl_now := 0%Z : @OffsetDateTime toy_platform; cl_jar := still_clock; cl_hop := λ _, still_clock;
     cl_end := 0%Z : @OffsetDateTime toy_platform; cl_end_jar := still_clock;
     cl_unix := 0; cl_unix_later := 0; cl_instant := 0; cl_instant_later := 0 |}.
Definition script_request (url : WebUrl) (integrity credentials : string) : ScriptRequest :=
  {| sr_url := Some (JString (wu_str url)); sr_method := None; sr_cache := None; sr_mode := None;
     sr_credentials := Some (JString (lit credentials)); sr_redirect := None; sr_headers := None;
     sr_integrity := Some (JString (lit integrity)); sr_body := None; sr_referrer_policy := None |}.
Definition plain_host : FetchHost := {| fh_cookies := CookieJar_new; fh_store := None; fh_preflight := [] |}.
Definition run_page (request : ScriptRequest) : FetchTrace :=
  perform_fetch strict_page quiet_clocks (λ _, true) web_server web_server request plain_host.

Lemma fetch_without_credentials_witness :
  fh_cookies (ft_host (run_page (script_request own_url "" "omit"))) = CookieJar_new.
Proof.
  unfold run_page.
  refine (proj1 (fetch_without_credentials strict_page quiet_clocks (λ _, true) web_server web_server
    (script_request own_url "" "omit") plain_host _ _ _)); vm_compute; reflexivity.
Defined.

(** A streamed fetch does not follow the redirect to evil.com, which the CSP of the page and
    the mixed content rule both refuse; with any [integrity] the same fetch follows it and
    shows the answer to script. *)
Example redirects_are_checked_only_when_streamed :
  (sent_url <$> ft_sent (run_page (script_request api_url "" "omit")) = [api_url]) ∧
  (sent_url <$> ft_sent (run_page (script_request api_url "none" "omit")) = [api_url; evil_url]) ∧
  match ft_result (run_page (script_request api_url "none" "omit")) with
  | AnswerResponse r CorsType => tr_body r = lit "hi"
  | _ => False
  end.
Proof. vm_compute. done. Qed.

(** A fetch that omits credentials stores the cookies of its first response and sends them
    with the second request. *)
Example omitted_credentials_are_sent_after_a_redirect :
  (λ sent, map_get (sent_headers sent) (lit "cookie")) <$> ft_sent (run_page (script_request own_url "" "omit")) =
  [None; Some (lit "sid=1")].
Proof. vm_compute. done. Qed.
