(* ===== verification/Traversal.v ===== *)
(** * Filtered tree traversal

    [crates/vixen-engine/src/traversal.rs], definitions only: [TreeWalker] and [NodeIterator]
    over the two traits of the file, the tree and the filter, which are classes here.  Nodes
    are handles.  A loop that follows the links of the tree takes fuel, which is [None] when it
    runs out; [bound] is the fuel of the inner loops. *)

From Stdlib Require Import Lia ZArith.
From stdpp Require Import base decidable list.
From S2P Require Import Prelude.

Inductive NodeType : Type := Element | Text | Comment | Document | DocumentType | DocumentFragment.
Definition node_code (self : NodeType) : N :=
  match self with Element => 1 | Text => 3 | Comment => 8 | Document => 9 | DocumentType => 10 | DocumentFragment => 11 end.
Definition show_bit (self : NodeType) : N := N.shiftl 1 (node_code self - 1).

(** [WhatToShow(u32)] *)
Definition SHOW_ALL : N := 4294967295.
Definition SHOW_ELEMENT : N := 1.
Definition SHOW_TEXT : N := 4.
Definition SHOW_COMMENT : N := 128.
Definition SHOW_DOCUMENT : N := 256.
Definition SHOW_DOCUMENT_TYPE : N := 512.
Definition SHOW_DOCUMENT_FRAGMENT : N := 1024.
Definition shows (self : N) (node_type : NodeType) : bool := negb (N.land self (show_bit node_type) =? 0)%N.
Definition show_union (self other : N) : N := N.lor self other.

Inductive FilterResult : Type := Accept | Reject | Skip.
#[export] Instance FilterResult_eq_dec : EqDecision FilterResult.
Proof. solve_decision. Defined.

Class NodeFilter : Type := { accept : nat → FilterResult }.
Definition AcceptAll : NodeFilter := {| accept := λ _, Accept |}.

Class Tree : Type := {
  parent : nat → option nat;
  first_child : nat → option nat;
  last_child : nat → option nat;
  prev_sibling : nat → option nat;
  next_sibling : nat → option nat;
  node_type : nat → NodeType;
}.

Section traversal.
Context `{Tree, NodeFilter}.
Variable bound : nat.

Definition filter_node (what_to_show : N) (node : nat) : FilterResult :=
  if negb (shows what_to_show (node_type node)) then Skip else accept node.

(** The [while n != root] loop that looks for the next sibling of an ancestor. *)
Fixpoint climb (fuel : nat) (n root : nat) : option (option nat) :=
  match fuel with
  | O => None
  | S fuel =>
      if bool_decide (n = root) then Some None
      else match next_sibling n with
           | Some ns => Some (Some ns)
           | None => match parent n with Some p => climb fuel p root | None => Some None end
           end
  end.
Definition preorder_successor (node root : nat) : option (option nat) :=
  match first_child node with Some fc => Some (Some fc) | None => climb bound node root end.
Definition subtree_skip_successor (node root : nat) : option (option nat) := climb bound node root.

Fixpoint last_descendant (fuel : nat) (node : nat) : option nat :=
  match fuel with
  | O => None
  | S fuel => match last_child node with Some lc => last_descendant fuel lc | None => Some node end
  end.
Definition preorder_predecessor (node root : nat) : option (option nat) :=
  if bool_decide (node = root) then Some None
  else match prev_sibling node with
       | Some ps => Some <$> last_descendant bound ps
       | None => Some (parent node)
       end.
Definition subtree_skip_predecessor (node root : nat) : option nat :=
  if bool_decide (node = root) then None
  else match prev_sibling node with
       | Some ps => Some ps
       | None => p ← parent node; if bool_decide (p = root) then None else Some p
       end.

Fixpoint walk_accept_forward (fuel : nat) (what_to_show : N) (node : option nat) (root : nat) : option (option nat) :=
  match fuel with
  | O => None
  | S fuel =>
      match node with
      | None => Some None
      | Some n =>
          match filter_node what_to_show n with
          | Accept => Some (Some n)
          | Reject => next ← subtree_skip_successor n root; walk_accept_forward fuel what_to_show next root
          | Skip => next ← preorder_successor n root; walk_accept_forward fuel what_to_show next root
          end
      end
  end.
Fixpoint walk_accept_backward (fuel : nat) (what_to_show : N) (node : option nat) (root : nat) : option (option nat) :=
  match fuel with
  | O => None
  | S fuel =>
      match node with
      | None => Some None
      | Some n =>
          match filter_node what_to_show n with
          | Accept => Some (Some n)
          | Reject => walk_accept_backward fuel what_to_show (subtree_skip_predecessor n root) root
          | Skip => next ← preorder_predecessor n root; walk_accept_backward fuel what_to_show next root
          end
      end
  end.

(** ** [TreeWalker] *)

Record TreeWalker : Type := { tw_root : nat; tw_current : nat; tw_show : N }.
Definition TreeWalker_new (root : nat) (what_to_show : N) : TreeWalker :=
  {| tw_root := root; tw_current := root; tw_show := what_to_show |}.
(** [if let Some(n) = found { self.current = n; }] *)
Definition moved (self : TreeWalker) (found : option nat) : TreeWalker * option nat :=
  (match found with
   | Some n => {| tw_root := tw_root self; tw_current := n; tw_show := tw_show self |}
   | None => self
   end, found).

Fixpoint accepted_ancestor (fuel : nat) (what_to_show : N) (node root : nat) : option (option nat) :=
  match fuel with
  | O => None
  | S fuel =>
      if bool_decide (node = root) then Some None
      else match parent node with
           | None => Some None
           | Some p =>
               if bool_decide (filter_node what_to_show p = Accept) then Some (Some p)
               else accepted_ancestor fuel what_to_show p root
           end
  end.

Definition tw_parent_node (self : TreeWalker) : option (TreeWalker * option nat) :=
  moved self <$> accepted_ancestor bound (tw_show self) (tw_current self) (tw_root self).
Definition tw_first_child (self : TreeWalker) : option (TreeWalker * option nat) :=
  match first_child (tw_current self) with
  | None => Some (self, None)
  | Some start => moved self <$> walk_accept_forward bound (tw_show self) (Some start) (tw_current self)
  end.
Definition tw_last_child (self : TreeWalker) : option (TreeWalker * option nat) :=
  match last_child (tw_current self) with
  | None => Some (self, None)
  | Some start => moved self <$> walk_accept_backward bound (tw_show self) (Some start) (tw_current self)
  end.
Definition tw_next_sibling (self : TreeWalker) : option (TreeWalker * option nat) :=
  match parent (tw_current self), next_sibling (tw_current self) with
  | Some p, Some start => moved self <$> walk_accept_forward bound (tw_show self) (Some start) p
  | _, _ => Some (self, None)
  end.
Definition tw_previous_sibling (self : TreeWalker) : option (TreeWalker * option nat) :=
  match parent (tw_current self), prev_sibling (tw_current self) with
  | Some p, Some start => moved self <$> walk_accept_backward bound (tw_show self) (Some start) p
  | _, _ => Some (self, None)
  end.
Definition tw_next_node (self : TreeWalker) : option (TreeWalker * option nat) :=
  start ← preorder_successor (tw_current self) (tw_root self);
  match start with
  | None => Some (self, None)
  | Some _ => moved self <$> walk_accept_forward bound (tw_show self) start (tw_root self)
  end.
Definition tw_previous_node (self : TreeWalker) : option (TreeWalker * option nat) :=
  start ← preorder_predecessor (tw_current self) (tw_root self);
  match start with
  | None => Some (self, None)
  | Some _ => moved self <$> walk_accept_backward bound (tw_show self) start (tw_root self)
  end.

(** ** [NodeIterator] *)

Record NodeIterator : Type := { ni_root : nat; ni_reference : nat; ni_show : N }.
Definition NodeIterator_new (root : nat) (what_to_show : N) : NodeIterator :=
  {| ni_root := root; ni_reference := root; ni_show := what_to_show |}.
Definition set_reference (n : nat) (self : NodeIterator) : NodeIterator :=
  {| ni_root := ni_root self; ni_reference := n; ni_show := ni_show self |}.

(** The loops of [next_node] and [previous_node], [step] being the successor or the predecessor. *)
Fixpoint iterate (step : nat → option (option nat)) (fuel : nat) (what_to_show : N) (node : option nat) :
    option (option nat) :=
  match fuel with
  | O => None
  | S fuel =>
      match node with
      | None => Some None
      | Some n =>
          if bool_decide (filter_node what_to_show n = Accept) then Some (Some n)
          else next ← step n; iterate step fuel what_to_show next
      end
  end.
Definition ni_moved (self : NodeIterator) (found : option nat) : NodeIterator * option nat :=
  (match found with Some n => set_reference n self | None => self end, found).
Definition ni_next_node (self : NodeIterator) : option (NodeIterator * option nat) :=
  start ← preorder_successor (ni_reference self) (ni_root self);
  ni_moved self <$> iterate (λ n, preorder_successor n (ni_root self)) bound (ni_show self) start.
Definition ni_previous_node (self : NodeIterator) : option (NodeIterator * option nat) :=
  start ← preorder_predecessor (ni_reference self) (ni_root self);
  ni_moved self <$> iterate (λ n, preorder_predecessor n (ni_root self)) bound (ni_show self) start.

(** The loop of [adjust_for_removal]: is [removed] an ancestor of [n]? *)
Fixpoint is_inside (fuel : nat) (removed n : nat) : option bool :=
  match fuel with
  | O => None
  | S fuel =>
      if bool_decide (n = removed) then Some true
      else match parent n with Some p => is_inside fuel removed p | None => Some false end
  end.
Definition adjust_for_removal (removed : nat) (self : NodeIterator) : option (NodeIterator * nat) :=
  inside ← is_inside bound removed (ni_reference self);
  if inside : bool then
    new_ref ← match prev_sibling removed with
              | Some ps => last_descendant bound ps
              | None => Some (default (ni_root self) (parent removed))
              end;
    Some (set_reference new_ref self, new_ref)
  else Some (self, ni_reference self).
End traversal.
