(* ===== verification/TraversalFacts.v ===== *)
(** * Properties of the tree traversals

    The tree behind the links is a rose tree with distinct handles; traversals are stated by
    its preorder, the document order. *)

From Stdlib Require Import Lia ZArith.
From stdpp Require Import base decidable sets list.
From S2P Require Import Prelude.
From S2P Require Import Traversal.

(** ** Rose trees and their links *)

Inductive rose : Type := Rose (id : nat) (children : list rose).
Definition rid (t : rose) : nat := match t with Rose id _ => id end.
Definition kids (t : rose) : list rose := match t with Rose _ cs => cs end.
Fixpoint preorder (t : rose) : list nat :=
  match t with Rose id cs => id :: concat (preorder <$> cs) end.
Abbreviation preorders cs := (concat (preorder <$> cs)).

Fixpoint rose_ind' (P : rose → Prop) (IH : ∀ id cs, Forall P cs → P (Rose id cs)) (t : rose) : P t :=
  match t with
  | Rose id cs =>
      IH id cs ((fix go (cs : list rose) : Forall P cs :=
        match cs with [] => @List.Forall_nil _ P | c :: cs => @List.Forall_cons _ P c cs (rose_ind' P IH c) (go cs) end) cs)
  end.

Section links.
Context `{Tree}.

(** The links of a list of siblings, from the one before it. *)
Fixpoint siblings (at_tree : option nat → option nat → option nat → rose → Prop) (par prev : option nat)
    (cs : list rose) : Prop :=
  match cs with
  | [] => True
  | c :: cs => at_tree par prev (rid <$> head cs) c ∧ siblings at_tree par (Some (rid c)) cs
  end.
(** The links of every node below, and of the root the given ones. *)
Fixpoint linked (par prev next : option nat) (t : rose) : Prop :=
  match t with
  | Rose id cs =>
      parent id = par ∧ prev_sibling id = prev ∧ next_sibling id = next ∧
      first_child id = rid <$> head cs ∧ last_child id = rid <$> last cs ∧
      (fix forest (prev : option nat) (cs : list rose) : Prop :=
         match cs with
         | [] => True
         | c :: cs => linked (Some id) prev (rid <$> head cs) c ∧ forest (Some (rid c)) cs
         end) None cs
  end.
Lemma linked_eq par prev next id cs :
  linked par prev next (Rose id cs) ↔
  parent id = par ∧ prev_sibling id = prev ∧ next_sibling id = next ∧
  first_child id = rid <$> head cs ∧ last_child id = rid <$> last cs ∧ siblings linked (Some id) None cs.
Proof.
  cbn [linked]. set (forest := fix forest prev cs := match cs with [] => True | _ :: _ => _ end).
  assert (∀ p l, forest p l ↔ siblings linked (Some id) p l) as E.
  { intros p l. revert p. induction l as [|c l IH]; intros p; cbn; [done|]. by rewrite IH. }
  by rewrite E.
Qed.
End links.

(** The tree whose root is traversed; around it there may be more. *)
Definition represents (T : Tree) (t : rose) : Prop :=
  NoDup (preorder t) ∧ ∃ par prev next, linked par prev next t.

(** ** Successors *)

Section facts.
Context `{T : Tree, F : NodeFilter}.
Variable bound : nat.

Lemma climb_mono fuel fuel' n root o : climb fuel n root = Some o → fuel ≤ fuel' → climb fuel' n root = Some o.
Proof.
  revert n fuel'. induction fuel as [|fuel IH]; intros n fuel'; [done|]. destruct fuel' as [|fuel']; [lia|].
  cbn. destruct (bool_decide _); [done|]. destruct (next_sibling n); [done|]. destruct (parent n); [|done].
  intros Hc Hle. apply IH; [done|lia].
Qed.

(** The place after a subtree, found from its root with some fuel. *)
Definition after (fuel : nat) (root : nat) (t : rose) (X : option nat) : Prop := climb fuel (rid t) root = Some X.

Lemma after_child fuel root id prev c cs X :
  siblings linked (Some id) prev (c :: cs) → (rid c ≠ root) → climb fuel id root = Some X →
  after (S fuel) root c (match cs with [] => X | d :: _ => Some (rid d) end).
Proof.
  intros [Hc _] Hn HX. unfold after. destruct c as [i ds]. cbn [rid] in *. apply linked_eq in Hc as (Hp & _ & Hnx & _).
  cbn. rewrite bool_decide_false, Hnx by done. destruct cs as [|d cs]; cbn; [|done]. by rewrite Hp.
Qed.

Fixpoint height (t : rose) : nat :=
  match t with Rose _ cs => S (foldr max 0 (height <$> cs)) end.
Abbreviation heights cs := (foldr max 0 (height <$> cs)).

(** For every node below [t]: its successor is the next of the preorder, or what follows [t]. *)
Lemma successor_below root t : ∀ fuel par prev next X l1 n l2,
  linked par prev next t → (∀ m, m ∈ tail (preorder t) → m ≠ root) → after fuel root t X → fuel + height t ≤ bound →
  preorder t = l1 ++ n :: l2 →
  preorder_successor bound n root = Some (match l2 with [] => X | m :: _ => Some m end).
Proof.
  induction t as [id cs IH] using rose_ind'. intros fuel par prev next X l1 n l2 Hl Hroot Ha Hb Hpre.
  apply linked_eq in Hl as (_ & _ & _ & Hf & _ & Hs). cbn [preorder tail height] in *. unfold after in Ha. cbn [rid] in Ha.
  destruct l1 as [|x l1]; injection Hpre as <- Hpre.
  - unfold preorder_successor. rewrite Hf. destruct cs as [|[i ds] cs]; cbn in *.
    + subst l2. eapply climb_mono; [done|lia].
    + by rewrite <-Hpre.
  - (* the node is in one of the children *)
    clear Hf. revert Hs l1 Hpre Hroot Hb. generalize (@None nat) as pv.
    induction cs as [|c cs IHcs]; intros pv Hs l1 Hpre Hroot Hb; [by destruct l1|].
    inversion IH as [|? ? IHc IHrest]; subst.
    cbn [fmap list_fmap concat foldr] in *.
    assert (rid c ≠ root) as Hc by (apply Hroot; destruct c; cbn; by left).
    pose proof (after_child _ _ _ _ _ _ _ Hs Hc Ha) as Hac. destruct Hs as [Hlc Hs].
    assert (∀ m, m ∈ tail (preorder c) → m ≠ root) as Hrc.
    { intros m Hm. apply Hroot, elem_of_app. left. destruct c. cbn in *. by right. }
    apply app_eq_app in Hpre as (k & [[E1 E2]|[E1 E2]]).
    + (* within [c], or at the boundary *)
      destruct k as [|y k]; cbn in E2.
      * rewrite app_nil_r in E1. eapply (IHcs IHrest _ Hs []); [by rewrite <-E2|set_solver|lia].
      * injection E2 as <- ->. rewrite (IHc (S fuel) _ _ _ _ l1 n k Hlc Hrc Hac) by (done || lia).
        f_equal. destruct k as [|m k]; [|done]. by destruct cs as [|[j es] cs].
    + eapply (IHcs IHrest _ Hs k); [by rewrite E2|set_solver|lia].
Qed.

Lemma successor_exact t l1 n l2 :
  represents T t → height t < bound → preorder t = l1 ++ n :: l2 →
  preorder_successor bound n (rid t) = Some (head l2).
Proof.
  intros [Hnd (par & prev & next & Hl)] Hb Hpre.
  assert (preorder_successor bound n (rid t) = Some (match l2 with [] => None | m :: _ => Some m end)) as ->; [|by destruct l2].
  eapply (successor_below (rid t) t 1); try done.
  - intros m Hm ->. destruct t. cbn in *. by apply NoDup_cons in Hnd as [? _].
  - unfold after. cbn. by rewrite bool_decide_true.
Qed.

(** ** Predecessors *)

Lemma height_child c cs : c ∈ cs → height c ≤ heights cs.
Proof. induction cs as [|d cs IH]; [by intros ?%not_elem_of_nil|]. intros [->|Hc%IH]%elem_of_cons; cbn; lia. Qed.

Lemma last_descendant_exact t : ∀ fuel par prev next,
  linked par prev next t → height t ≤ fuel → last_descendant fuel (rid t) = last (preorder t).
Proof.
  induction t as [id cs IH] using rose_ind'. intros fuel par prev next Hl Hf.
  apply linked_eq in Hl as (_ & _ & _ & _ & Hla & Hs). destruct fuel as [|fuel]; [cbn in Hf; lia|].
  cbn [height rid last_descendant preorder] in *. rewrite Hla.
  destruct (last cs) as [c|] eqn:El; cbn; [|by apply last_None in El as ->].
  apply last_Some in El as [cs' ->]. rewrite fmap_app, concat_app. cbn. rewrite app_nil_r.
  apply Forall_app in IH as [_ IH]. inversion IH as [|? ? IHc _]; subst.
  assert (∀ pv, siblings linked (Some id) pv (cs' ++ [c]) → ∃ pv', linked (Some id) pv' None c) as Hlast.
  { clear. induction cs' as [|d cs' IHcs]; intros pv [Hd Hs]; [by exists pv|exact (IHcs _ Hs)]. }
  destruct (Hlast _ Hs) as [pv Hc].
  pose proof (height_child c (cs' ++ [c]) ltac:(set_solver)). rewrite (IHc fuel _ _ _ Hc) by lia.
  rewrite app_comm_cons, last_app. destruct (last (preorder c)) eqn:El; [done|]. by destruct c; apply last_None in El.
Qed.

Lemma predecessor_below root t : ∀ par prev next l1 n l2,
  linked par prev next t → (∀ m, m ∈ tail (preorder t) → m ≠ root) → height t ≤ bound →
  preorder t = l1 ++ n :: l2 → l1 ≠ [] → preorder_predecessor bound n root = Some (last l1).
Proof.
  induction t as [id cs IH] using rose_ind'. intros par prev next l1 n l2 Hl Hroot Hb Hpre Hne.
  apply linked_eq in Hl as (_ & _ & _ & _ & _ & Hs). cbn [preorder tail height] in *.
  destruct l1 as [|x l1]; [done|]. injection Hpre as <- Hpre. clear Hne.
  assert (∀ A pv, siblings linked (Some id) pv cs →
    (pv = None ∧ A = id ∨ ∃ d, pv = Some d ∧ last_descendant bound d = Some A) →
    preorder_predecessor bound n root = Some (last (A :: l1))) as Hgen; [|by eapply Hgen; [done|left]].
  clear Hs. revert l1 Hpre. induction cs as [|c cs IHcs]; intros l1 Hpre A pv Hs HA; [by destruct l1|].
  inversion IH as [|? ? IHc IHrest]; subst. cbn [fmap list_fmap concat foldr] in *. destruct Hs as [Hlc Hs].
  assert (last_descendant bound (rid c) = last (preorder c)) as Hlast by (eapply last_descendant_exact; [done|lia]).
  apply app_eq_app in Hpre as (k & [[E1 E2]|[E1 E2]]).
  - destruct k as [|y k]; cbn in E2.
    + rewrite app_nil_r in E1. destruct (last (preorder c)) as [A'|] eqn:EA; [|by destruct c; apply last_None in EA].
      rewrite (IHcs IHrest) with (l1 := []) (A := A') (pv := Some (rid c)).
      * cbn. f_equal. rewrite <-E1 in *. by rewrite last_cons, EA.
      * set_solver.
      * lia.
      * by rewrite <-E2.
      * done.
      * right. by exists (rid c).
    + injection E2 as <- ->. destruct l1 as [|z l1].
      * (* the root of [c] *)
        destruct c as [i ds]. cbn in E1. injection E1 as -> _. apply linked_eq in Hlc as (Hp & Hpv & _).
        unfold preorder_predecessor. rewrite bool_decide_false by (apply Hroot; set_solver). rewrite Hpv, Hp.
        destruct HA as [[-> ->]|(d & -> & ->)]; done.
      * rewrite (IHc _ _ _ (z :: l1) n k Hlc); [by rewrite !last_cons_cons|intros m Hm; apply Hroot|lia|done|done].
        apply elem_of_app. left. destruct c. cbn in *. by right.
  - destruct (last (preorder c)) as [A'|] eqn:EA; [|by destruct c; apply last_None in EA].
    rewrite (IHcs IHrest) with (l1 := k) (A := A') (pv := Some (rid c)).
    + rewrite E1. f_equal. rewrite app_comm_cons, last_app, !last_cons. destruct (last k); [done|]. by rewrite EA.
    + set_solver.
    + lia.
    + done.
    + done.
    + right. by exists (rid c).
Qed.

Lemma predecessor_exact t l1 n l2 :
  represents T t → height t ≤ bound → preorder t = l1 ++ n :: l2 →
  preorder_predecessor bound n (rid t) = Some (last l1).
Proof.
  intros [Hnd (par & prev & next & Hl)] Hb Hpre. destruct l1 as [|x l1].
  - unfold preorder_predecessor. destruct t as [id cs]. injection Hpre as -> _. by rewrite bool_decide_true.
  - eapply (predecessor_below (rid t) t); try done.
    intros m Hm ->. destruct t. cbn in *. by apply NoDup_cons in Hnd as [? _].
Qed.

(** ** [NodeIterator] *)

Definition accepted (show : N) (n : nat) : bool := bool_decide (filter_node show n = Accept).

Lemma iterate_forward t show l1 n l2 fuel :
  represents T t → height t < bound → preorder t = l1 ++ n :: l2 → length l2 < fuel →
  iterate (λ n, preorder_successor bound n (rid t)) fuel show (head l2) =
  Some (head (filter (λ m, accepted show m = true) l2)).
Proof.
  intros Ht Hb. revert l1 n fuel. induction l2 as [|m l2 IH]; intros l1 n fuel Hpre Hf;
    (destruct fuel as [|fuel]; [cbn in Hf; lia|]); cbn [iterate head]; [done|].
  fold (accepted show m). rewrite filter_cons. destruct (accepted show m) eqn:Ea.
  - by rewrite decide_True.
  - rewrite decide_False by done. rewrite (successor_exact t (l1 ++ [n]) m l2) by (done || by rewrite <-app_assoc).
    cbn. apply (IH (l1 ++ [n]) m); [by rewrite <-app_assoc|cbn in Hf; lia].
Qed.

Lemma iterate_backward t show l1 n l2 fuel :
  represents T t → height t ≤ bound → preorder t = l1 ++ n :: l2 → length l1 < fuel →
  iterate (λ n, preorder_predecessor bound n (rid t)) fuel show (last l1) =
  Some (last (filter (λ m, accepted show m = true) l1)).
Proof.
  intros Ht Hb. revert n l2 fuel. induction l1 as [|m l1 IH] using rev_ind; intros n l2 fuel Hpre Hf;
    (destruct fuel as [|fuel]; [rewrite ?length_app in Hf; cbn in Hf; lia|]); [done|].
  rewrite last_snoc. cbn [iterate]. fold (accepted show m). rewrite filter_app, filter_cons.
  rewrite <-app_assoc in Hpre. destruct (accepted show m) eqn:Ea.
  - rewrite decide_True by done. change (filter _ []) with (@nil nat). by rewrite last_snoc.
  - rewrite decide_False by done. rewrite (predecessor_exact t l1 m (n :: l2)) by done.
    change (filter _ []) with (@nil nat). cbn [mbind option_bind]. rewrite app_nil_r. apply (IH m (n :: l2)); [done|]. rewrite length_app in Hf. cbn in Hf. lia.
Qed.

Lemma height_size t : height t ≤ length (preorder t).
Proof.
  induction t as [id cs IH] using rose_ind'. cbn. apply le_n_S. induction IH as [|c cs Hc _ IHcs]; cbn; [lia|].
  rewrite length_app. lia.
Qed.

(** [k] calls of [nextNode], as long as there is a node. *)
Fixpoint ni_advance (k : nat) (self : NodeIterator) : option (NodeIterator * list nat) :=
  match k with
  | O => Some (self, [])
  | S k =>
      '(self, found) ← ni_next_node bound self;
      match found with
      | None => Some (self, [])
      | Some n => '(self, ns) ← ni_advance k self; Some (self, n :: ns)
      end
  end.

Lemma ni_advance_exact t show k l1 n l2 :
  represents T t → length (preorder t) < bound → preorder t = l1 ++ n :: l2 →
  snd <$> ni_advance k {| ni_root := rid t; ni_reference := n; ni_show := show |} =
  Some (take k (filter (λ m, accepted show m = true) l2)).
Proof.
  intros Ht Hb. pose proof (height_size t). revert l1 n l2. induction k as [|k IH]; intros l1 n l2 Hpre; [done|].
  cbn [ni_advance]. unfold ni_next_node. cbn [ni_reference ni_root ni_show].
  rewrite (successor_exact t l1 n l2) by (done || lia). cbn [mbind option_bind].
  rewrite (iterate_forward t show l1 n l2) by (done || lia || (rewrite Hpre, length_app in Hb; cbn in Hb; lia)).
  destruct (filter _ l2) as [|m ms] eqn:Ef; cbn [head fmap option_fmap option_map ni_moved mbind option_bind]; [done|].
  assert (∃ a b, l2 = a ++ m :: b ∧ filter (λ m, accepted show m = true) b = ms) as (a & b & -> & Eb).
  { clear -Ef. induction l2 as [|x l2 IH]; [done|]. rewrite filter_cons in Ef. case_decide.
    - injection Ef as -> <-. by exists [], l2.
    - destruct (IH Ef) as (a & b & -> & E). by exists (x :: a), b. }
  specialize (IH (l1 ++ n :: a) m b). unfold set_reference. cbn [ni_root ni_show].
  rewrite <-app_assoc in IH. specialize (IH Hpre). destruct (ni_advance k _) as [[it ns]|]; [|done].
  cbn in *. injection IH as ->. by rewrite Eb.
Qed.

(** [NodeIterator]: from any reference node, [nextNode] is the first accepted node after it
    in document order and [previousNode] the last accepted one before it, each moving the
    reference there and leaving it where there is none; so repeated [nextNode] calls from the
    root visit exactly the accepted nodes below it, in document order. *)
Theorem node_iterator_exact t show l1 n l2 :
  represents T t → length (preorder t) < bound → preorder t = l1 ++ n :: l2 →
  let it := {| ni_root := rid t; ni_reference := n; ni_show := show |} in
  ni_next_node bound it = Some (ni_moved it (head (filter (λ m, accepted show m = true) l2))) ∧
  ni_previous_node bound it = Some (ni_moved it (last (filter (λ m, accepted show m = true) l1))) ∧
  ∀ k, snd <$> ni_advance k (NodeIterator_new (rid t) show) =
       Some (take k (filter (λ m, accepted show m = true) (tail (preorder t)))).
Proof.
  intros Ht Hb Hpre it. pose proof (height_size t). split_and!.
  - unfold ni_next_node. cbn. rewrite (successor_exact t l1 n l2) by (done || lia). cbn.
    rewrite (iterate_forward t show l1 n l2) by (done || lia || (rewrite Hpre, length_app in Hb; cbn in Hb; lia)). done.
  - unfold ni_previous_node. cbn. rewrite (predecessor_exact t l1 n l2) by (done || lia). cbn.
    rewrite (iterate_backward t show l1 n l2) by (done || lia || (rewrite Hpre, length_app in Hb; cbn in Hb; lia)). done.
  - intros k. destruct t as [id cs]. cbn [preorder tail rid]. by apply (ni_advance_exact (Rose id cs) show k []).
Qed.

(** ** [TreeWalker] *)

(** The accepted nodes of a tree, without the subtrees of rejected ones, in document order. *)
Fixpoint kept (show : N) (t : rose) : list nat :=
  match t with
  | Rose id cs =>
      match filter_node show id with
      | Accept => id :: concat (kept show <$> cs)
      | Skip => concat (kept show <$> cs)
      | Reject => []
      end
  end.

(** From [start] the forward walk meets exactly [ns], one after the other, within [k] steps. *)
Fixpoint walks (show : N) (root : nat) (k : nat) (start : option nat) (ns : list nat) : Prop :=
  match start with
  | None => ns = []
  | Some n =>
      match k with
      | O => False
      | S k =>
          match filter_node show n with
          | Accept => ∃ next ns', ns = n :: ns' ∧ preorder_successor bound n root = Some next ∧ walks show root k next ns'
          | Skip => ∃ next, preorder_successor bound n root = Some next ∧ walks show root k next ns
          | Reject => ∃ next, subtree_skip_successor bound n root = Some next ∧ walks show root k next ns
          end
      end
  end.

Lemma walks_found show root k start ns fuel :
  walks show root k start ns → k < fuel → walk_accept_forward bound fuel show start root = Some (head ns).
Proof.
  revert start ns fuel. induction k as [|k IH]; intros start ns fuel Hw Hf; (destruct fuel as [|fuel]; [lia|]);
    (destruct start as [n|]; cbn in *; [|by subst]); [done|].
  destruct (filter_node show n).
  - by destruct Hw as (next & ns' & -> & _).
  - destruct Hw as (next & -> & Hw). cbn. apply IH; [done|lia].
  - destruct Hw as (next & -> & Hw). cbn. apply IH; [done|lia].
Qed.

Lemma walks_mono show root k k' start ns : k ≤ k' → walks show root k start ns → walks show root k' start ns.
Proof.
  revert k' start ns. induction k as [|k IH]; intros k' [n|] ns Hle Hw; (destruct k' as [|k']; [try lia|]); cbn in *; try done.
  destruct (filter_node show n).
  - destruct Hw as (next & ns' & ? & ? & Hw). exists next, ns'. split_and!; try done. apply IH; [lia|done].
  - destruct Hw as (next & ? & Hw). exists next. split; [done|]. apply IH; [lia|done].
  - destruct Hw as (next & ? & Hw). exists next. split; [done|]. apply IH; [lia|done].
Qed.

(** A tree whose place in the walk is known: from its root the walk meets what is kept of it,
    and then what it meets from the node after it. *)
Definition kept_walked (show : N) (root : nat) (t : rose) : Prop :=
  ∀ fuel par prev next X k ns,
    linked par prev next t → (∀ m, m ∈ preorder t → m ≠ root) → after fuel root t X → fuel + height t ≤ bound →
    walks show root k X ns → walks show root (length (preorder t) + k) (Some (rid t)) (kept show t ++ ns).

Lemma kept_walks_forest show root id cs : ∀ pv fuel X k ns,
  Forall (kept_walked show root) cs → siblings linked (Some id) pv cs → (∀ m, m ∈ preorders cs → m ≠ root) →
  climb fuel id root = Some X → S fuel + heights cs ≤ bound → walks show root k X ns →
  walks show root (length (preorders cs) + k) (match cs with [] => X | c :: _ => Some (rid c) end)
    (concat (kept show <$> cs) ++ ns).
Proof.
  intros pv fuel X k ns IH. revert pv. induction IH as [|c cs IHc _ IHcs]; intros pv Hs Hroot Ha Hb Hw; [done|].
  cbn [fmap list_fmap concat foldr] in *. rewrite length_app, <-app_assoc, <-Nat.add_assoc.
  assert (rid c ≠ root) as Hc by (apply Hroot; destruct c; cbn; by left).
  pose proof (after_child _ _ _ _ _ _ _ Hs Hc Ha) as Hac. destruct Hs as [Hlc Hs].
  eapply (IHc (S fuel)); [done|set_solver|exact Hac|lia|].
  apply (IHcs (Some (rid c))); [done|set_solver|done|lia|done].
Qed.

(** The same from the successor of the root of a tree. *)
Lemma kept_walks_below show root id cs fuel par prev next X k ns :
  Forall (kept_walked show root) cs → linked par prev next (Rose id cs) → (∀ m, m ∈ preorders cs → m ≠ root) →
  climb fuel id root = Some X → S fuel + heights cs ≤ bound → walks show root k X ns →
  ∃ start, preorder_successor bound id root = Some start ∧
    walks show root (length (preorders cs) + k) start (concat (kept show <$> cs) ++ ns).
Proof.
  intros IH (_ & _ & _ & Hf & _ & Hs)%linked_eq Hroot Ha Hb Hw.
  pose proof (kept_walks_forest show root id cs _ _ _ _ _ IH Hs Hroot Ha Hb Hw) as Hforest.
  unfold preorder_successor. rewrite Hf. destruct cs as [|c cs]; cbn [head fmap option_fmap option_map].
  - exists X. split; [eapply climb_mono; [done|lia]|done].
  - by eexists.
Qed.

Lemma kept_walks show root t : kept_walked show root t.
Proof.
  induction t as [id cs IH] using rose_ind'. intros fuel par prev next X k ns Hl Hroot Ha Hb Hw.
  unfold after in Ha. cbn [rid preorder height length plus] in *.
  destruct (kept_walks_below show root id cs fuel par prev next X k ns) as (start & Hst & Hws);
    [done|done|intros m Hm; apply Hroot; by right|done|lia|done|].
  cbn [walks kept]. destruct (filter_node show id).
  - exists start, (concat (kept show <$> cs) ++ ns). by split_and!.
  - exists X. split; [unfold subtree_skip_successor; eapply climb_mono; [done|lia]|]. cbn.
    by apply walks_mono with (k := k); [lia|].
  - exists start. by split.
Qed.

(** [k] calls of [nextNode], as long as there is a node. *)
Fixpoint tw_advance (k : nat) (self : TreeWalker) : option (TreeWalker * list nat) :=
  match k with
  | O => Some (self, [])
  | S k =>
      '(self, found) ← tw_next_node bound self;
      match found with
      | None => Some (self, [])
      | Some n => '(self, ns) ← tw_advance k self; Some (self, n :: ns)
      end
  end.

Lemma walks_next show root j start ns m ms :
  walks show root j start ns → ns = m :: ms → ∃ next, preorder_successor bound m root = Some next ∧ walks show root j next ms.
Proof.
  revert start ns. induction j as [|j IH]; intros [n|] ns Hw ->; cbn in Hw; try done.
  assert (∀ next, walks show root j next (m :: ms) → ∃ next, preorder_successor bound m root = Some next ∧
    walks show root (S j) next ms) as Hrec.
  { intros next Hw'. destruct (IH _ _ Hw' eq_refl) as (x & ? & ?). exists x. split; [done|]. apply walks_mono with (k := j); [lia|done]. }
  destruct (filter_node show n).
  - destruct Hw as (next & ns' & [= <- <-] & Hs & Hw). exists next. split; [done|]. apply walks_mono with (k := j); [lia|done].
  - destruct Hw as (next & _ & Hw). by eapply Hrec.
  - destruct Hw as (next & _ & Hw). by eapply Hrec.
Qed.

Lemma tw_advance_exact show root j k n start ns :
  preorder_successor bound n root = Some start → walks show root j start ns → j < bound →
  snd <$> tw_advance k {| tw_root := root; tw_current := n; tw_show := show |} = Some (take k ns).
Proof.
  revert n start ns. induction k as [|k IH]; intros n start ns Hs Hw Hj; [done|].
  cbn [tw_advance]. unfold tw_next_node. cbn [tw_current tw_root tw_show]. rewrite Hs. cbn [mbind option_bind].
  destruct start as [s|]; cbn [mbind option_bind].
  2: { replace ns with (@nil nat); [done|]. by destruct j. }
  rewrite (walks_found show root j (Some s) ns bound Hw Hj).
  destruct ns as [|m ms]; cbn [head fmap option_fmap option_map moved mbind option_bind]; [done|].
  destruct (walks_next _ _ _ _ _ _ _ Hw eq_refl) as (next & Hn & Hw').
  specialize (IH m next ms Hn Hw' Hj). cbn [tw_root tw_show]. destruct (tw_advance k _) as [[w l]|]; [|done].
  cbn in *. by injection IH as ->.
Qed.

(** [TreeWalker]: repeated [nextNode] calls from the root visit exactly the accepted nodes
    below it that have no rejected ancestor below it, in document order; [firstChild] is the
    first of those below the current node. *)
Theorem tree_walker_exact t show :
  represents T t → length (preorder t) < bound →
  (∀ k, snd <$> tw_advance k (TreeWalker_new (rid t) show) = Some (take k (concat (kept show <$> kids t)))) ∧
  ∀ root, let w := {| tw_root := root; tw_current := rid t; tw_show := show |} in
    tw_first_child bound w = Some (moved w (head (concat (kept show <$> kids t)))).
Proof.
  intros [Hnd (par & prev & next & Hl)] Hb. pose proof (height_size t) as Hh. destruct t as [id cs]. cbn [rid kids height preorder length] in *.
  assert (∀ m, m ∈ preorders cs → m ≠ id) as Hroot by (intros m Hm ->; by apply NoDup_cons in Hnd as [? _]).
  assert (Forall (kept_walked show id) cs) as Hk by (apply Forall_forall; intros; apply kept_walks).
  assert (climb 1 id id = Some None) as Hc by (cbn; by rewrite bool_decide_true).
  destruct (kept_walks_below show id id cs 1 par prev next None 0 [] Hk Hl Hroot Hc ltac:(lia) eq_refl) as (start & Hst & Hw).
  rewrite app_nil_r in Hw. split.
  - intros k. eapply tw_advance_exact; [done|done|lia].
  - intros root. unfold tw_first_child. cbn [tw_current tw_show]. unfold preorder_successor in Hst.
    destruct (first_child id) as [fc|] eqn:Ef.
    + injection Hst as <-. by rewrite (walks_found show id _ _ _ bound Hw) by lia.
    + apply linked_eq in Hl as (_ & _ & _ & Hf & _). rewrite Ef in Hf. by destruct cs.
Qed.
End facts.

(** ** A document *)

(** Node 0 has the element 1, with the text 2, and the element 3, with the text 4; 5 follows 0. *)
Definition sample_doc : rose := Rose 0 [Rose 1 [Rose 2 []]; Rose 3 [Rose 4 []]].
Definition row (n : nat) (rows : list (nat * nat)) : option nat := snd <$> (snd <$> list_find (λ r, r.1 = n) rows).
#[local] Instance sample_tree : Tree := {|
  parent := λ n, row n [(1, 0); (2, 1); (3, 0); (4, 3)];
  first_child := λ n, row n [(0, 1); (1, 2); (3, 4)]; last_child := λ n, row n [(0, 3); (1, 2); (3, 4)];
  prev_sibling := λ n, row n [(3, 1); (5, 0)]; next_sibling := λ n, row n [(1, 3); (0, 5)];
  node_type := λ n, if bool_decide (n = 2) || bool_decide (n = 4) then Text else Element |}.
(** A filter that rejects node 1. *)
Definition reject_one : NodeFilter := {| accept := λ n, if bool_decide (n = 1) then Reject else Accept |}.

Lemma sample_represents : represents sample_tree sample_doc.
Proof. split; [refine (proj1 (bool_decide_eq_true (NoDup _)) _); vm_compute; done|]. exists None, None, (Some 5). vm_compute. split_and!; done. Qed.

Lemma node_iterator_exact_witness :
  ni_next_node (H0 := AcceptAll) 6 {| ni_root := 0; ni_reference := 1; ni_show := SHOW_ELEMENT |} =
    Some ({| ni_root := 0; ni_reference := 3; ni_show := SHOW_ELEMENT |}, Some 3).
Proof.
  exact (proj1 (node_iterator_exact (F := AcceptAll) 6 sample_doc SHOW_ELEMENT [0] 1 [2; 3; 4] sample_represents
    ltac:(vm_compute; lia) eq_refl)).
Defined.

Lemma tree_walker_exact_witness :
  snd <$> tw_advance (F := reject_one) 6 9 (TreeWalker_new 0 SHOW_ALL) = Some [3; 4].
Proof.
  exact (proj1 (tree_walker_exact (F := reject_one) 6 sample_doc SHOW_ALL sample_represents ltac:(vm_compute; lia)) 9).
Defined.

(** Backwards a walker behaves differently: [lastChild] of an element that has only a text finds
    the element itself when elements are shown; [previousNode] enters the rejected subtree that
    [nextNode] passes over; [nextSibling] of a walker
    at its root leaves the tree it is rooted at, here for a walker rooted at 1. *)
Example walker_goes_wrong_backwards :
  (snd <$> tw_last_child (H0 := AcceptAll) 6 {| tw_root := 0; tw_current := 1; tw_show := SHOW_ELEMENT |} = Some (Some 1)) ∧
  (snd <$> tw_previous_node (H0 := reject_one) 6 {| tw_root := 0; tw_current := 3; tw_show := SHOW_ALL |} = Some (Some 2)) ∧
  (snd <$> tw_next_sibling (H0 := AcceptAll) 6 (TreeWalker_new 1 SHOW_ALL) = Some (Some 3)).
Proof. vm_compute. done. Qed.
