(* ===== verification/Range.v ===== *)
(** * Ranges and the selection

    [crates/vixen-engine/src/range.rs]: boundary points, ranges and the selection, whose
    document order is the index that the caller gives every node.  The theorems are about
    handles whose indices are those of a tree: one index per node. *)

From Stdlib Require Import Lia ZArith.
From stdpp Require Import base decidable list.
From S2P Require Import Prelude.

(** ** The code *)

Record NodeRef : Type := { nr_id : N; nr_order : N }.
#[export] Instance NodeRef_eq_dec : EqDecision NodeRef.
Proof. solve_decision. Defined.
Record Boundary : Type := { node : NodeRef; offset : N }.
#[export] Instance Boundary_eq_dec : EqDecision Boundary.
Proof. solve_decision. Defined.

Inductive Ordering : Type := Before | OrdEqual | After.
#[export] Instance Ordering_eq_dec : EqDecision Ordering.
Proof. solve_decision. Defined.
Definition ordering_of (c : comparison) : Ordering := match c with Lt => Before | Eq => OrdEqual | Gt => After end.
Definition boundary_compare (self other : Boundary) : Ordering :=
  if bool_decide (nr_id (node self) = nr_id (node other)) then ordering_of (offset self ?= offset other)%N
  else ordering_of (nr_order (node self) ?= nr_order (node other))%N.

Record Range : Type := { r_start : Boundary; r_end : Boundary }.
#[export] Instance Range_eq_dec : EqDecision Range.
Proof. solve_decision. Defined.
Definition Range_new (start end_ : Boundary) : Range :=
  if bool_decide (boundary_compare start end_ = After) then {| r_start := end_; r_end := start |}
  else {| r_start := start; r_end := end_ |}.
Definition Range_new_unchecked (start end_ : Boundary) : Range := {| r_start := start; r_end := end_ |}.
Definition range_is_collapsed (self : Range) : bool := bool_decide (r_start self = r_end self).
Definition range_collapse (self : Range) (to_start : bool) : Range :=
  let point := if to_start then r_start self else r_end self in {| r_start := point; r_end := point |}.
Definition set_start (self : Range) (boundary : Boundary) : Range :=
  if bool_decide (boundary_compare boundary (r_end self) = After) then {| r_start := boundary; r_end := boundary |}
  else {| r_start := boundary; r_end := r_end self |}.
Definition set_end (self : Range) (boundary : Boundary) : Range :=
  if bool_decide (boundary_compare boundary (r_start self) = Before) then {| r_start := boundary; r_end := boundary |}
  else {| r_start := r_start self; r_end := boundary |}.
Definition contains_boundary (self : Range) (boundary : Boundary) : bool :=
  negb (bool_decide (boundary_compare boundary (r_start self) = Before)) &&
  negb (bool_decide (boundary_compare boundary (r_end self) = After)).
Definition intersect (self other : Range) : option Range :=
  let start := if bool_decide (boundary_compare (r_start self) (r_start other) = Before)
               then r_start other else r_start self in
  let end_ := if bool_decide (boundary_compare (r_end self) (r_end other) = After)
              then r_end other else r_end self in
  if bool_decide (boundary_compare start end_ = After) then None else Some {| r_start := start; r_end := end_ |}.

Record Selection : Type := { ranges : list Range; anchor : option Boundary; focus : option Boundary }.
Inductive SelectionDirection : Type := SelForward | SelBackward | SelNone.
Definition Selection_empty : Selection := {| ranges := []; anchor := None; focus := None |}.
Definition selection_is_collapsed (self : Selection) : bool := forallb range_is_collapsed (ranges self).
Definition range_count (self : Selection) : nat := length (ranges self).
Definition add_range (self : Selection) (range : Range) : Selection :=
  {| ranges := [range]; anchor := Some (r_start range); focus := Some (r_end range) |}.
Definition collapse_to (self : Selection) (boundary : Boundary) : Selection :=
  {| ranges := [{| r_start := boundary; r_end := boundary |}]; anchor := Some boundary; focus := Some boundary |}.
Definition remove_all_ranges (self : Selection) : Selection := {| ranges := []; anchor := None; focus := None |}.
Definition direction (self : Selection) : SelectionDirection :=
  match anchor self, focus self with
  | Some a, Some f =>
      match boundary_compare a f with Before => SelForward | After => SelBackward | OrdEqual => SelNone end
  | _, _ => SelNone
  end.
Definition extend_to (self : Selection) (new_focus : Boundary) : Selection :=
  match anchor self with
  | Some anchor => {| ranges := [Range_new anchor new_focus]; anchor := Some anchor; focus := Some new_focus |}
  | None => self
  end.

(** ** Document order *)

Section facts.
(** The tree gives every node one index, and no index to two nodes. *)
Variable order_of : N → N.
Context `{Hinj : !Inj (=) (=) order_of}.

Definition placed (b : Boundary) : Prop := nr_order (node b) = order_of (nr_id (node b)).
Definition range_placed (r : Range) : Prop := placed (r_start r) ∧ placed (r_end r).
(** Not after. *)
Definition b_le (a b : Boundary) : Prop :=
  (nr_order (node a) < nr_order (node b) ∨ nr_order (node a) = nr_order (node b) ∧ offset a ≤ offset b)%N.
Definition valid (r : Range) : Prop := range_placed r ∧ b_le (r_start r) (r_end r).

Lemma compare_spec a b :
  placed a → placed b →
  match boundary_compare a b with
  | Before => b_le a b ∧ ¬ b_le b a
  | OrdEqual => a = b
  | After => b_le b a ∧ ¬ b_le a b
  end.
Proof.
  unfold placed, boundary_compare, b_le. destruct a as [[i o] x], b as [[j p] y]. cbn. intros Ha Hb. case_bool_decide as Hi.
  - subst. destruct (N.compare_spec x y); cbn; [by subst|lia..].
  - assert (o ≠ p) as Hop by (intros ->; apply Hi, Hinj; congruence). destruct (N.compare_spec o p); cbn; [done|lia..].
Qed.
Lemma b_le_total a b : b_le a b ∨ b_le b a.
Proof. unfold b_le. lia. Qed.
Lemma b_le_refl a : b_le a a.
Proof. unfold b_le. lia. Qed.
Lemma b_le_trans a b c : b_le a b → b_le b c → b_le a c.
Proof. unfold b_le. lia. Qed.
Lemma b_le_antisym a b : placed a → placed b → b_le a b → b_le b a → a = b.
Proof.
  unfold placed, b_le. destruct a as [[i o] x], b as [[j p] y]. cbn. intros -> -> H1 H2.
  assert (order_of i = order_of j) as E%Hinj by lia. subst. f_equal. lia.
Qed.
Lemma compare_before a b : placed a → placed b → boundary_compare a b = Before ↔ ¬ b_le b a.
Proof.
  intros Ha Hb. pose proof (compare_spec a b Ha Hb). destruct (boundary_compare a b); [naive_solver| |naive_solver].
  subst. split; [done|]. by intros []; apply b_le_refl.
Qed.
Lemma compare_after a b : placed a → placed b → boundary_compare a b = After ↔ ¬ b_le a b.
Proof.
  intros Ha Hb. pose proof (compare_spec a b Ha Hb). destruct (boundary_compare a b); [naive_solver| |naive_solver].
  subst. split; [done|]. by intros []; apply b_le_refl.
Qed.
Lemma b_le_not a b : ¬ b_le a b → b_le b a.
Proof. destruct (b_le_total a b); tauto. Qed.
#[local] Instance b_le_dec a b : Decision (b_le a b).
Proof. unfold b_le. apply _. Qed.

Lemma contains_spec r b : range_placed r → placed b → contains_boundary r b = true ↔ b_le (r_start r) b ∧ b_le b (r_end r).
Proof.
  intros [Hs He] Hb. unfold contains_boundary. rewrite andb_true_iff, !negb_true_iff, !bool_decide_eq_false.
  rewrite compare_before, compare_after by done. split; intros [H1 H2]; split.
  - destruct (decide (b_le (r_start r) b)); [done|tauto].
  - destruct (decide (b_le b (r_end r))); [done|tauto].
  - tauto.
  - tauto.
Qed.

Lemma later_spec a b :
  placed a → placed b →
  ∃ m, (if bool_decide (boundary_compare a b = Before) then b else a) = m ∧ placed m ∧ ∀ p, b_le m p ↔ b_le a p ∧ b_le b p.
Proof.
  intros Ha Hb. eexists. split; [done|]. case_bool_decide as Hc; rewrite compare_before in Hc by done; (split; [done|]); intros p.
  - apply b_le_not in Hc. split; [|tauto]. intros H. split; [by eapply b_le_trans|done].
  - assert (b_le b a) by (destruct (decide (b_le b a)); tauto). split; [|tauto]. intros H'. split; [done|by eapply b_le_trans].
Qed.
Lemma earlier_spec a b :
  placed a → placed b →
  ∃ m, (if bool_decide (boundary_compare a b = After) then b else a) = m ∧ placed m ∧ ∀ p, b_le p m ↔ b_le p a ∧ b_le p b.
Proof.
  intros Ha Hb. eexists. split; [done|]. case_bool_decide as Hc; rewrite compare_after in Hc by done; (split; [done|]); intros p.
  - apply b_le_not in Hc. split; [|tauto]. intros H. split; [by eapply b_le_trans|done].
  - assert (b_le a b) by (destruct (decide (b_le a b)); tauto). split; [|tauto]. intros H'. split; [done|by eapply b_le_trans].
Qed.

Lemma intersect_spec r r' :
  valid r → valid r' →
  match intersect r r' with
  | Some i => valid i ∧ ∀ p, placed p → contains_boundary i p = contains_boundary r p && contains_boundary r' p
  | None => ∀ p, placed p → contains_boundary r p && contains_boundary r' p = false
  end.
Proof.
  intros [[Hs He] Hse] [[Hs' He'] Hse']. unfold intersect. cbn zeta.
  destruct (later_spec _ _ Hs Hs') as (st & -> & Hst & Hst'). destruct (earlier_spec _ _ He He') as (en & -> & Hen & Hen').
  case_bool_decide as Hc; rewrite compare_after in Hc by done.
  - intros p Hp. apply not_true_iff_false. rewrite andb_true_iff, !contains_spec by done.
    intros [[H1 H2] [H3 H4]]. apply Hc. apply (b_le_trans _ p); [by apply Hst'|by apply Hen'].
  - assert (b_le st en) by (destruct (decide (b_le st en)); tauto). split; [done|]. intros p Hp.
    apply eq_true_iff_eq. rewrite andb_true_iff, !contains_spec by done. cbn. rewrite Hst', Hen'. tauto.
Qed.

(** Ranges stay valid, start not after end, under every operation: [Range::new] orders its
    two points; [setStart] and [setEnd] put that point where they are told and collapse the
    range there when it would be backwards; and [intersect] contains exactly the points that
    both ranges contain, and is [None] exactly when there is none. *)
Theorem range_operations a b r r' :
  placed a → placed b → valid r → valid r' →
  (valid (Range_new a b) ∧ (Range_new a b = {| r_start := a; r_end := b |} ∨ Range_new a b = {| r_start := b; r_end := a |})) ∧
  (valid (set_start r a) ∧ r_start (set_start r a) = a ∧ r_end (set_start r a) = if decide (b_le a (r_end r)) then r_end r else a) ∧
  (valid (set_end r a) ∧ r_end (set_end r a) = a ∧ r_start (set_end r a) = if decide (b_le (r_start r) a) then r_start r else a) ∧
  match intersect r r' with
  | Some i => valid i ∧ ∀ p, placed p → contains_boundary i p = contains_boundary r p && contains_boundary r' p
  | None => ∀ p, placed p → contains_boundary r p && contains_boundary r' p = false
  end.
Proof.
  intros Ha Hb [[Hs He] Hse] Hr'. split; [|split; [|split]].
  - unfold Range_new. case_bool_decide as Hc; rewrite compare_after in Hc by done.
    + split; [|by right]. split; [done|by apply b_le_not].
    + split; [|by left]. split; [done|]. cbn. destruct (decide (b_le a b)); tauto.
  - unfold set_start. case_bool_decide as Hc; rewrite compare_after in Hc by done; cbn.
    + split; [split; [done|apply b_le_refl]|]. split; [done|]. by rewrite decide_False.
    + assert (b_le a (r_end r)) by (destruct (decide (b_le a (r_end r))); tauto).
      split; [done|]. split; [done|]. by rewrite decide_True.
  - unfold set_end. case_bool_decide as Hc; rewrite compare_before in Hc by done; cbn.
    + split; [split; [done|apply b_le_refl]|]. split; [done|]. by rewrite decide_False.
    + assert (b_le (r_start r) a) by (destruct (decide (b_le (r_start r) a)); tauto).
      split; [done|]. split; [done|]. by rewrite decide_True.
  - by apply intersect_spec.
Qed.

(** ** The selection *)

Inductive SelectionOp : Type :=
| OpAdd (r : Range) | OpCollapse (b : Boundary) | OpRemoveAll | OpExtend (b : Boundary).
Definition run_op (op : SelectionOp) (s : Selection) : Selection :=
  match op with
  | OpAdd r => add_range s r
  | OpCollapse b => collapse_to s b
  | OpRemoveAll => remove_all_ranges s
  | OpExtend b => extend_to s b
  end.
Definition op_placed (op : SelectionOp) : Prop :=
  match op with OpAdd r => valid r | OpCollapse b | OpExtend b => placed b | OpRemoveAll => True end.

(** Either nothing is selected, or the single range lies between anchor and focus. *)
Definition selection_ok (s : Selection) : Prop :=
  (ranges s = [] ∧ anchor s = None ∧ focus s = None) ∨
  ∃ a f, anchor s = Some a ∧ focus s = Some f ∧ placed a ∧ placed f ∧ ranges s = [Range_new a f].

Lemma Range_new_ordered a b : placed a → placed b → b_le a b → Range_new a b = {| r_start := a; r_end := b |}.
Proof. intros Ha Hb Hle. unfold Range_new. rewrite bool_decide_false; [done|]. by rewrite compare_after by done; intros []. Qed.
Lemma Range_new_backward a b : placed a → placed b → ¬ b_le a b → Range_new a b = {| r_start := b; r_end := a |}.
Proof. intros Ha Hb Hle. unfold Range_new. rewrite bool_decide_true; [done|]. by rewrite compare_after by done. Qed.

(** C30. However ranges are added, the selection collapsed, extended and cleared: it is empty or
    has exactly one range, a valid one, whose ends are the anchor and the focus; the direction
    says which of them comes first, and there is none exactly when it is collapsed. *)
Theorem selection_invariant ops :
  Forall op_placed ops →
  let s := fold_left (λ s op, run_op op s) ops Selection_empty in
  selection_ok s ∧ range_count s ≤ 1 ∧ Forall valid (ranges s) ∧
  match direction s with
  | SelForward => ∃ a f, anchor s = Some a ∧ focus s = Some f ∧ ranges s = [{| r_start := a; r_end := f |}]
  | SelBackward => ∃ a f, anchor s = Some a ∧ focus s = Some f ∧ ranges s = [{| r_start := f; r_end := a |}]
  | SelNone => selection_is_collapsed s = true
  end.
Proof.
  intros Hops s. assert (selection_ok s) as Hs.
  { subst s. assert (selection_ok Selection_empty) as H0 by by left. revert H0. generalize Selection_empty.
    induction Hops as [|op ops Hop _ IH]; intros s Hs; [done|]. apply IH. destruct op as [r|b| |b]; cbn in *.
    - right. destruct Hop as [[Ha Hb] Hle]. exists (r_start r), (r_end r). rewrite Range_new_ordered by done.
      split_and!; try done. by destruct r.
    - right. exists b, b. split_and!; try done. cbn. by rewrite Range_new_ordered by (done || apply b_le_refl).
    - by left.
    - unfold extend_to. destruct Hs as [(Hr & Ha & Hf)|(a & f & Ha & Hf & Hpa & Hpf & Hr)]; rewrite Ha.
      + left. by split_and!.
      + right. by exists a, b. }
  split; [done|]. unfold range_count, direction, selection_is_collapsed.
  destruct Hs as [(Hr & Ha & Hf)|(a & f & Ha & Hf & Hpa & Hpf & Hr)]; rewrite Hr, Ha, ?Hf; cbn; [split_and!; [lia|constructor|done]|].
  pose proof (compare_spec a f Hpa Hpf) as Hc.
  split; [lia|]. destruct (boundary_compare a f); [destruct Hc as [H1 _]|subst|destruct Hc as [H2 H1]].
  - rewrite Range_new_ordered by done. split; [by apply Forall_singleton|]. by exists a, f.
  - rewrite Range_new_ordered by (done || apply b_le_refl). split; [apply Forall_singleton; split; [done|apply b_le_refl]|].
    unfold range_is_collapsed. by rewrite bool_decide_true.
  - rewrite Range_new_backward by done. split; [|by exists a, f]. by apply Forall_singleton.
Qed.
End facts.

(** A point in the node whose index is its handle. *)
Definition at_ (id x : N) : Boundary := {| node := {| nr_id := id; nr_order := id |}; offset := x |}.

Lemma range_operations_witness :
  intersect {| r_start := at_ 1%N 0%N; r_end := at_ 4%N 2%N |} {| r_start := at_ 2%N 7%N; r_end := at_ 5%N 0%N |} =
    Some {| r_start := at_ 2%N 7%N; r_end := at_ 4%N 2%N |} ∧
  contains_boundary {| r_start := at_ 2%N 7%N; r_end := at_ 4%N 2%N |} (at_ 3%N 9%N) = true.
Proof.
  split; [reflexivity|].
  pose proof (range_operations (λ n, n) (at_ 1%N 0%N) (at_ 1%N 0%N) {| r_start := at_ 1%N 0%N; r_end := at_ 4%N 2%N |}
    {| r_start := at_ 2%N 7%N; r_end := at_ 5%N 0%N |} eq_refl eq_refl ltac:(repeat split; left; reflexivity)
    ltac:(repeat split; left; reflexivity)) as (_ & _ & _ & Hi).
  exact (proj2 Hi (at_ 3%N 9%N) eq_refl).
Defined.

Lemma selection_invariant_witness :
  range_count (fold_left (λ s op, run_op op s) [OpCollapse (at_ 4%N 2%N); OpExtend (at_ 1%N 0%N)] Selection_empty) ≤ 1.
Proof.
  exact (proj1 (proj2 (selection_invariant (λ n, n) [OpCollapse (at_ 4%N 2%N); OpExtend (at_ 1%N 0%N)]
    ltac:(repeat constructor)))).
Defined.

(** A boundary in a node is before one in its parent whatever the offsets: the point after the
    last child of a node is before the points inside that child. *)
Example parent_offsets_are_ignored :
  let parent := {| nr_id := 1%N; nr_order := 1%N |} in let child := {| nr_id := 2%N; nr_order := 2%N |} in
  boundary_compare {| node := parent; offset := 1%N |} {| node := child; offset := 0%N |} = Before.
Proof. reflexivity. Qed.
