(* ===== verification/ClassList.v ===== *)
(** * Token lists

    [crates/vixen-engine/src/class_list.rs]: the ordered set of tokens behind [classList] and
    [relList], its parser and serializer and every operation. *)

From Stdlib Require Import Lia ZArith.
From stdpp Require Import base decidable sets list strings.
From S2P Require Import Prelude.
From S2P Require Import RustStr.
From S2P Require Import CookieDate.

(** ** The code *)

Definition is_ascii_space (c : rchar) : bool := ((c =? 32) || (c =? 9) || (c =? 10) || (c =? 13) || (c =? 12))%N.

(** [if !out.contains(t) { out.push(t) }] *)
Definition push_new (out : list rstr) (t : rstr) : list rstr := if bool_decide (t ∈ out) then out else out ++ [t].

Definition parse_token_set (input : rstr) : list rstr :=
  foldl (λ out token, if bool_decide (token = []) then out else push_new out token) [] (split_by is_ascii_space input).
Definition serialize_token_set (tokens : list rstr) : rstr := join [32%N] tokens.

Inductive TokenListError : Type := EmptyToken | WhitespaceInToken (token : rstr).
Definition validate_token (token : rstr) : result TokenListError unit :=
  throw_if (bool_decide (token = [])) EmptyToken ;;
  throw_if (existsb is_ascii_space token) (WhitespaceInToken token).

Abbreviation DomTokenList := (list rstr).
Definition token_list_parse (attribute_value : rstr) : DomTokenList := parse_token_set attribute_value.
Definition from_tokens (tokens : list rstr) : DomTokenList := foldl push_new [] tokens.
Definition token_item (index : nat) (self : DomTokenList) : option rstr := self !! index.
Definition token_contains (token : rstr) (self : DomTokenList) : result TokenListError bool :=
  validate_token token ;; Ok (bool_decide (token ∈ self)).
Definition validated (t : rstr) : result TokenListError rstr := validate_token t ;; Ok t.
Definition token_add (tokens : list rstr) (self : DomTokenList) : DomTokenList * result TokenListError unit :=
  match collect validated tokens with
  | Err e => (self, Err e)
  | Ok collected => (foldl push_new self collected, Ok tt)
  end.
Definition token_remove (tokens : list rstr) (self : DomTokenList) : DomTokenList * result TokenListError unit :=
  match collect validated tokens with
  | Err e => (self, Err e)
  | Ok collected => (filter (λ t, t ∉ collected) self, Ok tt)
  end.
Definition toggle (token : rstr) (force : option bool) (self : DomTokenList) : DomTokenList * result TokenListError bool :=
  match validate_token token with
  | Err e => (self, Err e)
  | Ok _ =>
      let present := bool_decide (token ∈ self) in
      let after_add := match force with None => negb present | Some b => b end in
      (if after_add && negb present then self ++ [token]
       else if negb after_add && present then filter (λ t, t ≠ token) self else self, Ok after_add)
  end.
Definition token_replace (old new : rstr) (self : DomTokenList) : DomTokenList * result TokenListError bool :=
  match (validate_token old ;; validate_token new) with
  | Err e => (self, Err e)
  | Ok _ =>
      match list_find (λ t, t = old) self with
      | None => (self, Ok false)
      | Some (idx, _) =>
          if bool_decide (old = new) then (self, Ok true)
          else if bool_decide (new ∈ self) then (delete idx self, Ok true)
          else (<[idx := new]> self, Ok true)
      end
  end.
Definition token_serialize (self : DomTokenList) : rstr := serialize_token_set self.

(** [SupportedTokens] *)
Definition supports (set : list rstr) (token : rstr) : bool :=
  let lower := to_ascii_lowercase token in
  existsb (λ t, bool_decide (to_ascii_lowercase t = to_ascii_lowercase lower)) set.

(** ** The set of tokens *)

Definition token_ok (t : rstr) : Prop := t ≠ [] ∧ Forall (λ c, is_ascii_space c = false) t.
Definition list_ok (l : DomTokenList) : Prop := NoDup l ∧ Forall token_ok l.

Lemma validate_token_Ok t : validate_token t = Ok tt ↔ token_ok t.
Proof.
  unfold validate_token, token_ok. rewrite Forall_forall. split.
  - intros (E1%throw_if_Ok%bool_decide_eq_false & E2%throw_if_Ok)%bind_unit_Ok. split; [done|].
    intros c Hc. destruct (is_ascii_space c) eqn:E; [|done].
    assert (existsb is_ascii_space t = true); [|congruence]. apply existsb_exists. exists c. by rewrite <-list_elem_of_In.
  - intros [E1 E2]. rewrite bind_throw_if by by apply bool_decide_eq_false. unfold throw_if.
    destruct (existsb is_ascii_space t) eqn:E; [|done]. apply existsb_exists in E as (c & Hc%list_elem_of_In & E).
    by rewrite E2 in E.
Qed.
Lemma validate_token_cases t : (token_ok t ∧ validate_token t = Ok tt) ∨ (¬ token_ok t ∧ ∃ e, validate_token t = Err e).
Proof.
  destruct (validate_token t) as [[]|e] eqn:E; [left|right]; (split; [|by eauto]).
  - by apply validate_token_Ok.
  - intros Ht%validate_token_Ok. congruence.
Qed.

Lemma push_new_spec l t : NoDup l → NoDup (push_new l t) ∧ ∀ x, x ∈ push_new l t ↔ x ∈ l ∨ x = t.
Proof.
  intros Hl. unfold push_new. case_bool_decide as Ht; [split; [done|set_solver]|]. split; [|set_solver].
  apply NoDup_app. split; [done|]. split; [set_solver|apply NoDup_singleton].
Qed.
Lemma push_all_spec l ts : NoDup l → NoDup (foldl push_new l ts) ∧ ∀ x, x ∈ foldl push_new l ts ↔ x ∈ l ∨ x ∈ ts.
Proof.
  revert l. induction ts as [|t ts IH]; intros l Hl; [set_solver|]. cbn.
  destruct (push_new_spec l t Hl) as [Hn He]. destruct (IH _ Hn) as [Hn' He']. split; [done|]. intros x. rewrite He', He. set_solver.
Qed.
(** What is there stays where it is, and what is new comes after it in order. *)
Lemma push_all_prefix l ts : l `prefix_of` foldl push_new l ts.
Proof.
  revert l. induction ts as [|t ts IH]; intros l; [done|]. cbn. etrans; [|apply IH].
  unfold push_new. destruct (bool_decide _); [done|by apply prefix_app_r].
Qed.

Lemma parse_as_push input :
  parse_token_set input = foldl push_new [] (filter (λ t, t ≠ []) (split_by is_ascii_space input)).
Proof.
  assert (∀ ts l, foldl (λ out token, if bool_decide (token = []) then out else push_new out token) l ts =
    foldl push_new l (filter (λ t, t ≠ []) ts)) as Hgen; [|apply Hgen].
  induction ts as [|t ts IH]; intros l; [done|].
  cbn [foldl]. rewrite filter_cons. case_bool_decide as Ht.
  - rewrite decide_False by tauto. apply IH.
  - rewrite decide_True by done. apply IH.
Qed.

Lemma split_by_pieces p s piece : piece ∈ split_by p s → Forall (λ c, p c = false) piece.
Proof.
  revert piece. induction s as [|c s IH]; intros piece; cbn; [intros ->%list_elem_of_singleton; constructor|].
  destruct (p c) eqn:E; [intros [->|?]%elem_of_cons; [constructor|by apply IH]|].
  destruct (split_by p s) as [|q qs]; [intros ->%list_elem_of_singleton; by repeat constructor|].
  intros [->|Hp]%elem_of_cons; [constructor; [done|apply IH; by left]|apply IH; by right].
Qed.

Lemma parse_ok input : list_ok (parse_token_set input).
Proof.
  rewrite parse_as_push. destruct (push_all_spec [] (filter (λ t, t ≠ []) (split_by is_ascii_space input))) as [Hn He]; [constructor|].
  split; [done|]. apply Forall_forall. intros t Ht. apply He in Ht as [?%not_elem_of_nil|[Ht Hi]%list_elem_of_filter]; [done|].
  split; [done|]. by eapply split_by_pieces.
Qed.

Lemma collect_validated ts :
  match collect validated ts with Ok l => l = ts ∧ Forall token_ok ts | Err _ => ¬ Forall token_ok ts end.
Proof.
  induction ts as [|t ts IH]; cbn; [done|]. unfold validated at 1.
  destruct (validate_token_cases t) as [[Ht ->]|[Ht [e ->]]]; cbn [mbind result_bind].
  - destruct (collect validated ts) as [l|e]; cbn [mbind result_bind].
    + destruct IH as [-> IH]. split; [done|by constructor].
    + by intros [_ ?]%Forall_cons.
  - by intros [? _]%Forall_cons.
Qed.

Lemma push_all_fresh l ts : NoDup (l ++ ts) → foldl push_new l ts = l ++ ts.
Proof.
  revert l. induction ts as [|t ts IH]; intros l Hn; cbn; [by rewrite app_nil_r|].
  unfold push_new. rewrite bool_decide_false.
  - rewrite IH; by rewrite <-app_assoc.
  - apply NoDup_app in Hn as (_ & Hn & _). intros Ht. apply (Hn _ Ht). by left.
Qed.

Lemma split_by_join l :
  Forall token_ok l → filter (λ t, t ≠ []) (split_by is_ascii_space (join [32%N] l)) = l.
Proof.
  assert (∀ t, token_ok t → forallb (λ c, negb (is_ascii_space c)) t = true) as Hw.
  { intros t [_ Ht]. apply forallb_forall. intros c Hc. rewrite Forall_forall in Ht. rewrite Ht; [done|by apply list_elem_of_In]. }
  induction 1 as [|t l Ht Hl IH]; [done|]. destruct l as [|u l].
  - cbn [join]. rewrite split_by_last by by apply Hw. rewrite filter_cons, decide_True by apply Ht. done.
  - change (join [32%N] (t :: u :: l)) with (t ++ 32%N :: join [32%N] (u :: l)).
    rewrite split_by_word by (done || by apply Hw). rewrite filter_cons, decide_True by apply Ht. by rewrite IH.
Qed.

(** A token list that is serialized and parsed again is the same list, and parsing any
    attribute value gives a list of distinct, valid tokens. *)
Theorem token_list_round_trip l :
  list_ok l → token_list_parse (token_serialize l) = l ∧ ∀ value, list_ok (token_list_parse value).
Proof.
  intros [Hn Hl]. split; [|apply parse_ok]. unfold token_list_parse, token_serialize, serialize_token_set.
  rewrite parse_as_push, split_by_join by done. by apply push_all_fresh.
Qed.

Lemma list_ok_filter (P : rstr → Prop) `{∀ x, Decision (P x)} l : list_ok l → list_ok (filter P l).
Proof. intros [Hn Hl]. split; [by apply NoDup_filter|]. rewrite Forall_forall in *. intros x [_ Hx]%list_elem_of_filter. by apply Hl. Qed.

Lemma replace_spec old new l idx x :
  list_ok l → token_ok new → list_find (λ t, t = old) l = Some (idx, x) → old ≠ new →
  let l' := if bool_decide (new ∈ l) then delete idx l else <[idx := new]> l in
  list_ok l' ∧ ∀ t, t ∈ l' ↔ (t ∈ l ∧ t ≠ old) ∨ t = new.
Proof.
  intros [Hn Hl] Hnew (Hx & -> & _)%list_find_Some Hne. apply list_elem_of_split_length in Hx as (a & b & -> & ->).
  apply NoDup_app in Hn as (Ha & Hab & Hb). apply NoDup_cons in Hb as [Hob Hb]. apply Forall_app in Hl as [Hla [Ho Hlb]%Forall_cons].
  cbn zeta. case_bool_decide as Hin.
  - rewrite delete_middle. split.
    + split; [|by apply Forall_app]. apply NoDup_app. split; [done|]. split; [set_solver|done].
    + intros t. set_solver.
  - assert (<[length a := new]> (a ++ old :: b) = a ++ new :: b) as ->
      by (clear; induction a as [|y a IH]; cbn; [done|by f_equal]). split.
    + split; [|apply Forall_app; split; [done|by constructor]]. apply NoDup_app. split; [done|]. split; [set_solver|].
      apply NoDup_cons. split; [set_solver|done].
    + intros t. set_solver.
Qed.

(** Every operation of a token list keeps its tokens distinct and valid, and does to the set
    of tokens what it says: [add] appends what is new and leaves the rest in place, [remove]
    drops, [toggle] answers whether the token is there afterwards, [replace] puts one for
    another; an operation that is given any invalid token changes nothing. *)
Theorem token_list_operations l :
  list_ok l →
  (∀ ts, match token_add ts l with
         | (l', Ok _) => Forall token_ok ts ∧ list_ok l' ∧ l `prefix_of` l' ∧ ∀ x, x ∈ l' ↔ x ∈ l ∨ x ∈ ts
         | (l', Err _) => ¬ Forall token_ok ts ∧ l' = l end) ∧
  (∀ ts, match token_remove ts l with
         | (l', Ok _) => Forall token_ok ts ∧ list_ok l' ∧ l' `sublist_of` l ∧ ∀ x, x ∈ l' ↔ x ∈ l ∧ x ∉ ts
         | (l', Err _) => ¬ Forall token_ok ts ∧ l' = l end) ∧
  (∀ t force, match toggle t force l with
         | (l', Ok there) => token_ok t ∧ list_ok l' ∧ there = default (bool_decide (t ∉ l)) force ∧
             (t ∈ l' ↔ there = true) ∧ ∀ x, x ≠ t → x ∈ l' ↔ x ∈ l
         | (l', Err _) => ¬ token_ok t ∧ l' = l end) ∧
  (∀ old new, match token_replace old new l with
         | (l', Ok true) => old ∈ l ∧ token_ok new ∧ list_ok l' ∧ ∀ x, x ∈ l' ↔ (x ∈ l ∧ x ≠ old) ∨ x = new
         | (l', Ok false) => (old ∉ l) ∧ l' = l
         | (l', Err _) => ¬ (token_ok old ∧ token_ok new) ∧ l' = l end).
Proof.
  intros Hok. pose proof Hok as [Hn Hl]. split; [|split; [|split]].
  - intros ts. unfold token_add. pose proof (collect_validated ts) as Hc. destruct (collect validated ts) as [c|e]; [|done].
    destruct Hc as [-> Hts]. destruct (push_all_spec l ts Hn) as [Hn' He]. split; [done|]. split; [split; [done|]|].
    + apply Forall_forall. intros t [Ht|Ht]%He; by rewrite Forall_forall in *; auto.
    + split; [apply push_all_prefix|done].
  - intros ts. unfold token_remove. pose proof (collect_validated ts) as Hc. destruct (collect validated ts) as [c|e]; [|done].
    destruct Hc as [-> Hts]. split; [done|]. split; [by apply list_ok_filter|]. split; [apply sublist_filter|].
    intros x. rewrite list_elem_of_filter. tauto.
  - intros t force. unfold toggle. destruct (validate_token_cases t) as [[Ht ->]|[Ht [e ->]]]; [|done].
    set (after := match force with None => _ | Some b => b end).
    assert (after = default (bool_decide (t ∉ l)) force) as Ha.
    { subst after. destruct force; cbn; [done|]. by rewrite bool_decide_not. }
    clearbody after. split; [done|].
    destruct (decide (t ∈ l)) as [Hin|Hin]; [rewrite (bool_decide_true (t ∈ l)) by done|rewrite (bool_decide_false (t ∈ l)) by done];
      destruct after; cbn [andb negb].
    + split; [done|]. split; [done|]. split; [done|done].
    + split; [by apply list_ok_filter|]. split; [done|]. split; [rewrite list_elem_of_filter; naive_solver|].
      intros x Hx. rewrite list_elem_of_filter. naive_solver.
    + split; [|split; [done|split; [set_solver|set_solver]]]. split; [|apply Forall_app; split; [done|by apply Forall_singleton]].
      apply NoDup_app. split; [done|]. split; [set_solver|apply NoDup_singleton].
    + split; [done|]. split; [done|]. split; [naive_solver|done].
  - intros old new. unfold token_replace.
    destruct (validate_token_cases old) as [[Ho ->]|[Ho [e ->]]]; cbn [mbind result_bind]; [|split; [tauto|done]].
    destruct (validate_token_cases new) as [[Hw ->]|[Hw [e ->]]]; [|split; [tauto|done]].
    destruct (list_find _ l) as [[idx x]|] eqn:Ef.
    + pose proof Ef as (Hx & Ex & _)%list_find_Some. subst x. apply list_elem_of_lookup_2 in Hx. case_bool_decide as Heq.
      * subst. split_and!; try done. intros t. destruct (decide (t = new)); naive_solver.
      * destruct (replace_spec old new l idx old Hok Hw Ef Heq) as [Hok' He]. cbn zeta in *.
        case_bool_decide; by split_and!.
    + apply list_find_None in Ef. split; [|done]. intros Hi. rewrite Forall_forall in Ef. by apply (Ef old).
Qed.

Lemma token_list_round_trip_witness :
  token_list_parse (token_serialize [lit "a"; lit "b"]) = [lit "a"; lit "b"].
Proof.
  exact (proj1 (token_list_round_trip [lit "a"; lit "b"] ltac:(split; [refine (proj1 (bool_decide_eq_true (NoDup _)) _); vm_compute; reflexivity|repeat constructor; done]))).
Defined.
Lemma token_list_operations_witness :
  snd (token_replace (lit "a") (lit "x") [lit "a"; lit "b"]) = Ok true ∧
  ∀ x, x ∈ fst (token_replace (lit "a") (lit "x") [lit "a"; lit "b"]) ↔ (x ∈ [lit "a"; lit "b"] ∧ x ≠ lit "a") ∨ x = lit "x".
Proof.
  split; [reflexivity|].
  pose proof (token_list_operations [lit "a"; lit "b"] ltac:(split; [refine (proj1 (bool_decide_eq_true (NoDup _)) _); vm_compute; reflexivity|repeat constructor; done]))
    as (_ & _ & _ & Hr).
  exact (proj2 (proj2 (proj2 (Hr (lit "a") (lit "x"))))).
Defined.

(** When the new token is already there, [replace] keeps its old place; DOM puts it where the
    first of the two was. *)
Example replace_keeps_the_later_place :
  fst (token_replace (lit "a") (lit "c") [lit "a"; lit "b"; lit "c"]) = [lit "b"; lit "c"].
Proof. reflexivity. Qed.

(** * ClassList names

    [crates/vixen-engine/src/dataset.rs]: the mapping between [data-*] attributes and the
    properties of [dataset]. *)

(** ** The code *)

Definition DATA_PREFIX : rstr := lit "data-".
Inductive DatasetError : Type := EmptyPropertyName | InvalidPropertyName (c : rchar).

Definition is_ascii_lowercase (c : rchar) : bool := ((97 <=? c) && (c <=? 122))%N.
Definition is_ascii_uppercase (c : rchar) : bool := ((65 <=? c) && (c <=? 90))%N.
Definition to_ascii_uppercase_char (c : rchar) : rchar := if is_ascii_lowercase c then (c - 32)%N else c.

(** [windows(2)]: a hyphen before an upper-case letter. *)
Fixpoint hyphen_upper (s : rstr) : bool :=
  match s with
  | c :: ((d :: _) as rest) => ((c =? 45)%N && is_ascii_uppercase d) || hyphen_upper rest
  | _ => false
  end.
(** The loop over the peekable characters. *)
Fixpoint camel (s : rstr) : rstr :=
  match s with
  | [] => []
  | c :: rest =>
      if (c =? 45)%N then
        match rest with
        | next :: rest' =>
            if is_ascii_lowercase next then to_ascii_uppercase_char next :: camel rest' else 45%N :: camel rest
        | [] => [45%N]
        end
      else c :: camel rest
  end.
Definition attribute_to_property (name : rstr) : option rstr :=
  if bool_decide (DATA_PREFIX `prefix_of` name) then
    match drop (length DATA_PREFIX) name with
    | [] => None
    | suffix => if hyphen_upper suffix then None else Some (camel suffix)
    end
  else None.

Definition is_name_char (c : rchar) : bool :=
  (is_ascii_uppercase c || is_ascii_lowercase c || is_digit c || (c =? 45) || (c =? 95) || (c =? 46) || (c =? 58))%N.
Fixpoint hyphenate (property : rstr) : result DatasetError rstr :=
  match property with
  | [] => Ok []
  | c :: rest =>
      if is_ascii_uppercase c then s ← hyphenate rest; Ok (45%N :: ascii_lower c :: s)
      else if is_name_char c then s ← hyphenate rest; Ok (c :: s)
      else Err (InvalidPropertyName c)
  end.
Definition property_to_attribute (property : rstr) : result DatasetError rstr :=
  match property with
  | [] => Err EmptyPropertyName
  | _ => s ← hyphenate property; Ok (DATA_PREFIX ++ s)
  end.

(** [collect_dataset]; [seen] are the names of [out]. *)
Fixpoint collect_loop {V} (out : list (rstr * V)) (attrs : list (rstr * V)) : list (rstr * V) :=
  match attrs with
  | [] => out
  | (name, value) :: attrs =>
      match attribute_to_property name with
      | None => collect_loop out attrs
      | Some prop => collect_loop (if bool_decide (prop ∈ out.*1) then out else out ++ [(prop, value)]) attrs
      end
  end.
Definition collect_dataset {V} (attrs : list (rstr * V)) : list (rstr * V) := collect_loop [] attrs.

(** ** Round trips *)

Lemma upper_lower c : is_ascii_uppercase c = true →
  is_ascii_lowercase (ascii_lower c) = true ∧ to_ascii_uppercase_char (ascii_lower c) = c ∧ is_ascii_uppercase (ascii_lower c) = false.
Proof.
  unfold is_ascii_uppercase, is_ascii_lowercase, to_ascii_uppercase_char, ascii_lower, is_ascii_lowercase.
  intros E. rewrite E. apply andb_true_iff in E as [E1%N.leb_le E2%N.leb_le].
  assert ((97 <=? c + 32)%N = true) as -> by (apply N.leb_le; lia). assert ((c + 32 <=? 122)%N = true) as -> by (apply N.leb_le; lia).
  cbn. split_and!; [done|lia|]. apply andb_false_iff. right. apply N.leb_gt. lia.
Qed.
Lemma lower_upper c : is_ascii_lowercase c = true →
  is_ascii_uppercase (to_ascii_uppercase_char c) = true ∧ ascii_lower (to_ascii_uppercase_char c) = c.
Proof.
  unfold is_ascii_uppercase, to_ascii_uppercase_char, ascii_lower. intros E. rewrite E. unfold is_ascii_lowercase in E.
  apply andb_true_iff in E as [E1%N.leb_le E2%N.leb_le].
  assert ((65 <=? c - 32)%N = true) as -> by (apply N.leb_le; lia). assert ((c - 32 <=? 90)%N = true) as -> by (apply N.leb_le; lia).
  cbn. split; [done|lia].
Qed.

(** A hyphen before a lower-case letter. *)
Fixpoint hyphen_lower (s : rstr) : bool :=
  match s with
  | c :: ((d :: _) as rest) => ((c =? 45)%N && is_ascii_lowercase d) || hyphen_lower rest
  | _ => false
  end.

Lemma hyphen_not_letter : is_ascii_uppercase 45 = false ∧ is_ascii_lowercase 45 = false.
Proof. done. Qed.

Lemma hyphenate_camel s :
  Forall (λ c, is_name_char c = true ∧ is_ascii_uppercase c = false) s → hyphenate (camel s) = Ok s.
Proof.
  induction s as [s IH] using (induction_ltof1 _ length). intros Hs. destruct s as [|c rest]; [done|].
  apply Forall_cons in Hs as [[Hn Hu] Hrest]. cbn [camel]. destruct (c =? 45)%N eqn:E45.
  - apply N.eqb_eq in E45 as ->. destruct rest as [|d rest]; [done|]. destruct (is_ascii_lowercase d) eqn:El.
    + destruct (lower_upper d El) as [H1 H2]. cbn [hyphenate]. rewrite H1, H2.
      rewrite IH by (unfold ltof; cbn; lia || by apply Forall_cons in Hrest as [_ ?]). done.
    + cbn [hyphenate]. rewrite IH by (unfold ltof; cbn; lia || done). done.
  - cbn [hyphenate]. rewrite Hu, Hn, IH by (unfold ltof; cbn; lia || done). done.
Qed.

Lemma hyphenate_no_upper p s : hyphenate p = Ok s → Forall (λ c, is_ascii_uppercase c = false) s.
Proof.
  revert s. induction p as [|c p IH]; cbn; [by intros s [= <-]|]. intros s. destruct (is_ascii_uppercase c) eqn:Eu.
  - destruct (hyphenate p) as [s'|]; [|done]. intros [= <-]. destruct (upper_lower c Eu) as (_ & _ & ?).
    constructor; [done|]. constructor; [done|by apply IH].
  - destruct (is_name_char c); [|done]. destruct (hyphenate p) as [s'|]; [|done]. intros [= <-]. constructor; [done|by apply IH].
Qed.
Lemma no_upper_no_pair s : Forall (λ c, is_ascii_uppercase c = false) s → hyphen_upper s = false.
Proof.
  induction 1 as [|c s Hc Hs IH]; [done|]. destruct s as [|d s]; [done|]. cbn [hyphen_upper].
  apply Forall_cons in Hs as [-> _]. by rewrite andb_false_r.
Qed.

Lemma camel_hyphen d rest :
  camel (45%N :: d :: rest) = if is_ascii_lowercase d then to_ascii_uppercase_char d :: camel rest else 45%N :: camel (d :: rest).
Proof. done. Qed.
Lemma camel_other c rest : (c =? 45)%N = false → camel (c :: rest) = c :: camel rest.
Proof. intros E. cbn [camel]. by rewrite E. Qed.

Lemma camel_hyphenate p s : hyphenate p = Ok s → camel s = p ↔ hyphen_lower p = false.
Proof.
  revert s. induction p as [|c p IH]; [by intros s [= <-]|]. cbn [hyphenate]. intros s.
  destruct (is_ascii_uppercase c) eqn:Eu.
  - destruct (hyphenate p) as [s'|] eqn:Ep; [|done]. intros [= <-]. destruct (upper_lower c Eu) as (Hl & Hup & _).
    rewrite camel_hyphen, Hl, Hup.
    assert (hyphen_lower (c :: p) = hyphen_lower p) as ->.
    { destruct p as [|d p]; [done|]. cbn [hyphen_lower]. destruct (c =? 45)%N eqn:E; [|done]. apply N.eqb_eq in E as ->. done. }
    rewrite <-(IH s' eq_refl). split; [congruence|by intros ->].
  - destruct (is_name_char c) eqn:En; [|done]. destruct (hyphenate p) as [s'|] eqn:Ep; [|done]. intros [= <-].
    destruct (c =? 45)%N eqn:E45.
    2: { assert (hyphen_lower (c :: p) = hyphen_lower p) as -> by (destruct p; [done|]; cbn [hyphen_lower]; by rewrite E45).
         rewrite camel_other, <-(IH s' eq_refl) by done. split; [congruence|by intros ->]. }
    apply N.eqb_eq in E45 as ->. destruct p as [|d p]; [by injection Ep as <-|].
    assert (∃ e s1, s' = e :: s1 ∧ (is_ascii_lowercase d = is_ascii_lowercase e ∧ e = d ∨ is_ascii_lowercase d = false ∧ e = 45%N))
      as (e & s1 & -> & He).
    { cbn [hyphenate] in Ep. destruct (is_ascii_uppercase d) eqn:Ed.
      - destruct (hyphenate p); [|done]. injection Ep as <-. eexists _, _. split; [done|]. right. split; [|done].
        unfold is_ascii_uppercase, is_ascii_lowercase in *. apply andb_true_iff in Ed as [_ Ed%N.leb_le].
        apply andb_false_iff. left. apply N.leb_gt. lia.
      - destruct (is_name_char d); [|done]. destruct (hyphenate p); [|done]. injection Ep as <-. eexists _, _.
        split; [done|]. by left. }
    change (hyphen_lower (45%N :: d :: p)) with (is_ascii_lowercase d || hyphen_lower (d :: p)).
    rewrite camel_hyphen. destruct He as [[_ ->]|[-> ->]].
    + destruct (is_ascii_lowercase d) eqn:Eld; cbn [orb].
      * split; [|done]. intros E. destruct (lower_upper d Eld) as [Hx _]. injection E as E _. by rewrite E in Hx.
      * rewrite <-(IH _ eq_refl). split; [congruence|by intros ->].
    + cbn [orb]. rewrite (proj2 hyphen_not_letter), <-(IH _ eq_refl). split; [congruence|by intros ->].
Qed.

(** The names of [dataset] round trip: the attribute of a property is read back as that
    property exactly when the property has no hyphen before a lower-case letter, and the
    property of an attribute whose name has only the permitted characters and no upper-case
    letter is written back as that attribute. *)
Theorem dataset_round_trip :
  (∀ property attribute, property_to_attribute property = Ok attribute →
    attribute_to_property attribute = Some property ↔ hyphen_lower property = false) ∧
  (∀ attribute property, Forall (λ c, is_name_char c = true ∧ is_ascii_uppercase c = false) attribute →
    attribute_to_property attribute = Some property → property_to_attribute property = Ok attribute).
Proof.
  split.
  - intros property attribute. unfold property_to_attribute. destruct property as [|c p]; [done|].
    destruct (hyphenate (c :: p)) as [s|] eqn:Ep; [|done]. cbn [mbind result_bind]. intros E.
    assert (attribute = DATA_PREFIX ++ s) as -> by congruence. clear E.
    unfold attribute_to_property. rewrite bool_decide_true by by apply prefix_app_r. rewrite drop_app_length.
    destruct s as [|d s].
    { cbn [hyphenate] in Ep. destruct (hyphenate p), (is_ascii_uppercase c), (is_name_char c); done. }
    rewrite (no_upper_no_pair (d :: s)) by by eapply hyphenate_no_upper. rewrite <-(camel_hyphenate _ _ Ep). split; [congruence|by intros ->].
  - intros attribute property Ha. unfold attribute_to_property. case_bool_decide as Hp; [|done]. destruct Hp as [suffix ->].
    apply Forall_app in Ha as [_ Ha]. rewrite drop_app_length. destruct suffix as [|c s]; [done|].
    destruct (hyphen_upper (c :: s)); [done|]. intros E.
    assert (property = camel (c :: s)) as -> by congruence. clear E. unfold property_to_attribute.
    pose proof (hyphenate_camel (c :: s) Ha) as Hc. destruct (camel (c :: s)) as [|d t]; [done|]. by rewrite Hc.
Qed.

(** [dataset] has one value per property, that of the first attribute that is read as it. *)
Theorem collect_dataset_first {V} (attrs : list (rstr * V)) :
  NoDup (collect_dataset attrs).*1 ∧
  ∀ prop value, (prop, value) ∈ collect_dataset attrs ↔
    head (omap (λ nv, if decide (attribute_to_property nv.1 = Some prop) then Some nv.2 else None) attrs) = Some value.
Proof.
  unfold collect_dataset.
  assert (∀ out, NoDup out.*1 → NoDup (collect_loop out attrs).*1 ∧ ∀ prop value, (prop, value) ∈ collect_loop out attrs ↔
    (prop, value) ∈ out ∨ (prop ∉ out.*1) ∧
    head (omap (λ nv, if decide (attribute_to_property nv.1 = Some prop) then Some nv.2 else None) attrs) = Some value) as Hgen.
  { induction attrs as [|[name v] attrs IH]; intros out Hn; cbn [collect_loop].
    { split; [done|]. cbn. naive_solver. }
    destruct (attribute_to_property name) as [q|] eqn:Eq.
    2: { destruct (IH out Hn) as [Hn' He]. split; [done|]. intros prop value. rewrite He. cbn. by rewrite Eq, decide_False. }
    case_bool_decide as Hq.
    - destruct (IH out Hn) as [Hn' He]. split; [done|]. intros prop value. rewrite He. cbn. rewrite Eq.
      destruct (decide (Some q = Some prop)) as [[= ->]|]; [|done]. naive_solver.
    - destruct (IH (out ++ [(q, v)])) as [Hn' He].
      { rewrite fmap_app. apply NoDup_app. split; [done|]. split; [set_solver|apply NoDup_singleton]. }
      split; [done|]. intros prop value. rewrite He, fmap_app, !elem_of_app, !list_elem_of_singleton. cbn. rewrite Eq.
      destruct (decide (Some q = Some prop)) as [[= ->]|Hne]; cbn; split.
      + intros [[?|[= <-]]|[Hx _]]; [by left|by right|]. destruct Hx. right. by left.
      + intros [?|[_ [= <-]]]; [by left; left|by left; right].
      + intros [[?|[= -> ->]]|[Hx ?]]; [by left|done|right; split; [|done]]. intros ?. apply Hx. by left.
      + intros [?|[Hx ?]]; [by left; left|right; split; [|done]]. intros [?| ->%list_elem_of_singleton]; [done|]. by apply Hne. }
  destruct (Hgen []) as [Hn He]; [constructor|]. split; [done|]. intros prop value. rewrite He. set_solver.
Qed.

(** A property with a hyphen before a lower-case letter takes the place of another one. *)
Example hyphenated_property_collides :
  property_to_attribute (lit "foo-bar") = Ok (lit "data-foo-bar") ∧ property_to_attribute (lit "fooBar") = Ok (lit "data-foo-bar").
Proof. done. Qed.
