(* ===== verification/MutationObserver.v ===== *)
(** * Mutation observers and abort signals

    [crates/vixen-engine/src/mutation_observer.rs] and [abort.rs]: the registrations and the
    record queue of an observer, and the one-way state of abort controllers. *)

From Stdlib Require Import Lia ZArith.
From stdpp Require Import base decidable sets list strings.
From S2P Require Import Prelude.

(** ** [mutation_observer.rs] *)

Definition NodeHandle : Type := N.
Inductive MutationType : Type := ChildList | Attributes | CharacterData.
Definition mutation_type_as_str (self : MutationType) : rstr :=
  match self with ChildList => lit "childList" | Attributes => lit "attributes" | CharacterData => lit "characterData" end.

Record MutationRecord : Type := {
  type_ : MutationType; target : NodeHandle; added_nodes : list NodeHandle; removed_nodes : list NodeHandle;
  previous_sibling : option NodeHandle; next_sibling : option NodeHandle; attribute_name : option rstr;
  attribute_namespace : option rstr; old_value : option rstr;
}.
Definition record_child_list (target : NodeHandle) (added removed : list NodeHandle)
    (previous_sibling next_sibling : option NodeHandle) : MutationRecord :=
  {| type_ := ChildList; target := target; added_nodes := added; removed_nodes := removed;
     previous_sibling := previous_sibling; next_sibling := next_sibling; attribute_name := None;
     attribute_namespace := None; old_value := None |}.
Definition record_attribute (target : NodeHandle) (name : rstr) (namespace old_value : option rstr) : MutationRecord :=
  {| type_ := Attributes; target := target; added_nodes := []; removed_nodes := []; previous_sibling := None;
     next_sibling := None; attribute_name := Some name; attribute_namespace := namespace; old_value := old_value |}.
Definition record_character_data (target : NodeHandle) (old_value : option rstr) : MutationRecord :=
  {| type_ := CharacterData; target := target; added_nodes := []; removed_nodes := []; previous_sibling := None;
     next_sibling := None; attribute_name := None; attribute_namespace := None; old_value := old_value |}.

Record MutationObserverInit : Type := {
  opt_child_list : bool; opt_attributes : bool; attribute_filter : option (list rstr); attribute_old_value : bool;
  opt_character_data : bool; character_data_old_value : bool; subtree : bool;
}.
Definition init_is_valid (self : MutationObserverInit) : bool :=
  opt_child_list self || opt_attributes self || opt_character_data self.
Definition allows_attribute (self : MutationObserverInit) (name : rstr) : bool :=
  match attribute_filter self with None => true | Some list => bool_decide (name ∈ list) end.

Inductive Relation : Type := RelTarget | RelDescendant.
Definition should_observe (relation : Relation) (type_ : MutationType) (attribute_name : option rstr)
    (options : MutationObserverInit) : bool :=
  let in_scope := match relation with RelTarget => true | RelDescendant => subtree options end in
  if negb in_scope then false
  else match type_ with
       | ChildList => opt_child_list options
       | Attributes => opt_attributes options && allows_attribute options (default [] attribute_name)
       | CharacterData => opt_character_data options
       end.

Record MutationObserver : Type := {
  records : list MutationRecord; registrations : list (NodeHandle * MutationObserverInit)
}.
Definition MutationObserver_new : MutationObserver := {| records := []; registrations := [] |}.
(** [iter_mut().find(..)] *)
Fixpoint set_registration (target : NodeHandle) (options : MutationObserverInit)
    (registrations : list (NodeHandle * MutationObserverInit)) : option (list (NodeHandle * MutationObserverInit)) :=
  match registrations with
  | [] => None
  | (t, o) :: rest =>
      if bool_decide (t = target) then Some ((t, options) :: rest) else cons (t, o) <$> set_registration target options rest
  end.
Definition observe (target : NodeHandle) (options : MutationObserverInit) (self : MutationObserver) : MutationObserver * bool :=
  if negb (init_is_valid options) then (self, false)
  else ({| records := records self;
           registrations := match set_registration target options (registrations self) with
                            | Some r => r
                            | None => registrations self ++ [(target, options)]
                            end |}, true).
Definition disconnect (self : MutationObserver) : MutationObserver := {| records := records self; registrations := [] |}.
Definition enqueue_record (record : MutationRecord) (self : MutationObserver) : MutationObserver :=
  {| records := records self ++ [record]; registrations := registrations self |}.
Definition take_records (self : MutationObserver) : MutationObserver * list MutationRecord :=
  ({| records := []; registrations := registrations self |}, records self).
Definition drain_for_delivery (self : MutationObserver) : MutationObserver * list MutationRecord := take_records self.
Definition pending_count (self : MutationObserver) : nat := length (records self).

(** ** [abort.rs] *)

Inductive AbortReason : Type := AbortError | CustomReason (text : rstr).
Definition abort_reason_name (self : AbortReason) : rstr :=
  match self with AbortError => lit "AbortError" | CustomReason s => s end.
Record AbortSignal : Type := { aborted : bool; reason : option AbortReason }.
Definition AbortSignal_new : AbortSignal := {| aborted := false; reason := None |}.
Definition aborted_with (reason : AbortReason) : AbortSignal := {| aborted := true; reason := Some reason |}.
(** [AbortController] is its signal. *)
Definition AbortController_new : AbortSignal := AbortSignal_new.
Definition controller_abort (reason : option AbortReason) (self : AbortSignal) : AbortSignal :=
  if aborted self then self else aborted_with (default AbortError reason).
Fixpoint abort_any (signals : list AbortSignal) : AbortSignal :=
  match signals with
  | [] => AbortSignal_new
  | s :: signals => if aborted s then aborted_with (default AbortError (reason s)) else abort_any signals
  end.
Record TimeoutSignal : Type := { delay_ms : N; timeout_signal : AbortSignal }.
Definition TimeoutSignal_new (delay_ms : N) : TimeoutSignal :=
  {| delay_ms := delay_ms;
     timeout_signal := if (delay_ms =? 0)%N then aborted_with (CustomReason (lit "timedout")) else AbortSignal_new |}.
Definition expire (self : TimeoutSignal) : TimeoutSignal :=
  if aborted (timeout_signal self) then self
  else {| delay_ms := delay_ms self; timeout_signal := aborted_with (CustomReason (lit "timedout")) |}.

(** ** What an observer promises *)

Inductive ObserverOp : Type :=
| Observe (target : NodeHandle) (options : MutationObserverInit) | Disconnect | Enqueue (r : MutationRecord) | TakeRecords.

(** One operation, and what it delivers. *)
Definition observer_step (s : MutationObserver) (op : ObserverOp) : MutationObserver * list MutationRecord :=
  match op with
  | Observe t o => ((observe t o s).1, [])
  | Disconnect => (disconnect s, [])
  | Enqueue r => (enqueue_record r s, [])
  | TakeRecords => take_records s
  end.
Fixpoint run_observer (s : MutationObserver) (ops : list ObserverOp) : MutationObserver * list (list MutationRecord) :=
  match ops with
  | [] => (s, [])
  | op :: ops => let '(s, out) := observer_step s op in let '(s, outs) := run_observer s ops in (s, out :: outs)
  end.

(** The options in force on a target: the last valid ones since the last [disconnect]. *)
Definition in_force (t : NodeHandle) (now : option MutationObserverInit) (op : ObserverOp) : option MutationObserverInit :=
  match op with
  | Observe t' o => if decide (t' = t ∧ init_is_valid o = true) then Some o else now
  | Disconnect => None
  | _ => now
  end.
Definition enqueued (op : ObserverOp) : option MutationRecord := match op with Enqueue r => Some r | _ => None end.

Definition lookup_registration (t : NodeHandle) (l : list (NodeHandle * MutationObserverInit)) : option MutationObserverInit :=
  snd ∘ snd <$> list_find (λ r, r.1 = t) l.

Lemma lookup_registration_cons t u o l :
  lookup_registration t ((u, o) :: l) = if decide (u = t) then Some o else lookup_registration t l.
Proof. unfold lookup_registration. cbn. case_decide; [done|]. by destruct (list_find _ l) as [[]|]. Qed.

Lemma set_registration_spec t o l :
  match set_registration t o l with
  | Some l' => t ∈ l.*1 ∧ l'.*1 = l.*1 ∧ ∀ u, lookup_registration u l' = if decide (t = u) then Some o else lookup_registration u l
  | None => t ∉ l.*1
  end.
Proof.
  induction l as [|[u p] l IH]; cbn [set_registration]; [by intros ?%not_elem_of_nil|]. case_bool_decide as Hu.
  - subst. split; [by left|]. split; [done|]. intros v. rewrite !lookup_registration_cons. by case_decide.
  - destruct (set_registration t o l) as [l'|]; cbn [fmap option_fmap option_map].
    + destruct IH as (Hin & Hk & Hl). split; [by right|]. split; [rewrite !fmap_cons; by f_equal|]. intros v.
      rewrite !lookup_registration_cons, Hl. by repeat case_decide; subst.
    + cbn. by intros [?|?]%elem_of_cons.
Qed.
Lemma lookup_registration_app t u o l :
  u ∉ l.*1 → lookup_registration t (l ++ [(u, o)]) = if decide (u = t) then Some o else lookup_registration t l.
Proof.
  induction l as [|[v p] l IH]; intros Hu; [apply lookup_registration_cons|].
  rewrite <-app_comm_cons, !lookup_registration_cons, IH by set_solver. repeat case_decide; subst; set_solver.
Qed.

(** Whatever is observed, disconnected, queued and taken: every queued record is delivered
    once and in order or is still pending, a target has at most one registration, and the
    options in force on it are the last valid ones given since the last [disconnect]. *)
Theorem observer_refines ops :
  let '(s, outs) := run_observer MutationObserver_new ops in
  concat outs ++ records s = omap enqueued ops ∧
  NoDup (registrations s).*1 ∧
  ∀ t, lookup_registration t (registrations s) = foldl (in_force t) None ops.
Proof.
  assert (∀ s, NoDup (registrations s).*1 →
    let '(s', outs) := run_observer s ops in
    concat outs ++ records s' = records s ++ omap enqueued ops ∧ NoDup (registrations s').*1 ∧
    ∀ t, lookup_registration t (registrations s') = foldl (in_force t) (lookup_registration t (registrations s)) ops) as Hgen.
  2: { exact (Hgen MutationObserver_new (NoDup_nil_2)). }
  induction ops as [|op ops IH]; intros s Hn; cbn [run_observer]; [by rewrite app_nil_r|].
  assert (∃ out, observer_step s op = ((observer_step s op).1, out) ∧ out ++ records (observer_step s op).1 = records s ++ option_list (enqueued op) ∧
    NoDup (registrations (observer_step s op).1).*1 ∧
    ∀ t, lookup_registration t (registrations (observer_step s op).1) = in_force t (lookup_registration t (registrations s)) op)
    as (out & E & Hr & Hn' & Hl).
  { destruct op as [t o| |r|]; cbn [observer_step].
    - exists []. unfold observe. destruct (init_is_valid o) eqn:Ev; cbn [negb fst records registrations].
      2: { split; [done|]. split; [cbn; by rewrite app_nil_r|]. split; [done|]. intros u. cbn. destruct (decide (t = u ∧ init_is_valid o = true)) as [[_ ?]|]; [congruence|done]. }
      split; [done|]. split; [cbn; by rewrite app_nil_r|]. pose proof (set_registration_spec t o (registrations s)) as Hs.
      destruct (set_registration t o (registrations s)) as [l'|].
      + destruct Hs as (_ & Hk & Hl). rewrite Hk. split; [done|]. intros u. rewrite Hl. cbn. rewrite Ev.
        destruct (decide (t = u)), (decide (t = u ∧ true = true)); naive_solver.
      + split.
        * rewrite fmap_app. apply NoDup_app. split; [done|]. split; [set_solver|apply NoDup_singleton].
        * intros u. rewrite lookup_registration_app by done. cbn. rewrite Ev.
          destruct (decide (t = u)), (decide (t = u ∧ true = true)); naive_solver.
    - exists []. cbn. rewrite app_nil_r. split_and!; try done. constructor.
    - exists []. by cbn.
    - exists (records s). cbn. by rewrite app_nil_r. }
  rewrite E. specialize (IH (observer_step s op).1 Hn'). destruct (run_observer _ ops) as [s' outs].
  destruct IH as (Hc & Hnd & Hlk). split_and!.
  - cbn [concat]. rewrite <-app_assoc, Hc, app_assoc, Hr, <-app_assoc. f_equal. cbn. by destruct (enqueued op).
  - done.
  - intros t. rewrite Hlk, Hl. done.
Qed.

(** An abort is final and its first reason stays: after any calls of [abort] the signal is
    aborted exactly when there was one, with the reason of the first; [AbortSignal.any] is
    aborted exactly when one of its signals is, with the reason of the first of them. *)
Theorem abort_first_wins reasons signals :
  foldl (λ s r, controller_abort r s) AbortController_new reasons =
    (match reasons with [] => AbortSignal_new | r :: _ => aborted_with (default AbortError r) end) ∧
  abort_any signals =
    (match list_find (λ s, aborted s = true) signals with
     | Some (_, s) => aborted_with (default AbortError (reason s))
     | None => AbortSignal_new
     end).
Proof.
  split.
  - destruct reasons as [|r reasons]; [done|]. cbn [foldl]. change (controller_abort r AbortController_new) with (aborted_with (default AbortError r)).
    induction reasons as [|r' reasons IH]; [done|]. apply IH.
  - induction signals as [|s signals IH]; [done|]. cbn. destruct (aborted s) eqn:E; [by rewrite decide_True|].
    rewrite decide_False, IH by done. by destruct (list_find _ signals) as [[]|].
Qed.

(** The doc has an empty attribute filter observe every attribute; the code observes none. *)
Example empty_filter_observes_nothing name :
  allows_attribute {| opt_child_list := false; opt_attributes := true; attribute_filter := Some []; attribute_old_value := false;
    opt_character_data := false; character_data_old_value := false; subtree := false |} name = false.
Proof. done. Qed.
