(* ===== verification/EmbedderPolicy.v ===== *)
(** * Cross-origin policies of documents and responses

    [crates/vixen-net/src/]: [coop.rs] and [coep.rs] (opener and embedder policies),
    [corp.rs] (resource policy and the gate for responses without CORS), [sec_fetch.rs]
    (request metadata and the site of a request) and [nosniff.rs].  Definitions only; a
    [&str] that is matched against keywords is a list of scalar values. *)

From Stdlib Require Import Lia ZArith.
From stdpp Require Import base decidable sets list strings.
From S2P Require Import Prelude.
From S2P Require Import RustStr.
From S2P Require Import Cookie.
From S2P Require Import WebStorage.
From S2P Require Import Csp.
From S2P Require Import Mime.

(** A match of a string against keywords: the value of the first keyword that is the string. *)
Definition keyword_match {A} (table : list (rstr * A)) (s : rstr) : option A :=
  snd ∘ snd <$> list_find (λ ka, ka.1 = s) table.

(** ** [coop.rs] *)

Inductive Coop : Type := CoopUnsafeNone | SameOriginAllowPopups | CoopSameOrigin.
#[export] Instance Coop_eq_dec : EqDecision Coop.
Proof. solve_decision. Defined.

Definition coop_keyword (self : Coop) : rstr :=
  match self with
  | CoopUnsafeNone => lit "unsafe-none"
  | SameOriginAllowPopups => lit "same-origin-allow-popups"
  | CoopSameOrigin => lit "same-origin"
  end.

(** The value of one parameter, the body of the loop of [find_report_to]; 61 is the equals
    sign and 34 the double quote. *)
Definition report_value (param : rstr) : option rstr :=
  let param := trim param in
  match (match strip_prefix (lit "report-to") param with
         | Some rest => Some rest
         | None => strip_prefix (lit "reporting-endpoints") param
         end) with
  | Some rest =>
      match strip_prefix [61%N] (trim_start rest) with
      | Some value =>
          match trim_matches (λ c, bool_decide (c = 34%N)) (trim value) with
          | [] => None
          | value => Some value
          end
      | None => None
      end
  | None => None
  end.
Fixpoint first_report (params : list rstr) : option rstr :=
  match params with
  | [] => None
  | param :: params =>
      match report_value param with Some value => Some value | None => first_report params end
  end.
Definition find_report_to (params : rstr) : option rstr := first_report (split_char 59 params).

(** The token before the first semicolon and what follows it. *)
Definition policy_token (header : rstr) : rstr * option rstr :=
  match split_once 59 header with Some (t, r) => (t, Some r) | None => (header, None) end.

Definition parse_coop (header : rstr) : Coop * option rstr :=
  let '(token, rest) := policy_token header in
  let policy := default CoopUnsafeNone
    (keyword_match [(lit "same-origin", CoopSameOrigin); (lit "same-origin-allow-popups", SameOriginAllowPopups);
                    (lit "unsafe-none", CoopUnsafeNone)] (to_ascii_lowercase (trim token))) in
  (policy, rest ← rest; find_report_to rest).
Definition isolates_opener (self : Coop) : bool :=
  match self with CoopSameOrigin => true | _ => false end.

(** ** [coep.rs] *)

Inductive Coep : Type := CoepUnsafeNone | RequireCorp | Credentialless.
#[export] Instance Coep_eq_dec : EqDecision Coep.
Proof. solve_decision. Defined.
Definition coep_keyword (self : Coep) : rstr :=
  match self with
  | CoepUnsafeNone => lit "unsafe-none"
  | RequireCorp => lit "require-corp"
  | Credentialless => lit "credentialless"
  end.
Definition parse_coep (header : rstr) : Coep * option rstr :=
  let '(token, rest) := policy_token header in
  let policy := default CoepUnsafeNone
    (keyword_match [(lit "require-corp", RequireCorp); (lit "credentialless", Credentialless);
                    (lit "unsafe-none", CoepUnsafeNone)] (to_ascii_lowercase (trim token))) in
  (policy, rest ← rest; find_report_to rest).
Definition enables_cross_origin_isolation (self : Coep) : bool :=
  match self with RequireCorp | Credentialless => true | CoepUnsafeNone => false end.
Definition is_cross_origin_isolated (coop : Coop) (coep : Coep) : bool :=
  isolates_opener coop && enables_cross_origin_isolation coep.

(** ** [corp.rs] *)

Inductive Corp : Type := CorpSameOrigin | CorpSameSite | CorpCrossOrigin.
Definition corp_keyword (self : Corp) : rstr :=
  match self with
  | CorpSameOrigin => lit "same-origin"
  | CorpSameSite => lit "same-site"
  | CorpCrossOrigin => lit "cross-origin"
  end.
Definition parse_corp (header : rstr) : option Corp :=
  token ← head (split_char 59 header);
  keyword_match [(lit "same-origin", CorpSameOrigin); (lit "same-site", CorpSameSite);
                 (lit "cross-origin", CorpCrossOrigin)] (to_ascii_lowercase (trim token)).

Inductive CorpOutcome : Type := CorpAllow | CorpBlock.
Inductive CoepCorpOutcome : Type := GateAllow | GateBlock | AllowWithoutCredentials.

Definition same_origin_tuple (a b : Origin) : bool :=
  negb (o_opaque a) && negb (o_opaque b) && bool_decide (a = b).

Section policies.
Context `{Platform}.

Definition corp_same_site (a b : Origin) : bool :=
  if o_opaque a || o_opaque b then false
  else if negb (bool_decide (o_scheme a = o_scheme b)) then false
  else if bool_decide (a = b) then true
  else same_registrable_domain (o_host a) (o_host b).
Definition check_corp (request resource : Origin) (corp : Corp) : CorpOutcome :=
  match corp with
  | CorpCrossOrigin => CorpAllow
  | CorpSameOrigin => if same_origin_tuple request resource then CorpAllow else CorpBlock
  | CorpSameSite => if corp_same_site request resource then CorpAllow else CorpBlock
  end.
Definition coep_corp_gate (coep : Coep) (is_cors : bool) (request resource : Origin) (corp : option Corp) :
    CoepCorpOutcome :=
  if bool_decide (coep = CoepUnsafeNone) then GateAllow
  else if is_cors then GateAllow
  else
    let same_origin := same_origin_tuple request resource in
    match coep with
    | RequireCorp =>
        if same_origin then GateAllow
        else match corp with
             | Some c => match check_corp request resource c with CorpAllow => GateAllow | CorpBlock => GateBlock end
             | None => GateBlock
             end
    | Credentialless => if same_origin then GateAllow else AllowWithoutCredentials
    | CoepUnsafeNone => GateAllow
    end.
End policies.

(** * Request metadata and nosniff

    [crates/vixen-net/src/sec_fetch.rs]: the values of the [Sec-Fetch-*] headers, their parsers
    and the site of a request; [crates/vixen-net/src/nosniff.rs]: what a response that must not
    be sniffed is refused for.  Definitions only. *)

(** ** The four headers *)

Inductive SecFetchSite : Type := SiteSameOrigin | SiteSameSite | SiteCrossSite | SiteNone.
Definition site_as_str (self : SecFetchSite) : rstr :=
  match self with
  | SiteSameOrigin => lit "same-origin"
  | SiteSameSite => lit "same-site"
  | SiteCrossSite => lit "cross-site"
  | SiteNone => lit "none"
  end.
Definition site_parse (value : rstr) : option SecFetchSite :=
  keyword_match [(lit "same-origin", SiteSameOrigin); (lit "same-site", SiteSameSite);
                 (lit "cross-site", SiteCrossSite); (lit "none", SiteNone)] (trim value).
Definition site_is_cross_origin (self : SecFetchSite) : bool :=
  match self with SiteCrossSite | SiteSameSite => true | _ => false end.

Inductive SecFetchMode : Type := ModeCors | ModeNoCors | ModeNavigate | ModeSameOrigin | ModeWebsocket.
Definition mode_as_str (self : SecFetchMode) : rstr :=
  match self with
  | ModeCors => lit "cors"
  | ModeNoCors => lit "no-cors"
  | ModeNavigate => lit "navigate"
  | ModeSameOrigin => lit "same-origin"
  | ModeWebsocket => lit "websocket"
  end.
Definition mode_parse (value : rstr) : option SecFetchMode :=
  keyword_match [(lit "cors", ModeCors); (lit "navigate", ModeNavigate); (lit "no-cors", ModeNoCors);
                 (lit "same-origin", ModeSameOrigin); (lit "websocket", ModeWebsocket)] (trim value).

Inductive SecFetchDest : Type :=
| DestAudio | DestAudioWorklet | DestDocument | DestEmbed | DestEmpty | DestFont | DestFrame | DestIFrame
| DestImage | DestJSON | DestManifest | DestObject | DestPaintWorklet | DestReport | DestScript
| DestServiceWorker | DestSharedWorker | DestStyle | DestTrack | DestVideo | DestWebIdentity | DestWorker
| DestXslt.
Definition dest_as_str (self : SecFetchDest) : rstr :=
  match self with
  | DestAudio => lit "audio"
  | DestAudioWorklet => lit "audioworklet"
  | DestDocument => lit "document"
  | DestEmbed => lit "embed"
  | DestEmpty => lit "empty"
  | DestFont => lit "font"
  | DestFrame => lit "frame"
  | DestIFrame => lit "iframe"
  | DestImage => lit "image"
  | DestJSON => lit "json"
  | DestManifest => lit "manifest"
  | DestObject => lit "object"
  | DestPaintWorklet => lit "paintworklet"
  | DestReport => lit "report"
  | DestScript => lit "script"
  | DestServiceWorker => lit "serviceworker"
  | DestSharedWorker => lit "sharedworker"
  | DestStyle => lit "style"
  | DestTrack => lit "track"
  | DestVideo => lit "video"
  | DestWebIdentity => lit "webidentity"
  | DestWorker => lit "worker"
  | DestXslt => lit "xslt"
  end.
Definition dest_parse (value : rstr) : option SecFetchDest :=
  keyword_match
    [(lit "audio", DestAudio); (lit "audioworklet", DestAudioWorklet); (lit "document", DestDocument);
     (lit "embed", DestEmbed); (lit "empty", DestEmpty); (lit "font", DestFont); (lit "frame", DestFrame);
     (lit "iframe", DestIFrame); (lit "image", DestImage); (lit "json", DestJSON);
     (lit "manifest", DestManifest); (lit "object", DestObject); (lit "paintworklet", DestPaintWorklet);
     (lit "report", DestReport); (lit "script", DestScript); (lit "serviceworker", DestServiceWorker);
     (lit "sharedworker", DestSharedWorker); (lit "style", DestStyle); (lit "track", DestTrack);
     (lit "video", DestVideo); (lit "webidentity", DestWebIdentity); (lit "worker", DestWorker);
     (lit "xslt", DestXslt)] (trim value).
Definition dest_is_navigation (self : SecFetchDest) : bool :=
  match self with DestDocument | DestFrame | DestIFrame => true | _ => false end.
Definition is_embed (self : SecFetchDest) : bool :=
  match self with DestEmbed | DestObject | DestFrame | DestIFrame => true | _ => false end.

Inductive SecFetchUser : Type := NotUserActivated | UserActivated.
Definition user_as_str (self : SecFetchUser) : rstr :=
  match self with NotUserActivated => lit "?0" | UserActivated => lit "?1" end.
Definition user_parse (value : rstr) : option SecFetchUser :=
  keyword_match [(lit "?1", UserActivated); (lit "?0", NotUserActivated)] (trim value).
Definition is_user_activated (self : SecFetchUser) : bool :=
  match self with UserActivated => true | NotUserActivated => false end.

Record SecFetchHeaders : Type := {
  sf_site : SecFetchSite; sf_mode : SecFetchMode; sf_dest : SecFetchDest; sf_user : SecFetchUser;
}.
Definition SecFetchHeaders_default : SecFetchHeaders :=
  {| sf_site := SiteNone; sf_mode := ModeNoCors; sf_dest := DestEmpty; sf_user := NotUserActivated |}.

(** The body of the loop: a value that does not parse leaves the field as it is. *)
Definition sec_fetch_header (out : SecFetchHeaders) (header : rstr * rstr) : SecFetchHeaders :=
  let '(name, value) := header in
  let name := to_ascii_lowercase name in
  if bool_decide (name = lit "sec-fetch-site") then
    {| sf_site := default (sf_site out) (site_parse value); sf_mode := sf_mode out; sf_dest := sf_dest out;
       sf_user := sf_user out |}
  else if bool_decide (name = lit "sec-fetch-mode") then
    {| sf_site := sf_site out; sf_mode := default (sf_mode out) (mode_parse value); sf_dest := sf_dest out;
       sf_user := sf_user out |}
  else if bool_decide (name = lit "sec-fetch-dest") then
    {| sf_site := sf_site out; sf_mode := sf_mode out; sf_dest := default (sf_dest out) (dest_parse value);
       sf_user := sf_user out |}
  else if bool_decide (name = lit "sec-fetch-user") then
    {| sf_site := sf_site out; sf_mode := sf_mode out; sf_dest := sf_dest out;
       sf_user := default (sf_user out) (user_parse value) |}
  else out.
Definition sec_fetch_parse (headers : list (rstr * rstr)) : SecFetchHeaders :=
  foldl sec_fetch_header SecFetchHeaders_default headers.

(** ** The site of a request *)

Definition scheme_tier (s : rstr) : N :=
  if bool_decide (s = lit "http") || bool_decide (s = lit "ws") then 1
  else if bool_decide (s = lit "https") || bool_decide (s = lit "wss") then 2 else 0.
Definition scheme_compatible_for_same_site (a b : rstr) : bool :=
  let ta := scheme_tier a in
  let tb := scheme_tier b in
  if (ta =? 0)%N || (tb =? 0)%N then bool_decide (a = b) else true.

Definition is_same_origin (a b : Origin) : bool :=
  bool_decide (o_scheme a = o_scheme b) && bool_decide (o_host a = o_host b) && bool_decide (o_port a = o_port b).

Section site.
Context `{Platform}.

Definition is_same_site (a b : Origin) : bool :=
  if negb (scheme_compatible_for_same_site (o_scheme a) (o_scheme b)) then false
  else same_registrable_domain (o_host a) (o_host b).
Definition classify_site (embedder : option Origin) (target : Origin) : SecFetchSite :=
  match embedder with
  | None => SiteNone
  | Some embedder =>
      if o_opaque embedder || o_opaque target then SiteCrossSite
      else if is_same_origin embedder target then SiteSameOrigin
      else if is_same_site embedder target then SiteSameSite
      else SiteCrossSite
  end.
End site.

(** ** [nosniff.rs] *)

Definition is_nosniff (header_value : rstr) : bool := eq_ignore_ascii_case (trim header_value) (lit "nosniff").

Definition javascript_mime_types : list rstr :=
  [lit "application/ecmascript"; lit "application/javascript"; lit "application/x-ecmascript";
   lit "application/x-javascript"; lit "text/ecmascript"; lit "text/javascript"; lit "text/javascript1.0";
   lit "text/javascript1.1"; lit "text/javascript1.2"; lit "text/javascript1.3"; lit "text/javascript1.4";
   lit "text/javascript1.5"; lit "text/jscript"; lit "text/livescript"; lit "text/x-ecmascript";
   lit "text/x-javascript"].
Definition is_javascript_mime (mime : rstr) : bool :=
  bool_decide (to_ascii_lowercase (trim mime) ∈ javascript_mime_types).

Inductive Destination : Type := ScriptDest | StyleDest | OtherDest.
Definition from_fetch_destination (token : rstr) : Destination :=
  if bool_decide (token ∈ [lit "script"; lit "worker"; lit "sharedworker"; lit "serviceworker";
                           lit "audioworklet"; lit "paintworklet"]) then ScriptDest
  else if bool_decide (token = lit "style") then StyleDest else OtherDest.

Inductive NosniffOutcome : Type := NosniffAllow | BlockScript (mime : rstr) | BlockStyle (mime : rstr).
Definition enforce (nosniff_set : bool) (mime_essence : rstr) (dest : Destination) : NosniffOutcome :=
  if negb nosniff_set then NosniffAllow
  else match dest with
       | ScriptDest => if is_javascript_mime mime_essence then NosniffAllow else BlockScript mime_essence
       | StyleDest =>
           if eq_ignore_ascii_case (trim mime_essence) (lit "text/css") then NosniffAllow else BlockStyle mime_essence
       | OtherDest => NosniffAllow
       end.
