(* ===== verification/SecFetchFacts.v ===== *)
(** * Theorems about the cross-origin policies

    What the gate for responses without CORS admits, what the site of a request is, and that
    the request metadata reads back what it writes. *)

From Stdlib Require Import Lia ZArith.
From stdpp Require Import base decidable sets list strings.
From S2P Require Import Prelude.
From S2P Require Import RustStr.
From S2P Require Import Cookie.
From S2P Require Import WebStorage.
From S2P Require Import Csp.
From S2P Require Import EmbedderPolicy.

(** ** Origins *)

(** The same tuple origin; an opaque origin is not even the same as itself. *)
Definition same_tuple (a b : Origin) : Prop := o_opaque a = false ∧ a = b.

Lemma same_origin_tuple_true a b : same_origin_tuple a b = true ↔ same_tuple a b.
Proof.
  unfold same_origin_tuple, same_tuple. rewrite !andb_true_iff, !negb_true_iff, bool_decide_eq_true.
  split; [tauto|]. intros [Ho ->]. done.
Qed.
Lemma is_same_origin_true a b :
  o_opaque a = false → o_opaque b = false → is_same_origin a b = true ↔ a = b.
Proof.
  unfold is_same_origin. rewrite !andb_true_iff, !bool_decide_eq_true. destruct a, b; cbn. intros -> ->.
  split; [intros [[-> ->] ->]; done|]. intros [= -> -> ->]. done.
Qed.

Section sites.
Context `{Platform}.

(** The hosts have one registrable domain, up to ASCII case. *)
Definition share_domain (a b : rstr) : Prop :=
  ∃ d e, registrable_domain a = Some d ∧ registrable_domain b = Some e ∧ to_ascii_lowercase d = to_ascii_lowercase e.
Lemma same_registrable_domain_true a b : same_registrable_domain a b = true ↔ share_domain a b.
Proof.
  unfold same_registrable_domain, share_domain, eq_ignore_ascii_case.
  destruct (registrable_domain a) as [d|], (registrable_domain b) as [e|]; rewrite ?bool_decide_eq_true;
    split; try done; try naive_solver.
Qed.

Definition schemeful_site (a b : Origin) : Prop :=
  o_opaque a = false ∧ o_opaque b = false ∧ o_scheme a = o_scheme b ∧ (a = b ∨ share_domain (o_host a) (o_host b)).
Lemma corp_same_site_true a b : corp_same_site a b = true ↔ schemeful_site a b.
Proof.
  unfold corp_same_site, schemeful_site. destruct (o_opaque a), (o_opaque b); cbn; try naive_solver.
  destruct (decide (o_scheme a = o_scheme b)) as [Hs|Hs];
    [rewrite (bool_decide_true _ Hs)|rewrite (bool_decide_false _ Hs)]; cbn; [|naive_solver].
  destruct (decide (a = b)) as [He|He]; [rewrite (bool_decide_true _ He)|rewrite (bool_decide_false _ He)]; cbn.
  - naive_solver.
  - rewrite same_registrable_domain_true. naive_solver.
Qed.

(** ** The gate *)

(** The response's own policy admits the requesting origin. *)
Inductive opts_in (request resource : Origin) : option Corp → Prop :=
| opt_any : opts_in request resource (Some CorpCrossOrigin)
| opt_site : schemeful_site request resource → opts_in request resource (Some CorpSameSite)
| opt_origin : same_tuple request resource → opts_in request resource (Some CorpSameOrigin).

Lemma check_corp_opts request resource c :
  check_corp request resource c = CorpAllow ↔ opts_in request resource (Some c).
Proof.
  destruct c; cbn.
  - destruct (same_origin_tuple request resource) eqn:E; split; try done; intros Ho.
    + constructor. by apply same_origin_tuple_true.
    + inversion Ho as [| |Ht]. apply same_origin_tuple_true in Ht. congruence.
  - destruct (corp_same_site request resource) eqn:E; split; try done; intros Ho.
    + constructor. by apply corp_same_site_true.
    + inversion Ho as [|Ht|]. apply corp_same_site_true in Ht. congruence.
  - split; [intros _; constructor|done].
Qed.

(** The keyword of a policy header: what precedes the first semicolon, trimmed, in lower case. *)
Definition header_keyword (header : rstr) : rstr :=
  to_ascii_lowercase (trim (take_while (λ c, negb (bool_decide (c = 59%N))) header)).

Lemma take_while_all p s : Forall (λ c, p c = true) s → take_while p s = s.
Proof. induction 1 as [|c s Hc _ IH]; cbn; [done|]. by rewrite Hc, IH. Qed.
Lemma take_while_stop p a c s : Forall (λ c, p c = true) a → p c = false → take_while p (a ++ c :: s) = a.
Proof. intros Ha Hc. induction Ha as [|x a Hx _ IH]; cbn; [by rewrite Hc|]. by rewrite Hx, IH. Qed.
Lemma policy_token_keyword header : to_ascii_lowercase (trim (policy_token header).1) = header_keyword header.
Proof.
  unfold policy_token, header_keyword. destruct (split_once 59 header) as [[a b]|] eqn:E; cbn.
  - apply split_once_Some in E as [-> Ha]. rewrite take_while_stop; [done| |by rewrite bool_decide_true].
    apply Forall_forall. intros c Hc. rewrite bool_decide_false; [done|]. by intros ->.
  - rewrite take_while_all; [done|]. apply Forall_forall. intros c Hc. rewrite bool_decide_false; [done|].
    intros ->. apply list_elem_of_split in Hc as (x & y & Hxy).
    assert (∃ x y, header = x ++ 59%N :: y ∧ 59%N ∉ x) as (x' & y' & Hp).
    { clear E. subst header. induction x as [|u x IH]; cbn; [exists [], y; split; [done|apply not_elem_of_nil]|].
      destruct IH as (x' & y' & IH & Hn). destruct (decide (u = 59%N)) as [->|Hu].
      - exists [], (x ++ 59%N :: y). split; [done|apply not_elem_of_nil].
      - exists (u :: x'), y'. rewrite IH. split; [done|]. set_solver. }
    apply split_once_Some in Hp. congruence.
Qed.

(** ** Keywords *)

Lemma keyword_match_cons {A} k (a : A) table s :
  keyword_match ((k, a) :: table) s = if decide (k = s) then Some a else keyword_match table s.
Proof. unfold keyword_match. cbn. destruct (decide (k = s)); [done|]. by destruct (list_find _ table) as [[]|]. Qed.

(** With distinct keywords a match is a look-up. *)
Lemma keyword_match_Some {A} (table : list (rstr * A)) s a :
  NoDup table.*1 → keyword_match table s = Some a ↔ (s, a) ∈ table.
Proof.
  induction table as [|[k b] table IH]; intros Hnd; [split; [done|set_solver]|].
  apply NoDup_cons in Hnd as [Hk Hnd]. rewrite keyword_match_cons, elem_of_cons.
  destruct (decide (k = s)) as [->|Hne].
  - split; [intros [= ->]; by left|]. intros [[= ->]|Hin]; [done|].
    exfalso. apply Hk. apply list_elem_of_fmap. by exists (s, a).
  - rewrite IH by done. split; [by right|]. intros [[= -> _]|Hin]; done.
Qed.

Lemma NoDup_snd {A B} (l : list (A * B)) x y b : NoDup l.*2 → (x, b) ∈ l → (y, b) ∈ l → x = y.
Proof.
  induction l as [|[z c] l IH]; [set_solver|]. intros [Hn Hnd]%NoDup_cons.
  assert (∀ w, (w, c) ∈ l → False) as Hout by (intros w Hw; apply Hn, list_elem_of_fmap; by exists (w, c)).
  intros [[= -> ->]|Hx]%elem_of_cons [[= -> ]|Hy]%elem_of_cons; subst; try done; [by destruct (Hout y)|by destruct (Hout x)|by apply IH].
Qed.

(** A keyword with a meaning of its own, against a default for everything unknown. *)
Lemma keyword_default {A} (table : list (rstr * A)) d s k a :
  NoDup table.*1 → NoDup table.*2 → (k, a) ∈ table → a ≠ d → default d (keyword_match table s) = a ↔ s = k.
Proof.
  intros H1 H2 Hin Hd. split.
  - destruct (keyword_match table s) as [b|] eqn:E; cbn; [|by intros ->]. intros ->.
    apply keyword_match_Some in E; [|done]. by eapply NoDup_snd.
  - intros ->. apply keyword_match_Some in Hin; [|done]. by rewrite Hin.
Qed.

Ltac keyword_table := apply keyword_default; [compute_done|compute_done|apply (bool_decide_unpack _); by compute|done].
Lemma coop_same_origin header :
  (parse_coop header).1 = CoopSameOrigin ↔ header_keyword header = lit "same-origin".
Proof. rewrite <- policy_token_keyword. unfold parse_coop. destruct (policy_token header). keyword_table. Qed.
Lemma coep_require_corp header :
  (parse_coep header).1 = RequireCorp ↔ header_keyword header = lit "require-corp".
Proof. rewrite <- policy_token_keyword. unfold parse_coep. destruct (policy_token header). keyword_table. Qed.
Lemma coep_credentialless header :
  (parse_coep header).1 = Credentialless ↔ header_keyword header = lit "credentialless".
Proof. rewrite <- policy_token_keyword. unfold parse_coep. destruct (policy_token header). keyword_table. Qed.

Lemma opts_in_dec_cases request resource corp :
  match corp with
  | Some c => match check_corp request resource c with CorpAllow => true | CorpBlock => false end
  | None => false
  end = true ↔ opts_in request resource corp.
Proof.
  destruct corp as [c|]; [|split; [done|inversion 1]]. rewrite <- check_corp_opts. by destruct (check_corp _ _ c).
Qed.

(** The three outcomes of the gate, and what a document says to be isolated. *)
Theorem embedder_gate_exact coop_header coep_header is_cors request resource corp :
  let coep := (parse_coep coep_header).1 in
  let exempt := is_cors = true ∨ same_tuple request resource in
  (coep_corp_gate coep is_cors request resource corp = GateAllow ↔
     exempt ∨ match coep with
              | CoepUnsafeNone => True
              | RequireCorp => opts_in request resource corp
              | Credentialless => False
              end) ∧
  (coep_corp_gate coep is_cors request resource corp = AllowWithoutCredentials ↔
     header_keyword coep_header = lit "credentialless" ∧ ¬ exempt) ∧
  (coep_corp_gate coep is_cors request resource corp = GateBlock ↔
     header_keyword coep_header = lit "require-corp" ∧ ¬ exempt ∧ ¬ opts_in request resource corp) ∧
  (is_cross_origin_isolated (parse_coop coop_header).1 coep = true ↔
     header_keyword coop_header = lit "same-origin" ∧
     header_keyword coep_header ∈ [lit "require-corp"; lit "credentialless"]).
Proof.
  intros coep exempt. rewrite <- coep_credentialless, <- coep_require_corp, <- coop_same_origin. fold coep.
  assert (header_keyword coep_header ∈ [lit "require-corp"; lit "credentialless"] ↔
          coep = RequireCorp ∨ coep = Credentialless) as ->.
  { subst coep. rewrite coep_require_corp, coep_credentialless. set_solver. }
  assert (exempt ↔ is_cors || same_origin_tuple request resource = true) as Hs
    by (unfold exempt; rewrite orb_true_iff, <- same_origin_tuple_true; done).
  pose proof (opts_in_dec_cases request resource corp) as Ho. clearbody exempt coep. revert Hs Ho.
  unfold coep_corp_gate, is_cross_origin_isolated, enables_cross_origin_isolation, isolates_opener.
  generalize (parse_coop coop_header).1, (opts_in request resource corp). intros coop opted.
  destruct (same_origin_tuple request resource), is_cors, coep, corp as [c|]; cbn; try destruct (check_corp request resource c);
    destruct coop; intros; split_and!; naive_solver.
Qed.

(** ** The site of a request *)

(** The code compares registrable domains and lets any two of http, https, ws and wss pass. *)
Definition lax_site (a b : Origin) : Prop :=
  share_domain (o_host a) (o_host b) ∧
  (o_scheme a = o_scheme b ∨
   o_scheme a ∈ [lit "http"; lit "ws"; lit "https"; lit "wss"] ∧ o_scheme b ∈ [lit "http"; lit "ws"; lit "https"; lit "wss"]).
Lemma scheme_tier_zero s : scheme_tier s = 0%N ↔ s ∉ [lit "http"; lit "ws"; lit "https"; lit "wss"].
Proof.
  unfold scheme_tier. repeat (case_bool_decide; subst; cbn); split; try done; try (intros _; set_solver); intros Hn; exfalso; apply Hn; set_solver.
Qed.
Lemma scheme_compatible_true a b :
  scheme_compatible_for_same_site a b = true ↔
  a = b ∨ a ∈ [lit "http"; lit "ws"; lit "https"; lit "wss"] ∧ b ∈ [lit "http"; lit "ws"; lit "https"; lit "wss"].
Proof.
  pose proof (scheme_tier_zero a) as Ha. pose proof (scheme_tier_zero b) as Hb. unfold scheme_compatible_for_same_site.
  destruct (N.eqb_spec (scheme_tier a) 0) as [Ea|Ea], (N.eqb_spec (scheme_tier b) 0) as [Eb|Eb]; cbn;
    rewrite ?bool_decide_eq_true; [tauto..|]. split; [|done]. intros _. right.
  split; [destruct (decide (a ∈ [lit "http"; lit "ws"; lit "https"; lit "wss"])); tauto|
          destruct (decide (b ∈ [lit "http"; lit "ws"; lit "https"; lit "wss"])); tauto].
Qed.
Lemma is_same_site_true a b : is_same_site a b = true ↔ lax_site a b.
Proof.
  unfold is_same_site, lax_site. pose proof (scheme_compatible_true (o_scheme a) (o_scheme b)) as Hc.
  destruct (scheme_compatible_for_same_site _ _); cbn; rewrite ?same_registrable_domain_true;
    [tauto|]. split; [done|]. intros [_ Hx]. by apply Hc.
Qed.

Lemma schemeful_lax a b : schemeful_site a b → o_opaque a = false ∧ o_opaque b = false ∧ (a = b ∨ lax_site a b).
Proof. intros (? & ? & ? & [?|?]); split_and!; try done; [by left|]. right. split; [done|by left]. Qed.

Lemma classify_Some o target :
  classify_site (Some o) target ≠ SiteNone ∧
  (classify_site (Some o) target = SiteSameOrigin ↔ same_tuple o target) ∧
  (classify_site (Some o) target = SiteSameSite ↔
     o_opaque o = false ∧ o_opaque target = false ∧ o ≠ target ∧ lax_site o target).
Proof.
  cbn. pose proof (is_same_site_true o target) as Hss. pose proof (is_same_origin_true o target) as Hso. unfold same_tuple.
  destruct (o_opaque o) eqn:Eo; cbn; [split_and!; naive_solver|].
  destruct (o_opaque target) eqn:Et; cbn; [split; [done|]; split; split; try done; intros [? Hx]; congruence || naive_solver|].
  specialize (Hso eq_refl eq_refl). destruct (is_same_origin o target); [split_and!; naive_solver|].
  destruct (is_same_site o target); split_and!; naive_solver.
Qed.

(** The site of a request, and how it relates to the policy of resources: without an opt-in
    for other sites a resource is admitted for requests of its own site only. *)
Theorem request_site_exact embedder target :
  (classify_site embedder target = SiteNone ↔ embedder = None) ∧
  (classify_site embedder target = SiteSameOrigin ↔ ∃ o, embedder = Some o ∧ same_tuple o target) ∧
  (classify_site embedder target = SiteSameSite ↔
     ∃ o, embedder = Some o ∧ o_opaque o = false ∧ o_opaque target = false ∧ o ≠ target ∧ lax_site o target) ∧
  (∀ o, embedder = Some o → check_corp o target CorpSameSite = CorpAllow →
     classify_site embedder target = SiteSameOrigin ∨ classify_site embedder target = SiteSameSite) ∧
  (∀ o, embedder = Some o →
     check_corp o target CorpSameOrigin = CorpAllow ↔ classify_site embedder target = SiteSameOrigin).
Proof.
  destruct embedder as [o|]; [|cbn; split_and!; naive_solver].
  destruct (classify_Some o target) as (Hn & Ho & Hs). split_and!.
  - split; done.
  - rewrite Ho. naive_solver.
  - rewrite Hs. naive_solver.
  - intros ? [= <-] Hc. rewrite Ho, Hs. apply check_corp_opts in Hc. inversion Hc as [|Hsite|]; subst.
    apply schemeful_lax in Hsite as (E1 & E2 & Hl). unfold same_tuple. destruct (decide (o = target)) as [|Hne]; [by left|].
    right. split_and!; try done. by destruct Hl.
  - intros ? [= <-]. rewrite Ho, check_corp_opts. split; [by inversion 1|by constructor].
Qed.

(** ** Reading back the metadata *)

(** The value of a field: the last one of that name that parses. *)
Definition last_valid {A} (parse : rstr → option A) (name : rstr) (headers : list (rstr * rstr)) : option A :=
  last (omap (λ h, if bool_decide (to_ascii_lowercase h.1 = name) then parse h.2 else None) headers).
Lemma last_valid_app {A} (parse : rstr → option A) name hs h :
  last_valid parse name (hs ++ [h]) =
    match (if bool_decide (to_ascii_lowercase h.1 = name) then parse h.2 else None) with
    | Some x => Some x
    | None => last_valid parse name hs
    end.
Proof.
  unfold last_valid. rewrite omap_app. cbn. destruct (if bool_decide _ then _ else _); cbn; [by rewrite last_snoc|by rewrite app_nil_r].
Qed.
End sites.

(** The headers of a request are read field by field: the last valid value of a name, whatever
    its case, and the default where there is none. *)
Theorem sec_fetch_parse_exact headers :
  sec_fetch_parse headers =
    {| sf_site := default SiteNone (last_valid site_parse (lit "sec-fetch-site") headers);
       sf_mode := default ModeNoCors (last_valid mode_parse (lit "sec-fetch-mode") headers);
       sf_dest := default DestEmpty (last_valid dest_parse (lit "sec-fetch-dest") headers);
       sf_user := default NotUserActivated (last_valid user_parse (lit "sec-fetch-user") headers) |}.
Proof.
  unfold sec_fetch_parse. induction headers as [|[n v] headers IH] using rev_ind; [done|].
  rewrite foldl_app, IH. cbn [foldl]. clear IH. unfold sec_fetch_header. rewrite !last_valid_app. cbn [fst snd sf_site sf_mode sf_dest sf_user].
  generalize (to_ascii_lowercase n). intros m. repeat (case_bool_decide; subst; try discriminate);
    repeat match goal with |- context [match ?p ?x with _ => _ end] => destruct (p x) end; done.
Qed.

(** Every keyword is read back, with any white space around it, and a value that parses is the
    keyword of what it means. *)
Theorem sec_fetch_round_trip value :
  (∀ x, site_parse value = Some x ↔ trim value = site_as_str x) ∧
  (∀ x, mode_parse value = Some x ↔ trim value = mode_as_str x) ∧
  (∀ x, dest_parse value = Some x ↔ trim value = dest_as_str x) ∧
  (∀ x, user_parse value = Some x ↔ trim value = user_as_str x).
Proof.
  unfold site_parse, mode_parse, dest_parse, user_parse. generalize (trim value). intros s.
  split_and!; intros x; (rewrite keyword_match_Some by compute_done); split.
  all: try (intros Hin; repeat (apply elem_of_cons in Hin as [[= -> ->]|Hin]; [reflexivity|]); by apply not_elem_of_nil in Hin).
  all: intros ->; destruct x; cbn [site_as_str mode_as_str dest_as_str user_as_str]; repeat (apply elem_of_cons; (by left) || right).
Qed.

(** ** Where the code and the standards part *)

Definition tuple (scheme host : rstr) (port : N) : Origin :=
  {| o_scheme := scheme; o_host := host; o_port := Some port; o_opaque := false |}.

(** A page on http and one on https count as one site for the request header, although the
    sites of the Fetch standard have a scheme; the resource policy keeps them apart. *)
Example schemes_share_a_site `{Platform} host d :
  registrable_domain host = Some d →
  let http := tuple (lit "http") host 80 in
  let https := tuple (lit "https") host 443 in
  classify_site (Some https) http = SiteSameSite ∧ check_corp https http CorpSameSite = CorpBlock.
Proof.
  intros Hd. split; [|done]. apply classify_Some. split_and!; [done..|].
  split; [exists d, d; done|right; split; set_solver].
Qed.

(** Two ports of an address are different sites for the code; the standard compares hosts
    where there is no registrable domain. *)
Example ports_of_an_address_differ `{Platform} host a :
  Host_parse host = Some (Ipv4 a) →
  classify_site (Some (tuple (lit "http") host 3000)) (tuple (lit "http") host 3001) = SiteCrossSite.
Proof.
  intros Ha. unfold classify_site, is_same_origin, is_same_site, same_registrable_domain, registrable_domain, tuple.
  cbn [o_host]. rewrite Ha. cbn. by rewrite andb_false_r.
Qed.

(** Under [credentialless] a resource that refuses other origins is let in. *)
Example credentialless_ignores_refusal `{Platform} :
  let page := tuple (lit "https") (lit "a.example") 443 in
  let resource := tuple (lit "https") (lit "b.example") 443 in
  check_corp page resource CorpSameOrigin = CorpBlock ∧
  coep_corp_gate Credentialless false page resource (Some CorpSameOrigin) = AllowWithoutCredentials.
Proof. done. Qed.
