(* ===== verification/PermissionPolicy.v ===== *)
(** * What a document may do

    [crates/vixen-net/src/]: [sandboxing.rs] (the flags of the [sandbox] attribute),
    [permissions_policy.rs] (the allowlists of features in the header and in the [allow]
    attribute), [trusted_types.rs] and [strict_transport_security.rs].  Definitions only.

    The [url] crate is the class [UrlPlatform].  [str::to_lowercase], which knows Unicode, is
    the argument [to_lowercase].  The [BTreeMap] of features is only looked up and is a finite
    map. *)

From Stdlib Require Import Lia ZArith.
From stdpp Require Import base decidable gmap sets list strings.
From S2P Require Import Prelude.
From S2P Require Import RustStr.
From S2P Require Import Cookie.
From S2P Require Import WebStorage.
From S2P Require Import NetUrl.
From S2P Require Import HttpCache.
From S2P Require Import Csp.
From S2P Require Import Mime.
From S2P Require Import ClassList.

(** [str::split_ascii_whitespace] and [str::split_once] with a predicate *)
Definition split_ascii_whitespace (s : rstr) : list rstr := filter (λ t, t ≠ []) (split_by is_ascii_space s).
Fixpoint split_once_by (p : rchar → bool) (s : rstr) : option (rstr * rstr) :=
  match s with
  | [] => None
  | c :: s => if p c then Some ([], s) else match split_once_by p s with Some (a, b) => Some (c :: a, b) | None => None end
  end.

(** ** [sandboxing.rs]: a set of flags is a 32-bit integer *)

Definition ALLOW_FORMS : N := N.shiftl 1 0.
Definition ALLOW_MODALS : N := N.shiftl 1 1.
Definition ALLOW_ORIENTATION_LOCK : N := N.shiftl 1 2.
Definition ALLOW_POINTER_LOCK : N := N.shiftl 1 3.
Definition ALLOW_POPUPS : N := N.shiftl 1 4.
Definition ALLOW_POPUPS_TO_ESCAPE_SANDBOX : N := N.shiftl 1 5.
Definition ALLOW_PRESENTATION : N := N.shiftl 1 6.
Definition ALLOW_SAME_ORIGIN : N := N.shiftl 1 7.
Definition ALLOW_SCRIPTS : N := N.shiftl 1 8.
Definition ALLOW_TOP_NAVIGATION : N := N.shiftl 1 9.
Definition ALLOW_TOP_NAVIGATION_BY_USER_ACTIVATION : N := N.shiftl 1 10.
Definition ALLOW_TOP_NAVIGATION_TO_CUSTOM_PROTOCOLS : N := N.shiftl 1 11.
Definition ALLOW_DOWNLOADS : N := N.shiftl 1 12.
Definition ALLOW_STORAGE_ACCESS_BY_USER_ACTIVATION : N := N.shiftl 1 13.
Definition ALLOW_UNSAFE_DOWNLOADS : N := N.shiftl 1 14.

Definition SandboxFlags : Type := N.
Definition SandboxFlags_empty : SandboxFlags := 0%N.
Definition is_most_restrictive (self : SandboxFlags) : bool := (self =? 0)%N.
Definition flags_union (self other : SandboxFlags) : SandboxFlags := N.lor self other.
Definition flags_intersection (self other : SandboxFlags) : SandboxFlags := N.land self other.
Definition flags_intersects (self other : SandboxFlags) : bool := negb (N.land self other =? 0)%N.
Definition allows_flag (flag : N) (self : SandboxFlags) : bool := negb (N.land self flag =? 0)%N.
Definition implies_unique_origin (self : SandboxFlags) : bool := negb (allows_flag ALLOW_SAME_ORIGIN self).
Definition is_dangerous_scripts_plus_same_origin (self : SandboxFlags) : bool :=
  allows_flag ALLOW_SCRIPTS self && allows_flag ALLOW_SAME_ORIGIN self.
Definition allows_any_top_navigation (self : SandboxFlags) : bool :=
  allows_flag ALLOW_TOP_NAVIGATION self || allows_flag ALLOW_TOP_NAVIGATION_BY_USER_ACTIVATION self ||
  allows_flag ALLOW_TOP_NAVIGATION_TO_CUSTOM_PROTOCOLS self.

Definition SANDBOX_TABLE : list (rstr * SandboxFlags) :=
  [(lit "allow-forms", ALLOW_FORMS);
   (lit "allow-modals", ALLOW_MODALS);
   (lit "allow-orientation-lock", ALLOW_ORIENTATION_LOCK);
   (lit "allow-pointer-lock", ALLOW_POINTER_LOCK);
   (lit "allow-popups", ALLOW_POPUPS);
   (lit "allow-popups-to-escape-sandbox", ALLOW_POPUPS_TO_ESCAPE_SANDBOX);
   (lit "allow-presentation", ALLOW_PRESENTATION);
   (lit "allow-same-origin", ALLOW_SAME_ORIGIN);
   (lit "allow-scripts", ALLOW_SCRIPTS);
   (lit "allow-top-navigation", ALLOW_TOP_NAVIGATION);
   (lit "allow-top-navigation-by-user-activation", ALLOW_TOP_NAVIGATION_BY_USER_ACTIVATION);
   (lit "allow-top-navigation-to-custom-protocols", ALLOW_TOP_NAVIGATION_TO_CUSTOM_PROTOCOLS);
   (lit "allow-downloads", ALLOW_DOWNLOADS);
   (lit "allow-storage-access-by-user-activation", ALLOW_STORAGE_ACCESS_BY_USER_ACTIVATION);
   (lit "allow-unsafe-downloads", ALLOW_UNSAFE_DOWNLOADS)].
(** The inner loop: the flag of the first entry that is the token. *)
Fixpoint add_flag (table : list (rstr * SandboxFlags)) (flags : SandboxFlags) (token : rstr) : SandboxFlags :=
  match table with
  | [] => flags
  | (name, bit) :: table =>
      if eq_ignore_ascii_case name token then flags_union flags bit else add_flag table flags token
  end.
Definition parse_sandbox (attribute_value : rstr) : SandboxFlags :=
  foldl (add_flag SANDBOX_TABLE) SandboxFlags_empty (split_ascii_whitespace attribute_value).

(** ** [permissions_policy.rs] *)

Inductive Allowlist : Type := Everyone | Self_ | Src | Origins (list : list Origin) | AllowNone.

Definition origin_eq (a b : Origin) : bool :=
  if o_opaque a || o_opaque b then false
  else bool_decide (o_scheme a = o_scheme b) && bool_decide (o_host a = o_host b) && bool_decide (o_port a = o_port b).
Definition allowlist_allows (self : Allowlist) (embedder target : Origin) : bool :=
  match self with
  | Everyone => true
  | AllowNone => false
  | Self_ | Src => origin_eq embedder target
  | Origins list => origin_eq embedder target || existsb (λ o, origin_eq o target) list
  end.

Abbreviation PermissionsPolicy := (gmap rstr Allowlist).
Definition permissions_allows (self : PermissionsPolicy) (feature : rstr) (embedder target : Origin) : bool :=
  match self !! feature with
  | Some list => allowlist_allows list embedder target
  | None => origin_eq embedder target
  end.

(** 34 is the double quote, 39 the single quote, 40 and 41 the parentheses. *)
Fixpoint paren_loop (depth : Z) (s : rstr) : option Z :=
  match s with
  | [] => Some depth
  | c :: s =>
      if (c =? 40)%N then paren_loop (depth + 1) s
      else if (c =? 41)%N then
        let depth := (depth - 1)%Z in
        if (depth =? 0)%Z && negb (bool_decide (s = [])) then None else paren_loop depth s
      else paren_loop depth s
  end.
Definition strip_parens (s : rstr) : option rstr :=
  let s := trim s in
  if negb (starts_with_char 40 s) || negb (ends_with_char 41 s) then None
  else match paren_loop 0 s with
       | None => None
       | Some depth => if negb (depth =? 0)%Z then None else Some (removelast (drop 1 s))
       end.

(** The state of [split_top_level]: the pieces, the depth, whether in quotes, and the piece
    that is being read. *)
Record SplitState : Type := { ss_out : list rstr; ss_depth : N; ss_quote : bool; ss_current : rstr }.
Definition split_step (sep : rchar) (st : SplitState) (c : rchar) : SplitState :=
  let '{| ss_out := out; ss_depth := depth; ss_quote := in_quote; ss_current := current |} := st in
  if (c =? 34)%N && negb in_quote then
    {| ss_out := out; ss_depth := depth; ss_quote := true; ss_current := current ++ [c] |}
  else if (c =? 34)%N && in_quote then
    {| ss_out := out; ss_depth := depth; ss_quote := false; ss_current := current ++ [c] |}
  else if (c =? 40)%N && negb in_quote then
    {| ss_out := out; ss_depth := depth + 1; ss_quote := in_quote; ss_current := current ++ [c] |}
  else if (c =? 41)%N && negb in_quote && (0 <? depth)%N then
    {| ss_out := out; ss_depth := depth - 1; ss_quote := in_quote; ss_current := current ++ [c] |}
  else if (c =? sep)%N && (depth =? 0)%N && negb in_quote then
    {| ss_out := out ++ [current]; ss_depth := depth; ss_quote := in_quote; ss_current := [] |}
  else {| ss_out := out; ss_depth := depth; ss_quote := in_quote; ss_current := current ++ [c] |}.
Definition split_start : SplitState := {| ss_out := []; ss_depth := 0; ss_quote := false; ss_current := [] |}.
Definition split_top_level (s : rstr) (sep : rchar) : list rstr :=
  let st := foldl (split_step sep) split_start s in
  if bool_decide (trim (ss_current st) = []) then ss_out st else ss_out st ++ [ss_current st].

Section permissions.
Context `{UrlPlatform}.

Definition parse_origin_token (s : rstr) : option Origin :=
  url ← url_parse s;
  let origin := Origin_from_url (wu_origin url) in
  if o_opaque origin then None else Some origin.

(** The loop of [parse_source_list] over the tokens: [origins], [has_self], [has_src]. *)
Definition source_step (st : list Origin * bool * bool) (token : rstr) : list Origin * bool * bool :=
  let '(origins, has_self, has_src) := st in
  let token := trim_matches (λ c, (c =? 34) || (c =? 39))%N token in
  if bool_decide (token = lit "self") then (origins, true, has_src)
  else if bool_decide (token = lit "src") then (origins, has_self, true)
  else match parse_origin_token token with
       | Some o => (origins ++ [o], has_self, has_src)
       | None => st
       end.
Definition parse_source_list (inner : rstr) : Allowlist :=
  let '(origins, has_self, has_src) := foldl source_step ([], false, false) (split_whitespace inner) in
  let no_origins := bool_decide (origins = []) in
  if has_self && negb has_src && no_origins then Self_
  else if negb has_self && has_src && no_origins then Src
  else if negb has_self && negb has_src && negb no_origins then Origins origins
  else if no_origins && (has_self || has_src) then (if has_self then Self_ else Src)
  else Origins origins.
Definition parse_rhs (rhs : rstr) : option Allowlist :=
  let r := trim rhs in
  if bool_decide (r = lit "*") then Some Everyone
  else if bool_decide (r = lit "()") then Some AllowNone
  else match strip_parens r with
       | Some inner => Some (parse_source_list inner)
       | None => Some (parse_source_list r)
       end.
(** The feature and the text of its list; 61 is the equals sign. *)
Definition item_parts (item : rstr) : rstr * rstr :=
  match split_once 61 item with
  | Some (f, r) => (trim f, trim r)
  | None =>
      match split_once_by is_whitespace item with
      | Some (f, rest) => (trim f, trim rest)
      | None => (item, [])
      end
  end.
Definition parse_policy_item (item : rstr) : option (rstr * Allowlist) :=
  let item := trim item in
  if bool_decide (item = []) then None
  else
    let '(feature, rhs) := item_parts item in
    if bool_decide (feature = []) then None
    else if existsb is_ascii_space feature then None
    else
      list ← (if bool_decide (rhs = []) then Some Everyone else parse_rhs rhs);
      Some (feature, list).

Definition set_item (policy : PermissionsPolicy) (item : rstr) : PermissionsPolicy :=
  match parse_policy_item item with Some (feature, list) => <[feature := list]> policy | None => policy end.
Definition parse_permissions_policy (header : rstr) : PermissionsPolicy :=
  foldl set_item ∅ (split_top_level header 44).
Definition parse_allow_attribute (attr : rstr) : PermissionsPolicy :=
  foldl set_item ∅ (split_top_level attr 59).
End permissions.

(** ** [trusted_types.rs] *)

Inductive TrustedTypeKind : Type := TrustedHtml | TrustedScript | TrustedScriptUrl.
Definition trusted_type_as_str (self : TrustedTypeKind) : rstr :=
  match self with
  | TrustedHtml => lit "html"
  | TrustedScript => lit "script"
  | TrustedScriptUrl => lit "script-url"
  end.
Inductive AllowedNames : Type := NoNames | Explicit (names : list rstr) | Wildcard.
Record TrustedTypesPolicyNames : Type := { allowed : AllowedNames; allow_duplicates : bool }.
Record NamesState : Type := { ns_names : list rstr; ns_duplicates : bool; ns_wildcard : bool; ns_none : bool }.
Definition names_step (st : NamesState) (tok : rstr) : NamesState :=
  let '{| ns_names := names; ns_duplicates := dup; ns_wildcard := wild; ns_none := none |} := st in
  if bool_decide (tok = lit "'none'") then {| ns_names := names; ns_duplicates := dup; ns_wildcard := wild; ns_none := true |}
  else if bool_decide (tok = lit "allow-duplicates") then
    {| ns_names := names; ns_duplicates := true; ns_wildcard := wild; ns_none := none |}
  else if bool_decide (tok = lit "*") then {| ns_names := names; ns_duplicates := dup; ns_wildcard := true; ns_none := none |}
  else {| ns_names := names ++ [tok]; ns_duplicates := dup; ns_wildcard := wild; ns_none := none |}.
Definition parse_trusted_types (value : rstr) : TrustedTypesPolicyNames :=
  let st := foldl names_step {| ns_names := []; ns_duplicates := false; ns_wildcard := false; ns_none := false |}
                  (split_ascii_whitespace value) in
  {| allowed := if ns_none st then NoNames else if ns_wildcard st then Wildcard
                else match ns_names st with [] => NoNames | names => Explicit names end;
     allow_duplicates := ns_duplicates st |}.
Definition parse_require_trusted_types_for (value : rstr) : bool :=
  existsb (λ tok, eq_ignore_ascii_case (trim_matches (λ c, (c =? 39)%N) tok) (lit "script")) (split_ascii_whitespace value).
Definition policy_creation_allowed (names : TrustedTypesPolicyNames) (name : rstr) (existing_count : N) : bool :=
  if bool_decide (name = []) then false
  else
    let name_ok := match allowed names with
                   | NoNames => false
                   | Wildcard => true
                   | Explicit list => existsb (λ n, bool_decide (n = name)) list
                   end in
    if negb name_ok then false
    else if (0 <? existing_count)%N && negb (allow_duplicates names) then false
    else true.
Inductive TrustedTypesOutcome : Type := TTAllow | TTBlock | ApplyDefaultPolicy.
Definition evaluate_sink (require_script has_default_policy value_is_trusted : bool) : TrustedTypesOutcome :=
  if value_is_trusted then TTAllow
  else if negb require_script then TTAllow
  else if has_default_policy then ApplyDefaultPolicy else TTBlock.

(** ** [strict_transport_security.rs] *)

Record HstsDirective : Type := { max_age_secs : N; include_sub_domains : bool; preload : bool }.
Definition hsts_is_zero (self : HstsDirective) : bool := (max_age_secs self =? 0)%N.
Record HstsState : Type := { hs_max_age : option N; hs_subdomains : bool; hs_preload : bool }.
Definition hsts_step (st : HstsState) (raw : rstr) : HstsState :=
  let token := trim raw in
  if bool_decide (token = []) then st
  else
    let '(name, value) := match split_once 61 token with
                          | Some (n, v) => (trim n, Some (trim v))
                          | None => (token, None)
                          end in
    let name := to_ascii_lowercase name in
    if bool_decide (name = lit "max-age") then
      match (v ← value; parse_u64 v) with
      | Some n => {| hs_max_age := Some n; hs_subdomains := hs_subdomains st; hs_preload := hs_preload st |}
      | None => st
      end
    else if bool_decide (name = lit "includesubdomains") then
      {| hs_max_age := hs_max_age st; hs_subdomains := true; hs_preload := hs_preload st |}
    else if bool_decide (name = lit "preload") then
      {| hs_max_age := hs_max_age st; hs_subdomains := hs_subdomains st; hs_preload := true |}
    else st.
Definition parse_strict_transport_security (header : rstr) : option HstsDirective :=
  let st := foldl hsts_step {| hs_max_age := None; hs_subdomains := false; hs_preload := false |} (split_char 59 header) in
  max_age ← hs_max_age st;
  Some {| max_age_secs := max_age; include_sub_domains := hs_subdomains st; preload := hs_preload st |}.

Record HstsEntry : Type := { he_host : rstr; he_sub_domains : bool }.
Section hsts.
Variable to_lowercase : rstr → rstr.
Definition from_directive (host : rstr) (d : HstsDirective) : HstsEntry :=
  {| he_host := to_lowercase host; he_sub_domains := include_sub_domains d |}.
Definition hsts_matches (self : HstsEntry) (candidate : rstr) : bool :=
  let candidate := to_lowercase candidate in
  if bool_decide (candidate = he_host self) then true
  else if he_sub_domains self then bool_decide (is_Some (strip_suffix (46%N :: he_host self) candidate))
  else false.
End hsts.
