(* ===== verification/PermissionPolicyFacts.v ===== *)
(** * Theorems about what a document may do

    Which flags a [sandbox] attribute sets, how the items of a permissions policy are told
    apart, whom the policy allows a feature, and which hosts an HSTS entry is for. *)

From Stdlib Require Import Lia ZArith.
From stdpp Require Import base decidable gmap sets list strings.
From S2P Require Import Prelude.
From S2P Require Import RustStr.
From S2P Require Import Cookie.
From S2P Require Import WebStorage.
From S2P Require Import NetUrl.
From S2P Require Import Csp.
From S2P Require Import Mime.
From S2P Require Import ClassList.
From S2P Require Import EmbedderPolicy.
From S2P Require Import SecFetchFacts.
From S2P Require Import PermissionPolicy.

(** ** The flags of a sandbox *)

Lemma allows_flag_bit i flags : allows_flag (N.shiftl 1 i) flags = N.testbit flags i.
Proof.
  unfold allows_flag. destruct (N.testbit flags i) eqn:E.
  - destruct (N.eqb_spec (N.land flags (N.shiftl 1 i)) 0) as [H0|]; [|done]. exfalso.
    assert (N.testbit (N.land flags (N.shiftl 1 i)) i = true) as Ht.
    { rewrite N.land_spec, E, N.shiftl_spec_high' by lia. by rewrite N.sub_diag. }
    rewrite H0, N.bits_0 in Ht. done.
  - replace (N.land flags (N.shiftl 1 i)) with 0%N; [done|]. apply N.bits_inj. intros j.
    rewrite N.bits_0, N.land_spec, N.shiftl_1_l, N.pow2_bits_eqb. destruct (N.eqb_spec i j) as [->|]; [by rewrite E|by rewrite andb_false_r].
Qed.

Lemma SANDBOX_TABLE_lower : Forall (λ e, to_ascii_lowercase e.1 = e.1) SANDBOX_TABLE.
Proof. repeat (apply Forall_cons; split; [reflexivity|]). apply Forall_nil. done. Qed.
Lemma SANDBOX_TABLE_bits : Forall (λ e, ∃ i, e.2 = N.shiftl 1 i) SANDBOX_TABLE.
Proof. repeat (apply Forall_cons; split; [eexists; reflexivity|]). apply Forall_nil. done. Qed.
Lemma SANDBOX_TABLE_names : NoDup SANDBOX_TABLE.*1.
Proof. compute_done. Qed.
Lemma SANDBOX_TABLE_distinct : NoDup SANDBOX_TABLE.*2.
Proof. compute_done. Qed.

Lemma add_flag_lookup table flags token :
  Forall (λ e, to_ascii_lowercase e.1 = e.1) table →
  add_flag table flags token =
    match keyword_match table (to_ascii_lowercase token) with Some bit => N.lor flags bit | None => flags end.
Proof.
  induction 1 as [|[name bit] table Hl _ IH]; [done|]. cbn [add_flag]. rewrite keyword_match_cons, IH.
  cbn [fst] in Hl. unfold eq_ignore_ascii_case. rewrite Hl.
  destruct (decide (name = to_ascii_lowercase token)) as [E|E]; [by rewrite (bool_decide_true _ E)|by rewrite (bool_decide_false _ E)].
Qed.

Lemma sandbox_testbit tokens flags i :
  N.testbit (foldl (add_flag SANDBOX_TABLE) flags tokens) i = true ↔
  N.testbit flags i = true ∨ ∃ t bit, t ∈ tokens ∧ (to_ascii_lowercase t, bit) ∈ SANDBOX_TABLE ∧ N.testbit bit i = true.
Proof.
  revert flags. induction tokens as [|t tokens IH]; intros flags; cbn [foldl].
  { split; [by left|]. intros [|(? & ? & ?%elem_of_nil & _)]; done. }
  rewrite IH, add_flag_lookup by apply SANDBOX_TABLE_lower.
  setoid_rewrite (elem_of_cons tokens). pose proof (λ bit, keyword_match_Some SANDBOX_TABLE (to_ascii_lowercase t) bit SANDBOX_TABLE_names) as Hk.
  destruct (keyword_match SANDBOX_TABLE (to_ascii_lowercase t)) as [bit|].
  - rewrite N.lor_spec, orb_true_iff. pose proof (proj1 (Hk bit) eq_refl) as Hin. split.
    + intros [[?|?]|(t' & b & ? & ? & ?)]; [by left|right; exists t, bit; split_and!; auto|right; exists t', b; split_and!; auto].
    + intros [?|(t' & b & [->|?] & Hb & ?)]; [by left; left| |by right; exists t', b].
      left. right. apply Hk in Hb. congruence.
  - split; [intros [?|(t' & b & ? & ? & ?)]; [by left|right; exists t', b; split_and!; auto]|].
    intros [?|(t' & b & [->|?] & Hb & ?)]; [by left|by apply Hk in Hb|by right; exists t', b].
Qed.

(** A flag is set exactly when its keyword is one of the words of the attribute, in any case,
    order and number; the attribute without a keyword is the most restrictive sandbox. *)
Theorem sandbox_flags_exact value :
  (∀ name bit, (name, bit) ∈ SANDBOX_TABLE →
     allows_flag bit (parse_sandbox value) = true ↔
     ∃ token, token ∈ split_ascii_whitespace value ∧ to_ascii_lowercase token = name) ∧
  (is_most_restrictive (parse_sandbox value) = true ↔
     ∀ token, token ∈ split_ascii_whitespace value → to_ascii_lowercase token ∉ SANDBOX_TABLE.*1) ∧
  (is_dangerous_scripts_plus_same_origin (parse_sandbox value) = true ↔
     ∃ t u, t ∈ split_ascii_whitespace value ∧ u ∈ split_ascii_whitespace value ∧
            to_ascii_lowercase t = lit "allow-scripts" ∧ to_ascii_lowercase u = lit "allow-same-origin").
Proof.
  assert (∀ name bit, (name, bit) ∈ SANDBOX_TABLE → allows_flag bit (parse_sandbox value) = true ↔
            ∃ token, token ∈ split_ascii_whitespace value ∧ to_ascii_lowercase token = name) as Hflag.
  { intros name bit Hin. destruct (proj1 (Forall_forall _ _) SANDBOX_TABLE_bits _ Hin) as [i Hi]. cbn in Hi. subst bit.
    rewrite allows_flag_bit. unfold parse_sandbox. rewrite sandbox_testbit, N.bits_0. split.
    - intros [|(t & b & Ht & Hb & Hti)]; [done|]. exists t. split; [done|].
      destruct (proj1 (Forall_forall _ _) SANDBOX_TABLE_bits _ Hb) as [j Hj]. cbn in Hj. subst b.
      rewrite N.shiftl_1_l, N.pow2_bits_eqb in Hti. apply N.eqb_eq in Hti. subst j.
      by eapply NoDup_snd; [apply SANDBOX_TABLE_distinct|..].
    - intros (t & Ht & <-). right. exists t, (N.shiftl 1 i). split_and!; [done..|]. by rewrite N.shiftl_1_l, N.pow2_bits_true. }
  split; [done|]. split.
  - unfold is_most_restrictive. rewrite N.eqb_eq. split.
    + intros H0 t Ht ((name & bit) & Heq & Hin)%list_elem_of_fmap. cbn in Heq.
      assert (allows_flag bit (parse_sandbox value) = true) as Ha by (apply (Hflag name); [done|]; by exists t).
      rewrite H0 in Ha. done.
    + intros Hn. apply N.bits_inj_0. intros i. apply not_true_iff_false. unfold parse_sandbox. rewrite sandbox_testbit, N.bits_0.
      intros [|(t & b & Ht & Hb & _)]; [done|]. apply (Hn t Ht), list_elem_of_fmap. by exists (to_ascii_lowercase t, b).
  - unfold is_dangerous_scripts_plus_same_origin. rewrite andb_true_iff.
    rewrite (Hflag (lit "allow-scripts")), (Hflag (lit "allow-same-origin")) by (unfold SANDBOX_TABLE; repeat (apply elem_of_cons; (by left) || right)).
    naive_solver.
Qed.

(** ** Items of a policy *)

(** How deep in parentheses, and whether in quotes, a text ends. *)
Definition nest_step (st : N * bool) (c : rchar) : N * bool :=
  let '(depth, quoted) := st in
  if (c =? 34)%N then (depth, negb quoted)
  else if quoted then (depth, quoted)
  else if (c =? 40)%N then (depth + 1, quoted)%N
  else if (c =? 41)%N && (0 <? depth)%N then (depth - 1, quoted)%N
  else (depth, quoted).
Definition nesting (s : rstr) : N * bool := foldl nest_step (0%N, false) s.
(** No separator of the text is at its top level. *)
Definition no_top_level (sep : rchar) (s : rstr) : Prop := ∀ a b, s = a ++ sep :: b → nesting a ≠ (0%N, false).

Lemma nesting_snoc s c : nesting (s ++ [c]) = nest_step (nesting s) c.
Proof. unfold nesting. by rewrite foldl_app. Qed.
Lemma no_top_level_snoc sep s c :
  no_top_level sep s → (c = sep → nesting s ≠ (0%N, false)) → no_top_level sep (s ++ [c]).
Proof.
  intros Hs Hc a b Heq. destruct b as [|d b _] using rev_ind.
  - apply app_inj_tail in Heq as [-> ->]. by apply Hc.
  - rewrite app_comm_cons, app_assoc in Heq. apply app_inj_tail in Heq as [-> _]. by apply (Hs a b).
Qed.
Lemma join_snoc sep l x : l ≠ [] → join sep (l ++ [x]) = join sep l ++ sep ++ x.
Proof.
  induction l as [|y l IH]; [done|]. intros _. destruct l as [|z l]; [done|].
  cbn [app] in *. change (join sep (y :: z :: l ++ [x])) with (y ++ sep ++ join sep (z :: l ++ [x])).
  rewrite IH by done. change (join sep (y :: z :: l)) with (y ++ sep ++ join sep (z :: l)). by rewrite <- !app_assoc.
Qed.

Lemma split_step_cases sep st c :
  sep ∉ [34; 40; 41]%N →
  split_step sep st c =
    let '(depth, quoted) := nest_step (ss_depth st, ss_quote st) c in
    if bool_decide (c = sep) && bool_decide ((ss_depth st, ss_quote st) = (0%N, false))
    then {| ss_out := ss_out st ++ [ss_current st]; ss_depth := depth; ss_quote := quoted; ss_current := [] |}
    else {| ss_out := ss_out st; ss_depth := depth; ss_quote := quoted; ss_current := ss_current st ++ [c] |}.
Proof.
  intros Hsep. assert (sep ≠ 34 ∧ sep ≠ 40 ∧ sep ≠ 41)%N as (H1 & H2 & H3) by set_solver.
  destruct st as [out depth quote current]. unfold split_step, nest_step. cbn [ss_out ss_depth ss_quote ss_current].
  destruct (N.eqb_spec c 34) as [->|Hc1]; [destruct quote; cbn; rewrite (bool_decide_false (34%N = sep)) by done; done|].
  destruct (N.eqb_spec c 40) as [->|Hc2]; [rewrite (proj2 (N.eqb_neq 40 sep)) by done; destruct quote; cbn; rewrite (bool_decide_false (40%N = sep)) by done; done|].
  destruct (N.eqb_spec c 41) as [->|Hc3].
  - rewrite (proj2 (N.eqb_neq 41 sep)) by done.
    destruct quote, (0 <? depth)%N; cbn; rewrite (bool_decide_false (41%N = sep)) by done; done.
  - cbn. destruct (N.eqb_spec c sep) as [Heq|Hne]; [rewrite (bool_decide_true _ Heq)|rewrite (bool_decide_false _ Hne)]; cbn.
    + destruct quote; cbn.
      * rewrite andb_false_r. by rewrite bool_decide_false.
      * destruct (N.eqb_spec depth 0) as [->|Hd]; cbn; [by rewrite bool_decide_true|]. rewrite bool_decide_false; [done|congruence].
    + by destruct quote.
Qed.

Definition split_inv (sep : rchar) (s : rstr) (st : SplitState) : Prop :=
  s = join [sep] (ss_out st ++ [ss_current st]) ∧
  (ss_depth st, ss_quote st) = nesting (ss_current st) ∧
  no_top_level sep (ss_current st) ∧
  Forall (λ p, no_top_level sep p ∧ nesting p = (0%N, false)) (ss_out st).
Lemma split_inv_holds sep s : sep ∉ [34; 40; 41]%N → split_inv sep s (foldl (split_step sep) split_start s).
Proof.
  intros Hsep. induction s as [|c s IH] using rev_ind.
  { unfold split_inv. cbn. split_and!; try done. intros a b Hab. by destruct a. }
  rewrite foldl_app. cbn [foldl]. revert IH. generalize (foldl (split_step sep) split_start s). intros st (Hs & Hn & Hcur & Hout).
  rewrite split_step_cases by done. rewrite Hn, <- nesting_snoc. destruct (nesting (ss_current st ++ [c])) as [d q] eqn:En.
  destruct (bool_decide (c = sep)) eqn:Ec; [apply bool_decide_eq_true in Ec as ->|apply bool_decide_eq_false in Ec]; cbn [andb].
  - destruct (decide (nesting (ss_current st) = (0%N, false))) as [E0|E0];
      [rewrite (bool_decide_true _ E0)|rewrite (bool_decide_false _ E0)]; unfold split_inv; cbn.
    + rewrite nesting_snoc, E0 in En. unfold nest_step in En.
      assert (sep ≠ 34 ∧ sep ≠ 40 ∧ sep ≠ 41)%N as (H1 & H2 & H3) by set_solver.
      rewrite (proj2 (N.eqb_neq sep 34)), (proj2 (N.eqb_neq sep 40)), (proj2 (N.eqb_neq sep 41)) in En by done. cbn in En.
      injection En as <- <-. split_and!.
      * rewrite join_snoc by (by destruct (ss_out st)). rewrite <- Hs. by rewrite app_nil_r.
      * done.
      * intros a b Hab. by destruct a.
      * apply Forall_app. split; [done|]. by apply Forall_singleton.
    + split_and!; try done.
      * rewrite Hs. destruct (ss_out st) as [|p out] eqn:Eo; [done|]. rewrite <- Eo. rewrite !join_snoc by (by rewrite Eo). by rewrite <- !app_assoc.
      * by apply no_top_level_snoc.
  - unfold split_inv. cbn. split_and!; try done.
    + rewrite Hs. destruct (ss_out st) as [|p out] eqn:Eo; [done|]. rewrite <- Eo. rewrite !join_snoc by (by rewrite Eo). by rewrite <- !app_assoc.
    + by apply no_top_level_snoc.
Qed.

(** ** Whom a policy allows *)

Lemma origin_eq_true a b : origin_eq a b = true ↔ same_tuple a b.
Proof.
  unfold origin_eq, same_tuple. destruct a as [s h p oa], b as [s' h' p' ob]; cbn.
  destruct oa, ob; cbn; try (split; [done|]; intros [? ?]; congruence).
  rewrite !andb_true_iff, !bool_decide_eq_true. split; [intros [[-> ->] ->]; done|]. intros [_ [= -> -> ->]]. done.
Qed.

(** Whom an allowlist is for, when the document of [embedder] states it. *)
Inductive granted (embedder target : Origin) : Allowlist → Prop :=
| granted_everyone : granted embedder target Everyone
| granted_self : same_tuple embedder target → granted embedder target Self_
| granted_src : same_tuple embedder target → granted embedder target Src
| granted_embedder os : same_tuple embedder target → granted embedder target (Origins os)
| granted_listed os o : o ∈ os → same_tuple o target → granted embedder target (Origins os).
Lemma allowlist_allows_granted l e t : allowlist_allows l e t = true ↔ granted e t l.
Proof.
  destruct l as [| | |os|]; cbn; rewrite ?origin_eq_true.
  - split; [constructor|done].
  - split; [by constructor|by inversion 1].
  - split; [by constructor|by inversion 1].
  - rewrite orb_true_iff, origin_eq_true, existsb_exists. setoid_rewrite origin_eq_true. setoid_rewrite <- list_elem_of_In. split.
    + intros [?|(o & ? & ?)]; [by constructor|by eapply granted_listed].
    + inversion 1; [by left|right; eauto].
  - split; [done|inversion 1].
Qed.

Section declared.
Context `{UrlPlatform}.

(** The list of a feature: that of the last item that names it. *)
Definition declares (f : rstr) (item : rstr) : option Allowlist :=
  match parse_policy_item item with Some (g, l) => if decide (g = f) then Some l else None | None => None end.
Definition last_declared (f : rstr) (items : list rstr) : option Allowlist := last (omap (declares f) items).

Lemma set_items_lookup f items : foldl set_item ∅ items !! f = last_declared f items.
Proof.
  unfold last_declared. induction items as [|item items IH] using rev_ind; [apply lookup_empty|].
  rewrite foldl_app, omap_app. cbn. unfold set_item at 1, declares at 2. destruct (parse_policy_item item) as [[g l]|]; cbn.
  - destruct (decide (g = f)) as [->|Hne]; cbn.
    + by rewrite lookup_insert_eq, last_snoc.
    + by rewrite lookup_insert_ne, app_nil_r.
  - by rewrite app_nil_r.
Qed.

(** The text of a policy is cut at exactly its separators outside quotes and parentheses. *)
Definition items_of (sep : rchar) (text : rstr) (items : list rstr) : Prop :=
  Forall (no_top_level sep) items ∧
  ∃ closed rest, Forall (λ p, nesting p = (0%N, false)) closed ∧ text = join [sep] (closed ++ [rest]) ∧
    items = closed ++ (if bool_decide (trim rest = []) then [] else [rest]).
Lemma split_items sep text : sep ∉ [34; 40; 41]%N → items_of sep text (split_top_level text sep).
Proof.
  intros Hsep. destruct (split_inv_holds sep text Hsep) as (Ht & Hn & Hcur & Hout). unfold split_top_level.
  revert Ht Hn Hcur Hout. generalize (foldl (split_step sep) split_start text). intros st Ht Hn Hcur Hout.
  split.
  - case_bool_decide; [|apply Forall_app; split; [|by apply Forall_singleton]]; eapply Forall_impl; eauto; by intros ? [].
  - exists (ss_out st), (ss_current st). split_and!; [eapply Forall_impl; eauto; by intros ? []|done|].
    case_bool_decide; [by rewrite app_nil_r|done].
Qed.

Lemma permissions_allows_exact items f e t :
  permissions_allows (foldl set_item ∅ items) f e t = true ↔
  match last_declared f items with Some l => granted e t l | None => same_tuple e t end.
Proof.
  unfold permissions_allows. rewrite set_items_lookup.
  destruct (last_declared f items); [apply allowlist_allows_granted|apply origin_eq_true].
Qed.
End declared.

(** A feature is allowed to the origins of the list of the last item that names it and, where
    no item does, to the document's own origin; an opaque origin gets only what everyone gets.
    The header is cut at commas, the attribute at semicolons. *)
Theorem permissions_policy_exact `{UrlPlatform} header attr f e t :
  let items := split_top_level header 44 in
  let attr_items := split_top_level attr 59 in
  items_of 44 header items ∧ items_of 59 attr attr_items ∧
  (permissions_allows (parse_permissions_policy header) f e t = true ↔
     match last_declared f items with Some l => granted e t l | None => same_tuple e t end) ∧
  (permissions_allows (parse_allow_attribute attr) f e t = true ↔
     match last_declared f attr_items with Some l => granted e t l | None => same_tuple e t end) ∧
  (o_opaque t = true → permissions_allows (parse_permissions_policy header) f e t = true →
     last_declared f items = Some Everyone).
Proof.
  intros items attr_items. split; [apply split_items; set_solver|]. split; [apply split_items; set_solver|].
  split; [apply permissions_allows_exact|]. split; [apply permissions_allows_exact|].
  intros Ho Ha. apply permissions_allows_exact in Ha. fold items in Ha.
  assert (∀ o, ¬ same_tuple o t) as Hno by (intros o [? ->]; congruence).
  destruct (last_declared f items) as [l|]; [|by apply Hno in Ha].
  inversion Ha; subst; try done; by edestruct Hno.
Qed.

(** ** HSTS *)

(** The name and the value of a directive. *)
Definition hsts_directive (raw : rstr) : rstr * option rstr :=
  let token := trim raw in
  match split_once 61 token with
  | Some (n, v) => (to_ascii_lowercase (trim n), Some (trim v))
  | None => (to_ascii_lowercase token, None)
  end.
Definition valid_max_age (raw : rstr) : option N :=
  if bool_decide ((hsts_directive raw).1 = lit "max-age") then v ← (hsts_directive raw).2; HttpCache.parse_u64 v else None.

Lemma hsts_step_fields st raw :
  hsts_step st raw =
    {| hs_max_age := match valid_max_age raw with Some n => Some n | None => hs_max_age st end;
       hs_subdomains := hs_subdomains st || bool_decide ((hsts_directive raw).1 = lit "includesubdomains");
       hs_preload := hs_preload st || bool_decide ((hsts_directive raw).1 = lit "preload") |}.
Proof.
  unfold hsts_step, valid_max_age, hsts_directive. destruct st as [m sub pre]. cbn [hs_max_age hs_subdomains hs_preload].
  destruct (bool_decide (trim raw = [])) eqn:E.
  { apply bool_decide_eq_true in E. rewrite E. cbn. by rewrite !orb_false_r. }
  destruct (split_once 61 (trim raw)) as [[n v]|]; cbn [fst snd];
    [generalize (to_ascii_lowercase (trim n))|generalize (to_ascii_lowercase (trim raw))]; intros name.
  all: destruct (decide (name = lit "max-age")) as [->|H1];
    [|rewrite (bool_decide_false _ H1); destruct (decide (name = lit "includesubdomains")) as [->|H2];
      [|rewrite (bool_decide_false _ H2); destruct (decide (name = lit "preload")) as [->|H3]; [|rewrite (bool_decide_false _ H3)]]].
  all: cbn; rewrite ?orb_false_r, ?orb_true_r; try done.
  destruct (HttpCache.parse_u64 (trim v)); done.
Qed.

(** The header counts when some directive is a valid [max-age], the last of which holds; an
    entry is for its host and, where it says so, for every name below it, and for no other. *)
Theorem hsts_exact (to_lowercase : rstr → rstr) header host candidate :
  let directives := split_char 59 header in
  (∀ d, parse_strict_transport_security header = Some d ↔
     last (omap valid_max_age directives) = Some (max_age_secs d) ∧
     (include_sub_domains d = true ↔ ∃ raw, raw ∈ directives ∧ (hsts_directive raw).1 = lit "includesubdomains") ∧
     (preload d = true ↔ ∃ raw, raw ∈ directives ∧ (hsts_directive raw).1 = lit "preload")) ∧
  (∀ d, hsts_matches to_lowercase (from_directive to_lowercase host d) candidate = true ↔
     to_lowercase candidate = to_lowercase host ∨
     include_sub_domains d = true ∧ ∃ sub, to_lowercase candidate = sub ++ 46%N :: to_lowercase host).
Proof.
  intros directives. split; intros d.
  - unfold parse_strict_transport_security. fold directives.
    assert (∀ st, let st' := foldl hsts_step st directives in
              hs_max_age st' = match last (omap valid_max_age directives) with Some n => Some n | None => hs_max_age st end ∧
              (hs_subdomains st' = true ↔ hs_subdomains st = true ∨ ∃ raw, raw ∈ directives ∧ (hsts_directive raw).1 = lit "includesubdomains") ∧
              (hs_preload st' = true ↔ hs_preload st = true ∨ ∃ raw, raw ∈ directives ∧ (hsts_directive raw).1 = lit "preload")) as Hall.
    { induction directives as [|raw l IH] using rev_ind; intros st; cbn zeta.
      - cbn. split_and!; [done|..]; (split; [by left|intros [?|(? & ?%elem_of_nil & _)]; done]).
      - specialize (IH st) as (Hm & Hs & Hp). rewrite foldl_app. cbn [foldl]. rewrite hsts_step_fields. cbn [hs_max_age hs_subdomains hs_preload].
        rewrite Hm, !orb_true_iff, Hs, Hp, !bool_decide_eq_true, omap_app. setoid_rewrite elem_of_app. setoid_rewrite list_elem_of_singleton.
        split_and!; [|naive_solver..]. cbn. destruct (valid_max_age raw); cbn; [by rewrite last_snoc|by rewrite app_nil_r]. }
    specialize (Hall {| hs_max_age := None; hs_subdomains := false; hs_preload := false |}). cbn zeta in Hall.
    revert Hall. generalize (foldl hsts_step {| hs_max_age := None; hs_subdomains := false; hs_preload := false |} directives).
    intros [m sub pre] (Hm & Hs & Hp). cbn in Hm, Hs, Hp. cbn. destruct d as [age isub ipre]. cbn.
    rewrite Hm. destruct (last _) as [n|]; cbn; [|split; [done|by intros [? _]]].
    assert (∀ b c : bool, b = c ↔ (b = true ↔ c = true)) as Hb by (intros [] []; naive_solver).
    split.
    + intros [= -> -> ->]. naive_solver.
    + intros ([= ->] & H1 & H2). do 2 f_equal; [apply Hb; naive_solver|apply Hb; naive_solver].
  - unfold hsts_matches, from_directive. cbn. case_bool_decide as E; [naive_solver|].
    destruct (include_sub_domains d); [|naive_solver]. rewrite bool_decide_eq_true. split.
    + intros [sub Hsub]. right. split; [done|]. exists sub. by apply strip_suffix_Some.
    + intros [?|[_ [sub Hsub]]]; [done|]. exists sub. by apply strip_suffix_Some.
Qed.

(** ** Where the code and the standards part *)

(** A platform that parses no URL. *)
Definition blank_urls : UrlPlatform :=
  {| url_parse _ := None; url_join _ _ := None; host_to_string _ := []; url_same_origin _ _ := false;
     url_origin_ascii _ := []; url_for_referrer _ := [] |}.
#[local] Existing Instance blank_urls.

(** A star in parentheses is everyone for the standard and nobody else here; [camera 'none'] and
    [camera=('none')] still allow the document itself; a feature without a list is allowed to
    everyone, where the attribute means the origin of the frame. *)
Example lists_are_misread :
  parse_permissions_policy (lit "camera=(*)") !! lit "camera" = Some (Origins []) ∧
  parse_allow_attribute (lit "camera 'none'") !! lit "camera" = Some (Origins []) ∧
  parse_allow_attribute (lit "camera") !! lit "camera" = Some Everyone ∧
  parse_permissions_policy (lit "camera") !! lit "camera" = Some Everyone.
Proof. vm_compute. done. Qed.
Example none_allows_self o :
  o_opaque o = false → permissions_allows (parse_allow_attribute (lit "camera 'none'")) (lit "camera") o o = true.
Proof.
  intros Ho. apply permissions_allows_exact. replace (last_declared _ _) with (Some (Origins [])) by (vm_compute; done).
  by constructor.
Qed.

(** The keyword of the standard has quotes; with them it names a policy here. *)
Example quoted_keyword_is_a_name :
  parse_trusted_types (lit "one 'allow-duplicates'") =
    {| allowed := Explicit [lit "one"; lit "'allow-duplicates'"]; allow_duplicates := false |}.
Proof. vm_compute. done. Qed.

(** RFC 6797 lets the value be a quoted string; the whole header is ignored then. *)
Example quoted_max_age_is_ignored :
  parse_strict_transport_security (lit "max-age=" ++ [34%N] ++ lit "31536000" ++ [34%N]) = None ∧
  parse_strict_transport_security (lit "max-age=31536000; includeSubDomains") =
    Some {| max_age_secs := 31536000; include_sub_domains := true; preload := false |}.
Proof. vm_compute. done. Qed.

Example sandbox_sample :
  parse_sandbox (lit "allow-scripts  Allow-Forms unknown") = N.lor ALLOW_SCRIPTS ALLOW_FORMS.
Proof. vm_compute. done. Qed.
