(* ===== verification/Forms.v ===== *)
(** * Forms

    From the form in the document to the body of the request, definitions only:
    [crates/vixen-engine/src/form_submission.rs] (the three encodings),
    [crates/vixen-engine/src/page/interaction.rs] (which controls of a form count, the
    submitter and what it overrides) and [crates/vixen-engine/src/forms.rs] (constraint
    validation, without the float flavour of the step).

    A node of the tree has an address, and [Rc::ptr_eq] compares addresses.  Bytes are numbers
    below 256. *)

From Stdlib Require Import Lia ZArith.
From stdpp Require Import base decidable sets list strings.
From S2P Require Import Prelude.
From S2P Require Import RustFloat.
From S2P Require Import RustStr.
From S2P Require Import RustUtf8.
From S2P Require Import UrlSearchParams.
From S2P Require Import Cookie.
From S2P Require Import HttpCache.
From S2P Require Import EmbedderPolicy.

(** ** [form_submission.rs] *)

Inductive FormEntryValue : Type :=
| FormText (s : rstr)
| FormFile (filename content_type : rstr) (body : list N).
Record FormEntry : Type := { fe_name : rstr; fe_value : FormEntryValue }.
Definition text_entry (name value : rstr) : FormEntry := {| fe_name := name; fe_value := FormText value |}.
Definition file_entry (name filename content_type : rstr) (body : list N) : FormEntry :=
  {| fe_name := name; fe_value := FormFile filename content_type body |}.
Definition textual_value (self : FormEntry) : rstr :=
  match fe_value self with FormText s => s | FormFile filename _ _ => filename end.

Inductive FormEnctype : Type := Urlencoded | MultipartFormData | TextPlain.
Definition mime_type (self : FormEnctype) : rstr :=
  match self with
  | Urlencoded => lit "application/x-www-form-urlencoded"
  | MultipartFormData => lit "multipart/form-data"
  | TextPlain => lit "text/plain"
  end.
Definition enctype_parse (s : rstr) : option FormEnctype :=
  keyword_match [(lit "application/x-www-form-urlencoded", Urlencoded); (lit "multipart/form-data", MultipartFormData);
                 (lit "text/plain", TextPlain)] (trim s).

(** The byte encoder of this file, a twin of the one of [URLSearchParams]; 37 is the percent
    sign, 43 the plus sign, 61 the equals sign, 38 the ampersand. *)
Definition form_hex_digit (n : N) : rchar := if (n <=? 9)%N then (48 + n)%N else (65 + (n - 10))%N.
Definition form_push_upper_hex (b : N) : rstr := [form_hex_digit (N.shiftr b 4); form_hex_digit (N.land b 15)].
Definition form_encode_byte (b : N) : rstr :=
  if (b =? 32)%N then [43%N]
  else if (b =? 42)%N || (b =? 45)%N || (b =? 46)%N || (b =? 95)%N then [b]
  else if ((48 <=? b) && (b <=? 57) || (65 <=? b) && (b <=? 90) || (97 <=? b) && (b <=? 122))%N then [b]
  else 37%N :: form_push_upper_hex b.
Definition form_urlencoded_byte_encode (input : rstr) : rstr := flat_map form_encode_byte (utf8 input).
Definition encode_pair (entry : FormEntry) : rstr :=
  form_urlencoded_byte_encode (fe_name entry) ++ [61%N] ++ form_urlencoded_byte_encode (textual_value entry).
Fixpoint encode_urlencoded_loop (first : bool) (entries : list FormEntry) : rstr :=
  match entries with
  | [] => []
  | entry :: entries => (if first then [] else [38%N]) ++ encode_pair entry ++ encode_urlencoded_loop false entries
  end.
Definition encode_urlencoded (entries : list FormEntry) : rstr := encode_urlencoded_loop true entries.
Definition CRLF : list N := [13; 10]%N.
Definition encode_text_plain (entries : list FormEntry) : rstr :=
  flat_map (λ entry, fe_name entry ++ [61%N] ++ textual_value entry ++ CRLF) entries.

(** 34 is the double quote, 92 the backslash. *)
Definition escape_quoted_byte (b : N) : list N :=
  if (b =? 34)%N || (b =? 92)%N then [92%N; b]
  else if (b =? 13)%N || (b =? 10)%N then [] else [b].
Definition append_escaped_quoted (s : rstr) : list N := flat_map escape_quoted_byte (utf8 s).

(** The body of the loop of [encode_multipart], and the closing delimiter. *)
Definition encode_part (boundary : rstr) (entry : FormEntry) : list N :=
  [45; 45]%N ++ utf8 boundary ++ CRLF ++
  utf8 (lit "Content-Disposition: form-data; name=") ++ [34%N] ++ append_escaped_quoted (fe_name entry) ++
  match fe_value entry with
  | FormText s => [34%N] ++ CRLF ++ CRLF ++ utf8 s
  | FormFile filename content_type body =>
      [34%N] ++ utf8 (lit "; filename=") ++ [34%N] ++ append_escaped_quoted filename ++ [34%N] ++
      CRLF ++ utf8 (lit "Content-Type: ") ++ utf8 content_type ++ CRLF ++ CRLF ++ body
  end ++ CRLF.
Definition encode_multipart (entries : list FormEntry) (boundary : rstr) : list N :=
  flat_map (encode_part boundary) entries ++ [45; 45]%N ++ utf8 boundary ++ [45; 45]%N ++ CRLF.
Definition multipart_content_type (boundary : rstr) : rstr := lit "multipart/form-data; boundary=" ++ boundary.

(** [format!("{n:016x}")] of a [u64]; the counter of boundaries is a static, incremented
    with wrap-around. *)
Definition lower_hex_digit (n : N) : rchar := if (n <=? 9)%N then (48 + n)%N else (97 + (n - 10))%N.
Fixpoint hex_digits (width : nat) (n : N) : rstr :=
  match width with O => [] | S width => hex_digits width (n / 16) ++ [lower_hex_digit (n mod 16)] end.
Definition boundary_suffix (counter : N) : rstr * N := (hex_digits 16 counter, ((counter + 1) mod 2 ^ 64)%N).
Definition generate_boundary (counter : N) : rstr * N :=
  let '(suffix, counter) := boundary_suffix counter in (lit "----vixenformboundary" ++ suffix, counter).

(** ** The tree of [markup5ever_rcdom]: an element has its local name and its attributes *)

Inductive NodeData : Type :=
| ElementData (local : rstr) (attrs : list (rstr * rstr))
| TextData (contents : rstr)
| OtherData.
Inductive Node : Type := MkNode (address : nat) (data : NodeData) (node_children : list Node).
Definition address (n : Node) : nat := let 'MkNode a _ _ := n in a.
Definition node_data (n : Node) : NodeData := let 'MkNode _ d _ := n in d.
Definition node_children (n : Node) : list Node := let 'MkNode _ _ c := n in c.
Definition ptr_eq (a b : Node) : bool := bool_decide (address a = address b).

Definition node_tag (node : Node) : option rstr :=
  match node_data node with ElementData local _ => Some local | _ => None end.
Definition node_attr (node : Node) (name : rstr) : option rstr :=
  match node_data node with
  | ElementData _ attrs => snd ∘ snd <$> list_find (λ a, a.1 = name) attrs
  | _ => None
  end.
Definition has_attr (node : Node) (name : rstr) : bool := bool_decide (is_Some (node_attr node name)).
Definition tag_is (node : Node) (tag : rstr) : bool := bool_decide (node_tag node = Some tag).

(** ** [interaction.rs] *)

(** Elements are numbered in document order from one; [current] is the running number, and the
    inner loop goes through the children. *)
Fixpoint find_element_by_node_id_inner (node_id : nat) (root : Node) (current : nat) {struct root} : option Node * nat :=
  let 'MkNode a data node_children := root in
  let in_children := fix in_children (nodes : list Node) (current : nat) : option Node * nat :=
    match nodes with
    | [] => (None, current)
    | child :: nodes =>
        match find_element_by_node_id_inner node_id child current with
        | (Some found, current) => (Some found, current)
        | (None, current) => in_children nodes current
        end
    end in
  match data with
  | ElementData _ _ =>
      let current := S current in
      if bool_decide (current = node_id) then (Some root, current) else in_children node_children current
  | _ => in_children node_children current
  end.
Definition find_element_by_node_id (root : Node) (node_id : nat) : option Node :=
  (find_element_by_node_id_inner node_id root 0).1.

Fixpoint node_contains (candidate root : Node) {struct root} : bool :=
  let 'MkNode a data node_children := root in
  if ptr_eq root candidate then true else existsb (node_contains candidate) node_children.

Fixpoint collect_text (node : Node) {struct node} : rstr :=
  let 'MkNode a data node_children := node in
  match data with TextData contents => contents | _ => [] end ++ flat_map collect_text node_children.
Definition node_text_content (node : Node) : rstr := collect_text node.

(** [f] has the state [s] of the closure. *)
Fixpoint collect_options {S} (f : S → Node → S) (node : Node) (s : S) {struct node} : S :=
  let 'MkNode a data node_children := node in
  let s := if tag_is node (lit "option") then f s node else s in
  foldl (λ s child, collect_options f child s) s node_children.
Definition option_value (option : Node) : rstr := default (node_text_content option) (node_attr option (lit "value")).
(** The closure: [first] and [selected]. *)
Definition see_option (st : option rstr * option rstr) (option : Node) : prod (Datatypes.option rstr) (Datatypes.option rstr) :=
  let '(first, selected) := st in
  let value := option_value option in
  (match first with None => Some value | _ => first end,
   match selected with None => if has_attr option (lit "selected") then Some value else None | _ => selected end).
Definition selected_option_value (select : Node) : rstr :=
  let '(first, selected) := collect_options see_option select (None, None) in
  default [] (match selected with Some _ => selected | None => first end).

Definition is_disableable_form_element (tag : rstr) : bool :=
  bool_decide (tag ∈ [lit "button"; lit "fieldset"; lit "input"; lit "optgroup"; lit "option"; lit "select"; lit "textarea"]).
Definition is_successful_submitter (node : Node) (submitter : option Node) : bool :=
  match submitter with Some submitter => ptr_eq node submitter | None => false end.
Definition attr_type (node : Node) (fallback : rstr) : rstr :=
  to_ascii_lowercase (default fallback (node_attr node (lit "type"))).
Definition is_submitter_control (node : Node) : bool :=
  if tag_is node (lit "button") then bool_decide (attr_type node (lit "submit") ∈ [[]; lit "submit"])
  else if tag_is node (lit "input") then bool_decide (attr_type node (lit "text") ∈ [lit "submit"; lit "image"])
  else false.

Definition attr_value (node : Node) : rstr := default [] (node_attr node (lit "value")).
Definition input_form_entry (node : Node) (name : rstr) (successful_submitter : bool) : option FormEntry :=
  let input_type := attr_type node (lit "text") in
  if bool_decide (input_type ∈ [lit "button"; lit "reset"]) then None
  else if bool_decide (input_type = lit "submit") then
    if successful_submitter then Some (text_entry name (attr_value node)) else None
  else if bool_decide (input_type = lit "image") then
    if successful_submitter then Some (text_entry (name ++ lit ".x") (lit "0")) else None
  else if bool_decide (input_type ∈ [lit "checkbox"; lit "radio"]) then
    if has_attr node (lit "checked") then Some (text_entry name (default (lit "on") (node_attr node (lit "value")))) else None
  else if bool_decide (input_type = lit "file") then
    Some (file_entry name (attr_value node) (lit "application/octet-stream") [])
  else Some (text_entry name (attr_value node)).
Definition button_form_entry (node : Node) (name : rstr) (successful_submitter : bool) : option FormEntry :=
  if negb successful_submitter then None
  else
    let button_type := attr_type node (lit "submit") in
    if bool_decide (button_type = lit "submit") || bool_decide (button_type = [])
    then Some (text_entry name (attr_value node)) else None.
Definition form_entry_for_control (node : Node) (tag : rstr) (successful_submitter : bool) : option FormEntry :=
  name ← node_attr node (lit "name");
  if bool_decide (name = []) then None
  else if bool_decide (tag = lit "input") then input_form_entry node name successful_submitter
  else if bool_decide (tag = lit "textarea") then Some (text_entry name (node_text_content node))
  else if bool_decide (tag = lit "select") then Some (text_entry name (selected_option_value node))
  else if bool_decide (tag = lit "button") then button_form_entry node name successful_submitter
  else None.

(** [disabled_here]: an ancestor is, or the node is a control with the attribute. *)
Definition is_disabled (node : Node) : bool :=
  match node_tag node with Some tag => is_disableable_form_element tag && has_attr node (lit "disabled") | None => false end.
Definition own_entry (submitter : option Node) (node : Node) : list FormEntry :=
  match node_tag node with
  | Some tag =>
      match form_entry_for_control node tag (is_successful_submitter node submitter) with Some e => [e] | None => [] end
  | None => []
  end.
Fixpoint collect_form_entries (submitter : option Node) (disabled_ancestor : bool) (node : Node) {struct node} : list FormEntry :=
  let 'MkNode a data node_children := node in
  let disabled_here := disabled_ancestor || is_disabled node in
  (if disabled_here then [] else own_entry submitter node) ++
  flat_map (collect_form_entries submitter disabled_here) node_children.
Definition form_entries (form : Node) (submitter : option Node) : list FormEntry :=
  collect_form_entries submitter false form.

Definition normalise_form_method (method : option rstr) : rstr :=
  let m := to_ascii_lowercase (trim (default (lit "get") method)) in
  if bool_decide (m = lit "post") then lit "post"
  else if bool_decide (m = lit "dialog") then lit "dialog" else lit "get".
Definition BOUNDARY : rstr := lit "----vixenformboundary0000000000000000".
Definition encode_form_entries (enctype : FormEnctype) (entries : list FormEntry) : rstr * list N :=
  match enctype with
  | Urlencoded => (mime_type Urlencoded, utf8 (encode_urlencoded entries))
  | TextPlain => (mime_type TextPlain, utf8 (encode_text_plain entries))
  | MultipartFormData => (multipart_content_type BOUNDARY, encode_multipart entries BOUNDARY)
  end.

(** What the page offers to the submission of its forms. *)
Class PageDocument : Type := {
  ElementInfo : Type;
  ei_id : ElementInfo → option rstr;
  ei_node_id : ElementInfo → nat;
  dom_document : Node;                                          (** [self.document.dom.document] *)
  element_by_node_id : nat → option ElementInfo;
  query_selector_all : rstr → result rstr (list ElementInfo);
  page_url : rstr;
  resolve_url : rstr → option rstr;
}.

(** The messages of the errors, as constructors. *)
Inductive FormError : Type :=
| FormSelectorFailed (e : rstr)
| NoFormWithId (form_id : rstr)
| NoFormNode (form_node_id : nat)
| NotAForm (form_node_id : nat)
| NoSubmitterNode (node_id : nat)
| NotASubmitButton (node_id : nat)
| NotOwnedByForm (node_id form_node_id : nat).

Section submission.
Context `{PageDocument}.

Record FormSubmissionSnapshot : Type := {
  fs_form : ElementInfo;
  fs_submitter : option ElementInfo;
  fs_action : rstr;
  fs_method : rstr;
  fs_enctype : rstr;
  fs_content_type : rstr;
  fs_entries : list FormEntry;
  fs_body : list N;
}.

(** [submitter_node_id.filter(|node_id| *node_id != 0)] *)
Definition given (submitter_node_id : option nat) : option nat :=
  match submitter_node_id with Some 0 => None | id => id end.
Definition find_submitter (submitter_node_id : option nat) : result FormError (option Node) :=
  match given submitter_node_id with
  | None => Ok None
  | Some node_id => n ← ok_or (find_element_by_node_id dom_document node_id) (NoSubmitterNode node_id); Ok (Some n)
  end.
Definition check_submitter (form_node : Node) (form_node_id : nat) (submitter_node_id : option nat)
    (submitter_node : option Node) : result FormError unit :=
  match submitter_node with
  | None => Ok tt
  | Some submitter =>
      throw_if (negb (is_submitter_control submitter)) (NotASubmitButton (default 0 submitter_node_id)) ;;
      throw_if (negb (node_contains submitter form_node)) (NotOwnedByForm (default 0 submitter_node_id) form_node_id)
  end.

Definition non_empty (s : option rstr) : option rstr := match s with Some [] => None | _ => s end.
Definition option_or {A} (a b : option A) : option A := match a with Some _ => a | None => b end.
(** An attribute of the submitter, where there is one. *)
Definition override (submitter : option Node) (name : rstr) : option rstr := s ← submitter; node_attr s name.
Definition raw_action (form_node : Node) (submitter : option Node) : rstr :=
  default page_url (non_empty (option_or (non_empty (override submitter (lit "formaction"))) (node_attr form_node (lit "action")))).
Definition submission_action (form_node : Node) (submitter : option Node) : rstr :=
  default (raw_action form_node submitter) (resolve_url (raw_action form_node submitter)).
Definition submission_method (form_node : Node) (submitter : option Node) : rstr :=
  normalise_form_method (option_or (override submitter (lit "formmethod")) (node_attr form_node (lit "method"))).
Definition submission_enctype (form_node : Node) (submitter : option Node) : FormEnctype :=
  default Urlencoded (e ← option_or (override submitter (lit "formenctype")) (node_attr form_node (lit "enctype")); enctype_parse e).

Definition form_submission_by_node_id (form_node_id : nat) (submitter_node_id : option nat) :
    result FormError FormSubmissionSnapshot :=
  form_node ← ok_or (find_element_by_node_id dom_document form_node_id) (NoFormNode form_node_id);
  throw_if (negb (tag_is form_node (lit "form"))) (NotAForm form_node_id) ;;
  form ← ok_or (element_by_node_id form_node_id) (NoFormNode form_node_id);
  submitter_node ← find_submitter submitter_node_id;
  check_submitter form_node form_node_id submitter_node_id submitter_node ;;
  let enctype := submission_enctype form_node submitter_node in
  let entries := form_entries form_node submitter_node in
  let '(content_type, body) := encode_form_entries enctype entries in
  Ok {| fs_form := form;
        fs_submitter := node_id ← given submitter_node_id; element_by_node_id node_id;
        fs_action := submission_action form_node submitter_node;
        fs_method := submission_method form_node submitter_node;
        fs_enctype := mime_type enctype;
        fs_content_type := content_type;
        fs_entries := entries;
        fs_body := body |}.

Definition form_submission (form_id : rstr) : result FormError FormSubmissionSnapshot :=
  forms ← map_err FormSelectorFailed (query_selector_all (lit "form"));
  form ← ok_or (snd <$> list_find (λ e, ei_id e = Some form_id) forms) (NoFormWithId form_id);
  form_submission_by_node_id (ei_node_id form) None.
End submission.

(** ** [forms.rs] *)

(** 64 is the at sign, 46 the full stop, 58 the colon, 47 the slash. *)
Definition email_is_valid (s : rstr) : bool :=
  if negb (length (filter (λ c, c = 64%N) s) =? 1)%nat then false
  else match split_once 64 s with
       | Some (local, domain) =>
           negb (bool_decide (local = [])) && contains_char 46 domain && negb (starts_with_char 46 domain) &&
           negb (ends_with_char 46 domain)
       | None => false
       end.
Definition is_ascii_alphabetic (c : rchar) : bool := ((65 <=? c) && (c <=? 90) || (97 <=? c) && (c <=? 122))%N.
Definition url_is_valid (s : rstr) : bool :=
  match split_once 58 s with
  | None => false
  | Some (scheme, rest) =>
      if bool_decide (scheme = []) || negb (forallb is_ascii_alphabetic scheme) then false
      else match rest with
           | a :: b :: rest =>
               (a =? 47)%N && (b =? 47)%N &&
               match split_char 47 rest with host :: _ => negb (bool_decide (host = [])) | [] => false end
           | _ => false
           end
  end.

Record Validity : Type := {
  value_missing : bool; type_mismatch : bool; pattern_mismatch : bool; too_long : bool; too_short : bool;
  range_underflow : bool; range_overflow : bool; v_step_mismatch : bool; bad_input : bool; custom_error : bool;
}.
Definition Validity_default : Validity :=
  {| value_missing := false; type_mismatch := false; pattern_mismatch := false; too_long := false; too_short := false;
     range_underflow := false; range_overflow := false; v_step_mismatch := false; bad_input := false; custom_error := false |}.
Definition validity_is_valid (self : Validity) : bool :=
  negb (value_missing self || type_mismatch self || pattern_mismatch self || too_long self || too_short self ||
        range_underflow self || range_overflow self || v_step_mismatch self || bad_input self || custom_error self).
Definition with_custom_error (msg : rstr) (self : Validity) : Validity :=
  if bool_decide (msg = []) then self
  else {| value_missing := value_missing self; type_mismatch := type_mismatch self;
          pattern_mismatch := pattern_mismatch self; too_long := too_long self; too_short := too_short self;
          range_underflow := range_underflow self; range_overflow := range_overflow self;
          v_step_mismatch := v_step_mismatch self; bad_input := bad_input self; custom_error := true |}.

Definition step_mismatch (step_base value step : Z) : bool :=
  if (step <=? 0)%Z then false
  else
    let r := (i64_saturating_sub value step_base mod step)%Z in
    negb (r =? 0)%Z && negb (r =? step)%Z.

Definition with_range (underflow overflow : bool) : Validity :=
  {| value_missing := false; type_mismatch := false; pattern_mismatch := false; too_long := false; too_short := false;
     range_underflow := underflow; range_overflow := overflow; v_step_mismatch := false; bad_input := false; custom_error := false |}.
Definition range_validity (value : f64) (min max : option f64) : Validity :=
  with_range (match min with Some m => f64_ltb value m | None => false end)
             (match max with Some m => f64_ltb m value | None => false end).
Definition with_length (short long : bool) : Validity :=
  {| value_missing := false; type_mismatch := false; pattern_mismatch := false; too_long := long; too_short := short;
     range_underflow := false; range_overflow := false; v_step_mismatch := false; bad_input := false; custom_error := false |}.
Definition length_validity (len : N) (min max : option N) : Validity :=
  with_length (match min with Some m => (len <? m)%N | None => false end)
              (match max with Some m => (m <? len)%N | None => false end).
