(* ===== verification/FormEncodingFacts.v ===== *)
(** * Theorems about the encodings of a form

    The urlencoded form is the query of [URLSearchParams]; a multipart body is read back by a
    parser of the format; what a value may hold for that. *)

From Stdlib Require Import Lia ZArith.
From stdpp Require Import base decidable sets list strings.
From S2P Require Import Prelude.
From S2P Require Import RustStr.
From S2P Require Import RustUtf8.
From S2P Require Import UrlSearchParams.
From S2P Require Import Csp.
From S2P Require Import Forms.
From S2P Require Import EmbedderPolicy.

(** ** Urlencoded *)

Definition entry_pair (e : FormEntry) : rstr * rstr := (fe_name e, textual_value e).
Definition entry_scalars (e : FormEntry) : Prop := scalars (fe_name e) ∧ scalars (textual_value e).

Lemma form_encode_byte_twin b : form_encode_byte b = urlencode_byte b.
Proof.
  unfold form_encode_byte, urlencode_byte, is_url_safe. change (form_push_upper_hex b) with (push_upper_hex b).
  destruct (b =? 32)%N; [done|]. rewrite <- !orb_assoc.
  destruct (b =? 42)%N; [done|]. destruct (b =? 45)%N; [done|]. destruct (b =? 46)%N; [done|]. by destruct (b =? 95)%N.
Qed.
Lemma form_encode_twin s : form_urlencoded_byte_encode s = urlencoded_byte_encode s.
Proof.
  unfold form_urlencoded_byte_encode, urlencoded_byte_encode. induction (utf8 s) as [|b l IH]; [done|]. cbn.
  by rewrite IH, form_encode_byte_twin.
Qed.
Lemma encode_urlencoded_serialize entries : encode_urlencoded entries = serialize (entry_pair <$> entries).
Proof.
  unfold encode_urlencoded, serialize. destruct entries as [|e entries]; [done|]. cbn. revert e.
  induction entries as [|e' entries IH]; intros e; unfold encode_pair at 1; rewrite !form_encode_twin.
  { by rewrite app_nil_r. }
  cbn. rewrite IH. cbn. by rewrite <- !app_assoc.
Qed.

(** ** Cutting at a delimiter *)

Lemma strip_prefix_app p s : strip_prefix p (p ++ s) = Some s.
Proof. unfold strip_prefix. rewrite bool_decide_true by (by exists s). by rewrite drop_app_length. Qed.
Lemma strip_prefix_None p s : ¬ p `prefix_of` s → strip_prefix p s = None.
Proof. intros. unfold strip_prefix. by rewrite bool_decide_false. Qed.

Lemma split_once_str_first sep a b :
  sep ≠ [] → (∀ x y, a = x ++ y → y ≠ [] → ¬ sep `prefix_of` (y ++ sep ++ b)) → split_once_str sep (a ++ sep ++ b) = Some (a, b).
Proof.
  intros Hsep. induction a as [|c a IH]; intros Ha; cbn [app].
  - destruct (sep ++ b) eqn:E; cbn; rewrite <- ?E; [by destruct sep|]. by rewrite strip_prefix_app.
  - cbn. rewrite strip_prefix_None by (apply (Ha [] (c :: a)); done).
    rewrite IH; [done|]. intros x y -> Hy. by apply (Ha (c :: x) y).
Qed.

(** A delimiter with a first byte of its own cannot begin inside a text and end beyond it. *)
Lemma prefix_no_overlap (c : N) t y b :
  c ∉ t → y ≠ [] → (c :: t) `prefix_of` (y ++ (c :: t) ++ b) → (c :: t) `prefix_of` y.
Proof.
  intros Hc Hy [k Hk]. destruct (decide (length (c :: t) ≤ length y)) as [Hle|Hlt].
  - exists (drop (length (c :: t)) y).
    assert (take (length (c :: t)) (y ++ (c :: t) ++ b) = c :: t) as Ht by (rewrite Hk; apply take_app_length).
    rewrite take_app_le in Ht by done. rewrite <- Ht at 1. by rewrite take_drop.
  - exfalso. destruct y as [|y0 y]; [done|]. cbn [app] in Hk. injection Hk as -> Hk. cbn in Hlt.
    (* the second copy's first byte falls on a byte of [t] *)
    assert (t !! length y = Some c) as Hin.
    { assert ((y ++ c :: t ++ b) !! length y = Some c) as Hl by by rewrite list_lookup_middle.
      rewrite Hk in Hl. rewrite lookup_app_l in Hl by lia. done. }
    apply Hc. by apply list_elem_of_lookup_2 in Hin.
Qed.
Definition occurs_in (sep a : list N) : Prop := ∃ x y, a = x ++ y ∧ sep `prefix_of` y.
Lemma split_once_str_delimiter c t a b :
  c ∉ t → ¬ occurs_in (c :: t) a → split_once_str (c :: t) (a ++ (c :: t) ++ b) = Some (a, b).
Proof.
  intros Hc Ha. apply split_once_str_first; [done|]. intros x y Hxy Hy Hp. apply Ha. exists x, y. split; [done|].
  by eapply prefix_no_overlap.
Qed.
(** A delimiter whose first byte is not in the text. *)
Lemma split_once_str_free c t a b : c ∉ a → split_once_str (c :: t) (a ++ (c :: t) ++ b) = Some (a, b).
Proof.
  intros Ha. apply split_once_str_first; [done|]. intros x y -> Hy [k Hk]. destruct y as [|z y]; [done|].
  injection Hk as -> _. apply Ha. set_solver.
Qed.

(** ** A reader of multipart bodies *)

Record Part : Type := { p_name : list N; p_file : option (list N * list N); p_body : list N }.

(** A quoted string up to its closing quote, the escapes undone. *)
Fixpoint unquote (bytes : list N) : option (list N * list N) :=
  match bytes with
  | [] => None
  | b :: rest =>
      if (b =? 34)%N then Some ([], rest)
      else if (b =? 92)%N then
        match rest with
        | c :: rest => match unquote rest with Some (s, r) => Some (c :: s, r) | None => None end
        | [] => None
        end
      else match unquote rest with Some (s, r) => Some (b :: s, r) | None => None end
  end.
Definition disposition : list N := utf8 (lit "Content-Disposition: form-data; name=") ++ [34%N].
Definition file_parameter : list N := utf8 (lit "; filename=") ++ [34%N].
Definition type_header : list N := CRLF ++ utf8 (lit "Content-Type: ").
Definition read_part (delimiter bytes : list N) : option (Part * list N) :=
  bytes ← strip_prefix (CRLF ++ disposition) bytes;
  '(name, bytes) ← unquote bytes;
  match strip_prefix file_parameter bytes with
  | Some bytes =>
      '(filename, bytes) ← unquote bytes;
      bytes ← strip_prefix type_header bytes;
      '(content_type, bytes) ← split_once_str (CRLF ++ CRLF) bytes;
      '(body, bytes) ← split_once_str delimiter bytes;
      Some ({| p_name := name; p_file := Some (filename, content_type); p_body := body |}, bytes)
  | None =>
      bytes ← strip_prefix (CRLF ++ CRLF) bytes;
      '(body, bytes) ← split_once_str delimiter bytes;
      Some ({| p_name := name; p_file := None; p_body := body |}, bytes)
  end.
Definition dashes : list N := [45; 45]%N.
Fixpoint read_parts (fuel : nat) (delimiter bytes : list N) : option (list Part) :=
  match fuel with
  | O => None
  | S fuel =>
      if bool_decide (bytes = dashes ++ CRLF) then Some []
      else '(part, bytes) ← read_part delimiter bytes; parts ← read_parts fuel delimiter bytes; Some (part :: parts)
  end.
Definition delimiter_of (boundary : rstr) : list N := CRLF ++ dashes ++ utf8 boundary.
Definition read_multipart (boundary : rstr) (bytes : list N) : option (list Part) :=
  rest ← strip_prefix (dashes ++ utf8 boundary) bytes;
  read_parts (S (length bytes)) (delimiter_of boundary) rest.

(** ** Reading what was written *)

Definition strip_newlines (bytes : list N) : list N := filter (λ b, b ≠ 13%N ∧ b ≠ 10%N) bytes.
Definition part_of (e : FormEntry) : Part :=
  {| p_name := strip_newlines (utf8 (fe_name e));
     p_file := match fe_value e with
               | FormText _ => None
               | FormFile filename content_type _ => Some (strip_newlines (utf8 filename), utf8 content_type)
               end;
     p_body := match fe_value e with FormText s => utf8 s | FormFile _ _ body => body end |}.
(** No part of an entry looks like a delimiter, and its type is one line. *)
Definition part_ok (boundary : rstr) (e : FormEntry) : Prop :=
  ¬ occurs_in (delimiter_of boundary) (p_body (part_of e)) ∧
  match fe_value e with FormText _ => True | FormFile _ content_type _ => 13%N ∉ utf8 content_type end.

Lemma unquote_escaped bytes rest : unquote (flat_map escape_quoted_byte bytes ++ 34%N :: rest) = Some (strip_newlines bytes, rest).
Proof.
  induction bytes as [|b bytes IH]; [done|]. cbn [flat_map]. unfold escape_quoted_byte at 1. unfold strip_newlines in *.
  rewrite filter_cons.
  destruct (N.eqb_spec b 34) as [->|H34]; cbn [orb app]; [cbn; by rewrite IH|].
  destruct (N.eqb_spec b 92) as [->|H92]; cbn [orb app]; [cbn; by rewrite IH|].
  destruct (N.eqb_spec b 13) as [->|H13]; cbn [orb app]; [exact IH|].
  destruct (N.eqb_spec b 10) as [->|H10]; cbn [orb app]; [exact IH|].
  cbn. apply N.eqb_neq in H34, H92. rewrite H34, H92, IH. apply N.eqb_neq in H34, H92. by rewrite decide_True.
Qed.

(** An entry between its delimiter line and the next delimiter. *)
Definition part_text (e : FormEntry) : list N :=
  CRLF ++ disposition ++ append_escaped_quoted (fe_name e) ++ 34%N ::
  match fe_value e with
  | FormText s => CRLF ++ CRLF ++ utf8 s
  | FormFile filename content_type body =>
      file_parameter ++ append_escaped_quoted filename ++ 34%N :: type_header ++ utf8 content_type ++ (CRLF ++ CRLF) ++ body
  end.
Fixpoint parts_text (boundary : rstr) (entries : list FormEntry) : list N :=
  match entries with
  | [] => dashes ++ CRLF
  | e :: entries => part_text e ++ delimiter_of boundary ++ parts_text boundary entries
  end.
Lemma encode_multipart_text entries boundary :
  encode_multipart entries boundary = (dashes ++ utf8 boundary) ++ parts_text boundary entries.
Proof.
  unfold encode_multipart. induction entries as [|e entries IH]; [by rewrite <- !app_assoc|].
  cbn [flat_map parts_text]. rewrite <- app_assoc, IH. unfold encode_part, part_text, delimiter_of, disposition, file_parameter, type_header, dashes.
  destruct (fe_value e); repeat first [rewrite <- app_assoc | progress cbn [app]]; reflexivity.
Qed.

Lemma strip_prefix_app2 p q s : strip_prefix (p ++ q) (p ++ q ++ s) = Some s.
Proof. rewrite app_assoc. apply strip_prefix_app. Qed.

Lemma read_part_text boundary e rest :
  13%N ∉ utf8 boundary → part_ok boundary e →
  read_part (delimiter_of boundary) (part_text e ++ delimiter_of boundary ++ rest) = Some (part_of e, rest).
Proof.
  intros Hb [Hbody Hct].
  assert (∀ body, ¬ occurs_in (delimiter_of boundary) body →
            split_once_str (delimiter_of boundary) (body ++ delimiter_of boundary ++ rest) = Some (body, rest)) as Hcut.
  { intros body Ho. change (delimiter_of boundary) with (13%N :: ([10; 45; 45]%N ++ utf8 boundary)) in *.
    apply split_once_str_delimiter; [set_solver|done]. }
  unfold read_part, part_text, part_of, append_escaped_quoted in *. cbn [p_body] in Hbody.
  rewrite <- !app_assoc, strip_prefix_app2. cbn [mbind option_bind app]. rewrite unquote_escaped; cbn [mbind option_bind].
  destruct (fe_value e) as [s|filename content_type body].
  - rewrite strip_prefix_None by (intros [k Hk]; discriminate Hk).
    rewrite <- !app_assoc, strip_prefix_app2. cbn [mbind option_bind]. by rewrite Hcut.
  - rewrite <- !app_assoc, strip_prefix_app. cbn [app mbind option_bind]. rewrite unquote_escaped; cbn [mbind option_bind].
    rewrite <- !app_assoc, strip_prefix_app. cbn [mbind option_bind]. rewrite (app_assoc CRLF CRLF).
    rewrite (split_once_str_free 13 [10; 13; 10]%N) by done. cbn [mbind option_bind]. by rewrite Hcut.
Qed.

Lemma read_parts_text fuel boundary entries :
  13%N ∉ utf8 boundary → Forall (part_ok boundary) entries → length entries < fuel →
  read_parts fuel (delimiter_of boundary) (parts_text boundary entries) = Some (part_of <$> entries).
Proof.
  intros Hb Hok. revert fuel. induction Hok as [|e entries He _ IH]; intros [|fuel] Hf; cbn in Hf; try lia; [done|].
  cbn [read_parts parts_text]. rewrite bool_decide_false by (intros H; discriminate H).
  rewrite read_part_text by done. cbn [mbind option_bind]. by rewrite IH by lia.
Qed.
Lemma parts_text_length boundary entries : length entries ≤ length (parts_text boundary entries).
Proof. induction entries as [|e entries IH]; cbn [parts_text length]; [lia|]. rewrite !length_app. unfold part_text. rewrite length_app. cbn [CRLF length]. lia. Qed.
Lemma read_encoded boundary entries :
  13%N ∉ utf8 boundary → Forall (part_ok boundary) entries →
  read_multipart boundary (encode_multipart entries boundary) = Some (part_of <$> entries).
Proof.
  intros Hb Hok. unfold read_multipart. rewrite encode_multipart_text, strip_prefix_app. cbn [mbind option_bind].
  apply read_parts_text; [done|done|]. rewrite length_app. pose proof (parts_text_length boundary entries). lia.
Qed.

Definition no_newline (c : rchar) : Prop := c ≠ 13%N ∧ c ≠ 10%N.
Lemma utf8_char_above c : (128 ≤ c)%N → Forall (λ b, (128 ≤ b)%N) (utf8_char c).
Proof.
  intros Hc. unfold utf8_char. rewrite (proj2 (N.ltb_ge c 128)) by done.
  repeat case_match; repeat (constructor; [etrans; [|apply N.le_add_r]; done|]); constructor.
Qed.
Lemma strip_newlines_utf8 s : strip_newlines (utf8 s) = utf8 (filter (λ c, c ≠ 13%N ∧ c ≠ 10%N) s).
Proof.
  unfold strip_newlines, utf8. induction s as [|c s IH]; [done|]. cbn [flat_map]. rewrite filter_app, IH, filter_cons.
  destruct (decide (c < 128)%N) as [Hc|Hc].
  - assert (utf8_char c = [c]) as -> by (unfold utf8_char; by rewrite (proj2 (N.ltb_lt c 128)) by done).
    rewrite filter_cons. destruct (decide _) as [Hn|Hn]; [|done]. cbn [flat_map].
    unfold utf8_char at 2. by rewrite (proj2 (N.ltb_lt c 128)) by done.
  - rewrite decide_True by lia. rewrite list_filter_all; [done|].
    eapply Forall_impl; [apply utf8_char_above; lia|]. cbn. lia.
Qed.

(** The urlencoded body is the query of the same pairs, and reads back as them.  A multipart
    body reads back as the parts of its entries, in order and with their bytes, as long as no
    part holds the delimiter; the names come back without their newlines. *)
Theorem form_encoding_round_trip boundary entries :
  Forall entry_scalars entries → 13%N ∉ utf8 boundary → Forall (part_ok boundary) entries →
  encode_urlencoded entries = serialize (entry_pair <$> entries) ∧
  parse (encode_urlencoded entries) = entry_pair <$> entries ∧
  read_multipart boundary (encode_multipart entries boundary) = Some (part_of <$> entries) ∧
  Forall (λ e, from_utf8 (p_name (part_of e)) = Some (filter no_newline (fe_name e))) entries.
Proof.
  intros Hs Hb Hok. split; [apply encode_urlencoded_serialize|]. split.
  - rewrite encode_urlencoded_serialize. apply parse_serialize. apply Forall_fmap. eapply Forall_impl; [exact Hs|].
    intros e [Hn Hv]. done.
  - split; [by apply read_encoded|]. eapply Forall_impl; [exact Hs|]. intros e [Hn _]. cbn [part_of p_name].
    rewrite strip_newlines_utf8. apply from_utf8_utf8. apply Forall_forall. intros c [_ Hc]%list_elem_of_filter.
    by eapply Forall_forall in Hn.
Qed.

Definition sample_entries : list FormEntry :=
  [text_entry (lit "a b") (lit "1 + 1 = 2"); file_entry (lit "f") (lit "x.bin") (lit "image/png") [0; 255; 13; 10]%N].
Lemma form_encoding_round_trip_witness :
  read_multipart (lit "xyz") (encode_multipart sample_entries (lit "xyz")) = Some (part_of <$> sample_entries).
Proof.
  refine (proj1 (proj2 (proj2 (form_encoding_round_trip (lit "xyz") sample_entries _ _ _)))).
  - repeat constructor.
  - vm_compute. set_solver.
  - assert (∀ c t a, forallb (λ b, negb (b =? c)%N) a = true → ¬ occurs_in (c :: t) a) as Hno.
    { intros c t a Ha (x & y & -> & [k ->]). rewrite forallb_app in Ha. apply andb_true_iff in Ha as [_ Ha]. cbn in Ha.
      by rewrite N.eqb_refl in Ha. }
    repeat constructor.
    + apply Hno. reflexivity.
    + intros (x & y & Hxy & [k Hk]). cbn in Hxy. assert (length y ≤ 4) as Hl by (apply (f_equal length) in Hxy; rewrite length_app in Hxy; cbn in Hxy; lia).
      rewrite Hk, length_app in Hl. vm_compute in Hl. lia.
    + vm_compute. set_solver.
Defined.

(** ** What the form of a page sends *)

(** The boundary of every form is the same and nobody looks for it in the values, so a value
    can end its part and forge another. *)
Example value_forges_a_part :
  let forged := [13; 10]%N ++ lit "--" ++ BOUNDARY ++ [13; 10]%N ++ lit "Content-Disposition: form-data; name=" ++
                [34%N] ++ lit "admin" ++ [34; 13; 10; 13; 10]%N ++ lit "yes" in
  encode_form_entries MultipartFormData [text_entry (lit "comment") (lit "hi" ++ forged)] =
  encode_form_entries MultipartFormData [text_entry (lit "comment") (lit "hi"); text_entry (lit "admin") (lit "yes")].
Proof. vm_compute. done. Qed.

(** The standard writes a newline in a name as an escape; dropped, two names become one. *)
Example newline_in_a_name_is_lost :
  encode_multipart [text_entry [97; 13; 10; 98]%N []] (lit "x") = encode_multipart [text_entry (lit "ab") []] (lit "x").
Proof. vm_compute. done. Qed.

(** ** Boundaries *)

Lemma lower_hex_digit_inj a b : (a < 16)%N → (b < 16)%N → lower_hex_digit a = lower_hex_digit b → a = b.
Proof. intros Ha Hb. unfold lower_hex_digit. destruct (N.leb_spec a 9), (N.leb_spec b 9); lia. Qed.
Lemma hex_digits_inj width a b :
  (a < 16 ^ N.of_nat width)%N → (b < 16 ^ N.of_nat width)%N → hex_digits width a = hex_digits width b → a = b.
Proof.
  revert a b. induction width as [|w IH]; intros a b Ha Hb; [cbn in *; lia|].
  rewrite Nat2N.inj_succ, N.pow_succ_r' in Ha, Hb. cbn [hex_digits]. intros [Hd Hl]%app_inj_tail.
  apply lower_hex_digit_inj in Hl; [|by apply N.mod_lt..].
  assert (∀ x, x < 16 * 16 ^ N.of_nat w → x / 16 < 16 ^ N.of_nat w)%N as Hdiv by (intros x Hx; apply N.Div0.div_lt_upper_bound; lia).
  apply IH in Hd; [|by apply Hdiv..].
  rewrite (N.div_mod a 16), (N.div_mod b 16) by done. by rewrite Hd, Hl.
Qed.
(** Two boundaries of one process differ until the counter has gone round. *)
Lemma boundaries_differ n m :
  (n < 2 ^ 64)%N → (m < 2 ^ 64)%N → (generate_boundary n).1 = (generate_boundary m).1 → n = m.
Proof.
  intros Hn Hm Heq. apply (hex_digits_inj 16); [done..|].
  apply (app_inv_head (lit "----vixenformboundary")). exact Heq.
Qed.

(** ** Steps *)

(** A value off the grid is a mismatch and a value on it is not, unless the distance to the
    base leaves the range of an [i64]: it saturates then, and the answer is about the end of
    the range. *)
Theorem step_mismatch_exact base value step :
  (step ≤ 0 → step_mismatch base value step = false)%Z ∧
  (0 < step → i64_min ≤ value - base ≤ i64_max →
     step_mismatch base value step = true ↔ ¬ ∃ k, value = base + k * step)%Z ∧
  (0 < step → i64_max < value - base → step_mismatch base value step = true ↔ ¬ (step | i64_max))%Z ∧
  (0 < step → value - base < i64_min → step_mismatch base value step = true ↔ ¬ (step | i64_min))%Z.
Proof.
  unfold step_mismatch, HttpCache.i64_saturating_sub.
  assert (∀ d, 0 < step → (negb (d mod step =? 0) && negb (d mod step =? step) = true ↔ ¬ (step | d)))%Z as Hd.
  { intros d Hs. pose proof (Z.mod_pos_bound d step Hs). rewrite andb_true_iff, !negb_true_iff, !Z.eqb_neq.
    rewrite <- Z.mod_divide by lia. lia. }
  split; [intros Hs; by rewrite (proj2 (Z.leb_le step 0))|].
  split_and!; intros Hs Hr; rewrite (proj2 (Z.leb_gt step 0)), Hd by done.
  - rewrite Z.min_l, Z.max_r by lia. split; intros Hn [k Hk]; apply Hn; exists k; lia.
  - rewrite Z.min_r, Z.max_r by (unfold i64_min, i64_max in *; lia). done.
  - rewrite Z.min_l, Z.max_l by (unfold i64_min, i64_max in *; lia). done.
Qed.

(** * Theorems about the forms of a page

    Which element a number stands for, which controls of a form count, and when a submission
    succeeds and with what. *)

(** ** The tree in document order *)

Lemma Node_nested_ind (P : Node → Prop) :
  (∀ a d cs, Forall P cs → P (MkNode a d cs)) → ∀ n, P n.
Proof.
  intros HP. fix IH 1. intros [a d cs]. apply HP. induction cs as [|c cs IHcs]; constructor; [apply IH|exact IHcs].
Qed.

Fixpoint preorder (n : Node) : list Node :=
  let 'MkNode a d cs := n in n :: flat_map preorder cs.
Definition has_element_data (n : Node) : bool := match node_data n with ElementData _ _ => true | _ => false end.
Definition elements (l : list Node) : list Node := filter (λ n, has_element_data n = true) l.

(** The outcome of a search for the [id]-th element, when the number is at [current] and the
    elements ahead are [es]. *)
Definition found_among (id current : nat) (es : list Node) : option Node * nat :=
  if decide (current < id ≤ current + length es) then (es !! (id - current - 1), id)
  else (None, current + length es).
Lemma found_among_app id current es es' :
  found_among id current (es ++ es') =
    match found_among id current es with
    | (Some n, c) => (Some n, c)
    | (None, c) => found_among id c es'
    end.
Proof.
  unfold found_among. rewrite length_app.
  destruct (decide (current < id ≤ current + length es)) as [H1|H1].
  - destruct (lookup_lt_is_Some_2 es (id - current - 1)) as [n Hn]; [lia|]. rewrite Hn.
    rewrite decide_True by lia. by rewrite (lookup_app_l_Some _ _ _ _ Hn).
  - destruct (decide (current + length es < id ≤ current + length es + length es')) as [H2|H2].
    + rewrite decide_True by lia. rewrite lookup_app_r by lia. do 2 f_equal. lia.
    + rewrite decide_False by lia. f_equal. lia.
Qed.

Lemma find_inner_spec id root current :
  find_element_by_node_id_inner id root current = found_among id current (elements (preorder root)).
Proof.
  revert current. induction root as [a d cs IH] using Node_nested_ind. intros current.
  cbn [find_element_by_node_id_inner preorder].
  set (in_children := fix in_children (nodes : list Node) (current : nat) : option Node * nat := _).
  assert (∀ cur, in_children cs cur = found_among id cur (elements (flat_map preorder cs))) as Hc.
  { clear current. induction IH as [|c cs Hc _ IHcs]; intros cur; cbn.
    - unfold found_among. rewrite decide_False by (cbn; lia). by rewrite Nat.add_0_r.
    - rewrite Hc. unfold elements. rewrite filter_app. fold (elements (preorder c)) (elements (flat_map preorder cs)).
      rewrite found_among_app. destruct (found_among id cur (elements (preorder c))) as [[n|] c']; [done|]. apply IHcs. }
  unfold elements. rewrite filter_cons. fold (elements (flat_map preorder cs)). unfold has_element_data at 1. cbn [node_data].
  destruct d as [l at'|t|]; cbn [decide].
  - rewrite decide_True by done. case_bool_decide as He.
    + unfold found_among. rewrite decide_True by (cbn; lia). subst id. by replace (S current - current - 1) with 0 by lia.
    + rewrite Hc. unfold found_among. cbn [length].
      destruct (decide (S current < id ≤ S current + length (elements (flat_map preorder cs)))) as [H1|H1].
      * rewrite decide_True by lia. replace (id - current - 1) with (S (id - S current - 1)) by lia. done.
      * rewrite decide_False by lia. f_equal. lia.
  - rewrite decide_False by done. apply Hc.
  - rewrite decide_False by done. apply Hc.
Qed.
(** The numbers of elements count from one, in document order. *)
Lemma find_element_spec root id :
  find_element_by_node_id root id = match id with O => None | S i => elements (preorder root) !! i end.
Proof.
  unfold find_element_by_node_id. rewrite find_inner_spec. unfold found_among. destruct id as [|i].
  - by rewrite decide_False by lia.
  - destruct (decide _) as [H|H]; cbn [fst]; [f_equal; lia|]. symmetry. apply lookup_ge_None. lia.
Qed.

Lemma node_contains_spec c root : node_contains c root = true ↔ ∃ n, n ∈ preorder root ∧ address n = address c.
Proof.
  induction root as [a d cs IH] using Node_nested_ind. cbn [node_contains preorder]. unfold ptr_eq.
  case_bool_decide as Ha.
  - split; [|done]. intros _. exists (MkNode a d cs). split; [by left|done].
  - rewrite existsb_exists. setoid_rewrite elem_of_cons. setoid_rewrite list_elem_of_In at 1. rewrite Forall_forall in IH. split.
    + intros (ch & Hin & Hc). apply IH in Hc as (n & Hn & He); [|by apply list_elem_of_In].
      exists n. split; [|done]. right. apply in_flat_map. exists ch. split; [done|by apply list_elem_of_In].
    + intros (n & [->|Hn] & He); [by destruct Ha|]. apply in_flat_map in Hn as (ch & Hch & Hn).
      exists ch. split; [done|]. apply IH; [by apply list_elem_of_In|]. exists n. split; [by apply list_elem_of_In|done].
Qed.

(** ** The controls of a form *)

(** A way down from a node: the nodes on it, the start and the end included. *)
Inductive way_down (root : Node) : list Node → Node → Prop :=
| way_here : way_down root [root] root
| way_child child p n : child ∈ node_children root → way_down child p n → way_down root (root :: p) n.

(** The nodes with nothing disabled above them, themselves included, in document order. *)
Fixpoint enabled (disabled_ancestor : bool) (node : Node) : list Node :=
  let 'MkNode a d cs := node in
  let disabled_here := disabled_ancestor || is_disabled node in
  (if disabled_here then [] else [node]) ++ flat_map (enabled disabled_here) cs.

Lemma flat_map_sublist {A B} (f g : A → list B) l : Forall (λ x, f x `sublist_of` g x) l → flat_map f l `sublist_of` flat_map g l.
Proof. induction 1 as [|x l Hx _ IH]; cbn; [done|]. by apply sublist_app. Qed.
Lemma enabled_sublist b node : enabled b node `sublist_of` preorder node.
Proof.
  revert b. induction node as [a d cs IH] using Node_nested_ind. intros b. cbn [enabled preorder].
  assert (flat_map (enabled (b || is_disabled (MkNode a d cs))) cs `sublist_of` flat_map preorder cs) as Hs.
  { apply flat_map_sublist. eapply Forall_impl; [exact IH|]. intros c Hc. apply Hc. }
  destruct (b || is_disabled (MkNode a d cs)); cbn [app]; [by apply sublist_cons|by apply sublist_skip].
Qed.
Lemma enabled_true node : enabled true node = [].
Proof.
  induction node as [a d cs IH] using Node_nested_ind. cbn. induction IH as [|c cs Hc _ IHc]; [done|]. cbn. by rewrite Hc.
Qed.
Lemma enabled_spec node n :
  n ∈ enabled false node ↔ ∃ p, way_down node p n ∧ Forall (λ m, is_disabled m = false) p.
Proof.
  induction node as [a d cs IH] using Node_nested_ind. cbn [enabled orb]. rewrite elem_of_app.
  assert (n ∈ flat_map (enabled (is_disabled (MkNode a d cs))) cs ↔
          is_disabled (MkNode a d cs) = false ∧ ∃ c p, c ∈ cs ∧ way_down c p n ∧ Forall (λ m, is_disabled m = false) p) as ->.
  { rewrite list_elem_of_In, in_flat_map. setoid_rewrite <- list_elem_of_In.
    destruct (is_disabled (MkNode a d cs)).
    - setoid_rewrite enabled_true. setoid_rewrite elem_of_nil. naive_solver.
    - rewrite Forall_forall in IH. split; [|intros (_ & c & p & Hc & Hp)].
      + intros (c & Hc & Hn). split; [done|]. apply IH in Hn as (p & ? & ?); [|done]. by exists c, p.
      + exists c. split; [done|]. apply IH; [done|]. by exists p. }
  split.
  - intros [Hn|(Hd & c & p & Hc & Hp & Hf)].
    + destruct (is_disabled (MkNode a d cs)) eqn:Hd; [by apply not_elem_of_nil in Hn|]. apply list_elem_of_singleton in Hn as ->.
      exists [MkNode a d cs]. split; [constructor|]. by apply Forall_singleton.
    + exists (MkNode a d cs :: p). split; [by econstructor|]. by constructor.
  - intros (p & Hp & Hf). inversion Hp as [|c p' ? Hc Hp']; subst.
    + left. inversion Hf as [|? ? Hd]; subst. rewrite Hd. by apply list_elem_of_singleton.
    + right. inversion Hf; subst. split; [done|]. by exists c, p'.
Qed.
Lemma collect_enabled submitter b node :
  collect_form_entries submitter b node = flat_map (own_entry submitter) (enabled b node).
Proof.
  revert b. induction node as [a d cs IH] using Node_nested_ind. intros b. cbn [collect_form_entries enabled].
  set (b' := b || is_disabled (MkNode a d cs)). rewrite flat_map_app. f_equal.
  - destruct b'; cbn [flat_map]; [done|]. by rewrite app_nil_r.
  - clearbody b'. induction IH as [|c cs Hc _ IHc]; [done|]. cbn [flat_map]. by rewrite flat_map_app, Hc, IHc.
Qed.

(** What one control is good for. *)
Definition is_button (n : Node) : bool :=
  tag_is n (lit "button") || (tag_is n (lit "input") && bool_decide (attr_type n (lit "text") ∈ [lit "submit"; lit "image"; lit "button"; lit "reset"])).
Lemma button_needs_submitter submitter n e :
  is_button n = true → e ∈ own_entry submitter n → ∃ s, submitter = Some s ∧ address n = address s.
Proof.
  intros Hb He. assert (is_successful_submitter n submitter = true) as Hs.
  { unfold own_entry, is_button, tag_is in *. destruct (node_tag n) as [tag|]; [|by apply not_elem_of_nil in He].
    destruct (is_successful_submitter n submitter); [done|]. exfalso.
    unfold form_entry_for_control in He. destruct (node_attr n (lit "name")) as [name|]; cbn [mbind option_bind] in He; [|by apply not_elem_of_nil in He].
    destruct (bool_decide (name = [])); [by apply not_elem_of_nil in He|].
    apply orb_true_iff in Hb as [Ht|[Ht Hi]%andb_true_iff]; apply bool_decide_eq_true in Ht; injection Ht as ->.
    - cbn in He. by apply not_elem_of_nil in He.
    - apply bool_decide_eq_true in Hi. cbn [bool_decide] in He. unfold input_form_entry in He. cbn zeta in He.
      rewrite bool_decide_true in He by done.
      destruct (bool_decide (attr_type n (lit "text") ∈ [lit "button"; lit "reset"])) eqn:E1; [by apply not_elem_of_nil in He|].
      destruct (bool_decide (attr_type n (lit "text") = lit "submit")) eqn:E2; [by apply not_elem_of_nil in He|].
      destruct (bool_decide (attr_type n (lit "text") = lit "image")) eqn:E3; [by apply not_elem_of_nil in He|].
      apply bool_decide_eq_false in E1, E2, E3. rewrite !elem_of_cons in Hi. rewrite !elem_of_cons in E1. naive_solver. }
  unfold is_successful_submitter, ptr_eq in Hs. destruct submitter as [s|]; [|done]. exists s. by apply bool_decide_eq_true in Hs.
Qed.

(** The entries of a form are those of its controls in document order; a control counts when
    nothing on the way down to it from the form is disabled, and of the buttons only the
    submitter does. *)
Theorem form_controls_exact form submitter :
  ∃ controls,
    form_entries form submitter = flat_map (own_entry submitter) controls ∧
    controls `sublist_of` preorder form ∧
    (∀ n, n ∈ controls ↔ ∃ p, way_down form p n ∧ Forall (λ m, is_disabled m = false) p) ∧
    (∀ n e, n ∈ controls → is_button n = true → e ∈ own_entry submitter n → ∃ s, submitter = Some s ∧ address n = address s).
Proof.
  exists (enabled false form). split; [apply collect_enabled|]. split; [apply enabled_sublist|].
  split; [intros n; apply enabled_spec|]. intros n e _. apply button_needs_submitter.
Qed.

(** ** Submitting *)

Section submitting.
Context `{PageDocument}.

(** The element of a number. *)
Definition nth_element (id : nat) : option Node :=
  match id with O => None | S i => elements (preorder dom_document) !! i end.

(** The submitter that was asked for: none, or a submit button inside the form. *)
Inductive submitter_of (form : Node) (asked : option nat) : option Node → Prop :=
| no_submitter : given asked = None → submitter_of form asked None
| button_submitter id n m :
    asked = Some id → nth_element id = Some n → is_submitter_control n = true →
    m ∈ preorder form → address m = address n → submitter_of form asked (Some n).

(** Why a submission fails. *)
Inductive fails (form_id : nat) (asked : option nat) : FormError → Prop :=
| fails_form : nth_element form_id = None ∨ element_by_node_id form_id = None → fails form_id asked (NoFormNode form_id)
| fails_tag n : nth_element form_id = Some n → node_tag n ≠ Some (lit "form") → fails form_id asked (NotAForm form_id)
| fails_submitter id : asked = Some id → id ≠ 0 → nth_element id = None → fails form_id asked (NoSubmitterNode id)
| fails_button id n : asked = Some id → nth_element id = Some n → is_submitter_control n = false →
    fails form_id asked (NotASubmitButton id)
| fails_owner id n form : asked = Some id → nth_element id = Some n → nth_element form_id = Some form →
    (∀ m, m ∈ preorder form → address m ≠ address n) → fails form_id asked (NotOwnedByForm id form_id).

Lemma given_Some asked id : given asked = Some id ↔ asked = Some id ∧ id ≠ 0.
Proof. destruct asked as [[|k]|]; cbn; naive_solver. Qed.
Lemma find_nth id : find_element_by_node_id dom_document id = nth_element id.
Proof. apply find_element_spec. Qed.
(** A setting of a submission: the attribute [over] of the submitter if it has one, and else
    the attribute [own] of the form. *)
Inductive setting (form : Node) (submitter : option Node) (over own : rstr) : option rstr → Prop :=
| set_by_submitter n v : submitter = Some n → node_attr n over = Some v → setting form submitter over own (Some v)
| set_by_form : (∀ n, submitter = Some n → node_attr n over = None) → setting form submitter over own (node_attr form own).

Inductive method_meant : option rstr → rstr → Prop :=
| meant_post v : to_ascii_lowercase (trim v) = lit "post" → method_meant (Some v) (lit "post")
| meant_dialog v : to_ascii_lowercase (trim v) = lit "dialog" → method_meant (Some v) (lit "dialog")
| meant_get o : (∀ v, o = Some v → to_ascii_lowercase (trim v) ≠ lit "post" ∧ to_ascii_lowercase (trim v) ≠ lit "dialog") →
    method_meant o (lit "get").
Inductive enctype_meant : option rstr → FormEnctype → Prop :=
| meant_type v e : trim v = mime_type e → enctype_meant (Some v) e
| meant_default o : (∀ v e, o = Some v → trim v ≠ mime_type e) → enctype_meant o Urlencoded.
(** An empty action is none; without one the form is sent to its page. *)
Inductive action_meant (form : Node) (submitter : option Node) : rstr → Prop :=
| action_of_submitter n v : submitter = Some n → node_attr n (lit "formaction") = Some v → v ≠ [] → action_meant form submitter v
| action_of_form v : (∀ n v', submitter = Some n → node_attr n (lit "formaction") = Some v' → v' = []) →
    node_attr form (lit "action") = Some v → v ≠ [] → action_meant form submitter v
| action_of_page : (∀ n v', submitter = Some n → node_attr n (lit "formaction") = Some v' → v' = []) →
    (∀ v, node_attr form (lit "action") = Some v → v = []) → action_meant form submitter page_url.

Lemma setting_spec form submitter over own : setting form submitter over own (option_or (override submitter over) (node_attr form own)).
Proof.
  unfold override. destruct submitter as [n|]; cbn; [|by constructor]. destruct (node_attr n over) as [v|] eqn:E; cbn; [by econstructor|].
  constructor. by intros ? [= <-].
Qed.
Lemma method_spec o : method_meant o (normalise_form_method o).
Proof.
  unfold normalise_form_method. destruct o as [v|]; cbn -[lit]; [|by vm_compute; constructor].
  case_bool_decide; [by constructor|]. case_bool_decide; [by constructor|]. constructor. by intros ? [= <-].
Qed.
Lemma enctype_spec o : enctype_meant o (default Urlencoded (e ← o; enctype_parse e)).
Proof.
  destruct o as [v|]; cbn [mbind option_bind default]; [|by constructor].
  unfold enctype_parse, keyword_match. cbn -[lit]. repeat case_decide; cbn -[lit]; try by constructor.
  apply meant_default. intros ? [] [= <-]; by apply not_eq_sym.
Qed.
Lemma action_spec form submitter : action_meant form submitter (raw_action form submitter).
Proof.
  unfold raw_action, override. destruct submitter as [n|]; cbn -[lit].
  - destruct (node_attr n (lit "formaction")) as [[|x v]|] eqn:E; cbn -[lit]; [|by eapply action_of_submitter|].
    all: destruct (node_attr form (lit "action")) as [[|y w]|] eqn:Ef; cbn -[lit]; [apply action_of_page|eapply action_of_form|apply action_of_page]; naive_solver.
  - destruct (node_attr form (lit "action")) as [[|y w]|] eqn:Ef; cbn -[lit]; [apply action_of_page|eapply action_of_form|apply action_of_page]; naive_solver.
Qed.

Lemma submitter_checked form_id asked form :
  nth_element form_id = Some form →
  match (s ← find_submitter asked; check_submitter form form_id asked s ;; Ok s) with
  | Ok s => submitter_of form asked s
  | Err e => fails form_id asked e
  end.
Proof.
  intros Hf. unfold find_submitter. destruct (given asked) as [id|] eqn:Eg; cbn [mbind result_bind check_submitter]; [|by constructor].
  apply given_Some in Eg as [-> Hid]. rewrite find_nth. destruct (nth_element id) as [n|] eqn:En; cbn; [|by econstructor].
  unfold throw_if. destruct (is_submitter_control n) eqn:Eb; cbn; [|by econstructor].
  destruct (node_contains n form) eqn:Ec; cbn.
  - apply node_contains_spec in Ec as (m & Hm & Ha). by econstructor.
  - econstructor; [done..|]. intros m Hm Ha. assert (node_contains n form = true) as Ht; [|congruence].
    apply node_contains_spec. by exists m.
Qed.

(** C31. A submission fails for a reason the page shows.  Otherwise it sends the controls of the
    form that count, in document order, with the method, the encoding and the action that the
    attributes of the submitter ask for, or where it has none those of the form: [get], the
    urlencoded form and the page itself unless they say otherwise; and its body is the encoding
    of its entries. *)
Theorem submission_exact form_id asked :
  match form_submission_by_node_id form_id asked with
  | Ok s =>
      ∃ form submitter, nth_element form_id = Some form ∧ node_tag form = Some (lit "form") ∧
        element_by_node_id form_id = Some (fs_form s) ∧ submitter_of form asked submitter ∧
        fs_submitter s = (id ← given asked; element_by_node_id id) ∧
        (∃ controls, fs_entries s = flat_map (own_entry submitter) controls ∧ controls `sublist_of` preorder form ∧
           ∀ n, n ∈ controls ↔ ∃ p, way_down form p n ∧ Forall (λ m, is_disabled m = false) p) ∧
        (∃ v, setting form submitter (lit "formmethod") (lit "method") v ∧ method_meant v (fs_method s)) ∧
        (∃ v, action_meant form submitter v ∧ fs_action s = default v (resolve_url v)) ∧
        ∃ v enctype, setting form submitter (lit "formenctype") (lit "enctype") v ∧ enctype_meant v enctype ∧
          fs_enctype s = mime_type enctype ∧ (fs_content_type s, fs_body s) = encode_form_entries enctype (fs_entries s) ∧
          (enctype = Urlencoded → fs_body s = utf8 (serialize (entry_pair <$> fs_entries s)))
  | Err e => fails form_id asked e
  end.
Proof.
  unfold form_submission_by_node_id. rewrite find_nth. destruct (nth_element form_id) as [form|] eqn:Ef; cbn [ok_or mbind result_bind]; [|by constructor; left].
  unfold tag_is, throw_if. destruct (decide (node_tag form = Some (lit "form"))) as [Ht|Ht];
    [rewrite (bool_decide_true _ Ht)|rewrite (bool_decide_false _ Ht); by econstructor]; cbn [negb mbind result_bind].
  destruct (element_by_node_id form_id) as [info|] eqn:Ei; cbn [ok_or mbind result_bind]; [|by constructor; right].
  pose proof (submitter_checked form_id asked form Ef) as Hsub.
  destruct (find_submitter asked) as [s|e]; cbn [mbind result_bind] in *; [|done].
  destruct (check_submitter form form_id asked s) as [[]|e]; cbn [mbind result_bind] in *; [|done].
  destruct (encode_form_entries _ _) as [content_type body] eqn:Ee.
  exists form, s. cbn -[lit]. split_and!; [done..| | | |].
  - destruct (form_controls_exact form s) as (controls & ? & ? & ? & _). by exists controls.
  - eexists. split; [apply setting_spec|apply method_spec].
  - exists (raw_action form s). split; [apply action_spec|done].
  - exists (option_or (override s (lit "formenctype")) (node_attr form (lit "enctype"))), (submission_enctype form s).
    split_and!; [apply setting_spec|apply enctype_spec|done..|].
    intros Hu. rewrite Hu in Ee. unfold encode_form_entries in Ee.
    assert (body = utf8 (encode_urlencoded (form_entries form s))) as Hb by congruence.
    by rewrite Hb, encode_urlencoded_serialize.
Qed.
End submitting.

(** ** Where the code and the standard part *)

Definition element (a : nat) (tag : rstr) (attrs : list (rstr * rstr)) (cs : list Node) : Node := MkNode a (ElementData tag attrs) cs.
Definition named (n : rstr) (more : list (rstr * rstr)) : list (rstr * rstr) := (lit "name", n) :: more.

(** A select with no option sends an empty value, of several selected options only the first
    is sent, and the image button sends the first of its two coordinates. *)
Example controls_part_from_the_standard :
  let opt a v := element a (lit "option") [(lit "value", v); (lit "selected", [])] [] in
  let empty := element 1 (lit "select") (named (lit "s") []) [] in
  let many := element 2 (lit "select") (named (lit "m") [(lit "multiple", [])]) [opt 3 (lit "x"); opt 4 (lit "y")] in
  let image := element 5 (lit "input") (named (lit "i") [(lit "type", lit "image")]) [] in
  form_entries (element 0 (lit "form") [] [empty; many; image]) (Some image) =
    [text_entry (lit "s") []; text_entry (lit "m") (lit "x"); text_entry (lit "i.x") (lit "0")].
Proof. vm_compute. done. Qed.

(** The standard compares the keywords of [enctype] without case. *)
Example encoding_in_upper_case :
  enctype_parse (lit "multipart/form-data") = Some MultipartFormData ∧ enctype_parse (lit "Multipart/Form-Data") = None.
Proof. vm_compute. done. Qed.

(** A control in the first legend of a disabled fieldset is not disabled for the standard. *)
Example legend_of_a_disabled_fieldset :
  let input := element 3 (lit "input") (named (lit "a") [(lit "value", lit "1")]) [] in
  let fieldset := element 1 (lit "fieldset") [(lit "disabled", [])] [element 2 (lit "legend") [] [input]] in
  form_entries (element 0 (lit "form") [] [fieldset]) None = [].
Proof. vm_compute. done. Qed.
