(* ===== verification/EventPath.v ===== *)
(** * The path of an event and the events of a change of focus

    [crates/vixen-engine/src/event_path.rs].  The walk to the root runs on fuel, since nothing
    in the code keeps the parents from going round; fuel beyond the depth of the target is
    enough when they do not. *)

From Stdlib Require Import Lia.
From stdpp Require Import base decidable sets list strings.
From S2P Require Import Prelude.
From S2P Require Import RustStr.

(** ** The code *)

Record PathNode : Type := { pn_id : nat; pn_parent : option nat; is_shadow_root : bool }.
Definition path_lookup (nodes : list PathNode) (id : nat) : option PathNode :=
  snd <$> list_find (λ n, pn_id n = id) nodes.
Definition shadow_at (nodes : list PathNode) (id : nat) : bool :=
  match path_lookup nodes id with Some parent => is_shadow_root parent | None => false end.
Fixpoint path_loop (fuel : nat) (nodes : list PathNode) (composed : bool) (cur : nat) (path : list nat) : option (list nat) :=
  match fuel with
  | O => None
  | S fuel =>
      match path_lookup nodes cur with
      | None => Some path
      | Some node =>
          match pn_parent node with
          | None => Some path
          | Some parent_id =>
              let path := path ++ [parent_id] in
              if negb composed && shadow_at nodes parent_id then Some path
              else path_loop fuel nodes composed parent_id path
          end
      end
  end.
Definition composed_path (fuel : nat) (target : nat) (nodes : list PathNode) (composed : bool) : option (list nat) :=
  path_loop fuel nodes composed target [target].

Record FocusDispatch : Type := { fd_event : rstr; fd_target : option nat; fd_bubbles : bool }.
Definition dispatch (event : rstr) (bubbles : bool) (target : option nat) : list FocusDispatch :=
  match target with
  | Some t => [{| fd_event := event; fd_target := Some t; fd_bubbles := bubbles |}]
  | None => []
  end.
Definition focus_event_sequence (old new : option nat) : list FocusDispatch :=
  if bool_decide (old = new) then []
  else dispatch (lit "focusout") true old ++ dispatch (lit "focusin") true new ++
       dispatch (lit "blur") false old ++ dispatch (lit "focus") false new.

(** ** The path *)

(** The parents above a node, nearest first. *)
Inductive above (nodes : list PathNode) : nat → list nat → Prop :=
| above_none n : path_lookup nodes n ≫= pn_parent = None → above nodes n []
| above_parent n p l : path_lookup nodes n ≫= pn_parent = Some p → above nodes p l → above nodes n (p :: l).
(** Up to the first shadow root, which is kept. *)
Fixpoint up_to_shadow (nodes : list PathNode) (l : list nat) : list nat :=
  match l with [] => [] | n :: l => n :: if shadow_at nodes n then [] else up_to_shadow nodes l end.

Lemma above_exists nodes (depth : nat → nat) :
  (∀ n p, path_lookup nodes n ≫= pn_parent = Some p → depth p < depth n) →
  ∀ k n, depth n ≤ k → ∃ l, above nodes n l ∧ length l ≤ k.
Proof.
  intros Hd k. induction k as [|k IH]; intros n Hk; destruct (path_lookup nodes n ≫= pn_parent) as [p|] eqn:E.
  - apply Hd in E. lia.
  - exists []. by split; [constructor|].
  - destruct (IH p) as (l & Hl & Hlen); [apply Hd in E; lia|]. exists (p :: l). split; [by econstructor|cbn; lia].
  - exists []. split; [by constructor|cbn; lia].
Qed.
Lemma path_loop_spec nodes composed cur l fuel path :
  above nodes cur l → length l < fuel →
  path_loop fuel nodes composed cur path = Some (path ++ if composed then l else up_to_shadow nodes l).
Proof.
  intros Hl. revert fuel path. induction Hl as [n Hn|n p l Hp _ IH]; intros [|fuel] path Hf; cbn in Hf; try lia; cbn [path_loop].
  - destruct (path_lookup nodes n) as [node|]; cbn in Hn; [rewrite Hn|]; (destruct composed; by rewrite app_nil_r).
  - destruct (path_lookup nodes n) as [node|]; cbn in Hp; [rewrite Hp|done].
    destruct composed; cbn [negb andb].
    + rewrite IH by lia. by rewrite <- app_assoc.
    + cbn [up_to_shadow]. destruct (shadow_at nodes p); [done|]. rewrite IH by lia. by rewrite <- app_assoc.
Qed.

(** Where the parents do not go round, the walk ends, and the path is the target with the
    parents above it: all of them for a composed event, and otherwise those up to the first
    shadow root above the target, so that nothing outside the target's tree is on the path. *)
Theorem composed_path_exact nodes (depth : nat → nat) target fuel :
  (∀ n p, path_lookup nodes n ≫= pn_parent = Some p → depth p < depth n) →
  depth target < fuel →
  ∃ l, above nodes target l ∧
    composed_path fuel target nodes true = Some (target :: l) ∧
    composed_path fuel target nodes false = Some (target :: up_to_shadow nodes l) ∧
    Forall (λ n, shadow_at nodes n = false) (removelast (up_to_shadow nodes l)).
Proof.
  intros Hd Hf. destruct (above_exists nodes depth Hd (depth target) target) as (l & Hl & Hlen); [lia|].
  exists l. split; [done|]. unfold composed_path. rewrite !(path_loop_spec _ _ _ l) by (done || lia). split_and!; [done..|].
  clear. induction l as [|n l IH]; [constructor|]. cbn. destruct (shadow_at nodes n) eqn:E; [constructor|].
  destruct (up_to_shadow nodes l); [constructor|]. constructor; [done|exact IH].
Qed.

Definition shadow_tree : list PathNode :=
  [{| pn_id := 0; pn_parent := None; is_shadow_root := false |};
   {| pn_id := 1; pn_parent := Some 0; is_shadow_root := false |};
   {| pn_id := 2; pn_parent := Some 1; is_shadow_root := true |};
   {| pn_id := 3; pn_parent := Some 2; is_shadow_root := false |}].
Lemma composed_path_exact_witness :
  composed_path 4 3 shadow_tree true = Some [3; 2; 1; 0] ∧ composed_path 4 3 shadow_tree false = Some [3; 2] ∧
  ∃ l, above shadow_tree 3 l ∧ composed_path 4 3 shadow_tree true = Some (3 :: l).
Proof.
  split; [reflexivity|]. split; [reflexivity|].
  destruct (composed_path_exact shadow_tree (λ n, n) 3 4) as (l & Hl & Hp & _).
  - intros n p Hn. destruct n as [|[|[|[|n]]]]; cbn in Hn; try discriminate; injection Hn as <-; lia.
  - lia.
  - exists l. by split.
Defined.

(** An event at the shadow root itself leaves the shadow tree although it is not composed. *)
Example event_at_a_shadow_root : composed_path 4 2 shadow_tree false = Some [2; 1; 0].
Proof. reflexivity. Qed.
(** Parents that go round: the walk never ends. *)
Example parents_go_round fuel :
  composed_path fuel 0 [{| pn_id := 0; pn_parent := Some 0; is_shadow_root := false |}] true = None.
Proof. unfold composed_path. generalize [0]. induction fuel as [|fuel IH]; intros path; [done|]. apply IH. Qed.

(** The order of a change of focus. *)
Lemma focus_order old new :
  old ≠ new →
  focus_event_sequence (Some old) (Some new) =
    [{| fd_event := lit "focusout"; fd_target := Some old; fd_bubbles := true |};
     {| fd_event := lit "focusin"; fd_target := Some new; fd_bubbles := true |};
     {| fd_event := lit "blur"; fd_target := Some old; fd_bubbles := false |};
     {| fd_event := lit "focus"; fd_target := Some new; fd_bubbles := false |}].
Proof. intros Hne. unfold focus_event_sequence. rewrite bool_decide_false by congruence. done. Qed.
