(* ===== verification/ImportMap.v ===== *)
(** * Import maps

    [crates/vixen-engine/src/script/import_maps.rs], definitions only: the bounded parser of
    the import maps of a document, how a later map is merged into an earlier one, and the
    resolution of module specifiers with its record of what has been resolved.

    The [import_map] crate, [serde_json] and [deno_core::resolve_import] are the class
    [ImportMapCrate]; a JSON object keeps the order of its members ([preserve_order]).  The
    record of resolutions is shared by a map and the maps merged from it: maps hold its address
    in a heap.  Its mutex is taken twice by [resolve], so what other threads do in between is
    the argument [others]; poisoning is not modelled.  Errors are constructors; the [Debug] of
    a string, which diagnostics show, is the argument [debug]. *)

From Stdlib Require Import Lia ZArith.
From stdpp Require Import base decidable gmap sets list strings.
From S2P Require Import Prelude.
From S2P Require Import RustStr.
From S2P Require Import RustUtf8.
From S2P Require Import RustMap.
From S2P Require Import Cookie.
From S2P Require Import WebStorage.
From S2P Require Import NetUrl.

Definition MAX_IMPORT_MAP_SOURCE_BYTES : N := 262144.
Definition MAX_IMPORT_MAP_ENTRIES : N := 2048.
Definition MAX_IMPORT_MAP_INTEGRITY_ENTRIES : N := 2048.
Definition MAX_IMPORT_MAP_SCOPES : N := 128.
Definition MAX_IMPORT_MAP_STRING_BYTES : N := 16384.
Definition MAX_IMPORT_MAP_DIAGNOSTICS : N := 32.
Definition MAX_IMPORT_MAP_DIAGNOSTIC_BYTES : N := 1024.
Definition MAX_IMPORT_MAP_STATE_BYTES : N := 524288.
Definition MAX_RESOLVED_MODULE_SPECIFIERS : N := 2048.
Definition MAX_RESOLVED_MODULE_BYTES : N := 1048576.
Definition MAX_MODULE_SPECIFIER_BYTES : N := 16384.

(** ** JSON *)

Inductive JsonValue : Type :=
| JNull
| JBool (b : bool)
| JNumber (text : rstr)
| JString (s : rstr)
| JArray (items : list JsonValue)
| JObject (members : list (rstr * JsonValue)).
Abbreviation JsonMap := (list (rstr * JsonValue)) (only parsing).
Definition as_object (v : JsonValue) : option (list (rstr * JsonValue)) := match v with JObject m => Some m | _ => None end.
Definition json_as_str (v : JsonValue) : option rstr := match v with JString s => Some s | _ => None end.

(** [serde_json::Map] with [preserve_order]: look-up, insertion (in place or at the end) and
    [remove], which moves the last member to the gap. *)
Definition member {A} (k : rstr) (m : list (rstr * A)) : option A := snd ∘ snd <$> list_find (λ kv, kv.1 = k) m.
Definition has_member {A} (k : rstr) (m : list (rstr * A)) : bool := bool_decide (is_Some (member k m)).
Fixpoint put_member {A} (k : rstr) (v : A) (m : list (rstr * A)) : list (rstr * A) :=
  match m with
  | [] => [(k, v)]
  | (k', v') :: m => if bool_decide (k' = k) then (k, v) :: m else (k', v') :: put_member k v m
  end.
Definition swap_remove_member {A} (k : rstr) (m : list (rstr * A)) : list (rstr * A) :=
  match list_find (λ kv, kv.1 = k) m with
  | None => m
  | Some (i, _) =>
      match last m with
      | Some l => if bool_decide (S i = length m) then take i m else <[i := l]> (take (length m - 1) m)
      | None => m
      end
  end.


Class ImportMapCrate : Type := {
  Resolver : Type;                                                   (** [import_map::ImportMap] *)
  parse_from_value : WebUrl → JsonValue → option (Resolver * list rstr);  (** the map and its diagnostics *)
  to_value : Resolver → option JsonValue;
  to_vec_len : Resolver → option N;                                  (** [serde_json::to_vec(..).len()] *)
  resolver_resolve : Resolver → rstr → WebUrl → option WebUrl;
  resolver_base_url : Resolver → WebUrl;
  json_from_str : rstr → option JsonValue;
  resolve_import : rstr → rstr → option WebUrl;                      (** [deno_core::resolve_import(..).ok()] *)
}.

Inductive ImportMapError : Type :=
| SourceTooLong | BaseUrlTooLong | InvalidJson | InvalidMap | NotAnObject (what : rstr) | TooManyIntegrity | MetadataNotString (key : rstr)
| BadIntegrityUrl (key : rstr) | IntegrityUrlTooLong | DuplicateIntegrity (url : rstr) | TooManyScopes | TooManyEntries
| StringTooLong (kind : rstr) | SerializationFailed | StateTooLarge | SpecifierTooLong | InvalidResolvedUrl
| ResolutionFailed | ResolvedTooLong | TooManyResolved | ResolvedBytes.

(** ** The record of resolutions *)

Record ResolvedModuleKey : Type := { base_url : rstr; specifier : rstr }.
#[export] Instance ResolvedModuleKey_eq_dec : EqDecision ResolvedModuleKey.
Proof. solve_decision. Defined.
#[export] Instance ResolvedModuleKey_countable : Countable ResolvedModuleKey.
Proof.
  refine (inj_countable' (λ k, (base_url k, specifier k)) (λ p, {| base_url := p.1; specifier := p.2 |}) _).
  by intros [].
Defined.
Record ResolvedModuleSpecifier : Type := { rm_key : ResolvedModuleKey; prefix_match_allowed : bool; rm_result : rstr }.
Record ResolvedModuleSet : Type := { rs_entries : gmap ResolvedModuleKey ResolvedModuleSpecifier; rs_bytes : N }.
Definition ResolvedModuleSet_default : ResolvedModuleSet := {| rs_entries := ∅; rs_bytes := 0 |}.
Definition any_resolved (p : ResolvedModuleSpecifier → bool) (entries : gmap ResolvedModuleKey ResolvedModuleSpecifier) : bool :=
  existsb (λ kr, p kr.2) (map_to_list entries).

Definition is_special_url (url : WebUrl) : bool :=
  bool_decide (wu_scheme url ∈ [lit "ftp"; lit "file"; lit "http"; lit "https"; lit "ws"; lit "wss"]).

(** ** Truncation *)

(** The longest prefix of whole characters of at most [n] bytes. *)
Fixpoint take_bytes (n : N) (s : rstr) : rstr :=
  match s with
  | [] => []
  | c :: s => let w := len_utf8 c in if (w <=? n)%N then c :: take_bytes (n - w) s else []
  end.
(** 8230 is the ellipsis, three bytes long. *)
Definition truncate_utf8 (value : rstr) (max_bytes : N) : rstr :=
  if (str_len value <=? max_bytes)%N then value else take_bytes (max_bytes - 3) value ++ [8230%N].

(** ** Validation *)

Definition validate_string (value kind : rstr) : result ImportMapError unit :=
  throw_if (MAX_IMPORT_MAP_STRING_BYTES <? str_len value)%N (StringTooLong kind).
Definition validate_specifier_map (map : JsonMap) : result ImportMapError unit :=
  for_each (λ _ kv,
    validate_string kv.1 (lit "specifier") ;;
    match json_as_str kv.2 with Some value => validate_string value (lit "address") | None => Ok tt end) tt map.
Definition count_members (m : JsonMap) : N := N.of_nat (length m).
Definition validate_scopes (entries : N) (scopes : JsonMap) : result ImportMapError N :=
  for_each (λ entries kv,
    validate_string kv.1 (lit "scope") ;;
    imports ← ok_or (as_object kv.2) (NotAnObject kv.1);
    validate_specifier_map imports ;;
    Ok (usize_saturating_add entries (count_members imports))) entries scopes.
Definition validate_import_map_shape (value : JsonValue) : result ImportMapError unit :=
  object ← ok_or (as_object value) (NotAnObject (lit "import map"));
  entries ← match member (lit "imports") object with
            | Some imports =>
                imports ← ok_or (as_object imports) (NotAnObject (lit "imports"));
                validate_specifier_map imports ;;
                Ok (count_members imports)
            | None => Ok 0%N
            end;
  entries ← match member (lit "scopes") object with
            | Some scopes =>
                scopes ← ok_or (as_object scopes) (NotAnObject (lit "scopes"));
                throw_if (MAX_IMPORT_MAP_SCOPES <? count_members scopes)%N TooManyScopes ;;
                validate_scopes entries scopes
            | None => Ok entries
            end;
  throw_if (MAX_IMPORT_MAP_ENTRIES <? entries)%N TooManyEntries.

(** ** Diagnostics: the messages and how many were left out *)

Record Diagnostics : Type := { dg_messages : list rstr; dg_omitted : N }.
Definition push_merge_diagnostic (message : rstr) (d : Diagnostics) : Diagnostics :=
  if (len (dg_messages d) <? MAX_IMPORT_MAP_DIAGNOSTICS)%N
  then {| dg_messages := dg_messages d ++ [truncate_utf8 message MAX_IMPORT_MAP_DIAGNOSTIC_BYTES]; dg_omitted := dg_omitted d |}
  else {| dg_messages := dg_messages d; dg_omitted := usize_saturating_add (dg_omitted d) 1 |}.

(** The sets of resolutions, by address. *)
Abbreviation Heap := (list ResolvedModuleSet) (only parsing).

Section import_maps.
Context `{UrlPlatform, ImportMapCrate}.
Variable debug : rstr → rstr.

(** ** Integrity *)

Definition has_prefix_lit (p s : rstr) : bool := bool_decide (p `prefix_of` s).
Definition normalize_integrity_url (value : rstr) (base : WebUrl) : result ImportMapError rstr :=
  let url := match url_parse value with
             | Some u => Some u
             | None =>
                 if has_prefix_lit (lit "/") value || has_prefix_lit (lit "./") value || has_prefix_lit (lit "../") value
                 then url_join base value else None
             end in
  url ← ok_or url (BadIntegrityUrl value);
  throw_if (MAX_MODULE_SPECIFIER_BYTES <? str_len (wu_str url))%N IntegrityUrlTooLong ;;
  Ok (wu_str url).
(** The value without its integrity, and the integrity: a sorted map. *)
Definition integrity_step (base : WebUrl) (normalized : list (rstr * rstr)) (kv : rstr * JsonValue) :
    result ImportMapError (list (rstr * rstr)) :=
  validate_string kv.1 (lit "integrity URL") ;;
  metadata ← ok_or (json_as_str kv.2) (MetadataNotString kv.1);
  validate_string metadata (lit "integrity metadata") ;;
  url ← normalize_integrity_url kv.1 base;
  throw_if (bool_decide (is_Some (map_get normalized url))) (DuplicateIntegrity url) ;;
  Ok (map_insert url metadata normalized).
Definition take_integrity_map (value : JsonValue) (base : WebUrl) : result ImportMapError (JsonValue * list (rstr * rstr)) :=
  object ← ok_or (as_object value) (NotAnObject (lit "import map"));
  match member (lit "integrity") object with
  | None => Ok (value, [])
  | Some integrity =>
      integrity ← ok_or (as_object integrity) (NotAnObject (lit "integrity"));
      throw_if (MAX_IMPORT_MAP_INTEGRITY_ENTRIES <? count_members integrity)%N TooManyIntegrity ;;
      normalized ← for_each (integrity_step base) [] integrity;
      Ok (JObject (swap_remove_member (lit "integrity") object), normalized)
  end.

(** ** Maps *)

Record PageImportMap : Type := { pm_resolver : Resolver; pm_integrity : list (rstr * rstr); pm_resolved : nat }.
Record ParsedPageImportMap : Type := { pp_map : PageImportMap; pp_diagnostics : list rstr }.
Definition resolved_at (h : Heap) (a : nat) : ResolvedModuleSet := default ResolvedModuleSet_default (h !! a).

Definition validate_import_map_state_size (resolver : Resolver) (integrity : list (rstr * rstr)) : result ImportMapError unit :=
  resolver_bytes ← ok_or (to_vec_len resolver) SerializationFailed;
  let integrity_bytes := foldl (λ total kv, usize_saturating_add (usize_saturating_add total (str_len kv.1)) (str_len kv.2)) 0%N integrity in
  throw_if (MAX_IMPORT_MAP_STATE_BYTES <? usize_saturating_add resolver_bytes integrity_bytes)%N StateTooLarge.

Definition shown_diagnostics (diagnostics : list rstr) : list rstr :=
  let shown := (λ d, truncate_utf8 d MAX_IMPORT_MAP_DIAGNOSTIC_BYTES) <$> take (N.to_nat MAX_IMPORT_MAP_DIAGNOSTICS) diagnostics in
  if (len shown <? len diagnostics)%N
  then shown ++ [dec (len diagnostics - len shown) ++ lit " additional import map diagnostics omitted"] else shown.
Definition parse_inline_import_map (source : rstr) (base : WebUrl) (h : Heap) : Heap * result ImportMapError ParsedPageImportMap :=
  match (throw_if (MAX_IMPORT_MAP_SOURCE_BYTES <? str_len source)%N SourceTooLong ;;
         throw_if (MAX_MODULE_SPECIFIER_BYTES <? str_len (wu_str base))%N BaseUrlTooLong ;;
         value ← ok_or (json_from_str source) InvalidJson;
         '(value, integrity) ← take_integrity_map value base;
         validate_import_map_shape value ;;
         '(map, diagnostics) ← ok_or (parse_from_value base value) InvalidMap;
         validate_import_map_state_size map integrity ;;
         Ok (map, integrity, diagnostics)) with
  | Err e => (h, Err e)
  | Ok (map, integrity, diagnostics) =>
      (h ++ [ResolvedModuleSet_default],
       Ok {| pp_map := {| pm_resolver := map; pm_integrity := integrity; pm_resolved := length h |};
             pp_diagnostics := shown_diagnostics diagnostics |})
  end.

(** ** Merging *)

(** [object.remove(field).unwrap_or(an empty object).as_object().cloned()] *)
Definition take_object_field (object : JsonMap) (field : rstr) : result ImportMapError (list (rstr * JsonValue) * list (rstr * JsonValue)) :=
  m ← ok_or (as_object (default (JObject []) (member field object))) (NotAnObject field);
  Ok (swap_remove_member field object, m).
(** The field as an object, inserted when it is not there. *)
Definition object_field_mut (object : JsonMap) (field : rstr) : result ImportMapError (list (rstr * JsonValue)) :=
  ok_or (as_object (default (JObject []) (member field object))) (NotAnObject field).

Definition ignored_after (specifier : rstr) : rstr :=
  lit "later import map rule for " ++ debug specifier ++ lit " was ignored after prior resolution".
Definition ignored (specifier : rstr) : rstr := lit "later import map rule for " ++ debug specifier ++ lit " was ignored".
Definition merge_import (resolved : gmap ResolvedModuleKey ResolvedModuleSpecifier)
    (st : list (rstr * JsonValue) * Diagnostics) (kv : rstr * JsonValue) : list (rstr * JsonValue) * Diagnostics :=
  let '(old_imports, d) := st in
  let '(specifier_, address) := kv in
  if any_resolved (λ record, has_prefix_lit (specifier (rm_key record)) specifier_) resolved
  then (old_imports, push_merge_diagnostic (ignored_after specifier_) d)
  else if has_member specifier_ old_imports then (old_imports, push_merge_diagnostic (ignored specifier_) d)
  else (put_member specifier_ address old_imports, d).
Definition merge_imports (merged new_imports : JsonMap) (resolved : gmap ResolvedModuleKey ResolvedModuleSpecifier) (d : Diagnostics) :
    result ImportMapError (list (rstr * JsonValue) * Diagnostics) :=
  old_imports ← object_field_mut merged (lit "imports");
  let '(imports, d) := foldl (merge_import resolved) (old_imports, d) new_imports in
  Ok (put_member (lit "imports") (JObject imports) merged, d).

Definition ends_with_slash (s : rstr) : bool := ends_with_char 47 s.
Definition scope_matches (scope base : rstr) : bool :=
  bool_decide (scope = base) || (ends_with_slash scope && has_prefix_lit scope base).
(** A rule of a scope would have changed what the record resolved to. *)
Definition impacts (scope specifier_ : rstr) (record : ResolvedModuleSpecifier) : bool :=
  scope_matches scope (base_url (rm_key record)) &&
  (bool_decide (specifier_ = specifier (rm_key record)) ||
   (ends_with_slash specifier_ && has_prefix_lit specifier_ (specifier (rm_key record)) && prefix_match_allowed record)).
Definition scoped_ignored_after (scope specifier : rstr) : rstr :=
  lit "later scoped import map rule for " ++ debug specifier ++ lit " in " ++ debug scope ++ lit " was ignored after prior resolution".
Definition scoped_ignored (scope specifier : rstr) : rstr :=
  lit "later scoped import map rule for " ++ debug specifier ++ lit " in " ++ debug scope ++ lit " was ignored".
Definition merge_scoped_import (resolved : gmap ResolvedModuleKey ResolvedModuleSpecifier) (scope : rstr)
    (st : list (rstr * JsonValue) * Diagnostics) (kv : rstr * JsonValue) : list (rstr * JsonValue) * Diagnostics :=
  let '(old_imports, d) := st in
  let '(specifier_, address) := kv in
  if any_resolved (impacts scope specifier_) resolved
  then (old_imports, push_merge_diagnostic (scoped_ignored_after scope specifier_) d)
  else if has_member specifier_ old_imports then (old_imports, push_merge_diagnostic (scoped_ignored scope specifier_) d)
  else (put_member specifier_ address old_imports, d).
Definition merge_scope (resolved : gmap ResolvedModuleKey ResolvedModuleSpecifier)
    (st : list (rstr * JsonValue) * Diagnostics) (kv : rstr * JsonValue) : result ImportMapError (list (rstr * JsonValue) * Diagnostics) :=
  let '(old_scopes, d) := st in
  let '(scope, value) := kv in
  new_imports ← ok_or (as_object value) (NotAnObject scope);
  old_imports ← ok_or (as_object (default (JObject []) (member scope old_scopes))) (NotAnObject scope);
  let '(imports, d) := foldl (merge_scoped_import resolved scope) (old_imports, d) new_imports in
  Ok (put_member scope (JObject imports) old_scopes, d).
Definition merge_scopes (merged new_scopes : JsonMap) (resolved : gmap ResolvedModuleKey ResolvedModuleSpecifier) (d : Diagnostics) :
    result ImportMapError (list (rstr * JsonValue) * Diagnostics) :=
  old_scopes ← object_field_mut merged (lit "scopes");
  '(scopes, d) ← for_each (merge_scope resolved) (old_scopes, d) new_scopes;
  Ok (put_member (lit "scopes") (JObject scopes) merged, d).

Definition integrity_ignored (url : rstr) : rstr := lit "later import map integrity rule for " ++ debug url ++ lit " was ignored".
Definition merge_integrity (st : list (rstr * rstr) * Diagnostics) (kv : rstr * rstr) : list (rstr * rstr) * Diagnostics :=
  let '(integrity, d) := st in
  let '(url, metadata) := kv in
  if bool_decide (is_Some (map_get integrity url)) then (integrity, push_merge_diagnostic (integrity_ignored url) d)
  else (map_insert url metadata integrity, d).

(** What the merge makes of the two maps as JSON: the members of the merged map, the ones that
    [import_map] is given. *)
Definition merged_members (existing_value new_value : JsonValue) (resolved : gmap ResolvedModuleKey ResolvedModuleSpecifier) (d : Diagnostics) :
    result ImportMapError (list (rstr * JsonValue) * Diagnostics) :=
  new_object ← ok_or (as_object new_value) (NotAnObject (lit "new"));
  '(new_object, new_imports) ← take_object_field new_object (lit "imports");
  '(new_object, new_scopes) ← take_object_field new_object (lit "scopes");
  merged ← ok_or (as_object existing_value) (NotAnObject (lit "existing"));
  '(merged, d) ← merge_scopes merged new_scopes resolved d;
  merge_imports merged new_imports resolved d.
Definition merge_maps (existing new : PageImportMap) (resolved : gmap ResolvedModuleKey ResolvedModuleSpecifier) (diagnostics : list rstr) :
    result ImportMapError ParsedPageImportMap :=
  merged_value ← ok_or (to_value (pm_resolver existing)) SerializationFailed;
  new_value ← ok_or (to_value (pm_resolver new)) SerializationFailed;
  '(merged, d) ← merged_members merged_value new_value resolved {| dg_messages := diagnostics; dg_omitted := 0 |};
  validate_import_map_shape (JObject merged) ;;
  '(merged, _) ← ok_or (parse_from_value (resolver_base_url (pm_resolver existing)) (JObject merged)) InvalidMap;
  let '(integrity, d) := foldl merge_integrity (pm_integrity existing, d) (pm_integrity new) in
  throw_if (MAX_IMPORT_MAP_INTEGRITY_ENTRIES <? len integrity)%N TooManyIntegrity ;;
  validate_import_map_state_size merged integrity ;;
  Ok {| pp_map := {| pm_resolver := merged; pm_integrity := integrity; pm_resolved := pm_resolved existing |};
        pp_diagnostics :=
          if (0 <? dg_omitted d)%N && (len (dg_messages d) <=? MAX_IMPORT_MAP_DIAGNOSTICS)%N
          then dg_messages d ++ [dec (dg_omitted d) ++ lit " additional import map merge diagnostics omitted"]
          else dg_messages d |}.
Definition merge_inline_import_map (existing : PageImportMap) (source : rstr) (base : WebUrl) (h : Heap) :
    Heap * result ImportMapError ParsedPageImportMap :=
  match parse_inline_import_map source base h with
  | (h, Err e) => (h, Err e)
  | (h, Ok parsed) =>
      (h, merge_maps existing (pp_map parsed) (rs_entries (resolved_at h (pm_resolved existing))) (pp_diagnostics parsed))
  end.

(** ** Resolution *)

Definition resolution_key (specifier : rstr) (referrer : WebUrl) : ResolvedModuleKey :=
  {| base_url := wu_str referrer; specifier := from_option wu_str specifier (resolve_import specifier (wu_str referrer)) |}.
Definition previous_result (records : ResolvedModuleSet) (key : ResolvedModuleKey) : option (result ImportMapError WebUrl) :=
  previous ← rs_entries records !! key;
  Some (ok_or (url_parse (rm_result previous)) InvalidResolvedUrl).
(** Under the second lock: the entry is added, within the limits. *)
Definition record_resolved (key : ResolvedModuleKey) (record : ResolvedModuleSpecifier) (resolved : WebUrl)
    (records : ResolvedModuleSet) : ResolvedModuleSet * result ImportMapError WebUrl :=
  match previous_result records key with
  | Some r => (records, r)
  | None =>
      if (MAX_RESOLVED_MODULE_SPECIFIERS <=? N.of_nat (size (rs_entries records)))%N then (records, Err TooManyResolved)
      else
        let record_bytes := usize_saturating_add
          (usize_saturating_add (str_len (base_url (rm_key record))) (str_len (specifier (rm_key record)))) (str_len (rm_result record)) in
        if (MAX_RESOLVED_MODULE_BYTES <? usize_saturating_add (rs_bytes records) record_bytes)%N then (records, Err ResolvedBytes)
        else ({| rs_entries := <[key := record]> (rs_entries records); rs_bytes := rs_bytes records + record_bytes |}, Ok resolved)
  end.
(** The set that the map shares, before and after; [others] runs between the two locks. *)
Definition resolve (self : PageImportMap) (specifier_ : rstr) (referrer : WebUrl)
    (others : ResolvedModuleSet → ResolvedModuleSet) (records : ResolvedModuleSet) : ResolvedModuleSet * result ImportMapError WebUrl :=
  if ((MAX_MODULE_SPECIFIER_BYTES <? str_len specifier_) || (MAX_MODULE_SPECIFIER_BYTES <? str_len (wu_str referrer)))%N
  then (records, Err SpecifierTooLong)
  else
    let key := resolution_key specifier_ referrer in
    match previous_result records key with
    | Some r => (records, r)
    | None =>
        match resolver_resolve (pm_resolver self) specifier_ referrer with
        | None => (records, Err ResolutionFailed)
        | Some resolved =>
            if (MAX_MODULE_SPECIFIER_BYTES <? str_len (wu_str resolved))%N then (records, Err ResolvedTooLong)
            else
              let record := {| rm_key := key;
                               prefix_match_allowed := from_option is_special_url true (resolve_import specifier_ (wu_str referrer));
                               rm_result := wu_str resolved |} in
              record_resolved key record resolved (others records)
        end
    end.
Definition resolve_at (self : PageImportMap) (specifier_ : rstr) (referrer : WebUrl)
    (others : ResolvedModuleSet → ResolvedModuleSet) (h : Heap) : Heap * result ImportMapError WebUrl :=
  let '(records, r) := resolve self specifier_ referrer others (resolved_at h (pm_resolved self)) in
  (<[pm_resolved self := records]> h, r).
Definition integrity_for (self : PageImportMap) (url : WebUrl) : option rstr := map_get (pm_integrity self) (wu_str url).
End import_maps.
