(* ===== verification/ImportMapFacts.v ===== *)
(** * Theorems about import maps

    What has been resolved stays resolved, whatever is resolved and merged later; the record of
    resolutions is bounded; a merge keeps every rule and adds the ones that cannot change an
    earlier resolution. *)

From Stdlib Require Import Lia ZArith.
From stdpp Require Import base decidable gmap sets list strings.
From S2P Require Import Prelude.
From S2P Require Import RustStr.
From S2P Require Import RustUtf8.
From S2P Require Import RustMap.
From S2P Require Import Cookie.
From S2P Require Import WebStorage.
From S2P Require Import NetUrl.
From S2P Require Import ImportMap.

(** ** Members *)

Lemma member_cons {A} k k' (v : A) m : member k ((k', v) :: m) = if decide (k' = k) then Some v else member k m.
Proof. unfold member. cbn. destruct (decide (k' = k)); [done|]. by destruct (list_find _ m) as [[]|]. Qed.
Lemma member_put {A} k k' (v : A) m : member k' (put_member k v m) = if decide (k = k') then Some v else member k' m.
Proof.
  induction m as [|[j w] m IH]; cbn [put_member]; [apply member_cons|].
  case_bool_decide as Hj; rewrite !member_cons; [subst j; by destruct (decide (k = k'))|].
  rewrite IH. destruct (decide (j = k')) as [->|]; [|done]. by rewrite decide_False.
Qed.
#[local] Arguments member : simpl never.
Lemma has_member_true {A} k (m : list (rstr * A)) : has_member k m = true ↔ is_Some (member k m).
Proof. apply bool_decide_eq_true. Qed.

Lemma any_resolved_true p entries : any_resolved p entries = true ↔ ∃ k r, entries !! k = Some r ∧ p r = true.
Proof.
  unfold any_resolved. rewrite existsb_exists. setoid_rewrite <- list_elem_of_In. split.
  - intros ([k r] & Hin & Hp). apply elem_of_map_to_list in Hin. by exists k, r.
  - intros (k & r & Hin & Hp). exists (k, r). split; [by apply elem_of_map_to_list|done].
Qed.

(** ** The merge *)

Definition imports_of (members : list (rstr * JsonValue)) : list (rstr * JsonValue) :=
  default [] (member (lit "imports") members ≫= as_object).
Definition scope_of (scope : rstr) (members : list (rstr * JsonValue)) : list (rstr * JsonValue) :=
  default [] (scopes ← member (lit "scopes") members ≫= as_object; member scope scopes ≫= as_object).
(** The rule of an old map wins; a new rule counts unless it is blocked. *)
Definition merged_rule (blocked : bool) (old new : option JsonValue) : option JsonValue :=
  match old with Some v => Some v | None => if blocked then None else new end.

Section merging.
Variable debug : rstr → rstr.

Lemma merge_rules_loop {D} (step : list (rstr * JsonValue) * D → rstr * JsonValue → list (rstr * JsonValue) * D) (blocked : rstr → bool) :
  (∀ old d k v, (step (old, d) (k, v)).1 = if blocked k || has_member k old then old else put_member k v old) →
  ∀ new old d k, member k (foldl step (old, d) new).1 = merged_rule (blocked k) (member k old) (member k new).
Proof.
  intros Hstep new. induction new as [|[j w] new IH]; intros old d k; cbn [foldl].
  { unfold merged_rule. cbn [fst]. destruct (member k old); [done|]. by destruct (blocked k). }
  specialize (Hstep old d j w). destruct (step (old, d) (j, w)) as [old' d']. cbn in Hstep. subst old'. rewrite IH, member_cons.
  unfold merged_rule. destruct (blocked j || has_member j old) eqn:E.
  - destruct (member k old) eqn:Eo; [done|]. destruct (blocked k) eqn:Eb; [done|].
    destruct (decide (j = k)) as [->|]; [|done]. apply orb_true_iff in E as [E|E]; [congruence|].
    apply has_member_true in E as [? ?]. congruence.
  - apply orb_false_iff in E as [Eb Ec]. rewrite member_put.
    destruct (decide (j = k)) as [->|]; [|done]. rewrite Eb. destruct (member k old) eqn:Eo; [|done].
    apply not_true_iff_false in Ec. destruct Ec. apply has_member_true. by eexists.
Qed.

Lemma merge_imports_exact merged new resolved d merged' d' k :
  merge_imports debug merged new resolved d = Ok (merged', d') →
  member k (imports_of merged') =
    merged_rule (any_resolved (λ r, has_prefix_lit (specifier (rm_key r)) k) resolved) (member k (imports_of merged)) (member k new) ∧
  ∀ scope, scope_of scope merged' = scope_of scope merged.
Proof.
  unfold merge_imports, object_field_mut. intros Hm. apply bind_Ok in Hm as (old & Ho & Hm). apply ok_or_Ok in Ho.
  destruct (foldl _ _ _) as [imports d''] eqn:Ef. assert (merged' = put_member (lit "imports") (JObject imports) merged) as -> by congruence.
  split; [|intros scope; unfold scope_of; by rewrite member_put, decide_False by discriminate].
  unfold imports_of at 1. rewrite member_put, decide_True by done. cbn.
  assert (imports = (foldl (merge_import debug resolved) (old, d) new).1) as -> by by rewrite Ef.
  rewrite (merge_rules_loop _ (λ k, any_resolved (λ r, has_prefix_lit (specifier (rm_key r)) k) resolved)).
  - f_equal. unfold imports_of. destruct (member (lit "imports") merged) as [v|]; cbn in *; [by rewrite Ho|]. by injection Ho as <-.
  - intros old' d1 j v. cbn. destruct (any_resolved _ resolved); cbn; [done|]. by destruct (has_member j old').
Qed.

Lemma merge_scope_exact resolved old d scope value old' d' s k :
  merge_scope debug resolved (old, d) (scope, value) = Ok (old', d') →
  member k (default [] (member s old' ≫= as_object)) =
    (if decide (scope = s) then
       merged_rule (any_resolved (impacts s k) resolved) (member k (default [] (member s old ≫= as_object))) (member k (default [] (as_object value)))
     else member k (default [] (member s old ≫= as_object))).
Proof.
  unfold merge_scope. intros Hm. apply bind_Ok in Hm as (new & Hn & Hm). apply bind_Ok in Hm as (o & Ho & Hm).
  apply ok_or_Ok in Hn, Ho. destruct (foldl _ _ _) as [imports d''] eqn:Ef.
  assert (old' = put_member scope (JObject imports) old) as -> by congruence. rewrite member_put.
  destruct (decide (scope = s)) as [->|]; [|done]. cbn. rewrite Hn. cbn.
  assert (imports = (foldl (merge_scoped_import debug resolved s) (o, d) new).1) as -> by by rewrite Ef.
  rewrite (merge_rules_loop _ (λ k, any_resolved (impacts s k) resolved)).
  - f_equal. destruct (member s old) as [v|]; cbn in *; [by rewrite Ho|]. by injection Ho as <-.
  - intros old1 d1 j v. cbn. destruct (any_resolved _ resolved); cbn; [done|]. by destruct (has_member j old1).
Qed.

(** The rule of a key in a list of scopes. *)
Definition rule_in (k s : rstr) (scopes : list (rstr * JsonValue)) : option JsonValue :=
  member k (default [] (member s scopes ≫= as_object)).
Lemma merge_scopes_loop resolved new old d old' d' s k :
  NoDup new.*1 → for_each (merge_scope debug resolved) (old, d) new = Ok (old', d') →
  rule_in k s old' = merged_rule (any_resolved (impacts s k) resolved) (rule_in k s old) (rule_in k s new).
Proof.
  revert old d. induction new as [|[scope value] new IH]; intros old d Hnd Hf; cbn [for_each] in Hf.
  { assert (old' = old) as -> by congruence. unfold merged_rule, rule_in at 3. cbn.
    destruct (rule_in k s old); [done|]. by destruct (any_resolved _ resolved). }
  apply bind_Ok in Hf as ([old1 d1] & H1 & Hf). apply NoDup_cons in Hnd as [Hs Hnd].
  rewrite (IH _ _ Hnd Hf). unfold rule_in. rewrite (merge_scope_exact _ _ _ _ _ _ _ s k H1), member_cons.
  destruct (decide (scope = s)) as [->|]; [|done]. cbn.
  assert (member s new = None) as ->.
  { apply eq_None_not_Some. intros [v Hv]. unfold member in Hv. destruct (list_find _ new) as [[i kv]|] eqn:E; [|done].
    apply list_find_Some in E as (E1 & E2 & _). apply Hs. cbn in E2. subst s. apply list_elem_of_fmap. exists kv. split; [done|].
    by eapply list_elem_of_lookup_2. }
  cbn. unfold merged_rule. destruct (member k _) eqn:E1; [done|]. destruct (any_resolved _ resolved); [done|].
  by destruct (member k (default [] (as_object value))).
Qed.

Lemma member_Some {A} k (v : A) m : NoDup m.*1 → member k m = Some v ↔ (k, v) ∈ m.
Proof.
  induction m as [|[j w] m IH]; intros Hnd; [split; [done|by intros ?%elem_of_nil]|].
  apply NoDup_cons in Hnd as [Hj Hnd]. rewrite member_cons, elem_of_cons. destruct (decide (j = k)) as [->|Hne].
  - split; [intros [= ->]; by left|]. intros [[= ->]|Hin]; [done|]. destruct Hj. apply list_elem_of_fmap. by exists (k, v).
  - rewrite IH by done. split; [by right|]. intros [[= <- _]|Hin]; done.
Qed.
Lemma swap_remove_member_Permutation {A} k (m : list (rstr * A)) :
  swap_remove_member k m = m ∨ ∃ v, m ≡ₚ (k, v) :: swap_remove_member k m.
Proof.
  unfold swap_remove_member. destruct (list_find _ m) as [[i [k' v]]|] eqn:E; [|by left].
  apply list_find_Some in E as (Hi & Hk & _). cbn in Hk. subst k'.
  destruct m as [|l m _] using rev_ind; [done|]. rewrite last_snoc. right. exists v.
  rewrite length_app, Nat.add_1_r. pose proof (lookup_lt_Some _ _ _ Hi) as Hlt. rewrite length_app in Hlt. cbn in Hlt.
  case_bool_decide as Hl.
  - injection Hl as ->. rewrite lookup_app_r, Nat.sub_diag in Hi by lia. cbn in Hi. injection Hi as ->.
    rewrite take_app_length. symmetry. apply Permutation_cons_append.
  - replace (S (length m) - 1) with (length m) by lia. rewrite take_app_length, lookup_app_l in * by lia.
    rewrite insert_take_drop by lia. rewrite <- (take_drop_middle m i (k, v)) at 1 by done.
    rewrite <- Permutation_cons_append, <- !Permutation_middle. apply perm_swap.
Qed.
Lemma member_swap_remove {A} k k' (m : list (rstr * A)) : NoDup m.*1 → k ≠ k' → member k' (swap_remove_member k m) = member k' m.
Proof.
  intros Hnd Hne. destruct (swap_remove_member_Permutation k m) as [->|[v Hp]]; [done|].
  assert (NoDup ((k, v) :: swap_remove_member k m).*1) as Hnd' by by rewrite <- Hp.
  apply NoDup_cons in Hnd' as [_ Hnd']. apply option_eq. intros w. rewrite !member_Some by done.
  assert ((k', w) ∈ m ↔ (k', w) ∈ (k, v) :: swap_remove_member k m) as -> by by apply elem_of_Permutation_proper.
  rewrite elem_of_cons. split; [by right|]. intros [[= <- _]|]; done.
Qed.

(** A merge of the members [old] of the earlier map with the members [new] of the later one:
    every rule of the earlier map is kept, and a rule of the later one is added where the
    earlier has none and nothing that is resolved could have been resolved by it. *)
Theorem merge_exact old new resolved d merged d' k s :
  NoDup new.*1 → NoDup (default [] (member (lit "scopes") new ≫= as_object)).*1 →
  merged_members debug (JObject old) (JObject new) resolved d = Ok (merged, d') →
  member k (imports_of merged) =
    merged_rule (any_resolved (λ r, has_prefix_lit (specifier (rm_key r)) k) resolved)
      (member k (imports_of old)) (member k (imports_of new)) ∧
  member k (scope_of s merged) =
    merged_rule (any_resolved (impacts s k) resolved) (member k (scope_of s old)) (member k (scope_of s new)).
Proof.
  intros Hnd Hnds Hm. unfold merged_members, take_object_field in Hm. cbn [as_object ok_or mbind result_bind] in Hm.
  apply bind_Ok in Hm as ([new1 imports] & Hi & Hm). apply bind_Ok in Hi as (imports' & Hi & Heq).
  assert (new1 = swap_remove_member (lit "imports") new ∧ imports' = imports) as [-> ->] by (split; congruence). clear Heq.
  apply bind_Ok in Hm as ([new2 scopes] & Hs & Hm). apply bind_Ok in Hs as (scopes' & Hs & Heq).
  assert (scopes' = scopes) as -> by congruence. clear Heq. rewrite member_swap_remove in Hs by done.
  apply ok_or_Ok in Hi, Hs. apply bind_Ok in Hm as ([old1 d1] & Hscopes & Hm).
  destruct (merge_imports_exact _ _ _ _ _ _ k Hm) as [Himp Hsc]. rewrite Hsc. clear Hm Hsc.
  unfold merge_scopes, object_field_mut in Hscopes. apply bind_Ok in Hscopes as (oscopes & Ho & Hscopes). apply ok_or_Ok in Ho.
  apply bind_Ok in Hscopes as ([scopes1 d2] & Hloop & Heq).
  assert (old1 = put_member (lit "scopes") (JObject scopes1) old) as -> by congruence. clear Heq.
  split.
  - rewrite Himp. unfold imports_of at 1. rewrite member_put, decide_False by done. fold (imports_of old). f_equal.
    unfold imports_of. destruct (member (lit "imports") new) as [v|]; cbn in *; [by rewrite Hi|]. by injection Hi as <-.
  - assert (default [] (member (lit "scopes") new ≫= as_object) = scopes) as Hdef.
    { destruct (member (lit "scopes") new) as [v|]; cbn in *; [by rewrite Hs|]. by injection Hs as <-. }
    rewrite Hdef in Hnds. pose proof (merge_scopes_loop _ _ _ _ _ _ s k Hnds Hloop) as Hl. unfold rule_in in Hl.
    unfold scope_of at 1. rewrite member_put, decide_True by done. cbn. rewrite Hl. f_equal.
    + unfold scope_of. destruct (member (lit "scopes") old) as [v|]; cbn in *; [by rewrite Ho|]. by injection Ho as <-.
    + unfold scope_of. destruct (member (lit "scopes") new) as [v|]; cbn in *; [by rewrite Hs|]. by injection Hs as <-.
Qed.
End merging.

(** ** The record of resolutions *)

Definition record_cost (r : ResolvedModuleSpecifier) : N :=
  (str_len (base_url (rm_key r)) + str_len (specifier (rm_key r)) + str_len (rm_result r))%N.
Definition total_cost (entries : gmap ResolvedModuleKey ResolvedModuleSpecifier) : N :=
  sumN (λ kr, record_cost kr.2) (map_to_list entries).
Definition set_ok (s : ResolvedModuleSet) : Prop :=
  (∀ k r, rs_entries s !! k = Some r → rm_key r = k) ∧
  (N.of_nat (size (rs_entries s)) ≤ MAX_RESOLVED_MODULE_SPECIFIERS)%N ∧
  rs_bytes s = total_cost (rs_entries s) ∧ (rs_bytes s ≤ MAX_RESOLVED_MODULE_BYTES)%N.
Definition extends (s s' : ResolvedModuleSet) : Prop := rs_entries s ⊆ rs_entries s'.

Lemma total_cost_insert entries k r :
  entries !! k = None → total_cost (<[k := r]> entries) = (record_cost r + total_cost entries)%N.
Proof.
  intros Hk. unfold total_cost.
  by rewrite (sumN_Permutation _ _ _ (map_to_list_insert entries k r Hk)).
Qed.
Lemma extends_refl s : extends s s.
Proof. unfold extends. reflexivity. Qed.
Lemma extends_trans s1 s2 s3 : extends s1 s2 → extends s2 s3 → extends s1 s3.
Proof. unfold extends. apply transitivity. Qed.
#[local] Hint Resolve extends_refl : core.

Section resolving.
Context `{UrlPlatform, ImportMapCrate}.
Variable debug : rstr → rstr.

(** What other threads do to the record: they resolve, too. *)
Definition fair (others : ResolvedModuleSet → ResolvedModuleSet) : Prop :=
  ∀ s, set_ok s → set_ok (others s) ∧ extends s (others s).

Lemma saturated_sum a b c m :
  (m < usize_max)%N → (usize_saturating_add m (usize_saturating_add (usize_saturating_add a b) c) < usize_max)%N →
  usize_saturating_add m (usize_saturating_add (usize_saturating_add a b) c) = (m + (a + b + c))%N ∧
  usize_saturating_add (usize_saturating_add a b) c = (a + b + c)%N.
Proof. unfold usize_saturating_add. generalize usize_max. intros M. lia. Qed.
Lemma limit_below_max : (MAX_RESOLVED_MODULE_BYTES < usize_max)%N.
Proof. done. Qed.
Lemma insert_set_ok key record s :
  rm_key record = key → rs_entries s !! key = None → set_ok s →
  (N.of_nat (size (rs_entries s)) < MAX_RESOLVED_MODULE_SPECIFIERS)%N →
  (rs_bytes s + record_cost record ≤ MAX_RESOLVED_MODULE_BYTES)%N →
  set_ok {| rs_entries := <[key := record]> (rs_entries s); rs_bytes := rs_bytes s + record_cost record |}.
Proof.
  intros Hkey E (Hk & Hn & Hc & Hm) Hsize Hb. split_and!; cbn [rs_entries rs_bytes].
  - intros k r. rewrite lookup_insert_Some. intros [[<- <-]|[_ Hr]]; [done|by apply Hk].
  - rewrite map_size_insert_None by done. revert Hsize. generalize MAX_RESOLVED_MODULE_SPECIFIERS. lia.
  - rewrite total_cost_insert by done. rewrite Hc. apply N.add_comm.
  - done.
Qed.
Lemma record_resolved_ok key record resolved s :
  rm_key record = key → set_ok s →
  set_ok (record_resolved key record resolved s).1 ∧ extends s (record_resolved key record resolved s).1.
Proof.
  intros Hkey Hok. unfold record_resolved, previous_result. destruct (rs_entries s !! key) as [r|] eqn:E; cbn [mbind option_bind fst].
  { by split. }
  destruct (N.leb_spec MAX_RESOLVED_MODULE_SPECIFIERS (N.of_nat (size (rs_entries s)))) as [|Hsize]; cbn [fst]; [by split|].
  destruct (N.ltb_spec MAX_RESOLVED_MODULE_BYTES (usize_saturating_add (rs_bytes s) (usize_saturating_add
    (usize_saturating_add (str_len (base_url (rm_key record))) (str_len (specifier (rm_key record)))) (str_len (rm_result record))))) as [|Hb];
    cbn [fst]; [by split|].
  pose proof limit_below_max as Hmax. destruct (saturated_sum (str_len (base_url (rm_key record))) (str_len (specifier (rm_key record)))
    (str_len (rm_result record)) (rs_bytes s)) as [H1 H2].
  - destruct Hok as (_ & _ & _ & Hm). by eapply N.le_lt_trans.
  - by eapply N.le_lt_trans.
  - rewrite H1 in Hb. rewrite H2. split; [by apply insert_set_ok|by apply insert_subseteq].
Qed.
Lemma resolve_ok self spec referrer others s :
  fair others → set_ok s →
  set_ok (resolve self spec referrer others s).1 ∧ extends s (resolve self spec referrer others s).1.
Proof.
  intros Hf Hok. assert (set_ok s ∧ extends s s) as Hsame by by split. unfold resolve.
  destruct (_ || _); [done|]. destruct (previous_result s _); [done|].
  destruct (resolver_resolve _ _ _) as [u|]; [|done]. destruct (_ <? _)%N; [done|].
  destruct (Hf s Hok) as [Ho He]. cbn zeta.
  edestruct record_resolved_ok as [H1 H2]; [|exact Ho|]; [|split; [exact H1|by eapply extends_trans]]. done.
Qed.

(** One operation on the maps of a realm. *)
Inductive world_step (h : Heap) : Heap → Prop :=
| step_parse source base : world_step h (parse_inline_import_map source base h).1
| step_merge existing source base : world_step h (merge_inline_import_map debug existing source base h).1
| step_resolve m spec referrer others : fair others → world_step h (resolve_at m spec referrer others h).1.

Definition heap_extends (h h' : Heap) : Prop :=
  ∀ a s, h !! a = Some s → ∃ s', h' !! a = Some s' ∧ extends s s'.
Lemma heap_extends_refl h : heap_extends h h.
Proof. intros a s Hs. by exists s. Qed.
Lemma heap_extends_trans h1 h2 h3 : heap_extends h1 h2 → heap_extends h2 h3 → heap_extends h1 h3.
Proof. intros H12 H23 a s Hs. destruct (H12 a s Hs) as (s' & Hs' & He). destruct (H23 a s' Hs') as (s'' & ? & ?). exists s''. split; [done|]. by eapply extends_trans. Qed.

Lemma default_set_ok : set_ok ResolvedModuleSet_default.
Proof.
  split_and!; cbn; try done.
Qed.
Lemma parse_heap source base h :
  (parse_inline_import_map source base h).1 = h ∨ (parse_inline_import_map source base h).1 = h ++ [ResolvedModuleSet_default].
Proof. unfold parse_inline_import_map. destruct (_ ;; _) as [[[? ?] ?]|e]; cbn; [by right|by left]. Qed.
Lemma append_set_ok h : Forall set_ok h → Forall set_ok (h ++ [ResolvedModuleSet_default]) ∧ heap_extends h (h ++ [ResolvedModuleSet_default]).
Proof.
  intros Hh. split.
  - apply Forall_app. split; [done|]. apply Forall_singleton, default_set_ok.
  - intros a s Hs. exists s. split; [by apply lookup_app_l_Some|done].
Qed.
Lemma world_step_ok h h' : Forall set_ok h → world_step h h' → Forall set_ok h' ∧ heap_extends h h'.
Proof.
  intros Hh Hstep. destruct Hstep as [source base|existing source base|m spec referrer others Hf].
  - destruct (parse_heap source base h) as [-> | ->]; [split; [done|apply heap_extends_refl]|by apply append_set_ok].
  - unfold merge_inline_import_map. pose proof (parse_heap source base h) as Hp.
    destruct (parse_inline_import_map source base h) as [h1 [p|e]]; cbn in *; destruct Hp as [-> | ->];
      (split; [done|apply heap_extends_refl]) || by apply append_set_ok.
  - unfold resolve_at. destruct (h !! pm_resolved m) as [s|] eqn:Es.
    + assert (resolved_at h (pm_resolved m) = s) as -> by (unfold resolved_at; by rewrite Es).
      assert (set_ok s) as Hs by by eapply Forall_lookup_1.
      destruct (resolve_ok m spec referrer others s Hf Hs) as [Hok He]. destruct (resolve _ _ _ _ _) as [s' r]. cbn in *.
      split; [by apply Forall_insert|]. intros a t Ht. destruct (decide (a = pm_resolved m)) as [->|Hne].
      * exists s'. rewrite list_lookup_insert_eq by by eapply lookup_lt_Some. split; [done|]. by assert (t = s) as -> by congruence.
      * exists t. by rewrite list_lookup_insert_ne.
    + destruct (resolve _ _ _ _ _) as [s' r]. cbn. rewrite list_insert_ge by by apply lookup_ge_None. split; [done|apply heap_extends_refl].
Qed.
Lemma world_steps_ok h h' : Forall set_ok h → rtc world_step h h' → Forall set_ok h' ∧ heap_extends h h'.
Proof.
  intros Hh Hsteps. induction Hsteps as [h|h h1 h2 Hs _ IH]; [split; [done|apply heap_extends_refl]|].
  destruct (world_step_ok _ _ Hh Hs) as [H1 He]. destruct (IH H1) as [H2 He2]. split; [done|]. by eapply heap_extends_trans.
Qed.

(** However maps are parsed, merged and used, every record of resolutions is within its limits
    in number and in bytes, counts its bytes exactly, and has every entry under its own key. *)
Theorem resolved_records_bounded h :
  rtc world_step [] h →
  Forall (λ s, (∀ k r, rs_entries s !! k = Some r → rm_key r = k) ∧ (N.of_nat (size (rs_entries s)) ≤ 2048)%N ∧
               rs_bytes s = total_cost (rs_entries s) ∧ (rs_bytes s ≤ 1048576)%N) h.
Proof. intros Hsteps. exact (proj1 (world_steps_ok [] h (Forall_nil_2 _) Hsteps)). Qed.

(** A URL that the resolver returns is one that its own text parses to. *)
Class ResolverLaws : Prop :=
  resolved_reparses m spec ref u : resolver_resolve m spec ref = Some u → url_parse (wu_str u) = Some u.

Lemma resolve_records `{ResolverLaws} self spec referrer others s s' u :
  resolve self spec referrer others s = (s', Ok u) →
  (str_len spec ≤ MAX_MODULE_SPECIFIER_BYTES ∧ str_len (wu_str referrer) ≤ MAX_MODULE_SPECIFIER_BYTES)%N ∧
  previous_result s' (resolution_key spec referrer) = Some (Ok u).
Proof.
  unfold resolve. destruct (N.ltb_spec MAX_MODULE_SPECIFIER_BYTES (str_len spec)); cbn [orb]; [done|].
  destruct (N.ltb_spec MAX_MODULE_SPECIFIER_BYTES (str_len (wu_str referrer))); [done|]. intros Hr. split; [done|]. revert Hr.
  cbn zeta. destruct (previous_result s _) as [r|] eqn:Ep; [intros Heq; assert (s' = s) as -> by congruence; rewrite Ep; congruence|].
  destruct (resolver_resolve _ _ _) as [v|] eqn:Ev; [|done]. destruct (_ <? _)%N; [done|].
  unfold record_resolved. destruct (previous_result (others s) _) as [r|] eqn:Eo.
  { intros Heq. assert (s' = others s) as -> by congruence. rewrite Eo. congruence. }
  destruct (_ <=? _)%N; [done|]. destruct (_ <? _)%N; [done|]. intros Heq.
  assert (u = v) as -> by congruence. apply resolved_reparses in Ev.
  match type of Heq with (?t, _) = _ => assert (s' = t) as -> by congruence end.
  unfold previous_result. cbn [rs_entries]. rewrite lookup_insert_eq. cbn. by rewrite Ev.
Qed.
Lemma previous_result_extends s s' key r : extends s s' → previous_result s key = Some r → previous_result s' key = Some r.
Proof.
  intros He. unfold previous_result. destruct (rs_entries s !! key) as [p|] eqn:E; [|done].
  by rewrite (lookup_weaken _ _ _ _ E He).
Qed.
Lemma resolve_previous self spec referrer others s u :
  (str_len spec ≤ MAX_MODULE_SPECIFIER_BYTES ∧ str_len (wu_str referrer) ≤ MAX_MODULE_SPECIFIER_BYTES)%N →
  previous_result s (resolution_key spec referrer) = Some (Ok u) → resolve self spec referrer others s = (s, Ok u).
Proof.
  intros [H1 H2] Hp. unfold resolve. rewrite !(proj2 (N.ltb_ge _ _)) by done. cbn [orb]. cbn zeta. by rewrite Hp.
Qed.

(** What a specifier has resolved to for a referrer, it resolves to ever after: with the same
    map and with every map that shares its record, such as the ones merged from it, whatever
    is resolved, parsed and merged in between and by whatever thread. *)
Theorem resolutions_are_stable `{ResolverLaws} h0 h1 h2 m m' spec referrer others others' u :
  rtc world_step [] h0 → pm_resolved m < length h0 → fair others →
  resolve_at m spec referrer others h0 = (h1, Ok u) → rtc world_step h1 h2 → pm_resolved m' = pm_resolved m →
  resolve_at m' spec referrer others' h2 = (h2, Ok u).
Proof.
  intros Hstart Hlt Hfair Hr H12 Haddr. destruct (world_steps_ok [] h0 (Forall_nil_2 _) Hstart) as [Hok0 _].
  assert (world_step h0 h1) as H01 by (pose proof (step_resolve h0 m spec referrer others Hfair) as Hs; by rewrite Hr in Hs).
  destruct (world_step_ok _ _ Hok0 H01) as [Hok1 _]. destruct (world_steps_ok _ _ Hok1 H12) as [_ He].
  destruct (lookup_lt_is_Some_2 h0 (pm_resolved m) Hlt) as [s0 Hs0]. unfold resolve_at, resolved_at in *. rewrite Hs0 in Hr. cbn in Hr.
  destruct (resolve m spec referrer others s0) as [s1 r] eqn:E1. assert (r = Ok u) as -> by congruence.
  assert (h1 = <[pm_resolved m:=s1]> h0) as -> by congruence.
  destruct (He (pm_resolved m) s1) as (s2 & Hs2 & Hext); [by apply list_lookup_insert_eq|].
  apply resolve_records in E1 as [Hlen Hp]. rewrite Haddr, Hs2. cbn.
  rewrite (resolve_previous m' spec referrer others' s2 u Hlen (previous_result_extends _ _ _ _ Hext Hp)).
  by rewrite list_insert_id.
Qed.
End resolving.

(** ** A concrete crate *)

Definition plain_url (s : rstr) : WebUrl :=
  {| wu_str := s; wu_host := None; wu_origin := {| uo_scheme := []; uo_host_str := None; uo_port_or_known_default := None |};
     wu_port := None; wu_path := [] |}.
Definition plain_urls : UrlPlatform :=
  {| url_parse s := Some (plain_url s); url_join _ s := Some (plain_url s); host_to_string _ := []; url_same_origin _ _ := false;
     url_origin_ascii _ := []; url_for_referrer _ := [] |}.
(** Every specifier is a path below one host. *)
Definition one_cdn : ImportMapCrate :=
  {| Resolver := unit; parse_from_value _ _ := Some (tt, []); to_value _ := Some (JObject []); to_vec_len _ := Some 2%N;
     resolver_resolve _ s _ := Some (plain_url (lit "https://cdn/" ++ s)); resolver_base_url _ := plain_url [];
     json_from_str _ := Some (JObject []); resolve_import _ _ := None |}.
#[local] Existing Instances plain_urls one_cdn.
#[local] Instance one_cdn_laws : ResolverLaws.
Proof. intros m spec ref u Hu. injection Hu as <-. reflexivity. Qed.
Definition cdn_map : PageImportMap := {| pm_resolver := tt; pm_integrity := []; pm_resolved := 0 |}.
Definition page : WebUrl := plain_url (lit "https://page/").

Lemma fresh_heap : rtc (world_step (λ s, s)) [] [ResolvedModuleSet_default].
Proof. eapply rtc_once. exact (step_parse (λ s, s) [] (lit "{}") page). Qed.
Lemma resolutions_are_stable_witness :
  ∃ h1 u, resolve_at cdn_map (lit "lit") page (λ s, s) [ResolvedModuleSet_default] = (h1, Ok u) ∧
    resolve_at cdn_map (lit "lit") page (λ s, s) h1 = (h1, Ok u).
Proof.
  eexists _, _. split; [reflexivity|].
  eapply (resolutions_are_stable (λ s, s) [ResolvedModuleSet_default] _ _ cdn_map cdn_map (lit "lit") page (λ s, s) (λ s, s));
    [exact fresh_heap|cbn; lia|by split|reflexivity|apply rtc_refl|reflexivity].
Defined.
Lemma resolved_records_bounded_witness :
  Forall (λ s, (rs_bytes s ≤ 1048576)%N) [ResolvedModuleSet_default].
Proof.
  pose proof (resolved_records_bounded (λ s, s) [ResolvedModuleSet_default] fresh_heap) as Hb.
  eapply Forall_impl; [exact Hb|]. intros s (_ & _ & _ & Hs). exact Hs.
Defined.

Definition old_members : list (rstr * JsonValue) := [(lit "imports", JObject [(lit "a", JString (lit "/a1"))])].
Definition new_members : list (rstr * JsonValue) :=
  [(lit "imports", JObject [(lit "a", JString (lit "/a2")); (lit "b", JString (lit "/b"))]); (lit "scopes", JObject [])].
Lemma merge_exact_witness :
  ∃ merged d', merged_members (λ s, s) (JObject old_members) (JObject new_members) ∅ {| dg_messages := []; dg_omitted := 0 |} = Ok (merged, d') ∧
    member (lit "a") (imports_of merged) = Some (JString (lit "/a1")).
Proof.
  eexists _, _. split; [vm_compute; reflexivity|].
  refine (eq_trans (proj1 (merge_exact (λ s, s) old_members new_members ∅ {| dg_messages := []; dg_omitted := 0 |} _ _ (lit "a") [] _ _ _)) _).
  - apply (bool_decide_unpack _). vm_compute. exact I.
  - apply (bool_decide_unpack _). vm_compute. exact I.
  - vm_compute. reflexivity.
  - reflexivity.
Defined.
