(* ===== verification/BrowserApi.v ===== *)
(** * Values of the browser seam

    [crates/vixen-api/src/browser.rs]: the errors, results and events that the browser core
    exchanges with its front ends, and the state of a browsing context as they see it.
    Identifiers are [NonZeroU64] newtypes, here positives, as in [RenderModel].

    The payloads that only a page produces (snapshots, element information, ...) are not
    here: they are types of the engine that [BrowserCore] is written against. *)

From Stdlib Require Import Lia ZArith.
From stdpp Require Import base decidable gmap list strings.
From S2P Require Import Prelude.
From S2P Require Import RustFloat.

Abbreviation BrowsingContextId := positive (only parsing).
Abbreviation FrameId := positive (only parsing).
Abbreviation NavigationId := positive (only parsing).
Abbreviation DocumentId := positive (only parsing).
Abbreviation RequestId := positive (only parsing).
Abbreviation RuntimeContextId := positive (only parsing).

(** ** Errors *)

Definition INVALID_ARGUMENT : rstr := lit "browser.invalid-argument".
Definition UNKNOWN_CONTEXT : rstr := lit "browser.unknown-context".
Definition STALE_CONTEXT : rstr := lit "browser.stale-context".
Definition COMMAND_QUEUE_FULL : rstr := lit "browser.command-queue-full".
Definition ID_EXHAUSTED : rstr := lit "browser.id-exhausted".
Definition CONTEXT_LIMIT : rstr := lit "browser.context-limit".
Definition STALE_DOCUMENT : rstr := lit "browser.stale-document".
Definition STALE_RUNTIME : rstr := lit "browser.stale-runtime".
Definition STALE_ACCESSIBILITY : rstr := lit "browser.stale-accessibility".
Definition STALE_HOST_VIEW : rstr := lit "browser.stale-host-view".
Definition NAVIGATION_LOAD : rstr := lit "navigation.load".
Definition PROFILE : rstr := lit "browser.profile".
Definition EVENT_LAGGED : rstr := lit "browser.event-lagged".
Definition CLOSED : rstr := lit "browser.closed".

Record BrowserError : Type := { be_code : rstr; be_message : rstr }.
#[export] Instance BrowserError_eq_dec : EqDecision BrowserError.
Proof. solve_decision. Defined.
Definition BrowserError_new (code message : rstr) : BrowserError := {| be_code := code; be_message := message |}.

(** ** Host view and context configuration *)

Inductive HostLifecycle : Type := Resumed | Inactive | Hidden | Paused | Detached.
#[export] Instance HostLifecycle_eq_dec : EqDecision HostLifecycle.
Proof. solve_decision. Defined.

Record HostViewState : Type := {
  hv_generation : N; hv_viewport : N * N; hv_scale_factor : f64;
  hv_focused : bool; hv_visible : bool; hv_lifecycle : HostLifecycle;
}.
Definition HostViewState_default : HostViewState :=
  {| hv_generation := 0; hv_viewport := (800, 600)%N; hv_scale_factor := f64_of_Z 1;
     hv_focused := true; hv_visible := true; hv_lifecycle := Resumed |}.
Definition accepts_input (self : HostViewState) : bool :=
  hv_focused self && hv_visible self && bool_decide (hv_lifecycle self = Resumed).

Record RuntimePermissionGrant : Type := { pg_origin : option rstr; pg_permissions : list rstr }.

Record BrowsingContextConfig : Type := {
  cc_extra_http_headers : list (rstr * rstr);
  cc_cache_disabled : bool;
  cc_bypass_csp : bool;
  cc_preload_scripts : list rstr;
  cc_new_document_scripts : list rstr;
  cc_permission_grants : list RuntimePermissionGrant;
}.
Definition BrowsingContextConfig_default : BrowsingContextConfig :=
  {| cc_extra_http_headers := []; cc_cache_disabled := false; cc_bypass_csp := false;
     cc_preload_scripts := []; cc_new_document_scripts := []; cc_permission_grants := [] |}.

(** ** Runtime effects *)

Inductive RuntimeConsoleValue : Type :=
| ConsoleString (s : rstr) | ConsoleNumber (x : f64) | ConsoleBool (b : bool) | ConsoleNull.
Record RuntimeConsoleArg : Type := {
  ca_type_name : rstr; ca_subtype : option rstr; ca_value : option RuntimeConsoleValue;
  ca_unserializable_value : option rstr; ca_description : rstr;
}.
Record RuntimeConsoleEvent : Type := { ce_kind : rstr; ce_args : list RuntimeConsoleArg }.
Record RuntimeDialogEvent : Type := { de_kind : rstr; de_message : rstr; de_default_prompt : rstr }.
Record RuntimeBindingEvent : Type := { bi_name : rstr; bi_payload : rstr }.
Record RuntimeExceptionEvent : Type := { ex_error : BrowserError }.
Inductive RuntimeNetworkEvent : Type :=
| NetRequest (request_id url method : rstr)
| NetRedirect (request_id from to : rstr) (status : N)
| NetResponse (request_id url : rstr) (status : N)
| NetProgress (request_id url : rstr) (chunk_bytes loaded_bytes : N) (total_bytes : option N)
| NetCompleted (request_id url : rstr) (body_bytes : N)
| NetFailure (request_id url error_text : rstr) (blocked_reason : option rstr).

Record RuntimeEffects : Type := {
  console : list RuntimeConsoleEvent; dialogs : list RuntimeDialogEvent; bindings : list RuntimeBindingEvent;
  network_events : list RuntimeNetworkEvent; exceptions : list RuntimeExceptionEvent;
}.
Definition RuntimeEffects_default : RuntimeEffects :=
  {| console := []; dialogs := []; bindings := []; network_events := []; exceptions := [] |}.
Definition effects_is_empty (self : RuntimeEffects) : bool :=
  match self with
  | {| console := []; dialogs := []; bindings := []; network_events := []; exceptions := [] |} => true
  | _ => false
  end.
Definition effects_extend (self other : RuntimeEffects) : RuntimeEffects :=
  {| console := console self ++ console other; dialogs := dialogs self ++ dialogs other;
     bindings := bindings self ++ bindings other; network_events := network_events self ++ network_events other;
     exceptions := exceptions self ++ exceptions other |}.
(** [effects.network.push(..)] and [effects.exceptions.push(..)] *)
Definition push_network (event : RuntimeNetworkEvent) (self : RuntimeEffects) : RuntimeEffects :=
  {| console := console self; dialogs := dialogs self; bindings := bindings self;
     network_events := network_events self ++ [event]; exceptions := exceptions self |}.
Definition push_exception (error : BrowserError) (self : RuntimeEffects) : RuntimeEffects :=
  {| console := console self; dialogs := dialogs self; bindings := bindings self;
     network_events := network_events self; exceptions := exceptions self ++ [{| ex_error := error |}] |}.
Definition exception_effects (error : BrowserError) : RuntimeEffects := push_exception error RuntimeEffects_default.

(** ** Contexts, phases and events *)

Record BrowsingContextState : Type := {
  bs_context_id : BrowsingContextId; bs_main_frame_id : FrameId; bs_document_id : DocumentId;
  bs_runtime_context_id : option RuntimeContextId; bs_active_navigation_id : option NavigationId;
  bs_url : rstr; bs_title : option rstr; bs_history_length : nat; bs_history_index : nat;
  bs_can_go_back : bool; bs_can_go_forward : bool; bs_is_loading : bool;
  bs_load_progress : f64; bs_page_zoom : f64;
}.
Record BrowserSnapshot : Type := {
  sn_active_context_id : option BrowsingContextId; sn_contexts : list BrowsingContextState;
}.
Record ProfileSessionState : Type := { ps_tabs : list rstr; ps_active_index : N }.
Record NavigationHistoryEntry : Type := { ne_url : rstr; ne_title : option rstr; ne_same_document : bool }.
Record NavigationHistorySnapshot : Type := { nh_current_index : nat; nh_entries : list NavigationHistoryEntry }.

(** [ft_active_match] counts from one. *)
Record FindTextResult : Type := { ft_matches : N; ft_active_match : option N }.

Inductive NavigationPhase : Type :=
| Intent | Policy | Request | Response | Commit | Parse | ScriptsAndSubresources
| DomContentLoaded | Load | Settled | Failed | Cancelled.
#[export] Instance NavigationPhase_eq_dec : EqDecision NavigationPhase.
Proof. solve_decision. Defined.
Definition is_terminal (self : NavigationPhase) : bool :=
  match self with Settled | Failed | Cancelled => true | _ => false end.

Inductive NavigationCancellationReason : Type := Stopped | Superseded | ContextClosed | BrowserShutdown.
Inductive CrossDocumentNavigationKind : Type :=
| Regular
| ContentReplacement (replaced_document_id : DocumentId).

Inductive NavigationActionOutcome : Type :=
| OutcomeSameDocument (url : rstr)
| OutcomeCrossDocument (navigation_id : NavigationId) (kind : CrossDocumentNavigationKind).

Inductive BrowserEvent : Type :=
| BrowsingContextCreated (state : BrowsingContextState)
| BrowsingContextClosed (context_id : BrowsingContextId)
| ActiveBrowsingContextChanged (context_id : option BrowsingContextId)
| NavigationRequested (context_id : BrowsingContextId) (frame_id : FrameId) (navigation_id : NavigationId)
    (predecessor_navigation_id : option NavigationId) (kind : CrossDocumentNavigationKind) (url : rstr)
| NavigationStarted (context_id : BrowsingContextId) (frame_id : FrameId) (navigation_id : NavigationId)
    (request_id : RequestId) (url : rstr)
| NavigationRedirected (context_id : BrowsingContextId) (frame_id : FrameId) (navigation_id : NavigationId)
    (request_id next_request_id : RequestId) (from_url to_url : rstr) (status : N)
| NavigationPhaseChanged (context_id : BrowsingContextId) (frame_id : FrameId) (navigation_id : NavigationId)
    (phase : NavigationPhase)
| RuntimeContextDestroyed (context_id : BrowsingContextId) (frame_id : FrameId) (document_id : DocumentId)
    (runtime_context_id : RuntimeContextId)
| DocumentDiscarded (context_id : BrowsingContextId) (frame_id : FrameId) (document_id : DocumentId)
    (replaced_by : option NavigationId)
| NavigationCommitted (context_id : BrowsingContextId) (frame_id : FrameId) (navigation_id : NavigationId)
    (request_id : option RequestId) (document_id : DocumentId) (runtime_context_id : option RuntimeContextId)
    (url : rstr)
| RuntimeContextCreated (context_id : BrowsingContextId) (frame_id : FrameId) (document_id : DocumentId)
    (runtime_context_id : RuntimeContextId)
| EffectsEvent (context_id : BrowsingContextId) (frame_id : FrameId) (document_id : DocumentId)
    (runtime_context_id : RuntimeContextId) (url : rstr) (effects : RuntimeEffects)
| DomContentLoadedEvent (context_id : BrowsingContextId) (frame_id : FrameId) (navigation_id : NavigationId)
    (document_id : DocumentId)
| DocumentLoadCompleted (context_id : BrowsingContextId) (frame_id : FrameId) (navigation_id : NavigationId)
    (document_id : DocumentId)
| NavigationCancelled (context_id : BrowsingContextId) (frame_id : FrameId) (navigation_id : NavigationId)
    (request_id : option RequestId) (reason : NavigationCancellationReason)
| NavigationFailed (context_id : BrowsingContextId) (frame_id : FrameId) (navigation_id : NavigationId)
    (request_id : option RequestId) (error : BrowserError)
| BrowsingContextStateChanged (state : BrowsingContextState).
