(* ===== verification/BrowserChannel.v ===== *)
(** * Identifiers, event channel and control block of the browser core

    [crates/vixen-engine/src/browser.rs]: the allocators of identifiers, the bounded event
    queue of a consumer, the hub that gives every subscribed client its own queue, and the
    block through which other threads find the runtime of a context.

    Locks are not poisoned, and the wait of [pop] is its two outcomes: the queue as it was,
    or the queue as other threads left it. *)

From Stdlib Require Import Lia ZArith.
From stdpp Require Import base decidable gmap list strings sorting.
From S2P Require Import Prelude.
From S2P Require Import RenderModel.
From S2P Require Import BrowserApi.

(** ** Identifiers *)

(** [u64::checked_add(1)] *)
Definition u64_succ (n : N) : option N := if bool_decide (n < u64_max)%N then Some (n + 1)%N else None.

(** [next_typed_id]: the counter goes to zero when the space is exhausted. *)
Definition next_typed_id (counter : N) : N * result BrowserError positive :=
  if bool_decide (counter = 0)%N
  then (counter, Err (BrowserError_new ID_EXHAUSTED (lit "browser id space is exhausted")))
  else (default 0%N (u64_succ counter),
        ok_or (id_new counter) (BrowserError_new ID_EXHAUSTED (lit "browser id allocation produced zero"))).

(** [SharedRequestIdAllocator::request]: a [fetch_update] that fails leaves the counter. *)
Definition shared_request_id (counter : N) : N * result BrowserError RequestId :=
  match u64_succ counter with
  | None => (counter, Err (BrowserError_new ID_EXHAUSTED (lit "browser request id space is exhausted")))
  | Some next =>
      (next, ok_or (id_new counter)
               (BrowserError_new ID_EXHAUSTED (lit "browser request id allocation produced zero")))
  end.

(** [SharedRequestIdAllocator::next_string]; [Display] of an error is its code and message. *)
Definition error_display (e : BrowserError) : rstr := be_code e ++ lit ": " ++ be_message e.
Definition next_string (counter : N) : N * result rstr rstr :=
  match shared_request_id counter with
  | (counter, Ok id) => (counter, Ok (id_display id))
  | (counter, Err e) => (counter, Err (error_display e))
  end.

Record IdAllocator : Type := {
  next_context : N; next_frame : N; next_navigation : N; next_document : N; next_request : N; next_runtime : N;
}.
Definition IdAllocator_new : IdAllocator :=
  {| next_context := 1; next_frame := 1; next_navigation := 1; next_document := 1; next_request := 1;
     next_runtime := 1 |}.

Definition ids_context (self : IdAllocator) : IdAllocator * result BrowserError BrowsingContextId :=
  let '(n, r) := next_typed_id (next_context self) in
  ({| next_context := n; next_frame := next_frame self; next_navigation := next_navigation self;
      next_document := next_document self; next_request := next_request self; next_runtime := next_runtime self |}, r).
Definition ids_frame (self : IdAllocator) : IdAllocator * result BrowserError FrameId :=
  let '(n, r) := next_typed_id (next_frame self) in
  ({| next_context := next_context self; next_frame := n; next_navigation := next_navigation self;
      next_document := next_document self; next_request := next_request self; next_runtime := next_runtime self |}, r).
Definition ids_navigation (self : IdAllocator) : IdAllocator * result BrowserError NavigationId :=
  let '(n, r) := next_typed_id (next_navigation self) in
  ({| next_context := next_context self; next_frame := next_frame self; next_navigation := n;
      next_document := next_document self; next_request := next_request self; next_runtime := next_runtime self |}, r).
Definition ids_document (self : IdAllocator) : IdAllocator * result BrowserError DocumentId :=
  let '(n, r) := next_typed_id (next_document self) in
  ({| next_context := next_context self; next_frame := next_frame self; next_navigation := next_navigation self;
      next_document := n; next_request := next_request self; next_runtime := next_runtime self |}, r).
Definition ids_request (self : IdAllocator) : IdAllocator * result BrowserError RequestId :=
  let '(n, r) := shared_request_id (next_request self) in
  ({| next_context := next_context self; next_frame := next_frame self; next_navigation := next_navigation self;
      next_document := next_document self; next_request := n; next_runtime := next_runtime self |}, r).
Definition ids_runtime (self : IdAllocator) : IdAllocator * result BrowserError RuntimeContextId :=
  let '(n, r) := next_typed_id (next_runtime self) in
  ({| next_context := next_context self; next_frame := next_frame self; next_navigation := next_navigation self;
      next_document := next_document self; next_request := next_request self; next_runtime := n |}, r).

(** What a counter still has to give: every number from it on; nothing once it is zero. *)
Definition unused (counter : N) (id : positive) : Prop :=
  (counter ≠ 0 ∧ counter ≤ Npos id)%N.

Lemma next_typed_id_Ok n n' id :
  (n ≤ u64_max)%N → next_typed_id n = (n', Ok id) →
  n = Npos id ∧ unused n id ∧ ¬ unused n' id ∧ (∀ j, unused n' j → unused n j) ∧ (n' ≤ u64_max)%N ∧
  (n' = n + 1 ∨ n' = 0)%N.
Proof.
  unfold next_typed_id, u64_succ, unused. intros Hn. case_bool_decide; [done|].
  destruct n as [|p]; [done|]. case_bool_decide as Hmax; cbn; intros [= <- <-].
  all: (split; [done|]; split; [lia|]; split; [lia|]; split; [intros j; lia|split; lia]).
Qed.

Lemma next_typed_id_Err n n' e : next_typed_id n = (n', Err e) → n = 0%N ∧ n' = 0%N.
Proof.
  unfold next_typed_id. case_bool_decide; [by intros [= <- _]|]. by destruct n.
Qed.

(** [n] allocations in a row: the identifiers handed out, in order. *)
Fixpoint allocate (k : nat) (counter : N) : list positive :=
  match k with
  | O => []
  | S k => match next_typed_id counter with
           | (counter, Ok id) => id :: allocate k counter
           | (counter, Err _) => allocate k counter
           end
  end.

Lemma allocate_unused k n id : (n ≤ u64_max)%N → id ∈ allocate k n → unused n id.
Proof.
  revert n. induction k as [|k IH]; intros n Hn; cbn; [by rewrite elem_of_nil|].
  destruct (next_typed_id n) as [n' [i|e]] eqn:H.
  - destruct (next_typed_id_Ok _ _ _ Hn H) as (_ & Hi & _ & Hle & Hn' & _).
    rewrite elem_of_cons. intros [->|Hin]; [done|]. eauto.
  - apply next_typed_id_Err in H as [-> ->]. by apply IH.
Qed.

(** ** The event queue of one consumer *)

Record EventQueue (A : Type) : Type := { eq_capacity : N; eq_dropped : N; eq_events : list A }.
Arguments eq_capacity {A}. Arguments eq_dropped {A}. Arguments eq_events {A}.
Definition EventQueue_new {A} (capacity : N) : EventQueue A :=
  {| eq_capacity := capacity; eq_dropped := 0; eq_events := [] |}.

Definition queue_push {A} (event : A) (self : EventQueue A) : EventQueue A :=
  if bool_decide (len (eq_events self) = eq_capacity self)
  then {| eq_capacity := eq_capacity self; eq_dropped := usize_saturating_add (eq_dropped self) 1;
          eq_events := tail (eq_events self) ++ [event] |}
  else {| eq_capacity := eq_capacity self; eq_dropped := eq_dropped self;
          eq_events := eq_events self ++ [event] |}.

Definition lagged_error (dropped : N) : BrowserError :=
  BrowserError_new EVENT_LAGGED (lit "browser event consumer lagged; dropped " ++ dec dropped ++ lit " events").

(** [EventChannel::pop] once it no longer waits *)
Inductive Popped (A : Type) : Type := PopEvent (event : A) | PopEmpty | PopLagged (dropped : N).
Arguments PopEvent {A}. Arguments PopEmpty {A}. Arguments PopLagged {A}.
Definition queue_pop {A} (self : EventQueue A) : EventQueue A * Popped A :=
  if bool_decide (0 < eq_dropped self)%N
  then ({| eq_capacity := eq_capacity self; eq_dropped := 0; eq_events := eq_events self |},
        PopLagged (eq_dropped self))
  else match eq_events self with
       | [] => (self, PopEmpty)
       | e :: es => ({| eq_capacity := eq_capacity self; eq_dropped := eq_dropped self; eq_events := es |}, PopEvent e)
       end.
Definition pop_result {A} (p : Popped A) : result BrowserError (option A) :=
  match p with
  | PopEvent e => Ok (Some e)
  | PopEmpty => Ok None
  | PopLagged dropped => Err (lagged_error dropped)
  end.

(** One consumer's history: the events pushed and what its pops returned, oldest first. *)
Inductive QueueOp (A : Type) : Type := OpPush (event : A) | OpPop.
Arguments OpPush {A}. Arguments OpPop {A}.
Record QueueRun (A : Type) : Type := { qr_queue : EventQueue A; qr_pushed : list A; qr_popped : list (Popped A) }.
Arguments qr_queue {A}. Arguments qr_pushed {A}. Arguments qr_popped {A}.
Definition queue_step {A} (r : QueueRun A) (op : QueueOp A) : QueueRun A :=
  match op with
  | OpPush e => {| qr_queue := queue_push e (qr_queue r); qr_pushed := qr_pushed r ++ [e]; qr_popped := qr_popped r |}
  | OpPop => let '(q, p) := queue_pop (qr_queue r) in
             {| qr_queue := q; qr_pushed := qr_pushed r; qr_popped := qr_popped r ++ [p] |}
  end.
Definition queue_run {A} (capacity : N) (ops : list (QueueOp A)) : QueueRun A :=
  foldl queue_step {| qr_queue := EventQueue_new capacity; qr_pushed := []; qr_popped := [] |} ops.

(** How many events a consumer has received or knows it has lost. *)
Definition accounted {A} (log : list (Popped A)) : N :=
  sumN (λ p, match p with PopEvent _ => 1 | PopEmpty => 0 | PopLagged d => d end)%N log.

(** What a log says about the stream: it skips exactly what it reports lost. *)
Fixpoint explains {A} (stream : list A) (log : list (Popped A)) : Prop :=
  match log with
  | [] => True
  | PopEvent e :: log => ∃ rest, stream = e :: rest ∧ explains rest log
  | PopEmpty :: log => explains stream log
  | PopLagged d :: log => (d ≤ len stream)%N ∧ explains (drop (N.to_nat d) stream) log
  end.

(** ** The hub: the owner's queue and one queue per live client *)

Record EventChannel (A : Type) : Type := {
  ch_queue : EventQueue A;
  (** the [Weak] handles, in the order of subscription *)
  ch_subscribers : list nat;
  (** the clients whose [Arc] is still held, by the order of subscription *)
  ch_clients : gmap nat (EventQueue A);
  ch_next : nat;
}.
Arguments ch_queue {A}. Arguments ch_subscribers {A}. Arguments ch_clients {A}. Arguments ch_next {A}.
Definition EventChannel_new {A} (capacity : N) : EventChannel A :=
  {| ch_queue := EventQueue_new capacity; ch_subscribers := []; ch_clients := ∅; ch_next := 0 |}.

(** [subscribers.retain(..)]: the clients that are gone are forgotten. *)
Fixpoint push_subscribers {A} (event : A) (subs : list nat) (clients : gmap nat (EventQueue A)) :
    list nat * gmap nat (EventQueue A) :=
  match subs with
  | [] => ([], clients)
  | i :: subs =>
      match clients !! i with
      | None => push_subscribers event subs clients
      | Some q => let '(kept, clients) := push_subscribers event subs (<[i := queue_push event q]> clients) in
                  (i :: kept, clients)
      end
  end.
Definition channel_push {A} (event : A) (self : EventChannel A) : EventChannel A :=
  let '(kept, clients) := push_subscribers event (ch_subscribers self) (ch_clients self) in
  {| ch_queue := queue_push event (ch_queue self); ch_subscribers := kept; ch_clients := clients;
     ch_next := ch_next self |}.
Definition channel_subscribe {A} (self : EventChannel A) : EventChannel A :=
  {| ch_queue := ch_queue self; ch_subscribers := ch_subscribers self ++ [ch_next self];
     ch_clients := <[ch_next self := EventQueue_new (eq_capacity (ch_queue self))]> (ch_clients self);
     ch_next := S (ch_next self) |}.
(** A client pops, or is dropped. *)
Definition client_pop {A} (i : nat) (self : EventChannel A) : EventChannel A :=
  match ch_clients self !! i with
  | None => self
  | Some q => {| ch_queue := ch_queue self; ch_subscribers := ch_subscribers self;
                 ch_clients := <[i := (queue_pop q).1]> (ch_clients self); ch_next := ch_next self |}
  end.
Definition client_drop {A} (i : nat) (self : EventChannel A) : EventChannel A :=
  {| ch_queue := ch_queue self; ch_subscribers := ch_subscribers self; ch_clients := delete i (ch_clients self);
     ch_next := ch_next self |}.
Definition owner_pop {A} (self : EventChannel A) : EventChannel A :=
  {| ch_queue := (queue_pop (ch_queue self)).1; ch_subscribers := ch_subscribers self;
     ch_clients := ch_clients self; ch_next := ch_next self |}.

Inductive HubOp (A : Type) : Type :=
| HubPush (event : A) | HubSubscribe | HubOwnerPop | HubClientPop (i : nat) | HubClientDrop (i : nat).
Arguments HubPush {A}. Arguments HubSubscribe {A}. Arguments HubOwnerPop {A}. Arguments HubClientPop {A}.
Arguments HubClientDrop {A}.
Definition hub_step {A} (hub : EventChannel A) (op : HubOp A) : EventChannel A :=
  match op with
  | HubPush e => channel_push e hub
  | HubSubscribe => channel_subscribe hub
  | HubOwnerPop => owner_pop hub
  | HubClientPop i => client_pop i hub
  | HubClientDrop i => client_drop i hub
  end.
Definition hub_run {A} (capacity : N) (ops : list (HubOp A)) : EventChannel A :=
  foldl hub_step (EventChannel_new capacity) ops.

(** What client [i] does and sees: nothing before its own subscription. *)
Fixpoint client_view {A} (i : nat) (seen : nat) (ops : list (HubOp A)) : list (QueueOp A) :=
  match ops with
  | [] => []
  | HubPush e :: ops => if bool_decide (i < seen) then OpPush e :: client_view i seen ops else client_view i seen ops
  | HubSubscribe :: ops => client_view i (S seen) ops
  | HubClientPop j :: ops => if bool_decide (i = j ∧ i < seen) then OpPop :: client_view i seen ops else client_view i seen ops
  | _ :: ops => client_view i seen ops
  end.

(** ** Laws of the queue *)

Section queue_laws.
Context {A : Type}.
Implicit Types (s : list A) (log : list (Popped A)).

#[local] Arguments accounted : simpl never.

Lemma accounted_app log log' : accounted (log ++ log') = (accounted log + accounted log')%N.
Proof. unfold accounted. apply sumN_app. Qed.

Lemma accounted_snoc log p :
  accounted (log ++ [p]) =
  (accounted log + match p with PopEvent _ => 1 | PopEmpty => 0 | PopLagged d => d end)%N.
Proof. rewrite accounted_app. unfold accounted at 2. cbn. lia. Qed.

Lemma explains_app s log log' :
  explains s (log ++ log') ↔ explains s log ∧ explains (drop (N.to_nat (accounted log)) s) log'.
Proof.
  revert s. induction log as [|[e| |d] log IH]; intros s; cbn.
  - naive_solver.
  - change (accounted (PopEvent e :: log)) with (1 + accounted log)%N.
    assert (N.to_nat (1 + accounted log) = S (N.to_nat (accounted log))) as -> by lia. split.
    + intros (rest & -> & [H1 H2]%IH). eauto.
    + intros [(rest & -> & H1) H2]. exists rest. split; [done|]. by apply IH.
  - change (accounted (PopEmpty :: log)) with (0 + accounted log)%N. apply IH.
  - change (accounted (PopLagged d :: log)) with (d + accounted log)%N. rewrite IH, drop_drop.
    replace (N.to_nat (d + accounted log)) with (N.to_nat d + N.to_nat (accounted log)) by lia. tauto.
Qed.

(** The state of a consumer: the queue is the part of the stream it has not got to. *)
Record queue_inv (capacity : N) (r : QueueRun A) : Prop := {
  qi_capacity : eq_capacity (qr_queue r) = capacity;
  qi_bound : (len (eq_events (qr_queue r)) ≤ capacity)%N;
  qi_events : eq_events (qr_queue r) =
    drop (N.to_nat (accounted (qr_popped r) + eq_dropped (qr_queue r))) (qr_pushed r);
  qi_total : (accounted (qr_popped r) + eq_dropped (qr_queue r) + len (eq_events (qr_queue r)) =
              len (qr_pushed r))%N;
  qi_explains : explains (qr_pushed r) (qr_popped r);
}.

Lemma explains_grow s log e : explains s log → explains (s ++ [e]) log.
Proof.
  revert s. induction log as [|[x| |d] log IH]; intros s; cbn; [done| | |].
  - intros (rest & -> & H). by exists (rest ++ [e]); eauto.
  - apply IH.
  - intros [Hd H]. rewrite len_app. split; [lia|].
    rewrite drop_app_le by (unfold len in Hd; lia). by apply IH.
Qed.

Lemma queue_inv_push capacity r e :
  (1 ≤ capacity)%N → (len (qr_pushed r) < usize_max)%N →
  queue_inv capacity r → queue_inv capacity (queue_step r (OpPush e)).
Proof.
  intros Hcap Hmax [Hc Hb He Ht Hx]. destruct r as [[c d es] s log]; cbn in *. subst c.
  assert (length es = length s - (N.to_nat (accounted log + d))) as Hlen by (by rewrite He, length_drop).
  unfold len in *. unfold queue_push; cbn. unfold len. case_bool_decide as Hfull.
  - destruct es as [|x es]; cbn in *; [lia|].
    assert (usize_saturating_add d 1 = d + 1)%N as -> by (unfold usize_saturating_add; lia).
    constructor; cbn; unfold len; rewrite ?length_app; cbn; [done|lia| |lia|by apply explains_grow].
    rewrite drop_app_le by (cbn in *; lia). f_equal.
    replace (N.to_nat (accounted log + (d + 1))) with (N.to_nat (accounted log + d) + 1) by lia.
    by rewrite <-drop_drop, <-He.
  - constructor; cbn; unfold len; rewrite ?length_app; cbn; [done|lia| |lia|by apply explains_grow].
    rewrite drop_app_le by (cbn in *; lia). by rewrite <-He.
Qed.

Lemma queue_inv_pop capacity r : queue_inv capacity r → queue_inv capacity (queue_step r OpPop).
Proof.
  intros [Hc Hb He Ht Hx]. destruct r as [[c d es] s log]; cbn in *. subst c. unfold queue_pop; cbn.
  case_bool_decide as Hd; [|assert (d = 0%N) as -> by lia; destruct es as [|e es]];
    constructor; cbn; rewrite ?accounted_snoc, ?len_cons in *; try done; try lia.
  - by rewrite N.add_0_r.
  - apply explains_app. cbn. split; [done|]. split; [|done]. unfold len in *. rewrite length_drop. lia.
  - rewrite N.add_0_r in *. by rewrite N.add_0_r.
  - by apply explains_app.
  - assert (N.to_nat (accounted log + 1 + 0) = N.to_nat (accounted log + 0) + 1) as -> by lia.
    by rewrite <-drop_drop, <-He.
  - apply explains_app. split; [done|]. cbn. exists es. rewrite N.add_0_r in He. done.
Qed.

Lemma queue_run_snoc capacity (ops : list (QueueOp A)) op :
  queue_run capacity (ops ++ [op]) = queue_step (queue_run capacity ops) op.
Proof. unfold queue_run. by rewrite foldl_app. Qed.

Lemma pushed_step (r : QueueRun A) op : (len (qr_pushed r) ≤ len (qr_pushed (queue_step r op)))%N.
Proof.
  destruct op; cbn; [rewrite len_app; lia|]. by destruct (queue_pop (qr_queue r)).
Qed.

Lemma queue_run_inv capacity (ops : list (QueueOp A)) :
  (1 ≤ capacity)%N → (len (qr_pushed (queue_run capacity ops)) ≤ usize_max)%N →
  queue_inv capacity (queue_run capacity ops).
Proof.
  intros Hcap. induction ops as [|op ops IH] using rev_ind.
  - intros _. constructor; cbn; try done. unfold len; cbn. lia.
  - rewrite queue_run_snoc. intros Hmax.
    assert (Hr : queue_inv capacity (queue_run capacity ops)).
    { apply IH. etrans; [apply pushed_step|exact Hmax]. }
    destruct op; [|by apply queue_inv_pop].
    apply queue_inv_push; [done| |done]. cbn in Hmax. rewrite len_app in Hmax.
    change (len [event]) with 1%N in Hmax. lia.
Qed.
End queue_laws.

(** C32. A consumer of browser events loses nothing silently: its queue stays within the
    capacity, everything a pop returns is the next event of the stream after the ones it has
    received or been told it lost, a lag report names the exact number skipped, and what
    was received, reported and is still owed adds up to what was emitted. *)
Theorem no_silent_loss {A} capacity (ops : list (QueueOp A)) :
  (1 ≤ capacity)%N → (len (qr_pushed (queue_run capacity ops)) ≤ usize_max)%N →
  let r := queue_run capacity ops in
  explains (qr_pushed r) (qr_popped r) ∧
  (len (eq_events (qr_queue r)) ≤ capacity)%N ∧
  (accounted (qr_popped r) + eq_dropped (qr_queue r) + len (eq_events (qr_queue r)) = len (qr_pushed r))%N.
Proof. intros Hcap Hmax r. destruct (queue_run_inv capacity ops Hcap Hmax). done. Qed.

Lemma no_silent_loss_witness :
  let r := queue_run 2 [OpPush 1; OpPush 2; OpPush 3; OpPop; OpPop; OpPop; OpPop] in
  qr_popped r = [PopLagged 1; PopEvent 2; PopEvent 3; PopEmpty] ∧ explains (qr_pushed r) (qr_popped r).
Proof.
  split; [reflexivity|]. apply (no_silent_loss 2 [OpPush 1; OpPush 2; OpPush 3; OpPop; OpPop; OpPop; OpPop]).
  - lia.
  - vm_compute. discriminate.
Defined.

(** ** Laws of the hub *)

Section hub_laws.
Context {A : Type}.
Implicit Types (hub : EventChannel A) (ops : list (HubOp A)).

Lemma filter_ext_in (P Q : nat → Prop) `{∀ i, Decision (P i), ∀ i, Decision (Q i)} (l : list nat) :
  (∀ i, i ∈ l → P i ↔ Q i) → filter P l = filter Q l.
Proof.
  induction l as [|i l IH]; intros Hl; [done|]. rewrite !filter_cons.
  assert (P i ↔ Q i) as Hi by (apply Hl; by left).
  rewrite IH by (intros j Hj; apply Hl; by right). by do 2 case_decide; naive_solver.
Qed.

Lemma push_subscribers_spec (e : A) subs clients :
  NoDup subs →
  (push_subscribers e subs clients).1 = filter (λ i, is_Some (clients !! i)) subs ∧
  ∀ i, (push_subscribers e subs clients).2 !! i =
       if bool_decide (i ∈ subs) then queue_push e <$> clients !! i else clients !! i.
Proof.
  revert clients. induction subs as [|j subs IH]; intros clients Hnd.
  - split; [done|]. intros i. cbn. case_bool_decide as Hi; [by apply elem_of_nil in Hi|done].
  - apply NoDup_cons in Hnd as [Hj Hnd]. cbn [push_subscribers].
    destruct (clients !! j) as [q|] eqn:Hq.
    + destruct (IH (<[j := queue_push e q]> clients) Hnd) as [H1 H2].
      destruct (push_subscribers e subs _) as [kept cs]. cbn [fst snd] in *. split.
      * rewrite filter_cons_True by (by eexists). f_equal. rewrite H1.
        apply filter_ext_in. intros i Hi. rewrite lookup_insert_ne; [done|]. by intros ->.
      * intros i. rewrite H2. destruct (decide (i = j)) as [->|Hne].
        -- rewrite (bool_decide_eq_false_2 (j ∈ subs)) by done.
           rewrite bool_decide_eq_true_2 by set_solver. by rewrite lookup_insert_eq, Hq.
        -- rewrite lookup_insert_ne by done. do 2 case_bool_decide; set_solver.
    + destruct (IH clients Hnd) as [H1 H2]. split.
      * rewrite filter_cons_False by (rewrite Hq; by intros [? ?]). done.
      * intros i. rewrite H2. destruct (decide (i = j)) as [->|Hne].
        -- rewrite Hq. by do 2 case_bool_decide.
        -- do 2 case_bool_decide; set_solver.
Qed.

Fixpoint subscriptions ops : nat :=
  match ops with
  | [] => 0
  | HubSubscribe :: ops => S (subscriptions ops)
  | _ :: ops => subscriptions ops
  end.

Lemma subscriptions_app ops ops' : subscriptions (ops ++ ops') = subscriptions ops + subscriptions ops'.
Proof. induction ops as [|[] ops IH]; cbn; lia. Qed.

Lemma client_view_snoc i seen ops op :
  client_view i seen (ops ++ [op]) = client_view i seen ops ++ client_view i (seen + subscriptions ops) [op].
Proof.
  revert seen. induction ops as [|o ops IH]; intros seen; [by rewrite Nat.add_0_r|].
  destruct o; cbn [app client_view subscriptions]; rewrite ?IH, ?Nat.add_succ_r; try done;
    by case_bool_decide.
Qed.

Record hub_inv capacity ops hub : Prop := {
  hi_next : ch_next hub = subscriptions ops;
  hi_capacity : eq_capacity (ch_queue hub) = capacity;
  hi_nodup : NoDup (ch_subscribers hub);
  hi_old : Forall (λ i, i < ch_next hub) (ch_subscribers hub);
  hi_live : ∀ i q, ch_clients hub !! i = Some q →
    i ∈ ch_subscribers hub ∧ q = qr_queue (queue_run capacity (client_view i 0 ops));
}.

Lemma queue_pop_capacity (q : EventQueue A) : eq_capacity (queue_pop q).1 = eq_capacity q.
Proof. unfold queue_pop. case_bool_decide; [done|]. by destruct (eq_events q). Qed.
Lemma queue_push_capacity e (q : EventQueue A) : eq_capacity (queue_push e q) = eq_capacity q.
Proof. unfold queue_push. by case_bool_decide. Qed.

(** What a step appends to the view of a client. *)
Lemma view_run capacity i ops op :
  qr_queue (queue_run capacity (client_view i 0 (ops ++ [op]))) =
  foldl (λ q o, match o with OpPush e => queue_push e q | OpPop => (queue_pop q).1 end)
    (qr_queue (queue_run capacity (client_view i 0 ops))) (client_view i (subscriptions ops) [op]).
Proof.
  rewrite client_view_snoc. cbn [Nat.add]. generalize (client_view i (subscriptions ops) [op]).
  intros l. unfold queue_run. rewrite foldl_app.
  generalize (foldl queue_step {| qr_queue := EventQueue_new capacity; qr_pushed := []; qr_popped := [] |}
                (client_view i 0 ops)).
  induction l as [|o l IH]; intros r; [done|]. cbn [foldl]. rewrite IH. f_equal.
  destruct o; [done|]. cbn. by destruct (queue_pop (qr_queue r)).
Qed.

Lemma view_before capacity i ops : subscriptions ops ≤ i → queue_run capacity (client_view i 0 ops) = queue_run capacity [].
Proof.
  induction ops as [|op ops IH] using rev_ind; [done|]. intros Hi.
  assert (subscriptions ops ≤ i) as Hle.
  { etrans; [|exact Hi]. rewrite subscriptions_app. lia. }
  rewrite client_view_snoc. cbn [Nat.add].
  assert (client_view i (subscriptions ops) [op] = []) as ->; [|rewrite app_nil_r; auto].
  destruct op; cbn; try done; rewrite bool_decide_eq_false_2; naive_solver lia.
Qed.

Lemma hub_inv_step capacity ops hub op :
  hub_inv capacity ops hub → hub_inv capacity (ops ++ [op]) (hub_step hub op).
Proof.
  intros [Hn Hc Hnd Hold Hlive].
  pose proof (subscriptions_app ops [op]) as Hsub.
  destruct op as [e| | |j|j]; cbn [hub_step].
  - unfold channel_push. destruct (push_subscribers_spec e (ch_subscribers hub) (ch_clients hub) Hnd) as [H1 H2].
    destruct (push_subscribers e (ch_subscribers hub) (ch_clients hub)) as [kept cs]. cbn [fst snd] in H1, H2.
    constructor; cbn [ch_queue ch_subscribers ch_clients ch_next].
    + rewrite Hsub. cbn. lia.
    + by rewrite queue_push_capacity.
    + subst kept. by apply NoDup_filter.
    + subst kept. apply Forall_forall. intros i [_ Hi]%list_elem_of_filter. by eapply Forall_forall in Hold.
    + intros i q. rewrite H2. case_bool_decide as Hi.
      * rewrite fmap_Some. intros (q0 & Hq0 & ->). destruct (Hlive _ _ Hq0) as [_ ->]. split.
        -- subst kept. apply list_elem_of_filter. by rewrite Hq0.
        -- rewrite view_run. cbn. rewrite bool_decide_eq_true_2; [done|].
           rewrite <-Hn. by eapply Forall_forall in Hold.
      * intros Hq. by destruct (Hlive _ _ Hq).
  - constructor; cbn [channel_subscribe ch_queue ch_subscribers ch_clients ch_next]; [|done| | |].
    + rewrite Hsub. cbn. lia.
    + apply NoDup_app. split; [done|]. split; [|by apply NoDup_singleton].
      intros i Hi ->%list_elem_of_singleton. eapply Forall_forall in Hold; [|done]. lia.
    + apply Forall_app. split; [|by constructor; [lia|]].
      eapply Forall_impl; [exact Hold|]. cbn. lia.
    + intros i q Hq. rewrite elem_of_app, list_elem_of_singleton. rewrite view_run. cbn.
      destruct (decide (i = ch_next hub)) as [->|Hne].
      * rewrite lookup_insert_eq in Hq. injection Hq as <-. split; [by right|].
        rewrite view_before by lia. by rewrite Hc.
      * rewrite lookup_insert_ne in Hq by done. destruct (Hlive _ _ Hq). auto.
  - constructor; cbn [owner_pop ch_queue ch_subscribers ch_clients ch_next]; try done.
    + rewrite Hsub. cbn. lia.
    + by rewrite queue_pop_capacity.
    + intros i q Hq. rewrite view_run. cbn. auto.
  - constructor.
    + rewrite Hsub. unfold client_pop. destruct (ch_clients hub !! j); cbn; lia.
    + unfold client_pop. by destruct (ch_clients hub !! j).
    + unfold client_pop. by destruct (ch_clients hub !! j).
    + unfold client_pop. by destruct (ch_clients hub !! j).
    + intros i q Hq. rewrite view_run. unfold client_pop in *. cbn [client_view].
      destruct (ch_clients hub !! j) as [qj|] eqn:Hj; cbn [ch_clients ch_subscribers] in *.
      * destruct (decide (i = j)) as [->|Hne].
        -- rewrite lookup_insert_eq in Hq. injection Hq as <-. destruct (Hlive _ _ Hj) as [Hin ->].
           split; [done|]. rewrite bool_decide_eq_true_2; [done|]. split; [done|]. rewrite <-Hn.
           by eapply Forall_forall in Hold.
        -- rewrite lookup_insert_ne in Hq by done. rewrite bool_decide_eq_false_2 by naive_solver. by apply Hlive.
      * destruct (decide (i = j)) as [->|Hne]; [congruence|].
        rewrite bool_decide_eq_false_2 by naive_solver. by apply Hlive.
  - constructor; cbn [client_drop ch_queue ch_subscribers ch_clients ch_next]; try done.
    + rewrite Hsub. cbn. lia.
    + intros i q. rewrite lookup_delete_Some. intros [_ Hq]. rewrite view_run. cbn. by apply Hlive.
Qed.

Lemma hub_run_inv capacity ops : hub_inv capacity ops (hub_run capacity ops).
Proof.
  induction ops as [|op ops IH] using rev_ind.
  - constructor; cbn; try done; constructor.
  - unfold hub_run. rewrite foldl_app. by apply hub_inv_step.
Qed.
End hub_laws.

(** C33. The hub gives every live client a queue of its own: whatever the other clients and
    the owner do or fail to do, the queue is the one the client would have had alone, fed
    with every event since its subscription. *)
Theorem clients_are_isolated {A} capacity (ops : list (HubOp A)) i q :
  ch_clients (hub_run capacity ops) !! i = Some q → q = qr_queue (queue_run capacity (client_view i 0 ops)).
Proof. apply hub_run_inv. Qed.

Lemma clients_are_isolated_witness :
  ch_clients (hub_run 1 [HubPush 1; HubSubscribe; HubSubscribe; HubPush 2; HubClientPop 1; HubPush 3]) !! 0 =
    Some {| eq_capacity := 1; eq_dropped := 1; eq_events := [3] |} ∧
  {| eq_capacity := 1; eq_dropped := 1; eq_events := [3] |} =
    qr_queue (queue_run 1 (client_view 0 0
      [HubPush 1; HubSubscribe; HubSubscribe; HubPush 2; HubClientPop 1; HubPush 3])).
Proof.
  split; [reflexivity|].
  apply (clients_are_isolated 1 [HubPush 1; HubSubscribe; HubSubscribe; HubPush 2; HubClientPop 1; HubPush 3] 0).
  reflexivity.
Defined.

(** Identifiers of one kind are never handed out twice, whatever their number: the
    [k]-th allocation from a fresh allocator is [k], until the 64-bit space is used up. *)
Theorem ids_never_repeat k :
  NoDup (allocate k 1) ∧ ∀ i id, allocate k 1 !! i = Some id → Npos id = N.of_nat (S i).
Proof.
  assert (H : ∀ k n, (n ≤ u64_max)%N → NoDup (allocate k n) ∧
    ∀ i id, allocate k n !! i = Some id → (Npos id = n + N.of_nat i)%N).
  { clear k. induction k as [|k IH]; intros n Hn; cbn; [split; [constructor|done]|].
    destruct (next_typed_id n) as [n' [id|e]] eqn:E.
    - destruct (next_typed_id_Ok _ _ _ Hn E) as (-> & Hu & Hn1 & Hle & Hn' & Hstep). clear E.
      destruct (IH n' Hn') as [Hnd Hi]. split.
      + apply NoDup_cons. split; [|done]. intros Hin%allocate_unused; done.
      + intros [|i] j; cbn; [intros [= <-]; lia|]. intros Hj. specialize (Hi _ _ Hj).
        apply list_elem_of_lookup_2, allocate_unused in Hj as [Hj _]; [|done].
        destruct Hstep as [->| ->]; [clear -Hi|done]. lia.
    - apply next_typed_id_Err in E as [-> ->]. by apply IH. }
  assert (1 ≤ u64_max)%N as H1 by done.
  split; [by apply H|]. intros i id Hi. apply (H k 1%N H1) in Hi. clear -Hi. lia.
Qed.
