(* ===== verification/BrowserProtocol.v ===== *)
(** * What the events of the browser core say

    The contract of [crates/vixen-engine/src/browser.rs] with the consumers of its events, as
    an executable monitor: a state machine over [BrowserEvent] that keeps what a consumer can
    know of the browser, and that refuses an event which does not fit.  [BrowserLoopFacts]
    proves that the core never emits an event that the monitor refuses and that what the
    monitor knows is what the core has.  The theorems here say what an accepted stream of
    events is like. *)

From Stdlib Require Import Lia ZArith.
From stdpp Require Import base decidable gmap sets list strings.
From S2P Require Import Prelude.
From S2P Require Import RustFloat.
From S2P Require Import RenderModel.
From S2P Require Import BrowserApi.

(** ** The state of the monitor *)

(** How far a navigation has come: the last event that told of it. *)
Inductive NavStage : Type :=
| AtRequested | AtIntent | AtPolicy | AtStarted | AtRequest | AtResponse | AtCommit | AtParse
| AtDestroyed | AtDiscarded | AtCommitted | AtCreated | AtSubresources
| AtDom | AtDomEvent | AtLoad | AtLoadEvent | AtFailed | AtCancelled.
#[export] Instance NavStage_eq_dec : EqDecision NavStage.
Proof. solve_decision. Defined.

Inductive Stage : Type :=
| Idle
| Navigating (n : NavigationId) (r : option RequestId) (at_ : NavStage)
| RuntimeGone | DocumentGone.
#[export] Instance Stage_eq_dec : EqDecision Stage.
Proof. solve_decision. Defined.

Record ContextView : Type := {
  v_frame : FrameId; v_document : DocumentId; v_runtime : RuntimeContextId; v_stage : Stage;
}.
Record Monitor : Type := {
  m_contexts : gmap BrowsingContextId ContextView;
  m_closed : gset BrowsingContextId;
  m_active : option BrowsingContextId;
  (** the largest identifiers seen so far *)
  m_context : N; m_document : N; m_runtime : N; m_navigation : N;
}.
Definition Monitor_new : Monitor :=
  {| m_contexts := ∅; m_closed := ∅; m_active := None; m_context := 0; m_document := 0; m_runtime := 0; m_navigation := 0 |}.

Definition put_view (c : BrowsingContextId) (v : ContextView) (m : Monitor) : Monitor :=
  {| m_contexts := <[c := v]> (m_contexts m); m_closed := m_closed m; m_active := m_active m; m_context := m_context m;
     m_document := m_document m; m_runtime := m_runtime m; m_navigation := m_navigation m |}.
Definition at_stage (s : Stage) (v : ContextView) : ContextView :=
  {| v_frame := v_frame v; v_document := v_document v; v_runtime := v_runtime v; v_stage := s |}.

(** The stages at which a navigation can end before it is settled, and at which a context can
    be observed. *)
Definition resting (at_ : NavStage) : bool :=
  match at_ with AtRequest | AtParse | AtSubresources | AtDomEvent | AtLoadEvent => true | _ => false end.
Definition quiet (s : Stage) : bool :=
  match s with Idle => true | Navigating _ _ at_ => resting at_ | _ => false end.

Definition phase_step (at_ : NavStage) (p : NavigationPhase) : option NavStage :=
  match p, at_ with
  | Intent, AtRequested => Some AtIntent
  | Policy, AtIntent => Some AtPolicy
  | Request, AtStarted => Some AtRequest
  | Response, AtRequest => Some AtResponse
  | Commit, AtResponse => Some AtCommit
  | Parse, AtCommit => Some AtParse
  | ScriptsAndSubresources, AtCreated => Some AtSubresources
  | DomContentLoaded, AtSubresources => Some AtDom
  | Load, AtDomEvent => Some AtLoad
  | Failed, at_ => if resting at_ then Some AtFailed else None
  | Cancelled, at_ => if resting at_ then Some AtCancelled else None
  | _, _ => None
  end.

(** What the state of a context must say at a stage *)
Definition active_of (s : Stage) : option NavigationId :=
  match s with Navigating n _ _ => Some n | _ => None end.
Definition state_fits (v : ContextView) (x : BrowsingContextState) : bool :=
  bool_decide (bs_main_frame_id x = v_frame v) && bool_decide (bs_document_id x = v_document v) &&
  bool_decide (bs_runtime_context_id x = Some (v_runtime v)) && bool_decide (bs_active_navigation_id x = active_of (v_stage v)) &&
  bool_decide (bs_is_loading x = bool_decide (is_Some (active_of (v_stage v)))).

(** ** One event *)

(** The events about one context: the stage after it *)
Definition stage_step (v : ContextView) (e : BrowserEvent) : option Stage :=
  match e, v_stage v with
  | NavigationStarted _ _ n r _, Navigating n' _ AtPolicy =>
      if bool_decide (n = n') then Some (Navigating n (Some r) AtStarted) else None
  | NavigationRedirected _ _ n r next _ _ _, Navigating n' r' AtRequest =>
      if bool_decide (n = n' ∧ Some r = r') then Some (Navigating n (Some next) AtRequest) else None
  | NavigationPhaseChanged _ _ n Settled, Navigating n' _ AtLoadEvent => if bool_decide (n = n') then Some Idle else None
  | NavigationPhaseChanged _ _ n p, Navigating n' r at_ =>
      if bool_decide (n = n') then Navigating n r <$> phase_step at_ p else None
  | RuntimeContextDestroyed _ _ d r, Navigating n q AtParse =>
      if bool_decide (d = v_document v ∧ r = v_runtime v) then Some (Navigating n q AtDestroyed) else None
  | RuntimeContextDestroyed _ _ d r, Idle => if bool_decide (d = v_document v ∧ r = v_runtime v) then Some RuntimeGone else None
  | DocumentDiscarded _ _ d by_, Navigating n q AtDestroyed =>
      if bool_decide (d = v_document v ∧ by_ = Some n) then Some (Navigating n q AtDiscarded) else None
  | DocumentDiscarded _ _ d by_, RuntimeGone => if bool_decide (d = v_document v ∧ by_ = None) then Some DocumentGone else None
  | RuntimeContextCreated _ _ d r, Navigating n q AtCommitted =>
      if bool_decide (d = v_document v ∧ r = v_runtime v) then Some (Navigating n q AtCreated) else None
  | EffectsEvent _ _ d r _ _, s =>
      if quiet s && bool_decide (d = v_document v ∧ r = v_runtime v) then Some s else None
  | DomContentLoadedEvent _ _ n d, Navigating n' r AtDom =>
      if bool_decide (n = n' ∧ d = v_document v) then Some (Navigating n r AtDomEvent) else None
  | DocumentLoadCompleted _ _ n d, Navigating n' r AtLoad =>
      if bool_decide (n = n' ∧ d = v_document v) then Some (Navigating n r AtLoadEvent) else None
  | NavigationCancelled _ _ n r _, Navigating n' r' AtCancelled => if bool_decide (n = n' ∧ r = r') then Some Idle else None
  | NavigationFailed _ _ n _ _, Navigating n' _ AtFailed => if bool_decide (n = n') then Some Idle else None
  | _, _ => None
  end.

(** The context and the frame an event is about, if it is one of those *)
Definition event_frame (e : BrowserEvent) : option (BrowsingContextId * FrameId) :=
  match e with
  | NavigationStarted c f _ _ _ | NavigationRedirected c f _ _ _ _ _ _ | NavigationPhaseChanged c f _ _
  | RuntimeContextDestroyed c f _ _ | DocumentDiscarded c f _ _ | RuntimeContextCreated c f _ _ | EffectsEvent c f _ _ _ _
  | DomContentLoadedEvent c f _ _ | DocumentLoadCompleted c f _ _ | NavigationCancelled c f _ _ _ | NavigationFailed c f _ _ _ =>
      Some (c, f)
  | _ => None
  end.

Definition monitor_step (m : Monitor) (e : BrowserEvent) : option Monitor :=
  match e with
  | BrowsingContextCreated x =>
      match bs_runtime_context_id x, bs_active_navigation_id x with
      | Some r, None =>
          if bool_decide (m_context m < Npos (bs_context_id x) ∧ m_document m < Npos (bs_document_id x) ∧ m_runtime m < Npos r)%N
          then Some {| m_contexts := <[bs_context_id x := {| v_frame := bs_main_frame_id x; v_document := bs_document_id x;
                                                            v_runtime := r; v_stage := Idle |}]> (m_contexts m);
                       m_closed := m_closed m; m_active := m_active m; m_context := Npos (bs_context_id x);
                       m_document := Npos (bs_document_id x); m_runtime := Npos r; m_navigation := m_navigation m |}
          else None
      | _, _ => None
      end
  | BrowsingContextClosed c =>
      v ← m_contexts m !! c;
      if bool_decide (v_stage v = DocumentGone)
      then Some {| m_contexts := delete c (m_contexts m); m_closed := {[c]} ∪ m_closed m; m_active := m_active m;
                   m_context := m_context m; m_document := m_document m; m_runtime := m_runtime m; m_navigation := m_navigation m |}
      else None
  | ActiveBrowsingContextChanged o =>
      if match o with Some c => bool_decide (is_Some (m_contexts m !! c)) | None => bool_decide (m_contexts m = ∅) end
      then Some {| m_contexts := m_contexts m; m_closed := m_closed m; m_active := o; m_context := m_context m;
                   m_document := m_document m; m_runtime := m_runtime m; m_navigation := m_navigation m |}
      else None
  | NavigationRequested c f n _ _ _ =>
      v ← m_contexts m !! c;
      if bool_decide (f = v_frame v ∧ v_stage v = Idle ∧ (m_navigation m < Npos n)%N)
      then Some {| m_contexts := <[c := at_stage (Navigating n None AtRequested) v]> (m_contexts m); m_closed := m_closed m;
                   m_active := m_active m; m_context := m_context m; m_document := m_document m; m_runtime := m_runtime m;
                   m_navigation := Npos n |}
      else None
  | NavigationCommitted c f n q d (Some r) _ =>
      v ← m_contexts m !! c;
      match v_stage v with
      | Navigating n' q' AtDiscarded =>
          if bool_decide (f = v_frame v ∧ n = n' ∧ q = q' ∧ (m_document m < Npos d)%N ∧ (m_runtime m < Npos r)%N)
          then Some {| m_contexts := <[c := {| v_frame := f; v_document := d; v_runtime := r;
                                               v_stage := Navigating n q AtCommitted |}]> (m_contexts m);
                       m_closed := m_closed m; m_active := m_active m; m_context := m_context m; m_document := Npos d;
                       m_runtime := Npos r; m_navigation := m_navigation m |}
          else None
      | _ => None
      end
  | BrowsingContextStateChanged x =>
      v ← m_contexts m !! bs_context_id x;
      if state_fits v x && (quiet (v_stage v) || match v_stage v with Navigating _ _ AtIntent => true | _ => false end)
      then Some m else None
  | e =>
      '(c, f) ← event_frame e;
      v ← m_contexts m !! c;
      if bool_decide (f = v_frame v) then s ← stage_step v e; Some (put_view c (at_stage s v) m) else None
  end.

Fixpoint monitor_run (m : Monitor) (es : list BrowserEvent) : option Monitor :=
  match es with
  | [] => Some m
  | e :: es => m ← monitor_step m e; monitor_run m es
  end.
(** What a consumer that has received [es] knows *)
Definition replay (es : list BrowserEvent) : option Monitor := monitor_run Monitor_new es.

Lemma monitor_run_app m es es' : monitor_run m (es ++ es') = (m ← monitor_run m es; monitor_run m es').
Proof. revert m. induction es as [|e es IH]; intros m; [done|]. cbn. destruct (monitor_step m e); [apply IH|done]. Qed.
Lemma replay_snoc es e : replay (es ++ [e]) = (m ← replay es; monitor_step m e).
Proof. unfold replay. rewrite monitor_run_app. destruct (monitor_run _ es) as [m|]; [|done]. cbn. by destruct (monitor_step m e). Qed.

(** ** What a stream says of one navigation *)

Definition event_phase (e : BrowserEvent) : option (NavigationId * NavigationPhase) :=
  match e with NavigationPhaseChanged _ _ n p => Some (n, p) | _ => None end.
Fixpoint nav_phases (n : NavigationId) (es : list BrowserEvent) : list NavigationPhase :=
  match es with
  | [] => []
  | e :: es => match event_phase e with
               | Some (n', p) => if bool_decide (n' = n) then p :: nav_phases n es else nav_phases n es
               | None => nav_phases n es
               end
  end.
Definition event_request (e : BrowserEvent) : option NavigationId :=
  match e with NavigationRequested _ _ n _ _ _ => Some n | _ => None end.
Definition requested (n : NavigationId) (es : list BrowserEvent) : bool :=
  existsb (λ e, bool_decide (event_request e = Some n)) es.

Definition main_phases : list NavigationPhase :=
  [Intent; Policy; Request; Response; Commit; Parse; ScriptsAndSubresources; DomContentLoaded; Load; Settled].
(** How many of the main phases a stage has behind it; the ends are not among them. *)
Definition stage_index (at_ : NavStage) : nat :=
  match at_ with
  | AtRequested => 0 | AtIntent => 1 | AtPolicy | AtStarted => 2 | AtRequest => 3 | AtResponse => 4 | AtCommit => 5
  | AtParse | AtDestroyed | AtDiscarded | AtCommitted | AtCreated => 6 | AtSubresources => 7
  | AtDom | AtDomEvent => 8 | AtLoad | AtLoadEvent => 9 | AtFailed | AtCancelled => 0
  end.
Definition is_ending (at_ : NavStage) : bool := match at_ with AtFailed | AtCancelled => true | _ => false end.

(** The phases of a navigation that has ended: all of them, or up to a stage at which it may
    fail or be cancelled. *)
Definition ended (ps : list NavigationPhase) : Prop :=
  ps = main_phases ∨
  ∃ at_ p, resting at_ = true ∧ p ∈ [Failed; Cancelled] ∧ ps = take (stage_index at_) main_phases ++ [p].
Definition running (ps : list NavigationPhase) : Prop := ∃ k, k < 10 ∧ ps = take k main_phases.
(** The navigation is under way for a consumer. *)
Definition under_way (m : Monitor) (n : NavigationId) : Prop :=
  ∃ c v r at_, m_contexts m !! c = Some v ∧ v_stage v = Navigating n r at_ ∧ is_ending at_ = false.

Lemma nav_phases_app n es es' : nav_phases n (es ++ es') = nav_phases n es ++ nav_phases n es'.
Proof.
  induction es as [|e es IH]; [done|]. cbn. destruct (event_phase e) as [[n' p]|]; [|done].
  case_bool_decide; [|done]. by rewrite IH.
Qed.
Lemma requested_snoc n es e : requested n (es ++ [e]) = requested n es || bool_decide (event_request e = Some n).
Proof. unfold requested. rewrite existsb_app. cbn. by rewrite orb_false_r. Qed.

Lemma ended_terminal ps : ended ps → existsb is_terminal ps = true.
Proof.
  intros [->|(at_ & p & _ & Hp & ->)]; [done|]. rewrite existsb_app. apply orb_true_iff. right. cbn.
  rewrite !elem_of_cons, elem_of_nil in Hp. by destruct Hp as [->|[->|[]]].
Qed.
Lemma running_not_terminal ps : running ps → existsb is_terminal ps = false.
Proof. intros (k & Hk & ->). do 10 (destruct k as [|k]; [done|]). lia. Qed.

(** What an event does to the stage of its context, as far as phases go *)
Inductive stage_moves (e : BrowserEvent) : Stage → Stage → Prop :=
| moves_on n r r' at_ at' : event_phase e = None → stage_index at' = stage_index at_ → is_ending at_ = false →
    is_ending at' = false → stage_moves e (Navigating n r at_) (Navigating n r' at')
| moves_phase n r at_ at' p : event_phase e = Some (n, p) → phase_step at_ p = Some at' → is_ending at_ = false →
    stage_moves e (Navigating n r at_) (Navigating n r at')
| moves_settled n r : event_phase e = Some (n, Settled) → stage_moves e (Navigating n r AtLoadEvent) Idle
| moves_ended n r at_ : event_phase e = None → is_ending at_ = true → stage_moves e (Navigating n r at_) Idle
| moves_still s s' : event_phase e = None → active_of s = None → active_of s' = None → stage_moves e s s'.

Lemma phase_step_not_ending at_ p at' : phase_step at_ p = Some at' → is_ending at_ = false.
Proof. by destruct at_, p. Qed.

Lemma phase_moves v c f n p s :
  stage_step v (NavigationPhaseChanged c f n p) = Some s → stage_moves (NavigationPhaseChanged c f n p) (v_stage v) s.
Proof.
  unfold stage_step. destruct (v_stage v) as [|n' r' at_| |]; try by destruct p.
  assert (∀ at', phase_step at_ p = Some at' → stage_moves (NavigationPhaseChanged c f n' p) (Navigating n' r' at_) (Navigating n' r' at')).
  { intros at' Hp. econstructor; [done..|by eapply phase_step_not_ending]. }
  destruct p; try (case_bool_decide; [subst n'|done]; intros [at' [? ->]]%fmap_Some; auto).
  destruct at_; case_bool_decide; intros Hs; simplify_eq/=; by constructor.
Qed.

Lemma stage_step_moves v e s : stage_step v e = Some s → stage_moves e (v_stage v) s.
Proof.
  destruct (event_phase e) as [[n p]|] eqn:He.
  { destruct e; try done. injection He as -> ->. apply phase_moves. }
  intros H. unfold stage_step in H. destruct e; try done; destruct (v_stage v) as [|n' r' at_| |]; try done.
  all: try (destruct at_; try done; case_bool_decide; [|done]; destruct_and?; simplify_eq; by constructor).
  all: try (case_bool_decide; [|done]; simplify_eq; by constructor).
  all: destruct (quiet _) eqn:Hq; [|done]; cbn [andb] in H; case_bool_decide; simplify_eq; constructor; try done; by destruct at_.
Qed.

(** What an accepted event does to the contexts *)
Inductive monitor_moves (m : Monitor) (e : BrowserEvent) : Monitor → Prop :=
| moves_view c v v' m' : m_contexts m !! c = Some v → stage_moves e (v_stage v) (v_stage v') → event_request e = None →
    m_contexts m' = <[c := v']> (m_contexts m) → m_navigation m' = m_navigation m → m_context m' = m_context m →
    monitor_moves m e m'
| moves_new c v m' : (m_context m < Npos c)%N → v_stage v = Idle → event_phase e = None → event_request e = None →
    m_contexts m' = <[c := v]> (m_contexts m) → m_navigation m' = m_navigation m → m_context m' = Npos c →
    monitor_moves m e m'
| moves_gone c v m' : m_contexts m !! c = Some v → v_stage v = DocumentGone → event_phase e = None → event_request e = None →
    m_contexts m' = delete c (m_contexts m) → m_navigation m' = m_navigation m → m_context m' = m_context m →
    monitor_moves m e m'
| moves_nowhere m' : event_phase e = None → event_request e = None → m_contexts m' = m_contexts m →
    m_navigation m' = m_navigation m → m_context m' = m_context m → monitor_moves m e m'
| moves_request c v n m' : m_contexts m !! c = Some v → v_stage v = Idle → event_phase e = None → event_request e = Some n →
    (m_navigation m < Npos n)%N → m_contexts m' = <[c := at_stage (Navigating n None AtRequested) v]> (m_contexts m) →
    m_navigation m' = Npos n → m_context m' = m_context m → monitor_moves m e m'.

Lemma view_event m e m' c f :
  event_frame e = Some (c, f) →
  (v ← m_contexts m !! c;
   if bool_decide (f = v_frame v) then s ← stage_step v e; Some (put_view c (at_stage s v) m) else None) = Some m' →
  monitor_moves m e m'.
Proof.
  intros He H. apply bind_Some in H as (v & Hv & H). case_bool_decide; [|done].
  apply bind_Some in H as (s & Hs & [= <-]). apply stage_step_moves in Hs.
  apply (moves_view _ _ c v (at_stage s v)); [done|done|by destruct e|done..].
Qed.

Lemma monitor_step_moves m e m' : monitor_step m e = Some m' → monitor_moves m e m'.
Proof.
  destruct e; intros H; 
    try (match goal with H : monitor_step _ ?e = _ |- _ => exact (view_event m e m' _ _ eq_refl H) end).
  - cbn in H. destruct (bs_runtime_context_id _) as [r|]; [|done]. destruct (bs_active_navigation_id _); [done|].
    case_bool_decide as Hc; [|done]. destruct Hc as (Hc & _).
    injection H as <-. eapply moves_new; [exact Hc| |done|done|reflexivity|done|done]. done.
  - cbn in H. apply bind_Some in H as (v & Hv & H). case_bool_decide; [|done]. injection H as <-.
    eapply moves_gone; [exact Hv|done|done|done|reflexivity|done|done].
  - cbn in H. destruct (match context_id with Some _ => _ | None => _ end); [|done]. injection H as <-. by apply moves_nowhere.
  - cbn in H. apply bind_Some in H as (v & Hv & H). case_bool_decide as Hc; [|done]. destruct Hc as (? & ? & ?).
    injection H as <-. eapply moves_request; [exact Hv|done|done|done| |reflexivity|done|done]. done.
  - cbn in H. case_match; [|done]. apply bind_Some in H as (v & Hv & H).
    destruct (v_stage v) as [|n q []| |] eqn:Hs; try done. case_bool_decide as Hc; [|done]. destruct Hc as (? & -> & -> & ?).
    injection H as <-.
    eapply moves_view; [exact Hv| |done|reflexivity|done|done]. rewrite Hs. by constructor.
  - cbn in H. apply bind_Some in H as (v & Hv & H). destruct (_ && _); [|done]. injection H as <-. by apply moves_nowhere.
Qed.

Record phases_inv (es : list BrowserEvent) (m : Monitor) : Prop := {
  pi_context c v : m_contexts m !! c = Some v → (Npos c ≤ m_context m)%N;
  pi_once c c' v v' n : m_contexts m !! c = Some v → m_contexts m !! c' = Some v' →
    active_of (v_stage v) = Some n → active_of (v_stage v') = Some n → c = c';
  pi_active c v n : m_contexts m !! c = Some v → active_of (v_stage v) = Some n → requested n es = true;
  pi_requested n : requested n es = true → (Npos n ≤ m_navigation m)%N;
  pi_unknown n : requested n es = false → nav_phases n es = [];
  pi_live c v n r at_ : m_contexts m !! c = Some v → v_stage v = Navigating n r at_ →
    if is_ending at_ then ended (nav_phases n es) else nav_phases n es = take (stage_index at_) main_phases;
  pi_dead n : requested n es = true → (∀ c v, m_contexts m !! c = Some v → active_of (v_stage v) ≠ Some n) →
    ended (nav_phases n es);
}.

Lemma phase_step_index at_ p at' :
  phase_step at_ p = Some at' →
  if is_ending at' then resting at_ = true ∧ p ∈ [Failed; Cancelled]
  else take (stage_index at') main_phases = take (stage_index at_) main_phases ++ [p].
Proof. destruct p, at_; cbn; intros [= <-]; cbn; try done; (split; [done|]); rewrite !elem_of_cons; auto. Qed.

Definition new_phases (n : NavigationId) (e : BrowserEvent) : list NavigationPhase :=
  match event_phase e with Some (n', p) => if bool_decide (n' = n) then [p] else [] | None => [] end.
Lemma nav_phases_snoc n es e : nav_phases n (es ++ [e]) = nav_phases n es ++ new_phases n e.
Proof. by rewrite nav_phases_app. Qed.

(** The events that name no phase and request nothing keep the invariant wherever the active
    navigations and the indices of their stages stay. *)
Lemma phases_inv_quiet es m e m' :
  phases_inv es m → event_phase e = None → event_request e = None → m_navigation m' = m_navigation m →
  (∀ c v, m_contexts m' !! c = Some v → (Npos c ≤ m_context m')%N) →
  (∀ c v n r at_, m_contexts m' !! c = Some v → v_stage v = Navigating n r at_ →
     ∃ v' r' at', m_contexts m !! c = Some v' ∧ v_stage v' = Navigating n r' at' ∧ is_ending at_ = is_ending at' ∧
       stage_index at_ = stage_index at') →
  (∀ c v n r at_, m_contexts m !! c = Some v → v_stage v = Navigating n r at_ →
     (∃ v', m_contexts m' !! c = Some v' ∧ active_of (v_stage v') = Some n) ∨ is_ending at_ = true) →
  phases_inv (es ++ [e]) m'.
Proof.
  intros I Hp Hr Hn Hc Hback Hforth.
  assert (Hph : ∀ n, nav_phases n (es ++ [e]) = nav_phases n es).
  { intros n. rewrite nav_phases_snoc. unfold new_phases. by rewrite Hp, app_nil_r. }
  assert (Hrq : ∀ n, requested n (es ++ [e]) = requested n es).
  { intros n. rewrite requested_snoc, Hr. by rewrite orb_false_r. }
  assert (Hback' : ∀ c v n, m_contexts m' !! c = Some v → active_of (v_stage v) = Some n →
     ∃ v', m_contexts m !! c = Some v' ∧ active_of (v_stage v') = Some n).
  { intros c v n Hv Ha. destruct (v_stage v) eqn:E; try done. injection Ha as ->.
    destruct (Hback _ _ _ _ _ Hv E) as (v' & r' & at' & Hv' & Hs' & _). exists v'. by rewrite Hs'. }
  split; intros *; rewrite ?Hph, ?Hrq, ?Hn.
  - apply Hc.
  - intros H1 H2 A1 A2. destruct (Hback' _ _ _ H1 A1) as (?&?&?), (Hback' _ _ _ H2 A2) as (?&?&?).
    by eapply (pi_once _ _ I).
  - intros H1 A1. destruct (Hback' _ _ _ H1 A1) as (?&?&?). by eapply (pi_active _ _ I).
  - apply I.
  - apply I.
  - intros H1 S1. destruct (Hback _ _ _ _ _ H1 S1) as (v' & r' & at' & Hv' & Hs' & -> & ->).
    by eapply (pi_live _ _ I).
  - intros Hq Hdead. destruct (decide (∃ c v, m_contexts m !! c = Some v ∧ active_of (v_stage v) = Some n)) as [Hex|Hno].
    + destruct Hex as (c & v & Hv & Ha). destruct (v_stage v) as [|? r at_| |] eqn:E; try done. injection Ha as ->.
      destruct (Hforth _ _ _ _ _ Hv E) as [(v' & Hv' & Ha')|Hend]; [by destruct (Hdead _ _ Hv')|].
      pose proof (pi_live _ _ I _ _ _ _ _ Hv E) as Hl. by rewrite Hend in Hl.
    + apply (pi_dead _ _ I); [done|]. intros c v Hv Ha. apply Hno. eauto.
Qed.

Lemma new_phases_None n e : event_phase e = None → new_phases n e = [].
Proof. unfold new_phases. by intros ->. Qed.
Lemma new_phases_Some n n' p e : event_phase e = Some (n', p) → new_phases n e = if bool_decide (n' = n) then [p] else [].
Proof. unfold new_phases. by intros ->. Qed.

(** One context changes its view and names no phase. *)
Lemma phases_inv_view es m e m' c v v' :
  phases_inv es m → event_phase e = None → event_request e = None → m_contexts m !! c = Some v →
  m_contexts m' = <[c := v']> (m_contexts m) → m_navigation m' = m_navigation m → m_context m' = m_context m →
  (∀ n r' at', v_stage v' = Navigating n r' at' →
     ∃ r at_, v_stage v = Navigating n r at_ ∧ is_ending at' = is_ending at_ ∧ stage_index at' = stage_index at_) →
  (∀ n r at_, v_stage v = Navigating n r at_ → active_of (v_stage v') = Some n ∨ is_ending at_ = true) →
  phases_inv (es ++ [e]) m'.
Proof.
  intros I Hp Hr Hv Hc Hn Hx Hback Hforth. eapply phases_inv_quiet; [done..| | |]; rewrite Hc, ?Hx.
  - intros c' w. rewrite lookup_insert. case_decide as E; [subst c'; intros _; by eapply (pi_context _ _ I)|apply I].
  - intros c' w n r at_. rewrite lookup_insert. case_decide as E; [subst c'; intros [= <-] Hs|by eauto 10].
    destruct (Hback _ _ _ Hs) as (r' & at' & ? & ? & ?). eauto 10.
  - intros c' w n r at_ Hw Hs. rewrite lookup_insert. case_decide as E; [subst c'|left; exists w; by rewrite Hs].
    rewrite Hv in Hw. injection Hw as <-. destruct (Hforth _ _ _ Hs); eauto.
Qed.

(** A phase of the navigation that is active in a context *)
Lemma phases_inv_phase es m e m' c v v' n r at_ p :
  phases_inv es m → event_phase e = Some (n, p) → event_request e = None → m_contexts m !! c = Some v →
  v_stage v = Navigating n r at_ →
  m_contexts m' = <[c := v']> (m_contexts m) → m_navigation m' = m_navigation m → m_context m' = m_context m →
  match v_stage v' with
  | Navigating n' _ at' => n' = n ∧ (if is_ending at' then ended (nav_phases n es ++ [p])
                                     else nav_phases n es ++ [p] = take (stage_index at') main_phases)
  | _ => ended (nav_phases n es ++ [p])
  end →
  phases_inv (es ++ [e]) m'.
Proof.
  intros I Hp Hr Hv Hs Hc Hn Hx Hv'.
  assert (Hrq : ∀ n, requested n (es ++ [e]) = requested n es).
  { intros j. rewrite requested_snoc, Hr. by rewrite orb_false_r. }
  assert (Hact : active_of (v_stage v) = Some n) by by rewrite Hs.
  assert (Hsub : ∀ j, active_of (v_stage v') = Some j → j = n).
  { intros j. destruct (v_stage v') as [|j' ? ?| |]; try done. destruct Hv' as [-> _]. by intros [= ->]. }
  assert (Hother : ∀ c' w j, c' ≠ c → m_contexts m !! c' = Some w → active_of (v_stage w) = Some j → j ≠ n).
  { intros c' w j Hne Hw Hj ->. by apply Hne, (pi_once _ _ I _ _ _ _ _ Hw Hv Hj Hact). }
  split; intros *; rewrite ?nav_phases_snoc, ?Hrq, ?Hn, ?Hx, ?Hc, ?(new_phases_Some _ _ _ _ Hp), ?lookup_insert.
  - case_decide as E; [subst; intros _; by eapply (pi_context _ _ I)|apply I].
  - case_decide as E; case_decide as E'; subst; try done.
    + intros [= <-] Hw Hj%Hsub Hj'. subst n0. by destruct (Hother _ _ _ (not_eq_sym E') Hw Hj').
    + intros Hw [= <-] Hj' Hj%Hsub. subst n0. by destruct (Hother _ _ _ (not_eq_sym E) Hw Hj').
    + intros; by eapply (pi_once _ _ I).
  - case_decide as E; [subst; intros [= <-] ->%Hsub; by eapply (pi_active _ _ I)|apply I].
  - apply I.
  - intros Hq. rewrite (pi_unknown _ _ I _ Hq), bool_decide_eq_false_2; [done|].
    intros ->. by rewrite (pi_active _ _ I _ _ _ Hv Hact) in Hq.
  - case_decide as E; [subst; intros [= <-] Hw|].
    + rewrite Hw in Hv'. destruct Hv' as [-> Hv']. by rewrite bool_decide_eq_true_2.
    + intros Hw Hws. rewrite bool_decide_eq_false_2; [rewrite app_nil_r; by eapply (pi_live _ _ I)|].
      intros ->. eapply Hother; [exact (not_eq_sym E)|done| |done]. by rewrite Hws.
  - intros Hq Hdead. case_bool_decide as E; [subst n0|rewrite app_nil_r].
    + specialize (Hdead c v'). rewrite lookup_insert, decide_True in Hdead by done. specialize (Hdead eq_refl).
      destruct (v_stage v') as [|j ? ?| |]; try done. by destruct Hv' as [-> _].
    + apply (pi_dead _ _ I); [done|]. intros c' w Hw Hj. destruct (decide (c' = c)) as [->|Hne].
      * rewrite Hv in Hw. injection Hw as <-. congruence.
      * eapply Hdead; [|exact Hj]. by rewrite lookup_insert, decide_False.
Qed.

Lemma phases_inv_request es m e m' c v n :
  phases_inv es m → event_phase e = None → event_request e = Some n → (m_navigation m < Npos n)%N →
  m_contexts m !! c = Some v → v_stage v = Idle →
  m_contexts m' = <[c := at_stage (Navigating n None AtRequested) v]> (m_contexts m) → m_navigation m' = Npos n →
  m_context m' = m_context m → phases_inv (es ++ [e]) m'.
Proof.
  intros I Hp Hr Hlt Hv Hs Hc Hn Hx.
  assert (Hnew : requested n es = false).
  { apply not_true_is_false. intros H%(pi_requested _ _ I). lia. }
  assert (Hrq : ∀ j, requested j (es ++ [e]) = requested j es || bool_decide (n = j)).
  { intros j. rewrite requested_snoc, Hr. f_equal. by apply bool_decide_ext; split; [intros [= ->]|intros ->]. }
  assert (Hother : ∀ c' w j, m_contexts m !! c' = Some w → active_of (v_stage w) = Some j → j ≠ n).
  { intros c' w j Hw Hj ->. by rewrite (pi_active _ _ I _ _ _ Hw Hj) in Hnew. }
  split; intros *; rewrite ?nav_phases_snoc, ?Hrq, ?Hn, ?Hx, ?Hc, ?(new_phases_None _ _ Hp), ?app_nil_r, ?lookup_insert.
  - case_decide as E; [subst; intros _; by eapply (pi_context _ _ I)|apply I].
  - case_decide as E; case_decide as E'; subst; try done.
    + intros [= <-] Hw [= <-] Hj'. by destruct (Hother _ _ _ Hw Hj').
    + intros Hw [= <-] Hj' [= <-]. by destruct (Hother _ _ _ Hw Hj').
    + intros; by eapply (pi_once _ _ I).
  - case_decide as E; [subst; intros [= <-] [= <-]; by rewrite bool_decide_eq_true_2, orb_true_r|].
    intros Hw Hj. by rewrite (pi_active _ _ I _ _ _ Hw Hj).
  - intros [Hq|Hq]%orb_true_iff; [apply (pi_requested _ _ I) in Hq; lia|]. apply bool_decide_eq_true in Hq. by subst.
  - intros [Hq _]%orb_false_iff. by apply I.
  - case_decide as E; [subst; intros [= <-] [= <- <- <-]; cbn; by apply (pi_unknown _ _ I)|apply I].
  - intros Hq Hdead. destruct (decide (n0 = n)) as [->|Hne].
    { exfalso. specialize (Hdead c). rewrite lookup_insert, decide_True in Hdead by done. by eapply Hdead. }
    rewrite bool_decide_eq_false_2, orb_false_r in Hq by done. apply (pi_dead _ _ I); [done|]. intros c' w Hw Hj.
    eapply Hdead; [|exact Hj]. rewrite lookup_insert. case_decide; [|done]. subst c'. rewrite Hv in Hw. injection Hw as <-.
    by rewrite Hs in Hj.
Qed.

Lemma stage_moves_inv es m e m' c v v' :
  phases_inv es m → m_contexts m !! c = Some v → stage_moves e (v_stage v) (v_stage v') → event_request e = None →
  m_contexts m' = <[c := v']> (m_contexts m) → m_navigation m' = m_navigation m → m_context m' = m_context m →
  phases_inv (es ++ [e]) m'.
Proof.
  intros I Hv Hm Hr Hc Hn Hx. remember (v_stage v) as s eqn:Hs. remember (v_stage v') as s' eqn:Hs'. symmetry in Hs, Hs'.
  destruct Hm as [n r r' at_ at' Hp Hi He He'|n r at_ at' p Hp Hst He|n r Hp|n r at_ Hp He|s s' Hp Ha Ha'].
  - eapply phases_inv_view; [done..| |]; rewrite Hs, Hs'; [|intros ? ? ? [= <- <- <-]; by left].
    intros ? ? ? [= <- <- <-]. exists r, at_. by rewrite Hi, He, He'.
  - eapply phases_inv_phase; [done..|]. rewrite Hs'. split; [done|].
    pose proof (pi_live _ _ I _ _ _ _ _ Hv Hs) as Hl. rewrite He in Hl. rewrite Hl.
    apply phase_step_index in Hst. destruct (is_ending at'); [|done]. right. exists at_, p. by destruct Hst.
  - eapply phases_inv_phase; [done..|]. rewrite Hs'. left. by rewrite (pi_live _ _ I _ _ _ _ _ Hv Hs).
  - eapply phases_inv_view; [done..| |]; rewrite Hs, Hs'; [done|]. intros ? ? ? [= <- <- <-]. by right.
  - eapply phases_inv_view; [done..| |].
    + intros n r' at' E. rewrite Hs' in E. by rewrite E in Ha'.
    + intros n r at_ E. rewrite Hs in E. by rewrite E in Ha.
Qed.

Lemma phases_inv_step es m e m' : phases_inv es m → monitor_step m e = Some m' → phases_inv (es ++ [e]) m'.
Proof.
  intros I H. apply monitor_step_moves in H.
  destruct H as [c v v' m1 Hv Hm Hr Hc Hn Hx|c v m1 Hlt Hi Hp Hr Hc Hn Hx|c v m1 Hv Hi Hp Hr Hc Hn Hx|m1 Hp Hr Hc Hn Hx
                |c v n m1 Hv Hi Hp Hr Hlt Hc Hn Hx].
  - by eapply stage_moves_inv.
  - eapply phases_inv_quiet; [done..| | |]; rewrite Hc.
    + intros c' w. rewrite lookup_insert. case_decide; [subst; intros _; lia|]. intros Hw%(pi_context _ _ I). lia.
    + intros c' w n r at_. rewrite lookup_insert. case_decide; [subst; intros [= <-]; by rewrite Hi|]. eauto 10.
    + intros c' w n r at_ Hw Hs. left. exists w. rewrite lookup_insert. case_decide; [subst; apply (pi_context _ _ I) in Hw; lia|].
      by rewrite Hs.
  - eapply phases_inv_quiet; [done..| | |]; rewrite Hc.
    + intros c' w. rewrite lookup_delete. case_decide; [done|]. intros Hw%(pi_context _ _ I). lia.
    + intros c' w n r at_. rewrite lookup_delete. case_decide; [done|]. eauto 10.
    + intros c' w n r at_ Hw Hs. left. exists w. rewrite lookup_delete. case_decide; [subst; congruence|]. by rewrite Hs.
  - eapply phases_inv_quiet; [done..| | |]; rewrite Hc.
    + intros c w Hw%(pi_context _ _ I). lia.
    + eauto 10.
    + intros c w n r at_ Hw Hs. left. exists w. by rewrite Hs.
  - by eapply phases_inv_request.
Qed.

Lemma replay_phases es m : replay es = Some m → phases_inv es m.
Proof.
  revert m. induction es as [|e es IH] using rev_ind; intros m.
  - intros [= <-]. split; cbn; try done; intros *; by rewrite ?lookup_empty.
  - rewrite replay_snoc. intros H. apply bind_Some in H as (m0 & Hm0 & H). eapply phases_inv_step; eauto.
Qed.

(** The phases of a navigation that was requested are a prefix of the ten phases of a successful
    one, or a prefix that may end in failure or cancellation followed by that end; and the
    navigation is under way for a consumer exactly while it has not ended. *)
Lemma accepted_phases es m n :
  replay es = Some m → requested n es = true →
  (running (nav_phases n es) ∨ ended (nav_phases n es)) ∧
  (under_way m n ↔ existsb is_terminal (nav_phases n es) = false).
Proof.
  intros Hm Hq. apply replay_phases in Hm as I.
  destruct (decide (∃ c v, m_contexts m !! c = Some v ∧ active_of (v_stage v) = Some n)) as [Hex|Hno].
  - destruct Hex as (c & v & Hv & Ha). destruct (v_stage v) as [|j r at_| |] eqn:Hs; try done. injection Ha as ->.
    pose proof (pi_live _ _ I _ _ _ _ _ Hv Hs) as Hl. destruct (is_ending at_) eqn:He.
    + split; [by right|]. rewrite (ended_terminal _ Hl). split; [|done].
      intros (c' & v' & r' & at' & Hv' & Hs' & He'). assert (c' = c) as ->.
      { eapply (pi_once _ _ I); [done..|by rewrite Hs'|by rewrite Hs]. }
      rewrite Hv in Hv'. injection Hv' as <-. congruence.
    + assert (Hr : running (nav_phases n es)) by (exists (stage_index at_); split; [by destruct at_; cbn; lia|done]).
      split; [by left|]. rewrite (running_not_terminal _ Hr). split; [done|]. intros _. by exists c, v, r, at_.
  - assert (He : ended (nav_phases n es)).
    { apply (pi_dead _ _ I); [done|]. intros c v Hv Ha. apply Hno. eauto. }
    split; [by right|]. rewrite (ended_terminal _ He). split; [|done].
    intros (c' & v' & r' & at' & Hv' & Hs' & _). destruct Hno. exists c', v'. by rewrite Hs'.
Qed.

(** ** A stream *)

(** The state of the context of the example *)
Definition sample_context_state (active : option NavigationId) : BrowsingContextState :=
  {| bs_context_id := 1; bs_main_frame_id := 1; bs_document_id := 1; bs_runtime_context_id := Some 1%positive;
     bs_active_navigation_id := active; bs_url := lit "about:blank"; bs_title := None; bs_history_length := 1;
     bs_history_index := 0; bs_can_go_back := false; bs_can_go_forward := false;
     bs_is_loading := bool_decide (is_Some active); bs_load_progress := f64_of_Z 1; bs_page_zoom := f64_of_Z 1 |}.
(** A navigation that another one replaces before its source has arrived *)
Definition sample_stream : list BrowserEvent :=
  [BrowsingContextCreated (sample_context_state None); ActiveBrowsingContextChanged (Some 1%positive);
   NavigationRequested 1 1 1 None Regular (lit "https://a.test/"); NavigationPhaseChanged 1 1 1 Intent;
   BrowsingContextStateChanged (sample_context_state (Some 1%positive)); NavigationPhaseChanged 1 1 1 Policy;
   NavigationStarted 1 1 1 1 (lit "https://a.test/"); NavigationPhaseChanged 1 1 1 Request;
   NavigationPhaseChanged 1 1 1 Cancelled; NavigationCancelled 1 1 1 (Some 1%positive) Superseded;
   NavigationRequested 1 1 2 None Regular (lit "https://b.test/"); NavigationPhaseChanged 1 1 2 Intent].

Example sample_stream_accepted :
  is_Some (replay sample_stream) ∧ nav_phases 1 sample_stream = [Intent; Policy; Request; Cancelled] ∧
  nav_phases 2 sample_stream = [Intent].
Proof. split; [by vm_compute; eexists|]. by split. Qed.
