(* ===== verification/ExternalResource.v ===== *)
(** * External resources of a page

    [crates/vixen-engine/src/browser.rs]: how the browser core loads a script, a stylesheet
    or an image of a document ([load_external_resource]), with the profile's cookies and
    cache, the document's policy at every hop, and what a response must be before the page
    may use it.

    The transport of a hop is the argument [send], the clocks of its cookie jar are [clock];
    the file system is the class [Disk] and the texts of errors of other components are the
    class [ErrorText]. *)

From Stdlib Require Import Lia ZArith.
From stdpp Require Import base decidable gmap sets list strings.
From S2P Require Import Prelude.
From S2P Require Import RustStr.
From S2P Require Import RustUtf8.
From S2P Require Import RustMap.
From S2P Require Import RenderModel.
From S2P Require Import Cookie.
From S2P Require Import Store.
From S2P Require Import WebStorage.
From S2P Require Import NetUrl.
From S2P Require Import HttpCache.
From S2P Require Import Network.
From S2P Require Import ProfileCookies.
From S2P Require Import EmbedderPolicy.
From S2P Require Import BrowserApi.

(** ** Interfaces *)

(** [Display] of the errors that end up inside messages. *)
Class ErrorText : Type := {
  network_error_text : NetworkError → rstr;
  policy_error_text : UrlPolicyError → rstr;
  store_error_text : StoreError → rstr;
  cache_error_text : CacheError → rstr;
}.

(** [Url::to_file_path] of a URL without query and fragment, and the three file operations;
    the last returns at most that many bytes. *)
Class Disk : Type := {
  to_file_path : WebUrl → option rstr;
  file_len : rstr → result rstr N;
  file_open : rstr → result rstr unit;
  file_read : rstr → N → result rstr (list N);
}.

(** [trait ExternalResourceRequest] *)
Class ExternalResourceRequest (R : Type) : Type := {
  er_url : R → WebUrl;
  er_blocked_reason : R → WebUrl → option rstr;
  er_is_cross_site : R → WebUrl → bool;
  er_request_headers : R → WebUrl → list (rstr * rstr);
  er_sends_credentials : R → WebUrl → bool;
  er_response_blocked_reason : R → WebUrl → ByteResponse → option rstr;
  er_kind : R → rstr;
}.
Definition allows_url {R} `{ExternalResourceRequest R} (request : R) (url : WebUrl) : bool :=
  bool_decide (er_blocked_reason request url = None).

Inductive LoadedExternalResource : Type :=
| LoadedFile (final_url : WebUrl) (body : list N)
| LoadedHttp (response : ByteResponse) (requested_urls : list WebUrl).
Record ExternalResourceLoadFailure : Type := {
  lf_error : BrowserError; lf_url : rstr; lf_events : list NetworkEvent; lf_blocked_reason : rstr;
}.

(** ** What a response must be *)

(** [ByteResponse::header] and [content_type] *)
Definition byte_header (self : ByteResponse) (name : rstr) : option rstr :=
  map_get (br_headers self) (to_ascii_lowercase name).
Definition byte_content_type (self : ByteResponse) : option rstr :=
  (λ v, trim (hd [] (split_char 59 v))) <$> byte_header self (lit "content-type").

Definition status_ok (status : N) : bool := ((200 <=? status) && (status <? 300))%N.
Definition allowed_as (destination : Destination) (response : ByteResponse) : bool :=
  if negb (status_ok (br_status response)) then false
  else
    let nosniff := match byte_header response (lit "x-content-type-options") with
                   | Some v => is_nosniff v | None => false end in
    let mime_essence := default (lit "text/plain") (byte_content_type response) in
    match enforce nosniff mime_essence destination with NosniffAllow => true | _ => false end.
Definition stylesheet_response_allowed (response : ByteResponse) : bool := allowed_as StyleDest response.
Definition script_response_allowed_bytes (response : ByteResponse) : bool := allowed_as ScriptDest response.
Definition module_script_response_allowed (response : ByteResponse) : bool :=
  status_ok (br_status response) &&
  match byte_content_type response with Some mime => is_javascript_mime mime | None => false end.
Definition image_response_allowed (response : ByteResponse) : bool :=
  status_ok (br_status response) &&
  match byte_content_type response with Some mime => eq_ignore_ascii_case mime (lit "image/png") | None => false end.

(** ** The events of a load, as the runtime reports them *)

(** [Method::as_str] *)
Definition method_str (m : Method) : rstr :=
  match m with
  | Get => lit "GET" | Head => lit "HEAD" | Post => lit "POST" | Put => lit "PUT" | Delete => lit "DELETE"
  | Patch => lit "PATCH" | Options => lit "OPTIONS"
  end.
Definition runtime_network_event (request_id : rstr) (event : NetworkEvent) : RuntimeNetworkEvent :=
  match event with
  | EvRequestStart url method => NetRequest request_id url (method_str method)
  | EvRedirect from to status => NetRedirect request_id from to status
  | EvResponse url status => NetResponse request_id url status
  | EvBodyProgress url chunk loaded total => NetProgress request_id url chunk loaded total
  | EvCompleted url body_bytes => NetCompleted request_id url body_bytes
  end.
Definition external_resource_network_events (request_id : RequestId) (request_url : rstr)
    (res : result ExternalResourceLoadFailure LoadedExternalResource) : list RuntimeNetworkEvent :=
  let request_id := id_display request_id in
  match res with
  | Ok (LoadedFile final_url _) =>
      [NetRequest request_id request_url (method_str Get); NetResponse request_id (wu_str final_url) 200]
  | Ok (LoadedHttp response _) => runtime_network_event request_id <$> br_events response
  | Err failure =>
      let events := runtime_network_event request_id <$> lf_events failure in
      (if bool_decide (events = []) then [NetRequest request_id request_url (method_str Get)] else events) ++
      [NetFailure request_id (lf_url failure)
         (be_code (lf_error failure) ++ lit ": " ++ be_message (lf_error failure)) (Some (lf_blocked_reason failure))]
  end.

(** ** The profile's cache *)

Section cache.
Context `{StorePlatform, UrlPlatform, HttpDate, ErrorText}.

Definition profile_cache_error (what : string) (text : rstr) : BrowserError :=
  BrowserError_new PROFILE (lit what ++ text).

(** [persist_external_resource_cache]; the store reached survives an error. *)
Definition persist_external_resource_cache (response : ByteResponse) (fetched_unix : Z) (store : Store) :
    Store * result BrowserError unit :=
  if br_from_cache response then (store, Ok tt)
  else
    match url_parse (br_final_url response) with
    | None => (store, Err (BrowserError_new NAVIGATION_LOAD
                             (lit "external resource returned an invalid final URL: "
                              ++ cache_error_text CacheUrlError)))
    | Some final =>
        let original := default final
          (head (omap (λ ev, match ev with EvRequestStart url _ => url_parse url | _ => None end) (br_events response))) in
        match cache_entry (br_status response) (br_headers response) (br_body response) (br_request_headers response)
                fetched_unix with
        | None =>
            match delete_cache_alias (origin_partition_key (Origin_from_url (wu_origin original))) (wu_str original) store with
            | Ok store => (store, Ok tt)
            | Err e => (store, Err (profile_cache_error "external resource cache alias delete failed: " (store_error_text e)))
            end
        | Some entry =>
            match put_cache (origin_partition_key (Origin_from_url (wu_origin final))) (br_final_url response) entry store with
            | Err e => (store, Err (profile_cache_error "external resource cache write failed: " (store_error_text e)))
            | Ok store =>
                match persist_redirect_aliases original final (br_events response) (br_redirect_aliasable response)
                        fetched_unix store with
                | (store, Ok _) => (store, Ok tt)
                | (store, Err e) =>
                    (store, Err (profile_cache_error "external resource cache alias write failed: " (store_error_text e)))
                end
            end
        end
    end.

Definition external_resource_cache_lookup (store : Store) (url : WebUrl) (request_headers : HeaderMap)
    (max_body_bytes : N) (now : Z) : result BrowserError (option (ByteResponse * CacheUse)) :=
  match cache_variants (origin_partition_key (Origin_from_url (wu_origin url))) (wu_str url) store with
  | Err e => Err (profile_cache_error "external resource cache read failed: " (store_error_text e))
  | Ok variants =>
      match select_variant variants request_headers now max_body_bytes with
      | None => Ok None
      | Some (entry, use) =>
          if bool_decide (use = Stale) && negb (has_validator entry) then Ok None
          else Ok (Some ({| br_body := ce_body entry; br_headers := collect_headers (ce_headers entry);
                            br_status := ce_status entry; br_final_url := wu_str url; br_set_cookie := [];
                            br_redirects := 0; br_events := []; br_request_headers := request_headers;
                            br_from_cache := true; br_redirect_aliasable := true |}, use))
      end
  end.
End cache.

(** One validator of [add_external_resource_revalidation_headers] *)
Definition add_byte_validator (name stored : rstr) (cached : ByteResponse) (st : list (rstr * rstr) * bool) :
    list (rstr * rstr) * bool :=
  if existsb (λ nv, ignore_case nv.1 name) st.1 then st
  else match byte_header cached stored with Some value => (st.1 ++ [(name, value)], true) | None => st end.
Definition add_external_resource_revalidation_headers (headers : list (rstr * rstr)) (cached : ByteResponse) :
    list (rstr * rstr) * bool :=
  add_byte_validator (lit "if-modified-since") (lit "last-modified") cached
    (add_byte_validator (lit "if-none-match") (lit "etag") cached (headers, false)).

Definition keeps_cached_header (name : rstr) : bool :=
  existsb (λ n, bool_decide (to_ascii_lowercase name = lit n)) ["content-length"; "content-range"; "transfer-encoding"]%string.
Definition revalidated_external_resource_response (response : ByteResponse) (cached : option ByteResponse) : ByteResponse :=
  if negb (br_status response =? 304)%N then response
  else match cached with
       | None => response
       | Some cached =>
           {| br_body := br_body cached;
              br_headers := foldl (λ h nv, if keeps_cached_header nv.1 then h else map_insert nv.1 nv.2 h)
                              (br_headers cached) (br_headers response);
              br_status := br_status cached; br_final_url := br_final_url response;
              br_set_cookie := br_set_cookie response; br_redirects := br_redirects response;
              br_events := br_events response; br_request_headers := br_request_headers response;
              br_from_cache := false; br_redirect_aliasable := br_redirect_aliasable response |}
       end.

(** ** Engine errors *)

Definition SCRIPT_EVAL : rstr := lit "script.eval".
Definition SCRIPT_INTERRUPTED : rstr := lit "script.interrupted".
Definition SCRIPT_IMPORT_MAP : rstr := lit "script.import-map".
Inductive EngineError : Type := EngineScript (code message : rstr) | EngineOther (code message : rstr).
Definition engine_error_code (e : EngineError) : rstr :=
  match e with EngineScript code _ | EngineOther code _ => code end.
Definition engine_error_text (e : EngineError) : rstr :=
  match e with
  | EngineScript _ message => lit "script error: " ++ message
  | EngineOther _ message => lit "engine: " ++ message
  end.
Definition script_error (e : EngineError) : BrowserError := BrowserError_new (engine_error_code e) (engine_error_text e).
(** [engine_error] of the text of any error *)
Definition engine_error (text : rstr) : BrowserError := BrowserError_new NAVIGATION_LOAD text.
Definition is_script_interrupted (e : EngineError) : bool := bool_decide (engine_error_code e = SCRIPT_INTERRUPTED).

(** ** Loading *)

Section file.
Context `{Disk}.

Inductive BoundedFileReadError : Type := Inspect (e : rstr) | TooLarge | Open (e : rstr) | Read (e : rstr).

Definition read_bounded_file (path : rstr) (max_body_bytes : N) : result BoundedFileReadError (list N) :=
  size ← map_err Inspect (file_len path);
  _ ← throw_if (max_body_bytes <? size)%N TooLarge;
  _ ← map_err Open (file_open path);
  bytes ← map_err Read (file_read path (N.min (max_body_bytes + 1) u64_max));
  _ ← throw_if (max_body_bytes <? len bytes)%N TooLarge;
  Ok bytes.
End file.

(** The locals of the redirect loop, the jar and the baseline it works on, and the calls of
    the transport so far. *)
Record LoadState `{Platform} : Type := {
  ls_jar : CookieJar; ls_baseline : list CookieSnapshot;
  ls_current : WebUrl; ls_redirects : N; ls_aliasable : bool; ls_visited : list rstr;
  ls_events : list NetworkEvent; ls_requested : list WebUrl; ls_sent : list Sent;
}.
Definition ls_set_jar `{Platform} (jar : CookieJar) (baseline : list CookieSnapshot) (s : LoadState) : LoadState :=
  {| ls_jar := jar; ls_baseline := baseline; ls_current := ls_current s; ls_redirects := ls_redirects s;
     ls_aliasable := ls_aliasable s; ls_visited := ls_visited s; ls_events := ls_events s;
     ls_requested := ls_requested s; ls_sent := ls_sent s |}.
Definition ls_set_events `{Platform} (events : list NetworkEvent) (sent : list Sent) (s : LoadState) : LoadState :=
  {| ls_jar := ls_jar s; ls_baseline := ls_baseline s; ls_current := ls_current s; ls_redirects := ls_redirects s;
     ls_aliasable := ls_aliasable s; ls_visited := ls_visited s; ls_events := events;
     ls_requested := ls_requested s; ls_sent := ls_sent s ++ sent |}.

Section load.
Context `{Platform, StorePlatform, UrlPlatform, HttpCrate, HttpDate, ErrorText, Disk, ExternalResourceRequest R}.
Variable config : NetworkConfig.
(** the transport of a hop; the clock of its cookie jar; the clocks of merging the profile's
    cookies and of the cache *)
Variable send : nat → Sent → result NetworkError RawResponse.
Variable clock : nat → nat → nat → OffsetDateTime.
Variable merge_clock : nat → OffsetDateTime.
Variable merge_tick : nat → nat → OffsetDateTime.
Variable unix : nat → Z.
(** [ExternalResourceLoadInput] *)
Variable store : Store.
Variable request : R.
Variable revalidate_profile_cache : bool.
Variable max_body_bytes : N.
Variable max_redirects : N.

Definition load_failure (error : BrowserError) (url : rstr) (events : list NetworkEvent) (blocked_reason : rstr) :
    ExternalResourceLoadFailure :=
  {| lf_error := error; lf_url := url; lf_events := events; lf_blocked_reason := blocked_reason |}.
Definition load_error (before after : rstr) : BrowserError :=
  BrowserError_new NAVIGATION_LOAD (lit "external " ++ er_kind request ++ before ++ after).
Definition blocked_failure (blocked_reason : rstr) (url : WebUrl) (events : list NetworkEvent) : ExternalResourceLoadFailure :=
  load_failure (load_error (lit " blocked by ") (blocked_reason ++ lit ": " ++ wu_str url)) (wu_str url) events blocked_reason.

Definition load_file (url : WebUrl) : result ExternalResourceLoadFailure LoadedExternalResource :=
  match to_file_path url with
  | None => Err (load_failure (BrowserError_new INVALID_ARGUMENT (lit "external " ++ er_kind request ++ lit " file URL has no local path"))
                   (wu_str url) [] (lit "load"))
  | Some path =>
      let fail message := Err (load_failure (BrowserError_new NAVIGATION_LOAD message) (wu_str url) [] (lit "load")) in
      match read_bounded_file path max_body_bytes with
      | Ok bytes => Ok (LoadedFile url bytes)
      | Err (Inspect e) => fail (lit "failed to inspect external " ++ er_kind request ++ lit " " ++ path ++ lit ": " ++ e)
      | Err TooLarge => fail (lit "external " ++ er_kind request ++ lit " body exceeds " ++ dec max_body_bytes
                              ++ lit " bytes at " ++ path)
      | Err (Open e) => fail (lit "failed to open external " ++ er_kind request ++ lit " " ++ path ++ lit ": " ++ e)
      | Err (Read e) => fail (lit "failed to read external " ++ er_kind request ++ lit " " ++ path ++ lit ": " ++ e)
      end
  end.

Definition resource_request (url : WebUrl) (headers : list (rstr * rstr)) : TextRequest :=
  {| rq_url := url; rq_cross_site := er_is_cross_site request url; rq_method := Get; rq_redirect_mode := Manual;
     rq_headers := headers; rq_body := None |}.

(** [if send_credentials { merge_profile_cookies(..)? }] *)
Definition merge_for (hop : nat) (url : WebUrl) (events : list NetworkEvent) (jar : CookieJar)
    (baseline : list CookieSnapshot) : result ExternalResourceLoadFailure (CookieJar * list CookieSnapshot) :=
  if er_sends_credentials request url then
    map_err (λ e, load_failure (script_error (EngineScript SCRIPT_EVAL (store_error_text e))) (wu_str url) events (lit "load"))
      (merge_profile_cookies store url jar baseline (merge_clock hop) (merge_tick hop))
  else Ok (jar, baseline).
(** [request_cookies]: the jar of the load, or an empty one that is dropped afterwards *)
Definition request_cookies (url : WebUrl) (jar : CookieJar) : CookieJar :=
  if er_sends_credentials request url then jar else CookieJar_new.
Definition keep_cookies (url : WebUrl) (used jar : CookieJar) : CookieJar :=
  if er_sends_credentials request url then used else jar.

(** What a stored redirect chain gives: nothing to use, or an answer. *)
Definition answer_from_alias (url : WebUrl) (jar : CookieJar) (baseline : list CookieSnapshot) :
    CookieJar * list CookieSnapshot * result ExternalResourceLoadFailure (option LoadedExternalResource) :=
  match resolve_redirect_alias url store with
  | Err e => (jar, baseline, Err (load_failure (BrowserError_new PROFILE (lit "external " ++ er_kind request
                ++ lit " cache alias read failed: " ++ cache_error_text e)) (wu_str url) [] (lit "cache")))
  | Ok None => (jar, baseline, Ok None)
  | Ok (Some alias) =>
      if (max_redirects <? len (alias_hops alias))%N then (jar, baseline, Ok None)
      else
        let targets := omap (λ hop, url_parse (hop_to hop)) (alias_hops alias) in
        match head (omap (λ target, (λ reason, (reason, target)) <$> er_blocked_reason request target) targets) with
        | Some (reason, target) => (jar, baseline, Err (blocked_failure reason target []))
        | None =>
            let final := final_url alias in
            match merge_for 0 final [] jar baseline with
            | Err f => (jar, baseline, Err f)
            | Ok (jar, baseline) =>
                let cache_request := resource_request final (er_request_headers request final) in
                match effective_request_headers config (clock 0 0 0) (request_cookies final jar) cache_request with
                | (used, Err e) =>
                    (keep_cookies final used jar, baseline,
                     Err (load_failure (load_error (lit " request failed: ") (network_error_text e)) (wu_str final) [] (lit "load")))
                | (used, Ok effective) =>
                    let jar := keep_cookies final used jar in
                    match external_resource_cache_lookup store final effective max_body_bytes (unix 0) with
                    | Err e => (jar, baseline, Err (load_failure e (wu_str final) [] (lit "cache")))
                    | Ok (Some (response, Fresh)) =>
                        let response :=
                          {| br_body := br_body response; br_headers := br_headers response;
                             br_status := br_status response; br_final_url := wu_str final; br_set_cookie := br_set_cookie response;
                             br_redirects := (len (alias_hops alias) `mod` 2 ^ 32)%N;
                             br_events := alias_events alias url (br_status response) (len (br_body response));
                             br_request_headers := br_request_headers response; br_from_cache := br_from_cache response;
                             br_redirect_aliasable := br_redirect_aliasable response |} in
                        match er_response_blocked_reason request final response with
                        | Some reason => (jar, baseline, Err (blocked_failure reason final (br_events response)))
                        | None => (jar, baseline, Ok (Some (LoadedHttp response
                                     (if er_sends_credentials request final then [final] else []))))
                        end
                    | Ok _ => (jar, baseline, Ok None)
                    end
                end
            end
        end
  end.

(** One turn of the redirect loop. *)
Inductive HopTurn : Type :=
| HopAgain (s : LoadState)
| HopDone (s : LoadState) (r : result ExternalResourceLoadFailure LoadedExternalResource).

Definition cached_hop_events (url : WebUrl) (response : ByteResponse) : list NetworkEvent :=
  let n := len (br_body response) in
  [EvRequestStart (wu_str url) Get; EvResponse (wu_str url) (br_status response);
   EvBodyProgress (wu_str url) n n (Some n); EvCompleted (wu_str url) n].
Definition set_response_events (events : list NetworkEvent) (redirects : N) (aliasable : bool) (r : ByteResponse) :
    ByteResponse :=
  {| br_body := br_body r; br_headers := br_headers r; br_status := br_status r; br_final_url := br_final_url r;
     br_set_cookie := br_set_cookie r; br_redirects := redirects; br_events := events;
     br_request_headers := br_request_headers r; br_from_cache := br_from_cache r; br_redirect_aliasable := aliasable |}.

(** [events.pop()] when the last event is the response that turns out to be a redirect *)
Definition pop_redirect_response (url : WebUrl) (status : N) (events : list NetworkEvent) : list NetworkEvent :=
  match last events with
  | Some (EvResponse u st) => if bool_decide (u = wu_str url) && (st =? status)%N then removelast events else events
  | _ => events
  end.

(** What a hop answers: its cached or fetched response, with its events and what was sent. *)
Definition hop_response (hop : nat) (s : LoadState) :
    LoadState * result ExternalResourceLoadFailure ByteResponse :=
  let current := ls_current s in
  let headers := er_request_headers request current in
  match effective_request_headers config (clock hop 0 0) (request_cookies current (ls_jar s))
          (resource_request current headers) with
  | (used, Err e) =>
      (ls_set_jar (keep_cookies current used (ls_jar s)) (ls_baseline s) s,
       Err (load_failure (load_error (lit " request failed: ") (network_error_text e)) (wu_str current) (ls_events s) (lit "load")))
  | (used, Ok effective) =>
      let s := ls_set_jar (keep_cookies current used (ls_jar s)) (ls_baseline s) s in
      match (if revalidate_profile_cache
             then external_resource_cache_lookup store current effective max_body_bytes (unix hop) else Ok None) with
      | Err e => (s, Err (load_failure e (wu_str current) (ls_events s) (lit "cache")))
      | Ok cached =>
          let stale := match cached with Some (_, Stale) => true | _ => false end in
          match cached with
          | Some (response, Fresh) =>
              (s, Ok (set_response_events (cached_hop_events current response) (br_redirects response)
                        (br_redirect_aliasable response) response))
          | _ =>
              let '(headers, added) :=
                match cached with
                | Some (response, Stale) => add_external_resource_revalidation_headers headers response
                | _ => (headers, false)
                end in
              (* the jar a second time: without credentials, the one the first call left *)
              match fetch_bytes_with_limit config (send hop) (clock hop) (resource_request current headers) max_body_bytes
                      (λ _, true) (if er_sends_credentials request current then ls_jar s else used) with
              | None => (s, Err (load_failure (load_error [] []) (wu_str current) (ls_events s) (lit "load")))
              | Some (fs, r) =>
                  let s := ls_set_jar (keep_cookies current (fs_jar fs) (ls_jar s)) (ls_baseline s) s in
                  match r with
                  | Err e =>
                      let s := ls_set_events (ls_events s ++ fs_events fs) (fs_sent fs) s in
                      (s, Err (load_failure (load_error (lit " fetch failed: ") (network_error_text e)) (wu_str current)
                                 (ls_events s) (lit "load")))
                  | Ok response =>
                      (ls_set_events (ls_events s) (fs_sent fs) s,
                       Ok (if stale && added then revalidated_external_resource_response response (fst <$> cached)
                           else response))
                  end
              end
          end
      end
  end.

(** The rest of a turn, once there is a response: accept it, or follow the redirect. *)
Definition after_response (response : ByteResponse) (s : LoadState) : HopTurn :=
  let current := ls_current s in
  let s := ls_set_events (ls_events s ++ br_events response) [] s in
  let fail message url := HopDone s (Err (load_failure message url (ls_events s) (lit "load"))) in
  match er_response_blocked_reason request current response with
  | Some reason => HopDone s (Err (blocked_failure reason current (ls_events s)))
  | None =>
      if negb (is_followable_redirect (br_status response)) then
        HopDone s (Ok (LoadedHttp (set_response_events (ls_events s) (ls_redirects s) (ls_aliasable s) response)
                         (ls_requested s)))
      else if (max_redirects <=? ls_redirects s)%N then
        fail (load_error (lit " fetch failed: too many redirects (>")
                (dec max_redirects ++ lit ") fetching " ++ wu_str current)) (wu_str current)
      else
        let invalid := load_error (lit " fetch failed: invalid redirect target from ") (wu_str current) in
        match byte_header response (lit "location") with
        | None => fail invalid (wu_str current)
        | Some location =>
            match url_join current location with
            | None => fail invalid (wu_str current)
            | Some next =>
                if bool_decide (wu_str next ∈ ls_visited s) then
                  fail (load_error (lit " fetch failed: redirect loop detected at ") (wu_str next)) (wu_str next)
                else
                  match validate_http_url next with
                  | Err e => fail (load_error (lit " fetch failed: URL rejected by policy: ") (policy_error_text e)) (wu_str next)
                  | Ok _ =>
                      let events := pop_redirect_response current (br_status response) (ls_events s)
                                    ++ [EvRedirect (wu_str current) (wu_str next) (br_status response)] in
                      match er_blocked_reason request next with
                      | Some reason => HopDone s (Err (blocked_failure reason next events))
                      | None =>
                          HopAgain {| ls_jar := ls_jar s; ls_baseline := ls_baseline s; ls_current := next;
                                      ls_redirects := ls_redirects s + 1;
                                      ls_aliasable := ls_aliasable s && br_redirect_aliasable response;
                                      ls_visited := ls_visited s; ls_events := events; ls_requested := ls_requested s;
                                      ls_sent := ls_sent s |}
                      end
                  end
            end
        end
  end.

Definition hop_turn (hop : nat) (s : LoadState) : HopTurn :=
  let current := ls_current s in
  match er_blocked_reason request current with
  | Some reason => HopDone s (Err (blocked_failure reason current (ls_events s)))
  | None =>
      let s := {| ls_jar := ls_jar s; ls_baseline := ls_baseline s; ls_current := current; ls_redirects := ls_redirects s;
                  ls_aliasable := ls_aliasable s; ls_visited := wu_str current :: ls_visited s; ls_events := ls_events s;
                  ls_requested := ls_requested s; ls_sent := ls_sent s |} in
      match merge_for hop current (ls_events s) (ls_jar s) (ls_baseline s) with
      | Err f => HopDone s (Err f)
      | Ok (jar, baseline) =>
          let s := {| ls_jar := jar; ls_baseline := baseline; ls_current := current; ls_redirects := ls_redirects s;
                      ls_aliasable := ls_aliasable s; ls_visited := ls_visited s; ls_events := ls_events s;
                      ls_requested := ls_requested s ++ (if er_sends_credentials request current then [current] else []);
                      ls_sent := ls_sent s |} in
          match hop_response hop s with
          | (s, Err f) => HopDone s (Err f)
          | (s, Ok response) => after_response response s
          end
      end
  end.

Fixpoint load_loop (fuel hop : nat) (s : LoadState) :
    option (LoadState * result ExternalResourceLoadFailure LoadedExternalResource) :=
  match fuel with
  | O => None
  | S fuel => match hop_turn hop s with HopAgain s => load_loop fuel (S hop) s | HopDone s r => Some (s, r) end
  end.

Definition load_start (url : WebUrl) (jar : CookieJar) (baseline : list CookieSnapshot) : LoadState :=
  {| ls_jar := jar; ls_baseline := baseline; ls_current := url; ls_redirects := 0; ls_aliasable := true; ls_visited := [];
     ls_events := []; ls_requested := []; ls_sent := [] |}.

(** [load_external_resource]: the state holds the jar and the baseline of the caller. *)
Definition load_external_resource (jar : CookieJar) (baseline : list CookieSnapshot) :
    option (LoadState * result ExternalResourceLoadFailure LoadedExternalResource) :=
  let url := er_url request in
  let fuel := S (N.to_nat max_redirects) in
  if bool_decide (wu_scheme url = lit "file") then Some (load_start url jar baseline, load_file url)
  else if bool_decide (wu_scheme url = lit "http") || bool_decide (wu_scheme url = lit "https") then
    if revalidate_profile_cache then
      match answer_from_alias url jar baseline with
      | (jar, baseline, Err f) => Some (load_start url jar baseline, Err f)
      | (jar, baseline, Ok (Some answer)) => Some (load_start url jar baseline, Ok answer)
      | (jar, baseline, Ok None) => load_loop fuel 1 (load_start url jar baseline)
      end
    else load_loop fuel 1 (load_start url jar baseline)
  else Some (load_start url jar baseline,
             Err (load_failure (BrowserError_new INVALID_ARGUMENT
                    (lit "unsupported external " ++ er_kind request ++ lit " URL scheme: " ++ wu_scheme url))
                    (wu_str url) [] (lit "load"))).
End load.
