(* ===== verification/ExternalResourceFacts.v ===== *)
(** * Properties of loading external resources

    A load ends within the redirect budget; it contacts only URLs that both the document's
    policy and the URL policy permit, none of them twice; cookies leave only on the hops of
    the document's choosing. *)

From Stdlib Require Import Lia ZArith.
From stdpp Require Import base decidable sets list strings.
From S2P Require Import Prelude.
From S2P Require Import RustStr.
From S2P Require Import RustUtf8.
From S2P Require Import RustMap.
From S2P Require Import Cookie.
From S2P Require Import CookieFacts.
From S2P Require Import Store.
From S2P Require Import WebStorage.
From S2P Require Import NetUrl.
From S2P Require Import HttpCache.
From S2P Require Import Network.
From S2P Require Import NetworkFacts.
From S2P Require Import ProfileCookies.
From S2P Require Import EmbedderPolicy.
From S2P Require Import BrowserApi.
From S2P Require Import ExternalResource.

(** ** One hop of the transport *)

Section manual.
Context `{Platform, UrlPlatform, HttpCrate}.
Variable config : NetworkConfig.
Variable send : Sent → result NetworkError RawResponse.
Variable clock : nat → nat → OffsetDateTime.
Variable request : TextRequest.
Variable limit : N.
Variable redirect : WebUrl → bool.
Hypothesis manual : rq_redirect_mode request = Manual.

(** A manual request sends at most once, and a redirect it returns ends its events with
    [Completed]. *)
Lemma manual_fetch jar :
  ∃ s r, fetch_bytes_with_limit config send clock request limit redirect jar = Some (s, r) ∧
    length (fs_sent s) ≤ 1 ∧
    ∀ response, r = Ok response → is_followable_redirect (br_status response) = true →
      ∃ evs, br_events response = evs ++ [EvCompleted (wu_str (rq_url request)) 0].
Proof.
  unfold fetch_bytes_with_limit. destruct (validate_http_url (rq_url request)) as [u|e].
  2: { exists (fetch_start request jar), (Err (NetUrlPolicy e)). split; [done|]. split; [cbn; lia|done]. }
  cbn [fetch_loop]. unfold fetch_turn. cbn [fs_current record_progress visit set_jar push_sent fs_redirects fs_jar fetch_start].
  destruct (effective_request_headers_for _ _ _ _ _ _ _ _) as [jar' [headers|e]].
  2: { do 2 eexists. split; [done|]. split; [cbn; lia|done]. }
  destruct (send _) as [resp|e].
  2: { do 2 eexists. split; [done|]. split; [cbn; lia|done]. }
  rewrite manual, bool_decide_eq_true_2 by done. destruct (is_followable_redirect (rr_status resp)) eqn:Er.
  - do 2 eexists. split; [done|]. split; [cbn; lia|]. intros response [= <-] _. by eexists [_; _].
  - destruct (final_response _ _ _ _) as [s' r] eqn:Ef. exists s', r. split; [done|].
    pose proof (final_response_redirects _ _ _ _ _ _ Ef) as (_ & -> & _). split; [cbn; lia|].
    intros response -> Hr. apply final_response_cases in Ef as [Ef|(e & ? & _)]; [|done].
    exfalso. unfold final_body in Ef. destruct (bd_result _) as [[body loaded]|e]; [|done].
    injection Ef as _ <-. cbn in Hr. congruence.
Qed.
End manual.

(** An empty jar stays empty and gives no cookie header, not even the author's. *)
Lemma empty_jar_headers `{Platform, UrlPlatform, HttpCrate} config now jar url cross method headers jar' out :
  cookies jar = [] → effective_request_headers_for config now jar url cross method headers None = (jar', out) →
  cookies jar' = [] ∧ ∀ o, out = Ok o → map_get o (lit "cookie") = None.
Proof.
  intros Hj. unfold effective_request_headers_for. destruct (author_headers [] headers) as [o|e]; [|by intros [= <- <-]].
  destruct (cookies_for (cookie_url url) cross method now jar) as [jar1 c] eqn:Ec.
  assert (cookies jar1 = [] ∧ c = []) as [Hj1 ->].
  { unfold cookies_for in Ec. rewrite Hj in Ec. by destruct (url_host _); injection Ec as <- <-. }
  cbn zeta. rewrite bool_decide_eq_true_2 by done. intros [= <- <-]. split; [done|]. intros o' [= <-].
  rewrite map_get_remove, map_get_remove. by case_decide; [|rewrite decide_True].
Qed.

Section load_facts.
Context `{Platform, StorePlatform, UrlPlatform, HttpCrate, HttpDate, ErrorText, Disk, ExternalResourceRequest R}.
Variable config : NetworkConfig.
Variable send : nat → Sent → result NetworkError RawResponse.
Variable clock : nat → nat → nat → OffsetDateTime.
Variable merge_clock : nat → OffsetDateTime.
Variable merge_tick : nat → nat → OffsetDateTime.
Variable unix : nat → Z.
Variable store : Store.
Variable request : R.
Variable revalidate : bool.
Variable max_body : N.
Variable max_redirects : N.

Local Abbreviation turn := (hop_turn config send clock merge_clock merge_tick unix store request revalidate max_body max_redirects).
Local Abbreviation loop := (load_loop config send clock merge_clock merge_tick unix store request revalidate max_body max_redirects).
Local Abbreviation respond := (hop_response config send clock unix store request revalidate max_body).
Local Abbreviation permitted u := (er_blocked_reason request u = None ∧ is_ok (validate_http_url u) = true).

(** A request that the document wants without credentials carries no cookies. *)
Definition uncredentialed_is_bare (x : Sent) : Prop :=
  er_sends_credentials request (sent_url x) = false → map_get (sent_headers x) (lit "cookie") = None.

Definition hop_request (s : LoadState) (x : Sent) : Prop :=
  sent_url x = ls_current s ∧ is_ok (validate_http_url (ls_current s)) = true ∧ uncredentialed_is_bare x.

Ltac no_request :=
  cbn; split_and!; try done; exists []; rewrite app_nil_r; split_and!; [done|cbn; lia|constructor].

(** What a hop may change: at most one request, to the current URL, and permitted. *)
Lemma respond_spec hop s s' r :
  respond hop s = (s', r) →
  ls_current s' = ls_current s ∧ ls_redirects s' = ls_redirects s ∧ ls_visited s' = ls_visited s ∧
  ls_requested s' = ls_requested s ∧
  ∃ sent, ls_sent s' = ls_sent s ++ sent ∧ length sent ≤ 1 ∧
    Forall (λ x, hop_request s x) sent.
Proof.
  unfold hop_response.
  destruct (effective_request_headers _ _ _ _) as [used [effective|e]] eqn:Eu.
  2: { intros [= <- <-]. no_request. }
  destruct (if revalidate then _ else _) as [cached|e].
  2: { intros [= <- <-]. no_request. }
  set (stale := match cached with Some (_, Stale) => true | _ => false end).
  assert (Hnet : ∀ headers added s0 jar,
    ls_current s0 = ls_current s → ls_redirects s0 = ls_redirects s → ls_visited s0 = ls_visited s →
    ls_requested s0 = ls_requested s → ls_sent s0 = ls_sent s →
    (er_sends_credentials request (ls_current s) = false → cookies jar = []) →
    match fetch_bytes_with_limit config (send hop) (clock hop) (resource_request request (ls_current s) headers) max_body
            (λ _, true) jar with
    | None => (s0, Err (load_failure (load_error request [] []) (wu_str (ls_current s)) (ls_events s0) (lit "load")))
    | Some (fs, r0) =>
        let s1 := ls_set_jar (keep_cookies request (ls_current s) (fs_jar fs) (ls_jar s0)) (ls_baseline s0) s0 in
        match r0 with
        | Err e => let s2 := ls_set_events (ls_events s1 ++ fs_events fs) (fs_sent fs) s1 in
                   (s2, Err (load_failure (load_error request (lit " fetch failed: ") (network_error_text e))
                               (wu_str (ls_current s)) (ls_events s2) (lit "load")))
        | Ok response =>
            (ls_set_events (ls_events s1) (fs_sent fs) s1,
             Ok (if stale && added then revalidated_external_resource_response response (fst <$> cached) else response))
        end
    end = (s', r) →
    ls_current s' = ls_current s ∧ ls_redirects s' = ls_redirects s ∧ ls_visited s' = ls_visited s ∧
    ls_requested s' = ls_requested s ∧
    ∃ sent, ls_sent s' = ls_sent s ++ sent ∧ length sent ≤ 1 ∧
      Forall (λ x, hop_request s x) sent).
  { intros headers added s0 jar E1 E2 E3 E4 E5 Hjar.
    destruct (manual_fetch config (send hop) (clock hop) (resource_request request (ls_current s) headers) max_body
                (λ _, true) eq_refl jar) as (fs & r0 & Ef & Hlen & _).
    pose proof (fetch_urls _ _ _ _ _ _ _ _ _ Ef) as (Hok & _ & _ & Hhd). rewrite Ef.
    pose proof (λ x l, fetch_first _ _ _ _ _ _ _ _ _ x l Ef) as Hfirst.
    assert (Hsent : Forall (hop_request s) (fs_sent fs)).
    { destruct (fs_sent fs) as [|x [|y l]]; cbn in *; [constructor| |lia]. constructor; [|constructor].
      apply Forall_cons in Hok as [Hx _]. destruct (Hfirst x [] eq_refl) as [Hu Hh]. unfold hop_request.
      rewrite Hu in *. split_and!; [done|done|]. unfold uncredentialed_is_bare. rewrite Hu. intros Hc.
      destruct (effective_request_headers_for _ _ _ _ _ _ _ _) as [jar' out] eqn:Ee.
      apply empty_jar_headers in Ee as [_ Ho]; [|auto]. by apply Ho. }
    destruct r0; intros [= <- <-]; cbn; split_and!; try done; exists (fs_sent fs); by rewrite E5, ?app_nil_r. }
  assert (Hu : er_sends_credentials request (ls_current s) = false → cookies used = []).
  { intros Hc. unfold effective_request_headers in Eu. destruct (validate_http_url _); [|done].
    apply empty_jar_headers in Eu as [? _]; [done|]. unfold request_cookies. by rewrite Hc. }
  assert (Hj : er_sends_credentials request (ls_current s) = false →
    cookies (if er_sends_credentials request (ls_current s)
             then ls_jar (ls_set_jar (keep_cookies request (ls_current s) used (ls_jar s)) (ls_baseline s) s) else used) = [])
    by (intros Hc; rewrite Hc; auto).
  destruct cached as [[response []]|].
  - intros [= <- <-]. no_request.
  - destruct (add_external_resource_revalidation_headers _ _) as [headers added]. by apply Hnet.
  - by apply Hnet.
  - by apply Hnet.
Qed.
(** ** The redirect loop *)

Record load_inv (s : LoadState) : Prop := {
  lo_permitted : Forall (λ x, permitted (sent_url x)) (ls_sent s);
  lo_bare : Forall uncredentialed_is_bare (ls_sent s);
  lo_once : NoDup (wu_str ∘ sent_url <$> ls_sent s);
  lo_visited : Forall (λ x, wu_str (sent_url x) ∈ ls_visited s) (ls_sent s);
  lo_count : (len (ls_sent s) ≤ len (ls_visited s))%N;
  lo_credentials : Forall (λ u, er_sends_credentials request u = true ∧ er_blocked_reason request u = None) (ls_requested s);
}.

(** The head of a turn: the current URL is not visited yet. *)
Definition at_head (s : LoadState) : Prop :=
  load_inv s ∧ (wu_str (ls_current s) ∉ ls_visited s) ∧ len (ls_visited s) = ls_redirects s ∧ (ls_redirects s ≤ max_redirects)%N.

Definition accepted (s : LoadState) (r : result ExternalResourceLoadFailure LoadedExternalResource) : Prop :=
  match r with
  | Err _ => True
  | Ok (LoadedFile _ _) => False
  | Ok (LoadedHttp response urls) =>
      urls = ls_requested s ∧ is_followable_redirect (br_status response) = false ∧
      br_redirects response = ls_redirects s ∧ er_blocked_reason request (ls_current s) = None
  end.

Lemma load_inv_events s events : load_inv s → load_inv (ls_set_events events [] s).
Proof. intros []. by split; cbn; rewrite ?app_nil_r. Qed.

Lemma after_response_spec response s :
  load_inv s → len (ls_visited s) = (ls_redirects s + 1)%N → (ls_redirects s ≤ max_redirects)%N →
  er_blocked_reason request (ls_current s) = None →
  match after_response request max_redirects response s with
  | HopAgain s' => at_head s' ∧ ls_redirects s' = (ls_redirects s + 1)%N
  | HopDone s' r => load_inv s' ∧ (len (ls_visited s') ≤ max_redirects + 1)%N ∧ accepted s' r
  end.
Proof.
  intros Hi Hv Hr Hb. unfold after_response. cbn zeta.
  pose proof (load_inv_events s (ls_events s ++ br_events response) Hi) as Hi'.
  set (s1 := ls_set_events (ls_events s ++ br_events response) [] s) in *.
  assert (Hd : ∀ r, accepted s1 r → load_inv s1 ∧ (len (ls_visited s1) ≤ max_redirects + 1)%N ∧ accepted s1 r).
  { intros r Ha. split_and!; [done| |done]. cbn. lia. }
  destruct (er_response_blocked_reason _ _ _); [by apply Hd|].
  destruct (is_followable_redirect (br_status response)) eqn:Ef; cbn [negb]; [|by apply Hd].
  destruct (max_redirects <=? ls_redirects s1)%N eqn:El; [by apply Hd|]. apply N.leb_gt in El.
  destruct (byte_header response (lit "location")) as [location|]; [|by apply Hd].
  destruct (url_join (ls_current s) location) as [next|]; [|by apply Hd].
  case_bool_decide as Hn; [by apply Hd|]. destruct (validate_http_url next) as [u|e]; [|by apply Hd].
  destruct (er_blocked_reason request next); [by apply Hd|]. split; [|done].
  destruct Hi' as [H1' H2' H3' H4' H5' H6']. split; [by split|]. cbn in *. split_and!; [done|lia|lia].
Qed.

Lemma turn_spec hop s :
  at_head s →
  match turn hop s with
  | HopAgain s' => at_head s' ∧ ls_redirects s' = (ls_redirects s + 1)%N
  | HopDone s' r => load_inv s' ∧ (len (ls_visited s') ≤ max_redirects + 1)%N ∧ accepted s' r
  end.
Proof.
  intros (Hi & Hnew & Hlen & Hr). unfold hop_turn. cbn zeta.
  destruct (er_blocked_reason request (ls_current s)) as [reason|] eqn:Hb.
  { split_and!; [done|lia|done]. }
  set (s0 := {| ls_jar := ls_jar s |}).
  assert (Hi0 : load_inv s0).
  { destruct Hi as [H1' H2' H3' H4' H5' H6']. split; try done; cbn.
    - eapply Forall_impl; [exact H4'|]. intros x Hx. by right.
    - rewrite len_cons. lia. }
  destruct (merge_for _ _ _ _ _ _ _ _) as [[jar baseline]|f].
  2: { split_and!; [done| |done]. cbn [ls_visited s0]. rewrite len_cons. lia. }
  set (s1 := {| ls_jar := jar |}).
  assert (Hi1 : load_inv s1).
  { destruct Hi0 as [H1' H2' H3' H4' H5' H6']. split; try done. cbn. apply Forall_app. split; [done|].
    destruct (er_sends_credentials request (ls_current s)) eqn:Hc; repeat constructor; done. }
  destruct (respond hop s1) as [s2 r] eqn:Er. apply respond_spec in Er as (Ec & Ered & Ev & Erq & sent & Es & Hl & Hf).
  assert (Hi2 : load_inv s2).
  { destruct Hi1 as [H1' H2' H3' H4' H5' H6']. split; rewrite ?Es, ?Ev, ?Erq; try done.
    - apply Forall_app. split; [done|]. eapply Forall_impl; [exact Hf|]. intros x (-> & Hx & _). by split.
    - apply Forall_app. split; [done|]. eapply Forall_impl; [exact Hf|]. by intros x (_ & _ & Hx).
    - rewrite fmap_app. apply NoDup_app. split; [done|].
      destruct sent as [|x [|y l]]; cbn in Hl |- *; [split; [|constructor]; by intros ? _ ?%not_elem_of_nil| |lia].
      apply Forall_cons in Hf as [(-> & _ & _) _]. split; [|apply NoDup_singleton].
      intros u Hu ->%list_elem_of_singleton. apply list_elem_of_fmap in Hu as (y & Hy & Hin).
      destruct Hi as [_ _ _ Hvis _ _]. eapply Forall_forall in Hvis; [|exact Hin]. cbn in Hy. by rewrite <-Hy in Hvis.
    - apply Forall_app. split; [done|]. eapply Forall_impl; [exact Hf|]. intros x (-> & _ & _). by left.
    - cbn [ls_visited s1 s0 ls_sent] in *. rewrite len_app, len_cons. unfold len in *. destruct Hi as [_ _ _ _ Hc _]. unfold len in Hc. lia. }
  assert (Hlen2 : len (ls_visited s2) = (ls_redirects s2 + 1)%N).
  { rewrite Ev, Ered. cbn. rewrite len_cons. lia. }
  destruct r as [response|f].
  - assert (Ered' : ls_redirects s2 = ls_redirects s) by exact Ered. rewrite <-Ered'.
    apply after_response_spec; [done|done|by rewrite Ered'|by rewrite Ec].
  - split_and!; [done| |done]. rewrite Hlen2, Ered. cbn. lia.
Qed.

Lemma loop_spec fuel hop s :
  at_head s → (max_redirects < ls_redirects s + N.of_nat fuel)%N →
  ∃ s' r, loop fuel hop s = Some (s', r) ∧ load_inv s' ∧ (len (ls_visited s') ≤ max_redirects + 1)%N ∧ accepted s' r.
Proof.
  revert hop s. induction fuel as [|fuel IH]; intros hop s Hs Hf.
  { destruct Hs as (_ & _ & _ & Hr). lia. }
  cbn [load_loop]. pose proof (turn_spec hop s Hs) as Ht. destruct (turn hop s) as [s'|s' r].
  - destruct Ht as [Hs' Hr']. apply IH; [done|lia].
  - by exists s', r.
Qed.

(** What is promised of a load that ended in state [s] with result [r]. *)
Definition safe_load (s : LoadState) (r : result ExternalResourceLoadFailure LoadedExternalResource) : Prop :=
  (len (ls_sent s) ≤ max_redirects + 1)%N ∧
  Forall (λ x, permitted (sent_url x) ∧ uncredentialed_is_bare x) (ls_sent s) ∧
  NoDup (wu_str ∘ sent_url <$> ls_sent s) ∧
  match r with
  | Ok (LoadedHttp response urls) =>
      Forall (λ u, er_sends_credentials request u = true) urls ∧
      (br_from_cache response = false → is_followable_redirect (br_status response) = false)
  | Ok (LoadedFile final_url _) => final_url = er_url request
  | Err _ => True
  end.

Lemma loop_safe jar baseline :
  match loop (S (N.to_nat max_redirects)) 1 (load_start (er_url request) jar baseline) with
  | None => False
  | Some (s, r) => safe_load s r
  end.
Proof.
  destruct (loop_spec (S (N.to_nat max_redirects)) 1 (load_start (er_url request) jar baseline))
    as (s & r & -> & [] & Hv & Ha); [|cbn; lia|].
  - split_and!; cbn; try done; [|by apply not_elem_of_nil|lia]. split; cbn; try constructor. done.
  - split_and!; [lia| |done|].
    + apply Forall_and. split; done.
    + destruct r as [[|response urls]|]; [done| |done]. destruct Ha as (-> & Hs & _ & _). split; [|done].
      eapply Forall_impl; [eassumption|]. by intros u [? _].
Qed.

(** An answer that needs no request. *)
Lemma immediate_safe jar baseline r :
  match r with
  | Ok (LoadedHttp response urls) => Forall (λ u, er_sends_credentials request u = true) urls ∧ br_from_cache response = true
  | Ok (LoadedFile final_url _) => final_url = er_url request
  | Err _ => True
  end → safe_load (load_start (er_url request) jar baseline) r.
Proof.
  intros Hr. unfold safe_load, load_start. cbn [ls_sent]. split_and!; [apply N.le_0_l|constructor|constructor|]. destruct r as [[]|]; [done| |done].
  destruct Hr as [Hr Hc]. split; [done|]. by rewrite Hc.
Qed.

Lemma alias_answer jar baseline jar' baseline' answer :
  answer_from_alias config clock merge_clock merge_tick unix store request max_body max_redirects (er_url request) jar baseline =
    (jar', baseline', Ok (Some answer)) →
  ∃ response urls, answer = LoadedHttp response urls ∧
    Forall (λ u, er_sends_credentials request u = true) urls ∧ br_from_cache response = true.
Proof.
  unfold answer_from_alias. destruct (resolve_redirect_alias _ _) as [[alias|]|]; try done.
  destruct (max_redirects <? _)%N; [done|]. destruct (head _) as [[]|]; [done|].
  destruct (merge_for _ _ _ _ _ _ _ _) as [[j b]|]; [|done].
  destruct (effective_request_headers _ _ _ _) as [used [effective|]]; [|done].
  destruct (external_resource_cache_lookup _ _ _ _ _) as [[[response []]|]|] eqn:El; try done. cbn zeta.
  destruct (er_response_blocked_reason _ _ _); [done|]. intros [= _ _ <-]. do 2 eexists. split; [done|]. split.
  - destruct (er_sends_credentials request (final_url alias)) eqn:Hc; repeat constructor; done.
  - unfold external_resource_cache_lookup in El. destruct (cache_variants _ _ _); [|done].
    destruct (select_variant _ _ _ _) as [[entry use]|]; [|done]. case_match; [done|]. by injection El as <- _.
Qed.

Local Abbreviation the_load :=
  (load_external_resource config send clock merge_clock merge_tick unix store request revalidate max_body max_redirects).

(** C34. Whatever the servers, the cache and the profile answer, loading an external resource
    ends; the requests it sends are at most one more than the permitted redirects, go only
    to URLs that the document's policy and the URL policy both allow, never twice to the
    same URL, and carry no cookie where the document wants none; a response from the network
    is accepted only if it is no redirect, and the URLs whose cookies it may change are URLs
    that are requested with credentials. *)
Theorem external_load_exact jar baseline :
  match the_load jar baseline with
  | None => False
  | Some (s, r) => safe_load s r
  end.
Proof.
  unfold load_external_resource. case_bool_decide.
  { apply immediate_safe. unfold load_file. destruct (to_file_path _); [|done].
    by destruct (read_bounded_file _ _) as [|[]]. }
  destruct (_ || _); [|by apply immediate_safe]. destruct revalidate eqn:Er; [|by rewrite <-Er; apply loop_safe].
  destruct (answer_from_alias _ _ _ _ _ _ _ _ _ _ _ _) as [[jar' baseline'] [[answer|]|f]] eqn:Ea.
  - apply alias_answer in Ea as (response & urls & -> & ? & ?). by apply immediate_safe.
  - rewrite <-Er. apply loop_safe.
  - by apply immediate_safe.
Qed.

(** The response event that the loop means to take back before it reports a redirect is
    never the last one: the transport ends the events of a redirect with [Completed], so
    every redirect that comes from the network is reported as a completed response first. *)
Theorem redirect_keeps_response_events hop jar headers url s response before :
  fetch_bytes_with_limit config (send hop) (clock hop) (resource_request request url headers) max_body (λ _, true) jar =
    Some (s, Ok response) →
  is_followable_redirect (br_status response) = true →
  pop_redirect_response url (br_status response) (before ++ br_events response) = before ++ br_events response.
Proof.
  intros Hf Hr.
  destruct (manual_fetch config (send hop) (clock hop) (resource_request request url headers) max_body (λ _, true)
              eq_refl jar) as (s' & r & Hf' & _ & Hev).
  rewrite Hf in Hf'. injection Hf' as <- <-. destruct (Hev response eq_refl Hr) as [evs ->].
  unfold pop_redirect_response. by rewrite app_assoc, last_snoc.
Qed.
End load_facts.

(** ** A redirect of another site *)

#[local] Existing Instance toy_platform.
#[local] Existing Instance bank_urls.
#[local] Existing Instance plain_headers.
(** A script of evil.com that may be loaded from anywhere. *)
#[local] Instance open_request : ExternalResourceRequest unit := {|
  er_url := λ _, site_url "evil.com" "/go"; er_blocked_reason := λ _ _, None; er_is_cross_site := λ _ _, false;
  er_request_headers := λ _ _, []; er_sends_credentials := λ _ _, true; er_response_blocked_reason := λ _ _ _, None;
  er_kind := λ _, lit "script" |}.

Lemma redirect_keeps_response_events_witness :
  ∃ s response,
    fetch_bytes_with_limit small_config two_sites (λ _, toy_clock 100%Z) (resource_request tt (site_url "evil.com" "/go") []) 64
      (λ _, true) bank_jar = Some (s, Ok response) ∧
    is_followable_redirect (br_status response) = true ∧
    pop_redirect_response (site_url "evil.com" "/go") (br_status response) ([] ++ br_events response) = [] ++ br_events response.
Proof.
  eexists _, _. split; [vm_compute; reflexivity|]. split; [vm_compute; reflexivity|].
  apply (redirect_keeps_response_events small_config (λ _, two_sites) (λ _ _, toy_clock 100%Z) tt 64 0 bank_jar []
    (site_url "evil.com" "/go") (default (fetch_start (resource_request tt (site_url "evil.com" "/go") []) bank_jar)
      (fst <$> fetch_bytes_with_limit small_config two_sites (λ _, toy_clock 100%Z)
         (resource_request tt (site_url "evil.com" "/go") []) 64 (λ _, true) bank_jar)));
    vm_compute; reflexivity.
Defined.
