(* ===== verification/BrowserCore.v ===== *)
(** * The browser core: contexts and navigations

    [crates/vixen-engine/src/browser.rs], the worker that owns the profile: its state, the
    monad of its handlers, and the start and the end of a navigation.  [BrowserWork] has what
    a navigation does in between, [BrowserCommands] the commands and the loop of the worker;
    [BrowserProtocol] says what the events mean and [BrowserCoreFacts] proves that the worker
    keeps to it.

    The page, the script runtime and the iterators over a document's resources are the types
    of the class [Engine], whose functions are the methods the core calls: everything that
    runs script works on a [Realm], the runtime with what it shares with the core (the page,
    the profile store and the counter of request identifiers).  A spawned load is an entry of
    the task pool; what it answers is the content of the message that reports it.  A handler
    may panic: indexing out of range and a failed [expect] are [Panic], and a returned error
    is [Fail].

    Not modelled: the memory of a page that an old runtime still holds, and the drop of the
    core. *)

From Stdlib Require Import Lia ZArith SpecFloat.
From stdpp Require Import base decidable gmap sets list strings.
From S2P Require Import Prelude.
From S2P Require Import RustFloat.
From S2P Require Import RustStr.
From S2P Require Import RustUtf8.
From S2P Require Import RenderModel.
From S2P Require Import SessionHistory.
From S2P Require Import Cookie.
From S2P Require Import Store.
From S2P Require Import WebStorage.
From S2P Require Import NetUrl.
From S2P Require Import HttpCache.
From S2P Require Import Network.
From S2P Require Import ProfileCookies.
From S2P Require Import BrowserApi.
From S2P Require Import BrowserChannel.
From S2P Require Import ExternalResource.

Definition MAX_URL_BYTES : N := 16 * 1024.
Definition MAX_RUNTIME_SLOTS : N := 512.
Definition PARSER_WORK_BYTES : N := 64 * 1024.
Definition MAX_NAVIGATION_ACTIONS_PER_COMMAND : N := 64.
Definition MAX_SCRIPT_BYTES : N := 1024 * 1024.
Definition MAX_VIEWPORT_DIMENSION : N := 16384.

(** ** Values the engine hands to the core *)

Inductive JsNavigationAction : Type :=
| ActionNavigate (url : rstr) (replace : bool)
| ActionSetContent (html : rstr)
| ActionFormSubmit (form_id : rstr) (form_node_id : N) (submitter_node_id : option N) (submitter_id : option rstr)
    (action method enctype : rstr)
| ActionHistoryPush (url state_json title : rstr)
| ActionHistoryReplace (url state_json title : rstr)
| ActionHistoryTraverse (delta : Z)
| ActionHistoryScrollRestoration (value : rstr)
| ActionOverflow.

(** The part of [FormSubmissionSnapshot] that a navigation reads *)
Record FormSubmission : Type := { fs_action : rstr; fs_method : rstr; fs_body : list N }.

Record RenderViewState : Type := {
  rv_viewport : N * N; rv_viewport_generation : N; rv_device_scale : f64; rv_page_zoom : f64;
}.

(** [PreparedPageStylesheet], [PreparedPageImage] and [PreparedPageScript]: the next item *)
Inductive Prepared (R : Type) : Type := PreparedSkip | PreparedExternal (request : R).
Arguments PreparedSkip {R}. Arguments PreparedExternal {R}.
Inductive PreparedPageScript (R M : Type) : Type :=
| ScriptSkip
| ScriptInline (source : rstr) (request : R)
| ScriptInlineModule (source : rstr) (request : R)
| ScriptImportMap (diagnostics : list rstr) (error : option rstr) (map : option M)
| ScriptExternal (request : R).
Arguments ScriptSkip {R M}. Arguments ScriptInline {R M}. Arguments ScriptInlineModule {R M}.
Arguments ScriptImportMap {R M}. Arguments ScriptExternal {R M}.

(** The clocks a handler reads. *)
Class CoreClock `{Platform} : Type := { unix_now : Z; jar_now : OffsetDateTime; jar_tick : nat → OffsetDateTime }.

(** Pages and the iterators over their resources. *)
Class PageEngine : Type := {
  Page : Type;
  PageParser : Type;
  PageStylesheetRunner : Type;
  PageImageRunner : Type;
  PageScriptRunner : Type;
  ExternalPageStylesheet : Type;
  ExternalPageImage : Type;
  ExternalPageScript : Type;
  PageImportMap : Type;
  RasterImage : Type;
  stylesheet_request :: ExternalResourceRequest ExternalPageStylesheet;
  image_request :: ExternalResourceRequest ExternalPageImage;
  script_request :: ExternalResourceRequest ExternalPageScript;
  page_from_html : rstr → rstr → result rstr Page;
  page_url : Page → rstr;
  page_title : Page → option rstr;
  session_history : Page → SessionHistory;
  history_with_current_scroll : Page → SessionHistory;
  set_session_history : SessionHistory → Page → Page;
  set_layout_viewport : N * N → Page → Page;
  scroll_root_by : N * N → f64 * f64 → Page → Page * bool;
  resolve_url : Page → rstr → option rstr;
  form_submission : Page → rstr → result rstr FormSubmission;
  form_submission_by_node_id : Page → N → option N → result rstr FormSubmission;
  apply_external_stylesheet : N → rstr → Page → Page * result rstr unit;
  apply_raster_image : N → RasterImage → Page → Page;
  decode_png : list N → result rstr RasterImage;
  host_view_runtime_source : Page → HostViewState → bool → rstr;
  parser_with_headers : rstr → rstr → list (rstr * rstr) → PageParser;
  parser_advance : N → PageParser → PageParser * result rstr (option Page);
  stylesheets_new : Page → PageStylesheetRunner;
  stylesheets_next : Page → PageStylesheetRunner → PageStylesheetRunner * option (Prepared ExternalPageStylesheet);
  stylesheet_index : ExternalPageStylesheet → N;
  images_new : Page → PageImageRunner;
  images_next : Page → PageImageRunner → PageImageRunner * option (Prepared ExternalPageImage);
  image_node_id : ExternalPageImage → N;
  scripts_new : Page → bool → PageScriptRunner;
  scripts_next : Page → PageScriptRunner →
    PageScriptRunner * option (PreparedPageScript ExternalPageScript PageImportMap);
  script_is_module : ExternalPageScript → bool;
  script_with_url : WebUrl → ExternalPageScript → ExternalPageScript;
  script_integrity_failure : ExternalPageScript → list N → option rstr;
}.

(** The script runtime.  A [Realm] is what running script reads and writes: the runtime, the
    page, the profile store and the counter of request identifiers. *)
Class RuntimeType : Type := { JsRuntime : Type }.
Definition Realm `{StorePlatform, PageEngine, RuntimeType} : Type := (JsRuntime * Page * Store * N)%type.
Class ScriptEngine `{Platform, StorePlatform, PageEngine, RuntimeType} : Type := {
  JsValue : Type;
  RuntimeInterruptHandle : Type;
  js_as_bool : JsValue → option bool;
  (** the runtime of a context; the second argument is the layout of a synchronous renderer *)
  runtime_new : rstr → option (BrowsingContextId * DocumentId * RenderViewState) → Store → Page → result EngineError JsRuntime;
  interrupt_handle : JsRuntime → RuntimeInterruptHandle;
  set_extra_http_headers : list (rstr * rstr) → JsRuntime → JsRuntime;
  set_cache_disabled : bool → JsRuntime → JsRuntime;
  reset_permission_overrides : JsRuntime → JsRuntime;
  replace_permission_grants : option rstr → list rstr → JsRuntime → JsRuntime;
  evaluate : rstr → M Realm EngineError JsValue;
  evaluate_for_automation : rstr → bool → M Realm EngineError JsValue;
  evaluate_classic : rstr → ExternalPageScript → M Realm EngineError JsValue;
  evaluate_module : rstr → ExternalPageScript → M Realm EngineError unit;
  run_document_tasks : M Realm EngineError nat;
  recover_cancelled_module_realm : M Realm EngineError unit;
  refresh_page_hosts : M Realm EngineError unit;
  sync_page_realm_key : Page → JsRuntime → JsRuntime;
  set_document_import_map : PageImportMap → JsRuntime → JsRuntime;
  drain_console_events : M JsRuntime EngineError (list RuntimeConsoleEvent);
  drain_dialog_events : M JsRuntime EngineError (list RuntimeDialogEvent);
  drain_binding_events : M JsRuntime EngineError (list RuntimeBindingEvent);
  drain_network_events : M JsRuntime EngineError (list RuntimeNetworkEvent);
  drain_navigation_actions : M JsRuntime EngineError (list JsNavigationAction);
  network_cookie_snapshots : JsRuntime → result EngineError (list CookieSnapshot);
  apply_network_cookie_delta : CookieJarDelta → M JsRuntime EngineError unit;
  clear_profile_network_state : bool → bool → JsRuntime → JsRuntime;
}.

(** ** Geometry *)

Definition f64_mul (x y : f64) : f64 := f64_lit (SFmul 53 1024 (f64_repr x) (f64_repr y)).
Definition f64_div (x y : f64) : f64 := f64_lit (SFdiv 53 1024 (f64_repr x) (f64_repr y)).
Definition u32_max : N := 4294967295.
(** [x.ceil() as u32]: the cast saturates and takes a NaN to zero. *)
Definition ceil_as_u32 (x : f64) : N :=
  match f64_repr x with
  | S754_zero _ | S754_nan | S754_infinity true | S754_finite true _ _ => 0
  | S754_infinity false => u32_max
  | S754_finite false m e =>
      N.min u32_max (if (0 <=? e)%Z then Npos m * 2 ^ Z.to_N e
                     else (Npos m + (2 ^ Z.to_N (- e) - 1)) / 2 ^ Z.to_N (- e))
  end%N.
Definition page_layout_viewport (viewport : N * N) (physical_scale page_zoom : f64) : N * N :=
  let scale := f64_mul physical_scale page_zoom in
  (N.max (ceil_as_u32 (f64_div (f64_of_Z (Z.of_N viewport.1)) scale)) 1,
   N.max (ceil_as_u32 (f64_div (f64_of_Z (Z.of_N viewport.2)) scale)) 1)%N.

Definition validate_viewport (viewport : N * N) : result BrowserError unit :=
  throw_if ((viewport.1 =? 0) || (viewport.2 =? 0) || (MAX_VIEWPORT_DIMENSION <? viewport.1) ||
            (MAX_VIEWPORT_DIMENSION <? viewport.2))%N
    (BrowserError_new INVALID_ARGUMENT (lit "viewport must be within 1x1 and " ++ dec MAX_VIEWPORT_DIMENSION
       ++ lit "x" ++ dec MAX_VIEWPORT_DIMENSION)).
Definition validate_navigation_url (url : rstr) : result BrowserError unit :=
  throw_if (MAX_URL_BYTES <? str_len url)%N
    (BrowserError_new INVALID_ARGUMENT (lit "navigation URL exceeds the browser limit")).

(** ** State *)

Section core.
Context `{Platform, UrlPlatform, HttpDate, ErrorText, PageEngine, StorePlatform, RuntimeType} `{!ScriptEngine}.

Record ExternalScriptLoadKey : Type := {
  sk_context_id : BrowsingContextId; sk_navigation_id : NavigationId; sk_document_id : DocumentId;
  sk_runtime_context_id : RuntimeContextId; sk_request_id : RequestId;
}.
Record ExternalStylesheetLoadKey : Type := {
  yk_context_id : BrowsingContextId; yk_navigation_id : NavigationId; yk_document_id : DocumentId;
  yk_runtime_context_id : RuntimeContextId; yk_request_id : RequestId; yk_stylesheet_index : N;
}.
Record ExternalImageLoadKey : Type := {
  ik_context_id : BrowsingContextId; ik_navigation_id : NavigationId; ik_document_id : DocumentId;
  ik_runtime_context_id : RuntimeContextId; ik_request_id : RequestId; ik_node_id : N;
}.
#[export] Instance ExternalScriptLoadKey_eq_dec : EqDecision ExternalScriptLoadKey.
Proof. solve_decision. Defined.
#[export] Instance ExternalStylesheetLoadKey_eq_dec : EqDecision ExternalStylesheetLoadKey.
Proof. solve_decision. Defined.
#[export] Instance ExternalImageLoadKey_eq_dec : EqDecision ExternalImageLoadKey.
Proof. solve_decision. Defined.

Inductive HistoryUpdate : Type := UpdatePush | UpdateReplace | UpdatePreserve (history : SessionHistory).
Inductive LifecycleStage : Type := StageDomContentLoaded | StageLoad | StageSettle.

Record NavigationScriptWork : Type := {
  sw_preload_scripts : list rstr;
  sw_new_document_scripts : list rstr;
  sw_author_scripts : option PageScriptRunner;
  sw_bypass_csp : bool;
  sw_actions : list JsNavigationAction;
}.
Record NavigationStylesheetWork : Type := { yw_runner : PageStylesheetRunner; yw_scripts : NavigationScriptWork }.
Record NavigationImageWork : Type := { iw_runner : PageImageRunner; iw_scripts : NavigationScriptWork }.
Inductive NavigationWork : Type :=
| WorkParsing (parser : PageParser)
| WorkStylesheets (work : NavigationStylesheetWork)
| WorkImages (work : NavigationImageWork)
| WorkScripts (work : NavigationScriptWork)
| WorkLifecycle (stage : LifecycleStage) (actions : list JsNavigationAction).

Record PendingExternalScript : Type := {
  pp_key : ExternalScriptLoadKey; pp_request : ExternalPageScript; pp_profile_cache_enabled : bool;
  pp_work : NavigationScriptWork;
}.
Record PendingExternalStylesheet : Type := {
  py_key : ExternalStylesheetLoadKey; py_request : ExternalPageStylesheet; py_work : NavigationStylesheetWork;
}.
Record PendingExternalImage : Type := {
  pi_key : ExternalImageLoadKey; pi_request : ExternalPageImage; pi_work : NavigationImageWork;
}.

(** The sender half of [cancel] and the abort handle name the task they stop. *)
Abbreviation TaskId := positive.
Record ActiveNavigation : Type := {
  an_navigation_id : NavigationId;
  an_request_id : RequestId;
  an_history_update : HistoryUpdate;
  an_work : option NavigationWork;
  an_cancel : option TaskId;
  an_load_task : option TaskId;
  an_pending_script : option PendingExternalScript;
  an_pending_stylesheet : option PendingExternalStylesheet;
  an_pending_image : option PendingExternalImage;
}.

Record BrowsingContext : Type := {
  bc_frame_id : FrameId;
  bc_document_id : DocumentId;
  bc_runtime_context_id : RuntimeContextId;
  bc_active_navigation : option ActiveNavigation;
  bc_page : Page;
  bc_render_view : RenderViewState;
  bc_runtime_slot : nat;
  bc_config : BrowsingContextConfig;
  bc_host_view : HostViewState;
  bc_page_zoom : f64;
}.
Record RuntimeSlot : Type := { rs_runtime : JsRuntime; rs_active : bool }.

(** [CoreControl]: where other threads find the runtime of a context *)
Record ContextControl : Type := {
  ct_runtime : RuntimeInterruptHandle; ct_active_navigation_id : option NavigationId;
}.

(** A load on the network runtime. *)
Inductive LoadTask : Type :=
| TaskSource (context_id : BrowsingContextId) (navigation_id : NavigationId) (url : rstr) (injected_html : option rstr)
    (baseline : list CookieSnapshot)
| TaskScript (key : ExternalScriptLoadKey) (request : ExternalPageScript) (revalidate_profile_cache : bool)
    (baseline : list CookieSnapshot)
| TaskStylesheet (key : ExternalStylesheetLoadKey) (request : ExternalPageStylesheet) (baseline : list CookieSnapshot)
| TaskImage (key : ExternalImageLoadKey) (request : ExternalPageImage) (baseline : list CookieSnapshot).
(** The tasks that still run, and whether the start they wait for was sent. *)
Record TaskPool : Type := { tp_next : TaskId; tp_live : gmap TaskId (LoadTask * bool) }.

Record BrowserCore : Type := {
  ids : IdAllocator;
  contexts : gmap BrowsingContextId BrowsingContext;
  runtime_slots : list RuntimeSlot;
  closed_contexts : gset BrowsingContextId;
  active_context : option BrowsingContextId;
  max_contexts : N;
  (** everything pushed into the event channel so far *)
  events : list BrowserEvent;
  control : gmap BrowsingContextId ContextControl;
  tasks : TaskPool;
  core_store : Store;
  core_cookies : CookieJar;
  core_max_body_bytes : N;
  pending_load_starts : list TaskId;
  pending_navigation_work : list (BrowsingContextId * NavigationId);
  document_overrides : list (rstr * rstr);
  has_synchronous_renderer : bool;
}.

(** ** Field updates *)

Definition set_ids (v : IdAllocator) (s : BrowserCore) : BrowserCore :=
  {| ids := v; contexts := contexts s; runtime_slots := runtime_slots s; closed_contexts := closed_contexts s;
     active_context := active_context s; max_contexts := max_contexts s; events := events s; control := control s;
     tasks := tasks s; core_store := core_store s; core_cookies := core_cookies s;
     core_max_body_bytes := core_max_body_bytes s; pending_load_starts := pending_load_starts s;
     pending_navigation_work := pending_navigation_work s; document_overrides := document_overrides s;
     has_synchronous_renderer := has_synchronous_renderer s |}.
Definition set_contexts (v : gmap BrowsingContextId BrowsingContext) (s : BrowserCore) : BrowserCore :=
  {| ids := ids s; contexts := v; runtime_slots := runtime_slots s; closed_contexts := closed_contexts s;
     active_context := active_context s; max_contexts := max_contexts s; events := events s; control := control s;
     tasks := tasks s; core_store := core_store s; core_cookies := core_cookies s;
     core_max_body_bytes := core_max_body_bytes s; pending_load_starts := pending_load_starts s;
     pending_navigation_work := pending_navigation_work s; document_overrides := document_overrides s;
     has_synchronous_renderer := has_synchronous_renderer s |}.
Definition set_runtime_slots (v : list RuntimeSlot) (s : BrowserCore) : BrowserCore :=
  {| ids := ids s; contexts := contexts s; runtime_slots := v; closed_contexts := closed_contexts s;
     active_context := active_context s; max_contexts := max_contexts s; events := events s; control := control s;
     tasks := tasks s; core_store := core_store s; core_cookies := core_cookies s;
     core_max_body_bytes := core_max_body_bytes s; pending_load_starts := pending_load_starts s;
     pending_navigation_work := pending_navigation_work s; document_overrides := document_overrides s;
     has_synchronous_renderer := has_synchronous_renderer s |}.
Definition set_closed_contexts (v : gset BrowsingContextId) (s : BrowserCore) : BrowserCore :=
  {| ids := ids s; contexts := contexts s; runtime_slots := runtime_slots s; closed_contexts := v;
     active_context := active_context s; max_contexts := max_contexts s; events := events s; control := control s;
     tasks := tasks s; core_store := core_store s; core_cookies := core_cookies s;
     core_max_body_bytes := core_max_body_bytes s; pending_load_starts := pending_load_starts s;
     pending_navigation_work := pending_navigation_work s; document_overrides := document_overrides s;
     has_synchronous_renderer := has_synchronous_renderer s |}.
Definition set_active_context (v : option BrowsingContextId) (s : BrowserCore) : BrowserCore :=
  {| ids := ids s; contexts := contexts s; runtime_slots := runtime_slots s; closed_contexts := closed_contexts s;
     active_context := v; max_contexts := max_contexts s; events := events s; control := control s; tasks := tasks s;
     core_store := core_store s; core_cookies := core_cookies s; core_max_body_bytes := core_max_body_bytes s;
     pending_load_starts := pending_load_starts s; pending_navigation_work := pending_navigation_work s;
     document_overrides := document_overrides s; has_synchronous_renderer := has_synchronous_renderer s |}.
Definition set_events (v : list BrowserEvent) (s : BrowserCore) : BrowserCore :=
  {| ids := ids s; contexts := contexts s; runtime_slots := runtime_slots s; closed_contexts := closed_contexts s;
     active_context := active_context s; max_contexts := max_contexts s; events := v; control := control s;
     tasks := tasks s; core_store := core_store s; core_cookies := core_cookies s;
     core_max_body_bytes := core_max_body_bytes s; pending_load_starts := pending_load_starts s;
     pending_navigation_work := pending_navigation_work s; document_overrides := document_overrides s;
     has_synchronous_renderer := has_synchronous_renderer s |}.
Definition set_control (v : gmap BrowsingContextId ContextControl) (s : BrowserCore) : BrowserCore :=
  {| ids := ids s; contexts := contexts s; runtime_slots := runtime_slots s; closed_contexts := closed_contexts s;
     active_context := active_context s; max_contexts := max_contexts s; events := events s; control := v;
     tasks := tasks s; core_store := core_store s; core_cookies := core_cookies s;
     core_max_body_bytes := core_max_body_bytes s; pending_load_starts := pending_load_starts s;
     pending_navigation_work := pending_navigation_work s; document_overrides := document_overrides s;
     has_synchronous_renderer := has_synchronous_renderer s |}.
Definition set_tasks (v : TaskPool) (s : BrowserCore) : BrowserCore :=
  {| ids := ids s; contexts := contexts s; runtime_slots := runtime_slots s; closed_contexts := closed_contexts s;
     active_context := active_context s; max_contexts := max_contexts s; events := events s; control := control s;
     tasks := v; core_store := core_store s; core_cookies := core_cookies s;
     core_max_body_bytes := core_max_body_bytes s; pending_load_starts := pending_load_starts s;
     pending_navigation_work := pending_navigation_work s; document_overrides := document_overrides s;
     has_synchronous_renderer := has_synchronous_renderer s |}.
Definition set_core_store (v : Store) (s : BrowserCore) : BrowserCore :=
  {| ids := ids s; contexts := contexts s; runtime_slots := runtime_slots s; closed_contexts := closed_contexts s;
     active_context := active_context s; max_contexts := max_contexts s; events := events s; control := control s;
     tasks := tasks s; core_store := v; core_cookies := core_cookies s; core_max_body_bytes := core_max_body_bytes s;
     pending_load_starts := pending_load_starts s; pending_navigation_work := pending_navigation_work s;
     document_overrides := document_overrides s; has_synchronous_renderer := has_synchronous_renderer s |}.
Definition set_core_cookies (v : CookieJar) (s : BrowserCore) : BrowserCore :=
  {| ids := ids s; contexts := contexts s; runtime_slots := runtime_slots s; closed_contexts := closed_contexts s;
     active_context := active_context s; max_contexts := max_contexts s; events := events s; control := control s;
     tasks := tasks s; core_store := core_store s; core_cookies := v; core_max_body_bytes := core_max_body_bytes s;
     pending_load_starts := pending_load_starts s; pending_navigation_work := pending_navigation_work s;
     document_overrides := document_overrides s; has_synchronous_renderer := has_synchronous_renderer s |}.
Definition set_pending_load_starts (v : list TaskId) (s : BrowserCore) : BrowserCore :=
  {| ids := ids s; contexts := contexts s; runtime_slots := runtime_slots s; closed_contexts := closed_contexts s;
     active_context := active_context s; max_contexts := max_contexts s; events := events s; control := control s;
     tasks := tasks s; core_store := core_store s; core_cookies := core_cookies s;
     core_max_body_bytes := core_max_body_bytes s; pending_load_starts := v;
     pending_navigation_work := pending_navigation_work s; document_overrides := document_overrides s;
     has_synchronous_renderer := has_synchronous_renderer s |}.
Definition set_pending_navigation_work (v : list (BrowsingContextId * NavigationId)) (s : BrowserCore) : BrowserCore :=
  {| ids := ids s; contexts := contexts s; runtime_slots := runtime_slots s; closed_contexts := closed_contexts s;
     active_context := active_context s; max_contexts := max_contexts s; events := events s; control := control s;
     tasks := tasks s; core_store := core_store s; core_cookies := core_cookies s;
     core_max_body_bytes := core_max_body_bytes s; pending_load_starts := pending_load_starts s;
     pending_navigation_work := v; document_overrides := document_overrides s;
     has_synchronous_renderer := has_synchronous_renderer s |}.

(** A fresh request counter, a page of a context, the runtime of a slot. *)
Definition set_next_request (n : N) (i : IdAllocator) : IdAllocator :=
  {| next_context := next_context i; next_frame := next_frame i; next_navigation := next_navigation i;
     next_document := next_document i; next_request := n; next_runtime := next_runtime i |}.
Definition set_active_navigation (v : option ActiveNavigation) (c : BrowsingContext) : BrowsingContext :=
  {| bc_frame_id := bc_frame_id c; bc_document_id := bc_document_id c; bc_runtime_context_id := bc_runtime_context_id c;
     bc_active_navigation := v; bc_page := bc_page c; bc_render_view := bc_render_view c;
     bc_runtime_slot := bc_runtime_slot c; bc_config := bc_config c; bc_host_view := bc_host_view c;
     bc_page_zoom := bc_page_zoom c |}.
Definition set_page (v : Page) (c : BrowsingContext) : BrowsingContext :=
  {| bc_frame_id := bc_frame_id c; bc_document_id := bc_document_id c; bc_runtime_context_id := bc_runtime_context_id c;
     bc_active_navigation := bc_active_navigation c; bc_page := v; bc_render_view := bc_render_view c;
     bc_runtime_slot := bc_runtime_slot c; bc_config := bc_config c; bc_host_view := bc_host_view c;
     bc_page_zoom := bc_page_zoom c |}.
Definition set_view (view : RenderViewState) (host : HostViewState) (zoom : f64) (c : BrowsingContext) : BrowsingContext :=
  {| bc_frame_id := bc_frame_id c; bc_document_id := bc_document_id c; bc_runtime_context_id := bc_runtime_context_id c;
     bc_active_navigation := bc_active_navigation c; bc_page := bc_page c; bc_render_view := view;
     bc_runtime_slot := bc_runtime_slot c; bc_config := bc_config c; bc_host_view := host; bc_page_zoom := zoom |}.
Definition set_config (v : BrowsingContextConfig) (c : BrowsingContext) : BrowsingContext :=
  {| bc_frame_id := bc_frame_id c; bc_document_id := bc_document_id c; bc_runtime_context_id := bc_runtime_context_id c;
     bc_active_navigation := bc_active_navigation c; bc_page := bc_page c; bc_render_view := bc_render_view c;
     bc_runtime_slot := bc_runtime_slot c; bc_config := v; bc_host_view := bc_host_view c;
     bc_page_zoom := bc_page_zoom c |}.
Definition set_generation (document : DocumentId) (runtime : RuntimeContextId) (page : Page) (view : RenderViewState)
    (slot : nat) (c : BrowsingContext) : BrowsingContext :=
  {| bc_frame_id := bc_frame_id c; bc_document_id := document; bc_runtime_context_id := runtime;
     bc_active_navigation := bc_active_navigation c; bc_page := page; bc_render_view := view;
     bc_runtime_slot := slot; bc_config := bc_config c; bc_host_view := bc_host_view c; bc_page_zoom := bc_page_zoom c |}.
Definition set_work (v : option NavigationWork) (a : ActiveNavigation) : ActiveNavigation :=
  {| an_navigation_id := an_navigation_id a; an_request_id := an_request_id a; an_history_update := an_history_update a;
     an_work := v; an_cancel := an_cancel a; an_load_task := an_load_task a; an_pending_script := an_pending_script a;
     an_pending_stylesheet := an_pending_stylesheet a; an_pending_image := an_pending_image a |}.
Definition set_request_id (v : RequestId) (a : ActiveNavigation) : ActiveNavigation :=
  {| an_navigation_id := an_navigation_id a; an_request_id := v; an_history_update := an_history_update a;
     an_work := an_work a; an_cancel := an_cancel a; an_load_task := an_load_task a; an_pending_script := an_pending_script a;
     an_pending_stylesheet := an_pending_stylesheet a; an_pending_image := an_pending_image a |}.
Definition set_load (cancel load_task : option TaskId) (a : ActiveNavigation) : ActiveNavigation :=
  {| an_navigation_id := an_navigation_id a; an_request_id := an_request_id a; an_history_update := an_history_update a;
     an_work := an_work a; an_cancel := cancel; an_load_task := load_task; an_pending_script := an_pending_script a;
     an_pending_stylesheet := an_pending_stylesheet a; an_pending_image := an_pending_image a |}.
Definition set_pending_loads (script : option PendingExternalScript) (sheet : option PendingExternalStylesheet)
    (image : option PendingExternalImage) (a : ActiveNavigation) : ActiveNavigation :=
  {| an_navigation_id := an_navigation_id a; an_request_id := an_request_id a; an_history_update := an_history_update a;
     an_work := an_work a; an_cancel := an_cancel a; an_load_task := an_load_task a; an_pending_script := script;
     an_pending_stylesheet := sheet; an_pending_image := image |}.
Definition set_actions (v : list JsNavigationAction) (w : NavigationScriptWork) : NavigationScriptWork :=
  {| sw_preload_scripts := sw_preload_scripts w; sw_new_document_scripts := sw_new_document_scripts w;
     sw_author_scripts := sw_author_scripts w; sw_bypass_csp := sw_bypass_csp w; sw_actions := v |}.

(** ** The monad of a handler *)

(** A handler panics, does not return within the fuel of its model, or returns an error. *)
Inductive Stop : Type := Panic | Diverge | Fail (e : BrowserError).
Definition C (A : Type) : Type := M BrowserCore Stop A.
#[export] Instance C_ret : MRet C := M_ret BrowserCore Stop.
#[export] Instance C_bind : MBind C := M_bind BrowserCore Stop.

Definition gets {A} (f : BrowserCore → A) : C A := λ s, (s, Ok (f s)).
Definition expect {A} (o : option A) : C A := λ s, (s, ok_or o Panic).
Definition throw {A} (e : BrowserError) : C A := λ s, (s, Err (Fail e)).
(** [?] on a result of another component *)
Definition from_result {A} (r : result BrowserError A) : C A := λ s, (s, map_err Fail r).
(** [match m { Ok .. Err .. }]: a panic is not caught. *)
Definition attempt {A} (m : C A) : C (result BrowserError A) := λ s,
  match m s with
  | (s, Ok a) => (s, Ok (Ok a))
  | (s, Err (Fail e)) => (s, Ok (Err e))
  | (s, Err stop) => (s, Err stop)
  end.
Definition update (f : BrowserCore → BrowserCore) : C unit := λ s, (f s, Ok tt).
Definition allocate_id {A} (f : IdAllocator → IdAllocator * result BrowserError A) : C A := λ s,
  let '(i, r) := f (ids s) in (set_ids i s, map_err Fail r).

(** ** Contexts *)

Definition ensure_context (c : BrowsingContextId) : C unit :=
  s ← gets id;
  if bool_decide (is_Some (contexts s !! c)) then mret ()
  else
    let '(code, state) := if bool_decide (c ∈ closed_contexts s) then (STALE_CONTEXT, lit "closed")
                          else (UNKNOWN_CONTEXT, lit "unknown") in
    throw (BrowserError_new code (lit "browsing context " ++ id_display c ++ lit " is " ++ state)).
Definition context (c : BrowsingContextId) : C BrowsingContext :=
  _ ← ensure_context c; s ← gets id; expect (contexts s !! c).
(** [self.context_mut(..)] followed by an assignment: with [?], or with [expect] *)
Definition context_mut (c : BrowsingContextId) (f : BrowsingContext → BrowsingContext) : C unit :=
  x ← context c; update (λ s, set_contexts (<[c := f x]> (contexts s)) s).
Definition expect_context (c : BrowsingContextId) : C BrowsingContext := s ← gets id; expect (contexts s !! c).
Definition expect_context_mut (c : BrowsingContextId) (f : BrowsingContext → BrowsingContext) : C unit :=
  x ← expect_context c; update (λ s, set_contexts (<[c := f x]> (contexts s)) s).
(** [.active_navigation.as_mut().expect(..)] and an assignment *)
Definition expect_active_mut (c : BrowsingContextId) (f : ActiveNavigation → ActiveNavigation) : C unit :=
  x ← expect_context c; a ← expect (bc_active_navigation x);
  update (λ s, set_contexts (<[c := set_active_navigation (Some (f a)) x]> (contexts s)) s).
(** The opening of the handlers of a navigation: the context and its navigation, if it is the
    one that is meant. *)
Definition current_navigation (c : BrowsingContextId) (n : NavigationId) (s : BrowserCore) :
    option (BrowsingContext * ActiveNavigation) :=
  x ← contexts s !! c; a ← bc_active_navigation x; if bool_decide (an_navigation_id a = n) then Some (x, a) else None.
Definition expect_slot (slot : nat) : C RuntimeSlot := s ← gets id; expect (runtime_slots s !! slot).
(** [self.runtime_slots[slot]] and an assignment *)
Definition slot_mut (slot : nat) (f : RuntimeSlot → RuntimeSlot) : C unit :=
  x ← expect_slot slot; update (λ s, set_runtime_slots (<[slot := f x]> (runtime_slots s)) s).
Definition runtime_mut {A} (slot : nat) (f : JsRuntime → JsRuntime * A) : C A :=
  x ← expect_slot slot;
  let '(rt, a) := f (rs_runtime x) in
  _ ← update (λ s, set_runtime_slots (<[slot := {| rs_runtime := rt; rs_active := rs_active x |}]> (runtime_slots s)) s);
  mret a.

(** Running script in the realm of a context. *)
Definition in_realm {A} (c : BrowsingContextId) (slot : nat) (f : Realm → Realm * A) : C A :=
  x ← expect_context c; r ← expect_slot slot; s ← gets id;
  let '((rt, page, store, n), a) := f (rs_runtime r, bc_page x, core_store s, next_request (ids s)) in
  _ ← update (λ s, set_core_store store (set_ids (set_next_request n (ids s))
        (set_contexts (<[c := set_page page x]> (contexts s))
          (set_runtime_slots (<[slot := {| rs_runtime := rt; rs_active := rs_active r |}]> (runtime_slots s)) s))));
  mret a.

(** [context_state]; the two values of [load_progress] are 0.1 and 1.0. *)
Definition tenth : f64 := f64_lit (S754_finite false 7205759403792794 (-56)).
Definition context_state (c : BrowsingContextId) (x : BrowsingContext) : BrowsingContextState :=
  let active := an_navigation_id <$> bc_active_navigation x in
  let h := session_history (bc_page x) in
  {| bs_context_id := c; bs_main_frame_id := bc_frame_id x; bs_document_id := bc_document_id x;
     bs_runtime_context_id := Some (bc_runtime_context_id x); bs_active_navigation_id := active;
     bs_url := page_url (bc_page x); bs_title := page_title (bc_page x);
     bs_history_length := history_length h; bs_history_index := index h;
     bs_can_go_back := can_go_back h; bs_can_go_forward := can_go_forward h;
     bs_is_loading := bool_decide (is_Some active);
     bs_load_progress := if bool_decide (is_Some active) then tenth else f64_of_Z 1;
     bs_page_zoom := bc_page_zoom x |}.

(** ** Events and control *)

Definition emit (event : BrowserEvent) : C unit := update (λ s, set_events (events s ++ [event]) s).
Definition emit_phase (c : BrowsingContextId) (frame : FrameId) (n : NavigationId) (phase : NavigationPhase) : C unit :=
  emit (NavigationPhaseChanged c frame n phase).
Definition emit_state (c : BrowsingContextId) : C unit :=
  x ← context c; emit (BrowsingContextStateChanged (context_state c x)).
Definition emit_runtime_effects_event (c : BrowsingContextId) (frame : FrameId) (d : DocumentId) (r : RuntimeContextId)
    (url : rstr) (effects : RuntimeEffects) : C unit :=
  if effects_is_empty effects then mret () else emit (EffectsEvent c frame d r url effects).

Definition install_runtime (c : BrowsingContextId) (runtime : RuntimeInterruptHandle) : C unit :=
  update (λ s, set_control (<[c := {| ct_runtime := runtime;
    ct_active_navigation_id := control s !! c ≫= ct_active_navigation_id |}]> (control s)) s).
Definition control_set_navigation (c : BrowsingContextId) (n : NavigationId) : C unit :=
  update (λ s, set_control (alter (λ x, {| ct_runtime := ct_runtime x; ct_active_navigation_id := Some n |}) c (control s)) s).
Definition control_finish_navigation (c : BrowsingContextId) (n : NavigationId) : C unit :=
  update (λ s, set_control (alter (λ x, if bool_decide (ct_active_navigation_id x = Some n)
     then {| ct_runtime := ct_runtime x; ct_active_navigation_id := None |} else x) c (control s)) s).
Definition control_remove_context (c : BrowsingContextId) : C unit := update (λ s, set_control (delete c (control s)) s).
(** [CoreControl::interrupt_target], read by the threads that dispatch commands *)
Definition interrupt_target (c : BrowsingContextId) (require_navigation : bool) (s : BrowserCore) :
    option RuntimeInterruptHandle :=
  x ← control s !! c;
  if negb require_navigation || bool_decide (is_Some (ct_active_navigation_id x)) then Some (ct_runtime x) else None.

(** ** Loads *)

Definition spawn (task : LoadTask) (started : bool) : C TaskId := λ s,
  let t := tp_next (tasks s) in
  (set_tasks {| tp_next := Pos.succ t; tp_live := <[t := (task, started)]> (tp_live (tasks s)) |} s, Ok t).
(** Sending on or dropping [cancel], and [AbortHandle::abort]: a task that is done is gone. *)
Definition stop_task (t : option TaskId) : C unit :=
  match t with
  | None => mret ()
  | Some t => update (λ s, set_tasks {| tp_next := tp_next (tasks s); tp_live := delete t (tp_live (tasks s)) |} s)
  end.
Definition start_pending_loads : C unit :=
  update (λ s, set_pending_load_starts []
    (set_tasks {| tp_next := tp_next (tasks s);
                  tp_live := foldr (alter (λ t, (t.1, true))) (tp_live (tasks s)) (pending_load_starts s) |} s)).

(** [while self.runtime_slots.last().is_some_and(|slot| !slot.active) { pop }] *)
Fixpoint drop_inactive (reversed : list RuntimeSlot) : list RuntimeSlot :=
  match reversed with
  | x :: l => if rs_active x then reversed else drop_inactive l
  | [] => []
  end.
Definition prune_runtime_slots : C unit :=
  update (λ s, set_runtime_slots (reverse (drop_inactive (reverse (runtime_slots s)))) s).

(** ** The end of a navigation *)

Inductive NavigationTerminal : Type :=
| TermSettled
| TermFailed (request_id : option RequestId) (error : BrowserError)
| TermCancelled (reason : NavigationCancellationReason).
Definition terminal_phase (t : NavigationTerminal) : NavigationPhase :=
  match t with TermSettled => Settled | TermFailed _ _ => Failed | TermCancelled _ => Cancelled end.

(** The load that a cancelled navigation waits for: its identifier, URL and kind *)
Definition canceled_resource (a : ActiveNavigation) : option (RequestId * rstr * rstr) :=
  match an_pending_script a, an_pending_stylesheet a, an_pending_image a with
  | Some p, _, _ => Some (sk_request_id (pp_key p), wu_str (er_url (pp_request p)), lit "script")
  | None, Some p, _ => Some (yk_request_id (py_key p), wu_str (er_url (py_request p)), lit "stylesheet")
  | None, None, Some p => Some (ik_request_id (pi_key p), wu_str (er_url (pi_request p)), lit "image")
  | None, None, None => None
  end.
Definition canceled_events (res : RequestId * rstr * rstr) : RuntimeEffects :=
  let '(id, url, kind) := res in
  push_network (NetFailure (id_display id) url (lit "external " ++ kind ++ lit " load canceled") (Some (lit "canceled")))
    (push_network (NetRequest (id_display id) url (method_str Get)) RuntimeEffects_default).

Definition finish_navigation (c : BrowsingContextId) (n : NavigationId) (terminal : NavigationTerminal)
    (emit_state_after : bool) : C bool :=
  x ← context c;
  match bc_active_navigation x with
  | None => mret false
  | Some active =>
      if negb (bool_decide (an_navigation_id active = n)) then mret false
      else
        let frame := bc_frame_id x in
        _ ← context_mut c (set_active_navigation None);
        _ ← control_finish_navigation c n;
        _ ← match terminal with
            | TermCancelled _ =>
                _ ← stop_task (an_cancel active);
                _ ← stop_task (an_load_task active);
                match canceled_resource active with
                | None => mret ()
                | Some res => emit (EffectsEvent c frame (bc_document_id x) (bc_runtime_context_id x)
                                      (page_url (bc_page x)) (canceled_events res))
                end
            | _ => mret ()
            end;
        _ ← emit_phase c frame n (terminal_phase terminal);
        _ ← match terminal with
            | TermSettled => mret ()
            | TermFailed request_id error => emit (NavigationFailed c frame n request_id error)
            | TermCancelled reason => emit (NavigationCancelled c frame n (Some (an_request_id active)) reason)
            end;
        _ ← (if emit_state_after then emit_state c else mret ());
        (* [active] goes out of scope, and its [cancel] with it *)
        _ ← (match terminal with TermCancelled _ => mret () | _ => stop_task (an_cancel active) end);
        mret true
  end.

Definition fail_navigation (c : BrowsingContextId) (n : NavigationId) (request_id : option RequestId) (error : BrowserError) :
    C unit :=
  _ ← attempt (finish_navigation c n (TermFailed request_id error) true); mret ().

Definition cancel_active_navigation (c : BrowsingContextId) (reason : NavigationCancellationReason) (emit_state_after : bool) :
    C bool :=
  x ← context c;
  match an_navigation_id <$> bc_active_navigation x with
  | None => mret false
  | Some n => _ ← finish_navigation c n (TermCancelled reason) emit_state_after; mret true
  end.

Definition shutdown : C unit :=
  s ← gets id;
  foldr (λ c k, _ ← attempt (cancel_active_navigation c BrowserShutdown true); k) (mret ()) (btree_keys (contexts s)).

(** ** The start of a navigation *)

Inductive BrowserCommandResult : Type :=
| Accepted
| ResProfileSession (session : ProfileSessionState)
| ResBrowserSnapshot (snapshot : BrowserSnapshot)
| ResBrowsingContextCreated (context_id : BrowsingContextId)
| NavigationAccepted (navigation_id : NavigationId)
| ResBrowsingContextState (state : BrowsingContextState)
| ResNavigationHistory (history : NavigationHistorySnapshot)
| ResEvaluation (value : JsValue) (navigation_actions : list NavigationActionOutcome)
| ResAutomationEvaluation (value : JsValue) (effects : RuntimeEffects) (navigation_actions : list NavigationActionOutcome)
| ResInputDispatched (effects : RuntimeEffects) (navigation_actions : list NavigationActionOutcome).

Definition begin_navigation `{!CoreClock} (c : BrowsingContextId) (url : rstr) (injected_html : option rstr)
    (history_update : HistoryUpdate) (kind : CrossDocumentNavigationKind) (predecessor : option NavigationId) :
    C BrowserCommandResult :=
  _ ← ensure_context c;
  _ ← from_result (validate_navigation_url url);
  n ← allocate_id ids_navigation;
  initial_request_id ← allocate_id ids_request;
  x ← context c;
  let frame := bc_frame_id x in
  _ ← cancel_active_navigation c Superseded false;
  _ ← context_mut c (set_active_navigation (Some
        {| an_navigation_id := n; an_request_id := initial_request_id; an_history_update := history_update;
           an_work := None; an_cancel := None; an_load_task := None; an_pending_script := None;
           an_pending_stylesheet := None; an_pending_image := None |}));
  _ ← control_set_navigation c n;
  _ ← emit (NavigationRequested c frame n predecessor kind url);
  _ ← emit_phase c frame n Intent;
  _ ← emit_state c;
  _ ← emit_phase c frame n Policy;
  _ ← emit (NavigationStarted c frame n initial_request_id url);
  _ ← emit_phase c frame n Request;
  s ← gets id;
  let injected_html := match injected_html with Some html => Some html
                       | None => RustMap.map_get (document_overrides s) url end in
  task ← spawn (TaskSource c n url injected_html (snapshots jar_now (core_cookies s))) false;
  (* the sender of [cancel] was installed with the navigation *)
  _ ← expect_active_mut c (set_load (Some task) (Some task));
  _ ← update (λ s, set_pending_load_starts (pending_load_starts s ++ [task]) s);
  mret (NavigationAccepted n).

Definition navigate `{!CoreClock} (c : BrowsingContextId) (url : rstr) (history_update : HistoryUpdate) : C BrowserCommandResult :=
  begin_navigation c url None history_update Regular None.
Definition navigate_html `{!CoreClock} (c : BrowsingContextId) (url html : rstr) : C BrowserCommandResult :=
  s ← gets id;
  _ ← from_result (throw_if (core_max_body_bytes s <? str_len html)%N
        (BrowserError_new INVALID_ARGUMENT (lit "injected document exceeds the browser body limit")));
  begin_navigation c url (Some html) UpdatePush Regular None.
End core.
