(* ===== verification/BrowserWork.v ===== *)
(** * The work of a navigation

    [crates/vixen-engine/src/browser.rs]: from the loaded source to the settled document.
    The document is parsed in parts, committed, and its stylesheets, images and scripts are
    worked off one item at a time; a navigation that waits for an external resource has no
    work until the completion with its key arrives. *)

From Stdlib Require Import Lia ZArith.
From stdpp Require Import base decidable gmap sets list strings.
From S2P Require Import Prelude.
From S2P Require Import RustFloat.
From S2P Require Import RustStr.
From S2P Require Import RustUtf8.
From S2P Require Import RenderModel.
From S2P Require Import SessionHistory.
From S2P Require Import Cookie.
From S2P Require Import Store.
From S2P Require Import WebStorage.
From S2P Require Import NetUrl.
From S2P Require Import HttpCache.
From S2P Require Import Network.
From S2P Require Import ProfileCookies.
From S2P Require Import BrowserApi.
From S2P Require Import BrowserChannel.
From S2P Require Import ExternalResource.
From S2P Require Import BrowserCore.

Section work.
Context `{Platform, UrlPlatform, HttpDate, ErrorText, PageEngine, StorePlatform, RuntimeType} `{!ScriptEngine}.

(** ** The work of a navigation *)

Definition current_request_id (c : BrowsingContextId) : C (option RequestId) :=
  s ← gets id; mret (an_request_id <$> (contexts s !! c ≫= bc_active_navigation)).

Definition restore_navigation_work (c : BrowsingContextId) (n : NavigationId) (work : NavigationWork) : C unit :=
  s ← gets id;
  match current_navigation c n s with
  | Some (x, a) =>
      match an_work a with
      | None =>
          _ ← expect_active_mut c (set_work (Some work));
          update (λ s, set_pending_navigation_work (pending_navigation_work s ++ [(c, n)]) s)
      | Some _ => mret ()
      end
  | None => mret ()
  end.

(** [SourceLoadCompletion] *)
Record LoadedSource : Type := { so_final_url : rstr; so_html : rstr; so_headers : list (rstr * rstr) }.
Record SourceLoadCompletion : Type := {
  sc_context_id : BrowsingContextId; sc_navigation_id : NavigationId;
  sc_result : result BrowserError LoadedSource; sc_cookie_delta : CookieJarDelta;
}.
Definition apply_cookie_delta `{!CoreClock} (delta : CookieJarDelta) : C unit :=
  update (λ s, set_core_cookies (apply_delta delta jar_now jar_tick (core_cookies s)) s).

Definition complete_navigation `{!CoreClock} (completion : SourceLoadCompletion) : C unit :=
  let c := sc_context_id completion in
  let n := sc_navigation_id completion in
  s ← gets id;
  match current_navigation c n s with
  | None => mret ()
  | Some (x, active) =>
      let frame := bc_frame_id x in
      (* the task has answered: taking [cancel] stops nothing *)
      _ ← expect_active_mut c (set_load None None);
      _ ← apply_cookie_delta (sc_cookie_delta completion);
      match sc_result completion with
      | Err error => fail_navigation c n (Some (an_request_id active)) error
      | Ok loaded =>
          _ ← emit_phase c frame n Response;
          _ ← emit_phase c frame n Commit;
          let parser := parser_with_headers (so_final_url loaded) (so_html loaded) (so_headers loaded) in
          _ ← expect_active_mut c (set_work (Some (WorkParsing parser)));
          _ ← emit_phase c frame n Parse;
          update (λ s, set_pending_navigation_work (pending_navigation_work s ++ [(c, n)]) s)
      end
  end.

(** [SourceLoadProgress] *)
Definition progress_navigation (c : BrowsingContextId) (n : NavigationId) (event : NetworkEvent) : C unit :=
  s ← gets id;
  match current_navigation c n s with
  | None => mret ()
  | Some (x, active) =>
      match event with
      | EvRedirect from to status =>
          let request_id := an_request_id active in
          r ← attempt (allocate_id ids_request);
          match r with
          | Err error => fail_navigation c n (Some request_id) error
          | Ok next_request_id =>
              _ ← expect_active_mut c (set_request_id next_request_id);
              emit (NavigationRedirected c (bc_frame_id x) n request_id next_request_id from to status)
          end
      | _ => mret ()
      end
  end.

(** *** Committing the parsed document *)

Definition apply_runtime_config (config : BrowsingContextConfig) (runtime : JsRuntime) : JsRuntime :=
  foldl (λ rt grant, replace_permission_grants (pg_origin grant) (pg_permissions grant) rt)
    (reset_permission_overrides (set_cache_disabled (cc_cache_disabled config)
       (set_extra_http_headers (cc_extra_http_headers config) runtime)))
    (cc_permission_grants config).

(** The history of the new document *)
Definition committed_history (old : Page) (update : HistoryUpdate) (final_url : rstr) : SessionHistory :=
  match update with
  | UpdatePush =>
      let h := history_with_current_scroll old in
      if bool_decide (history_length h = 1) && bool_decide (url h = Some (lit "about:blank"))
      then replace (HistoryEntry_navigation final_url) h
      else (push (HistoryEntry_navigation final_url) h).1
  | UpdateReplace => replace (HistoryEntry_navigation final_url) (history_with_current_scroll old)
  | UpdatePreserve h =>
      if bool_decide (url h = Some final_url) then h else replace (HistoryEntry_navigation final_url) h
  end.

Definition record_visit_url `{!CoreClock} (u : rstr) : C unit :=
  let origin := origin_partition_key (match url_parse u with Some parsed => Origin_from_url (wu_origin parsed)
                                      | None => Origin_opaque end) in
  s ← gets id;
  match record_visit origin u unix_now (core_store s) with
  | Ok store => update (set_core_store store)
  | Err e => throw (BrowserError_new NAVIGATION_LOAD (lit "profile history write failed: " ++ store_error_text e))
  end.

Definition new_runtime (c : BrowsingContextId) (d : DocumentId) (page : Page) (view : RenderViewState) :
    C (result EngineError JsRuntime) :=
  s ← gets id;
  mret (runtime_new (lit "context-" ++ id_display c)
          (if has_synchronous_renderer s then Some (c, d, view) else None) (core_store s) page).

Definition commit_parsed_navigation `{!CoreClock} (c : BrowsingContextId) (n : NavigationId) (page : Page) : C unit :=
  s ← gets id;
  match current_navigation c n s with
  | None => mret ()
  | Some (x, active) =>
      let frame := bc_frame_id x in
      let request_id := an_request_id active in
      let final_url := page_url page in
      let page := set_session_history (committed_history (bc_page x) (an_history_update active) final_url) page in
      d ← attempt (allocate_id ids_document);
      match d with
      | Err error => fail_navigation c n (Some request_id) error
      | Ok d =>
          r ← attempt (allocate_id ids_runtime);
          match r with
          | Err error => fail_navigation c n (Some request_id) error
          | Ok r =>
              let host := bc_host_view x in
              let page := set_layout_viewport (page_layout_viewport (hv_viewport host) (hv_scale_factor host) (bc_page_zoom x)) page in
              let view := {| rv_viewport := hv_viewport host; rv_viewport_generation := N.max (hv_generation host) 1;
                             rv_device_scale := hv_scale_factor host; rv_page_zoom := bc_page_zoom x |} in
              s ← gets id;
              if (MAX_RUNTIME_SLOTS <=? len (runtime_slots s))%N then
                fail_navigation c n (Some request_id)
                  (BrowserError_new CONTEXT_LIMIT (lit "browser runtime-generation limit reached"))
              else
                rt ← new_runtime c d page view;
                match rt with
                | Err e => fail_navigation c n (Some request_id) (engine_error (engine_error_text e))
                | Ok rt =>
                    let rt := apply_runtime_config (bc_config x) rt in
                    s ← gets id;
                    (* the new runtime is not in a slot yet *)
                    let '((rt, page, store, next), res) :=
                      evaluate (host_view_runtime_source page host false) (rt, page, core_store s, next_request (ids s)) in
                    _ ← update (λ s, set_core_store store (set_ids (set_next_request next (ids s)) s));
                    match res with
                    | Err e => fail_navigation c n (Some request_id) (engine_error (engine_error_text e))
                    | Ok _ =>
                        visit ← attempt (record_visit_url final_url);
                        match visit with
                        | Err error => fail_navigation c n (Some request_id) error
                        | Ok _ =>
                            s ← gets id;
                            let slot := length (runtime_slots s) in
                            _ ← update (λ s, set_runtime_slots (runtime_slots s ++ [{| rs_runtime := rt; rs_active := true |}]) s);
                            _ ← install_runtime c (interrupt_handle rt);
                            _ ← slot_mut (bc_runtime_slot x) (λ y, {| rs_runtime := rs_runtime y; rs_active := false |});
                            let scripts := {| sw_preload_scripts := cc_preload_scripts (bc_config x);
                                              sw_new_document_scripts := cc_new_document_scripts (bc_config x);
                                              sw_author_scripts := None; sw_bypass_csp := cc_bypass_csp (bc_config x);
                                              sw_actions := [] |} in
                            _ ← emit (RuntimeContextDestroyed c frame (bc_document_id x) (bc_runtime_context_id x));
                            _ ← emit (DocumentDiscarded c frame (bc_document_id x) (Some n));
                            _ ← expect_context_mut c (set_generation d r page view slot);
                            _ ← expect_active_mut c (set_work (Some (WorkStylesheets
                                  {| yw_runner := stylesheets_new page; yw_scripts := scripts |})));
                            _ ← emit (NavigationCommitted c frame n (Some request_id) d (Some r) final_url);
                            _ ← emit (RuntimeContextCreated c frame d r);
                            _ ← emit_phase c frame n ScriptsAndSubresources;
                            update (λ s, set_pending_navigation_work (pending_navigation_work s ++ [(c, n)]) s)
                        end
                    end
                end
          end
      end
  end.

(** *** Subresources *)

(** What the loads of the three kinds of resource share: the cookies they start from and a
    request identifier.  An error is reported as an exception of the document. *)
Definition resource_baseline `{!CoreClock} (slot : nat) : C (result BrowserError (list CookieSnapshot * RequestId)) :=
  s ← gets id;
  y ← expect_slot slot;
  match network_cookie_snapshots (rs_runtime y) with
  | Err e => mret (Err (script_error e))
  | Ok runtime_snapshots =>
      r ← attempt (allocate_id ids_request);
      mret (match r with
            | Err e => Err e
            | Ok request_id => Ok (snapshots jar_now (core_cookies s) ++ runtime_snapshots, request_id)
            end)
  end.
Definition emit_exception (c : BrowsingContextId) (x : BrowsingContext) (error : BrowserError) : C unit :=
  emit (EffectsEvent c (bc_frame_id x) (bc_document_id x) (bc_runtime_context_id x) (page_url (bc_page x))
          (exception_effects error)).

Definition start_external_stylesheet_load (key : ExternalStylesheetLoadKey) (request : ExternalPageStylesheet)
    (work : NavigationStylesheetWork) (baseline : list CookieSnapshot) : C unit :=
  task ← spawn (TaskStylesheet key request baseline) true;
  expect_active_mut (yk_context_id key)
    (λ a, set_load (Some task) (Some task)
            (set_pending_loads (an_pending_script a) (Some {| py_key := key; py_request := request; py_work := work |})
               (an_pending_image a) a)).

Definition advance_stylesheet_work `{!CoreClock} (c : BrowsingContextId) (n : NavigationId) (work : NavigationStylesheetWork) :
    C unit :=
  s ← gets id;
  match current_navigation c n s with
  | None => mret ()
  | Some (x, active) =>
      let '(runner, step) := stylesheets_next (bc_page x) (yw_runner work) in
      let work := {| yw_runner := runner; yw_scripts := yw_scripts work |} in
      match step with
      | None =>
          let host_source := host_view_runtime_source (bc_page x) (bc_host_view x) false in
          res ← in_realm c (bc_runtime_slot x) (refresh_page_hosts ≫= λ _, evaluate host_source);
          match res with
          | Err e =>
              request_id ← current_request_id c;
              fail_navigation c n request_id (engine_error (engine_error_text e))
          | Ok _ =>
              x ← expect_context c;
              restore_navigation_work c n (WorkImages {| iw_runner := images_new (bc_page x); iw_scripts := yw_scripts work |})
          end
      | Some PreparedSkip => restore_navigation_work c n (WorkStylesheets work)
      | Some (PreparedExternal request) =>
          b ← resource_baseline (bc_runtime_slot x);
          match b with
          | Err error => _ ← emit_exception c x error; restore_navigation_work c n (WorkStylesheets work)
          | Ok (baseline, request_id) =>
              start_external_stylesheet_load
                {| yk_context_id := c; yk_navigation_id := n; yk_document_id := bc_document_id x;
                   yk_runtime_context_id := bc_runtime_context_id x; yk_request_id := request_id;
                   yk_stylesheet_index := stylesheet_index request |} request work baseline
          end
      end
  end.

(** What a loaded resource is worth to the page: its body, or why not; with the URLs whose
    cookies it may change and the response to cache. *)
Record Accepting (A : Type) : Type := {
  ac_body : option A; ac_blocked : option (rstr * rstr); ac_requested : list WebUrl; ac_response : option ByteResponse;
}.
Arguments ac_body {A}. Arguments ac_blocked {A}. Arguments ac_requested {A}. Arguments ac_response {A}.
Definition accept_resource {R A} `{ExternalResourceRequest R} (request : R) (allowed : ByteResponse → bool)
    (body_of : list N → WebUrl → A) (res : result ExternalResourceLoadFailure LoadedExternalResource) : Accepting A :=
  match res with
  | Err _ => {| ac_body := None; ac_blocked := None; ac_requested := []; ac_response := None |}
  | Ok (LoadedFile final_url body) =>
      if allows_url request final_url
      then {| ac_body := Some (body_of body final_url); ac_blocked := None; ac_requested := []; ac_response := None |}
      else {| ac_body := None; ac_blocked := Some (wu_str final_url, lit "csp"); ac_requested := []; ac_response := None |}
  | Ok (LoadedHttp response requested_urls) =>
      let refused reason := {| ac_body := None; ac_blocked := Some (br_final_url response, reason);
                               ac_requested := requested_urls; ac_response := None |} in
      match url_parse (br_final_url response) with
      | None => refused (lit "csp")
      | Some final_url =>
          if negb (allows_url request final_url) then refused (lit "csp")
          else if negb (allowed response) then refused (lit "response-policy")
          else {| ac_body := Some (body_of (br_body response) final_url); ac_blocked := None;
                  ac_requested := requested_urls; ac_response := Some response |}
      end
  end.
Definition push_blocked (request_id : RequestId) (kind : rstr) (blocked : option (rstr * rstr)) (e : RuntimeEffects) : RuntimeEffects :=
  match blocked with
  | None => e
  | Some (url, reason) => push_network (NetFailure (id_display request_id) url (lit "external " ++ kind ++ lit " blocked") (Some reason)) e
  end.
Definition loaded_effects (request_id : RequestId) (request_url : rstr)
    (res : result ExternalResourceLoadFailure LoadedExternalResource) : RuntimeEffects :=
  {| console := []; dialogs := []; bindings := [];
     network_events := external_resource_network_events request_id request_url res; exceptions := [] |}.

(** [persist_profile_cookies]: the URLs before the one that fails keep their cookies. *)
Fixpoint persist_profile_cookies `{!CoreClock} (urls : list WebUrl) (delta : CookieJarDelta) (store : Store) :
    Store * result EngineError unit :=
  match urls with
  | [] => (store, Ok tt)
  | u :: urls =>
      match persist_profile_cookie_delta store u delta jar_now jar_tick with
      | Ok store => persist_profile_cookies urls delta store
      | Err e => (store, Err (EngineScript SCRIPT_EVAL (store_error_text e)))
      end
  end.
Definition with_store {A} (f : Store → Store * result BrowserError A) : C A := λ s,
  let '(store, r) := f (core_store s) in (set_core_store store s, map_err Fail r).
(** The three steps that stylesheets and images share: cookies, cache, the runtime's cookies. *)
Definition persist_resource `{!CoreClock} (slot : nat) (requested : list WebUrl) (delta : CookieJarDelta)
    (response : option ByteResponse) : C unit :=
  _ ← with_store (λ st, let '(st, r) := persist_profile_cookies requested delta st in (st, map_err script_error r));
  _ ← match response with
      | None => mret ()
      | Some response => with_store (persist_external_resource_cache response unix_now)
      end;
  r ← runtime_mut slot (apply_network_cookie_delta delta);
  from_result (map_err script_error r).

(** [ExternalStylesheetLoadCompletion] and the like *)
Record LoadCompletion (K : Type) : Type := {
  lc_key : K; lc_result : result ExternalResourceLoadFailure LoadedExternalResource; lc_cookie_delta : CookieJarDelta;
}.
Arguments lc_key {K}. Arguments lc_result {K}. Arguments lc_cookie_delta {K}.

Definition complete_external_stylesheet `{!CoreClock} (completion : LoadCompletion ExternalStylesheetLoadKey) : C unit :=
  let key := lc_key completion in
  let c := yk_context_id key in
  let n := yk_navigation_id key in
  s ← gets id;
  match current_navigation c n s with
  | Some (x, active) =>
      if negb (bool_decide (bc_document_id x = yk_document_id key) &&
               bool_decide (bc_runtime_context_id x = yk_runtime_context_id key) &&
               bool_decide (py_key <$> an_pending_stylesheet active = Some key)) then mret ()
      else
        pending ← expect (an_pending_stylesheet active);
        _ ← expect_active_mut c (λ a, set_load None None (set_pending_loads (an_pending_script a) None (an_pending_image a) a));
        let effects := loaded_effects (yk_request_id key) (wu_str (er_url (py_request pending))) (lc_result completion) in
        let got := accept_resource (py_request pending) stylesheet_response_allowed (λ body _, from_utf8_lossy body)
                     (lc_result completion) in
        let effects := push_blocked (yk_request_id key) (lit "stylesheet") (ac_blocked got) effects in
        effects ← match ac_body got with
                  | None => mret effects
                  | Some source =>
                      r ← attempt (
                        _ ← persist_resource (bc_runtime_slot x) (ac_requested got) (lc_cookie_delta completion) (ac_response got);
                        y ← expect_context c;
                        let '(page, r) := apply_external_stylesheet (yk_stylesheet_index key) source (bc_page y) in
                        _ ← expect_context_mut c (set_page page);
                        from_result (map_err (BrowserError_new NAVIGATION_LOAD) r));
                      match r with
                      | Err error => mret (push_exception error effects)
                      | Ok _ => _ ← apply_cookie_delta (lc_cookie_delta completion); mret effects
                      end
                  end;
        _ ← emit_runtime_effects_event c (bc_frame_id x) (yk_document_id key) (yk_runtime_context_id key)
              (page_url (bc_page x)) effects;
        restore_navigation_work c n (WorkStylesheets (py_work pending))
  | None => mret ()
  end.

Definition start_external_image_load (key : ExternalImageLoadKey) (request : ExternalPageImage)
    (work : NavigationImageWork) (baseline : list CookieSnapshot) : C unit :=
  task ← spawn (TaskImage key request baseline) true;
  expect_active_mut (ik_context_id key)
    (λ a, set_load (Some task) (Some task)
            (set_pending_loads (an_pending_script a) (an_pending_stylesheet a)
               (Some {| pi_key := key; pi_request := request; pi_work := work |}) a)).

Definition advance_image_work `{!CoreClock} (c : BrowsingContextId) (n : NavigationId) (work : NavigationImageWork) : C unit :=
  s ← gets id;
  match current_navigation c n s with
  | None => mret ()
  | Some (x, active) =>
      let '(runner, step) := images_next (bc_page x) (iw_runner work) in
      let work := {| iw_runner := runner; iw_scripts := iw_scripts work |} in
      match step with
      | None => restore_navigation_work c n (WorkScripts (iw_scripts work))
      | Some PreparedSkip => restore_navigation_work c n (WorkImages work)
      | Some (PreparedExternal request) =>
          b ← resource_baseline (bc_runtime_slot x);
          match b with
          | Err error => _ ← emit_exception c x error; restore_navigation_work c n (WorkImages work)
          | Ok (baseline, request_id) =>
              start_external_image_load
                {| ik_context_id := c; ik_navigation_id := n; ik_document_id := bc_document_id x;
                   ik_runtime_context_id := bc_runtime_context_id x; ik_request_id := request_id;
                   ik_node_id := image_node_id request |} request work baseline
          end
      end
  end.

Definition complete_external_image `{!CoreClock} (completion : LoadCompletion ExternalImageLoadKey) : C unit :=
  let key := lc_key completion in
  let c := ik_context_id key in
  let n := ik_navigation_id key in
  s ← gets id;
  match current_navigation c n s with
  | Some (x, active) =>
      if negb (bool_decide (bc_document_id x = ik_document_id key) &&
               bool_decide (bc_runtime_context_id x = ik_runtime_context_id key) &&
               bool_decide (pi_key <$> an_pending_image active = Some key)) then mret ()
      else
        pending ← expect (an_pending_image active);
        _ ← expect_active_mut c (λ a, set_load None None (set_pending_loads (an_pending_script a) (an_pending_stylesheet a) None a));
        let request_url := wu_str (er_url (pi_request pending)) in
        let effects := loaded_effects (ik_request_id key) request_url (lc_result completion) in
        let got := accept_resource (pi_request pending) image_response_allowed (λ body _, body) (lc_result completion) in
        let effects := push_blocked (ik_request_id key) (lit "image") (ac_blocked got) effects in
        let '(image, effects) :=
          match ac_body got with
          | None => (None, effects)
          | Some body =>
              match decode_png body with
              | Ok image => (Some image, effects)
              | Err text => (None, push_network (NetFailure (id_display (ik_request_id key)) request_url text (Some (lit "decode"))) effects)
              end
          end in
        effects ← match image with
                  | None => mret effects
                  | Some image =>
                      r ← attempt (persist_resource (bc_runtime_slot x) (ac_requested got) (lc_cookie_delta completion) (ac_response got));
                      match r with
                      | Err error => mret (push_exception error effects)
                      | Ok _ =>
                          _ ← apply_cookie_delta (lc_cookie_delta completion);
                          y ← expect_context c;
                          _ ← expect_context_mut c (set_page (apply_raster_image (ik_node_id key) image (bc_page y)));
                          mret effects
                      end
                  end;
        _ ← emit_runtime_effects_event c (bc_frame_id x) (ik_document_id key) (ik_runtime_context_id key)
              (page_url (bc_page x)) effects;
        restore_navigation_work c n (WorkImages (pi_work pending))
  | None => mret ()
  end.

(** *** Scripts *)

Definition start_external_script_load (key : ExternalScriptLoadKey) (request : ExternalPageScript)
    (profile_cache_enabled : bool) (work : NavigationScriptWork) (baseline : list CookieSnapshot) : C unit :=
  task ← spawn (TaskScript key request (profile_cache_enabled && script_is_module request) baseline) true;
  expect_active_mut (sk_context_id key)
    (λ a, set_load (Some task) (Some task)
            (set_pending_loads (Some {| pp_key := key; pp_request := request; pp_profile_cache_enabled := profile_cache_enabled;
                                  pp_work := work |}) (an_pending_stylesheet a) (an_pending_image a) a)).

(** [drain_runtime_effects] and [discard_runtime_outputs] *)
Definition drain_runtime_effects : M JsRuntime EngineError RuntimeEffects :=
  console ← drain_console_events;
  dialogs ← drain_dialog_events;
  bindings ← drain_binding_events;
  network ← drain_network_events;
  mret {| console := console; dialogs := dialogs; bindings := bindings; network_events := network; exceptions := [] |}.
Definition discard_runtime_outputs (rt : JsRuntime) : JsRuntime :=
  (drain_navigation_actions (drain_network_events (drain_binding_events (drain_dialog_events
    (drain_console_events rt).1).1).1).1).1.
Definition on_runtime {A} (f : JsRuntime → JsRuntime * A) (r : Realm) : Realm * A :=
  let '(rt, page, store, n) := r in let '(rt, a) := f rt in ((rt, page, store, n), a).

(** What running an item leaves: its result, the effects and the actions, or nothing of the
    latter two when the item was interrupted. *)
Definition run_item {A} (f : Realm → Realm * option (result EngineError A)) (r : Realm) :
    Realm * (option (result EngineError A) * result EngineError RuntimeEffects *
             result EngineError (list JsNavigationAction)) :=
  let '(r, item) := f r in
  if match item with Some (Err e) => is_script_interrupted e | _ => false end then
    let '(r, _) := on_runtime (λ rt, (discard_runtime_outputs rt, tt)) r in (r, (item, Ok RuntimeEffects_default, Ok []))
  else
    let '(r, effects) := on_runtime drain_runtime_effects r in
    let '(r, actions) := on_runtime drain_navigation_actions r in
    (r, (item, effects, actions)).
Definition forget {A} (r : Realm * result EngineError A) : Realm * option (result EngineError unit) :=
  (r.1, Some (match r.2 with Ok _ => Ok tt | Err e => Err e end)).

Definition append_navigation_actions_bounded (queued actions : list JsNavigationAction) : list JsNavigationAction :=
  if (MAX_NAVIGATION_ACTIONS_PER_COMMAND <? len queued)%N then queued
  else queued ++ take (N.to_nat (MAX_NAVIGATION_ACTIONS_PER_COMMAND + 1 - len queued)) actions.

(** The three [match]es that gather what an item left. *)
Definition gather_effects {A} (base : RuntimeEffects) (item : option (result EngineError A))
    (effects : result EngineError RuntimeEffects) (actions : result EngineError (list JsNavigationAction)) : RuntimeEffects :=
  let base := match item with
              | Some (Err e) => if is_script_interrupted e then base else push_exception (script_error e) base
              | _ => base
              end in
  let base := match effects with Ok e => effects_extend base e | Err e => push_exception (script_error e) base end in
  match actions with Ok _ => base | Err e => push_exception (script_error e) base end.
Definition gather_actions (queued : list JsNavigationAction) (actions : result EngineError (list JsNavigationAction)) :
    list JsNavigationAction :=
  match actions with Ok actions => append_navigation_actions_bounded queued actions | Err _ => queued end.

Definition warning_event (message : rstr) : RuntimeConsoleEvent :=
  {| ce_kind := lit "warning";
     ce_args := [{| ca_type_name := lit "string"; ca_subtype := None; ca_value := Some (ConsoleString message);
                    ca_unserializable_value := None; ca_description := message |}] |}.

(** [NavigationScriptStep] *)
Inductive NavigationScriptStep : Type :=
| StepHost (source : rstr)
| StepAuthor (item : PreparedPageScript ExternalPageScript PageImportMap)
| StepComplete.
Definition set_sources (preload new : list rstr) (author : option PageScriptRunner) (w : NavigationScriptWork) : NavigationScriptWork :=
  {| sw_preload_scripts := preload; sw_new_document_scripts := new; sw_author_scripts := author;
     sw_bypass_csp := sw_bypass_csp w; sw_actions := sw_actions w |}.
Definition next_script (page : Page) (w : NavigationScriptWork) : NavigationScriptWork * NavigationScriptStep :=
  match sw_preload_scripts w, sw_new_document_scripts w with
  | source :: preload, new => (set_sources preload new (sw_author_scripts w) w, StepHost source)
  | [], source :: new => (set_sources [] new (sw_author_scripts w) w, StepHost source)
  | [], [] =>
      let author := match sw_author_scripts w with Some a => a | None => scripts_new page (sw_bypass_csp w) end in
      let '(author, item) := scripts_next page author in
      (set_sources [] [] (Some author) w, match item with Some item => StepAuthor item | None => StepComplete end)
  end.
(** The script of a step; external scripts and import maps do not get here. *)
Definition run_script_step (step : NavigationScriptStep) (r : Realm) : Realm * option (result EngineError unit) :=
  match step with
  | StepHost source => forget (evaluate source r)
  | StepAuthor (ScriptInline source request) => forget (evaluate_classic source request r)
  | StepAuthor (ScriptInlineModule source request) => forget (evaluate_module source request r)
  | StepAuthor ScriptSkip => (r, Some (Ok tt))
  | StepComplete | StepAuthor (ScriptImportMap _ _ _) | StepAuthor (ScriptExternal _) => (r, None)
  end.

Definition advance_script_work `{!CoreClock} (c : BrowsingContextId) (n : NavigationId) (work : NavigationScriptWork) : C unit :=
  s ← gets id;
  match current_navigation c n s with
  | None => mret ()
  | Some (x, active) =>
      let slot := bc_runtime_slot x in
      let '(work, step) := next_script (bc_page x) work in
      match step with
      | StepAuthor (ScriptExternal request) =>
          b ← resource_baseline slot;
          match b with
          | Err error => _ ← emit_exception c x error; restore_navigation_work c n (WorkScripts work)
          | Ok (baseline, request_id) =>
              start_external_script_load
                {| sk_context_id := c; sk_navigation_id := n; sk_document_id := bc_document_id x;
                   sk_runtime_context_id := bc_runtime_context_id x; sk_request_id := request_id |}
                request (negb (cc_cache_disabled (bc_config x))) work baseline
          end
      | StepAuthor (ScriptImportMap diagnostics error map) =>
          _ ← match map with
              | Some map => slot_mut slot (λ y, {| rs_runtime := set_document_import_map map (rs_runtime y); rs_active := rs_active y |})
              | None => mret ()
              end;
          let effects := {| console := warning_event <$> diagnostics; dialogs := []; bindings := []; network_events := [];
                            exceptions := [] |} in
          let effects := match error with
                         | Some text => push_exception (BrowserError_new SCRIPT_IMPORT_MAP text) effects
                         | None => effects
                         end in
          _ ← emit_runtime_effects_event c (bc_frame_id x) (bc_document_id x) (bc_runtime_context_id x) (page_url (bc_page x)) effects;
          restore_navigation_work c n (WorkScripts work)
      | _ =>
          out ← in_realm c slot (run_item (run_script_step step));
          let '(item, effects_result, actions_result) := out in
          recovery ← in_realm c slot recover_cancelled_module_realm;
          match recovery with
          | Err e =>
              request_id ← current_request_id c;
              fail_navigation c n request_id (engine_error (engine_error_text e))
          | Ok _ =>
              let effects := gather_effects RuntimeEffects_default item effects_result actions_result in
              let work := set_actions (gather_actions (sw_actions work) actions_result) work in
              s ← gets id;
              if negb (bool_decide (is_Some (current_navigation c n s))) then mret ()
              else
                _ ← emit_runtime_effects_event c (bc_frame_id x) (bc_document_id x) (bc_runtime_context_id x)
                      (page_url (bc_page x)) effects;
                restore_navigation_work c n
                  (match item with
                   | Some _ => WorkScripts work
                   | None => WorkLifecycle StageDomContentLoaded (sw_actions work)
                   end)
          end
      end
  end.

(** The exits of [complete_external_script] that report and go on with the next script. *)
Definition report_and_go_on (key : ExternalScriptLoadKey) (x : BrowsingContext) (effects : RuntimeEffects)
    (work : NavigationScriptWork) : C unit :=
  _ ← emit_runtime_effects_event (sk_context_id key) (bc_frame_id x) (sk_document_id key) (sk_runtime_context_id key)
        (page_url (bc_page x)) effects;
  restore_navigation_work (sk_context_id key) (sk_navigation_id key) (WorkScripts work).

Definition complete_external_script `{!CoreClock} (completion : LoadCompletion ExternalScriptLoadKey) : C unit :=
  let key := lc_key completion in
  let c := sk_context_id key in
  let n := sk_navigation_id key in
  s ← gets id;
  match current_navigation c n s with
  | None => mret ()
  | Some (x, active) =>
      if negb (bool_decide (bc_document_id x = sk_document_id key) &&
               bool_decide (bc_runtime_context_id x = sk_runtime_context_id key) &&
               bool_decide (pp_key <$> an_pending_script active = Some key)) then mret ()
      else
        pending ← expect (an_pending_script active);
        _ ← expect_active_mut c (λ a, set_load None None (set_pending_loads None (an_pending_stylesheet a) (an_pending_image a) a));
        let slot := bc_runtime_slot x in
        let request := pp_request pending in
        let effects := loaded_effects (sk_request_id key) (wu_str (er_url request)) (lc_result completion) in
        let allowed := if script_is_module request then module_script_response_allowed else script_response_allowed_bytes in
        let got := accept_resource request allowed (λ body final_url, (body, final_url)) (lc_result completion) in
        let effects := push_blocked (sk_request_id key) (lit "script") (ac_blocked got) effects in
        match ac_body got with
        | None => report_and_go_on key x effects (pp_work pending)
        | Some (body, source_url) =>
            let request := script_with_url source_url request in
            match script_integrity_failure request body with
            | Some error_text =>
                report_and_go_on key x
                  (push_network (NetFailure (id_display (sk_request_id key)) (wu_str (er_url request)) error_text
                                   (Some (lit "integrity"))) effects) (pp_work pending)
            | None =>
                let source := from_utf8_lossy body in
                saved ← attempt (
                  _ ← with_store (λ st, let '(st, r) := persist_profile_cookies (ac_requested got) (lc_cookie_delta completion) st in
                                        (st, map_err script_error r));
                  _ ← match ac_response got with
                      | Some response => if pp_profile_cache_enabled pending
                                         then with_store (persist_external_resource_cache response unix_now) else mret ()
                      | None => mret ()
                      end;
                  r ← runtime_mut slot (apply_network_cookie_delta (lc_cookie_delta completion));
                  from_result (map_err script_error r));
                match saved with
                | Err error => report_and_go_on key x (push_exception error effects) (pp_work pending)
                | Ok _ =>
                    _ ← apply_cookie_delta (lc_cookie_delta completion);
                    out ← in_realm c slot (run_item (λ r,
                            if script_is_module request then forget (evaluate_module source request r)
                            else forget (evaluate_classic source request r)));
                    let '(item, effects_result, actions_result) := out in
                    recovery ← in_realm c slot recover_cancelled_module_realm;
                    match recovery with
                    | Err e => fail_navigation c n (Some (sk_request_id key)) (engine_error (engine_error_text e))
                    | Ok _ =>
                        let effects := gather_effects effects item effects_result actions_result in
                        let work := set_actions (gather_actions (sw_actions (pp_work pending)) actions_result) (pp_work pending) in
                        s ← gets id;
                        match current_navigation c n s with
                        | Some (y, _) =>
                            if bool_decide (bc_document_id y = sk_document_id key) &&
                               bool_decide (bc_runtime_context_id y = sk_runtime_context_id key)
                            then report_and_go_on key x effects work else mret ()
                        | None => mret ()
                        end
                    end
                end
            end
        end
  end.
End work.
