(* ===== verification/BrowserCommands.v ===== *)
(** * Navigation actions, lifecycle, commands and the loop of the browser core

    [crates/vixen-engine/src/browser.rs]: what script asked for while it ran (navigations,
    form submissions, history changes), the last stages of a navigation that carry it out,
    the commands of the front ends, and the loop that takes one message at a time and works
    on navigations while there is none.

    What the commands read of a page (snapshots, queries, styles, ...) is the class
    [PageCommands], the JSON text of the scripts that the input commands evaluate the class
    [InputJson]. *)

From Stdlib Require Import Lia ZArith SpecFloat.
From stdpp Require Import base decidable gmap sets list strings.
From S2P Require Import Prelude.
From S2P Require Import RustFloat.
From S2P Require Import RustStr.
From S2P Require Import RustUtf8.
From S2P Require Import Accessibility.
From S2P Require Import RenderModel.
From S2P Require Import RenderSource.
From S2P Require Import RenderCommit.
From S2P Require Import RenderBridge.
From S2P Require Import EventPath.
From S2P Require Import SessionHistory.
From S2P Require Import Cookie.
From S2P Require Import Store.
From S2P Require Import WebStorage.
From S2P Require Import NetUrl.
From S2P Require Import HttpCache.
From S2P Require Import Network.
From S2P Require Import ProfileCookies.
From S2P Require Import BrowserApi.
From S2P Require Import BrowserChannel.
From S2P Require Import ExternalResource.
From S2P Require Import BrowserCore.
From S2P Require Import BrowserWork.

Section commands.
Context `{Platform, UrlPlatform, HttpDate, ErrorText, PageEngine, StorePlatform, RuntimeType} `{!ScriptEngine}.
(** [Url::query], [set_query] and the printed URL, and equality of origins *)
Variable url_query : WebUrl → option rstr.
Variable url_with_query : WebUrl → rstr → rstr.
(** the text of a URL that does not parse, and the [Debug] text of a result *)
Variable parse_error_text : rstr → rstr.
Variable debug_result : BrowserCommandResult → rstr.

(** ** Preparing the actions *)

Inductive PreparedNavigationAction : Type :=
| PreparedCross (url : rstr) (injected_html : option rstr) (history_update : HistoryUpdate)
    (kind : CrossDocumentNavigationKind)
| PreparedSame (history : SessionHistory) (url : rstr)
| PreparedState (history : SessionHistory).

Definition append_form_query (action : rstr) (body : list N) : result BrowserError rstr :=
  if bool_decide (body = []) then Ok action
  else
    match url_parse action with
    | None => Err (BrowserError_new INVALID_ARGUMENT (lit "invalid form action URL: " ++ parse_error_text action))
    | Some u =>
        let body := from_utf8_lossy body in
        Ok (url_with_query u (match url_query u with
                              | Some (_ :: _ as existing) => existing ++ lit "&" ++ body
                              | _ => body
                              end))
    end.

Definition ensure_same_origin_history_url (current next : rstr) : result BrowserError unit :=
  match url_parse current with
  | None => Err (BrowserError_new INVALID_ARGUMENT (lit "invalid current URL: " ++ parse_error_text current))
  | Some c =>
      match url_parse next with
      | None => Err (BrowserError_new INVALID_ARGUMENT (lit "invalid history URL: " ++ parse_error_text next))
      | Some t =>
          throw_if (negb ((bool_decide (wu_scheme c = lit "file") && bool_decide (wu_scheme t = lit "file")) || url_same_origin c t))
            (BrowserError_new INVALID_ARGUMENT (lit "history state URL must be same-origin"))
      end
  end.

(** The bytes of a string *)
Definition string_bytes (s : rstr) : list Byte.byte := (λ n, default Byte.x00 (Byte.of_N n)) <$> utf8 s.

Definition prepare_history_state (history : SessionHistory) (u state_json title : rstr) (replacing : bool) :
    result BrowserError SessionHistory :=
  _ ← validate_navigation_url u;
  _ ← ensure_same_origin_history_url (default (lit "about:blank") (url history)) u;
  let entry := HistoryEntry_push_state u (string_bytes state_json) in
  let entry := match current history with
               | Some c => {| he_url := he_url entry; he_state := he_state entry;
                              he_scroll_restoration := he_scroll_restoration c; he_scroll_state := he_scroll_state c;
                              he_title := he_title entry |}
               | None => entry
               end in
  let entry := if bool_decide (title = []) then entry
               else {| he_url := he_url entry; he_state := he_state entry;
                       he_scroll_restoration := he_scroll_restoration entry; he_scroll_state := he_scroll_state entry;
                       he_title := Some title |} in
  Ok (if replacing then replace entry history else (push entry history).1).

Definition invalid_argument (text : rstr) : BrowserError := BrowserError_new INVALID_ARGUMENT text.

(** The submission a [FormSubmit] action names, by node or by id *)
Definition submission_of (page : Page) (form_id : rstr) (form_node_id : N) (submitter_node_id : option N)
    (action method : rstr) : result BrowserError (option FormSubmission) :=
  if negb (form_node_id =? 0)%N then
    match form_submission_by_node_id page form_node_id submitter_node_id with
    | Ok submission => Ok (Some submission)
    | Err message =>
        if bool_decide (form_id = []) then Err (invalid_argument message)
        else
          submission ← map_err invalid_argument (form_submission page form_id);
          Ok (Some {| fs_action := default action (resolve_url page action); fs_method := method;
                      fs_body := fs_body submission |})
    end
  else if negb (bool_decide (form_id = [])) then
    submission ← map_err invalid_argument (form_submission page form_id); Ok (Some submission)
  else Ok None.

Definition prepare_form_submit (page : Page) (form_id : rstr) (form_node_id : N) (submitter_node_id : option N)
    (action method : rstr) : result BrowserError (list PreparedNavigationAction) :=
  submission ← submission_of page form_id form_node_id submitter_node_id action method;
  let target := match submission with Some s => fs_action s | None => default action (resolve_url page action) end in
  let method := to_ascii_lowercase (match submission with Some s => fs_method s | None => method end) in
  if bool_decide (method = lit "dialog") then Ok []
  else
    target ← (if bool_decide (method = lit "post") then Ok target
              else match submission with
                   | Some s => append_form_query target (fs_body s)
                   | None => Ok target
                   end);
    _ ← validate_navigation_url target;
    Ok [PreparedCross target None UpdatePush Regular].

(** One action: what it prepares and the simulated history after it.  [None] is the panic of
    an [Overflow] that was not rejected. *)
Definition prepare_action (x : BrowsingContext) (max_body : N) (h : SessionHistory) (action : JsNavigationAction) :
    option (result BrowserError (SessionHistory * list PreparedNavigationAction)) :=
  let page := bc_page x in
  match action with
  | ActionNavigate u replacing => Some (
      _ ← validate_navigation_url u;
      Ok (h, [PreparedCross u None (if replacing then UpdateReplace else UpdatePush) Regular]))
  | ActionSetContent html => Some (
      _ ← throw_if (max_body <? str_len html)%N (invalid_argument (lit "injected document exceeds the browser body limit"));
      Ok (h, [PreparedCross (default (page_url page) (url h)) (Some html) (UpdatePreserve h)
                (ContentReplacement (bc_document_id x))]))
  | ActionFormSubmit form_id form_node_id submitter_node_id _ action method _ => Some (
      prepared ← prepare_form_submit page form_id form_node_id submitter_node_id action method; Ok (h, prepared))
  | ActionHistoryPush u state_json title => Some (
      h ← prepare_history_state h u state_json title false; Ok (h, [PreparedSame h (default [] (url h))]))
  | ActionHistoryReplace u state_json title => Some (
      h ← prepare_history_state h u state_json title true; Ok (h, [PreparedSame h (default [] (url h))]))
  | ActionHistoryTraverse delta => Some (
      match go delta h with
      | (_, None) => Ok (h, [])
      | (h', Some entry) =>
          if bool_decide (is_Some (he_state entry)) then
            if bool_decide (index h' = index h) then Ok (h, []) else Ok (h', [PreparedSame h' (he_url entry)])
          else
            _ ← validate_navigation_url (he_url entry);
            Ok (h, [PreparedCross (he_url entry) None (UpdatePreserve h') Regular])
      end)
  | ActionHistoryScrollRestoration value => Some (
      match ScrollRestoration_parse value with
      | None => Err (invalid_argument (lit "history scroll restoration must be auto or manual"))
      | Some mode => let h := set_scroll_restoration mode h in Ok (h, [PreparedState h])
      end)
  | ActionOverflow => None
  end.
Fixpoint prepare_actions (x : BrowsingContext) (max_body : N) (h : SessionHistory) (actions : list JsNavigationAction) :
    option (result BrowserError (list PreparedNavigationAction)) :=
  match actions with
  | [] => Some (Ok [])
  | action :: actions =>
      match prepare_action x max_body h action with
      | None => None
      | Some (Err e) => Some (Err e)
      | Some (Ok (h, prepared)) =>
          match prepare_actions x max_body h actions with
          | Some (Ok rest) => Some (Ok (prepared ++ rest))
          | r => r
          end
      end
  end.
Definition prepare_navigation_actions (c : BrowsingContextId) (actions : list JsNavigationAction) :
    C (list PreparedNavigationAction) :=
  x ← context c;
  s ← gets id;
  r ← expect (prepare_actions x (core_max_body_bytes s) (history_with_current_scroll (bc_page x)) actions);
  from_result r.

Definition is_overflow (action : JsNavigationAction) : bool := match action with ActionOverflow => true | _ => false end.

(** ** Evaluation and actions

    [automation_evaluation] carries out the actions of the script it ran, and a history
    action evaluates script again: the two are one recursion.  The code has no bound on its
    depth; the model stops with [Diverge] when [fuel] is used up. *)

Record AutomationEvaluation : Type := {
  ae_value : JsValue; ae_effects : RuntimeEffects; ae_navigation_actions : list NavigationActionOutcome;
}.

(** The closure that [automation_evaluation] runs in the isolate *)
Definition automation_script (source : rstr) (bypass_csp : bool) (host : HostViewState)
    (root_scroll_default : option ((N * N) * (f64 * f64))) (r : Realm) :
    Realm * result EngineError (JsValue * RuntimeEffects * list JsNavigationAction) :=
  let discard r := (on_runtime (λ rt, (discard_runtime_outputs rt, tt)) r).1 in
  match evaluate_for_automation source bypass_csp r with
  | (r, Err e) => (discard r, Err e)
  | (r, Ok value) =>
      let '(r, scrolled) :=
        match js_as_bool value, root_scroll_default with
        | Some true, Some (viewport, delta) =>
            let '(rt, page, store, n) := r in
            let '(page, moved) := scroll_root_by viewport delta page in
            if moved then
              let '(r, res) := evaluate (host_view_runtime_source page host true) (rt, page, store, n) in
              (r, match res with Ok _ => Ok tt | Err e => Err e end)
            else ((rt, page, store, n), Ok tt)
        | _, _ => (r, Ok tt)
        end in
      match scrolled with
      | Err e => (discard r, Err e)
      | Ok _ =>
          let '(r, task_result) := run_document_tasks r in
          let task_error := match task_result with Err e => Some e | Ok _ => None end in
          match task_error with
          | Some e =>
              if is_script_interrupted e then (discard r, Err e)
              else
                let '(r, effects) := on_runtime drain_runtime_effects r in
                let '(r, actions) := on_runtime drain_navigation_actions r in
                match effects, actions with
                | Ok effects, Ok actions => (r, Ok (value, push_exception (script_error e) effects, actions))
                | Err e, _ | _, Err e => (discard r, Err e)
                end
          | None =>
              let '(r, effects) := on_runtime drain_runtime_effects r in
              let '(r, actions) := on_runtime drain_navigation_actions r in
              match effects, actions with
              | Ok effects, Ok actions => (r, Ok (value, effects, actions))
              | Err e, _ | _, Err e => (discard r, Err e)
              end
          end
      end
  end.

Definition out_of_fuel {A} : C A := λ s, (s, Err Diverge).

(** A script that is run for its effects only: [automation_evaluation]'s other argument. *)
Abbreviation Automation :=
  (BrowsingContextId → DocumentId → RuntimeContextId → rstr → option ((N * N) * (f64 * f64)) → C AutomationEvaluation).

Definition navigation_id_from_result (r : BrowserCommandResult) : result BrowserError NavigationId :=
  match r with
  | NavigationAccepted n => Ok n
  | r => Err (BrowserError_new CLOSED (lit "unexpected navigation result: " ++ debug_result r))
  end.

Definition apply_same_document_history (automation : Automation) (c : BrowsingContextId) (history : SessionHistory) : C unit :=
  _ ← context_mut c (λ x, set_page (set_session_history history (bc_page x)) x);
  x ← expect_context c;
  let source := host_view_runtime_source (bc_page x) (bc_host_view x) true in
  _ ← slot_mut (bc_runtime_slot x) (λ y, {| rs_runtime := sync_page_realm_key (bc_page x) (rs_runtime y); rs_active := rs_active y |});
  evaluation ← automation c (bc_document_id x) (bc_runtime_context_id x) source None;
  emit_runtime_effects_event c (bc_frame_id x) (bc_document_id x) (bc_runtime_context_id x) (page_url (bc_page x))
    (ae_effects evaluation).

(** One prepared action: what comes out, and the navigation that precedes the next one *)
Definition apply_prepared `{!CoreClock} (automation : Automation) (c : BrowsingContextId) (predecessor : option NavigationId)
    (action : PreparedNavigationAction) : C (list NavigationActionOutcome * option NavigationId) :=
  match action with
  | PreparedCross url injected_html history_update kind =>
      r ← begin_navigation c url injected_html history_update kind predecessor;
      n ← from_result (navigation_id_from_result r);
      mret ([OutcomeCrossDocument n kind], Some n)
  | PreparedSame history url =>
      _ ← apply_same_document_history automation c history; mret ([OutcomeSameDocument url], predecessor)
  | PreparedState history => _ ← apply_same_document_history automation c history; mret ([], predecessor)
  end.
Fixpoint apply_all_prepared `{!CoreClock} (automation : Automation) (c : BrowsingContextId) (predecessor : option NavigationId)
    (prepared : list PreparedNavigationAction) : C (list NavigationActionOutcome) :=
  match prepared with
  | [] => mret []
  | action :: prepared =>
      r ← apply_prepared automation c predecessor action;
      outcomes ← apply_all_prepared automation c r.2 prepared;
      mret (r.1 ++ outcomes)
  end.
Definition apply_navigation_actions_with `{!CoreClock} (automation : Automation) (c : BrowsingContextId)
    (actions : list JsNavigationAction) (predecessor : option NavigationId) : C (list NavigationActionOutcome) :=
  _ ← from_result (throw_if ((MAX_NAVIGATION_ACTIONS_PER_COMMAND <? len actions)%N || existsb is_overflow actions)
        (invalid_argument (lit "command produced more than " ++ dec MAX_NAVIGATION_ACTIONS_PER_COMMAND ++ lit " navigation actions")));
  prepared ← prepare_navigation_actions c actions;
  apply_all_prepared automation c predecessor prepared.

Definition stale_document (c : BrowsingContextId) (d : DocumentId) : BrowserError :=
  BrowserError_new STALE_DOCUMENT (lit "document " ++ id_display d ++ lit " is no longer active in context " ++ id_display c).
Definition stale_runtime (c : BrowsingContextId) (r : RuntimeContextId) : BrowserError :=
  BrowserError_new STALE_RUNTIME (lit "runtime " ++ id_display r ++ lit " is no longer active in context " ++ id_display c).
Definition context_for_document (c : BrowsingContextId) (d : DocumentId) : C BrowsingContext :=
  x ← context c;
  _ ← from_result (throw_if (negb (bool_decide (bc_document_id x = d))) (stale_document c d));
  mret x.

(** The body of [automation_evaluation_with_root_scroll_default], for the next level of it *)
Definition automation_body `{!CoreClock} (automation : Automation) (c : BrowsingContextId) (d : DocumentId)
    (r : RuntimeContextId) (source : rstr) (root_scroll_default : option ((N * N) * (f64 * f64))) : C AutomationEvaluation :=
  _ ← from_result (throw_if (MAX_SCRIPT_BYTES <? str_len source)%N
        (invalid_argument (lit "script source exceeds the browser evaluation limit")));
  x ← context_for_document c d;
  _ ← from_result (throw_if (negb (bool_decide (bc_runtime_context_id x = r))) (stale_runtime c r));
  out ← in_realm c (bc_runtime_slot x)
          (automation_script source (cc_bypass_csp (bc_config x)) (bc_host_view x) root_scroll_default);
  out ← from_result (map_err script_error out);
  let '(value, effects, actions) := out in
  _ ← emit_state c;
  navigation_actions ← apply_navigation_actions_with automation c actions None;
  mret {| ae_value := value; ae_effects := effects; ae_navigation_actions := navigation_actions |}.
Fixpoint automation_evaluation_with_root_scroll_default `{!CoreClock} (fuel : nat) (c : BrowsingContextId) (d : DocumentId)
    (r : RuntimeContextId) (source : rstr) (root_scroll_default : option ((N * N) * (f64 * f64))) : C AutomationEvaluation :=
  match fuel with
  | O => out_of_fuel
  | S fuel => automation_body (automation_evaluation_with_root_scroll_default fuel) c d r source root_scroll_default
  end.
Definition automation_evaluation `{!CoreClock} (fuel : nat) (c : BrowsingContextId) (d : DocumentId) (r : RuntimeContextId)
    (source : rstr) : C AutomationEvaluation :=
  automation_evaluation_with_root_scroll_default fuel c d r source None.
Definition apply_navigation_actions `{!CoreClock} (fuel : nat) : BrowsingContextId → list JsNavigationAction →
    option NavigationId → C (list NavigationActionOutcome) :=
  apply_navigation_actions_with (automation_evaluation_with_root_scroll_default fuel).

(** ** Lifecycle *)

Definition settle `{!CoreClock} (fuel : nat) (c : BrowsingContextId) (n : NavigationId) (x : BrowsingContext)
    (actions : list JsNavigationAction) : C unit :=
  let slot := bc_runtime_slot x in
  out ← in_realm c slot (run_item (λ r, forget (run_document_tasks r)));
  let '(item, effects_result, actions_result) := out in
  recovery ← in_realm c slot recover_cancelled_module_realm;
  match recovery with
  | Err e =>
      request_id ← current_request_id c;
      fail_navigation c n request_id (engine_error (engine_error_text e))
  | Ok _ =>
      if match item with Some (Err e) => is_script_interrupted e | _ => false end then mret ()
      else
        let effects := gather_effects RuntimeEffects_default item effects_result actions_result in
        let actions := gather_actions actions actions_result in
        _ ← emit_runtime_effects_event c (bc_frame_id x) (bc_document_id x) (bc_runtime_context_id x) (page_url (bc_page x)) effects;
        finished ← attempt (finish_navigation c n TermSettled true);
        match finished with
        | Ok true => _ ← attempt (apply_navigation_actions fuel c actions (Some n)); mret ()
        | _ => mret ()
        end
  end.
Definition advance_lifecycle `{!CoreClock} (fuel : nat) (c : BrowsingContextId) (n : NavigationId) (stage : LifecycleStage)
    (actions : list JsNavigationAction) : C unit :=
  s ← gets id;
  match current_navigation c n s with
  | None => mret ()
  | Some (x, _) =>
      let frame := bc_frame_id x in
      match stage with
      | StageDomContentLoaded =>
          _ ← emit_phase c frame n DomContentLoaded;
          _ ← emit (DomContentLoadedEvent c frame n (bc_document_id x));
          restore_navigation_work c n (WorkLifecycle StageLoad actions)
      | StageLoad =>
          _ ← emit_phase c frame n Load;
          _ ← emit (DocumentLoadCompleted c frame n (bc_document_id x));
          restore_navigation_work c n (WorkLifecycle StageSettle actions)
      | StageSettle => settle fuel c n x actions
      end
  end.

Definition has_navigation_work (s : BrowserCore) : bool := negb (bool_decide (pending_navigation_work s = [])).
Definition run_work `{!CoreClock} (fuel : nat) (c : BrowsingContextId) (n : NavigationId) (request_id : RequestId)
    (work : NavigationWork) : C unit :=
  match work with
  | WorkParsing parser =>
      let '(parser, r) := parser_advance PARSER_WORK_BYTES parser in
      match r with
      | Ok (Some page) => commit_parsed_navigation c n page
      | Ok None => restore_navigation_work c n (WorkParsing parser)
      | Err text => fail_navigation c n (Some request_id) (BrowserError_new NAVIGATION_LOAD text)
      end
  | WorkStylesheets work => advance_stylesheet_work c n work
  | WorkImages work => advance_image_work c n work
  | WorkScripts work => advance_script_work c n work
  | WorkLifecycle stage actions => advance_lifecycle fuel c n stage actions
  end.
Definition advance_navigation_work `{!CoreClock} (fuel : nat) : C bool :=
  s ← gets id;
  match pending_navigation_work s with
  | [] => mret false
  | (c, n) :: rest =>
      _ ← update (set_pending_navigation_work rest);
      match current_navigation c n s with
      | None => mret true
      | Some (_, active) =>
          match an_work active with
          | None => mret true
          | Some work =>
              _ ← expect_active_mut c (set_work None);
              _ ← run_work fuel c n (an_request_id active) work;
              mret true
          end
      end
  end.

(** ** Commands *)

(** The page operations of the commands below *)
Class PageCommands : Type := {
  find_text : rstr → bool → bool → Page → Page * FindTextResult;
  renderer_source_generation : Page → N;
  apply_renderer_scroll : RenderCommit → Page → Page;
  PageSnapshot : Type;
  ElementInfo : Type;
  ComputedStyle : Type;
  EngineDiagnostic : Type;
  FormSubmissionInfo : Type;
  page_snapshot : N * N → Page → PageSnapshot;
  render_snapshot : BrowsingContextId → DocumentId → N * N → N → f64 → f64 → Page → result rstr FullRenderSnapshot;
  page_accessibility_snapshot : BrowsingContextId → DocumentId → N * N → Page → AccessibilitySnapshot;
  query_selector_all_in_viewport : rstr → N * N → Page → result rstr (list ElementInfo);
  computed_style_for_viewport : N → N * N → Page → ComputedStyle;
  diagnostics : Page → list EngineDiagnostic;
  dump_dom : Page → rstr;
  text_content : Page → rstr;
  element_by_id : rstr → Page → option ElementInfo;
  element_node_id : ElementInfo → nat;
  (** [form_submission] with [form_submission_info] *)
  page_form_submission : rstr → Page → result rstr FormSubmissionInfo;
}.

Definition tenth_to_sixteen (x : f64) : bool := f64_leb tenth x && f64_leb x (f64_of_Z 16).
Definition MIN_PAGE_ZOOM : f64 := f64_div (f64_of_Z 1) (f64_of_Z 4).
Definition MAX_PAGE_ZOOM : f64 := f64_of_Z 5.
Definition MAX_FIND_QUERY_BYTES : N := 4 * 1024.
Definition MAX_SELECTOR_BYTES : N := 64 * 1024.

Definition render_view_of (host : HostViewState) (zoom : f64) : RenderViewState :=
  {| rv_viewport := hv_viewport host; rv_viewport_generation := N.max (hv_generation host) 1;
     rv_device_scale := hv_scale_factor host; rv_page_zoom := zoom |}.

Definition create_context : C BrowserCommandResult :=
  s ← gets id;
  _ ← from_result (throw_if (max_contexts s <=? N.of_nat (size (contexts s)))%N
        (BrowserError_new CONTEXT_LIMIT (lit "browser context limit " ++ dec (max_contexts s) ++ lit " reached")));
  c ← allocate_id ids_context;
  frame ← allocate_id ids_frame;
  d ← allocate_id ids_document;
  r ← allocate_id ids_runtime;
  page ← from_result (map_err (BrowserError_new NAVIGATION_LOAD)
           (page_from_html (lit "about:blank") (lit "<!doctype html><title></title>")));
  let view := {| rv_viewport := hv_viewport HostViewState_default; rv_viewport_generation := 1;
                 rv_device_scale := hv_scale_factor HostViewState_default; rv_page_zoom := f64_of_Z 1 |} in
  rt ← new_runtime c d page view;
  rt ← from_result (map_err (λ e, engine_error (engine_error_text e)) rt);
  s ← gets id;
  let slot := length (runtime_slots s) in
  _ ← update (λ s, set_runtime_slots (runtime_slots s ++ [{| rs_runtime := rt; rs_active := true |}]) s);
  _ ← install_runtime c (interrupt_handle rt);
  _ ← update (λ s, set_contexts (<[c := {| bc_frame_id := frame; bc_document_id := d; bc_runtime_context_id := r;
        bc_active_navigation := None; bc_page := page; bc_render_view := view; bc_runtime_slot := slot;
        bc_config := BrowsingContextConfig_default; bc_host_view := HostViewState_default;
        bc_page_zoom := f64_of_Z 1 |}]> (contexts s)) s);
  x ← context c;
  _ ← emit (BrowsingContextCreated (context_state c x));
  s ← gets id;
  _ ← match active_context s with
      | Some _ => mret ()
      | None => _ ← update (set_active_context (Some c)); emit (ActiveBrowsingContextChanged (Some c))
      end;
  mret (ResBrowsingContextCreated c).

Definition close_context (c : BrowsingContextId) : C BrowserCommandResult :=
  x ← context c;
  _ ← match bc_active_navigation x with
      | Some a => finish_navigation c (an_navigation_id a) (TermCancelled ContextClosed) false
      | None => mret false
      end;
  x ← expect_context c;
  _ ← update (λ s, set_contexts (delete c (contexts s)) s);
  _ ← control_remove_context c;
  _ ← slot_mut (bc_runtime_slot x) (λ y, {| rs_runtime := rs_runtime y; rs_active := false |});
  _ ← emit (RuntimeContextDestroyed c (bc_frame_id x) (bc_document_id x) (bc_runtime_context_id x));
  _ ← emit (DocumentDiscarded c (bc_frame_id x) (bc_document_id x) None);
  _ ← update (λ s, set_closed_contexts ({[c]} ∪ closed_contexts s) s);
  _ ← emit (BrowsingContextClosed c);
  s ← gets id;
  _ ← (if bool_decide (active_context s = Some c) then
         let next := head (btree_keys (contexts s)) in
         _ ← update (set_active_context next); emit (ActiveBrowsingContextChanged next)
       else mret ());
  _ ← prune_runtime_slots;
  mret Accepted.

Definition activate_context (c : BrowsingContextId) : C BrowserCommandResult :=
  _ ← ensure_context c;
  _ ← update (set_active_context (Some c));
  _ ← emit (ActiveBrowsingContextChanged (Some c));
  mret Accepted.

Definition reload_context `{!CoreClock} (c : BrowsingContextId) : C BrowserCommandResult :=
  x ← context c;
  navigate c (page_url (bc_page x)) (UpdatePreserve (history_with_current_scroll (bc_page x))).

Definition stop (c : BrowsingContextId) : C BrowserCommandResult :=
  _ ← ensure_context c; _ ← cancel_active_navigation c Stopped true; mret Accepted.

Definition traverse_history `{!CoreClock} (c : BrowsingContextId) (delta : Z) : C BrowserCommandResult :=
  x ← context c;
  match go delta (history_with_current_scroll (bc_page x)) with
  | (_, None) => mret Accepted
  | (h, Some entry) => navigate c (he_url entry) (UpdatePreserve h)
  end.

Definition host_view_invalid (state : HostViewState) : bool :=
  (hv_generation state =? 0)%N || negb (is_finite (hv_scale_factor state)) || negb (tenth_to_sixteen (hv_scale_factor state)) ||
  (hv_focused state && negb (bool_decide (hv_lifecycle state = Resumed))) ||
  (hv_visible state && match hv_lifecycle state with Hidden | Paused | Detached => true | _ => false end).
Definition update_host_view_state `{!CoreClock} (fuel : nat) (c : BrowsingContextId) (state : HostViewState) :
    C BrowserCommandResult :=
  _ ← from_result (validate_viewport (hv_viewport state));
  _ ← from_result (throw_if (host_view_invalid state)
        (invalid_argument (lit "host view generation and scale factor must be valid")));
  x ← context c;
  let current := hv_generation (bc_host_view x) in
  _ ← from_result (throw_if (hv_generation state <=? current)%N
        (BrowserError_new STALE_HOST_VIEW (lit "host view generation " ++ dec (hv_generation state) ++ lit " is not newer than "
           ++ dec current)));
  _ ← context_mut c (λ x, set_view (render_view_of state (bc_page_zoom x)) state (bc_page_zoom x)
        (set_page (set_layout_viewport (page_layout_viewport (hv_viewport state) (hv_scale_factor state) (bc_page_zoom x)) (bc_page x)) x));
  y ← expect_context c;
  let source := host_view_runtime_source (bc_page y) state true in
  evaluation ← automation_evaluation fuel c (bc_document_id x) (bc_runtime_context_id x) source;
  mret (ResInputDispatched (ae_effects evaluation) (ae_navigation_actions evaluation)).

(** The evaluation of a host script whose effects become an event: page zoom and renderer
    scrolling *)
Definition evaluate_and_report `{!CoreClock} (fuel : nat) (c : BrowsingContextId) (x : BrowsingContext) : C unit :=
  let source := host_view_runtime_source (bc_page x) (bc_host_view x) true in
  evaluation ← automation_evaluation fuel c (bc_document_id x) (bc_runtime_context_id x) source;
  emit_runtime_effects_event c (bc_frame_id x) (bc_document_id x) (bc_runtime_context_id x) (page_url (bc_page x))
    (ae_effects evaluation).
Definition set_page_zoom `{!CoreClock} (fuel : nat) (c : BrowsingContextId) (zoom : f64) : C BrowserCommandResult :=
  _ ← from_result (throw_if (negb (is_finite zoom) || negb (f64_leb MIN_PAGE_ZOOM zoom && f64_leb zoom MAX_PAGE_ZOOM))
        (invalid_argument (lit "page zoom must be finite and between 0.25 and 5")));
  _ ← context_mut c (λ x, set_view (render_view_of (bc_host_view x) zoom) (bc_host_view x) zoom
        (set_page (set_layout_viewport (page_layout_viewport (hv_viewport (bc_host_view x)) (hv_scale_factor (bc_host_view x)) zoom)
                     (bc_page x)) x));
  x ← expect_context c;
  _ ← evaluate_and_report fuel c x;
  x ← context c;
  mret (ResBrowsingContextState (context_state c x)).
Definition apply_renderer_commit `{!CoreClock, !PageCommands} (fuel : nat) (commit : RenderCommit) : C BrowserCommandResult :=
  let revision := commit_revision commit in
  let c := rev_context_id revision in
  x ← context_for_document c (rev_document_id revision);
  let generation := renderer_source_generation (bc_page x) in
  _ ← from_result (throw_if (negb ((rev_source_generation revision =? generation) && (rev_style_generation revision =? generation) &&
                                   (rev_resource_generation revision =? generation))%N)
        (BrowserError_new STALE_DOCUMENT (lit "renderer commit does not match the current BrowserCore source")));
  _ ← context_mut c (λ x, set_page (apply_renderer_scroll commit (bc_page x)) x);
  x ← expect_context c;
  _ ← evaluate_and_report fuel c x;
  mret Accepted.

Fixpoint evaluate_all (c : BrowsingContextId) (slot : nat) (sources : list rstr) : C unit :=
  match sources with
  | [] => mret ()
  | source :: sources =>
      r ← in_realm c slot (evaluate source);
      _ ← from_result (map_err (λ e, engine_error (engine_error_text e)) r);
      evaluate_all c slot sources
  end.
Definition configure_context (c : BrowsingContextId) (config : BrowsingContextConfig) : C BrowserCommandResult :=
  x ← context c;
  let slot := bc_runtime_slot x in
  _ ← slot_mut slot (λ y, {| rs_runtime := apply_runtime_config config (rs_runtime y); rs_active := rs_active y |});
  _ ← evaluate_all c slot (cc_preload_scripts config);
  _ ← expect_context_mut c (set_config config);
  mret Accepted.

Definition get_navigation_history (c : BrowsingContextId) : C BrowserCommandResult :=
  x ← context c;
  let h := session_history (bc_page x) in
  mret (ResNavigationHistory {| nh_current_index := index h;
    nh_entries := (λ e, {| ne_url := he_url e; ne_title := he_title e; ne_same_document := bool_decide (is_Some (he_state e)) |})
                    <$> entries h |}).
Definition reset_navigation_history (c : BrowsingContextId) : C BrowserCommandResult :=
  _ ← context_mut c (λ x, set_page (set_session_history (SessionHistory_new (HistoryEntry_navigation (page_url (bc_page x))))
                                      (bc_page x)) x);
  mret Accepted.

(** *** The profile *)

Definition profile_error (e : StoreError) : BrowserError :=
  BrowserError_new PROFILE (lit "profile operation failed: " ++ store_error_text e).
(** A store operation that changes the profile or fails *)
Definition store_write (f : Store → result StoreError Store) : C unit :=
  s ← gets id;
  store ← from_result (map_err profile_error (f (core_store s)));
  update (set_core_store store).
Definition load_profile_session : C BrowserCommandResult :=
  s ← gets id;
  record ← from_result (map_err profile_error (load_session_record (core_store s)));
  mret (ResProfileSession {| ps_tabs := sr_tabs record; ps_active_index := sr_active_index record |}).
Definition save_profile_session (session : ProfileSessionState) : C BrowserCommandResult :=
  _ ← store_write (save_session_record {| sr_tabs := ps_tabs session; sr_active_index := ps_active_index session; sr_tab_states := [] |});
  mret Accepted.
Definition index_of (c : BrowsingContextId) (cs : list BrowsingContextId) : option nat := fst <$> list_find (eq c) cs.
Definition current_session (s : BrowserCore) : ProfileSessionState :=
  let cs := btree_to_list (contexts s) in
  {| ps_tabs := (λ x, page_url (bc_page x.2)) <$> cs;
     ps_active_index := from_option N.of_nat 0%N (active_context s ≫= λ c, index_of c (fst <$> cs)) |}.
Definition save_current_profile_session : C BrowserCommandResult :=
  s ← gets id; save_profile_session (current_session s).
Definition browser_snapshot (s : BrowserCore) : BrowserSnapshot :=
  {| sn_active_context_id := active_context s;
     sn_contexts := (λ x, context_state x.1 x.2) <$> btree_to_list (contexts s) |}.
Definition clear_profile (selection : ClearDataSelection) : C BrowserCommandResult :=
  _ ← store_write (clear_profile_data selection);
  _ ← (if clear_cookies_group selection then update (set_core_cookies CookieJar_new) else mret ());
  _ ← (if clear_cookies_group selection || clear_fetch_cache selection then
         update (λ s, set_runtime_slots
           ((λ y, if rs_active y
                  then {| rs_runtime := clear_profile_network_state (clear_cookies_group selection) (clear_fetch_cache selection) (rs_runtime y);
                          rs_active := true |}
                  else y) <$> runtime_slots s) s)
       else mret ());
  mret Accepted.

(** *** Input *)

Record MouseEventData : Type := {
  me_x : f64; me_y : f64; me_button : Z; me_buttons : Z; me_detail : Z; me_related_node_id : option N; me_bubbles : bool;
  me_ctrl_key : bool; me_shift_key : bool; me_alt_key : bool; me_meta_key : bool; me_delta_x : f64; me_delta_y : f64;
}.
Record KeyEventData : Type := {
  ke_key : rstr; ke_code : rstr; ke_text : rstr; ke_apply_text : bool; ke_ctrl_key : bool; ke_shift_key : bool;
  ke_alt_key : bool; ke_meta_key : bool; ke_repeat : bool; ke_location : Z;
}.
Record TextInputState : Type := { ti_text : rstr; ti_selection : N * N; ti_composing : option (N * N) }.

(** The JSON texts of serde_json that the scripts of the input commands contain *)
Class InputJson : Type := {
  json_string : rstr → result BrowserError rstr;
  json_optional_string : option rstr → result BrowserError rstr;
  json_mouse_init : MouseEventData → rstr;
  json_key_init : KeyEventData → rstr;
  json_text_input : TextInputState → rstr;
}.
(** What the input commands read of a page *)
Class PageInput : Type := {
  default_pointer_event_target_node_id : Page → option N;
  element_identity : Page → N → option (option rstr * rstr);
  focused_element_consumes_scroll_keys : Page → bool;
}.

Definition MAX_TEXT_INPUT_BYTES : N := 16 * 1024.
Definition f64_opp (x : f64) : f64 := f64_lit (SFopp (f64_repr x)).
Definition f64_MAX : f64 := f64_lit (S754_finite false 9007199254740991 971).
Definition KEYBOARD_SCROLL_LINE_PX : f64 := f64_of_Z 40.
Definition KEYBOARD_SCROLL_PAGE_FRACTION : f64 := f64_div (f64_of_Z 7) (f64_of_Z 8).

Definition ensure_host_accepts_input (c : BrowsingContextId) : C unit :=
  x ← context c;
  from_result (throw_if (negb (accepts_input (bc_host_view x)))
    (invalid_argument (lit "host view is not active for content input"))).
Definition context_layout_viewport (x : BrowsingContext) : N * N :=
  page_layout_viewport (hv_viewport (bc_host_view x)) (hv_scale_factor (bc_host_view x)) (bc_page_zoom x).
Definition page_output_scale (x : BrowsingContext) : f64 := f64_mul (hv_scale_factor (bc_host_view x)) (bc_page_zoom x).
Definition input_dispatched (evaluation : AutomationEvaluation) : BrowserCommandResult :=
  ResInputDispatched (ae_effects evaluation) (ae_navigation_actions evaluation).

Definition scale_mouse_event (scale : f64) (e : MouseEventData) : MouseEventData :=
  {| me_x := f64_div (me_x e) scale; me_y := f64_div (me_y e) scale; me_button := me_button e; me_buttons := me_buttons e;
     me_detail := me_detail e; me_related_node_id := me_related_node_id e; me_bubbles := me_bubbles e;
     me_ctrl_key := me_ctrl_key e; me_shift_key := me_shift_key e; me_alt_key := me_alt_key e; me_meta_key := me_meta_key e;
     me_delta_x := f64_div (me_delta_x e) scale; me_delta_y := f64_div (me_delta_y e) scale |}.
Definition dispatch_mouse_event `{!CoreClock, !InputJson, !PageInput} (fuel : nat) (c : BrowsingContextId) (d : DocumentId)
    (r : RuntimeContextId) (node_id : N) (event_type : rstr) (event : MouseEventData) : C BrowserCommandResult :=
  _ ← ensure_host_accepts_input c;
  _ ← from_result (throw_if (negb (is_finite (me_x event) && is_finite (me_y event) && is_finite (me_delta_x event) &&
                                   is_finite (me_delta_y event)))
        (invalid_argument (lit "mouse event coordinates and deltas must be finite")));
  x ← context_for_document c d;
  let event := scale_mouse_event (page_output_scale x) event in
  let is_wheel := bool_decide (event_type = lit "wheel") in
  let node_id := if is_wheel && (node_id =? 0)%N then default 0%N (default_pointer_event_target_node_id (bc_page x)) else node_id in
  if (node_id =? 0)%N then mret (ResInputDispatched RuntimeEffects_default [])
  else
    let '(target_id, target_tag) := default (None, []) (element_identity (bc_page x) node_id) in
    event_type ← from_result (json_string event_type);
    target_id ← from_result (json_optional_string target_id);
    target_tag ← from_result (json_string target_tag);
    let source := lit "globalThis.__vixenDispatchMouseEvent ? globalThis.__vixenDispatchMouseEvent(" ++ dec node_id ++ lit ", "
                    ++ event_type ++ lit ", " ++ json_mouse_init event ++ lit ", " ++ target_id ++ lit ", " ++ target_tag
                    ++ lit ") : false" in
    let root_scroll_default :=
      if is_wheel && negb (me_ctrl_key event) && negb (me_meta_key event)
      then Some (context_layout_viewport x, (me_delta_x event, me_delta_y event)) else None in
    evaluation ← automation_evaluation_with_root_scroll_default fuel c d r source root_scroll_default;
    mret (input_dispatched evaluation).

Definition keyboard_scroll_delta `{!PageInput} (event_type : rstr) (event : KeyEventData) (x : BrowsingContext) : option (f64 * f64) :=
  if negb (bool_decide (event_type = lit "keyDown") || bool_decide (event_type = lit "keydown")) || ke_ctrl_key event ||
     ke_alt_key event || ke_meta_key event || focused_element_consumes_scroll_keys (bc_page x) then None
  else
    let page := f64_mul (f64_of_Z (Z.of_N (context_layout_viewport x).2)) KEYBOARD_SCROLL_PAGE_FRACTION in
    let key := ke_key event in
    let zero := f64_zero in
    if bool_decide (key = lit "ArrowLeft") then Some (f64_opp KEYBOARD_SCROLL_LINE_PX, zero)
    else if bool_decide (key = lit "ArrowRight") then Some (KEYBOARD_SCROLL_LINE_PX, zero)
    else if bool_decide (key = lit "ArrowUp") then Some (zero, f64_opp KEYBOARD_SCROLL_LINE_PX)
    else if bool_decide (key = lit "ArrowDown") then Some (zero, KEYBOARD_SCROLL_LINE_PX)
    else if bool_decide (key = lit "PageUp") then Some (zero, f64_opp page)
    else if bool_decide (key = lit "PageDown") then Some (zero, page)
    else if bool_decide (key = lit "Home") then Some (zero, f64_opp f64_MAX)
    else if bool_decide (key = lit "End") then Some (zero, f64_MAX)
    else if bool_decide (key = lit " ") then Some (zero, if ke_shift_key event then f64_opp page else page)
    else None.
Definition dispatch_key_event `{!CoreClock, !InputJson, !PageInput} (fuel : nat) (c : BrowsingContextId) (d : DocumentId)
    (r : RuntimeContextId) (event_type : rstr) (event : KeyEventData) : C BrowserCommandResult :=
  _ ← ensure_host_accepts_input c;
  x ← context_for_document c d;
  let root_scroll_default := (λ delta, (context_layout_viewport x, delta)) <$> keyboard_scroll_delta event_type event x in
  event_type ← from_result (json_string event_type);
  let source := lit "globalThis.__vixenDispatchKeyEvent ? globalThis.__vixenDispatchKeyEvent(" ++ event_type ++ lit ", "
                  ++ json_key_init event ++ lit ") : false" in
  evaluation ← automation_evaluation_with_root_scroll_default fuel c d r source root_scroll_default;
  mret (input_dispatched evaluation).

Definition validate_text_input_state (state : TextInputState) : result BrowserError unit :=
  _ ← throw_if (MAX_TEXT_INPUT_BYTES <? str_len (ti_text state))%N (invalid_argument (lit "text input value exceeds the browser limit"));
  let length := utf16_len (ti_text state) in
  _ ← throw_if (u32_max <? length)%N (invalid_argument (lit "text input value exceeds the UTF-16 range limit"));
  _ ← throw_if ((length <? (ti_selection state).1) || (length <? (ti_selection state).2))%N
        (invalid_argument (lit "text input selection exceeds the value"));
  match ti_composing state with
  | None => Ok tt
  | Some (base, extent) =>
      throw_if ((extent <? base) || (length <? extent))%N (invalid_argument (lit "text input composing range is invalid"))
  end.
Definition dispatch_text_input `{!CoreClock, !InputJson} (fuel : nat) (c : BrowsingContextId) (d : DocumentId) (r : RuntimeContextId)
    (state : TextInputState) : C BrowserCommandResult :=
  _ ← ensure_host_accepts_input c;
  _ ← from_result (validate_text_input_state state);
  let source := lit "globalThis.__vixenApplyTextInputState ? globalThis.__vixenApplyTextInputState(" ++ json_text_input state
                  ++ lit ") : false" in
  evaluation ← automation_evaluation fuel c d r source;
  if bool_decide (js_as_bool (ae_value evaluation) = Some true) then mret (input_dispatched evaluation)
  else throw (invalid_argument (lit "text input requires a focused writable native text control")).

(** ** Dispatch and the loop *)

Inductive DocumentTextKind : Type := TextDom | TextContent.

Inductive BrowserCommand `{!PageCommands} : Type :=
| CmdLoadProfileSession
| CmdSaveCurrentProfileSession
| CmdSaveProfileSession (session : ProfileSessionState)
| CmdClearProfileData (selection : ClearDataSelection)
| CmdCreateBrowsingContext
| CmdCloseBrowsingContext (c : BrowsingContextId)
| CmdActivateBrowsingContext (c : BrowsingContextId)
| CmdNavigate (c : BrowsingContextId) (url : rstr)
| CmdReload (c : BrowsingContextId)
| CmdStop (c : BrowsingContextId)
| CmdTraverseHistory (c : BrowsingContextId) (delta : Z)
| CmdGetBrowsingContextState (c : BrowsingContextId)
| CmdUpdateHostViewState (c : BrowsingContextId) (state : HostViewState)
| CmdSetPageZoom (c : BrowsingContextId) (zoom : f64)
| CmdGetBrowserSnapshot
| CmdConfigureBrowsingContext (c : BrowsingContextId) (config : BrowsingContextConfig)
| CmdGetNavigationHistory (c : BrowsingContextId)
| CmdResetNavigationHistory (c : BrowsingContextId)
| CmdEvaluate (c : BrowsingContextId) (d : DocumentId) (r : RuntimeContextId) (source : rstr)
| CmdEvaluateForAutomation (c : BrowsingContextId) (d : DocumentId) (r : RuntimeContextId) (source : rstr)
| CmdDispatchMouseEvent (c : BrowsingContextId) (d : DocumentId) (r : RuntimeContextId) (node_id : N) (event_type : rstr)
    (event : MouseEventData)
| CmdDispatchKeyEvent (c : BrowsingContextId) (d : DocumentId) (r : RuntimeContextId) (event_type : rstr) (event : KeyEventData)
| CmdDispatchTextInput (c : BrowsingContextId) (d : DocumentId) (r : RuntimeContextId) (state : TextInputState)
| CmdFindText (c : BrowsingContextId) (d : DocumentId) (query : rstr) (case_sensitive forward : bool)
| CmdApplyRendererCommit (commit : RenderCommit)
| CmdSnapshot (c : BrowsingContextId) (d : DocumentId) (viewport : N * N)
| CmdRenderSnapshot (c : BrowsingContextId) (d : DocumentId) (viewport : N * N) (viewport_generation : N) (page_zoom : f64)
| CmdAccessibilitySnapshot (c : BrowsingContextId) (d : DocumentId) (viewport : N * N)
| CmdDispatchAccessibilityAction (c : BrowsingContextId) (d : DocumentId) (r : RuntimeContextId) (viewport : N * N)
    (source_generation node_id : N) (action : AccessibilityAction)
| CmdQuerySelectorAll (c : BrowsingContextId) (d : DocumentId) (selector : rstr) (viewport : N * N)
| CmdComputedStyle (c : BrowsingContextId) (d : DocumentId) (node_id : N) (viewport : N * N)
| CmdDiagnostics (c : BrowsingContextId) (d : DocumentId)
| CmdDocumentText (c : BrowsingContextId) (d : DocumentId) (viewport : N * N) (kind : DocumentTextKind)
| CmdFocusProjection (c : BrowsingContextId) (d : DocumentId) (element_id : rstr)
| CmdFormSubmission (c : BrowsingContextId) (d : DocumentId) (form_id : rstr).

(** The result of a command: [BrowserCommandResult], with what the commands read of a page *)
Inductive CommandResult `{!PageCommands} : Type :=
| ResCommand (r : BrowserCommandResult)
| ResFindText (r : FindTextResult)
| ResSnapshot (r : PageSnapshot)
| ResRenderSnapshot (r : FullRenderSnapshot)
| ResAccessibilitySnapshot (r : AccessibilitySnapshot)
| ResSelectorMatches (r : list ElementInfo)
| ResComputedStyle (r : ComputedStyle)
| ResDiagnostics (r : list EngineDiagnostic)
| ResDocumentText (r : rstr)
| ResFocusProjection (target : ElementInfo) (events : list FocusDispatch)
| ResFormSubmission (r : FormSubmissionInfo).

Definition find_text_in `{!PageCommands} (c : BrowsingContextId) (d : DocumentId) (query : rstr) (case_sensitive forward : bool) :
    C FindTextResult :=
  _ ← from_result (throw_if (MAX_FIND_QUERY_BYTES <? str_len query)%N (invalid_argument (lit "find query exceeds the browser limit")));
  x ← context_for_document c d;
  let '(page, found) := find_text query case_sensitive forward (bc_page x) in
  _ ← context_mut c (set_page page);
  mret found.

(** *** Reading a page *)

Definition invalid_page (r : rstr) : BrowserError := BrowserError_new INVALID_ARGUMENT r.
Definition validate_lookup_id (id : rstr) : result BrowserError unit :=
  throw_if (MAX_SELECTOR_BYTES <? str_len id)%N (invalid_argument (lit "element id exceeds the browser query limit")).

Definition snapshot_page `{!PageCommands} (c : BrowsingContextId) (d : DocumentId) (viewport : N * N) : C CommandResult :=
  _ ← from_result (validate_viewport viewport);
  x ← context_for_document c d;
  mret (ResSnapshot (page_snapshot viewport (bc_page x))).

Definition render_snapshot_of `{!PageCommands} (c : BrowsingContextId) (d : DocumentId) (viewport : N * N)
    (viewport_generation : N) (page_zoom : f64) : C CommandResult :=
  _ ← from_result (validate_viewport viewport);
  _ ← from_result (throw_if ((viewport_generation =? 0)%N || negb (is_finite page_zoom) ||
                             negb (f64_leb MIN_PAGE_ZOOM page_zoom && f64_leb page_zoom MAX_PAGE_ZOOM))
        (invalid_argument (lit "renderer viewport generation or page zoom is invalid")));
  x ← context_for_document c d;
  r ← from_result (map_err invalid_page
        (render_snapshot c d viewport viewport_generation (hv_scale_factor (bc_host_view x)) page_zoom (bc_page x)));
  mret (ResRenderSnapshot r).

Definition scale_rect (scale : f64) (b : AccessibilityRect) : AccessibilityRect :=
  {| bb_x := f64_mul (bb_x b) scale; bb_y := f64_mul (bb_y b) scale; bb_width := f64_mul (bb_width b) scale;
     bb_height := f64_mul (bb_height b) scale |}.
Definition scale_node (scale : f64) (node : AccessibilityNode) : AccessibilityNode :=
  {| ax_id := ax_id node; ax_parent_id := ax_parent_id node; ax_controls_ids := ax_controls_ids node;
     ax_described_by_ids := ax_described_by_ids node; ax_details_ids := ax_details_ids node; ax_owns_ids := ax_owns_ids node;
     ax_role := ax_role node; ax_label := ax_label node; ax_description := ax_description node; ax_value := ax_value node;
     ax_text_selection := ax_text_selection node; ax_multiline := ax_multiline node;
     ax_text_input_type := ax_text_input_type node; ax_text_input_action := ax_text_input_action node;
     ax_range := ax_range node; ax_bbox := scale_rect scale <$> ax_bbox node; ax_focused := ax_focused node;
     ax_disabled := ax_disabled node; ax_checked := ax_checked node; ax_mixed := ax_mixed node; ax_selected := ax_selected node;
     ax_expanded := ax_expanded node; ax_heading_level := ax_heading_level node; ax_hidden := ax_hidden node;
     ax_live_region := ax_live_region node; ax_focusable := ax_focusable node; ax_actions := ax_actions node |}.

Definition accessibility_snapshot `{!PageCommands} (c : BrowsingContextId) (d : DocumentId) (viewport : N * N) : C AccessibilitySnapshot :=
  x ← context_for_document c d;
  let scale := page_output_scale x in
  let layout_viewport := page_layout_viewport viewport (hv_scale_factor (bc_host_view x)) (bc_page_zoom x) in
  let s := page_accessibility_snapshot c d layout_viewport (bc_page x) in
  mret (refresh_generation
    {| axs_context_id := axs_context_id s; axs_document_id := axs_document_id s;
       axs_source_generation := axs_source_generation s; axs_generation := axs_generation s; axs_viewport := viewport;
       axs_nodes := scale_node scale <$> axs_nodes s; axs_truncated := axs_truncated s |}).

Definition dispatch_accessibility_action `{!CoreClock, !PageCommands, !InputJson} (fuel : nat) (c : BrowsingContextId)
    (d : DocumentId) (r : RuntimeContextId) (viewport : N * N) (source_generation node_id : N) (action : AccessibilityAction) :
    C BrowserCommandResult :=
  _ ← ensure_host_accepts_input c;
  _ ← from_result (validate_viewport viewport);
  x ← context_for_document c d;
  _ ← from_result (throw_if (negb (bool_decide (bc_runtime_context_id x = r))) (stale_runtime c r));
  snapshot ← accessibility_snapshot c d viewport;
  _ ← from_result (throw_if (negb (axs_source_generation snapshot =? source_generation)%N)
        (BrowserError_new STALE_ACCESSIBILITY (lit "accessibility source generation is no longer current")));
  _ ← from_result (throw_if (negb (advertises snapshot node_id action))
        (invalid_argument (lit "accessibility node does not advertise the requested action")));
  value ← match action with
          | AxSetValue value =>
              _ ← from_result (throw_if (ACCESSIBILITY_MAX_VALUE_BYTES <? str_len value)%N
                    (invalid_argument (lit "accessibility value exceeds the browser limit")));
              from_result (json_string value)
          | _ => mret (lit "null")
          end;
  action ← from_result (json_string (lit (action_as_str action)));
  let source := lit "globalThis.__vixenDispatchAccessibilityAction ? globalThis.__vixenDispatchAccessibilityAction(" ++
                  dec node_id ++ lit ", " ++ action ++ lit ", " ++ value ++ lit ") : false" in
  evaluation ← automation_evaluation fuel c d r source;
  mret (input_dispatched evaluation).

Definition query_selector_all `{!PageCommands} (c : BrowsingContextId) (d : DocumentId) (selector : rstr) (viewport : N * N) :
    C CommandResult :=
  _ ← from_result (validate_viewport viewport);
  _ ← from_result (throw_if (MAX_SELECTOR_BYTES <? str_len selector)%N
        (invalid_argument (lit "selector exceeds the browser query limit")));
  x ← context_for_document c d;
  matches ← from_result (map_err invalid_page (query_selector_all_in_viewport selector viewport (bc_page x)));
  mret (ResSelectorMatches matches).

Definition computed_style `{!PageCommands} (c : BrowsingContextId) (d : DocumentId) (node_id : N) (viewport : N * N) : C CommandResult :=
  _ ← from_result (validate_viewport viewport);
  x ← context_for_document c d;
  mret (ResComputedStyle (computed_style_for_viewport node_id viewport (bc_page x))).

Definition page_diagnostics `{!PageCommands} (c : BrowsingContextId) (d : DocumentId) : C CommandResult :=
  x ← context_for_document c d;
  mret (ResDiagnostics (diagnostics (bc_page x))).

Definition document_text `{!PageCommands} (c : BrowsingContextId) (d : DocumentId) (viewport : N * N) (kind : DocumentTextKind) :
    C CommandResult :=
  _ ← from_result (validate_viewport viewport);
  x ← context_for_document c d;
  mret (ResDocumentText match kind with TextDom => dump_dom (bc_page x) | TextContent => text_content (bc_page x) end).

Definition focus_projection `{!PageCommands} (c : BrowsingContextId) (d : DocumentId) (element_id : rstr) : C CommandResult :=
  _ ← from_result (validate_lookup_id element_id);
  x ← context_for_document c d;
  target ← from_result (ok_or (element_by_id element_id (bc_page x))
             (invalid_argument (lit "no element with id '" ++ element_id ++ lit "'")));
  mret (ResFocusProjection target (focus_event_sequence None (Some (element_node_id target)))).

Definition form_submission_of `{!PageCommands} (c : BrowsingContextId) (d : DocumentId) (form_id : rstr) : C CommandResult :=
  _ ← from_result (validate_lookup_id form_id);
  x ← context_for_document c d;
  submission ← from_result (map_err invalid_page (page_form_submission form_id (bc_page x)));
  mret (ResFormSubmission submission).

Definition dispatch `{!CoreClock, !PageCommands, !InputJson, !PageInput} (fuel : nat) (command : BrowserCommand) : C CommandResult :=
  match command with
  | CmdFindText c d query case_sensitive forward => r ← find_text_in c d query case_sensitive forward; mret (ResFindText r)
  | CmdSnapshot c d viewport => snapshot_page c d viewport
  | CmdRenderSnapshot c d viewport generation zoom => render_snapshot_of c d viewport generation zoom
  | CmdAccessibilitySnapshot c d viewport =>
      _ ← from_result (validate_viewport viewport);
      r ← accessibility_snapshot c d viewport; mret (ResAccessibilitySnapshot r)
  | CmdQuerySelectorAll c d selector viewport => query_selector_all c d selector viewport
  | CmdComputedStyle c d node_id viewport => computed_style c d node_id viewport
  | CmdDiagnostics c d => page_diagnostics c d
  | CmdDocumentText c d viewport kind => document_text c d viewport kind
  | CmdFocusProjection c d element_id => focus_projection c d element_id
  | CmdFormSubmission c d form_id => form_submission_of c d form_id
  | command =>
      r ← match command with
          | CmdLoadProfileSession => load_profile_session
          | CmdSaveCurrentProfileSession => save_current_profile_session
          | CmdSaveProfileSession session => save_profile_session session
          | CmdClearProfileData selection => clear_profile selection
          | CmdCreateBrowsingContext => create_context
          | CmdCloseBrowsingContext c => close_context c
          | CmdActivateBrowsingContext c => activate_context c
          | CmdNavigate c url => navigate c url UpdatePush
          | CmdReload c => reload_context c
          | CmdStop c => stop c
          | CmdTraverseHistory c delta => traverse_history c delta
          | CmdGetBrowsingContextState c => x ← context c; mret (ResBrowsingContextState (context_state c x))
          | CmdUpdateHostViewState c state => update_host_view_state fuel c state
          | CmdSetPageZoom c zoom => set_page_zoom fuel c zoom
          | CmdGetBrowserSnapshot => s ← gets id; mret (ResBrowserSnapshot (browser_snapshot s))
          | CmdConfigureBrowsingContext c config => configure_context c config
          | CmdGetNavigationHistory c => get_navigation_history c
          | CmdResetNavigationHistory c => reset_navigation_history c
          | CmdEvaluate c d r source =>
              evaluation ← automation_evaluation fuel c d r source;
              mret (ResEvaluation (ae_value evaluation) (ae_navigation_actions evaluation))
          | CmdEvaluateForAutomation c d r source =>
              evaluation ← automation_evaluation fuel c d r source;
              mret (ResAutomationEvaluation (ae_value evaluation) (ae_effects evaluation) (ae_navigation_actions evaluation))
          | CmdDispatchMouseEvent c d r node_id event_type event => dispatch_mouse_event fuel c d r node_id event_type event
          | CmdDispatchKeyEvent c d r event_type event => dispatch_key_event fuel c d r event_type event
          | CmdDispatchTextInput c d r state => dispatch_text_input fuel c d r state
          | CmdApplyRendererCommit commit => apply_renderer_commit fuel commit
          | CmdDispatchAccessibilityAction c d r viewport source_generation node_id action =>
              dispatch_accessibility_action fuel c d r viewport source_generation node_id action
          (* answered above *)
          | CmdFindText _ _ _ _ _ | CmdSnapshot _ _ _ | CmdRenderSnapshot _ _ _ _ _ | CmdAccessibilitySnapshot _ _ _
          | CmdQuerySelectorAll _ _ _ _ | CmdComputedStyle _ _ _ _ | CmdDiagnostics _ _ | CmdDocumentText _ _ _ _
          | CmdFocusProjection _ _ _ | CmdFormSubmission _ _ _ => mret Accepted
          end;
      mret (ResCommand r)
  end.

(** What a client interrupts when it sends a command *)
Definition command_interrupt `{!PageCommands} (command : BrowserCommand) :
    option (BrowsingContextId * bool * RenderBrokerCancellation) :=
  match command with
  | CmdNavigate c url => if (str_len url <=? MAX_URL_BYTES)%N then Some (c, false, RenderBridge.Navigation) else None
  | CmdReload c => Some (c, false, RenderBridge.Navigation)
  | CmdCloseBrowsingContext c => Some (c, false, RenderBridge.ContextClosed)
  | CmdStop c => Some (c, false, RenderBridge.Stop)
  | _ => None
  end.

Inductive CoreMessage `{!PageCommands} : Type :=
| MsgDispatch (command : BrowserCommand)
| MsgNavigateHtml (c : BrowsingContextId) (url html : rstr)
| MsgSourceLoadProgress (c : BrowsingContextId) (n : NavigationId) (event : NetworkEvent)
| MsgSourceLoaded (completion : SourceLoadCompletion)
| MsgExternalScriptLoaded (completion : LoadCompletion ExternalScriptLoadKey)
| MsgExternalStylesheetLoaded (completion : LoadCompletion ExternalStylesheetLoadKey)
| MsgExternalImageLoaded (completion : LoadCompletion ExternalImageLoadKey)
| MsgShutdown.

(** [handle_core_message]: the reply, if the message asks for one, and whether to stop *)
Definition handle_core_message `{!CoreClock, !PageCommands, !InputJson, !PageInput} (fuel : nat) (message : CoreMessage) :
    C (option (result BrowserError CommandResult) * bool) :=
  match message with
  | MsgDispatch command => r ← attempt (dispatch fuel command); _ ← start_pending_loads; mret (Some r, false)
  | MsgNavigateHtml c url html =>
      r ← attempt (r ← navigate_html c url html; mret (ResCommand r)); _ ← start_pending_loads; mret (Some r, false)
  | MsgSourceLoaded completion => _ ← complete_navigation completion; _ ← start_pending_loads; mret (None, false)
  | MsgSourceLoadProgress c n event => _ ← progress_navigation c n event; mret (None, false)
  | MsgExternalScriptLoaded completion => _ ← complete_external_script completion; mret (None, false)
  | MsgExternalStylesheetLoaded completion => _ ← complete_external_stylesheet completion; mret (None, false)
  | MsgExternalImageLoaded completion => _ ← complete_external_image completion; mret (None, false)
  | MsgShutdown => _ ← shutdown; mret (None, true)
  end.

(** [BrowserCore::new], once the profile is open *)
Definition BrowserCore_new (max_contexts : N) (store : Store) (max_body_bytes : N) (document_overrides : list (rstr * rstr))
    (synchronous_renderer : bool) : BrowserCore :=
  {| ids := IdAllocator_new; contexts := ∅; runtime_slots := []; closed_contexts := ∅; active_context := None;
     max_contexts := N.max max_contexts 1; events := []; control := ∅;
     tasks := {| tp_next := 1; tp_live := ∅ |}; core_store := store; core_cookies := CookieJar_new;
     core_max_body_bytes := max_body_bytes; pending_load_starts := []; pending_navigation_work := [];
     document_overrides := document_overrides; has_synchronous_renderer := synchronous_renderer |}.
End commands.
