(* ===== verification/BrowserLoop.v ===== *)
(** * The loop of the browser core

    [crates/vixen-engine/src/browser.rs]: the thread of [spawn_browser], which takes one
    message at a time and works on navigations while there is none, together with those who
    send to it: the front ends and the loads on the network runtime.  A step of the world is
    one message sent, one message handled, or one piece of navigation work.

    The order in which threads run is whatever it is; the mailbox keeps the order in which
    messages were sent and holds [capacity] of them.  A load answers once and is gone; what
    it answers is arbitrary.  Another thread may interrupt a runtime at any time: the runtime
    of a slot becomes an arbitrary one.  A handler that does not return makes no step.

    Not modelled: the reply channels (a reply is the first component of the result of
    [handle_core_message]) and the start of the thread. *)

From Stdlib Require Import Lia ZArith.
From stdpp Require Import base decidable gmap sets list strings.
From S2P Require Import Prelude.
From S2P Require Import RustFloat.
From S2P Require Import RustStr.
From S2P Require Import RustUtf8.
From S2P Require Import RenderModel.
From S2P Require Import SessionHistory.
From S2P Require Import Cookie.
From S2P Require Import Store.
From S2P Require Import WebStorage.
From S2P Require Import NetUrl.
From S2P Require Import HttpCache.
From S2P Require Import Network.
From S2P Require Import ProfileCookies.
From S2P Require Import BrowserApi.
From S2P Require Import BrowserChannel.
From S2P Require Import ExternalResource.
From S2P Require Import BrowserCore.
From S2P Require Import BrowserWork.
From S2P Require Import BrowserCommands.

Section loop.
Context `{Platform, UrlPlatform, HttpDate, ErrorText, PageEngine, StorePlatform, RuntimeType} `{!ScriptEngine}.
Context `{!CoreClock, !PageCommands, !InputJson, !PageInput}.
Variable url_query : WebUrl → option rstr.
Variable url_with_query : WebUrl → rstr → rstr.
Variable parse_error_text : rstr → rstr.
Variable debug_result : BrowserCommandResult → rstr.
(** [config.command_capacity.max(1)] *)
Variable capacity : N.

Local Abbreviation handle fuel m :=
  (handle_core_message url_query url_with_query parse_error_text debug_result fuel m).
Local Abbreviation advance fuel :=
  (advance_navigation_work url_query url_with_query parse_error_text debug_result fuel).

Inductive ThreadState : Type := Running | Finished | Panicked.
Record CoreWorld : Type := { w_core : BrowserCore; w_mail : list CoreMessage; w_thread : ThreadState }.

Definition set_core (core : BrowserCore) (w : CoreWorld) : CoreWorld :=
  {| w_core := core; w_mail := w_mail w; w_thread := w_thread w |}.
Definition post (m : CoreMessage) (w : CoreWorld) : CoreWorld :=
  {| w_core := w_core w; w_mail := w_mail w ++ [m]; w_thread := w_thread w |}.
(** A load that has answered is no longer in the pool. *)
Definition end_task (t : positive) (core : BrowserCore) : BrowserCore :=
  set_tasks {| tp_next := tp_next (tasks core); tp_live := delete t (tp_live (tasks core)) |} core.
Definition set_runtime (slot : nat) (rt : JsRuntime) (core : BrowserCore) : BrowserCore :=
  set_runtime_slots (alter (λ x, {| rs_runtime := rt; rs_active := rs_active x |}) slot (runtime_slots core)) core.

(** What the front ends send *)
Definition client_message (m : CoreMessage) : bool :=
  match m with MsgDispatch _ | MsgNavigateHtml _ _ _ | MsgShutdown => true | _ => false end.
(** What a load may answer at its end *)
Definition load_answers (task : LoadTask) (m : CoreMessage) : Prop :=
  match task with
  | TaskSource c n _ _ _ => ∃ r d, m = MsgSourceLoaded {| sc_context_id := c; sc_navigation_id := n; sc_result := r; sc_cookie_delta := d |}
  | TaskScript key _ _ _ => ∃ r d, m = MsgExternalScriptLoaded {| lc_key := key; lc_result := r; lc_cookie_delta := d |}
  | TaskStylesheet key _ _ => ∃ r d, m = MsgExternalStylesheetLoaded {| lc_key := key; lc_result := r; lc_cookie_delta := d |}
  | TaskImage key _ _ => ∃ r d, m = MsgExternalImageLoaded {| lc_key := key; lc_result := r; lc_cookie_delta := d |}
  end.

(** After the loop the core is shut down once more. *)
Definition finish (core : BrowserCore) : CoreWorld := {| w_core := (shutdown core).1; w_mail := []; w_thread := Finished |}.

Inductive core_step : CoreWorld → CoreWorld → Prop :=
| step_client w m : client_message m = true → (len (w_mail w) < capacity)%N → core_step w (post m w)
| step_interrupt w slot rt : core_step w (set_core (set_runtime slot rt (w_core w)) w)
| step_progress w t c n url html baseline event : (len (w_mail w) < capacity)%N →
    tp_live (tasks (w_core w)) !! t = Some (TaskSource c n url html baseline, true) →
    core_step w (post (MsgSourceLoadProgress c n event) w)
| step_answer w t task m : (len (w_mail w) < capacity)%N →
    tp_live (tasks (w_core w)) !! t = Some (task, true) → load_answers task m →
    core_step w (post m (set_core (end_task t (w_core w)) w))
| step_message w m rest fuel core reply : w_thread w = Running → w_mail w = m :: rest →
    handle fuel m (w_core w) = (core, Ok (reply, false)) →
    core_step w {| w_core := core; w_mail := rest; w_thread := Running |}
| step_shutdown w m rest fuel core reply : w_thread w = Running → w_mail w = m :: rest →
    handle fuel m (w_core w) = (core, Ok (reply, true)) → core_step w (finish core)
| step_work w fuel core b : w_thread w = Running → w_mail w = [] → has_navigation_work (w_core w) = true →
    advance fuel (w_core w) = (core, Ok b) → core_step w (set_core core w)
| step_message_panic w m rest fuel core : w_thread w = Running → w_mail w = m :: rest →
    handle fuel m (w_core w) = (core, Err Panic) →
    core_step w {| w_core := core; w_mail := rest; w_thread := Panicked |}
| step_work_panic w fuel core : w_thread w = Running → w_mail w = [] → has_navigation_work (w_core w) = true →
    advance fuel (w_core w) = (core, Err Panic) →
    core_step w {| w_core := core; w_mail := []; w_thread := Panicked |}.

(** The worlds of a core that has been started *)
Inductive reachable (initial : BrowserCore) : CoreWorld → Prop :=
| reach_start : reachable initial {| w_core := initial; w_mail := []; w_thread := Running |}
| reach_step w w' : reachable initial w → core_step w w' → reachable initial w'.
End loop.
