(* ===== verification/BrowserCoreFacts.v ===== *)
(** * The browser core: what its handlers are about

    What is proved of the handlers concerns a small part of the state: contexts without
    their pages, which runtime slots are active, the queue of navigation work, the loads of
    sources, the control block, and what the monitor makes of the events ([Skel]).  This file
    has that view of the state, the weakest preconditions of the handlers' monad and the rules
    of its primitives in terms of the view.  [BrowserNavFacts] has the invariant. *)

From Stdlib Require Import Lia ZArith.
From stdpp Require Import base decidable gmap sets list strings.
From S2P Require Import Prelude.
From S2P Require Import RustFloat.
From S2P Require Import RustStr.
From S2P Require Import RenderModel.
From S2P Require Import SessionHistory.
From S2P Require Import Cookie.
From S2P Require Import Store.
From S2P Require Import WebStorage.
From S2P Require Import NetUrl.
From S2P Require Import HttpCache.
From S2P Require Import Network.
From S2P Require Import ProfileCookies.
From S2P Require Import BrowserApi.
From S2P Require Import BrowserChannel.
From S2P Require Import BrowserProtocol.
From S2P Require Import ExternalResource.
From S2P Require Import BrowserCore.
From S2P Require Import BrowserWork.

Section skel.
Context `{Platform, UrlPlatform, HttpDate, ErrorText, PageEngine, StorePlatform, RuntimeType} `{!ScriptEngine}.

(** ** The view *)

(** The stage of a navigation that waits with some work *)
Definition work_stage (work : NavigationWork) : NavStage :=
  match work with
  | WorkParsing _ => AtParse
  | WorkStylesheets _ | WorkImages _ | WorkScripts _ | WorkLifecycle StageDomContentLoaded _ => AtSubresources
  | WorkLifecycle StageLoad _ => AtDomEvent
  | WorkLifecycle StageSettle _ => AtLoadEvent
  end.
Record NavSkel : Type := { ns_id : NavigationId; ns_request : RequestId; ns_work : option NavStage; ns_pending : nat }.
Definition one {A} (o : option A) : nat := match o with Some _ => 1 | None => 0 end.
(** How many loads of resources the navigation waits for *)
Definition loads_pending (a : ActiveNavigation) : nat :=
  one (an_pending_script a) + one (an_pending_stylesheet a) + one (an_pending_image a).
Definition nav_skel (a : ActiveNavigation) : NavSkel :=
  {| ns_id := an_navigation_id a; ns_request := an_request_id a; ns_work := work_stage <$> an_work a; ns_pending := loads_pending a |}.
Record CtxSkel : Type := {
  cs_frame : FrameId; cs_document : DocumentId; cs_runtime : RuntimeContextId; cs_slot : nat; cs_nav : option NavSkel;
}.
Definition ctx_skel (x : BrowsingContext) : CtxSkel :=
  {| cs_frame := bc_frame_id x; cs_document := bc_document_id x; cs_runtime := bc_runtime_context_id x;
     cs_slot := bc_runtime_slot x; cs_nav := nav_skel <$> bc_active_navigation x |}.
(** The navigation whose source a load fetches *)
Definition source_token (t : LoadTask * bool) : option (BrowsingContextId * NavigationId) :=
  match t.1 with TaskSource c n _ _ _ => Some (c, n) | _ => None end.

Record Skel : Type := {
  k_ids : IdAllocator;
  k_contexts : gmap BrowsingContextId CtxSkel;
  k_slots : list bool;
  k_closed : gset BrowsingContextId;
  k_active : option BrowsingContextId;
  k_max : N;
  k_monitor : option Monitor;
  k_control : gmap BrowsingContextId (option NavigationId);
  k_sources : gmap positive (BrowsingContextId * NavigationId);
  k_queue : list (BrowsingContextId * NavigationId);
}.
Definition core_skel (s : BrowserCore) : Skel :=
  {| k_ids := set_next_request 0 (ids s); k_contexts := ctx_skel <$> contexts s; k_slots := rs_active <$> runtime_slots s;
     k_closed := closed_contexts s; k_active := active_context s; k_max := max_contexts s; k_monitor := replay (events s);
     k_control := ct_active_navigation_id <$> control s; k_sources := omap source_token (tp_live (tasks s));
     k_queue := pending_navigation_work s |}.

Definition k_set_ids v (k : Skel) : Skel :=
  {| k_ids := v; k_contexts := k_contexts k; k_slots := k_slots k; k_closed := k_closed k; k_active := k_active k;
     k_max := k_max k; k_monitor := k_monitor k; k_control := k_control k; k_sources := k_sources k; k_queue := k_queue k |}.
Definition k_set_contexts v (k : Skel) : Skel :=
  {| k_ids := k_ids k; k_contexts := v; k_slots := k_slots k; k_closed := k_closed k; k_active := k_active k;
     k_max := k_max k; k_monitor := k_monitor k; k_control := k_control k; k_sources := k_sources k; k_queue := k_queue k |}.
Definition k_set_slots v (k : Skel) : Skel :=
  {| k_ids := k_ids k; k_contexts := k_contexts k; k_slots := v; k_closed := k_closed k; k_active := k_active k;
     k_max := k_max k; k_monitor := k_monitor k; k_control := k_control k; k_sources := k_sources k; k_queue := k_queue k |}.
Definition k_set_closed v (k : Skel) : Skel :=
  {| k_ids := k_ids k; k_contexts := k_contexts k; k_slots := k_slots k; k_closed := v; k_active := k_active k;
     k_max := k_max k; k_monitor := k_monitor k; k_control := k_control k; k_sources := k_sources k; k_queue := k_queue k |}.
Definition k_set_active v (k : Skel) : Skel :=
  {| k_ids := k_ids k; k_contexts := k_contexts k; k_slots := k_slots k; k_closed := k_closed k; k_active := v;
     k_max := k_max k; k_monitor := k_monitor k; k_control := k_control k; k_sources := k_sources k; k_queue := k_queue k |}.
Definition k_emit e (k : Skel) : Skel :=
  {| k_ids := k_ids k; k_contexts := k_contexts k; k_slots := k_slots k; k_closed := k_closed k; k_active := k_active k;
     k_max := k_max k; k_monitor := (m ← k_monitor k; monitor_step m e); k_control := k_control k;
     k_sources := k_sources k; k_queue := k_queue k |}.
Definition k_set_control v (k : Skel) : Skel :=
  {| k_ids := k_ids k; k_contexts := k_contexts k; k_slots := k_slots k; k_closed := k_closed k; k_active := k_active k;
     k_max := k_max k; k_monitor := k_monitor k; k_control := v; k_sources := k_sources k; k_queue := k_queue k |}.
Definition k_set_sources v (k : Skel) : Skel :=
  {| k_ids := k_ids k; k_contexts := k_contexts k; k_slots := k_slots k; k_closed := k_closed k; k_active := k_active k;
     k_max := k_max k; k_monitor := k_monitor k; k_control := k_control k; k_sources := v; k_queue := k_queue k |}.
Definition k_set_queue v (k : Skel) : Skel :=
  {| k_ids := k_ids k; k_contexts := k_contexts k; k_slots := k_slots k; k_closed := k_closed k; k_active := k_active k;
     k_max := k_max k; k_monitor := k_monitor k; k_control := k_control k; k_sources := k_sources k; k_queue := v |}.
Definition k_set_monitor v (k : Skel) : Skel :=
  {| k_ids := k_ids k; k_contexts := k_contexts k; k_slots := k_slots k; k_closed := k_closed k; k_active := k_active k;
     k_max := k_max k; k_monitor := v; k_control := k_control k; k_sources := k_sources k; k_queue := k_queue k |}.
Definition k_context c y (k : Skel) : Skel := k_set_contexts (<[c := y]> (k_contexts k)) k.

Definition cs_set_nav v (y : CtxSkel) : CtxSkel :=
  {| cs_frame := cs_frame y; cs_document := cs_document y; cs_runtime := cs_runtime y; cs_slot := cs_slot y; cs_nav := v |}.
Definition ns_set_work v (a : NavSkel) : NavSkel :=
  {| ns_id := ns_id a; ns_request := ns_request a; ns_work := v; ns_pending := ns_pending a |}.
Definition ns_set_pending v (a : NavSkel) : NavSkel :=
  {| ns_id := ns_id a; ns_request := ns_request a; ns_work := ns_work a; ns_pending := v |}.
Definition ns_set_request v (a : NavSkel) : NavSkel :=
  {| ns_id := ns_id a; ns_request := v; ns_work := ns_work a; ns_pending := ns_pending a |}.

Lemma k_emit_step k m e m' : k_monitor k = Some m → monitor_step m e = Some m' → k_emit e k = k_set_monitor (Some m') k.
Proof. intros Hm He. unfold k_emit, k_set_monitor. rewrite Hm. cbn. by rewrite He. Qed.
Lemma k_context_id k c y : k_contexts k !! c = Some y → k_context c y k = k.
Proof. intros Hc. unfold k_context, k_set_contexts. rewrite insert_id by done. by destruct k. Qed.

Lemma skel_lookup s c : k_contexts (core_skel s) !! c = ctx_skel <$> contexts s !! c.
Proof. apply lookup_fmap. Qed.
Lemma skel_lookup_inv s c y : k_contexts (core_skel s) !! c = Some y → ∃ x, contexts s !! c = Some x ∧ ctx_skel x = y.
Proof. rewrite skel_lookup. intros (x & Hx & ->)%fmap_Some. eauto. Qed.

(** ** Weakest preconditions

    A handler that satisfies [wp m Q s] does not panic from [s]; [Q] holds of what it returns,
    an error included.  A handler that does not return is no concern. *)

Definition wp {A} (m : C A) (Q : result BrowserError A → BrowserCore → Prop) (s : BrowserCore) : Prop :=
  match m s with
  | (s', Ok a) => Q (Ok a) s'
  | (s', Err (Fail e)) => Q (Err e) s'
  | (_, Err Panic) => False
  | (_, Err Diverge) => True
  end.

Lemma wp_mono {A} (m : C A) Q Q' s : wp m Q s → (∀ r s', Q r s' → Q' r s') → wp m Q' s.
Proof. unfold wp. destruct (m s) as [s' [a|[]]]; auto. Qed.
Lemma wp_bind {A B} (m : C A) (f : A → C B) Q s :
  wp m (λ r s', match r with Ok a => wp (f a) Q s' | Err e => Q (Err e) s' end) s → wp (m ≫= f) Q s.
Proof. unfold wp, mbind, C_bind, M_bind. by destruct (m s) as [s' [a|[]]]. Qed.
Lemma wp_ret {A} (a : A) (Q : result BrowserError A → BrowserCore → Prop) s : Q (Ok a) s → wp (mret a) Q s.
Proof. done. Qed.
Lemma wp_gets {A} (f : BrowserCore → A) (Q : result BrowserError A → BrowserCore → Prop) s : Q (Ok (f s)) s → wp (gets f) Q s.
Proof. done. Qed.
Lemma wp_throw {A} e (Q : result BrowserError A → BrowserCore → Prop) s : Q (Err e) s → wp (throw e) Q s.
Proof. done. Qed.
Lemma wp_update f (Q : result BrowserError unit → BrowserCore → Prop) s : Q (Ok tt) (f s) → wp (update f) Q s.
Proof. done. Qed.
Lemma wp_expect {A} (o : option A) a (Q : result BrowserError A → BrowserCore → Prop) s : o = Some a → Q (Ok a) s → wp (expect o) Q s.
Proof. by intros ->. Qed.
Lemma wp_from_result {A} (r : result BrowserError A) (Q : result BrowserError A → BrowserCore → Prop) s :
  Q r s → wp (from_result r) Q s.
Proof. by destruct r. Qed.
Lemma wp_attempt {A} (m : C A) (Q : result BrowserError (result BrowserError A) → BrowserCore → Prop) s :
  wp m (λ r s', Q (Ok r) s') s → wp (attempt m) Q s.
Proof. unfold wp, attempt. by destruct (m s) as [s' [a|[]]]. Qed.

(** ** The primitives, in terms of the view *)

Section rules.
Implicit Types (s : BrowserCore) (k : Skel) (c : BrowsingContextId) (n : NavigationId) (y : CtxSkel).

(** Updates that the view does not see *)
Lemma wp_update_neutral f (Q : result BrowserError unit → BrowserCore → Prop) s k :
  core_skel s = k → core_skel (f s) = core_skel s → (∀ s', core_skel s' = k → Q (Ok tt) s') → wp (update f) Q s.
Proof. intros <- Hf HQ. apply wp_update. by apply HQ. Qed.
Lemma wp_update_to f k' (Q : result BrowserError unit → BrowserCore → Prop) s :
  core_skel (f s) = k' → (∀ s', core_skel s' = k' → Q (Ok tt) s') → wp (update f) Q s.
Proof. intros Hf HQ. apply wp_update. by apply HQ. Qed.

Lemma wp_emit e (Q : result BrowserError unit → BrowserCore → Prop) s k :
  core_skel s = k → (∀ s', core_skel s' = k_emit e k → Q (Ok tt) s') → wp (emit e) Q s.
Proof.
  intros <-. apply wp_update_to. unfold core_skel, k_emit. cbn. by rewrite replay_snoc.
Qed.

(** An event that the monitor accepts *)
Lemma wp_emit_step e m m' (Q : result BrowserError unit → BrowserCore → Prop) s k :
  core_skel s = k → k_monitor k = Some m → monitor_step m e = Some m' →
  (∀ s', core_skel s' = k_set_monitor (Some m') k → Q (Ok tt) s') → wp (emit e) Q s.
Proof. intros Hk Hm He HQ. eapply wp_emit; [exact Hk|]. intros s' Hs'. apply HQ. rewrite Hs'. by apply k_emit_step with m. Qed.

Lemma wp_ensure_context c (Q : result BrowserError unit → BrowserCore → Prop) s :
  (is_Some (contexts s !! c) → Q (Ok tt) s) → (∀ e, contexts s !! c = None → Q (Err e) s) → wp (ensure_context c) Q s.
Proof.
  intros HA HB. apply wp_bind, wp_gets. cbn. case_bool_decide as E; [by apply wp_ret, HA|].
  case_bool_decide; apply wp_throw, HB; by apply eq_None_not_Some.
Qed.
Lemma wp_context_or c (Q : result BrowserError BrowsingContext → BrowserCore → Prop) s :
  (∀ x, contexts s !! c = Some x → Q (Ok x) s) → (∀ e, contexts s !! c = None → Q (Err e) s) → wp (context c) Q s.
Proof.
  intros HA HB. apply wp_bind, wp_ensure_context; [|intros e He; by apply HB].
  intros [x Hx]. apply wp_bind, wp_gets. eapply wp_expect; [exact Hx|]. by apply HA.
Qed.
Lemma wp_context c (Q : result BrowserError BrowsingContext → BrowserCore → Prop) s k y :
  core_skel s = k → k_contexts k !! c = Some y → (∀ x, contexts s !! c = Some x → ctx_skel x = y → Q (Ok x) s) → wp (context c) Q s.
Proof.
  intros <- Hy HQ. apply skel_lookup_inv in Hy as (x & Hx & Hy). apply wp_context_or; [|by rewrite Hx].
  intros x' Hx'. rewrite Hx in Hx'. injection Hx' as <-. by apply HQ.
Qed.
Lemma wp_expect_context c (Q : result BrowserError BrowsingContext → BrowserCore → Prop) s k y :
  core_skel s = k → k_contexts k !! c = Some y → (∀ x, contexts s !! c = Some x → ctx_skel x = y → Q (Ok x) s) →
  wp (expect_context c) Q s.
Proof.
  intros <- Hy HQ. apply skel_lookup_inv in Hy as (x & Hx & Hy). apply wp_bind, wp_gets. eapply wp_expect; [exact Hx|]. by apply HQ.
Qed.

(** An assignment to a context *)
Lemma core_skel_context s c x : core_skel (set_contexts (<[c := x]> (contexts s)) s) = k_context c (ctx_skel x) (core_skel s).
Proof. unfold core_skel, k_context, k_set_contexts. cbn. by rewrite fmap_insert. Qed.
Lemma wp_context_mut c f (Q : result BrowserError unit → BrowserCore → Prop) s k y y' :
  core_skel s = k → k_contexts k !! c = Some y → (∀ x, ctx_skel x = y → ctx_skel (f x) = y') →
  (∀ s', core_skel s' = k_context c y' k → Q (Ok tt) s') → wp (context_mut c f) Q s.
Proof.
  intros Hk Hy Hf HQ. apply wp_bind. eapply wp_context; [done..|]. intros x Hx Hxy. apply wp_update, HQ.
  by rewrite core_skel_context, (Hf _ Hxy), Hk.
Qed.
Lemma wp_expect_context_mut c f (Q : result BrowserError unit → BrowserCore → Prop) s k y y' :
  core_skel s = k → k_contexts k !! c = Some y → (∀ x, ctx_skel x = y → ctx_skel (f x) = y') →
  (∀ s', core_skel s' = k_context c y' k → Q (Ok tt) s') → wp (expect_context_mut c f) Q s.
Proof.
  intros Hk Hy Hf HQ. apply wp_bind. eapply wp_expect_context; [done..|]. intros x Hx Hxy. apply wp_update, HQ.
  by rewrite core_skel_context, (Hf _ Hxy), Hk.
Qed.
Lemma wp_expect_active_mut c f (Q : result BrowserError unit → BrowserCore → Prop) s k y a a' :
  core_skel s = k → k_contexts k !! c = Some y → cs_nav y = Some a → (∀ b, nav_skel b = a → nav_skel (f b) = a') →
  (∀ s', core_skel s' = k_context c (cs_set_nav (Some a') y) k → Q (Ok tt) s') → wp (expect_active_mut c f) Q s.
Proof.
  intros Hk Hy Ha Hf HQ. apply wp_bind. eapply wp_expect_context; [done..|]. intros x Hx Hxy. apply wp_bind.
  rewrite <-Hxy in Ha. cbn in Ha. apply fmap_Some in Ha as (b & Hb & Hba). eapply wp_expect; [exact Hb|].
  apply wp_update, HQ. rewrite core_skel_context, Hk. f_equal. rewrite <-Hxy. unfold ctx_skel, cs_set_nav. cbn. by rewrite (Hf _ (eq_sym Hba)).
Qed.

(** The same for a navigation that was read before *)
Lemma wp_active_mut c f (Q : result BrowserError unit → BrowserCore → Prop) s k x b a' :
  core_skel s = k → contexts s !! c = Some x → bc_active_navigation x = Some b → nav_skel (f b) = a' →
  (∀ s', core_skel s' = k_context c (cs_set_nav (Some a') (ctx_skel x)) k → Q (Ok tt) s') → wp (expect_active_mut c f) Q s.
Proof.
  intros Hk Hx Hb Hf HQ. apply wp_bind, wp_bind, wp_gets. eapply wp_expect; [exact Hx|]. apply wp_bind.
  eapply wp_expect; [exact Hb|]. apply wp_update, HQ. rewrite core_skel_context, Hk. f_equal.
  unfold ctx_skel, cs_set_nav. cbn. by rewrite Hf.
Qed.

(** Runtime slots *)
Lemma wp_expect_slot slot b (Q : result BrowserError RuntimeSlot → BrowserCore → Prop) s k :
  core_skel s = k → k_slots k !! slot = Some b → (∀ x, runtime_slots s !! slot = Some x → rs_active x = b → Q (Ok x) s) →
  wp (expect_slot slot) Q s.
Proof.
  intros <- Hb HQ. cbn in Hb. rewrite list_lookup_fmap in Hb. apply fmap_Some in Hb as (x & Hx & ->).
  apply wp_bind, wp_gets. eapply wp_expect; [exact Hx|]. by apply HQ.
Qed.
Lemma core_skel_slot s slot x : core_skel (set_runtime_slots (<[slot := x]> (runtime_slots s)) s) =
  k_set_slots (<[slot := rs_active x]> (k_slots (core_skel s))) (core_skel s).
Proof. unfold core_skel, k_set_slots. cbn. by rewrite list_fmap_insert. Qed.
Lemma core_skel_slot_id s slot x : rs_active <$> runtime_slots s !! slot = Some (rs_active x) →
  core_skel (set_runtime_slots (<[slot := x]> (runtime_slots s)) s) = core_skel s.
Proof.
  intros Hx. rewrite core_skel_slot. unfold k_set_slots. rewrite list_insert_id; [done|]. cbn. by rewrite list_lookup_fmap.
Qed.
Lemma wp_slot_mut slot f b b' (Q : result BrowserError unit → BrowserCore → Prop) s k :
  core_skel s = k → k_slots k !! slot = Some b → (∀ x, rs_active x = b → rs_active (f x) = b') →
  (∀ s', core_skel s' = k_set_slots (<[slot := b']> (k_slots k)) k → Q (Ok tt) s') → wp (slot_mut slot f) Q s.
Proof.
  intros Hk Hb Hf HQ. apply wp_bind. eapply wp_expect_slot; [done..|]. intros x Hx Hxb. apply wp_update, HQ.
  by rewrite core_skel_slot, (Hf _ Hxb), Hk.
Qed.
Lemma wp_slot_neutral slot f b (Q : result BrowserError unit → BrowserCore → Prop) s k :
  core_skel s = k → k_slots k !! slot = Some b → (∀ x, rs_active (f x) = rs_active x) →
  (∀ s', core_skel s' = k → Q (Ok tt) s') → wp (slot_mut slot f) Q s.
Proof.
  intros Hk Hb Hf HQ. apply wp_bind. eapply wp_expect_slot; [done..|]. intros x Hx Hxb. apply wp_update, HQ.
  rewrite <-Hk. apply core_skel_slot_id. by rewrite Hx, Hf.
Qed.
Lemma wp_runtime_mut {A} slot (f : JsRuntime → JsRuntime * A) b (Q : result BrowserError A → BrowserCore → Prop) s k :
  core_skel s = k → k_slots k !! slot = Some b → (∀ a s', core_skel s' = k → Q (Ok a) s') → wp (runtime_mut slot f) Q s.
Proof.
  intros Hk Hb HQ. apply wp_bind. eapply wp_expect_slot; [done..|]. intros x Hx Hxb. destruct (f (rs_runtime x)) as [rt a].
  apply wp_bind, wp_update, wp_ret, HQ. rewrite <-Hk. apply core_skel_slot_id. by rewrite Hx.
Qed.
Lemma wp_in_realm {A} c slot (f : Realm → Realm * A) y b (Q : result BrowserError A → BrowserCore → Prop) s k :
  core_skel s = k → k_contexts k !! c = Some y → k_slots k !! slot = Some b → (∀ a s', core_skel s' = k → Q (Ok a) s') →
  wp (in_realm c slot f) Q s.
Proof.
  intros Hk Hy Hb HQ. apply wp_bind. eapply wp_expect_context; [done..|]. intros x Hx Hxy.
  apply wp_bind. eapply wp_expect_slot; [done..|]. intros z Hz Hzb. apply wp_bind, wp_gets. cbn [id].
  destruct (f _) as [[[[rt page] store] m] a]. apply wp_bind, wp_update, wp_ret, HQ. rewrite <-Hk.
  set (s1 := set_runtime_slots _ s).
  assert (HA : core_skel s1 = core_skel s) by (apply core_skel_slot_id; by rewrite Hz).
  set (s2 := set_contexts _ s1).
  assert (HB : core_skel s2 = core_skel s).
  { unfold s2. rewrite (core_skel_context s1), HA. change (ctx_skel (set_page page x)) with (ctx_skel x).
    apply k_context_id. by rewrite skel_lookup, Hx. }
  by rewrite <-HB.
Qed.

(** Identifiers *)
Definition request_blind {A} (f : IdAllocator → IdAllocator * result BrowserError A) : Prop :=
  ∀ i, f (set_next_request 0 i) = (set_next_request 0 (f i).1, (f i).2).
Lemma ids_request_blind :
  request_blind ids_context ∧ request_blind ids_frame ∧ request_blind ids_navigation ∧ request_blind ids_document ∧
  request_blind ids_runtime.
Proof.
  unfold request_blind, ids_context, ids_frame, ids_navigation, ids_document, ids_runtime.
  repeat split; intros i; cbn; by destruct (next_typed_id _).
Qed.
Lemma wp_allocate_id {A} (f : IdAllocator → IdAllocator * result BrowserError A) (Q : result BrowserError A → BrowserCore → Prop) s k :
  request_blind f → core_skel s = k → (∀ s', core_skel s' = k_set_ids (f (k_ids k)).1 k → Q (f (k_ids k)).2 s') →
  wp (allocate_id f) Q s.
Proof.
  intros Hf <- HQ. unfold wp, allocate_id. destruct (f (ids s)) as [i r] eqn:E. pose proof (Hf (ids s)) as Hs. rewrite E in Hs.
  cbn [fst snd] in Hs. specialize (HQ (set_ids i s)). cbn [k_ids core_skel] in HQ. rewrite Hs in HQ. cbn [fst snd] in HQ.
  destruct r; by apply HQ.
Qed.
Lemma wp_allocate_request (Q : result BrowserError RequestId → BrowserCore → Prop) s k :
  core_skel s = k → (∀ r s', core_skel s' = k → Q r s') → wp (allocate_id ids_request) Q s.
Proof.
  intros Hk HQ. unfold wp, allocate_id, ids_request. destruct (shared_request_id _) as [m r].
  assert (Hs : ∀ r, Q r (set_ids {| next_context := next_context (ids s); next_frame := next_frame (ids s);
    next_navigation := next_navigation (ids s); next_document := next_document (ids s); next_request := m;
    next_runtime := next_runtime (ids s) |} s)) by (intros; by apply HQ).
  destruct r; apply Hs.
Qed.

(** The control block *)
Lemma wp_install_runtime c rt (Q : result BrowserError unit → BrowserCore → Prop) s k :
  core_skel s = k → (∀ s', core_skel s' = k_set_control (<[c := mjoin (k_control k !! c)]> (k_control k)) k → Q (Ok tt) s') →
  wp (install_runtime c rt) Q s.
Proof.
  intros <-. apply wp_update_to. unfold core_skel, k_set_control. cbn. f_equal. rewrite fmap_insert. f_equal. cbn.
  rewrite lookup_fmap. by destruct (control s !! c).
Qed.
Lemma wp_control_set_navigation c n (Q : result BrowserError unit → BrowserCore → Prop) s k :
  core_skel s = k → (∀ s', core_skel s' = k_set_control (alter (λ _, Some n) c (k_control k)) k → Q (Ok tt) s') →
  wp (control_set_navigation c n) Q s.
Proof.
  intros <-. apply wp_update_to. unfold core_skel, k_set_control. cbn. f_equal. apply map_eq. intros j.
  rewrite lookup_fmap, !lookup_alter. case_decide; subst; rewrite lookup_fmap; by destruct (control s !! j).
Qed.
Lemma wp_control_finish_navigation c n (Q : result BrowserError unit → BrowserCore → Prop) s k :
  core_skel s = k →
  (∀ s', core_skel s' = k_set_control (alter (λ o, if bool_decide (o = Some n) then None else o) c (k_control k)) k → Q (Ok tt) s') →
  wp (control_finish_navigation c n) Q s.
Proof.
  intros <-. apply wp_update_to. unfold core_skel, k_set_control. cbn. f_equal. apply map_eq. intros j.
  rewrite lookup_fmap, !lookup_alter. case_decide; subst; rewrite lookup_fmap; destruct (control s !! j); cbn; try done.
  by case_bool_decide.
Qed.
Lemma wp_control_remove_context c (Q : result BrowserError unit → BrowserCore → Prop) s k :
  core_skel s = k → (∀ s', core_skel s' = k_set_control (delete c (k_control k)) k → Q (Ok tt) s') →
  wp (control_remove_context c) Q s.
Proof. intros <-. apply wp_update_to. unfold core_skel, k_set_control. cbn. by rewrite fmap_delete. Qed.

(** Loads *)
Lemma wp_spawn_source c n url html baseline started (Q : result BrowserError positive → BrowserCore → Prop) s k :
  core_skel s = k → (∀ t s', core_skel s' = k_set_sources (<[t := (c, n)]> (k_sources k)) k → Q (Ok t) s') →
  wp (spawn (TaskSource c n url html baseline) started) Q s.
Proof.
  intros <- HQ. unfold wp, spawn. apply HQ. unfold core_skel, k_set_sources. cbn. f_equal. apply map_eq. intros j.
  rewrite lookup_insert, lookup_omap, lookup_insert, lookup_omap. by case_decide.
Qed.
Lemma wp_spawn_resource task started (Q : result BrowserError positive → BrowserCore → Prop) s k :
  source_token (task, started) = None → core_skel s = k →
  (∀ t s', core_skel s' = k_set_sources (delete t (k_sources k)) k → Q (Ok t) s') → wp (spawn task started) Q s.
Proof.
  intros Ht <- HQ. unfold wp, spawn. apply HQ. unfold core_skel, k_set_sources. cbn. f_equal. apply map_eq. intros j.
  rewrite lookup_delete, lookup_omap, lookup_insert, lookup_omap. case_decide; [done|]. by destruct (_ !! j).
Qed.
Lemma wp_stop_task t (Q : result BrowserError unit → BrowserCore → Prop) s k :
  core_skel s = k →
  (∀ s' src, (∀ j p, src !! j = Some p → k_sources k !! j = Some p) → core_skel s' = k_set_sources src k → Q (Ok tt) s') →
  wp (stop_task t) Q s.
Proof.
  intros <- HQ. destruct t as [t|].
  - apply wp_update. apply HQ with (src := delete t (k_sources (core_skel s))).
    + intros j p. rewrite lookup_delete. by case_decide.
    + unfold core_skel, k_set_sources. cbn. f_equal. apply map_eq. intros j.
      rewrite lookup_delete, lookup_omap, lookup_delete, lookup_omap. by case_decide.
  - apply wp_ret, HQ with (src := k_sources (core_skel s)); done.
Qed.
Lemma source_token_started t b : source_token (t.1, b) = source_token t.
Proof. done. Qed.
Lemma wp_start_pending_loads (Q : result BrowserError unit → BrowserCore → Prop) s k :
  core_skel s = k → (∀ s', core_skel s' = k → Q (Ok tt) s') → wp start_pending_loads Q s.
Proof.
  intros Hk. eapply wp_update_neutral; [exact Hk|]. unfold core_skel. cbn. f_equal.
  induction (pending_load_starts s) as [|t ts IH]; [done|]. cbn. rewrite <-IH. clear IH.
  generalize (foldr (alter (λ t0 : LoadTask * bool, (t0.1, true))) (tp_live (tasks s)) ts). intros live.
  apply map_eq. intros j. rewrite !lookup_omap, lookup_alter. case_decide; [subst|done]. by destruct (live !! _).
Qed.

(** Events *)
Lemma wp_emit_phase c f n p (Q : result BrowserError unit → BrowserCore → Prop) s k :
  core_skel s = k → (∀ s', core_skel s' = k_emit (NavigationPhaseChanged c f n p) k → Q (Ok tt) s') → wp (emit_phase c f n p) Q s.
Proof. apply wp_emit. Qed.
Lemma wp_emit_state c (Q : result BrowserError unit → BrowserCore → Prop) s k y :
  core_skel s = k → k_contexts k !! c = Some y →
  (∀ x s', ctx_skel x = y → core_skel s' = k_emit (BrowsingContextStateChanged (context_state c x)) k → Q (Ok tt) s') →
  wp (emit_state c) Q s.
Proof.
  intros Hk Hy HQ. apply wp_bind. eapply wp_context; [done..|]. intros x Hx Hxy. eapply wp_emit; [done|]. intros s' Hs'.
  by eapply HQ.
Qed.

Lemma current_navigation_Some c n s x a :
  current_navigation c n s = Some (x, a) ↔ contexts s !! c = Some x ∧ bc_active_navigation x = Some a ∧ an_navigation_id a = n.
Proof.
  unfold current_navigation. split.
  - intros (x' & Hx & Ha)%bind_Some. apply bind_Some in Ha as (a' & Ha & Hn). case_bool_decide; [|done]. by injection Hn as -> ->.
  - intros (-> & Ha & <-). cbn. rewrite Ha. cbn. by rewrite bool_decide_eq_true_2.
Qed.
Lemma current_skel c n s x a :
  current_navigation c n s = Some (x, a) →
  k_contexts (core_skel s) !! c = Some (ctx_skel x) ∧ cs_nav (ctx_skel x) = Some (nav_skel a) ∧ ns_id (nav_skel a) = n.
Proof. intros (Hx & Ha & Hn)%current_navigation_Some. rewrite skel_lookup, Hx. cbn. by rewrite Ha. Qed.
End rules.
End skel.
