(* ===== verification/BrowserNavFacts.v ===== *)
(** * The browser core: the invariant

    How the state of the core (its view, [Skel]) and what a consumer knows of it (the monitor)
    belong together while handlers run and messages are under way, and what the parts of a
    handler do to it: one lemma for a change of one context, and from it the steps of a
    navigation.  [BrowserHandlerFacts] applies them to the handlers. *)

From Stdlib Require Import Lia ZArith.
From stdpp Require Import base decidable gmap sets list strings.
From S2P Require Import Prelude.
From S2P Require Import BrowserApi.
From S2P Require Import BrowserChannel.
From S2P Require Import BrowserCore.
From S2P Require Import BrowserProtocol.
From S2P Require Import BrowserCoreFacts.

(** ** The invariant *)

Section inv.
Implicit Types (c : BrowsingContextId) (n : NavigationId) (k : Skel) (m : Monitor) (y : CtxSkel) (a : NavSkel) (v : ContextView).

(** What a counter hands out next is above what has been announced. *)
Definition fresh (counter last : N) : Prop := (counter ≤ u64_max ∧ (counter = 0 ∨ last < counter))%N.

(** While a handler has taken the work of a navigation, the context and the stage at which it
    is are known: the hole of the invariant. *)
Abbreviation Hole := (option (BrowsingContextId * NavStage)).
Definition hole_of (o : Hole) c : option NavStage :=
  match o with Some (c', h) => if bool_decide (c' = c) then Some h else None | None => None end.

Definition nav_fits (h : option NavStage) (a : NavSkel) (at_ : NavStage) : Prop :=
  match h with
  | Some h => ns_work a = None ∧ ns_pending a = 0 ∧ at_ = h ∧ h ≠ AtRequest
  | None =>
      match ns_work a, ns_pending a with
      | Some st, 0 => at_ = st ∧ st ≠ AtRequest
      | None, 1 => at_ = AtSubresources
      | None, 0 => at_ = AtRequest ∨ at_ = AtLoadEvent
      | _, _ => False
      end
  end ∧ resting at_ = true.
Definition view_fits (h : option NavStage) (y : CtxSkel) (v : ContextView) : Prop :=
  v_frame v = cs_frame y ∧ v_document v = cs_document y ∧ v_runtime v = cs_runtime y ∧
  match cs_nav y, v_stage v with
  | None, Idle => True
  | Some a, Navigating n r at_ => n = ns_id a ∧ r = Some (ns_request a) ∧ nav_fits h a at_
  | _, _ => False
  end.

(** [P] are the navigations whose source has sent messages that wait in the mailbox, [L] those
    of them whose source is complete. *)
Abbreviation Tokens := (BrowsingContextId → NavigationId → Prop).
Definition outstanding (P : Tokens) k c n : Prop := P c n ∨ ∃ t, k_sources k !! t = Some (c, n).
Definition at_request m c n : Prop :=
  ∀ v r at_, m_contexts m !! c = Some v → v_stage v = Navigating n r at_ → at_ = AtRequest.

Record Rel (P L : Tokens) (o : Hole) k m : Prop := {
  r_view c : match k_contexts k !! c, m_contexts m !! c with
             | Some y, Some v => view_fits (hole_of o c) y v
             | None, None => True
             | _, _ => False
             end;
  r_closed : k_closed k = m_closed m;
  r_gone c : c ∈ k_closed k → (Npos c ≤ m_context m)%N ∧ k_contexts k !! c = None;
  r_known c : is_Some (k_contexts k !! c) → (Npos c ≤ m_context m)%N;
  r_active : k_active k = m_active m;
  r_focus : match k_active k with Some c => is_Some (k_contexts k !! c) | None => k_contexts k = ∅ end;
  r_slot c y : k_contexts k !! c = Some y → k_slots k !! cs_slot y = Some true;
  r_slots c c' y y' : k_contexts k !! c = Some y → k_contexts k !! c' = Some y' → cs_slot y = cs_slot y' → c = c';
  r_control : k_control k = (λ y, ns_id <$> cs_nav y) <$> k_contexts k;
  r_size : (N.of_nat (size (k_contexts k)) ≤ k_max k)%N;
  r_ids : fresh (next_context (k_ids k)) (m_context m) ∧ fresh (next_navigation (k_ids k)) (m_navigation m) ∧
          fresh (next_document (k_ids k)) (m_document m) ∧ fresh (next_runtime (k_ids k)) (m_runtime m);
  r_nav c y a : k_contexts k !! c = Some y → cs_nav y = Some a → (Npos (ns_id a) ≤ m_navigation m)%N;
  r_nodup : NoDup (k_queue k);
  r_bound c n : (c, n) ∈ k_queue k → (Npos n ≤ m_navigation m)%N;
  r_queue c y a : k_contexts k !! c = Some y → cs_nav y = Some a → is_Some (ns_work a) ↔ (c, ns_id a) ∈ k_queue k;
  r_token c n : outstanding P k c n → (Npos n ≤ m_navigation m)%N ∧ at_request m c n;
  r_source t c n : k_sources k !! t = Some (c, n) → ¬ L c n;
  r_unique t t' p : k_sources k !! t = Some p → k_sources k !! t' = Some p → t = t';
  r_loaded c n : L c n → P c n;
}.
Arguments r_view {P L o k m}. Arguments r_closed {P L o k m}. Arguments r_gone {P L o k m}. Arguments r_known {P L o k m}.
Arguments r_active {P L o k m}. Arguments r_focus {P L o k m}. Arguments r_slot {P L o k m}. Arguments r_slots {P L o k m}.
Arguments r_control {P L o k m}. Arguments r_size {P L o k m}. Arguments r_ids {P L o k m}. Arguments r_nav {P L o k m}.
Arguments r_nodup {P L o k m}. Arguments r_bound {P L o k m}. Arguments r_queue {P L o k m}. Arguments r_token {P L o k m}.
Arguments r_source {P L o k m}. Arguments r_unique {P L o k m}. Arguments r_loaded {P L o k m}.

(** The core says what the events said. *)
Definition Inv (P L : Tokens) (o : Hole) k : Prop := ∃ m, k_monitor k = Some m ∧ Rel P L o k m.

(** ** What follows from it *)

Lemma Rel_view P L o k m c y :
  Rel P L o k m → k_contexts k !! c = Some y → ∃ v, m_contexts m !! c = Some v ∧ view_fits (hole_of o c) y v.
Proof. intros R Hy. pose proof (r_view R c) as Hv. rewrite Hy in Hv. destruct (m_contexts m !! c) as [v|]; [eauto|done]. Qed.
Lemma Rel_view_inv P L o k m c v :
  Rel P L o k m → m_contexts m !! c = Some v → ∃ y, k_contexts k !! c = Some y ∧ view_fits (hole_of o c) y v.
Proof. intros R Hy. pose proof (r_view R c) as Hv. rewrite Hy in Hv. destruct (k_contexts k !! c) as [y|]; [eauto|done]. Qed.
Lemma view_fits_nav h y v a :
  view_fits h y v → cs_nav y = Some a →
  ∃ at_, v_stage v = Navigating (ns_id a) (Some (ns_request a)) at_ ∧ nav_fits h a at_.
Proof. intros (_ & _ & _ & H) Ha. rewrite Ha in H. destruct (v_stage v) as [|n r at_| |]; try done. destruct H as (-> & -> & H). eauto. Qed.
Lemma view_fits_quiet h y v : view_fits h y v → quiet (v_stage v) = true.
Proof.
  intros (_ & _ & _ & H). destruct (cs_nav y) as [a|], (v_stage v) as [|n r at_| |]; try done. by destruct H as (_ & _ & _ & H).
Qed.
Lemma view_fits_active h y v : view_fits h y v → active_of (v_stage v) = ns_id <$> cs_nav y.
Proof. intros (_ & _ & _ & H). destruct (cs_nav y) as [a|], (v_stage v) as [|n r at_| |]; try done. by destruct H as (-> & _). Qed.
Lemma hole_of_self c h : hole_of (Some (c, h)) c = Some h.
Proof. cbn. by rewrite bool_decide_eq_true_2. Qed.
Lemma hole_of_other c c' h : c' ≠ c → hole_of (Some (c, h)) c' = None.
Proof. intros Hc. cbn. by rewrite bool_decide_eq_false_2. Qed.

Lemma Rel_dom P L o k m : Rel P L o k m → m_contexts m = ∅ ↔ k_contexts k = ∅.
Proof.
  intros R. split; intros E; apply map_eq; intros c; pose proof (r_view R c) as H; rewrite E, ?lookup_empty in *;
    by repeat case_match.
Qed.

(** The parts of the view that the invariant reads *)
Lemma Rel_ext P L o k k' m :
  k_ids k = k_ids k' → k_contexts k = k_contexts k' → k_slots k = k_slots k' → k_closed k = k_closed k' →
  k_active k = k_active k' → k_max k = k_max k' → k_control k = k_control k' → k_sources k = k_sources k' →
  k_queue k = k_queue k' → Rel P L o k m → Rel P L o k' m.
Proof.
  intros Hi Hc Hs Hcl Ha Hm Hct Hso Hq R. split; unfold outstanding; rewrite <-?Hi, <-?Hc, <-?Hs, <-?Hcl, <-?Ha, <-?Hm, <-?Hct, <-?Hso, <-?Hq;
    first [apply R|by eapply R].
Qed.
Lemma Rel_tokens P P' L L' o k m :
  (∀ c n, P' c n → P c n) → (∀ c n, L' c n → L c n) → (∀ c n, L' c n → P' c n) → Rel P L o k m → Rel P' L' o k m.
Proof.
  intros HP HL HPL R. split; try apply R.
  - intros c n [H|H]; apply (r_token R); [left; auto|by right].
  - intros t c n H HLc. by eapply (r_source R), HL.
  - done.
Qed.
(** Loads that end *)
Lemma Rel_sources P L o k m src :
  (∀ t p, src !! t = Some p → k_sources k !! t = Some p) → Rel P L o k m → Rel P L o (k_set_sources src k) m.
Proof.
  intros Hs R. split; try apply R.
  - intros c n [H|(t & H)]; apply (r_token R); [by left|right; exists t; by apply Hs].
  - intros t c n H. by eapply (r_source R), Hs.
  - intros t t' p H H'. by eapply (r_unique R); apply Hs.
Qed.

(** ** A change of one context *)

Lemma Rel_change P L o o' k m c y v y' v' k' m' :
  Rel P L o k m → k_contexts k !! c = Some y → m_contexts m !! c = Some v →
  k_contexts k' = <[c := y']> (k_contexts k) → m_contexts m' = <[c := v']> (m_contexts m) →
  k_closed k' = k_closed k → k_active k' = k_active k → k_max k' = k_max k →
  m_closed m' = m_closed m → m_active m' = m_active m → m_context m' = m_context m →
  k_control k' = <[c := ns_id <$> cs_nav y']> (k_control k) →
  view_fits (hole_of o' c) y' v' → (∀ c', c' ≠ c → hole_of o' c' = hole_of o c') →
  k_slots k' !! cs_slot y' = Some true →
  (∀ c' x, c' ≠ c → k_contexts k !! c' = Some x → cs_slot x ≠ cs_slot y' ∧ k_slots k' !! cs_slot x = Some true) →
  fresh (next_context (k_ids k')) (m_context m) ∧ fresh (next_navigation (k_ids k')) (m_navigation m') ∧
    fresh (next_document (k_ids k')) (m_document m') ∧ fresh (next_runtime (k_ids k')) (m_runtime m') →
  (m_navigation m ≤ m_navigation m')%N →
  (∀ a, cs_nav y' = Some a → (Npos (ns_id a) ≤ m_navigation m')%N) →
  NoDup (k_queue k') →
  (∀ p, p ∈ k_queue k' → p ∈ k_queue k ∨ ∃ a, cs_nav y' = Some a ∧ p = (c, ns_id a)) →
  (∀ c' n, c' ≠ c → (c', n) ∈ k_queue k → (c', n) ∈ k_queue k') →
  (∀ a, cs_nav y' = Some a → is_Some (ns_work a) ↔ (c, ns_id a) ∈ k_queue k') →
  (∀ n r at_, v_stage v' = Navigating n r at_ → at_ = AtRequest ∨ ¬ outstanding P k' c n) →
  (∀ t p, k_sources k' !! t = Some p →
     k_sources k !! t = Some p ∨ (m_navigation m < Npos p.2 ≤ m_navigation m')%N) →
  (∀ t t' p, k_sources k' !! t = Some p → k_sources k' !! t' = Some p → t = t') →
  Rel P L o' k' m'.
Proof.
  intros R Hy Hv Hcs Hms Hcl Hact Hmax Hmcl Hmact Hmc Hctl Hfits Hhole Hslot Hslots Hids Hle Hnav Hnd Hq1 Hq2 Hq3 Htok Hsrc Huniq.
  assert (Hbound : ∀ c n, outstanding P k' c n → (Npos n ≤ m_navigation m')%N).
  { intros c' n [H|(t & H)]; [destruct (r_token R c' n) as [HA _]; [by left|lia]|].
    destruct (Hsrc _ _ H) as [H'|H']; [|cbn in H'; lia]. destruct (r_token R c' n) as [HA _]; [right; eauto|lia]. }
  split; rewrite ?Hcs, ?Hms, ?Hcl, ?Hact, ?Hmax, ?Hmcl, ?Hmact, ?Hmc, ?Hctl.
  - intros c'. rewrite !lookup_insert. case_decide as E; [by subst|]. rewrite Hhole by done. apply R.
  - apply R.
  - intros c' Hc'. destruct (r_gone R c' Hc') as [HA HB]. split; [done|]. rewrite lookup_insert. case_decide as E; [|done].
    subst. by rewrite Hy in HB.
  - intros c'. rewrite lookup_insert. case_decide as E; [subst; intros _|]; apply (r_known R); by rewrite ?Hy.
  - apply R.
  - pose proof (r_focus R) as HF. destruct (k_active k) as [c'|].
    + rewrite lookup_insert. case_decide; [by eexists|done].
    + rewrite HF, lookup_empty in Hy. done.
  - intros c' x. rewrite lookup_insert. case_decide as E; [intros [= <-]; done|]. intros Hx. by apply (Hslots c').
  - intros c' c'' x x'. rewrite !lookup_insert. case_decide as E; case_decide as E'; subst; try done.
    + intros [= <-] Hx Heq. by destruct (Hslots _ _ (not_eq_sym E') Hx).
    + intros Hx [= <-] Heq. by destruct (Hslots _ _ (not_eq_sym E) Hx).
    + apply R.
  - rewrite (r_control R), fmap_insert. done.
  - rewrite map_size_insert, Hy. apply R.
  - done.
  - intros c' x a. rewrite lookup_insert. case_decide; [intros [= <-]; apply Hnav|].
    intros Hx Ha. pose proof (r_nav R _ _ _ Hx Ha). lia.
  - done.
  - intros c' n [H|(a & Ha & [= -> ->])]%Hq1; [apply (r_bound R) in H; lia|by apply Hnav].
  - intros c' x a. rewrite lookup_insert. case_decide as E; [subst; intros [= <-]; apply Hq3|].
    intros Hx Ha. rewrite (r_queue R _ _ _ Hx Ha). split; [by apply Hq2|].
    intros [H|(b & _ & [= -> _])]%Hq1; done.
  - intros c' n Ho. split; [by eapply Hbound|]. intros w r at_. rewrite Hms, lookup_insert. case_decide as E.
    + subst c'. intros [= <-] Hs. by destruct (Htok _ _ _ Hs).
    + intros Hw Hs. destruct Ho as [H|(t & H)]; [by eapply (r_token R); [left| |]|].
      destruct (Hsrc _ _ H) as [H'|H']; [by eapply (r_token R); [right; eexists| |]|]. cbn in H'.
      destruct (Rel_view_inv _ _ _ _ _ _ _ R Hw) as (x & Hx & Hf). apply view_fits_active in Hf. rewrite Hs in Hf.
      symmetry in Hf. apply fmap_Some in Hf as (b & Hb & ->). pose proof (r_nav R _ _ _ Hx Hb). lia.
  - intros t c' n H HL. destruct (Hsrc _ _ H) as [H'|H']; [by eapply (r_source R)|]. cbn in H'.
    apply (r_loaded R) in HL. destruct (r_token R c' n) as [HA _]; [by left|lia].
  - done.
  - apply R.
Qed.

(** ** The steps of a navigation *)

Lemma put_view_id c v m : m_contexts m !! c = Some v → put_view c (at_stage (v_stage v) v) m = m.
Proof.
  intros Hv. unfold put_view. replace (at_stage (v_stage v) v) with v by by destruct v. rewrite insert_id by done. by destruct m.
Qed.
Lemma put_view_twice c v w m : put_view c w (put_view c v m) = put_view c w m.
Proof. unfold put_view. cbn. by rewrite insert_insert_eq. Qed.
Lemma at_stage_twice s s' v : at_stage s (at_stage s' v) = at_stage s v.
Proof. done. Qed.
Lemma control_id P L o k m c y : Rel P L o k m → k_contexts k !! c = Some y → <[c := ns_id <$> cs_nav y]> (k_control k) = k_control k.
Proof. intros R Hy. apply insert_id. rewrite (r_control R), lookup_fmap, Hy. done. Qed.
Lemma not_outstanding P L o k m c y a v at_ :
  Rel P L o k m → m_contexts m !! c = Some v → k_contexts k !! c = Some y → cs_nav y = Some a →
  v_stage v = Navigating (ns_id a) (Some (ns_request a)) at_ → at_ ≠ AtRequest → ¬ outstanding P k c (ns_id a).
Proof. intros R Hv Hy Ha Hs Hat Ho. by destruct (r_token R _ _ Ho) as [_ H]; apply Hat, (H _ _ _ Hv Hs). Qed.

(** A navigation goes to another stage, or to other work. *)
Lemma Rel_nav P L o o' k m c y a a' v at' q :
  Rel P L o k m → k_contexts k !! c = Some y → cs_nav y = Some a → m_contexts m !! c = Some v →
  ns_id a' = ns_id a → nav_fits (hole_of o' c) a' at' → (∀ c', c' ≠ c → hole_of o' c' = hole_of o c') →
  (at' = AtRequest ∨ ¬ outstanding P k c (ns_id a)) →
  NoDup q → (∀ p, p ≠ (c, ns_id a) → p ∈ q ↔ p ∈ k_queue k) → (is_Some (ns_work a') ↔ (c, ns_id a) ∈ q) →
  Rel P L o' (k_set_queue q (k_context c (cs_set_nav (Some a') y) k))
    (put_view c (at_stage (Navigating (ns_id a) (Some (ns_request a')) at') v) m).
Proof.
  intros R Hy Ha Hv Hid Hfits Hhole Htok Hnd Hq Hw.
  destruct (Rel_view _ _ _ _ _ _ _ R Hy) as (v' & Hv' & Hf). rewrite Hv in Hv'. injection Hv' as <-.
  eapply (Rel_change P L o o' k m c y v); [exact R|exact Hy|exact Hv|reflexivity..| | | | | | | | | | | | | | |].
  - cbn. rewrite Hid. pose proof (control_id _ _ _ _ _ _ _ R Hy) as Hc. rewrite Ha in Hc. by rewrite <-Hc at 1.
  - destruct Hf as (HA & HB & HC & _). repeat split; cbn; try done. all: apply Hfits.
  - done.
  - cbn. by apply (r_slot R c).
  - intros c' x Hne Hx. split; [|by apply (r_slot R c')]. cbn. intros E. by apply Hne, (r_slots R c' c x y).
  - apply R.
  - cbn. lia.
  - cbn. intros b [= <-]. rewrite Hid. by eapply (r_nav R).
  - done.
  - cbn. intros p Hp. destruct (decide (p = (c, ns_id a))) as [->|Hne]; [right; exists a'; by rewrite Hid|]. left. by apply Hq.
  - cbn. intros c' n Hne Hin. apply Hq; [congruence|done].
  - cbn. intros b [= <-]. by rewrite Hid.
  - cbn. intros n r at_ [= <- _ <-]. destruct Htok; auto.
  - cbn. auto.
  - cbn. apply R.
Qed.

Lemma NoDup_snoc {A} (l : list A) x : NoDup l → x ∉ l → NoDup (l ++ [x]).
Proof. intros Hl Hx. apply NoDup_app. split; [done|]. split; [|apply NoDup_singleton]. intros y Hy ->%list_elem_of_singleton. done. Qed.
Lemma in_snoc {A} (l : list A) x p : p ≠ x → p ∈ l ++ [x] ↔ p ∈ l.
Proof. intros Hp. rewrite elem_of_app, list_elem_of_singleton. naive_solver. Qed.
Lemma in_snoc_self {A} (l : list A) x : x ∈ l ++ [x].
Proof. rewrite elem_of_app, list_elem_of_singleton. by right. Qed.

Section steps.
Context (P L : Tokens) (k : Skel) (m : Monitor) (c : BrowsingContextId) (y : CtxSkel) (a : NavSkel).
Hypothesis (Hy : k_contexts k !! c = Some y) (Ha : cs_nav y = Some a).

(** The work is taken off the queue. *)
Lemma Rel_take st rest :
  Rel P L None k m → ns_work a = Some st → k_queue k = (c, ns_id a) :: rest →
  Rel P L (Some (c, st)) (k_set_queue rest (k_context c (cs_set_nav (Some (ns_set_work None a)) y) k)) m.
Proof.
  intros R Hw Hq. destruct (Rel_view _ _ _ _ _ _ _ R Hy) as (v & Hv & Hf). destruct (view_fits_nav _ _ _ _ Hf Ha) as (at_ & Hs & Hn).
  unfold nav_fits in Hn; cbn in Hn. rewrite Hw in Hn. destruct (ns_pending a) eqn:Hp; [|by destruct Hn]. destruct Hn as [[-> Hne] Hr].
  pose proof (r_nodup R) as Hnd. rewrite Hq in Hnd. apply NoDup_cons in Hnd as [Hnin Hnd].
  rewrite <-(put_view_id c v m Hv), Hs.
  apply (Rel_nav P L None (Some (c, st)) k m c y a (ns_set_work None a) v st rest R Hy Ha Hv).
  - done.
  - rewrite hole_of_self. by repeat split.
  - intros c' Hc. by apply hole_of_other.
  - right. by eapply not_outstanding.
  - done.
  - intros p Hp'. rewrite Hq, elem_of_cons. naive_solver.
  - cbn. rewrite is_Some_alt. done.
Qed.

(** It is put back, with what is now to do. *)
Lemma Rel_restore st :
  Rel P L (Some (c, st)) k m →
  Rel P L None (k_set_queue (k_queue k ++ [(c, ns_id a)]) (k_context c (cs_set_nav (Some (ns_set_work (Some st) a)) y) k)) m.
Proof.
  intros R. destruct (Rel_view _ _ _ _ _ _ _ R Hy) as (v & Hv & Hf). destruct (view_fits_nav _ _ _ _ Hf Ha) as (at_ & Hs & Hn).
  rewrite hole_of_self in Hn. destruct Hn as ((Hw & Hp & -> & Hne) & Hr).
  assert (Hnin : (c, ns_id a) ∉ k_queue k).
  { rewrite <-(r_queue R _ _ _ Hy Ha), Hw. by intros []. }
  rewrite <-(put_view_id c v m Hv), Hs.
  apply (Rel_nav P L (Some (c, st)) None k m c y a (ns_set_work (Some st) a) v st _ R Hy Ha Hv).
  - done.
  - unfold nav_fits; cbn. by rewrite Hp.
  - intros c' Hc. by rewrite hole_of_other.
  - right. by eapply not_outstanding.
  - by apply NoDup_snoc; [apply R|].
  - intros p Hp'. by apply in_snoc.
  - cbn. split; [intros _; apply in_snoc_self|by eexists].
Qed.

(** A load is started, and is over. *)
Lemma Rel_wait :
  Rel P L (Some (c, AtSubresources)) k m → Rel P L None (k_context c (cs_set_nav (Some (ns_set_pending 1 a)) y) k) m.
Proof.
  intros R. destruct (Rel_view _ _ _ _ _ _ _ R Hy) as (v & Hv & Hf). destruct (view_fits_nav _ _ _ _ Hf Ha) as (at_ & Hs & Hn).
  rewrite hole_of_self in Hn. destruct Hn as ((Hw & Hp & -> & Hne) & Hr).
  rewrite <-(put_view_id c v m Hv), Hs.
  apply (Rel_nav P L (Some (c, AtSubresources)) None k m c y a (ns_set_pending 1 a) v AtSubresources (k_queue k) R Hy Ha Hv).
  - done.
  - unfold nav_fits; cbn. by rewrite Hw.
  - intros c' Hc. by rewrite hole_of_other.
  - right. by eapply not_outstanding.
  - apply R.
  - done.
  - apply (r_queue R _ _ _ Hy Ha).
Qed.
Lemma Rel_resume :
  Rel P L None k m → ns_pending a ≠ 0 →
  ns_pending a = 1 ∧ Rel P L (Some (c, AtSubresources)) (k_context c (cs_set_nav (Some (ns_set_pending 0 a)) y) k) m.
Proof.
  intros R Hp. destruct (Rel_view _ _ _ _ _ _ _ R Hy) as (v & Hv & Hf). destruct (view_fits_nav _ _ _ _ Hf Ha) as (at_ & Hs & Hn).
  unfold nav_fits in Hn; cbn in Hn. destruct Hn as [Hn Hr]. destruct (ns_work a) eqn:Hw; [by destruct (ns_pending a)|].
  destruct (ns_pending a) as [|[|?]] eqn:E; try done. subst at_. split; [done|].
  rewrite <-(put_view_id c v m Hv), Hs.
  apply (Rel_nav P L None (Some (c, AtSubresources)) k m c y a (ns_set_pending 0 a) v AtSubresources (k_queue k) R Hy Ha Hv).
  - done.
  - rewrite hole_of_self. by repeat split.
  - intros c' Hc. by rewrite hole_of_other.
  - right. by eapply not_outstanding.
  - apply R.
  - done.
  - apply (r_queue R _ _ _ Hy Ha).
Qed.

(** The next stage *)
Lemma Rel_advance h at' v :
  Rel P L (Some (c, h)) k m → m_contexts m !! c = Some v → at' ≠ AtRequest → resting at' = true →
  Rel P L (Some (c, at')) k (put_view c (at_stage (Navigating (ns_id a) (Some (ns_request a)) at') v) m).
Proof.
  intros R Hv Hh Hr'. destruct (Rel_view _ _ _ _ _ _ _ R Hy) as (v' & Hv' & Hf). rewrite Hv in Hv'. injection Hv' as <-.
  destruct (view_fits_nav _ _ _ _ Hf Ha) as (at_ & Hs & Hn).
  rewrite hole_of_self in Hn. destruct Hn as ((Hw & Hp & -> & Hne) & Hr).
  apply (Rel_ext P L _ (k_set_queue (k_queue k) (k_context c (cs_set_nav (Some a) y) k)) k); [reflexivity| |reflexivity..|]; last first.
  - apply (Rel_nav P L (Some (c, h)) (Some (c, at')) k m c y a a v at' (k_queue k) R Hy Ha Hv).
    + done.
    + rewrite hole_of_self. by repeat split.
    + intros c' Hc. by rewrite !hole_of_other.
    + right. by eapply not_outstanding.
    + apply R.
    + done.
    + apply (r_queue R _ _ _ Hy Ha).
  - cbn. apply insert_id. rewrite Hy. f_equal. destruct y as [? ? ? ? nv]. cbn in *. by rewrite Ha.
Qed.

(** A navigation that is left at its last stage *)
Lemma Rel_leave : Rel P L (Some (c, AtLoadEvent)) k m → Rel P L None k m.
Proof.
  intros R. split; try apply R. intros j. pose proof (r_view R j) as Hj.
  destruct (k_contexts k !! j) as [x|] eqn:Hx, (m_contexts m !! j) as [v|] eqn:Hv; try done.
  destruct (decide (j = c)) as [->|Hne]; [|by rewrite hole_of_other in Hj].
  rewrite Hy in Hx. injection Hx as <-. rewrite hole_of_self in Hj. destruct Hj as (HA & HB & HC & Hn). repeat split; try done.
  rewrite Ha in *. destruct (v_stage v) as [|n r at_| |]; try done. destruct Hn as (-> & -> & (Hw & Hp & -> & _) & Hr).
  repeat split; try done. rewrite Hw, Hp. by right.
Qed.

(** A redirect changes the request. *)
Lemma Rel_request v r :
  Rel P L None k m → m_contexts m !! c = Some v → at_request m c (ns_id a) →
  Rel P L None (k_context c (cs_set_nav (Some (ns_set_request r a)) y) k)
    (put_view c (at_stage (Navigating (ns_id a) (Some r) AtRequest) v) m).
Proof.
  intros R Hv Hat. destruct (Rel_view _ _ _ _ _ _ _ R Hy) as (v' & Hv' & Hf). rewrite Hv in Hv'. injection Hv' as <-.
  destruct (view_fits_nav _ _ _ _ Hf Ha) as (at_ & Hs & Hn). rewrite (Hat _ _ _ Hv Hs) in Hn.
  apply (Rel_nav P L None None k m c y a (ns_set_request r a) v AtRequest (k_queue k) R Hy Ha Hv).
  - done.
  - exact Hn.
  - done.
  - by left.
  - apply R.
  - done.
  - apply (r_queue R _ _ _ Hy Ha).
Qed.

(** The source has arrived. *)
Lemma Rel_parse v :
  Rel P L None k m → m_contexts m !! c = Some v → v_stage v = Navigating (ns_id a) (Some (ns_request a)) AtRequest →
  ¬ outstanding P k c (ns_id a) →
  Rel P L None (k_set_queue (k_queue k ++ [(c, ns_id a)]) (k_context c (cs_set_nav (Some (ns_set_work (Some AtParse) a)) y) k))
    (put_view c (at_stage (Navigating (ns_id a) (Some (ns_request a)) AtParse) v) m).
Proof.
  intros R Hv Hs Ho. destruct (Rel_view _ _ _ _ _ _ _ R Hy) as (v' & Hv' & Hf). rewrite Hv in Hv'. injection Hv' as <-.
  destruct (view_fits_nav _ _ _ _ Hf Ha) as (at_ & Hs' & Hn). rewrite Hs in Hs'. injection Hs' as <-.
  unfold nav_fits in Hn; cbn in Hn. destruct Hn as [Hn _].
  destruct (ns_work a) as [st|] eqn:Hw; [destruct (ns_pending a); [|done]; by destruct Hn as [<- []]|].
  destruct (ns_pending a) as [|[|?]] eqn:Hp; [|done..].
  assert (Hnin : (c, ns_id a) ∉ k_queue k).
  { rewrite <-(r_queue R _ _ _ Hy Ha), Hw. by intros []. }
  apply (Rel_nav P L None None k m c y a (ns_set_work (Some AtParse) a) v AtParse _ R Hy Ha Hv).
  - done.
  - unfold nav_fits; cbn. by rewrite Hp.
  - done.
  - by right.
  - by apply NoDup_snoc; [apply R|].
  - intros p Hp'. by apply in_snoc.
  - cbn. split; [intros _; apply in_snoc_self|by eexists].
Qed.
End steps.

(** ** Identifiers *)

Lemma fresh_next counter last i r :
  fresh counter last → next_typed_id counter = (i, r) →
  fresh i last ∧ ∀ id, r = Ok id → (last < Npos id)%N ∧ fresh i (Npos id).
Proof.
  intros [Hmax Hc] E. destruct r as [id|e].
  - destruct (next_typed_id_Ok _ _ _ Hmax E) as (-> & _ & _ & _ & Hi & Hstep). unfold fresh.
    split; [split; [done|lia]|]. intros id' [= <-]. split; [lia|split; [done|lia]].
  - apply next_typed_id_Err in E as [-> ->]. split; [split; [done|by left]|done].
Qed.
Lemma fresh_le counter last last' : fresh counter last → (last' ≤ last)%N → fresh counter last'.
Proof. intros [HA HB] Hl. split; [done|lia]. Qed.
Definition ids_fresh (i : IdAllocator) m : Prop :=
  fresh (next_context i) (m_context m) ∧ fresh (next_navigation i) (m_navigation m) ∧
  fresh (next_document i) (m_document m) ∧ fresh (next_runtime i) (m_runtime m).
Lemma Rel_ids P L o k m i : ids_fresh i m → Rel P L o k m → Rel P L o (k_set_ids i k) m.
Proof. intros Hi R. split; first [exact Hi|apply R]. Qed.

(** ** The start and the end of a navigation *)

Lemma Rel_finish P L o k m c y a v :
  Rel P L o k m → k_contexts k !! c = Some y → cs_nav y = Some a → m_contexts m !! c = Some v →
  (∀ c', c' ≠ c → hole_of o c' = None) →
  Rel P L None (k_set_control (alter (λ x, if bool_decide (x = Some (ns_id a)) then None else x) c (k_control k))
                  (k_context c (cs_set_nav None y) k)) (put_view c (at_stage Idle v) m).
Proof.
  intros R Hy Ha Hv Ho. destruct (Rel_view _ _ _ _ _ _ _ R Hy) as (v' & Hv' & Hf). rewrite Hv in Hv'. injection Hv' as <-.
  destruct Hf as (HA & HB & HC & _).
  eapply (Rel_change P L o None k m c y v); [exact R|exact Hy|exact Hv|reflexivity..| | | | | | | | | | | | | | |].
  - cbn. apply map_eq. intros j. rewrite lookup_alter, lookup_insert. case_decide as E; [subst j|done].
    rewrite (r_control R), lookup_fmap, Hy. cbn. by rewrite Ha, bool_decide_eq_true_2.
  - by repeat split.
  - intros c' Hne. by rewrite Ho.
  - cbn. by apply (r_slot R c).
  - intros c' x Hne Hx. split; [|by apply (r_slot R c')]. cbn. intros E. by apply Hne, (r_slots R c' c x y).
  - apply R.
  - cbn. lia.
  - done.
  - apply R.
  - by left.
  - done.
  - done.
  - done.
  - by left.
  - apply R.
Qed.

Definition begun (n : NavigationId) (r : RequestId) : NavSkel := {| ns_id := n; ns_request := r; ns_work := None; ns_pending := 0 |}.
Definition set_navigation_mark n m : Monitor :=
  {| m_contexts := m_contexts m; m_closed := m_closed m; m_active := m_active m; m_context := m_context m;
     m_document := m_document m; m_runtime := m_runtime m; m_navigation := Npos n |}.
Lemma Rel_begin P L k m c y v n r t :
  Rel P L None k m → k_contexts k !! c = Some y → cs_nav y = None → m_contexts m !! c = Some v →
  (m_navigation m < Npos n)%N → fresh (next_navigation (k_ids k)) (Npos n) →
  Rel P L None (k_set_sources (<[t := (c, n)]> (k_sources k)) (k_set_control (alter (λ _, Some n) c (k_control k))
                  (k_context c (cs_set_nav (Some (begun n r)) y) k)))
    (put_view c (at_stage (Navigating n (Some r) AtRequest) v) (set_navigation_mark n m)).
Proof.
  intros R Hy Ha Hv Hn Hi. destruct (Rel_view _ _ _ _ _ _ _ R Hy) as (v' & Hv' & Hf). rewrite Hv in Hv'. injection Hv' as <-.
  destruct Hf as (HA & HB & HC & _).
  assert (Hnew : ∀ t', k_sources k !! t' ≠ Some (c, n)).
  { intros t' Ht'. destruct (r_token R c n) as [Hb _]; [right; eauto|lia]. }
  eapply (Rel_change P L None None k m c y v); [exact R|exact Hy|exact Hv|reflexivity..| | | | | | | | | | | | | | |].
  - cbn. apply map_eq. intros j. rewrite lookup_alter, lookup_insert. case_decide as E; [subst j|done].
    rewrite (r_control R), lookup_fmap, Hy. done.
  - repeat split; cbn; auto.
  - done.
  - cbn. by apply (r_slot R c).
  - intros c' x Hne Hx. split; [|by apply (r_slot R c')]. cbn. intros E. by apply Hne, (r_slots R c' c x y).
  - destruct (r_ids R) as (I1 & I2 & I3 & I4). by repeat split; try apply I1; try apply I3; try apply I4; try apply Hi.
  - cbn. lia.
  - cbn. intros a [= <-]. cbn. lia.
  - apply R.
  - by left.
  - done.
  - cbn. intros a [= <-]. cbn. split; [by intros []|]. intros Hq%(r_bound R). lia.
  - cbn. intros ? ? ? [= <- _ <-]. by left.
  - cbn. intros t' p. rewrite lookup_insert. case_decide; [intros [= <-]; right; cbn; lia|by left].
  - cbn. intros t1 t2 p. rewrite !lookup_insert. case_decide; case_decide; subst; try done.
    + intros [= <-] H'. by destruct (Hnew _ H').
    + intros H' [= <-]. by destruct (Hnew _ H').
    + apply R.
Qed.

(** ** The new document of a navigation *)

Definition committed (y : CtxSkel) (a : NavSkel) d r slot : CtxSkel :=
  {| cs_frame := cs_frame y; cs_document := d; cs_runtime := r; cs_slot := slot; cs_nav := Some (ns_set_work (Some AtSubresources) a) |}.
Definition set_document_marks d r m : Monitor :=
  {| m_contexts := m_contexts m; m_closed := m_closed m; m_active := m_active m; m_context := m_context m;
     m_document := Npos d; m_runtime := Npos r; m_navigation := m_navigation m |}.
Definition commit_skel c y a d r k : Skel :=
  k_set_queue (k_queue k ++ [(c, ns_id a)]) (k_context c (committed y a d r (length (k_slots k)))
    (k_set_slots (<[cs_slot y := false]> (k_slots k ++ [true])) k)).
Definition committed_view (y : CtxSkel) (a : NavSkel) d r : ContextView :=
  {| v_frame := cs_frame y; v_document := d; v_runtime := r;
     v_stage := Navigating (ns_id a) (Some (ns_request a)) AtSubresources |}.
Lemma Rel_commit P L k m c y a d r :
  Rel P L (Some (c, AtParse)) k m → k_contexts k !! c = Some y → cs_nav y = Some a →
  (m_document m < Npos d)%N → (m_runtime m < Npos r)%N →
  fresh (next_document (k_ids k)) (Npos d) → fresh (next_runtime (k_ids k)) (Npos r) →
  Rel P L None (commit_skel c y a d r k) (put_view c (committed_view y a d r) (set_document_marks d r m)).
Proof.
  intros R Hy Ha Hd Hr Hid Hir. destruct (Rel_view _ _ _ _ _ _ _ R Hy) as (v & Hv & Hf).
  destruct (view_fits_nav _ _ _ _ Hf Ha) as (at_ & Hs & Hn). rewrite hole_of_self in Hn. destruct Hn as ((Hw & Hp & -> & _) & _).
  destruct Hf as (HA & HB & HC & _).
  assert (Hnin : (c, ns_id a) ∉ k_queue k).
  { rewrite <-(r_queue R _ _ _ Hy Ha), Hw. by intros []. }
  pose proof (lookup_lt_Some _ _ _ (r_slot R _ _ Hy)) as Hlt.
  eapply (Rel_change P L (Some (c, AtParse)) None k m c y v); [exact R|exact Hy|exact Hv|reflexivity..| | | | | | | | | | | | | | |].
  - cbn. pose proof (control_id _ _ _ _ _ _ _ R Hy) as Hc. rewrite Ha in Hc. by rewrite <-Hc at 1.
  - repeat split; cbn; try done. unfold nav_fits; cbn. by rewrite Hp.
  - intros c' Hc. by rewrite hole_of_other.
  - cbn. rewrite list_lookup_insert_ne by lia. rewrite lookup_app_r by lia. by rewrite Nat.sub_diag.
  - intros c' x Hne Hx. pose proof (r_slot R _ _ Hx) as Hsx. pose proof (lookup_lt_Some _ _ _ Hsx). cbn. split; [lia|].
    rewrite list_lookup_insert_ne; [by apply lookup_app_l_Some|]. intros E. by apply Hne, (r_slots R c' c x y).
  - destruct (r_ids R) as (I1 & I2 & I3 & I4). by repeat split; try apply I1; try apply I2; try apply Hid; try apply Hir.
  - cbn. lia.
  - cbn. intros b [= <-]. exact (r_nav R _ _ _ Hy Ha).
  - cbn. by apply NoDup_snoc; [apply R|].
  - cbn. intros p [Hp'|Hp'%list_elem_of_singleton]%elem_of_app; [by left|right]. eexists. split; [done|]. by rewrite Hp'.
  - cbn. intros c' n Hne Hin. apply elem_of_app. by left.
  - cbn. intros b [= <-]. cbn. split; [intros _; apply in_snoc_self|by eexists].
  - cbn. intros ? ? ? [= <- _ <-]. right. exact (not_outstanding _ _ _ _ _ _ _ _ _ _ R Hv Hy Ha Hs ltac:(done)).
  - by left.
  - apply R.
Qed.

(** An entry of the queue that means nothing any more *)
Lemma Rel_unqueue P L k m c n rest :
  Rel P L None k m → k_queue k = (c, n) :: rest →
  (∀ y a, k_contexts k !! c = Some y → cs_nav y = Some a → ns_id a ≠ n) → Rel P L None (k_set_queue rest k) m.
Proof.
  intros R Hq Hno. pose proof (r_nodup R) as Hnd. rewrite Hq in Hnd. apply NoDup_cons in Hnd as [_ Hnd].
  split; try apply R; cbn; [done| |].
  - intros c' n' Hin. apply (r_bound R c'). rewrite Hq. by apply list_elem_of_further.
  - intros c' y a Hy Ha. rewrite (r_queue R _ _ _ Hy Ha), Hq, elem_of_cons. split; [|by right].
    intros [[= -> Hn]|Hin]; [|done]. by destruct (Hno _ _ Hy Ha).
Qed.

(** ** Contexts *)

Lemma Rel_slots P L o k m slots :
  (∀ i, k_slots k !! i = Some true → slots !! i = Some true) → Rel P L o k m → Rel P L o (k_set_slots slots k) m.
Proof. intros Hs R. split; try apply R. intros c y Hy. cbn. by apply Hs, (r_slot R c). Qed.

Definition set_m_active x m : Monitor :=
  {| m_contexts := m_contexts m; m_closed := m_closed m; m_active := x; m_context := m_context m;
     m_document := m_document m; m_runtime := m_runtime m; m_navigation := m_navigation m |}.
Lemma Rel_active P L o k m x :
  match x with Some c => is_Some (k_contexts k !! c) | None => k_contexts k = ∅ end →
  Rel P L o k m → Rel P L o (k_set_active x k) (set_m_active x m).
Proof. intros Hx R. split; try apply R; done. Qed.

Definition created_monitor c v d r x m : Monitor :=
  {| m_contexts := <[c := v]> (m_contexts m); m_closed := m_closed m; m_active := x; m_context := Npos c;
     m_document := Npos d; m_runtime := Npos r; m_navigation := m_navigation m |}.
Definition new_context frame d r slot : CtxSkel :=
  {| cs_frame := frame; cs_document := d; cs_runtime := r; cs_slot := slot; cs_nav := None |}.
Definition new_view frame d r : ContextView := {| v_frame := frame; v_document := d; v_runtime := r; v_stage := Idle |}.
Definition create_skel c frame d r k : Skel :=
  k_set_active (Some (default c (k_active k))) (k_context c (new_context frame d r (length (k_slots k)))
    (k_set_control (<[c := None]> (k_control k)) (k_set_slots (k_slots k ++ [true]) k))).
Lemma Rel_create P L k m c frame d r :
  Rel P L None k m → (m_context m < Npos c)%N → (m_document m < Npos d)%N → (m_runtime m < Npos r)%N →
  fresh (next_context (k_ids k)) (Npos c) → fresh (next_document (k_ids k)) (Npos d) → fresh (next_runtime (k_ids k)) (Npos r) →
  (N.of_nat (size (k_contexts k)) < k_max k)%N →
  Rel P L None (create_skel c frame d r k) (created_monitor c (new_view frame d r) d r (Some (default c (k_active k))) m).
Proof.
  intros R Hc Hd Hr Ic Id Ir Hsize.
  assert (Hnc : k_contexts k !! c = None).
  { apply eq_None_not_Some. intros Hx%(r_known R). lia. }
  assert (Hnm : m_contexts m !! c = None).
  { pose proof (r_view R c) as Hv. rewrite Hnc in Hv. by destruct (m_contexts m !! c). }
  assert (Hold : ∀ j x, k_contexts k !! j = Some x → j ≠ c) by (intros j x Hj ->; congruence).
  split; cbn.
  - intros j. rewrite !lookup_insert. case_decide; [by repeat split|]. apply (r_view R).
  - apply R.
  - intros j Hj. destruct (r_gone R j Hj) as [HA HB]. split; [lia|]. rewrite lookup_insert_ne; [done|]. intros <-. lia.
  - intros j. rewrite lookup_insert. case_decide; [subst; lia|]. intros Hj%(r_known R). lia.
  - done.
  - pose proof (r_focus R) as HF. rewrite lookup_insert. case_decide; [by eexists|].
    destruct (k_active k); [done|by destruct H].
  - intros j x. rewrite lookup_insert. case_decide; [intros [= <-]; cbn|].
    + rewrite lookup_app_r by lia. by rewrite Nat.sub_diag.
    + intros Hx%(r_slot R). by apply lookup_app_l_Some.
  - intros j j' x x'. rewrite !lookup_insert. case_decide; case_decide; subst; try done.
    + intros [= <-] Hx%(r_slot R)%lookup_lt_Some. cbn. lia.
    + intros Hx%(r_slot R)%lookup_lt_Some [= <-]. cbn. lia.
    + apply R.
  - by rewrite (r_control R), fmap_insert.
  - rewrite map_size_insert_None by done. lia.
  - repeat split; try apply Ic; try apply Id; try apply Ir; apply (r_ids R).
  - intros j x a. rewrite lookup_insert. case_decide; [by intros [= <-]|]. apply (r_nav R).
  - apply R.
  - apply (r_bound R).
  - intros j x a. rewrite lookup_insert. case_decide; [by intros [= <-]|]. apply (r_queue R).
  - intros j n Ho. destruct (r_token R j n Ho) as [HA HB]. split; [done|]. intros v q at_. cbn. rewrite lookup_insert.
    case_decide; [by intros [= <-]|apply HB].
  - apply (r_source R).
  - apply (r_unique R).
  - apply (r_loaded R).
Qed.

Definition close_skel c y x k : Skel :=
  k_set_active x (k_set_closed ({[c]} ∪ k_closed k) (k_set_slots (<[cs_slot y := false]> (k_slots k))
    (k_set_control (delete c (k_control k)) (k_set_contexts (delete c (k_contexts k)) k)))).
Definition closed_monitor c x m : Monitor :=
  {| m_contexts := delete c (m_contexts m); m_closed := {[c]} ∪ m_closed m; m_active := x; m_context := m_context m;
     m_document := m_document m; m_runtime := m_runtime m; m_navigation := m_navigation m |}.
Lemma Rel_close P L k m c y x :
  Rel P L None k m → k_contexts k !! c = Some y →
  match x with Some j => is_Some (delete c (k_contexts k) !! j) | None => delete c (k_contexts k) = ∅ end →
  Rel P L None (close_skel c y x k) (closed_monitor c x m).
Proof.
  intros R Hy Hx. split; cbn.
  - intros j. rewrite !lookup_delete. case_decide; [done|]. apply (r_view R).
  - by rewrite (r_closed R).
  - intros j [->%elem_of_singleton|Hj]%elem_of_union.
    + split; [apply (r_known R); by rewrite Hy|]. apply lookup_delete_eq.
    + destruct (r_gone R j Hj) as [HA HB]. split; [done|]. rewrite lookup_delete. by case_decide.
  - intros j. rewrite lookup_delete. case_decide; [by intros []|]. apply (r_known R).
  - done.
  - done.
  - intros j w. rewrite lookup_delete. case_decide as E; [done|]. intros Hw. rewrite list_lookup_insert_ne; [by apply (r_slot R j)|].
    intros Hs. by apply E, (r_slots R c j y w).
  - intros j j' w w'. rewrite !lookup_delete. case_decide; [done|]. case_decide; [done|]. apply R.
  - by rewrite (r_control R), fmap_delete.
  - pose proof (r_size R). rewrite map_size_delete, Hy. cbn. lia.
  - apply R.
  - intros j w a. rewrite lookup_delete. case_decide; [done|]. apply (r_nav R).
  - apply R.
  - apply (r_bound R).
  - intros j w a. rewrite lookup_delete. case_decide; [done|]. apply (r_queue R).
  - intros j n Ho. destruct (r_token R j n Ho) as [HA HB]. split; [done|]. intros v q at_. cbn. rewrite lookup_delete.
    case_decide; [done|apply HB].
  - apply (r_source R).
  - apply (r_unique R).
  - apply (r_loaded R).
Qed.

(** ** Events that the monitor accepts *)

Lemma framed_step m e c f v s :
  monitor_step m e = ('(c, f) ← event_frame e; v ← m_contexts m !! c;
    if bool_decide (f = v_frame v) then s ← stage_step v e; Some (put_view c (at_stage s v) m) else None) →
  event_frame e = Some (c, f) → m_contexts m !! c = Some v → f = v_frame v → stage_step v e = Some s →
  monitor_step m e = Some (put_view c (at_stage s v) m).
Proof. intros -> -> Hv -> Hs. cbn. rewrite Hv. cbn. rewrite bool_decide_eq_true_2 by done. by rewrite Hs. Qed.

Lemma step_phase m c f v n r at_ p at' :
  m_contexts m !! c = Some v → f = v_frame v → v_stage v = Navigating n r at_ → phase_step at_ p = Some at' →
  monitor_step m (NavigationPhaseChanged c f n p) = Some (put_view c (at_stage (Navigating n r at') v) m).
Proof.
  intros Hv Hf Hs Hp. eapply framed_step; [reflexivity|reflexivity|exact Hv|exact Hf|]. cbn. rewrite Hs.
  destruct p; try (rewrite bool_decide_eq_true_2 by done; cbn [phase_step fmap option_fmap option_map] in *; by rewrite Hp).
  by destruct at_.
Qed.
Lemma step_settled m c f v n r :
  m_contexts m !! c = Some v → f = v_frame v → v_stage v = Navigating n r AtLoadEvent →
  monitor_step m (NavigationPhaseChanged c f n Settled) = Some (put_view c (at_stage Idle v) m).
Proof.
  intros Hv Hf Hs. eapply framed_step; [reflexivity|reflexivity|exact Hv|exact Hf|]. cbn. rewrite Hs. by rewrite bool_decide_eq_true_2.
Qed.
Lemma step_effects m c f d r v u e :
  m_contexts m !! c = Some v → f = v_frame v → d = v_document v → r = v_runtime v → quiet (v_stage v) = true →
  monitor_step m (EffectsEvent c f d r u e) = Some m.
Proof.
  intros Hv Hf Hd Hr Hq. rewrite <-(put_view_id c v m Hv) at 2.
  eapply framed_step; [reflexivity|reflexivity|exact Hv|exact Hf|]. cbn. rewrite Hq, bool_decide_eq_true_2 by done. by destruct (v_stage v).
Qed.
Lemma step_state m v x :
  m_contexts m !! bs_context_id x = Some v → state_fits v x = true →
  quiet (v_stage v) = true ∨ (∃ n r, v_stage v = Navigating n r AtIntent) →
  monitor_step m (BrowsingContextStateChanged x) = Some m.
Proof.
  intros Hv Hf Hq. cbn. rewrite Hv. cbn. rewrite Hf. cbn. destruct Hq as [->|(n & r & ->)]; done.
Qed.
End inv.
