(* ===== verification/BrowserHandlerFacts.v ===== *)
(** * The browser core: its handlers keep the invariant

    The handlers of [BrowserCore], [BrowserWork] and [BrowserCommands], from the end of a
    navigation to the dispatch of a command: none of them panics, and each leaves the state
    and the monitor as the invariant wants them. *)

From Stdlib Require Import Lia ZArith.
From stdpp Require Import base decidable gmap sets list strings.
From S2P Require Import Prelude.
From S2P Require Import RustFloat.
From S2P Require Import RustStr.
From S2P Require Import RenderModel.
From S2P Require Import SessionHistory.
From S2P Require Import Cookie.
From S2P Require Import Store.
From S2P Require Import WebStorage.
From S2P Require Import NetUrl.
From S2P Require Import HttpCache.
From S2P Require Import Network.
From S2P Require Import ProfileCookies.
From S2P Require Import BrowserApi.
From S2P Require Import BrowserChannel.
From S2P Require Import ExternalResource.
From S2P Require Import BrowserCore.
From S2P Require Import BrowserWork.
From S2P Require Import BrowserCommands.
From S2P Require Import BrowserProtocol.
From S2P Require Import BrowserCoreFacts.
From S2P Require Import BrowserNavFacts.

(** A relation that holds of a state holds of one whose view differs in the monitor only. *)
Ltac rel_ext R := match type of R with Rel _ _ _ ?k0 _ => eapply (Rel_ext _ _ _ k0); [reflexivity..|exact R] end.

#[local] Arguments lc_key {K}. #[local] Arguments lc_result {K}. #[local] Arguments lc_cookie_delta {K}.
#[local] Arguments ac_body {A}. #[local] Arguments ac_requested {A}. #[local] Arguments ac_response {A}.

Section handlers.
Context `{Platform, UrlPlatform, HttpDate, ErrorText, PageEngine, StorePlatform, RuntimeType} `{!ScriptEngine}.
Implicit Types (s : BrowserCore) (k : Skel) (c : BrowsingContextId) (n : NavigationId) (y : CtxSkel) (a : NavSkel) (v : ContextView).

Lemma k_set_monitor_id k m : k_monitor k = Some m → k_set_monitor (Some m) k = k.
Proof. destruct k. cbn. by intros ->. Qed.

(** ** Events that leave the monitor where it is *)

Lemma state_says c x v :
  v_frame v = bc_frame_id x → v_document v = bc_document_id x → v_runtime v = bc_runtime_context_id x →
  active_of (v_stage v) = ns_id <$> cs_nav (ctx_skel x) → state_fits v (context_state c x) = true.
Proof.
  intros HA HB HC Ha. unfold state_fits. rewrite Ha, HA, HB, HC. cbn. destruct (bc_active_navigation x) as [b|]; cbn;
    repeat (rewrite bool_decide_eq_true_2 by done; cbn); done.
Qed.
Lemma wp_state P L o m c y (Q : result BrowserError unit → BrowserCore → Prop) s k :
  core_skel s = k → k_monitor k = Some m → Rel P L o k m → k_contexts k !! c = Some y →
  (∀ s', core_skel s' = k → Q (Ok tt) s') → wp (emit_state c) Q s.
Proof.
  intros Hk Hm R Hy HQ. eapply wp_emit_state; [exact Hk|exact Hy|]. intros x s' Hx Hs'. apply HQ. rewrite Hs'.
  destruct (Rel_view _ _ _ _ _ _ _ R Hy) as (v & Hv & Hf).
  rewrite (k_emit_step k m _ m Hm); [by apply k_set_monitor_id|].
  eapply step_state; [exact Hv| |left; by eapply view_fits_quiet]. pose proof (view_fits_active _ _ _ Hf) as Ha.
  destruct Hf as (HA & HB & HC & _). rewrite <-Hx in *. by apply state_says.
Qed.
Lemma wp_effects P L o m c y f d r u e (Q : result BrowserError unit → BrowserCore → Prop) s k :
  core_skel s = k → k_monitor k = Some m → Rel P L o k m → k_contexts k !! c = Some y →
  f = cs_frame y → d = cs_document y → r = cs_runtime y →
  (∀ s', core_skel s' = k → Q (Ok tt) s') → wp (emit (EffectsEvent c f d r u e)) Q s.
Proof.
  intros Hk Hm R Hy -> -> -> HQ. eapply wp_emit; [exact Hk|]. intros s' Hs'. apply HQ. rewrite Hs'.
  destruct (Rel_view _ _ _ _ _ _ _ R Hy) as (v & Hv & Hf). pose proof (view_fits_quiet _ _ _ Hf) as Hq. destruct Hf as (HA & HB & HC & _).
  rewrite (k_emit_step k m _ m Hm); [by apply k_set_monitor_id|]. by eapply step_effects.
Qed.
Lemma wp_runtime_effects P L o m c y f d r u e (Q : result BrowserError unit → BrowserCore → Prop) s k :
  core_skel s = k → k_monitor k = Some m → Rel P L o k m → k_contexts k !! c = Some y →
  f = cs_frame y → d = cs_document y → r = cs_runtime y →
  (∀ s', core_skel s' = k → Q (Ok tt) s') → wp (emit_runtime_effects_event c f d r u e) Q s.
Proof.
  intros Hk Hm R Hy Hf Hd Hr HQ. unfold emit_runtime_effects_event.
  destruct (effects_is_empty e); [by apply wp_ret, HQ|by eapply wp_effects].
Qed.

(** ** The end of a navigation *)

(** What [finish_navigation] leaves when there was something to end *)
Record finished c y (k k' : Skel) (m m' : Monitor) : Prop := {
  fi_contexts : k_contexts k' = <[c := cs_set_nav None y]> (k_contexts k);
  fi_ids : k_ids k' = k_ids k;
  fi_navigation : m_navigation m' = m_navigation m;
}.

(** The events of the end: what the monitor makes of them *)
Lemma wp_end_events c n f t r m v (Q : result BrowserError unit → BrowserCore → Prop) s k :
  core_skel s = k → k_monitor k = Some m → m_contexts m !! c = Some v → f = v_frame v →
  (∃ at_, v_stage v = Navigating n (Some r) at_ ∧ resting at_ = true ∧ (t = TermSettled → at_ = AtLoadEvent)) →
  (∀ s', core_skel s' = k_set_monitor (Some (put_view c (at_stage Idle v) m)) k → Q (Ok tt) s') →
  wp (_ ← emit_phase c f n (terminal_phase t);
      match t with
      | TermSettled => mret ()
      | TermFailed request_id error => emit (NavigationFailed c f n request_id error)
      | TermCancelled reason => emit (NavigationCancelled c f n (Some r) reason)
      end) Q s.
Proof.
  intros Hk Hm Hv Hf (at_ & Hs & Hr & Ht) HQ. apply wp_bind. destruct t as [|request_id error|reason].
  - rewrite (Ht eq_refl) in Hs. eapply wp_emit_step; [exact Hk|exact Hm|by eapply step_settled|]. intros s1 Hk1. by apply wp_ret, HQ.
  - set (w := at_stage (Navigating n (Some r) AtFailed) v).
    eapply (wp_emit_step _ _ (put_view c w m)); [exact Hk|exact Hm|eapply step_phase; try done; cbn; by rewrite Hr|]. intros s1 Hk1.
    eapply wp_emit_step; [exact Hk1|reflexivity| |].
    + eapply (framed_step _ _ c f w); [reflexivity..| |exact Hf|].
      * cbn. apply lookup_insert_eq.
      * cbn. by rewrite bool_decide_eq_true_2.
    + intros s2 Hk2. apply HQ. rewrite Hk2. unfold k_set_monitor. cbn. by rewrite put_view_twice.
  - set (w := at_stage (Navigating n (Some r) AtCancelled) v).
    eapply (wp_emit_step _ _ (put_view c w m)); [exact Hk|exact Hm|eapply step_phase; try done; cbn; by rewrite Hr|]. intros s1 Hk1.
    eapply wp_emit_step; [exact Hk1|reflexivity| |].
    + eapply (framed_step _ _ c f w); [reflexivity..| |exact Hf|].
      * cbn. apply lookup_insert_eq.
      * cbn. by rewrite bool_decide_eq_true_2.
    + intros s2 Hk2. apply HQ. rewrite Hk2. unfold k_set_monitor. cbn. by rewrite put_view_twice.
Qed.

Lemma bind_assoc_C {A B D} (x : C A) (f : A → C B) (g : B → C D) s : ((x ≫= f) ≫= g) s = (x ≫= λ z, f z ≫= g) s.
Proof. unfold mbind, C_bind, M_bind. by destruct (x s) as [s' [a|e]]. Qed.
Lemma wp_bind_bind {A B D} (x : C A) (f : A → C B) (g : B → C D) Q s :
  wp ((x ≫= f) ≫= g) Q s → wp (x ≫= λ z, f z ≫= g) Q s.
Proof. unfold wp. by rewrite bind_assoc_C. Qed.

Lemma wp_finish P L o m c n t b (Q : result BrowserError bool → BrowserCore → Prop) s k :
  core_skel s = k → k_monitor k = Some m → Rel P L o k m → (∀ c', c' ≠ c → hole_of o c' = None) →
  (t = TermSettled → ∀ v r at_, m_contexts m !! c = Some v → v_stage v = Navigating n r at_ → at_ = AtLoadEvent) →
  (∀ e, k_contexts k !! c = None → Q (Err e) s) →
  (∀ y, k_contexts k !! c = Some y → (∀ a, cs_nav y = Some a → ns_id a ≠ n) → Q (Ok false) s) →
  (∀ s' m' y a, k_contexts k !! c = Some y → cs_nav y = Some a → ns_id a = n → k_monitor (core_skel s') = Some m' →
     Rel P L None (core_skel s') m' → finished c y k (core_skel s') m m' → Q (Ok true) s') →
  wp (finish_navigation c n t b) Q s.
Proof.
  intros Hk Hm R Ho Ht HE HF HT. apply wp_bind, wp_context_or; [|intros e He; apply HE; by rewrite <-Hk, skel_lookup, He].
  intros x Hx. set (y := ctx_skel x).
  assert (Hy : k_contexts k !! c = Some y) by by rewrite <-Hk, skel_lookup, Hx.
  destruct (bc_active_navigation x) as [act|] eqn:Hact.
  2:{ apply wp_ret, (HF _ Hy). intros a. unfold y. cbn. by rewrite Hact. }
  set (a := nav_skel act). assert (Ha : cs_nav y = Some a) by (unfold y; cbn; by rewrite Hact).
  case_bool_decide as Hn; cbn [negb].
  2:{ apply wp_ret, (HF _ Hy). intros b'. rewrite Ha. intros [= <-]. done. }
  destruct (Rel_view _ _ _ _ _ _ _ R Hy) as (v & Hv & Hf). destruct (view_fits_nav _ _ _ _ Hf Ha) as (at_ & Hs & [_ Hrest]).
  change (ns_id a) with (an_navigation_id act) in Hs. rewrite Hn in Hs.
  pose proof (view_fits_quiet _ _ _ Hf) as Hquiet. destruct Hf as (HA & HB & HC & _).
  pose proof (Rel_finish _ _ _ _ _ _ _ _ _ R Hy Ha Hv Ho) as R'. change (ns_id a) with (an_navigation_id act) in R'. rewrite Hn in R'.
  apply wp_bind. eapply (wp_context_mut _ _ _ _ _ _ (cs_set_nav None y)); [exact Hk|exact Hy|by intros z <-|]. intros s1 Hk1.
  apply wp_bind. eapply wp_control_finish_navigation; [exact Hk1|]. intros s2 Hk2. clear s1 Hk1.
  match type of Hk2 with _ = ?kk => set (K := kk) in * end.
  assert (Htail : ∀ s3 src, (∀ t p, src !! t = Some p → k_sources k !! t = Some p) → core_skel s3 = k_set_sources src K →
    wp (_ ← emit_phase c (bc_frame_id x) n (terminal_phase t);
        _ ← match t with
            | TermSettled => mret ()
            | TermFailed request_id error => emit (NavigationFailed c (bc_frame_id x) n request_id error)
            | TermCancelled reason => emit (NavigationCancelled c (bc_frame_id x) n (Some (an_request_id act)) reason)
            end;
        _ ← (if b then emit_state c else mret ());
        _ ← (match t with TermCancelled _ => mret () | _ => stop_task (an_cancel act) end);
        mret true) Q s3).
  { intros s3 src Hsrc Hk3. apply wp_bind_bind, wp_bind.
    eapply wp_end_events; [exact Hk3|exact Hm|exact Hv|done|by exists at_; eauto|]. intros s4 Hk4.
    pose proof (Rel_sources P L None K _ src Hsrc R') as R3. clear R'. rename R3 into R'.
    set (m' := put_view c (at_stage Idle v) m) in *.
    assert (Hstate : ∀ Q', (∀ s', core_skel s' = core_skel s4 → Q' (Ok tt) s') → wp (if b then emit_state c else mret ()) Q' s4).
    { intros Q' HQ'. destruct b; [|by apply wp_ret, HQ'].
      eapply (wp_state P L None m'); [exact Hk4|done|rel_ext R'|cbn; apply lookup_insert_eq|]. intros s' Hs'. apply HQ'. by rewrite Hs'. }
    apply wp_bind, Hstate. intros s5 Hk5. rewrite Hk4 in Hk5. apply wp_bind.
    assert (Hlast : ∀ s6 src', (∀ t p, src' !! t = Some p → src !! t = Some p) →
      core_skel s6 = k_set_sources src' (k_set_monitor (Some m') (k_set_sources src K)) → Q (Ok true) s6).
    { intros s6 src' Hsrc' Hk6. apply (HT s6 m' y a Hy Ha Hn).
      - by rewrite Hk6.
      - pose proof (Rel_sources P L None (k_set_sources src K) _ src' Hsrc' R') as R4. rewrite Hk6. rel_ext R4.
      - rewrite Hk6. split; done. }
    assert (Hstop : wp (stop_task (an_cancel act)) (λ r s', match r with Ok _ => Q (Ok true) s' | Err _ => False end) s5).
    { eapply wp_stop_task; [exact Hk5|]. intros s6 src' Hsrc' Hk6. by apply (Hlast s6 src'). }
    destruct t.
    - eapply wp_mono; [exact Hstop|]. intros [[]|] s'; [by apply wp_ret|done].
    - eapply wp_mono; [exact Hstop|]. intros [[]|] s'; [by apply wp_ret|done].
    - apply wp_ret, wp_ret. by apply (Hlast s5 src). }
  apply wp_bind. destruct t as [|request_id error|reason].
  - apply wp_ret, (Htail s2 (k_sources k)); [done|exact Hk2].
  - apply wp_ret, (Htail s2 (k_sources k)); [done|exact Hk2].
  - apply wp_bind. eapply wp_stop_task; [exact Hk2|]. intros s3 src3 Hsrc3 Hk3.
    apply wp_bind. eapply wp_stop_task; [exact Hk3|]. intros s4 src4 Hsrc4 Hk4.
    assert (Hsrc : ∀ t p, src4 !! t = Some p → k_sources k !! t = Some p) by (intros; by apply Hsrc3, Hsrc4).
    assert (Hk4' : core_skel s4 = k_set_sources src4 K) by exact Hk4.
    destruct (canceled_resource act) as [res|].
    + eapply (wp_emit_step _ m m); [exact Hk4'|exact Hm|by eapply step_effects|]. intros s5 Hk5.
      rewrite k_set_monitor_id in Hk5 by exact Hm. by apply (Htail s5 src4).
    + by apply wp_ret, (Htail s4 src4).
Qed.

Lemma wp_fail P L o m c n request_id e y a (Q : result BrowserError unit → BrowserCore → Prop) s k :
  core_skel s = k → k_monitor k = Some m → Rel P L o k m → (∀ c', c' ≠ c → hole_of o c' = None) →
  k_contexts k !! c = Some y → cs_nav y = Some a → ns_id a = n →
  (∀ s', Inv P L None (core_skel s') → Q (Ok tt) s') → wp (fail_navigation c n request_id e) Q s.
Proof.
  intros Hk Hm R Ho Hy Ha Hn HQ. apply wp_bind, wp_attempt. eapply wp_finish; [exact Hk|exact Hm|exact R|exact Ho|done|..].
  - intros e' He. congruence.
  - intros y' Hy'. rewrite Hy in Hy'. injection Hy' as <-. intros Hne. by destruct (Hne _ Ha).
  - intros s' m' y' a' _ _ _ Hm' R' _. apply wp_ret, HQ. by exists m'.
Qed.

Lemma wp_cancel P L m c reason b (Q : result BrowserError bool → BrowserCore → Prop) s k :
  core_skel s = k → k_monitor k = Some m → Rel P L None k m → (∀ e, k_contexts k !! c = None → Q (Err e) s) →
  (∀ r s' m' y, k_contexts k !! c = Some y → k_monitor (core_skel s') = Some m' → Rel P L None (core_skel s') m' →
     finished c y k (core_skel s') m m' → Q (Ok r) s') →
  wp (cancel_active_navigation c reason b) Q s.
Proof.
  intros Hk Hm R HE HQ. apply wp_bind, wp_context_or; [|intros e He; apply HE; by rewrite <-Hk, skel_lookup, He].
  intros x Hx. assert (Hy : k_contexts k !! c = Some (ctx_skel x)) by by rewrite <-Hk, skel_lookup, Hx.
  destruct (bc_active_navigation x) as [act|] eqn:Hact; cbn.
  - apply wp_bind. eapply wp_finish; [exact Hk|exact Hm|exact R|done|done|..].
    + intros e He. congruence.
    + intros y Hy'. rewrite Hy in Hy'. injection Hy' as <-. intros Hne. destruct (Hne (nav_skel act)); [cbn; by rewrite Hact|done].
    + intros s' m' y a Hy' _ _ Hm' R' Hfin. apply wp_ret. by eapply HQ.
  - apply wp_ret, (HQ _ s m (ctx_skel x) Hy); rewrite ?Hk; try done. split; try done.
    symmetry. apply insert_id. rewrite Hy. f_equal. unfold ctx_skel, cs_set_nav. cbn. by rewrite Hact.
Qed.

(** ** The start of a navigation *)

(** What a handler keeps of every context: its document and where its runtime is. *)
Definition steady k k' : Prop :=
  ∀ c y, k_contexts k !! c = Some y → ∃ nav, k_contexts k' !! c = Some (cs_set_nav nav y).
Lemma steady_refl k : steady k k.
Proof. intros c y Hy. exists (cs_nav y). by destruct y. Qed.
Lemma steady_trans k k' k'' : steady k k' → steady k' k'' → steady k k''.
Proof. intros HA HB c y Hy. destruct (HA _ _ Hy) as (v & Hv). destruct (HB _ _ Hv) as (w & Hw). by exists w. Qed.
Lemma steady_insert k k' c y nav : k_contexts k !! c = Some y → k_contexts k' = <[c := cs_set_nav nav y]> (k_contexts k) → steady k k'.
Proof.
  intros Hy Hk' j x Hx. rewrite Hk', lookup_insert. case_decide as E; [subst|exists (cs_nav x); by destruct x].
  rewrite Hy in Hx. injection Hx as <-. by exists nav.
Qed.

Lemma wp_allocate_navigation (Q : result BrowserError NavigationId → BrowserCore → Prop) P L o m s k :
  core_skel s = k → k_monitor k = Some m → Rel P L o k m →
  (∀ e s' i, core_skel s' = k_set_ids i k → ids_fresh i m → Q (Err e) s') →
  (∀ n s' i, core_skel s' = k_set_ids i k → ids_fresh i m → (m_navigation m < Npos n)%N → fresh (next_navigation i) (Npos n) →
     Q (Ok n) s') →
  wp (allocate_id ids_navigation) Q s.
Proof.
  intros Hk Hm R HE HQ. eapply wp_allocate_id; [apply ids_request_blind|exact Hk|]. intros s'. unfold ids_navigation.
  destruct (next_typed_id (next_navigation (k_ids k))) as [i r] eqn:E.
  destruct (r_ids _ _ _ _ _ R) as (I1 & I2 & I3 & I4). destruct (fresh_next _ _ _ _ I2 E) as [I5 Hr]. cbn [fst snd]. intros Hs'.
  destruct r as [n|e]; [|eapply HE; [exact Hs'|by repeat split; try apply I1; try apply I5; try apply I3; try apply I4]].
  destruct (Hr _ eq_refl) as [Hlt Hfr].
  eapply HQ; [exact Hs'|by repeat split; try apply I1; try apply I5; try apply I3; try apply I4|done|done].
Qed.

(** An assignment to a navigation that the view does not see *)
Lemma wp_active_neutral c f y a (Q : result BrowserError unit → BrowserCore → Prop) s k :
  core_skel s = k → k_contexts k !! c = Some y → cs_nav y = Some a → (∀ b, nav_skel (f b) = nav_skel b) →
  (∀ s', core_skel s' = k → Q (Ok tt) s') → wp (expect_active_mut c f) Q s.
Proof.
  intros Hk Hy Ha Hf HQ. eapply (wp_expect_active_mut _ _ _ _ _ _ a a); [exact Hk|exact Hy|exact Ha|by intros b <-|].
  intros s' Hs'. apply HQ. rewrite Hs'. apply k_context_id. rewrite Hy. f_equal. destruct y as [? ? ? ? nav]. cbn in *. by rewrite Ha.
Qed.

(** What a handler that is in no navigation's way keeps *)
Definition kept P L k0 s : Prop := Inv P L None (core_skel s) ∧ steady k0 (core_skel s).

Lemma Kept_intro P L k0 s k m :
  core_skel s = k → k_monitor k = Some m → Rel P L None k m → steady k0 k → kept P L k0 s.
Proof. intros <- Hm R Hst. split; [by exists m|done]. Qed.

(** The events of the beginning *)
Lemma wp_begin_events {A} c n r f pred kind url m v y (rest : C A) (Q : result BrowserError A → BrowserCore → Prop) s k :
  core_skel s = k → k_monitor k = Some m → m_contexts m !! c = Some v → v_stage v = Idle → (m_navigation m < Npos n)%N →
  f = v_frame v → k_contexts k !! c = Some y → v_frame v = cs_frame y → v_document v = cs_document y →
  v_runtime v = cs_runtime y → ns_id <$> cs_nav y = Some n →
  (∀ s', core_skel s' = k_set_monitor (Some (put_view c (at_stage (Navigating n (Some r) AtRequest) v) (set_navigation_mark n m))) k →
     wp rest Q s') →
  wp (_ ← emit (NavigationRequested c f n pred kind url);
      _ ← emit_phase c f n Intent;
      _ ← emit_state c;
      _ ← emit_phase c f n Policy;
      _ ← emit (NavigationStarted c f n r url);
      _ ← emit_phase c f n Request;
      rest) Q s.
Proof.
  intros Hk Hm Hv Hidle Hlt Hf Hy HA HB HC Ha HQ.
  set (w at_ q := at_stage (Navigating n q at_) v). set (M at_ q := put_view c (w at_ q) (set_navigation_mark n m)).
  assert (HM : ∀ at_ q, m_contexts (M at_ q) !! c = Some (w at_ q)) by (intros; cbn; apply lookup_insert_eq).
  assert (HMM : ∀ at_ q at' q', put_view c (at_stage (Navigating n q' at') (w at_ q)) (M at_ q) = M at' q').
  { intros. unfold M. by rewrite put_view_twice. }
  apply wp_bind. eapply (wp_emit_step _ _ (M AtRequested None)); [exact Hk|exact Hm| |].
  { cbn. rewrite Hv. cbn. by rewrite bool_decide_eq_true_2. }
  intros s1 Hk1. apply wp_bind. eapply (wp_emit_step _ _ (M AtIntent None)); [exact Hk1|reflexivity| |].
  { etrans; [eapply step_phase; [apply HM|exact Hf|reflexivity|reflexivity]|f_equal; apply HMM]. }
  intros s2 Hk2. apply wp_bind. eapply wp_emit_state; [exact Hk2|exact Hy|]. intros x s3 Hx Hk3.
  rewrite (k_emit_step _ (M AtIntent None) _ (M AtIntent None)) in Hk3; [|done|].
  2:{ eapply step_state; [apply HM| |right; by exists n, None]. rewrite <-Hx in *. by apply state_says. }
  apply wp_bind. eapply (wp_emit_step _ _ (M AtPolicy None)); [exact Hk3|reflexivity| |].
  { etrans; [eapply step_phase; [apply HM|exact Hf|reflexivity|reflexivity]|f_equal; apply HMM]. }
  intros s4 Hk4. apply wp_bind. eapply (wp_emit_step _ _ (M AtStarted (Some r))); [exact Hk4|reflexivity| |].
  { etrans; [eapply framed_step; [reflexivity|reflexivity|apply HM|exact Hf|]|f_equal; apply HMM].
    cbn. rewrite bool_decide_eq_true_2 by done. reflexivity. }
  intros s5 Hk5. apply wp_bind. eapply (wp_emit_step _ _ (M AtRequest (Some r))); [exact Hk5|reflexivity| |].
  { etrans; [eapply step_phase; [apply HM|exact Hf|reflexivity|reflexivity]|f_equal; apply HMM]. }
  intros s6 Hk6. apply HQ. by rewrite Hk6.
Qed.

Lemma wp_begin `{!CoreClock} P L k0 c url html hu kind pred (Q : result BrowserError BrowserCommandResult → BrowserCore → Prop) s :
  kept P L k0 s → (∀ r s', kept P L k0 s' → Q r s') → wp (begin_navigation c url html hu kind pred) Q s.
Proof.
  intros [(m & Hm & R) Hst] HQ. remember (core_skel s) as k eqn:Hk. symmetry in Hk.
  assert (Hid : ∀ s' i r, core_skel s' = k_set_ids i k → ids_fresh i m → Q r s').
  { intros s' i r Hs' Hi. apply HQ. eapply Kept_intro; [exact Hs'|exact Hm|by apply Rel_ids|exact Hst]. }
  assert (Hs0 : kept P L k0 s) by by eapply Kept_intro.
  apply wp_bind, wp_ensure_context; [intros [x Hx]|intros e _; by apply HQ].
  assert (Hy : k_contexts k !! c = Some (ctx_skel x)) by by rewrite <-Hk, skel_lookup, Hx. set (y := ctx_skel x) in *.
  apply wp_bind, wp_from_result. destruct (validate_navigation_url url) as [[]|e]; [|by apply HQ].
  apply wp_bind. eapply wp_allocate_navigation; [exact Hk|exact Hm|exact R|by eauto|]. intros n s1 i Hk1 Hi Hlt Hfr.
  apply wp_bind. eapply wp_allocate_request; [exact Hk1|]. intros [r|e] s2 Hk2; [|by eapply Hid].
  apply wp_bind. eapply wp_context; [exact Hk2|exact Hy|]. intros x' _ Hx'.
  apply wp_bind. eapply wp_cancel; [exact Hk2|exact Hm|by apply Rel_ids|intros e He; cbn in He; congruence|].
  intros _ s3 m3 y' Hy' Hm3 R3 Hfin. change (k_contexts k !! c = Some y') in Hy'. rewrite Hy in Hy'. injection Hy' as <-.
  destruct Hfin as [Fc Fi Fn]. remember (core_skel s3) as k3 eqn:Hk3. symmetry in Hk3. cbn in Fc, Fi.
  set (y3 := cs_set_nav None y).
  assert (Hy3 : k_contexts k3 !! c = Some y3) by (rewrite Fc; apply lookup_insert_eq).
  assert (Hst3 : steady k0 k3) by (eapply steady_trans; [exact Hst|by eapply steady_insert]).
  destruct (Rel_view _ _ _ _ _ _ _ R3 Hy3) as (v & Hv & Hf).
  assert (Hidle : v_stage v = Idle) by (destruct Hf as (_ & _ & _ & Hf); by destruct (v_stage v)).
  destruct Hf as (HA & HB & HC & _).
  pose proof (Rel_begin P L k3 m3 c y3 v n r) as Rb. rewrite Fn, Fi in Rb.
  set (y4 := cs_set_nav (Some (begun n r)) y3).
  apply wp_bind. eapply (wp_context_mut _ _ _ _ _ y3 y4); [exact Hk3|exact Hy3|by intros z <-|]. intros s4 Hk4.
  apply wp_bind. eapply wp_control_set_navigation; [exact Hk4|]. intros s5 Hk5. clear s4 Hk4.
  match type of Hk5 with _ = ?kk => set (k5 := kk) in * end.
  assert (Hy5 : k_contexts k5 !! c = Some y4) by (cbn; apply lookup_insert_eq).
  set (m' := put_view c (at_stage (Navigating n (Some r) AtRequest) v) (set_navigation_mark n m3)) in *.
  (* the events, and what comes after them *)
  assert (Hrest : ∀ s6, core_skel s6 = k_set_monitor (Some m') k5 →
    wp (s ← gets id;
        let html := match html with Some html => Some html | None => RustMap.map_get (document_overrides s) url end in
        task ← spawn (TaskSource c n url html (snapshots jar_now (core_cookies s))) false;
        _ ← expect_active_mut c (set_load (Some task) (Some task));
        _ ← update (λ s, set_pending_load_starts (pending_load_starts s ++ [task]) s);
        mret (NavigationAccepted n)) Q s6).
  { intros s6 Hk6. apply wp_bind, wp_gets. cbv zeta. apply wp_bind. eapply wp_spawn_source; [exact Hk6|]. intros t s7 Hk7.
    apply wp_bind. eapply (wp_active_neutral _ _ y4 (begun n r)); [exact Hk7|exact Hy5|done|done|]. intros s8 Hk8.
    apply wp_bind. eapply wp_update_neutral; [exact Hk8|done|]. intros s9 Hk9. apply wp_ret, HQ.
    eapply Kept_intro; [exact Hk9|reflexivity| |].
    - specialize (Rb t R3 Hy3 eq_refl Hv Hlt Hfr). rel_ext Rb.
    - eapply steady_trans; [exact Hst3|]. by eapply steady_insert. }
  eapply (wp_begin_events c n r _ _ _ _ m3 v y4); [exact Hk5|exact Hm3|exact Hv|exact Hidle| | |exact Hy5|exact HA|exact HB|exact HC|done|].
  - rewrite Fn. exact Hlt.
  - rewrite HA. change (bc_frame_id x' = cs_frame y). by rewrite <-Hx'.
  - exact Hrest.
Qed.

(** The other identifiers *)
Lemma wp_allocate_context (Q : result BrowserError BrowsingContextId → BrowserCore → Prop) m s k :
  core_skel s = k → ids_fresh (k_ids k) m → (∀ e s' i, core_skel s' = k_set_ids i k → ids_fresh i m → Q (Err e) s') →
  (∀ c s' i, core_skel s' = k_set_ids i k → ids_fresh i m → (m_context m < Npos c)%N → fresh (next_context i) (Npos c) →
     Q (Ok c) s') → wp (allocate_id ids_context) Q s.
Proof.
  intros Hk (IC & IN & ID & IR) HE HQ. eapply wp_allocate_id; [apply ids_request_blind|exact Hk|]. intros s'. unfold ids_context.
  destruct (next_typed_id _) as [i [c|e]] eqn:E; destruct (fresh_next _ _ _ _ IC E) as [IC' Hc]; cbn [fst snd]; intros Hs'.
  - destruct (Hc _ eq_refl). by eapply HQ; [exact Hs'|repeat split; try apply IC'; try apply IN; try apply ID; try apply IR|..].
  - eapply HE; [exact Hs'|]. repeat split; try apply IC'; try apply IN; try apply ID; try apply IR.
Qed.
Lemma wp_allocate_frame (Q : result BrowserError FrameId → BrowserCore → Prop) m s k :
  core_skel s = k → ids_fresh (k_ids k) m →
  (∀ r s' i, core_skel s' = k_set_ids i k → ids_fresh i m → next_context i = next_context (k_ids k) → Q r s') →
  wp (allocate_id ids_frame) Q s.
Proof.
  intros Hk Hi HQ. eapply wp_allocate_id; [apply ids_request_blind|exact Hk|]. intros s'. unfold ids_frame.
  destruct (next_typed_id _) as [i r]. cbn [fst snd]. intros Hs'. by eapply HQ.
Qed.
Lemma wp_allocate_document (Q : result BrowserError DocumentId → BrowserCore → Prop) m s k :
  core_skel s = k → ids_fresh (k_ids k) m → (∀ e s' i, core_skel s' = k_set_ids i k → ids_fresh i m → Q (Err e) s') →
  (∀ d s' i, core_skel s' = k_set_ids i k → ids_fresh i m → (m_document m < Npos d)%N → fresh (next_document i) (Npos d) →
     next_context i = next_context (k_ids k) → Q (Ok d) s') → wp (allocate_id ids_document) Q s.
Proof.
  intros Hk (IC & IN & ID & IR) HE HQ. eapply wp_allocate_id; [apply ids_request_blind|exact Hk|]. intros s'. unfold ids_document.
  destruct (next_typed_id _) as [i [d|e]] eqn:E; destruct (fresh_next _ _ _ _ ID E) as [ID' Hd]; cbn [fst snd]; intros Hs'.
  - destruct (Hd _ eq_refl). by eapply HQ; [exact Hs'|repeat split; try apply IC; try apply IN; try apply ID'; try apply IR|..].
  - eapply HE; [exact Hs'|]. repeat split; try apply IC; try apply IN; try apply ID'; try apply IR.
Qed.
Lemma wp_allocate_runtime (Q : result BrowserError RuntimeContextId → BrowserCore → Prop) m s k :
  core_skel s = k → ids_fresh (k_ids k) m → (∀ e s' i, core_skel s' = k_set_ids i k → ids_fresh i m → Q (Err e) s') →
  (∀ r s' i, core_skel s' = k_set_ids i k → ids_fresh i m → (m_runtime m < Npos r)%N → fresh (next_runtime i) (Npos r) →
     next_context i = next_context (k_ids k) → next_document i = next_document (k_ids k) → Q (Ok r) s') →
  wp (allocate_id ids_runtime) Q s.
Proof.
  intros Hk (IC & IN & ID & IR) HE HQ. eapply wp_allocate_id; [apply ids_request_blind|exact Hk|]. intros s'. unfold ids_runtime.
  destruct (next_typed_id _) as [i [r|e]] eqn:E; destruct (fresh_next _ _ _ _ IR E) as [IR' Hr]; cbn [fst snd]; intros Hs'.
  - destruct (Hr _ eq_refl). by eapply HQ; [exact Hs'|repeat split; try apply IC; try apply IN; try apply ID; try apply IR'|..].
  - eapply HE; [exact Hs'|]. repeat split; try apply IC; try apply IN; try apply ID; try apply IR'.
Qed.

(** ** Handlers that are in no navigation's way *)

Section keeps.
Context (P L : BrowsingContextId → NavigationId → Prop).
Local Abbreviation Kept := (kept P L).

Definition keeps {A} (m : C A) : Prop := ∀ k0 s, Kept k0 s → wp m (λ _ s', Kept k0 s') s.

Lemma wp_keeps {A} (m : C A) k0 s (Q : result BrowserError A → BrowserCore → Prop) :
  keeps m → Kept k0 s → (∀ r s', Kept k0 s' → Q r s') → wp m Q s.
Proof. intros Hm Hs HQ. eapply wp_mono; [by apply Hm|exact HQ]. Qed.
Lemma Kept_self k0 s : Kept k0 s → Kept (core_skel s) s.
Proof. intros [HI _]. split; [done|apply steady_refl]. Qed.
Lemma Kept_trans k0 s s' : Kept k0 s → Kept (core_skel s) s' → Kept k0 s'.
Proof. intros [_ HA] [HI HB]. split; [done|by eapply steady_trans]. Qed.
Lemma Kept_eq k0 s s' : Kept k0 s → core_skel s' = core_skel s → Kept k0 s'.
Proof. unfold kept. by intros ? ->. Qed.
Lemma Kept_context k0 s c y : Kept k0 s → k_contexts k0 !! c = Some y → ∃ nav, k_contexts (core_skel s) !! c = Some (cs_set_nav nav y).
Proof. intros [_ Hst] Hy. by apply Hst. Qed.

Lemma keeps_bind {A B} (m : C A) (f : A → C B) : keeps m → (∀ x, keeps (f x)) → keeps (m ≫= f).
Proof.
  intros Hm Hf k0 s Hs. apply wp_bind. eapply wp_keeps; [exact Hm|exact Hs|]. intros [x|e] s' Hs'; [by apply Hf|exact Hs'].
Qed.
Lemma keeps_ret {A} (x : A) : keeps (mret x).
Proof. intros k0 s Hs. by apply wp_ret. Qed.
Lemma keeps_from_result {A} (r : result BrowserError A) : keeps (from_result r).
Proof. intros k0 s Hs. by apply wp_from_result. Qed.
Lemma keeps_attempt {A} (m : C A) : keeps m → keeps (attempt m).
Proof. intros Hm k0 s Hs. by apply wp_attempt, Hm. Qed.
Lemma keeps_gets {A} (f : BrowserCore → A) : keeps (gets f).
Proof. intros k0 s Hs. by apply wp_gets. Qed.
Lemma keeps_update f : (∀ s, core_skel (f s) = core_skel s) → keeps (update f).
Proof. intros Hf k0 s Hs. eapply wp_update_neutral; [reflexivity|apply Hf|]. intros s' Hs'. by eapply Kept_eq. Qed.

(** A context that is read: what comes after knows it. *)
Lemma wp_kept_context {B} c (f : BrowsingContext → C B) k0 s :
  Kept k0 s →
  (∀ x, contexts s !! c = Some x → k_contexts (core_skel s) !! c = Some (ctx_skel x) → wp (f x) (λ _ s', Kept (core_skel s) s') s) →
  wp (context c ≫= f) (λ _ s', Kept k0 s') s.
Proof.
  intros Hs Hf. apply wp_bind, wp_context_or; [|by intros].
  intros x Hx. eapply wp_mono; [apply (Hf x Hx); by rewrite skel_lookup, Hx|]. intros r s' Hs'. by eapply Kept_trans.
Qed.

(** Events and script in a context that was read *)
Lemma wp_kept_effects c f d r u e k0 y (Q : result BrowserError unit → BrowserCore → Prop) s :
  Kept k0 s → k_contexts k0 !! c = Some y → f = cs_frame y → d = cs_document y → r = cs_runtime y →
  (∀ s', Kept k0 s' → Q (Ok tt) s') → wp (emit_runtime_effects_event c f d r u e) Q s.
Proof.
  intros Hs Hy -> -> -> HQ. destruct (Kept_context _ _ _ _ Hs Hy) as (nav & Hy'). pose proof Hs as [(m & Hm & R) _].
  eapply wp_runtime_effects; [reflexivity|exact Hm|exact R|exact Hy'|done..|]. intros s' Hs'. apply HQ. by eapply Kept_eq.
Qed.
Lemma wp_kept_slot slot f k0 c y (Q : result BrowserError unit → BrowserCore → Prop) s :
  Kept k0 s → k_contexts k0 !! c = Some y → slot = cs_slot y → (∀ x, rs_active (f x) = rs_active x) →
  (∀ s', core_skel s' = core_skel s → Q (Ok tt) s') → wp (slot_mut slot f) Q s.
Proof.
  intros Hs Hy -> Hf HQ. destruct (Kept_context _ _ _ _ Hs Hy) as (nav & Hy'). destruct Hs as [(m & Hm & R) _].
  eapply wp_slot_neutral; [reflexivity|exact (r_slot _ _ _ _ _ R _ _ Hy')|exact Hf|exact HQ].
Qed.
Lemma wp_kept_realm {A} slot (f : Realm → Realm * A) k0 c y (Q : result BrowserError A → BrowserCore → Prop) s :
  Kept k0 s → k_contexts k0 !! c = Some y → slot = cs_slot y →
  (∀ x s', core_skel s' = core_skel s → Q (Ok x) s') → wp (in_realm c slot f) Q s.
Proof.
  intros Hs Hy -> HQ. destruct (Kept_context _ _ _ _ Hs Hy) as (nav & Hy'). destruct Hs as [(m & Hm & R) _].
  eapply wp_in_realm; [reflexivity|exact Hy'|exact (r_slot _ _ _ _ _ R _ _ Hy')|exact HQ].
Qed.
Lemma wp_kept_context_mut c f k0 (Q : result BrowserError unit → BrowserCore → Prop) s :
  Kept k0 s → (∀ x, ctx_skel (f x) = ctx_skel x) → (∀ e, Q (Err e) s) →
  (∀ y s', core_skel s' = core_skel s → k_contexts (core_skel s) !! c = Some y → Q (Ok tt) s') → wp (context_mut c f) Q s.
Proof.
  intros Hs Hf HE HQ. apply wp_bind, wp_context_or; [|by intros]. intros x Hx.
  assert (Hy : k_contexts (core_skel s) !! c = Some (ctx_skel x)) by by rewrite skel_lookup, Hx.
  apply wp_update, (HQ (ctx_skel x)); [|exact Hy]. rewrite core_skel_context, Hf. by apply k_context_id.
Qed.
Lemma keeps_emit_state c : keeps (emit_state c).
Proof.
  intros k0 s Hs. pose proof Hs as [(m & Hm & R) _]. destruct (contexts s !! c) as [x|] eqn:Hx.
  - eapply wp_state; [reflexivity|exact Hm|exact R|by rewrite skel_lookup, Hx|]. intros s' Hs'. by eapply Kept_eq.
  - apply wp_bind, wp_context_or; [congruence|by intros].
Qed.
Lemma keeps_begin `{!CoreClock} c url html hu kind pred : keeps (begin_navigation c url html hu kind pred).
Proof. intros k0 s Hs. by eapply wp_begin; [exact Hs|]. Qed.

(** *** Automation *)

Variable url_query : WebUrl → option rstr.
Variable url_with_query : WebUrl → rstr → rstr.
Variable parse_error_text : rstr → rstr.
Variable debug_result : BrowserCommandResult → rstr.

Definition keeps_all (automation : BrowsingContextId → DocumentId → RuntimeContextId → rstr → option ((N * N) * (f64 * f64)) →
  C AutomationEvaluation) : Prop := ∀ c d r source scroll, keeps (automation c d r source scroll).

Lemma prepare_actions_total x max h actions :
  existsb is_overflow actions = false → is_Some (prepare_actions url_query url_with_query parse_error_text x max h actions).
Proof.
  revert h. induction actions as [|action actions IH]; intros h; [by eexists|]. cbn [existsb prepare_actions].
  intros [Ha Hs]%orb_false_iff.
  assert (is_Some (prepare_action url_query url_with_query parse_error_text x max h action)) as [r ->].
  { destruct action; try done; cbn; by eexists. }
  destruct r as [[h' prepared]|e]; [|by eexists]. destruct (IH h' Hs) as [r ->]. destruct r; by eexists.
Qed.

Lemma keeps_same_document automation c history :
  keeps_all automation → keeps (apply_same_document_history automation c history).
Proof.
  intros Hauto k0 s Hs. apply wp_bind. eapply wp_kept_context_mut; [exact Hs|done|done|]. intros y s1 Hk1 Hy.
  pose proof (Kept_eq _ _ _ Hs Hk1) as Hs1. apply Kept_self in Hs1 as Hs1'. rewrite <-Hk1 in Hy.
  apply wp_bind. eapply wp_expect_context; [reflexivity|exact Hy|]. intros x _ Hx. subst y. apply wp_bind.
  eapply (wp_kept_slot _ _ (core_skel s1)); [exact Hs1'|exact Hy|done|done|]. intros s2 Hk2.
  pose proof (Kept_eq _ _ _ Hs1' Hk2) as Hs2. apply wp_bind. eapply wp_keeps; [apply Hauto|exact Hs2|].
  intros [ev|e] s3 Hs3; [|by eapply Kept_trans]. eapply wp_kept_effects; [exact Hs3|exact Hy|done..|].
  intros s4 Hs4. by eapply Kept_trans.
Qed.
Lemma keeps_apply_prepared `{!CoreClock} automation c pred action :
  keeps_all automation → keeps (apply_prepared debug_result automation c pred action).
Proof.
  intros Hauto. destruct action; cbn.
  - apply keeps_bind; [apply keeps_begin|]. intros r. apply keeps_bind; [apply keeps_from_result|]. intros n. apply keeps_ret.
  - apply keeps_bind; [by apply keeps_same_document|]. intros _. apply keeps_ret.
  - apply keeps_bind; [by apply keeps_same_document|]. intros _. apply keeps_ret.
Qed.
Lemma keeps_apply_all_prepared `{!CoreClock} automation c pred prepared :
  keeps_all automation → keeps (apply_all_prepared debug_result automation c pred prepared).
Proof.
  intros Hauto. revert pred. induction prepared as [|action prepared IH]; intros pred; cbn; [apply keeps_ret|].
  apply keeps_bind; [by apply keeps_apply_prepared|]. intros r. apply keeps_bind; [apply IH|]. intros o. apply keeps_ret.
Qed.
Lemma keeps_apply_actions_with `{!CoreClock} automation c actions pred :
  keeps_all automation →
  keeps (apply_navigation_actions_with url_query url_with_query parse_error_text debug_result automation c actions pred).
Proof.
  intros Hauto k0 s Hs. apply wp_bind, wp_from_result. destruct (_ || _) eqn:Hover; [done|]. cbn.
  apply orb_false_iff in Hover as [_ Hover]. apply wp_bind.
  assert (Hprep : wp (prepare_navigation_actions url_query url_with_query parse_error_text c actions) (λ _ s', Kept k0 s') s).
  { apply wp_kept_context; [exact Hs|]. intros x Hx Hy. apply wp_bind, wp_gets, wp_bind.
    destruct (prepare_actions_total x (core_max_body_bytes s) (history_with_current_scroll (bc_page x)) actions Hover) as [r Hr].
    eapply wp_expect; [exact Hr|]. apply wp_from_result. by eapply Kept_self. }
  eapply wp_mono; [exact Hprep|]. intros [prepared|e] s' Hs'; [|exact Hs']. by apply keeps_apply_all_prepared.
Qed.
Lemma wp_kept_document {B} c d (f : BrowsingContext → C B) k0 s :
  Kept k0 s →
  (∀ x, contexts s !! c = Some x → k_contexts (core_skel s) !! c = Some (ctx_skel x) → wp (f x) (λ _ s', Kept (core_skel s) s') s) →
  wp (context_for_document c d ≫= f) (λ _ s', Kept k0 s') s.
Proof.
  intros Hs Hf. unfold wp. unfold context_for_document. rewrite bind_assoc_C. change (wp (context c ≫= λ x,
    (from_result (throw_if (negb (bool_decide (bc_document_id x = d))) (stale_document c d)) ≫= λ _, mret x) ≫= f)
    (λ _ s', Kept k0 s') s).
  apply wp_kept_context; [exact Hs|]. intros x Hx Hy. apply wp_bind, wp_bind, wp_from_result.
  destruct (throw_if _ _) as [[]|e]; [|by eapply Kept_self]. apply wp_ret. by apply Hf.
Qed.

Lemma keeps_automation_body `{!CoreClock} automation :
  keeps_all automation →
  keeps_all (automation_body url_query url_with_query parse_error_text debug_result automation).
Proof.
  intros Hauto c d r source scroll k0 s Hs. apply wp_bind, wp_from_result. destruct (throw_if _ _) as [[]|e]; [|exact Hs].
  apply wp_kept_document; [exact Hs|]. intros x Hx Hy. apply Kept_self in Hs.
  apply wp_bind, wp_from_result. destruct (throw_if _ _) as [[]|e]; [|exact Hs].
  apply wp_bind. eapply wp_kept_realm; [exact Hs|exact Hy|done|]. intros out s1 Hk1.
  pose proof (Kept_eq _ _ _ Hs Hk1) as Hs1. apply wp_bind, wp_from_result.
  destruct (map_err _ out) as [[[value effects] actions]|e]; [|exact Hs1].
  apply wp_bind. eapply wp_keeps; [apply keeps_emit_state|exact Hs1|]. intros [[]|e] s2 Hs2; [|exact Hs2].
  apply wp_bind. eapply wp_keeps; [by apply keeps_apply_actions_with|exact Hs2|].
  intros [o|e] s3 Hs3; [by apply wp_ret|exact Hs3].
Qed.
Lemma keeps_automation `{!CoreClock} fuel :
  keeps_all (automation_evaluation_with_root_scroll_default url_query url_with_query parse_error_text debug_result fuel).
Proof.
  induction fuel as [|fuel IH]; [|by apply keeps_automation_body]. intros c d r source scroll k0 s Hs. exact I.
Qed.
Lemma keeps_apply_actions `{!CoreClock} fuel c actions pred :
  keeps (apply_navigation_actions url_query url_with_query parse_error_text debug_result fuel c actions pred).
Proof. apply keeps_apply_actions_with, keeps_automation. Qed.

(** *** Commands *)

Lemma keeps_throw {A} e : keeps (throw (A:=A) e).
Proof. intros k0 s Hs. by apply wp_throw. Qed.
Lemma keeps_context c : keeps (context c).
Proof. intros k0 s Hs. by apply wp_context_or. Qed.
Lemma keeps_ensure c : keeps (ensure_context c).
Proof. intros k0 s Hs. by apply wp_ensure_context. Qed.
Lemma keeps_document c d : keeps (context_for_document c d).
Proof. apply keeps_bind; [apply keeps_context|]. intros x. apply keeps_bind; [apply keeps_from_result|]. intros _. apply keeps_ret. Qed.
Lemma keeps_context_mut c f : (∀ x, ctx_skel (f x) = ctx_skel x) → keeps (context_mut c f).
Proof. intros Hf k0 s Hs. eapply wp_kept_context_mut; [exact Hs|exact Hf|done|]. intros y s' Hs' _. by eapply Kept_eq. Qed.
Lemma keeps_navigate `{!CoreClock} c url hu : keeps (navigate c url hu).
Proof. apply keeps_begin. Qed.
Lemma keeps_cancel c reason b : keeps (cancel_active_navigation c reason b).
Proof.
  intros k0 s Hs. pose proof Hs as [(m & Hm & R) Hst]. eapply wp_cancel; [reflexivity|exact Hm|exact R|done|].
  intros r s' m' y Hy Hm' R' Hfin. eapply Kept_intro; [reflexivity|exact Hm'|exact R'|].
  eapply steady_trans; [exact Hst|]. eapply steady_insert; [exact Hy|]. by destruct Hfin.
Qed.
Lemma keeps_automation_evaluation `{!CoreClock} fuel c d r source :
  keeps (automation_evaluation url_query url_with_query parse_error_text debug_result fuel c d r source).
Proof. apply keeps_automation. Qed.
Create HintDb keeps_db.
Local Hint Resolve keeps_ret keeps_from_result keeps_throw keeps_context keeps_ensure keeps_document keeps_navigate keeps_cancel
  keeps_begin keeps_automation keeps_automation_evaluation keeps_emit_state keeps_gets : keeps_db.
(** Follow the binds of a handler. *)
Ltac keeps_tac := repeat match goal with
  | |- keeps (mbind _ _) => apply keeps_bind; [|intros ?]
  | |- keeps (match ?x with _ => _ end) => destruct x
  | |- keeps (let _ := _ in _) => cbv zeta
  | |- keeps _ => solve [auto with keeps_db]
  end.

Lemma wp_evaluate_and_report `{!CoreClock} fuel c x k0 s :
  Kept k0 s → k_contexts k0 !! c = Some (ctx_skel x) →
  wp (evaluate_and_report url_query url_with_query parse_error_text debug_result fuel c x) (λ _ s', Kept k0 s') s.
Proof.
  intros Hs Hy. apply wp_bind. eapply wp_keeps; [apply keeps_automation_evaluation|exact Hs|].
  intros [ev|e] s' Hs'; [|exact Hs']. by eapply wp_kept_effects.
Qed.
(** An assignment to a context, after which it is read *)
Lemma keeps_assign {B} c f (g : BrowsingContext → C B) :
  (∀ x, ctx_skel (f x) = ctx_skel x) →
  (∀ k0 s x, Kept k0 s → k_contexts k0 !! c = Some (ctx_skel x) → wp (g x) (λ _ s', Kept k0 s') s) →
  keeps (_ ← context_mut c f; x ← expect_context c; g x).
Proof.
  intros Hf Hg k0 s Hs. apply wp_bind. eapply wp_kept_context_mut; [exact Hs|exact Hf|done|]. intros y s1 Hk1 Hy.
  pose proof (Kept_eq _ _ _ Hs Hk1) as Hs1. apply Kept_self in Hs1 as Hs1'. rewrite <-Hk1 in Hy.
  apply wp_bind. eapply wp_expect_context; [reflexivity|exact Hy|]. intros x _ Hx. subst y.
  eapply wp_mono; [by eapply Hg|]. intros r s2 Hs2. by eapply Kept_trans.
Qed.
Lemma keeps_use {A} (m : C A) k0 s : keeps m → Kept k0 s → wp m (λ _ s', Kept k0 s') s.
Proof. intros Hm. apply Hm. Qed.
Lemma keeps_update_host_view `{!CoreClock} fuel c state :
  keeps (update_host_view_state url_query url_with_query parse_error_text debug_result fuel c state).
Proof.
  unfold update_host_view_state. do 4 (apply keeps_bind; [keeps_tac|intros ?]). apply keeps_assign; [done|].
  intros k0 s x' Hs _. apply keeps_use; [keeps_tac|exact Hs].
Qed.
Lemma keeps_set_page_zoom `{!CoreClock} fuel c zoom :
  keeps (set_page_zoom url_query url_with_query parse_error_text debug_result fuel c zoom).
Proof.
  unfold set_page_zoom. apply keeps_bind; [keeps_tac|intros _]. apply keeps_assign; [done|].
  intros k0 s x Hs Hy. apply wp_bind. eapply wp_mono; [by eapply wp_evaluate_and_report|].
  intros [[]|e] s' Hs'; [|exact Hs']. apply keeps_use; [keeps_tac|exact Hs'].
Qed.
Lemma keeps_apply_renderer_commit `{!CoreClock, !PageCommands} fuel commit :
  keeps (apply_renderer_commit url_query url_with_query parse_error_text debug_result fuel commit).
Proof.
  unfold apply_renderer_commit. cbv zeta.
  do 2 (apply keeps_bind; [keeps_tac|intros ?]). apply keeps_assign; [done|].
  intros k0 s x' Hs Hy. apply wp_bind. eapply wp_mono; [by eapply wp_evaluate_and_report|].
  intros [[]|e] s' Hs'; [by apply wp_ret|exact Hs'].
Qed.
Lemma wp_evaluate_all c sources k0 y s :
  Kept k0 s → k_contexts k0 !! c = Some y → wp (evaluate_all c (cs_slot y) sources) (λ _ s', Kept k0 s') s.
Proof.
  revert s. induction sources as [|source sources IH]; intros s Hs Hy; [by apply wp_ret|]. cbn.
  apply wp_bind. eapply wp_kept_realm; [exact Hs|exact Hy|done|]. intros r s1 Hk1. pose proof (Kept_eq _ _ _ Hs Hk1) as Hs1.
  apply wp_bind, wp_from_result. destruct (map_err _ r); [by apply IH|exact Hs1].
Qed.
Lemma keeps_configure c config : keeps (configure_context c config).
Proof.
  intros k0 s Hs. apply wp_kept_context; [exact Hs|]. intros x Hx Hy. apply Kept_self in Hs. cbv zeta. apply wp_bind.
  eapply wp_kept_slot; [exact Hs|exact Hy|done|done|]. intros s1 Hk1. pose proof (Kept_eq _ _ _ Hs Hk1) as Hs1.
  apply wp_bind. eapply wp_mono; [by apply (wp_evaluate_all c _ (core_skel s) (ctx_skel x))|]. intros [[]|e] s2 Hs2; [|exact Hs2].
  destruct (Kept_context _ _ _ _ Hs2 Hy) as (nav & Hy2). apply wp_bind.
  eapply wp_expect_context_mut; [reflexivity|exact Hy2|intros z Hz; exact Hz|]. intros s3 Hk3. apply wp_ret.
  eapply Kept_eq; [exact Hs2|]. rewrite Hk3. by apply k_context_id.
Qed.
Lemma keeps_store_write f : keeps (store_write f).
Proof. unfold store_write. do 2 (apply keeps_bind; [keeps_tac|intros ?]). by apply keeps_update. Qed.
Lemma keeps_clear_profile selection : keeps (clear_profile selection).
Proof.
  unfold clear_profile. apply keeps_bind; [apply keeps_store_write|intros _].
  apply keeps_bind; [destruct (clear_cookies_group _); [by apply keeps_update|apply keeps_ret]|intros _].
  apply keeps_bind; [|intros _; apply keeps_ret]. destruct (_ || _); [|apply keeps_ret]. apply keeps_update. intros s.
  unfold core_skel. cbn. f_equal. rewrite <-list_fmap_compose. apply list_fmap_ext. intros i x _. cbn. by destruct (rs_active x) eqn:E.
Qed.
Lemma keeps_activate c : keeps (activate_context c).
Proof.
  intros k0 s Hs. apply wp_bind, wp_ensure_context; [|done]. intros [x Hx].
  assert (Hy : k_contexts (core_skel s) !! c = Some (ctx_skel x)) by by rewrite skel_lookup, Hx.
  destruct Hs as [(m & Hm & R) Hst]. apply wp_bind. eapply (wp_update_to _ (k_set_active (Some c) (core_skel s))); [done|]. intros s1 Hk1.
  apply wp_bind. eapply (wp_emit_step _ _ (set_m_active (Some c) m)); [exact Hk1|exact Hm| |].
  - destruct (Rel_view _ _ _ _ _ _ _ R Hy) as (v & Hv & _). cbn. rewrite Hv. by rewrite bool_decide_eq_true_2.
  - intros s2 Hk2. apply wp_ret. eapply Kept_intro; [exact Hk2|reflexivity| |exact Hst].
    assert (Ra : Rel P L None (k_set_active (Some c) (core_skel s)) (set_m_active (Some c) m)).
    { apply Rel_active; [by rewrite Hy|exact R]. }
    rel_ext Ra.
Qed.

(** *** Contexts come and go *)

Definition safe {A} (m : C A) : Prop := ∀ s, Inv P L None (core_skel s) → wp m (λ _ s', Inv P L None (core_skel s')) s.
Lemma keeps_safe {A} (m : C A) : keeps m → safe m.
Proof. intros Hm s HI. eapply wp_mono; [apply Hm; split; [exact HI|apply steady_refl]|]. by intros r s' []. Qed.
Lemma safe_bind {A B} (m : C A) (f : A → C B) : safe m → (∀ x, safe (f x)) → safe (m ≫= f).
Proof.
  intros Hm Hf s Hs. apply wp_bind. eapply wp_mono; [by apply Hm|]. intros [x|e] s' Hs'; [by apply Hf|exact Hs'].
Qed.
Lemma safe_ret {A} (x : A) : safe (mret x).
Proof. intros s Hs. by apply wp_ret. Qed.
Lemma safe_attempt {A} (m : C A) : safe m → safe (attempt m).
Proof. intros Hm s Hs. by apply wp_attempt, Hm. Qed.

Lemma safe_create : safe create_context.
Proof.
  intros s (m & Hm & R). remember (core_skel s) as k eqn:Hk. symmetry in Hk.
  assert (Hid : ∀ s' i, core_skel s' = k_set_ids i k → ids_fresh i m → Inv P L None (core_skel s')).
  { intros s' i -> Hi. exists m. split; [exact Hm|by apply Rel_ids]. }
  apply wp_bind, wp_gets. cbn [id]. apply wp_bind, wp_from_result.
  destruct (throw_if _ _) as [[]|e] eqn:Hmax; [|rewrite Hk; by exists m]. apply throw_if_Ok in Hmax.
  assert (Hsize : (N.of_nat (size (k_contexts k)) < k_max k)%N).
  { rewrite <-Hk. cbn. rewrite map_size_fmap. apply N.leb_gt. exact Hmax. }
  apply wp_bind. eapply wp_allocate_context; [exact Hk|apply (r_ids _ _ _ _ _ R)|by eauto|]. intros c s1 i1 Hk1 I1 Hc Fc.
  apply wp_bind. eapply wp_allocate_frame; [exact Hk1|exact I1|]. intros r2 s2 i2 Hk2 I2 E2.
  destruct r2 as [frame|e]; [|by eapply Hid; [exact Hk2|]].
  apply wp_bind. eapply wp_allocate_document; [exact Hk2|exact I2|intros e s' i' Hs'; by apply (Hid s' i')|].
  intros d s3 i3 Hk3 I3 Hd Fd E3.
  apply wp_bind. eapply wp_allocate_runtime; [exact Hk3|exact I3|intros e s' i' Hs'; by apply (Hid s' i')|].
  intros r s4 i4 Hk4 I4 Hr Fr E4 E4'. cbn in E2, E3, E4, E4'.
  assert (Hk4' : core_skel s4 = k_set_ids i4 k) by exact Hk4. clear Hk1 Hk2 Hk3 Hk4.
  apply wp_bind, wp_from_result. destruct (map_err _ _) as [page|e]; [|by eapply Hid].
  apply wp_bind, wp_bind, wp_gets, wp_ret. apply wp_bind, wp_from_result. destruct (map_err _ _) as [rt|e]; [|by eapply Hid].
  apply wp_bind, wp_gets. cbv zeta. cbn [id].
  pose proof (Rel_create P L (k_set_ids i4 k) m c frame d r) as Rc.
  assert (Hslot : length (runtime_slots s4) = length (k_slots k)).
  { pose proof (f_equal k_slots Hk4') as Hsl. cbn in Hsl. by rewrite <-Hsl, length_fmap. }
  assert (Hnc : k_contexts k !! c = None).
  { apply eq_None_not_Some. intros Hx%(r_known _ _ _ _ _ R). lia. }
  apply wp_bind. eapply (wp_update_to _ (k_set_slots (k_slots k ++ [true]) (k_set_ids i4 k))).
  { rewrite <-Hk4'. unfold core_skel, k_set_slots. cbn. rewrite fmap_app. cbn. pose proof (f_equal k_slots Hk4') as Hsl. cbn in Hsl. by rewrite Hsl. }
  intros s5 Hk5. apply wp_bind. eapply wp_install_runtime; [exact Hk5|]. intros s6 Hk6. cbn [k_control k_set_slots k_set_ids] in Hk6.
  assert (Hmj : mjoin (k_control k !! c) = None) by by rewrite (r_control _ _ _ _ _ R), lookup_fmap, Hnc.
  rewrite Hmj in Hk6.
  set (y := new_context frame d r (length (k_slots k))).
  match type of Hk6 with _ = ?kk => set (k6 := kk) in * end.
  apply wp_bind. eapply (wp_update_to _ (k_context c y k6)).
  { rewrite core_skel_context, Hk6. unfold ctx_skel. cbn. by rewrite Hslot. }
  intros s7 Hk7. apply wp_bind. eapply (wp_context _ _ _ _ y); [exact Hk7|cbn; apply lookup_insert_eq|]. intros x Hx Hxy.
  pose proof (f_equal cs_frame Hxy) as Ef. pose proof (f_equal cs_document Hxy) as Ed. pose proof (f_equal cs_runtime Hxy) as Er.
  pose proof (f_equal cs_nav Hxy) as En. cbn in Ef, Ed, Er, En. apply fmap_None in En.
  set (m1 := created_monitor c (new_view frame d r) d r (m_active m) m).
  apply wp_bind. eapply (wp_emit_step _ _ m1); [exact Hk7|exact Hm| |].
  { cbn. rewrite En, Ef, Ed, Er. cbn. by rewrite bool_decide_eq_true_2. }
  intros s8 Hk8. apply wp_bind, wp_gets. cbn [id].
  assert (Hact : active_context s8 = k_active k).
  { pose proof (f_equal k_active Hk8) as E. exact E. }
  specialize (Rc (Rel_ids _ _ _ _ _ _ I4 R) Hc Hd Hr). cbn [k_ids k_set_ids k_contexts k_max k_active] in Rc. rewrite E4, E3, E2 in Rc. specialize (Rc Fc).
  rewrite E4' in Rc. specialize (Rc Fd Fr Hsize). apply wp_bind. rewrite Hact. pose proof (r_active _ _ _ _ _ R) as Hactive.
  unfold create_skel in Rc. cbn in Rc. destruct (k_active k) as [j|] eqn:Hj; cbn in Rc.
  - apply wp_ret, wp_ret. exists m1. split; [by rewrite Hk8|]. rewrite Hk8. unfold m1. rewrite <-Hactive. 
    match type of Rc with Rel _ _ _ ?kk _ => eapply (Rel_ext _ _ _ kk) end;
      [reflexivity|reflexivity|reflexivity|reflexivity|cbn; by rewrite Hj|reflexivity..|exact Rc].
  - apply wp_bind. eapply (wp_update_to _ (k_set_active (Some c) (core_skel s8))); [done|]. intros s9 Hk9. rewrite Hk8 in Hk9.
    eapply (wp_emit_step _ _ (set_m_active (Some c) m1)); [exact Hk9|reflexivity| |].
    { cbn. rewrite lookup_insert_eq. by rewrite bool_decide_eq_true_2. }
    intros s10 Hk10. apply wp_ret. exists (set_m_active (Some c) m1). split; [by rewrite Hk10|]. rewrite Hk10. rel_ext Rc.
Qed.

Lemma drop_inactive_split l : ∃ l', reverse l = reverse (drop_inactive l) ++ l' ∧ Forall (λ x, rs_active x = false) l'.
Proof.
  induction l as [|x l (l' & Hl & Hf)]; [by exists []|].
  change (drop_inactive (x :: l)) with (if rs_active x then x :: l else drop_inactive l).
  destruct (rs_active x) eqn:E; [by exists []; rewrite app_nil_r|].
  exists (l' ++ [x]). rewrite reverse_cons, Hl, <-app_assoc. split; [done|]. apply Forall_app. by split; [|apply Forall_singleton].
Qed.
Lemma safe_prune : safe prune_runtime_slots.
Proof.
  intros s (m & Hm & R). destruct (drop_inactive_split (reverse (runtime_slots s))) as (l' & Hl & Hf). rewrite reverse_involutive in Hl.
  set (l := reverse (drop_inactive (reverse (runtime_slots s)))) in *.
  eapply (wp_update_to _ (k_set_slots (rs_active <$> l) (core_skel s))); [done|]. intros s' Hs'. exists m. rewrite Hs'. split; [done|].
  apply Rel_slots; [|exact R]. intros i. cbn. rewrite !list_lookup_fmap, Hl, lookup_app. destruct (l !! i) as [z|]; [done|].
  intros (z & Hz & Ez)%fmap_Some. eapply Forall_lookup in Hf; [|exact Hz]. cbn in *. congruence.
Qed.

Lemma head_keys {V} (M : gmap positive V) :
  match head (btree_keys M) with Some j => is_Some (M !! j) | None => M = ∅ end.
Proof.
  destruct (btree_keys M) as [|j l] eqn:E; cbn.
  - apply map_eq. intros j. rewrite lookup_empty. apply eq_None_not_Some. rewrite <-elem_of_btree_keys, E. apply not_elem_of_nil.
  - apply elem_of_btree_keys. rewrite E. apply list_elem_of_here.
Qed.

(** What is left of a context without a navigation is removed. *)
Lemma wp_close_rest c y m (Q : result BrowserError BrowserCommandResult → BrowserCore → Prop) s k :
  core_skel s = k → k_monitor k = Some m → Rel P L None k m → k_contexts k !! c = Some y → cs_nav y = None →
  (∀ r s', Inv P L None (core_skel s') → Q r s') →
  wp (x ← expect_context c;
      _ ← update (λ s, set_contexts (delete c (contexts s)) s);
      _ ← control_remove_context c;
      _ ← slot_mut (bc_runtime_slot x) (λ z, {| rs_runtime := rs_runtime z; rs_active := false |});
      _ ← emit (RuntimeContextDestroyed c (bc_frame_id x) (bc_document_id x) (bc_runtime_context_id x));
      _ ← emit (DocumentDiscarded c (bc_frame_id x) (bc_document_id x) None);
      _ ← update (λ s, set_closed_contexts ({[c]} ∪ closed_contexts s) s);
      _ ← emit (BrowsingContextClosed c);
      s ← gets id;
      _ ← (if bool_decide (active_context s = Some c) then
             let next := head (btree_keys (contexts s)) in
             _ ← update (set_active_context next); emit (ActiveBrowsingContextChanged next)
           else mret ());
      _ ← prune_runtime_slots;
      mret Accepted) Q s.
Proof.
  intros Hk Hm R Hy Hnav HQ. destruct (Rel_view _ _ _ _ _ _ _ R Hy) as (v & Hv & Hf).
  assert (Hidle : v_stage v = Idle).
  { destruct Hf as (_ & _ & _ & Hf). rewrite Hnav in Hf. by destruct (v_stage v). }
  destruct Hf as (HA & HB & HC & _).
  apply wp_bind. eapply wp_expect_context; [exact Hk|exact Hy|]. intros x Hx Hxy. subst y. cbn in HA, HB, HC.
  apply wp_bind. eapply (wp_update_to _ (k_set_contexts (delete c (k_contexts k)) k)).
  { rewrite <-Hk. unfold core_skel, k_set_contexts. cbn. by rewrite fmap_delete. }
  intros s1 Hk1. apply wp_bind. eapply wp_control_remove_context; [exact Hk1|]. intros s2 Hk2.
  apply wp_bind. eapply (wp_slot_mut _ _ true false); [exact Hk2|exact (r_slot _ _ _ _ _ R _ _ Hy)|done|]. intros s3 Hk3.
  match type of Hk3 with _ = ?kk => set (k3 := kk) in * end.
  set (w1 := at_stage RuntimeGone v). set (w2 := at_stage DocumentGone v).
  apply wp_bind. eapply (wp_emit_step _ _ (put_view c w1 m)); [exact Hk3|exact Hm| |].
  { eapply framed_step; [reflexivity|reflexivity|exact Hv|done|]. cbn. rewrite Hidle. by rewrite bool_decide_eq_true_2. }
  intros s4 Hk4. apply wp_bind. eapply (wp_emit_step _ _ (put_view c w2 (put_view c w1 m))); [exact Hk4|reflexivity| |].
  { eapply (framed_step _ _ c _ w1); [reflexivity|reflexivity|cbn; apply lookup_insert_eq|done|]. cbn. by rewrite bool_decide_eq_true_2. }
  rewrite put_view_twice. intros s5 Hk5. apply wp_bind.
  eapply (wp_update_to _ (k_set_closed ({[c]} ∪ k_closed (core_skel s5)) (core_skel s5))); [done|].
  rewrite Hk5. intros s6 Hk6. apply wp_bind.
  eapply (wp_emit_step _ _ (closed_monitor c (m_active m) m)); [exact Hk6|reflexivity| |].
  { cbn. rewrite lookup_insert_eq. cbn. by rewrite delete_insert_eq. }
  intros s7 Hk7. apply wp_bind, wp_gets. cbn [id]. apply wp_bind.
  pose proof (f_equal k_active Hk7) as Hact. cbn in Hact.
  assert (Hlast : ∀ next s8, core_skel s8 = k_set_monitor (Some (closed_monitor c next m)) (close_skel c (ctx_skel x) next k) →
    match next with Some j => is_Some (delete c (k_contexts k) !! j) | None => delete c (k_contexts k) = ∅ end →
    wp (_ ← prune_runtime_slots; mret Accepted) Q s8).
  { intros next s8 Hk8 Hnext. pose proof (Rel_close P L k m c (ctx_skel x) next R Hy Hnext) as Rc. apply wp_bind.
    eapply wp_mono; [apply safe_prune; exists (closed_monitor c next m); rewrite Hk8; split; [done|rel_ext Rc]|].
    intros [[]|e] s9 Hs9; [apply wp_ret|]; by apply HQ. }
  assert (Hctx : k_contexts (core_skel s7) = delete c (k_contexts k)) by by rewrite Hk7.
  case_bool_decide as Hcase.
  - set (next := head (btree_keys (contexts s7))).
    assert (Hnext : match next with Some j => is_Some (delete c (k_contexts k) !! j) | None => delete c (k_contexts k) = ∅ end).
    { rewrite <-Hctx. pose proof (head_keys (contexts s7)) as Hh. fold next in Hh. destruct next as [j|].
      - rewrite skel_lookup. by apply fmap_is_Some.
      - cbn. by rewrite Hh, fmap_empty. }
    apply wp_bind. eapply (wp_update_to _ (k_set_active next (core_skel s7))); [done|]. rewrite Hk7. intros s8 Hk8.
    eapply (wp_emit_step _ _ (closed_monitor c next m)); [exact Hk8|reflexivity| |intros s9 Hk9; by apply (Hlast next)].
    pose proof (Rel_close P L k m c (ctx_skel x) next R Hy Hnext) as Rc. cbn. destruct next as [j|].
    + destruct Hnext as (z & Hz). destruct (Rel_view _ _ _ _ _ j z Rc Hz) as (w & Hw & _). cbn in Hw. rewrite Hw.
      by rewrite bool_decide_eq_true_2.
    + pose proof (Rel_dom _ _ _ _ _ Rc) as Hd. cbn in Hd. rewrite bool_decide_eq_true_2; [done|]. by apply Hd.
  - apply wp_ret, (Hlast (m_active m)).
    + rewrite Hk7. unfold close_skel, k_set_monitor, k_set_active. cbn. by rewrite <-(r_active _ _ _ _ _ R).
    + rewrite <-(r_active _ _ _ _ _ R). pose proof (r_focus _ _ _ _ _ R) as HF. destruct (k_active k) as [j|].
      * rewrite lookup_delete_ne; [done|]. intros <-. by rewrite Hact in Hcase.
      * by rewrite HF, lookup_empty in Hy.
Qed.
Lemma safe_close c : safe (close_context c).
Proof.
  intros s (m & Hm & R). apply wp_bind, wp_context_or; [|intros e _; by exists m].
  intros x Hx. assert (Hy : k_contexts (core_skel s) !! c = Some (ctx_skel x)) by by rewrite skel_lookup, Hx.
  apply wp_bind. destruct (bc_active_navigation x) as [act|] eqn:Hact.
  - assert (Ha : cs_nav (ctx_skel x) = Some (nav_skel act)) by (cbn; by rewrite Hact).
    eapply wp_finish; [reflexivity|exact Hm|exact R|done|done|congruence| |].
    + intros y' Hy' Hne. rewrite Hy in Hy'. injection Hy' as <-. by destruct (Hne _ Ha).
    + intros s' m' y' a' Hy' _ _ Hm' R' [Fc _ _]. rewrite Hy in Hy'. injection Hy' as <-.
      eapply (wp_close_rest c (cs_set_nav None (ctx_skel x))); [reflexivity|exact Hm'|exact R'|rewrite Fc; apply lookup_insert_eq|done|by auto].
  - apply wp_ret. eapply (wp_close_rest c); [reflexivity|exact Hm|exact R|exact Hy|cbn; by rewrite Hact|by auto].
Qed.

(** *** Input and dispatch *)

Section dispatch.
Context `{!CoreClock, !PageCommands, !InputJson, !PageInput}.

Lemma keeps_accepts_input c : keeps (ensure_host_accepts_input c).
Proof. unfold ensure_host_accepts_input. keeps_tac. Qed.
Local Hint Resolve keeps_accepts_input : keeps_db.
Lemma keeps_mouse fuel c d r node_id event_type event :
  keeps (dispatch_mouse_event url_query url_with_query parse_error_text debug_result fuel c d r node_id event_type event).
Proof.
  unfold dispatch_mouse_event. do 3 (apply keeps_bind; [keeps_tac|intros ?]). cbv zeta.
  destruct (_ =? 0)%N; [keeps_tac|]. destruct (default _ _) as [target_id target_tag].
  keeps_tac. apply keeps_automation.
Qed.
Lemma keeps_key fuel c d r event_type event :
  keeps (dispatch_key_event url_query url_with_query parse_error_text debug_result fuel c d r event_type event).
Proof. unfold dispatch_key_event. keeps_tac. apply keeps_automation. Qed.
Lemma keeps_text fuel c d r state :
  keeps (dispatch_text_input url_query url_with_query parse_error_text debug_result fuel c d r state).
Proof. unfold dispatch_text_input. keeps_tac. Qed.
Lemma keeps_find c d query case_sensitive forward : keeps (find_text_in c d query case_sensitive forward).
Proof.
  unfold find_text_in. do 2 (apply keeps_bind; [keeps_tac|intros ?]). destruct (find_text _ _ _ _) as [page found].
  apply keeps_bind; [by apply keeps_context_mut|intros _]. keeps_tac.
Qed.

Lemma keeps_accessibility_snapshot c d viewport : keeps (accessibility_snapshot c d viewport).
Proof. unfold accessibility_snapshot. keeps_tac. Qed.
Local Hint Resolve keeps_accessibility_snapshot : keeps_db.
Lemma keeps_accessibility_action fuel c d r viewport source_generation node_id action :
  keeps (dispatch_accessibility_action url_query url_with_query parse_error_text debug_result fuel c d r viewport source_generation
    node_id action).
Proof. unfold dispatch_accessibility_action. keeps_tac. Qed.

Lemma keeps_save session : keeps (save_profile_session session).
Proof. unfold save_profile_session. apply keeps_bind; [apply keeps_store_write|intros _; apply keeps_ret]. Qed.
Lemma keeps_reset_history c : keeps (reset_navigation_history c).
Proof. unfold reset_navigation_history. apply keeps_bind; [by apply keeps_context_mut|intros _; apply keeps_ret]. Qed.
Local Hint Resolve keeps_save keeps_clear_profile keeps_activate keeps_update_host_view keeps_set_page_zoom keeps_configure
  keeps_reset_history keeps_accessibility_action keeps_mouse keeps_key keeps_text keeps_find keeps_apply_renderer_commit : keeps_db.

Lemma safe_dispatch fuel command : safe (dispatch url_query url_with_query parse_error_text debug_result fuel command).
Proof.
  destruct command; cbn [dispatch]; try (apply safe_bind; [|intros ?; apply safe_ret]); try apply safe_create; try apply safe_close;
    apply keeps_safe; unfold snapshot_page, render_snapshot_of, query_selector_all, computed_style, page_diagnostics, document_text,
      focus_projection, form_submission_of, load_profile_session, save_current_profile_session, reload_context, stop, traverse_history,
      get_navigation_history; keeps_tac.
Qed.
Lemma keeps_navigate_html c url html : keeps (navigate_html c url html).
Proof. unfold navigate_html. keeps_tac. Qed.
Lemma keeps_start_loads : keeps start_pending_loads.
Proof. intros k0 s Hs. eapply wp_start_pending_loads; [reflexivity|]. intros s' Hs'. by eapply Kept_eq. Qed.
Lemma keeps_shutdown : keeps shutdown.
Proof.
  unfold shutdown. apply keeps_bind; [apply keeps_gets|intros s]. induction (btree_keys (contexts s)) as [|c cs IH]; cbn; [apply keeps_ret|].
  apply keeps_bind; [apply keeps_attempt, keeps_cancel|intros _; exact IH].
Qed.
End dispatch.

(** ** The work of a navigation *)

Local Abbreviation Done := (λ s, Inv P L None (core_skel s)).

(** A handler that has taken the work of a navigation at some stage *)
Definition held c n y a (st : NavStage) s : Prop :=
  ∃ m, k_monitor (core_skel s) = Some m ∧ Rel P L (Some (c, st)) (core_skel s) m ∧
    k_contexts (core_skel s) !! c = Some y ∧ cs_nav y = Some a ∧ ns_id a = n.
Lemma held_eq c n y a st s s' : held c n y a st s → core_skel s' = core_skel s → held c n y a st s'.
Proof. unfold held. by intros ? ->. Qed.
Lemma hole_only c c' (st : NavStage) : c' ≠ c → hole_of (Some (c, st)) c' = None.
Proof. apply hole_of_other. Qed.
Lemma current_of c n s y a :
  k_contexts (core_skel s) !! c = Some y → cs_nav y = Some a → ns_id a = n →
  ∃ x b, current_navigation c n s = Some (x, b) ∧ contexts s !! c = Some x ∧ bc_active_navigation x = Some b ∧
    ctx_skel x = y ∧ nav_skel b = a.
Proof.
  intros Hy Ha Hn. apply skel_lookup_inv in Hy as (x & Hx & <-). cbn in Ha. apply fmap_Some in Ha as (b & Hb & ->).
  exists x, b. split; [|done]. by apply current_navigation_Some.
Qed.
Lemma held_current c n y a st s :
  held c n y a st s →
  ∃ x b, current_navigation c n s = Some (x, b) ∧ contexts s !! c = Some x ∧ bc_active_navigation x = Some b ∧
    ctx_skel x = y ∧ nav_skel b = a.
Proof. intros (m & Hm & R & Hy & Ha & Hn). by apply current_of. Qed.
Lemma held_fits c n y a st s : held c n y a st s → ns_work a = None ∧ ns_pending a = 0 ∧ st ≠ AtRequest.
Proof.
  intros (m & Hm & R & Hy & Ha & Hn). destruct (Rel_view _ _ _ _ _ _ _ R Hy) as (v & _ & Hf).
  destruct (view_fits_nav _ _ _ _ Hf Ha) as (at_ & _ & Hfit). rewrite hole_of_self in Hfit. by destruct Hfit as ((? & ? & _ & ?) & _).
Qed.

Lemma wp_restore c n y a st work (Q : result BrowserError unit → BrowserCore → Prop) s :
  held c n y a st s → work_stage work = st → (∀ s', Done s' → Q (Ok tt) s') → wp (restore_navigation_work c n work) Q s.
Proof.
  intros Hh <- HQ. destruct (held_current _ _ _ _ _ _ Hh) as (x & b & Hc & Hx & Hb & Hxy & Hba). apply wp_bind, wp_gets. cbn [id].
  rewrite Hc. destruct (held_fits _ _ _ _ _ _ Hh) as (Hw & _ & _). destruct Hh as (m & Hm & R & Hy & Ha & Hn).
  rewrite <-Hba in Hw. cbn in Hw. apply fmap_None in Hw. rewrite Hw. apply wp_bind.
  eapply (wp_expect_active_mut _ _ _ _ _ _ a (ns_set_work (Some (work_stage work)) a));
    [reflexivity|exact Hy|exact Ha|by intros z <-|]. intros s1 Hk1.
  pose proof (Rel_restore P L _ m c y a Hy Ha _ R) as Rr. rewrite Hn in Rr.
  eapply (wp_update_to _ (k_set_queue (k_queue (core_skel s1) ++ [(c, n)]) (core_skel s1))); [done|]. rewrite Hk1. intros s2 Hk2.
  apply HQ. exists m. rewrite Hk2. split; [exact Hm|exact Rr].
Qed.
Lemma wp_held_fail c n y a st request_id e (Q : result BrowserError unit → BrowserCore → Prop) s :
  held c n y a st s → (∀ s', Done s' → Q (Ok tt) s') → wp (fail_navigation c n request_id e) Q s.
Proof.
  intros (m & Hm & R & Hy & Ha & Hn) HQ. eapply wp_fail; [reflexivity|exact Hm|exact R| |exact Hy|exact Ha|exact Hn|exact HQ].
  intros c' Hc'. by apply hole_only.
Qed.
Lemma wp_held_effects c n y a st f d r u e (Q : result BrowserError unit → BrowserCore → Prop) s :
  held c n y a st s → f = cs_frame y → d = cs_document y → r = cs_runtime y →
  (∀ s', core_skel s' = core_skel s → Q (Ok tt) s') → wp (emit (EffectsEvent c f d r u e)) Q s.
Proof. intros (m & Hm & R & Hy & Ha & Hn) Hf Hd Hr HQ. eapply wp_effects; [reflexivity|exact Hm|exact R|exact Hy|done..]. Qed.
Lemma wp_held_runtime_effects c n y a st f d r u e (Q : result BrowserError unit → BrowserCore → Prop) s :
  held c n y a st s → f = cs_frame y → d = cs_document y → r = cs_runtime y →
  (∀ s', core_skel s' = core_skel s → Q (Ok tt) s') → wp (emit_runtime_effects_event c f d r u e) Q s.
Proof. intros (m & Hm & R & Hy & Ha & Hn) Hf Hd Hr HQ. eapply wp_runtime_effects; [reflexivity|exact Hm|exact R|exact Hy|done..]. Qed.
Lemma wp_held_realm {A} c n y a st slot (f : Realm → Realm * A) (Q : result BrowserError A → BrowserCore → Prop) s :
  held c n y a st s → slot = cs_slot y → (∀ z s', core_skel s' = core_skel s → Q (Ok z) s') → wp (in_realm c slot f) Q s.
Proof.
  intros (m & Hm & R & Hy & Ha & Hn) -> HQ. eapply wp_in_realm; [reflexivity|exact Hy|exact (r_slot _ _ _ _ _ R _ _ Hy)|exact HQ].
Qed.
Lemma wp_held_slot c n y a st slot f (Q : result BrowserError unit → BrowserCore → Prop) s :
  held c n y a st s → slot = cs_slot y → (∀ x, rs_active (f x) = rs_active x) →
  (∀ s', core_skel s' = core_skel s → Q (Ok tt) s') → wp (slot_mut slot f) Q s.
Proof.
  intros (m & Hm & R & Hy & Ha & Hn) -> Hf HQ. eapply wp_slot_neutral; [reflexivity|exact (r_slot _ _ _ _ _ R _ _ Hy)|exact Hf|exact HQ].
Qed.
Lemma wp_held_runtime {A} c n y a st slot (f : JsRuntime → JsRuntime * A) (Q : result BrowserError A → BrowserCore → Prop) s :
  held c n y a st s → slot = cs_slot y → (∀ z s', core_skel s' = core_skel s → Q (Ok z) s') → wp (runtime_mut slot f) Q s.
Proof.
  intros (m & Hm & R & Hy & Ha & Hn) -> HQ. eapply wp_runtime_mut; [reflexivity|exact (r_slot _ _ _ _ _ R _ _ Hy)|exact HQ].
Qed.
Lemma wp_held_context c n y a st (Q : result BrowserError BrowsingContext → BrowserCore → Prop) s :
  held c n y a st s → (∀ x, contexts s !! c = Some x → ctx_skel x = y → Q (Ok x) s) → wp (expect_context c) Q s.
Proof. intros (m & Hm & R & Hy & Ha & Hn) HQ. eapply wp_expect_context; [reflexivity|exact Hy|exact HQ]. Qed.
Lemma wp_held_context_mut c n y a st f (Q : result BrowserError unit → BrowserCore → Prop) s :
  held c n y a st s → (∀ x, ctx_skel (f x) = ctx_skel x) → (∀ s', core_skel s' = core_skel s → Q (Ok tt) s') →
  wp (expect_context_mut c f) Q s.
Proof.
  intros (m & Hm & R & Hy & Ha & Hn) Hf HQ. eapply (wp_expect_context_mut _ _ _ _ _ y y); [reflexivity|exact Hy|intros x <-; apply Hf|].
  intros s' Hs'. apply HQ. rewrite Hs'. by apply k_context_id.
Qed.
Lemma wp_held_baseline `{!CoreClock} c n y a st slot (Q : result BrowserError (result BrowserError _) → BrowserCore → Prop) s :
  held c n y a st s → slot = cs_slot y → (∀ z s', core_skel s' = core_skel s → Q (Ok z) s') → wp (resource_baseline slot) Q s.
Proof.
  intros (m & Hm & R & Hy & Ha & Hn) -> HQ. apply wp_bind, wp_gets, wp_bind.
  eapply wp_expect_slot; [reflexivity|exact (r_slot _ _ _ _ _ R _ _ Hy)|]. intros x _ _.
  destruct (network_cookie_snapshots _) as [sn|e]; [|by apply wp_ret, HQ]. apply wp_bind, wp_attempt.
  eapply wp_allocate_request; [reflexivity|]. intros r s' Hs'. by apply wp_ret, HQ.
Qed.
(** A load is started. *)
Lemma wp_held_start c n y a task f (Q : result BrowserError unit → BrowserCore → Prop) s :
  held c n y a AtSubresources s → source_token (task, true) = None →
  (∀ t b, loads_pending b = 0 → nav_skel (f t b) = ns_set_pending 1 (nav_skel b)) →
  (∀ s', Done s' → Q (Ok tt) s') →
  wp (t ← spawn task true; expect_active_mut c (f t)) Q s.
Proof.
  intros Hh Ht Hf HQ. destruct (held_fits _ _ _ _ _ _ Hh) as (_ & Hp & _). destruct Hh as (m & Hm & R & Hy & Ha & Hn).
  apply wp_bind. eapply wp_spawn_resource; [exact Ht|reflexivity|]. intros t s1 Hk1.
  eapply (wp_expect_active_mut _ _ _ _ _ y a (ns_set_pending 1 a)); [exact Hk1|exact Hy|exact Ha| |].
  - intros b <-. by apply Hf.
  - intros s2 Hk2. apply HQ. exists m. rewrite Hk2. split; [exact Hm|]. pose proof (Rel_wait P L _ m c y a Hy Ha R) as Rw.
    eapply (Rel_sources _ _ _ _ _ (delete t (k_sources (core_skel s)))) in Rw; [rel_ext Rw|].
    intros j p. cbn. rewrite lookup_delete. by case_decide.
Qed.

Lemma wp_current_request c (Q : result BrowserError (option RequestId) → BrowserCore → Prop) s :
  (∀ r, Q (Ok r) s) → wp (current_request_id c) Q s.
Proof. intros HQ. by apply wp_bind, wp_gets, wp_ret. Qed.
Lemma pending_none b : loads_pending b = 0 → an_pending_script b = None ∧ an_pending_stylesheet b = None ∧ an_pending_image b = None.
Proof. unfold loads_pending, one. by destruct (an_pending_script b), (an_pending_stylesheet b), (an_pending_image b). Qed.

Section work.
Context `{!CoreClock}.

(** Open the handler: the context and the navigation it reads are those of [held]. *)
Ltac open_held Hh x b Hxy :=
  let Hc := fresh "Hc" in let Hx := fresh "Hx" in let Hb := fresh "Hb" in let Hba := fresh "Hba" in
  destruct (held_current _ _ _ _ _ _ Hh) as (x & b & Hc & Hx & Hb & Hxy & Hba); apply wp_bind, wp_gets; cbn [id]; rewrite Hc; clear Hc.

Lemma wp_advance_stylesheet c n y a work s :
  held c n y a AtSubresources s → wp (advance_stylesheet_work c n work) (λ _ s', Done s') s.
Proof.
  intros Hh. open_held Hh x b Hxy. destruct (stylesheets_next _ _) as [runner [[|request]|]].
  - by eapply wp_restore.
  - apply wp_bind. eapply wp_held_baseline; [exact Hh|by rewrite <-Hxy|]. intros [[baseline r]|e] s1 Hk1.
    + pose proof (held_eq _ _ _ _ _ _ _ Hh Hk1) as Hh1.
      unfold start_external_stylesheet_load. cbn [yk_context_id]. eapply wp_held_start; [exact Hh1|done| |done].
      intros t z (Hz1 & Hz2 & Hz3)%pending_none. unfold nav_skel, loads_pending. cbn. by rewrite Hz1, Hz3.
    + pose proof (held_eq _ _ _ _ _ _ _ Hh Hk1) as Hh1. apply wp_bind.
      eapply wp_held_effects; [exact Hh1|by rewrite <-Hxy..|]. intros s2 Hk2. eapply wp_restore; [by eapply held_eq|done|done].
  - apply wp_bind. eapply wp_held_realm; [exact Hh|by rewrite <-Hxy|]. intros [z|e] s1 Hk1; pose proof (held_eq _ _ _ _ _ _ _ Hh Hk1) as Hh1.
    + apply wp_bind. eapply wp_held_context; [exact Hh1|]. intros x' _ _. by eapply wp_restore.
    + apply wp_bind, wp_current_request. intros r. by eapply wp_held_fail.
Qed.
Lemma wp_advance_image c n y a work s :
  held c n y a AtSubresources s → wp (advance_image_work c n work) (λ _ s', Done s') s.
Proof.
  intros Hh. open_held Hh x b Hxy. destruct (images_next _ _) as [runner [[|request]|]].
  - by eapply wp_restore.
  - apply wp_bind. eapply wp_held_baseline; [exact Hh|by rewrite <-Hxy|]. intros [[baseline r]|e] s1 Hk1.
    + pose proof (held_eq _ _ _ _ _ _ _ Hh Hk1) as Hh1.
      unfold start_external_image_load. cbn [ik_context_id]. eapply wp_held_start; [exact Hh1|done| |done].
      intros t z (Hz1 & Hz2 & Hz3)%pending_none. unfold nav_skel, loads_pending. cbn. by rewrite Hz1, Hz2.
    + pose proof (held_eq _ _ _ _ _ _ _ Hh Hk1) as Hh1. apply wp_bind.
      eapply wp_held_effects; [exact Hh1|by rewrite <-Hxy..|]. intros s2 Hk2. eapply wp_restore; [by eapply held_eq|done|done].
  - by eapply wp_restore.
Qed.
Lemma wp_advance_script c n y a work s :
  held c n y a AtSubresources s → wp (advance_script_work c n work) (λ _ s', Done s') s.
Proof.
  intros Hh. open_held Hh x b Hxy. destruct (next_script _ _) as [work' step].
  assert (Hrun : wp (
    out ← in_realm c (bc_runtime_slot x) (run_item (run_script_step step));
    let '(item, effects_result, actions_result) := out in
    recovery ← in_realm c (bc_runtime_slot x) recover_cancelled_module_realm;
    match recovery with
    | Err e => request_id ← current_request_id c; fail_navigation c n request_id (engine_error (engine_error_text e))
    | Ok _ =>
        let effects := gather_effects RuntimeEffects_default item effects_result actions_result in
        let work := set_actions (gather_actions (sw_actions work') actions_result) work' in
        s ← gets id;
        if negb (bool_decide (is_Some (current_navigation c n s))) then mret ()
        else
          _ ← emit_runtime_effects_event c (bc_frame_id x) (bc_document_id x) (bc_runtime_context_id x) (page_url (bc_page x)) effects;
          restore_navigation_work c n
            (match item with Some _ => WorkScripts work | None => WorkLifecycle StageDomContentLoaded (sw_actions work) end)
    end) (λ _ s', Done s') s).
  { apply wp_bind. eapply wp_held_realm; [exact Hh|by rewrite <-Hxy|]. intros [[item effects_result] actions_result] s1 Hk1.
    pose proof (held_eq _ _ _ _ _ _ _ Hh Hk1) as Hh1. apply wp_bind.
    eapply wp_held_realm; [exact Hh1|by rewrite <-Hxy|]. intros [z|e] s2 Hk2; pose proof (held_eq _ _ _ _ _ _ _ Hh1 Hk2) as Hh2.
    - apply wp_bind, wp_gets. cbn [id]. destruct (held_current _ _ _ _ _ _ Hh2) as (x2 & b2 & -> & _).
      rewrite bool_decide_eq_true_2 by done. cbn [negb]. apply wp_bind.
      eapply wp_held_runtime_effects; [exact Hh2|by rewrite <-Hxy..|]. intros s3 Hk3.
      eapply wp_restore; [by eapply held_eq|by destruct item|done].
    - apply wp_bind, wp_current_request. intros r. by eapply wp_held_fail. }
  destruct step as [source|[| | |diagnostics error map|request]|]; try exact Hrun; clear Hrun.
  - cbv zeta. apply wp_bind.
    assert (Hmap : ∀ Q : result BrowserError unit → BrowserCore → Prop, (∀ s', core_skel s' = core_skel s → Q (Ok tt) s') →
      wp (match map with
          | Some map => slot_mut (bc_runtime_slot x) (λ z, {| rs_runtime := set_document_import_map map (rs_runtime z); rs_active := rs_active z |})
          | None => mret ()
          end) Q s).
    { intros Q HQ. destruct map; [|by apply wp_ret, HQ]. eapply wp_held_slot; [exact Hh|by rewrite <-Hxy|done|exact HQ]. }
    apply Hmap. intros s1 Hk1. pose proof (held_eq _ _ _ _ _ _ _ Hh Hk1) as Hh1. apply wp_bind.
    eapply wp_held_runtime_effects; [exact Hh1|by rewrite <-Hxy..|]. intros s2 Hk2. eapply wp_restore; [by eapply held_eq|done|done].
  - apply wp_bind. eapply wp_held_baseline; [exact Hh|by rewrite <-Hxy|]. intros [[baseline r]|e] s1 Hk1.
    + pose proof (held_eq _ _ _ _ _ _ _ Hh Hk1) as Hh1.
      unfold start_external_script_load. cbn [sk_context_id]. eapply wp_held_start; [exact Hh1|done| |done].
      intros t z (Hz1 & Hz2 & Hz3)%pending_none. unfold nav_skel, loads_pending. cbn. by rewrite Hz2, Hz3.
    + pose proof (held_eq _ _ _ _ _ _ _ Hh Hk1) as Hh1. apply wp_bind.
      eapply wp_held_effects; [exact Hh1|by rewrite <-Hxy..|]. intros s2 Hk2. eapply wp_restore; [by eapply held_eq|done|done].
Qed.

(** *** The last stages *)

Lemma held_view c n y a st s m :
  k_monitor (core_skel s) = Some m → held c n y a st s →
  ∃ v, m_contexts m !! c = Some v ∧ v_stage v = Navigating n (Some (ns_request a)) st ∧
    v_frame v = cs_frame y ∧ v_document v = cs_document y ∧ v_runtime v = cs_runtime y.
Proof.
  intros Hm0 (m' & Hm & R & Hy & Ha & Hn). rewrite Hm0 in Hm. injection Hm as <-.
  destruct (Rel_view _ _ _ _ _ _ _ R Hy) as (v & Hv & Hf). destruct (view_fits_nav _ _ _ _ Hf Ha) as (at_ & Hs & Hfit).
  rewrite hole_of_self in Hfit. destruct Hfit as ((_ & _ & -> & _) & _). destruct Hf as (HA & HB & HC & _). rewrite Hn in Hs. by exists v.
Qed.
(** A phase and the event that follows it *)
Lemma wp_held_stage {B} c n y a st p mid st' e f (rest : C B) (Q : result BrowserError B → BrowserCore → Prop) s :
  held c n y a st s → f = cs_frame y → phase_step st p = Some mid → event_frame e = Some (c, f) →
  (∀ m, monitor_step m e = ('(c, f) ← event_frame e; v ← m_contexts m !! c;
    if bool_decide (f = v_frame v) then s ← stage_step v e; Some (put_view c (at_stage s v) m) else None)) →
  (∀ v r, v_document v = cs_document y → v_stage v = Navigating n r mid → stage_step v e = Some (Navigating n r st')) →
  resting st' = true → st' ≠ AtRequest →
  (∀ s', held c n y a st' s' → wp rest Q s') → wp (_ ← emit_phase c f n p; _ ← emit e; rest) Q s.
Proof.
  intros Hh Hf Hp He Hgen Hstep Hr Hne HQ. pose proof Hh as (m & Hm & R & Hy & Ha & Hn).
  destruct (held_view _ _ _ _ _ _ _ Hm Hh) as (v & Hv & Hs & HA & HB & HC). rewrite <-HA in Hf.
  set (w1 := at_stage (Navigating n (Some (ns_request a)) mid) v). set (w2 := at_stage (Navigating n (Some (ns_request a)) st') v).
  apply wp_bind. eapply (wp_emit_step _ _ (put_view c w1 m)); [reflexivity|exact Hm|by eapply step_phase|]. intros s1 Hk1.
  apply wp_bind. eapply (wp_emit_step _ _ (put_view c w2 (put_view c w1 m))); [exact Hk1|reflexivity| |].
  { eapply (framed_step _ _ c f w1); [apply Hgen|exact He|cbn; apply lookup_insert_eq|exact Hf|]. by apply Hstep. }
  rewrite put_view_twice. intros s2 Hk2. apply HQ. exists (put_view c w2 m). rewrite Hk2. split; [done|]. split; [|done].
  pose proof (Rel_advance P L _ m c y a Hy Ha st st' v R Hv Hne Hr) as Ra. rewrite Hn in Ra. rel_ext Ra.
Qed.

Lemma wp_settle fuel c n y a x actions s :
  held c n y a AtLoadEvent s → ctx_skel x = y →
  wp (settle url_query url_with_query parse_error_text debug_result fuel c n x actions) (λ _ s', Done s') s.
Proof.
  intros Hh Hxy. apply wp_bind. eapply wp_held_realm; [exact Hh|by rewrite <-Hxy|].
  intros [[item effects_result] actions_result] s1 Hk1. pose proof (held_eq _ _ _ _ _ _ _ Hh Hk1) as Hh1. apply wp_bind.
  eapply wp_held_realm; [exact Hh1|by rewrite <-Hxy|]. intros [z|e] s2 Hk2; pose proof (held_eq _ _ _ _ _ _ _ Hh1 Hk2) as Hh2.
  2:{ apply wp_bind, wp_current_request. intros r. by eapply wp_held_fail. }
  destruct (match item with Some (Err e) => is_script_interrupted e | _ => false end).
  { apply wp_ret. destruct Hh2 as (m & Hm & R & Hy & Ha & Hn). exists m. split; [exact Hm|]. exact (Rel_leave P L _ m c y a Hy Ha R). }
  apply wp_bind. eapply wp_held_runtime_effects; [exact Hh2|by rewrite <-Hxy..|]. intros s3 Hk3.
  pose proof (held_eq _ _ _ _ _ _ _ Hh2 Hk3) as Hh3. pose proof Hh3 as (m & Hm & R & Hy & Ha & Hn). apply wp_bind, wp_attempt.
  eapply wp_finish; [reflexivity|exact Hm|exact R|intros c' Hc'; by apply hole_only| | | |].
  - intros _ v r at_ Hv Hs. destruct (held_view _ _ _ _ _ _ _ Hm Hh3) as (v' & Hv' & Hs' & _). rewrite Hv in Hv'. injection Hv' as <-. congruence.
  - congruence.
  - intros y' Hy' Hne. rewrite Hy in Hy'. injection Hy' as <-. by destruct (Hne _ Ha).
  - intros s4 m' y' a' _ _ _ Hm' R' _. apply wp_bind, wp_attempt.
    eapply wp_mono; [apply (keeps_safe _ (keeps_apply_actions fuel c _ (Some n))); by exists m'|]. intros r s5 Hs5. by apply wp_ret.
Qed.
Lemma wp_lifecycle fuel c n y a stage actions s :
  held c n y a (work_stage (WorkLifecycle stage actions)) s →
  wp (advance_lifecycle url_query url_with_query parse_error_text debug_result fuel c n stage actions) (λ _ s', Done s') s.
Proof.
  intros Hh. open_held Hh x b Hxy. assert (Hd : bc_document_id x = cs_document y) by by rewrite <-Hxy.
  destruct stage; cbn in Hh.
  - eapply (wp_held_stage _ _ _ _ _ _ AtDom AtDomEvent); [exact Hh|by rewrite <-Hxy|done|done|done| |done|done|].
    + intros v r Hv Hs. cbn. rewrite Hs. rewrite bool_decide_eq_true_2; [done|]. by rewrite Hd.
    + intros s' Hs'. by eapply wp_restore.
  - eapply (wp_held_stage _ _ _ _ _ _ AtLoad AtLoadEvent); [exact Hh|by rewrite <-Hxy|done|done|done| |done|done|].
    + intros v r Hv Hs. cbn. rewrite Hs. rewrite bool_decide_eq_true_2; [done|]. by rewrite Hd.
    + intros s' Hs'. by eapply wp_restore.
  - by eapply wp_settle.
Qed.

(** *** The document is committed *)

Lemma held_ids c n y a st s s' i m :
  held c n y a st s → k_monitor (core_skel s) = Some m → core_skel s' = k_set_ids i (core_skel s) → ids_fresh i m →
  held c n y a st s'.
Proof.
  intros (m' & Hm & R & Hy & Ha & Hn) Hm' Hs' Hi. rewrite Hm' in Hm. injection Hm as <-. unfold held. rewrite Hs'. exists m. split; [done|].
  split; [by apply Rel_ids|]. done.
Qed.
Lemma wp_record_visit u (Q : result BrowserError unit → BrowserCore → Prop) s :
  (∀ r s', core_skel s' = core_skel s → Q r s') → wp (record_visit_url u) Q s.
Proof.
  intros HQ. apply wp_bind, wp_gets. cbn [id]. destruct (record_visit _ _ _ _) as [store|e]; [|by apply wp_throw, HQ].
  eapply wp_update_neutral; [reflexivity|done|]. intros s' Hs'. by apply HQ.
Qed.

Lemma wp_commit c n y a page s :
  held c n y a AtParse s → wp (commit_parsed_navigation c n page) (λ _ s', Done s') s.
Proof.
  intros Hh. open_held Hh x b Hxy. pose proof Hh as (m & Hm & R & Hy & Ha & Hn). cbv zeta.
  assert (Hr : an_request_id b = ns_request a) by by rewrite <-Hba.
  apply wp_bind, wp_attempt. eapply wp_allocate_document; [reflexivity|apply (r_ids _ _ _ _ _ R)| |].
  { intros e s1 i Hk1 Hi. eapply wp_held_fail; [by eapply held_ids|done]. }
  intros d s1 i1 Hk1 I1 Hd Fd _. apply wp_bind, wp_attempt.
  eapply wp_allocate_runtime; [exact Hk1|exact I1| |].
  { intros e s2 i Hk2 Hi. eapply wp_held_fail; [by eapply held_ids|done]. }
  intros r s2 i Hk2 Hi Hrt Fr _ E. cbn in E. change (core_skel s2 = k_set_ids i (core_skel s)) in Hk2.
  assert (Hh2 : held c n y a AtParse s2) by by eapply held_ids.
  apply wp_bind, wp_gets. cbn [id]. destruct (_ <=? _)%N; [by eapply wp_held_fail|].
  apply wp_bind, wp_bind, wp_gets, wp_ret. destruct (runtime_new _ _ _ _) as [rt|e]; [|by eapply wp_held_fail].
  apply wp_bind, wp_gets. cbn [id]. destruct (evaluate _ _) as [[[[rt' page'] store] next] res].
  apply wp_bind. eapply wp_update_neutral; [reflexivity|done|]. intros s3 Hk3.
  pose proof (held_eq _ _ _ _ _ _ _ Hh2 Hk3) as Hh3. destruct res as [js|e]; [|by eapply wp_held_fail].
  apply wp_bind, wp_attempt, wp_record_visit. intros [[]|e] s4 Hk4; pose proof (held_eq _ _ _ _ _ _ _ Hh3 Hk4) as Hh4;
    [|by eapply wp_held_fail].
  rewrite Hk3, Hk2 in Hk4. rewrite <-E in Fd. clear E s1 Hk1 i1 I1 s2 Hk2 Hh2 s3 Hk3 Hh3 Hh4.
  destruct (held_view _ _ _ _ _ _ _ Hm Hh) as (v & Hv & Hs & HA & HB & HC).
  set (k := core_skel s) in *.
  assert (Hslot : length (runtime_slots s4) = length (k_slots k)).
  { replace (k_slots k) with (k_slots (core_skel s4)) by by rewrite Hk4. cbn. by rewrite length_fmap. }
  apply wp_bind, wp_gets. cbn [id]. cbv zeta. rewrite Hslot.
  apply wp_bind. eapply (wp_update_to _ (k_set_slots (k_slots (core_skel s4) ++ [true]) (core_skel s4))).
  { unfold core_skel, k_set_slots. cbn. by rewrite fmap_app. }
  rewrite Hk4. intros s5 Hk5. apply wp_bind. eapply wp_install_runtime; [exact Hk5|]. intros s6 Hk6.
  assert (Hyslot : bc_runtime_slot x = cs_slot y) by by rewrite <-Hxy. rewrite Hyslot.
  apply wp_bind. eapply (wp_slot_mut _ _ true false); [exact Hk6| |done|].
  { cbn. apply lookup_app_l_Some. exact (r_slot _ _ _ _ _ R _ _ Hy). }
  intros s7 Hk7. clear s5 Hk5 s6 Hk6. match type of Hk7 with _ = ?kk => set (k7 := kk) in * end.
  assert (Ef : bc_frame_id x = v_frame v) by (rewrite HA, <-Hxy; done).
  set (w at_ := at_stage (Navigating n (Some (ns_request a)) at_) v).
  apply wp_bind. eapply (wp_emit_step _ _ (put_view c (w AtDestroyed) m)); [exact Hk7|exact Hm| |].
  { eapply framed_step; [reflexivity|reflexivity|exact Hv|exact Ef|]. cbn. rewrite Hs. rewrite bool_decide_eq_true_2; [done|].
    by rewrite HB, HC, <-Hxy. }
  intros s8 Hk8. apply wp_bind. eapply (wp_emit_step _ _ (put_view c (w AtDiscarded) (put_view c (w AtDestroyed) m))); [exact Hk8|reflexivity| |].
  { eapply (framed_step _ _ c _ (w AtDestroyed)); [reflexivity|reflexivity|cbn; apply lookup_insert_eq|exact Ef|]. cbn.
    rewrite bool_decide_eq_true_2; [done|]. by rewrite HB, <-Hxy. }
  rewrite put_view_twice. intros s9 Hk9.
  set (y1 := {| cs_frame := cs_frame y; cs_document := d; cs_runtime := r; cs_slot := length (k_slots k); cs_nav := cs_nav y |}).
  apply wp_bind. eapply (wp_expect_context_mut _ _ _ _ _ y y1); [exact Hk9|exact Hy|by intros z <-|]. intros s10 Hk10.
  apply wp_bind. eapply (wp_expect_active_mut _ _ _ _ _ y1 a (ns_set_work (Some AtSubresources) a));
    [exact Hk10|cbn; apply lookup_insert_eq|exact Ha|by intros z <-|]. intros s11 Hk11.
  (* the events about the new document *)
  set (u at_ := {| v_frame := v_frame v; v_document := d; v_runtime := r; v_stage := Navigating n (Some (ns_request a)) at_ |}).
  set (M at_ := put_view c (u at_) (set_document_marks d r m)).
  assert (HM : ∀ at_, m_contexts (M at_) !! c = Some (u at_)) by (intros; cbn; apply lookup_insert_eq).
  assert (HMM : ∀ at_ at', put_view c (at_stage (Navigating n (Some (ns_request a)) at') (u at_)) (M at_) = M at').
  { intros. unfold M. by rewrite put_view_twice. }
  apply wp_bind. eapply (wp_emit_step _ _ (M AtCommitted)); [exact Hk11|reflexivity| |].
  { cbn. rewrite lookup_insert_eq. cbn. rewrite Hr, bool_decide_eq_true_2 by done. unfold M, put_view. cbn.
    by rewrite insert_insert_eq, Ef. }
  intros s12 Hk12. apply wp_bind. eapply (wp_emit_step _ _ (M AtCreated)); [exact Hk12|reflexivity| |].
  { etrans; [eapply framed_step; [reflexivity|reflexivity|apply HM|exact Ef|]|f_equal; apply HMM].
    cbn. rewrite bool_decide_eq_true_2 by done. reflexivity. }
  intros s13 Hk13. apply wp_bind. eapply (wp_emit_step _ _ (M AtSubresources)); [exact Hk13|reflexivity| |].
  { etrans; [eapply step_phase; [apply HM|exact Ef|reflexivity|reflexivity]|f_equal; apply HMM]. }
  intros s14 Hk14.
  eapply (wp_update_to _ (k_set_queue (k_queue (core_skel s14) ++ [(c, n)]) (core_skel s14))); [done|]. rewrite Hk14. intros s15 Hk15.
  exists (M AtSubresources). rewrite Hk15. split; [done|].
  pose proof (Rel_commit P L (k_set_ids i k) m c y a d r) as Rc. specialize (Rc (Rel_ids _ _ _ _ _ _ Hi R) Hy Ha Hd Hrt Fd Fr).
  unfold committed_view in Rc. rewrite Hn, <-HA in Rc.
  eapply (Rel_ext _ _ _ (commit_skel c y a d r (k_set_ids i k))); [reflexivity|cbn|reflexivity..| |reflexivity|cbn|exact Rc].
  - by rewrite insert_insert_eq.
  - pose proof (control_id _ _ _ _ _ _ _ R Hy) as Hctl. fold k in Hctl. 
    change (k_control k = <[c := mjoin (k_control k !! c)]> (k_control k)).
    assert (k_control k !! c = Some (ns_id <$> cs_nav y)) as -> by (rewrite <-Hctl; apply lookup_insert_eq). exact (eq_sym Hctl).
  - by rewrite Hn.
Qed.

Lemma wp_run_work fuel c n y a request_id work s :
  held c n y a (work_stage work) s →
  wp (run_work url_query url_with_query parse_error_text debug_result fuel c n request_id work) (λ _ s', Done s') s.
Proof.
  intros Hh. destruct work as [parser|work|work|work|stage actions]; cbn [run_work].
  - destruct (parser_advance _ _) as [parser' [[page|]|text]]; [by eapply wp_commit|by eapply wp_restore|by eapply wp_held_fail].
  - by eapply wp_advance_stylesheet.
  - by eapply wp_advance_image.
  - by eapply wp_advance_script.
  - by eapply wp_lifecycle.
Qed.
Lemma work_stage_started work : work_stage work ≠ AtRequest.
Proof. by destruct work as [| | | |[]]. Qed.
Lemma safe_advance fuel :
  safe (advance_navigation_work url_query url_with_query parse_error_text debug_result fuel).
Proof.
  intros s (m & Hm & R). apply wp_bind, wp_gets. cbn [id]. destruct (pending_navigation_work s) as [|[c n] rest] eqn:Hq.
  { apply wp_ret. by exists m. }
  apply wp_bind. eapply (wp_update_to _ (k_set_queue rest (core_skel s))); [done|]. intros s1 Hk1.
  destruct (current_navigation c n s) as [[x b]|] eqn:Hc.
  - destruct (current_skel _ _ _ _ _ Hc) as (Hy & Ha & Hn).
    destruct (an_work b) as [work|] eqn:Hw.
    + assert (Hw' : ns_work (nav_skel b) = Some (work_stage work)) by (cbn; by rewrite Hw).
      apply wp_bind. eapply (wp_expect_active_mut _ _ _ _ _ _ _ (ns_set_work None (nav_skel b))); [exact Hk1|exact Hy|exact Ha| |].
      { intros z Hz. rewrite <-Hz. done. }
      intros s2 Hk2. pose proof (Rel_take P L _ m c _ _ Hy Ha _ rest R Hw') as Rt. rewrite Hn in Rt. specialize (Rt Hq).
      apply wp_bind. eapply wp_mono.
      { eapply (wp_run_work fuel c n (cs_set_nav (Some (ns_set_work None (nav_skel b))) (ctx_skel x)) (ns_set_work None (nav_skel b))).
        exists m. rewrite Hk2. split; [exact Hm|]. split; [exact Rt|]. split; [cbn; apply lookup_insert_eq|]. done. }
      intros [[]|e] s3 Hs3; [by apply wp_ret|exact Hs3].
    + exfalso. pose proof (r_queue _ _ _ _ _ R _ _ _ Hy Ha) as [_ Hin]. rewrite Hn in Hin. cbn in Hin. rewrite Hw in Hin.
      destruct Hin as [? ?]; [|done]. rewrite Hq. apply list_elem_of_here.
  - apply wp_ret. exists m. rewrite Hk1. split; [exact Hm|]. eapply Rel_unqueue; [exact R|exact Hq|].
    intros y a Hy Ha Hn. destruct (current_of _ _ _ _ _ Hy Ha Hn) as (x & b & Hc' & _). congruence.
Qed.

(** ** The answers of loads *)

Lemma keeps_cookie_delta delta : keeps (apply_cookie_delta delta).
Proof. by apply keeps_update. Qed.
Lemma wp_cookie_delta delta (Q : result BrowserError unit → BrowserCore → Prop) s :
  (∀ s', core_skel s' = core_skel s → Q (Ok tt) s') → wp (apply_cookie_delta delta) Q s.
Proof. intros HQ. eapply wp_update_neutral; [reflexivity|done|exact HQ]. Qed.

Lemma wp_complete_navigation completion m s :
  let c := sc_context_id completion in let n := sc_navigation_id completion in
  k_monitor (core_skel s) = Some m → Rel P L None (core_skel s) m → ¬ outstanding P (core_skel s) c n → at_request m c n →
  wp (complete_navigation completion) (λ _ s', Done s') s.
Proof.
  intros c n Hm R Hout Hat. apply wp_bind, wp_gets. cbn [id]. fold c n.
  destruct (current_navigation c n s) as [[x b]|] eqn:Hc; [|apply wp_ret; by exists m].
  destruct (current_skel _ _ _ _ _ Hc) as (Hy & Ha & Hn). set (y := ctx_skel x) in *. set (a := nav_skel b) in *.
  destruct (Rel_view _ _ _ _ _ _ _ R Hy) as (v & Hv & Hf). destruct (view_fits_nav _ _ _ _ Hf Ha) as (at_ & Hs & _).
  pose proof Hs as Hs'. rewrite Hn in Hs'. assert (at_ = AtRequest) as -> by exact (Hat _ _ _ Hv Hs'). destruct Hf as (HA & _).
  apply wp_bind. eapply (wp_active_neutral _ _ y a); [reflexivity|exact Hy|exact Ha|done|]. intros s1 Hk1.
  apply wp_bind, wp_cookie_delta. intros s2 Hk2. rewrite Hk1 in Hk2.
  destruct (sc_result completion) as [loaded|e].
  2:{ eapply (wp_fail P L None m); [exact Hk2|exact Hm|exact R|done|exact Hy|exact Ha|exact Hn|done]. }
  set (w at_ := at_stage (Navigating n (Some (ns_request a)) at_) v).
  apply wp_bind. eapply (wp_emit_step _ _ (put_view c (w AtResponse) m)); [exact Hk2|exact Hm|by eapply step_phase|].
  intros s3 Hk3. apply wp_bind. eapply (wp_emit_step _ _ (put_view c (w AtCommit) (put_view c (w AtResponse) m))); [exact Hk3|reflexivity| |].
  { eapply (step_phase _ _ _ (w AtResponse)); [cbn; apply lookup_insert_eq|done..]. }
  rewrite put_view_twice. intros s4 Hk4. cbv zeta. apply wp_bind.
  eapply (wp_expect_active_mut _ _ _ _ _ y a (ns_set_work (Some AtParse) a)); [exact Hk4|exact Hy|exact Ha|by intros z <-|].
  intros s5 Hk5. apply wp_bind. eapply (wp_emit_step _ _ (put_view c (w AtParse) (put_view c (w AtCommit) m))); [exact Hk5|reflexivity| |].
  { eapply (step_phase _ _ _ (w AtCommit)); [cbn; apply lookup_insert_eq|done..]. }
  rewrite put_view_twice. intros s6 Hk6.
  eapply (wp_update_to _ (k_set_queue (k_queue (core_skel s6) ++ [(c, n)]) (core_skel s6))); [done|]. rewrite Hk6. intros s7 Hk7.
  exists (put_view c (w AtParse) m). rewrite Hk7. split; [done|].
  pose proof (Rel_parse P L _ m c y a Hy Ha v R Hv Hs) as Rp. rewrite Hn in Rp. specialize (Rp Hout). rel_ext Rp.
Qed.

Lemma wp_progress_navigation c n event m s :
  k_monitor (core_skel s) = Some m → Rel P L None (core_skel s) m → at_request m c n →
  wp (progress_navigation c n event) (λ _ s', Done s') s.
Proof.
  intros Hm R Hat. apply wp_bind, wp_gets. cbn [id].
  destruct (current_navigation c n s) as [[x b]|] eqn:Hc; [|apply wp_ret; by exists m].
  destruct (current_skel _ _ _ _ _ Hc) as (Hy & Ha & Hn). set (y := ctx_skel x) in *. set (a := nav_skel b) in *.
  destruct event; try (apply wp_ret; by exists m).
  destruct (Rel_view _ _ _ _ _ _ _ R Hy) as (v & Hv & Hf). destruct (view_fits_nav _ _ _ _ Hf Ha) as (at_ & Hs & _).
  pose proof Hs as Hs'. rewrite Hn in Hs'. assert (at_ = AtRequest) as -> by exact (Hat _ _ _ Hv Hs'). destruct Hf as (HA & _).
  apply wp_bind, wp_attempt. eapply wp_allocate_request; [reflexivity|]. intros [r|e] s1 Hk1.
  2:{ eapply (wp_fail P L None m); [exact Hk1|exact Hm|exact R|done|exact Hy|exact Ha|exact Hn|done]. }
  apply wp_bind. eapply (wp_expect_active_mut _ _ _ _ _ y a (ns_set_request r a)); [exact Hk1|exact Hy|exact Ha|by intros z <-|].
  intros s2 Hk2. eapply (wp_emit_step _ _ (put_view c (at_stage (Navigating n (Some r) AtRequest) v) m)); [exact Hk2|exact Hm| |].
  { eapply framed_step; [reflexivity|reflexivity|exact Hv|done|]. cbn. rewrite Hs'. by rewrite bool_decide_eq_true_2. }
  intros s3 Hk3. exists (put_view c (at_stage (Navigating n (Some r) AtRequest) v) m). rewrite Hk3. split; [done|].
  rewrite <-Hn in Hat. pose proof (Rel_request P L _ m c y a Hy Ha v r R Hv Hat) as Rr. rewrite Hn in Rr. rel_ext Rr.
Qed.

(** A load of a resource that the navigation waits for is over. *)
Lemma wp_resume c n x b f (Q : result BrowserError unit → BrowserCore → Prop) s :
  Done s → current_navigation c n s = Some (x, b) → loads_pending b ≠ 0 →
  (loads_pending b = 1 → nav_skel (f b) = ns_set_pending 0 (nav_skel b)) →
  (∀ s' y a, held c n y a AtSubresources s' → cs_frame y = bc_frame_id x → cs_document y = bc_document_id x →
     cs_runtime y = bc_runtime_context_id x → cs_slot y = bc_runtime_slot x → Q (Ok tt) s') →
  wp (expect_active_mut c f) Q s.
Proof.
  intros (m & Hm & R) Hc Hp Hf HQ. destruct (current_skel _ _ _ _ _ Hc) as (Hy & Ha & Hn).
  destruct (Rel_resume P L _ m c _ _ Hy Ha R Hp) as [Hone Rr]. apply current_navigation_Some in Hc as (Hx & Hb & _).
  eapply wp_active_mut; [reflexivity|exact Hx|exact Hb|by apply Hf|]. intros s1 Hk1.
  eapply (HQ s1 (cs_set_nav (Some (ns_set_pending 0 (nav_skel b))) (ctx_skel x)) (ns_set_pending 0 (nav_skel b))); try done.
  exists m. rewrite Hk1. split; [exact Hm|]. split; [exact Rr|]. split; [cbn; apply lookup_insert_eq|done].
Qed.
Lemma wp_with_store {A} f (Q : result BrowserError A → BrowserCore → Prop) s :
  (∀ r s', core_skel s' = core_skel s → Q r s') → wp (with_store f) Q s.
Proof. intros HQ. unfold wp, with_store. destruct (f _) as [store [r|e]]; cbn; by apply HQ. Qed.
Lemma wp_persist_script c n y a st slot requested delta response (cache : bool) (Q : result BrowserError unit → BrowserCore → Prop) s :
  held c n y a st s → slot = cs_slot y → (∀ r s', core_skel s' = core_skel s → Q r s') →
  wp (_ ← with_store (λ st, let '(st, r) := persist_profile_cookies requested delta st in (st, map_err script_error r));
      _ ← match response with
          | Some response => if cache then with_store (persist_external_resource_cache response unix_now) else mret ()
          | None => mret ()
          end;
      r ← runtime_mut slot (apply_network_cookie_delta delta);
      from_result (map_err script_error r)) Q s.
Proof.
  intros Hh Hslot HQ. apply wp_bind, wp_with_store. intros [[]|e] s1 Hk1; [|by apply HQ].
  assert (Hlast : ∀ s2, core_skel s2 = core_skel s →
    wp (r ← runtime_mut slot (apply_network_cookie_delta delta); from_result (map_err script_error r)) Q s2).
  { intros s2 Hk2. apply wp_bind. eapply wp_held_runtime; [by eapply held_eq|exact Hslot|]. intros r s3 Hk3.
    apply wp_from_result, HQ. by rewrite Hk3. }
  apply wp_bind. destruct response as [response|]; [destruct cache|]; [|by apply wp_ret, Hlast..].
  apply wp_with_store. intros [[]|e] s2 Hk2; [apply Hlast|apply HQ]; by rewrite Hk2.
Qed.
Lemma wp_persist_resource c n y a st slot requested delta response (Q : result BrowserError unit → BrowserCore → Prop) s :
  held c n y a st s → slot = cs_slot y → (∀ r s', core_skel s' = core_skel s → Q r s') →
  wp (persist_resource slot requested delta response) Q s.
Proof. intros Hh Hslot HQ. exact (wp_persist_script c n y a st slot requested delta response true Q s Hh Hslot HQ). Qed.

(** The last steps of the handlers of a loaded resource *)
Lemma wp_report_restore c n y a f d r url effects work s :
  held c n y a AtSubresources s → f = cs_frame y → d = cs_document y → r = cs_runtime y → work_stage work = AtSubresources →
  wp (_ ← emit_runtime_effects_event c f d r url effects; restore_navigation_work c n work) (λ _ s', Done s') s.
Proof.
  intros Hh Hf Hd Hr Hw. apply wp_bind. eapply wp_held_runtime_effects; [exact Hh|done..|]. intros s1 Hk1.
  eapply wp_restore; [by eapply held_eq|exact Hw|done].
Qed.
Lemma pending_one_stylesheet b : loads_pending b = 1 → is_Some (an_pending_stylesheet b) → an_pending_script b = None ∧ an_pending_image b = None.
Proof. unfold loads_pending, one. intros Hp [z E]. rewrite E in Hp. by destruct (an_pending_script b), (an_pending_image b). Qed.
Lemma pending_one_image b : loads_pending b = 1 → is_Some (an_pending_image b) → an_pending_script b = None ∧ an_pending_stylesheet b = None.
Proof. unfold loads_pending, one. intros Hp [z E]. rewrite E in Hp. by destruct (an_pending_script b), (an_pending_stylesheet b). Qed.
Lemma pending_one_script b : loads_pending b = 1 → is_Some (an_pending_script b) → an_pending_stylesheet b = None ∧ an_pending_image b = None.
Proof. unfold loads_pending, one. intros Hp [z E]. rewrite E in Hp. by destruct (an_pending_stylesheet b), (an_pending_image b). Qed.

Lemma safe_complete_stylesheet completion : safe (complete_external_stylesheet completion).
Proof.
  intros s HI. apply wp_bind, wp_gets. cbn [id]. destruct (current_navigation _ _ s) as [[x b]|] eqn:Hc; [|by apply wp_ret].
  destruct (negb _) eqn:Hkey; [by apply wp_ret|]. apply negb_false_iff, andb_true_iff in Hkey as [Hkey Hpend].
  apply andb_true_iff in Hkey as [Hd Hr]. apply bool_decide_eq_true in Hd, Hr, Hpend.
  apply fmap_Some in Hpend as (p & Hp & _). apply wp_bind. eapply wp_expect; [exact Hp|]. apply wp_bind.
  eapply wp_resume; [exact HI|exact Hc| | |].
  { unfold loads_pending. rewrite Hp. cbn. lia. }
  { intros Hone. destruct (pending_one_stylesheet _ Hone) as [E1 E2]; [by rewrite Hp|]. unfold nav_skel, loads_pending. cbn. by rewrite E1, E2. }
  intros s1 y a Hh Ef Ed Er Es. cbv zeta. apply wp_bind.
  set (got := accept_resource _ _ _ _). set (effects := push_blocked _ _ _ _). clearbody got effects.
  assert (Hlast : ∀ effects s2, core_skel s2 = core_skel s1 →
    wp (_ ← emit_runtime_effects_event (yk_context_id (lc_key completion)) (bc_frame_id x) (yk_document_id (lc_key completion))
              (yk_runtime_context_id (lc_key completion)) (page_url (bc_page x)) effects;
        restore_navigation_work (yk_context_id (lc_key completion)) (yk_navigation_id (lc_key completion)) (WorkStylesheets (py_work p)))
      (λ _ s', Done s') s2).
  { intros effects' s2 Hk2. eapply wp_report_restore; [by eapply held_eq|congruence..|done]. }
  destruct (ac_body got) as [source|]; [|by apply wp_ret, Hlast].
  apply wp_bind, wp_attempt, wp_bind. eapply wp_persist_resource; [exact Hh|done|]. intros [[]|e] s2 Hk2; [|by apply wp_ret, Hlast].
  pose proof (held_eq _ _ _ _ _ _ _ Hh Hk2) as Hh2. apply wp_bind. eapply wp_held_context; [exact Hh2|]. intros z _ _.
  destruct (apply_external_stylesheet _ _ _) as [page r]. apply wp_bind. eapply wp_held_context_mut; [exact Hh2|done|]. intros s3 Hk3.
  rewrite Hk2 in Hk3. apply wp_from_result. destruct (map_err _ r) as [[]|e]; [|by apply wp_ret, Hlast].
  apply wp_bind, wp_cookie_delta. intros s4 Hk4. apply wp_ret, Hlast. by rewrite Hk4.
Qed.
Lemma safe_complete_image completion : safe (complete_external_image completion).
Proof.
  intros s HI. apply wp_bind, wp_gets. cbn [id]. destruct (current_navigation _ _ s) as [[x b]|] eqn:Hc; [|by apply wp_ret].
  destruct (negb _) eqn:Hkey; [by apply wp_ret|]. apply negb_false_iff, andb_true_iff in Hkey as [Hkey Hpend].
  apply andb_true_iff in Hkey as [Hd Hr]. apply bool_decide_eq_true in Hd, Hr, Hpend.
  apply fmap_Some in Hpend as (p & Hp & _). apply wp_bind. eapply wp_expect; [exact Hp|]. apply wp_bind.
  eapply wp_resume; [exact HI|exact Hc| | |].
  { unfold loads_pending. rewrite Hp. cbn. lia. }
  { intros Hone. destruct (pending_one_image _ Hone) as [E1 E2]; [by rewrite Hp|]. unfold nav_skel, loads_pending. cbn. by rewrite E1, E2. }
  intros s1 y a Hh Ef Ed Er Es. cbv zeta.
  set (got := accept_resource _ _ _ _). set (effects := push_blocked _ _ _ _). clearbody got effects.
  destruct (match ac_body got with None => _ | Some body => _ end) as [image effects'].
  assert (Hlast : ∀ effects s2, core_skel s2 = core_skel s1 →
    wp (_ ← emit_runtime_effects_event (ik_context_id (lc_key completion)) (bc_frame_id x) (ik_document_id (lc_key completion))
              (ik_runtime_context_id (lc_key completion)) (page_url (bc_page x)) effects;
        restore_navigation_work (ik_context_id (lc_key completion)) (ik_navigation_id (lc_key completion)) (WorkImages (pi_work p)))
      (λ _ s', Done s') s2).
  { intros effects2 s2 Hk2. eapply wp_report_restore; [by eapply held_eq|congruence..|done]. }
  apply wp_bind. destruct image as [image|]; [|by apply wp_ret, Hlast].
  apply wp_bind, wp_attempt. eapply wp_persist_resource; [exact Hh|done|]. intros [[]|e] s2 Hk2; [|by apply wp_ret, Hlast].
  apply wp_bind, wp_cookie_delta. intros s3 Hk3. rewrite Hk2 in Hk3. pose proof (held_eq _ _ _ _ _ _ _ Hh Hk3) as Hh3.
  apply wp_bind. eapply wp_held_context; [exact Hh3|]. intros z _ _.
  apply wp_bind. eapply wp_held_context_mut; [exact Hh3|done|]. intros s4 Hk4. apply wp_ret, Hlast. by rewrite Hk4.
Qed.

Lemma wp_run_and_report key x p request source effects n c y a s :
  c = sk_context_id key → n = sk_navigation_id key → held c n y a AtSubresources s →
  bc_frame_id x = cs_frame y → sk_document_id key = cs_document y → sk_runtime_context_id key = cs_runtime y →
  bc_runtime_slot x = cs_slot y →
  wp (out ← in_realm c (bc_runtime_slot x) (run_item (λ r,
        if script_is_module request then forget (evaluate_module source request r)
        else forget (evaluate_classic source request r)));
      let '(item, effects_result, actions_result) := out in
      recovery ← in_realm c (bc_runtime_slot x) recover_cancelled_module_realm;
      match recovery with
      | Err e => fail_navigation c n (Some (sk_request_id key)) (engine_error (engine_error_text e))
      | Ok _ =>
          let effects := gather_effects effects item effects_result actions_result in
          let work := set_actions (gather_actions (sw_actions (pp_work p)) actions_result) (pp_work p) in
          s ← gets id;
          match current_navigation c n s with
          | Some (z, _) =>
              if bool_decide (bc_document_id z = sk_document_id key) && bool_decide (bc_runtime_context_id z = sk_runtime_context_id key)
              then report_and_go_on key x effects work else mret ()
          | None => mret ()
          end
      end) (λ _ s', Done s') s.
Proof.
  intros Hc Hn Hh Ef Ed Er Es. apply wp_bind. eapply wp_held_realm; [exact Hh|exact Es|].
  intros [[item effects_result] actions_result] s1 Hk1. pose proof (held_eq _ _ _ _ _ _ _ Hh Hk1) as Hh1. apply wp_bind.
  eapply wp_held_realm; [exact Hh1|exact Es|]. intros [z|e] s2 Hk2; pose proof (held_eq _ _ _ _ _ _ _ Hh1 Hk2) as Hh2;
    [|by eapply wp_held_fail].
  apply wp_bind, wp_gets. cbn [id]. destruct (held_current _ _ _ _ _ _ Hh2) as (x2 & b2 & -> & _ & _ & Hx2 & _).
  assert (bc_document_id x2 = sk_document_id key) as -> by by rewrite Ed, <-Hx2.
  assert (bc_runtime_context_id x2 = sk_runtime_context_id key) as -> by by rewrite Er, <-Hx2.
  rewrite !bool_decide_eq_true_2 by done. cbn [andb]. unfold report_and_go_on. subst c n. by eapply wp_report_restore.
Qed.
Lemma safe_complete_script completion : safe (complete_external_script completion).
Proof.
  intros s HI. apply wp_bind, wp_gets. cbn [id]. destruct (current_navigation _ _ s) as [[x b]|] eqn:Hc; [|by apply wp_ret].
  destruct (negb _) eqn:Hkey; [by apply wp_ret|]. apply negb_false_iff, andb_true_iff in Hkey as [Hkey Hpend].
  apply andb_true_iff in Hkey as [Hd Hr]. apply bool_decide_eq_true in Hd, Hr, Hpend.
  apply fmap_Some in Hpend as (p & Hp & _). apply wp_bind. eapply wp_expect; [exact Hp|]. apply wp_bind.
  eapply wp_resume; [exact HI|exact Hc| | |].
  { unfold loads_pending. rewrite Hp. cbn. lia. }
  { intros Hone. destruct (pending_one_script _ Hone) as [E1 E2]; [by rewrite Hp|]. unfold nav_skel, loads_pending. cbn. by rewrite E1, E2. }
  intros s1 y a Hh Ef Ed Er Es. cbv zeta. set (key := lc_key completion) in *.
  set (got := accept_resource _ _ _ _). set (effects := push_blocked _ _ _ _). clearbody got effects.
  assert (Hlast : ∀ effects s2, core_skel s2 = core_skel s1 → wp (report_and_go_on key x effects (pp_work p)) (λ _ s', Done s') s2).
  { intros effects' s2 Hk2. eapply wp_report_restore; [by eapply held_eq|congruence..|done]. }
  destruct (ac_body got) as [[body source_url]|]; [|by apply Hlast].
  destruct (script_integrity_failure _ _); [by apply Hlast|]. apply wp_bind, wp_attempt.
  eapply wp_persist_script; [exact Hh|done|]. intros [[]|e] s2 Hk2; [|by apply Hlast].
  apply wp_bind, wp_cookie_delta. intros s3 Hk3. rewrite Hk2 in Hk3.
  eapply wp_run_and_report; [done|done|by eapply held_eq|congruence..].
Qed.
End work.
End keeps.
End handlers.
