(* ===== verification/BrowserLoopFacts.v ===== *)
(** * The loop of the browser core: what holds of every world

    The invariant of [BrowserNavFacts] with the mailbox, for every world that the loop of
    [BrowserLoop] reaches, whatever the front ends and the loads send and in whatever order
    the threads run; what a consumer of the events may rely on follows from it. *)

From Stdlib Require Import Lia ZArith.
From stdpp Require Import base decidable gmap sets list strings.
From S2P Require Import Prelude.
From S2P Require Import RustFloat.
From S2P Require Import RustStr.
From S2P Require Import RenderModel.
From S2P Require Import SessionHistory.
From S2P Require Import Cookie.
From S2P Require Import Store.
From S2P Require Import WebStorage.
From S2P Require Import NetUrl.
From S2P Require Import HttpCache.
From S2P Require Import Network.
From S2P Require Import ProfileCookies.
From S2P Require Import Accessibility.
From S2P Require Import BrowserApi.
From S2P Require Import BrowserChannel.
From S2P Require Import ExternalResource.
From S2P Require Import BrowserCore.
From S2P Require Import BrowserWork.
From S2P Require Import BrowserCommands.
From S2P Require Import BrowserLoop.
From S2P Require Import BrowserProtocol.
From S2P Require Import BrowserCoreFacts.
From S2P Require Import BrowserNavFacts.
From S2P Require Import BrowserHandlerFacts.

Section loop.
Context `{Platform, UrlPlatform, HttpDate, ErrorText, PageEngine, StorePlatform, RuntimeType} `{!ScriptEngine}.
Context `{!CoreClock, !PageCommands, !InputJson, !PageInput}.
Variable url_query : WebUrl → option rstr.
Variable url_with_query : WebUrl → rstr → rstr.
Variable parse_error_text : rstr → rstr.
Variable debug_result : BrowserCommandResult → rstr.
Variable capacity : N.
Implicit Types (s : BrowserCore) (k : Skel) (c : BrowsingContextId) (n : NavigationId).

Local Abbreviation handle fuel m := (handle_core_message url_query url_with_query parse_error_text debug_result fuel m).
Local Abbreviation step := (core_step url_query url_with_query parse_error_text debug_result capacity).
Local Abbreviation reachable := (reachable url_query url_with_query parse_error_text debug_result capacity).

(** ** Shutting down ends *)

Definition terminates {A} (m : C A) : Prop := ∀ s, (m s).2 ≠ Err Diverge.
Lemma terminates_bind {A B} (m : C A) (f : A → C B) : terminates m → (∀ x, terminates (f x)) → terminates (m ≫= f).
Proof.
  intros Hm Hf s. unfold mbind, C_bind, M_bind. specialize (Hm s). destruct (m s) as [s' [x|e]]; [apply Hf|]. cbn in *. congruence.
Qed.
Lemma terminates_attempt {A} (m : C A) : terminates m → terminates (attempt m).
Proof. intros Hm s. specialize (Hm s). unfold attempt. by destruct (m s) as [s' [x|[]]]. Qed.
Ltac terminates_tac := repeat match goal with
  | |- terminates (mbind _ _) => apply terminates_bind; [|intros ?]
  | |- terminates (match ?x with _ => _ end) => destruct x
  | |- terminates (let _ := _ in _) => cbv zeta
  | |- terminates (attempt _) => apply terminates_attempt
  | |- terminates (expect ?o) => by destruct o
  | |- terminates _ => by intros ?
  end.
Lemma terminates_context c : terminates (context c).
Proof. unfold context, ensure_context. terminates_tac. Qed.
Lemma terminates_cancel c reason b : terminates (cancel_active_navigation c reason b).
Proof.
  unfold cancel_active_navigation, finish_navigation, context_mut, emit_state, stop_task.
  terminates_tac; apply terminates_context.
Qed.
Lemma terminates_shutdown : terminates shutdown.
Proof.
  unfold shutdown. apply terminates_bind; [by intros ?|intros s]. induction (btree_keys (contexts s)) as [|c cs IH]; [by intros ?|]. cbn.
  apply terminates_bind; [apply terminates_attempt, terminates_cancel|intros _; exact IH].
Qed.

(** ** The mailbox *)

(** The navigation whose source sent a message, and whose source is complete with it *)
Definition loaded_by (m : CoreMessage) : option (BrowsingContextId * NavigationId) :=
  match m with MsgSourceLoaded completion => Some (sc_context_id completion, sc_navigation_id completion) | _ => None end.
Definition sent_by (m : CoreMessage) : option (BrowsingContextId * NavigationId) :=
  match m with MsgSourceLoadProgress c n _ => Some (c, n) | m => loaded_by m end.
Definition tokens (mail : list CoreMessage) c n : Prop := ∃ m, m ∈ mail ∧ sent_by m = Some (c, n).
Definition loads (mail : list CoreMessage) c n : Prop := ∃ m, m ∈ mail ∧ loaded_by m = Some (c, n).
(** After the last message of a source there is none of it. *)
Definition ordered (mail : list CoreMessage) : Prop :=
  ∀ front m rest c n, mail = front ++ m :: rest → loaded_by m = Some (c, n) → ¬ tokens rest c n.

Definition CoreInv (w : CoreWorld) : Prop :=
  w_thread w ≠ Panicked ∧ ordered (w_mail w) ∧ Inv (tokens (w_mail w)) (loads (w_mail w)) None (core_skel (w_core w)).

Lemma loaded_sent m p : loaded_by m = Some p → sent_by m = Some p.
Proof. by destruct m. Qed.
Lemma tokens_snoc mail m c n : tokens (mail ++ [m]) c n ↔ tokens mail c n ∨ sent_by m = Some (c, n).
Proof.
  unfold tokens. split.
  - intros (x & [Hx|Hx%list_elem_of_singleton]%elem_of_app & Hs); [left; eauto|subst; by right].
  - intros [(x & Hx & Hs)|Hs]; [exists x|exists m]; (split; [apply elem_of_app|done]); [by left|right; by apply list_elem_of_singleton].
Qed.
Lemma loads_snoc mail m c n : loads (mail ++ [m]) c n ↔ loads mail c n ∨ loaded_by m = Some (c, n).
Proof.
  unfold loads. split.
  - intros (x & [Hx|Hx%list_elem_of_singleton]%elem_of_app & Hs); [left; eauto|subst; by right].
  - intros [(x & Hx & Hs)|Hs]; [exists x|exists m]; (split; [apply elem_of_app|done]); [by left|right; by apply list_elem_of_singleton].
Qed.
Lemma tokens_cons mail m c n : tokens mail c n → tokens (m :: mail) c n.
Proof. intros (x & Hx & Hs). exists x. split; [by apply list_elem_of_further|done]. Qed.
Lemma loads_cons mail m c n : loads mail c n → loads (m :: mail) c n.
Proof. intros (x & Hx & Hs). exists x. split; [by apply list_elem_of_further|done]. Qed.
Lemma loads_tokens mail c n : loads mail c n → tokens mail c n.
Proof. intros (x & Hx & Hs). exists x. split; [done|by apply loaded_sent]. Qed.
Lemma ordered_snoc mail m :
  ordered mail → (∀ c n, sent_by m = Some (c, n) → ¬ loads mail c n) → ordered (mail ++ [m]).
Proof.
  intros Ho Hm front x rest c n Hsplit Hx Ht. destruct rest as [|z rest _] using rev_ind.
  - by destruct Ht as (y & Hy%not_elem_of_nil & _).
  - rewrite app_comm_cons, app_assoc in Hsplit. apply app_inj_tail in Hsplit as [-> ->].
    apply tokens_snoc in Ht as [Ht|Ht]; [by eapply Ho|]. apply (Hm c n Ht). exists x. split; [|done].
    apply elem_of_app. right. apply list_elem_of_here.
Qed.
Lemma ordered_tail m mail : ordered (m :: mail) → ordered mail.
Proof. intros Ho front x rest c n ->. by apply (Ho (m :: front)). Qed.

(** ** The steps *)

Lemma wp_result {A} (m : C A) Q s s' r : wp m Q s → m s = (s', Ok r) → Q (Ok r) s'.
Proof. unfold wp. intros HQ Hr. by rewrite Hr in HQ. Qed.
Lemma wp_no_panic {A} (m : C A) Q s s' : wp m Q s → m s = (s', Err Panic) → False.
Proof. unfold wp. intros HQ Hr. by rewrite Hr in HQ. Qed.

Lemma Inv_tokens P P' L L' k :
  (∀ c n, P' c n → P c n) → (∀ c n, L' c n → L c n) → (∀ c n, L' c n → P' c n) → Inv P L None k → Inv P' L' None k.
Proof. intros HP HL HPL (m & Hm & R). exists m. split; [done|]. eapply Rel_tokens; [exact HP|exact HL|exact HPL|exact R]. Qed.

Lemma message_step mail m fuel s :
  ordered (m :: mail) → Inv (tokens (m :: mail)) (loads (m :: mail)) None (core_skel s) →
  wp (handle fuel m) (λ _ s', Inv (tokens mail) (loads mail) None (core_skel s')) s.
Proof.
  intros Ho (mo & Hmo & R).
  assert (R' : Rel (tokens mail) (loads mail) None (core_skel s) mo).
  { eapply Rel_tokens; [| | |exact R]; [apply tokens_cons|apply loads_cons|apply loads_tokens]. }
  assert (HI : Inv (tokens mail) (loads mail) None (core_skel s)) by by exists mo.
  assert (Hat : ∀ c n, sent_by m = Some (c, n) → at_request mo c n).
  { intros c n Hs. apply (r_token _ _ _ _ _ R). left. exists m. split; [apply list_elem_of_here|done]. }
  assert (Hstart : ∀ {A} (x : A) s1, Inv (tokens mail) (loads mail) None (core_skel s1) →
    wp (_ ← start_pending_loads; mret x) (λ _ s', Inv (tokens mail) (loads mail) None (core_skel s')) s1).
  { intros A x s1 Hs1. apply wp_bind. eapply wp_mono; [apply keeps_safe; [apply keeps_start_loads|exact Hs1]|].
    intros [[]|e] s2 Hs2; [by apply wp_ret|exact Hs2]. }
  destruct m as [command|c url html|c n event|completion|completion|completion|completion|]; cbn [handle_core_message].
  - apply wp_bind, wp_attempt. eapply wp_mono; [apply safe_dispatch; exact HI|]. intros r s1 Hs1. by apply Hstart.
  - apply wp_bind, wp_attempt.
    apply (wp_mono _ (λ _ s', Inv (tokens mail) (loads mail) None (core_skel s'))); [|intros r s1 Hs1; by apply Hstart].
    apply wp_bind. eapply wp_mono; [apply keeps_safe; [apply keeps_navigate_html|exact HI]|].
    intros [r|e] s1 Hs1; [by apply wp_ret|exact Hs1].
  - apply wp_bind. eapply wp_mono; [eapply wp_progress_navigation; [exact Hmo|exact R'|by apply Hat]|].
    intros [[]|e] s1 Hs1; [by apply wp_ret|exact Hs1].
  - apply wp_bind. eapply wp_mono.
    { eapply wp_complete_navigation; [exact Hmo|exact R'| |by apply Hat]. intros [Ht|(t & Ht)].
      - by eapply (Ho []); [reflexivity|reflexivity|].
      - eapply (r_source _ _ _ _ _ R); [exact Ht|]. eexists. split; [apply list_elem_of_here|done]. }
    intros [[]|e] s1 Hs1; [by apply Hstart|exact Hs1].
  - apply wp_bind. eapply wp_mono; [apply safe_complete_script; exact HI|]. intros [[]|e] s1 Hs1; [by apply wp_ret|exact Hs1].
  - apply wp_bind. eapply wp_mono; [apply safe_complete_stylesheet; exact HI|]. intros [[]|e] s1 Hs1; [by apply wp_ret|exact Hs1].
  - apply wp_bind. eapply wp_mono; [apply safe_complete_image; exact HI|]. intros [[]|e] s1 Hs1; [by apply wp_ret|exact Hs1].
  - apply wp_bind. eapply wp_mono; [apply keeps_safe; [apply keeps_shutdown|exact HI]|]. intros [[]|e] s1 Hs1; [by apply wp_ret|exact Hs1].
Qed.

Lemma core_skel_end_task t s : core_skel (end_task t s) = k_set_sources (delete t (k_sources (core_skel s))) (core_skel s).
Proof.
  unfold core_skel, k_set_sources, end_task. cbn. f_equal. apply map_eq. intros j.
  rewrite lookup_delete, lookup_omap, lookup_delete, lookup_omap. by case_decide.
Qed.
Lemma core_skel_set_runtime slot rt s : core_skel (set_runtime slot rt s) = core_skel s.
Proof.
  unfold core_skel, set_runtime. cbn. f_equal. apply list_eq. intros i. rewrite !list_lookup_fmap, list_lookup_alter.
  case_decide; [subst|done]. by destruct (runtime_slots s !! i).
Qed.
Lemma live_source t c n url html baseline started s :
  tp_live (tasks s) !! t = Some (TaskSource c n url html baseline, started) → k_sources (core_skel s) !! t = Some (c, n).
Proof. intros Ht. cbn. by rewrite lookup_omap, Ht. Qed.

(** A message that is not the last of a source *)
Lemma post_inv m w :
  CoreInv w → loaded_by m = None →
  (∀ c n, sent_by m = Some (c, n) → ∃ t, k_sources (core_skel (w_core w)) !! t = Some (c, n)) → CoreInv (post m w).
Proof.
  intros (Ht & Ho & mo & Hmo & R) Hl Hs. split; [exact Ht|]. cbn. split.
  - apply ordered_snoc; [exact Ho|]. intros c n (t & Hsrc)%Hs. by eapply (r_source _ _ _ _ _ R).
  - exists mo. split; [exact Hmo|]. split; try apply R.
    + intros c n [[Hold|Hnew]%tokens_snoc|Hsrc]; [|apply (r_token _ _ _ _ _ R); right; by apply Hs|]; apply (r_token _ _ _ _ _ R);
        [by left|by right].
    + intros t c n Hsrc [Hold|Hnew]%loads_snoc; [by eapply (r_source _ _ _ _ _ R)|congruence].
    + intros c n [Hold|Hnew]%loads_snoc; [|congruence]. apply tokens_snoc. left. by apply loads_tokens.
Qed.
(** The last message of a source *)
Lemma answer_inv t task m w :
  CoreInv w → tp_live (tasks (w_core w)) !! t = Some (task, true) → load_answers task m →
  CoreInv (post m (set_core (end_task t (w_core w)) w)).
Proof.
  intros (Ht & Ho & mo & Hmo & R) Htask Hans.
  assert (Hkind : (∃ c n, k_sources (core_skel (w_core w)) !! t = Some (c, n) ∧ loaded_by m = Some (c, n)) ∨
    (loaded_by m = None ∧ sent_by m = None)).
  { destruct task as [c n url html baseline| | |]; cbn in Hans; destruct Hans as (r & d & ->); [left|by right..].
    exists c, n. split; [by eapply live_source|done]. }
  assert (R' : Rel (tokens (w_mail w)) (loads (w_mail w)) None (core_skel (end_task t (w_core w))) mo).
  { rewrite core_skel_end_task. apply Rel_sources; [|exact R]. intros j p. rewrite lookup_delete. by case_decide. }
  destruct Hkind as [(c & n & Hsrc & Hl)|[Hl Hs]].
  2:{ apply post_inv; [|exact Hl|congruence]. split; [exact Ht|]. split; [exact Ho|]. exists mo. split; [|exact R'].
      cbn [w_core set_core]. by rewrite core_skel_end_task. }
  assert (Hone : ∀ c' n', loaded_by m = Some (c', n') → c' = c ∧ n' = n) by (intros c' n'; rewrite Hl; by intros [= -> ->]).
  assert (Hone' : ∀ c' n', sent_by m = Some (c', n') → c' = c ∧ n' = n).
  { intros c' n'. rewrite (loaded_sent _ _ Hl). by intros [= -> ->]. }
  split; [exact Ht|]. cbn [w_mail post set_core w_core]. split.
  - apply ordered_snoc; [exact Ho|]. intros c' n' [-> ->]%Hone'. by eapply (r_source _ _ _ _ _ R).
  - exists mo. rewrite core_skel_end_task in R' |- *. split; [exact Hmo|]. split; try apply R'.
    + intros c' n' [[Hold|Hnew]%tokens_snoc|Ho']; [apply (r_token _ _ _ _ _ R'); by left| |apply (r_token _ _ _ _ _ R'); by right].
      apply Hone' in Hnew as [-> ->]. apply (r_token _ _ _ _ _ R). right. eauto.
    + cbn. intros j c' n'. rewrite lookup_delete. case_decide as E; [done|]. intros Hj [Hold|Hnew]%loads_snoc.
      * by eapply (r_source _ _ _ _ _ R).
      * apply Hone in Hnew as [-> ->]. by apply E, (r_unique _ _ _ _ _ R _ _ _ Hsrc Hj).
    + intros c' n' [Hold|Hnew]%loads_snoc; apply tokens_snoc; [left; by apply loads_tokens|right; by apply loaded_sent].
Qed.

Lemma core_inv_step w w' : CoreInv w → step w w' → CoreInv w'.
Proof.
  intros HW Hstep. pose proof HW as (Hthread & Ho & HI).
  destruct Hstep as [w m Hm Hcap|w slot rt|w t c n url html baseline event Hcap Htask|w t task m Hcap Htask Hans
    |w m rest fuel core reply Hrun Hmail Hres|w m rest fuel core reply Hrun Hmail Hres|w fuel core b Hrun Hmail Hwork Hres
    |w m rest fuel core Hrun Hmail Hres|w fuel core Hrun Hmail Hwork Hres].
  - apply post_inv; [exact HW|by destruct m|by destruct m].
  - split; [exact Hthread|]. split; [exact Ho|]. cbn [w_core set_core w_mail]. by rewrite core_skel_set_runtime.
  - apply post_inv; [exact HW|done|]. intros c' n' [= <- <-]. exists t. by eapply live_source.
  - by eapply answer_inv.
  - rewrite Hmail in Ho, HI. split; [done|]. split; [by eapply ordered_tail|].
    exact (wp_result _ _ _ _ _ (message_step _ _ fuel _ Ho HI) Hres).
  - rewrite Hmail in Ho, HI. pose proof (wp_result _ _ _ _ _ (message_step _ _ fuel _ Ho HI) Hres) as HI'. cbn beta in HI'.
    split; [done|]. cbn. split; [intros [|? ?]; done|].
    apply (Inv_tokens _ (tokens []) _ (loads [])) in HI'; [|by intros c n (x & Hx%not_elem_of_nil & _)..].
    pose proof (keeps_safe _ _ _ (keeps_shutdown _ _) core HI') as Hsd. pose proof (terminates_shutdown core) as Ht.
    unfold wp in Hsd. destruct (shutdown core) as [core' [u|[]]]; cbn in *; done.
  - split; [exact Hthread|]. split; [exact Ho|]. cbn [w_core set_core w_mail].
    exact (wp_result _ _ _ _ _ (safe_advance _ _ _ _ _ _ _ _ HI) Hres).
  - rewrite Hmail in Ho, HI. by destruct (wp_no_panic _ _ _ _ (message_step _ _ fuel _ Ho HI) Hres).
  - by destruct (wp_no_panic _ _ _ _ (safe_advance _ _ _ _ _ _ _ _ HI) Hres).
Qed.

Lemma core_start_inv max store max_body overrides renderer :
  CoreInv {| w_core := BrowserCore_new max store max_body overrides renderer; w_mail := []; w_thread := Running |}.
Proof.
  split; [done|]. split; [intros [|? ?]; done|]. exists Monitor_new. split; [done|]. cbn [w_mail w_core].
  set (k := core_skel _). assert (Ek : k_contexts k = ∅) by apply fmap_empty. assert (Es : k_sources k = ∅) by apply omap_empty.
  assert (Ec : k_control k = ∅) by apply fmap_empty.
  split; unfold outstanding; rewrite ?Ek, ?Es, ?Ec; try done.
  - intros c. rewrite lookup_empty. by intros [].
  - rewrite map_size_empty. cbn. lia.
  - assert (Hf : fresh 1 0) by (split; [by vm_compute|right; done]). by repeat split; try apply Hf.
  - constructor.
  - intros c n Hin. by apply not_elem_of_nil in Hin.
  - intros c n [(x & Hx%not_elem_of_nil & _)|(t & Ht)]; [done|]. by rewrite lookup_empty in Ht.
  - intros c n. apply loads_tokens.
Qed.

Lemma reachable_inv max store max_body overrides renderer w :
  reachable (BrowserCore_new max store max_body overrides renderer) w → CoreInv w.
Proof. induction 1 as [|w w' _ IH Hstep]; [apply core_start_inv|by eapply core_inv_step]. Qed.

(** ** What a consumer of the events may rely on *)

(** What the events tell of a context, and what the core knows of it *)
Definition told (v : ContextView) : FrameId * DocumentId * RuntimeContextId * option NavigationId :=
  (v_frame v, v_document v, v_runtime v, active_of (v_stage v)).
Definition known (x : BrowsingContext) : FrameId * DocumentId * RuntimeContextId * option NavigationId :=
  (bc_frame_id x, bc_document_id x, bc_runtime_context_id x, an_navigation_id <$> bc_active_navigation x).

(** C1. Whatever the front ends and the loads send and in whatever order the threads run, the
    browser core never panics, and the events it has emitted are accepted by the monitor of
    the event protocol, from which a consumer knows exactly the state of the core: the same
    contexts, each with its frame, document, runtime and active navigation, the same closed
    contexts and the same active context. *)
Theorem events_tell_the_state max store max_body overrides renderer w :
  reachable (BrowserCore_new max store max_body overrides renderer) w →
  w_thread w ≠ Panicked ∧
  ∃ m, replay (events (w_core w)) = Some m ∧ told <$> m_contexts m = known <$> contexts (w_core w) ∧
    m_closed m = closed_contexts (w_core w) ∧ m_active m = active_context (w_core w).
Proof.
  intros (Hthread & _ & m & Hm & R)%reachable_inv. split; [exact Hthread|]. exists m. split; [exact Hm|]. split.
  - apply map_eq. intros c. rewrite !lookup_fmap. pose proof (r_view _ _ _ _ _ R c) as Hv. rewrite skel_lookup in Hv.
    destruct (contexts (w_core w) !! c) as [x|], (m_contexts m !! c) as [v|]; cbn in Hv |- *; try done. f_equal.
    pose proof (view_fits_active _ _ _ Hv) as Ha. destruct Hv as (HA & HB & HC & _). unfold told, known. rewrite HA, HB, HC, Ha. cbn.
    by destruct (bc_active_navigation x).
  - split; [symmetry; apply (r_closed _ _ _ _ _ R)|symmetry; apply (r_active _ _ _ _ _ R)].
Qed.

(** C2. In every state of the browser core that its loop reaches, the phases announced for a
    navigation are a prefix of the ten phases of a successful one, or a prefix that may end in
    failure or cancellation followed by that end, so that none is repeated, skipped or out of
    order and nothing follows an end; and the navigation is the active one of some context
    exactly while its end has not been announced. *)
Theorem navigations_end_once max store max_body overrides renderer w n :
  reachable (BrowserCore_new max store max_body overrides renderer) w → requested n (events (w_core w)) = true →
  (running (nav_phases n (events (w_core w))) ∨ ended (nav_phases n (events (w_core w)))) ∧
  ((∃ c x a, contexts (w_core w) !! c = Some x ∧ bc_active_navigation x = Some a ∧ an_navigation_id a = n) ↔
   existsb is_terminal (nav_phases n (events (w_core w))) = false).
Proof.
  intros (_ & _ & m & Hm & R)%reachable_inv Hq. destruct (accepted_phases _ m n Hm Hq) as [Hph Hway]. split; [exact Hph|].
  rewrite <-Hway. split.
  - intros (c & x & a & Hx & Ha & Hn). assert (Hy : k_contexts (core_skel (w_core w)) !! c = Some (ctx_skel x)) by by rewrite skel_lookup, Hx.
    destruct (Rel_view _ _ _ _ _ _ _ R Hy) as (v & Hv & Hf).
    destruct (view_fits_nav _ _ _ (nav_skel a) Hf) as (at_ & Hs & [_ Hr]); [cbn; by rewrite Ha|]. cbn in Hs. rewrite Hn in Hs.
    exists c, v, (Some (an_request_id a)), at_. split; [exact Hv|]. split; [exact Hs|by destruct at_].
  - intros (c & v & r & at_ & Hv & Hs & _). destruct (Rel_view_inv _ _ _ _ _ _ _ R Hv) as (y & Hy & Hf).
    apply skel_lookup_inv in Hy as (x & Hx & <-). apply view_fits_active in Hf. rewrite Hs in Hf. cbn in Hf.
    destruct (bc_active_navigation x) as [a|] eqn:Ha; [|done]. cbn in Hf. injection Hf as ->. by exists c, x, a.
Qed.

(** C3. In every state that the loop reaches there are at most as many contexts as configured
    and none that was closed; every context has a runtime slot of its own, which is in use; the
    active context is open, and there is one unless none is open; and another thread finds a
    runtime to interrupt exactly for the open contexts, and one that is busy with a navigation
    exactly for those that have one. *)
Theorem registry_invariant max store max_body overrides renderer w :
  reachable (BrowserCore_new max store max_body overrides renderer) w →
  let s := w_core w in
  (N.of_nat (size (contexts s)) ≤ max_contexts s)%N ∧
  (∀ c, c ∈ closed_contexts s → contexts s !! c = None) ∧
  (∀ c x, contexts s !! c = Some x → rs_active <$> runtime_slots s !! bc_runtime_slot x = Some true) ∧
  (∀ c c' x x', contexts s !! c = Some x → contexts s !! c' = Some x' → bc_runtime_slot x = bc_runtime_slot x' → c = c') ∧
  match active_context s with Some c => is_Some (contexts s !! c) | None => contexts s = ∅ end ∧
  ∀ c, (is_Some (interrupt_target c false s) ↔ is_Some (contexts s !! c)) ∧
       (is_Some (interrupt_target c true s) ↔ ∃ x, contexts s !! c = Some x ∧ is_Some (bc_active_navigation x)).
Proof.
  intros (_ & _ & m & _ & R)%reachable_inv s. fold s in R. repeat apply conj.
  - pose proof (r_size _ _ _ _ _ R) as Hs. cbn in Hs. by rewrite map_size_fmap in Hs.
  - intros c [_ Hc]%(r_gone _ _ _ _ _ R). rewrite skel_lookup in Hc. by apply fmap_None in Hc.
  - intros c x Hx. pose proof (r_slot _ _ _ _ _ R c (ctx_skel x)) as Hs. rewrite skel_lookup, Hx in Hs. specialize (Hs eq_refl).
    cbn in Hs. by rewrite list_lookup_fmap in Hs.
  - intros c c' x x' Hx Hx' Hs. apply (r_slots _ _ _ _ _ R c c' (ctx_skel x) (ctx_skel x'));
      [by rewrite skel_lookup, Hx|by rewrite skel_lookup, Hx'|exact Hs].
  - pose proof (r_focus _ _ _ _ _ R) as HF. cbn in HF. destruct (active_context s) as [c|].
    + rewrite lookup_fmap in HF. by apply fmap_is_Some in HF.
    + by apply fmap_empty_inv in HF.
  - intros c. pose proof (r_control _ _ _ _ _ R) as Hc. apply (f_equal (lookup c)) in Hc. rewrite lookup_fmap, skel_lookup in Hc.
    cbn in Hc. rewrite lookup_fmap in Hc. unfold interrupt_target.
    destruct (control s !! c) as [ct|], (contexts s !! c) as [x|]; try done; cbn in Hc |- *.
    + injection Hc as Hc. split; [by split; intros _; eexists|]. rewrite Hc. destruct (bc_active_navigation x) as [a|] eqn:Ha; cbn.
      * split; [intros _; exists x; split; [done|by rewrite Ha]|by eexists].
      * split; [by intros []|intros (x' & [= <-] & H')]. rewrite Ha in H'. by destruct H'.
    + split; [by split; intros []|]. split; [by intros []|by intros (x & ? & _)].
Qed.

(** C4. In every state that the loop reaches, the queue of navigation work has no entry twice,
    and a navigation has work to do exactly if it is in the queue: no work is forgotten and
    none is done twice.  A navigation waits for one load at a time, and has no work then. *)
Theorem work_is_queued max store max_body overrides renderer w :
  reachable (BrowserCore_new max store max_body overrides renderer) w →
  NoDup (pending_navigation_work (w_core w)) ∧
  ∀ c x a, contexts (w_core w) !! c = Some x → bc_active_navigation x = Some a →
    (is_Some (an_work a) ↔ (c, an_navigation_id a) ∈ pending_navigation_work (w_core w)) ∧
    (loads_pending a ≤ 1)%nat ∧ (loads_pending a = 1%nat → an_work a = None).
Proof.
  intros (_ & _ & m & _ & R)%reachable_inv. split; [apply (r_nodup _ _ _ _ _ R)|]. intros c x a Hx Ha.
  assert (Hy : k_contexts (core_skel (w_core w)) !! c = Some (ctx_skel x)) by by rewrite skel_lookup, Hx.
  assert (Hnav : cs_nav (ctx_skel x) = Some (nav_skel a)) by (cbn; by rewrite Ha). split.
  - pose proof (r_queue _ _ _ _ _ R _ _ _ Hy Hnav) as Hq. cbn in Hq. rewrite <-Hq. symmetry. apply fmap_is_Some.
  - destruct (Rel_view _ _ _ _ _ _ _ R Hy) as (v & _ & Hf). destruct (view_fits_nav _ _ _ _ Hf Hnav) as (at_ & _ & [Hfit _]).
    cbn in Hfit. destruct (an_work a) as [work|], (loads_pending a) as [|[|p]]; cbn in Hfit; try done; split; try lia; done.
Qed.

(** ** Playing a schedule

    Steps of the world that can be computed: a client sends a message, a load of a source
    answers, the loop takes a message or works on a navigation. *)

Inductive Move : Type :=
| MoveClient (m : CoreMessage)
| MoveAnswer (t : positive) (res : result BrowserError LoadedSource) (delta : CookieJarDelta)
| MoveHandle
| MoveWork.
Local Abbreviation advance fuel :=
  (advance_navigation_work url_query url_with_query parse_error_text debug_result fuel).
Definition play_move (fuel : nat) (mv : Move) (w : CoreWorld) : option CoreWorld :=
  match mv with
  | MoveClient m => if client_message m && (len (w_mail w) <? capacity)%N then Some (post m w) else None
  | MoveAnswer t res delta =>
      match tp_live (tasks (w_core w)) !! t with
      | Some (TaskSource c n _ _ _, true) =>
          if (len (w_mail w) <? capacity)%N
          then Some (post (MsgSourceLoaded {| sc_context_id := c; sc_navigation_id := n; sc_result := res; sc_cookie_delta := delta |})
                       (set_core (end_task t (w_core w)) w))
          else None
      | _ => None
      end
  | MoveHandle =>
      match w_thread w, w_mail w with
      | Running, m :: rest =>
          match handle fuel m (w_core w) with
          | (core, Ok (_, false)) => Some {| w_core := core; w_mail := rest; w_thread := Running |}
          | (core, Ok (_, true)) => Some (finish core)
          | _ => None
          end
      | _, _ => None
      end
  | MoveWork =>
      match w_thread w, w_mail w with
      | Running, [] =>
          if has_navigation_work (w_core w) then
            match advance fuel (w_core w) with (core, Ok _) => Some (set_core core w) | _ => None end
          else None
      | _, _ => None
      end
  end.
Fixpoint play (fuel : nat) (moves : list Move) (w : CoreWorld) : option CoreWorld :=
  match moves with
  | [] => Some w
  | mv :: moves => w ← play_move fuel mv w; play fuel moves w
  end.
Lemma play_move_step fuel mv w w' : play_move fuel mv w = Some w' → step w w'.
Proof.
  destruct mv as [m|t res delta| |]; cbn.
  - destruct (client_message m) eqn:Hm; [|done]. destruct (_ <? _)%N eqn:Hc; [|done]. intros [= <-]. apply step_client; [done|by apply N.ltb_lt].
  - destruct (tp_live _ !! t) as [[task []]|] eqn:Ht; [|by destruct task|done]. destruct task as [c n url html baseline| | |]; try done.
    destruct (_ <? _)%N eqn:Hc; [|done]. intros [= <-]. eapply step_answer; [by apply N.ltb_lt|exact Ht|cbn; eauto].
  - destruct (w_thread w) eqn:Hr; try done. destruct (w_mail w) as [|m rest] eqn:Hm; [done|].
    destruct (handle fuel m (w_core w)) as [core [[reply []]|e]] eqn:Hh; [intros [= <-]; by eapply step_shutdown| |done].
    intros [= <-]. by eapply step_message.
  - destruct (w_thread w) eqn:Hr; try done. destruct (w_mail w) as [|m rest] eqn:Hm; [|done].
    destruct (has_navigation_work _) eqn:Hw; [|done]. destruct (advance fuel (w_core w)) as [core [b|e]] eqn:Ha; [|done].
    intros [= <-]. by eapply step_work.
Qed.
Lemma play_reachable fuel moves first_world w w' : reachable first_world w → play fuel moves w = Some w' → reachable first_world w'.
Proof.
  revert w. induction moves as [|mv moves IH]; intros w Hw; cbn; [by intros [= <-]|].
  intros (w1 & Hw1 & Hw')%bind_Some. eapply IH; [|exact Hw']. eapply reach_step; [exact Hw|by eapply play_move_step].
Qed.
End loop.

(** ** An engine

    Pages are URLs, the parser returns its page at once, there are no resources, and script
    returns and leaves nothing. *)

From S2P Require Import CookieFacts.
From S2P Require Import StoreFacts.
#[local] Existing Instance toy_platform.
#[local] Instance no_dates : HttpDate := {| parse_http_date := λ _, None |}.
#[local] Instance no_texts : ErrorText :=
  {| network_error_text := λ _, []; policy_error_text := λ _, []; store_error_text := λ _, []; cache_error_text := λ _, [] |}.
#[local] Instance no_request : ExternalResourceRequest unit := {|
  er_url := λ _, http_url (Ipv4 0); er_blocked_reason := λ _ _, None; er_is_cross_site := λ _ _, false;
  er_request_headers := λ _ _, []; er_sends_credentials := λ _ _, true; er_response_blocked_reason := λ _ _ _, None;
  er_kind := λ _, [] |}.
#[local] Instance url_pages : PageEngine := {|
  Page := rstr; PageParser := rstr; PageStylesheetRunner := unit; PageImageRunner := unit; PageScriptRunner := unit;
  ExternalPageStylesheet := unit; ExternalPageImage := unit; ExternalPageScript := unit; PageImportMap := unit; RasterImage := unit;
  page_from_html := λ url _, Ok url; page_url := id; page_title := λ _, None;
  session_history := λ url, SessionHistory_new (HistoryEntry_navigation url);
  history_with_current_scroll := λ url, SessionHistory_new (HistoryEntry_navigation url);
  set_session_history := λ _, id; set_layout_viewport := λ _, id; scroll_root_by := λ _ _ page, (page, false);
  resolve_url := λ _ url, Some url; form_submission := λ _ _, Err []; form_submission_by_node_id := λ _ _ _, Err [];
  apply_external_stylesheet := λ _ _ page, (page, Ok tt); apply_raster_image := λ _ _, id; decode_png := λ _, Err [];
  host_view_runtime_source := λ _ _ _, []; parser_with_headers := λ url _ _, url; parser_advance := λ _ parser, (parser, Ok (Some parser));
  stylesheets_new := λ _, tt; stylesheets_next := λ _ _, (tt, None); stylesheet_index := λ _, 0%N;
  images_new := λ _, tt; images_next := λ _ _, (tt, None); image_node_id := λ _, 0%N;
  scripts_new := λ _ _, tt; scripts_next := λ _ _, (tt, None); script_is_module := λ _, false;
  script_with_url := λ _, id; script_integrity_failure := λ _ _, None |}.
#[local] Instance unit_runtimes : RuntimeType := {| JsRuntime := unit |}.
#[local] Instance quiet_scripts : ScriptEngine := {|
  JsValue := unit; RuntimeInterruptHandle := unit; js_as_bool := λ _, None; runtime_new := λ _ _ _ _, Ok tt;
  interrupt_handle := id; set_extra_http_headers := λ _, id; set_cache_disabled := λ _, id; reset_permission_overrides := id;
  replace_permission_grants := λ _ _, id; evaluate := λ _ r, (r, Ok tt); evaluate_for_automation := λ _ _ r, (r, Ok tt);
  evaluate_classic := λ _ _ r, (r, Ok tt); evaluate_module := λ _ _ r, (r, Ok tt); run_document_tasks := λ r, (r, Ok 0);
  recover_cancelled_module_realm := λ r, (r, Ok tt); refresh_page_hosts := λ r, (r, Ok tt); sync_page_realm_key := λ _, id;
  set_document_import_map := λ _, id; drain_console_events := λ r, (r, Ok []); drain_dialog_events := λ r, (r, Ok []);
  drain_binding_events := λ r, (r, Ok []); drain_network_events := λ r, (r, Ok []); drain_navigation_actions := λ r, (r, Ok []);
  network_cookie_snapshots := λ _, Ok []; apply_network_cookie_delta := λ _ r, (r, Ok tt);
  clear_profile_network_state := λ _ _, id |}.
#[local] Instance still_core_clock : CoreClock := {| unix_now := 0%Z; jar_now := 100%Z; jar_tick := λ _, 100%Z |}.
#[local] Instance no_page_commands : PageCommands := {|
  find_text := λ _ _ _ page, (page, {| ft_matches := 0; ft_active_match := None |}); renderer_source_generation := λ _, 0%N;
  apply_renderer_scroll := λ _, id; PageSnapshot := unit; ElementInfo := unit; ComputedStyle := unit; EngineDiagnostic := unit;
  FormSubmissionInfo := unit; page_snapshot := λ _ _, tt; render_snapshot := λ _ _ _ _ _ _ _, Err [];
  page_accessibility_snapshot := λ c d v _, {| axs_context_id := c; axs_document_id := d; axs_source_generation := 1;
    axs_generation := 1; axs_viewport := v; axs_nodes := []; axs_truncated := false |};
  query_selector_all_in_viewport := λ _ _ _, Ok []; computed_style_for_viewport := λ _ _ _, tt; diagnostics := λ _, [];
  dump_dom := λ _, []; text_content := λ _, []; element_by_id := λ _ _, None; element_node_id := λ _, 0%nat;
  page_form_submission := λ _ _, Err [] |}.
#[local] Instance no_json : InputJson := {|
  json_string := Ok; json_optional_string := λ _, Ok []; json_mouse_init := λ _, []; json_key_init := λ _, [];
  json_text_input := λ _, [] |}.
#[local] Instance no_page_input : PageInput := {|
  default_pointer_event_target_node_id := λ _, None; element_identity := λ _ _, None;
  focused_element_consumes_scroll_keys := λ _, false |}.

(** A context is created and navigated; the source arrives and the work is done, and a second
    navigation is replaced by a third before its source has come. *)
Definition a_source : result BrowserError LoadedSource := Ok {| so_final_url := lit "https://a.test/"; so_html := []; so_headers := [] |}.
Definition no_delta : CookieJarDelta := {| upserts := []; removals := [] |}.
Definition schedule : list Move :=
  [MoveClient (MsgDispatch CmdCreateBrowsingContext); MoveHandle; MoveClient (MsgDispatch (CmdNavigate 1 (lit "https://a.test/")));
   MoveHandle; MoveAnswer 1 a_source no_delta; MoveHandle; MoveWork; MoveWork; MoveWork; MoveWork; MoveWork; MoveWork; MoveWork;
   MoveClient (MsgDispatch (CmdNavigate 1 (lit "https://b.test/"))); MoveClient (MsgDispatch (CmdNavigate 1 (lit "https://c.test/")));
   MoveHandle; MoveHandle].
Definition no_query : WebUrl → option rstr := λ _, None.
Definition no_set_query : WebUrl → rstr → rstr := λ _ _, [].
Definition first_world : CoreWorld :=
  {| w_core := BrowserCore_new 4 store_open 1000 [] false; w_mail := []; w_thread := Running |}.
Definition played : option CoreWorld := play no_query no_set_query id (λ _, []) 8 3 schedule first_world.
Local Abbreviation toy_reachable w :=
  (reachable no_query no_set_query id (λ _, []) 8 (BrowserCore_new 4 store_open 1000 [] false) w).
Lemma played_reachable w : played = Some w → toy_reachable w.
Proof. intros Hw. eapply play_reachable; [apply reach_start|exact Hw]. Qed.
Lemma played_phases : (λ w, (nav_phases 1 (events (w_core w)), nav_phases 2 (events (w_core w)), nav_phases 3 (events (w_core w)))) <$> played =
  Some (main_phases, [Intent; Policy; Request; Cancelled], [Intent; Policy; Request]).
Proof. vm_compute. reflexivity. Qed.

Lemma events_tell_the_state_witness :
  ∃ w m, toy_reachable w ∧ nav_phases 1 (events (w_core w)) = main_phases ∧ replay (events (w_core w)) = Some m ∧
    told <$> m_contexts m = known <$> contexts (w_core w).
Proof.
  pose proof played_phases as Hph. destruct played as [w|] eqn:Hw; [|discriminate Hph]. apply played_reachable in Hw.
  cbn in Hph. injection Hph as Hph _ _.
  destruct (events_tell_the_state no_query no_set_query id (λ _, []) 8 4 store_open 1000 [] false w Hw) as (_ & m & Hm & Hc & _).
  exists w, m. by repeat split.
Defined.
Lemma navigations_end_once_witness :
  ∃ w, toy_reachable w ∧ requested 3 (events (w_core w)) = true ∧ nav_phases 3 (events (w_core w)) = [Intent; Policy; Request] ∧
    ∃ c x a, contexts (w_core w) !! c = Some x ∧ bc_active_navigation x = Some a ∧ an_navigation_id a = 3%positive.
Proof.
  pose proof played_phases as Hph.
  assert (Hq : (λ w, requested 3 (events (w_core w))) <$> played = Some true) by (vm_compute; reflexivity).
  destruct played as [w|] eqn:Hw; [|discriminate Hph]. apply played_reachable in Hw. cbn in Hph, Hq.
  injection Hph as _ _ Hph. injection Hq as Hq.
  destruct (navigations_end_once no_query no_set_query id (λ _, []) 8 4 store_open 1000 [] false w 3 Hw Hq) as (_ & _ & Hback).
  exists w. split; [exact Hw|]. split; [exact Hq|]. split; [exact Hph|]. apply Hback. by rewrite Hph.
Defined.
Lemma registry_invariant_witness :
  ∃ w, toy_reachable w ∧ active_context (w_core w) = Some 1%positive ∧ is_Some (contexts (w_core w) !! 1%positive).
Proof.
  assert (Ha : (λ w, active_context (w_core w)) <$> played = Some (Some 1%positive)) by (vm_compute; reflexivity).
  destruct played as [w|] eqn:Hw; [|discriminate Ha]. apply played_reachable in Hw. cbn in Ha. injection Ha as Ha.
  destruct (registry_invariant no_query no_set_query id (λ _, []) 8 4 store_open 1000 [] false w Hw) as (_ & _ & _ & _ & HF & _).
  exists w. split; [exact Hw|]. split; [exact Ha|]. by rewrite Ha in HF.
Defined.
Lemma work_is_queued_witness :
  ∃ w, play no_query no_set_query id (λ _, []) 8 3 (take 7 schedule) first_world = Some w ∧
    pending_navigation_work (w_core w) = [(1, 1)%positive] ∧ NoDup (pending_navigation_work (w_core w)).
Proof.
  assert (Hq : (λ w, pending_navigation_work (w_core w)) <$> play no_query no_set_query id (λ _, []) 8 3 (take 7 schedule) first_world =
    Some [(1, 1)%positive]) by (vm_compute; reflexivity).
  destruct (play _ _ _ _ _ _ _ first_world) as [w|] eqn:Hw; [|discriminate Hq]. cbn in Hq. injection Hq as Hq.
  destruct (work_is_queued no_query no_set_query id (λ _, []) 8 4 store_open 1000 [] false w) as [Hnd _].
  { eapply play_reachable; [apply reach_start|exact Hw]. }
  exists w. by repeat split.
Defined.
