(* ===== verification/Controller.v ===== *)
(** * The controller of a front end

    [crates/vixen-ffi/src/lib.rs]: [FlutterBrowserController], which turns the operations of a
    foreign front end into commands of the browser and their results into responses, and keeps
    the one thing that a front end needs between two mouse events, the press of the primary
    button.  The handle of the browser is the class [EngineBrowserHandle].  Definitions first;
    the theorem says when a click is sent. *)

From Stdlib Require Import Lia ZArith.
From stdpp Require Import base decidable gmap sets list strings.
From S2P Require Import Prelude.
From S2P Require Import RustFloat.
From S2P Require Import RustStr.
From S2P Require Import Accessibility.
From S2P Require Import RenderModel.
From S2P Require Import RenderSource.
From S2P Require Import RenderCommit.
From S2P Require Import SyncRenderer.
From S2P Require Import Cookie.
From S2P Require Import Store.
From S2P Require Import WebStorage.
From S2P Require Import NetUrl.
From S2P Require Import HttpCache.
From S2P Require Import Network.
From S2P Require Import BrowserApi.
From S2P Require Import ExternalResource.
From S2P Require Import BrowserCore.
From S2P Require Import BrowserCommands.

Section controller.
Context `{Platform, UrlPlatform, HttpDate, ErrorText, PageEngine, StorePlatform, RuntimeType} `{!ScriptEngine}.
Context `{!PageCommands}.

(** What the controller asks of the engine's handle.  Behind the handle is also what the engine
    shares with the boundary of the C interface: the broker and the acceptance state of the
    renderer. *)
Class EngineBrowserHandle : Type := {
  Engine : Type;
  handle_dispatch : BrowserCommand → M Engine BrowserError CommandResult;
  (** [pop] with the timeout in milliseconds *)
  handle_pop : option N → M Engine BrowserError (option BrowserEvent);
  handle_bridge : Engine → Bridge;
  handle_set_bridge : Bridge → Engine → Engine;
  (** the texts of [Debug] *)
  debug_command_result : CommandResult → rstr;
}.

Record MouseEventDispatch : Type := {
  md_context_id : BrowsingContextId; md_document_id : DocumentId; md_runtime_context_id : RuntimeContextId;
  md_viewport : N * N; md_event_type : rstr; md_event : MouseEventData;
}.
Record RendererMouseEventDispatch : Type := {
  rd_mouse : MouseEventDispatch; rd_query : RenderHitTestQuery; rd_target : option RenderInputTarget;
}.
Record AccessibilityActionDispatch : Type := {
  ad_context_id : BrowsingContextId; ad_document_id : DocumentId; ad_runtime_context_id : RuntimeContextId;
  ad_viewport : N * N; ad_source_generation : N; ad_generation : N; ad_node_id : N; ad_action : AccessibilityAction;
}.

Inductive ControllerCommand : Type :=
| CtlStartCdp (port : N)
| CtlLoadProfileSession
| CtlSaveCurrentProfileSession
| CtlBrowserSnapshot
| CtlCreateContext
| CtlCloseContext (c : BrowsingContextId)
| CtlActivateContext (c : BrowsingContextId)
| CtlNavigate (c : BrowsingContextId) (url : rstr)
| CtlReload (c : BrowsingContextId)
| CtlStop (c : BrowsingContextId)
| CtlTraverseHistory (c : BrowsingContextId) (delta : Z)
| CtlContextState (c : BrowsingContextId)
| CtlUpdateHostViewState (c : BrowsingContextId) (state : HostViewState)
| CtlSetPageZoom (c : BrowsingContextId) (zoom : f64)
| CtlAccessibilitySnapshot (c : BrowsingContextId) (d : DocumentId) (viewport : N * N)
| CtlPublishRendererSnapshot (c : BrowsingContextId) (d : DocumentId) (viewport : N * N) (viewport_generation : N) (page_zoom : f64)
| CtlFlushRendererSubmissions
| CtlDispatchAccessibilityAction (request : AccessibilityActionDispatch)
| CtlDispatchRendererMouseEvent (request : RendererMouseEventDispatch)
| CtlDispatchKeyEvent (c : BrowsingContextId) (d : DocumentId) (r : RuntimeContextId) (viewport : N * N) (event_type : rstr)
    (event : KeyEventData)
| CtlDispatchTextInput (c : BrowsingContextId) (d : DocumentId) (r : RuntimeContextId) (viewport : N * N) (state : TextInputState)
| CtlFindText (c : BrowsingContextId) (d : DocumentId) (query : rstr) (case_sensitive forward : bool).

Record InputDispatchResult : Type := { in_effects : RuntimeEffects; in_navigation_actions : list NavigationActionOutcome }.

Inductive ControllerResponse : Type :=
| RspAccepted
| RspProfileSession (session : ProfileSessionState)
| RspBrowserSnapshot (snapshot : BrowserSnapshot)
| RspContextCreated (c : BrowsingContextId)
| RspNavigationAccepted (n : NavigationId)
| RspContextState (state : BrowsingContextState)
| RspAccessibilitySnapshot (snapshot : AccessibilitySnapshot)
| RspInputDispatched (r : InputDispatchResult)
| RspFindText (r : FindTextResult)
| RspRendererUpdate (snapshot : FullRenderSnapshot).

Record PrimaryMousePress : Type := {
  pm_context_id : BrowsingContextId; pm_document_id : DocumentId; pm_runtime_context_id : RuntimeContextId; pm_node_id : N;
}.
#[export] Instance PrimaryMousePress_eq_dec : EqDecision PrimaryMousePress.
Proof. solve_decision. Defined.

Context `{!EngineBrowserHandle}.

Record FlutterBrowserController : Type := { co_handle : Engine; co_press : option PrimaryMousePress }.
Definition set_handle (h : Engine) (s : FlutterBrowserController) : FlutterBrowserController :=
  {| co_handle := h; co_press := co_press s |}.
Definition set_press (p : option PrimaryMousePress) (s : FlutterBrowserController) : FlutterBrowserController :=
  {| co_handle := co_handle s; co_press := p |}.

Local Abbreviation K := (M FlutterBrowserController BrowserError).

(** [from_config], once the engine has been started *)
Definition controller_from_config (started : result BrowserError Engine) : result BrowserError FlutterBrowserController :=
  h ← started; Ok {| co_handle := h; co_press := None |}.

Definition on_handle {A} (m : M Engine BrowserError A) : K A :=
  λ s, let '(h, r) := m (co_handle s) in (set_handle h s, r).
Definition ask (command : BrowserCommand) : K CommandResult := on_handle (handle_dispatch command).
Definition try_next_event : K (option BrowserEvent) := on_handle (handle_pop None).
Definition wait_next_event (timeout : N) : K (option BrowserEvent) := on_handle (handle_pop (Some timeout)).

Definition unexpected_result (r : CommandResult) : BrowserError :=
  BrowserError_new CLOSED (lit "unsupported browser result at controller boundary: " ++ debug_command_result r).
Definition empty_input_result : InputDispatchResult := {| in_effects := RuntimeEffects_default; in_navigation_actions := [] |}.

Definition controller_apply_commit (commit : RenderCommit) : K unit :=
  r ← ask (CmdApplyRendererCommit commit);
  match r with ResCommand Accepted => mret () | r => fail (unexpected_result r) end.

(** The [match] at the end of [dispatch] *)
Definition response_of_result (r : CommandResult) : result BrowserError ControllerResponse :=
  match r with
  | ResCommand Accepted => Ok RspAccepted
  | ResCommand (ResProfileSession session) => Ok (RspProfileSession session)
  | ResCommand (ResBrowserSnapshot snapshot) => Ok (RspBrowserSnapshot snapshot)
  | ResCommand (ResBrowsingContextCreated c) => Ok (RspContextCreated c)
  | ResCommand (NavigationAccepted n) => Ok (RspNavigationAccepted n)
  | ResCommand (ResBrowsingContextState state) => Ok (RspContextState state)
  | ResAccessibilitySnapshot snapshot => Ok (RspAccessibilitySnapshot snapshot)
  | ResCommand (ResInputDispatched effects actions) =>
      Ok (RspInputDispatched {| in_effects := effects; in_navigation_actions := actions |})
  | ResFindText r => Ok (RspFindText r)
  | r => Err (unexpected_result r)
  end.
Definition forward_command (command : BrowserCommand) : K ControllerResponse :=
  r ← ask command; lift (response_of_result r).

Definition renderer_snapshot (c : BrowsingContextId) (d : DocumentId) (viewport : N * N) (viewport_generation : N) (page_zoom : f64) :
    K ControllerResponse :=
  _ ← lift (throw_if (viewport_generation =? 0)%N
        (BrowserError_new INVALID_ARGUMENT (lit "renderer viewport generation must be nonzero")));
  _ ← lift (throw_if (negb (is_finite page_zoom) || negb (f64_leb MIN_PAGE_ZOOM page_zoom && f64_leb page_zoom MAX_PAGE_ZOOM))
        (BrowserError_new INVALID_ARGUMENT (lit "renderer page zoom is outside the supported range")));
  r ← ask (CmdRenderSnapshot c d viewport viewport_generation page_zoom);
  match r with ResRenderSnapshot snapshot => mret (RspRendererUpdate snapshot) | r => fail (unexpected_result r) end.

(** [accessibility_snapshot], whose [dispatch] answers with a snapshot or an error: what the
    forwarded command gives *)
Variable debug_response : ControllerResponse → rstr.
Definition unexpected_response (action : rstr) (r : ControllerResponse) : BrowserError :=
  BrowserError_new CLOSED (lit "unexpected response for " ++ action ++ lit ": " ++ debug_response r).
Definition controller_accessibility_snapshot (c : BrowsingContextId) (d : DocumentId) (viewport : N * N) : K AccessibilitySnapshot :=
  r ← forward_command (CmdAccessibilitySnapshot c d viewport);
  match r with
  | RspAccessibilitySnapshot snapshot => mret snapshot
  | r => fail (unexpected_response (lit "get accessibility snapshot") r)
  end.

Definition controller_accessibility_action (request : AccessibilityActionDispatch) : K ControllerResponse :=
  snapshot ← controller_accessibility_snapshot (ad_context_id request) (ad_document_id request) (ad_viewport request);
  let snapshot := bounded_accessibility_snapshot snapshot in
  _ ← lift (throw_if (negb (axs_source_generation snapshot =? ad_source_generation request)%N ||
                      negb (axs_generation snapshot =? ad_generation request)%N)
        (BrowserError_new STALE_ACCESSIBILITY (lit "accessibility projection is no longer current")));
  _ ← lift (throw_if (negb (advertises snapshot (ad_node_id request) (ad_action request)))
        (BrowserError_new INVALID_ARGUMENT (lit "accessibility node does not advertise the requested action")));
  r ← ask (CmdDispatchAccessibilityAction (ad_context_id request) (ad_document_id request) (ad_runtime_context_id request)
             (ad_viewport request) (ad_source_generation request) (ad_node_id request) (ad_action request));
  match r with
  | ResCommand (ResInputDispatched effects actions) =>
      mret (RspInputDispatched {| in_effects := effects; in_navigation_actions := actions |})
  | r => fail (unexpected_result r)
  end.

Definition key_event_type (event_type : rstr) : rstr :=
  if bool_decide (event_type = lit "keydown") then lit "keyDown"
  else if bool_decide (event_type = lit "keyup") then lit "keyUp" else event_type.

(** [dispatch] *)
Definition controller_dispatch (command : ControllerCommand) : K ControllerResponse :=
  match command with
  | CtlStartCdp _ => fail (BrowserError_new INVALID_ARGUMENT (lit "CDP startup is owned by the embedding boundary"))
  | CtlLoadProfileSession => forward_command CmdLoadProfileSession
  | CtlSaveCurrentProfileSession => forward_command CmdSaveCurrentProfileSession
  | CtlBrowserSnapshot => forward_command CmdGetBrowserSnapshot
  | CtlCreateContext => forward_command CmdCreateBrowsingContext
  | CtlCloseContext c => forward_command (CmdCloseBrowsingContext c)
  | CtlActivateContext c => forward_command (CmdActivateBrowsingContext c)
  | CtlNavigate c url => forward_command (CmdNavigate c url)
  | CtlReload c => forward_command (CmdReload c)
  | CtlStop c => forward_command (CmdStop c)
  | CtlTraverseHistory c delta => forward_command (CmdTraverseHistory c delta)
  | CtlContextState c => forward_command (CmdGetBrowsingContextState c)
  | CtlUpdateHostViewState c state => _ ← modify (set_press None); forward_command (CmdUpdateHostViewState c state)
  | CtlSetPageZoom c zoom => _ ← modify (set_press None); forward_command (CmdSetPageZoom c zoom)
  | CtlAccessibilitySnapshot c d viewport => forward_command (CmdAccessibilitySnapshot c d viewport)
  | CtlPublishRendererSnapshot c d viewport generation zoom => renderer_snapshot c d viewport generation zoom
  | CtlFlushRendererSubmissions => mret RspAccepted
  | CtlDispatchAccessibilityAction request => controller_accessibility_action request
  | CtlDispatchRendererMouseEvent _ =>
      fail (BrowserError_new INVALID_ARGUMENT (lit "renderer mouse input requires commit validation at the C boundary"))
  | CtlDispatchKeyEvent c d r _ event_type event => forward_command (CmdDispatchKeyEvent c d r (key_event_type event_type) event)
  | CtlDispatchTextInput c d r _ state => forward_command (CmdDispatchTextInput c d r state)
  | CtlFindText c d query case_sensitive forward_ => forward_command (CmdFindText c d query case_sensitive forward_)
  end.

(** ** Mouse events *)

Definition dispatch_mouse_to_node (c : BrowsingContextId) (d : DocumentId) (r : RuntimeContextId) (node_id : N) (event_type : rstr)
    (event : MouseEventData) : K InputDispatchResult :=
  x ← ask (CmdDispatchMouseEvent c d r node_id event_type event);
  match x with
  | ResCommand (ResInputDispatched effects actions) => mret {| in_effects := effects; in_navigation_actions := actions |}
  | x => fail (unexpected_result x)
  end.
(** [Err(error) => { self.primary_mouse_press = None; return Err(error) }] *)
Definition forget_on_error {A} (m : K A) : K A :=
  λ s, match m s with (s, Err e) => (set_press None s, Err e) | x => x end.

(** The press belongs to this document and runtime. *)
Definition press_here (dispatch : MouseEventDispatch) (press : PrimaryMousePress) : bool :=
  bool_decide (pm_context_id press = md_context_id dispatch) && bool_decide (pm_document_id press = md_document_id dispatch) &&
  bool_decide (pm_runtime_context_id press = md_runtime_context_id dispatch).
Definition press_at (dispatch : MouseEventDispatch) (node_id : N) : PrimaryMousePress :=
  {| pm_context_id := md_context_id dispatch; pm_document_id := md_document_id dispatch;
     pm_runtime_context_id := md_runtime_context_id dispatch; pm_node_id := node_id |}.
Definition MOUSE_EVENT_TYPES : list string := ["mousemove"; "mousedown"; "mouseup"; "wheel"; "cancel"].
Definition mouse_event_type (t : rstr) : bool := existsb (λ x, bool_decide (t = lit x)) MOUSE_EVENT_TYPES.

(** What follows once the node is known *)
Definition mouse_on_node (dispatch : MouseEventDispatch) (pressed : option PrimaryMousePress) (node_id : N) : K ControllerResponse :=
  let to_node := dispatch_mouse_to_node (md_context_id dispatch) (md_document_id dispatch) (md_runtime_context_id dispatch) node_id in
  let event := md_event dispatch in
  result ← forget_on_error (to_node (md_event_type dispatch) event);
  if bool_decide (md_event_type dispatch = lit "mousedown") && (me_button event =? 0)%Z then
    _ ← modify (set_press (Some (press_at dispatch node_id)));
    mret (RspInputDispatched result)
  else if bool_decide (md_event_type dispatch = lit "mouseup") && (me_button event =? 0)%Z &&
          bool_decide (pressed = Some (press_at dispatch node_id)) then
    clicked ← forget_on_error (to_node (lit "click") event);
    mret (RspInputDispatched {| in_effects := effects_extend (in_effects result) (in_effects clicked);
                                in_navigation_actions := in_navigation_actions result ++ in_navigation_actions clicked |})
  else mret (RspInputDispatched result).

Definition controller_mouse_event (dispatch : MouseEventDispatch) (renderer_target : option N) : K ControllerResponse :=
  let t := md_event_type dispatch in
  if negb (mouse_event_type t) then
    _ ← modify (set_press None);
    fail (BrowserError_new INVALID_ARGUMENT (lit "unsupported mouse event type"))
  else if bool_decide (t = lit "cancel") then
    _ ← modify (λ s, if from_option (press_here dispatch) false (co_press s) then set_press None s else s);
    mret (RspInputDispatched empty_input_result)
  else
    s ← get;
    let generation_matches := from_option (press_here dispatch) true (co_press s) in
    _ ← modify (λ s, if negb generation_matches || bool_decide (t = lit "mousedown") then set_press None s else s);
    s ← get;
    let pressed := if bool_decide (t = lit "mouseup") then co_press s else None in
    _ ← modify (λ s, if bool_decide (t = lit "mouseup") then set_press None s else s);
    match renderer_target with
    | Some node_id => mouse_on_node dispatch pressed node_id
    | None => if bool_decide (t = lit "wheel") then mouse_on_node dispatch pressed 0
              else _ ← modify (set_press None); mret (RspInputDispatched empty_input_result)
    end.

(** ** The typed operations for embedders in Rust *)

Definition expect_accepted (action : rstr) (command : ControllerCommand) : K unit :=
  r ← controller_dispatch command;
  match r with RspAccepted => mret () | r => fail (unexpected_response action r) end.
Definition expect_navigation (action : rstr) (command : ControllerCommand) : K NavigationId :=
  r ← controller_dispatch command;
  match r with RspNavigationAccepted n => mret n | r => fail (unexpected_response action r) end.
Definition ctl_load_profile_session : K ProfileSessionState :=
  r ← controller_dispatch CtlLoadProfileSession;
  match r with RspProfileSession s => mret s | r => fail (unexpected_response (lit "load profile session") r) end.
Definition ctl_save_current_profile_session : K unit :=
  expect_accepted (lit "save current profile session") CtlSaveCurrentProfileSession.
Definition ctl_browser_snapshot : K BrowserSnapshot :=
  r ← controller_dispatch CtlBrowserSnapshot;
  match r with RspBrowserSnapshot s => mret s | r => fail (unexpected_response (lit "get browser snapshot") r) end.
Definition ctl_create_context : K BrowsingContextId :=
  r ← controller_dispatch CtlCreateContext;
  match r with RspContextCreated c => mret c | r => fail (unexpected_response (lit "create context") r) end.
Definition ctl_close_context (c : BrowsingContextId) : K unit := expect_accepted (lit "close context") (CtlCloseContext c).
Definition ctl_activate_context (c : BrowsingContextId) : K unit := expect_accepted (lit "activate context") (CtlActivateContext c).
Definition ctl_navigate (c : BrowsingContextId) (url : rstr) : K NavigationId := expect_navigation (lit "navigate") (CtlNavigate c url).
Definition ctl_reload (c : BrowsingContextId) : K NavigationId := expect_navigation (lit "reload") (CtlReload c).
Definition ctl_stop (c : BrowsingContextId) : K unit := expect_accepted (lit "stop") (CtlStop c).
Definition ctl_traverse_history (c : BrowsingContextId) (delta : Z) : K (option NavigationId) :=
  r ← controller_dispatch (CtlTraverseHistory c delta);
  match r with
  | RspNavigationAccepted n => mret (Some n)
  | RspAccepted => mret None
  | r => fail (unexpected_response (lit "traverse history") r)
  end.
Definition ctl_context_state (c : BrowsingContextId) : K BrowsingContextState :=
  r ← controller_dispatch (CtlContextState c);
  match r with RspContextState s => mret s | r => fail (unexpected_response (lit "get context state") r) end.
Definition ctl_set_page_zoom (c : BrowsingContextId) (zoom : f64) : K BrowsingContextState :=
  r ← controller_dispatch (CtlSetPageZoom c zoom);
  match r with RspContextState s => mret s | r => fail (unexpected_response (lit "set page zoom") r) end.
Definition ctl_find_text (c : BrowsingContextId) (d : DocumentId) (query : rstr) (case_sensitive forward_ : bool) : K FindTextResult :=
  r ← controller_dispatch (CtlFindText c d query case_sensitive forward_);
  match r with RspFindText x => mret x | r => fail (unexpected_response (lit "find text") r) end.
End controller.

(** ** When a click is sent *)

Section clicks.
Context `{Platform, UrlPlatform, HttpDate, ErrorText, PageEngine, StorePlatform, RuntimeType} `{!ScriptEngine}.
Context `{!PageCommands}.

Abbreviation Entry := (BrowserCommand * result BrowserError CommandResult)%type.

(** A handle that also notes the commands it was given with their results *)
Definition logged (base : EngineBrowserHandle) : EngineBrowserHandle := {|
  Engine := Engine (EngineBrowserHandle := base) * list Entry;
  handle_dispatch command := λ '(e, log),
    let '(e, r) := handle_dispatch (EngineBrowserHandle := base) command e in ((e, log ++ [(command, r)]), r);
  handle_pop timeout := λ '(e, log), let '(e, r) := handle_pop (EngineBrowserHandle := base) timeout e in ((e, log), r);
  handle_bridge := λ x, handle_bridge (EngineBrowserHandle := base) x.1;
  handle_set_bridge b := λ x, (handle_set_bridge (EngineBrowserHandle := base) b x.1, x.2);
  debug_command_result := debug_command_result (EngineBrowserHandle := base);
|}.

(** What a front end may do *)
Inductive FrontEndOp : Type :=
| OpDispatch (command : ControllerCommand)
| OpMouse (dispatch : MouseEventDispatch) (target : option N)
| OpCommit (commit : RenderCommit)
| OpPop (timeout : option N).

Context (base : EngineBrowserHandle) (debug : ControllerResponse → rstr).
#[local] Instance logging : EngineBrowserHandle := logged base.
Local Abbreviation Ctl := FlutterBrowserController.
Definition log (s : Ctl) : list Entry := (co_handle s).2.

Definition run_op (op : FrontEndOp) (s : Ctl) : Ctl :=
  match op with
  | OpDispatch command => (controller_dispatch debug command s).1
  | OpMouse dispatch target => (controller_mouse_event dispatch target s).1
  | OpCommit commit => (controller_apply_commit commit s).1
  | OpPop timeout => (on_handle (handle_pop timeout) s).1
  end.
Definition run_ops (ops : list FrontEndOp) (e : Engine (EngineBrowserHandle := base)) : Ctl :=
  foldl (λ s op, run_op op s) {| co_handle := (e, []) : Engine; co_press := None |} ops.

(** A mouse event on a node, as the engine sees it *)
Definition mouse (p : PrimaryMousePress) (t : string) (event : MouseEventData) : BrowserCommand :=
  CmdDispatchMouseEvent (pm_context_id p) (pm_document_id p) (pm_runtime_context_id p) (pm_node_id p) (lit t) event.

(** A command that leaves a press as it is: no change of the host view or the zoom, and of mouse
    events only moves and wheels in the same document and runtime that the engine accepted;
    every other command (keys, text, navigations, ...) does. *)
Definition quiet (p : PrimaryMousePress) (x : Entry) : Prop :=
  match x with
  | (CmdDispatchMouseEvent c d r n t event, result) =>
      c = pm_context_id p ∧ d = pm_document_id p ∧ r = pm_runtime_context_id p ∧
      (t = lit "mousemove" ∨ t = lit "wheel") ∧ is_ok result = true
  | (CmdUpdateHostViewState _ _, _) | (CmdSetPageZoom _ _, _) => False
  | _ => True
  end.

(** The primary button went down on the node and the press still counts. *)
Definition pressed_in (l : list Entry) (p : PrimaryMousePress) : Prop :=
  ∃ before down result since, l = before ++ (mouse p "mousedown" down, Ok result) :: since ∧
    me_button down = 0%Z ∧ Forall (quiet p) since.
(** The last command was the release on that node, after such a press. *)
Definition released_in (l : list Entry) (p : PrimaryMousePress) (up : MouseEventData) : Prop :=
  ∃ before result, l = before ++ [(mouse p "mouseup" up, Ok result)] ∧ me_button up = 0%Z ∧ pressed_in before p.

Definition clicks_justified (l : list Entry) : Prop :=
  ∀ before p event result after, l = before ++ (mouse p "click" event, result) :: after → released_in before p event.

Definition is_click (command : BrowserCommand) : Prop :=
  match command with CmdDispatchMouseEvent _ _ _ _ t _ => t = lit "click" | _ => False end.

Lemma justified_snoc l command r :
  clicks_justified l → (∀ p event, command = mouse p "click" event → released_in l p event) → clicks_justified (l ++ [(command, r)]).
Proof.
  intros Hl Hc before p event result after Heq. destruct after as [|x after _] using rev_ind.
  - apply app_inj_tail in Heq as [-> [= -> ->]]. by apply Hc.
  - rewrite app_comm_cons, app_assoc in Heq. apply app_inj_tail in Heq as [-> _]. by eapply Hl.
Qed.
Lemma justified_other l command r : ¬ is_click command → clicks_justified l → clicks_justified (l ++ [(command, r)]).
Proof. intros Hn Hl. apply justified_snoc; [done|]. intros p event ->. by destruct Hn. Qed.
Lemma pressed_snoc l p x : pressed_in l p → quiet p x → pressed_in (l ++ [x]) p.
Proof.
  intros (before & down & result & since & -> & Hb & Hq) Hx. exists before, down, result, (since ++ [x]).
  rewrite <- app_assoc, <- app_comm_cons. split; [done|]. split; [done|]. apply Forall_app_2; [done|by constructor].
Qed.

(** The invariant of the controller *)
Definition Inv (s : Ctl) : Prop := clicks_justified (log s) ∧ ∀ p, co_press s = Some p → pressed_in (log s) p.

(** [m] keeps [Inv] from the states of [P] on and ends in a state of [Q]. *)
Definition triple {A} (P : Ctl → Prop) (m : M Ctl BrowserError A) (Q : result BrowserError A → Ctl → Prop) : Prop :=
  ∀ s, P s → Q (m s).2 (m s).1.
Lemma triple_bind {A B} P (m : M Ctl BrowserError A) (f : A → M Ctl BrowserError B) Q R :
  triple P m Q → (∀ a, triple (Q (Ok a)) (f a) R) → (∀ e s, Q (Err e) s → R (Err e) s) → triple P (m ≫= f) R.
Proof.
  intros Hm Hf He s Hs. unfold mbind, M_bind. specialize (Hm s Hs). destruct (m s) as [s' [a|e]]; cbn in *; [by apply Hf|by apply He].
Qed.
Lemma triple_keep {A B} P (m : M Ctl BrowserError A) (f : A → M Ctl BrowserError B) :
  triple P m (λ _, P) → (∀ a, triple P (f a) (λ _, P)) → triple P (m ≫= f) (λ _, P).
Proof. intros Hm Hf. eapply triple_bind; eauto. Qed.
Lemma triple_lift {A} P (r : result BrowserError A) : triple P (lift r) (λ _, P).
Proof. by intros s Hs. Qed.
Lemma triple_ret {A} P (a : A) : triple P (mret a : M Ctl BrowserError A) (λ _, P).
Proof. by intros s Hs. Qed.
Lemma triple_fail {A} P e : triple P (fail e : M Ctl BrowserError A) (λ _, P).
Proof. by intros s Hs. Qed.

(** A command that leaves every press as it is *)
Definition plain (command : BrowserCommand) : Prop := ∀ p r, quiet p (command, r).
Lemma dispatch_logged command e l :
  handle_dispatch command ((e, l) : Engine) =
  let '(e, r) := handle_dispatch (EngineBrowserHandle := base) command e in ((e, l ++ [(command, r)]), r).
Proof. reflexivity. Qed.
Lemma ask_spec command s : ∃ e r, ask command s =
  ({| co_handle := (e, log s ++ [(command, r)]) : Engine; co_press := co_press s |}, r).
Proof.
  destruct s as [[e l] p]. unfold ask, on_handle. cbn [co_handle]. rewrite dispatch_logged.
  destruct (handle_dispatch (EngineBrowserHandle := base) command e) as [e' r]. by exists e', r.
Qed.

Lemma ask_plain command : plain command → ¬ is_click command → triple Inv (ask command) (λ _, Inv).
Proof.
  intros Hp Hc s [Hj Hs]. destruct (ask_spec command s) as (e & r & ->). split; cbn; [by apply justified_other|].
  intros p Hpress. apply pressed_snoc; [by apply Hs|apply Hp].
Qed.
Definition unpressed (s : Ctl) : Prop := Inv s ∧ co_press s = None.
Lemma ask_unpressed command : ¬ is_click command → triple unpressed (ask command) (λ _, unpressed).
Proof.
  intros Hc s [[Hj Hs] Hn]. destruct (ask_spec command s) as (e & r & ->). split; [|exact Hn]. split; cbn; [by apply justified_other|].
  rewrite Hn. done.
Qed.
Lemma modify_unpressed : triple Inv (modify (set_press None)) (λ _, unpressed).
Proof. intros s [Hj _]. by split. Qed.
Lemma forward_plain command : plain command → ¬ is_click command → triple Inv (forward_command command) (λ _, Inv).
Proof. intros Hp Hc. apply triple_keep; [by apply ask_plain|intros r; apply triple_lift]. Qed.
Lemma forward_unpressed command : ¬ is_click command → triple Inv (_ ← modify (set_press None); forward_command command) (λ _, Inv).
Proof.
  intros Hc. eapply (triple_bind _ _ _ _ (λ _, Inv)); [apply modify_unpressed|intros _ s Hs|by intros e s [? _]].
  apply (triple_keep unpressed (ask command) (λ r, lift (response_of_result r))); [by apply ask_unpressed| |exact Hs].
  intros r. apply triple_lift.
Qed.

Ltac keep_tac :=
  repeat first
    [ apply triple_lift | apply triple_ret | apply triple_fail
    | apply forward_unpressed; by intros []
    | apply triple_keep; [|intros ?]
    | apply forward_plain; [by intros ? ?|by intros []]
    | apply ask_plain; [by intros ? ?|by intros []]
    | match goal with |- triple _ (match ?x with _ => _ end) _ => destruct x end ].

Lemma dispatch_keeps command : triple Inv (controller_dispatch debug command) (λ _, Inv).
Proof. destruct command; cbn [controller_dispatch]; unfold renderer_snapshot, controller_accessibility_action, controller_accessibility_snapshot; keep_tac. Qed.
Lemma commit_keeps commit : triple Inv (controller_apply_commit commit) (λ _, Inv).
Proof. unfold controller_apply_commit. keep_tac. Qed.

(** A mouse event sent to a node: what is logged, and what remains of the press *)
Lemma to_node_spec c d r n t event s : ∃ e x,
  (∃ y, forget_on_error (dispatch_mouse_to_node c d r n t event) s =
     ({| co_handle := (e, log s ++ [(CmdDispatchMouseEvent c d r n t event, Ok x)]) : Engine; co_press := co_press s |}, Ok y)) ∨
  (∃ z err, forget_on_error (dispatch_mouse_to_node c d r n t event) s =
     ({| co_handle := (e, log s ++ [(CmdDispatchMouseEvent c d r n t event, z)]) : Engine; co_press := None |}, Err err)).
Proof.
  unfold forget_on_error, dispatch_mouse_to_node. unfold mbind, M_bind.
  destruct (ask_spec (CmdDispatchMouseEvent c d r n t event) s) as (e & [x|err] & ->).
  - exists e, x. destruct x as [[]| | | | | | | | | |]; try (right; by eexists (Ok _), _). left. by eexists.
  - exists e, (ResCommand Accepted). right. by exists (Err err), err.
Qed.

(** The controller when the node of an event is known: the press it keeps is one of the same
    document, and none if the event is a press or a release *)
Definition Ready (dispatch : MouseEventDispatch) (pressed : option PrimaryMousePress) (s : Ctl) : Prop :=
  Inv s ∧ (∀ p, co_press s = Some p → press_here dispatch p = true) ∧ (∀ p, pressed = Some p → pressed_in (log s) p) ∧
  (md_event_type dispatch = lit "mousedown" ∨ md_event_type dispatch = lit "mouseup" → co_press s = None).

Lemma press_here_at dispatch p n : press_here dispatch p = true → ∀ x t event,
  t = lit "mousemove" ∨ t = lit "wheel" →
  quiet p (CmdDispatchMouseEvent (md_context_id dispatch) (md_document_id dispatch) (md_runtime_context_id dispatch) n t event, Ok x).
Proof. unfold press_here. intros [[Hc Hd]%andb_prop Hr]%andb_prop x t event Ht. bool_inv. by repeat split. Qed.

Lemma mouse_on_node_keeps dispatch pressed n :
  mouse_event_type (md_event_type dispatch) = true → md_event_type dispatch ≠ lit "cancel" →
  triple (Ready dispatch pressed) (mouse_on_node dispatch pressed n) (λ _, Inv).
Proof.
  intros Ht Hcancel s ([Hj Hs] & Hhere & Hpressed & Hnone). destruct dispatch as [c d r v t event]. cbn [md_event_type] in Ht, Hcancel, Hhere, Hnone.
  assert (¬ is_click (CmdDispatchMouseEvent c d r n t event)) as Hnc.
  { cbn [is_click]. intros ->. by vm_compute in Ht. }
  unfold mouse_on_node. cbn [md_context_id md_document_id md_runtime_context_id md_event md_event_type]. unfold mbind at 1, M_bind at 1.
  destruct (to_node_spec c d r n t event s) as (e & x & [(y & ->)|(z & err & ->)]).
  2: { split; [by apply justified_other|]. done. }
  assert (clicks_justified (log s ++ [(CmdDispatchMouseEvent c d r n t event, Ok x)])) as Hj' by by apply justified_other.
  case_bool_decide as Hdown; cbn [andb].
  { destruct (Z.eqb_spec (me_button event) 0) as [Hb|Hb].
    - split; [exact Hj'|]. cbn. intros p [= <-]. rewrite Hdown. exists (log s), event, x, []. by repeat split.
    - rewrite (bool_decide_false (t = lit "mouseup")) by (intros Hup; rewrite Hup in Hdown; by apply lit_inj in Hdown).
      split; [exact Hj'|]. cbn. by rewrite (Hnone (or_introl Hdown)). }
  case_bool_decide as Hup; cbn [andb].
  - specialize (Hnone (or_intror Hup)). destruct (Z.eqb_spec (me_button event) 0) as [Hb|Hb]; cbn [andb].
    2: { split; [exact Hj'|]. cbn. by rewrite Hnone. }
    case_bool_decide as Hp. 2: { split; [exact Hj'|]. cbn. by rewrite Hnone. }
    unfold mbind, M_bind. match goal with |- context [forget_on_error _ ?st] => set (s' := st) end.
    assert (∀ z, clicks_justified (log s' ++ [(CmdDispatchMouseEvent c d r n (lit "click") event, z)])) as Hclick.
    { intros z. apply justified_snoc; [exact Hj'|]. intros [pc pd pr pn] event' [= <- <- <- <- <-].
      exists (log s), x. split; [by unfold mouse; rewrite <- Hup|]. split; [done|]. by apply Hpressed. }
    destruct (to_node_spec c d r n (lit "click") event s') as (e' & x' & [(y' & ->)|(z' & err & ->)]).
    + split; [apply Hclick|]. cbn. by rewrite Hnone.
    + split; [apply Hclick|]. done.
  - split; [exact Hj'|]. cbn. intros p Hp. apply pressed_snoc; [by apply Hs|]. 
    apply (press_here_at {| md_context_id := c; md_document_id := d; md_runtime_context_id := r; md_viewport := v; md_event_type := t; md_event := event |});
      [by apply Hhere|].
    unfold mouse_event_type, MOUSE_EVENT_TYPES in Ht. cbn [existsb] in Ht. repeat case_bool_decide; naive_solver.
Qed.

Lemma mouse_keeps dispatch target : triple Inv (controller_mouse_event dispatch target) (λ _, Inv).
Proof.
  intros s [Hj Hs]. unfold controller_mouse_event. destruct (mouse_event_type (md_event_type dispatch)) eqn:Ht; [|by split]. cbn [negb].
  case_bool_decide as Hc.
  { unfold mbind, M_bind, modify. cbn [fst snd]. destruct (from_option (press_here dispatch) false (co_press s)); by split. }
  unfold mbind, M_bind, get, modify. cbn [fst snd].
  set (s1 := if negb (from_option (press_here dispatch) true (co_press s)) || bool_decide (md_event_type dispatch = lit "mousedown")
             then set_press None s else s).
  assert (Inv s1 ∧ (∀ p, co_press s1 = Some p → press_here dispatch p = true) ∧
          (md_event_type dispatch = lit "mousedown" → co_press s1 = None) ∧ log s1 = log s) as (Hi & Hh & Hd & Hl).
  { subst s1. destruct (from_option (press_here dispatch) true (co_press s)) eqn:Hf; cbn [negb orb]; [|by repeat split].
    case_bool_decide; [by repeat split|]. repeat split; try done. intros p Hp. rewrite Hp in Hf. exact Hf. }
  clearbody s1. set (s2 := if bool_decide _ then set_press None s1 else s1). set (pressed := if bool_decide _ then co_press s1 else None).
  assert (Ready dispatch pressed s2) as Hr.
  { subst s2 pressed. destruct Hi as [Hj1 Hs1]. case_bool_decide as Hup; repeat split; try done; naive_solver. }
  destruct target as [n|]; [by apply mouse_on_node_keeps|]. case_bool_decide; [by apply mouse_on_node_keeps|].
  destruct Hr as [[Hj2 _] _]. by split.
Qed.

(** And it is sent: where the engine accepts mouse events, a press and a release on one node
    make a click, whatever was before. *)
Lemma press_and_release_click p v down up s :
  (∀ command e, ∃ e' effects actions,
     handle_dispatch (EngineBrowserHandle := base) command e = (e', Ok (ResCommand (ResInputDispatched effects actions)))) →
  me_button down = 0%Z → me_button up = 0%Z →
  let at_node t event := {| md_context_id := pm_context_id p; md_document_id := pm_document_id p;
    md_runtime_context_id := pm_runtime_context_id p; md_viewport := v; md_event_type := lit t; md_event := event |} in
  (log (run_op (OpMouse (at_node "mouseup" up) (Some (pm_node_id p)))
         (run_op (OpMouse (at_node "mousedown" down) (Some (pm_node_id p))) s))).*1 =
  (log s).*1 ++ [mouse p "mousedown" down; mouse p "mouseup" up; mouse p "click" up].
Proof.
  intros Hok Hd Hu at_node. subst at_node. destruct p as [c d r n].
  assert (∀ t event s', ∃ e x y, forget_on_error (dispatch_mouse_to_node c d r n t event) s' =
    ({| co_handle := (e, log s' ++ [(CmdDispatchMouseEvent c d r n t event, x)]) : Engine; co_press := co_press s' |}, Ok y)) as Hnode.
  { intros t event [[e l] q]. unfold forget_on_error, dispatch_mouse_to_node, ask, on_handle, mbind, M_bind. cbn [co_handle].
    rewrite dispatch_logged. destruct (Hok (CmdDispatchMouseEvent c d r n t event) e) as (e' & ef & ac & ->). by eexists _, _, _. }
  set (s1 := run_op _ s). assert (∃ x, log s1 = log s ++ [(mouse (Build_PrimaryMousePress c d r n) "mousedown" down, x)] ∧
                                   co_press s1 = Some (Build_PrimaryMousePress c d r n)) as (x & Hl & Hp).
  { subst s1. unfold run_op, controller_mouse_event. cbn [md_event_type].
    rewrite (bool_decide_false (lit "mousedown" = lit "cancel")), (bool_decide_true (lit "mousedown" = lit "mousedown")),
      (bool_decide_false (lit "mousedown" = lit "mouseup")) by done.
    replace (mouse_event_type (lit "mousedown")) with true by done. cbn [negb].
    unfold mouse_on_node, mbind, M_bind, get, modify. cbn [md_event_type md_context_id md_document_id md_runtime_context_id md_event pm_context_id pm_document_id pm_runtime_context_id pm_node_id].
    rewrite orb_true_r. destruct (Hnode (lit "mousedown") down (set_press None s)) as (e & x & y & ->).
    rewrite bool_decide_true, Hd by done. cbn [andb Z.eqb]. by exists x. }
  unfold run_op, controller_mouse_event. cbn [md_event_type].
  rewrite (bool_decide_false (lit "mouseup" = lit "cancel")), (bool_decide_false (lit "mouseup" = lit "mousedown")),
    (bool_decide_true (lit "mouseup" = lit "mouseup")) by done.
  replace (mouse_event_type (lit "mouseup")) with true by done. cbn [negb].
  unfold mouse_on_node, mbind, M_bind, get, modify. cbn [fst snd]. rewrite Hp.
  replace (from_option _ true _) with true by (unfold press_here; cbn -[lit]; by rewrite !bool_decide_true). cbn [negb orb].
  cbn [md_event_type md_context_id md_document_id md_runtime_context_id md_event pm_context_id pm_document_id pm_runtime_context_id pm_node_id].
  destruct (Hnode (lit "mouseup") up (set_press None s1)) as (e & x' & y & ->).
  rewrite (bool_decide_false (lit "mouseup" = lit "mousedown")), (bool_decide_true (lit "mouseup" = lit "mouseup")), Hu by done. cbn [andb Z.eqb].
  rewrite Hp, bool_decide_true by done.
  match goal with |- context [forget_on_error _ ?st] => destruct (Hnode (lit "click") up st) as (e' & x'' & y' & ->) end.
  unfold log at 1. cbn [co_handle fst snd mret M_ret]. unfold log at 1. cbn [co_handle snd].
  change (log (set_press None s1)) with (log s1). rewrite Hl, !fmap_app. cbn. by rewrite <- !app_assoc.
Qed.

Lemma run_op_keeps op s : Inv s → Inv (run_op op s).
Proof.
  intros Hs. destruct op as [command|dispatch target|commit|timeout]; cbn.
  - by apply (dispatch_keeps command s).
  - by apply (mouse_keeps dispatch target s).
  - by apply (commit_keeps commit s).
  - destruct s as [[e l] p]. unfold on_handle. cbn [co_handle]. unfold handle_pop, logging, logged.
    match goal with |- context [let '(_, _) := ?x in _] => destruct x as [[e' l'] r] eqn:E end. cbn.
    cbn in E. match type of E with (let '(_, _) := ?x in _) = _ => destruct x as [e1 r1] end. by injection E as <- <- <-.
Qed.

(** *** What the front end did *)

(** The primary button goes down, or up, on the node. *)
Definition primary (t : string) (p : PrimaryMousePress) (op : FrontEndOp) : Prop :=
  match op with
  | OpMouse d target =>
      press_here d p = true ∧ target = Some (pm_node_id p) ∧ md_event_type d = lit t ∧ me_button (md_event d) = 0%Z
  | _ => False
  end.
(** What ends a press: a change of the host view or of the zoom; a cancel in the same document
    and runtime; and every other mouse event but a move with a target and a wheel there. *)
Definition disturbs (p : PrimaryMousePress) (op : FrontEndOp) : Prop :=
  match op with
  | OpDispatch (CtlUpdateHostViewState _ _) | OpDispatch (CtlSetPageZoom _ _) => True
  | OpMouse d target =>
      if bool_decide (md_event_type d = lit "cancel") then press_here d p = true
      else ¬ (press_here d p = true ∧
              (md_event_type d = lit "mousemove" ∧ is_Some target ∨ md_event_type d = lit "wheel"))
  | _ => False
  end.
Definition held (ops : list FrontEndOp) (p : PrimaryMousePress) : Prop :=
  ∃ before down since, ops = before ++ down :: since ∧ primary "mousedown" p down ∧ Forall (λ op, ¬ disturbs p op) since.

(** Nothing is clicked, and the press is kept or dropped. *)
Definition quietly (s s' : Ctl) : Prop :=
  ∃ sent, log s' = log s ++ sent ∧ Forall (λ x, ¬ is_click x.1) sent ∧ (co_press s' = co_press s ∨ co_press s' = None).
Lemma quietly_refl s : quietly s s.
Proof. exists []. rewrite app_nil_r. split_and!; [done|constructor|by left]. Qed.
Lemma quietly_trans s s' s'' : quietly s s' → quietly s' s'' → quietly s s''.
Proof.
  intros (l & Hl & Hf & Hp) (l' & Hl' & Hf' & Hp'). exists (l ++ l'). rewrite Hl', Hl, app_assoc. split; [done|].
  split; [by apply Forall_app_2|]. destruct Hp' as [->| ->]; [done|by right].
Qed.
Definition calm {A} (m : M Ctl BrowserError A) : Prop := ∀ s, quietly s (m s).1.
Lemma calm_bind {A B} (m : M Ctl BrowserError A) (f : A → M Ctl BrowserError B) : calm m → (∀ a, calm (f a)) → calm (m ≫= f).
Proof.
  intros Hm Hf s. unfold mbind, M_bind. specialize (Hm s). destruct (m s) as [s' [a|e]]; cbn in *; [|done].
  eapply quietly_trans; [exact Hm|apply Hf].
Qed.
Lemma calm_ask command : ¬ is_click command → calm (ask command).
Proof.
  intros Hc s. destruct (ask_spec command s) as (e & r & ->). exists [(command, r)]. split; [done|]. split; [by repeat constructor|by left].
Qed.
Lemma calm_drop : calm (modify (set_press None)).
Proof. intros s. exists []. rewrite app_nil_r. split_and!; [done|constructor|by right]. Qed.
Lemma calm_lift {A} (r : result BrowserError A) : calm (lift r). Proof. intros s. apply quietly_refl. Qed.
Lemma calm_ret {A} (a : A) : calm (mret a : M Ctl BrowserError A). Proof. intros s. apply quietly_refl. Qed.
Lemma calm_fail {A} e : calm (fail e : M Ctl BrowserError A). Proof. intros s. apply quietly_refl. Qed.
Lemma calm_forward command : ¬ is_click command → calm (forward_command command).
Proof. intros Hc. apply calm_bind; [by apply calm_ask|intros r; apply calm_lift]. Qed.

Ltac calm_tac :=
  repeat first
    [ apply calm_lift | apply calm_ret | apply calm_fail | apply calm_drop
    | apply calm_forward; by intros [] | apply calm_ask; by intros []
    | apply calm_bind; [|intros ?]
    | match goal with |- calm (match ?x with _ => _ end) => destruct x end ].
Lemma dispatch_calm command : calm (controller_dispatch debug command).
Proof. destruct command; cbn [controller_dispatch]; unfold renderer_snapshot, controller_accessibility_action, controller_accessibility_snapshot; calm_tac. Qed.
Lemma commit_calm commit : calm (controller_apply_commit commit).
Proof. unfold controller_apply_commit. calm_tac. Qed.
Lemma pop_calm timeout : calm (on_handle (handle_pop timeout) : M Ctl BrowserError _).
Proof.
  intros [[e l] p]. exists []. rewrite app_nil_r. unfold on_handle. cbn.
  destruct (handle_pop (EngineBrowserHandle := base) timeout e) as [e' r]. split_and!; [done|constructor|by left].
Qed.
Lemma view_dropped c state s : co_press (controller_dispatch debug (CtlUpdateHostViewState c state) s).1 = None.
Proof.
  cbn. unfold mbind at 1, M_bind at 1, modify.
  destruct (calm_forward (CmdUpdateHostViewState c state) ltac:(by intros []) (set_press None s)) as (? & _ & _ & [->| ->]); done.
Qed.
Lemma zoom_dropped c zoom s : co_press (controller_dispatch debug (CtlSetPageZoom c zoom) s).1 = None.
Proof.
  cbn. unfold mbind at 1, M_bind at 1, modify.
  destruct (calm_forward (CmdSetPageZoom c zoom) ltac:(by intros []) (set_press None s)) as (? & _ & _ & [->| ->]); done.
Qed.

(** What a mouse event logs and leaves, once its node is known *)
Lemma node_step d pressed n s :
  mouse_event_type (md_event_type d) = true →
  let s' := (mouse_on_node d pressed n s).1 in
  ∃ sent, log s' = log s ++ sent ∧
    (∀ p event r, (mouse p "click" event, r) ∈ sent →
       pressed = Some p ∧ press_at d n = p ∧ md_event_type d = lit "mouseup" ∧ md_event d = event ∧ me_button event = 0%Z) ∧
    (∀ p, co_press s' = Some p →
       (press_at d n = p ∧ md_event_type d = lit "mousedown" ∧ me_button (md_event d) = 0%Z) ∨ co_press s = Some p).
Proof.
  intros Ht. destruct d as [c d r v t event]. cbn [md_event_type] in Ht. intros s'.
  assert (Es : s' = (mouse_on_node {| md_context_id := c; md_document_id := d; md_runtime_context_id := r; md_viewport := v; md_event_type := t;
    md_event := event |} pressed n s).1) by done. clearbody s'. revert Es. unfold mouse_on_node. cbn [md_context_id md_document_id md_runtime_context_id md_event md_event_type]. unfold mbind at 1, M_bind at 1.
  assert (∀ x p ev y, ((mouse p "click" ev, y) : Entry) ≠ (CmdDispatchMouseEvent c d r n t event, x)) as Hfirst.
  { intros x p ev y [= _ _ _ _ E _ _]. rewrite <-E in Ht. by vm_compute in Ht. }
  destruct (to_node_spec c d r n t event s) as (e & x & [(y & ->)|(z & err & ->)]).
  2: { intros ->. eexists. split; [done|]. split; [by intros ??? ?%list_elem_of_singleton%Hfirst|done]. }
  destruct (bool_decide (t = lit "mousedown") && _) eqn:Ed.
  { apply andb_prop in Ed as [Ed%bool_decide_eq_true Hb%Z.eqb_eq]. intros ->. eexists. split; [done|].
    split; [by intros ??? ?%list_elem_of_singleton%Hfirst|]. intros p [= <-]. by left. }
  destruct (bool_decide (t = lit "mouseup") && _ && _) eqn:Eu.
  2: { intros ->. eexists. split; [done|]. split; [by intros ??? ?%list_elem_of_singleton%Hfirst|]. intros p Hp. by right. }
  apply andb_prop in Eu as [[Eu%bool_decide_eq_true Hb%Z.eqb_eq]%andb_prop Hp%bool_decide_eq_true].
  assert (∀ p ev y x', ((mouse p "click" ev, y) : Entry) ∈ [(CmdDispatchMouseEvent c d r n t event, Ok x)] ++ [(CmdDispatchMouseEvent c d r n (lit "click") event, x')] →
    pressed = Some p ∧ Build_PrimaryMousePress c d r n = p ∧ t = lit "mouseup" ∧ event = ev ∧ me_button ev = 0%Z) as Hboth.
  { intros p ev y' x' [?%list_elem_of_singleton%Hfirst|Hin%list_elem_of_singleton]%elem_of_app; [done|].
    destruct p as [pc pd pr pn]. injection Hin as <- <- <- <- <- _. by split_and!. }
  unfold mbind, M_bind. match goal with |- context [forget_on_error _ ?st] => set (s1 := st) end.
  destruct (to_node_spec c d r n (lit "click") event s1) as (e' & x' & [(y' & ->)|(z' & err & ->)]).
  all: intros ->; eexists ([_] ++ [_]); split; [rewrite app_assoc; done|]; split; [intros p' ev' r' Hin; exact (Hboth p' ev' r' _ Hin)|].
  - intros p E. by right.
  - done.
Qed.

Lemma mouse_step d target s :
  let s' := run_op (OpMouse d target) s in
  ∃ sent, log s' = log s ++ sent ∧
    (∀ p event r, (mouse p "click" event, r) ∈ sent →
       primary "mouseup" p (OpMouse d target) ∧ md_event d = event ∧ co_press s = Some p) ∧
    (∀ p, co_press s' = Some p → primary "mousedown" p (OpMouse d target) ∨ (co_press s = Some p ∧ ¬ disturbs p (OpMouse d target))).
Proof.
  cbn [run_op primary disturbs]. unfold controller_mouse_event.
  destruct (mouse_event_type (md_event_type d)) eqn:Ht; cbn [negb].
  2: { exists []. rewrite app_nil_r. split; [done|]. by split; [intros ??? ?%elem_of_nil|]. }
  case_bool_decide as Hc.
  { exists []. unfold mbind, M_bind, modify. cbn [fst snd]. destruct (from_option (press_here d) false (co_press s)) eqn:Ef; rewrite app_nil_r;
      (split; [done|]; split; [by intros ??? ?%elem_of_nil|]); [done|]. intros p Hp. right. split; [done|]. intros E.
    cbn in Hp. rewrite Hp in Ef. cbn in Ef. congruence. }
  unfold mbind, M_bind, get, modify. cbn [fst snd].
  set (s1 := if negb (from_option (press_here d) true (co_press s)) || bool_decide (md_event_type d = lit "mousedown") then set_press None s else s).
  assert (log s1 = log s ∧ ∀ p, co_press s1 = Some p → co_press s = Some p ∧ press_here d p = true ∧ md_event_type d ≠ lit "mousedown") as [Hl1 Hp1].
  { subst s1. destruct (from_option (press_here d) true (co_press s)) eqn:Ef; cbn [negb orb]; [|by split].
    case_bool_decide; [by split|]. split; [done|]. intros p Hp. rewrite Hp in Ef. by split_and!. }
  clearbody s1. set (s2 := if bool_decide (md_event_type d = lit "mouseup") then set_press None s1 else s1).
  set (pressed := if bool_decide _ then co_press s1 else None).
  assert (log s2 = log s ∧ (∀ p, co_press s2 = Some p → co_press s1 = Some p ∧ md_event_type d ≠ lit "mouseup") ∧
          (∀ p, pressed = Some p → co_press s1 = Some p)) as (Hl2 & Hp2 & Hpr).
  { subst s2 pressed. case_bool_decide; by split_and!. }
  clearbody s2 pressed.
  assert (∀ n, (target = Some n ∨ md_event_type d = lit "wheel") →
    ∃ sent, log (mouse_on_node d pressed n s2).1 = log s ++ sent ∧
    (∀ p event r, (mouse p "click" event, r) ∈ sent →
       (press_here d p = true ∧ target = Some (pm_node_id p) ∧ md_event_type d = lit "mouseup" ∧ me_button (md_event d) = 0%Z) ∧
       md_event d = event ∧ co_press s = Some p) ∧
    (∀ p, co_press (mouse_on_node d pressed n s2).1 = Some p →
       (press_here d p = true ∧ target = Some (pm_node_id p) ∧ md_event_type d = lit "mousedown" ∧ me_button (md_event d) = 0%Z) ∨
       co_press s = Some p ∧ ¬ ¬ (press_here d p = true ∧
         (md_event_type d = lit "mousemove" ∧ is_Some target ∨ md_event_type d = lit "wheel")))) as Hnode.
  { intros n Hn. destruct (node_step d pressed n s2 Ht) as (sent & Hlog & Hclick & Hpress). exists sent. rewrite Hlog, Hl2.
    assert (press_here d (press_at d n) = true) as Hat by (unfold press_here; cbn; by rewrite !bool_decide_true).
    split; [done|]. split.
    - intros p event r Hin. destruct (Hclick p event r Hin) as (Hpr' & <- & Hu & <- & Hb). destruct (Hp1 _ (Hpr _ Hpr')) as (Hs & _ & _).
      split_and!; try done. destruct Hn as [->|Hw]; [done|]. rewrite Hu in Hw. by apply lit_inj in Hw.
    - intros p Hp. destruct (Hpress p Hp) as [(<- & Hd & Hb)|[[Hs Hh]%Hp1 Hu]%Hp2].
      + left. split_and!; try done. destruct Hn as [->|Hw]; [done|]. rewrite Hd in Hw. by apply lit_inj in Hw.
      + destruct Hh as [Hh Hd]. right. split; [done|]. intros Hno. apply Hno. split; [done|].
        unfold mouse_event_type, MOUSE_EVENT_TYPES in Ht. cbn [existsb] in Ht. destruct Hn as [->|Hw]; [|by right].
        repeat case_bool_decide; naive_solver. }
  destruct target as [n|]; [by apply Hnode; left|]. case_bool_decide; [by apply Hnode; right|].
  exists []. rewrite app_nil_r. split; [exact Hl2|]. by split; [intros ??? ?%elem_of_nil|].
Qed.

Lemma run_op_click op s :
  ∃ sent, log (run_op op s) = log s ++ sent ∧
    (∀ p event r, (mouse p "click" event, r) ∈ sent →
       primary "mouseup" p op ∧ (∃ d target, op = OpMouse d target ∧ md_event d = event) ∧ co_press s = Some p) ∧
    (∀ p, co_press (run_op op s) = Some p → primary "mousedown" p op ∨ (co_press s = Some p ∧ ¬ disturbs p op)).
Proof.
  assert (quietly s (run_op op s) → ∃ sent, log (run_op op s) = log s ++ sent ∧
    (∀ p event r, ((mouse p "click" event, r) : Entry) ∈ sent → False) ∧ (co_press (run_op op s) = co_press s ∨ co_press (run_op op s) = None)) as Hq.
  { intros (sent & Hl & Hn & Hp). exists sent. split_and!; [done| |done]. intros p event r Hin.
    rewrite Forall_forall in Hn. by apply (Hn _ Hin). }
  destruct op as [command|d target|commit|timeout]; cbn [run_op primary disturbs] in *.
  - destruct Hq as (sent & Hl & Hn & Hp); [apply dispatch_calm|]. exists sent. split_and!; [done|by intros ??? ?%Hn|].
    intros p E. right. destruct Hp as [Hp|Hp]; [|by rewrite Hp in E]. rewrite Hp in E. split; [done|].
    destruct command; cbn; try (by intros []); [rewrite view_dropped in Hp|rewrite zoom_dropped in Hp]; by rewrite E in Hp.
  - destruct (mouse_step d target s) as (sent & Hl & Hc & Hp). exists sent. split_and!; [done| |exact Hp].
    intros p event r (Hu & He & Hs)%Hc. split; [exact Hu|]. split; [by exists d, target|done].
  - destruct Hq as (sent & Hl & Hn & Hp); [apply commit_calm|]. exists sent. split_and!; [done|by intros ??? ?%Hn|].
    intros p E. right. destruct Hp as [Hp|Hp]; rewrite Hp in E; [by split; [|intros []]|done].
  - destruct Hq as (sent & Hl & Hn & Hp); [apply pop_calm|]. exists sent. split_and!; [done|by intros ??? ?%Hn|].
    intros p E. right. destruct Hp as [Hp|Hp]; rewrite Hp in E; [by split; [|intros []]|done].
Qed.

Lemma run_ops_snoc ops op e : run_ops (ops ++ [op]) e = run_op op (run_ops ops e).
Proof. unfold run_ops. by rewrite foldl_app. Qed.
Lemma press_held ops e p : co_press (run_ops ops e) = Some p → held ops p.
Proof.
  induction ops as [|op ops IH] using rev_ind; [done|]. rewrite run_ops_snoc. destruct (run_op_click op (run_ops ops e)) as (_ & _ & _ & Hp).
  intros [Hd|[Hs Hn]]%Hp; [exists ops, op, []; by split_and!|]. destruct (IH Hs) as (before & down & since & -> & Hd & Hf).
  exists before, down, (since ++ [op]). rewrite <-app_assoc, <-app_comm_cons. split_and!; [done..|]. apply Forall_app_2; [done|by constructor].
Qed.

End clicks.
