(* ===== verification/CommandWire.v ===== *)
(** * The JSON of the C interface

    [crates/vixen-ffi/src/c_abi.rs]: how a command of the front end is read, and how responses
    and events are written.  Definitions first; the theorem says that every command a front
    end may mean is read as it was meant, and that what is read is within the bounds. *)

From Stdlib Require Import Lia ZArith.
From stdpp Require Import base decidable gmap sets list strings.
From S2P Require Import Prelude.
From S2P Require Import RustFloat.
From S2P Require Import RenderModel.
From S2P Require Import RenderSource.
From S2P Require Import RenderCommit.
From S2P Require Import RenderBridge.
From S2P Require Import SyncRenderer.
From S2P Require Import RustStr.
From S2P Require Import RustMap.
From S2P Require Import Accessibility.
From S2P Require Import Cookie.
From S2P Require Import Store.
From S2P Require Import WebStorage.
From S2P Require Import NetUrl.
From S2P Require Import HttpCache.
From S2P Require Import Network.
From S2P Require Import BrowserApi.
From S2P Require Import ExternalResource.
From S2P Require Import BrowserCore.
From S2P Require Import BrowserCommands.
From S2P Require Import Controller.
From S2P Require Import Json.
From S2P Require RenderWire.
Import (hints) RenderWire.

Definition ABI_VERSION : N := 1.
Definition MAX_INPUT_VIEWPORT_DIMENSION : N := 4096.
Definition MAX_INPUT_VIEWPORT_BYTES : N := 64 * 1024 * 1024.
Definition MAX_KEY_BYTES : N := 256.
Definition MAX_CODE_BYTES : N := 256.
Definition MAX_TEXT_BYTES : N := 4096.
(** [c_abi.rs] and [browser.rs] have this constant each. *)
Definition ABI_MAX_TEXT_INPUT_BYTES : N := 16 * 1024.

(** ** Reading a command *)

Section read.
Context `{SerdeJson}.
Abbreviation Map := (list (rstr * Value)).

(** [AbiError::invalid_command(message)] of a text without arguments *)
Definition invalid {A} (message : string) : result AbiError A := Err (invalid_command (lit message)).

Definition get_field (object : Map) (field : string) : option Value := map_get object (lit field).

Definition exact_keys (object : Map) (expected : list string) : result AbiError unit :=
  throw_if (negb (length object =? length expected)%nat ||
            negb (forallb (λ f, bool_decide (is_Some (get_field object f))) expected))
    (invalid_command (lit "command has missing or unknown fields")).

Definition required_string (object : Map) (field : string) : result AbiError rstr :=
  ok_or (v ← get_field object field; as_str v) (invalid_command (lit field ++ lit " must be a string")).
Definition required_u64 (object : Map) (field : string) : result AbiError N :=
  ok_or (v ← get_field object field; as_u64 v) (invalid_command (lit field ++ lit " must be an unsigned integer")).
Definition required_i64 (object : Map) (field : string) : result AbiError Z :=
  ok_or (v ← get_field object field; as_i64 v) (invalid_command (lit field ++ lit " must be an integer")).
Definition required_f64 (object : Map) (field : string) : result AbiError f64 :=
  ok_or (v ← get_field object field; x ← as_f64 v; if is_finite x then Some x else None)
    (invalid_command (lit field ++ lit " must be a finite number")).
Definition required_bool (object : Map) (field : string) : result AbiError bool :=
  ok_or (v ← get_field object field; as_bool v) (invalid_command (lit field ++ lit " must be a boolean")).
Definition required_object (object : Map) (field : string) : result AbiError Map :=
  ok_or (v ← get_field object field; as_object v) (invalid_command (lit field ++ lit " must be an object")).

Definition required_context_id (object : Map) : result AbiError BrowsingContextId :=
  n ← required_u64 object "context_id"; ok_or (id_new n) (invalid_command (lit "context_id must be nonzero")).
Definition required_document_id (object : Map) : result AbiError DocumentId :=
  n ← required_u64 object "document_id"; ok_or (id_new n) (invalid_command (lit "document_id must be nonzero")).
Definition required_runtime_context_id (object : Map) : result AbiError RuntimeContextId :=
  n ← required_u64 object "runtime_context_id"; ok_or (id_new n) (invalid_command (lit "runtime_context_id must be nonzero")).

(** [u32::try_from] and [i32::try_from] with a text for the error *)
Definition fit_u32 (n : N) (message : string) : result AbiError N := if (n <? 2 ^ 32)%N then Ok n else invalid message.
Definition fit_i32 (z : Z) (message : string) : result AbiError Z :=
  if (- 2 ^ 31 <=? z)%Z && (z <? 2 ^ 31)%Z then Ok z else invalid message.
(** [u64::checked_mul] *)
Definition checked_mul (a b : N) : option N := if (a * b <? 2 ^ 64)%N then Some (a * b)%N else None.

Definition required_viewport (object : Map) : result AbiError (N * N) :=
  viewport ← required_object object "viewport";
  _ ← exact_keys viewport ["height"; "width"];
  n ← required_u64 viewport "width"; width ← fit_u32 n "viewport width must fit unsigned 32 bits";
  n ← required_u64 viewport "height"; height ← fit_u32 n "viewport height must fit unsigned 32 bits";
  rgba_bytes ← ok_or (pixels ← checked_mul width height; checked_mul pixels 4) (invalid_command (lit "viewport area overflows"));
  if ((width =? 0) || (height =? 0) || (MAX_INPUT_VIEWPORT_DIMENSION <? width) || (MAX_INPUT_VIEWPORT_DIMENSION <? height) ||
      (MAX_INPUT_VIEWPORT_BYTES <? rgba_bytes))%N
  then invalid "viewport must have positive dimensions no larger than 4096 and bounded area"
  else Ok (width, height).

Definition bounded_string (object : Map) (field : string) (maximum : N) : result AbiError rstr :=
  value ← required_string object field;
  if (maximum <? str_len value)%N
  then Err (invalid_command (lit field ++ lit " exceeds " ++ dec maximum ++ lit " UTF-8 bytes")) else Ok value.

Definition required_mouse_event (object : Map) : result AbiError MouseEventData :=
  event ← required_object object "event";
  _ ← exact_keys event ["alt_key"; "bubbles"; "button"; "buttons"; "ctrl_key"; "delta_x"; "delta_y"; "detail"; "meta_key";
                        "shift_key"; "x"; "y"];
  z ← required_i64 event "button"; button ← fit_i32 z "button must fit signed 32 bits";
  x ← required_f64 event "x"; y ← required_f64 event "y";
  buttons ← required_i64 event "buttons"; detail ← required_i64 event "detail";
  bubbles ← required_bool event "bubbles"; ctrl ← required_bool event "ctrl_key"; shift ← required_bool event "shift_key";
  alt ← required_bool event "alt_key"; meta ← required_bool event "meta_key";
  dx ← required_f64 event "delta_x"; dy ← required_f64 event "delta_y";
  Ok {| me_x := x; me_y := y; me_button := button; me_buttons := buttons; me_detail := detail; me_related_node_id := None;
        me_bubbles := bubbles; me_ctrl_key := ctrl; me_shift_key := shift; me_alt_key := alt; me_meta_key := meta;
        me_delta_x := dx; me_delta_y := dy |}.

Definition required_key_event (object : Map) : result AbiError KeyEventData :=
  event ← required_object object "event";
  _ ← exact_keys event ["alt_key"; "apply_text"; "code"; "ctrl_key"; "key"; "location"; "meta_key"; "repeat"; "shift_key"; "text"];
  key ← bounded_string event "key" MAX_KEY_BYTES; code ← bounded_string event "code" MAX_CODE_BYTES;
  text ← bounded_string event "text" MAX_TEXT_BYTES;
  apply ← required_bool event "apply_text"; ctrl ← required_bool event "ctrl_key"; shift ← required_bool event "shift_key";
  alt ← required_bool event "alt_key"; meta ← required_bool event "meta_key"; repeated ← required_bool event "repeat";
  location ← required_i64 event "location";
  Ok {| ke_key := key; ke_code := code; ke_text := text; ke_apply_text := apply; ke_ctrl_key := ctrl; ke_shift_key := shift;
        ke_alt_key := alt; ke_meta_key := meta; ke_repeat := repeated; ke_location := location |}.

Definition required_text_range (object : Map) (field : string) : result AbiError (option (N * N)) :=
  value ← ok_or (get_field object field) (invalid_command (lit field ++ lit " is required"));
  if is_null value then Ok None
  else range ← ok_or (as_object value) (invalid_command (lit field ++ lit " must be an object or null"));
       _ ← exact_keys range ["base_offset"; "extent_offset"];
       n ← required_u64 range "base_offset"; base ← fit_u32 n "text range offset must fit unsigned 32 bits";
       n ← required_u64 range "extent_offset"; extent ← fit_u32 n "text range offset must fit unsigned 32 bits";
       Ok (Some (base, extent)).

Definition required_text_input_state (object : Map) : result AbiError TextInputState :=
  state ← required_object object "state";
  _ ← exact_keys state ["composing"; "selection"; "text"];
  text ← bounded_string state "text" ABI_MAX_TEXT_INPUT_BYTES;
  selection ← required_text_range state "selection";
  selection ← ok_or selection (invalid_command (lit "text input selection must be an object"));
  composing ← required_text_range state "composing";
  utf16_len ← fit_u32 (utf16_len text) "text input exceeds the UTF-16 range limit";
  if ((utf16_len <? selection.1) || (utf16_len <? selection.2))%N then invalid "text input selection exceeds the value"
  else if from_option (λ range : N * N, (range.2 <? range.1) || (utf16_len <? range.2))%N false composing
  then invalid "text input composing range is invalid"
  else Ok {| ti_text := text; ti_selection := selection; ti_composing := composing |}.

Section commands.

(** The arms of the [match] of [parse_command] *)
Definition no_fields (command : ControllerCommand) (object : Map) : result AbiError ControllerCommand :=
  _ ← exact_keys object ["type"; "v"]; Ok command.
Definition context_only (command : BrowsingContextId → ControllerCommand) (object : Map) : result AbiError ControllerCommand :=
  _ ← exact_keys object ["context_id"; "type"; "v"]; c ← required_context_id object; Ok (command c).
Definition parse_start_cdp (object : Map) : result AbiError ControllerCommand :=
  _ ← exact_keys object ["port"; "type"; "v"];
  n ← required_u64 object "port";
  port ← (if (n <? 2 ^ 16)%N then Ok n else invalid "CDP port must fit unsigned 16 bits");
  if (port =? 0)%N then invalid "CDP port must be nonzero" else Ok (CtlStartCdp port).
Definition parse_navigate (object : Map) : result AbiError ControllerCommand :=
  _ ← exact_keys object ["context_id"; "type"; "url"; "v"];
  c ← required_context_id object; url ← required_string object "url"; Ok (CtlNavigate c url).
Definition parse_traverse_history (object : Map) : result AbiError ControllerCommand :=
  _ ← exact_keys object ["context_id"; "delta"; "type"; "v"];
  delta ← required_i64 object "delta";
  c ← required_context_id object; delta ← fit_i32 delta "delta must fit signed 32 bits";
  Ok (CtlTraverseHistory c delta).
Definition parse_find_text (object : Map) : result AbiError ControllerCommand :=
  _ ← exact_keys object ["case_sensitive"; "context_id"; "document_id"; "forward"; "query"; "type"; "v"];
  c ← required_context_id object; d ← required_document_id object;
  query ← bounded_string object "query" MAX_TEXT_BYTES;
  case_sensitive ← required_bool object "case_sensitive"; forward_ ← required_bool object "forward";
  Ok (CtlFindText c d query case_sensitive forward_).
Definition parse_set_page_zoom (object : Map) : result AbiError ControllerCommand :=
  _ ← exact_keys object ["context_id"; "type"; "v"; "zoom"];
  c ← required_context_id object; zoom ← required_f64 object "zoom"; Ok (CtlSetPageZoom c zoom).
Definition LIFECYCLES : list (string * HostLifecycle) :=
  [("resumed", Resumed); ("inactive", Inactive); ("hidden", Hidden); ("paused", Paused); ("detached", Detached)].
(** A [match] of a text on literals *)
Definition of_name {A} (names : list (string * A)) (s : rstr) : option A :=
  snd <$> find (λ x, bool_decide (s = lit x.1)) names.
Definition parse_update_host_view_state (object : Map) : result AbiError ControllerCommand :=
  _ ← exact_keys object ["context_id"; "focused"; "generation"; "lifecycle"; "scale_factor"; "type"; "v"; "viewport"; "visible"];
  generation ← required_u64 object "generation";
  _ ← throw_if (generation =? 0)%N (invalid_command (lit "host view generation must be nonzero"));
  name ← required_string object "lifecycle";
  lifecycle ← ok_or (of_name LIFECYCLES name) (invalid_command (lit "unsupported host lifecycle"));
  scale_factor ← required_f64 object "scale_factor";
  _ ← throw_if (negb (tenth_to_sixteen scale_factor)) (invalid_command (lit "host view scale_factor must be between 0.1 and 16"));
  c ← required_context_id object; viewport ← required_viewport object;
  focused ← required_bool object "focused"; visible ← required_bool object "visible";
  Ok (CtlUpdateHostViewState c {| hv_generation := generation; hv_viewport := viewport; hv_scale_factor := scale_factor;
                                  hv_focused := focused; hv_visible := visible; hv_lifecycle := lifecycle |}).
Definition parse_accessibility_snapshot (object : Map) : result AbiError ControllerCommand :=
  _ ← exact_keys object ["context_id"; "document_id"; "type"; "v"; "viewport"];
  c ← required_context_id object; d ← required_document_id object; viewport ← required_viewport object;
  Ok (CtlAccessibilitySnapshot c d viewport).
Definition parse_publish_renderer_snapshot (object : Map) : result AbiError ControllerCommand :=
  _ ← exact_keys object ["context_id"; "document_id"; "page_zoom"; "type"; "v"; "viewport"; "viewport_generation"];
  viewport_generation ← required_u64 object "viewport_generation";
  _ ← throw_if (viewport_generation =? 0)%N (invalid_command (lit "renderer viewport_generation must be nonzero"));
  c ← required_context_id object; d ← required_document_id object; viewport ← required_viewport object;
  page_zoom ← required_f64 object "page_zoom";
  Ok (CtlPublishRendererSnapshot c d viewport viewport_generation page_zoom).
(** The fields of an action, those of [set_value] with a value *)
Definition ACTION_FIELDS : list string :=
  ["action"; "context_id"; "document_id"; "generation"; "node_id"; "runtime_context_id"; "source_generation"; "type"; "v"].
Definition parse_action (object : Map) : result AbiError AccessibilityAction :=
  action ← required_string object "action";
  if bool_decide (action = lit "focus") then _ ← exact_keys object (ACTION_FIELDS ++ ["viewport"]); Ok AxFocus
  else if bool_decide (action = lit "set_value") then
    _ ← exact_keys object (ACTION_FIELDS ++ ["value"; "viewport"]);
    value ← bounded_string object "value" ACCESSIBILITY_MAX_VALUE_BYTES; Ok (AxSetValue value)
  else if bool_decide (action = lit "increase") || bool_decide (action = lit "decrease") then
    _ ← exact_keys object (ACTION_FIELDS ++ ["viewport"]);
    if bool_decide (action = lit "increase") then Ok AxIncrease else Ok AxDecrease
  else invalid "unsupported accessibility action".
Definition parse_dispatch_accessibility_action (object : Map) : result AbiError ControllerCommand :=
  action ← parse_action object;
  source_generation ← required_u64 object "source_generation"; generation ← required_u64 object "generation";
  node_id ← required_u64 object "node_id";
  _ ← throw_if ((source_generation =? 0) || (generation =? 0) || (node_id =? 0))%N
        (invalid_command (lit "accessibility generations and node_id must be nonzero"));
  c ← required_context_id object; d ← required_document_id object; r ← required_runtime_context_id object;
  viewport ← required_viewport object;
  Ok (CtlDispatchAccessibilityAction {| ad_context_id := c; ad_document_id := d; ad_runtime_context_id := r;
    ad_viewport := viewport; ad_source_generation := source_generation; ad_generation := generation; ad_node_id := node_id;
    ad_action := action |}).
Definition parse_target (object : Map) : result AbiError (option RenderInputTarget) :=
  let wrong := Err (invalid_command (lit "renderer mouse target must be an object or null")) in
  match get_field object "target" with
  | None => wrong
  | Some v => if is_null v then Ok None
              else match as_object v with
                   | Some target => x ← RenderWire.parse_input_target target; Ok (Some x)
                   | None => wrong
                   end
  end.
Definition parse_dispatch_renderer_mouse_event (object : Map) : result AbiError ControllerCommand :=
  _ ← exact_keys object ["context_id"; "document_id"; "event"; "event_type"; "query"; "runtime_context_id"; "target"; "type"; "v";
                         "viewport"];
  event_type ← required_string object "event_type";
  _ ← throw_if (negb (mouse_event_type event_type))
        (invalid_command (lit "event_type must be mousemove, mousedown, mouseup, wheel, or cancel"));
  query ← required_object object "query"; query ← RenderWire.parse_hit_test_query query;
  target ← parse_target object;
  c ← required_context_id object; d ← required_document_id object; r ← required_runtime_context_id object;
  viewport ← required_viewport object; event ← required_mouse_event object;
  Ok (CtlDispatchRendererMouseEvent {| rd_mouse := {| md_context_id := c; md_document_id := d; md_runtime_context_id := r;
    md_viewport := viewport; md_event_type := event_type; md_event := event |}; rd_query := query; rd_target := target |}).
Definition parse_dispatch_key_event (object : Map) : result AbiError ControllerCommand :=
  _ ← exact_keys object ["context_id"; "document_id"; "event"; "event_type"; "runtime_context_id"; "type"; "v"; "viewport"];
  event_type ← required_string object "event_type";
  _ ← throw_if (negb (bool_decide (event_type = lit "keydown") || bool_decide (event_type = lit "keyup")))
        (invalid_command (lit "event_type must be keydown or keyup"));
  c ← required_context_id object; d ← required_document_id object; r ← required_runtime_context_id object;
  viewport ← required_viewport object; event ← required_key_event object;
  Ok (CtlDispatchKeyEvent c d r viewport event_type event).
Definition parse_dispatch_text_input (object : Map) : result AbiError ControllerCommand :=
  _ ← exact_keys object ["context_id"; "document_id"; "runtime_context_id"; "state"; "type"; "v"; "viewport"];
  c ← required_context_id object; d ← required_document_id object; r ← required_runtime_context_id object;
  viewport ← required_viewport object; state ← required_text_input_state object;
  Ok (CtlDispatchTextInput c d r viewport state).

Definition COMMANDS : list (string * (Map → result AbiError ControllerCommand)) :=
  [("load_profile_session", no_fields CtlLoadProfileSession);
   ("start_cdp", parse_start_cdp);
   ("save_current_profile_session", no_fields CtlSaveCurrentProfileSession);
   ("browser_snapshot", no_fields CtlBrowserSnapshot);
   ("create_context", no_fields CtlCreateContext);
   ("close_context", context_only CtlCloseContext);
   ("activate_context", context_only CtlActivateContext);
   ("navigate", parse_navigate);
   ("reload", context_only CtlReload);
   ("stop", context_only CtlStop);
   ("traverse_history", parse_traverse_history);
   ("context_state", context_only CtlContextState);
   ("find_text", parse_find_text);
   ("set_page_zoom", parse_set_page_zoom);
   ("update_host_view_state", parse_update_host_view_state);
   ("accessibility_snapshot", parse_accessibility_snapshot);
   ("publish_renderer_snapshot", parse_publish_renderer_snapshot);
   ("flush_renderer_submissions", no_fields CtlFlushRendererSubmissions);
   ("dispatch_accessibility_action", parse_dispatch_accessibility_action);
   ("dispatch_renderer_mouse_event", parse_dispatch_renderer_mouse_event);
   ("dispatch_key_event", parse_dispatch_key_event);
   ("dispatch_text_input", parse_dispatch_text_input)].

Definition parse_command (message : rstr) : result AbiError ControllerCommand :=
  value ← map_err (λ error, invalid_command (lit "invalid JSON: " ++ error)) (from_str message);
  object ← ok_or (as_object value) (invalid_command (lit "command must be a JSON object"));
  v ← required_u64 object "v";
  _ ← throw_if (negb (v =? ABI_VERSION)%N) (invalid_command (lit "command version must be 1"));
  command_type ← required_string object "type";
  parse ← ok_or (of_name COMMANDS command_type) (invalid_command (lit "unknown command type"));
  parse object.
End commands.
End read.

(** ** Writing responses and events *)

Section write.
Context `{SerdeJson}.

Local Abbreviation id_json := RenderWire.id_json.
Local Abbreviation text := RenderWire.text_json.
Definition optional_id (id : option positive) : Value := json_option id_json id.
(** The [Serialize] of an optional text, number and boolean, and of lists *)
Local Abbreviation str := json_string.
Local Abbreviation ostr := (json_option json_string).
Local Abbreviation num := json_u64.
Local Abbreviation onum := (json_option json_u64).
Local Abbreviation obool := (json_option json_bool).
Local Abbreviation nums l := (json_array (json_u64 <$> l)).
Local Abbreviation strs l := (json_array (json_string <$> l)).

Definition accessibility_node_json (node : AccessibilityNode) : Value := obj
  [("id", num (ax_id node)); ("parent_id", onum (ax_parent_id node)); ("controls_ids", nums (ax_controls_ids node));
   ("described_by_ids", nums (ax_described_by_ids node)); ("details_ids", nums (ax_details_ids node));
   ("owns_ids", nums (ax_owns_ids node)); ("role", str (ax_role node)); ("label", str (ax_label node));
   ("description", str (ax_description node)); ("value", ostr (ax_value node));
   ("text_selection", json_option (λ s, obj [("base_offset", num (sel_base_offset s)); ("extent_offset", num (sel_extent_offset s))])
                        (ax_text_selection node));
   ("multiline", json_bool (ax_multiline node));
   ("text_input_type", json_option (λ x, text (text_input_type_as_str x)) (ax_text_input_type node));
   ("text_input_action", json_option (λ x, text (text_input_action_as_str x)) (ax_text_input_action node));
   ("range", json_option (λ r, obj [("current", json_f64 (rg_current r)); ("minimum", json_f64 (rg_minimum r));
                                    ("maximum", json_f64 (rg_maximum r)); ("step", json_f64 (rg_step r))]) (ax_range node));
   ("bbox", json_option (λ b, obj [("x", json_f64 (bb_x b)); ("y", json_f64 (bb_y b)); ("width", json_f64 (bb_width b));
                                   ("height", json_f64 (bb_height b))]) (ax_bbox node));
   ("focused", json_bool (ax_focused node)); ("disabled", json_bool (ax_disabled node)); ("checked", obool (ax_checked node));
   ("mixed", obool (ax_mixed node)); ("selected", json_bool (ax_selected node)); ("expanded", obool (ax_expanded node));
   ("heading_level", onum (ax_heading_level node)); ("hidden", json_bool (ax_hidden node));
   ("live_region", json_bool (ax_live_region node)); ("focusable", json_bool (ax_focusable node));
   ("actions", strs (ax_actions node))].

Definition accessibility_snapshot_json (snapshot : AccessibilitySnapshot) : Value :=
  let snapshot := bounded_accessibility_snapshot snapshot in
  obj [("type", text "accessibility_snapshot"); ("context_id", id_json (axs_context_id snapshot));
       ("document_id", id_json (axs_document_id snapshot)); ("source_generation", num (axs_source_generation snapshot));
       ("generation", num (axs_generation snapshot));
       ("viewport", obj [("width", num (axs_viewport snapshot).1); ("height", num (axs_viewport snapshot).2)]);
       ("nodes", json_array (accessibility_node_json <$> axs_nodes snapshot)); ("truncated", json_bool (axs_truncated snapshot))].

Definition browser_error_json (error : BrowserError) : Value :=
  obj [("code", str (be_code error)); ("message", str (be_message error))].

Definition console_value_json (value : RuntimeConsoleValue) : Value :=
  match value with
  | ConsoleString s => obj [("type", text "string"); ("value", str s)]
  | ConsoleNumber x => obj [("type", text "number"); ("value", json_f64 x)]
  | ConsoleBool b => obj [("type", text "bool"); ("value", json_bool b)]
  | ConsoleNull => obj [("type", text "null")]
  end.
Definition console_arg_json (argument : RuntimeConsoleArg) : Value := obj
  [("type_name", str (ca_type_name argument)); ("subtype", ostr (ca_subtype argument));
   ("value", json_option console_value_json (ca_value argument));
   ("unserializable_value", ostr (ca_unserializable_value argument)); ("description", str (ca_description argument))].

Definition network_event_json (event : RuntimeNetworkEvent) : Value :=
  match event with
  | NetRequest request_id url method => obj
      [("type", text "request"); ("request_id", str request_id); ("url", str url); ("method", str method)]
  | NetRedirect request_id from to status => obj
      [("type", text "redirect"); ("request_id", str request_id); ("from", str from); ("to", str to); ("status", num status)]
  | NetResponse request_id url status => obj
      [("type", text "response"); ("request_id", str request_id); ("url", str url); ("status", num status)]
  | NetProgress request_id url chunk_bytes loaded_bytes total_bytes => obj
      [("type", text "progress"); ("request_id", str request_id); ("url", str url); ("chunk_bytes", num chunk_bytes);
       ("loaded_bytes", num loaded_bytes); ("total_bytes", onum total_bytes)]
  | NetCompleted request_id url body_bytes => obj
      [("type", text "completed"); ("request_id", str request_id); ("url", str url); ("body_bytes", num body_bytes)]
  | NetFailure request_id url error_text blocked_reason => obj
      [("type", text "failure"); ("request_id", str request_id); ("url", str url); ("error_text", str error_text);
       ("blocked_reason", ostr blocked_reason)]
  end.

Definition runtime_effects_json (effects : RuntimeEffects) : Value := obj
  [("console", json_array ((λ event, obj [("kind", str (ce_kind event)); ("args", json_array (console_arg_json <$> ce_args event))])
                             <$> console effects));
   ("dialogs", json_array ((λ event, obj [("kind", str (de_kind event)); ("message", str (de_message event));
                                          ("default_prompt", str (de_default_prompt event))]) <$> dialogs effects));
   ("bindings", json_array ((λ event, obj [("name", str (bi_name event)); ("payload", str (bi_payload event))]) <$> bindings effects));
   ("network", json_array (network_event_json <$> network_events effects));
   ("exceptions", json_array ((λ event, browser_error_json (ex_error event)) <$> exceptions effects))].

Definition navigation_kind_json (kind : CrossDocumentNavigationKind) : Value :=
  match kind with
  | Regular => obj [("type", text "regular")]
  | ContentReplacement replaced =>
      obj [("type", text "content_replacement"); ("replaced_document_id", id_json replaced)]
  end.
Definition navigation_action_json (action : NavigationActionOutcome) : Value :=
  match action with
  | OutcomeSameDocument url => obj [("type", text "same_document"); ("url", str url)]
  | OutcomeCrossDocument navigation_id kind =>
      obj [("type", text "cross_document"); ("navigation_id", id_json navigation_id); ("kind", navigation_kind_json kind)]
  end.
Definition input_dispatch_result_json (r : InputDispatchResult) : Value := obj
  [("type", text "input_dispatched"); ("effects", runtime_effects_json (in_effects r));
   ("navigation_actions", json_array (navigation_action_json <$> in_navigation_actions r))].

Definition context_state_json (state : BrowsingContextState) : Value := obj
  [("context_id", id_json (bs_context_id state)); ("main_frame_id", id_json (bs_main_frame_id state));
   ("document_id", id_json (bs_document_id state)); ("runtime_context_id", optional_id (bs_runtime_context_id state));
   ("active_navigation_id", optional_id (bs_active_navigation_id state)); ("url", str (bs_url state)); ("title", ostr (bs_title state));
   ("history_length", num (N.of_nat (bs_history_length state))); ("history_index", num (N.of_nat (bs_history_index state)));
   ("can_go_back", json_bool (bs_can_go_back state)); ("can_go_forward", json_bool (bs_can_go_forward state));
   ("is_loading", json_bool (bs_is_loading state)); ("load_progress", json_f64 (bs_load_progress state));
   ("page_zoom", json_f64 (bs_page_zoom state))].

Definition response_json (response : ControllerResponse) : Value :=
  match response with
  | RspAccepted | RspRendererUpdate _ => obj [("type", text "accepted")]
  | RspProfileSession session => obj
      [("type", text "profile_session"); ("tabs", strs (ps_tabs session)); ("active_index", num (ps_active_index session))]
  | RspBrowserSnapshot snapshot => obj
      [("type", text "browser_snapshot"); ("active_context_id", optional_id (sn_active_context_id snapshot));
       ("contexts", json_array (context_state_json <$> sn_contexts snapshot))]
  | RspContextCreated context_id => obj [("type", text "context_created"); ("context_id", id_json context_id)]
  | RspNavigationAccepted navigation_id =>
      obj [("type", text "navigation_accepted"); ("navigation_id", id_json navigation_id)]
  | RspContextState state => obj [("type", text "context_state"); ("state", context_state_json state)]
  | RspAccessibilitySnapshot snapshot => accessibility_snapshot_json snapshot
  | RspInputDispatched r => input_dispatch_result_json r
  | RspFindText r => obj [("type", text "find_text"); ("matches", num (ft_matches r)); ("active_match", onum (ft_active_match r))]
  end.

Definition navigation_phase_name (phase : NavigationPhase) : string :=
  match phase with
  | Intent => "intent" | Policy => "policy" | Request => "request" | Response => "response" | Commit => "commit"
  | Parse => "parse" | ScriptsAndSubresources => "scripts_and_subresources" | DomContentLoaded => "dom_content_loaded"
  | Load => "load" | Settled => "settled" | Failed => "failed" | Cancelled => "cancelled"
  end.
Definition cancellation_reason_name (reason : NavigationCancellationReason) : string :=
  match reason with
  | Stopped => "stopped" | Superseded => "superseded" | BrowserApi.ContextClosed => "context_closed"
  | BrowserShutdown => "browser_shutdown"
  end.

Definition event_json (event : BrowserEvent) : Value :=
  match event with
  | BrowsingContextCreated state => obj [("type", text "browsing_context_created"); ("state", context_state_json state)]
  | BrowsingContextClosed c => obj [("type", text "browsing_context_closed"); ("context_id", id_json c)]
  | ActiveBrowsingContextChanged c => obj [("type", text "active_browsing_context_changed"); ("context_id", optional_id c)]
  | NavigationRequested c frame n predecessor kind url => obj
      [("type", text "navigation_requested"); ("context_id", id_json c); ("frame_id", id_json frame); ("navigation_id", id_json n);
       ("predecessor_navigation_id", optional_id predecessor); ("kind", navigation_kind_json kind); ("url", str url)]
  | NavigationStarted c frame n request url => obj
      [("type", text "navigation_started"); ("context_id", id_json c); ("frame_id", id_json frame); ("navigation_id", id_json n);
       ("request_id", id_json request); ("url", str url)]
  | NavigationRedirected c frame n request next_request from_url to_url status => obj
      [("type", text "navigation_redirected"); ("context_id", id_json c); ("frame_id", id_json frame); ("navigation_id", id_json n);
       ("request_id", id_json request); ("next_request_id", id_json next_request); ("from_url", str from_url); ("to_url", str to_url);
       ("status", num status)]
  | NavigationPhaseChanged c frame n phase => obj
      [("type", text "navigation_phase_changed"); ("context_id", id_json c); ("frame_id", id_json frame);
       ("navigation_id", id_json n); ("phase", text (navigation_phase_name phase))]
  | RuntimeContextDestroyed c frame d r => obj
      [("type", text "runtime_context_destroyed"); ("context_id", id_json c); ("frame_id", id_json frame); ("document_id", id_json d);
       ("runtime_context_id", id_json r)]
  | DocumentDiscarded c frame d replaced_by => obj
      [("type", text "document_discarded"); ("context_id", id_json c); ("frame_id", id_json frame); ("document_id", id_json d);
       ("replaced_by", optional_id replaced_by)]
  | NavigationCommitted c frame n request d r url => obj
      [("type", text "navigation_committed"); ("context_id", id_json c); ("frame_id", id_json frame); ("navigation_id", id_json n);
       ("request_id", optional_id request); ("document_id", id_json d); ("runtime_context_id", optional_id r); ("url", str url)]
  | RuntimeContextCreated c frame d r => obj
      [("type", text "runtime_context_created"); ("context_id", id_json c); ("frame_id", id_json frame); ("document_id", id_json d);
       ("runtime_context_id", id_json r)]
  | EffectsEvent c frame d r url effects => obj
      [("type", text "runtime_effects"); ("context_id", id_json c); ("frame_id", id_json frame); ("document_id", id_json d);
       ("runtime_context_id", id_json r); ("url", str url); ("effects", runtime_effects_json effects)]
  | DomContentLoadedEvent c frame n d => obj
      [("type", text "dom_content_loaded"); ("context_id", id_json c); ("frame_id", id_json frame); ("navigation_id", id_json n);
       ("document_id", id_json d)]
  | DocumentLoadCompleted c frame n d => obj
      [("type", text "document_load_completed"); ("context_id", id_json c); ("frame_id", id_json frame); ("navigation_id", id_json n);
       ("document_id", id_json d)]
  | NavigationCancelled c frame n request reason => obj
      [("type", text "navigation_cancelled"); ("context_id", id_json c); ("frame_id", id_json frame); ("navigation_id", id_json n);
       ("request_id", optional_id request); ("reason", text (cancellation_reason_name reason))]
  | NavigationFailed c frame n request error => obj
      [("type", text "navigation_failed"); ("context_id", id_json c); ("frame_id", id_json frame); ("navigation_id", id_json n);
       ("request_id", optional_id request); ("error", browser_error_json error)]
  | BrowsingContextStateChanged state => obj [("type", text "browsing_context_state_changed"); ("state", context_state_json state)]
  end.

(** The whole messages *)
Definition opened_json : Value := obj [("v", num ABI_VERSION); ("type", text "opened")].
Definition response_message (response : ControllerResponse) : Value :=
  obj [("v", num ABI_VERSION); ("type", text "response"); ("response", response_json response)].
Definition event_message (sequence : N) (event : BrowserEvent) : Value :=
  obj [("v", num ABI_VERSION); ("type", text "event"); ("sequence", num sequence); ("event", event_json event)].
Definition error_message (error : AbiError) : Value :=
  obj [("v", num ABI_VERSION); ("type", text "error");
       ("error", obj [("code", str (abi_code error)); ("message", str (abi_message error))])].
End write.

(** ** What a front end writes

    The counterpart of [parse_command]: the value of every command.  [command_ok] are the
    commands that fit its bounds. *)

Section front_end.
Context `{SerdeJson}.
Local Abbreviation id_json := RenderWire.id_json.
Local Abbreviation text := RenderWire.text_json.

Definition size_json (viewport : N * N) : Value := obj [("height", json_u64 viewport.2); ("width", json_u64 viewport.1)].
Definition mouse_json (e : MouseEventData) : Value := obj
  [("alt_key", json_bool (me_alt_key e)); ("bubbles", json_bool (me_bubbles e)); ("button", json_i64 (me_button e));
   ("buttons", json_i64 (me_buttons e)); ("ctrl_key", json_bool (me_ctrl_key e)); ("delta_x", json_f64 (me_delta_x e));
   ("delta_y", json_f64 (me_delta_y e)); ("detail", json_i64 (me_detail e)); ("meta_key", json_bool (me_meta_key e));
   ("shift_key", json_bool (me_shift_key e)); ("x", json_f64 (me_x e)); ("y", json_f64 (me_y e))].
Definition key_json (e : KeyEventData) : Value := obj
  [("alt_key", json_bool (ke_alt_key e)); ("apply_text", json_bool (ke_apply_text e)); ("code", json_string (ke_code e));
   ("ctrl_key", json_bool (ke_ctrl_key e)); ("key", json_string (ke_key e)); ("location", json_i64 (ke_location e));
   ("meta_key", json_bool (ke_meta_key e)); ("repeat", json_bool (ke_repeat e)); ("shift_key", json_bool (ke_shift_key e));
   ("text", json_string (ke_text e))].
Definition range_json (r : N * N) : Value := obj [("base_offset", json_u64 r.1); ("extent_offset", json_u64 r.2)].
Definition text_state_json (s : TextInputState) : Value := obj
  [("composing", json_option range_json (ti_composing s)); ("selection", range_json (ti_selection s)); ("text", json_string (ti_text s))].
Definition lifecycle_name (x : HostLifecycle) : string :=
  match x with Resumed => "resumed" | Inactive => "inactive" | Hidden => "hidden" | Paused => "paused" | Detached => "detached" end.
Definition hit_query_json (x : RenderHitTestQuery) : Value := obj
  [("v", json_u64 RENDER_PROTOCOL_VERSION); ("query_id", id_json (ht_query_id x)); ("context_id", id_json (ht_context_id x));
   ("document_id", id_json (ht_document_id x)); ("displayed_commit_id", id_json (ht_displayed_commit_id x));
   ("revision", RenderWire.revision_json (ht_revision x)); ("handle", id_json (ht_handle x));
   ("point", RenderWire.point_json (ht_point x))].

(** The type of a command and its fields *)
Definition command_fields (command : ControllerCommand) : string * list (string * Value) :=
  match command with
  | CtlStartCdp port => ("start_cdp", [("port", json_u64 port)])
  | CtlLoadProfileSession => ("load_profile_session", [])
  | CtlSaveCurrentProfileSession => ("save_current_profile_session", [])
  | CtlBrowserSnapshot => ("browser_snapshot", [])
  | CtlCreateContext => ("create_context", [])
  | CtlCloseContext c => ("close_context", [("context_id", id_json c)])
  | CtlActivateContext c => ("activate_context", [("context_id", id_json c)])
  | CtlNavigate c url => ("navigate", [("context_id", id_json c); ("url", json_string url)])
  | CtlReload c => ("reload", [("context_id", id_json c)])
  | CtlStop c => ("stop", [("context_id", id_json c)])
  | CtlTraverseHistory c delta => ("traverse_history", [("context_id", id_json c); ("delta", json_i64 delta)])
  | CtlContextState c => ("context_state", [("context_id", id_json c)])
  | CtlUpdateHostViewState c s => ("update_host_view_state",
      [("context_id", id_json c); ("generation", json_u64 (hv_generation s)); ("viewport", size_json (hv_viewport s));
       ("scale_factor", json_f64 (hv_scale_factor s)); ("focused", json_bool (hv_focused s)); ("visible", json_bool (hv_visible s));
       ("lifecycle", text (lifecycle_name (hv_lifecycle s)))])
  | CtlSetPageZoom c zoom => ("set_page_zoom", [("context_id", id_json c); ("zoom", json_f64 zoom)])
  | CtlAccessibilitySnapshot c d viewport => ("accessibility_snapshot",
      [("context_id", id_json c); ("document_id", id_json d); ("viewport", size_json viewport)])
  | CtlPublishRendererSnapshot c d viewport generation zoom => ("publish_renderer_snapshot",
      [("context_id", id_json c); ("document_id", id_json d); ("viewport", size_json viewport);
       ("viewport_generation", json_u64 generation); ("page_zoom", json_f64 zoom)])
  | CtlFlushRendererSubmissions => ("flush_renderer_submissions", [])
  | CtlDispatchAccessibilityAction x => ("dispatch_accessibility_action",
      [("context_id", id_json (ad_context_id x)); ("document_id", id_json (ad_document_id x));
       ("runtime_context_id", id_json (ad_runtime_context_id x)); ("viewport", size_json (ad_viewport x));
       ("source_generation", json_u64 (ad_source_generation x)); ("generation", json_u64 (ad_generation x));
       ("node_id", json_u64 (ad_node_id x)); ("action", text (action_as_str (ad_action x)))] ++
      match ad_action x with AxSetValue value => [("value", json_string value)] | _ => [] end)
  | CtlDispatchRendererMouseEvent x => ("dispatch_renderer_mouse_event",
      [("context_id", id_json (md_context_id (rd_mouse x))); ("document_id", id_json (md_document_id (rd_mouse x)));
       ("runtime_context_id", id_json (md_runtime_context_id (rd_mouse x))); ("viewport", size_json (md_viewport (rd_mouse x)));
       ("event_type", json_string (md_event_type (rd_mouse x))); ("event", mouse_json (md_event (rd_mouse x)));
       ("query", hit_query_json (rd_query x)); ("target", json_option RenderWire.input_target_json (rd_target x))])
  | CtlDispatchKeyEvent c d r viewport event_type event => ("dispatch_key_event",
      [("context_id", id_json c); ("document_id", id_json d); ("runtime_context_id", id_json r); ("viewport", size_json viewport);
       ("event_type", json_string event_type); ("event", key_json event)])
  | CtlDispatchTextInput c d r viewport state => ("dispatch_text_input",
      [("context_id", id_json c); ("document_id", id_json d); ("runtime_context_id", id_json r); ("viewport", size_json viewport);
       ("state", text_state_json state)])
  | CtlFindText c d query case_sensitive forward_ => ("find_text",
      [("context_id", id_json c); ("document_id", id_json d); ("query", json_string query);
       ("case_sensitive", json_bool case_sensitive); ("forward", json_bool forward_)])
  end.
Definition command_entries (command : ControllerCommand) : list (string * Value) :=
  ("v", json_u64 ABI_VERSION) :: ("type", text (command_fields command).1) :: (command_fields command).2.
Definition command_json (command : ControllerCommand) : Value := obj (command_entries command).

Local Abbreviation u64_ok := RenderWire.u64_ok.
Local Abbreviation u32_ok := RenderWire.u32_ok.
Local Abbreviation id_ok := RenderWire.id_ok.
Definition i64_ok (z : Z) : Prop := (- 2 ^ 63 ≤ z < 2 ^ 63)%Z.
Definition i32_ok (z : Z) : Prop := (- 2 ^ 31 ≤ z < 2 ^ 31)%Z.
(** At most 4096 by 4096, which is 64 MiB *)
Definition size_ok (v : N * N) : Prop := (1 ≤ v.1 ≤ 4096 ∧ 1 ≤ v.2 ≤ 4096)%N.
Definition generation_ok (n : N) : Prop := u64_ok n ∧ (n ≠ 0)%N.
Definition mouse_ok (e : MouseEventData) : Prop :=
  i32_ok (me_button e) ∧ i64_ok (me_buttons e) ∧ i64_ok (me_detail e) ∧ is_finite (me_x e) = true ∧ is_finite (me_y e) = true ∧
  is_finite (me_delta_x e) = true ∧ is_finite (me_delta_y e) = true ∧ me_related_node_id e = None.
Definition key_ok (e : KeyEventData) : Prop :=
  (str_len (ke_key e) ≤ 256)%N ∧ (str_len (ke_code e) ≤ 256)%N ∧ (str_len (ke_text e) ≤ 4096)%N ∧ i64_ok (ke_location e).
(** The selection is inside the text, counted in UTF-16, and so is what is composed, from its
    start to its end. *)
Definition text_state_ok (s : TextInputState) : Prop :=
  (str_len (ti_text s) ≤ 16384)%N ∧
  ((ti_selection s).1 ≤ utf16_len (ti_text s) ∧ (ti_selection s).2 ≤ utf16_len (ti_text s))%N ∧
  RenderWire.option_ok (λ r : N * N, r.1 ≤ r.2 ∧ r.2 ≤ utf16_len (ti_text s))%N (ti_composing s).
Definition query_ok (x : RenderHitTestQuery) : Prop :=
  ht_version x = RENDER_PROTOCOL_VERSION ∧ id_ok (ht_query_id x) ∧ id_ok (ht_context_id x) ∧ id_ok (ht_document_id x) ∧
  id_ok (ht_displayed_commit_id x) ∧ RenderWire.revision_ok (ht_revision x) ∧ id_ok (ht_handle x) ∧ point_ok (ht_point x).
Definition action_ok (x : AccessibilityAction) : Prop :=
  match x with AxSetValue value => (str_len value ≤ 16384)%N | _ => True end.

Definition command_ok (command : ControllerCommand) : Prop :=
  match command with
  | CtlStartCdp port => (1 ≤ port < 2 ^ 16)%N
  | CtlLoadProfileSession | CtlSaveCurrentProfileSession | CtlBrowserSnapshot | CtlCreateContext | CtlFlushRendererSubmissions => True
  | CtlCloseContext c | CtlActivateContext c | CtlNavigate c _ | CtlReload c | CtlStop c | CtlContextState c => id_ok c
  | CtlTraverseHistory c delta => id_ok c ∧ i32_ok delta
  | CtlUpdateHostViewState c s =>
      id_ok c ∧ generation_ok (hv_generation s) ∧ size_ok (hv_viewport s) ∧ is_finite (hv_scale_factor s) = true ∧
      tenth_to_sixteen (hv_scale_factor s) = true
  | CtlSetPageZoom c zoom => id_ok c ∧ is_finite zoom = true
  | CtlAccessibilitySnapshot c d viewport => id_ok c ∧ id_ok d ∧ size_ok viewport
  | CtlPublishRendererSnapshot c d viewport generation zoom =>
      id_ok c ∧ id_ok d ∧ size_ok viewport ∧ generation_ok generation ∧ is_finite zoom = true
  | CtlDispatchAccessibilityAction x =>
      id_ok (ad_context_id x) ∧ id_ok (ad_document_id x) ∧ id_ok (ad_runtime_context_id x) ∧ size_ok (ad_viewport x) ∧
      generation_ok (ad_source_generation x) ∧ generation_ok (ad_generation x) ∧ generation_ok (ad_node_id x) ∧ action_ok (ad_action x)
  | CtlDispatchRendererMouseEvent x =>
      id_ok (md_context_id (rd_mouse x)) ∧ id_ok (md_document_id (rd_mouse x)) ∧ id_ok (md_runtime_context_id (rd_mouse x)) ∧
      size_ok (md_viewport (rd_mouse x)) ∧ mouse_event_type (md_event_type (rd_mouse x)) = true ∧ mouse_ok (md_event (rd_mouse x)) ∧
      query_ok (rd_query x) ∧ RenderWire.option_ok RenderWire.input_target_ok (rd_target x)
  | CtlDispatchKeyEvent c d r viewport event_type event =>
      id_ok c ∧ id_ok d ∧ id_ok r ∧ size_ok viewport ∧ (event_type = lit "keydown" ∨ event_type = lit "keyup") ∧ key_ok event
  | CtlDispatchTextInput c d r viewport state => id_ok c ∧ id_ok d ∧ id_ok r ∧ size_ok viewport ∧ text_state_ok state
  | CtlFindText c d query _ _ => id_ok c ∧ id_ok d ∧ (str_len query ≤ 4096)%N
  end.
End front_end.

(** ** What is written is read *)

Section objects.
Context `{SerdeJsonLaws}.
Context (m : list (rstr * Value)) (l : list (string * Value)) (Hm : same_map m (fields l)).

Lemma get_field_obj name : get_field m name = assoc name l.
Proof. exact (RenderWire.field_obj m l Hm name). Qed.
Lemma exact_keys_obj expected :
  (length l =? length expected)%nat && forallb (λ f, match assoc f l with Some _ => true | None => false end) expected = true →
  exact_keys m expected = Ok tt.
Proof.
  intros Hk. pose proof (RenderWire.keys_obj m l Hm expected Hk) as Hok. unfold RenderWire.keys, exact_keys, throw_if in *.
  change (RenderWire.field m) with (get_field m) in Hok. by destruct (_ || _).
Qed.
Lemma required_u64_obj name n : assoc name l = Some (json_u64 n) → RenderWire.u64_ok n → required_u64 m name = Ok n.
Proof. exact (RenderWire.u64_obj m l Hm name n). Qed.
Lemma required_f64_obj name x : assoc name l = Some (json_f64 x) → is_finite x = true → required_f64 m name = Ok x.
Proof. exact (RenderWire.f64_obj m l Hm name x). Qed.
Lemma required_bool_obj name b : assoc name l = Some (json_bool b) → required_bool m name = Ok b.
Proof. exact (RenderWire.bool_obj m l Hm name b). Qed.
Lemma required_string_obj name s : assoc name l = Some (json_string s) → required_string m name = Ok s.
Proof. exact (RenderWire.string_obj m l Hm name s). Qed.
Lemma required_i64_obj name z : assoc name l = Some (json_i64 z) → i64_ok z → required_i64 m name = Ok z.
Proof. intros Ha Hz. unfold required_i64. rewrite get_field_obj, Ha. cbn. by rewrite as_i64_i64. Qed.
Lemma bounded_string_obj name limit s :
  assoc name l = Some (json_string s) → (str_len s ≤ limit)%N → bounded_string m name limit = Ok s.
Proof.
  intros Ha Hs. unfold bounded_string. rewrite (required_string_obj _ _ Ha). cbn [mbind result_bind].
  by rewrite (proj2 (N.ltb_ge _ _)).
Qed.
Lemma required_object_obj name l' :
  assoc name l = Some (obj l') → distinct l'.*1 = true → ∃ m', required_object m name = Ok m' ∧ same_map m' (fields l').
Proof.
  intros Ha Hd. unfold required_object. rewrite get_field_obj, Ha. cbn. destruct (as_object_obj l' Hd) as (m' & -> & Hs).
  by exists m'.
Qed.
Lemma required_context_id_obj id : assoc "context_id" l = Some (RenderWire.id_json id) → RenderWire.id_ok id → required_context_id m = Ok id.
Proof. intros Ha Hn. unfold required_context_id. by rewrite (required_u64_obj _ _ Ha Hn). Qed.
Lemma required_document_id_obj id : assoc "document_id" l = Some (RenderWire.id_json id) → RenderWire.id_ok id → required_document_id m = Ok id.
Proof. intros Ha Hn. unfold required_document_id. by rewrite (required_u64_obj _ _ Ha Hn). Qed.
Lemma required_runtime_context_id_obj id :
  assoc "runtime_context_id" l = Some (RenderWire.id_json id) → RenderWire.id_ok id → required_runtime_context_id m = Ok id.
Proof. intros Ha Hn. unfold required_runtime_context_id. by rewrite (required_u64_obj _ _ Ha Hn). Qed.
End objects.

Lemma fit_u32_ok n message : (n < 2 ^ 32)%N → fit_u32 n message = Ok n.
Proof. intros Hn. unfold fit_u32. by apply N.ltb_lt in Hn as ->. Qed.
Lemma checked_mul_ok a b : (a * b < 2 ^ 64)%N → checked_mul a b = Some (a * b)%N.
Proof. intros Hn. unfold checked_mul. by apply N.ltb_lt in Hn as ->. Qed.
Lemma fit_i32_ok z message : i32_ok z → fit_i32 z message = Ok z.
Proof. unfold i32_ok, fit_i32. intros [Hl Hh]. apply Z.leb_le in Hl as ->. by apply Z.ltb_lt in Hh as ->. Qed.
Lemma i32_i64 z : i32_ok z → i64_ok z.
Proof. unfold i32_ok, i64_ok. lia. Qed.
#[local] Hint Resolve i32_i64 : core.

(** A field of the object behind [Hm] *)
Ltac read_field Hm :=
  first
    [ rewrite (exact_keys_obj _ _ Hm) by reflexivity
    | erewrite (required_context_id_obj _ _ Hm) by (reflexivity || assumption)
    | erewrite (required_document_id_obj _ _ Hm) by (reflexivity || assumption)
    | erewrite (required_runtime_context_id_obj _ _ Hm) by (reflexivity || assumption)
    | erewrite (required_u64_obj _ _ Hm) by (reflexivity || assumption)
    | erewrite (required_i64_obj _ _ Hm) by (reflexivity || auto 2)
    | erewrite (required_f64_obj _ _ Hm) by (reflexivity || assumption)
    | erewrite (required_bool_obj _ _ Hm) by reflexivity
    | erewrite (bounded_string_obj _ _ Hm) by (reflexivity || assumption)
    | erewrite (required_string_obj _ _ Hm) by reflexivity
    | rewrite fit_i32_ok by assumption ].
Ltac read_fields Hm := repeat (read_field Hm; cbn [mbind result_bind]).
Ltac split_ok := repeat match goal with H : _ ∧ _ |- _ => destruct H end.

Lemma utf16_len_le s : (utf16_len s ≤ str_len s)%N.
Proof.
  induction s as [|c s IH]; [done|]. unfold utf16_len, str_len in *. rewrite !sumN_cons.
  enough (len_utf16 c ≤ len_utf8 c)%N by lia. unfold len_utf16, len_utf8.
  destruct (N.ltb_spec c 128), (N.ltb_spec c 2048), (N.ltb_spec c 65536); lia.
Qed.

Section nested.
Context `{SerdeJsonLaws}.
Context (m : list (rstr * Value)) (l : list (string * Value)) (Hm : same_map m (fields l)).

Lemma viewport_obj v : assoc "viewport" l = Some (size_json v) → size_ok v → required_viewport m = Ok v.
Proof.
  destruct v as [w h]. intros Ha [Hw Hh]. cbn [fst snd] in Hw, Hh. unfold required_viewport.
  destruct (required_object_obj m l Hm "viewport" _ Ha eq_refl) as (m' & -> & Hm'). cbn [mbind result_bind].
  assert (RenderWire.u64_ok w ∧ RenderWire.u64_ok h) as [Hw' Hh'] by (unfold RenderWire.u64_ok; lia). cbn [fst snd] in Hm'.
  read_fields Hm'. rewrite fit_u32_ok by lia. cbn [mbind result_bind]. read_fields Hm'. rewrite fit_u32_ok by lia.
  cbn [mbind result_bind]. assert (w * h ≤ 4096 * 4096)%N by (apply N.mul_le_mono; lia).
  rewrite checked_mul_ok by lia. cbn [mbind option_bind]. rewrite checked_mul_ok by lia. cbn [ok_or mbind result_bind].
  unfold MAX_INPUT_VIEWPORT_DIMENSION, MAX_INPUT_VIEWPORT_BYTES.
  repeat match goal with
         | |- context [(?a =? 0)%N] => rewrite (proj2 (N.eqb_neq a 0)) by lia
         | |- context [(?a <? ?b)%N] => rewrite (proj2 (N.ltb_ge a b)) by lia
         end. done.
Qed.

Lemma mouse_event_obj e : assoc "event" l = Some (mouse_json e) → mouse_ok e → required_mouse_event m = Ok e.
Proof.
  destruct e as [x y b bs d rel bb ct sh al me dx dy]. intros Ha Hok. unfold mouse_ok in Hok. cbn in Hok. split_ok. subst rel.
  unfold required_mouse_event. destruct (required_object_obj m l Hm "event" _ Ha eq_refl) as (m' & -> & Hm'). cbn [mbind result_bind].
  cbn -[fields] in Hm'. by read_fields Hm'.
Qed.

Lemma key_event_obj e : assoc "event" l = Some (key_json e) → key_ok e → required_key_event m = Ok e.
Proof.
  destruct e as [k c t ap ct sh al me re loc]. intros Ha Hok. unfold key_ok in Hok. cbn in Hok. split_ok.
  unfold required_key_event. destruct (required_object_obj m l Hm "event" _ Ha eq_refl) as (m' & -> & Hm'). cbn [mbind result_bind].
  cbn -[fields] in Hm'. by read_fields Hm'.
Qed.

Lemma range_obj name o :
  assoc name l = Some (json_option range_json o) → RenderWire.option_ok (λ r : N * N, r.1 < 2 ^ 32 ∧ r.2 < 2 ^ 32)%N o →
  required_text_range m name = Ok o.
Proof.
  intros Ha Ho. unfold required_text_range. rewrite (get_field_obj m l Hm), Ha. cbn [ok_or mbind result_bind].
  destruct o as [[b e]|]; cbn [json_option]; [|by rewrite is_null_null]. destruct (Ho (b, e) eq_refl) as [Hb He]. cbn [fst snd] in Hb, He.
  destruct (as_object_obj [("base_offset", json_u64 b); ("extent_offset", json_u64 e)] eq_refl) as (m' & Hm1 & Hm').
  change (range_json (b, e)) with (obj [("base_offset", json_u64 b); ("extent_offset", json_u64 e)]). rewrite Hm1.
  unfold obj. rewrite is_null_object. cbn [ok_or mbind result_bind].
  assert (RenderWire.u64_ok b ∧ RenderWire.u64_ok e) as [? ?] by (unfold RenderWire.u64_ok; lia).
  read_fields Hm'. rewrite fit_u32_ok by done. cbn [mbind result_bind]. read_fields Hm'. by rewrite fit_u32_ok.
Qed.

End nested.

Section queries.
Context `{SerdeJsonLaws}.

Lemma hit_query_reads x : query_ok x → RenderWire.reads RenderWire.parse_hit_test_query (hit_query_json x) x.
Proof.
  destruct x as [v q c d dc r h p]. intros Hx. unfold query_ok in Hx. cbn in Hx. split_ok. subst v. RenderWire.read_object.
  unfold RenderWire.parse_hit_test_query, RenderWire.version, RenderWire.context_id, RenderWire.document_id.
  assert (RenderWire.u64_ok RENDER_PROTOCOL_VERSION) by done. by RenderWire.read_fields Hm.
Qed.
End queries.

Section nested_states.
Context `{SerdeJsonLaws}.
Context (m : list (rstr * Value)) (l : list (string * Value)) (Hm : same_map m (fields l)).

Lemma text_state_obj s : assoc "state" l = Some (text_state_json s) → text_state_ok s → required_text_input_state m = Ok s.
Proof.
  destruct s as [t [b e] comp]. intros Ha (Ht & [Hb He] & Hc). cbn [ti_text ti_selection ti_composing fst snd] in Ht, Hb, He, Hc.
  unfold required_text_input_state. destruct (required_object_obj m l Hm "state" _ Ha eq_refl) as (m' & -> & Hm').
  cbn [mbind result_bind ti_text ti_selection ti_composing] in Hm' |- *. pose proof (utf16_len_le t) as Hle. read_fields Hm'.
  rewrite (range_obj m' _ Hm' "selection" (Some (b, e)) eq_refl) by (intros ? [= <-]; cbn [fst snd]; lia). cbn [ok_or mbind result_bind].
  rewrite (range_obj m' _ Hm' "composing" comp eq_refl) by (intros r Hr; destruct (Hc r Hr); lia). cbn [mbind result_bind].
  rewrite fit_u32_ok by lia. cbn [mbind result_bind fst snd]. rewrite !(proj2 (N.ltb_ge _ _)) by done. cbn [orb].
  destruct comp as [[cb ce]|]; [|done]. destruct (Hc (cb, ce) eq_refl) as [Hc1 Hc2]. cbn [fst snd from_option] in *.
  by rewrite !(proj2 (N.ltb_ge _ _)).
Qed.

Lemma query_obj x : assoc "query" l = Some (hit_query_json x) → query_ok x →
  (query ← required_object m "query"; RenderWire.parse_hit_test_query query) = Ok x.
Proof.
  intros Ha Hx. destruct (hit_query_reads x Hx) as (l' & Heq & Hd & Hl). rewrite Heq in Ha.
  destruct (required_object_obj m l Hm "query" _ Ha Hd) as (m' & -> & Hm'). by apply Hl.
Qed.
Lemma target_obj o : assoc "target" l = Some (json_option RenderWire.input_target_json o) →
  RenderWire.option_ok RenderWire.input_target_ok o → parse_target m = Ok o.
Proof.
  intros Ha Ho. unfold parse_target. rewrite (get_field_obj m l Hm), Ha. destruct o as [x|]; cbn [json_option]; [|by rewrite is_null_null].
  destruct (RenderWire.input_target_reads x (Ho x eq_refl)) as (l' & -> & Hd & Hl).
  destruct (as_object_obj l' Hd) as (m' & -> & Hm'). unfold obj. rewrite is_null_object. by rewrite (Hl m' Hm').
Qed.
End nested_states.

Lemma of_name_lit {A} (names : list (string * A)) s : of_name names (lit s) = assoc s names.
Proof.
  unfold of_name. induction names as [|[k v] names IH]; [done|]. cbn -[lit]. destruct (String.eqb_spec k s) as [->|Hne].
  - by rewrite bool_decide_true.
  - rewrite bool_decide_false; [exact IH|]. by intros ?%lit_inj.
Qed.

(** ** What is read is within the bounds *)

Section commands.
Context `{SerdeJsonLaws}.

Lemma command_distinct command : distinct (command_entries command).*1 = true.
Proof. destruct command; try reflexivity. by destruct request as [? ? ? ? ? ? ? []]. Qed.

Ltac not_zero :=
  repeat match goal with
         | |- context [(?a =? 0)%N] => rewrite (proj2 (N.eqb_neq a 0)) by assumption
         end; cbn [orb throw_if mbind result_bind].
Lemma bool_or_eq (P Q : Prop) `{Decision P, Decision Q} : P ∨ Q → bool_decide P || bool_decide Q = true.
Proof. intros HPQ. apply orb_true_intro. by rewrite !bool_decide_eq_true. Qed.
Ltac arm Hm :=
  read_fields Hm; try (erewrite (viewport_obj _ _ Hm) by (reflexivity || assumption)); cbn [mbind result_bind]; read_fields Hm.

Lemma lifecycle_read x : of_name LIFECYCLES (lit (lifecycle_name x)) = Some x.
Proof. rewrite of_name_lit. by destruct x. Qed.

Lemma action_read m l action :
  same_map m (fields l) → assoc "action" l = Some (RenderWire.text_json (action_as_str action)) →
  match action with AxSetValue value => assoc "value" l = Some (json_string value) | _ => True end → action_ok action →
  (let expected := ACTION_FIELDS ++ match action with AxSetValue _ => ["value"; "viewport"] | _ => ["viewport"] end in
   (length l =? length expected)%nat && forallb (λ f, match assoc f l with Some _ => true | None => false end) expected = true) →
  parse_action m = Ok action.
Proof.
  intros Hm Ha Hv Hok Hk. unfold parse_action. rewrite (required_string_obj _ _ Hm _ _ Ha). cbn [mbind result_bind].
  destruct action as [|value| |]; cbn [action_as_str]; RenderWire.tag; rewrite (exact_keys_obj _ _ Hm) by exact Hk;
    cbn [mbind result_bind orb]; [done| |by RenderWire.tag..].
  by rewrite (bounded_string_obj _ _ Hm _ _ _ Hv).
Qed.

Lemma command_read input command :
  command_ok command → from_str input = Ok (command_json command) → parse_command input = Ok command.
Proof.
  intros Hok Hin. unfold parse_command. rewrite Hin. cbn [map_err mbind result_bind].
  destruct (as_object_obj (command_entries command) (command_distinct command)) as (m & Hm1 & Hm). unfold command_json. rewrite Hm1.
  cbn [ok_or mbind result_bind]. rewrite (required_u64_obj _ _ Hm "v" ABI_VERSION) by done. cbn [mbind result_bind]. cbn [N.eqb negb throw_if].
  rewrite (required_string_obj _ _ Hm "type" (lit (command_fields command).1)) by done. cbn [mbind result_bind throw_if negb ABI_VERSION N.eqb Pos.eqb].
  rewrite of_name_lit. unfold command_entries in Hm.
  destruct command; cbn [command_fields fst snd] in Hm |- *; cbn [assoc COMMANDS String.eqb Ascii.eqb Bool.eqb ok_or mbind result_bind];
    cbn [command_ok] in Hok; unfold generation_ok in Hok; split_ok; unfold no_fields, context_only; try by read_fields Hm.
  - unfold parse_start_cdp. assert (RenderWire.u64_ok port) by (unfold RenderWire.u64_ok; lia). read_fields Hm.
    rewrite (proj2 (N.ltb_lt _ _)) by done. cbn [mbind result_bind]. by rewrite (proj2 (N.eqb_neq _ _)) by lia.
  - unfold parse_navigate. by read_fields Hm.
  - unfold parse_traverse_history. by arm Hm.
  - unfold parse_update_host_view_state. destruct state as [g v sf f vis lc]. cbn -[fields lit lifecycle_name tenth_to_sixteen is_finite] in * |-.
    read_fields Hm. not_zero. read_fields Hm. rewrite lifecycle_read. cbn [ok_or mbind result_bind]. read_fields Hm.
    match goal with Hz : tenth_to_sixteen _ = true |- _ => rewrite Hz end. cbn [negb throw_if mbind result_bind]. by arm Hm.
  - unfold parse_set_page_zoom. by read_fields Hm.
  - unfold parse_accessibility_snapshot. by arm Hm.
  - unfold parse_publish_renderer_snapshot. read_fields Hm. not_zero. by arm Hm.
  - unfold parse_dispatch_accessibility_action. destruct request as [c d r v sg g n a]. cbn -[fields action_ok] in * |-.
    rewrite (action_read _ _ a Hm) by (done || by destruct a). cbn [mbind result_bind]. read_fields Hm. not_zero. by arm Hm.
  - unfold parse_dispatch_renderer_mouse_event. destruct request as [[c d r v t e] q o]. cbn -[fields query_ok mouse_event_type] in * |-.
    read_fields Hm. match goal with Hz : mouse_event_type _ = true |- _ => rewrite Hz end. cbn [negb throw_if mbind result_bind].
    pose proof (query_obj _ _ Hm q eq_refl ltac:(assumption)) as Hq. destruct (required_object m "query") as [qm|]; [|done].
    cbn [mbind result_bind] in Hq |- *. rewrite Hq. cbn [mbind result_bind].
    rewrite (target_obj _ _ Hm o) by done. cbn [mbind result_bind]. arm Hm. by rewrite (mouse_event_obj _ _ Hm e).
  - unfold parse_dispatch_key_event. read_fields Hm.
    match goal with Hz : _ ∨ _ |- _ => rewrite (bool_or_eq _ _ Hz) end. cbn [negb throw_if mbind result_bind].
    arm Hm. by rewrite (key_event_obj _ _ Hm event).
  - unfold parse_dispatch_text_input. arm Hm. by rewrite (text_state_obj _ _ Hm state).
  - unfold parse_find_text. by arm Hm.
Qed.
End commands.


Create HintDb sound.

Section sound.
Context `{SerdeJsonLaws}.
Implicit Types (m : list (rstr * Value)).

Lemma required_u64_sound m name n : required_u64 m name = Ok n → RenderWire.u64_ok n.
Proof. exact (RenderWire.u64_sound m name n). Qed.
Lemma required_i64_sound m name z : required_i64 m name = Ok z → i64_ok z.
Proof. unfold required_i64. rewrite ok_or_Ok. intros (v & _ & Hv)%bind_Some. by eapply as_i64_bound. Qed.
Lemma required_f64_sound m name x : required_f64 m name = Ok x → is_finite x = true.
Proof.
  unfold required_f64. rewrite ok_or_Ok. intros (v & _ & (y & _ & Hy)%bind_Some)%bind_Some. destruct (is_finite y) eqn:Hf; [|done].
  by injection Hy as <-.
Qed.
Lemma abi_id_sound m name message id :
  (n ← required_u64 m name; ok_or (id_new n) (invalid_command (lit message))) = Ok id → RenderWire.id_ok id.
Proof. intros (n & Hn%required_u64_sound & Hi)%bind_Ok. by eapply RenderWire.id_of_u64. Qed.
Lemma context_id_sound m id : required_context_id m = Ok id → RenderWire.id_ok id.
Proof. apply abi_id_sound. Qed.
Lemma document_id_sound m id : required_document_id m = Ok id → RenderWire.id_ok id.
Proof. apply abi_id_sound. Qed.
Lemma runtime_context_id_sound m id : required_runtime_context_id m = Ok id → RenderWire.id_ok id.
Proof. apply abi_id_sound. Qed.
Lemma bounded_string_sound m name limit s : bounded_string m name limit = Ok s → (str_len s ≤ limit)%N.
Proof.
  intros (x & _ & Hx)%bind_Ok. destruct (N.ltb_spec limit (str_len x)); [done|]. by injection Hx as <-.
Qed.
Lemma fit_u32_sound n message k : fit_u32 n message = Ok k → k = n ∧ (n < 2 ^ 32)%N.
Proof. unfold fit_u32. destruct (N.ltb_spec n (2 ^ 32)); [|done]. by intros [= ->]. Qed.
Lemma fit_i32_sound z message k : fit_i32 z message = Ok k → k = z ∧ i32_ok z.
Proof.
  unfold fit_i32, i32_ok. destruct (Z.leb_spec (- 2 ^ 31) z), (Z.ltb_spec z (2 ^ 31)); try done. by intros [= ->].
Qed.
Lemma abi_viewport_sound m v : required_viewport m = Ok v → size_ok v.
Proof.
  unfold required_viewport. intros Hv. ok_inv. destruct (_ || _ || _ || _ || _)%N eqn:Hb in Hv; [done|]. injection Hv as <-. bool_inv.
  repeat match goal with
         | Hx : (_ =? _)%N = false |- _ => apply N.eqb_neq in Hx
         | Hx : (_ <? _)%N = false |- _ => apply N.ltb_ge in Hx
         end.
  unfold MAX_INPUT_VIEWPORT_DIMENSION in *. unfold size_ok. cbn [fst snd]. lia.
Qed.

#[local] Hint Resolve required_u64_sound required_i64_sound required_f64_sound context_id_sound document_id_sound
  runtime_context_id_sound abi_viewport_sound : sound.
#[local] Hint Extern 1 (str_len _ ≤ _)%N => eapply bounded_string_sound; eassumption : sound.

Ltac numbers :=
  repeat match goal with
         | Hx : fit_i32 _ _ = Ok _ |- _ => apply fit_i32_sound in Hx as [-> ?]
         | Hx : fit_u32 _ _ = Ok _ |- _ => apply fit_u32_sound in Hx as [-> ?]
         | Hx : (_ =? _)%N = false |- _ => apply N.eqb_neq in Hx
         | Hx : (_ <? _)%N = false |- _ => apply N.ltb_ge in Hx
         end.
Ltac parts := repeat (split; [solve [eauto 3 with sound]|]); solve [eauto 3 with sound].

Lemma mouse_event_sound m e : required_mouse_event m = Ok e → mouse_ok e.
Proof. unfold required_mouse_event. intros He. ok_inv. subst e. numbers. unfold mouse_ok. cbn. parts. Qed.
Lemma key_event_sound m e : required_key_event m = Ok e → key_ok e.
Proof. unfold required_key_event. intros He. ok_inv. subst e. unfold key_ok. cbn [ke_key ke_code ke_text ke_location]. parts. Qed.

Lemma text_state_sound m s : required_text_input_state m = Ok s → text_state_ok s.
Proof.
  unfold required_text_input_state. intros Hs. ok_inv. numbers.
  destruct (_ || _)%N eqn:Hb in Hs; [done|]. destruct (from_option _ _ _) eqn:Hc in Hs; [done|]. injection Hs as <-.
  bool_inv. numbers. unfold text_state_ok. cbn [ti_text ti_selection ti_composing]. split; [by eapply bounded_string_sound|]. split; [done|].
  intros r ->. cbn [from_option] in Hc. bool_inv. numbers. by split.
Qed.
Ltac query_part :=
    first [ by eapply RenderWire.id_sound
          | eapply RenderWire.nested_sound; [|eassumption]; intros; by (eapply RenderWire.revision_sound || eapply RenderWire.point_sound) ].
Lemma query_sound m x : RenderWire.parse_hit_test_query m = Ok x → query_ok x.
Proof.
  unfold RenderWire.parse_hit_test_query, RenderWire.context_id, RenderWire.document_id. intros Hx. RenderWire.steps. unfold query_ok. cbn.
  split; [done|]. repeat (split; [solve [query_part]|]). query_part.
Qed.
Lemma target_sound m o : parse_target m = Ok o → RenderWire.option_ok RenderWire.input_target_ok o.
Proof.
  unfold parse_target. intros Ho. destruct (get_field m _); [|done]. destruct (is_null _); [by injection Ho as <-|].
  destruct (as_object _); [|done]. ok_inv. subst o. intros y [= <-]. by eapply RenderWire.wire_input_target_sound.
Qed.
Lemma action_sound m a : parse_action m = Ok a → action_ok a.
Proof.
  unfold parse_action. intros Ha. ok_inv. repeat case_bool_decide; cbn [orb] in Ha; ok_inv; subst; try done.
  by eapply (bounded_string_sound _ _ ACCESSIBILITY_MAX_VALUE_BYTES).
Qed.
#[local] Hint Resolve mouse_event_sound key_event_sound text_state_sound query_sound target_sound action_sound : sound.

Lemma of_name_in {A} (names : list (string * A)) s x : of_name names s = Some x → x ∈ names.*2.
Proof.
  unfold of_name. intros ([k y] & Hf & Hy)%fmap_Some. apply find_some in Hf as [Hin _]. apply list_elem_of_fmap. exists (k, y).
  split; [done|]. by apply list_elem_of_In.
Qed.

Lemma command_sound input command : parse_command input = Ok command → command_ok command.
Proof.
  unfold parse_command. intros Hp. ok_inv.
  match goal with Hn : of_name _ _ = Some _ |- _ => apply of_name_in in Hn as Hin; clear Hn end.
  cbn [COMMANDS fmap list_fmap snd] in Hin. revert Hp.
  repeat (apply elem_of_cons in Hin as [->|Hin]); try (by apply elem_of_nil in Hin);
    unfold no_fields, context_only, parse_start_cdp, parse_navigate, parse_traverse_history, parse_find_text, parse_set_page_zoom,
      parse_update_host_view_state, parse_accessibility_snapshot, parse_publish_renderer_snapshot, parse_dispatch_accessibility_action,
      parse_dispatch_renderer_mouse_event, parse_dispatch_key_event, parse_dispatch_text_input; intros Hp; ok_inv.
  all: try (subst command; numbers; cbn -[N.le N.lt str_len is_finite tenth_to_sixteen mouse_event_type]; first [exact I | unfold generation_ok; parts]).
  - match goal with Hx : (if (?n <? _)%N then _ else _) = Ok ?k |- _ => destruct (N.ltb_spec n (2 ^ 16)); [injection Hx as <-|done]; destruct (N.eqb_spec n 0); [done|] end.
    injection Hp as <-. cbn [command_ok]. lia.
  - subst command. cbn -[N.le N.lt str_len lit]. repeat (split; [solve [eauto 3 with sound]|]). split; [|eauto with sound].
    match goal with Hb : bool_decide _ || bool_decide _ = true |- _ => apply orb_true_iff in Hb as [Hb|Hb]; apply bool_decide_eq_true in Hb; tauto end.
Qed.
End sound.

(** ** Theorem *)

(** C36. The commands of the C interface: every command within the bounds that a front end writes
    is read as that command, and whatever text is read as a command, the command is within the
    bounds: identifiers and generations are not zero, dimensions are at most 4096, numbers are
    finite and fit their width, texts are no longer than allowed, and what is selected or
    composed lies in the text of the input. *)
Theorem command_round_trip `{SerdeJsonLaws} input :
  (∀ command, command_ok command → from_str input = Ok (command_json command) → parse_command input = Ok command) ∧
  (∀ command, parse_command input = Ok command → command_ok command).
Proof. split; [intros command; apply command_read|intros command; apply command_sound]. Qed.

(** A selection in two characters, one of which has two UTF-16 units *)
Definition sample_command : ControllerCommand := CtlDispatchTextInput 1 2 3 (800, 600)%N
  {| ti_text := [128512; 97]%N; ti_selection := (2, 3)%N; ti_composing := None |}.
Definition sample_text : SerdeJson := toy_json (λ _, Ok (command_json (H := toy_json (λ _, Err [])) sample_command)).

Lemma command_round_trip_witness :
  parse_command (H := sample_text) (lit "{}") = Ok sample_command ∧ command_ok sample_command.
Proof.
  destruct (command_round_trip (H := sample_text) (H0 := toy_json_laws _) (lit "{}")) as [Hread Hsound].
  assert (parse_command (H := sample_text) (lit "{}") = Ok sample_command) as E.
  { apply Hread; [|reflexivity]. repeat split; vm_compute; done. }
  split; [exact E|]. by apply Hsound.
Defined.
