(* ===== verification/CAbi.v ===== *)
(** * The C interface

    [crates/vixen-ffi/src/c_abi.rs] and [c_renderer.rs]: the functions that foreign code calls.
    Handles and output buffers are tokens of two registries; nothing a caller gives is
    dereferenced as an object of Rust.  Definitions first; the theorems are about the
    registries: what a call returns is all that it keeps.

    A pointer to an output is [None] when it is null and otherwise what it points to; an input
    is [None] when its pointer is null and otherwise its bytes.  [ptr] and [len] of a
    [VixenBuffer] are the text in the registry, which does not move while it is there.  The
    locks of the registries and of a controller make calls on one of them follow each other, and
    that is how they are modelled; the buffer registry, which calls on different handles
    share, has a step relation of its own.  Locks are not poisoned.  The engine, the threads of
    the renderer's requesters and the CDP host are the classes [EngineBrowserHandle] and
    [AbiBoundary]. *)

From Stdlib Require Import Lia ZArith Strings.Byte.
From stdpp Require Import base decidable gmap sets list strings.
From S2P Require Import Prelude.
From S2P Require Import RustFloat.
From S2P Require Import RenderModel.
From S2P Require Import RenderSource.
From S2P Require Import RenderCommit.
From S2P Require Import RenderBridge.
From S2P Require Import RendererBroker.
From S2P Require Import SyncRenderer.
From S2P Require Import RustStr.
From S2P Require Import RustUtf8.
From S2P Require Import Cookie.
From S2P Require Import Store.
From S2P Require Import WebStorage.
From S2P Require Import NetUrl.
From S2P Require Import HttpCache.
From S2P Require Import Network.
From S2P Require Import BrowserApi.
From S2P Require Import BrowserChannel.
From S2P Require Import ExternalResource.
From S2P Require Import BrowserCore.
From S2P Require Import BrowserCommands.
From S2P Require Import Controller.
From S2P Require Import Json.
From S2P Require Import CommandWire.
From S2P Require RenderWire.

Definition VIXEN_STATUS_OK : N := 0.
Definition VIXEN_STATUS_NO_EVENT : N := 1.
Definition VIXEN_STATUS_INVALID_ARGUMENT : N := 2.
Definition VIXEN_STATUS_INVALID_UTF8 : N := 3.
Definition VIXEN_STATUS_INPUT_TOO_LARGE : N := 4.
Definition VIXEN_STATUS_UNKNOWN_HANDLE : N := 6.
Definition VIXEN_STATUS_BROWSER_ERROR : N := 7.
Definition VIXEN_STATUS_UNKNOWN_BUFFER : N := 8.
Definition VIXEN_STATUS_PANIC : N := 9.
Definition VIXEN_STATUS_INTERNAL_ERROR : N := 10.
Definition VIXEN_STATUS_OUTPUT_TOO_LARGE : N := 11.
Definition VIXEN_STATUS_BUFFER_LIMIT : N := 12.

Definition VIXEN_MAX_PROFILE_PATH_BYTES : N := 4096.
Definition VIXEN_MAX_MESSAGE_BYTES : N := 65536.
Definition VIXEN_MAX_OUTSTANDING_BUFFERS : nat := 64.
Definition VIXEN_MAX_WAIT_MILLISECONDS : N := 60000.

Definition FFI_INVALID_ARGUMENT : rstr := lit "ffi.invalid-argument".
Definition FFI_INVALID_UTF8 : rstr := lit "ffi.invalid-utf8".
Definition FFI_INPUT_TOO_LARGE : rstr := lit "ffi.input-too-large".
Definition FFI_OUTPUT_TOO_LARGE : rstr := lit "ffi.output-too-large".
Definition FFI_BUFFER_LIMIT : rstr := lit "ffi.buffer-limit".
Definition FFI_UNKNOWN_HANDLE : rstr := lit "ffi.unknown-handle".
Definition FFI_INTERNAL : rstr := lit "ffi.internal".

Definition abi_invalid_argument (message : rstr) : AbiError :=
  abi_error_of VIXEN_STATUS_INVALID_ARGUMENT FFI_INVALID_ARGUMENT message.
Definition internal (message : string) : AbiError := abi_error_of VIXEN_STATUS_INTERNAL_ERROR FFI_INTERNAL (lit message).
Definition unknown_handle (message : string) : AbiError :=
  abi_error_of VIXEN_STATUS_UNKNOWN_HANDLE FFI_UNKNOWN_HANDLE (lit message).
Definition browser_error (error : BrowserError) : AbiError :=
  abi_error_of VIXEN_STATUS_BROWSER_ERROR (BrowserApi.be_code error) (BrowserApi.be_message error).
Definition synchronous_renderer_error (error : SynchronousRendererError) : AbiError :=
  invalid_command (se_code error ++ lit ": " ++ se_message error).

(** ** The registry of output buffers *)

Section buffers.
Context `{SerdeJson}.

(** A zeroed descriptor is no output. *)
Record VixenBuffer : Type := { vb_token : N; vb_text : option Value }.
Definition EMPTY : VixenBuffer := {| vb_token := 0; vb_text := None |}.

(** [NEXT_BUFFER] and [BUFFERS]; a reserved buffer has no text yet. *)
Record Buffers : Type := { next_buffer : N; live : gmap N (option Value) }.
Definition Buffers_new : Buffers := {| next_buffer := 1; live := ∅ |}.
Definition set_live (m : gmap N (option Value)) (b : Buffers) : Buffers := {| next_buffer := next_buffer b; live := m |}.

(** [fetch_update] with [checked_add]: the old value, or an error and no change *)
Definition next_token (counter : N) (kind : string) : N * result AbiError N :=
  match u64_succ counter with
  | Some next => (next, Ok counter)
  | None => (counter, Err (internal (kind ++ " exhausted")))
  end.

Definition buffer_limit : AbiError :=
  abi_error_of VIXEN_STATUS_BUFFER_LIMIT FFI_BUFFER_LIMIT
    (lit "outstanding output buffer limit of " ++ dec (N.of_nat VIXEN_MAX_OUTSTANDING_BUFFERS) ++ lit " reached").
Definition output_too_large : AbiError :=
  abi_error_of VIXEN_STATUS_OUTPUT_TOO_LARGE FFI_OUTPUT_TOO_LARGE
    (lit "JSON output exceeds " ++ dec VIXEN_MAX_OUTPUT_BYTES ++ lit " bytes").

(** [reserve_buffer], under the lock of the registry *)
Definition reserve (b : Buffers) : Buffers * result AbiError N :=
  if (VIXEN_MAX_OUTSTANDING_BUFFERS <=? size (live b))%nat then (b, Err buffer_limit)
  else let '(next, r) := next_token (next_buffer b) "buffer token" in
       match r with
       | Ok token => ({| next_buffer := next; live := <[token := None]> (live b) |}, Ok token)
       | Err e => (b, Err e)
       end.
(** [BufferReservation::drop] of a reservation that was not committed, and the removal by
    [vixen_buffer_release] *)
Definition remove (token : N) (b : Buffers) : Buffers := set_live (delete token (live b)) b.
(** The part of [write_reserved_json] under the lock: the descriptor, where the reservation is
    still there *)
Definition retain (token : N) (value : Value) (b : Buffers) : Buffers * result AbiError VixenBuffer :=
  match live b !! token with
  | None => (b, Err (internal "reserved output buffer is unavailable"))
  | Some _ => (set_live (<[token := Some value]> (live b)) b, Ok {| vb_token := token; vb_text := Some value |})
  end.
Definition release (token : N) (b : Buffers) : Buffers * N :=
  if (token =? 0)%N then (b, VIXEN_STATUS_UNKNOWN_BUFFER)
  else match live b !! token with
       | Some _ => (remove token b, VIXEN_STATUS_OK)
       | None => (b, VIXEN_STATUS_UNKNOWN_BUFFER)
       end.
End buffers.

(** ** The state of the library *)

Section abi.
Context `{SerdeJson}.
Context `{Platform, UrlPlatform, HttpDate, ErrorText, PageEngine, StorePlatform, RuntimeType} `{!ScriptEngine}.
Context `{!PageCommands} `{!EngineBrowserHandle}.

(** What the boundary calls but is not part of it: the start of an engine with its synchronous
    renderer, the CDP host with its shutdown, the size of an update, the clock and whether the
    requester of a response still waits *)
Class AbiBoundary : Type := {
  CdpHost : Type;
  spawn_browser : rstr → result BrowserError Engine;
  cdp_start : N → Engine → result rstr CdpHost;
  cdp_shutdown : CdpHost → Engine → Engine;
  encoded_size : RenderBridgeUpdate → option N;
  broker_now : RenderRequestId → Instant;
  requester_waits : RenderRequestId → bool;
  controller_debug : ControllerResponse → rstr;
}.
Context `{!AbiBoundary}.

(** [ControllerEntry] with [ControllerState]; the broker and the renderer state are behind the
    engine's handle. *)
Record ControllerEntry : Type := {
  en_controller : FlutterBrowserController; next_event_sequence : N; en_cdp : option CdpHost;
}.
Definition set_controller (c : FlutterBrowserController) (e : ControllerEntry) : ControllerEntry :=
  {| en_controller := c; next_event_sequence := next_event_sequence e; en_cdp := en_cdp e |}.
Definition set_next_event_sequence (n : N) (e : ControllerEntry) : ControllerEntry :=
  {| en_controller := en_controller e; next_event_sequence := n; en_cdp := en_cdp e |}.
Definition set_cdp (c : option CdpHost) (e : ControllerEntry) : ControllerEntry :=
  {| en_controller := en_controller e; next_event_sequence := next_event_sequence e; en_cdp := c |}.

Record Library : Type := { next_handle : N; controllers : gmap N ControllerEntry; buffers : Buffers }.
Definition Library_new : Library := {| next_handle := 1; controllers := ∅; buffers := Buffers_new |}.
Definition set_controllers (m : gmap N ControllerEntry) (l : Library) : Library :=
  {| next_handle := next_handle l; controllers := m; buffers := buffers l |}.
Definition set_buffers (b : Buffers) (l : Library) : Library :=
  {| next_handle := next_handle l; controllers := controllers l; buffers := b |}.

(** A call in progress: the library and the output it writes to.  A body fails with an error
    or panics. *)
Record Call : Type := { c_library : Library; c_out : VixenBuffer }.
Definition set_library (l : Library) (c : Call) : Call := {| c_library := l; c_out := c_out c |}.
Definition set_out (o : VixenBuffer) (c : Call) : Call := {| c_library := c_library c; c_out := o |}.
Inductive Thrown : Type := Fails (error : AbiError) | Panics.
Local Abbreviation B := (M Call Thrown).

Definition or_fail {S A} (r : result AbiError A) : M S Thrown A := lift (map_err Fails r).
Definition on_buffers {A} (f : Buffers → Buffers * result AbiError A) : B A := λ c,
  let '(b, r) := f (buffers (c_library c)) in (set_library (set_buffers b (c_library c)) c, map_err Fails r).

(** [body] with a reservation, which is dropped unless [body] succeeds *)
Definition with_reservation {A} (body : N → B A) : B A :=
  λ c, match on_buffers reserve c with
       | (c, Err e) => (c, Err e)
       | (c, Ok token) =>
           match body token c with
           | (c, Err e) => (set_library (set_buffers (remove token (buffers (c_library c))) (c_library c)) c, Err e)
           | x => x
           end
       end.
Definition write_reserved_json (token : N) (value : Value) : B unit :=
  _ ← or_fail (throw_if (VIXEN_MAX_OUTPUT_BYTES <? text_len value)%N output_too_large);
  descriptor ← on_buffers (retain token value);
  modify (set_out descriptor).
Definition write_json (value : Value) : B unit := with_reservation (λ token, write_reserved_json token value).

Definition finish_call (r : result Thrown unit) (c : Call) : Call * N :=
  match r with
  | Ok _ => (c, VIXEN_STATUS_OK)
  | Err Panics => (c, VIXEN_STATUS_PANIC)
  | Err (Fails error) =>
      match write_json (error_message error) c with
      | (c, Ok _) => (c, abi_status error)
      | (c, Err (Fails write_error)) => (c, abi_status write_error)
      | (c, Err Panics) => (c, VIXEN_STATUS_PANIC)
      end
  end.
(** [initialize_output], then the body with [finish_call] *)
Definition with_output (body : Call → Call * N) (out : option VixenBuffer) (l : Library) : Library * option VixenBuffer * N :=
  match out with
  | None => (l, None, VIXEN_STATUS_INVALID_ARGUMENT)
  | Some _ => let '(c, status) := body {| c_library := l; c_out := EMPTY |} in (c_library c, Some (c_out c), status)
  end.
Definition run_body (body : B unit) (c : Call) : Call * N := let '(c, r) := body c in finish_call r c.

Definition copy_utf8_input (input : option (list N)) (maximum : N) (name : string) : result AbiError rstr :=
  bytes ← ok_or input (abi_invalid_argument (lit name ++ lit " pointer must not be null"));
  if (maximum <? len bytes)%N
  then Err (abi_error_of VIXEN_STATUS_INPUT_TOO_LARGE FFI_INPUT_TOO_LARGE
              (lit name ++ lit " exceeds " ++ dec maximum ++ lit " bytes"))
  else ok_or (from_utf8 bytes) (abi_error_of VIXEN_STATUS_INVALID_UTF8 FFI_INVALID_UTF8 (lit name ++ lit " is not valid UTF-8")).

Definition controller_entry (handle : N) (l : Library) : result AbiError ControllerEntry :=
  if (handle =? 0)%N then Err (unknown_handle "browser handle is zero")
  else ok_or (controllers l !! handle) (unknown_handle "browser handle is unknown or destroyed").
Definition on_controllers (f : gmap N ControllerEntry → gmap N ControllerEntry) (c : Call) : Call :=
  set_library (set_controllers (f (controllers (c_library c))) (c_library c)) c.
(** [controller_entry(handle)?], and what follows works on the entry *)
Definition on_entry {A} (handle : N) (m : M ControllerEntry Thrown A) : B A := λ c,
  match controller_entry handle (c_library c) with
  | Err e => (c, Err (Fails e))
  | Ok entry => let '(entry, r) := m entry in
                (on_controllers (<[handle := entry]>) c, r)
  end.

(** The parts of an entry *)
Definition on_controller {A} (m : M FlutterBrowserController BrowserError A) : M ControllerEntry Thrown A := λ e,
  let '(c, r) := m (en_controller e) in (set_controller c e, map_err (Fails ∘ browser_error) r).
Definition entry_bridge (e : ControllerEntry) : Bridge := handle_bridge (co_handle (en_controller e)).
Definition on_bridge {E A} (f : E → AbiError) (m : M Bridge E A) : M ControllerEntry Thrown A := λ e,
  let '(b, r) := m (entry_bridge e) in
  (set_controller (set_handle (handle_set_bridge b (co_handle (en_controller e))) (en_controller e)) e, map_err (Fails ∘ f) r).
Definition on_broker {A} (m : M State RenderBrokerError A) : M ControllerEntry Thrown A :=
  on_bridge id (call renderer_broker_error m).

(** ** Opening and destroying *)

(** [next_token(&NEXT_HANDLE, "browser handle")?] *)
Definition take_handle : B N := λ c,
  let '(n, r) := next_token (next_handle (c_library c)) "browser handle" in
  (set_library {| next_handle := n; controllers := controllers (c_library c); buffers := buffers (c_library c) |} c, map_err Fails r).
(** The message of success; the handle is taken back if it cannot be written. *)
Definition announce_opened (handle : N) : B unit := λ c,
  match write_json opened_json c with
  | (c, Err e) => (on_controllers (delete handle) c, Err e)
  | x => x
  end.
Definition open_body (profile_path : option (list N)) : B N :=
  path ← or_fail (copy_utf8_input profile_path VIXEN_MAX_PROFILE_PATH_BYTES "profile path");
  _ ← or_fail (throw_if (bool_decide (path = [])) (abi_invalid_argument (lit "profile path must not be empty")));
  controller ← or_fail (map_err browser_error (controller_from_config (spawn_browser path)));
  handle ← take_handle;
  _ ← modify (on_controllers (<[handle := {| en_controller := controller; next_event_sequence := 1; en_cdp := None |}]>));
  _ ← announce_opened handle;
  mret handle.

(** The second output is the handle: [None] where its pointer is null. *)
Definition vixen_open (profile_path : option (list N)) (out_handle : option N) (out : option VixenBuffer) (l : Library) :
    Library * option VixenBuffer * option N * N :=
  match out, out_handle with
  | None, _ => (l, None, out_handle, VIXEN_STATUS_INVALID_ARGUMENT)
  | Some _, None =>
      let '(c, status) := finish_call (Err (Fails (abi_invalid_argument (lit "output handle pointer must not be null"))))
                            {| c_library := l; c_out := EMPTY |} in
      (c_library c, Some (c_out c), None, status)
  | Some _, Some _ =>
      let '(c, r) := open_body profile_path {| c_library := l; c_out := EMPTY |} in
      let '(c, status) := finish_call (_ ← r; Ok tt) c in
      (c_library c, Some (c_out c), Some (match r with Ok handle => handle | Err _ => 0%N end), status)
  end.

(** The entry leaves the registry; its CDP host and its broker are shut down. *)
Definition vixen_destroy (handle : N) (l : Library) : Library * N :=
  if (handle =? 0)%N then (l, VIXEN_STATUS_UNKNOWN_HANDLE)
  else match controllers l !! handle with
       | Some _ => (set_controllers (delete handle (controllers l)) l, VIXEN_STATUS_OK)
       | None => (l, VIXEN_STATUS_UNKNOWN_HANDLE)
       end.
(** What that does to the engine that is behind the entry *)
Definition destroyed_engine (e : ControllerEntry) : Engine :=
  let engine := co_handle (en_controller e) in
  let engine := from_option (λ cdp, cdp_shutdown cdp engine) engine (en_cdp e) in
  let b := handle_bridge engine in
  handle_set_bridge (set_broker (shutdown_take (b_broker b)).1 b) engine.

Definition vixen_buffer_release (token : N) (l : Library) : Library * N :=
  let '(b, status) := release token (buffers l) in (set_buffers b l, status).

(** ** Commands *)

(** [drain_renderer_submissions] and the commits it accepted; the turns are one more than the
    submissions there are, which is enough. *)
Definition drain_and_apply : M ControllerEntry Thrown unit :=
  e ← get;
  commits ← on_bridge id (drain_renderer_submissions encoded_size (λ _ s, s)
              (S (length (submissions (b_broker (entry_bridge e))))));
  foldl (λ m commit, _ ← m; on_controller (controller_apply_commit commit)) (mret ()) (default [] commits).

Definition mouse_target (dispatch : RendererMouseEventDispatch) (state : RendererState) : result AbiError (option N) :=
  let mouse := rd_mouse dispatch in
  let query := rd_query dispatch in
  _ ← map_err render_protocol_error (validate_hit_test_query (rs_commits state) (rs_replica state) query);
  commit ← ok_or (presented (rs_commits state))
             (invalid_command (lit "renderer mouse input requires a presented commit"));
  _ ← throw_if (negb (bool_decide (ht_context_id query = md_context_id mouse)) ||
                negb (bool_decide (ht_document_id query = md_document_id mouse)) ||
                negb (f64_eqb (pt_x (ht_point query)) (me_x (md_event mouse))) ||
                negb (f64_eqb (pt_y (ht_point query)) (me_y (md_event mouse))) ||
                negb (vp_width (commit_viewport commit) =? (md_viewport mouse).1)%N ||
                negb (vp_height (commit_viewport commit) =? (md_viewport mouse).2)%N)
        (invalid_command (lit "renderer mouse input does not match its query and viewport"));
  _ ← match rd_target dispatch with
      | Some target => map_err render_protocol_error (validate_input_target (rs_commits state) (rs_replica state) query target)
      | None => Ok tt
      end;
  (* [usize::try_from] of a node identifier succeeds on 64 bits *)
  Ok (target ← rd_target dispatch; id_get <$> nearest_semantic_node_id (rs_replica state) (it_node_id target)).

Definition answer_command (command : ControllerCommand) : M ControllerEntry Thrown ControllerResponse :=
  _ ← drain_and_apply;
  response ← match command with
             | CtlDispatchRendererMouseEvent dispatch =>
                 e ← get;
                 target ← or_fail (mouse_target dispatch (b_state (entry_bridge e)));
                 on_controller (controller_mouse_event (rd_mouse dispatch) target)
             | command => on_controller (controller_dispatch controller_debug command)
             end;
  match response with
  | RspRendererUpdate snapshot =>
      _ ← on_bridge synchronous_renderer_error (publish_renderer_source encoded_size snapshot false);
      mret RspAccepted
  | response => mret response
  end.
Definition start_cdp (port : N) : M ControllerEntry Thrown unit :=
  e ← get;
  _ ← or_fail (throw_if (bool_decide (is_Some (en_cdp e))) (invalid_command (lit "CDP host is already running")));
  host ← or_fail (map_err invalid_command (cdp_start port (co_handle (en_controller e))));
  modify (set_cdp (Some host)).

Definition vixen_command (handle : N) (message : option (list N)) : option VixenBuffer → Library → Library * option VixenBuffer * N :=
  with_output (run_body (
    message ← or_fail (copy_utf8_input message VIXEN_MAX_MESSAGE_BYTES "command message");
    command ← or_fail (parse_command message);
    match command with
    | CtlStartCdp port => _ ← on_entry handle (start_cdp port); write_json (response_message RspAccepted)
    | command => response ← on_entry handle (answer_command command); write_json (response_message response)
    end)).

(** ** Events *)

Definition event_body (handle : N) (timeout : option N) : B bool :=
  '(event, sequence) ← on_entry handle
    (event ← on_controller (match timeout with Some t => wait_next_event t | None => try_next_event end);
     entry ← get;
     mret (event, next_event_sequence entry));
  match event with
  | None => mret false
  | Some event =>
      next_sequence ← or_fail (ok_or (u64_succ sequence) (internal "event sequence exhausted"));
      _ ← write_json (event_message sequence event);
      _ ← modify (on_controllers (alter (set_next_event_sequence next_sequence) handle));
      mret true
  end.
Definition event_impl (handle : N) (timeout : option N) : option VixenBuffer → Library → Library * option VixenBuffer * N :=
  with_output (λ c, match event_body handle timeout c with
                    | (c, Ok true) => (c, VIXEN_STATUS_OK)
                    | (c, Ok false) => (c, VIXEN_STATUS_NO_EVENT)
                    | (c, Err e) => finish_call (Err e) c
                    end).
Definition vixen_poll_event (handle : N) := event_impl handle None.
Definition vixen_wait_event (handle timeout_milliseconds : N) (out : option VixenBuffer) (l : Library) :
    Library * option VixenBuffer * N :=
  if (VIXEN_MAX_WAIT_MILLISECONDS <? timeout_milliseconds)%N
  then with_output (finish_call (Err (Fails (abi_invalid_argument
         (lit "wait timeout exceeds " ++ dec VIXEN_MAX_WAIT_MILLISECONDS ++ lit " milliseconds"))))) out l
  else event_impl handle (Some timeout_milliseconds) out l.

(** ** The renderer *)

Definition vixen_renderer_poll (handle timeout_milliseconds : N) : option VixenBuffer → Library → Library * option VixenBuffer * N :=
  with_output (λ c,
    if (VIXEN_MAX_WAIT_MILLISECONDS <? timeout_milliseconds)%N
    then finish_call (Err (Fails (abi_invalid_argument (lit "renderer poll timeout is too large")))) c
    else
      (* a reservation without a message is dropped *)
      let body : B bool :=
        with_reservation (λ token,
          message ← on_entry handle (on_broker (poll_message broker_now));
          match message with
          | Some message => _ ← write_reserved_json token (RenderWire.message_json message); mret true
          | None => _ ← on_buffers (λ b, (remove token b, Ok tt)); mret false
          end) in
      match body c with
      | (c, Ok true) => (c, VIXEN_STATUS_OK)
      | (c, Ok false) => (c, VIXEN_STATUS_NO_EVENT)
      | (c, Err e) => finish_call (Err e) c
      end).

(** [RenderBroker::respond]: the response goes to its requester, if it still waits. *)
Definition broker_respond (response : RenderBrokerResponse) : M ControllerEntry Thrown unit :=
  p ← on_broker (respond_take (broker_now (resp_request_id response)) (resp_request_id response));
  match respond_answer response p with
  | None => fail Panics
  | Some (_, Err e) => fail (Fails (renderer_broker_error e))
  | Some (_, Ok _) =>
      or_fail (throw_if (negb (requester_waits (resp_request_id response)))
        (renderer_broker_error (RendererBroker.broker_error "render.stale" (lit "renderer response arrived after requester cancellation"))))
  end.
Definition renderer_accepted (type : string) : Value :=
  obj [("v", json_u64 ABI_VERSION); ("type", RenderWire.text_json type)].
(** The order of the three functions that give the renderer's messages to the broker *)
Definition with_broker (handle : N) (m : M ControllerEntry Thrown unit) (type : string) : B unit :=
  with_reservation (λ token, _ ← on_entry handle m; write_reserved_json token (renderer_accepted type)).

Definition vixen_renderer_respond (handle : N) (message : option (list N)) : option VixenBuffer → Library → Library * option VixenBuffer * N :=
  with_output (run_body (
    message ← or_fail (copy_utf8_input message VIXEN_MAX_MESSAGE_BYTES "renderer response");
    response ← or_fail (RenderWire.parse_response message);
    with_broker handle (broker_respond response) "renderer_accepted")).
Definition vixen_renderer_capture_respond (handle request_id : N) (png : option (list Byte.byte)) :
    option VixenBuffer → Library → Library * option VixenBuffer * N :=
  with_output (run_body (
    request_id ← or_fail (ok_or (id_new request_id) (abi_invalid_argument (lit "capture request id must be nonzero")));
    png ← or_fail (ok_or (png ← png; if ((24 <=? len png) && (len png <=? RENDER_MAX_CAPTURE_BYTES))%N then Some png else None)
            (abi_invalid_argument (lit "capture response must be a bounded nonempty PNG")));
    with_broker handle (broker_respond {| resp_version := RENDER_PROTOCOL_VERSION; resp_request_id := request_id;
                                          resp_kind := CapturePng png |}) "renderer_accepted")).
Definition vixen_renderer_submit (handle : N) (message : option (list N)) : option VixenBuffer → Library → Library * option VixenBuffer * N :=
  with_output (run_body (
    message ← or_fail (copy_utf8_input message VIXEN_MAX_MESSAGE_BYTES "renderer submission");
    submission ← or_fail (RenderWire.parse_submission message);
    with_broker handle (on_broker (submit submission)) "renderer_submitted")).
Definition vixen_renderer_shutdown (handle : N) : option VixenBuffer → Library → Library * option VixenBuffer * N :=
  with_output (run_body (with_broker handle (on_broker (λ s, ((shutdown_take s).1, Ok tt))) "renderer_shutdown")).
End abi.
