(* ===== verification/CAbiFacts.v ===== *)
(** * The C interface: theorems

    Whatever threads do, the registry of output buffers holds the texts that were handed out
    and not released; and a call, whatever it is, leaves the registries as they were but for
    the buffer it returns and the controller of its handle. *)

From Stdlib Require Import Lia ZArith Strings.Byte.
From stdpp Require Import base decidable gmap sets list strings fin_map_dom.
From S2P Require Import Prelude.
From S2P Require Import RustFloat.
From S2P Require Import RenderModel.
From S2P Require Import RenderSource.
From S2P Require Import RenderCommit.
From S2P Require Import RenderBridge.
From S2P Require Import RendererBroker.
From S2P Require Import SyncRenderer.
From S2P Require Import RustStr.
From S2P Require Import RustUtf8.
From S2P Require Import Cookie.
From S2P Require Import Store.
From S2P Require Import WebStorage.
From S2P Require Import NetUrl.
From S2P Require Import HttpCache.
From S2P Require Import Network.
From S2P Require Import BrowserApi.
From S2P Require Import BrowserChannel.
From S2P Require Import ExternalResource.
From S2P Require Import BrowserCore.
From S2P Require Import BrowserCommands.
From S2P Require Import Controller.
From S2P Require Import Json.
From S2P Require Import CommandWire.
From S2P Require Import CAbi.

(** ** The registry under all interleavings *)

Section registry.
Context `{SerdeJson}.

(** The registry, the reservations that some call holds, the texts handed out by token, and
    the tokens that were released *)
Record Registry : Type := {
  rg_buffers : Buffers; rg_held : gset N; rg_given : gmap N Value; rg_released : gset N;
}.
Definition Registry_new : Registry := {| rg_buffers := Buffers_new; rg_held := ∅; rg_given := ∅; rg_released := ∅ |}.

(** One access under the lock, by any thread; a release may name any token. *)
Inductive registry_step : Registry → Registry → Prop :=
| rg_reserve w b t : reserve (rg_buffers w) = (b, Ok t) →
    registry_step w {| rg_buffers := b; rg_held := {[t]} ∪ rg_held w; rg_given := rg_given w; rg_released := rg_released w |}
| rg_full w b e : reserve (rg_buffers w) = (b, Err e) →
    registry_step w {| rg_buffers := b; rg_held := rg_held w; rg_given := rg_given w; rg_released := rg_released w |}
| rg_retain w t v b d : t ∈ rg_held w → (text_len v ≤ VIXEN_MAX_OUTPUT_BYTES)%N → retain t v (rg_buffers w) = (b, Ok d) →
    registry_step w {| rg_buffers := b; rg_held := rg_held w ∖ {[t]}; rg_given := <[t := v]> (rg_given w); rg_released := rg_released w |}
| rg_drop w t : t ∈ rg_held w →
    registry_step w {| rg_buffers := remove t (rg_buffers w); rg_held := rg_held w ∖ {[t]}; rg_given := rg_given w;
                       rg_released := rg_released w |}
| rg_release w t b status : release t (rg_buffers w) = (b, status) →
    registry_step w {| rg_buffers := b; rg_held := rg_held w; rg_given := rg_given w;
                       rg_released := (if (status =? VIXEN_STATUS_OK)%N then {[t]} else ∅) ∪ rg_released w |}.

Inductive registry_reachable : Registry → Prop :=
| rg_start : registry_reachable Registry_new
| rg_more w w' : registry_reachable w → registry_step w w' → registry_reachable w'.

Lemma next_token_Ok n kind n' t : next_token n kind = (n', Ok t) → t = n ∧ n' = (n + 1)%N.
Proof. unfold next_token, u64_succ. case_bool_decide; [by intros [= <- <-]|done]. Qed.
Lemma reserve_Ok b b' t : reserve b = (b', Ok t) →
  t = next_buffer b ∧ b' = {| next_buffer := t + 1; live := <[t := None]> (live b) |} ∧ (size (live b) < VIXEN_MAX_OUTSTANDING_BUFFERS)%nat.
Proof.
  unfold reserve. destruct (Nat.leb_spec VIXEN_MAX_OUTSTANDING_BUFFERS (size (live b))); [done|].
  destruct (next_token _ _) as [n [t'|e]] eqn:E; [|done]. intros [= <- ->]. by apply next_token_Ok in E as [-> ->].
Qed.
Lemma reserve_Err b b' e : reserve b = (b', Err e) → b' = b.
Proof.
  unfold reserve. destruct (_ <=? _)%nat; [by intros [= <- _]|]. destruct (next_token _ _) as [n [t'|e']]; [done|].
  by intros [= <- _].
Qed.

Record registry_ok (w : Registry) : Prop := {
  ro_size : (size (live (rg_buffers w)) ≤ VIXEN_MAX_OUTSTANDING_BUFFERS)%nat;
  ro_next : (0 < next_buffer (rg_buffers w))%N;
  ro_live t : is_Some (live (rg_buffers w) !! t) → (0 < t < next_buffer (rg_buffers w))%N;
  ro_held t : t ∈ rg_held w → (0 < t < next_buffer (rg_buffers w))%N ∧ rg_given w !! t = None;
  ro_given t v : rg_given w !! t = Some v → (0 < t < next_buffer (rg_buffers w))%N ∧ (text_len v ≤ VIXEN_MAX_OUTPUT_BYTES)%N;
  ro_released t : t ∈ rg_released w → live (rg_buffers w) !! t = None ∧ (t < next_buffer (rg_buffers w))%N;
  ro_text t v : live (rg_buffers w) !! t = Some (Some v) ↔ rg_given w !! t = Some v ∧ t ∉ rg_released w;
  ro_reserved t : live (rg_buffers w) !! t = Some None → t ∈ rg_held w;
}.

Lemma fresh_not_live w : registry_ok w → live (rg_buffers w) !! next_buffer (rg_buffers w) = None.
Proof. intros Hw. apply eq_None_not_Some. intros Hs%(ro_live _ Hw). lia. Qed.

Lemma step_reserve w b t : registry_ok w → reserve (rg_buffers w) = (b, Ok t) →
  registry_ok {| rg_buffers := b; rg_held := {[t]} ∪ rg_held w; rg_given := rg_given w; rg_released := rg_released w |}.
Proof.
  intros Hw Hr. pose proof (fresh_not_live w Hw) as Hf. pose proof (ro_next _ Hw) as Hn. pose proof (ro_live _ Hw) as Hlive.
  apply reserve_Ok in Hr as (-> & -> & Hs). set (n := next_buffer (rg_buffers w)) in *. split; cbn [rg_buffers rg_held rg_given rg_released next_buffer live].
  - rewrite map_size_insert_None by done. lia.
  - lia.
  - intros t [<-|[_ Ht%Hlive]]%lookup_insert_is_Some; lia.
  - intros t [->%elem_of_singleton|Ht]%elem_of_union; [|destruct (ro_held _ Hw t Ht); split; [lia|done]].
    split; [lia|]. destruct (rg_given w !! n) eqn:Hg; [|done]. apply (ro_given _ Hw) in Hg as [? _]. lia.
  - intros t v Hg. apply (ro_given _ Hw) in Hg as [? ?]. split; [lia|done].
  - intros t Ht. destruct (ro_released _ Hw t Ht) as [Hl Hlt]. rewrite lookup_insert_ne by lia. split; [done|lia].
  - intros t v. destruct (decide (t = n)) as [->|Hne].
    + rewrite lookup_insert_eq. split; [done|]. intros [Hg _]. apply (ro_given _ Hw) in Hg as [? _]. lia.
    + rewrite lookup_insert_ne by done. apply (ro_text _ Hw).
  - intros t. destruct (decide (t = n)) as [->|Hne]; [set_solver|]. rewrite lookup_insert_ne by done. intros Ht%(ro_reserved _ Hw). set_solver.
Qed.

Lemma size_overwrite {A} (m : gmap N A) t x : is_Some (m !! t) → size (<[t := x]> m) = size m.
Proof. apply map_size_insert_Some. Qed.

Lemma step_retain w t v b d : registry_ok w → t ∈ rg_held w → (text_len v ≤ VIXEN_MAX_OUTPUT_BYTES)%N → retain t v (rg_buffers w) = (b, Ok d) →
  registry_ok {| rg_buffers := b; rg_held := rg_held w ∖ {[t]}; rg_given := <[t := v]> (rg_given w); rg_released := rg_released w |}.
Proof.
  intros Hw Ht Hv. unfold retain. destruct (live (rg_buffers w) !! t) as [x|] eqn:Hl; [|done]. intros [= <- _].
  destruct (ro_held _ Hw t Ht) as [Hrange Hg]. split; cbn [rg_buffers rg_held rg_given rg_released next_buffer live set_live].
  - rewrite size_overwrite by done. apply (ro_size _ Hw).
  - apply (ro_next _ Hw).
  - intros k [-> |[_ Hk]]%lookup_insert_is_Some; [done|]. by apply (ro_live _ Hw).
  - intros k [Hk Hne]%elem_of_difference. rewrite lookup_insert_ne by set_solver. by apply (ro_held _ Hw).
  - intros k u [[<- <-]|[_ Hk]]%lookup_insert_Some; [done|]. by apply (ro_given _ Hw).
  - intros k Hk. destruct (ro_released _ Hw k Hk) as [Hkl ?]. rewrite lookup_insert_ne by congruence. done.
  - intros k u. destruct (decide (k = t)) as [->|Hne].
    + rewrite !lookup_insert_eq. split; [|by intros [[= <-] _]]. intros [= <-]. split; [done|]. intros [Hn _]%(ro_released _ Hw). congruence.
    + rewrite !lookup_insert_ne by done. apply (ro_text _ Hw).
  - intros k. destruct (decide (k = t)) as [->|Hne]; [by rewrite lookup_insert_eq|]. rewrite lookup_insert_ne by done.
    intros Hk%(ro_reserved _ Hw). set_solver.
Qed.

Lemma size_remove (m : gmap N (option Value)) t : (size (delete t m) ≤ size m)%nat.
Proof. rewrite map_size_delete. destruct (m !! t); cbn; lia. Qed.

Lemma step_drop w t : registry_ok w → t ∈ rg_held w →
  registry_ok {| rg_buffers := remove t (rg_buffers w); rg_held := rg_held w ∖ {[t]}; rg_given := rg_given w; rg_released := rg_released w |}.
Proof.
  intros Hw Ht. destruct (ro_held _ Hw t Ht) as [Hrange Hg]. split; cbn [rg_buffers rg_held rg_given rg_released next_buffer live set_live remove].
  - etrans; [apply size_remove|apply (ro_size _ Hw)].
  - apply (ro_next _ Hw).
  - intros k [x [_ Hk]%lookup_delete_Some]. by apply (ro_live _ Hw).
  - intros k [Hk _]%elem_of_difference. by apply (ro_held _ Hw).
  - apply (ro_given _ Hw).
  - intros k [Hk ?]%(ro_released _ Hw). split; [|done]. by apply lookup_delete_None; right.
  - intros k v. rewrite lookup_delete_Some, (ro_text _ Hw). split; [tauto|]. intros [Hk ?]. split; [|done]. congruence.
  - intros k [Hne Hk%(ro_reserved _ Hw)]%lookup_delete_Some. set_solver.
Qed.

Lemma step_release w t b status : registry_ok w → release t (rg_buffers w) = (b, status) →
  registry_ok {| rg_buffers := b; rg_held := rg_held w; rg_given := rg_given w;
                 rg_released := (if (status =? VIXEN_STATUS_OK)%N then {[t]} else ∅) ∪ rg_released w |}.
Proof.
  intros Hw. unfold release. destruct (N.eqb_spec t 0).
  { intros [= <- <-]. cbn [N.eqb VIXEN_STATUS_OK VIXEN_STATUS_UNKNOWN_BUFFER]. rewrite (left_id_L ∅ (∪)). by destruct w. }
  destruct (live (rg_buffers w) !! t) as [x|] eqn:Hl; intros [= <- <-]; cbn [N.eqb VIXEN_STATUS_OK VIXEN_STATUS_UNKNOWN_BUFFER].
  2: { rewrite (left_id_L ∅ (∪)). by destruct w. }
  pose proof (ro_live _ Hw t (mk_is_Some _ _ Hl)) as Hrange. split; cbn [rg_buffers rg_held rg_given rg_released next_buffer live set_live remove].
  - etrans; [apply size_remove|apply (ro_size _ Hw)].
  - apply (ro_next _ Hw).
  - intros k [y [_ Hk]%lookup_delete_Some]. by apply (ro_live _ Hw).
  - apply (ro_held _ Hw).
  - apply (ro_given _ Hw).
  - intros k [->%elem_of_singleton|[Hk ?]%(ro_released _ Hw)]%elem_of_union; [split; [apply lookup_delete_eq|lia]|].
    split; [|done]. by apply lookup_delete_None; right.
  - intros k v. rewrite lookup_delete_Some, (ro_text _ Hw), not_elem_of_union, not_elem_of_singleton.
    split; intros (? & ? & ?); repeat split; congruence.
  - intros k [Hne Hk%(ro_reserved _ Hw)]%lookup_delete_Some. done.
Qed.

Lemma registry_step_ok w w' : registry_ok w → registry_step w w' → registry_ok w'.
Proof.
  intros Hw Hs. destruct Hs as [w b t Hr|w b e Hr|w t v b d Ht Hv Hr|w t Ht|w t b status Hr].
  - by apply step_reserve.
  - apply reserve_Err in Hr as ->. by destruct w.
  - by eapply step_retain.
  - by apply step_drop.
  - by apply step_release.
Qed.
Lemma registry_reachable_ok w : registry_reachable w → registry_ok w.
Proof.
  induction 1 as [|w w' _ IH Hs]; [|by eapply registry_step_ok]. split; cbn [Registry_new Buffers_new rg_buffers rg_held rg_given rg_released live next_buffer].
  - rewrite map_size_empty. lia.
  - done.
  - intros t. by rewrite lookup_empty, is_Some_alt.
  - intros t. set_solver.
  - done.
  - intros t. set_solver.
  - intros t v. rewrite !lookup_empty. naive_solver.
  - done.
Qed.

(** C38. Output buffers are neither lost nor shared.  However the calls of any number of threads
    interleave, and whatever tokens callers release: at most 64 buffers are outstanding; the
    texts in the registry are exactly those that were handed out and not released; a buffer
    without a text belongs to a call that still runs; the text of a token never changes, no
    token is given twice and none is zero; and a release succeeds exactly while the token is
    live, so that each handed-out buffer is released once. *)
Theorem buffers_accounted w : registry_reachable w →
  (size (live (rg_buffers w)) ≤ VIXEN_MAX_OUTSTANDING_BUFFERS)%nat ∧
  (∀ t v, live (rg_buffers w) !! t = Some (Some v) ↔ rg_given w !! t = Some v ∧ t ∉ rg_released w) ∧
  (∀ t, live (rg_buffers w) !! t = Some None → t ∈ rg_held w) ∧
  (∀ t v, rg_given w !! t = Some v → (0 < t)%N ∧ (text_len v ≤ VIXEN_MAX_OUTPUT_BYTES)%N ∧
     ((release t (rg_buffers w)).2 = VIXEN_STATUS_OK ↔ t ∉ rg_released w)) ∧
  (∀ w' t v, registry_step w w' → rg_given w !! t = Some v → rg_given w' !! t = Some v).
Proof.
  intros Hr. pose proof (registry_reachable_ok w Hr) as Hw. split; [apply (ro_size _ Hw)|]. split; [apply (ro_text _ Hw)|].
  split; [apply (ro_reserved _ Hw)|]. split.
  - intros t v Hg. destruct (ro_given _ Hw t v Hg) as [[Ht _] Hv]. split; [done|]. split; [done|].
    unfold release. rewrite (proj2 (N.eqb_neq t 0)) by lia. pose proof (ro_text _ Hw t v) as Ht'.
    destruct (live (rg_buffers w) !! t) as [x|] eqn:Hl; cbn; split; try done.
    + intros _ [Hn _]%(ro_released _ Hw). congruence.
    + intros Hn. assert (None = Some (Some v)); [|done]. by apply Ht'.
  - intros w' t v Hs Hg. destruct Hs as [| |w k u b d Hk| |]; cbn; try exact Hg.
    destruct (ro_held _ Hw k Hk) as [_ Hn]. rewrite lookup_insert_ne by congruence. exact Hg.
Qed.
End registry.

(** A buffer is reserved, filled and released. *)
Definition no_reading : SerdeJson := toy_json (λ _, Err []).
Lemma buffers_accounted_witness :
  let w := {| rg_buffers := {| next_buffer := 2; live := ∅ |}; rg_held := ∅; rg_given := {[1%N := ToyNull]}; rg_released := {[1%N]} |}
    : Registry (H := no_reading) in
  registry_reachable (H := no_reading) w ∧ (release (H := no_reading) 1 (rg_buffers w)).2 ≠ VIXEN_STATUS_OK.
Proof.
  intros w.
  assert (registry_reachable (H := no_reading) w) as Hr.
  { eapply (rg_more (H := no_reading)).
    - eapply rg_more; [eapply rg_more; [apply rg_start|eapply rg_reserve; reflexivity]|].
      eapply (rg_retain (H := no_reading) _ 1 ToyNull); [cbn; set_solver|done|reflexivity].
    - match goal with |- registry_step ?u _ => exact (rg_release (H := no_reading) u 1 _ _ eq_refl) end. }
  split; [exact Hr|]. destruct (buffers_accounted (H := no_reading) w Hr) as (_ & _ & _ & Hg & _).
  destruct (Hg 1%N ToyNull eq_refl) as (_ & _ & Hrel). rewrite Hrel. set_solver.
Defined.

(** ** The calls *)

Section calls.
Context `{SerdeJson}.
Context `{Platform, UrlPlatform, HttpDate, ErrorText, PageEngine, StorePlatform, RuntimeType} `{!ScriptEngine}.
Context `{!PageCommands} `{!EngineBrowserHandle} `{!AbiBoundary}.

Inductive AbiCall : Type :=
| CallOpen (profile_path : option (list N)) (out_handle : option N)
| CallDestroy (handle : N)
| CallCommand (handle : N) (message : option (list N))
| CallPollEvent (handle : N)
| CallWaitEvent (handle timeout : N)
| CallBufferRelease (token : N)
| CallRendererPoll (handle timeout : N)
| CallRendererRespond (handle : N) (message : option (list N))
| CallRendererCapture (handle request_id : N) (png : option (list Byte.byte))
| CallRendererSubmit (handle : N) (message : option (list N))
| CallRendererShutdown (handle : N).

Definition run_call (call : AbiCall) (out : option VixenBuffer) (l : Library) : Library * option VixenBuffer * N :=
  match call with
  | CallOpen path out_handle => let '(l, out, _, status) := vixen_open path out_handle out l in (l, out, status)
  | CallDestroy handle => let '(l, status) := vixen_destroy handle l in (l, out, status)
  | CallCommand handle message => vixen_command handle message out l
  | CallPollEvent handle => vixen_poll_event handle out l
  | CallWaitEvent handle timeout => vixen_wait_event handle timeout out l
  | CallBufferRelease token => let '(l, status) := vixen_buffer_release token l in (l, out, status)
  | CallRendererPoll handle timeout => vixen_renderer_poll handle timeout out l
  | CallRendererRespond handle message => vixen_renderer_respond handle message out l
  | CallRendererCapture handle request_id png => vixen_renderer_capture_respond handle request_id png out l
  | CallRendererSubmit handle message => vixen_renderer_submit handle message out l
  | CallRendererShutdown handle => vixen_renderer_shutdown handle out l
  end.
(** The controller that a call may change *)
Definition subject (call : AbiCall) (l : Library) : N :=
  match call with
  | CallOpen _ _ => next_handle l
  | CallBufferRelease _ => 0
  | CallDestroy handle | CallCommand handle _ | CallPollEvent handle | CallWaitEvent handle _ | CallRendererPoll handle _
  | CallRendererRespond handle _ | CallRendererCapture handle _ _ | CallRendererSubmit handle _ | CallRendererShutdown handle => handle
  end.

Local Abbreviation texts l := (live (buffers l)).
Local Abbreviation next l := (next_buffer (buffers l)).

Record library_ok (l : Library) : Prop := {
  lo_size : (size (texts l) ≤ VIXEN_MAX_OUTSTANDING_BUFFERS)%nat;
  lo_next : (0 < next l)%N;
  lo_texts t x : texts l !! t = Some x → (0 < t < next l)%N ∧ is_Some x;
  lo_handle : (0 < next_handle l)%N;
  lo_controllers k : is_Some (controllers l !! k) → (0 < k < next_handle l)%N;
}.

(** [l'] differs from [l] in the controller [h] at most, and not in that it is there. *)
Definition elsewhere (h : N) (l l' : Library) : Prop :=
  next_handle l' = next_handle l ∧ (∀ k, k ≠ h → controllers l' !! k = controllers l !! k) ∧
  (is_Some (controllers l' !! h) ↔ is_Some (controllers l !! h)).
Lemma elsewhere_refl h l : elsewhere h l l.
Proof. by split. Qed.
Lemma elsewhere_trans h l1 l2 l3 : elsewhere h l1 l2 → elsewhere h l2 l3 → elsewhere h l1 l3.
Proof. intros (Hn & Hk & Hh) (Hn' & Hk' & Hh'). split; [congruence|]. split; [|tauto]. intros k Hne. rewrite Hk', Hk by done. done. Qed.

(** The buffers and the output as they were *)
Definition kept (c c' : Call) : Prop :=
  texts (c_library c') = texts (c_library c) ∧ (next (c_library c) ≤ next (c_library c'))%N ∧ c_out c' = c_out c.
(** One text more, and it is the output *)
Definition wrote (c c' : Call) : Prop :=
  ∃ t v, (next (c_library c) ≤ t < next (c_library c'))%N ∧ texts (c_library c') = <[t := Some v]> (texts (c_library c)) ∧
    c_out c' = {| vb_token := t; vb_text := Some v |} ∧ (text_len v ≤ VIXEN_MAX_OUTPUT_BYTES)%N ∧
    (size (texts (c_library c)) < VIXEN_MAX_OUTSTANDING_BUFFERS)%nat.
Lemma kept_refl c : kept c c.
Proof. by split. Qed.
Lemma kept_trans c1 c2 c3 : kept c1 c2 → kept c2 c3 → kept c1 c3.
Proof. intros (Ht & Hn & Ho) (Ht' & Hn' & Ho'). split; [congruence|]. split; [lia|congruence]. Qed.
Lemma kept_wrote c1 c2 c3 : kept c1 c2 → wrote c2 c3 → wrote c1 c3.
Proof.
  intros (Ht & Hn & Ho) (t & v & Hr & Hl & Ho' & Hv & Hs). exists t, v. rewrite Ht in Hl, Hs. repeat split; try done. all: lia.
Qed.
Lemma wrote_kept c1 c2 c3 : wrote c1 c2 → kept c2 c3 → wrote c1 c3.
Proof.
  intros (t & v & Hr & Hl & Ho & Hv & Hs) (Ht & Hn & Ho'). exists t, v. rewrite Ht, Ho'. repeat split; try done. all: lia.
Qed.

(** No token from the next one on is in use. *)
Definition unused_tokens (c : Call) : Prop := ∀ t, (next (c_library c) ≤ t)%N → texts (c_library c) !! t = None.
Lemma kept_unused c c' : kept c c' → unused_tokens c → unused_tokens c'.
Proof. intros (Ht & Hn & _) Hu t Hle. rewrite Ht. apply Hu. lia. Qed.

(** A body that works on the controller [h]: it keeps the buffers and the output, except that
    it writes one text when it succeeds with a result of which [filled] holds. *)
Definition accounts {A} (filled : A → bool) (h : N) (m : M Call Thrown A) : Prop :=
  ∀ c, unused_tokens c → let '(c', r) := m c in
    elsewhere h (c_library c) (c_library c') ∧
    match r with Ok a => if filled a then wrote c c' else kept c c' | Err _ => kept c c' end.
Local Abbreviation keeps := (accounts (λ _, false)).

Lemma accounts_bind {A B} filled h (m : M Call Thrown A) (k : A → M Call Thrown B) :
  keeps h m → (∀ a, accounts filled h (k a)) → accounts filled h (m ≫= k).
Proof.
  intros Hm Hk c Hu. unfold mbind, M_bind. specialize (Hm c Hu). destruct (m c) as [c1 [a|e]]; destruct Hm as [He Hkept]; [|by split].
  specialize (Hk a c1 (kept_unused _ _ Hkept Hu)). destruct (k a c1) as [c2 r]. destruct Hk as [He' Hr]. split; [by eapply elsewhere_trans|].
  destruct r as [b|e]; [destruct (filled b)|]; eauto using kept_trans, kept_wrote.
Qed.
Lemma accounts_lift {A} h (r : result Thrown A) : keeps h (lift r).
Proof. intros c _. cbn. split; [apply elsewhere_refl|]. destruct r; apply kept_refl. Qed.
Lemma accounts_on_entry {A} h (m : M ControllerEntry Thrown A) : keeps h (on_entry h m).
Proof.
  intros c _. unfold on_entry, controller_entry. destruct (N.eqb_spec h 0); cbn; [split; [apply elsewhere_refl|apply kept_refl]|].
  destruct (controllers (c_library c) !! h) as [e|] eqn:Hh; cbn; [|split; [apply elsewhere_refl|apply kept_refl]].
  destruct (m e) as [e' r]. split; [|by destruct r]. split; [done|]. cbn. split; [intros k Hne; by rewrite lookup_insert_ne|].
  rewrite lookup_insert_eq, Hh. split; by intros _.
Qed.

(** A body that is given a reserved token: it fills it or gives it back. *)
Definition fills {A} (filled : A → bool) (h : N) (body : N → M Call Thrown A) : Prop :=
  ∀ token c, texts (c_library c) !! token = Some None → let '(c', r) := body token c in
    elsewhere h (c_library c) (c_library c') ∧ next (c_library c') = next (c_library c) ∧
    match r with
    | Ok a => if filled a
              then ∃ v, texts (c_library c') = <[token := Some v]> (texts (c_library c)) ∧
                        c_out c' = {| vb_token := token; vb_text := Some v |} ∧ (text_len v ≤ VIXEN_MAX_OUTPUT_BYTES)%N
              else texts (c_library c') = delete token (texts (c_library c)) ∧ c_out c' = c_out c
    | Err _ => texts (c_library c') = texts (c_library c) ∧ c_out c' = c_out c
    end.

Lemma accounts_reservation {A} filled h (body : N → M Call Thrown A) : fills filled h body → accounts filled h (with_reservation body).
Proof.
  intros Hb c Hu. unfold with_reservation, on_buffers. destruct (reserve (buffers (c_library c))) as [b [t|e]] eqn:Hr; cbn.
  2: { apply reserve_Err in Hr as ->. by repeat split. }
  apply reserve_Ok in Hr as (Ht & -> & Hs). specialize (Hu t ltac:(lia)).
  set (c1 := set_library _ c). specialize (Hb t c1 ltac:(apply lookup_insert_eq)).
  assert (elsewhere h (c_library c) (c_library c1)) as He1 by done.
  destruct (body t c1) as [c2 [a|e]]; destruct Hb as (He & Hn & Hb).
  - split; [by eapply elsewhere_trans|]. cbn in Hn. destruct (filled a).
    + destruct Hb as (v & Htx & Ho & Hv). exists t, v. cbn in Htx. rewrite insert_insert_eq in Htx. repeat split; try done; lia.
    + destruct Hb as [Htx Ho]. cbn in Htx. rewrite delete_insert_id in Htx by done. repeat split; try done. lia.
  - destruct Hb as [Htx Ho]. cbn in Htx, Hn. split; [by eapply elsewhere_trans|]. repeat split; cbn; [|lia|done].
    rewrite Htx. by rewrite delete_insert_id.
Qed.
Lemma fills_write h v : fills (λ _, true) h (λ t, write_reserved_json t v).
Proof.
  intros t c Ht. unfold write_reserved_json, or_fail, on_buffers, retain, lift, mbind, M_bind, throw_if, modify.
  destruct (N.ltb_spec VIXEN_MAX_OUTPUT_BYTES (text_len v)) as [Hv|Hv]; cbn; [by split|]. rewrite Ht. cbn.
  split; [done|]. split; [done|]. by exists v.
Qed.
Lemma fills_entry {A X} filled h (m : M ControllerEntry Thrown X) (k : X → N → M Call Thrown A) :
  (∀ x, fills filled h (k x)) → fills filled h (λ t, on_entry h m ≫= λ x, k x t).
Proof.
  intros Hk t c Ht. unfold mbind, M_bind. pose proof (accounts_on_entry h m c) as Hm.
  assert (buffers (c_library (on_entry h m c).1) = buffers (c_library c) ∧ c_out (on_entry h m c).1 = c_out c) as [Hb Ho].
  { unfold on_entry. destruct (controller_entry _ _) as [e|]; [|done]. by destruct (m e). }
  assert (elsewhere h (c_library c) (c_library (on_entry h m c).1)) as He.
  { clear - h. unfold on_entry, controller_entry. destruct (N.eqb_spec h 0); cbn; [apply elsewhere_refl|].
    destruct (controllers (c_library c) !! h) as [e|] eqn:Hh; cbn; [|apply elsewhere_refl].
    destruct (m e) as [e' r]. split; [done|]. cbn. split; [intros k Hne; by rewrite lookup_insert_ne|].
    rewrite lookup_insert_eq, Hh. split; by intros _. }
  clear Hm. destruct (on_entry h m c) as [c1 [x|e]]; cbn in Hb, Ho, He.
  - specialize (Hk x t c1). rewrite Hb in Hk. specialize (Hk Ht). destruct (k x t c1) as [c2 r]. rewrite Ho in Hk.
    destruct Hk as (He' & Hn & Hr). split; [by eapply elsewhere_trans|]. split; [exact Hn|exact Hr].
  - rewrite Hb. split; [exact He|]. by split.
Qed.
Lemma accounts_write h v : accounts (λ _, true) h (write_json v).
Proof. apply accounts_reservation, fills_write. Qed.
Lemma accounts_broker h m type : accounts (λ _, true) h (with_broker h m type).
Proof. apply accounts_reservation, fills_entry. intros _. apply fills_write. Qed.

(** What goes wrong when a text is written is told by a status of its own. *)
Lemma write_json_error v c c' x : write_json v c = (c', Err x) → ∃ e, x = Fails e ∧ abi_status e ≠ VIXEN_STATUS_OK.
Proof.
  unfold write_json, with_reservation, on_buffers. destruct (reserve (buffers (c_library c))) as [b [t|e]] eqn:Hr; cbn.
  - unfold write_reserved_json, or_fail, on_buffers, retain, lift, mbind, M_bind, throw_if, modify.
    destruct (_ <? _)%N; cbn; [intros [= _ <-]; by eexists|].
    destruct (_ !! t); cbn; [done|]. intros [= _ <-]. by eexists.
  - intros [= _ <-]. exists e. split; [done|]. unfold reserve in Hr. destruct (_ <=? _)%nat; [by injection Hr as _ <-|].
    unfold next_token in Hr. destruct (u64_succ _); [done|]. by injection Hr as _ <-.
Qed.

Lemma write_controllers v c :
  controllers (c_library (write_json v c).1) = controllers (c_library c) ∧
  next_handle (c_library (write_json v c).1) = next_handle (c_library c).
Proof.
  unfold write_json, with_reservation, on_buffers. destruct (reserve (buffers (c_library c))) as [b [t|e]]; [|done]. cbn.
  unfold write_reserved_json, or_fail, on_buffers, retain, lift, mbind, M_bind, throw_if, modify.
  destruct (_ <? _)%N; [done|]. cbn. by destruct (_ !! t).
Qed.

(** [finish_call] writes the message of an error, if it can. *)
Lemma finish_accounts h r c : unused_tokens c → let '(c', status) := finish_call r c in
  elsewhere h (c_library c) (c_library c') ∧
  (if is_ok r then c' = c ∧ status = VIXEN_STATUS_OK else wrote c c' ∨ (kept c c' ∧ status ≠ VIXEN_STATUS_OK)).
Proof.
  intros Hu. unfold finish_call. destruct r as [[]|[e|]]; [by split; [apply elsewhere_refl|]| |].
  2: { split; [apply elsewhere_refl|]. right. split; [apply kept_refl|done]. }
  pose proof (accounts_write h (error_message e) c Hu) as Hw. pose proof (write_json_error (error_message e) c) as Hs.
  destruct (write_json _ c) as [c' [[]|x]]; destruct Hw as [He Hw]; [by split; [|left]|].
  destruct (Hs c' x eq_refl) as (we & -> & Hne). split; [exact He|]. by right.
Qed.
Lemma finish_controllers r c :
  controllers (c_library (finish_call r c).1) = controllers (c_library c) ∧ next_handle (c_library (finish_call r c).1) = next_handle (c_library c).
Proof.
  unfold finish_call. destruct r as [[]|[e|]]; [done| |done]. pose proof (write_controllers (error_message e) c) as Hw.
  by destruct (write_json _ c) as [c' [[]|[]]].
Qed.
(** What a call that returns a text does *)
Definition answered (h : N) (c : Call) (x : Call * N) : Prop :=
  elsewhere h (c_library c) (c_library x.1) ∧ (wrote c x.1 ∨ (kept c x.1 ∧ x.2 ≠ VIXEN_STATUS_OK)).
Lemma answered_finish {A} (filled : A → bool) h (body : M Call Thrown A) c c' e :
  accounts filled h body → unused_tokens c → body c = (c', Err e) → answered h c (finish_call (Err e) c').
Proof.
  intros Hb Hu Heq. specialize (Hb c Hu). rewrite Heq in Hb. destruct Hb as [He Hk].
  pose proof (finish_accounts h (Err e) c' (kept_unused _ _ Hk Hu)) as Hf. destruct (finish_call _ c') as [c2 status]. destruct Hf as [He' Hf].
  split; [by eapply elsewhere_trans|]. cbn. destruct Hf as [Hw|[Hk' Hs]]; [left; by eapply kept_wrote|right]. split; [by eapply kept_trans|done].
Qed.
Lemma run_body_answered h (body : M Call Thrown unit) c :
  accounts (λ _, true) h body → unused_tokens c → answered h c (run_body body c).
Proof.
  intros Hb Hu. unfold run_body. destruct (body c) as [c' [[]|e]] eqn:Heq; [|by eapply answered_finish].
  specialize (Hb c Hu). rewrite Heq in Hb. destruct Hb as [He Hw]. split; [exact He|by left].
Qed.
Lemma event_answered h (body : M Call Thrown bool) c : accounts id h body → unused_tokens c →
  answered h c (match body c with
                | (c, Ok true) => (c, VIXEN_STATUS_OK)
                | (c, Ok false) => (c, VIXEN_STATUS_NO_EVENT)
                | (c, Err e) => finish_call (Err e) c
                end).
Proof.
  intros Hb Hu. destruct (body c) as [c' [[]|e]] eqn:Heq; [| |by eapply answered_finish];
    specialize (Hb c Hu); rewrite Heq in Hb; destruct Hb as [He Hw]; (split; [exact He|]); [by left|by right].
Qed.

Lemma failed_answered h e c : unused_tokens c → answered h c (finish_call (Err (Fails e)) c).
Proof.
  intros Hu. pose proof (finish_accounts h (Err (Fails e)) c Hu) as Hf. unfold answered. by destruct (finish_call _ c).
Qed.
Lemma or_fail_keeps {A} h (r : result AbiError A) : keeps h (or_fail r).
Proof. apply accounts_lift. Qed.
Ltac account :=
  repeat first
    [ apply accounts_write | apply accounts_broker
    | apply accounts_bind; [first [apply or_fail_keeps | apply accounts_on_entry]|intros ?]
    | match goal with |- accounts _ _ (match ?x with _ => _ end) => destruct x end ].

Lemma command_answered h message c : unused_tokens c → answered h c (run_body (
    message ← or_fail (copy_utf8_input message VIXEN_MAX_MESSAGE_BYTES "command message");
    command ← or_fail (parse_command message);
    match command with
    | CtlStartCdp port => _ ← on_entry h (start_cdp port); write_json (response_message RspAccepted)
    | command => response ← on_entry h (answer_command command); write_json (response_message response)
    end) c).
Proof. apply run_body_answered. account. Qed.

Lemma event_body_accounts h timeout : accounts id h (event_body h timeout).
Proof.
  unfold event_body. apply accounts_bind; [apply accounts_on_entry|]. intros [event sequence]. destruct event as [event|].
  2: { intros c _. split; [apply elsewhere_refl|apply kept_refl]. }
  apply accounts_bind; [apply or_fail_keeps|]. intros n c Hu. pose proof (accounts_write h (event_message sequence event) c Hu) as Hw.
  unfold mbind, M_bind. destruct (write_json _ c) as [c' [[]|e]]; destruct Hw as [He Hw]; [|by split]. unfold modify. cbn.
  split; [|exact Hw]. eapply elsewhere_trans; [exact He|]. split; [done|]. cbn. split; [intros k Hne; by rewrite lookup_alter_ne|].
  by rewrite lookup_alter_eq, fmap_is_Some.
Qed.

Lemma poll_accounts h : accounts id h (with_reservation (λ token,
  message ← on_entry h (on_broker (poll_message broker_now));
  match message with
  | Some message => _ ← write_reserved_json token (RenderWire.message_json message); mret true
  | None => _ ← on_buffers (λ b, (remove token b, Ok tt)); mret false
  end)).
Proof.
  apply accounts_reservation, (fills_entry id h _ (λ message token, _)). intros [message|] t c Ht.
  - pose proof (fills_write h (RenderWire.message_json message) t c Ht) as Hw. unfold mbind, M_bind.
    destruct (write_reserved_json t (RenderWire.message_json message) c) as [c' [[]|e]]; exact Hw.
  - cbn. split; [done|]. by split.
Qed.

(** ** Opening *)

Lemma open_body_spec path c : unused_tokens c → (∀ k, is_Some (controllers (c_library c) !! k) → (0 < k < next_handle (c_library c))%N) →
  let '(c', r) := open_body path c in
  (next_handle (c_library c) ≤ next_handle (c_library c'))%N ∧
  match r with
  | Ok handle => handle = next_handle (c_library c) ∧ next_handle (c_library c') = (handle + 1)%N ∧ wrote c c' ∧
      ∃ e, controllers (c_library c') = <[handle := e]> (controllers (c_library c))
  | Err _ => kept c c' ∧ controllers (c_library c') = controllers (c_library c)
  end.
Proof.
  intros Hu Hc. unfold open_body, or_fail, lift. unfold mbind, M_bind.
  destruct (map_err Fails (copy_utf8_input _ _ _)) as [p|e]; [|split; [done|by split; [apply kept_refl|]]].
  destruct (map_err Fails (throw_if _ _)) as [?|e]; [|split; [done|by split; [apply kept_refl|]]].
  destruct (map_err Fails (map_err _ _)) as [controller|e]; [|split; [done|by split; [apply kept_refl|]]].
  unfold take_handle. destruct (next_token (next_handle (c_library c)) "browser handle") as [n [h|e]] eqn:Hn; cbn [map_err].
  2: { unfold next_token in Hn. destruct (u64_succ _); [done|]. injection Hn as <- _. split; [done|]. split; [by repeat split|done]. }
  apply next_token_Ok in Hn as [-> ->]. unfold modify, announce_opened. set (h := next_handle (c_library c)) in *.
  assert (controllers (c_library c) !! h = None) as Hnone.
  { apply eq_None_not_Some. intros Hs%Hc. unfold h in Hs. lia. }
  match goal with |- context [write_json opened_json ?x] => set (c1 := x) end.
  assert (kept c c1) as Hk1 by by repeat split.
  pose proof (accounts_write 0 opened_json c1 (kept_unused _ _ Hk1 Hu)) as Hw.
  assert (controllers (c_library (write_json opened_json c1).1) = controllers (c_library c1) ∧
          next_handle (c_library (write_json opened_json c1).1) = next_handle (c_library c1)) as [Hcs Hnh] by apply write_controllers.
  destruct (write_json opened_json c1) as [c2 [[]|e]]; cbn [fst] in Hcs, Hnh; destruct Hw as [_ Hw].
  - split; [rewrite Hnh; cbn; lia|]. split; [done|]. split; [by rewrite Hnh|]. split; [by eapply kept_wrote|]. eexists. by rewrite Hcs.
  - split; [cbn; rewrite Hnh; cbn; lia|]. split; [destruct (kept_trans _ _ _ Hk1 Hw) as (? & ? & ?); by repeat split|].
    cbn. rewrite Hcs. cbn. by rewrite delete_insert_id.
Qed.

(** ** Theorems *)

Definition entered (l : Library) : Call := {| c_library := l; c_out := EMPTY |}.
Lemma entered_unused l : library_ok l → unused_tokens (entered l).
Proof.
  intros Hl t Ht. apply eq_None_not_Some. intros [x Hx]. cbn in Ht, Hx. apply (lo_texts _ Hl) in Hx as [? _]. lia.
Qed.

(** What a call with an output does to the registry of buffers: it adds the text that it
    returns, under a new token, or it returns none and adds none. *)
Definition returned (l : Library) (x : Library * option VixenBuffer * N) : Prop :=
  let '(l', out, status) := x in
  (∃ t v, out = Some {| vb_token := t; vb_text := Some v |} ∧ (0 < t)%N ∧ texts l !! t = None ∧
          texts l' = <[t := Some v]> (texts l) ∧ (text_len v ≤ VIXEN_MAX_OUTPUT_BYTES)%N) ∨
  (out = Some EMPTY ∧ texts l' = texts l ∧ status ≠ VIXEN_STATUS_OK).
(** The registries after it are as they should be, and so is what it returned. *)
Lemma call_done l c status n : library_ok l → (next_handle l ≤ n)%N →
  (∀ k, is_Some (controllers (c_library c) !! k) → (0 < k < n)%N) → next_handle (c_library c) = n →
  wrote (entered l) c ∨ (kept (entered l) c ∧ status ≠ VIXEN_STATUS_OK) →
  library_ok (c_library c) ∧ returned l (c_library c, Some (c_out c), status).
Proof.
  intros Hl Hn Hcs Hh Hw. pose proof (lo_handle _ Hl) as Hpos. pose proof (lo_next _ Hl) as Hnext.
  destruct Hw as [(t & v & Hr & Ht & Ho & Hv & Hs)|[(Ht & Hr & Ho) Hst]]; cbn in Ht, Hr.
  - pose proof (entered_unused l Hl t ltac:(cbn; lia)) as Hfresh. cbn in Hfresh, Hs. split.
    + split; [|lia| |lia|by rewrite Hh].
      * rewrite Ht, map_size_insert_None by done. unfold VIXEN_MAX_OUTSTANDING_BUFFERS in *. lia.
      * intros k x. rewrite Ht. intros [[<- <-]|[_ Hk]]%lookup_insert_Some; [split; [lia|done]|].
        apply (lo_texts _ Hl) in Hk as [? ?]. split; [lia|done].
    + left. exists t, v. rewrite Ho. repeat split; try done. lia.
  - split.
    + split; [rewrite Ht; apply (lo_size _ Hl)|lia| |lia|by rewrite Hh].
      intros k x. rewrite Ht. intros Hk. apply (lo_texts _ Hl) in Hk as [? ?]. split; [lia|done].
    + right. rewrite Ho. by repeat split.
Qed.

Lemma elsewhere_controllers h l l' : library_ok l → elsewhere h l l' → ∀ k, is_Some (controllers l' !! k) → (0 < k < next_handle l)%N.
Proof.
  intros Hl (_ & Hk & Hh) k Hs. apply (lo_controllers _ Hl). destruct (decide (k = h)) as [->|Hne]; [by apply Hh|]. by rewrite <- Hk.
Qed.

(** A call on a handle with an output *)
Lemma with_output_done h body l : library_ok l → (∀ c, unused_tokens c → answered h c (body c)) →
  let '(l', out, status) := with_output body (Some EMPTY) l in
  library_ok l' ∧ elsewhere h l l' ∧ returned l (l', out, status).
Proof.
  intros Hl Hb. unfold with_output. change {| c_library := l; c_out := EMPTY |} with (entered l).
  specialize (Hb (entered l) (entered_unused l Hl)). destruct (body (entered l)) as [c status]. destruct Hb as [He Hw]. cbn in He, Hw.
  pose proof He as [Hn _].
  destruct (call_done l c status (next_handle l) Hl ltac:(lia) (elsewhere_controllers _ _ _ Hl He) Hn Hw) as [Hok Hret].
  by split; [|split].
Qed.

Lemma open_done path l : library_ok l → let '(l', out, handle, status) := vixen_open path (Some 0%N) (Some EMPTY) l in
  library_ok l' ∧ (∀ k, k ≠ next_handle l → controllers l' !! k = controllers l !! k) ∧
  (is_Some (controllers l' !! next_handle l) ↔ handle = Some (next_handle l)) ∧ returned l (l', out, status).
Proof.
  intros Hl. unfold vixen_open. change {| c_library := l; c_out := EMPTY |} with (entered l).
  pose proof (open_body_spec path (entered l) (entered_unused l Hl) (lo_controllers _ Hl)) as Hb.
  assert (controllers l !! next_handle l = None) as Hnone.
  { apply eq_None_not_Some. intros Hs%(lo_controllers _ Hl). lia. }
  destruct (open_body path (entered l)) as [c [h|e]].
  - destruct Hb as (_ & -> & Hn & Hw & e & Hcs). cbn [entered c_library] in *. cbn.
    destruct (call_done l c VIXEN_STATUS_OK (next_handle l + 1) Hl ltac:(lia)) as [Hok Hret]; [|done|by left|].
    { intros k. rewrite Hcs. intros [<-|[_ Hk%(lo_controllers _ Hl)]]%lookup_insert_is_Some; pose proof (lo_handle _ Hl); lia. }
    split; [exact Hok|]. split; [intros k Hne; by rewrite Hcs, lookup_insert_ne|]. split; [|exact Hret].
    rewrite Hcs, lookup_insert_eq. split; by intros _.
  - destruct Hb as (Hn & Hk & Hcs). cbn [entered c_library] in Hn, Hcs.
    pose proof (finish_accounts 0 (Err e) c (kept_unused _ _ Hk (entered_unused l Hl))) as Hf.
    destruct (finish_call (Err e) c) as [c2 status] eqn:Hfin.
    assert (controllers (c_library c2) = controllers (c_library c) ∧ next_handle (c_library c2) = next_handle (c_library c)) as [Hc2 Hn2].
    { change c2 with (c2, status).1. rewrite <- Hfin. apply finish_controllers. }
    change (_ ← Err e; Ok ()) with (Err e : result Thrown unit). rewrite Hfin. destruct Hf as [_ Hf]. cbn [is_ok] in Hf.
    assert (wrote (entered l) c2 ∨ (kept (entered l) c2 ∧ status ≠ VIXEN_STATUS_OK)) as Hw.
    { destruct Hf as [Hw|[Hk2 Hs]]; [left; by eapply kept_wrote|right; split; [by eapply kept_trans|done]]. }
    destruct (call_done l c2 status (next_handle (c_library c2)) Hl ltac:(lia)) as [Hok Hret]; [|done|exact Hw|].
    { intros k. rewrite Hc2, Hcs. intros Hs%(lo_controllers _ Hl). lia. }
    split; [exact Hok|]. rewrite Hc2, Hcs. split; [done|]. split; [|exact Hret]. rewrite Hnone. split; [by intros []|].
    intros [= Hz]. pose proof (lo_handle _ Hl). lia.
Qed.

(** What each call does to the two registries; [opened] is whether [vixen_open] gives a handle. *)
Definition opened (path : option (list N)) (out_handle : option N) (out : option VixenBuffer) (l : Library) : Prop :=
  match out with Some _ => (vixen_open path out_handle out l).1.2 = Some (next_handle l) | None => False end.
Definition exact_call (call : AbiCall) (out : option VixenBuffer) (l : Library) : Prop :=
  let '(l', out', status) := run_call call out l in
  library_ok l' ∧
  (∀ k, k ≠ subject call l → controllers l' !! k = controllers l !! k) ∧
  (is_Some (controllers l' !! subject call l) ↔
     match call with
     | CallOpen path out_handle => opened path out_handle out l
     | CallDestroy _ => False
     | _ => is_Some (controllers l !! subject call l)
     end) ∧
  match call, out with
  | CallBufferRelease t, _ => texts l' = delete t (texts l) ∧ out' = out ∧ (status = VIXEN_STATUS_OK ↔ is_Some (texts l !! t))
  | CallDestroy h, _ => texts l' = texts l ∧ out' = out ∧ (status = VIXEN_STATUS_OK ↔ is_Some (controllers l !! h))
  | _, None => texts l' = texts l ∧ out' = None ∧ status = VIXEN_STATUS_INVALID_ARGUMENT
  | _, Some _ => returned l (l', out', status)
  end.

Lemma no_controller_zero l : library_ok l → controllers l !! 0%N = None.
Proof. intros Hl. apply eq_None_not_Some. intros Hs%(lo_controllers _ Hl). lia. Qed.

Lemma release_exact t out l : library_ok l → exact_call (CallBufferRelease t) out l.
Proof.
  intros Hl. unfold exact_call. cbn. unfold vixen_buffer_release, release.
  assert (∀ b, next_buffer b = next_buffer (buffers l) → live b = delete t (texts l) → library_ok (set_buffers b l)) as Hok.
  { intros b Hn Hb. split; cbn; rewrite ?Hn, ?Hb.
    - etrans; [apply size_remove|apply (lo_size _ Hl)].
    - apply (lo_next _ Hl).
    - intros k x [_ Hk]%lookup_delete_Some. by apply (lo_texts _ Hl).
    - apply (lo_handle _ Hl).
    - apply (lo_controllers _ Hl). }
  destruct (N.eqb_spec t 0) as [->|Hne]; cbn.
  - assert (texts l !! 0%N = None) as Hzero.
    { apply eq_None_not_Some. intros [x Hx]. apply (lo_texts _ Hl) in Hx as [? _]. lia. }
    rewrite delete_id by done. split; [apply Hok; [done|by rewrite delete_id]|]. split; [done|]. split; [done|].
    split; [done|]. split; [done|]. rewrite Hzero. split; [done|by intros []].
  - destruct (texts l !! t) as [x|] eqn:Hx; cbn.
    + split; [by apply Hok|]. split; [done|]. split; [done|]. split; [done|]. split; [done|]. split; by intros _.
    + rewrite delete_id by done. split; [apply Hok; [done|by rewrite delete_id]|]. split; [done|]. split; [done|].
      split; [done|]. split; [done|]. split; [done|by intros []].
Qed.
Lemma destroy_exact h out l : library_ok l → exact_call (CallDestroy h) out l.
Proof.
  intros Hl. unfold exact_call. cbn. unfold vixen_destroy. destruct (N.eqb_spec h 0) as [->|Hne]; cbn.
  { rewrite (no_controller_zero l Hl). split; [exact Hl|]. split; [done|]. split; [split; [by intros []|done]|].
    split; [done|]. split; [done|]. split; [done|by intros []]. }
  destruct (controllers l !! h) as [e|] eqn:Hh; cbn.
  - split; [|split; [intros k Hk; by rewrite lookup_delete_ne|rewrite lookup_delete_eq]].
    + split; cbn; try apply Hl. intros k [y [_ Hk]%lookup_delete_Some]. by apply (lo_controllers _ Hl).
    + split; [split; [by intros []|done]|]. split; [done|]. split; [done|]. split; by intros _.
  - rewrite Hh. split; [exact Hl|]. split; [done|]. split; [split; [by intros []|done]|]. split; [done|]. split; [done|].
    split; [done|by intros []].
Qed.
Lemma open_exact path out_handle out l : library_ok l → exact_call (CallOpen path out_handle) out l.
Proof.
  intros Hl. unfold exact_call, opened. cbn [run_call subject].
  assert (controllers l !! next_handle l = None) as Hnone.
  { apply eq_None_not_Some. intros Hs%(lo_controllers _ Hl). lia. }
  destruct out as [o|].
  2: { cbn. rewrite Hnone. split; [exact Hl|]. split; [done|]. split; [split; [by intros []|done]|done]. }
  destruct out_handle as [n|].
  - pose proof (open_done path l Hl) as Ho. change (vixen_open path (Some 0%N) (Some EMPTY) l) with (vixen_open path (Some n) (Some o) l) in Ho.
    destruct (vixen_open path (Some n) (Some o) l) as [[[l' out'] handle] status]. cbn. exact Ho.
  - pose proof (with_output_done 0 (λ c, finish_call (Err (Fails (abi_invalid_argument (lit "output handle pointer must not be null")))) c) l Hl) as Ho.
    unfold vixen_open. change {| c_library := l; c_out := EMPTY |} with (entered l).
    unfold with_output in Ho. change {| c_library := l; c_out := EMPTY |} with (entered l) in Ho.
    assert (∀ c, unused_tokens c → answered 0 c (finish_call (Err (Fails (abi_invalid_argument (lit "output handle pointer must not be null")))) c)) as Ha.
    { intros c Hu. pose proof (finish_accounts 0 (Err (Fails (abi_invalid_argument (lit "output handle pointer must not be null")))) c Hu) as Hf.
      unfold answered. by destruct (finish_call _ c). }
    specialize (Ho Ha). pose proof (finish_controllers (Err (Fails (abi_invalid_argument (lit "output handle pointer must not be null")))) (entered l)) as [Hc _].
    destruct (finish_call _ (entered l)) as [c status]. cbn in *. destruct Ho as (Hok & _ & Hret). split; [exact Hok|]. rewrite Hc.
    split; [done|]. split; [|exact Hret]. rewrite Hnone. split; [by intros []|done].
Qed.

(** A call on a handle *)
Lemma handle_exact (call : AbiCall) h body out l : library_ok l →
  run_call call out l = with_output body out l → subject call l = h →
  match call with CallOpen _ _ | CallDestroy _ | CallBufferRelease _ => False | _ => True end →
  (∀ c, unused_tokens c → answered h c (body c)) → exact_call call out l.
Proof.
  intros Hl Hrun Hs Hcall Hb. unfold exact_call. rewrite Hrun, Hs. destruct out as [o|].
  - pose proof (with_output_done h body l Hl Hb) as Ho.
    change (with_output body (Some EMPTY) l) with (with_output body (Some o) l) in Ho.
    destruct (with_output body (Some o) l) as [[l' out'] status]. destruct Ho as (Hok & (_ & Hk & Hh) & Hret).
    split; [exact Hok|]. split; [exact Hk|]. by destruct call.
  - cbn. split; [exact Hl|]. split; [done|]. by destruct call.
Qed.

Lemma call_exact call out l : library_ok l → exact_call call out l.
Proof.
  intros Hl. destruct call as [path out_handle|h|h message|h|h timeout|t|h timeout|h message|h id png|h message|h].
  - by apply open_exact.
  - by apply destroy_exact.
  - eapply (handle_exact _ h); [done|reflexivity|done|done|]. intros c. apply command_answered.
  - eapply (handle_exact _ h); [done|reflexivity|done|done|]. intros c. apply event_answered, event_body_accounts.
  - cbn. destruct (VIXEN_MAX_WAIT_MILLISECONDS <? timeout)%N eqn:Ht.
    + eapply (handle_exact _ h); [done|cbn; unfold vixen_wait_event; rewrite Ht; reflexivity|done|done|]. intros c. apply failed_answered.
    + eapply (handle_exact _ h); [done|cbn; unfold vixen_wait_event; rewrite Ht; reflexivity|done|done|].
      intros c. apply event_answered, event_body_accounts.
  - by apply release_exact.
  - eapply (handle_exact _ h); [done|reflexivity|done|done|]. intros c Hu. cbv beta.
    destruct (VIXEN_MAX_WAIT_MILLISECONDS <? timeout)%N; [by apply failed_answered|]. by apply event_answered; [apply poll_accounts|].
  - eapply (handle_exact _ h); [done|reflexivity|done|done|]. intros c. apply run_body_answered. account.
  - eapply (handle_exact _ h); [done|reflexivity|done|done|]. intros c. apply run_body_answered. account.
  - eapply (handle_exact _ h); [done|reflexivity|done|done|]. intros c. apply run_body_answered. account.
  - eapply (handle_exact _ h); [done|reflexivity|done|done|]. intros c. apply run_body_answered. account.
Qed.

(** The library after some calls *)
Definition library_after (calls : list (AbiCall * option VixenBuffer)) : Library :=
  foldl (λ l x, (run_call x.1 x.2 l).1.1) Library_new calls.
Lemma library_after_ok calls : library_ok (library_after calls).
Proof.
  unfold library_after. assert (library_ok Library_new) as Hl.
  { split; cbn; [rewrite map_size_empty; lia|done|by intros ? ?; rewrite lookup_empty|done|by intros ?; rewrite lookup_empty; intros []]. }
  revert Hl. generalize Library_new. induction calls as [|[call out] calls IH]; intros l Hl; [done|]. cbn. apply IH.
  pose proof (call_exact call out l Hl) as Hc. unfold exact_call in Hc. cbn. destruct (run_call call out l) as [[l' out'] status].
  by destruct Hc.
Qed.

(** C39. A call of the C interface leaves no trace but its answer.  After any calls whatever, a call
    with any arguments keeps at most 64 buffers, none without a text, under tokens that are
    not zero and below the next one; it changes no controller but that of its handle, which is
    there afterwards exactly if it was before, is new where [vixen_open] gives a handle, and
    gone after [vixen_destroy]; and of the buffers it adds exactly the text that it returns,
    under a token not in use, or it returns nothing with a status that is not success, or
    releases the one buffer of its token. *)
Theorem calls_leave_their_answer calls call out :
  let l := library_after calls in
  library_ok l ∧ exact_call call out l.
Proof. split; [apply library_after_ok|]. apply call_exact, library_after_ok. Qed.

(** ** Events *)

(** There is room for a text in the registry. *)
Definition room (v : Value) (l : Library) : Prop :=
  (size (texts l) < VIXEN_MAX_OUTSTANDING_BUFFERS)%nat ∧ (next l < u64_max)%N ∧ (text_len v ≤ VIXEN_MAX_OUTPUT_BYTES)%N.
#[export] Instance room_dec v l : Decision (room v l).
Proof. unfold room. apply _. Defined.

Lemma write_json_room v c : room v (c_library c) →
  ∃ c', write_json v c = (c', Ok tt) ∧ c_out c' = {| vb_token := next (c_library c); vb_text := Some v |} ∧
        controllers (c_library c') = controllers (c_library c).
Proof.
  intros (Hs & Hn & Hv). unfold write_json, with_reservation, on_buffers, reserve, next_token, u64_succ.
  rewrite (proj2 (Nat.leb_gt _ _)), bool_decide_true by done. cbn [map_err].
  unfold write_reserved_json, or_fail, on_buffers, retain, lift, mbind, M_bind, throw_if, modify. rewrite (proj2 (N.ltb_ge _ _)) by done.
  cbn. rewrite lookup_insert_eq. cbn. by eexists.
Qed.
Lemma write_json_no_room v c : ¬ room v (c_library c) →
  ∃ c' e, write_json v c = (c', Err (Fails e)) ∧ controllers (c_library c') = controllers (c_library c) ∧ abi_status e ≠ VIXEN_STATUS_OK.
Proof.
  intros Hr. destruct (write_json v c) as [c' [[]|x]] eqn:Hw.
  - destruct Hr. unfold write_json, with_reservation, on_buffers in Hw. destruct (reserve (buffers (c_library c))) as [b [t|e]] eqn:Hres; [|done].
    cbn in Hw. unfold write_reserved_json, or_fail, on_buffers, retain, lift, mbind, M_bind, throw_if, modify in Hw.
    destruct (N.ltb_spec VIXEN_MAX_OUTPUT_BYTES (text_len v)); cbn in Hw; [done|].
    unfold reserve, next_token, u64_succ in Hres. destruct (Nat.leb_spec VIXEN_MAX_OUTSTANDING_BUFFERS (size (texts (c_library c)))); [done|].
    case_bool_decide; [|done]. by repeat split.
  - destruct (write_json_error _ _ _ _ Hw) as (e & -> & He). exists c', e. split; [done|]. split; [|done].
    change c' with (c', Err (Fails e) : result Thrown unit).1. rewrite <- Hw. apply write_controllers.
Qed.

(** What asking for an event of a handle does: the engine gives up its next event, and the
    event is delivered with the next number if there is room for it. *)
Definition delivery (h : N) (timeout : option N) (l : Library) : Prop :=
  match controllers l !! h with
  | None => True
  | Some entry =>
      let sequence := next_event_sequence entry in
      let '(engine, popped) := handle_pop timeout (co_handle (en_controller entry)) in
      let '(l', out, status) := event_impl h timeout (Some EMPTY) l in
      ∃ entry', controllers l' !! h = Some entry' ∧ co_handle (en_controller entry') = engine ∧
        match popped with
        | Ok (Some event) =>
            if decide (room (event_message sequence event) l ∧ (sequence < u64_max)%N)
            then status = VIXEN_STATUS_OK ∧ out = Some {| vb_token := next l; vb_text := Some (event_message sequence event) |} ∧
                 next_event_sequence entry' = (sequence + 1)%N
            else status ≠ VIXEN_STATUS_OK ∧ next_event_sequence entry' = sequence
        | Ok None => status = VIXEN_STATUS_NO_EVENT ∧ out = Some EMPTY ∧ next_event_sequence entry' = sequence
        | Err _ => status ≠ VIXEN_STATUS_OK ∧ next_event_sequence entry' = sequence
        end
  end.

Lemma finish_failed_status e c : abi_status e ≠ VIXEN_STATUS_OK → (finish_call (Err (Fails e)) c).2 ≠ VIXEN_STATUS_OK.
Proof.
  intros He. unfold finish_call. destruct (write_json (error_message e) c) as [c' [[]|x]] eqn:Hw; [done|].
  by destruct (write_json_error _ _ _ _ Hw) as (we & -> & Hne).
Qed.
Lemma pop_controller timeout c :
  match timeout with Some t => wait_next_event t | None => try_next_event end c =
  let '(engine, popped) := handle_pop timeout (co_handle c) in (set_handle engine c, popped).
Proof. by destruct timeout. Qed.

(** C40. Events are numbered without gaps, and the number of an event says nothing of those that
    were lost: after any calls, asking for an event takes the next one from the engine; if the
    registry has room for its text it is returned with the next number, and if not it is gone:
    the call fails, the number is not used up, and the next event will have it. *)
Theorem event_delivery calls h timeout : delivery h timeout (library_after calls).
Proof.
  pose proof (library_after_ok calls) as Hl. revert Hl. generalize (library_after calls). intros l Hl. unfold delivery.
  destruct (controllers l !! h) as [entry|] eqn:Hh; [|done]. pose proof (lo_controllers _ Hl h (mk_is_Some _ _ Hh)) as Hpos.
  destruct (handle_pop timeout (co_handle (en_controller entry))) as [engine popped] eqn:Hpop.
  unfold event_impl, with_output, event_body. change {| c_library := l; c_out := EMPTY |} with (entered l).
  set (taken := set_controller (set_handle engine (en_controller entry)) entry).
  set (c1 := on_controllers (<[h := taken]>) (entered l)).
  assert (controllers (c_library c1) !! h = Some taken) as Hc1 by (cbn; by rewrite lookup_insert_eq).
  assert (∀ e, abi_status e ≠ VIXEN_STATUS_OK → ∃ entry', controllers (c_library (finish_call (Err (Fails e)) c1).1) !! h = Some entry' ∧
    co_handle (en_controller entry') = engine ∧ (finish_call (Err (Fails e)) c1).2 ≠ VIXEN_STATUS_OK ∧ next_event_sequence entry' = next_event_sequence entry)
    as Hfail.
  { intros e He. exists taken. rewrite (proj1 (finish_controllers _ c1)). split; [exact Hc1|]. split; [done|]. split; [by apply finish_failed_status|done]. }
  unfold mbind at 1, M_bind at 1. unfold on_entry, controller_entry. rewrite (proj2 (N.eqb_neq h 0)) by lia. cbn [entered c_library].
  rewrite Hh. cbn [ok_or]. unfold mbind at 1, M_bind at 1. unfold on_controller at 1. rewrite pop_controller, Hpop.
  destruct popped as [[event|]|e]; cbn [map_err].
  - unfold get, mret, M_ret, mbind at 1, M_bind at 1. fold taken. fold c1. unfold or_fail, lift. unfold mbind at 1, M_bind at 1.
    change (next_event_sequence taken) with (next_event_sequence entry). unfold u64_succ.
    destruct (decide (room (event_message (next_event_sequence entry) event) l ∧ (next_event_sequence entry < u64_max)%N)) as [[Hr Hseq]|Hno].
    + rewrite bool_decide_true by done. cbn [ok_or map_err]. unfold mbind at 1, M_bind at 1.
      destruct (write_json_room _ c1 Hr) as (c2 & -> & Ho & Hc2). unfold modify, mbind, M_bind. cbn [fst].
      eexists. split; [cbn; rewrite lookup_alter_eq, Hc2, Hc1; reflexivity|]. cbn. rewrite Ho. done.
    + case_bool_decide as Hseq; cbn [ok_or map_err].
      * unfold mbind at 1, M_bind at 1. assert (¬ room (event_message (next_event_sequence entry) event) (c_library c1)) as Hr by (intros Hr; by apply Hno).
        destruct (write_json_no_room _ c1 Hr) as (c2 & e & -> & Hc2 & He).
        pose proof (finish_failed_status e c2 He) as Hst. pose proof (proj1 (finish_controllers (Err (Fails e)) c2)) as Hfc.
        destruct (finish_call _ c2) as [c3 status]. exists taken. cbn in *. rewrite Hfc, Hc2. split; [exact Hc1|]. done.
      * destruct (Hfail (internal "event sequence exhausted") ltac:(done)) as (entry' & He & Hco & Hst & Hs).
        destruct (finish_call _ c1) as [c3 status]. by exists entry'.
  - fold taken. fold c1. cbn. exists taken. by repeat split.
  - fold taken. fold c1. destruct (Hfail (browser_error e) ltac:(done)) as (entry' & He & Hco & Hst & Hs).
    change ((Fails ∘ browser_error) e) with (Fails (browser_error e)). destruct (finish_call (Err (Fails (browser_error e))) c1) as [c3 status]. by exists entry'.
Qed.
End calls.
